(* ===== verification/_CoqProject ===== *)
-Q . S2P
Prelude.v
Util.v
CString.v
Path.v
Allocator.v
PageAlloc.v
Kalloc.v
PageTable.v
Probe.v
PageRef.v
MemSpace.v
VirtPtr.v
VfsCache.v
StringMap.v
Schedule.v
Lock.v
Signals.v
Sprintf.v
Pipe.v
BigInt.v
Expr.v
Errors.v
MinixMaps.v
MinixNode.v
MinixRead.v
Timer.v
FileTable.v
VfsFs.v
VfsNode.v
Process.v
ProcSyscall.v
Tty.v
BlockDev.v
BlockCache.v
Virtio.v
FileSyscall.v
Random.v
Elf.v
Loader.v
Exec.v
Sort.v
