(* ===== verification/Prelude.v ===== *)
(** * some-os: a verification library for the kernel and its programs

    some-os is a small Unix-like operating system for 64-bit RISC-V: a kernel
    ([src/kernel/src]) and user programs ([src/userspace/src]).  This library
    models its C code as executable Rocq definitions and proves what makes the
    modelled parts correct.  The files are layered as the code is; every file but
    this one opens with a comment that says which source file it models and what
    its state stands for.

    ** The parts of the system and where they are

    Foundations
    - [Util], [CString], [Sprintf]: [util/util.c] (hashes, minimum, readers of
      big-endian words), [libc/lib/string.c], [memop.c], [sprintf.c].
    - [Random]: [util/random.c]; the cipher is compared with FIPS 197, and the key
      schedule and the counter, whose carries are lost, are taken as they are.
    - [StringMap]: [util/stringmap.c]; [Probe] holds what its hash table, that of
      [PageRef] and that of [VfsCache] share: linear probing.

    Memory
    - [Allocator]: the free lists of [memory/allocator.c], kept inside the free
      memory itself.  [PageAlloc] ([pagealloc.c], [reclaim.c]) and [Kalloc]
      ([kalloc.c]) are its two users, the second on top of the first.
    - [PageTable]: the Sv39 tables of [pagetable.c], built from the pages of
      [PageAlloc] through the interface [PageService].  [PageRef] counts shared
      pages ([pageref.c]).  [MemSpace] ([memspace.c], [memory/syscall.c]) joins
      the two to copy-on-write memory spaces, and [VirtPtr] ([virtptr.c])
      copies between them.

    Tasks and processes
    - [Lock]: [task/spinlock.c] and [task/tasklock.c] on the lock word of
      [util/riscv64/lock.S], as programs of single accesses to memory that all
      harts and tasks run at the same time ([Threads]), with a program logic in
      which a lock is a [Protocol].
    - [Schedule]: the ready queues of [task/schedule.c]; [Timer]:
      [interrupt/timer.c]; [Signals]: [process/signals.c].
    - [Process]: the tree of processes of [process/process.c], on the tasks of
      [Schedule] and the pending signals of [Signals]; [ProcSyscall]: the system
      calls of [process/syscall.c] on it.
    - [Elf]: [loader/elf.c], on the tables of [PageTable]; [Loader] and [Exec]:
      [loader/loader.c], the strings on the stack of a new program and the call
      that replaces a process, on [Process] and against what files and memory
      spaces promise ([KernelLaws]).

    Files
    - [Errors]: the results of fallible operations, and the interface [Device]
      of what a filesystem is stored on.
    - [MinixMaps], [MinixNode], [MinixRead]: the Minix filesystem of
      [files/minix/], against that interface.
    - [VfsCache] ([vfs/cache.c], [vfs/super.c]) counts the open nodes; [VfsNode]
      ([vfs/node.c]) checks permissions and delegates to the filesystem; [VfsFs]
      ([vfs/fs.c]) walks paths over mounts, against the interface [Nodes] of what
      the other two promise; [Path] is [files/path.c].
    - [FileTable]: the descriptors of a process, [files/process.c] and the calls of
      [files/syscall.c] that are about descriptors; [FileSyscall]: its other
      calls, and the open files of [vfs/file.c], against what the node of a file
      promises ([FileNodes]); [Pipe]: [special/pipe.c].

    Devices
    - [Tty]: the line discipline of [devices/serial/tty.c] on the registers of
      [uart16550.c].
    - [BlockDev]: the interface of a block device, and the files on one
      ([special/blkfile.c]); [BlockCache]: [devices/blockcache.c], which is such
      a device on top of another.
    - [Virtio]: the block driver of [devices/virtio/block.c] on the rings of
      [virtio.c], which it shares with the device.

    Programs
    - [BigInt], [Expr]: the decimal arithmetic and the evaluator of
      [userspace/src/expr/expr.c].
    - [Sort]: [userspace/src/sort/sort.c], from the parsed options to the output.

    ** How code is modelled

    - A machine integer is a [Z] with its wrap-around written out: [u64], [u32],
      [s32] and so on are below.  Where a count is a natural number, the file says
      why it cannot overflow.  [char] is unsigned, as on RISC-V.
    - A pointer is its address, and 0 is [NULL].  Objects live in stores by
      address, memory is a map of words or a byte for every address; a string
      argument is a list of characters.  An access outside of what is allocated
      is [None].
    - The state is passed explicitly.  [M] below is the monad of code that cannot
      fail, [Errors.R] that of code that returns an [Error]; [CHECKED] is its
      bind.  In both, [None] is a failed assertion or undefined behaviour, so
      that a theorem that an operation returns also says that it runs into
      neither.
    - A loop is a [Fixpoint] with fuel.  The definition that starts it gives an
      amount that depends on the state (the size of the store, the length of a
      list, the capacity of a table), and the theorems show that it is enough: no
      theorem has the form "if it returns".
    - The release build is modelled: without [DEBUG].
    - A lock that is held around an operation makes it one step; what happens
      between two sections of a lock is split into operations of its own.  The
      locks themselves are verified in [Lock], where every access to memory is a
      step; the critical sections that switch off preemption are modelled there
      and in [Virtio], where leaving one depends on the branch.
    - Code that is called through a function pointer, or belongs to a part that is
      not modelled, is a parameter; where a theorem relies on what it does, this
      is a class of laws or a hypothesis, and an example shows that it can hold.

    ** What is proved

    - The data structures implement what they stand for: the free lists a set of
      free memory, the hash tables finite maps, the ready queue a stable priority
      queue, the descriptor list a finite map, the pipe a byte stream, the
      terminal a machine that edits one character at a time, a cached disk the
      disk, the calls on files shared positions in sequences of bytes.
    - Invariants hold in every state that can be reached: mutual exclusion of the
      locks under every interleaving of their accesses (and no task is left waiting
      for a free one), the links of the process tree, the agreement of the cache with its
      disk, the confinement of user and group numbers, the shape of the generator's
      state.
    - Operations do what their callers rely on, on every branch: mapping a page,
      resolving a fault, forking, waiting, killing, looking a path up, checking a
      permission, opening and reading a file, waiting for one of several, taking a
      zone, loading an executable, replacing a program.
    - What is undone is as before: allocating and freeing, entering and leaving a
      signal handler, mounting and unmounting, writing and reading an inode.
    - The cipher of the random numbers is the standard's but for its key schedule,
      and is a permutation, so that the blocks of the generator under one key differ
      until its counter, which has 32 bits in effect, comes round.
    - Formatted printing writes the text that the format means, cut off where the
      buffer ends.
    - Programs compute what they are for: the calculator is compared with an
      unparser of its grammar and with integer arithmetic, and what the sorting program
      writes is a permutation in the order of its keys.
    - Where the code does not do what it means to, a lemma runs it on an example
      and shows what happens instead.

    ** What is not modelled

    Assembly and what touches the hardware directly (traps, control registers,
    the interrupt controllers, the device tree, the clock chip, board support);
    logging, panics and back traces; the start of the kernel; the programs other
    than the ones named above, which are mostly calls into the C library.  The list
    of components kept beside this library names these parts with the reason for
    each. *)
From stdpp Require Export base gmap list strings numbers option.
From Stdlib Require Export ZArith Lia.

Declare Scope c_scope.
Delimit Scope c_scope with C.

#[global] Open Scope Z_scope.

(** ** Machine integers

    A [w]-bit unsigned C integer is a [Z] in [0, 2^w).  The operations below
    write the wrap-around of the C operators out. *)

Definition wrap (w z : Z) : Z := z mod 2 ^ w.

Abbreviation u8 := (wrap 8).
Abbreviation u16 := (wrap 16).
Abbreviation u32 := (wrap 32).
Abbreviation u64 := (wrap 64).

(** The value of an unsigned 64-bit pattern read as [int64_t]. *)
Definition s64 (z : Z) : Z :=
  let v := u64 z in if v <? 2 ^ 63 then v else v - 2 ^ 64.

(** The value of an unsigned 32-bit pattern read as [int]. *)
Definition s32 (z : Z) : Z :=
  let v := u32 z in if v <? 2 ^ 31 then v else v - 2 ^ 32.

Notation "a +% b" := (u64 (a + b)) (at level 50, left associativity) : c_scope.
Notation "a -% b" := (u64 (a - b)) (at level 50, left associativity) : c_scope.
Notation "a *% b" := (u64 (a * b)) (at level 40, left associativity) : c_scope.

Create HintDb cint.

Lemma wrap_range w z : 0 <= w -> 0 <= wrap w z < 2 ^ w.
Proof. intros; apply Z.mod_pos_bound, Z.pow_pos_nonneg; lia. Qed.

Lemma wrap_small w z : 0 <= z < 2 ^ w -> wrap w z = z.
Proof. apply Z.mod_small. Qed.

Lemma wrap_wrap w z : wrap w (wrap w z) = wrap w z.
Proof. apply Zmod_mod. Qed.

#[export] Hint Rewrite wrap_wrap : cint.

Lemma u64_range z : 0 <= u64 z < 2 ^ 64.
Proof. apply wrap_range; lia. Qed.

#[export] Hint Resolve u64_range : cint.

Lemma wrap_add_l w a b : wrap w (wrap w a + b) = wrap w (a + b).
Proof. unfold wrap. apply Zplus_mod_idemp_l. Qed.

Lemma wrap_add_r w a b : wrap w (a + wrap w b) = wrap w (a + b).
Proof. unfold wrap. apply Zplus_mod_idemp_r. Qed.

Lemma wrap_mul_l w a b : wrap w (wrap w a * b) = wrap w (a * b).
Proof. unfold wrap. apply Zmult_mod_idemp_l. Qed.

Lemma wrap_sub_small w a b : 0 <= b <= a -> a < 2 ^ w -> wrap w (a - b) = a - b.
Proof. intros; apply wrap_small; lia. Qed.

Lemma s32_small z : - 2 ^ 31 <= z < 2 ^ 31 -> s32 z = z.
Proof.
  intros Hz. unfold s32, wrap. destruct (Z.lt_ge_cases z 0).
  - rewrite <- (Z.mod_unique z (2 ^ 32) (-1) (z + 2 ^ 32)) by lia. rewrite (proj2 (Z.ltb_ge _ _)) by lia. lia.
  - rewrite Z.mod_small by lia. by rewrite (proj2 (Z.ltb_lt _ _)) by lia.
Qed.

(** Removes every wrap-around whose argument [lia] can bound. *)
Ltac unwrap :=
  repeat match goal with
  | |- context [wrap ?w ?z] => rewrite (wrap_small w z) by lia
  | H : context [wrap ?w ?z] |- _ => rewrite (wrap_small w z) in H by lia
  end.

(** *** Bit ranges *)

Lemma high_bits_zero w x i : 0 <= x < 2 ^ w -> w <= i -> Z.testbit x i = false.
Proof.
  intros Hx Hi. destruct (Z.eq_dec x 0) as [->|]; [apply Z.testbit_0_l|].
  assert (0 <= w) by (destruct (Z.lt_ge_cases w 0); [rewrite Z.pow_neg_r in Hx|]; lia).
  apply Z.bits_above_log2; [lia|].
  apply Z.lt_le_trans with w; [apply Z.log2_lt_pow2; lia|lia].
Qed.

(** Two disjoint bit ranges: [|] is an addition. *)
Lemma lor_shiftl_add w h l :
  0 <= w -> 0 <= l < 2 ^ w -> Z.lor (Z.shiftl h w) l = h * 2 ^ w + l.
Proof.
  intros Hw Hl. rewrite <- Z.shiftl_mul_pow2 by lia.
  rewrite <- Z.lxor_lor, <- Z.add_nocarry_lxor; [reflexivity|..];
    apply Z.bits_inj'; intros i Hi; rewrite Z.land_spec, Z.bits_0, Z.shiftl_spec by lia;
    (destruct (Z.lt_ge_cases i w);
     [ rewrite (Z.testbit_neg_r h) by lia; reflexivity
     | rewrite (high_bits_zero w l) by lia; apply andb_false_r ]).
Qed.

(** *** Bit fields

    The field of [w] bits from bit [lo] on, and the word with [x] assigned to it. *)

Definition get_field (lo w e : Z) : Z := Z.land (Z.shiftr e lo) (Z.ones w).

Definition set_field (lo w e x : Z) : Z :=
  Z.lor (Z.ldiff e (Z.shiftl (Z.ones w) lo)) (Z.shiftl (Z.land x (Z.ones w)) lo).

Lemma testbit_mask lo w i :
  0 <= lo -> 0 <= w -> 0 <= i ->
  Z.testbit (Z.shiftl (Z.ones w) lo) i = (lo <=? i) && (i <? lo + w).
Proof.
  intros Hlo Hw Hi. rewrite Z.shiftl_spec by lia.
  destruct (Z.leb_spec lo i); cbn [andb]; [|by rewrite Z.testbit_neg_r by lia].
  rewrite Z.testbit_ones_nonneg by lia.
  destruct (Z.ltb_spec (i - lo) w), (Z.ltb_spec i (lo + w)); lia.
Qed.

Lemma testbit_set_field lo w e x i :
  0 <= lo -> 0 <= w -> 0 <= i ->
  Z.testbit (set_field lo w e x) i =
  if (lo <=? i) && (i <? lo + w) then Z.testbit x (i - lo) else Z.testbit e i.
Proof.
  intros Hlo Hw Hi. unfold set_field.
  rewrite Z.lor_spec, Z.ldiff_spec, testbit_mask, Z.shiftl_spec by lia.
  destruct (Z.leb_spec lo i); cbn [andb negb].
  - rewrite Z.land_spec, Z.testbit_ones_nonneg by lia.
    destruct (Z.ltb_spec (i - lo) w), (Z.ltb_spec i (lo + w)); try lia; cbn [negb];
      by rewrite ?andb_false_r, ?andb_true_r, ?orb_false_r.
  - rewrite (Z.testbit_neg_r _ (i - lo)) by lia. by rewrite andb_true_r, orb_false_r.
Qed.

Lemma testbit_get_field lo w e i :
  0 <= lo -> 0 <= w -> 0 <= i ->
  Z.testbit (get_field lo w e) i = (i <? w) && Z.testbit e (lo + i).
Proof.
  intros Hlo Hw Hi. unfold get_field. rewrite Z.land_spec, Z.shiftr_spec by lia.
  rewrite Z.testbit_ones_nonneg, andb_comm by lia. by rewrite Z.add_comm.
Qed.

Lemma get_set_same lo w e x :
  0 <= lo -> 0 <= w -> get_field lo w (set_field lo w e x) = Z.land x (Z.ones w).
Proof.
  intros Hlo Hw. apply Z.bits_inj'. intros i Hi.
  rewrite testbit_get_field, testbit_set_field, Z.land_spec, Z.testbit_ones_nonneg, andb_comm by lia.
  destruct (Z.ltb_spec i w); [|by rewrite !andb_false_r].
  rewrite (proj2 (Z.leb_le lo (lo + i))), (proj2 (Z.ltb_lt (lo + i) (lo + w))) by lia.
  cbn [andb]. do 2 f_equal. lia.
Qed.

Lemma get_set_other lo w lo' w' e x :
  0 <= lo -> 0 <= w -> 0 <= lo' -> 0 <= w' -> lo + w <= lo' \/ lo' + w' <= lo ->
  get_field lo w (set_field lo' w' e x) = get_field lo w e.
Proof.
  intros Hlo Hw Hlo' Hw' Hd. apply Z.bits_inj'. intros i Hi.
  rewrite !testbit_get_field, testbit_set_field by lia.
  destruct (Z.ltb_spec i w); [|done]. cbn [andb].
  destruct (Z.leb_spec lo' (lo + i)), (Z.ltb_spec (lo + i) (lo' + w')); try lia; done.
Qed.

Lemma get_field_range lo w e : 0 <= w -> 0 <= get_field lo w e < 2 ^ w.
Proof. intros. unfold get_field. rewrite Z.land_ones by lia. by apply Z.mod_pos_bound, Z.pow_pos_nonneg. Qed.

(** *** Alignment *)

Lemma land_neg_pow2 k x :
  0 <= k -> Z.land x (- 2 ^ k) = x - x mod 2 ^ k.
Proof.
  intros Hk.
  assert (Hp : 0 < 2 ^ k) by (apply Z.pow_pos_nonneg; lia).
  rewrite <- Z.land_ones by lia.
  replace (- 2 ^ k) with (Z.lnot (Z.ones k)).
  - rewrite <- Z.ldiff_land.
    assert (E : Z.ldiff x (Z.ones k) = Z.shiftl (Z.shiftr x k) k).
    { apply Z.ldiff_ones_r; lia. }
    rewrite E, Z.shiftl_mul_pow2, Z.shiftr_div_pow2, Z.land_ones by lia.
    pose proof (Z.div_mod x (2 ^ k)). lia.
  - rewrite Z.ones_equiv. unfold Z.lnot. lia.
Qed.

(** [x & -2^k] on 64-bit values, as the sources write alignment masks. *)
Lemma land_mask64 k x :
  0 <= k <= 64 -> 0 <= x < 2 ^ 64 ->
  Z.land x (u64 (- 2 ^ k)) = x - x mod 2 ^ k.
Proof.
  intros Hk Hx. unfold wrap.
  rewrite <- land_neg_pow2 by lia.
  rewrite <- (Z.land_ones (- 2 ^ k)) by lia.
  rewrite (Z.land_comm (- 2 ^ k)), Z.land_assoc, Z.land_ones by lia.
  rewrite (Z.mod_small x) by lia. reflexivity.
Qed.

Definition align_down (b x : Z) : Z := x - x mod b.
Definition align_up (b x : Z) : Z := align_down b (x + b - 1).

Lemma align_down_le b x : 0 < b -> x - b < align_down b x <= x.
Proof. intros. unfold align_down. pose proof (Z.mod_pos_bound x b). lia. Qed.

Lemma align_down_mod b x : 0 < b -> align_down b x mod b = 0.
Proof.
  intros. unfold align_down. rewrite Zminus_mod, Zmod_mod, Z.sub_diag. apply Z.mod_0_l; lia.
Qed.

Lemma align_down_id b x : 0 < b -> x mod b = 0 -> align_down b x = x.
Proof. unfold align_down; lia. Qed.

Lemma align_up_spec b x : 0 < b -> x <= align_up b x < x + b.
Proof. intros. unfold align_up. pose proof (align_down_le b (x + b - 1)). lia. Qed.

Lemma align_up_mod b x : 0 < b -> align_up b x mod b = 0.
Proof. apply align_down_mod. Qed.

Lemma mod_add_multiple a b n : a mod n = 0 -> b mod n = 0 -> (a + b) mod n = 0.
Proof. intros Ha Hb. rewrite Zplus_mod, Ha, Hb. apply Zmod_0_l. Qed.

(** ** Faulting state passing

    [M St A] is a C computation on the state [St]: [None] is a failed
    [assert], a [panic], a read of memory that does not exist or a loop that
    ran out of fuel; [Some (a, s)] is a normal return. *)

Definition M (St A : Type) : Type := St -> option (A * St).

#[global] Instance M_ret (St : Type) : MRet (M St) := fun A a s => Some (a, s).

#[global] Instance M_bind (St : Type) : MBind (M St) := fun A B k c s =>
  match c s with
  | Some (a, s') => k a s'
  | None => None
  end.

Definition fault {St A : Type} : M St A := fun _ => None.

Definition massert {St : Type} (b : bool) : M St unit :=
  fun s => if b then Some (tt, s) else None.

(** Word addressed kernel memory: one 64-bit word per address. *)
Abbreviation mem := (gmap Z Z).

Definition load (a : Z) : M mem Z := fun m => v ← m !! a; Some (v, m).

Definition store (a v : Z) : M mem unit := fun m => Some (tt, <[a := v]> m).

Lemma bind_load {B : Type} (a v : Z) (k : Z -> M mem B) (m : mem) :
  m !! a = Some v -> mbind (M := M mem) k (load a) m = k v m.
Proof. intros H. unfold mbind, M_bind, load. rewrite H. reflexivity. Qed.

Lemma bind_store {B : Type} (a v : Z) (k : unit -> M mem B) (m : mem) :
  mbind (M := M mem) k (store a v) m = k tt (<[a := v]> m).
Proof. reflexivity. Qed.

Lemma bind_assert {St B : Type} (b : bool) (k : unit -> M St B) (s : St) :
  b = true -> mbind (M := M St) k (massert b) s = k tt s.
Proof. intros ->. reflexivity. Qed.

Lemma bind_ret {St A B : Type} (a : A) (k : A -> M St B) (s : St) :
  mbind (M := M St) k (mret (M := M St) a) s = k a s.
Proof. reflexivity. Qed.

Lemma bind_some {St A B : Type} (c : M St A) (k : A -> M St B) (s s' : St) (a : A) :
  c s = Some (a, s') -> mbind (M := M St) k c s = k a s'.
Proof. intros H. unfold mbind, M_bind. rewrite H. reflexivity. Qed.

Lemma bind_assoc {St A B C : Type} (c : M St A) (j : A -> M St B) (k : B -> M St C) (s : St) :
  mbind (M := M St) k (mbind (M := M St) j c) s
  = mbind (M := M St) (fun a => mbind (M := M St) k (j a)) c s.
Proof. unfold mbind, M_bind. by destruct (c s) as [[a s']|]. Qed.

(** Runs the loads, stores, assertions and returns at the head of a
    computation, with the loaded words looked up by [tac]. *)
Ltac run_with tac :=
  repeat first
    [ rewrite bind_assoc
    | rewrite bind_store
    | rewrite bind_ret
    | erewrite bind_load by tac ].

(** ** Characters and C strings

    A [char] is a [Z] in [0, 256) ([char] is unsigned on riscv64); a C string
    is its characters without the terminating NUL, and a buffer is the list of
    all its bytes. *)

Definition char_of (a : Ascii.ascii) : Z := Z.of_N (Ascii.N_of_ascii a).

Definition cstr (s : string) : list Z := char_of <$> String.list_ascii_of_string s.

Definition is_char (c : Z) : Prop := 0 <= c < 256.

(** A string has no NUL inside. *)
Definition is_cstr (s : list Z) : Prop := Forall (fun c => 0 < c < 256) s.

(** A buffer that holds the C string [s]: [s], the NUL, and any rest. *)
Definition holds_cstr (buf s : list Z) : Prop :=
  is_cstr s /\ exists rest, buf = s ++ 0 :: rest.

(** The store [buf[i] = c] into a buffer; [None] is a store out of range. *)
Definition buf_set (buf : list Z) (i : nat) (c : Z) : option (list Z) :=
  if decide (i < length buf)%nat then Some (<[i := c]> buf) else None.

Lemma buf_set_in buf i c :
  (i < length buf)%nat -> buf_set buf i c = Some (<[i := c]> buf).
Proof. intros. unfold buf_set. by rewrite decide_True by lia. Qed.

(** ** Loops

    [while fuel cond body s] is the C loop [while (cond) body] on the local
    state [s]; the condition and the body may fault. *)

Fixpoint while {St : Type} (fuel : nat) (cond : St -> option bool)
    (body : St -> option St) (s : St) : option St :=
  match fuel with
  | O => None
  | S fuel' =>
      b ← cond s;
      if b : bool then s' ← body s; while fuel' cond body s' else Some s
  end.

(** Total correctness of a loop: an invariant, and a measure below the fuel
    that every iteration decreases. *)
Lemma while_rule {St : Type} (I : St -> Prop) (mu : St -> nat)
    (cond : St -> option bool) (body : St -> option St) :
  (forall s, I s -> exists b, cond s = Some b /\
     (b = true -> exists s', body s = Some s' /\ I s' /\ (mu s' < mu s)%nat)) ->
  forall fuel s, I s -> (mu s < fuel)%nat ->
  exists s', while fuel cond body s = Some s' /\ I s' /\ cond s' = Some false.
Proof.
  intros Hstep. induction fuel as [|fuel IH]; intros s HI Hmu; [lia|].
  destruct (Hstep s HI) as (b & Hc & Hb). cbn. rewrite Hc. cbn. destruct b.
  - destruct (Hb eq_refl) as (s' & -> & HI' & Hlt). cbn. apply IH; [done|lia].
  - eauto.
Qed.

(** ** Byte memory

    The memory the [mem*] functions work on: a byte at every address.  A
    64-bit access is the little-endian value of eight bytes. *)

Definition bytes : Type := Z -> Z.

Definition wr (m : bytes) (a v : Z) : bytes := fun x => if x =? a then v else m x.

Fixpoint load_le (n : nat) (m : bytes) (a : Z) : Z :=
  match n with
  | O => 0
  | S n' => m a + 2 ^ 8 * load_le n' m (a + 1)
  end.

Fixpoint store_le (n : nat) (m : bytes) (a v : Z) : bytes :=
  match n with
  | O => m
  | S n' => store_le n' (wr m a (v mod 2 ^ 8)) (a + 1) (v / 2 ^ 8)
  end.

Definition byte_mem (m : bytes) : Prop := forall a, is_char (m a).

Lemma wr_spec m a v x : wr m a v x = if x =? a then v else m x.
Proof. reflexivity. Qed.

Lemma load_le_range n m a : byte_mem m -> 0 <= load_le n m a < 2 ^ (8 * Z.of_nat n).
Proof.
  intros Hm. revert a. induction n as [|n IH]; intros a; cbn [load_le]; [cbn; lia|].
  specialize (IH (a + 1)). specialize (Hm a). unfold is_char in Hm.
  replace (8 * Z.of_nat (S n)) with (8 + 8 * Z.of_nat n) by lia.
  rewrite Z.pow_add_r by lia. nia.
Qed.

(** Storing the value read from [src] copies the bytes one by one. *)
Lemma store_load_le n m0 m src dst x :
  byte_mem m0 ->
  store_le n m dst (load_le n m0 src) x =
  if (dst <=? x) && (x <? dst + Z.of_nat n) then m0 (src + (x - dst)) else m x.
Proof.
  intros Hm. revert m src dst. induction n as [|n IH]; intros m src dst; cbn [load_le store_le].
  - destruct (Z.leb_spec dst x), (Z.ltb_spec x (dst + Z.of_nat 0)); try lia; done.
  - pose proof (Hm src) as Hc. unfold is_char in Hc. pose proof (load_le_range n m0 (src + 1) Hm).
    rewrite (Z.mul_comm (2 ^ 8)), Z.mod_add, Z.mod_small, Z.div_add, Z.div_small, Z.add_0_l by lia.
    rewrite IH, wr_spec.
    destruct (Z.eqb_spec x dst), (Z.leb_spec dst x), (Z.leb_spec (dst + 1) x),
      (Z.ltb_spec x (dst + Z.of_nat (S n))), (Z.ltb_spec x (dst + 1 + Z.of_nat n));
      cbn [andb]; try lia; try done; f_equal; lia.
Qed.

(** ** The last key of a list

    The tail pointer of a linked list whose nodes are the keys; [0] is [NULL]. *)

Section LastOf.
Context {A : Type}.

Fixpoint last_of (l : list (Z * A)) : Z :=
  match l with
  | [] => 0
  | x :: l' => match l' with [] => fst x | _ => last_of l' end
  end.

Lemma last_of_app l1 l2 : last_of (l1 ++ l2) = match l2 with [] => last_of l1 | _ => last_of l2 end.
Proof.
  induction l1 as [|x l1 IH]; [by destruct l2|]. destruct l2 as [|y l2]; [by rewrite app_nil_r|].
  cbn [app last_of]. destruct (l1 ++ y :: l2) eqn:E; [by destruct l1|]. by rewrite IH.
Qed.

Lemma last_of_app_cons l1 x l2 : last_of (l1 ++ x :: l2) = last_of (x :: l2).
Proof. apply last_of_app. Qed.

Lemma last_of_snoc l x : last_of (l ++ [x]) = fst x.
Proof. apply last_of_app. Qed.

Lemma last_of_in l : l <> [] -> last_of l ∈ fst <$> l.
Proof.
  induction l as [|x l IH]; intros Hl; [done|]. cbn. destruct l as [|y l]; [by left|].
  right. by apply IH.
Qed.

Lemma last_of_split l : l <> [] -> exists l' p, l = l' ++ [(last_of l, p)].
Proof.
  destruct l as [|x l _] using rev_ind; [done|]. intros _. exists l, (snd x). rewrite last_of_snoc. by destruct x.
Qed.

End LastOf.

(** [NoDup] is Stdpp's here. *)
Lemma nodup_cons {A : Type} (x : A) l : NoDup (x :: l) <-> (x ∉ l) /\ NoDup l.
Proof.
  split; [intros H; split; [by apply NoDup_cons_1_1 in H|by apply NoDup_cons_1_2 in H]|].
  intros [H1 H2]. by apply NoDup_cons_2.
Qed.

(** ** Byte ranges

    A buffer or a disk is a byte for every index; [bytes_at] reads a range, and
    [put_bytes] writes one.  [tab n f] is the list of the first [n] values. *)

Definition bytes_at (f : Z -> Z) (a n : Z) : list Z := (fun i => f (a + i)) <$> seqZ 0 n.
Definition put_bytes (f : Z -> Z) (a : Z) (l : list Z) : Z -> Z :=
  fun x => if (a <=? x) && (x <? a + Z.of_nat (length l)) then default 0 (l !! Z.to_nat (x - a)) else f x.

Definition tab (n : Z) (f : Z -> Z) : list Z := f <$> seqZ 0 n.

Lemma tab_length n f : length (tab n f) = Z.to_nat n.
Proof. unfold tab. by rewrite length_fmap, length_seqZ. Qed.

Lemma tab_lookup n f i : tab n f !! i = if decide (i < Z.to_nat n)%nat then Some (f (Z.of_nat i)) else None.
Proof.
  unfold tab. rewrite list_lookup_fmap. destruct (decide _).
  - rewrite lookup_seqZ_lt by lia. done.
  - rewrite lookup_seqZ_ge by lia. done.
Qed.

Lemma tab_ext n f g : (forall i, 0 <= i < n -> f i = g i) -> tab n f = tab n g.
Proof.
  intros H. apply list_eq. intros i. rewrite !tab_lookup. destruct (decide _); [|done]. f_equal. apply H. lia.
Qed.

Lemma tab_app a b f g :
  0 <= a -> 0 <= b -> tab a f ++ tab b g = tab (a + b) (fun i => if i <? a then f i else g (i - a)).
Proof.
  intros Ha Hb. apply list_eq. intros i. rewrite tab_lookup. destruct (Nat.lt_ge_cases i (Z.to_nat a)).
  - rewrite lookup_app_l by (rewrite tab_length; lia). rewrite tab_lookup, !decide_True by lia.
    f_equal. by rewrite (proj2 (Z.ltb_lt _ _)) by lia.
  - rewrite lookup_app_r by (rewrite tab_length; lia). rewrite tab_length, tab_lookup.
    destruct (decide (i - Z.to_nat a < Z.to_nat b)%nat).
    + rewrite decide_True by lia. f_equal. rewrite (proj2 (Z.ltb_ge _ _)) by lia. f_equal. lia.
    + by rewrite decide_False by lia.
Qed.

Lemma tab_take k n f : 0 <= k <= n -> take (Z.to_nat k) (tab n f) = tab k f.
Proof.
  intros H. apply list_eq. intros i. destruct (Nat.lt_ge_cases i (Z.to_nat k)).
  - rewrite lookup_take_lt by done. rewrite !tab_lookup, !decide_True by lia. done.
  - rewrite lookup_take_ge by done. by rewrite tab_lookup, decide_False by lia.
Qed.

Lemma tab_drop k n f : 0 <= k <= n -> drop (Z.to_nat k) (tab n f) = tab (n - k) (fun i => f (k + i)).
Proof.
  intros H. apply list_eq. intros i. rewrite lookup_drop, !tab_lookup.
  destruct (decide (i < Z.to_nat (n - k))%nat).
  - rewrite decide_True by lia. do 2 f_equal. lia.
  - by rewrite decide_False by lia.
Qed.

Lemma tab_split k n f : 0 <= k <= n -> tab n f = tab k f ++ tab (n - k) (fun i => f (k + i)).
Proof.
  intros H. rewrite <- (take_drop (Z.to_nat k) (tab n f)) at 1. by rewrite (tab_take _ _ _ H), (tab_drop _ _ _ H).
Qed.

Lemma replicate_tab n x : replicate (Z.to_nat n) x = tab n (fun _ => x).
Proof.
  apply list_eq. intros i. rewrite tab_lookup. destruct (decide _).
  - by apply lookup_replicate_2.
  - apply lookup_replicate_None. lia.
Qed.

Lemma bytes_at_tab f a n : bytes_at f a n = tab n (fun i => f (a + i)).
Proof. done. Qed.

Lemma put_bytes_tab f a n g x :
  0 <= n -> put_bytes f a (tab n g) x = if (a <=? x) && (x <? a + n) then g (x - a) else f x.
Proof.
  intros Hn. unfold put_bytes. rewrite tab_length, Z2Nat.id by done.
  destruct (Z.leb_spec a x), (Z.ltb_spec x (a + n)); cbn [andb]; try done.
  rewrite tab_lookup, decide_True by lia. cbn. f_equal. lia.
Qed.

Lemma bytes_at_put f a l : bytes_at (put_bytes f a l) a (Z.of_nat (length l)) = l.
Proof.
  apply list_eq. intros i. rewrite bytes_at_tab, tab_lookup, Nat2Z.id. unfold put_bytes. destruct (decide _) as [Hi|Hi].
  - destruct (lookup_lt_is_Some_2 l i Hi) as [x Hx]. rewrite Hx.
    rewrite (proj2 (Z.leb_le _ _)), (proj2 (Z.ltb_lt _ _)) by lia. cbn.
    replace (Z.to_nat (a + Z.of_nat i - a)) with i by lia. by rewrite Hx.
  - symmetry. apply lookup_ge_None_2. lia.
Qed.

Lemma bytes_at_ext f g a n : (forall i, 0 <= i < n -> f (a + i) = g (a + i)) -> bytes_at f a n = bytes_at g a n.
Proof. rewrite !bytes_at_tab. apply tab_ext. Qed.

Lemma put_bytes_app (m : bytes) a l1 l2 x :
  put_bytes (put_bytes m a l1) (a + Z.of_nat (length l1)) l2 x = put_bytes m a (l1 ++ l2) x.
Proof.
  unfold put_bytes. rewrite length_app.
  destruct (Z.leb_spec a x), (Z.leb_spec (a + Z.of_nat (length l1)) x), (Z.ltb_spec x (a + Z.of_nat (length l1))),
    (Z.ltb_spec x (a + Z.of_nat (length l1) + Z.of_nat (length l2))), (Z.ltb_spec x (a + Z.of_nat (length l1 + length l2)));
    try lia; cbn [andb]; try done.
  - rewrite lookup_app_r by lia. do 2 f_equal. lia.
  - by rewrite lookup_app_l by lia.
Qed.

(** A range of one memory copied into another. *)
Definition copied (f : bytes) (a n : Z) (g : bytes) (b : Z) : bytes :=
  fun x => if (a <=? x) && (x <? a + n) then g (b + (x - a)) else f x.

Lemma put_bytes_copied f a n g b x : 0 <= n -> put_bytes f a (bytes_at g b n) x = copied f a n g b x.
Proof. intros Hn. by rewrite bytes_at_tab, put_bytes_tab. Qed.

(** Two ranges next to each other are one. *)
Lemma copied_app f f' g g' a b n k x :
  0 <= n -> 0 <= k ->
  (forall y, f' y = copied f a n g b y) -> (forall i, 0 <= i < k -> g' (b + n + i) = g (b + n + i)) ->
  copied f' (a + n) k g' (b + n) x = copied f a (n + k) g b x.
Proof.
  intros Hn Hk Hf Hg. unfold copied at 1. rewrite Hf. unfold copied.
  destruct (Z.leb_spec (a + n) x), (Z.ltb_spec x (a + n + k)), (Z.leb_spec a x), (Z.ltb_spec x (a + (n + k))),
    (Z.ltb_spec x (a + n)); cbn [andb]; try lia; try done.
  rewrite Hg by lia. f_equal. lia.
Qed.

Lemma copied_0 f a g b x : copied f a 0 g b x = f x.
Proof. unfold copied. destruct (Z.leb_spec a x), (Z.ltb_spec x (a + 0)); try done; lia. Qed.

Lemma bytes_at_char f a n : (forall x, is_char (f x)) -> Forall is_char (bytes_at f a n).
Proof. intros H. apply Forall_fmap, Forall_forall. intros x _. apply H. Qed.

Lemma bytes_at_length f a n : 0 <= n -> Z.of_nat (length (bytes_at f a n)) = n.
Proof. intros Hn. rewrite bytes_at_tab, tab_length. lia. Qed.
