(* ===== verification/Util.v ===== *)
(** * Util: [kernel/src/util/util.c]

    Minimum and maximum, the integer and string hashes used by every hash table
    of the kernel, and the big-endian readers the device-tree parser uses.

    A [uint8_t*] argument is the list of the bytes from the pointer on;
    reading past its end is [None]. *)
From S2P Require Import Prelude.

Local Open Scope c_scope.

Module Util.

(** ** Definitions *)

Definition umin (a b : Z) : Z := if a <? b then a else b.

Definition umax (a b : Z) : Z := if a >? b then a else b.

(** [int64_t] arguments are their signed values. *)
Definition smin (a b : Z) : Z := if a <? b then a else b.

Definition smax (a b : Z) : Z := if a >? b then a else b.

(** [x ^ (x >> k)], the mixing step of both integer hashes. *)
Definition xorshift (k x : Z) : Z := Z.lxor x (Z.shiftr x k).

Definition hashInt64 (x : Z) : Z :=
  let x := xorshift 30 x *% 0xbf58476d1ce4e5b9 in
  let x := xorshift 27 x *% 0x94d049bb133111eb in
  let x := xorshift 31 x in
  x.

Definition hashInt32 (x : Z) : Z :=
  let x := u32 (xorshift 15 x * 0xd168aaad) in
  let x := u32 (xorshift 15 x * 0xaf723597) in
  let x := xorshift 15 x in
  x.

Fixpoint hashString_loop (s : list Z) (hash : Z) : Z :=
  match s with
  | [] => hash
  | c :: s' => hashString_loop s' ((hash *% 293) +% c)
  end.

Definition hashString (s : list Z) : Z := hashInt64 (hashString_loop s 7919).

Definition hashCombine (first second : Z) : Z :=
  Z.lxor first
    (second +% 0x9e3779b9 +% u64 (Z.shiftl first 6) +% Z.shiftr first 2).

Definition read16be (bytes : list Z) : option Z :=
  b0 ← bytes !! 0%nat;
  b1 ← bytes !! 1%nat;
  Some (u16 (Z.lor (Z.shiftl b0 8) b1)).

Definition read32be (bytes : list Z) : option Z :=
  h ← read16be bytes;
  l ← read16be (drop 2 bytes);
  Some (Z.lor (u32 (Z.shiftl h 16)) l).

Definition read64be (bytes : list Z) : option Z :=
  h ← read32be bytes;
  l ← read32be (drop 4 bytes);
  Some (Z.lor (u64 (Z.shiftl h 32)) l).

(** ** Lemmas *)

Lemma umin_spec a b : umin a b = Z.min a b.
Proof. unfold umin. destruct (Z.ltb_spec a b); lia. Qed.

Lemma umax_spec a b : umax a b = Z.max a b.
Proof. unfold umax. rewrite Z.gtb_ltb. destruct (Z.ltb_spec b a); lia. Qed.

Lemma xorshift_range w k x : 0 <= w -> 0 <= k -> 0 <= x < 2 ^ w -> 0 <= xorshift k x < 2 ^ w.
Proof.
  intros Hw Hk Hx. unfold xorshift.
  assert (Hs : 0 <= Z.shiftr x k) by (apply Z.shiftr_nonneg; lia).
  assert (0 <= Z.lxor x (Z.shiftr x k)) by (apply Z.lxor_nonneg; lia).
  split; [lia|].
  destruct (Z.eq_dec (Z.lxor x (Z.shiftr x k)) 0) as [->|]; [lia|].
  apply Z.log2_lt_cancel. rewrite Z.log2_pow2 by lia.
  apply Z.nle_gt. intros Hle.
  pose proof (Z.bit_log2 (Z.lxor x (Z.shiftr x k)) ltac:(lia)) as Hb.
  rewrite Z.lxor_spec, Z.shiftr_spec in Hb by lia.
  rewrite !(high_bits_zero w) in Hb by lia. discriminate.
Qed.

(** The mixing step loses nothing: bit [i] of [x] is bit [i] of the result
    against bit [i + k] of [x], so the bits are recovered from the top down. *)
Lemma xorshift_inj w k x y :
  0 < k -> 0 <= x < 2 ^ w -> 0 <= y < 2 ^ w -> xorshift k x = xorshift k y -> x = y.
Proof.
  intros Hk Hx Hy E.
  assert (0 <= w) by (destruct (Z.lt_ge_cases w 0); [rewrite Z.pow_neg_r in Hx|]; lia).
  assert (Hbits : forall n : nat, forall i, w - Z.of_nat n <= i -> 0 <= i ->
                    Z.testbit x i = Z.testbit y i).
  { induction n as [|n IH]; intros i Hi Hi0.
    - rewrite !(high_bits_zero w) by lia. reflexivity.
    - pose proof (f_equal (fun z => Z.testbit z i) E) as Ei. cbn in Ei. unfold xorshift in Ei.
      rewrite !Z.lxor_spec, !Z.shiftr_spec in Ei by lia.
      rewrite (IH (i + k)) in Ei by lia.
      destruct (Z.testbit x i), (Z.testbit y i), (Z.testbit y (i + k)); cbn in Ei; congruence. }
  apply Z.bits_inj'. intros i Hi. apply (Hbits (Z.to_nat w)); lia.
Qed.

(** Multiplication by a constant with an inverse modulo [2^w] is injective. *)
Lemma wrap_mul_inj w c d x y :
  wrap w (c * d) = 1 mod 2 ^ w -> 0 <= x < 2 ^ w -> 0 <= y < 2 ^ w ->
  wrap w (x * c) = wrap w (y * c) -> x = y.
Proof.
  intros Hcd Hx Hy E.
  assert (Hrec : forall z, 0 <= z < 2 ^ w -> wrap w (wrap w (z * c) * d) = z).
  { intros z Hz. rewrite wrap_mul_l, <- Z.mul_assoc. unfold wrap in *.
    rewrite Zmult_mod, Hcd, <- Zmult_mod, Z.mul_1_r. apply Z.mod_small; lia. }
  rewrite <- (Hrec x Hx), <- (Hrec y Hy), E. reflexivity.
Qed.

Lemma hashInt64_range x : 0 <= x < 2 ^ 64 -> 0 <= hashInt64 x < 2 ^ 64.
Proof. intros. unfold hashInt64. apply xorshift_range; [lia..|]. apply u64_range. Qed.

Lemma hashString_range s : 0 <= hashString s < 2 ^ 64.
Proof.
  apply hashInt64_range.
  enough (forall h, 0 <= h < 2 ^ 64 -> 0 <= hashString_loop s h < 2 ^ 64) as H
    by (apply H; lia).
  induction s as [|c s IH]; intros h Hh; cbn; [done|]. apply IH, u64_range.
Qed.

(** [n] big-endian bytes of [v]: what the flattened device tree stores. *)
Fixpoint be_bytes (n : nat) (v : Z) : list Z :=
  match n with
  | O => []
  | S n' => (v / 2 ^ (8 * Z.of_nat n')) mod 2 ^ 8 :: be_bytes n' v
  end.

Lemma read16be_spec b0 b1 rest :
  is_char b0 -> is_char b1 -> read16be (b0 :: b1 :: rest) = Some (b0 * 2 ^ 8 + b1).
Proof.
  unfold is_char. intros H0 H1. cbn -[Z.shiftl Z.lor Z.pow].
  rewrite lor_shiftl_add by lia. by rewrite wrap_small by lia.
Qed.

Lemma read32be_spec b0 b1 b2 b3 rest :
  is_char b0 -> is_char b1 -> is_char b2 -> is_char b3 ->
  read32be (b0 :: b1 :: b2 :: b3 :: rest)
  = Some (b0 * 2 ^ 24 + b1 * 2 ^ 16 + b2 * 2 ^ 8 + b3).
Proof.
  intros H0 H1 H2 H3. unfold read32be. cbn [drop].
  rewrite !read16be_spec by done. cbn -[Z.shiftl Z.lor Z.pow Z.add Z.mul].
  unfold is_char in *. rewrite wrap_small by (rewrite Z.shiftl_mul_pow2 by lia; lia).
  rewrite lor_shiftl_add by lia. f_equal. lia.
Qed.

Lemma be_bytes_char n v : Forall is_char (be_bytes n v).
Proof.
  induction n; cbn -[Z.pow]; constructor; [|done].
  unfold is_char. apply Z.mod_pos_bound. lia.
Qed.

(** ** Properties *)

(** [hashInt64] maps distinct 64-bit keys to distinct hashes: the collisions of
    the tables that use it come from the reduction modulo the capacity only. *)
Theorem hashInt64_injective x y :
  0 <= x < 2 ^ 64 -> 0 <= y < 2 ^ 64 -> hashInt64 x = hashInt64 y -> x = y.
Proof.
  intros Hx Hy E. unfold hashInt64 in E.
  apply (xorshift_inj 64) in E; [|lia|apply u64_range|apply u64_range].
  apply (wrap_mul_inj 64 _ 0x319642b2d24d8ec3) in E;
    [|vm_compute; reflexivity|apply xorshift_range; [lia..|apply u64_range]
     |apply xorshift_range; [lia..|apply u64_range]].
  apply (xorshift_inj 64) in E; [|lia|apply u64_range|apply u64_range].
  apply (wrap_mul_inj 64 _ 0x96de1b173f119089) in E;
    [|vm_compute; reflexivity|apply xorshift_range; lia|apply xorshift_range; lia].
  apply (xorshift_inj 64) in E; [done|lia..].
Qed.

Lemma hashInt64_injective_witness : 0x80201000 = 0x80201000.
Proof. apply hashInt64_injective; [lia|lia|reflexivity]. Defined.

(** Reading eight big-endian bytes gives back the 64-bit value they encode,
    whatever follows them. *)
Theorem read64be_be_bytes v rest :
  0 <= v < 2 ^ 64 -> read64be (be_bytes 8 v ++ rest) = Some v.
Proof.
  intros Hv. pose proof (be_bytes_char 8 v) as HF. unfold read64be.
  cbn [be_bytes app drop] in *. rewrite !Forall_cons_iff in HF.
  destruct HF as (? & ? & ? & ? & ? & ? & ? & ? & _).
  rewrite !read32be_spec by assumption.
  cbn -[Z.shiftl Z.lor Z.pow Z.add Z.mul Z.div Z.modulo Z.of_nat].
  rewrite wrap_small, lor_shiftl_add; unfold is_char in *; [|lia|lia|].
  2: { rewrite Z.shiftl_mul_pow2 by lia. lia. }
  f_equal. clear -Hv. cbn [Z.of_nat].
  Z.div_mod_to_equations. lia.
Qed.

Lemma read64be_be_bytes_witness :
  read64be (be_bytes 8 0x1122334455667788 ++ [1; 2]) = Some 0x1122334455667788.
Proof. apply read64be_be_bytes. lia. Defined.

End Util.
