(* ===== verification/CString.v ===== *)
(** * CString: the kernel's C library, [kernel/src/libc/lib/string.c] and
    [kernel/src/libc/lib/memop.c]

    [Module Str] models the string functions: a [const char*] is the list of
    the bytes from the pointer on, dereferencing past the end of it is [None],
    and a [const char*] result is its offset from the argument.
    [Module Mem] models [memset], [memmove] and [memcpy] on byte memory, with
    the head, word and tail loops of the source. *)
From S2P Require Import Prelude.

Module Str.

(** ** Definitions *)

Fixpoint strcmp (s1 s2 : list Z) : option Z :=
  match s1 with
  | [] => None
  | c1 :: s1' =>
      c2 ← head s2;
      if c1 =? 0 then Some (c1 - c2)
      else if negb (c1 =? c2) then Some (c1 - c2)
      else strcmp s1' (tail s2)
  end.

Fixpoint strncmp (s1 s2 : list Z) (n : nat) {struct n} : option Z :=
  match n with
  | O => Some 0
  | S n' =>
      match s1 with
      | [] => None
      | c1 :: s1' =>
          c2 ← head s2;
          if c1 =? 0 then Some (c1 - c2)
          else if negb (c1 =? c2) then Some (c1 - c2)
          else strncmp s1' (tail s2) n'
      end
  end.

Fixpoint strlen (s : list Z) : option nat :=
  match s with
  | [] => None
  | c :: s' => if c =? 0 then Some O else S <$> strlen s'
  end.

(** The inner loop of [strstr]: whether it stopped with [*st2 == 0]. *)
Fixpoint strstr_match (st1 st2 : list Z) : option bool :=
  match st1, st2 with
  | c1 :: st1', c2 :: st2' =>
      if c1 =? 0 then Some (c2 =? 0)
      else if c2 =? 0 then Some true
      else if negb (c1 =? c2) then Some (c2 =? 0)
      else strstr_match st1' st2'
  | _, _ => None
  end.

(** [inl off] is a pointer into [s1], [inr tt] is [NULL]. *)
Fixpoint strstr (s1 s2 : list Z) : option (nat + unit) :=
  match s1 with
  | [] => None
  | c1 :: s1' =>
      if c1 =? 0 then Some (inr tt)
      else
        b ← strstr_match s1 s2;
        if b : bool then Some (inl O)
        else r ← strstr s1' s2;
             Some (match r with inl k => inl (S k) | inr _ => inr tt end)
  end.

(** ** The orders the functions implement *)

(** Lexicographic order on strings by unsigned character. *)
Fixpoint lex_lt (s1 s2 : list Z) : bool :=
  match s1, s2 with
  | _, [] => false
  | [], _ :: _ => true
  | c1 :: s1', c2 :: s2' => (c1 <? c2) || ((c1 =? c2) && lex_lt s1' s2')
  end.

(** ** Lemmas *)

Lemma holds_cstr_nil_inv buf : holds_cstr buf [] -> exists rest, buf = 0 :: rest.
Proof. intros [_ [rest ->]]. by exists rest. Qed.

Lemma holds_cstr_cons_inv buf c s :
  holds_cstr buf (c :: s) -> 0 < c < 256 /\ exists buf', buf = c :: buf' /\ holds_cstr buf' s.
Proof.
  intros [[Hc Hs]%Forall_cons_iff [rest ->]]. split; [done|]. eexists; split; [reflexivity|].
  split; [done|]. by exists rest.
Qed.

Lemma holds_cstr_intro s rest : is_cstr s -> holds_cstr (s ++ 0 :: rest) s.
Proof. intros. split; eauto. Qed.

(** Splits the buffer of a C string along the string. *)
Ltac inv_cstr H :=
  lazymatch type of H with
  | holds_cstr _ [] => apply holds_cstr_nil_inv in H as [? ->]
  | holds_cstr _ (_ :: _) =>
      apply holds_cstr_cons_inv in H as (? & ? & -> & H)
  end.

#[local] Ltac crush := intros; try done; (lia || congruence).

Lemma strlen_spec buf s : holds_cstr buf s -> strlen buf = Some (length s).
Proof.
  revert buf. induction s as [|c s IH]; intros buf H; inv_cstr H; cbn; [done|].
  destruct (Z.eqb_spec c 0); [lia|]. by rewrite IH.
Qed.

Lemma strncmp_spec n b1 b2 s1 s2 :
  holds_cstr b1 s1 -> holds_cstr b2 s2 ->
  exists r, strncmp b1 b2 n = Some r /\
    (r = 0 <-> take n s1 = take n s2) /\ (r < 0 <-> lex_lt (take n s1) (take n s2) = true).
Proof.
  revert b1 b2 s1 s2. induction n as [|n IH]; intros b1 b2 s1 s2 H1 H2.
  { exists 0. cbn. repeat split; crush. }
  destruct s1 as [|c1 s1], s2 as [|c2 s2]; inv_cstr H1; inv_cstr H2; cbn.
  - exists 0. cbn. repeat split; crush.
  - exists (0 - c2). cbn. repeat split; crush.
  - destruct (Z.eqb_spec c1 0); [lia|]. exists (c1 - 0). repeat split; crush.
  - destruct (Z.eqb_spec c1 0); [lia|]. destruct (Z.eqb_spec c1 c2) as [->|Hne]; cbn.
    + destruct (IH _ _ _ _ H1 H2) as (r & -> & He & Hl). exists r. split; [done|].
      rewrite Z.ltb_irrefl. cbn. split; [rewrite He|done]. split; congruence.
    + exists (c1 - c2). split; [done|]. split; [split; [lia|congruence]|].
      rewrite orb_false_r, Z.ltb_lt. lia.
Qed.

Lemma strcmp_strncmp b1 b2 s1 n :
  holds_cstr b1 s1 -> (length s1 < n)%nat -> strcmp b1 b2 = strncmp b1 b2 n.
Proof.
  revert b1 b2 n. induction s1 as [|c s1 IH]; intros b1 b2 [|n] H Hn; try (cbn in Hn; lia);
    inv_cstr H; cbn; [done|].
  destruct (head b2); cbn; [|done]. repeat case_match; try done. apply IH; [done|cbn in Hn; lia].
Qed.

Lemma strstr_match_spec b1 b2 s1 s2 :
  holds_cstr b1 s1 -> holds_cstr b2 s2 ->
  strstr_match b1 b2 = Some (bool_decide (s2 `prefix_of` s1)).
Proof.
  revert b1 b2 s2. induction s1 as [|c1 s1 IH]; intros b1 b2 s2 H1 H2;
    destruct s2 as [|c2 s2]; inv_cstr H1; inv_cstr H2; cbn.
  - by rewrite bool_decide_eq_true_2 by apply prefix_nil.
  - destruct (Z.eqb_spec c2 0); [lia|].
    rewrite bool_decide_eq_false_2; [done|]. by intros ?%prefix_nil_inv.
  - destruct (Z.eqb_spec c1 0); [lia|].
    by rewrite bool_decide_eq_true_2 by apply prefix_nil.
  - destruct (Z.eqb_spec c1 0), (Z.eqb_spec c2 0); try lia.
    destruct (Z.eqb_spec c1 c2) as [->|Hne]; cbn.
    + rewrite (IH _ _ _ H1 H2). f_equal. apply bool_decide_ext.
      split; [apply prefix_cons|apply prefix_cons_inv_2].
    + rewrite bool_decide_eq_false_2; [done|]. by intros ?%prefix_cons_inv_1.
Qed.

(** ** Properties *)

Lemma strcmp_ok b1 b2 s1 s2 :
  holds_cstr b1 s1 -> holds_cstr b2 s2 ->
  exists r, strcmp b1 b2 = Some r /\
    (r = 0 <-> s1 = s2) /\ (r < 0 <-> lex_lt s1 s2 = true).
Proof.
  intros H1 H2. set (n := S (length s1 + length s2)).
  rewrite (strcmp_strncmp b1 b2 s1 n) by (done || lia).
  destruct (strncmp_spec n _ _ _ _ H1 H2) as (r & Hr & Heq).
  rewrite !take_ge in Heq by lia. eauto.
Qed.

(** [strcmp] on two C strings reads only inside them, returns 0 exactly on
    equal strings and a negative number exactly when the first is smaller in
    the lexicographic order of unsigned characters. *)
Theorem strcmp_orders b1 b2 s1 s2 :
  holds_cstr b1 s1 -> holds_cstr b2 s2 ->
  exists r, strcmp b1 b2 = Some r /\
    (r = 0 <-> s1 = s2) /\ (r < 0 <-> lex_lt s1 s2 = true).
Proof. apply strcmp_ok. Qed.

Lemma strcmp_orders_witness :
  exists r, strcmp (cstr "dev" ++ [0]) (cstr "devfs" ++ [0]) = Some r /\
    (r = 0 <-> cstr "dev" = cstr "devfs") /\
    (r < 0 <-> lex_lt (cstr "dev") (cstr "devfs") = true).
Proof.
  apply strcmp_orders; split; [|by exists [] | |by exists []];
    repeat (apply Forall_cons; [vm_compute; split; reflexivity|]); apply Forall_nil.
Defined.

(** [strstr] never reads outside its two strings and returns the first
    occurrence of [s2] that starts inside [s1]; it returns [NULL] exactly when
    no position of [s1] starts one. *)
Theorem strstr_first b1 b2 s1 s2 :
  holds_cstr b1 s1 -> holds_cstr b2 s2 ->
  exists r, strstr b1 b2 = Some r /\
    match r with
    | inl k => (k < length s1)%nat /\ s2 `prefix_of` drop k s1 /\
               forall j, (j < k)%nat -> ~ s2 `prefix_of` drop j s1
    | inr _ => forall j, (j < length s1)%nat -> ~ s2 `prefix_of` drop j s1
    end.
Proof.
  intros H1 H2. revert b1 H1. induction s1 as [|c1 s1 IH]; intros b1 H1.
  { inv_cstr H1. exists (inr tt). split; [done|]. cbn. lia. }
  pose proof (strstr_match_spec _ _ _ _ H1 H2) as Hm. inv_cstr H1.
  cbn [strstr]. destruct (Z.eqb_spec c1 0); [lia|]. rewrite Hm. cbn.
  case_bool_decide as Hp.
  { exists (inl O). cbn. repeat split; [lia|done|lia]. }
  destruct (IH _ H1) as ([k|[]] & -> & Hr); cbn.
  - exists (inl (S k)). destruct Hr as (Hk & Hpk & Hj). repeat split; [lia|done|].
    intros [|j] ?; [done|]. apply Hj. lia.
  - exists (inr tt). split; [done|]. intros [|j] ?; [done|]. apply Hr. lia.
Qed.

Lemma strstr_first_witness :
  exists r, strstr (cstr "a/b" ++ [0]) (cstr "/" ++ [0]) = Some r /\
    match r with
    | inl k => (k < 3)%nat /\ cstr "/" `prefix_of` drop k (cstr "a/b") /\
               forall j, (j < k)%nat -> ~ cstr "/" `prefix_of` drop j (cstr "a/b")
    | inr _ => forall j, (j < 3)%nat -> ~ cstr "/" `prefix_of` drop j (cstr "a/b")
    end.
Proof.
  apply (strstr_first _ _ (cstr "a/b") (cstr "/")); split; [|by exists [] | |by exists []];
    repeat (apply Forall_cons; [vm_compute; split; reflexivity|]); apply Forall_nil.
Defined.

(** The empty needle in the empty haystack is not found, although the C
    library's [strstr] returns the haystack there. *)
Example strstr_empty : strstr [0] [0] = Some (inr tt).
Proof. reflexivity. Qed.

End Str.

Module Mem.

(** ** Definitions *)

(** The locals of the three loops. *)
Record cpy := mkCpy { c_mem : bytes; c_dest : Z; c_src : Z; c_n : Z }.

Definition copy1_up (s : cpy) : cpy :=
  mkCpy (wr (c_mem s) (c_dest s) (c_mem s (c_src s))) (c_dest s + 1) (c_src s + 1) (c_n s - 1).

Definition copy8_up (s : cpy) : cpy :=
  mkCpy (store_le 8 (c_mem s) (c_dest s) (load_le 8 (c_mem s) (c_src s)))
        (c_dest s + 8) (c_src s + 8) (c_n s - 8).

Definition copy1_down (s : cpy) : cpy :=
  let d := c_dest s - 1 in let r := c_src s - 1 in
  mkCpy (wr (c_mem s) d (c_mem s r)) d r (c_n s - 1).

Definition copy8_down (s : cpy) : cpy :=
  let d := c_dest s - 8 in let r := c_src s - 8 in
  mkCpy (store_le 8 (c_mem s) d (load_le 8 (c_mem s) r)) d r (c_n s - 8).

Definition misaligned (s : cpy) : bool :=
  (c_n s >? 0) && (negb (c_dest s mod 8 =? 0) || negb (c_src s mod 8 =? 0)).

(** The three loops of one direction: single bytes while a pointer is not
    8-aligned, words while more than 8 bytes are left, single bytes. *)
Definition copy_loops (one eight : cpy -> cpy) (s : cpy) : option cpy :=
  let fuel := S (Z.to_nat (c_n s)) in
  s ← while fuel (fun s => Some (misaligned s)) (fun s => Some (one s)) s;
  s ← while fuel (fun s => Some (c_n s >? 8)) (fun s => Some (eight s)) s;
  while fuel (fun s => Some (c_n s >? 0)) (fun s => Some (one s)) s.

(** The result is the final memory and the returned pointer. *)
Definition memmove (m : bytes) (dest src n : Z) : option (bytes * Z) :=
  if dest <? src then
    s ← copy_loops copy1_up copy8_up (mkCpy m dest src n);
    Some (c_mem s, c_dest s)
  else
    s ← copy_loops copy1_down copy8_down (mkCpy m (dest + n) (src + n) n);
    Some (c_mem s, c_dest s).

Definition memcpy (m : bytes) (dest src n : Z) : option (bytes * Z) := memmove m dest src n.

(** [big |= ((uint64_t)byte & 0xff) << (8 * i)] for [i] from 0 to 7. *)
Definition memset_big (byte : Z) : Z :=
  fold_left (fun big i => Z.lor big (Z.shiftl (Z.land byte 0xff) (8 * i))) [0;1;2;3;4;5;6;7] 0.

Record fil := mkFil { f_mem : bytes; f_ptr : Z; f_n : Z }.

Definition set1 (byte : Z) (s : fil) : fil :=
  mkFil (wr (f_mem s) (f_ptr s) (u8 byte)) (f_ptr s + 1) (f_n s - 1).

Definition set8 (big : Z) (s : fil) : fil :=
  mkFil (store_le 8 (f_mem s) (f_ptr s) big) (f_ptr s + 8) (f_n s - 8).

Definition memset (m : bytes) (mem byte n : Z) : option (bytes * Z) :=
  let fuel := S (Z.to_nat n) in
  s ← while fuel (fun s => Some ((f_n s >? 0) && negb (f_ptr s mod 8 =? 0)))
            (fun s => Some (set1 byte s)) (mkFil m mem n);
  s ← (if f_n s >? 8 then
         while fuel (fun s => Some (f_n s >? 8)) (fun s => Some (set8 (memset_big byte) s)) s
       else Some s);
  s ← while fuel (fun s => Some (f_n s >? 0)) (fun s => Some (set1 byte s)) s;
  Some (f_mem s, f_ptr s).

(** ** Lemmas *)

(** After [k] bytes in a direction: the pointers, the count, and memory. *)
Definition up_inv (m : bytes) (d r n : Z) (s : cpy) : Prop :=
  exists k, 0 <= k <= n /\ c_dest s = d + k /\ c_src s = r + k /\ c_n s = n - k /\
    forall a, c_mem s a = if (d <=? a) && (a <? d + k) then m (r + (a - d)) else m a.

Definition down_inv (m : bytes) (d r n : Z) (s : cpy) : Prop :=
  exists k, 0 <= k <= n /\ c_dest s = d + n - k /\ c_src s = r + n - k /\ c_n s = n - k /\
    forall a, c_mem s a = if (d + n - k <=? a) && (a <? d + n) then m (r + (a - d)) else m a.

(** Decides the range tests of the byte memories and closes by [lia]. *)
Ltac ranges :=
  repeat match goal with
  | |- context [?a <=? ?b] => destruct (Z.leb_spec a b); cbn [andb]
  | |- context [?a <? ?b] => destruct (Z.ltb_spec a b); cbn [andb]
  | |- context [?a =? ?b] => destruct (Z.eqb_spec a b); cbn [andb]
  end; try lia; try done; try (f_equal; lia).

Lemma copied_byte_mem m m' (p : Z -> bool) (f : Z -> Z) :
  byte_mem m -> (forall a, m' a = if p a then m (f a) else m a) -> byte_mem m'.
Proof. intros Hm H a. rewrite H. destruct (p a); apply Hm. Qed.

Lemma copy1_up_inv m d r n s :
  d < r -> up_inv m d r n s -> 0 < c_n s -> up_inv m d r n (copy1_up s).
Proof.
  intros Hdr (k & Hk & Hd & Hs & Hn & Hm) Hpos. exists (k + 1). cbn.
  rewrite Hd, Hs, Hn. repeat split; try lia. intros a. rewrite wr_spec, !Hm. ranges.
Qed.

Lemma copy8_up_inv m d r n s :
  byte_mem m -> d < r -> up_inv m d r n s -> 8 < c_n s -> up_inv m d r n (copy8_up s).
Proof.
  intros Hb Hdr (k & Hk & Hd & Hs & Hn & Hm) Hpos. exists (k + 8). cbn -[store_le load_le].
  rewrite Hd, Hs, Hn. repeat split; try lia. intros a.
  rewrite store_load_le by (apply (copied_byte_mem m _ (fun a => (d <=? a) && (a <? d + k)) (fun a => r + (a - d))); done).
  rewrite !Hm. cbn [Z.of_nat Pos.of_succ_nat Pos.succ]. ranges.
Qed.

Lemma copy1_down_inv m d r n s :
  r <= d -> down_inv m d r n s -> 0 < c_n s -> down_inv m d r n (copy1_down s).
Proof.
  intros Hdr (k & Hk & Hd & Hs & Hn & Hm) Hpos. exists (k + 1). cbn.
  rewrite Hd, Hs, Hn. repeat split; try lia. intros a. rewrite wr_spec, !Hm. ranges.
Qed.

Lemma copy8_down_inv m d r n s :
  byte_mem m -> r <= d -> down_inv m d r n s -> 8 < c_n s -> down_inv m d r n (copy8_down s).
Proof.
  intros Hb Hdr (k & Hk & Hd & Hs & Hn & Hm) Hpos. exists (k + 8). cbn -[store_le load_le].
  rewrite Hd, Hs, Hn. repeat split; try lia. intros a.
  rewrite store_load_le by (apply (copied_byte_mem m _ (fun a => (d + n - k <=? a) && (a <? d + n)) (fun a => r + (a - d))); done).
  rewrite !Hm. cbn [Z.of_nat Pos.of_succ_nat Pos.succ]. ranges.
Qed.

(** One direction of [memmove], for an invariant that both bodies keep. *)
Lemma copy_loops_rule (I : cpy -> Prop) one eight s :
  (forall s, I s -> 0 < c_n s -> I (one s) /\ c_n (one s) = c_n s - 1) ->
  (forall s, I s -> 8 < c_n s -> I (eight s) /\ c_n (eight s) = c_n s - 8) ->
  (forall s, I s -> 0 <= c_n s) -> I s ->
  exists s', copy_loops one eight s = Some s' /\ I s' /\ c_n s' = 0.
Proof.
  intros H1 H8 Hn HI. unfold copy_loops. set (N := c_n s).
  set (J := fun s => I s /\ c_n s <= N).
  assert (HJ : J s) by (split; [done|lia]).
  assert (Hbyte : forall cond, (forall s, J s -> cond s = true -> 0 < c_n s) ->
    forall s, J s -> exists s',
      while (S (Z.to_nat N)) (fun s => Some (cond s)) (fun s => Some (one s)) s = Some s'
      /\ J s' /\ Some (cond s') = Some false).
  { intros cond Hcond s0 [HI0 HN0]. apply (while_rule J (fun s => Z.to_nat (c_n s))); [|done|lia].
    intros s1 [HI1 HN1]. eexists; split; [done|]. intros Hc. pose proof (Hn _ HI1).
    destruct (H1 s1 HI1 (Hcond s1 (conj HI1 HN1) Hc)) as [? E].
    specialize (Hcond s1 (conj HI1 HN1) Hc).
    eexists; split; [done|]. repeat split; [done|lia|lia]. }
  destruct (Hbyte misaligned) with (s := s) as (s1 & -> & HJ1 & _); [|done|].
  { intros s0 _. unfold misaligned. rewrite andb_true_iff, Z.gtb_lt. tauto. }
  cbn [mbind option_bind].
  destruct (while_rule J (fun s => Z.to_nat (c_n s)) (fun s => Some (c_n s >? 8))
              (fun s => Some (eight s))) with (fuel := S (Z.to_nat N)) (s := s1)
    as (s2 & -> & HJ2 & _); [|done|destruct HJ1; lia|].
  { intros s0 [HI0 HN0]. eexists; split; [done|]. rewrite Z.gtb_lt. intros Hc.
    destruct (H8 s0 HI0 Hc) as [? E].
    eexists; split; [done|]. repeat split; [done|lia|lia]. }
  cbn [mbind option_bind].
  destruct (Hbyte (fun s => c_n s >? 0)) with (s := s2) as (s3 & -> & [HI3 _] & Hc); [|done|].
  { intros s0 _. rewrite Z.gtb_lt. done. }
  exists s3. repeat split; [done|]. specialize (Hn _ HI3).
  injection Hc as Hc. revert Hc. rewrite Z.gtb_ltb, Z.ltb_ge. lia.
Qed.

Lemma memset_big_spec byte : memset_big byte = load_le 8 (fun _ => u8 byte) 0.
Proof.
  unfold memset_big, wrap. change 0xff with (Z.ones 8). rewrite Z.land_ones by lia.
  pose proof (Z.mod_pos_bound byte (2 ^ 8) ltac:(lia)) as Hc.
  set (c := byte mod 2 ^ 8) in *. cbn [fold_left load_le].
  rewrite Z.lor_0_l, Z.shiftl_0_r.
  assert (Hi : forall big i, 0 <= i -> 0 <= big < 2 ^ (8 * i) ->
      Z.lor big (Z.shiftl c (8 * i)) = big + c * 2 ^ (8 * i))
    by (intros; rewrite Z.lor_comm, lor_shiftl_add by lia; lia).
  rewrite (Hi _ 1), (Hi _ 2), (Hi _ 3), (Hi _ 4), (Hi _ 5), (Hi _ 6), (Hi _ 7) by lia. lia.
Qed.

Definition fil_inv (m : bytes) (p byte n : Z) (s : fil) : Prop :=
  exists k, 0 <= k <= n /\ f_ptr s = p + k /\ f_n s = n - k /\
    forall a, f_mem s a = if (p <=? a) && (a <? p + k) then u8 byte else m a.

Lemma set1_inv m p byte n s :
  fil_inv m p byte n s -> 0 < f_n s -> fil_inv m p byte n (set1 byte s).
Proof.
  intros (k & Hk & Hp & Hn & Hm) Hpos. exists (k + 1). cbn. rewrite Hp, Hn.
  repeat split; try lia. intros a. rewrite wr_spec, Hm. ranges.
Qed.

Lemma set8_inv m p byte n s :
  fil_inv m p byte n s -> 8 < f_n s -> fil_inv m p byte n (set8 (memset_big byte) s).
Proof.
  intros (k & Hk & Hp & Hn & Hm) Hpos. exists (k + 8). cbn -[store_le memset_big]. rewrite Hp, Hn.
  repeat split; try lia. intros a.
  rewrite memset_big_spec, store_load_le by (intros ?; apply wrap_range; lia).
  rewrite Hm. cbn [Z.of_nat Pos.of_succ_nat Pos.succ]. ranges.
Qed.

Lemma fil_loop m p byte n cond step j fuel s :
  (forall s, fil_inv m p byte n s -> cond s = true ->
     fil_inv m p byte n (step s) /\ f_n (step s) = f_n s - j /\ 0 < j <= f_n s) ->
  fil_inv m p byte n s -> (Z.to_nat n < fuel)%nat ->
  exists s', while fuel (fun s => Some (cond s)) (fun s => Some (step s)) s = Some s' /\
    fil_inv m p byte n s' /\ cond s' = false.
Proof.
  intros Hstep HI Hf.
  destruct (while_rule (fil_inv m p byte n) (fun s => Z.to_nat (f_n s))
    (fun s => Some (cond s)) (fun s => Some (step s))) with (fuel := fuel) (s := s)
    as (s' & ? & ? & Hc); [|done|destruct HI as (k & ?); lia|].
  - intros s0 HI0. eexists; split; [done|]. intros Hc.
    destruct (Hstep s0 HI0 Hc) as (? & ? & ?). eexists; split; [done|]. split; [done|lia].
  - exists s'. repeat split; [done..|congruence].
Qed.

(** ** Properties *)

(** [memmove] copies the [n] source bytes as they were before the call,
    also when the two ranges overlap, and changes no other byte, for every
    alignment of the two pointers. *)
Theorem memmove_correct m dest src n :
  byte_mem m -> 0 <= n ->
  exists m' p, memmove m dest src n = Some (m', p) /\
    (forall a, m' a = if (dest <=? a) && (a <? dest + n) then m (src + (a - dest)) else m a) /\
    p = (if dest <? src then dest + n else dest).
Proof.
  intros Hb Hn. unfold memmove. destruct (Z.ltb_spec dest src) as [Hlt|Hge].
  - destruct (copy_loops_rule (up_inv m dest src n) copy1_up copy8_up (mkCpy m dest src n))
      as (s & -> & (k & Hk & Hd & _ & Hcn & Hm) & H0).
    + intros s HI Hs. split; [by apply copy1_up_inv|done].
    + intros s HI Hs. split; [by apply copy8_up_inv|done].
    + intros s (k & ?). lia.
    + exists 0. cbn. repeat split; try lia. intros a. ranges.
    + cbn. do 2 eexists. split; [done|]. replace n with k by lia. split; [done|lia].
  - destruct (copy_loops_rule (down_inv m dest src n) copy1_down copy8_down
      (mkCpy m (dest + n) (src + n) n)) as (s & -> & (k & Hk & Hd & _ & Hcn & Hm) & H0).
    + intros s HI Hs. split; [by apply copy1_down_inv|done].
    + intros s HI Hs. split; [by apply copy8_down_inv|done].
    + intros s (k & ?). lia.
    + exists 0. cbn. repeat split; try lia. intros a. ranges.
    + cbn. do 2 eexists. split; [done|]. replace k with n in * by lia. split; [|lia].
      intros a. rewrite Hm. ranges.
Qed.

Lemma memmove_correct_witness :
  exists m' p, memmove (fun a => a mod 256) 1003 1000 20 = Some (m', p) /\
    (forall a, m' a = if (1003 <=? a) && (a <? 1003 + 20)
                      then (1000 + (a - 1003)) mod 256 else a mod 256) /\
    p = (if 1003 <? 1000 then 1003 + 20 else 1003).
Proof.
  apply (memmove_correct (fun a => a mod 256) 1003 1000 20); [|lia].
  intros a. apply Z.mod_pos_bound. lia.
Defined.

(** [memset] sets exactly the [n] bytes from [p] on to the low byte of its
    argument, for every alignment; it returns the end of the range. *)
Theorem memset_correct m p byte n :
  0 <= n ->
  exists m', memset m p byte n = Some (m', p + n) /\
    forall a, m' a = if (p <=? a) && (a <? p + n) then u8 byte else m a.
Proof.
  intros Hn. unfold memset.
  edestruct (fil_loop m p byte n (fun s => (f_n s >? 0) && negb (f_ptr s mod 8 =? 0))
    (set1 byte) 1) with (s := mkFil m p n) as (s1 & -> & HI1 & _); [| |apply Nat.lt_succ_diag_r|].
  { intros s HI Hc. rewrite andb_true_iff, Z.gtb_lt in Hc.
    split; [apply set1_inv; tauto|]. cbn. lia. }
  { exists 0. cbn. repeat split; try lia. intros a. ranges. }
  cbn [mbind option_bind].
  assert (H2 : exists s2, (if f_n s1 >? 8 then
      while (S (Z.to_nat n)) (fun s => Some (f_n s >? 8))
        (fun s => Some (set8 (memset_big byte) s)) s1 else Some s1) = Some s2 /\
      fil_inv m p byte n s2).
  { destruct (f_n s1 >? 8); [|by eauto].
    edestruct (fil_loop m p byte n (fun s => f_n s >? 8) (set8 (memset_big byte)) 8)
      with (s := s1) as (s2 & -> & HI2 & _); [|done|apply Nat.lt_succ_diag_r|by eauto].
    intros s HI Hc. rewrite Z.gtb_lt in Hc. split; [by apply set8_inv|]. cbn. lia. }
  destruct H2 as (s2 & -> & HI2). cbn [mbind option_bind].
  edestruct (fil_loop m p byte n (fun s => f_n s >? 0) (set1 byte) 1) with (s := s2)
    as (s3 & -> & (k & Hk & Hp & Hfn & Hm) & Hc); [|done|apply Nat.lt_succ_diag_r|].
  { intros s HI Hc. rewrite Z.gtb_lt in Hc. split; [by apply set1_inv|]. cbn. lia. }
  cbn. rewrite Z.gtb_ltb, Z.ltb_ge in Hc. replace k with n in * by lia.
  exists (f_mem s3). split; [by rewrite Hp|done].
Qed.

Lemma memset_correct_witness :
  exists m', memset (fun _ => 7) 4093 0x1ab 21 = Some (m', 4093 + 21) /\
    forall a, m' a = if (4093 <=? a) && (a <? 4093 + 21) then u8 0x1ab else 7.
Proof. apply (memset_correct (fun _ => 7)). lia. Defined.

End Mem.
