(* ===== verification/Path.v ===== *)
(** * Path: [kernel/src/files/path.c]

    Path strings as the VFS passes them around.  [inlineReducePath] rewrites a
    NUL-terminated buffer in place; a [char*] is the list of the buffer's
    bytes, positions are [nat], and every access outside the buffer is [None].
    [reducedPathCopy], [stringClone], [getParentPath] and [getBaseFilename]
    return a fresh buffer; [kalloc] is taken to succeed. *)
From S2P Require Import Prelude CString.

Module Path.

Definition slash : Z := 47.
Definition dot : Z := 46.

(** ** Definitions *)

(** The locals of [inlineReducePath]. *)
Record rst := mkRst { path : list Z; read_pos : nat; insert_pos : nat; segments : nat }.

(** [while (p(path[i])) i++]. *)
Definition scan (p : Z -> bool) (path : list Z) (i : nat) : option nat :=
  while (S (length path)) (fun i => c ← path !! i; Some (p c)) (fun i => Some (S i)) i.

(** [while (read_pos <= next_slash && path[read_pos] != 0)], the loop that
    writes a segment. *)
Definition copy_segment (next_slash : nat) (path : list Z) (read_pos insert_pos : nat)
    : option (list Z * nat * nat) :=
  while (S (length path))
    (fun '(path, r, i) =>
       if (r <=? next_slash)%nat then c ← path !! r; Some (negb (c =? 0)) else Some false)
    (fun '(path, r, i) =>
       c ← path !! r; path' ← buf_set path i c; Some (path', S r, S i))
    (path, read_pos, insert_pos).

(** [insert_pos--; while (insert_pos > 0 && path[insert_pos - 1] != '/') insert_pos--]. *)
Definition remove_segment (path : list Z) (insert_pos : nat) : option nat :=
  match insert_pos with
  | O => None
  | S i =>
      while (S (length path))
        (fun i => match i with
                  | O => Some false
                  | S j => c ← path !! j; Some (negb (c =? slash))
                  end)
        (fun i => Some (pred i)) i
  end.

(** [next_slash == read_pos + 1 && path[read_pos] == '.'] *)
Definition segment_is_dot (path : list Z) (read_pos next_slash : nat) : option bool :=
  if (next_slash =? read_pos + 1)%nat
  then c ← path !! read_pos; Some (c =? dot) else Some false.

(** [next_slash == read_pos + 2 && path[read_pos] == '.' && path[read_pos + 1] == '.'] *)
Definition segment_is_dotdot (path : list Z) (read_pos next_slash : nat) : option bool :=
  if (next_slash =? read_pos + 2)%nat
  then c ← path !! read_pos;
       if c =? dot then c' ← path !! (read_pos + 1)%nat; Some (c' =? dot) else Some false
  else Some false.

Definition reduce_step (is_absolute : bool) (s : rst) : option rst :=
  let path := path s in
  (* Skip unnecessary '/' characters *)
  read_pos ← scan (fun c => c =? slash) path (read_pos s);
  (* Find end of segment *)
  next_slash ← scan (fun c => negb (c =? 0) && negb (c =? slash)) path read_pos;
  is_dot ← segment_is_dot path read_pos next_slash;
  is_dotdot ← segment_is_dotdot path read_pos next_slash;
  if is_dot : bool then
    Some (mkRst path (read_pos + 1) (insert_pos s) (segments s))
  else if is_dotdot : bool then
    if (0 <? segments s)%nat then
      i ← remove_segment path (insert_pos s);
      Some (mkRst path (read_pos + 2) i (segments s - 1))
    else if is_absolute then
      Some (mkRst path (read_pos + 2) (insert_pos s) (segments s))
    else
      '(path, r, i) ← copy_segment next_slash path read_pos (insert_pos s);
      Some (mkRst path r i (segments s))
  else
    '(path, r, i) ← copy_segment next_slash path read_pos (insert_pos s);
    Some (mkRst path r i (segments s + 1)).

Definition inlineReducePath (path0 : list Z) : option (list Z) :=
  c ← path0 !! 0%nat;
  let is_absolute := c =? slash in
  let start := if is_absolute then 1%nat else 0%nat in
  s ← while (S (length path0))
        (fun s => c ← path s !! read_pos s; Some (negb (c =? 0)))
        (reduce_step is_absolute) (mkRst path0 start start 0);
  (* Remove any trailing '/' *)
  i ← (if (1 <? insert_pos s)%nat
       then c ← path s !! (insert_pos s - 1)%nat;
            Some (if c =? slash then (insert_pos s - 1)%nat else insert_pos s)
       else Some (insert_pos s));
  buf_set (path s) i 0.

(** The branch of [stringClone] on a string: [kalloc(path_length + 1)] and the
    copy of the string with its NUL. *)
Definition clone_string (path : list Z) : option (list Z) :=
  path_length ← Str.strlen path;
  Some (take (path_length + 1) path).

(** The argument and the result are [None] for [NULL]. *)
Definition stringClone (path : option (list Z)) : option (option (list Z)) :=
  match path with
  | Some path => Some <$> clone_string path
  | None => Some None
  end.

Definition reducedPathCopy (path : option (list Z)) : option (option (list Z)) :=
  match path with
  | Some path => new_path ← clone_string path; Some <$> inlineReducePath new_path
  | None => Some None
  end.

(** [while (len > 0 && p(buf[len])) len--]. *)
Fixpoint back_while (p : Z -> bool) (buf : list Z) (len : nat) : option nat :=
  match len with
  | O => Some O
  | S len' => c ← buf !! len; if p c then back_while p buf len' else Some len
  end.

(** [while (len > 0 && buf[len - 1] == '/') len--]. *)
Fixpoint back_slashes (buf : list Z) (len : nat) : option nat :=
  match len with
  | O => Some O
  | S len' => c ← buf !! len'; if c =? slash then back_slashes buf len' else Some len
  end.

(** [strlen(path_copy) - 1] underflows on the empty path; the first access
    [path_copy[SIZE_MAX]] then leaves the buffer. *)
Definition getParentPath (path : list Z) : option (list Z) :=
  path_copy ← clone_string path;
  path_len ← Str.strlen path_copy;
  match path_len with
  | O => None
  | S len =>
      len ← back_while (fun c => c =? slash) path_copy len;
      len ← back_while (fun c => negb (c =? slash)) path_copy len;
      len ← back_slashes path_copy len;
      c0 ← path_copy !! 0%nat;
      let len := if (len =? 0)%nat && (c0 =? slash) then 1%nat else len in
      buf_set path_copy len 0
  end.

Definition getBaseFilename (path : list Z) : option (list Z) :=
  path_copy ← clone_string path;
  path_len ← Str.strlen path;
  match path_len with
  | O => None
  | S len =>
      len ← back_while (fun c => c =? slash) path_copy len;
      len ← back_while (fun c => negb (c =? slash)) path len;
      c ← path !! len;
      let len := if c =? slash then S len else len in
      (* memcpy(path_copy, path + len, path_len - len) *)
      let path_copy :=
        take (path_len - len) (drop len path) ++ drop (path_len - len) path_copy in
      (* while (path_copy[path_len - len - 1] == '/') len++; *)
      len ← while (S path_len)
              (fun len => if (path_len - len =? 0)%nat then None
                          else c ← path_copy !! (path_len - len - 1)%nat; Some (c =? slash))
              (fun len => Some (S len)) len;
      buf_set path_copy (path_len - len) 0
  end.

(** ** Specification *)

(** The non-empty segments of a path. *)
Fixpoint segs_from (cur t : list Z) : list (list Z) :=
  match t with
  | [] => match cur with [] => [] | _ => [cur] end
  | c :: t' =>
      if c =? slash
      then match cur with [] => segs_from [] t' | _ => cur :: segs_from [] t' end
      else segs_from (cur ++ [c]) t'
  end.

Definition segs (t : list Z) : list (list Z) := segs_from [] t.

Definition is_abs (t : list Z) : bool :=
  match t with c :: _ => c =? slash | [] => false end.

Definition dotdot : list Z := [dot; dot].

(** Resolves "." and ".." on a stack whose head is the last segment kept. *)
Fixpoint resolve (abs : bool) (stk : list (list Z)) (ss : list (list Z)) : list (list Z) :=
  match ss with
  | [] => stk
  | sg :: ss' =>
      if decide (sg = [dot]) then resolve abs stk ss'
      else if decide (sg = dotdot) then
        match stk with
        | top :: stk' =>
            if decide (top = dotdot) then resolve abs (dotdot :: stk) ss'
            else resolve abs stk' ss'
        | [] => if abs then resolve abs [] ss' else resolve abs [dotdot] ss'
        end
      else resolve abs (sg :: stk) ss'
  end.

(** Every segment with its '/', after the leading '/' of an absolute path. *)
Definition body (abs : bool) (stk : list (list Z)) : list Z :=
  (if abs then [slash] else []) ++ concat ((fun sg => sg ++ [slash]) <$> reverse stk).

Fixpoint join (ss : list (list Z)) : list Z :=
  match ss with
  | [] => []
  | [sg] => sg
  | sg :: ss' => sg ++ slash :: join ss'
  end.

Definition normal_form (t : list Z) : list Z :=
  (if is_abs t then [slash] else []) ++ join (reverse (resolve (is_abs t) [] (segs t))).

(** ** Lemmas on the loops *)

Lemma lookup_drop_head {A} (l : list A) i x u : drop i l = x :: u -> l !! i = Some x.
Proof. intros H. by rewrite <- (Nat.add_0_r i), <- lookup_drop, H. Qed.

Lemma drop_app_step {A} (l : list A) i w v : drop i l = w ++ v -> drop (i + length w) l = v.
Proof. intros H. rewrite <- drop_drop, H. by rewrite drop_app_length. Qed.

Lemma drop_cons_lt {A} (l : list A) i x u : drop i l = x :: u -> (i < length l)%nat.
Proof. intros H%lookup_drop_head. by eapply lookup_lt_Some. Qed.

Lemma scan_spec p path i w x u :
  drop i path = w ++ x :: u -> Forall (fun c => p c = true) w -> p x = false ->
  scan p path i = Some (i + length w)%nat.
Proof.
  intros Hd Hw Hx. unfold scan.
  assert (Hf : (length w < S (length path))%nat).
  { apply (f_equal length) in Hd. rewrite length_drop, length_app in Hd. lia. }
  revert i Hd Hf. generalize (S (length path)) as fuel.
  induction Hw as [|c w Hc _ IH]; intros [|fuel] i Hd Hf; cbn in *; try lia.
  - rewrite (lookup_drop_head _ _ _ _ Hd). cbn. rewrite Hx. f_equal. lia.
  - rewrite (lookup_drop_head _ _ _ _ Hd). cbn. rewrite Hc.
    rewrite (IH fuel (S i)); [f_equal; lia| |lia].
    rewrite <- Nat.add_1_r. by apply (drop_app_step path i [c]).
Qed.

Definition plain (c : Z) : bool := negb (c =? 0) && negb (c =? slash).

Lemma remove_segment_spec path A sg i v :
  take i path = A ++ sg ++ [slash] -> Forall (fun c => plain c = true) sg ->
  (A = [] \/ exists A', A = A' ++ [slash]) -> drop i path = v -> (i <= length path)%nat ->
  remove_segment path i = Some (length A).
Proof.
  intros Ht Hsg HA _ Hi.
  assert (Hlen : i = S (length A + length sg)).
  { apply (f_equal length) in Ht. rewrite length_take, !length_app in Ht. cbn in Ht. lia. }
  subst i.
  assert (Hp : exists u, path = A ++ sg ++ u).
  { exists (slash :: drop (S (length A + length sg)) path).
    rewrite <- (take_drop (S (length A + length sg)) path) at 1.
    rewrite Ht, <- !app_assoc. done. }
  assert (Hf : (length sg < S (length path))%nat) by lia.
  unfold remove_segment. destruct Hp as [u Hp]. clear Ht Hi. revert u Hp Hf.
  generalize (S (length path)) as fuel.
  induction sg as [|c sg IH] using rev_ind; intros [|fuel] u Hp Hf; try lia.
  - rewrite Nat.add_0_r. cbn. destruct HA as [->|[A' ->]]; [done|].
    assert (path !! length A' = Some slash) as Hl.
    { rewrite Hp, <- app_assoc. cbn [app]. by rewrite list_lookup_middle. }
    rewrite length_app, Nat.add_1_r. cbn. by rewrite Hl.
  - apply Forall_app in Hsg as [Hsg [Hc _]%Forall_cons_iff].
    assert (path !! (length A + length sg)%nat = Some c) as Hl.
    { rewrite Hp, <- app_assoc, app_assoc. apply list_lookup_middle. by rewrite length_app. }
    rewrite length_app in *. cbn [length] in *.
    replace (length A + (length sg + 1))%nat with (S (length A + length sg)) by lia.
    cbn [while]. rewrite Hl. cbn -[while].
    unfold plain in Hc. apply andb_true_iff in Hc as [_ ->].
    apply (IH Hsg fuel (c :: u)); [by rewrite Hp, <- app_assoc|lia].
Qed.

(** One write of the copy loop keeps the part before it and the part read later. *)
Lemma copy_write path i r c v :
  (i <= r)%nat -> drop r path = c :: v ->
  buf_set path i c = Some (<[i := c]> path) /\
  take (S i) (<[i := c]> path) = take i path ++ [c] /\
  drop (S r) (<[i := c]> path) = v /\ length (<[i := c]> path) = length path.
Proof.
  intros Hir Hd. pose proof (drop_cons_lt _ _ _ _ Hd).
  split; [apply buf_set_in; lia|]. split; [|split].
  - rewrite (take_S_r _ _ c) by (apply list_lookup_insert_eq; lia).
    by rewrite take_insert_ge by lia.
  - rewrite drop_insert_lt by lia. rewrite <- Nat.add_1_r. by apply (drop_app_step path r [c]).
  - apply length_insert.
Qed.

Lemma copy_segment_spec ns w v path r i :
  (i <= r)%nat -> drop r path = w ++ v -> Forall (fun c => c <> 0) w ->
  (r + length w <= S ns)%nat -> v <> [] ->
  ((r + length w)%nat = S ns \/ exists v', v = 0 :: v') ->
  exists path', copy_segment ns path r i = Some (path', (r + length w)%nat, (i + length w)%nat) /\
    take (i + length w) path' = take i path ++ w /\ drop (r + length w) path' = v /\
    length path' = length path.
Proof.
  intros Hir Hd Hw Hns Hv Hend. unfold copy_segment.
  assert (Hf : (length w < S (length path))%nat).
  { apply (f_equal length) in Hd. rewrite length_drop, length_app in Hd. lia. }
  revert Hf. generalize (S (length path)) as fuel. intros fuel Hf.
  revert fuel path r i Hir Hd Hns Hend Hf.
  induction Hw as [|c w Hc _ IH]; intros [|fuel] path r i Hir Hd Hns Hend Hf;
    cbn [length app while] in *; try lia.
  - exists path. rewrite !Nat.add_0_r in *. destruct (Nat.leb_spec r ns).
    + destruct Hend as [|[v' ->]]; [lia|]. rewrite (lookup_drop_head _ _ _ _ Hd). cbn.
      rewrite app_nil_r. auto.
    + rewrite app_nil_r. auto.
  - rewrite (proj2 (Nat.leb_le r ns)) by lia. rewrite (lookup_drop_head _ _ _ _ Hd). cbn.
    destruct (Z.eqb_spec c 0); [done|]. cbn.
    destruct (copy_write path i r c (w ++ v) Hir Hd) as (-> & Ht & Hd' & Hl). cbn.
    destruct (IH fuel (<[i:=c]> path) (S r) (S i)) as (path' & -> & Ht' & Hd'' & Hl');
      [lia|done|lia|destruct Hend; [left; lia|by right]|lia|].
    exists path'. rewrite !Nat.add_succ_r. split; [done|]. cbn in *. rewrite Ht', Ht.
    split; [by simplify_list_eq|]. split; [done|congruence].
Qed.

(** ** Lemmas on the specification *)

Definition seg_ok (sg : list Z) : Prop := sg <> [] /\ Forall (fun c => plain c = true) sg.

Lemma segs_from_app cur sg t :
  Forall (fun c => plain c = true) sg -> segs_from cur (sg ++ t) = segs_from (cur ++ sg) t.
Proof.
  intros Hsg. revert cur. induction Hsg as [|c sg Hc _ IH]; intros cur; cbn.
  - by rewrite app_nil_r.
  - unfold plain in Hc. apply andb_true_iff in Hc as [_ Hc%negb_true_iff]. rewrite Hc, IH.
    by rewrite <- app_assoc.
Qed.

Lemma segs_slashes j t : segs (replicate j slash ++ t) = segs t.
Proof. induction j; cbn; done. Qed.

Lemma segs_end sg : seg_ok sg -> segs sg = [sg].
Proof.
  intros [Hne Hsg]. unfold segs. rewrite <- (app_nil_r sg) at 1.
  rewrite segs_from_app by done. cbn. by destruct sg.
Qed.

Lemma segs_cons sg t : seg_ok sg -> segs (sg ++ slash :: t) = sg :: segs t.
Proof.
  intros [Hne Hsg]. unfold segs. rewrite segs_from_app by done. cbn. by destruct sg.
Qed.

(** Splits a list at the first element where [p] fails. *)
Lemma span_exists {A} (p : A -> bool) (l : list A) :
  exists w u, l = w ++ u /\ Forall (fun c => p c = true) w /\
    (u = [] \/ exists x u', u = x :: u' /\ p x = false).
Proof.
  induction l as [|c l (w & u & -> & Hw & Hu)].
  - exists [], []. split; [done|]. split; [constructor|by left].
  - destruct (p c) eqn:Hc.
    + exists (c :: w), u. split; [done|]. split; [by constructor|done].
    + exists [], (c :: w ++ u). split; [done|]. split; [constructor|]. right; eauto.
Qed.

Lemma slash_run w : Forall (fun c => (c =? slash) = true) w -> w = replicate (length w) slash.
Proof. induction 1 as [|c w ->%Z.eqb_eq _ IH]; cbn; congruence. Qed.

(** A non-empty rest of a path: slashes, a segment, and what follows it. *)
Lemma split_segment t :
  is_cstr t ->
  exists j sg u, t = replicate j slash ++ sg ++ u /\ Forall (fun c => plain c = true) sg /\
    (u = [] \/ exists u', u = slash :: u') /\ (sg = [] -> u = []).
Proof.
  intros Ht. destruct (span_exists (fun c => c =? slash) t) as (w & v & -> & Hw%slash_run & Hv).
  destruct (span_exists plain v) as (sg & u & -> & Hsg & Hu).
  exists (length w), sg, u. rewrite <- Hw. repeat split; [done|..].
  - destruct Hu as [->|(x & u' & -> & Hx)]; [by left|]. right. exists u'.
    unfold is_cstr in Ht. rewrite !Forall_app, Forall_cons_iff in Ht.
    destruct Ht as (_ & _ & Hx0 & _). unfold plain in Hx.
    destruct (Z.eqb_spec x 0); [lia|]. cbn in Hx. apply negb_false_iff, Z.eqb_eq in Hx. by subst.
  - intros ->. destruct Hu as [|(x & u' & -> & Hx)]; [done|]. exfalso. cbn in Hv.
    destruct Hv as [|(y & v' & [= <- <-] & Hy)]; [done|].
    unfold is_cstr in Ht. rewrite !Forall_app, Forall_cons_iff in Ht.
    destruct Ht as (_ & _ & Hx0 & _). unfold plain in Hx. rewrite Hy in Hx.
    destruct (Z.eqb_spec x 0); [lia|]. done.
Qed.

Lemma body_cons abs sg stk : body abs (sg :: stk) = body abs stk ++ sg ++ [slash].
Proof.
  unfold body. rewrite reverse_cons, fmap_app, concat_app. cbn.
  by rewrite app_nil_r, app_assoc.
Qed.

Lemma body_last abs stk : stk <> [] \/ abs = true -> exists A, body abs stk = A ++ [slash].
Proof.
  intros H. destruct stk as [|sg stk].
  - destruct H as [?| ->]; [done|]. by exists [].
  - rewrite body_cons. exists (body abs stk ++ sg). by rewrite <- app_assoc.
Qed.

Lemma join_snoc ss sg : join (ss ++ [sg]) = concat ((fun sg => sg ++ [slash]) <$> ss) ++ sg.
Proof.
  induction ss as [|s1 ss IH]; [done|]. destruct ss as [|s2 ss]; cbn in *.
  - by rewrite app_nil_r, <- app_assoc.
  - rewrite IH. by rewrite <- !app_assoc.
Qed.

Lemma body_join abs sg stk :
  body abs (sg :: stk) = ((if abs then [slash] else []) ++ join (reverse (sg :: stk))) ++ [slash].
Proof.
  rewrite body_cons, reverse_cons, join_snoc. unfold body. by rewrite <- !app_assoc.
Qed.

(** ** The loop invariant of [inlineReducePath] *)

Lemma segment_is_dot_spec path r sg v :
  drop r path = sg ++ v ->
  segment_is_dot path r (r + length sg) = Some (bool_decide (sg = [dot])).
Proof.
  intros Hd. unfold segment_is_dot. destruct (Nat.eqb_spec (r + length sg) (r + 1)) as [E|E].
  - destruct sg as [|c [|]]; cbn in E; try lia. rewrite (lookup_drop_head _ _ _ _ Hd). cbn.
    f_equal. case_bool_decide as H; [by injection H as ->|].
    apply Z.eqb_neq. congruence.
  - rewrite bool_decide_eq_false_2; [done|]. intros ->. cbn in E. lia.
Qed.

Lemma segment_is_dotdot_spec path r sg v :
  drop r path = sg ++ v ->
  segment_is_dotdot path r (r + length sg) = Some (bool_decide (sg = dotdot)).
Proof.
  intros Hd. unfold segment_is_dotdot. destruct (Nat.eqb_spec (r + length sg) (r + 2)) as [E|E].
  - destruct sg as [|c1 [|c2 [|]]]; cbn in E; try lia. rewrite (lookup_drop_head _ _ _ _ Hd).
    rewrite (lookup_drop_head path (r + 1) c2 v) by by apply (drop_app_step path r [c1]).
    cbn. case_bool_decide as H; [by injection H as -> ->|].
    destruct (Z.eqb_spec c1 dot) as [->|]; [|done]. f_equal. apply Z.eqb_neq.
    unfold dotdot in H. congruence.
  - rewrite bool_decide_eq_false_2; [done|]. intros ->. cbn in E. lia.
Qed.

Lemma segs_split sg u :
  seg_ok sg -> (u = [] \/ exists u', u = slash :: u') -> segs (sg ++ u) = sg :: segs u.
Proof.
  intros Hsg [->|[u' ->]].
  - rewrite app_nil_r. by apply segs_end.
  - by rewrite segs_cons.
Qed.

(** Copying one segment pushes it on the stack. *)
Lemma copy_step abs stk path r i sg u rest :
  seg_ok sg -> (u = [] \/ exists u', u = slash :: u') -> is_cstr u ->
  drop r path = sg ++ u ++ 0 :: rest -> take i path = body abs stk -> (i <= r)%nat ->
  exists path' r' i' t' tl, copy_segment (r + length sg) path r i = Some (path', r', i') /\
    drop r' path' = t' ++ 0 :: rest /\ segs t' = segs u /\ is_cstr t' /\
    take i' path' ++ tl = body abs (sg :: stk) /\ (t' <> [] -> tl = []) /\
    (tl = [] \/ tl = [slash]) /\ (i' <= r')%nat /\ (r < r')%nat /\ length path' = length path.
Proof.
  intros [Hne Hsg] Hu Hcu Hd Ht Hir.
  assert (Hnz : Forall (fun c => c <> 0) sg).
  { eapply Forall_impl; [|exact Hsg]. intros c Hc ->. done. }
  assert (Hl : (0 < length sg)%nat) by (destruct sg; [done|cbn; lia]).
  destruct Hu as [->|[u' ->]].
  - destruct (copy_segment_spec (r + length sg) sg (0 :: rest) path r i)
      as (path' & -> & Ht' & Hd' & Hlen); [done|done|done|lia|done|eauto|].
    exists path', (r + length sg)%nat, (i + length sg)%nat, [], [slash].
    rewrite Ht', Ht, body_cons, <- app_assoc. repeat split; auto; try lia; done || constructor.
  - destruct (copy_segment_spec (r + length sg) (sg ++ [slash]) (u' ++ 0 :: rest) path r i)
      as (path' & -> & Ht' & Hd' & Hlen).
    + done.
    + by rewrite Hd, <- app_assoc.
    + apply Forall_app; split; [done|]. by repeat constructor.
    + rewrite length_app; cbn; lia.
    + by destruct u'.
    + left. rewrite length_app; cbn; lia.
    + exists path', (r + length (sg ++ [slash]))%nat, (i + length (sg ++ [slash]))%nat, u', [].
      rewrite Ht', Ht, body_cons, app_nil_r. apply Forall_cons_iff in Hcu as [_ Hcu].
      rewrite length_app in *. repeat split; auto; cbn; lia.
Qed.

Section invariant.
Context (abs : bool) (rest : list Z) (final : list (list Z)).

(** [up] are the reducible segments of the stack, above [k] times "..". *)
Definition inv (s : rst) : Prop :=
  exists (up : list (list Z)) (k : nat) (t tl : list Z),
    let stk := up ++ replicate k dotdot in
    Forall seg_ok up /\ Forall (fun sg => sg <> dotdot) up /\ (abs = true -> k = O) /\
    drop (read_pos s) (path s) = t ++ 0 :: rest /\ is_cstr t /\
    resolve abs stk (segs t) = final /\
    take (insert_pos s) (path s) ++ tl = body abs stk /\
    (t <> [] -> tl = [] /\ segments s = length up) /\
    (tl = [] \/ tl = [slash] /\ stk <> []) /\ (insert_pos s <= read_pos s)%nat.

End invariant.

Lemma resolve_up abs up k ss :
  (abs = true -> k = O) ->
  resolve abs (up ++ replicate k dotdot) (dotdot :: ss) =
  match up with
  | [] => if abs then resolve abs [] ss else resolve abs (replicate (S k) dotdot) ss
  | top :: up' => if decide (top = dotdot) then resolve abs (dotdot :: up ++ replicate k dotdot) ss
                  else resolve abs (up' ++ replicate k dotdot) ss
  end.
Proof.
  intros Hk. cbn. rewrite decide_False by done. rewrite decide_True by done.
  destruct up as [|top up]; cbn; [|done]. destruct k as [|k]; cbn.
  - by destruct abs.
  - destruct abs; [discriminate (Hk eq_refl)|]. by rewrite decide_True by done.
Qed.

(** What [reduce_step] sees after its two scans. *)
Lemma scans_spec path r t rest :
  drop r path = t ++ 0 :: rest -> is_cstr t -> t <> [] ->
  exists j sg u, t = replicate j slash ++ sg ++ u /\ Forall (fun c => plain c = true) sg /\
    (u = [] \/ exists u', u = slash :: u') /\ (sg = [] -> u = [] /\ (0 < j)%nat) /\
    is_cstr u /\
    scan (fun c => c =? slash) path r = Some (r + j)%nat /\
    drop (r + j) path = sg ++ u ++ 0 :: rest /\
    scan (fun c => negb (c =? 0) && negb (c =? slash)) path (r + j) = Some (r + j + length sg)%nat.
Proof.
  intros Hd Ht Hne. destruct (split_segment t Ht) as (j & sg & u & -> & Hsg & Hu & Hsu).
  exists j, sg, u. apply Forall_app in Ht as [_ [_ Hcu]%Forall_app].
  assert (Hd' : drop (r + j) path = sg ++ u ++ 0 :: rest).
  { rewrite <- (length_replicate j slash). apply drop_app_step. by rewrite Hd, <- !app_assoc. }
  split; [done|]. split; [done|]. split; [done|]. split.
  { intros ->. rewrite Hsu by done. split; [done|]. destruct j; [|lia].
    rewrite Hsu in Hne by done. done. }
  split; [done|]. split.
  - assert (exists x v, sg ++ u ++ 0 :: rest = x :: v /\ (x =? slash) = false) as (x & v & Hx & Hxs).
    { destruct sg as [|c sg]; [rewrite Hsu by done; by eexists 0, rest|].
      eexists c, _. split; [done|]. apply Forall_cons_iff in Hsg as [Hc _].
      unfold plain in Hc. apply andb_true_iff in Hc as [_ Hc]. by apply negb_true_iff. }
    rewrite <- (length_replicate j slash).
    apply (scan_spec _ _ _ _ x v); [|by apply Forall_replicate|done].
    rewrite Hd, <- !app_assoc. by rewrite Hx.
  - split; [done|].
    assert (exists x v, u ++ 0 :: rest = x :: v /\ plain x = false) as (x & v & Hx & Hxs).
    { destruct Hu as [->|[u' ->]]; by eexists _, _. }
    apply (scan_spec _ _ _ _ x v); [by rewrite Hd', Hx|done|done].
Qed.

(** An iteration keeps the invariant and reads at least one character. *)
Definition advances (abs : bool) rest final (s : rst) (os : option rst) : Prop :=
  exists s', os = Some s' /\ inv abs rest final s' /\
    (read_pos s < read_pos s')%nat /\ length (path s') = length (path s).

Section cases.
Context (abs : bool) (rest : list Z) (final : list (list Z)) (s : rst).
Context (up : list (list Z)) (k j : nat) (sg u : list Z).
Let stk := up ++ replicate k dotdot.
Context (Hok : Forall seg_ok up) (Hnd : Forall (fun sg => sg <> dotdot) up)
  (Hk : abs = true -> k = O) (Hsg : Forall (fun c => plain c = true) sg)
  (Hu : u = [] \/ exists u', u = slash :: u') (Hcu : is_cstr u)
  (Hd : drop (read_pos s + j) (path s) = sg ++ u ++ 0 :: rest)
  (Htk : take (insert_pos s) (path s) = body abs stk)
  (Hseg : segments s = length up) (Hir : (insert_pos s <= read_pos s)%nat).

(** The segment is skipped: "." and, in "/", "..". *)
Lemma case_skip :
  seg_ok sg -> resolve abs stk (segs u) = final ->
  advances abs rest final s
    (Some (mkRst (path s) (read_pos s + j + length sg) (insert_pos s) (segments s))).
Proof.
  intros [Hne _] Hres. eexists. split; [done|].
  split; [|cbn; split; [destruct sg; [done|cbn; lia]|done]].
  exists up, k, u, []. cbn -[body drop take] in *. rewrite app_nil_r.
  apply drop_app_step in Hd. repeat split; auto; lia.
Qed.

(** Only slashes are left: the empty segment copies nothing. *)
Lemma case_empty n :
  sg = [] -> u = [] -> (0 < j)%nat -> resolve abs stk [] = final ->
  advances abs rest final s
    ('(path, r, i) ← copy_segment (read_pos s + j + length sg) (path s) (read_pos s + j) (insert_pos s);
     Some (mkRst path r i n)).
Proof.
  clear Hu. intros -> -> Hj Hres.
  destruct (copy_segment_spec (read_pos s + j + length (@nil Z)) [] (0 :: rest) (path s)
    (read_pos s + j) (insert_pos s)) as (path' & -> & Ht' & Hd'' & Hlen);
    [lia|done|constructor|cbn; lia|done|by right; eauto|].
  eexists. split; [done|]. cbn -[body drop take app] in *.
  rewrite !Nat.add_0_r in *. rewrite app_nil_r in Ht'. split; [|split; [lia|done]].
  exists up, k, [], []. cbn. rewrite Ht', app_nil_r. repeat split; auto; done || lia.
Qed.

(** The segment is copied and pushed on the stack [up' ++ ".."^k']. *)
Lemma case_push n up' k' :
  seg_ok sg -> up' ++ replicate k' dotdot = sg :: stk -> n = length up' ->
  Forall seg_ok up' -> Forall (fun sg => sg <> dotdot) up' -> (abs = true -> k' = O) ->
  resolve abs (sg :: stk) (segs u) = final ->
  advances abs rest final s
    ('(path, r, i) ← copy_segment (read_pos s + j + length sg) (path s) (read_pos s + j) (insert_pos s);
     Some (mkRst path r i n)).
Proof.
  intros Hsok Hstk Hn Hok' Hnd' Hk' Hres.
  destruct (copy_step abs stk (path s) (read_pos s + j) (insert_pos s) sg u rest)
    as (path' & r' & i' & t' & tl & -> & Hd'' & Hst & Hct & Htk' & Ht0 & Htl' & Hle & Hlt & Hlen);
    [done|done|done|done|done|lia|].
  cbn. eexists. split; [done|]. split; [|cbn; split; [lia|done]].
  exists up', k', t', tl. cbn -[body]. rewrite Hstk, Hst.
  repeat split; auto; try done. destruct Htl' as [->| ->]; [by left|by right].
Qed.

(** ".." removes the last reducible segment. *)
Lemma case_pop top up' n :
  up = top :: up' -> sg = dotdot -> n = length up' ->
  resolve abs (up' ++ replicate k dotdot) (segs u) = final ->
  advances abs rest final s
    (i ← remove_segment (path s) (insert_pos s);
     Some (mkRst (path s) (read_pos s + j + 2) i n)).
Proof.
  intros Hup -> -> Hres. subst stk. rewrite Hup in Hok, Hnd, Htk.
  apply Forall_cons_iff in Hok as [Htop Hok'], Hnd as [_ Hnd'].
  cbn [app] in Htk. rewrite body_cons in Htk.
  set (A := body abs (up' ++ replicate k dotdot)) in *.
  assert (Hil : (insert_pos s <= length (path s))%nat).
  { pose proof (drop_cons_lt _ _ _ _ Hd). lia. }
  assert (HA : A = [] \/ exists A', A = A' ++ [slash]).
  { destruct (decide (up' ++ replicate k dotdot = [])) as [E|Hn].
    - subst A. rewrite E. destruct abs; [right; by exists []|by left].
    - right. apply body_last. by left. }
  rewrite (remove_segment_spec (path s) A top _ _ Htk (proj2 Htop) HA eq_refl Hil).
  assert (Hbl : (length A <= insert_pos s)%nat).
  { apply (f_equal length) in Htk. rewrite length_take, !length_app in Htk. lia. }
  cbn. eexists. split; [done|]. split; [|cbn; split; [lia|done]].
  exists up', k, u, []. cbn -[body drop take]. rewrite app_nil_r.
  repeat split; auto; try lia.
  - by apply (drop_app_step _ _ dotdot).
  - apply (f_equal (take (length A))) in Htk.
    by rewrite take_take, Nat.min_l, take_app_length in Htk by lia.
Qed.
End cases.

Lemma reduce_step_inv abs rest final s c :
  inv abs rest final s -> path s !! read_pos s = Some c -> c <> 0 ->
  advances abs rest final s (reduce_step abs s).
Proof.
  intros (up & k & t & tl & Hok & Hnd & Hk & Hd & Ht & Hres & Htk & Htl & _ & Hir) Hc Hc0.
  assert (Hne : t <> []).
  { intros ->. rewrite (lookup_drop_head _ _ _ _ Hd) in Hc. congruence. }
  destruct (Htl Hne) as [-> Hseg]. rewrite app_nil_r in Htk.
  destruct (scans_spec _ _ _ _ Hd Ht Hne) as (j & sg & u & -> & Hsg & Hu & Hsu & Hcu & Hs1 & Hd' & Hs2).
  rewrite segs_slashes in Hres. unfold reduce_step. rewrite Hs1. cbn [mbind option_bind].
  rewrite Hs2. cbn [mbind option_bind].
  rewrite (segment_is_dot_spec _ _ _ _ Hd'), (segment_is_dotdot_spec _ _ _ _ Hd').
  cbn [mbind option_bind]. destruct (decide (sg = [])) as [->|Hsgne].
  { destruct (Hsu eq_refl) as [-> Hj]. rewrite !bool_decide_eq_false_2 by done.
    by eapply case_empty. }
  assert (Hsok : seg_ok sg) by done. rewrite segs_split in Hres by done.
  case_bool_decide as Hdot; [|case_bool_decide as Hdd].
  - subst sg. cbn [resolve] in Hres. rewrite decide_True in Hres by done.
    by eapply (case_skip) with (sg := [dot]) (up := up) (k := k).
  - subst sg. rewrite resolve_up in Hres by done. destruct up as [|top up].
    + rewrite Hseg. cbn [length Nat.ltb Nat.leb]. destruct abs.
      * rewrite (Hk eq_refl) in *. change O with (length (@nil (list Z))) at 2. rewrite <- Hseg.
        by eapply case_skip with (sg := dotdot) (up := []) (k := O).
      * by eapply case_push with (up := []) (k := k) (up' := []) (k' := S k).
    + rewrite Hseg. cbn [length Nat.ltb Nat.leb].
      apply Forall_cons_iff in Hnd as Hnd'. rewrite decide_False in Hres by tauto.
      eapply case_pop with (up := top :: up) (k := k); eauto; cbn; lia.
  - cbn in Hres. rewrite !decide_False in Hres by done.
    eapply case_push with (up := up) (k := k) (up' := sg :: up) (k' := k); eauto; cbn; lia.
Qed.

(** ** Normal forms *)

Lemma segs_from_cstr cur t : is_cstr cur -> is_cstr t -> Forall is_cstr (segs_from cur t).
Proof.
  intros Hcur Ht. revert cur Hcur. induction Ht as [|c t Hc _ IH]; intros cur Hcur; cbn.
  - destruct cur; constructor; [done|constructor].
  - destruct (c =? slash).
    + destruct cur; [|constructor; [done|]]; apply IH; constructor.
    + apply IH. apply Forall_app; split; [done|by constructor].
Qed.

Lemma segs_from_ok cur t :
  Forall (fun c => plain c = true) cur -> is_cstr t -> Forall seg_ok (segs_from cur t).
Proof.
  intros Hcur Ht. revert cur Hcur. induction Ht as [|c t Hc _ IH]; intros cur Hcur; cbn.
  - destruct cur; constructor; [done|constructor].
  - destruct (Z.eqb_spec c slash).
    + destruct cur; [|constructor; [done|]]; apply IH; constructor.
    + apply IH. apply Forall_app; split; [done|]. repeat constructor. unfold plain.
      rewrite (proj2 (Z.eqb_neq c 0)), (proj2 (Z.eqb_neq c slash)) by lia. done.
Qed.

Lemma resolve_Forall (P : list Z -> Prop) abs stk ss :
  P dotdot -> Forall P stk -> Forall P ss -> Forall P (resolve abs stk ss).
Proof.
  intros Hdd Hstk Hss. revert stk Hstk. induction Hss as [|sg ss Hsg _ IH]; intros stk Hstk; cbn; [done|].
  repeat case_match; subst; try done; apply IH; repeat constructor; try done;
    by apply Forall_cons_iff in Hstk as [??].
Qed.

Lemma join_cstr ss : Forall is_cstr ss -> is_cstr (join ss).
Proof.
  induction 1 as [|sg ss Hsg Hss IH]; [constructor|]. cbn. destruct ss; [done|].
  apply Forall_app. split; [done|]. constructor; [done|]. apply IH.
Qed.

Lemma dotdot_cstr : is_cstr dotdot.
Proof. repeat constructor. Qed.

Lemma normal_form_cstr t : is_cstr t -> is_cstr (normal_form t).
Proof.
  intros Ht. unfold normal_form. apply Forall_app. split; [destruct (is_abs t); repeat constructor|].
  apply join_cstr, Forall_reverse, resolve_Forall; [apply dotdot_cstr|constructor|].
  by apply segs_from_cstr; [constructor|].
Qed.

(** A resolved stack: ordinary segments over "..", and none of these in "/". *)
Definition resolved (abs : bool) (stk : list (list Z)) : Prop :=
  exists up k, stk = up ++ replicate k dotdot /\ (abs = true -> k = O) /\
    Forall (fun sg => seg_ok sg /\ sg <> [dot] /\ sg <> dotdot) up.

Lemma resolve_resolved abs stk ss :
  Forall seg_ok ss -> resolved abs stk -> resolved abs (resolve abs stk ss).
Proof.
  intros Hss. revert stk. induction Hss as [|sg ss Hsg _ IH]; intros stk (up & k & -> & Hk & Hup);
    [by exists up, k|].
  destruct (decide (sg = dotdot)) as [->|Hdd].
  - rewrite resolve_up by done. destruct up as [|top up].
    + destruct abs; apply IH; [by exists [], O|]. by exists [], (S k).
    + apply Forall_cons_iff in Hup as [Htop Hup]. rewrite decide_False by tauto.
      apply IH. by exists up, k.
  - cbn [resolve]. destruct (decide (sg = [dot])) as [->|Hd].
    + apply IH. by exists up, k.
    + rewrite decide_False by done. apply IH. exists (sg :: up), k. repeat split; [done..|].
      by constructor.
Qed.

(** Resolving the segments of a resolved stack rebuilds it. *)
Lemma resolve_id abs stk : resolved abs stk -> resolve abs [] (reverse stk) = stk.
Proof.
  intros (up & k & -> & Hk & Hup). rewrite reverse_app, reverse_replicate.
  assert (Hpre : forall ss, resolve abs [] (replicate k dotdot ++ ss) = resolve abs (replicate k dotdot) ss).
  { intros ss. enough (forall n, resolve abs (replicate n dotdot) (replicate k dotdot ++ ss)
                             = resolve abs (replicate (k + n) dotdot) ss) as H.
    { specialize (H O). by rewrite Nat.add_0_r in H. }
    clear Hup. induction k as [|k IH]; intros n; [done|]. destruct abs; [discriminate (Hk eq_refl)|].
    pose proof (resolve_up false [] n (replicate k dotdot ++ ss)) as H. cbn [app] in H.
    cbn [replicate app]. rewrite H, IH by done. by rewrite Nat.add_succ_r. }
  rewrite Hpre. clear Hpre Hk. enough (forall stk, resolve abs stk (reverse up) = up ++ stk) by done.
  induction up as [|sg up IH] using rev_ind; intros stk; [done|].
  apply Forall_app in Hup as [Hup [(_ & Hd & Hdd) _]%Forall_cons_iff].
  rewrite reverse_app. cbn. rewrite !decide_False by done.
  rewrite IH by done. by rewrite <- app_assoc.
Qed.

Lemma segs_join ss : Forall seg_ok ss -> segs (join ss) = ss.
Proof.
  induction 1 as [|sg ss Hsg Hss IH]; [done|]. cbn. destruct ss as [|s2 ss]; [by apply segs_end|].
  rewrite segs_cons by done. by f_equal.
Qed.

Lemma is_abs_join ss : Forall seg_ok ss -> is_abs (join ss) = false.
Proof.
  intros [|sg ss' [Hne Hsg] _]; [done|]. destruct sg as [|c sg]; [done|].
  apply Forall_cons_iff in Hsg as [Hc _]. unfold plain in Hc.
  apply andb_true_iff in Hc as [_ Hc%negb_true_iff]. destruct ss'; cbn; done.
Qed.

Lemma resolved_ok abs stk : resolved abs stk -> Forall seg_ok stk.
Proof.
  intros (up & k & -> & _ & Hup). apply Forall_app. split.
  - eapply Forall_impl; [|exact Hup]. intros ? [? _]; done.
  - apply Forall_replicate. split; [done|]. by repeat constructor.
Qed.

(** The end of [inlineReducePath]: dropping the last '/' leaves the normal form. *)
Lemma final_strip abs stk tl (w : list Z) i path :
  Forall seg_ok stk -> take i path ++ tl = body abs stk -> (i < length path)%nat ->
  (tl = [] \/ tl = [slash] /\ stk <> []) ->
  w = (if abs then [slash] else []) ++ join (reverse stk) ->
  exists i', (if (1 <? i)%nat
       then c ← path !! (i - 1)%nat; Some (if c =? slash then (i - 1)%nat else i)
       else Some i) = Some i' /\ take i' path = w /\ (i' <= i)%nat.
Proof.
  intros Hok Htk Hi Htl Hw.
  assert (Hlen : length (take i path) = i) by (rewrite length_take; lia).
  destruct stk as [|sg stk].
  { destruct Htl as [->|[_ ?]]; [|done]. rewrite app_nil_r in Htk. exists i.
    replace (1 <? i)%nat with false; [by rewrite Hw, Htk|].
    symmetry. apply Nat.ltb_ge. rewrite <- Hlen, Htk. destruct abs; cbn; lia. }
  rewrite body_join, <- Hw in Htk.
  assert (Hwl : exists w' c, w = w' ++ [c] /\ (c =? slash) = false).
  { rewrite Hw, reverse_cons, join_snoc. apply Forall_cons_iff in Hok as [[Hne Hsg] _].
    destruct sg as [|c sg _] using rev_ind; [done|].
    apply Forall_app in Hsg as [_ [Hc _]%Forall_cons_iff]. unfold plain in Hc.
    apply andb_true_iff in Hc as [_ Hc%negb_true_iff].
    eexists _, c. split; [|done]. by rewrite !app_assoc. }
  destruct Hwl as (w' & c & -> & Hc). destruct Htl as [->|[-> _]].
  - rewrite app_nil_r in Htk. assert (i = S (S (length w'))) as ->.
    { rewrite <- Hlen, Htk, !length_app. cbn. lia. }
    exists (S (length w')). cbn [Nat.ltb Nat.leb Nat.sub].
    rewrite <- (lookup_take_lt path (S (S (length w')))), Htk by lia.
    rewrite (list_lookup_middle (w' ++ [c])) by (rewrite length_app; cbn; lia).
    split; [done|]. split; [|lia].
    apply (f_equal (take (S (length w')))) in Htk. rewrite take_take, Nat.min_l in Htk by lia.
    rewrite Htk. rewrite take_app_le, take_ge; rewrite ?length_app; cbn; try lia; done.
  - apply app_inj_tail in Htk as [Htk _]. assert (i = S (length w')) as ->.
    { rewrite <- Hlen, Htk, length_app. cbn. lia. }
    exists (S (length w')). split; [|split; [done|lia]].
    destruct (1 <? S (length w'))%nat; [|done]. cbn [Nat.sub]. rewrite Nat.sub_0_r.
    rewrite <- (lookup_take_lt path (S (length w'))), Htk by lia.
    rewrite list_lookup_middle by done. cbn. by rewrite Hc.
Qed.

(** ** Properties *)

Lemma reduce_correct buf s :
  holds_cstr buf s ->
  exists buf', inlineReducePath buf = Some buf' /\ length buf' = length buf /\
    holds_cstr buf' (normal_form s).
Proof.
  intros [Hs [rest Hbuf]]. set (abs := is_abs s). set (final := resolve abs [] (segs s)).
  set (start := if abs then 1%nat else O).
  assert (Hc : buf !! 0%nat = Some (default 0 (head s))) by (subst buf; by destruct s).
  assert (Habs : (default 0 (head s) =? slash) = abs) by by destruct s.
  assert (Hinv : inv abs rest final (mkRst buf start start 0)).
  { exists [], O, (drop start s), []. subst final start abs. subst buf. cbn -[body].
    destruct s as [|c s]; [by repeat split; auto; constructor|].
    cbn [is_abs]. destruct (Z.eqb_spec c slash) as [->|]; repeat split; auto; try done;
      by apply Forall_cons_iff in Hs as [??]. }
  unfold inlineReducePath. rewrite Hc. cbn [mbind option_bind]. rewrite Habs. fold start.
  destruct (while_rule (fun s => inv abs rest final s /\ length (path s) = length buf)
    (fun s => (length buf - read_pos s)%nat)
    (fun s => c ← path s !! read_pos s; Some (negb (c =? 0))) (reduce_step abs))
    with (fuel := S (length buf)) (s := mkRst buf start start 0)
    as (s' & -> & [(up & k & t & tl & Hok & Hnd & Hk & Hd & Ht & Hres & Htk & _ & Htl & Hir) Hlen] & Hend);
    [| |cbn; lia|].
  { intros s0 [HI0 Hl0]. pose proof HI0 as (up & k & t & tl & _ & _ & _ & Hd & _).
    assert (exists c v, t ++ 0 :: rest = c :: v) as (c & v & Hcv) by (destruct t; by do 2 eexists).
    rewrite Hcv in Hd. rewrite (lookup_drop_head _ _ _ _ Hd). eexists. split; [done|].
    intros Hnz%negb_true_iff%Z.eqb_neq. pose proof (drop_cons_lt _ _ _ _ Hd).
    destruct (reduce_step_inv abs rest final s0 c HI0) as (s1 & -> & HI1 & Hlt & Hl1);
      [by eapply lookup_drop_head|done|].
    exists s1. repeat split; [done|congruence|lia]. }
  { done. }
  assert (t = []) as ->.
  { destruct t as [|c t]; [done|]. rewrite (lookup_drop_head _ _ _ _ Hd) in Hend. cbn in Hend.
    apply Forall_cons_iff in Ht as [Hc0 _]. destruct (Z.eqb_spec c 0); [lia|done]. }
  cbn in Hres. pose proof (drop_cons_lt _ _ _ _ Hd). cbn [mbind option_bind].
  destruct (final_strip abs final tl (normal_form s) (insert_pos s') (path s'))
    as (i' & -> & Hi' & Hle); [|by rewrite <- Hres|lia|by rewrite <- Hres|done|].
  { apply (resolved_ok abs), resolve_resolved; [by apply segs_from_ok|]. by exists [], O. }
  cbn. rewrite buf_set_in by lia. eexists. split; [done|].
  rewrite length_insert. split; [done|]. split; [by apply normal_form_cstr|].
  exists (drop (S i') (path s')). rewrite <- Hi'. apply insert_take_drop. lia.
Qed.

(** C39: [inlineReducePath] on a NUL-terminated path stays inside the buffer and
    leaves in it the normal form of the path: empty and "." segments dropped,
    ".." resolved against the segment before it, ignored in the root and kept
    at the start of a relative path, and no trailing '/'. *)
Theorem inlineReducePath_normal_form buf s :
  holds_cstr buf s ->
  exists buf', inlineReducePath buf = Some buf' /\ length buf' = length buf /\
    holds_cstr buf' (normal_form s).
Proof. apply reduce_correct. Qed.

Lemma inlineReducePath_normal_form_witness :
  exists buf', inlineReducePath (cstr "/a/./b//../c/" ++ [0; 9]) = Some buf' /\
    length buf' = length (cstr "/a/./b//../c/" ++ [0; 9]) /\
    holds_cstr buf' (normal_form (cstr "/a/./b//../c/")).
Proof.
  apply inlineReducePath_normal_form; split; [|by exists [9]].
  repeat (apply Forall_cons; [vm_compute; split; reflexivity|]); apply Forall_nil.
Defined.

Lemma normal_form_idem s : is_cstr s -> normal_form (normal_form s) = normal_form s.
Proof.
  intros Hs. set (abs := is_abs s). set (stk := resolve abs [] (segs s)).
  assert (Hr : resolved abs stk).
  { apply resolve_resolved; [by apply segs_from_ok|]. by exists [], O. }
  pose proof (resolved_ok _ _ Hr) as Hok. apply Forall_reverse in Hok as Hrok.
  assert (Hnf : normal_form s = (if abs then [slash] else []) ++ join (reverse stk)) by done.
  assert (Ha : is_abs (normal_form s) = abs).
  { rewrite Hnf. destruct abs eqn:E; [done|]. by apply is_abs_join. }
  assert (Hseg : segs (normal_form s) = reverse stk).
  { rewrite Hnf. destruct abs; [apply (segs_join _ Hrok)|by apply segs_join]. }
  unfold normal_form at 1. by rewrite Ha, Hseg, resolve_id.
Qed.

Lemma clone_string_spec path s : holds_cstr path s -> clone_string path = Some (s ++ [0]).
Proof.
  intros H. unfold clone_string. rewrite (Str.strlen_spec _ _ H). cbn.
  destruct H as [_ [rest ->]]. f_equal.
  rewrite (app_assoc s [0] rest : s ++ 0 :: rest = _). 
  by rewrite <- (length_app s [0] : _ = (length s + 1)%nat), take_app_length.
Qed.

(** ** Directory and base name *)

Lemma back_while_spec p A x w v :
  Forall (fun c => p c = true) w -> (A = [] \/ p x = false) ->
  back_while p (A ++ x :: w ++ v) (length A + length w) = Some (length A).
Proof.
  intros Hw Hx. revert v. induction w as [|c w IH] using rev_ind; intros v.
  - rewrite Nat.add_0_r. destruct Hx as [->|Hx]; [done|].
    destruct (length A) eqn:E; [done|]. cbn [back_while].
    rewrite list_lookup_middle by done. cbn. by rewrite Hx.
  - apply Forall_app in Hw as [Hw [Hc _]%Forall_cons_iff].
    rewrite length_app, Nat.add_1_r, Nat.add_succ_r. cbn [back_while].
    replace (A ++ x :: (w ++ [c]) ++ v) with ((A ++ x :: w) ++ c :: v)
      by (by rewrite <- !app_assoc).
    rewrite list_lookup_middle by (rewrite length_app; cbn; lia). cbn. rewrite Hc.
    rewrite <- (IH Hw (c :: v)). by rewrite <- app_assoc.
Qed.

Definition no_trailing_slash (d : list Z) : Prop :=
  d = [] \/ exists d' c, d = d' ++ [c] /\ (c =? slash) = false.

Lemma back_slashes_spec d m v :
  no_trailing_slash d -> back_slashes (d ++ replicate m slash ++ v) (length d + m) = Some (length d).
Proof.
  intros Hd. revert v. induction m as [|m IH]; intros v.
  - rewrite Nat.add_0_r. destruct Hd as [->|(d' & c & -> & Hc)]; [done|].
    rewrite length_app, Nat.add_1_r. cbn [back_slashes].
    rewrite <- app_assoc. cbn [app]. rewrite list_lookup_middle by done. cbn. by rewrite Hc.
  - rewrite Nat.add_succ_r, replicate_S_end. cbn [back_slashes].
    replace (d ++ (replicate m slash ++ [slash]) ++ v) with ((d ++ replicate m slash) ++ slash :: v)
      by (by rewrite <- !app_assoc).
    rewrite list_lookup_middle by (rewrite length_app, length_replicate; lia). cbn.
    rewrite <- (IH (slash :: v)). by rewrite <- app_assoc.
Qed.

(** A path [d], [n] slashes, a name, [j] slashes: the position of the last
    slash before the name, or 0 when there is none. *)
Section dirname.
Context (d : list Z) (n : nat) (name : list Z) (j : nat).
Context (Hd : no_trailing_slash d) (Hn : d <> [] -> (0 < n)%nat) (Hname : seg_ok name).
Let s := d ++ replicate n slash ++ name ++ replicate j slash.

Lemma name_end v :
  back_while (fun c => c =? slash) (s ++ v) (pred (length s))
  = Some (length d + n + pred (length name))%nat.
Proof.
  destruct Hname as [Hne Hp]. destruct name as [|x nm _] eqn:E using rev_ind; [done|].
  apply Forall_app in Hp as [_ [Hx _]%Forall_cons_iff]. unfold plain in Hx.
  apply andb_true_iff in Hx as [_ Hx%negb_true_iff].
  pose proof (back_while_spec (fun c => c =? slash) (d ++ replicate n slash ++ nm) x
    (replicate j slash) v) as H. subst s.
  replace (pred (length (d ++ replicate n slash ++ (nm ++ [x]) ++ replicate j slash)))
    with (length (d ++ replicate n slash ++ nm) + length (replicate j slash))%nat
    by (rewrite !length_app; cbn; lia).
  replace ((d ++ replicate n slash ++ (nm ++ [x]) ++ replicate j slash) ++ v)
    with ((d ++ replicate n slash ++ nm) ++ x :: replicate j slash ++ v)
    by (by rewrite <- !app_assoc).
  rewrite H; [|by apply Forall_replicate|by right].
  rewrite !length_app, length_replicate. cbn. f_equal. lia.
Qed.

Lemma name_start v :
  back_while (fun c => negb (c =? slash)) (s ++ v) (length d + n + pred (length name))
  = Some (length d + pred n)%nat.
Proof.
  destruct Hname as [Hne Hp].
  assert (Hp' : Forall (fun c => negb (c =? slash) = true) name).
  { eapply Forall_impl; [|exact Hp]. intros c [_ Hc]%andb_true_iff. done. }
  destruct n as [|n'].
  - destruct (decide (d = [])) as [->|Hd0]; [|specialize (Hn Hd0); lia].
    destruct name as [|x nm]; [done|]. apply Forall_cons_iff in Hp' as [_ Hp'].
    subst s. cbn. rewrite <- app_assoc.
    apply (back_while_spec _ [] x nm (replicate j slash ++ v)); [done|by left].
  - subst s. rewrite replicate_S_end.
    replace ((d ++ (replicate n' slash ++ [slash]) ++ name ++ replicate j slash) ++ v)
      with ((d ++ replicate n' slash) ++ slash :: name ++ replicate j slash ++ v)
      by (by rewrite <- !app_assoc).
    replace (length d + S n' + pred (length name))%nat
      with (length (d ++ replicate n' slash) + length name)%nat.
    + rewrite back_while_spec by (done || by right).
      by rewrite length_app, length_replicate.
    + rewrite length_app, length_replicate. destruct name; [done|cbn; lia].
Qed.

Lemma split_length : length s = S (pred (length s)).
Proof.
  clear Hd Hn. subst s. destruct Hname as [Hne _]. rewrite !length_app, !length_replicate.
  destruct name; [done|]. cbn. lia.
Qed.
End dirname.

(** Writing the NUL at [i] leaves the string of the first [i] bytes. *)
Lemma buf_set_nul buf i w :
  is_cstr w -> (i < length buf)%nat -> take i buf = w ->
  exists buf', buf_set buf i 0 = Some buf' /\ holds_cstr buf' w.
Proof.
  intros Hw Hi Ht. rewrite buf_set_in by done. eexists. split; [done|]. split; [done|].
  exists (drop (S i) buf). rewrite <- Ht. by apply insert_take_drop.
Qed.

Definition parent_of (d : list Z) (n : nat) : list Z :=
  if decide (d = []) then (if decide (n = O) then [] else [slash]) else d.

Lemma getParentPath_spec d n name j buf :
  no_trailing_slash d -> (d <> [] -> (0 < n)%nat) -> seg_ok name -> is_cstr d ->
  holds_cstr buf (d ++ replicate n slash ++ name ++ replicate j slash) ->
  exists parent, getParentPath buf = Some parent /\ holds_cstr parent (parent_of d n).
Proof.
  intros Hd Hn Hname Hcd Hbuf. unfold getParentPath. rewrite (clone_string_spec _ _ Hbuf).
  cbn [mbind option_bind]. rewrite (Str.strlen_spec _ _ (Str.holds_cstr_intro _ [] (proj1 Hbuf))).
  cbn [mbind option_bind]. rewrite (split_length d n name j Hname).
  rewrite name_end by done.
  cbn [mbind option_bind]. rewrite name_start by done. cbn [mbind option_bind].
  assert (Hbs : back_slashes ((d ++ replicate n slash ++ name ++ replicate j slash) ++ [0])
                  (length d + pred n) = Some (length d)).
  { replace (replicate n slash) with (replicate (pred n) slash ++ replicate (n - pred n) slash)
      by (rewrite <- replicate_add; f_equal; lia).
    rewrite <- !app_assoc. by apply back_slashes_spec. }
  rewrite Hbs. cbn [mbind option_bind]. unfold parent_of.
  destruct (decide (d = [])) as [->|Hd0].
  - cbn [length app Nat.eqb andb]. destruct n as [|n]; cbn [replicate app].
    + destruct Hname as [Hne Hp]. destruct name as [|x nm]; [done|].
      apply Forall_cons_iff in Hp as [[_ Hx%negb_true_iff]%andb_true_iff _]. cbn. rewrite Hx.
      apply (buf_set_nul _ 0); [constructor|cbn; lia|done].
    + cbn. apply (buf_set_nul _ 1); [by repeat constructor|cbn; rewrite length_app; cbn; lia|done].
  - destruct d as [|c d]; [done|]. cbn [length app lookup list_lookup mbind option_bind Nat.eqb andb].
    apply buf_set_nul; [done|cbn; rewrite !length_app; cbn; lia|].
    cbn. by rewrite <- !app_assoc, take_app_length.
Qed.

(** The loop of [getBaseFilename] that drops the trailing slashes of the copy. *)
Lemma trim_spec name j v L fuel :
  seg_ok name -> (j < fuel)%nat ->
  while fuel
    (fun len => if (L + (length name + j) - len =? 0)%nat then None
                else c ← (name ++ replicate j slash ++ v) !! (L + (length name + j) - len - 1)%nat;
                     Some (c =? slash))
    (fun len => Some (S len)) L = Some (L + j)%nat.
Proof.
  intros [Hne Hp].
  enough (forall i fuel, (i <= j)%nat -> (i < fuel)%nat -> while fuel
    (fun len => if (L + (length name + j) - len =? 0)%nat then None
                else c ← (name ++ replicate j slash ++ v) !! (L + (length name + j) - len - 1)%nat;
                     Some (c =? slash))
    (fun len => Some (S len)) (L + (j - i))%nat = Some (L + j)%nat) as H.
  { intros Hf. specialize (H j fuel). rewrite Nat.sub_diag, Nat.add_0_r in H. apply H; lia. }
  assert (Hl : (0 < length name)%nat) by (destruct name; [done|cbn; lia]).
  clear fuel. induction i as [|i IH]; intros [|fuel] Hi Hf; try lia; cbn [while].
  all: rewrite (proj2 (Nat.eqb_neq _ 0)) by lia.
  - destruct name as [|x nm _] using rev_ind; [done|].
    apply Forall_app in Hp as [_ [[_ Hx%negb_true_iff]%andb_true_iff _]%Forall_cons_iff].
    rewrite <- app_assoc. cbn [app]. rewrite list_lookup_middle by (rewrite length_app; cbn; lia).
    cbn. rewrite Hx. f_equal. lia.
  - rewrite lookup_app_r by lia. rewrite lookup_app_l by (rewrite length_replicate; lia).
    rewrite lookup_replicate_2 by lia. cbn -[while].
    replace (S (L + (j - S i))) with (L + (j - i))%nat by lia. apply IH; lia.
Qed.

Lemma getBaseFilename_spec d n name j buf :
  no_trailing_slash d -> (d <> [] -> (0 < n)%nat) -> seg_ok name -> is_cstr name ->
  holds_cstr buf (d ++ replicate n slash ++ name ++ replicate j slash) ->
  exists base, getBaseFilename buf = Some base /\ holds_cstr base name.
Proof.
  intros Hd Hn Hname Hcn Hbuf. unfold getBaseFilename. rewrite (clone_string_spec _ _ Hbuf).
  cbn [mbind option_bind]. rewrite (Str.strlen_spec _ _ Hbuf). cbn [mbind option_bind].
  destruct Hbuf as [Hcs [rest ->]].
  pose proof (split_length d n name j Hname) as Hsl.
  pose proof (name_end d n name j Hn Hname [0]) as Hend.
  pose proof (name_start d n name j Hd Hn Hname (0 :: rest)) as Hstart.
  set (s := d ++ replicate n slash ++ name ++ replicate j slash) in *.
  rewrite Hsl, Hend. cbn [mbind option_bind]. rewrite Hstart.
  cbn [mbind option_bind]. rewrite <- Hsl.
  assert (Hc : exists c, (s ++ 0 :: rest) !! (length d + pred n)%nat = Some c /\
                 (if c =? slash then S (length d + pred n) else (length d + pred n)%nat)
                 = (length d + n)%nat).
  { subst s. destruct n as [|n].
    - destruct (decide (d = [])) as [->|Hd0]; [|specialize (Hn Hd0); lia].
      destruct Hname as [Hne Hp]. destruct name as [|x nm]; [done|]. exists x. split; [done|].
      apply Forall_cons_iff in Hp as [[_ Hx%negb_true_iff]%andb_true_iff _]. by rewrite Hx.
    - exists slash. cbn [pred]. split; [|cbn; lia].
      rewrite replicate_S_end, <- !app_assoc. cbn [app]. rewrite app_assoc.
      apply list_lookup_middle. by rewrite length_app, length_replicate. }
  destruct Hc as (c & -> & Hlen). cbn [mbind option_bind]. rewrite Hlen.
  assert (Hls : length s = (length d + n + (length name + j))%nat).
  { subst s. rewrite !length_app, !length_replicate. lia. }
  rewrite Hls. rewrite (Nat.add_comm (length d + n)), Nat.add_sub.
  assert (Hdrop : take (length name + j) (drop (length d + n) (s ++ 0 :: rest))
                  = name ++ replicate j slash).
  { subst s. rewrite <- !app_assoc, (app_assoc d), (app_assoc name).
    rewrite <- (length_replicate n slash) at 1. rewrite <- length_app, drop_app_length.
    rewrite <- (length_replicate j slash) at 1. by rewrite <- length_app, take_app_length. }
  rewrite Hdrop, <- app_assoc, (Nat.add_comm (length name + j)).
  rewrite trim_spec by (done || lia). cbn [mbind option_bind].
  apply buf_set_nul; [done|rewrite !length_app; subst s|].
  - rewrite length_drop, !length_app, !length_replicate. cbn.
    destruct Hname as [Hne _]. destruct name; [done|cbn; lia].
  - replace (length d + n + (length name + j) - (length d + n + j))%nat with (length name) by lia.
    apply take_app_length.
Qed.

(** [getParentPath] and [getBaseFilename] split a path that is a directory
    part, slashes, a name and trailing slashes: the base name is the name, the
    parent is the directory part, "/" for a name in the root, and "" for a bare
    name.  Neither leaves its buffers. *)
Theorem parent_base_split d n name j buf :
  no_trailing_slash d -> (d <> [] -> (0 < n)%nat) -> seg_ok name -> is_cstr d -> is_cstr name ->
  holds_cstr buf (d ++ replicate n slash ++ name ++ replicate j slash) ->
  exists parent base, getParentPath buf = Some parent /\ getBaseFilename buf = Some base /\
    holds_cstr parent (parent_of d n) /\ holds_cstr base name.
Proof.
  intros Hd Hn Hname Hcd Hcn Hbuf.
  destruct (getParentPath_spec d n name j buf) as (parent & ? & ?); [done..|].
  destruct (getBaseFilename_spec d n name j buf) as (base & ? & ?); [done..|]. eauto 6.
Qed.

Lemma parent_base_split_witness :
  exists parent base, getParentPath (cstr "/usr//bin/" ++ [0]) = Some parent /\
    getBaseFilename (cstr "/usr//bin/" ++ [0]) = Some base /\
    holds_cstr parent (parent_of (cstr "/usr") 2) /\ holds_cstr base (cstr "bin").
Proof.
  apply (parent_base_split (cstr "/usr") 2 (cstr "bin") 1).
  - right. exists (cstr "/us"), 114. split; reflexivity.
  - intros _. lia.
  - split; [discriminate|]. repeat (apply Forall_cons; [reflexivity|]); apply Forall_nil.
  - repeat (apply Forall_cons; [vm_compute; split; reflexivity|]); apply Forall_nil.
  - repeat (apply Forall_cons; [vm_compute; split; reflexivity|]); apply Forall_nil.
  - split; [|exists []; reflexivity].
    repeat (apply Forall_cons; [vm_compute; split; reflexivity|]); apply Forall_nil.
Defined.

(** reducing twice is reducing once: the second call finds the path already
    in normal form. *)
Theorem inlineReducePath_idempotent buf s :
  holds_cstr buf s ->
  exists b1 b2, inlineReducePath buf = Some b1 /\ inlineReducePath b1 = Some b2 /\
    holds_cstr b1 (normal_form s) /\ holds_cstr b2 (normal_form s).
Proof.
  intros H. destruct (reduce_correct buf s H) as (b1 & H1 & _ & Hb1).
  destruct (reduce_correct b1 _ Hb1) as (b2 & H2 & _ & Hb2).
  rewrite normal_form_idem in Hb2 by apply H. eauto 6.
Qed.

Lemma inlineReducePath_idempotent_witness :
  exists b1 b2, inlineReducePath (cstr "../x/../..//y" ++ [0]) = Some b1 /\
    inlineReducePath b1 = Some b2 /\ holds_cstr b1 (normal_form (cstr "../x/../..//y")) /\
    holds_cstr b2 (normal_form (cstr "../x/../..//y")).
Proof.
  apply inlineReducePath_idempotent. split; [|exists []; reflexivity].
  repeat (apply Forall_cons; [vm_compute; split; reflexivity|]); apply Forall_nil.
Defined.

(** [getBaseFilename] of the root reads [path_copy[-1]], the byte before its
    buffer. *)
Example getBaseFilename_root : getBaseFilename (cstr "/" ++ [0]) = None.
Proof. reflexivity. Qed.

End Path.
