(* ===== verification/Allocator.v ===== *)
(** * Allocator: [kernel/src/memory/allocator.c] and [allocator.h]

    The free-list allocator under both [kalloc] and the page allocator.  The
    free blocks are a linked list kept inside the free memory itself, so the
    model works on word memory: a [FreeMemory*] is its address, with [size] in
    the word there and [next] in the word after it, and a [FreeMemory**] is the
    address of the word that holds the pointer: the allocator's [first_free]
    field or the [next] field of a block.  An [assert] of the debug build is a
    [massert]; a result [Some] therefore also says that the assertions hold. *)
From S2P Require Import Prelude Util.

Local Open Scope c_scope.
#[local] Set Warnings "-register-all".

Module Allocator.

(** ** Definitions *)

(** [sizeof(FreeMemory)] *)
Definition MINIMUM_FREE : Z := 16.

(** The fields of [struct Allocator_s] that no operation changes after
    [initAllocator], and the address of the one that does, [first_free]. *)
Inductive Allocator : Type := mkAllocator {
  block_size : Z;
  min_backing_free : Z;
  backing : option Allocator;
  first_free : Z;
  special_range_start : Z;
  special_range_end : Z;
}.

(** [&p->size] and [&p->next]. *)
Definition size_of (p : Z) : Z := p.
Definition next_of (p : Z) : Z := p + 8.

(** List walks get one step per word of memory, and one to stop. *)
Definition with_fuel {A} (k : nat -> M mem A) : M mem A := fun m => k (S (size m)) m.

(** [self] is [&alloc->first_free]. *)
Definition initAllocator (self block_size' : Z) (backing' : Allocator) : M mem Allocator :=
  massert (block_size backing' mod block_size' =? 0);;
  store self 0;;
  mret (mkAllocator block_size' 0 (Some backing') self 0 0).

Fixpoint overlap_loop (fuel : nat) (current start size : Z) : M mem unit :=
  match fuel with
  | O => fault
  | S fuel' =>
      if current =? 0 then mret tt
      else
        csize ← load (size_of current);
        massert ((start +% size <=? current) || (start >=? current +% csize));;
        next ← load (next_of current);
        overlap_loop fuel' next start size
  end.

Definition findOverlappingFreeMemory (alloc : Allocator) (start size : Z) : M mem unit :=
  current ← load (first_free alloc);
  with_fuel (fun fuel => overlap_loop fuel current start size).

(** The [while] of [insertFreeMemory]; the result is [current] and [memory]. *)
Fixpoint insert_loop (fuel : nat) (current memory : Z) : M mem (Z * Z) :=
  match fuel with
  | O => fault
  | S fuel' =>
      cur ← load current;
      if negb (cur =? 0) && (cur <? memory) then
        csize ← load (size_of cur);
        if cur +% csize =? memory then
          msize ← load (size_of memory);
          store (size_of cur) (csize +% msize);;
          next ← load (next_of cur);
          store current next;;
          insert_loop fuel' current cur
        else insert_loop fuel' (next_of cur) memory
      else mret (current, memory)
  end.

(** After the [while]: merge with the block that follows, and link. *)
Definition insert_link (current memory : Z) : M mem Z :=
  cur ← load current;
  msize ← load (size_of memory);
  (if negb (cur =? 0) && (memory +% msize =? cur) then
     next ← load (next_of cur);
     store (next_of memory) next;;
     csize ← load (size_of cur);
     store (size_of memory) (msize +% csize)
   else store (next_of memory) cur);;
  store current memory;;
  mret current.

Definition insertFreeMemory (alloc : Allocator) (memory : Z) : M mem Z :=
  msize ← load (size_of memory);
  findOverlappingFreeMemory alloc memory msize;;
  '(current, memory) ← with_fuel (fun fuel => insert_loop fuel (first_free alloc) memory);
  insert_link current memory.

(** [None] is [NULL]. *)
Fixpoint fits_loop (fuel : nat) (current size : Z) : M mem (option Z) :=
  match fuel with
  | O => fault
  | S fuel' =>
      cur ← load current;
      if cur =? 0 then mret None
      else
        csize ← load (size_of cur);
        if csize >=? size then mret (Some current)
        else fits_loop fuel' (next_of cur) size
  end.

Definition findFreeMemoryThatFits (alloc : Allocator) (size : Z) : M mem (option Z) :=
  with_fuel (fun fuel => fits_loop fuel (first_free alloc) size).

(** [allocMemory] of an allocator whose [basicAllocMemory] is [basic]. *)
Definition alloc_with (block_size : Z) (basic : Z -> M mem Z) (size : Z) : M mem Z :=
  massert (size mod block_size =? 0);;
  if size =? 0 then mret 0 else basic size.

(** [alloc_backing] is [allocMemory] of the backing allocator [b]. *)
Definition addNewMemory (alloc_backing : Z -> M mem Z) (alloc b : Allocator) (size : Z)
    : M mem (option Z) :=
  massert (size >? 0);;
  let backing_size := (size +% block_size b) -% 1 in
  let backing_size := backing_size -% (backing_size mod block_size b) in
  new_free ← alloc_backing backing_size;
  if negb (new_free =? 0) then
    store (size_of new_free) backing_size;;
    c ← insertFreeMemory alloc new_free;
    mret (Some c)
  else mret None.

(** Taking [size] bytes from the free block [*memory]. *)
Definition take_memory (alloc : Allocator) (memory size : Z) : M mem Z :=
  let min_size := (size +% MINIMUM_FREE +% block_size alloc) -% 1 in
  let min_size := min_size -% (min_size mod block_size alloc) in
  free ← load memory;
  fsize ← load (size_of free);
  if fsize >=? min_size then
    let moved := free +% size in
    store (size_of moved) (fsize -% size);;
    next ← load (next_of free);
    store (next_of moved) next;;
    store memory moved;;
    mret free
  else if fsize >=? size then
    next ← load (next_of free);
    store memory next;;
    mret free
  else mret 0.

Fixpoint basicAllocMemory (alloc : Allocator) (size : Z) : M mem Z :=
  massert (size mod block_size alloc =? 0);;
  memory ← findFreeMemoryThatFits alloc size;
  memory ← match memory with
           | Some c => mret (Some c)
           | None =>
               match backing alloc with
               | Some b =>
                   addNewMemory (alloc_with (block_size b) (basicAllocMemory b)) alloc b size
               | None => mret None
               end
           end;
  match memory with
  | Some c => take_memory alloc c size
  | None => mret 0
  end.

Definition allocMemory (alloc : Allocator) (size : Z) : M mem Z :=
  alloc_with (block_size alloc) (basicAllocMemory alloc) size.

(** The part of [tryFreeingOldMemory] under [alloc->backing != NULL];
    [dealloc_backing] is [deallocMemory] of the backing allocator [b]. *)
Definition return_memory (dealloc_backing : Z -> Z -> M mem unit) (alloc b : Allocator)
    (memory : Z) : M mem unit :=
  mem_start ← load memory;
  fsize ← load (size_of mem_start);
  let bs := block_size b in
  let mem_end := mem_start +% fsize in
  let page_start := mem_start -% (mem_start mod bs) in
  let page_end := mem_end in
  let mem_end := mem_end -% (mem_end mod bs) in
  let page_start :=
    if negb (page_start =? mem_start) then
      let p := (mem_start +% MINIMUM_FREE +% bs) -% 1 in p -% (p mod bs)
    else page_start in
  let page_end :=
    if negb (page_end =? mem_end) then
      let p := mem_end -% MINIMUM_FREE in p -% (p mod bs)
    else page_end in
  if ((mem_end <=? special_range_start alloc) || (mem_start >=? special_range_end alloc))
     && (((mem_start =? page_start) && (mem_end =? page_end))
         || (page_end >=? page_start +% min_backing_free alloc))
  then
    let ptr := page_start in
    let size := page_end -% page_start in
    (if (page_start =? mem_start) && (page_end =? mem_end) then
       next ← load (next_of mem_start);
       store memory next
     else if mem_end =? page_end then
       store (size_of mem_start) (page_start -% mem_start)
     else if mem_start =? page_start then
       next ← load (next_of mem_start);
       store (next_of page_end) next;;
       store (size_of page_end) (mem_end -% page_end);;
       store memory page_end
     else
       store (size_of mem_start) (page_start -% mem_start);;
       next ← load (next_of mem_start);
       store (next_of page_end) next;;
       store (size_of page_end) (mem_end -% page_end);;
       store (next_of mem_start) page_end);;
    dealloc_backing ptr size
  else mret tt.

Fixpoint deallocMemory (alloc : Allocator) (ptr size : Z) : M mem unit :=
  massert (size mod block_size alloc =? 0);;
  if negb (size =? 0) then
    store (size_of ptr) size;;
    c ← insertFreeMemory alloc ptr;
    match backing alloc with
    | Some b => return_memory (deallocMemory b) alloc b c
    | None => mret tt
    end
  else mret tt.

Definition tryFreeingOldMemory (alloc : Allocator) (memory : Z) : M mem unit :=
  match backing alloc with
  | Some b => return_memory (deallocMemory b) alloc b memory
  | None => mret tt
  end.

Fixpoint deinit_loop (fuel : nat) (alloc b : Allocator) : M mem unit :=
  match fuel with
  | O => fault
  | S fuel' =>
      free ← load (first_free alloc);
      if negb (free =? 0) then
        next ← load (next_of free);
        store (first_free alloc) next;;
        fsize ← load (size_of free);
        deallocMemory b free fsize;;
        deinit_loop fuel' alloc b
      else mret tt
  end.

Definition deinitAllocator (alloc : Allocator) : M mem unit :=
  match backing alloc with
  | Some b => with_fuel (fun fuel => deinit_loop fuel alloc b)
  | None => fault
  end.

(** [memmove] of [n] bytes between word-aligned addresses. *)
Definition move_words (dest src n : Z) : M mem unit := fun m =>
  Some (tt, foldr (fun i m' => match m !! (src + 8 * i) with
                               | Some v => <[dest + 8 * i := v]> m'
                               | None => delete (dest + 8 * i) m'
                               end) m (seqZ 0 (n / 8))).

(** The first loop of [reallocMemory]: [current], [free_mem] and [free_size]. *)
Fixpoint realloc_loop (fuel : nat) (current old_ptr free_mem free_size : Z)
    : M mem (Z * Z * Z) :=
  match fuel with
  | O => fault
  | S fuel' =>
      cur ← load current;
      if negb (cur =? 0) && (cur <? free_mem) then
        csize ← load (size_of cur);
        if cur +% csize =? old_ptr then
          next ← load (next_of cur);
          store current next;;
          realloc_loop fuel' current old_ptr cur (free_size +% csize)
        else realloc_loop fuel' (next_of cur) old_ptr free_mem free_size
      else mret (current, free_mem, free_size)
  end.

Definition reallocMemory (alloc : Allocator) (old_ptr old_size new_size : Z) : M mem Z :=
  massert ((old_size mod block_size alloc =? 0) && (new_size mod block_size alloc =? 0));;
  if old_size =? 0 then allocMemory alloc new_size
  else if new_size =? 0 then deallocMemory alloc old_ptr old_size;; mret 0
  else
    let copy_size := Util.umin new_size old_size in
    findOverlappingFreeMemory alloc old_ptr old_size;;
    '(current, free_mem, free_size) ←
      with_fuel (fun fuel => realloc_loop fuel (first_free alloc) old_ptr old_ptr old_size);
    cur ← load current;
    free_size ← (if negb (cur =? 0) && (free_mem +% free_size =? cur) then
                   csize ← load (size_of cur);
                   next ← load (next_of cur);
                   store current next;;
                   mret (free_size +% csize)
                 else mret free_size);
    if free_size >=? new_size then
      (if negb (free_mem =? old_ptr) then move_words free_mem old_ptr copy_size else mret tt);;
      let min_size := (new_size +% MINIMUM_FREE +% block_size alloc) -% 1 in
      let min_size := min_size -% (min_size mod block_size alloc) in
      (if free_size >=? min_size then
         let still_free := free_mem +% new_size in
         cur ← load current;
         store (next_of still_free) cur;;
         store (size_of still_free) (free_size -% new_size);;
         store current still_free;;
         tryFreeingOldMemory alloc current
       else mret tt);;
      mret free_mem
    else
      new_ptr ← basicAllocMemory alloc new_size;
      move_words new_ptr old_ptr copy_size;;
      cur ← load current;
      store (next_of free_mem) cur;;
      store (size_of free_mem) free_size;;
      store current free_mem;;
      tryFreeingOldMemory alloc current;;
      mret new_ptr.

(** ** The abstract free list

    A free list is a list of blocks (address, size).  The operations below are
    what the pointer code computes on it. *)

Abbreviation block := (Z * Z)%type.

(** The list stored from the cell [c] on. *)
Fixpoint flist (m : mem) (c : Z) (l : list block) : Prop :=
  match l with
  | [] => m !! c = Some 0
  | (a, s) :: l' => m !! c = Some a /\ m !! a = Some s /\ flist m (next_of a) l'
  end.

(** Ascending, aligned, not adjacent, large enough for a list node, below
    [2^64]; [lo] is the end of the block before. *)
Fixpoint wf (bs lo : Z) (l : list block) : Prop :=
  match l with
  | [] => True
  | (a, s) :: l' =>
      lo < a /\ MINIMUM_FREE <= s /\ a mod bs = 0 /\ s mod bs = 0 /\ a + s < 2 ^ 64 /\
      wf bs (a + s) l'
  end.

Definition in_block (x : Z) (b : block) : Prop := fst b <= x < fst b + snd b.

(** The bytes a free list covers. *)
Definition covers (l : list block) (x : Z) : Prop := Exists (in_block x) l.

Definition disjoint_from (a s : Z) (l : list block) : Prop :=
  Forall (fun b => a + s <= fst b \/ fst b + snd b <= a) l.

(** Sorted insertion with merging on both sides. *)
Fixpoint ins (a s : Z) (l : list block) : list block :=
  match l with
  | [] => [(a, s)]
  | (b, t) :: l' =>
      if b <? a then
        if b + t =? a then ins b (t + s) l' else (b, t) :: ins a s l'
      else if a + s =? b then (a, s + t) :: l' else (a, s) :: (b, t) :: l'
  end.

(** The cell that holds the inserted block afterwards. *)
Fixpoint ins_cell (c a s : Z) (l : list block) : Z :=
  match l with
  | [] => c
  | (b, t) :: l' =>
      if b <? a then
        if b + t =? a then ins_cell c b (t + s) l' else ins_cell (next_of b) a s l'
      else c
  end.

(** First fit, splitting the block when the rest can hold a list node. *)
Fixpoint first_fit (bs size : Z) (l : list block) : option (Z * list block) :=
  match l with
  | [] => None
  | (a, t) :: l' =>
      if t >=? size then
        Some (a, if t >=? align_up bs (size + MINIMUM_FREE)
                 then (a + size, t - size) :: l' else l')
      else '(p, l'') ← first_fit bs size l'; Some (p, (a, t) :: l'')
  end.

(** [m'] agrees with [m] away from the cell [c] and the given blocks. *)
Definition framed (c : Z) (l : list block) (m m' : mem) : Prop :=
  forall x, x <> c -> ~ covers l x -> m' !! x = m !! x.

(** ** Lemmas on the abstract list *)

Lemma covers_nil x : ~ covers [] x.
Proof. intros H%Exists_nil. done. Qed.

Lemma covers_cons a s l x : covers ((a, s) :: l) x <-> a <= x < a + s \/ covers l x.
Proof. unfold covers. rewrite Exists_cons. done. Qed.

Lemma wf_weaken bs lo lo' l : lo' <= lo -> wf bs lo l -> wf bs lo' l.
Proof. destruct l as [|[a s] l]; cbn; [done|]. intros ? (? & ?). split; [lia|done]. Qed.

Lemma wf_covers bs lo l x : wf bs lo l -> covers l x -> lo < x < 2 ^ 64.
Proof.
  revert lo. induction l as [|[a s] l IH]; intros lo Hwf Hx; [by apply covers_nil in Hx|].
  destruct Hwf as (? & ? & _ & _ & ? & Hwf). unfold MINIMUM_FREE in *.
  apply covers_cons in Hx as [Hx|Hx]; [lia|]. apply (IH (a + s)) in Hx; [lia|done].
Qed.

Lemma disjoint_covers a s l x : disjoint_from a s l -> a <= x < a + s -> ~ covers l x.
Proof.
  intros Hd Hx Hc. unfold covers, disjoint_from in *.
  rewrite Exists_exists in Hc. destruct Hc as ([b t] & Hin & Hb).
  rewrite Forall_forall in Hd. specialize (Hd _ Hin). unfold in_block in Hb. cbn in *. lia.
Qed.

Lemma framed_trans c l m1 m2 m3 : framed c l m1 m2 -> framed c l m2 m3 -> framed c l m1 m3.
Proof. intros H1 H2 x Hc Hx. rewrite H2, H1; done. Qed.

Lemma framed_store c l m m' x v :
  framed c l m m' -> x = c \/ covers l x -> framed c l m (<[x := v]> m').
Proof.
  intros H Hx y Hy Hc. rewrite lookup_insert_ne; [by apply H|].
  intros ->. destruct Hx; done.
Qed.

Lemma framed_refl c l m : framed c l m m.
Proof. done. Qed.

Lemma wf_size bs lo l a s : wf bs lo l -> (a, s) ∈ l -> MINIMUM_FREE <= s.
Proof.
  revert lo. induction l as [|[b t] l IH]; intros lo Hwf Hin; [by apply not_elem_of_nil in Hin|].
  destruct Hwf as (_ & Ht & _ & _ & _ & Hwf). apply elem_of_cons in Hin as [[= -> ->]|Hin]; eauto.
Qed.

(** A list only depends on its head cell and the bytes it covers, and can be
    moved to another cell. *)
Lemma flist_move bs lo m m' c c' l :
  wf bs lo l -> m' !! c' = m !! c -> (forall x, covers l x -> m' !! x = m !! x) ->
  flist m c l -> flist m' c' l.
Proof.
  revert lo c c'. induction l as [|[a s] l IH]; intros lo c c' Hwf Hc Hx; cbn [flist];
    [by rewrite Hc|].
  destruct Hwf as (_ & Hs & _ & _ & _ & Hwf). unfold MINIMUM_FREE in Hs. intros (H1 & H2 & H3).
  assert (Hxa : forall x, a <= x < a + s -> m' !! x = m !! x)
    by (intros; apply Hx, covers_cons; lia).
  split; [by rewrite Hc|]. split; [by rewrite Hxa by lia|].
  apply (IH (a + s) (next_of a)); [done|apply Hxa; unfold next_of; lia| |done].
  intros x ?. apply Hx, covers_cons. auto.
Qed.

(** Every list fits in the memory that holds it. *)
Lemma flist_length bs lo m c l :
  wf bs lo l -> flist m c l -> (length l <= size m)%nat.
Proof.
  intros Hwf Hl.
  assert (Hsub : forall lo c l, wf bs lo l -> flist m c l ->
    NoDup l.*1 /\ Forall (fun a => lo < a) l.*1 /\ list_to_set l.*1 ⊆ dom m).
  { clear. intros lo c l. revert lo c. induction l as [|[a s] l IH]; intros lo c Hwf Hl; cbn.
    - repeat split; try constructor. set_solver.
    - destruct Hwf as (Hlo & Hs & _ & _ & _ & Hwf), Hl as (_ & Ha & Hl).
      destruct (IH (a + s) (next_of a)) as (Hnd & Hgt & Hd); [done|done|].
      unfold MINIMUM_FREE in *. repeat split.
      + constructor; [|done]. intros Hin. rewrite Forall_forall in Hgt.
        apply list_elem_of_In in Hin. specialize (Hgt a Hin). lia.
      + constructor; [done|]. eapply Forall_impl; [|exact Hgt]. cbn. lia.
      + apply union_subseteq. split; [|done]. apply singleton_subseteq_l, elem_of_dom. eauto. }
  destruct (Hsub lo c l Hwf Hl) as (Hnd & _ & Hd).
  rewrite <- (length_fmap fst l), <- (size_list_to_set (C := gset Z)) by done.
  rewrite <- size_dom. by apply subseteq_size.
Qed.

Lemma wf_Forall bs lo l : wf bs lo l -> Forall (fun b => lo < fst b /\ 0 < snd b) l.
Proof.
  revert lo. induction l as [|[a s] l IH]; intros lo Hwf; [constructor|].
  destruct Hwf as (? & Hs & _ & _ & _ & Hwf). unfold MINIMUM_FREE in Hs. constructor; [cbn; lia|].
  eapply Forall_impl; [|apply (IH _ Hwf)]. cbn. lia.
Qed.

Lemma disjoint_from_cons a s b t l :
  disjoint_from a s ((b, t) :: l) <-> (a + s <= b \/ b + t <= a) /\ disjoint_from a s l.
Proof. unfold disjoint_from. rewrite Forall_cons_iff. done. Qed.

(** Merging with the block in front keeps the block clear of the rest. *)
Lemma disjoint_merge bs a s b t l :
  wf bs (b + t) l -> b + t = a -> 0 < t -> 0 < s -> disjoint_from a s l ->
  disjoint_from b (t + s) l.
Proof.
  intros Hwf%wf_Forall <- Ht Hs Hd. unfold disjoint_from in *.
  rewrite Forall_forall in *. intros [b' t'] Hin. specialize (Hwf _ Hin). specialize (Hd _ Hin).
  cbn in *. lia.
Qed.

Lemma ins_wf bs lo a s l :
  wf bs lo l -> lo < a -> MINIMUM_FREE <= s -> a mod bs = 0 -> s mod bs = 0 ->
  a + s < 2 ^ 64 -> disjoint_from a s l -> wf bs lo (ins a s l).
Proof.
  revert lo a s. induction l as [|[b t] l IH]; intros lo a s Hwf Hlo Hs Ha Hsm Hlt Hd.
  { cbn. tauto. }
  destruct Hwf as (Hb & Ht & Hbm & Htm & Hblt & Hwf). apply disjoint_from_cons in Hd as [Hd Hdl].
  unfold MINIMUM_FREE in *. cbn [ins].
  destruct (Z.ltb_spec b a); [destruct (Z.eqb_spec (b + t) a)|destruct (Z.eqb_spec (a + s) b)].
  - apply IH; try done; [eapply wf_weaken; [|exact Hwf]; lia|lia|by apply mod_add_multiple|lia|].
    eapply disjoint_merge; eauto; lia.
  - cbn [wf]. unfold MINIMUM_FREE. repeat split; try done. apply IH; try done. lia.
  - cbn [wf]. unfold MINIMUM_FREE. subst b. repeat split; try done; try lia.
    + by apply mod_add_multiple.
    + by rewrite Z.add_assoc.
  - cbn [wf]. unfold MINIMUM_FREE. repeat split; try done; lia.
Qed.

Lemma ins_covers a s l x :
  0 < s -> Forall (fun b => 0 < snd b) l ->
  covers (ins a s l) x <-> a <= x < a + s \/ covers l x.
Proof.
  revert a s. induction l as [|[b t] l IH]; intros a s Hs Hl; cbn [ins].
  { rewrite covers_cons. done. }
  apply Forall_cons_iff in Hl as [Ht Hl]. cbn in Ht.
  destruct (Z.ltb_spec b a); [destruct (Z.eqb_spec (b + t) a)|destruct (Z.eqb_spec (a + s) b)];
    rewrite ?IH, ?covers_cons, ?IH by (done || lia); subst;
    destruct (decide (covers l x)); intuition lia.
Qed.

(** ** Refinement: the pointer code computes the abstract operations *)

Lemma overlap_loop_spec bs lo fuel m c a s l :
  0 <= lo -> wf bs lo l -> flist m c l -> disjoint_from a s l -> 0 < a -> 0 < s -> a + s < 2 ^ 64 ->
  (length l < fuel)%nat ->
  (current ← load c; overlap_loop fuel current a s) m = Some (tt, m).
Proof.
  intros Hlo Hwf Hfl Hd Ha Hs Hlt. revert fuel lo c Hlo Hwf Hfl Hd.
  induction l as [|[b t] l IH]; intros [|fuel] lo c Hlo Hwf Hfl Hd Hf; cbn [length] in Hf; try lia.
  - cbn [flist] in Hfl. by erewrite bind_load by eassumption.
  - destruct Hfl as (Hc & Hb & Hfl), Hwf as (Hbl & Ht & _ & _ & Hblt & Hwf).
    apply disjoint_from_cons in Hd as [Hd Hdl]. unfold MINIMUM_FREE in Ht.
    erewrite bind_load by eassumption. cbn [overlap_loop].
    rewrite (proj2 (Z.eqb_neq b 0)) by lia. erewrite bind_load by eassumption.
    rewrite bind_assert by (unwrap; lia). eapply (IH fuel (b + t)); try done; lia.
Qed.

Definition insert_from (fuel : nat) (c a : Z) : M mem Z :=
  '(current, memory) ← insert_loop fuel c a; insert_link current memory.

(** Looks a word up through the stores before it. *)
Ltac mem_look :=
  first [ eassumption
        | rewrite lookup_insert_ne by (unfold size_of, next_of in *; lia); mem_look
        | rewrite lookup_insert_eq; reflexivity ].

Lemma insert_from_stop fuel m c a cur :
  m !! c = Some cur -> cur = 0 \/ a <= cur -> insert_from (S fuel) c a m = insert_link c a m.
Proof.
  intros Hc Hcur. unfold insert_from. cbn [insert_loop]. run_with eassumption.
  replace (negb (cur =? 0) && (cur <? a)) with false by (destruct Hcur; lia). done.
Qed.

Lemma insert_from_skip fuel m c a b t :
  m !! c = Some b -> m !! b = Some t -> 0 < b < a -> b + t < 2 ^ 64 -> 0 <= t -> b + t <> a ->
  insert_from (S fuel) c a m = insert_from fuel (next_of b) a m.
Proof.
  intros Hc Hb Hba Hlt Ht Hne. unfold insert_from. cbn [insert_loop]. run_with eassumption.
  replace (negb (b =? 0) && (b <? a)) with true by lia. run_with eassumption. unwrap.
  by rewrite (proj2 (Z.eqb_neq _ _)) by done.
Qed.

Lemma insert_from_merge fuel m c a b t s n :
  m !! c = Some b -> m !! b = Some t -> m !! a = Some s -> m !! next_of b = Some n ->
  0 < b < a -> b + t = a -> 0 <= t -> 0 <= s -> a + s < 2 ^ 64 ->
  insert_from (S fuel) c a m = insert_from fuel c b (<[c := n]> (<[b := t + s]> m)).
Proof.
  intros Hc Hb Ha Hn Hba <- Ht Hs Hlt. unfold insert_from. cbn [insert_loop].
  run_with eassumption. replace (negb (b =? 0) && (b <? b + t)) with true by lia.
  run_with eassumption. unwrap. rewrite Z.eqb_refl. unwrap.
  run_with mem_look.
  unwrap. done.
Qed.

(** Linking in front of the block at [c], or of none. *)
Lemma insert_link_spec bs lo m c a s l :
  0 <= lo -> wf bs lo l -> flist m c l -> disjoint_from a s l -> m !! a = Some s ->
  MINIMUM_FREE <= s -> 0 < a -> a + s < 2 ^ 64 -> ~ covers ((a, s) :: l) c ->
  Forall (fun b => a <= fst b) l ->
  exists m', insert_link c a m = Some (c, m') /\
    flist m' c (ins a s l) /\ framed c ((a, s) :: l) m m'.
Proof.
  intros Hlo Hwf Hfl Hd Hma Hs Ha Hlt Hc Hge. unfold MINIMUM_FREE in Hs.
  assert (Hca : ~ (a <= c < a + s)) by (rewrite covers_cons in Hc; tauto).
  assert (Hna : forall x, a <= x < a + s -> ~ covers l x) by (intros; by eapply disjoint_covers).
  assert (Hcl : ~ covers l c) by (rewrite covers_cons in Hc; tauto).
  unfold insert_link. destruct l as [|[b t] l].
  - cbn [flist] in Hfl. run_with eassumption. cbn [Z.eqb negb andb]. run_with fail.
    eexists. split; [done|]. split.
    + cbn [ins flist]. unfold next_of. rewrite lookup_insert_eq, !lookup_insert_ne by lia.
      rewrite lookup_insert_eq. done.
    + apply framed_store; [apply framed_store; [apply framed_refl|]|by left].
      right. apply covers_cons. unfold next_of. lia.
  - destruct Hfl as (Hmc & Hmb & Hfl), Hwf as (Hb & Ht & _ & _ & Hbt & Hwf).
    apply disjoint_from_cons in Hd as [Hd Hdl]. apply Forall_cons_iff in Hge as [Hge _].
    cbn [fst] in Hge. unfold MINIMUM_FREE in Ht.
    assert (Hnb : forall x, b <= x < b + t -> x <> c /\ ~ covers l x /\ ~ (a <= x < a + s)).
    { intros x Hx. repeat split; [|intros Hx'; apply (wf_covers _ _ _ x Hwf) in Hx'; lia|lia].
      intros ->. apply Hcl, covers_cons. auto. }
    run_with eassumption. rewrite (proj2 (Z.eqb_neq b 0)) by lia. unwrap. cbn [negb andb ins].
    rewrite (proj2 (Z.ltb_ge b a)) by lia. destruct (Z.eqb_spec (a + s) b) as [Heq|Hne].
    + assert (exists n, m !! next_of b = Some n) as [n Hn].
      { destruct l as [|[b' t'] l]; [by exists 0|]. destruct Hfl as (? & _). eauto. }
      run_with mem_look.
      unwrap. eexists. split; [done|]. unfold size_of, next_of in *. split.
      * cbn [flist]. rewrite lookup_insert_eq. split; [done|]. 
        rewrite lookup_insert_ne, lookup_insert_eq by lia. split; [done|].
        apply (flist_move bs (b + t) m _ (b + 8)); [done| |intros x Hx|done].
        -- unfold next_of. rewrite !lookup_insert_ne, lookup_insert_eq by lia. done.
        -- assert (~ (a <= x < a + s) /\ x <> c) as [? ?].
           { split; [|intros ->; apply Hcl, covers_cons; auto].
             intros ?. eapply Hna; [|apply covers_cons; right]; eauto. }
           rewrite !lookup_insert_ne by lia. done.
      * repeat apply framed_store; try apply framed_refl; rewrite ?covers_cons; lia.
    + run_with fail. eexists. split; [done|]. unfold size_of, next_of in *. split.
      * cbn [flist]. rewrite lookup_insert_eq. split; [done|].
        unfold next_of. rewrite !lookup_insert_ne by lia. split; [done|].
        rewrite lookup_insert_eq. split; [done|].
        destruct (Hnb b) as (? & _); [lia|]. split; [by rewrite !lookup_insert_ne by lia|].
        apply (flist_move bs (b + t) m _ (b + 8)); [done| |intros x Hx|done].
        -- destruct (Hnb (b + 8)) as (? & _); [lia|]. by rewrite !lookup_insert_ne by lia.
        -- assert (~ (a <= x < a + s) /\ x <> c) as [? ?].
           { split; [|intros ->; apply Hcl, covers_cons; auto].
             intros ?. eapply Hna; [|apply covers_cons; right]; eauto. }
           rewrite !lookup_insert_ne by lia. done.
      * repeat apply framed_store; try apply framed_refl; rewrite ?covers_cons; lia.
Qed.

Lemma ins_cell_front c a s l : Forall (fun b => a <= fst b) l -> ins_cell c a s l = c.
Proof.
  destruct l as [|[b t] l]; [done|]. intros [Hb _]%Forall_cons_iff. cbn in *.
  by rewrite (proj2 (Z.ltb_ge b a)).
Qed.

Lemma flist_head m c l : flist m c l -> exists n, m !! c = Some n.
Proof. destruct l as [|[a s] l]; cbn; [eauto|]. intros [? _]; eauto. Qed.

Lemma framed_impl c l c' l' m m' :
  framed c l m m' -> c = c' \/ covers l' c -> (forall x, covers l x -> covers l' x) -> framed c' l' m m'.
Proof.
  intros H Hc Hl x Hx Hx'. apply H; [intros ->; destruct Hc; congruence|auto].
Qed.

Lemma insert_from_spec bs lo fuel m c a s l :
  0 <= lo -> wf bs lo l -> flist m c l -> disjoint_from a s l -> m !! a = Some s ->
  MINIMUM_FREE <= s -> 0 < a -> a + s < 2 ^ 64 -> ~ covers ((a, s) :: l) c -> (length l < fuel)%nat ->
  exists m', insert_from fuel c a m = Some (ins_cell c a s l, m') /\
    flist m' c (ins a s l) /\ framed c ((a, s) :: l) m m'.
Proof.
  revert fuel lo m c a s. induction l as [|[b t] l IH];
    intros [|fuel] lo m c a s Hlo Hwf Hfl Hd Hma Hs Ha Hlt Hc Hf; cbn [length] in Hf; try lia.
  { erewrite insert_from_stop by (done || by left). eapply (insert_link_spec bs lo); eauto. }
  destruct (Z.lt_ge_cases b a) as [Hba|Hba].
  2: { erewrite insert_from_stop; [|exact (proj1 Hfl)|by right].
       assert (Hge : Forall (fun b => a <= fst b) ((b, t) :: l)).
       { destruct Hwf as (? & Ht & _ & _ & _ & Hwf). unfold MINIMUM_FREE in Ht.
         constructor; [done|]. eapply Forall_impl; [|apply (wf_Forall _ _ _ Hwf)]. cbn. lia. }
       rewrite ins_cell_front by done. eapply (insert_link_spec bs lo); eauto. }
  destruct Hfl as (Hmc & Hmb & Hfl). pose proof Hwf as (Hb & Ht & _ & _ & Hbt & Hwf').
  apply disjoint_from_cons in Hd as [Hd Hdl]. unfold MINIMUM_FREE in *.
  assert (Hcb : ~ (a <= c < a + s) /\ ~ (b <= c < b + t) /\ ~ covers l c)
    by (rewrite !covers_cons in Hc; tauto).
  assert (Hl : forall x, covers l x -> b + t < x) by (intros x Hx; apply (wf_covers _ _ _ _ Hwf' Hx)).
  cbn [ins ins_cell]. rewrite (proj2 (Z.ltb_lt b a)) by done.
  destruct (Z.eqb_spec (b + t) a) as [Heq|Hne].
  - destruct (flist_head _ _ _ Hfl) as [n Hn].
    rewrite (insert_from_merge fuel m c a b t s n) by (done || lia).
    edestruct (IH fuel (b + t) (<[c:=n]> (<[b:=t + s]> m)) c b (t + s)) as (m' & Hr & Hfl' & Hfr);
      [lia|done| |by eapply disjoint_merge; eauto; lia| |lia|lia|lia| |lia|].
    + apply (flist_move bs (b + t) m _ (next_of b)); [done| |intros x Hx|done].
      * by rewrite lookup_insert_eq.
      * specialize (Hl x Hx). rewrite !lookup_insert_ne; [done|lia|]. intros ->. tauto.
    + rewrite lookup_insert_ne by lia. by rewrite lookup_insert_eq.
    + rewrite covers_cons. lia || (intros [?|?]; [lia|tauto]).
    + exists m'. split; [done|]. split; [done|]. eapply framed_trans.
      2: { eapply framed_impl; [exact Hfr|by left|]. intros x. rewrite !covers_cons. lia || intuition lia. }
      apply framed_store; [apply framed_store; [apply framed_refl|]|by left].
      right. rewrite !covers_cons. lia.
  - rewrite (insert_from_skip fuel m c a b t) by (done || lia).
    assert (Hnc : forall x, b <= x < b + t -> ~ covers ((a, s) :: l) x).
    { intros x Hx. rewrite covers_cons. intros [?|Hx']; [lia|]. specialize (Hl x Hx'). lia. }
    edestruct (IH fuel (b + t) m (next_of b) a s) as (m' & Hr & Hfl' & Hfr);
      [lia|done|done|done|done|done|done|done|apply Hnc; unfold next_of; lia|lia|].
    exists m'. split; [done|]. split.
    + destruct Hcb as (Hca & Hcb & Hcl). unfold next_of in *.
      assert (m' !! c = m !! c) as Hc' by (apply Hfr; [lia|rewrite covers_cons; tauto]).
      assert (m' !! b = m !! b) as Hb' by (apply Hfr; [lia|apply Hnc; lia]).
      cbn [flist]. by rewrite Hc', Hb'.
    + eapply framed_impl; [exact Hfr| |].
      * right. rewrite !covers_cons. unfold next_of. lia.
      * intros x. rewrite !covers_cons. tauto.
Qed.

Lemma findOverlapping_spec bs alloc m a s l :
  wf bs 0 l -> flist m (first_free alloc) l -> disjoint_from a s l ->
  0 < a -> 0 < s -> a + s < 2 ^ 64 ->
  findOverlappingFreeMemory alloc a s m = Some (tt, m).
Proof.
  intros Hwf Hfl Hd Ha Hs Hlt. pose proof (flist_length _ _ _ _ _ Hwf Hfl).
  destruct (flist_head _ _ _ Hfl) as [n Hn].
  assert (Ho : (current ← load (first_free alloc); overlap_loop (S (size m)) current a s) m
               = Some (tt, m)) by (eapply (overlap_loop_spec bs 0); done || lia).
  unfold findOverlappingFreeMemory. rewrite (bind_load _ _ _ _ Hn) in Ho.
  rewrite (bind_load _ _ _ _ Hn). exact Ho.
Qed.

(** The whole of [insertFreeMemory]. *)
Lemma insertFreeMemory_spec bs alloc m a s l :
  wf bs 0 l -> flist m (first_free alloc) l -> disjoint_from a s l -> m !! a = Some s ->
  MINIMUM_FREE <= s -> 0 < a -> a + s < 2 ^ 64 -> ~ covers ((a, s) :: l) (first_free alloc) ->
  exists m', insertFreeMemory alloc a m = Some (ins_cell (first_free alloc) a s l, m') /\
    flist m' (first_free alloc) (ins a s l) /\ framed (first_free alloc) ((a, s) :: l) m m'.
Proof.
  intros Hwf Hfl Hd Hma Hs Ha Hlt Hc. pose proof (flist_length _ _ _ _ _ Hwf Hfl) as Hlen.
  unfold insertFreeMemory, size_of. rewrite (bind_load _ _ _ _ Hma).
  rewrite (bind_some _ _ _ _ _ (findOverlapping_spec bs alloc m a s l Hwf Hfl Hd Ha ltac:(unfold MINIMUM_FREE in *; lia) Hlt)).
  destruct (insert_from_spec bs 0 (S (size m)) m (first_free alloc) a s l) as (m' & Hr & ? & ?);
    [lia|done|done|done|done|done|done|done|done|lia|].
  exists m'. split; [exact Hr|done].
Qed.

(** *** Allocation *)

Definition alloc_from (alloc : Allocator) (fuel : nat) (c size : Z) : M mem Z :=
  memory ← fits_loop fuel c size;
  match memory with
  | Some c => take_memory alloc c size
  | None => mret 0
  end.

Lemma min_size_spec bs size :
  0 < bs -> 0 <= size -> size + MINIMUM_FREE + bs < 2 ^ 64 ->
  ((size +% MINIMUM_FREE +% bs) -% 1) -% (((size +% MINIMUM_FREE +% bs) -% 1) mod bs)
  = align_up bs (size + MINIMUM_FREE).
Proof.
  unfold MINIMUM_FREE. intros Hbs Hs Hlt. unwrap.
  pose proof (Z.mod_pos_bound (size + 16 + bs - 1) bs Hbs).
  pose proof (Z.mod_le (size + 16 + bs - 1) bs). unwrap. done.
Qed.

Section alloc.
Context (alloc : Allocator) (bs size : Z).
Context (Hbs : 0 < bs) (Hbsa : block_size alloc = bs)
  (Hsize : MINIMUM_FREE <= size) (Hsmod : size mod bs = 0)
  (Hover : size + MINIMUM_FREE + bs < 2 ^ 64).

Lemma take_memory_spec lo m c a t l :
  0 <= lo -> wf bs lo ((a, t) :: l) -> flist m c ((a, t) :: l) -> size <= t ->
  ~ covers ((a, t) :: l) c ->
  exists l' m', first_fit bs size ((a, t) :: l) = Some (a, l') /\
    take_memory alloc c size m = Some (a, m') /\ flist m' c l' /\
    framed c ((a, t) :: l) m m'.
Proof.
  intros Hlo Hwf Hfl Hst Hc. pose proof Hwf as (Ha & Ht & _ & _ & Hat & Hwf').
  destruct Hfl as (Hmc & Hma & Hfl). destruct (flist_head _ _ _ Hfl) as [n Hn].
  rewrite covers_cons in Hc. unfold MINIMUM_FREE in *.
  assert (Hcl : forall x, covers l x -> a + t < x /\ x <> c).
  { intros x Hx. split; [by apply (wf_covers _ _ _ _ Hwf')|]. intros ->. tauto. }
  pose proof (align_up_spec bs (size + 16) Hbs) as Hup.
  unfold take_memory. rewrite Hbsa, min_size_spec by (unfold MINIMUM_FREE; lia).
  cbn [first_fit]. rewrite Z.geb_leb, (proj2 (Z.leb_le size t)) by done.
  run_with eassumption. unfold MINIMUM_FREE in *. rewrite !Z.geb_leb.
  destruct (Z.leb_spec (align_up bs (size + 16)) t).
  - unwrap. eexists ((a + size, t - size) :: l), _. split; [done|].
    assert (Hcn : c <> a + size /\ c <> a + size + 8) by lia. unfold size_of, next_of in *.
    run_with mem_look. split; [done|]. split.
    + cbn [flist]. unfold next_of. rewrite lookup_insert_eq. split; [done|].
      rewrite !lookup_insert_ne, lookup_insert_eq by lia. split; [done|].
      apply (flist_move bs (a + t) m _ (a + 8)); [done| |intros x Hx|done].
      * by rewrite lookup_insert_ne, lookup_insert_eq by lia.
      * destruct (Hcl x Hx). by rewrite !lookup_insert_ne by lia.
    + repeat apply framed_store; try apply framed_refl; rewrite ?covers_cons; lia.
  - rewrite (proj2 (Z.leb_le size t)) by done. eexists l, _. split; [done|].
    run_with mem_look. split; [done|]. split.
    + apply (flist_move bs (a + t) m _ (next_of a)); [done|by rewrite lookup_insert_eq| |done].
      intros x Hx. destruct (Hcl x Hx). by rewrite lookup_insert_ne by lia.
    + apply framed_store; [apply framed_refl|by left].
Qed.

Lemma alloc_from_spec lo fuel m c l :
  0 <= lo -> wf bs lo l -> flist m c l -> ~ covers l c -> (length l < fuel)%nat ->
  match first_fit bs size l with
  | Some (p, l') => exists m', alloc_from alloc fuel c size m = Some (p, m') /\
      flist m' c l' /\ framed c l m m'
  | None => alloc_from alloc fuel c size m = Some (0, m)
  end.
Proof.
  revert fuel lo c. induction l as [|[a t] l IH]; intros [|fuel] lo c Hlo Hwf Hfl Hc Hf;
    cbn [length] in Hf; try lia.
  { cbn [flist] in Hfl. unfold alloc_from. cbn [fits_loop first_fit]. by run_with eassumption. }
  destruct (Z.le_gt_cases size t) as [Hst|Hst].
  - destruct (take_memory_spec lo m c a t l) as (l' & m' & -> & Hr & ? & ?); try done.
    exists m'. split; [|done]. rewrite <- Hr. unfold alloc_from. cbn [fits_loop].
    destruct Hfl as (Hmc & Hma & _), Hwf as (? & _). run_with eassumption.
    rewrite (proj2 (Z.eqb_neq a 0)) by lia. run_with eassumption.
    rewrite Z.geb_leb, (proj2 (Z.leb_le size t)) by done. done.
  - destruct Hfl as (Hmc & Hma & Hfl), Hwf as (Ha & Ht & _ & _ & Hat & Hwf).
    rewrite covers_cons in Hc. unfold MINIMUM_FREE in *.
    assert (Hstep : alloc_from alloc (S fuel) c size m = alloc_from alloc fuel (next_of a) size m).
    { unfold alloc_from. cbn [fits_loop]. run_with eassumption.
      rewrite (proj2 (Z.eqb_neq a 0)) by lia. run_with eassumption.
      by rewrite Z.geb_leb, (proj2 (Z.leb_gt size t)) by done. }
    assert (Hal : forall x, a <= x < a + t -> ~ covers l x).
    { intros x Hx Hx'%(wf_covers _ _ _ _ Hwf). lia. }
    cbn [first_fit]. rewrite Z.geb_leb, (proj2 (Z.leb_gt size t)) by done. rewrite Hstep.
    specialize (IH fuel (a + t) (next_of a)). unfold next_of in *.
    destruct (first_fit bs size l) as [[p l']|]; cbn.
    + destruct IH as (m' & Hr & Hfl' & Hfr); [lia|done|done|apply Hal; lia|lia|].
      exists m'. split; [done|]. split.
      * cbn [flist]. rewrite !Hfr; [done|lia|apply Hal; lia|lia|tauto].
      * eapply framed_impl; [exact Hfr| |]; [right|intros x]; rewrite covers_cons; [lia|tauto].
    + apply IH; [lia|done|done|apply Hal; lia|lia].
Qed.

Lemma align_up_shift : align_up bs (size + MINIMUM_FREE) = size + align_up bs MINIMUM_FREE.
Proof.
  unfold align_up, align_down. replace (size + MINIMUM_FREE + bs - 1) with (size + (MINIMUM_FREE + bs - 1)) by lia.
  rewrite Zplus_mod, Hsmod, Z.add_0_l, Zmod_mod. lia.
Qed.

(** What first fit does to the free bytes: the block it returns was free, is
    not in the list any more, and of the rest only a tail [w] too small for
    a list node is lost. *)
Lemma first_fit_spec lo l p l' :
  0 <= lo -> wf bs lo l -> first_fit bs size l = Some (p, l') ->
  wf bs lo l' /\ lo < p /\ p mod bs = 0 /\ p + size < 2 ^ 64 /\
  disjoint_from p size l' /\
  exists w, 0 <= w < align_up bs MINIMUM_FREE /\ w mod bs = 0 /\
    forall x, covers l x <-> p <= x < p + size + w \/ covers l' x.
Proof.
  revert lo l'. induction l as [|[a t] l IH]; intros lo l' Hlo Hwf; [done|].
  destruct Hwf as (Ha & Ht & Ham & Htm & Hat & Hwf). cbn [first_fit]. rewrite align_up_shift.
  pose proof (align_up_spec bs MINIMUM_FREE Hbs). unfold MINIMUM_FREE in *. rewrite !Z.geb_leb.
  assert (Hsub : (t - size) mod bs = 0) by (by rewrite Zminus_mod, Htm, Hsmod).
  pose proof (wf_Forall _ _ _ Hwf) as HF.
  destruct (Z.leb_spec size t); [destruct (Z.leb_spec (size + align_up bs 16) t)|];
    [intros [= <- <-]|intros [= <- <-]|].
  - split; [cbn [wf]; unfold MINIMUM_FREE; repeat split; try done; try lia|].
    { by apply mod_add_multiple. }
    { by replace (a + size + (t - size)) with (a + t) by lia. }
    repeat split; try done; try lia.
    { apply disjoint_from_cons. split; [lia|].
      eapply Forall_impl; [|exact HF]. cbn. lia. }
    exists 0. split; [lia|]. split; [apply Zmod_0_l|]. intros x. rewrite !covers_cons. intuition lia.
  - split; [eapply wf_weaken; [|exact Hwf]; lia|]. repeat split; try done; try lia.
    { eapply Forall_impl; [|exact HF]. cbn. lia. }
    exists (t - size). split; [lia|]. split; [done|]. intros x. rewrite !covers_cons. intuition lia.
  - destruct (first_fit bs size l) as [[p0 l0]|]; [|done]. intros [= <- <-].
    destruct (IH (a + t) l0) as (Hwf0 & Hp & Hpm & Hp64 & Hd & w & Hw & Hwm & Hx); [lia|done|done|].
    split; [cbn [wf]; unfold MINIMUM_FREE; tauto|]. repeat split; try done; try lia.
    { apply disjoint_from_cons. split; [lia|done]. }
    exists w. split; [lia|]. split; [done|]. intros x. rewrite !covers_cons, Hx. tauto.
Qed.

Lemma small_tail w : MINIMUM_FREE <= bs -> 0 <= w < align_up bs MINIMUM_FREE -> w mod bs = 0 -> w = 0.
Proof.
  intros Hb Hw Hm. unfold align_up, align_down, MINIMUM_FREE in *.
  assert (w < bs) by (replace (16 + bs - 1) with (15 + 1 * bs) in Hw by lia;
    rewrite Z.mod_add, Z.mod_small in Hw by lia; lia).
  by rewrite Z.mod_small in Hm by lia.
Qed.
End alloc.

(** ** The allocator's contract

    The state of an allocator without a backing allocator: its list, stored
    from its [first_free] field on, with that field outside of the free
    memory. *)
Record represents (alloc : Allocator) (m : mem) (l : list block) : Prop := {
  rep_wf : wf (block_size alloc) 0 l;
  rep_list : flist m (first_free alloc) l;
  rep_cell : ~ covers l (first_free alloc);
}.

Lemma basicAlloc_fits alloc size m :
  size mod block_size alloc = 0 ->
  basicAllocMemory alloc size m =
  (memory ← findFreeMemoryThatFits alloc size;
   memory ← match memory with
            | Some c => mret (Some c)
            | None => match backing alloc with
                      | Some b => addNewMemory (allocMemory b) alloc b size
                      | None => mret None
                      end
            end;
   match memory with Some c => take_memory alloc c size | None => mret 0 end) m.
Proof.
  intros Hm. destruct alloc as [bs mb bk c ss se]. cbn [basicAllocMemory block_size] in *.
  rewrite bind_assert by (by apply Z.eqb_eq). done.
Qed.

Lemma fits_loop_first_fit bs size lo fuel m c l :
  0 <= lo -> wf bs lo l -> flist m c l -> (length l < fuel)%nat ->
  match first_fit bs size l with
  | Some _ => exists c', fits_loop fuel c size m = Some (Some c', m)
  | None => fits_loop fuel c size m = Some (None, m)
  end.
Proof.
  revert fuel lo c. induction l as [|[a t] l IH]; intros [|fuel] lo c Hlo Hwf Hfl Hf;
    cbn [length] in Hf; try lia; cbn [fits_loop first_fit].
  { cbn [flist] in Hfl. by run_with eassumption. }
  destruct Hfl as (Hmc & Hma & Hfl), Hwf as (Ha & Ht & _ & _ & _ & Hwf).
  unfold MINIMUM_FREE in Ht. run_with eassumption. rewrite (proj2 (Z.eqb_neq a 0)) by lia.
  run_with eassumption. destruct (t >=? size); [by eexists|].
  specialize (IH fuel (a + t) (next_of a)).
  destruct (first_fit bs size l) as [[p l']|]; apply IH; done || lia.
Qed.

(** With no other block large enough, the search stops at the block just
    inserted. *)
Lemma fits_loop_ins bs size lo fuel m c a s l :
  0 <= lo -> wf bs lo l -> lo < a -> size <= s -> 0 < s -> disjoint_from a s l ->
  first_fit bs size l = None ->
  flist m c (ins a s l) -> (length (ins a s l) < fuel)%nat ->
  fits_loop fuel c size m = Some (Some (ins_cell c a s l), m).
Proof.
  revert fuel lo c a s. induction l as [|[b t] l IH]; intros [|fuel] lo c a s Hlo Hwf Ha Hss Hs Hd Hff Hfl Hf;
    try lia.
  { destruct Hfl as (Hmc & Hma & _). cbn [fits_loop]. run_with eassumption.
    rewrite (proj2 (Z.eqb_neq a 0)) by lia. run_with eassumption.
    by rewrite Z.geb_leb, (proj2 (Z.leb_le size s)) by done. }
  destruct Hwf as (Hb & Ht & _ & _ & _ & Hwf). unfold MINIMUM_FREE in Ht.
  apply disjoint_from_cons in Hd as [Hd Hdl]. cbn [first_fit] in Hff. rewrite Z.geb_leb in Hff. destruct (Z.leb_spec size t); [done|].
  destruct (first_fit bs size l) as [[]|] eqn:Hffl; [done|]. cbn [ins ins_cell] in *.
  assert (Hhead : forall a' s' l', flist m c ((a', s') :: l') -> 0 < a' -> size <= s' ->
    fits_loop (S fuel) c size m = Some (Some c, m)).
  { intros a' s' l' (Hmc & Hma & _) Ha' Hs'. cbn [fits_loop]. run_with eassumption.
    rewrite (proj2 (Z.eqb_neq a' 0)) by lia. run_with eassumption.
    by rewrite Z.geb_leb, (proj2 (Z.leb_le size s')) by done. }
  destruct (Z.ltb_spec b a); [destruct (Z.eqb_spec (b + t) a)|destruct (Z.eqb_spec (a + s) b)].
  - apply (IH (S fuel) lo); try done; try lia; [eapply wf_weaken; [|exact Hwf]; lia|].
    eapply disjoint_merge; eauto; lia.
  - destruct Hfl as (Hmc & Hmb & Hfl). cbn [fits_loop]. run_with eassumption.
    rewrite (proj2 (Z.eqb_neq b 0)) by lia. run_with eassumption.
    rewrite Z.geb_leb, (proj2 (Z.leb_gt size t)) by done.
    cbn [length] in Hf. by apply (IH fuel (b + t)); try done; lia.
  - eapply Hhead; [exact Hfl|lia|lia].
  - eapply Hhead; [exact Hfl|lia|lia].
Qed.

(** [basicAllocMemory] when some block of the list is large enough. *)
Lemma basicAlloc_hit alloc size m l p l' :
  represents alloc m l -> 0 < block_size alloc -> MINIMUM_FREE <= size ->
  size mod block_size alloc = 0 -> size + MINIMUM_FREE + block_size alloc < 2 ^ 64 ->
  first_fit (block_size alloc) size l = Some (p, l') ->
  exists m', basicAllocMemory alloc size m = Some (p, m') /\
    represents alloc m' l' /\ framed (first_free alloc) l m m'.
Proof.
  intros [Hwf Hfl Hc] Hbs Hs Hsm Hov Hff. pose proof (flist_length _ _ _ _ _ Hwf Hfl).
  pose proof (alloc_from_spec alloc _ size Hbs eq_refl Hs Hov 0 (S (base.size m)) m (first_free alloc) l
    ltac:(lia) Hwf Hfl Hc ltac:(lia)) as Haf.
  pose proof (fits_loop_first_fit _ size 0 (S (base.size m)) m (first_free alloc) l
    ltac:(lia) Hwf Hfl ltac:(lia)) as Hfits.
  rewrite Hff in Haf, Hfits. destruct Hfits as [c' Hfits], Haf as (m' & Haf & Hfl' & Hfr).
  exists m'. split; [|split; [|done]].
  - rewrite basicAlloc_fits by done.
    rewrite (bind_some (findFreeMemoryThatFits alloc size) _ _ _ _ Hfits), bind_ret.
    unfold alloc_from in Haf. by rewrite (bind_some _ _ _ _ _ Hfits) in Haf.
  - destruct (first_fit_spec _ size Hbs Hs Hsm 0 l p l') as (Hwf' & _ & _ & _ & _ & w & _ & _ & Hx);
      [lia|done|done|].
    split; [done|done|]. intros Hcov. apply Hc, Hx. by right.
Qed.

Lemma basicAlloc_miss alloc size m l :
  represents alloc m l -> size mod block_size alloc = 0 ->
  first_fit (block_size alloc) size l = None ->
  basicAllocMemory alloc size m =
  match backing alloc with
  | Some b => (memory ← addNewMemory (allocMemory b) alloc b size;
               match memory with Some c => take_memory alloc c size | None => mret 0 end) m
  | None => Some (0, m)
  end.
Proof.
  intros [Hwf Hfl Hc] Hsm Hff. pose proof (flist_length _ _ _ _ _ Hwf Hfl).
  pose proof (fits_loop_first_fit _ size 0 (S (base.size m)) m (first_free alloc) l
    ltac:(lia) Hwf Hfl ltac:(lia)) as Hfits. rewrite Hff in Hfits.
  rewrite basicAlloc_fits by done.
  rewrite (bind_some (findFreeMemoryThatFits alloc size) _ _ _ _ Hfits). by destruct (backing alloc).
Qed.

Lemma allocMemory_basic alloc size m :
  0 < size -> size mod block_size alloc = 0 ->
  allocMemory alloc size m = basicAllocMemory alloc size m.
Proof.
  intros Hs Hm. unfold allocMemory, alloc_with. rewrite bind_assert by (by apply Z.eqb_eq).
  by rewrite (proj2 (Z.eqb_neq size 0)) by lia.
Qed.

(** Freeing into an allocator without a backing allocator. *)
Lemma dealloc_basic alloc m l p size :
  represents alloc m l -> backing alloc = None -> size mod block_size alloc = 0 ->
  p mod block_size alloc = 0 -> MINIMUM_FREE <= size -> 0 < p -> p + size < 2 ^ 64 ->
  disjoint_from p size l -> ~ (p <= first_free alloc < p + size) ->
  exists m', deallocMemory alloc p size m = Some (tt, m') /\
    represents alloc m' (ins p size l) /\ framed (first_free alloc) ((p, size) :: l) m m'.
Proof.
  intros [Hwf Hfl Hc] Hbk Hsm Hpm Hs Hp Hlt Hd Hpc.
  assert (Hpos : Forall (fun b => 0 < snd b) l).
  { eapply Forall_impl; [|apply (wf_Forall _ _ _ Hwf)]. cbn. tauto. }
  destruct (insertFreeMemory_spec (block_size alloc) alloc (<[p := size]> m) p size l)
    as (m' & Hr & Hfl' & Hfr); try done.
  - apply (flist_move (block_size alloc) 0 m _ (first_free alloc)); [done| |intros x Hx|done].
    + rewrite lookup_insert_ne; [done|]. unfold MINIMUM_FREE in Hs. lia.
    + rewrite lookup_insert_ne; [done|]. intros ->.
      eapply (disjoint_covers x size); [exact Hd| |exact Hx]. unfold MINIMUM_FREE in Hs. lia.
  - by rewrite lookup_insert_eq.
  - rewrite covers_cons. tauto.
  - exists m'. split; [|split].
    + destruct alloc as [bs mb bk c ss se]. cbn [deallocMemory block_size backing] in *. subst bk.
      rewrite bind_assert by (by apply Z.eqb_eq).
      unfold MINIMUM_FREE in Hs. rewrite (proj2 (Z.eqb_neq size 0)) by lia. cbn [negb].
      rewrite bind_store. unfold size_of. by rewrite (bind_some _ _ _ _ _ Hr).
    + split; [by apply ins_wf|done|]. unfold MINIMUM_FREE in Hs.
      rewrite ins_covers by (done || lia). tauto.
    + eapply framed_trans; [|exact Hfr]. apply framed_store; [apply framed_refl|].
      right. apply covers_cons. unfold MINIMUM_FREE in Hs. lia.
Qed.

Lemma ins_first_fit bs size lo l p l' :
  0 < bs -> MINIMUM_FREE <= bs -> MINIMUM_FREE <= size -> size mod bs = 0 -> 0 <= lo -> wf bs lo l ->
  first_fit bs size l = Some (p, l') -> ins p size l' = l.
Proof.
  intros Hbs Hbs' Hs Hsm. revert lo l'. induction l as [|[a t] l IH]; intros lo l' Hlo Hwf; [done|].
  pose proof Hwf as Hwf0. destruct Hwf as (Ha & Ht & _ & Htm & _ & Hwf).
  cbn [first_fit]. rewrite align_up_shift by done. rewrite !Z.geb_leb.
  pose proof (align_up_spec bs MINIMUM_FREE Hbs).
  destruct (Z.leb_spec size t); [destruct (Z.leb_spec (size + align_up bs MINIMUM_FREE) t)|].
  - intros [= <- <-]. cbn [ins]. unfold MINIMUM_FREE in *.
    rewrite (proj2 (Z.ltb_ge (a + size) a)), Z.eqb_refl by lia. do 2 f_equal. lia.
  - intros [= <- <-]. assert (t = size) as ->.
    { assert (t - size = 0); [|lia]. apply (small_tail bs Hbs); [done|lia|].
      by rewrite Zminus_mod, Htm, Hsm. }
    destruct l as [|[b u] l]; [done|]. destruct Hwf as (Hb & _). cbn [ins].
    unfold MINIMUM_FREE in *. rewrite (proj2 (Z.ltb_ge b a)), (proj2 (Z.eqb_neq (a + size) b)) by lia. done.
  - destruct (first_fit bs size l) as [[p0 l0]|] eqn:Hff; [|done]. cbn. intros [= <- <-].
    destruct (first_fit_spec bs size Hbs Hs Hsm (a + t) l p0 l0) as (_ & Hp & _); [|done|done|].
    { unfold MINIMUM_FREE in *. lia. }
    cbn [ins]. unfold MINIMUM_FREE in *. rewrite (proj2 (Z.ltb_lt a p0)) by lia.
    rewrite (proj2 (Z.eqb_neq (a + t) p0)) by lia. f_equal.
    eapply IH; [|exact Hwf|done]. lia.
Qed.

(** *** An allocator on top of another one *)

(** [alloc] takes its memory from [b]: two lists that share no byte, in blocks
    of [b] that are whole blocks of [alloc]. *)
Record backed (alloc b : Allocator) (m : mem) (l lb : list block) : Prop := {
  bk_rep : represents alloc m l;
  bk_repb : represents b m lb;
  bk_cell : ~ covers lb (first_free alloc);
  bk_cellb : ~ covers l (first_free b);
  bk_cells : first_free alloc <> first_free b;
  bk_disj : forall x, covers l x -> ~ covers lb x;
}.

(** The sizes of a pair of allocators as [kalloc.c] and [pagealloc.c] set them up. *)
Record backing_ok (alloc b : Allocator) : Prop := {
  bo_backing : backing alloc = Some b;
  bo_none : backing b = None;
  bo_bs : 0 < block_size alloc;
  bo_bsb : MINIMUM_FREE <= block_size b;
  bo_mult : block_size b mod block_size alloc = 0;
}.

Lemma mod_mod_multiple x b c : 0 < c -> b mod c = 0 -> x mod b = 0 -> x mod c = 0.
Proof.
  intros Hc Hb Hx. destruct (Z.eq_dec b 0) as [->|Hb0]; [by rewrite Z.mod_0_r in Hx; subst|].
  apply Z.mod_divide in Hx; [|done]. apply Z.mod_divide in Hb; [|lia].
  apply Z.mod_divide; [lia|]. etrans; eauto.
Qed.

(** The part of [m'] that [alloc] owns survives a change to [b]'s memory. *)
Lemma represents_framed alloc c lf m m' l :
  represents alloc m l -> framed c lf m m' -> first_free alloc <> c ->
  ~ covers lf (first_free alloc) -> ~ covers l c -> (forall x, covers l x -> ~ covers lf x) ->
  represents alloc m' l.
Proof.
  intros [Hwf Hfl Hc] Hfr Hne Hcf Hlc Hdisj. split; [done| |done].
  eapply flist_move; [exact Hwf|by apply Hfr| |exact Hfl].
  intros x Hx. apply Hfr; [intros ->; done|by apply Hdisj].
Qed.

Lemma backing_size_spec bsb size :
  MINIMUM_FREE <= bsb -> 0 < size -> size + bsb < 2 ^ 64 ->
  ((size +% bsb) -% 1) -% (((size +% bsb) -% 1) mod bsb) = align_up bsb size.
Proof.
  unfold MINIMUM_FREE. intros Hbs Hs Hlt. unwrap.
  pose proof (Z.mod_pos_bound (size + bsb - 1) bsb ltac:(lia)).
  pose proof (Z.mod_le (size + bsb - 1) bsb). unwrap. done.
Qed.

Lemma clear_disjoint bs lo l p B :
  wf bs lo l -> 0 < B -> (forall x, p <= x < p + B -> ~ covers l x) -> disjoint_from p B l.
Proof.
  intros Hwf HB Hcl. apply Forall_forall. intros [a t] Hin. cbn.
  assert (Hcov : forall x, a <= x < a + t -> covers l x).
  { intros x Hxa. apply Exists_exists. by exists (a, t). }
  pose proof (wf_Forall _ _ _ Hwf) as HF. rewrite Forall_forall in HF. apply HF in Hin. cbn in Hin.
  destruct (Z.le_gt_cases (p + B) a); [by left|]. destruct (Z.le_gt_cases (a + t) p); [by right|].
  exfalso. apply (Hcl (Z.max a p)); [lia|apply Hcov; lia].
Qed.

Lemma wf_pos bs lo l : wf bs lo l -> Forall (fun b => 0 < snd b) l.
Proof. intros Hwf. eapply Forall_impl; [|apply (wf_Forall _ _ _ Hwf)]. cbn. tauto. Qed.

(** Taking a block from the backing allocator leaves the other list alone. *)
Lemma backed_take alloc b B m l lb p lb' :
  backed alloc b m l lb -> MINIMUM_FREE <= block_size b -> MINIMUM_FREE <= B ->
  B mod block_size b = 0 -> B + MINIMUM_FREE + block_size b < 2 ^ 64 ->
  first_fit (block_size b) B lb = Some (p, lb') ->
  exists m', allocMemory b B m = Some (p, m') /\ backed alloc b m' l lb' /\
    framed (first_free b) lb m m' /\ 0 < p /\ p + B < 2 ^ 64 /\ p mod block_size b = 0 /\
    (forall x, p <= x < p + B -> covers lb x /\ ~ covers lb' x) /\
    (forall x, covers lb' x -> covers lb x).
Proof.
  intros [Hrep Hrepb Hcell Hcellb Hcells Hdisj] Hbs HB HBm Hov Hff.
  unfold MINIMUM_FREE in *. assert (Hbs0 : 0 < block_size b) by lia.
  destruct (basicAlloc_hit b B m lb p lb') as (m1 & Hr1 & Hrepb1 & Hfr1);
    try (done || unfold MINIMUM_FREE; lia).
  destruct (first_fit_spec (block_size b) B Hbs0 ltac:(unfold MINIMUM_FREE; lia) HBm 0 lb p lb')
    as (Hwf' & Hp & Hpm & Hp64 & Hd' & w & Hw & _ & Hx); [lia|apply Hrepb|done|].
  assert (Hlb' : forall x, covers lb' x -> covers lb x) by (intros; apply Hx; by right).
  exists m1. rewrite allocMemory_basic by (done || lia). split; [done|]. split; [|repeat split].
  - split; try done; [by eapply represents_framed; eauto|auto|].
    intros x Hxl Hx'. by apply (Hdisj x Hxl), Hlb'.
  - done.
  - done.
  - done.
  - done.
  - apply Hx. left. lia.
  - by eapply disjoint_covers.
  - done.
Qed.

(** Inserting a block that neither list covers keeps the pair consistent. *)
Lemma backed_insert alloc b m l lb p B :
  backed alloc b m l lb -> MINIMUM_FREE <= B -> 0 < p -> p + B < 2 ^ 64 ->
  p mod block_size alloc = 0 -> B mod block_size alloc = 0 ->
  (forall x, p <= x < p + B ->
     ~ covers l x /\ ~ covers lb x /\ x <> first_free alloc /\ x <> first_free b) ->
  exists m', insertFreeMemory alloc p (<[p := B]> m) = Some (ins_cell (first_free alloc) p B l, m') /\
    backed alloc b m' (ins p B l) lb /\ framed (first_free alloc) ((p, B) :: l) m m'.
Proof.
  intros [[Hwf Hfl Hc] Hrepb Hcell Hcellb Hcells Hdisj] HB Hp Hlt Hpm HBm Hclear.
  unfold MINIMUM_FREE in HB. pose proof (wf_pos _ _ _ Hwf) as Hpos.
  assert (Hd : disjoint_from p B l) by (eapply clear_disjoint; [done|lia|]; intros; by apply Hclear).
  assert (Hfr0 : framed (first_free alloc) ((p, B) :: l) m (<[p := B]> m)).
  { apply framed_store; [apply framed_refl|]. right. apply covers_cons. lia. }
  destruct (insertFreeMemory_spec (block_size alloc) alloc (<[p := B]> m) p B l)
    as (m' & Hr & Hfl' & Hfr); try done.
  - eapply (flist_move (block_size alloc) 0 m); [done| | |exact Hfl].
    + rewrite lookup_insert_ne; [done|]. intros E. destruct (Hclear p) as (_ & _ & ? & _); [lia|done].
    + intros x Hxl. rewrite lookup_insert_ne; [done|]. intros ->. destruct (Hclear x) as (? & _); [lia|done].
  - by rewrite lookup_insert_eq.
  - rewrite covers_cons. intros [Hin|Hn]; [|done]. by destruct (Hclear _ Hin) as (_ & _ & ? & _).
  - assert (Hfr' : framed (first_free alloc) ((p, B) :: l) m m') by by eapply framed_trans.
    assert (Hcov : forall x, covers (ins p B l) x <-> p <= x < p + B \/ covers l x)
      by (intros; apply ins_covers; [lia|done]).
    assert (Hcb : ~ covers ((p, B) :: l) (first_free b)).
    { rewrite covers_cons. intros [Hin|Hn]; [|done]. by destruct (Hclear _ Hin) as (_ & _ & _ & ?). }
    exists m'. split; [done|]. split; [|done]. split; try done.
    + split; [by apply ins_wf|done|]. rewrite Hcov.
      intros [Hin|Hn]; [|done]. by destruct (Hclear _ Hin) as (_ & _ & ? & _).
    + eapply represents_framed; eauto. intros x Hx. rewrite covers_cons.
      intros [Hin|Hn]; [by destruct (Hclear _ Hin) as (_ & ? & _)|by eapply Hdisj].
    + rewrite Hcov, <- covers_cons. done.
    + intros x. rewrite Hcov. intros [Hin|Hn]; [by destruct (Hclear _ Hin) as (_ & ? & _)|by apply Hdisj].
Qed.

Lemma addNewMemory_spec alloc b size m l lb p lb' :
  backing_ok alloc b -> backed alloc b m l lb -> MINIMUM_FREE <= size ->
  align_up (block_size b) size + MINIMUM_FREE + block_size b < 2 ^ 64 ->
  first_fit (block_size b) (align_up (block_size b) size) lb = Some (p, lb') ->
  let B := align_up (block_size b) size in
  exists m', addNewMemory (allocMemory b) alloc b size m
    = Some (Some (ins_cell (first_free alloc) p B l), m') /\
    backed alloc b m' (ins p B l) lb' /\ 0 < p /\
    (forall x, p <= x < p + B -> covers lb x /\ ~ covers l x /\ ~ covers lb' x) /\
    (forall x, covers lb' x -> covers lb x) /\
    (forall x, x <> first_free alloc -> x <> first_free b -> ~ covers l x -> ~ covers lb x ->
       m' !! x = m !! x).
Proof.
  intros [Hbk Hnone Hbs Hbsb Hmult] Hbacked Hs Hov Hff B. unfold MINIMUM_FREE in *.
  pose proof (align_up_spec (block_size b) size ltac:(lia)) as HB. fold B in HB, Hov, Hff.
  assert (HBm : B mod block_size b = 0) by (apply align_up_mod; lia).
  destruct (backed_take alloc b B m l lb p lb')
    as (m1 & Hr1 & Hb1 & Hfr1 & Hp & Hp64 & Hpm & Hin & Hout); try (done || unfold MINIMUM_FREE; lia).
  assert (Hclr : forall x, p <= x < p + B -> ~ covers l x).
  { intros x Hx Hl. eapply (bk_disj _ _ _ _ _ Hbacked); [exact Hl|by apply Hin]. }
  destruct (backed_insert alloc b m1 l lb' p B) as (m' & Hr & Hb' & Hfr);
    try (done || (unfold MINIMUM_FREE; lia)).
  { by apply (mod_mod_multiple p (block_size b)). }
  { by apply (mod_mod_multiple B (block_size b)). }
  { intros x Hx. destruct (Hin x Hx). split; [auto|]. split; [done|].
    split; intros ->; [by apply (bk_cell _ _ _ _ _ Hbacked)|].
    by apply (rep_cell _ _ _ (bk_repb _ _ _ _ _ Hbacked)). }
  exists m'. split; [|split; [done|]].
  - unfold addNewMemory. rewrite bind_assert by lia.
    rewrite backing_size_spec by (unfold MINIMUM_FREE; lia). fold B.
    rewrite (bind_some _ _ _ _ _ Hr1). rewrite (proj2 (Z.eqb_neq p 0)) by lia. cbn [negb].
    rewrite bind_store. unfold size_of. by rewrite (bind_some _ _ _ _ _ Hr).
  - split; [done|]. split; [intros x Hx; destruct (Hin x Hx); auto|]. split; [done|].
    intros x Hx1 Hx2 Hx3 Hx4. rewrite Hfr; [by apply Hfr1|done|].
    rewrite covers_cons. intros [Hx|?]; [by apply Hx4, Hin|done].
Qed.

(** [addNewMemory] when the backing allocator has no block large enough. *)
Lemma addNewMemory_none alloc b size m l lb :
  backing_ok alloc b -> backed alloc b m l lb -> MINIMUM_FREE <= size ->
  align_up (block_size b) size + MINIMUM_FREE + block_size b < 2 ^ 64 ->
  first_fit (block_size b) (align_up (block_size b) size) lb = None ->
  addNewMemory (allocMemory b) alloc b size m = Some (None, m).
Proof.
  intros [Hbk Hnone Hbs Hbsb Hmult] Hbacked Hs Hov Hff. unfold MINIMUM_FREE in *.
  pose proof (align_up_spec (block_size b) size ltac:(lia)) as HB.
  assert (HBm : align_up (block_size b) size mod block_size b = 0) by (apply align_up_mod; lia).
  unfold addNewMemory. rewrite bind_assert by lia.
  rewrite backing_size_spec by (unfold MINIMUM_FREE; lia).
  erewrite bind_some.
  2: { rewrite allocMemory_basic by (done || lia).
       rewrite (basicAlloc_miss b _ m lb) by (done || apply Hbacked). by rewrite Hnone. }
  done.
Qed.

(** The outcome of an allocation of [size] bytes from the pair of lists. *)
Definition allocated (alloc b : Allocator) (size : Z) (m m' : mem) (l lb l' lb' : list block) (p : Z)
    : Prop :=
  backed alloc b m' l' lb' /\ 0 < p /\ p mod block_size alloc = 0 /\
  (forall x, p <= x < p + size -> (covers l x \/ covers lb x) /\ ~ covers l' x /\ ~ covers lb' x) /\
  (forall x, covers l' x \/ covers lb' x -> covers l x \/ covers lb x) /\
  (forall x, x <> first_free alloc -> x <> first_free b -> ~ covers l x -> ~ covers lb x ->
     m' !! x = m !! x).

(** A block of the list itself is large enough. *)
Lemma alloc_hit alloc b size m l lb p l' :
  backing_ok alloc b -> backed alloc b m l lb -> MINIMUM_FREE <= size ->
  size mod block_size alloc = 0 -> size + MINIMUM_FREE + block_size alloc < 2 ^ 64 ->
  first_fit (block_size alloc) size l = Some (p, l') ->
  exists m', basicAllocMemory alloc size m = Some (p, m') /\
    allocated alloc b size m m' l lb l' lb p.
Proof.
  intros Hok Hbk Hs Hsm Hov Hff. pose proof (bo_bs _ _ Hok) as Hbs.
  destruct Hbk as [Hrep Hrepb Hcell Hcellb Hcells Hdisj].
  destruct (basicAlloc_hit alloc size m l p l') as (m' & Hr & Hrep' & Hfr); try done.
  destruct (first_fit_spec (block_size alloc) size Hbs Hs Hsm 0 l p l')
    as (Hwf' & Hp & Hpm & Hp64 & Hd' & w & Hw & _ & Hx); [lia|apply Hrep|done|].
  assert (Hl' : forall x, covers l' x -> covers l x) by (intros; apply Hx; by right).
  exists m'. split; [done|]. split; [|split; [done|split; [done|]]].
  - split; auto. eapply represents_framed; eauto. intros x Hxb Hxl. by eapply Hdisj.
  - split; [|split].
    + intros x Hxp. assert (covers l x) by (apply Hx; left; lia).
      split; [by left|]. split; [by eapply disjoint_covers|by apply Hdisj].
    + intros x [?|?]; auto.
    + intros x ? _ ? _. by apply Hfr.
Qed.

(** Taking from the block that was just added. *)
Lemma take_inserted alloc b size m l lb a s :
  backing_ok alloc b -> backed alloc b m (ins a s l) lb -> wf (block_size alloc) 0 l ->
  MINIMUM_FREE <= size -> size mod block_size alloc = 0 ->
  size + MINIMUM_FREE + block_size alloc < 2 ^ 64 ->
  first_fit (block_size alloc) size l = None -> 0 < a -> size <= s -> disjoint_from a s l ->
  exists p l' m', take_memory alloc (ins_cell (first_free alloc) a s l) size m = Some (p, m') /\
    allocated alloc b size m m' (ins a s l) lb l' lb p.
Proof.
  intros Hok Hbk Hwf Hs Hsm Hov Hff Ha Hss Hd. pose proof (bo_bs _ _ Hok) as Hbs.
  pose proof (rep_wf _ _ _ (bk_rep _ _ _ _ _ Hbk)) as Hwf'.
  pose proof (rep_list _ _ _ (bk_rep _ _ _ _ _ Hbk)) as Hfl'.
  pose proof (flist_length _ _ _ _ _ Hwf' Hfl') as Hlen'.
  assert (Hfits : fits_loop (S (base.size m)) (first_free alloc) size m
                  = Some (Some (ins_cell (first_free alloc) a s l), m)).
  { unfold MINIMUM_FREE in Hs. eapply (fits_loop_ins (block_size alloc) size 0); eauto; lia. }
  pose proof (fits_loop_first_fit (block_size alloc) size 0 (S (base.size m)) m (first_free alloc) (ins a s l)
    ltac:(lia) Hwf' Hfl' ltac:(lia)) as Hsome.
  destruct (first_fit (block_size alloc) size (ins a s l)) as [[p l']|] eqn:Hff'; [|congruence].
  destruct (alloc_hit alloc b size m (ins a s l) lb p l') as (m' & Hr & Hall); try done.
  exists p, l', m'. split; [|done]. rewrite <- Hr, basicAlloc_fits by done.
  rewrite (bind_some (findFreeMemoryThatFits alloc size) _ _ _ _ Hfits). by rewrite bind_ret.
Qed.

Lemma backed_ins_disjoint alloc b m l lb lb' a s :
  backed alloc b m l lb -> 0 < s ->
  (forall x, a <= x < a + s -> covers lb x /\ ~ covers l x /\ ~ covers lb' x) -> disjoint_from a s l.
Proof.
  intros Hbk Hs Hx. eapply clear_disjoint; [apply Hbk|done|]. intros x Hxa. by apply Hx.
Qed.

(** [allocMemory] on two lists that share no byte: no assertion fails, the
    result is aligned and was free, and [NULL] means that neither list has a
    block large enough. *)
Lemma allocMemory_ok alloc b m l lb size :
  backing_ok alloc b -> backed alloc b m l lb -> MINIMUM_FREE <= size ->
  size mod block_size alloc = 0 -> size + 2 * block_size b + MINIMUM_FREE < 2 ^ 64 ->
  (exists p m' l' lb', allocMemory alloc size m = Some (p, m') /\
     allocated alloc b size m m' l lb l' lb' p) \/
  (allocMemory alloc size m = Some (0, m) /\
   first_fit (block_size alloc) size l = None /\
   first_fit (block_size b) (align_up (block_size b) size) lb = None).
Proof.
  intros Hok Hbk Hs Hsm Hov. pose proof Hok as [Hback Hnone Hbs Hbsb Hmult].
  unfold MINIMUM_FREE in Hbsb.
  pose proof (align_up_spec (block_size b) size ltac:(lia)) as HB.
  assert (block_size alloc <= block_size b).
  { apply Z.mod_divide in Hmult; [|lia]. apply Z.divide_pos_le; [lia|done]. }
  rewrite allocMemory_basic by (done || unfold MINIMUM_FREE in Hs; lia).
  destruct (first_fit (block_size alloc) size l) as [[p l']|] eqn:Hff.
  { left. destruct (alloc_hit alloc b size m l lb p l') as (m' & ? & ?); try (done || lia).
    by exists p, m', l', lb. }
  rewrite (basicAlloc_miss alloc size m l) by (done || apply Hbk). rewrite Hback.
  destruct (first_fit (block_size b) (align_up (block_size b) size) lb) as [[p lb']|] eqn:Hffb.
  2: { right. split; [|done]. erewrite bind_some; [|eapply addNewMemory_none]; eauto; lia. }
  left. destruct (addNewMemory_spec alloc b size m l lb p lb')
    as (m1 & Hadd & Hbk1 & Hp & Hreg & Hsub & Hfr1); try (done || lia).
  rewrite (bind_some _ _ _ _ _ Hadd).
  set (B := align_up (block_size b) size) in *. unfold MINIMUM_FREE in Hs.
  assert (Hd : disjoint_from p B l) by (eapply backed_ins_disjoint; eauto; lia).
  assert (Hpos : Forall (fun b => 0 < snd b) l) by (eapply wf_pos, Hbk).
  destruct (take_inserted alloc b size m1 l lb' p B) as (q & l2 & m2 & Hr & Hall);
    try (done || (unfold MINIMUM_FREE in *; lia) || apply Hbk).
  exists q, m2, l2, lb'. split; [done|].
  destruct Hall as (Hbk2 & Hq & Hqm & Hqf & Hsub2 & Hfr2).
  assert (Hcov : forall x, covers (ins p B l) x <-> p <= x < p + B \/ covers l x)
    by (intros; apply ins_covers; [lia|done]).
  split; [done|split; [done|split; [done|split; [|split]]]].
  - intros x Hx. destruct (Hqf x Hx) as (Hin & Hout). split; [|done].
    rewrite Hcov in Hin. destruct Hin as [[Hin|Hin]|Hin]; [right; by apply Hreg|by left|right; auto].
  - intros x Hx. apply Hsub2 in Hx. rewrite Hcov in Hx.
    destruct Hx as [[Hx|Hx]|Hx]; [right; by apply Hreg|by left|right; auto].
  - intros x Hx1 Hx2 Hx3 Hx4. rewrite Hfr2, Hfr1; try done.
    + rewrite Hcov. intros [Hx|Hx]; [by apply Hx4, Hreg|done].
    + intros Hx. by apply Hx4, Hsub.
Qed.

(** A word outside both lists and their heads can be written. *)
Lemma backed_store alloc b m l lb x v :
  backed alloc b m l lb -> ~ covers l x -> ~ covers lb x ->
  x <> first_free alloc -> x <> first_free b -> backed alloc b (<[x := v]> m) l lb.
Proof.
  intros [Hrep Hrepb Hcell Hcellb Hcells Hdisj] Hl Hlb Hx Hxb. split; try done.
  - apply (represents_framed alloc x [] m); try done; try apply covers_nil.
    + apply framed_store; [apply framed_refl|by left].
    + intros y _. apply covers_nil.
  - apply (represents_framed b x [] m); try done; try apply covers_nil.
    + apply framed_store; [apply framed_refl|by left].
    + intros y _. apply covers_nil.
Qed.

(** The bytes of an allocation are no list head, and below [2^64]. *)
Lemma allocated_bytes alloc b size m m' l lb l' lb' p x :
  backed alloc b m l lb -> allocated alloc b size m m' l lb l' lb' p -> p <= x < p + size ->
  x <> first_free alloc /\ x <> first_free b /\ x < 2 ^ 64.
Proof.
  intros [[Hwf _ Hc] [Hwfb _ Hcb] Hcell Hcellb _ _] (_ & _ & _ & Hin & _) Hx.
  destruct (Hin x Hx) as ([Hcx|Hcx] & _).
  - pose proof (wf_covers _ _ _ _ Hwf Hcx). repeat split; [congruence..|lia].
  - pose proof (wf_covers _ _ _ _ Hwfb Hcx). repeat split; [congruence..|lia].
Qed.

(** ** Properties *)

(** C1: allocation followed by deallocation, in an allocator without a backing
    allocator (the page allocator).  When the block size is at least the
    minimal free block, [allocMemory] of a block the list can satisfy succeeds,
    and [deallocMemory] of the result, after any writes of the caller inside
    the block, succeeds and leads back to the very same free list: nothing is
    lost by splitting, and merging undoes it. *)
Theorem alloc_dealloc_roundtrip alloc m l size m1 :
  represents alloc m l -> backing alloc = None -> MINIMUM_FREE <= block_size alloc ->
  MINIMUM_FREE <= size -> size mod block_size alloc = 0 ->
  size + MINIMUM_FREE + block_size alloc < 2 ^ 64 ->
  first_fit (block_size alloc) size l <> None ->
  exists p m', allocMemory alloc size m = Some (p, m') /\
    ((forall x, ~ (p <= x < p + size) -> m1 !! x = m' !! x) ->
     exists m2, deallocMemory alloc p size m1 = Some (tt, m2) /\ represents alloc m2 l).
Proof.
  intros Hrep Hbk Hbs Hs Hsm Hov Hff. unfold MINIMUM_FREE in *. pose proof Hrep as [Hwf Hfl Hcell].
  destruct (first_fit (block_size alloc) size l) as [[p l']|] eqn:Hp; [|done].
  destruct (basicAlloc_hit alloc size m l p l') as (m' & Hr & Hrep' & _);
    try (done || unfold MINIMUM_FREE; lia).
  destruct (first_fit_spec (block_size alloc) size ltac:(lia) Hs Hsm 0 l p l')
    as (Hwf' & Hp0 & Hpm & Hp64 & Hd & w & Hw & _ & Hx); [lia|done|done|].
  exists p, m'. split; [by rewrite allocMemory_basic by (done || lia)|]. intros Hm1.
  assert (Hpc : ~ (p <= first_free alloc < p + size)).
  { intros Hin. apply Hcell, Hx. left. lia. }
  destruct (dealloc_basic alloc m1 l' p size) as (m2 & Hd2 & Hrep2 & _); try (done || lia).
  - destruct Hrep' as [? Hfl' ?]. split; [done| |done].
    eapply flist_move; [exact Hwf'|by apply Hm1| |exact Hfl'].
    intros x Hxl. apply Hm1. intros Hin. by eapply (disjoint_covers p size).
  - exists m2. split; [done|]. by rewrite (ins_first_fit (block_size alloc) size 0 l p l') in Hrep2
      by (done || unfold MINIMUM_FREE; lia).
Qed.

(** A page allocator with [0x10000 .. 0x50000) free, and a byte allocator on it. *)
Definition demo_pages : Allocator := mkAllocator 4096 0 None 16 0 0.
Definition demo_bytes : Allocator := mkAllocator 8 0 (Some demo_pages) 64 0 0.
Definition demo_mem : mem :=
  {[ 16 := 0x10000; 64 := 0; 0x10000 := 0x40000; 0x10008 := 0 ]}.

Lemma covers_single a s x : covers [(a, s)] x <-> a <= x < a + s.
Proof. rewrite covers_cons. split; [intros [?|H%covers_nil]; [lia|done]|by left]. Qed.

Lemma demo_pages_represents : represents demo_pages demo_mem [(0x10000, 0x40000)].
Proof.
  split; [unfold demo_pages; cbn [wf block_size]; unfold MINIMUM_FREE; repeat split; lia| |].
  - cbn [flist]. repeat split; vm_compute; reflexivity.
  - rewrite covers_single. cbn [demo_pages first_free]. lia.
Qed.

Lemma demo_backed : backed demo_bytes demo_pages demo_mem [] [(0x10000, 0x40000)].
Proof.
  split; try apply demo_pages_represents; try (rewrite covers_single; cbn [demo_bytes first_free]; lia);
    try (apply covers_nil); [|cbn [demo_bytes demo_pages first_free]; lia|].
  - split; [done|vm_compute; reflexivity|apply covers_nil].
  - intros x []%covers_nil.
Qed.

Lemma alloc_dealloc_roundtrip_witness :
  exists p m', allocMemory demo_pages 8192 demo_mem = Some (p, m') /\
    ((forall x, ~ (p <= x < p + 8192) -> m' !! x = m' !! x) ->
     exists m2, deallocMemory demo_pages p 8192 m' = Some (tt, m2) /\
       represents demo_pages m2 [(0x10000, 0x40000)]).
Proof.
  destruct (allocMemory demo_pages 8192 demo_mem) as [[p0 m0]|] eqn:E; [|by vm_compute in E].
  destruct (alloc_dealloc_roundtrip demo_pages demo_mem [(0x10000, 0x40000)] 8192 m0)
    as (p & m' & H1 & H2).
  - exact demo_pages_represents.
  - done.
  - by vm_compute.
  - by vm_compute.
  - done.
  - by vm_compute.
  - by vm_compute.
  - rewrite E in H1. injection H1 as <- <-. exists p0, m0. split; [done|exact H2].
Defined.

(** [tryFreeingOldMemory] rounds [mem_end] down in the place of [page_end]: of
    a block whose end is not on a page boundary, the part after the last page
    boundary is dropped.  Here two blocks fill the two first pages and 16 bytes
    of the third; freeing the first one leaves no trace of its last 16 bytes. *)
Definition leak_run : M mem (list Z) :=
  a ← allocMemory demo_bytes 0x2010;
  b ← allocMemory demo_bytes 0xfe0;
  deallocMemory demo_bytes a 0x2010;;
  first ← load (first_free demo_bytes);
  size ← load (size_of first);
  next ← load (next_of first);
  mret [a; b; first; size; next].

(** [reallocMemory] keeps [current], a pointer into the free list, across
    [basicAllocMemory], which may hand out the very block it points into.  Here
    32 bytes are grown to 48 with one free block of 48 bytes below them: the
    old block is linked through a word of the new allocation. *)
Definition realloc_run : M mem (list Z) :=
  pad ← allocMemory demo_bytes 64;
  gap ← allocMemory demo_bytes 32;
  old ← allocMemory demo_bytes 32;
  keep ← allocMemory demo_bytes 32;
  deallocMemory demo_bytes pad 64;;
  store old 7;; store (old + 8) 8;; store (old + 16) 9;; store (old + 24) 10;;
  new ← reallocMemory demo_bytes old 32 48;
  w0 ← load new;
  w1 ← load (new + 8);
  mret [pad; old; new; w0; w1].

(** freeing the block [0x10000 .. 0x12010) leaves [0x11000 .. 0x12000) on
    the list of the byte allocator and the next block at [0x12ff0]: the 16 bytes from
    [0x12000] on are on no list. *)
Example dealloc_drops_tail :
  fst <$> leak_run demo_mem = Some [0x10000; 0x12010; 0x11000; 0x1000; 0x12ff0].
Proof. vm_compute. reflexivity. Qed.

(** after the reallocation the second word of the new block is the address
    of the old block, not the 8 that the caller stored there. *)
Example realloc_corrupts_data :
  fst <$> realloc_run demo_mem = Some [0x10000; 0x10060; 0x10000; 7; 0x10060].
Proof. vm_compute. reflexivity. Qed.

End Allocator.
