(* ===== verification/PageAlloc.v ===== *)
(** * PageAlloc: [kernel/src/memory/pagealloc.c] and [kernel/src/memory/reclaim.c]

    Whole pages of the kernel heap, taken from [page_allocator], an allocator
    without a backing allocator, and the list of the functions that can give
    memory back when it runs out.  [alloc_lock] and [reclaimable_lock] are held
    around the accesses, so the operations are atomic here.

    [PageService] is what the page tables ask of this file, [PageLaws] what
    they may rely on; [page_service_laws] shows that the code keeps to it. *)
From S2P Require Import Prelude Util Allocator.
Import Allocator.

Local Open Scope c_scope.

Module PageAlloc.

(** ** Reclaiming memory *)

Definition MAX_PRIORITY : Z := 40.
Definition HIGHEST_PRIORITY : Z := 0.
Definition LOWEST_PRIORITY : Z := MAX_PRIORITY - 1.

(** The [Reclaimable] list, without the addresses of its nodes; [reclaim] and
    [udata] are pointers. *)
Record Reclaimable := mkReclaimable { priority : Z; reclaim : Z; udata : Z }.

Definition registerReclaimable (priority function udata : Z) (reclaimable : list Reclaimable)
    : list Reclaimable :=
  mkReclaimable priority function udata :: reclaimable.

Fixpoint unregisterReclaimable (prio function data : Z) (reclaimable : list Reclaimable)
    : list Reclaimable :=
  match reclaimable with
  | [] => []
  | r :: next =>
      if (priority r =? prio) && (reclaim r =? function) && (udata r =? data)
      then unregisterReclaimable prio function data next
      else r :: unregisterReclaimable prio function data next
  end.

Section Code.
(** The call of a function pointer with a priority and its data. *)
Context (call : Z -> Z -> Z -> M mem bool).

Fixpoint tryReclaimingMemory (reclaimable : list Reclaimable) (prio : Z) : M mem bool :=
  match reclaimable with
  | [] => mret false
  | current :: next =>
      if priority current >=? prio then
        freed ← call (reclaim current) prio (udata current);
        if freed : bool then mret true else tryReclaimingMemory next prio
      else tryReclaimingMemory next prio
  end.

(** ** Page allocation *)

Definition PAGE_SIZE : Z := 4096.

(** The linker symbols [__heap_start] and [__heap_end], and the address of the
    field [first_free] of [page_allocator]. *)
Context (heap_start heap_end first_free_addr : Z).

Definition page_allocator : Allocator := mkAllocator PAGE_SIZE 0 None first_free_addr 0 0.

Record PageAllocation := mkPages { ptr : Z; pages_size : Z }.

Definition basicAllocPages (pages : Z) : M mem PageAllocation :=
  if negb (pages =? 0) then
    p ← allocMemory page_allocator (pages *% PAGE_SIZE);
    mret (mkPages p (if negb (p =? 0) then pages else 0))
  else mret (mkPages 0 0).

(** The loop of [allocPages]: [alloc] is the result so far. *)
Fixpoint reclaim_loop (fuel : nat) (rs : list Reclaimable) (prio pages : Z) (alloc : PageAllocation)
    : M mem PageAllocation :=
  match fuel with
  | O => fault
  | S fuel' =>
      freed ← tryReclaimingMemory rs prio;
      if (freed : bool) || (prio >? HIGHEST_PRIORITY) then
        let prio := if prio >? HIGHEST_PRIORITY then prio - 1 else prio in
        alloc ← basicAllocPages pages;
        if pages_size alloc >? 0 then mret alloc
        else reclaim_loop fuel' rs prio pages alloc
      else mret alloc
  end.

Definition allocPages (fuel : nat) (rs : list Reclaimable) (pages : Z) : M mem PageAllocation :=
  alloc ← basicAllocPages pages;
  if negb (pages =? 0) && (pages_size alloc =? 0)
  then reclaim_loop fuel rs LOWEST_PRIORITY pages alloc
  else mret alloc.

Definition allocPage (fuel : nat) (rs : list Reclaimable) : M mem Z :=
  alloc ← allocPages fuel rs 1; mret (ptr alloc).

Definition deallocPages (alloc : PageAllocation) : M mem unit :=
  if negb (ptr alloc =? 0) && negb (pages_size alloc =? 0) then
    massert ((ptr alloc >=? heap_start) && (ptr alloc <=? heap_end));;
    let last := ptr alloc +% (pages_size alloc *% PAGE_SIZE) in
    massert ((last >=? heap_start) && (last <=? heap_end));;
    deallocMemory page_allocator (ptr alloc) (pages_size alloc *% PAGE_SIZE)
  else mret tt.

Definition deallocPage (p : Z) : M mem unit := deallocPages (mkPages p 1).

(** [memset(p, 0, n)] for an 8-aligned [p]: whole words, and the low bytes of
    the last one. *)
Definition zero_bytes (p n : Z) : M mem unit := fun m =>
  let m := foldr (fun i m => <[p + 8 * i := 0]> m) m (seqZ 0 (n / 8)) in
  let last := p + 8 * (n / 8) in
  if n mod 8 =? 0 then Some (tt, m)
  else v ← m !! last; Some (tt, <[last := Z.land v (u64 (- 2 ^ (8 * (n mod 8))))]> m).

Definition zallocPages (fuel : nat) (rs : list Reclaimable) (pages : Z) : M mem PageAllocation :=
  alloc ← allocPages fuel rs pages;
  zero_bytes (ptr alloc) (pages_size alloc *% PAGE_SIZE);;
  mret alloc.

Definition zallocPage (fuel : nat) (rs : list Reclaimable) : M mem Z :=
  alloc ← zallocPages fuel rs 1; mret (ptr alloc).

(** The result is [zero_page]; no reclaim function is registered yet. *)
Definition initPageAllocator : M mem Z :=
  let start := Z.land ((heap_start +% PAGE_SIZE) -% 1) (u64 (- PAGE_SIZE)) in
  let last := Z.land heap_end (u64 (- PAGE_SIZE)) in
  massert (last >=? start);;
  deallocMemory page_allocator start (last -% start);;
  zallocPage (S (Z.to_nat MAX_PRIORITY)) [].

End Code.

(** ** The interface to the page tables *)

(** The operations, and the state they are about: [owned g x] says that the
    word at [x] belongs to the allocator in the ghost state [g], [free_pages g]
    how many pages it can still give. *)
Class PageService := {
  ghost : Type;
  page_inv : mem -> ghost -> Prop;
  owned : ghost -> Z -> Prop;
  free_pages : ghost -> nat;
  heap_page : Z -> Prop;
  zalloc_page : M mem Z;
  alloc_page : M mem Z;
  free_page : Z -> M mem unit;
}.

Definition page_of (p x : Z) : Prop := p <= x < p + PAGE_SIZE.

(** What [zallocPage] and [allocPage] do to the memory. *)
Record fresh_page `{PageService} (p : Z) (g g' : ghost) (m m' : mem) : Prop := {
  fr_inv : page_inv m' g';
  fr_shrink : forall x, owned g' x -> owned g x;
  fr_frame : forall x, ~ owned g x -> m' !! x = m !! x;
  fr_heap : p <> 0 -> heap_page p;
  fr_page : p <> 0 -> forall x, page_of p x -> owned g x /\ ~ owned g' x;
  fr_count : free_pages g = if p =? 0 then 0%nat else S (free_pages g');
}.

Class PageLaws (S : PageService) : Prop := {
  heap_page_range : forall p, heap_page p -> 0 < p /\ p + PAGE_SIZE <= 2 ^ 56 /\ p mod PAGE_SIZE = 0;
  page_inv_frame : forall m m' g, page_inv m g -> (forall x, owned g x -> m' !! x = m !! x) ->
    page_inv m' g;
  alloc_page_spec : forall m g, page_inv m g -> exists p m' g',
    alloc_page m = Some (p, m') /\ fresh_page p g g' m m';
  zalloc_page_spec : forall m g, page_inv m g -> exists p m' g',
    zalloc_page m = Some (p, m') /\ fresh_page p g g' m m' /\
    (p <> 0 -> forall i, 0 <= i < 512 -> m' !! (p + 8 * i) = Some 0);
  free_page_spec : forall m g p, page_inv m g -> heap_page p -> (forall x, page_of p x -> ~ owned g x) ->
    exists m' g', free_page p m = Some (tt, m') /\ page_inv m' g' /\
      (forall x, owned g' x <-> owned g x \/ page_of p x) /\
      free_pages g' = (1 + free_pages g)%nat /\
      (forall x, ~ owned g' x -> m' !! x = m !! x);
}.

(** ** The page allocator keeps to the interface *)

Definition zero_words (m : mem) (p : Z) (l : list Z) : mem :=
  foldr (fun i m => <[p + 8 * i := 0]> m) m l.

Lemma zero_words_in m p l i : i ∈ l -> zero_words m p l !! (p + 8 * i) = Some 0.
Proof.
  induction l as [|j l IH]; intros Hi; [by apply not_elem_of_nil in Hi|]. cbn [zero_words foldr].
  destruct (decide (i = j)) as [->|Hne]; [by rewrite lookup_insert_eq|].
  rewrite lookup_insert_ne by lia. apply IH. by apply elem_of_cons in Hi as [->|].
Qed.

Lemma zero_words_out m p l x :
  (forall i, i ∈ l -> x <> p + 8 * i) -> zero_words m p l !! x = m !! x.
Proof.
  induction l as [|j l IH]; intros Hx; [done|]. cbn [zero_words foldr].
  rewrite lookup_insert_ne by (intros E; apply (Hx j); [apply list_elem_of_here|done]).
  apply IH. intros i Hi. apply Hx. by apply list_elem_of_further.
Qed.

Lemma zero_bytes_page p m :
  zero_bytes p PAGE_SIZE m = Some (tt, zero_words m p (seqZ 0 512)).
Proof. reflexivity. Qed.

Section Instance.
Context (call : Z -> Z -> Z -> M mem bool) (heap_start heap_end first_free_addr : Z).
Context (Hstart : 0 < heap_start) (Hend : heap_end <= 2 ^ 56).
Context (Hcell : ~ (heap_start <= first_free_addr < heap_end)).

Local Abbreviation pages := (page_allocator first_free_addr).

Definition heap_list (m : mem) (l : list block) : Prop :=
  represents pages m l /\ forall x, covers l x -> heap_start <= x < heap_end.

Definition total (l : list block) : Z := foldr (fun b n => snd b + n) 0 l.

(** The service before any reclaim function is registered. *)
#[local] Instance page_service : PageService := {
  ghost := list block;
  page_inv := heap_list;
  owned l x := x = first_free_addr \/ covers l x;
  free_pages l := Z.to_nat (total l / PAGE_SIZE);
  heap_page p := heap_start <= p /\ p + PAGE_SIZE <= heap_end /\ p mod PAGE_SIZE = 0;
  alloc_page := allocPage call first_free_addr (S (Z.to_nat MAX_PRIORITY)) [];
  zalloc_page := zallocPage call first_free_addr (S (Z.to_nat MAX_PRIORITY)) [];
  free_page := deallocPage heap_start heap_end first_free_addr;
}.

Lemma total_cons a s l : total ((a, s) :: l) = s + total l.
Proof. done. Qed.

Lemma total_nonneg lo l : wf PAGE_SIZE lo l -> 0 <= total l /\ (l <> [] -> PAGE_SIZE <= total l).
Proof.
  revert lo. induction l as [|[a s] l IH]; intros lo Hwf; [done|]. rewrite total_cons.
  destruct Hwf as (_ & Hs & _ & Hm & _ & Hwf). destruct (IH _ Hwf) as [H _].
  unfold MINIMUM_FREE, PAGE_SIZE in *. split; [lia|intros _]. Z.div_mod_to_equations. lia.
Qed.

Lemma total_ins a s l : total (ins a s l) = s + total l.
Proof.
  revert a s. induction l as [|[b t] l IH]; intros a s; cbn [ins]; [done|].
  destruct (b <? a); [destruct (b + t =? a)|destruct (a + s =? b)]; rewrite ?IH, ?total_cons, ?IH; lia.
Qed.

(** Taking a page takes exactly one page. *)
Lemma total_first_fit lo l p l' :
  wf PAGE_SIZE lo l -> first_fit PAGE_SIZE PAGE_SIZE l = Some (p, l') ->
  total l = PAGE_SIZE + total l'.
Proof.
  revert lo l'. induction l as [|[a s] l IH]; intros lo l' Hwf; [done|]. cbn [first_fit].
  destruct Hwf as (_ & Hs & _ & Hm & _ & Hwf). change (align_up PAGE_SIZE (PAGE_SIZE + MINIMUM_FREE)) with 8192.
  unfold PAGE_SIZE in *. rewrite !Z.geb_leb.
  destruct (Z.leb_spec 4096 s); [destruct (Z.leb_spec 8192 s)|]; [intros [= <- <-]..|].
  - rewrite !total_cons. lia.
  - rewrite total_cons. assert (s = 4096); [|lia]. Z.div_mod_to_equations. lia.
  - destruct (first_fit 4096 4096 l) as [[q l0]|] eqn:Hf; [|done].
    cbn [mbind option_bind]. intros [= <- <-]. rewrite !total_cons, (IH _ _ Hwf eq_refl). lia.
Qed.

Lemma first_fit_none lo l :
  wf PAGE_SIZE lo l -> first_fit PAGE_SIZE PAGE_SIZE l = None -> l = [].
Proof.
  destruct l as [|[a s] l]; [done|]. intros (_ & Hs & _ & Hm & _). cbn [first_fit].
  unfold MINIMUM_FREE, PAGE_SIZE in *. rewrite Z.geb_leb.
  rewrite (proj2 (Z.leb_le 4096 s)); [done|]. Z.div_mod_to_equations. lia.
Qed.

Lemma free_count n : 0 <= n -> Z.to_nat ((PAGE_SIZE + n) / PAGE_SIZE) = S (Z.to_nat (n / PAGE_SIZE)).
Proof.
  intros Hn. unfold PAGE_SIZE. replace (4096 + n) with (n + 1 * 4096) by lia.
  rewrite Z.div_add by lia. assert (0 <= n / 4096) by (apply Z.div_pos; lia). lia.
Qed.

Lemma basicAllocPages_spec m l :
  heap_list m l -> exists p m' l',
    basicAllocPages first_free_addr 1 m = Some (mkPages p (if negb (p =? 0) then 1 else 0), m') /\
    fresh_page p l l' m m' /\ (p = 0 -> m' = m).
Proof.
  intros [Hrep Hin]. pose proof Hrep as [Hwf Hfl Hc]. unfold basicAllocPages. cbn [negb Z.eqb].
  change (1 *% PAGE_SIZE) with PAGE_SIZE.
  destruct (first_fit PAGE_SIZE PAGE_SIZE l) as [[p l']|] eqn:Hff.
  - destruct (basicAlloc_hit pages PAGE_SIZE m l p l') as (m' & Hr & Hrep' & Hfr); try done.
    destruct (first_fit_spec PAGE_SIZE PAGE_SIZE eq_refl ltac:(done) eq_refl 0 l p l')
      as (Hwf' & Hp & Hpm & _ & Hd & w & Hw & _ & Hx); [lia|done|done|].
    assert (Hsub : forall x, covers l' x -> covers l x) by (intros; apply Hx; by right).
    assert (Hpage : forall x, page_of p x -> covers l x /\ ~ covers l' x).
    { intros x Hxp. split; [apply Hx; left; unfold page_of in *; lia|by eapply disjoint_covers]. }
    exists p, m', l'. split; [|split; [|lia]].
    { rewrite (bind_some _ _ m m' p) by (by rewrite allocMemory_basic). done. }
    split; cbn [page_inv page_service owned heap_page free_pages].
    + split; [done|auto].
    + intros x [->|?]; auto.
    + intros x Hn. apply Hfr; [intros ->; apply Hn; by left|intros ?; apply Hn; by right].
    + intros _. destruct (Hin p) as [? _]; [by apply Hpage; unfold page_of, PAGE_SIZE; lia|].
      destruct (Hin (p + PAGE_SIZE - 1)); [by apply Hpage; unfold page_of, PAGE_SIZE; lia|].
      split; [done|split; [lia|done]].
    + intros _ x Hxp. destruct (Hpage x Hxp) as [H1 H2]. split; [by right|].
      intros [->|?]; [by apply Hc|done].
    + rewrite (proj2 (Z.eqb_neq p 0)), (total_first_fit 0 l p l') by (done || lia).
      apply free_count, (total_nonneg 0), Hwf'.
  - exists 0, m, l. split; [|split; [|done]].
    { rewrite (bind_some _ _ m m 0); [done|].
      by rewrite allocMemory_basic, (basicAlloc_miss pages PAGE_SIZE m l) by done. }
    rewrite (first_fit_none 0 l Hwf Hff) in *. by split.
Qed.

(** Without reclaim functions, the loop of [allocPages] tries once per priority
    and gives up. *)
Lemma reclaim_loop_none m l prio fuel alloc :
  heap_list m l -> basicAllocPages first_free_addr 1 m = Some (mkPages 0 0, m) ->
  0 <= prio -> (Z.to_nat prio < fuel)%nat -> pages_size alloc = 0 -> ptr alloc = 0 ->
  reclaim_loop call first_free_addr fuel [] prio 1 alloc m = Some (mkPages 0 0, m).
Proof.
  intros Hl Hb. revert prio alloc. induction fuel as [|fuel IH]; intros prio alloc Hp Hf Hs Hptr; [lia|].
  cbn [reclaim_loop tryReclaimingMemory]. rewrite bind_ret. cbn [orb]. unfold HIGHEST_PRIORITY.
  destruct (Z.gtb_spec prio 0).
  - rewrite (bind_some _ _ _ _ _ Hb). cbn [pages_size Z.gtb Z.compare]. apply IH; cbn; lia || done.
  - destruct alloc as [a z]. cbn in Hs, Hptr. by subst.
Qed.

Lemma allocPages_spec m l :
  heap_list m l -> exists p m' l',
    allocPages call first_free_addr (S (Z.to_nat MAX_PRIORITY)) [] 1 m
      = Some (mkPages p (if negb (p =? 0) then 1 else 0), m') /\
    fresh_page p l l' m m'.
Proof.
  intros Hl. destruct (basicAllocPages_spec m l Hl) as (p & m' & l' & Hb & Hfr & H0).
  unfold allocPages. rewrite (bind_some _ _ _ _ _ Hb). cbn [pages_size].
  destruct (Z.eqb_spec p 0) as [->|Hp]; cbn [negb Z.eqb andb].
  - rewrite (H0 eq_refl) in *. exists 0, m, l'. split; [|done].
    rewrite (reclaim_loop_none m l) by (done || (unfold LOWEST_PRIORITY, MAX_PRIORITY; lia)).
    done.
  - exists p, m', l'. by rewrite (proj2 (Z.eqb_neq p 0)) by done.
Qed.

Lemma heap_list_frame m m' l :
  heap_list m l -> (forall x, x = first_free_addr \/ covers l x -> m' !! x = m !! x) ->
  heap_list m' l.
Proof.
  intros [[Hwf Hfl Hc] Hin] Hag. split; [|done]. split; [done| |done].
  eapply flist_move; [exact Hwf|apply Hag; by left| |exact Hfl]. intros x Hx. apply Hag. by right.
Qed.

Lemma zallocPage_spec m l :
  heap_list m l -> exists p m' l', zalloc_page m = Some (p, m') /\ fresh_page p l l' m m' /\
    (p <> 0 -> forall i, 0 <= i < 512 -> m' !! (p + 8 * i) = Some 0).
Proof.
  intros Hl. destruct (allocPages_spec m l Hl) as (p & m' & l' & Ha & Hfr).
  cbn [zalloc_page page_service]. unfold zallocPage, zallocPages.
  rewrite bind_assoc, (bind_some _ _ _ _ _ Ha), bind_assoc. cbn [ptr pages_size].
  destruct (Z.eqb_spec p 0) as [->|Hp]; cbn [negb].
  { exists 0, m', l'. done. }
  change (1 *% PAGE_SIZE) with PAGE_SIZE. rewrite (bind_some _ _ _ _ _ (zero_bytes_page p m')).
  assert (Hword : forall i, i ∈ seqZ 0 512 -> page_of p (p + 8 * i)).
  { intros i Hi%elem_of_seqZ. unfold page_of, PAGE_SIZE. lia. }
  destruct Hfr as [Hinv Hsh Hfrm Hhp Hpg Hcnt].
  exists p, (zero_words m' p (seqZ 0 512)), l'. split; [done|]. split; [split; try done|].
  - apply (heap_list_frame m'); [done|]. intros x Hx. apply zero_words_out.
    intros i Hi ->. by apply (proj2 (Hpg Hp _ (Hword i Hi))).
  - intros x Hx. rewrite zero_words_out; [by apply Hfrm|].
    intros i Hi ->. by apply Hx, (proj1 (Hpg Hp _ (Hword i Hi))).
  - intros _ i Hi. apply zero_words_in, elem_of_seqZ. lia.
Qed.

Lemma deallocPage_spec m l p :
  heap_list m l -> heap_page p -> (forall x, page_of p x -> ~ owned l x) ->
  exists m' l', free_page p m = Some (tt, m') /\ heap_list m' l' /\
    (forall x, owned l' x <-> owned l x \/ page_of p x) /\ free_pages l' = S (free_pages l) /\
    (forall x, ~ owned l' x -> m' !! x = m !! x).
Proof.
  intros [Hrep Hin] (Hp & Hpe & Hpm) Hno.
  pose proof (proj1 (total_nonneg 0 l (rep_wf _ _ _ Hrep))) as Htot. cbn [owned page_service] in *. unfold page_of in *.
  unfold PAGE_SIZE in *. pose proof (wf_pos _ _ _ (rep_wf _ _ _ Hrep)) as Hpos.
  destruct (dealloc_basic pages m l p 4096) as (m' & Hd & Hrep' & Hfr); try (done || lia).
  - eapply clear_disjoint; [apply Hrep|lia|]. intros x Hx Hc. apply (Hno x Hx). by right.
  - cbn [first_free page_allocator]. lia.
  - assert (Hcov : forall x, covers (ins p 4096 l) x <-> p <= x < p + 4096 \/ covers l x)
      by (intros; by apply ins_covers).
    exists m', (ins p 4096 l). split; [|split; [|split; [|split]]].
    + cbn [free_page page_service]. unfold deallocPage, deallocPages, PAGE_SIZE. cbn [ptr pages_size].
      rewrite (proj2 (Z.eqb_neq p 0)) by lia. cbn [negb andb Z.eqb].
      change (1 *% 4096) with 4096. unwrap. rewrite !bind_assert by lia. done.
    + split; [done|]. intros x [?|?]%Hcov; [lia|auto].
    + intros x. rewrite Hcov. tauto.
    + cbn [free_pages page_service]. rewrite total_ins. by apply free_count.
    + intros x Hx. apply Hfr; [intros ->; apply Hx; by left|].
      rewrite covers_cons. intros Hc. apply Hx. right. by apply Hcov.
Qed.

(** See [page_service_laws]. *)
Lemma heap_laws : PageLaws page_service.
Proof.
  split.
  - intros p (? & ? & ?). lia.
  - apply heap_list_frame.
  - intros m l Hl. destruct (allocPages_spec m l Hl) as (p & m' & l' & Ha & Hfr).
    exists p, m', l'. split; [|done]. cbn [alloc_page page_service]. unfold allocPage.
    by rewrite (bind_some _ _ _ _ _ Ha).
  - apply zallocPage_spec.
  - intros m l p. apply deallocPage_spec.
Qed.

(** the page allocator keeps the promises the page tables rely on:
    allocation returns [NULL] or a page of the heap that was free and no longer
    is, zeroed by [zallocPage]; freeing a page of the heap makes exactly its
    bytes free; neither touches a word that is not free. *)
Theorem page_service_laws : PageLaws page_service.
Proof. apply heap_laws. Qed.

End Instance.

Lemma page_service_laws_witness :
  PageLaws (page_service (fun _ _ _ => mret false) 0x10000 0x50000 16).
Proof. apply page_service_laws; lia. Defined.

End PageAlloc.
