(* ===== verification/Kalloc.v ===== *)
(** * Kalloc: [kernel/src/memory/kalloc.c]

    The kernel's heap.  Every allocation carries its size in the word before
    the pointer the caller gets.  [kalloc_lock] is held around every call into
    the allocator, so the calls are atomic here.  The release build is
    modelled: without [DEBUG], [AllocatedMemory] has the one field [size] and
    [findAllocatedMemoryFor] is pointer arithmetic. *)
From S2P Require Import Prelude Util Allocator PageAlloc.
Import Allocator PageAlloc.

Local Open Scope c_scope.

Module Kalloc.

(** ** Definitions *)

Definition KALLOC_MEM_ALIGN : Z := 8.
Definition KALLOC_MIN_FREE : Z := 32 * PAGE_SIZE.

(** [sizeof(AllocatedMemory)] and the size of [small_buffer]. *)
Definition sizeof_AllocatedMemory : Z := 8.
Definition small_buffer_size : Z := 1024 * 16.

(** [byte_allocator]: [first_free] is the address of its field, [small_buffer]
    and [page_allocator] are the other statics. *)
Definition byte_allocator (page_allocator : Allocator) (first_free small_buffer : Z) : Allocator :=
  mkAllocator KALLOC_MEM_ALIGN KALLOC_MIN_FREE (Some page_allocator) first_free
    small_buffer (small_buffer +% small_buffer_size).

Definition kallocActualSizeFor (user_size : Z) : Z :=
  Util.umax
    (Z.land ((user_size +% sizeof_AllocatedMemory +% KALLOC_MEM_ALIGN) -% 1) (u64 (- KALLOC_MEM_ALIGN)))
    MINIMUM_FREE.

Definition findAllocatedMemoryFor (ptr : Z) : Z := ptr -% sizeof_AllocatedMemory.

(** A pointer to the caller from the block at [res]. *)
Definition finish (res actual_size : Z) : M mem Z :=
  if negb (res =? 0) then
    store res actual_size;;
    mret (res +% sizeof_AllocatedMemory)
  else mret 0.

Definition kalloc (byte_allocator : Allocator) (size : Z) : M mem Z :=
  if size =? 0 then mret 0
  else
    let actual_size := kallocActualSizeFor size in
    res ← allocMemory byte_allocator actual_size;
    finish res actual_size.

Definition zalloc (byte_allocator : Allocator) (size : Z) : M mem Z :=
  mem ← kalloc byte_allocator size;
  (if negb (mem =? 0) then zero_bytes mem size else mret tt);;
  mret mem.

Definition dealloc (byte_allocator : Allocator) (ptr : Z) : M mem unit :=
  if negb (ptr =? 0) then
    let mem := findAllocatedMemoryFor ptr in
    size ← load mem;
    deallocMemory byte_allocator mem size
  else mret tt.

Definition krealloc (byte_allocator : Allocator) (ptr size : Z) : M mem Z :=
  if size =? 0 then dealloc byte_allocator ptr;; mret 0
  else if ptr =? 0 then kalloc byte_allocator size
  else
    let actual_size := kallocActualSizeFor size in
    let mem := findAllocatedMemoryFor ptr in
    old_size ← load mem;
    res ← reallocMemory byte_allocator mem old_size actual_size;
    finish res actual_size.

Definition kallocSize (ptr : Z) : M mem Z :=
  if ptr =? 0 then mret 0
  else load (findAllocatedMemoryFor ptr).

(** ** Lemmas *)

(** The block holds the header and the caller's bytes, is a whole number of
    blocks of the byte allocator and can become a node of the free list. *)
Lemma kallocActualSizeFor_spec size :
  0 <= size < 2 ^ 63 ->
  size + sizeof_AllocatedMemory <= kallocActualSizeFor size /\
  MINIMUM_FREE <= kallocActualSizeFor size < size + 24 /\
  kallocActualSizeFor size mod KALLOC_MEM_ALIGN = 0.
Proof.
  intros Hs. unfold kallocActualSizeFor, KALLOC_MEM_ALIGN, sizeof_AllocatedMemory, MINIMUM_FREE in *.
  unwrap. change (u64 (Z.opp 8)) with (u64 (- 2 ^ 3)). rewrite land_mask64 by lia.
  change (2 ^ 3) with 8. pose proof (Z.mod_pos_bound (size + 8 + 8 - 1) 8 ltac:(lia)).
  unfold Util.umax. rewrite Z.gtb_ltb.
  assert (Hm : (size + 8 + 8 - 1 - (size + 8 + 8 - 1) mod 8) mod 8 = 0).
  { rewrite Zminus_mod, Zmod_mod, Z.sub_diag. done. }
  destruct (Z.ltb_spec 16 (size + 8 + 8 - 1 - (size + 8 + 8 - 1) mod 8)); [lia|].
  split; [|split; [lia|done]]. Z.div_mod_to_equations. lia.
Qed.

(** ** Properties *)

(** C38: [kalloc] on any consistent heap returns.  A result other than [NULL] is
    8-aligned, the caller's bytes and the size word before them lie in memory
    that was free and no longer is, [kallocSize] gives the size of the block
    back, the heap stays consistent and no word outside the free memory and
    the list heads changes.  [NULL] is returned only when neither the byte
    allocator nor the page allocator has a block large enough, and leaves the
    heap as it was. *)
Theorem kalloc_correct alloc b m l lb size :
  backing_ok alloc b -> block_size alloc = KALLOC_MEM_ALIGN -> backed alloc b m l lb ->
  0 < size -> size + 2 * block_size b + 64 < 2 ^ 63 ->
  let actual := kallocActualSizeFor size in
  (exists p m' m1 l' lb', kalloc alloc size m = Some (p, m') /\
     allocated alloc b actual m m1 l lb l' lb' (p - 8) /\ m' = <[p - 8 := actual]> m1 /\
     backed alloc b m' l' lb' /\ p mod 8 = 0 /\
     (forall x, p - 8 <= x < p + size -> (covers l x \/ covers lb x) /\ ~ covers l' x /\ ~ covers lb' x) /\
     kallocSize p m' = Some (actual, m')) \/
  (kalloc alloc size m = Some (0, m) /\
   first_fit (block_size alloc) actual l = None /\
   first_fit (block_size b) (align_up (block_size b) actual) lb = None).
Proof.
  intros Hok Hal Hbk Hs Hov actual. pose proof (kallocActualSizeFor_spec size) as Hsz.
  fold actual in Hsz. pose proof (bo_bsb _ _ Hok) as Hb.
  unfold MINIMUM_FREE, sizeof_AllocatedMemory in *. destruct Hsz as (Hfit & Hmin & Hmod); [lia|].
  assert (Hkalloc : forall r m', allocMemory alloc actual m = Some (r, m') ->
    kalloc alloc size m = finish r actual m').
  { intros r m' H. unfold kalloc. rewrite (proj2 (Z.eqb_neq size 0)) by lia. fold actual.
    by rewrite (bind_some _ _ _ _ _ H). }
  destruct (allocMemory_ok alloc b m l lb actual) as [(q & m1 & l' & lb' & Hr & Hall)|(Hr & H1 & H2)];
    try (done || unfold MINIMUM_FREE; lia); [by rewrite Hal| |].
  - left. pose proof (fun x => allocated_bytes _ _ _ _ _ _ _ _ _ _ x Hbk Hall) as Hbytes.
    pose proof Hall as (Hbk' & Hq & Hqm & Hin & _). rewrite Hal in Hqm.
    destruct (Hbytes q ltac:(lia)) as (Hqa & Hqb & _).
    destruct (Hbytes (q + 15) ltac:(lia)) as (_ & _ & Hq64).
    exists (q + 8), (<[q := actual]> m1), m1, l', lb'.
    replace (q + 8 - 8) with q by lia.
    rewrite (Hkalloc _ _ Hr). unfold finish, sizeof_AllocatedMemory.
    rewrite (proj2 (Z.eqb_neq q 0)) by lia. cbn [negb]. rewrite bind_store. unwrap.
    split; [done|split; [done|split; [done|split; [|split; [|split]]]]].
    + destruct (Hin q ltac:(lia)) as (_ & ? & ?). by apply backed_store.
    + by apply mod_add_multiple.
    + intros x Hx. apply Hin. lia.
    + unfold kallocSize, findAllocatedMemoryFor, sizeof_AllocatedMemory.
      rewrite (proj2 (Z.eqb_neq (q + 8) 0)) by lia. unwrap. replace (q + 8 - 8) with q by lia.
      unfold load. by rewrite lookup_insert_eq.
  - right. by rewrite (Hkalloc _ _ Hr).
Qed.

Lemma kalloc_correct_witness :
  let actual := kallocActualSizeFor 100 in
  exists p m' m1 l' lb', kalloc demo_bytes 100 demo_mem = Some (p, m') /\
    allocated demo_bytes demo_pages actual demo_mem m1 [] [(0x10000, 0x40000)] l' lb' (p - 8) /\
    m' = <[p - 8 := actual]> m1 /\ backed demo_bytes demo_pages m' l' lb' /\ p mod 8 = 0 /\
    (forall x, p - 8 <= x < p + 100 ->
       (covers [] x \/ covers [(0x10000, 0x40000)] x) /\ ~ covers l' x /\ ~ covers lb' x) /\
    kallocSize p m' = Some (actual, m').
Proof.
  destruct (kalloc_correct demo_bytes demo_pages demo_mem [] [(0x10000, 0x40000)] 100)
    as [H|(_ & _ & H)]; [by split|done|exact demo_backed|done|done|exact H|].
  vm_compute in H. discriminate.
Defined.

End Kalloc.
