(* ===== verification/PageTable.v ===== *)
(** * PageTable: [kernel/src/memory/pagetable.c]

    The three-level Sv39 page tables.  A table is a page of 512 words in the
    kernel's physical memory, which is mapped one to one, so that a
    [PageTable*] or [PageTableEntry*] is an address of the memory [mem].  Pages
    come from the interface [PageService].

    An entry keeps its ten flag bits, the 44-bit page number and ten reserved
    bits.  Page numbers are below [2^44], so that [paddr << 12] does not depend
    on the type the compiler gives to the bit-field. *)
From S2P Require Import Prelude Allocator PageAlloc.
Import PageAlloc.

Local Open Scope c_scope.

Module PageTable.

(** ** Entries *)

Definition PAGE_ENTRY_VALID : Z := 0x1.
Definition PAGE_ENTRY_READ : Z := 0x2.
Definition PAGE_ENTRY_WRITE : Z := 0x4.
Definition PAGE_ENTRY_EXEC : Z := 0x8.
Definition PAGE_ENTRY_USER : Z := 0x10.
Definition PAGE_ENTRY_GLOBAL : Z := 0x20.
Definition PAGE_ENTRY_ACCESSED : Z := 0x40.
Definition PAGE_ENTRY_DIRTY : Z := 0x80.
Definition PAGE_ENTRY_COPY : Z := 0x100.
Definition PAGE_ENTRY_RW : Z := Z.lor PAGE_ENTRY_READ PAGE_ENTRY_WRITE.
Definition PAGE_ENTRY_RWX : Z := Z.lor PAGE_ENTRY_RW PAGE_ENTRY_EXEC.
Definition PAGE_ENTRY_AD : Z := Z.lor PAGE_ENTRY_ACCESSED PAGE_ENTRY_DIRTY.

Definition PAGE_TABLE_SIZE : Z := 512.

Definition entry_v (e : Z) : bool := Z.testbit e 0.
Definition entry_bits (e : Z) : Z := get_field 0 10 e.
Definition entry_paddr (e : Z) : Z := get_field 10 44 e.
Definition set_v (e : Z) (v : bool) : Z := set_field 0 1 e (Z.b2z v).
Definition set_bits (e bits : Z) : Z := set_field 0 10 e bits.
Definition set_paddr (e p : Z) : Z := set_field 10 44 e p.

(** [(entry->bits & mask) != 0] *)
Definition has_bits (e mask : Z) : bool := negb (Z.land (entry_bits e) mask =? 0).

(** The page an entry points to. *)
Definition entry_page (e : Z) : Z := u64 (Z.shiftl (entry_paddr e) 12).

(** [vpn[i]] and [&table->entries[idx]]. *)
Definition vpn (vaddr i : Z) : Z := Z.land (Z.shiftr vaddr (12 + 9 * i)) 0x1ff.
Definition slot (table idx : Z) : Z := table + 8 * idx.

(** ** Operations *)

Section Code.
Context `{PageService}.

Definition createPageTable : M mem Z :=
  page ← zalloc_page;
  massert (negb (page =? 0));;
  mret page.

(** The loop of [mapPage] over the [levels]. *)
Fixpoint map_walk (vaddr : Z) (levels : list Z) (entry : Z) : M mem Z :=
  match levels with
  | [] => mret entry
  | i :: levels' =>
      e ← load entry;
      e ← (if entry_v e then mret e
           else
             page ← createPageTable;
             let e := set_v (set_paddr 0 (Z.shiftr page 12)) true in
             store entry e;;
             mret e);
      massert (negb (has_bits e PAGE_ENTRY_RWX));;
      map_walk vaddr levels' (slot (entry_page e) (vpn vaddr i))
  end.

Definition mapPage (root vaddr paddr bits level : Z) : M mem Z :=
  massert (negb (Z.land bits 0xe =? 0));;
  entry ← map_walk vaddr (filter (fun i => level <= i) [1; 0]) (slot root (vpn vaddr 2));
  e ← load entry;
  massert (negb (entry_v e) || has_bits e PAGE_ENTRY_RWX);;
  let e := set_paddr e (Z.shiftr paddr 12) in
  let e := set_bits e bits in
  store entry (set_v e true);;
  mret entry.

(** [for (i = ...) f(i)] *)
Fixpoint for_each (levels : list Z) (f : Z -> M mem unit) : M mem unit :=
  match levels with
  | [] => mret tt
  | i :: levels' => f i;; for_each levels' f
  end.

Fixpoint any_valid (table : Z) (levels : list Z) : M mem bool :=
  match levels with
  | [] => mret false
  | i :: levels' =>
      e ← load (slot table i);
      if entry_v e then mret true else any_valid table levels'
  end.

Definition tryToFreeTable (table : Z) : M mem bool :=
  used ← any_valid table (seqZ 0 PAGE_TABLE_SIZE);
  if used : bool then mret false else free_page table;; mret true.

(** The loop over [j] of [unmapPage]: the tables on the path, the lowest
    first, each with the entry that points to it. *)
Fixpoint free_path (path : list (Z * Z)) : M mem unit :=
  match path with
  | [] => mret tt
  | (table, parent) :: path' =>
      freed ← tryToFreeTable table;
      if freed : bool then store parent 0;; free_path path' else mret tt
  end.

Fixpoint unmap_walk (vaddr : Z) (levels : list Z) (table : Z) (path : list (Z * Z)) : M mem unit :=
  match levels with
  | [] => mret tt
  | i :: levels' =>
      let entry := slot table (vpn vaddr i) in
      e ← load entry;
      if entry_v e then
        if negb (has_bits e PAGE_ENTRY_RWX) then
          massert (negb (i =? 0));;
          unmap_walk vaddr levels' (entry_page e) ((entry_page e, entry) :: path)
        else store entry 0;; free_path path
      else mret tt
  end.

Definition unmapPage (root vaddr : Z) : M mem unit := unmap_walk vaddr [2; 1; 0] root [].

(** [NULL] is 0. *)
Fixpoint virt_walk (vaddr : Z) (levels : list Z) (table : Z) : M mem Z :=
  match levels with
  | [] => mret 0
  | i :: levels' =>
      massert (negb (table =? 0));;
      let entry := slot table (vpn vaddr i) in
      e ← load entry;
      if entry_v e then
        if negb (has_bits e PAGE_ENTRY_RWX) then
          massert (negb (i =? 0));;
          virt_walk vaddr levels' (entry_page e)
        else mret entry
      else mret 0
  end.

Definition virtToEntry (root vaddr : Z) : M mem Z := virt_walk vaddr [2; 1; 0] root.

Fixpoint phys_walk (vaddr : Z) (levels : list Z) (table : Z) : M mem Z :=
  match levels with
  | [] => mret 0
  | i :: levels' =>
      e ← load (slot table (vpn vaddr i));
      if entry_v e then
        if negb (has_bits e PAGE_ENTRY_RWX) then
          massert (negb (i =? 0));;
          phys_walk vaddr levels' (entry_page e)
        else
          let mask := Z.shiftl PAGE_SIZE (9 * i) - 1 in
          let offset := Z.land vaddr mask in
          mret (Z.lor (Z.ldiff (entry_page e) mask) offset)
      else mret 0
  end.

Definition unsafeVirtToPhys (root vaddr : Z) : M mem Z := phys_walk vaddr [2; 1; 0] root.

(** The callback gets the address of the entry. *)
Definition allPagesDo (root : Z) (callback : Z -> Z -> M mem unit) : M mem unit :=
  for_each (seqZ 0 PAGE_TABLE_SIZE) (fun i =>
    let entry_lv2 := slot root i in
    e2 ← load entry_lv2;
    if entry_v e2 then
      if negb (has_bits e2 PAGE_ENTRY_RWX) then
        for_each (seqZ 0 PAGE_TABLE_SIZE) (fun j =>
          let entry_lv1 := slot (entry_page e2) j in
          e1 ← load entry_lv1;
          if entry_v e1 then
            if negb (has_bits e1 PAGE_ENTRY_RWX) then
              for_each (seqZ 0 PAGE_TABLE_SIZE) (fun k =>
                let entry_lv0 := slot (entry_page e1) k in
                e0 ← load entry_lv0;
                if entry_v e0 then
                  massert (has_bits e0 PAGE_ENTRY_RWX);;
                  callback entry_lv0
                    (Z.lor (Z.lor (Z.shiftl i 30) (Z.shiftl j 21)) (Z.shiftl k 12))
                else mret tt)
            else callback entry_lv1 (Z.lor (Z.shiftl i 30) (Z.shiftl j 21))
          else mret tt)
      else callback entry_lv2 (Z.shiftl i 30)
    else mret tt).

Definition unmapAllPages (root : Z) : M mem unit :=
  for_each (seqZ 0 PAGE_TABLE_SIZE) (fun i =>
    let entry_lv2 := slot root i in
    e2 ← load entry_lv2;
    (if entry_v e2 && negb (has_bits e2 PAGE_ENTRY_RWX) then
       let table_lv1 := entry_page e2 in
       for_each (seqZ 0 PAGE_TABLE_SIZE) (fun j =>
         e1 ← load (slot table_lv1 j);
         if entry_v e1 && negb (has_bits e1 PAGE_ENTRY_RWX) then free_page (entry_page e1)
         else mret tt);;
       free_page table_lv1
     else mret tt);;
    store entry_lv2 0).

Definition freePageTable (table : Z) : M mem unit :=
  if negb (table =? 0) then unmapAllPages table;; free_page table else mret tt.

Definition level_size (level : Z) : Z := Z.shiftl PAGE_SIZE (9 * level).

Fixpoint range_loop (fuel : nat) (root from_vaddr paddr bits level len i : Z) : M mem unit :=
  match fuel with
  | O => fault
  | S fuel' =>
      if i <? len then
        mapPage root (from_vaddr +% i) paddr bits level;;
        range_loop fuel' root from_vaddr (paddr +% level_size level) bits level len
          (i +% level_size level)
      else mret tt
  end.

Definition mapPageRangeAtLevel (root from_vaddr to_vaddr paddr bits level : Z) : M mem unit :=
  let len := to_vaddr -% from_vaddr in
  range_loop (S (S (Z.to_nat (len / level_size level)))) root from_vaddr paddr bits level len 0.

Fixpoint tryMapingRangeAtLevel (level : nat) (root from_vaddr to_vaddr paddr bits : Z) : M mem unit :=
  if negb (from_vaddr =? to_vaddr) then
    match level with
    | O => mapPageRangeAtLevel root from_vaddr to_vaddr paddr bits 0
    | S below =>
        let size := level_size (Z.of_nat level) in
        let start := Z.land ((from_vaddr +% size) -% 1) (u64 (- size)) in
        let last := Z.land to_vaddr (u64 (- size)) in
        if (start <? last) && (last -% start >? size) then
          tryMapingRangeAtLevel below root from_vaddr start paddr bits;;
          mapPageRangeAtLevel root start last (paddr +% (start -% from_vaddr)) bits (Z.of_nat level);;
          tryMapingRangeAtLevel below root last to_vaddr (paddr +% (last -% from_vaddr)) bits
        else tryMapingRangeAtLevel below root from_vaddr to_vaddr paddr bits
    end
  else mret tt.

Definition mapPageRange (root from_vaddr to_vaddr paddr bits : Z) : M mem unit :=
  let start := Z.land from_vaddr (u64 (- PAGE_SIZE)) in
  let last := Z.land ((to_vaddr +% PAGE_SIZE) -% 1) (u64 (- PAGE_SIZE)) in
  tryMapingRangeAtLevel 2 root start last paddr bits.

Fixpoint unmap_loop (fuel : nat) (root to i : Z) : M mem unit :=
  match fuel with
  | O => fault
  | S fuel' => if i <? to then unmapPage root i;; unmap_loop fuel' root to (i +% PAGE_SIZE) else mret tt
  end.

Definition unmapPageRange (root from to : Z) : M mem unit :=
  unmap_loop (S (S (Z.to_nat ((to - from) / PAGE_SIZE)))) root to from.

End Code.

(** ** Lemmas on entries *)

Lemma entry_v_set_v e b : entry_v (set_v e b) = b.
Proof.
  unfold entry_v, set_v. rewrite testbit_set_field by lia. by destruct b.
Qed.

Lemma has_bits_set_v e b mask : Z.testbit mask 0 = false -> has_bits (set_v e b) mask = has_bits e mask.
Proof.
  intros Hm. unfold has_bits, entry_bits, set_v. do 2 f_equal. apply Z.bits_inj'. intros i Hi.
  rewrite !Z.land_spec, !testbit_get_field, testbit_set_field by lia.
  destruct (Z.eq_dec i 0) as [->|]; [by rewrite Hm, !andb_false_r|].
  rewrite (proj2 (Z.ltb_ge (0 + i) (0 + 1))) by lia. by rewrite andb_false_r.
Qed.

Lemma entry_paddr_set_v e b : entry_paddr (set_v e b) = entry_paddr e.
Proof. unfold entry_paddr, set_v. apply get_set_other; lia. Qed.

Lemma entry_paddr_set_bits e b : entry_paddr (set_bits e b) = entry_paddr e.
Proof. unfold entry_paddr, set_bits. apply get_set_other; lia. Qed.

(** The page number round trip, for pages below [2^56]. *)
Lemma entry_page_set_paddr e p :
  0 <= p < 2 ^ 56 ->
  u64 (Z.shiftl (entry_paddr (set_paddr e (Z.shiftr p 12))) 12) = align_down 4096 p.
Proof.
  intros Hp. unfold entry_paddr, set_paddr, align_down. rewrite get_set_same by lia.
  rewrite Z.land_ones, Z.shiftr_div_pow2, Z.shiftl_mul_pow2 by lia. change (2 ^ 12) with 4096.
  rewrite (Z.mod_small (p / 4096)) by (Z.div_mod_to_equations; lia).
  rewrite wrap_small by (Z.div_mod_to_equations; lia). Z.div_mod_to_equations. lia.
Qed.

(** The entry [mapPage] makes for a new table. *)
Definition table_entry (p : Z) : Z := set_v (set_paddr 0 (Z.shiftr p 12)) true.

Lemma table_entry_spec p :
  0 <= p < 2 ^ 56 -> p mod 4096 = 0 ->
  entry_v (table_entry p) = true /\ has_bits (table_entry p) PAGE_ENTRY_RWX = false /\
  entry_page (table_entry p) = p.
Proof.
  intros Hp Hm. unfold table_entry. split; [apply entry_v_set_v|split].
  - rewrite has_bits_set_v by done. unfold has_bits, entry_bits, set_paddr.
    by rewrite get_set_other by lia.
  - unfold entry_page. rewrite entry_paddr_set_v, entry_page_set_paddr, align_down_id by (done || lia).
    done.
Qed.

Definition leaf_entry (e paddr bits : Z) : Z :=
  set_v (set_bits (set_paddr e (Z.shiftr paddr 12)) bits) true.

Lemma leaf_entry_spec e paddr bits :
  0 <= paddr < 2 ^ 56 -> Z.land bits 0xe <> 0 ->
  entry_v (leaf_entry e paddr bits) = true /\
  has_bits (leaf_entry e paddr bits) PAGE_ENTRY_RWX = true /\
  entry_page (leaf_entry e paddr bits) = align_down 4096 paddr /\
  forall mask, 0 <= mask < 2 ^ 10 -> Z.testbit mask 0 = false ->
    has_bits (leaf_entry e paddr bits) mask = negb (Z.land bits mask =? 0).
Proof.
  intros Hp Hb. unfold leaf_entry.
  assert (Hmask : forall mask, 0 <= mask < 2 ^ 10 -> Z.testbit mask 0 = false ->
    has_bits (set_v (set_bits (set_paddr e (Z.shiftr paddr 12)) bits) true) mask
    = negb (Z.land bits mask =? 0)).
  { intros mask Hm H0. rewrite has_bits_set_v by done. unfold has_bits, entry_bits, set_bits.
    rewrite get_set_same, <- Z.land_assoc, (Z.land_comm (Z.ones 10)), Z.land_ones, Z.mod_small by lia.
    done. }
  split; [apply entry_v_set_v|split; [|split; [|done]]].
  - rewrite Hmask by done. change PAGE_ENTRY_RWX with 0xe. by rewrite (proj2 (Z.eqb_neq _ _)) by done.
  - unfold entry_page. rewrite entry_paddr_set_v, entry_paddr_set_bits. by apply entry_page_set_paddr.
Qed.

Lemma vpn_range va i : 0 <= vpn va i < 512.
Proof. unfold vpn. change 0x1ff with (Z.ones 9). rewrite Z.land_ones by lia. by apply Z.mod_pos_bound. Qed.

Lemma slot_inj t i s j :
  t mod 4096 = 0 -> s mod 4096 = 0 -> 0 <= i < 512 -> 0 <= j < 512 ->
  slot t i = slot s j -> t = s /\ i = j.
Proof. unfold slot. intros. Z.div_mod_to_equations. lia. Qed.

(** ** The tree of tables *)

Definition branch (e : Z) : bool := entry_v e && negb (has_bits e PAGE_ENTRY_RWX).

(** The leaf entry for [va] below the table [t] of level [n], with its level. *)
Fixpoint lookup_pt (m : mem) (n : nat) (t va : Z) : option (Z * nat) :=
  let s := slot t (vpn va (Z.of_nat n)) in
  e ← m !! s;
  if entry_v e then
    if has_bits e PAGE_ENTRY_RWX then Some (s, n)
    else match n with O => None | S n' => lookup_pt m n' (entry_page e) va end
  else None.

(** The entry of level [k] on the way to [va]. *)
Fixpoint slot_at (m : mem) (n : nat) (t va : Z) (k : nat) : option Z :=
  let s := slot t (vpn va (Z.of_nat n)) in
  if decide (n = k) then Some s
  else
    e ← m !! s;
    if branch e then match n with O => None | S n' => slot_at m n' (entry_page e) va k end
    else None.

(** No mapping of another size is in the way of one at level [k]. *)
Fixpoint mappable (m : mem) (n : nat) (t va : Z) (k : nat) : Prop :=
  match m !! slot t (vpn va (Z.of_nat n)) with
  | Some e =>
      if decide (n = k) then branch e = false
      else entry_v e = true ->
           branch e = true /\ match n with O => False | S n' => mappable m n' (entry_page e) va k end
  | None => False
  end.

(** A walk never comes to a level above the one it starts on. *)
Lemma slot_above m n t va k s : (n < k)%nat -> slot_at m n t va k <> Some s.
Proof.
  revert t. induction n as [|n IH]; intros t Hk; cbn [slot_at]; rewrite decide_False by lia;
    (destruct (m !! _) as [e|]; cbn [mbind option_bind]; [|done]); destruct (branch e); try done.
  apply IH. lia.
Qed.

Section Tree.
Context `{S : PageService} `{!PageLaws S}.

(** [T] gives every table of the tree its level.  The tables are pages that
    the allocator does not own, no two entries point to the same one, and a
    branch leads one level down. *)
Record tree (m : mem) (T : gmap Z nat) (g : ghost) : Prop := {
  tr_inv : page_inv m g;
  tr_page : forall t n, T !! t = Some n -> heap_page t;
  tr_free : forall t n x, T !! t = Some n -> page_of t x -> ~ owned g x;
  tr_entry : forall t n i, T !! t = Some n -> 0 <= i < 512 ->
    exists e, m !! slot t i = Some e /\
      (branch e = true -> exists n', n = Datatypes.S n' /\ T !! entry_page e = Some n');
  tr_unique : forall t n i e s k j e', T !! t = Some n -> T !! s = Some k ->
    0 <= i < 512 -> 0 <= j < 512 -> m !! slot t i = Some e -> m !! slot s j = Some e' ->
    branch e = true -> branch e' = true -> entry_page e = entry_page e' -> t = s /\ i = j;
}.

Lemma table_slot m T g t n i :
  tree m T g -> T !! t = Some n -> 0 <= i < 512 ->
  page_of t (slot t i) /\ ~ owned g (slot t i) /\ t mod 4096 = 0.
Proof.
  intros Htr Ht Hi. assert (Hp : page_of t (slot t i)) by (unfold page_of, slot, PAGE_SIZE; lia).
  split; [done|split; [by eapply tr_free|]]. by apply heap_page_range, (tr_page _ _ _ Htr t n).
Qed.

Lemma slot_eq m T g t n i s k j :
  tree m T g -> T !! t = Some n -> T !! s = Some k -> 0 <= i < 512 -> 0 <= j < 512 ->
  slot t i = slot s j -> t = s /\ i = j.
Proof.
  intros Htr Ht Hs Hi Hj. apply slot_inj; try done.
  - by apply (table_slot m T g t n i).
  - by apply (table_slot m T g s k j).
Qed.

(** A leaf entry determines the way to it. *)
Lemma slot_at_inj m T g n t t' va va' k s :
  tree m T g -> T !! t = Some n -> T !! t' = Some n ->
  slot_at m n t va k = Some s -> slot_at m n t' va' k = Some s ->
  t = t' /\ forall i, (k <= i <= n)%nat -> vpn va (Z.of_nat i) = vpn va' (Z.of_nat i).
Proof.
  intros Htr. revert t t'. induction n as [|n IH]; intros t t' Ht Ht' Hs Hs'; cbn [slot_at] in *.
  - destruct (decide (0%nat = k)) as [<-|]; [|destruct (m !! _) as [e|]; cbn in Hs; [destruct (branch e)|]; done].
    injection Hs as Hs. injection Hs' as Hs'. rewrite <- Hs' in Hs.
    eapply slot_eq in Hs as [-> E]; try done; try apply vpn_range.
    split; [done|]. intros i Hi. by replace i with 0%nat by lia.
  - destruct (decide (Datatypes.S n = k)) as [<-|Hne].
    { injection Hs as Hs. injection Hs' as Hs'. rewrite <- Hs' in Hs.
      eapply slot_eq in Hs as [-> E]; try done; try apply vpn_range.
      split; [done|]. intros i Hi. by replace i with (Datatypes.S n) by lia. }
    destruct (m !! slot t _) as [e|] eqn:He; [|done]. destruct (m !! slot t' _) as [e'|] eqn:He'; [|done].
    cbn [mbind option_bind] in Hs, Hs'. destruct (branch e) eqn:Hb; [|done]. destruct (branch e') eqn:Hb'; [|done].
    destruct (tr_entry _ _ _ Htr t _ (vpn va (Z.of_nat (Datatypes.S n))) Ht) as (e0 & He0 & Hn); [apply vpn_range|].
    destruct (tr_entry _ _ _ Htr t' _ (vpn va' (Z.of_nat (Datatypes.S n))) Ht') as (e0' & He0' & Hn'); [apply vpn_range|].
    simplify_eq. destruct (Hn Hb) as (? & [= <-] & Hp). destruct (Hn' Hb') as (? & [= <-] & Hp').
    destruct (IH _ _ Hp Hp' Hs Hs') as (Heq & Hlow).
    destruct (tr_unique _ _ _ Htr t _ _ e t' _ _ e' Ht Ht' (vpn_range _ _) (vpn_range _ _) He He' Hb Hb' Heq)
      as [-> Hv].
    split; [done|]. intros i Hi. destruct (decide (i = Datatypes.S n)) as [->|]; [done|]. apply Hlow. lia.
Qed.

(** The words that neither the tables nor the allocator hold. *)
Definition untouched (T : gmap Z nat) (g : ghost) (m m' : mem) : Prop :=
  forall x, ~ owned g x -> (forall t n, T !! t = Some n -> ~ page_of t x) -> m' !! x = m !! x.

(** [m'] extends the tree [T] of [m] by empty tables. *)
Record extends (m m' : mem) (T T' : gmap Z nat) (g g' : ghost) : Prop := {
  ex_sub : T ⊆ T';
  ex_tree : tree m' T' g';
  ex_owned : forall x, owned g' x -> owned g x;
  ex_lookup : forall t n va, T !! t = Some n -> lookup_pt m' n t va = lookup_pt m n t va;
  ex_valid : forall t n i e, T !! t = Some n -> 0 <= i < 512 ->
    m !! slot t i = Some e -> entry_v e = true -> m' !! slot t i = Some e;
  ex_new : forall t n x, T' !! t = Some n -> page_of t x -> T !! t = Some n \/ owned g x;
  ex_frame : untouched T g m m';
}.

Lemma extends_refl m T g : tree m T g -> extends m m T T g g.
Proof. intros. split; auto. done. Qed.

Lemma new_page_table m m1 T g g1 p x :
  tree m T g -> fresh_page p g g1 m m1 -> p <> 0 -> page_of p x ->
  T !! p = None /\ forall t n, T !! t = Some n -> ~ page_of t x.
Proof.
  intros Htr Hfr Hp Hx.
  assert (Hno : forall t n y, T !! t = Some n -> page_of t y -> page_of p y -> False).
  { intros t n y Ht Hty Hpy. apply (tr_free _ _ _ Htr t n y Ht Hty). by eapply fr_page. }
  split; [|intros t n Ht Hty; by eapply Hno].
  destruct (T !! p) as [n|] eqn:E; [|done]. exfalso.
  apply (Hno p n p E); unfold page_of, PAGE_SIZE; lia.
Qed.

Lemma lookup_zero m n t va :
  m !! slot t (vpn va (Z.of_nat n)) = Some 0 -> lookup_pt m n t va = None.
Proof. intros H. destruct n; cbn [lookup_pt]; by rewrite H. Qed.

Section AddTable.
Context (m m1 : mem) (T : gmap Z nat) (g g1 : ghost) (t idx p e : Z) (n : nat).
Context (Htr : tree m T g) (Hfr : fresh_page p g g1 m m1) (Hp : p <> 0).
Context (Hzero : forall i, 0 <= i < 512 -> m1 !! (p + 8 * i) = Some 0).
Context (Ht : T !! t = Some (Datatypes.S n)) (Hidx : 0 <= idx < 512).
Context (He : m !! slot t idx = Some e) (Hv : entry_v e = false).

Local Abbreviation m2 := (<[slot t idx := table_entry p]> m1).
Local Abbreviation T2 := (<[p := n]> T).

Lemma add_old s k j :
  T !! s = Some k -> 0 <= j < 512 -> slot s j <> slot t idx -> m2 !! slot s j = m !! slot s j.
Proof.
  intros Hs Hj Hne. rewrite lookup_insert_ne by done. apply (fr_frame _ _ _ _ _ Hfr).
  by apply (table_slot m T g s k j).
Qed.

Lemma add_new j : 0 <= j < 512 -> m2 !! slot p j = Some 0.
Proof.
  intros Hj. rewrite lookup_insert_ne; [by apply Hzero|]. intros E.
  assert (Hpj : page_of p (slot p j)) by (unfold page_of, slot, PAGE_SIZE; lia).
  destruct (new_page_table m m1 T g g1 p (slot p j) Htr Hfr Hp Hpj) as [_ Hno].
  apply (Hno t _ Ht). rewrite <- E. by apply (table_slot m T g t (Datatypes.S n) idx).
Qed.

Lemma add_fresh : T !! p = None /\ p <> t.
Proof.
  destruct (new_page_table m m1 T g g1 p p Htr Hfr Hp) as [Hn _].
  { unfold page_of, PAGE_SIZE. lia. }
  split; [done|]. intros ->. congruence.
Qed.

Lemma add_entry : entry_v (table_entry p) = true /\ branch (table_entry p) = true /\
  entry_page (table_entry p) = p.
Proof.
  pose proof (heap_page_range _ (fr_heap _ _ _ _ _ Hfr Hp)) as (? & ? & Hm). unfold PAGE_SIZE in *.
  destruct (table_entry_spec p) as (H1 & H2 & H3); [lia|done|]. unfold branch. by rewrite H1, H2.
Qed.

(** What the words of the tables hold afterwards. *)
Lemma add_slot s k j e0 :
  T2 !! s = Some k -> 0 <= j < 512 -> m2 !! slot s j = Some e0 -> branch e0 = true ->
  T !! s = Some k /\
  ((s = t /\ j = idx /\ e0 = table_entry p) \/ (slot s j <> slot t idx /\ m !! slot s j = Some e0)).
Proof.
  intros Hs Hj He0 Hb. destruct (decide (s = p)) as [->|Hne].
  { rewrite add_new in He0 by done. injection He0 as <-. done. }
  rewrite lookup_insert_ne in Hs by done. split; [done|].
  destruct (decide (slot s j = slot t idx)) as [E|E].
  - left. destruct (slot_eq m T g s k j t _ idx Htr Hs Ht Hj Hidx E) as [-> ->].
    rewrite lookup_insert_eq in He0. by injection He0.
  - right. by rewrite (add_old s k j) in He0.
Qed.

Lemma add_tree : tree m2 T2 g1.
Proof.
  destruct add_fresh as [HpT Hpt], add_entry as (Hev & Heb & Hep). split.
  - apply (page_inv_frame m1); [apply Hfr|]. intros x Hx. rewrite lookup_insert_ne; [done|].
    intros <-. apply (fr_shrink _ _ _ _ _ Hfr) in Hx.
    by apply (table_slot m T g t (Datatypes.S n) idx).
  - intros s k Hs. destruct (decide (s = p)) as [->|Hne]; [by apply Hfr|].
    rewrite lookup_insert_ne in Hs by done. by eapply tr_page.
  - intros s k x Hs Hx Ho. destruct (decide (s = p)) as [->|Hne].
    { by apply (fr_page _ _ _ _ _ Hfr Hp x Hx). }
    rewrite lookup_insert_ne in Hs by done. apply (fr_shrink _ _ _ _ _ Hfr) in Ho.
    by eapply (tr_free _ _ _ Htr).
  - intros s k i Hs Hi. destruct (decide (s = p)) as [->|Hne].
    { exists 0. by rewrite add_new. }
    rewrite lookup_insert_ne in Hs by done. destruct (decide (slot s i = slot t idx)) as [E|E].
    + exists (table_entry p). rewrite E, lookup_insert_eq. split; [done|]. intros _.
      destruct (slot_eq m T g s k i t _ idx Htr Hs Ht Hi Hidx E) as [-> ->].
      exists n. rewrite Hep, lookup_insert_eq. split; [congruence|done].
    + rewrite (add_old s k i) by done. destruct (tr_entry _ _ _ Htr s k i Hs Hi) as (e0 & He0 & Hn).
      exists e0. split; [done|]. intros Hb. destruct (Hn Hb) as (n' & -> & Hn'). exists n'.
      split; [done|]. rewrite lookup_insert_ne; [done|]. congruence.
  - intros s k i e1 s' k' i' e2 Hs Hs' Hi Hi' He1 He2 Hb1 Hb2 Heq.
    destruct (add_slot s k i e1 Hs Hi He1 Hb1) as (Hs0 & [(-> & -> & ->)|(_ & Ho1)]);
    destruct (add_slot s' k' i' e2 Hs' Hi' He2 Hb2) as (Hs0' & [(-> & -> & ->)|(_ & Ho2)]); try done.
    + destruct (tr_entry _ _ _ Htr s' k' i' Hs0' Hi') as (e0 & He0 & Hn).
      simplify_eq. destruct (Hn Hb2) as (n' & _ & Hn'). congruence.
    + destruct (tr_entry _ _ _ Htr s k i Hs0 Hi) as (e0 & He0 & Hn).
      simplify_eq. destruct (Hn Hb1) as (n' & _ & Hn'). congruence.
    + by eapply (tr_unique _ _ _ Htr).
Qed.

Lemma add_case s k va :
  T !! s = Some k ->
  (s = t /\ k = Datatypes.S n /\ slot s (vpn va (Z.of_nat k)) = slot t idx) \/
  m2 !! slot s (vpn va (Z.of_nat k)) = m !! slot s (vpn va (Z.of_nat k)).
Proof.
  intros Hs. pose proof (vpn_range va (Z.of_nat k)) as Hr.
  destruct (decide (slot s (vpn va (Z.of_nat k)) = slot t idx)) as [E|E].
  - left. destruct (slot_eq m T g s k _ t _ idx Htr Hs Ht Hr Hidx E) as [-> _].
    split; [done|split; [congruence|done]].
  - right. by apply (add_old s k).
Qed.

Lemma add_lookup s k va : T !! s = Some k -> lookup_pt m2 k s va = lookup_pt m k s va.
Proof.
  destruct add_fresh as [HpT Hpt], add_entry as (Hev & Heb & Hep).
  revert s. induction k as [|k IH]; intros s Hs;
    destruct (add_case s _ va Hs) as [(-> & Hk & E)|E]; try lia; cbn [lookup_pt]; rewrite E; [done| |].
  - injection Hk as ->. rewrite lookup_insert_eq, He. cbn [mbind option_bind]. rewrite Hv, Hev, Hep.
    unfold branch in Heb. rewrite Hev in Heb. cbn [andb] in Heb. apply negb_true_iff in Heb. rewrite Heb.
    apply lookup_zero, add_new, vpn_range.
  - destruct (tr_entry _ _ _ Htr s _ _ Hs (vpn_range va (Z.of_nat (Datatypes.S k)))) as (e0 & He0 & Hn).
    rewrite He0. cbn [mbind option_bind]. destruct (entry_v e0) eqn:Hv0; [|done].
    destruct (has_bits e0 PAGE_ENTRY_RWX) eqn:Hb0; [done|].
    destruct Hn as (n' & [= <-] & Hn'); [unfold branch; by rewrite Hv0, Hb0|]. by apply IH.
Qed.

Lemma add_extends : extends m m2 T T2 g g1.
Proof.
  destruct add_fresh as [HpT Hpt]. split.
  - by apply insert_subseteq.
  - apply add_tree.
  - apply Hfr.
  - intros. by apply add_lookup.
  - intros s k i e0 Hs Hi He0 Hv0. rewrite (add_old s k i); try done. intros E.
    rewrite E, He in He0. congruence.
  - intros s k x Hs Hx. destruct (decide (s = p)) as [->|Hne].
    + right. by apply (fr_page _ _ _ _ _ Hfr Hp x Hx).
    + left. by rewrite lookup_insert_ne in Hs.
  - intros x Hx Htx. rewrite lookup_insert_ne; [by apply Hfr|]. intros <-.
    by apply (Htx t _ Ht), (table_slot m T g t (Datatypes.S n) idx).
Qed.

End AddTable.

Lemma extends_trans m1 m2 m3 T1 T2 T3 g1 g2 g3 :
  extends m1 m2 T1 T2 g1 g2 -> extends m2 m3 T2 T3 g2 g3 -> extends m1 m3 T1 T3 g1 g3.
Proof.
  intros [Hs1 Ht1 Ho1 Hl1 Hv1 Hn1 Hf1] [Hs2 Ht2 Ho2 Hl2 Hv2 Hn2 Hf2].
  assert (Hin : forall t n, T1 !! t = Some n -> T2 !! t = Some n)
    by (intros; by eapply lookup_weaken).
  split; auto.
  - by etrans.
  - intros t n va Ht. rewrite Hl2, Hl1; auto.
  - intros t n j e Ht Hj He Hv. eapply Hv2; eauto.
  - intros t n x Ht Hx. destruct (Hn2 t n x Ht Hx) as [?|?]; [eauto|auto].
  - intros x Hx Htx. rewrite Hf2, Hf1; auto. intros t n Ht Hp.
    destruct (Hn1 t n x Ht Hp) as [Ht'|?]; [by apply (Htx t n)|done].
Qed.

(** The levels of a walk from [n] exclusive down to [k]. *)
Fixpoint down (n k : nat) : list Z :=
  match n with
  | O => []
  | Datatypes.S n' => if decide (k <= n')%nat then Z.of_nat n' :: down n' k else []
  end.

(** The result of the loop of [mapPage] that starts in table [t]. *)
Definition walked (va : Z) (n k : nat) (t : Z) (m : mem) (T : gmap Z nat) (g : ghost) : Prop :=
  exists ent e m' T' g' tk,
    map_walk va (down n k) (slot t (vpn va (Z.of_nat n))) m = Some (ent, m') /\
    extends m m' T T' g g' /\ (free_pages g <= free_pages g' + (n - k))%nat /\ slot_at m' n t va k = Some ent /\ T' !! tk = Some k /\
    ent = slot tk (vpn va (Z.of_nat k)) /\ m' !! ent = Some e /\ branch e = false.

Lemma walked_here va n t m T g :
  tree m T g -> T !! t = Some n -> mappable m n t va n -> walked va n n t m T g.
Proof.
  intros Htr Ht Hm. destruct (tr_entry _ _ _ Htr t n _ Ht (vpn_range va (Z.of_nat n))) as (e & He & _).
  exists (slot t (vpn va (Z.of_nat n))), e, m, T, g, t. split.
  { destruct n; cbn [down]; [done|]. by rewrite decide_False by lia. }
  split; [by apply extends_refl|]. split; [lia|]. split; [destruct n; cbn [slot_at]; by rewrite decide_True|].
  split; [done|split; [done|split; [done|]]].
  destruct n; cbn [mappable] in Hm; rewrite He, decide_True in Hm by done; done.
Qed.

(** A step down through a branch. *)
Lemma walked_step va n k t m m' T T' g g' e :
  (k <= n)%nat -> extends m m' T T' g g' -> (free_pages g <= free_pages g' + 1)%nat -> m' !! slot t (vpn va (Z.of_nat (Datatypes.S n))) = Some e ->
  T' !! t = Some (Datatypes.S n) ->
  branch e = true -> walked va n k (entry_page e) m' T' g' ->
  (forall B (c : Z -> M mem B), (e ← load (slot t (vpn va (Z.of_nat (Datatypes.S n))));
     e ← (if entry_v e then mret e
           else page ← createPageTable;
                let e := set_v (set_paddr 0 (Z.shiftr page 12)) true in
                store (slot t (vpn va (Z.of_nat (Datatypes.S n)))) e;; mret e);
     c e) m = c e m') ->
  walked va (Datatypes.S n) k t m T g.
Proof.
  intros Hk Hex Hcnt He Ht Hb (ent & e1 & m2 & T2 & g2 & tk & Hw & Hex2 & Hcnt2 & Hs & Htk & Hent & He1 & Hb1) Hrun.
  exists ent, e1, m2, T2, g2, tk. unfold branch in Hb. apply andb_true_iff in Hb as [Hv Hbits].
  split; [|split; [by eapply extends_trans|split; [lia|split; [|done]]]].
  - cbn [down]. rewrite decide_True by lia. cbn [map_walk]. rewrite Hrun, Hbits.
    by rewrite bind_assert.
  - cbn [slot_at]. rewrite decide_False by lia.
    rewrite (ex_valid _ _ _ _ _ _ Hex2 t _ _ e Ht (vpn_range _ _) He Hv). cbn [mbind option_bind].
    unfold branch. by rewrite Hv, Hbits.
Qed.

Lemma map_walk_spec va n k t m T g :
  tree m T g -> T !! t = Some n -> (k <= n)%nat -> mappable m n t va k ->
  (n - k <= free_pages g)%nat -> walked va n k t m T g.
Proof.
  revert t m T g. induction n as [|n IH]; intros t m T g Htr Ht Hk Hmap Hfree.
  { replace k with 0%nat in * by lia. by apply walked_here. }
  destruct (decide (Datatypes.S n = k)) as [<-|Hne]; [by apply walked_here|].
  cbn [mappable] in Hmap.
  destruct (m !! slot t (vpn va (Z.of_nat (Datatypes.S n)))) as [e|] eqn:He; [|done].
  rewrite decide_False in Hmap by done.
  destruct (entry_v e) eqn:Hv.
  - destruct (Hmap eq_refl) as (Hb & Hmap').
    destruct (tr_entry _ _ _ Htr t _ _ Ht (vpn_range va (Z.of_nat (Datatypes.S n)))) as (e0 & He0 & Hn).
    simplify_eq. destruct (Hn Hb) as (n' & [= <-] & Hn').
    eapply walked_step; eauto; [lia|by apply extends_refl|lia|apply IH; done || lia|].
    intros B c. erewrite bind_load by done. by rewrite Hv.
  - destruct (zalloc_page_spec m g (tr_inv _ _ _ Htr)) as (p & m1 & g1 & Hz & Hfr & Hzero).
    pose proof (fr_count _ _ _ _ _ Hfr) as Hcnt.
    destruct (Z.eqb_spec p 0) as [->|Hp]; [lia|].
    pose proof (add_extends m m1 T g g1 t _ p e n Htr Hfr Hp (Hzero Hp) Ht (vpn_range _ _) He Hv) as Hex.
    destruct (add_entry m m1 g g1 p Hfr Hp) as (Hev & Heb & Hep).
    pose proof (add_new m m1 T g g1 t _ p n Htr Hfr Hp (Hzero Hp) Ht (vpn_range va (Z.of_nat (Datatypes.S n)))) as Hnew.
    set (m2 := <[_ := table_entry p]> m1) in *.
    assert (Hw : walked va n k p m2 (<[p := n]> T) g1).
    { apply IH; [apply Hex|by rewrite lookup_insert_eq|lia| |lia].
      destruct n; cbn [mappable]; rewrite Hnew by apply vpn_range; by destruct decide. }
    eapply (walked_step va n k t m m2); [lia|exact Hex|lia| | |exact Heb|by rewrite Hep|].
    + unfold m2. by rewrite lookup_insert_eq.
    + eapply lookup_weaken; [exact Ht|apply Hex].
    + intros B c. erewrite bind_load by done. rewrite Hv. unfold createPageTable.
      rewrite !bind_assoc, (bind_some _ _ _ _ _ Hz), bind_assoc.
      rewrite bind_assert by (by rewrite (proj2 (Z.eqb_neq p 0))). done.
Qed.

(** Writing a leaf into an entry that is no branch. *)
Section SetLeaf.
Context (m : mem) (T : gmap Z nat) (g : ghost) (t idx e e2 : Z) (k : nat).
Context (Htr : tree m T g) (Ht : T !! t = Some k) (Hidx : 0 <= idx < 512).
Context (He : m !! slot t idx = Some e) (Hb : branch e = false).
Context (Hv2 : entry_v e2 = true) (Hb2 : has_bits e2 PAGE_ENTRY_RWX = true).

Local Abbreviation m2 := (<[slot t idx := e2]> m).

Lemma leaf_branch : branch e2 = false.
Proof. unfold branch. by rewrite Hv2, Hb2. Qed.

Lemma leaf_tree : tree m2 T g.
Proof.
  split.
  - apply (page_inv_frame m); [apply Htr|]. intros x Hx. rewrite lookup_insert_ne; [done|].
    intros <-. by apply (table_slot m T g t k idx) in Hx.
  - apply Htr.
  - apply Htr.
  - intros s n i Hs Hi. destruct (decide (slot s i = slot t idx)) as [->|E].
    + exists e2. rewrite lookup_insert_eq, leaf_branch. done.
    + rewrite lookup_insert_ne by done. by apply (tr_entry _ _ _ Htr).
  - intros s n i e1 s' n' i' e1' Hs Hs' Hi Hi' He1 He1' Hb1 Hb1' Heq.
    assert (Hold : forall y v, m2 !! y = Some v -> branch v = true -> m !! y = Some v).
    { intros y v Hy Hbv. destruct (decide (y = slot t idx)) as [->|Hne].
      - rewrite lookup_insert_eq in Hy. injection Hy as <-. by rewrite leaf_branch in Hbv.
      - by rewrite lookup_insert_ne in Hy. }
    eapply (tr_unique _ _ _ Htr s n i e1 s' n' i' e1'); auto.
Qed.

Lemma leaf_lookup s n va :
  T !! s = Some n ->
  lookup_pt m2 n s va =
  if decide (slot_at m n s va k = Some (slot t idx)) then Some (slot t idx, k) else lookup_pt m n s va.
Proof.
  revert s. induction n as [|n IH]; intros s Hs;
    (match goal with |- lookup_pt _ ?n _ _ = _ => pose proof (vpn_range va (Z.of_nat n)) as Hr end);
    cbn [lookup_pt slot_at];
    (match goal with |- context [<[_ := _]> m !! ?y] => destruct (decide (y = slot t idx)) as [E|E] end).
  1, 3: destruct (slot_eq m T g s _ _ t _ idx Htr Hs Ht Hr Hidx E) as [-> _];
    rewrite Ht in Hs; injection Hs as Hs; symmetry in Hs;
    rewrite E, lookup_insert_eq; cbn [mbind option_bind]; rewrite Hv2, Hb2;
    rewrite (decide_True _ _ Hs), decide_True by done; by rewrite Hs.
  - rewrite lookup_insert_ne by done. destruct (decide (0%nat = k)) as [Hk|Hk].
    { rewrite decide_False; [done|]. congruence. }
    rewrite decide_False; [done|].
    destruct (m !! slot s _); cbn [mbind option_bind]; [|done]. by case_match.
  - rewrite lookup_insert_ne by done.
    destruct (tr_entry _ _ _ Htr s _ _ Hs Hr) as (e0 & He0 & Hn). rewrite He0. cbn [mbind option_bind].
    destruct (decide (Datatypes.S n = k)) as [Hk|Hk].
    + rewrite decide_False by congruence. destruct (entry_v e0) eqn:Hv0; [|done].
      destruct (has_bits e0 PAGE_ENTRY_RWX) eqn:Hb0; [done|].
      destruct Hn as (n' & [= <-] & Hn'); [unfold branch; by rewrite Hv0, Hb0|].
      rewrite IH by done. rewrite decide_False; [done|]. apply slot_above. lia.
    + destruct (branch e0) eqn:Hb0.
      * destruct (Hn eq_refl) as (n' & [= <-] & Hn'). unfold branch in Hb0.
        apply andb_true_iff in Hb0 as [-> Hb0%negb_true_iff]. rewrite Hb0. by apply IH.
      * rewrite decide_False by done. unfold branch in Hb0. destruct (entry_v e0); [|done].
        cbn [andb] in Hb0. apply negb_false_iff in Hb0. by rewrite Hb0.
Qed.

End SetLeaf.

(** The walks read the tree. *)
Definition lookup_entry (m : mem) (n : nat) (t va : Z) : Z :=
  match lookup_pt m n t va with Some (s, _) => s | None => 0 end.

Definition lookup_phys (m : mem) (n : nat) (t va : Z) : Z :=
  match lookup_pt m n t va with
  | Some (s, l) =>
      let w := 12 + 9 * Z.of_nat l in
      align_down (2 ^ w) (entry_page (default 0 (m !! s))) + va mod 2 ^ w
  | None => 0
  end.

Lemma page_offset a b w :
  0 <= w -> Z.lor (Z.ldiff a (2 ^ w - 1)) (Z.land b (2 ^ w - 1)) = align_down (2 ^ w) a + b mod 2 ^ w.
Proof.
  intros Hw. rewrite Z.sub_1_r, <- Z.ones_equiv, Z.land_ones by lia.
  rewrite Z.ldiff_ones_r by lia. rewrite lor_shiftl_add by (try apply Z.mod_pos_bound, Z.pow_pos_nonneg; lia).
  unfold align_down. rewrite Z.shiftr_div_pow2 by lia. pose proof (Z.div_mod a (2 ^ w)). lia.
Qed.

Definition walk_levels (n : nat) : list Z := Z.of_nat n :: down n 0.

Lemma walk_levels_S n : walk_levels (Datatypes.S n) = Z.of_nat (Datatypes.S n) :: walk_levels n.
Proof. unfold walk_levels. cbn [down]. by rewrite decide_True by lia. Qed.

Lemma level_mask i : 0 <= i -> Z.shiftl PAGE_SIZE (9 * i) - 1 = 2 ^ (12 + 9 * i) - 1.
Proof. intros. unfold PAGE_SIZE. rewrite Z.shiftl_mul_pow2, Z.pow_add_r by lia. done. Qed.

Lemma virt_walk_spec m T g n t va :
  tree m T g -> T !! t = Some n ->
  virt_walk va (walk_levels n) t m = Some (lookup_entry m n t va, m).
Proof.
  intros Htr. unfold lookup_entry. revert t. induction n as [|n IH]; intros t Ht; [change (walk_levels 0) with [Z.of_nat 0]|rewrite walk_levels_S];
    cbn [virt_walk lookup_pt];
    destruct (heap_page_range t (tr_page _ _ _ Htr t _ Ht)) as (Hpos & _);
    (match goal with |- context [vpn va ?i] =>
       destruct (tr_entry _ _ _ Htr t _ _ Ht (vpn_range va i)) as (e & He & Hn) end);
    rewrite bind_assert by (by rewrite (proj2 (Z.eqb_neq t 0)) by lia);
    erewrite bind_load by exact He; rewrite ?He; cbn [mbind option_bind];
    (destruct (entry_v e) eqn:Hv; [|done]); (destruct (has_bits e PAGE_ENTRY_RWX) eqn:Hb; [done|]);
    destruct Hn as (n' & Hn & Hn'); try (unfold branch; by rewrite Hv, Hb); [lia|].
  injection Hn as <-. cbn [negb]. rewrite bind_assert by (by rewrite (proj2 (Z.eqb_neq _ _)) by lia).
  by apply IH.
Qed.

Lemma phys_walk_spec m T g n t va :
  tree m T g -> T !! t = Some n ->
  phys_walk va (walk_levels n) t m = Some (lookup_phys m n t va, m).
Proof.
  intros Htr. unfold lookup_phys. revert t. induction n as [|n IH]; intros t Ht; [change (walk_levels 0) with [Z.of_nat 0]|rewrite walk_levels_S];
    cbn [phys_walk lookup_pt];
    (match goal with |- context [vpn va ?i] =>
       destruct (tr_entry _ _ _ Htr t _ _ Ht (vpn_range va i)) as (e & He & Hn) end);
    erewrite bind_load by exact He; rewrite ?He; cbn [mbind option_bind];
    (destruct (entry_v e) eqn:Hv; [|done]); (destruct (has_bits e PAGE_ENTRY_RWX) eqn:Hb;
      [rewrite He, level_mask, page_offset by lia; done|]);
    destruct Hn as (n' & Hn & Hn'); try (unfold branch; by rewrite Hv, Hb); [lia|].
  injection Hn as <-. cbn [negb]. rewrite bind_assert by (by rewrite (proj2 (Z.eqb_neq _ _)) by lia).
  by apply IH.
Qed.

Lemma virtToEntry_spec m T g root va :
  tree m T g -> T !! root = Some 2%nat -> virtToEntry root va m = Some (lookup_entry m 2 root va, m).
Proof. apply virt_walk_spec. Qed.

Lemma unsafeVirtToPhys_spec m T g root va :
  tree m T g -> T !! root = Some 2%nat -> unsafeVirtToPhys root va m = Some (lookup_phys m 2 root va, m).
Proof. apply phys_walk_spec. Qed.

(** [va] lies in the page of level [k] that [va'] is in, as far as the 39
    translated bits go. *)
Definition same_page (k : nat) (va va' : Z) : Prop :=
  forall i, (k <= i <= 2)%nat -> vpn va (Z.of_nat i) = vpn va' (Z.of_nat i).

Lemma slot_at_same m n k va va' t :
  (forall i, (k <= i <= n)%nat -> vpn va (Z.of_nat i) = vpn va' (Z.of_nat i)) -> (k <= n)%nat ->
  slot_at m n t va' k = slot_at m n t va k.
Proof.
  revert t. induction n as [|n IH]; intros t Hs Hk; cbn [slot_at]; rewrite <- Hs by lia.
  - destruct (decide (0%nat = k)); done.
  - destruct (decide (Datatypes.S n = k)); [done|]. destruct (m !! _); cbn [mbind option_bind]; [|done].
    destruct (branch _); [|done]. apply IH; [|lia]. intros i Hi. apply Hs. lia.
Qed.

Lemma lookup_phys_same m n t s va va' k :
  lookup_pt m n t va = Some (s, k) -> lookup_pt m n t va' = Some (s, k) ->
  lookup_phys m n t va' =
  align_down (2 ^ (12 + 9 * Z.of_nat k)) (entry_page (default 0 (m !! s))) + va' mod 2 ^ (12 + 9 * Z.of_nat k).
Proof. intros _ H. unfold lookup_phys. by rewrite H. Qed.

Lemma align_down_twice k p : align_down (2 ^ (12 + 9 * Z.of_nat k)) (align_down 4096 p) = align_down (2 ^ (12 + 9 * Z.of_nat k)) p.
Proof.
  unfold align_down. rewrite Z.pow_add_r by lia. change (2 ^ 12) with 4096.
  set (q := 2 ^ (9 * Z.of_nat k)). assert (0 < q) by (apply Z.pow_pos_nonneg; lia).
  rewrite !(Z.rem_mul_r _ 4096 q) by lia.
  assert (E : (p - p mod 4096) / 4096 = p / 4096) by (Z.div_mod_to_equations; lia).
  rewrite E. assert (E2 : (p - p mod 4096) mod 4096 = 0) by (Z.div_mod_to_equations; lia). lia.
Qed.

(** The entries of other leaves are not touched by [set leaf]. *)
Lemma lookup_pt_leaf m T g n t va s l :
  tree m T g -> T !! t = Some n -> lookup_pt m n t va = Some (s, l) ->
  exists tl e, T !! tl = Some l /\ s = slot tl (vpn va (Z.of_nat l)) /\ m !! s = Some e /\
    entry_v e = true /\ slot_at m n t va l = Some s.
Proof.
  intros Htr. revert t. induction n as [|n IH]; intros t Ht Hl; cbn [lookup_pt slot_at] in *;
    (match type of Hl with context [vpn va ?i] =>
       destruct (tr_entry _ _ _ Htr t _ _ Ht (vpn_range va i)) as (e & He & Hn) end);
    rewrite He in Hl; cbn [mbind option_bind] in Hl;
    (destruct (entry_v e) eqn:Hv; [|done]); (destruct (has_bits e PAGE_ENTRY_RWX) eqn:Hb;
      [injection Hl as <- <-; exists t, e; rewrite decide_True by done; done|]); [done|].
  destruct Hn as (n' & [= <-] & Hn'); [unfold branch; by rewrite Hv, Hb|].
  destruct (IH _ Hn' Hl) as (tl & e' & H1 & H2 & H3 & H4 & H5). exists tl, e'.
  split; [done|split; [done|split; [done|split; [done|]]]].
  rewrite decide_False.
  - rewrite He. cbn [mbind option_bind]. unfold branch. by rewrite Hv, Hb.
  - intros <-. by apply (slot_above m n (entry_page e) va (Datatypes.S n) s) in H5; [|lia].
Qed.

Lemma extends_phys m m' T T' g g' n t va :
  tree m T g -> extends m m' T T' g g' -> T !! t = Some n ->
  lookup_phys m' n t va = lookup_phys m n t va.
Proof.
  intros Htr Hex Ht. unfold lookup_phys. rewrite (ex_lookup _ _ _ _ _ _ Hex) by done.
  destruct (lookup_pt m n t va) as [[s l]|] eqn:Hl; [|done].
  destruct (lookup_pt_leaf m T g n t va s l Htr Ht Hl) as (tl & e & Htl & -> & He & Hv & _).
  by rewrite He, (ex_valid _ _ _ _ _ _ Hex tl l _ e Htl (vpn_range _ _) He Hv).
Qed.

(** The translation after a leaf was written: for the addresses whose walk
    comes to it, and for the others. *)
Lemma leaf_phys m T g t idx e e2 k n s va :
  tree m T g -> T !! t = Some k -> 0 <= idx < 512 -> m !! slot t idx = Some e -> branch e = false ->
  entry_v e2 = true -> has_bits e2 PAGE_ENTRY_RWX = true -> T !! s = Some n ->
  let m2 := <[slot t idx := e2]> m in
  (slot_at m n s va k = Some (slot t idx) ->
     lookup_entry m2 n s va = slot t idx /\
     lookup_phys m2 n s va = align_down (2 ^ (12 + 9 * Z.of_nat k)) (entry_page e2) + va mod 2 ^ (12 + 9 * Z.of_nat k)) /\
  (slot_at m n s va k <> Some (slot t idx) ->
     lookup_entry m2 n s va = lookup_entry m n s va /\ lookup_phys m2 n s va = lookup_phys m n s va).
Proof.
  intros Htr Ht Hidx He Hb Hv2 Hb2 Hs m2. unfold lookup_entry, lookup_phys, m2.
  rewrite (leaf_lookup m T g t idx e2 k) by done. split; intros Hat.
  - rewrite decide_True by done. by rewrite lookup_insert_eq.
  - rewrite decide_False by done. split; [done|].
    destruct (lookup_pt m n s va) as [[x l]|] eqn:Hl; [|done]. rewrite lookup_insert_ne; [done|].
    intros Hx. destruct (lookup_pt_leaf m T g n s va x l Htr Hs Hl) as (tl & e' & Htl & Hxl & _ & _ & Hsl).
    rewrite <- Hx in Hsl. rewrite Hxl in Hx.
    destruct (slot_eq m T g t k idx tl l _ Htr Ht Htl Hidx (vpn_range _ _) Hx) as [-> _].
    apply Hat. replace k with l by congruence. done.
Qed.

Lemma levels_down level :
  (level <= 2)%nat -> filter (fun i => Z.of_nat level <= i) [1; 0] = down 2 level.
Proof. intros H. destruct level as [|[|[|]]]; [reflexivity..|lia]. Qed.

(** What [mapPage] does to the entries: the one of the page is new, the others
    stay where and what they are. *)
Lemma mapPage_lookup m T g root vaddr paddr bits level :
  tree m T g -> T !! root = Some 2%nat -> (level <= 2)%nat -> 0 <= paddr < 2 ^ 56 ->
  Z.land bits 0xe <> 0 -> mappable m 2 root vaddr level -> (2 - level <= free_pages g)%nat ->
  exists ent e m' T' g',
    mapPage root vaddr paddr bits (Z.of_nat level) m = Some (ent, m') /\
    tree m' T' g' /\ T ⊆ T' /\ untouched T g m m' /\ (forall x, owned g' x -> owned g x) /\
    (forall t n x, T' !! t = Some n -> page_of t x -> T !! t = Some n \/ owned g x) /\
    (free_pages g <= free_pages g' + (2 - level))%nat /\ m' !! ent = Some (leaf_entry e paddr bits) /\
    (forall va, same_page level vaddr va -> lookup_pt m' 2 root va = Some (ent, level)) /\
    (forall va, ~ same_page level vaddr va -> lookup_pt m' 2 root va = lookup_pt m 2 root va /\
       forall s l, lookup_pt m 2 root va = Some (s, l) -> m' !! s = m !! s).
Proof.
  intros Htr Hroot Hlevel Hp Hbits Hmap Hfree.
  destruct (map_walk_spec vaddr 2 level root m T g Htr Hroot Hlevel Hmap Hfree)
    as (ent & e & m1 & T1 & g1 & tk & Hw & Hex & Hcnt & Hslot & Htk & Hent & He & Hb).
  destruct (leaf_entry_spec e paddr bits Hp Hbits) as (Hv2 & Hb2 & _).
  pose proof (ex_tree _ _ _ _ _ _ Hex) as Htr1. pose proof (vpn_range vaddr (Z.of_nat level)) as Hr.
  assert (Hroot1 : T1 !! root = Some 2%nat) by (eapply lookup_weaken; [exact Hroot|apply Hex]).
  subst ent. set (ent := slot tk (vpn vaddr (Z.of_nat level))) in *.
  set (m2 := <[ent := leaf_entry e paddr bits]> m1).
  exists ent, e, m2, T1, g1. split; [|split; [by eapply leaf_tree|split; [apply Hex|split; [|split; [apply Hex|split; [apply Hex|]]]]]].
  - unfold mapPage. rewrite bind_assert by (by rewrite (proj2 (Z.eqb_neq _ _))).
    rewrite levels_down by done. change (vpn vaddr 2) with (vpn vaddr (Z.of_nat 2)).
    rewrite (bind_some _ _ _ _ _ Hw). erewrite bind_load by exact He.
    rewrite bind_assert; [done|]. unfold branch in Hb. by destruct (entry_v e), (has_bits e _).
  - intros x Hx Htx. unfold m2. rewrite lookup_insert_ne; [by apply (ex_frame _ _ _ _ _ _ Hex)|].
    intros <-. destruct (table_slot m1 T1 g1 tk level _ Htr1 Htk Hr) as (Hpage & _).
    destruct (ex_new _ _ _ _ _ _ Hex tk level ent Htk Hpage) as [Hin|?]; [by eapply Htx|done].
  - split; [done|]. split; [by apply lookup_insert_eq|].
    assert (Hlk : forall va, lookup_pt m2 2 root va = if decide (slot_at m1 2 root va level = Some ent) then Some (ent, level) else lookup_pt m1 2 root va).
    { intros va. by apply (leaf_lookup m1 T1 g1 tk _ (leaf_entry e paddr bits) level). }
    split; intros va Hva; rewrite Hlk.
    + rewrite decide_True; [done|]. by rewrite (slot_at_same m1 2 level vaddr va).
    + assert (Hne : slot_at m1 2 root va level <> Some ent).
      { intros Hat. apply Hva. exact (proj2 (slot_at_inj m1 T1 g1 2 root root vaddr va level ent Htr1 Hroot1 Hroot1 Hslot Hat)). }
      rewrite decide_False, (ex_lookup _ _ _ _ _ _ Hex) by done. split; [done|]. intros s l Hl.
      destruct (lookup_pt_leaf m T g 2 root va s l Htr Hroot Hl) as (tl & e1 & Htl & Hs & He1 & Hv1 & _).
      assert (Hl1 : lookup_pt m1 2 root va = Some (s, l)) by (by rewrite (ex_lookup _ _ _ _ _ _ Hex)).
      destruct (lookup_pt_leaf m1 T1 g1 2 root va s l Htr1 Hroot1 Hl1) as (tl1 & _ & Htl1 & Hs1 & _ & _ & Hat1).
      unfold m2. rewrite lookup_insert_ne.
      * rewrite He1, Hs. rewrite Hs in He1. by apply (ex_valid _ _ _ _ _ _ Hex tl l _ e1 Htl (vpn_range _ _)).
      * intros E. apply Hne. rewrite Hs1 in E. destruct (slot_eq m1 T1 g1 tk level _ tl1 l _ Htr1 Htk Htl1 Hr (vpn_range _ _) E) as [-> _].
        replace level with l by congruence. rewrite Hat1, Hs1, E. done.
Qed.

(** See [mapPage_correct]. *)
Lemma mapPage_ok m T g root vaddr paddr bits level :
  tree m T g -> T !! root = Some 2%nat -> (level <= 2)%nat -> 0 <= paddr < 2 ^ 56 ->
  Z.land bits 0xe <> 0 -> mappable m 2 root vaddr level -> (2 - level <= free_pages g)%nat ->
  exists ent m' T' g',
    mapPage root vaddr paddr bits (Z.of_nat level) m = Some (ent, m') /\
    tree m' T' g' /\ T ⊆ T' /\ untouched T g m m' /\
    (forall va, same_page level vaddr va ->
       let size := 2 ^ (12 + 9 * Z.of_nat level) in
       virtToEntry root va m' = Some (ent, m') /\
       unsafeVirtToPhys root va m' = Some (align_down size paddr + va mod size, m')) /\
    (forall va, ~ same_page level vaddr va -> exists r p,
       virtToEntry root va m = Some (r, m) /\ virtToEntry root va m' = Some (r, m') /\
       unsafeVirtToPhys root va m = Some (p, m) /\ unsafeVirtToPhys root va m' = Some (p, m')).
Proof.
  intros Htr Hroot Hlevel Hp Hbits Hmap Hfree.
  destruct (map_walk_spec vaddr 2 level root m T g Htr Hroot Hlevel Hmap Hfree)
    as (ent & e & m1 & T1 & g1 & tk & Hw & Hex & _ & Hslot & Htk & Hent & He & Hb).
  destruct (leaf_entry_spec e paddr bits Hp Hbits) as (Hv2 & Hb2 & Hpg & _).
  pose proof (ex_tree _ _ _ _ _ _ Hex) as Htr1. pose proof (vpn_range vaddr (Z.of_nat level)) as Hr.
  assert (Hroot1 : T1 !! root = Some 2%nat) by (eapply lookup_weaken; [exact Hroot|apply Hex]).
  subst ent. set (ent := slot tk (vpn vaddr (Z.of_nat level))) in *.
  set (m2 := <[ent := leaf_entry e paddr bits]> m1).
  assert (Htr2 : tree m2 T1 g1) by by eapply leaf_tree.
  exists ent, m2, T1, g1. split; [|split; [done|split; [apply Hex|split; [|split]]]].
  - unfold mapPage. rewrite bind_assert by (by rewrite (proj2 (Z.eqb_neq _ _))).
    rewrite levels_down by done. change (vpn vaddr 2) with (vpn vaddr (Z.of_nat 2)).
    rewrite (bind_some _ _ _ _ _ Hw). erewrite bind_load by exact He.
    rewrite bind_assert; [done|]. unfold branch in Hb. by destruct (entry_v e), (has_bits e _).
  - intros x Hx Htx. unfold m2. rewrite lookup_insert_ne; [by apply (ex_frame _ _ _ _ _ _ Hex)|].
    intros <-. destruct (table_slot m1 T1 g1 tk level _ Htr1 Htk Hr) as (Hpage & _).
    destruct (ex_new _ _ _ _ _ _ Hex tk level ent Htk Hpage) as [Hin|?]; [by eapply Htx|done].
  - intros va Hva size. rewrite (virtToEntry_spec m2 T1 g1), (unsafeVirtToPhys_spec m2 T1 g1) by done.
    destruct (leaf_phys m1 T1 g1 tk _ e _ level 2 root va Htr1 Htk Hr He Hb Hv2 Hb2 Hroot1) as [H1 _].
    fold ent m2 in H1. destruct H1 as [-> ->]; [by rewrite (slot_at_same m1 2 level vaddr va) by done|].
    by rewrite Hpg, align_down_twice.
  - intros va Hva. exists (lookup_entry m 2 root va), (lookup_phys m 2 root va).
    rewrite !(virtToEntry_spec m2 T1 g1), !(unsafeVirtToPhys_spec m2 T1 g1) by done.
    rewrite !(virtToEntry_spec m T g), !(unsafeVirtToPhys_spec m T g) by done.
    destruct (leaf_phys m1 T1 g1 tk _ e _ level 2 root va Htr1 Htk Hr He Hb Hv2 Hb2 Hroot1) as [_ H2].
    fold ent m2 in H2. destruct H2 as [-> ->].
    { intros Hat. apply Hva.
      exact (proj2 (slot_at_inj m1 T1 g1 2 root root vaddr va level ent Htr1 Hroot1 Hroot1 Hslot Hat)). }
    rewrite (extends_phys m m1 T T1 g g1) by done. unfold lookup_entry.
    by rewrite (ex_lookup _ _ _ _ _ _ Hex).
Qed.

(** C2: [mapPage] on any tree of page tables, with no mapping of another size
    in the way and a free page for each table it may have to add: it returns the
    entry that translates [vaddr] from then on.  Every address of the same page of the
    given level translates to the physical page, offset included; every other
    address keeps its entry and its translation; the tables stay a tree, and no
    word outside the tables and the allocator's memory changes. *)
Theorem mapPage_correct m T g root vaddr paddr bits level :
  tree m T g -> T !! root = Some 2%nat -> (level <= 2)%nat -> 0 <= paddr < 2 ^ 56 ->
  Z.land bits 0xe <> 0 -> mappable m 2 root vaddr level -> (2 - level <= free_pages g)%nat ->
  exists ent m' T' g',
    mapPage root vaddr paddr bits (Z.of_nat level) m = Some (ent, m') /\
    tree m' T' g' /\ T ⊆ T' /\ untouched T g m m' /\
    (forall va, same_page level vaddr va ->
       let size := 2 ^ (12 + 9 * Z.of_nat level) in
       virtToEntry root va m' = Some (ent, m') /\
       unsafeVirtToPhys root va m' = Some (align_down size paddr + va mod size, m')) /\
    (forall va, ~ same_page level vaddr va -> exists r p,
       virtToEntry root va m = Some (r, m) /\ virtToEntry root va m' = Some (r, m') /\
       unsafeVirtToPhys root va m = Some (p, m) /\ unsafeVirtToPhys root va m' = Some (p, m')).
Proof. apply mapPage_ok. Qed.

(** A change of memory outside the tables leaves the tree alone. *)
Lemma tree_frame m m' T g g' :
  tree m T g -> page_inv m' g' -> (forall x, owned g' x -> owned g x) ->
  (forall t n x, T !! t = Some n -> page_of t x -> m' !! x = m !! x) ->
  tree m' T g' /\ forall t n va, T !! t = Some n -> lookup_pt m' n t va = lookup_pt m n t va.
Proof.
  intros Htr Hinv Hown Hfr.
  assert (Hslot : forall t n i, T !! t = Some n -> 0 <= i < 512 -> m' !! slot t i = m !! slot t i).
  { intros t n i Ht Hi. apply (Hfr t n); [done|]. by eapply table_slot. }
  split.
  - split; try done; try apply Htr.
    + intros t n x Ht Hx Ho. by eapply (tr_free _ _ _ Htr t n x), Hown.
    + intros t n i Ht Hi. rewrite (Hslot t n i Ht Hi). by apply (tr_entry _ _ _ Htr t n i).
    + intros t n i e s k j e' Ht Hs Hi Hj. rewrite (Hslot t n i Ht Hi), (Hslot s k j Hs Hj).
      by apply (tr_unique _ _ _ Htr t n i e s k j e').
  - intros t n va. revert t. induction n as [|n IH]; intros t Ht; cbn [lookup_pt];
      rewrite (Hslot t _ _ Ht (vpn_range _ _)); [done|].
    destruct (tr_entry _ _ _ Htr t _ _ Ht (vpn_range va (Z.of_nat (Datatypes.S n)))) as (e & -> & Hn).
    cbn [mbind option_bind]. destruct (entry_v e) eqn:Hv; [|done].
    destruct (has_bits e PAGE_ENTRY_RWX) eqn:Hb; [done|].
    destruct Hn as (n' & [= <-] & Hn'); [unfold branch; by rewrite Hv, Hb|]. by apply IH.
Qed.

(** A table from [createPageTable] is a tree that translates nothing. *)
Lemma new_tree m m' g g' p :
  page_inv m g -> fresh_page p g g' m m' -> p <> 0 ->
  (forall i, 0 <= i < 512 -> m' !! (p + 8 * i) = Some 0) -> tree m' {[ p := 2%nat ]} g'.
Proof.
  intros Hinv Hfr Hp Hzero. split.
  - apply Hfr.
  - intros t n [<- <-]%lookup_singleton_Some. by apply Hfr.
  - intros t n x [<- <-]%lookup_singleton_Some Hx. by apply (fr_page _ _ _ _ _ Hfr Hp x).
  - intros t n i [<- <-]%lookup_singleton_Some Hi. exists 0. by rewrite <- (Hzero i Hi).
  - intros t n i e s k j e' [<- <-]%lookup_singleton_Some _ Hi _ He _ Hb.
    unfold slot in He. rewrite Hzero in He by done. by injection He as <-.
Qed.

End Tree.

(** A heap of 64 pages, as [initPageAllocator] leaves it. *)
Definition demo_service : PageService :=
  page_service (fun _ _ _ => mret false) 0x10000 0x50000 16.

#[export] Instance demo_laws : PageLaws demo_service.
Proof. apply heap_laws; lia. Qed.

Definition demo_heap : mem := {[ 16 := 0x10000; 0x10000 := 0x40000; 0x10008 := 0 ]}.

Lemma demo_heap_inv : @page_inv demo_service demo_heap [(0x10000, 0x40000)].
Proof.
  split; [split|].
  - cbn [Allocator.wf Allocator.block_size]. unfold Allocator.MINIMUM_FREE, PAGE_SIZE. repeat split; lia.
  - cbn [Allocator.flist]. repeat split; vm_compute; reflexivity.
  - rewrite Allocator.covers_cons. intros [?|H%Allocator.covers_nil]; [cbn in *; lia|done].
  - intros x. rewrite Allocator.covers_cons. intros [?|H%Allocator.covers_nil]; [lia|done].
Qed.

(** The heap after [createPageTable]: one empty table. *)
Lemma demo_root :
  exists m g, @zalloc_page demo_service demo_heap = Some (0x10000, m) /\
    @tree demo_service m {[ 0x10000 := 2%nat ]} g /\ @free_pages demo_service g = 63%nat /\
    forall i, 0 <= i < 512 -> m !! (0x10000 + 8 * i) = Some 0.
Proof.
  destruct (@zalloc_page_spec demo_service demo_laws _ _ demo_heap_inv) as (p & m & g & Hz & Hfr & H0).
  assert (Hp : p = 0x10000).
  { assert (E : fst <$> @zalloc_page demo_service demo_heap = Some 0x10000) by (vm_compute; reflexivity).
    rewrite Hz in E. by injection E. }
  subst p. specialize (H0 ltac:(lia)). exists m, g. split; [done|split; [|split; [|done]]].
  - by apply (@new_tree demo_service demo_heap m [(0x10000, 0x40000)] g 0x10000 demo_heap_inv Hfr).
  - pose proof (fr_count _ _ _ _ _ Hfr) as Hc.
    change (@free_pages demo_service [(0x10000, 0x40000)]) with 64%nat in Hc. cbn [Z.eqb] in Hc. lia.
Qed.

Lemma mapPage_correct_witness :
  exists m g ent m' T' g', @tree demo_service m {[ 0x10000 := 2%nat ]} g /\
    @mapPage demo_service 0x10000 0x40201000 0x20000 0x7 0 m = Some (ent, m') /\
    @tree demo_service m' T' g' /\
    @unsafeVirtToPhys 0x10000 0x40201234 m' = Some (0x20234, m').
Proof.
  destruct demo_root as (m & g & _ & Htr & Hfree & H0). exists m, g.
  destruct (@mapPage_correct demo_service demo_laws
    m {[ 0x10000 := 2%nat ]} g 0x10000 0x40201000 0x20000 0x7 0)
    as (ent & m' & T' & g' & Hmap & Htr' & _ & _ & Hin & _).
  - exact Htr.
  - apply lookup_singleton_eq.
  - lia.
  - lia.
  - done.
  - cbn [mappable]. unfold slot. rewrite H0 by apply vpn_range. done.
  - lia.
  - exists ent, m', T', g'. split; [done|split; [done|split; [done|]]].
    destruct (Hin 0x40201234) as [_ Hphys]; [|exact Hphys].
    intros i Hi. destruct i as [|[|[|]]]; [vm_compute; reflexivity..|lia].
Defined.

End PageTable.
