(* ===== verification/Probe.v ===== *)
(** * Probe: linear probing in the hash tables of the kernel

    [pageref.c], [stringmap.c] and [vfs/cache.c] walk an array from a hashed
    index on, [idx = (idx + 1) % capacity], until a slot ends the search.  The
    two loops they use, and where they stop. *)
From S2P Require Import Prelude.

Module Probe.

(** The slot after [j] steps from [start]. *)
Definition pos (cap start j : nat) : nat := (start + j) mod cap.

(** [while (cont(idx)) { idx = (idx + 1) % cap; if (idx == start) break; }] *)
Fixpoint find_loop (fuel cap start : nat) (cont : nat -> option bool) (idx : nat) : option nat :=
  match fuel with
  | O => None
  | S fuel' =>
      c ← cont idx;
      if c : bool then
        let idx := ((idx + 1) mod cap)%nat in
        if decide (idx = start) then Some idx else find_loop fuel' cap start cont idx
      else Some idx
  end.

(** [while (cont(idx)) { idx = (idx + 1) % cap; }] *)
Fixpoint free_loop (fuel cap : nat) (cont : nat -> option bool) (idx : nat) : option nat :=
  match fuel with
  | O => None
  | S fuel' =>
      c ← cont idx;
      if c : bool then free_loop fuel' cap cont ((idx + 1) mod cap)%nat else Some idx
  end.

Lemma pos_lt cap start j : (0 < cap)%nat -> (pos cap start j < cap)%nat.
Proof. intros. apply Nat.mod_upper_bound. lia. Qed.

Lemma pos_0 cap start : (start < cap)%nat -> pos cap start 0 = start.
Proof. intros. unfold pos. rewrite Nat.add_0_r. by apply Nat.mod_small. Qed.

Lemma pos_S cap start j : (0 < cap)%nat -> ((pos cap start j + 1) mod cap)%nat = pos cap start (S j).
Proof. intros. unfold pos. rewrite Nat.Div0.add_mod_idemp_l. f_equal. lia. Qed.

Lemma pos_inj cap start i j :
  (start < cap)%nat -> (i < cap)%nat -> (j < cap)%nat -> pos cap start i = pos cap start j -> i = j.
Proof.
  intros Hs Hi Hj. unfold pos. intros E.
  assert (Hmod : forall x, (x < cap)%nat ->
    ((start + x) mod cap)%nat = if (start + x <? cap)%nat then (start + x)%nat else (start + x - cap)%nat).
  { intros x Hx. destruct (Nat.ltb_spec (start + x) cap); [by apply Nat.mod_small|].
    replace (start + x)%nat with ((start + x - cap) + 1 * cap)%nat at 1 by lia.
    rewrite Nat.Div0.mod_add. apply Nat.mod_small. lia. }
  rewrite !Hmod in E by done.
  destruct (Nat.ltb_spec (start + i) cap), (Nat.ltb_spec (start + j) cap); lia.
Qed.

(** Every slot is some number of steps away. *)
Lemma pos_surj cap start i :
  (start < cap)%nat -> (i < cap)%nat -> exists j, (j < cap)%nat /\ pos cap start j = i.
Proof.
  intros Hs Hi. unfold pos. destruct (Nat.le_gt_cases start i).
  - exists (i - start)%nat. split; [lia|].
    replace (start + (i - start))%nat with i by lia. by apply Nat.mod_small.
  - exists (cap + i - start)%nat. split; [lia|].
    replace (start + (cap + i - start))%nat with (i + 1 * cap)%nat by lia.
    rewrite Nat.Div0.mod_add. by apply Nat.mod_small.
Qed.

Lemma pos_back cap start j : (start < cap)%nat -> (0 < j < cap)%nat -> pos cap start j <> start.
Proof.
  intros Hs Hj E. rewrite <- (pos_0 cap start) in E at 2 by done.
  apply pos_inj in E; lia.
Qed.

Section Loops.
Context (cap start : nat) (cont : nat -> option bool) (Hstart : (start < cap)%nat).

(** Both loops stop at the first slot that ends the search. *)
Lemma free_loop_spec fuel j :
  (forall i, (i < j)%nat -> cont (pos cap start i) = Some true) ->
  cont (pos cap start j) = Some false -> (j < fuel)%nat ->
  free_loop fuel cap cont start = Some (pos cap start j).
Proof.
  intros Hc Hj Hf. rewrite <- (pos_0 cap start Hstart) at 1.
  enough (H : forall d i, (i + d = j)%nat -> forall fuel, (d < fuel)%nat ->
    free_loop fuel cap cont (pos cap start i) = Some (pos cap start j)) by (apply (H j); lia).
  clear Hf fuel. induction d as [|d IH]; intros i Hi [|fuel] Hf; try lia; cbn [free_loop].
  - replace i with j by lia. by rewrite Hj.
  - rewrite Hc by lia. cbn [mbind option_bind]. rewrite pos_S by lia. apply IH; lia.
Qed.

Lemma find_loop_spec fuel j :
  (forall i, (i < j)%nat -> cont (pos cap start i) = Some true) ->
  cont (pos cap start j) = Some false -> (j < cap)%nat -> (j < fuel)%nat ->
  find_loop fuel cap start cont start = Some (pos cap start j).
Proof.
  intros Hc Hj Hjc Hf. rewrite <- (pos_0 cap start Hstart) at 2.
  enough (H : forall d i, (i + d = j)%nat -> forall fuel, (d < fuel)%nat ->
    find_loop fuel cap start cont (pos cap start i) = Some (pos cap start j)) by (apply (H j); lia).
  clear Hf fuel. induction d as [|d IH]; intros i Hi [|fuel] Hf; try lia; cbn [find_loop].
  - replace i with j by lia. by rewrite Hj.
  - rewrite Hc by lia. cbn [mbind option_bind]. rewrite pos_S by lia.
    rewrite decide_False by (apply pos_back; [done|lia]). apply IH; lia.
Qed.

(** When no slot ends it, the bounded loop comes back to where it started. *)
Lemma find_loop_wrap fuel :
  (forall i, (i < cap)%nat -> cont (pos cap start i) = Some true) -> (cap <= fuel)%nat ->
  find_loop fuel cap start cont start = Some start.
Proof.
  intros Hc Hf. rewrite <- (pos_0 cap start Hstart) at 2.
  enough (H : forall d i, (i + d = cap)%nat -> (0 < d)%nat -> forall fuel, (d <= fuel)%nat ->
    find_loop fuel cap start cont (pos cap start i) = Some start) by (apply (H cap 0%nat); lia).
  clear Hf fuel. induction d as [|d IH]; intros i Hi Hd [|fuel] Hf; try lia; cbn [find_loop].
  rewrite Hc by lia. cbn [mbind option_bind]. rewrite pos_S by lia.
  destruct (decide (pos cap start (S i) = start)) as [->|Hne]; [done|].
  destruct d as [|d]; [|apply IH; lia]. exfalso. apply Hne. unfold pos.
  replace (start + S i)%nat with (start + 1 * cap)%nat by lia.
  rewrite Nat.Div0.mod_add. by apply Nat.mod_small.
Qed.

(** The first slot that ends the search, if there is one. *)
Lemma first_stop :
  (forall i, (i < cap)%nat -> exists b, cont i = Some b) ->
  (exists j, (j < cap)%nat /\ cont (pos cap start j) = Some false /\
     forall i, (i < j)%nat -> cont (pos cap start i) = Some true) \/
  (forall i, (i < cap)%nat -> cont (pos cap start i) = Some true).
Proof.
  intros Htot.
  enough (H : forall n, (n <= cap)%nat ->
    (exists j, (j < n)%nat /\ cont (pos cap start j) = Some false /\
       forall i, (i < j)%nat -> cont (pos cap start i) = Some true) \/
    (forall i, (i < n)%nat -> cont (pos cap start i) = Some true)) by (apply H; lia).
  induction n as [|n IH]; intros Hn; [right; intros; lia|].
  destruct IH as [(j & ? & ? & ?)|Hall]; [lia|left; exists j; split; [lia|done]|].
  destruct (Htot (pos cap start n)) as ([|] & Hb); [apply pos_lt; lia| |].
  - right. intros i Hi. destruct (decide (i = n)) as [->|]; [done|apply Hall; lia].
  - left. exists n. split; [lia|done].
Qed.

End Loops.

(** ** Tables with deleted slots

    What the arrays of [stringmap.c] and [vfs/cache.c] have in common: a slot is
    empty, deleted, or holds a key with a value; a search for a key goes on over
    deleted slots and other keys, an insertion only over other keys. *)

Inductive slot (K V : Type) : Type :=
| Empty
| Deleted
| Full (k : K) (v : V).
Arguments Empty {K V}.
Arguments Deleted {K V}.
Arguments Full {K V} _ _.

Section OpenTable.
Context {K V : Type} `{Countable K} (hash : nat -> K -> nat).
Context (Hhash : forall cap k, (0 < cap)%nat -> (hash cap k < cap)%nat).

Definition search_on (k : K) (s : slot K V) : bool :=
  match s with Empty => false | Deleted => true | Full k' _ => negb (bool_decide (k' = k)) end.

Definition insert_on (k : K) (s : slot K V) : bool :=
  match s with Full k' _ => negb (bool_decide (k' = k)) | _ => false end.

Abbreviation step l k j := (pos (length l) (hash (length l) k) j).

(** [l] holds exactly the map [R]. *)
Record table_of (l : list (slot K V)) (R : gmap K V) : Prop := {
  t_live : forall i k v, l !! i = Some (Full k v) -> R !! k = Some v;
  t_chain : forall k v, R !! k = Some v -> exists j, (j < length l)%nat /\
    l !! step l k j = Some (Full k v) /\
    forall i, (i < j)%nat -> search_on k <$> l !! step l k i = Some true;
  t_once : forall i i' k v v', l !! i = Some (Full k v) -> l !! i' = Some (Full k v') -> i = i';
}.

Lemma step_in (l : list (slot K V)) k j : (0 < length l)%nat -> is_Some (l !! step l k j).
Proof. intros Hl. apply lookup_lt_is_Some. by apply pos_lt. Qed.

Lemma table_empty n : table_of (replicate n Empty) ∅.
Proof. split; intros; simplify_map_eq; by rewrite ?lookup_replicate in *; destruct_and?. Qed.

(** Where a search stops. *)
Lemma search_stop l R k :
  table_of l R -> (0 < length l)%nat ->
  match R !! k with
  | Some v => exists j, (j < length l)%nat /\ l !! step l k j = Some (Full k v) /\
      forall i, (i < j)%nat -> search_on k <$> l !! step l k i = Some true
  | None => (exists j, (j < length l)%nat /\ l !! step l k j = Some Empty /\
      forall i, (i < j)%nat -> search_on k <$> l !! step l k i = Some true) \/
      forall i, (i < length l)%nat -> search_on k <$> l !! step l k i = Some true
  end.
Proof.
  intros Ht Hl. destruct (R !! k) as [v|] eqn:Hk; [by apply Ht|].
  destruct (first_stop (length l) (hash (length l) k) (fun i => search_on k <$> l !! i)) as [(j & Hj & Hs & Hc)|Hall].
  - by apply Hhash.
  - intros i Hi. destruct (lookup_lt_is_Some_2 l i Hi) as [s ->]. by eexists.
  - left. exists j. split; [done|split; [|done]].
    destruct (l !! step l k j) as [[| |k' v]|] eqn:E; try done.
    cbn in Hs. injection Hs as Hs. apply negb_false_iff, bool_decide_eq_true in Hs as ->.
    by rewrite (t_live _ _ Ht _ _ _ E) in Hk.
  - by right.
Qed.

Lemma table_full l R :
  table_of l R -> (forall i, (i < length l)%nat -> exists k v, l !! i = Some (Full k v)) ->
  (length l <= size R)%nat.
Proof.
  intros Ht Hall.
  assert (Hks : exists ks : list K, length ks = length l /\
    forall i k, ks !! i = Some k -> exists v, l !! i = Some (Full k v)).
  { assert (Hgen : forall l' : list (slot K V), (forall i, (i < length l')%nat -> exists k v, l' !! i = Some (Full k v)) ->
      exists ks : list K, length ks = length l' /\ forall i k, ks !! i = Some k -> exists v, l' !! i = Some (Full k v)).
    { induction l' as [|x l' IH]; intros Hal; [by exists []|].
      destruct (Hal 0%nat ltac:(cbn; lia)) as (k & v & [= ->]).
      destruct IH as (ks & Hlen & Hks); [intros i Hi; apply (Hal (S i)); cbn; lia|].
      exists (k :: ks). split; [cbn; lia|]. intros [|i] k' Hi; [injection Hi as <-; by exists v|by apply Hks]. }
    by apply Hgen. }
  destruct Hks as (ks & Hlen & Hks).
  assert (Hnd : NoDup ks).
  { apply NoDup_alt. intros i i' k Hi Hi'. destruct (Hks i k Hi) as [v Hv], (Hks i' k Hi') as [v' Hv'].
    by eapply (t_once _ _ Ht). }
  rewrite <- Hlen, <- size_dom, <- (size_list_to_set (C := gset K)) by done.
  apply subseteq_size. intros k Hin%elem_of_list_to_set. apply list_elem_of_lookup in Hin as [i Hi].
  destruct (Hks i k Hi) as [v Hv]. apply elem_of_dom. exists v. by eapply (t_live _ _ Ht).
Qed.

(** Where an insertion of a key that is not in the table stops. *)
Lemma insert_stop l R k :
  table_of l R -> (size R < length l)%nat -> R !! k = None ->
  exists j s, (j < length l)%nat /\ l !! step l k j = Some s /\ (s = Empty \/ s = Deleted) /\
    forall i, (i < j)%nat -> insert_on k <$> l !! step l k i = Some true.
Proof.
  intros Ht Hsz Hk. assert (Hst : (hash (length l) k < length l)%nat) by (apply Hhash; lia).
  destruct (first_stop (length l) (hash (length l) k) (fun i => insert_on k <$> l !! i)) as [(j & Hj & Hs & Hc)|Hall].
  - done.
  - intros i Hi. destruct (lookup_lt_is_Some_2 l i Hi) as [s ->]. by eexists.
  - destruct (l !! step l k j) as [s|] eqn:E; [|done]. exists j, s. split; [done|split; [done|split; [|done]]].
    destruct s as [| |k' v]; [by left|by right|]. cbn in Hs. injection Hs as Hs.
    apply negb_false_iff, bool_decide_eq_true in Hs as ->. by rewrite (t_live _ _ Ht _ _ _ E) in Hk.
  - exfalso. enough (length l <= size R)%nat by lia. eapply table_full; [done|].
    intros i Hi. destruct (pos_surj _ _ i Hst Hi) as (j & Hj & <-). specialize (Hall j Hj).
    destruct (l !! _) as [[| |k' v]|]; try done. by exists k', v.
Qed.

Lemma insert_search k s : insert_on k s = true -> search_on k s = true.
Proof. by destruct s. Qed.

Lemma search_insert_ne (l : list (slot K V)) k i s p :
  search_on k <$> l !! p = Some true -> (p = i -> search_on k s = true) ->
  search_on k <$> <[i := s]> l !! p = Some true.
Proof.
  intros Hp Hs. destruct (decide (p = i)) as [->|Hne].
  - destruct (l !! i) eqn:E; [|done]. rewrite list_lookup_insert_eq by by eapply lookup_lt_Some.
    cbn. by rewrite Hs.
  - by rewrite list_lookup_insert_ne.
Qed.

(** Writing a new key at the end of a chain for it. *)
Lemma table_insert l R k v j s :
  table_of l R -> R !! k = None -> (j < length l)%nat -> l !! step l k j = Some s ->
  s = Empty \/ s = Deleted ->
  (forall i, (i < j)%nat -> search_on k <$> l !! step l k i = Some true) ->
  table_of (<[step l k j := Full k v]> l) (<[k := v]> R).
Proof.
  intros Ht Hk Hj Hs Hsd Hc. set (p := step l k j) in *.
  pose proof (lookup_lt_Some _ _ _ Hs) as Hp.
  assert (Hold : forall i k' v', <[p := Full k v]> l !! i = Some (Full k' v') ->
    (i = p /\ k' = k /\ v' = v) \/ (i <> p /\ k' <> k /\ l !! i = Some (Full k' v'))).
  { intros i k' v'. destruct (decide (i = p)) as [->|Hne].
    - rewrite list_lookup_insert_eq by done. intros [= <- <-]. by left.
    - rewrite list_lookup_insert_ne by done. intros Hi. right. split; [done|split; [|done]].
      intros ->. by rewrite (t_live _ _ Ht _ _ _ Hi) in Hk. }
  split.
  - intros i k' v' Hi. destruct (Hold i k' v' Hi) as [(_ & -> & ->)|(_ & Hne & Hi')].
    + by rewrite lookup_insert_eq.
    + rewrite lookup_insert_ne by done. by eapply (t_live _ _ Ht).
  - rewrite length_insert. intros k' v' Hk'. destruct (decide (k' = k)) as [->|Hne].
    + rewrite lookup_insert_eq in Hk'. injection Hk' as <-. exists j. split; [done|]. fold p.
      rewrite list_lookup_insert_eq by done. split; [done|]. intros i Hi.
      apply search_insert_ne; [by apply Hc|]. intros E. apply pos_inj in E; [lia|apply Hhash; lia|lia|lia].
    + rewrite lookup_insert_ne in Hk' by done.
      destruct (t_chain _ _ Ht k' v' Hk') as (j' & Hj' & Hf & Hc'). exists j'. split; [done|].
      assert (step l k' j' <> p) by (intros E; rewrite E, Hs in Hf; destruct Hsd as [-> | ->]; done).
      rewrite list_lookup_insert_ne by done. split; [done|]. intros i Hi.
      apply search_insert_ne; [by apply Hc'|]. intros _. cbn. by rewrite bool_decide_eq_false_2 by done.
  - intros i i' k' v1 v2 Hi Hi'.
    destruct (Hold i k' v1 Hi) as [(-> & -> & ->)|(Hne & Hk1 & Hi1)];
    destruct (Hold i' _ v2 Hi') as [(-> & Hk2 & ->)|(Hne' & Hk2 & Hi2)]; try done.
    by eapply (t_once _ _ Ht).
Qed.

(** Changing the value of a key, or deleting it. *)
Lemma table_update l R i k v v' :
  table_of l R -> l !! i = Some (Full k v) -> table_of (<[i := Full k v']> l) (<[k := v']> R).
Proof.
  intros Ht Hi. pose proof (lookup_lt_Some _ _ _ Hi) as Hlt.
  assert (Hold : forall p k1 v1, <[i := Full k v']> l !! p = Some (Full k1 v1) ->
    exists v2, l !! p = Some (Full k1 v2) /\ (p = i /\ v1 = v' \/ p <> i /\ v1 = v2)).
  { intros p k1 v1. destruct (decide (p = i)) as [->|Hne].
    - rewrite list_lookup_insert_eq by done. intros [= <- <-]. exists v. auto.
    - rewrite list_lookup_insert_ne by done. eauto. }
  split.
  - intros p k1 v1 Hp. destruct (Hold p k1 v1 Hp) as (v2 & Hp2 & [[-> ->]|[Hne ->]]).
    + simplify_eq. by rewrite lookup_insert_eq.
    + rewrite lookup_insert_ne; [by eapply (t_live _ _ Ht)|]. intros <-. apply Hne. by eapply (t_once _ _ Ht).
  - rewrite length_insert. intros k1 v1 Hk1.
    assert (Hch : exists v2, R !! k1 = Some v2 /\ (k1 = k -> v1 = v') /\ (k1 <> k -> v1 = v2)).
    { destruct (decide (k1 = k)) as [->|Hne].
      - rewrite lookup_insert_eq in Hk1. injection Hk1 as <-. exists v. split; [by eapply (t_live _ _ Ht)|done].
      - rewrite lookup_insert_ne in Hk1 by done. by exists v1. }
    destruct Hch as (v2 & Hv2 & He & Hn). destruct (t_chain _ _ Ht k1 v2 Hv2) as (j & Hj & Hf & Hc).
    exists j. split; [done|]. split.
    + destruct (decide (step l k1 j = i)) as [Ep|Hne].
      * rewrite Ep in *. simplify_eq. rewrite list_lookup_insert_eq by done. by rewrite He.
      * rewrite list_lookup_insert_ne by done. rewrite Hf, Hn; [done|]. intros ->. apply Hne.
        by eapply (t_once _ _ Ht).
    + intros p Hp. apply search_insert_ne; [by apply Hc|]. intros Ep. specialize (Hc p Hp).
      rewrite Ep, Hi in Hc. cbn in *. congruence.
  - intros p p' k1 v1 v2 Hp Hp'. destruct (Hold p k1 v1 Hp) as (w & Hw & _), (Hold p' k1 v2 Hp') as (w' & Hw' & _).
    by eapply (t_once _ _ Ht).
Qed.

Lemma table_delete l R i k v :
  table_of l R -> l !! i = Some (Full k v) -> table_of (<[i := Deleted]> l) (delete k R).
Proof.
  intros Ht Hi. pose proof (lookup_lt_Some _ _ _ Hi) as Hlt.
  assert (Hold : forall p k1 v1, <[i := Deleted]> l !! p = Some (Full k1 v1) ->
    p <> i /\ k1 <> k /\ l !! p = Some (Full k1 v1)).
  { intros p k1 v1. destruct (decide (p = i)) as [->|Hne].
    - by rewrite list_lookup_insert_eq by done.
    - rewrite list_lookup_insert_ne by done. intros Hp. split; [done|split; [|done]].
      intros ->. apply Hne. by eapply (t_once _ _ Ht). }
  split.
  - intros p k1 v1 Hp. destruct (Hold p k1 v1 Hp) as (_ & Hne & Hp').
    rewrite lookup_delete_ne by done. by eapply (t_live _ _ Ht).
  - rewrite length_insert. intros k1 v1 Hk1.
    destruct (decide (k1 = k)) as [->|Hne]; [by rewrite lookup_delete_eq in Hk1|].
    rewrite lookup_delete_ne in Hk1 by done.
    destruct (t_chain _ _ Ht k1 v1 Hk1) as (j & Hj & Hf & Hc). exists j. split; [done|split].
    + rewrite list_lookup_insert_ne; [done|]. intros E. rewrite <- E in Hf. congruence.
    + intros p Hp. by apply search_insert_ne; [apply Hc|].
  - intros p p' k1 v1 v2 Hp Hp'.
    destruct (Hold p k1 v1 Hp) as (_ & _ & ?), (Hold p' k1 v2 Hp') as (_ & _ & ?). by eapply (t_once _ _ Ht).
Qed.

(** Moving a key to a deleted slot before it on its chain. *)
Lemma table_move l R k v j f :
  table_of l R -> (j < length l)%nat -> l !! step l k j = Some (Full k v) -> (f < j)%nat ->
  l !! step l k f = Some Deleted ->
  (forall i, (i < j)%nat -> search_on k <$> l !! step l k i = Some true) ->
  table_of (<[step l k j := Deleted]> (<[step l k f := Full k v]> l)) R.
Proof.
  intros Ht Hj Hf Hfj Hd Hc.
  assert (Hne : step l k f <> step l k j).
  { intros E. apply pos_inj in E; [lia|apply Hhash; lia|lia|lia]. }
  rewrite list_insert_insert_ne by done.
  pose proof (table_delete l R _ k v Ht Hf) as Ht1.
  assert (HRk : R !! k = Some v) by by eapply (t_live _ _ Ht).
  set (l1 := <[step l k j := Deleted]> l) in *. assert (Hl1 : length l1 = length l) by apply length_insert.
  rewrite <- (insert_delete_id R k v) by done. rewrite <- Hl1.
  apply table_insert with (s := Deleted); try done.
  - apply lookup_delete_eq.
  - lia.
  - rewrite Hl1. unfold l1. by rewrite list_lookup_insert_ne.
  - by right.
  - intros i Hi. rewrite Hl1. unfold l1. apply search_insert_ne; [apply Hc; lia|done].
Qed.

End OpenTable.

End Probe.
