(* ===== verification/PageRef.v ===== *)
(** * PageRef: [kernel/src/memory/pageref.c]

    The reference counts of the physical pages that several memory spaces
    share: an open-addressing hash table from page addresses to counts.  A
    value of 0 is an empty slot, of 1 a deleted one, larger values are counts;
    a page that is not in the table has one reference.

    [count] and [capacity] are natural numbers: the arrays of 8-byte elements
    fit the address space, so that [count * 4] and [capacity * 3] do not wrap.
    [zalloc] is taken to succeed, as the code does.  The theorems show that the
    table implements a finite map. *)
From S2P Require Import Prelude Util Probe.
Import Probe.

Local Open Scope c_scope.

Module PageRef.

(** ** Definitions *)

Definition MIN_TABLE_CAPACITY : nat := 128.

Record PageRefTable := mkTable {
  count : nat;
  capacity : nat;
  keys : list Z;
  values : list Z;
}.

(** [hashInt64(page) % capacity] *)
Definition hash_index (page : Z) (capacity : nat) : nat :=
  Z.to_nat (Util.hashInt64 page mod Z.of_nat capacity).

(** [keys[idx] != page && values[idx] >= min] *)
Definition other_key (keys values : list Z) (page min : Z) (idx : nat) : option bool :=
  k ← keys !! idx;
  if k =? page then Some false
  else v ← values !! idx; Some (v >=? min).

(** The slot [rebuildPageRefTable] puts the key in. *)
Definition empty_slot (new_values : list Z) (new_size : nat) (page : Z) : option nat :=
  free_loop new_size new_size (fun idx => v ← new_values !! idx; Some (v >=? 1))
    (hash_index page new_size).

(** The loop over the old slots; the state is the new arrays. *)
Fixpoint rebuild_loop (old : list (Z * Z)) (new_size : nat) (new_keys new_values : list Z)
    : option (list Z * list Z) :=
  match old with
  | [] => Some (new_keys, new_values)
  | (k, v) :: old' =>
      if v >? 1 then
        idx ← empty_slot new_values new_size k;
        rebuild_loop old' new_size (<[idx := k]> new_keys) (<[idx := v]> new_values)
      else rebuild_loop old' new_size new_keys new_values
  end.

Definition rebuildPageRefTable (table : PageRefTable) (new_size : nat) : option PageRefTable :=
  '(new_keys, new_values) ←
    rebuild_loop (zip (keys table) (values table)) new_size (replicate new_size 0) (replicate new_size 0);
  Some (mkTable (count table) new_size new_keys new_values).

Definition testForResize (table : PageRefTable) : option PageRefTable :=
  if (capacity table <? MIN_TABLE_CAPACITY)%nat then rebuildPageRefTable table MIN_TABLE_CAPACITY
  else if (MIN_TABLE_CAPACITY <? capacity table)%nat && (count table * 4 <? capacity table)%nat
  then rebuildPageRefTable table (capacity table / 2)
  else if (capacity table * 2 <? count table * 3)%nat
  then rebuildPageRefTable table (capacity table * 3 / 2)
  else Some table.

(** The search loop of the three operations. *)
Definition find_slot (table : PageRefTable) (page : Z) : option nat :=
  let start := hash_index page (capacity table) in
  find_loop (capacity table) (capacity table) start (other_key (keys table) (values table) page 1) start.

Definition hasOtherReferences (zero_page : Z) (table : PageRefTable) (page : Z) : option bool :=
  if page =? zero_page then Some true
  else if (count table =? 0)%nat then Some false
  else
    idx ← find_slot table page;
    k ← keys table !! idx;
    if k =? page then v ← values table !! idx; Some (v >? 1) else Some false.

Definition addReferenceFor (table : PageRefTable) (page : Z) : option PageRefTable :=
  table ← testForResize table;
  idx ← find_slot table page;
  k ← keys table !! idx;
  v ← values table !! idx;
  if (k =? page) && (v >? 1) then
    Some (mkTable (count table) (capacity table) (keys table) (<[idx := v +% 1]> (values table)))
  else
    idx ← free_loop (capacity table) (capacity table)
            (other_key (keys table) (values table) page 2) (hash_index page (capacity table));
    Some (mkTable (S (count table)) (capacity table) (<[idx := page]> (keys table))
            (<[idx := 2]> (values table))).

Definition removeReferenceFor (table : PageRefTable) (page : Z) : option PageRefTable :=
  if negb (count table =? 0)%nat then
    idx ← find_slot table page;
    k ← keys table !! idx;
    v ← values table !! idx;
    if (k =? page) && (v >? 1) then
      let values' := <[idx := v - 1]> (values table) in
      if v - 1 =? 1 then
        testForResize (mkTable (count table - 1) (capacity table) (keys table) values')
      else Some (mkTable (count table) (capacity table) (keys table) values')
    else Some table
  else Some table.

(** ** The map the table stands for *)

(** The slot [j] steps from the hash of [k]. *)
Abbreviation at_step cap k j := (pos cap (hash_index k cap) j).

(** [ks] and [vs] hold exactly the counts of [R]: a live slot is in [R], a key
    of [R] is reached from its hash over slots that continue the search, and
    has one live slot. *)
Record holds (ks vs : list Z) (cap : nat) (R : gmap Z Z) : Prop := {
  h_keys : length ks = cap;
  h_values : length vs = cap;
  h_live : forall i k v, ks !! i = Some k -> vs !! i = Some v -> 1 < v -> R !! k = Some v;
  h_chain : forall k c, R !! k = Some c -> 1 < c /\ exists j, (j < cap)%nat /\
    ks !! at_step cap k j = Some k /\ vs !! at_step cap k j = Some c /\
    forall i, (i < j)%nat -> other_key ks vs k 1 (at_step cap k i) = Some true;
  h_once : forall i i' k v v', ks !! i = Some k -> ks !! i' = Some k -> vs !! i = Some v ->
    vs !! i' = Some v' -> 1 < v -> 1 < v' -> i = i';
}.

(** The table between two operations: nothing allocated yet, or a load factor
    of at most two thirds and one more. *)
Record represents (t : PageRefTable) (R : gmap Z Z) : Prop := {
  r_holds : holds (keys t) (values t) (capacity t) R;
  r_count : count t = size R;
  r_load : (count t * 3 <= capacity t * 2 + 3)%nat;
  r_capacity : (64 <= capacity t)%nat \/ (capacity t = 0 /\ count t = 0)%nat;
}.

(** ** Lemmas *)

Lemma hash_index_lt k cap : (0 < cap)%nat -> (hash_index k cap < cap)%nat.
Proof.
  intros H. unfold hash_index. pose proof (Z.mod_pos_bound (Util.hashInt64 k) (Z.of_nat cap)). lia.
Qed.

Lemma at_step_lt cap k j : (0 < cap)%nat -> (at_step cap k j < cap)%nat.
Proof. apply pos_lt. Qed.

Lemma at_step_inj cap k i j :
  (i < cap)%nat -> (j < cap)%nat -> at_step cap k i = at_step cap k j -> i = j.
Proof. intros. apply (pos_inj cap (hash_index k cap)); try done. apply hash_index_lt. lia. Qed.

Lemma other_key_total ks vs cap k m i :
  length ks = cap -> length vs = cap -> (i < cap)%nat -> exists b, other_key ks vs k m i = Some b.
Proof.
  intros Hk Hv Hi. unfold other_key.
  destruct (lookup_lt_is_Some_2 ks i) as [x ->]; [lia|]. cbn. destruct (x =? k); [eauto|].
  destruct (lookup_lt_is_Some_2 vs i) as [y ->]; [lia|]. cbn. eauto.
Qed.

Lemma other_key_true ks vs k m i :
  other_key ks vs k m i = Some true <->
  exists x y, ks !! i = Some x /\ vs !! i = Some y /\ x <> k /\ m <= y.
Proof.
  unfold other_key. destruct (ks !! i) as [x|] eqn:Hx; cbn [mbind option_bind];
    [|split; [done|by intros (? & ? & ? & _)]].
  destruct (Z.eqb_spec x k) as [->|Hne].
  { split; [done|]. intros (x & y & [= <-] & _ & ? & _). done. }
  destruct (vs !! i) as [y|]; cbn [mbind option_bind]; [|split; [done|by intros (? & ? & _ & ? & _)]].
  split.
  - intros [= H]. rewrite Z.geb_leb in H. apply Z.leb_le in H. eauto 6.
  - intros (x' & y' & [= <-] & [= <-] & _ & H). by rewrite Z.geb_leb, (proj2 (Z.leb_le m y)).
Qed.

Lemma other_key_false ks vs k m i x y :
  ks !! i = Some x -> vs !! i = Some y -> other_key ks vs k m i = Some false -> x = k \/ y < m.
Proof.
  intros Hx Hy. unfold other_key. rewrite Hx, Hy. cbn [mbind option_bind].
  destruct (Z.eqb_spec x k); [by left|]. intros [= H]. right. rewrite Z.geb_leb in H.
  by apply Z.leb_gt.
Qed.

Lemma other_key_insert ks vs k m i x y p :
  other_key ks vs k m p = Some true -> (p = i -> x <> k /\ m <= y) ->
  other_key (<[i := x]> ks) (<[i := y]> vs) k m p = Some true.
Proof.
  rewrite !other_key_true. intros (x0 & y0 & Hx & Hy & Hne & Hm) Hi.
  destruct (decide (p = i)) as [->|Hpi].
  - destruct (Hi eq_refl). exists x, y.
    rewrite !list_lookup_insert_eq by (eapply lookup_lt_Some; eassumption). done.
  - exists x0, y0. by rewrite !list_lookup_insert_ne by done.
Qed.

Lemma holds_lookup ks vs cap R i :
  holds ks vs cap R -> (i < cap)%nat -> exists k v, ks !! i = Some k /\ vs !! i = Some v.
Proof.
  intros [Hk Hv _ _ _] Hi. destruct (lookup_lt_is_Some_2 ks i) as [k ->]; [lia|].
  destruct (lookup_lt_is_Some_2 vs i) as [v ->]; [lia|]. eauto.
Qed.

Lemma holds_not_live ks vs cap R i k v :
  holds ks vs cap R -> R !! k = None -> ks !! i = Some k -> vs !! i = Some v -> v <= 1.
Proof.
  intros Hh Hk Hi Hv. destruct (Z.le_gt_cases v 1) as [|H]; [done|].
  by rewrite (h_live _ _ _ _ Hh i k v Hi Hv H) in Hk.
Qed.

(** A table whose slots are all live holds as many keys as it has slots. *)
Lemma holds_full ks vs cap R :
  holds ks vs cap R -> (forall i v, vs !! i = Some v -> 1 < v) -> (cap <= size R)%nat.
Proof.
  intros Hh Hall. pose proof Hh as [Hk Hv Hlive _ Honce].
  assert (Hnd : NoDup ks).
  { apply NoDup_alt. intros i i' k Hi Hi'.
    destruct (holds_lookup _ _ _ _ i Hh) as (k1 & v & _ & Hvi); [apply lookup_lt_Some in Hi; lia|].
    destruct (holds_lookup _ _ _ _ i' Hh) as (k2 & v' & _ & Hvi'); [apply lookup_lt_Some in Hi'; lia|].
    by apply (Honce i i' k v v'); eauto. }
  rewrite <- size_dom, <- Hk, <- (size_list_to_set (C := gset Z)) by done.
  apply subseteq_size. intros k Hin%elem_of_list_to_set. apply elem_of_dom.
  apply list_elem_of_lookup in Hin as [i Hi].
  destruct (holds_lookup _ _ _ _ i Hh) as (k1 & v & Hk1 & Hvi); [apply lookup_lt_Some in Hi; lia|].
  simplify_eq. exists v. eauto.
Qed.

(** Some slot is not live while there are fewer keys than slots. *)
Lemma not_full ks vs cap R start :
  holds ks vs cap R -> (start < cap)%nat -> (size R < cap)%nat ->
  ~ forall i, (i < cap)%nat -> exists v, vs !! pos cap start i = Some v /\ 1 < v.
Proof.
  intros Hh Hs Hsz Hall. enough (cap <= size R)%nat by lia. eapply holds_full; [done|].
  intros i v Hi. pose proof (lookup_lt_Some _ _ _ Hi) as Hlt. rewrite (h_values _ _ _ _ Hh) in Hlt.
  destruct (pos_surj cap start i Hs Hlt) as (j & Hj & <-). destruct (Hall j Hj) as (v' & Hv' & ?).
  congruence.
Qed.

(** Where the search loop stops. *)
Lemma find_slot_spec t R page :
  holds (keys t) (values t) (capacity t) R -> (0 < capacity t)%nat ->
  exists idx k v, find_slot t page = Some idx /\ keys t !! idx = Some k /\ values t !! idx = Some v /\
    match R !! page with Some c => k = page /\ v = c /\ 1 < c | None => k = page -> v <= 1 end.
Proof.
  intros Hh Hcap. unfold find_slot. set (cap := capacity t) in *.
  pose proof (hash_index_lt page cap Hcap) as Hst.
  assert (Hnone : forall idx k v, keys t !! idx = Some k -> values t !! idx = Some v ->
    R !! page = None -> k = page -> v <= 1).
  { intros idx k v Hk Hv Hp ->. destruct (Z.le_gt_cases v 1); [done|].
    rewrite (h_live _ _ _ _ Hh idx page v) in Hp by done. done. }
  destruct (R !! page) as [c|] eqn:Hp.
  - destruct (h_chain _ _ _ _ Hh page c Hp) as (Hc & j & Hj & Hk & Hv & Hch).
    exists (at_step cap page j), page, c. split; [|done].
    apply find_loop_spec; try done. unfold other_key. rewrite Hk. cbn [mbind option_bind].
    by rewrite Z.eqb_refl.
  - destruct (first_stop cap (hash_index page cap) (other_key (keys t) (values t) page 1) Hst)
      as [(j & Hj & Hstop & Hch)|Hall].
    { intros i Hi. by eapply other_key_total; [apply Hh|apply Hh|]. }
    + destruct (holds_lookup _ _ _ _ (at_step cap page j) Hh) as (k & v & Hk & Hv); [by apply at_step_lt|].
      exists (at_step cap page j), k, v. split; [by apply find_loop_spec|]. eauto.
    + destruct (holds_lookup _ _ _ _ (hash_index page cap) Hh Hst) as (k & v & Hk & Hv).
      exists (hash_index page cap), k, v. split; [by apply find_loop_wrap|]. eauto.
Qed.

(** Writing a key that is not in the table into a slot that is not live, at the
    end of a chain for it. *)
Lemma holds_insert ks vs cap R page v j y :
  holds ks vs cap R -> R !! page = None -> 1 < v -> (j < cap)%nat ->
  vs !! at_step cap page j = Some y -> y <= 1 ->
  (forall i, (i < j)%nat -> other_key ks vs page 1 (at_step cap page i) = Some true) ->
  holds (<[at_step cap page j := page]> ks) (<[at_step cap page j := v]> vs) cap (<[page := v]> R).
Proof.
  intros Hh Hp Hv Hj Hy Hy1 Hch. pose proof Hh as [Hlk Hlv Hlive Hchain Honce].
  set (s := at_step cap page j) in *.
  assert (Hs : (s < cap)%nat) by (rewrite <- Hlv; by eapply lookup_lt_Some).
  assert (Hold : forall i k w, <[s := page]> ks !! i = Some k -> <[s := v]> vs !! i = Some w ->
    (i = s /\ k = page /\ w = v) \/ (i <> s /\ ks !! i = Some k /\ vs !! i = Some w)).
  { intros i k w. destruct (decide (i = s)) as [->|Hne].
    - rewrite !list_lookup_insert_eq by lia. intros [= <-] [= <-]. by left.
    - rewrite !list_lookup_insert_ne by done. by right. }
  assert (Hno : forall i w, ks !! i = Some page -> vs !! i = Some w -> 1 < w -> False).
  { intros i w Hk Hw Hw1. by rewrite (Hlive i page w Hk Hw Hw1) in Hp. }
  split.
  - by rewrite length_insert.
  - by rewrite length_insert.
  - intros i k w Hi Hwi Hw. destruct (Hold i k w Hi Hwi) as [(-> & -> & ->)|(Hne & Hi' & Hwi')].
    + by rewrite lookup_insert_eq.
    + rewrite lookup_insert_ne; [eauto|]. intros <-. by eapply Hno.
  - intros k c Hkc. destruct (decide (k = page)) as [->|Hne].
    + rewrite lookup_insert_eq in Hkc. injection Hkc as <-. split; [done|]. exists j. split; [done|].
      rewrite !list_lookup_insert_eq by lia. split; [done|split; [done|]].
      intros i Hi. apply other_key_insert; [by apply Hch|]. intros E.
      apply at_step_inj in E; lia.
    + rewrite lookup_insert_ne in Hkc by done. destruct (Hchain k c Hkc) as (Hc & i & Hi & Hki & Hci & Hchi).
      split; [done|]. exists i. split; [done|].
      assert (at_step cap k i <> s) by (intros E; rewrite E, Hy in Hci; injection Hci; lia).
      rewrite !list_lookup_insert_ne by done. split; [done|split; [done|]].
      intros i' Hi'. apply other_key_insert; [by apply Hchi|]. intros _. split; [done|lia].
  - intros i i' k w w' Hi Hi' Hw Hw' H1 H1'.
    destruct (Hold i k w Hi Hw) as [(-> & -> & ->)|(Hne & Hk & Hwk)];
    destruct (Hold i' _ w' Hi' Hw') as [(-> & Hk' & ->)|(Hne' & Hk' & Hwk')]; [done| | |by eauto].
    + exfalso. by eapply Hno.
    + subst k. exfalso. by eapply Hno.
Qed.

(** Changing the count of a live slot, to another count or to the mark of a
    deleted slot. *)
Lemma holds_change ks vs cap R page i c v :
  holds ks vs cap R -> ks !! i = Some page -> vs !! i = Some c -> 1 < c -> 1 <= v ->
  holds ks (<[i := v]> vs) cap (if v =? 1 then delete page R else <[page := v]> R).
Proof.
  intros Hh Hk Hc Hc1 Hv. pose proof Hh as [Hlk Hlv Hlive Hchain Honce].
  pose proof (lookup_lt_Some _ _ _ Hc) as Hlt.
  assert (HR : forall k, k <> page -> (if v =? 1 then delete page R else <[page := v]> R) !! k = R !! k).
  { intros k Hne. destruct (v =? 1); [by rewrite lookup_delete_ne|by rewrite lookup_insert_ne]. }
  assert (HRp : (if v =? 1 then delete page R else <[page := v]> R) !! page = if v =? 1 then None else Some v).
  { destruct (v =? 1); [by rewrite lookup_delete_eq|by rewrite lookup_insert_eq]. }
  assert (Hck : forall k p, other_key ks vs k 1 p = Some true -> other_key ks (<[i := v]> vs) k 1 p = Some true).
  { intros k p Ho. rewrite <- (list_insert_id ks i page) by done. apply other_key_insert; [done|].
    intros ->. split; [|done]. apply other_key_true in Ho as (x & y & Hx & _ & Hne & _). congruence. }
  set (R' := if v =? 1 then delete page R else <[page := v]> R) in *. clearbody R'. split.
  - done.
  - by rewrite length_insert.
  - intros i' k w Hk' Hw H1. destruct (decide (i' = i)) as [->|Hne].
    + rewrite list_lookup_insert_eq in Hw by done. simplify_eq. rewrite HRp.
      by rewrite (proj2 (Z.eqb_neq w 1)) by lia.
    + rewrite list_lookup_insert_ne in Hw by done. rewrite HR; [eauto|]. intros ->.
      apply Hne. by eapply Honce.
  - intros k c' Hkc. destruct (decide (k = page)) as [->|Hne].
    + rewrite HRp in Hkc. destruct (Z.eqb_spec v 1); [done|]. injection Hkc as <-. split; [lia|].
      destruct (Hchain page c) as (_ & j & Hj & Hkj & Hcj & Hchj); [by eapply Hlive|].
      assert (at_step cap page j = i) as <- by (eapply Honce; eauto). exists j.
      rewrite list_lookup_insert_eq by done. eauto 6.
    + rewrite HR in Hkc by done. destruct (Hchain k c' Hkc) as (Hc' & j & Hj & Hkj & Hcj & Hchj).
      split; [done|]. exists j. rewrite list_lookup_insert_ne by congruence. eauto 6.
  - intros j j' k w w' Hj Hj' Hw Hw' H1 H1'. 
    assert (Hold : forall x u, <[i := v]> vs !! x = Some u -> 1 < u -> ks !! x = Some k ->
      exists u', vs !! x = Some u' /\ 1 < u').
    { intros x u Hu Hu1 _. destruct (decide (x = i)) as [->|Hne]; [by exists c|].
      rewrite list_lookup_insert_ne in Hu by done. eauto. }
    destruct (Hold j w Hw H1 Hj) as (u & ? & ?), (Hold j' w' Hw' H1' Hj') as (u' & ? & ?). by eapply Honce.
Qed.

(** *** Rebuilding *)

(** The live pairs of the old arrays. *)
Definition live (old : list (Z * Z)) : list (Z * Z) := filter (fun kv => 1 < snd kv) old.

Definition no_deleted (vs : list Z) : Prop := forall i v, vs !! i = Some v -> v < 1 \/ 1 < v.

Lemma no_deleted_insert vs i v : no_deleted vs -> 1 < v -> no_deleted (<[i := v]> vs).
Proof.
  intros Hn Hv j w. rewrite list_lookup_insert. destruct (decide _) as [[-> ?]|]; [|by apply Hn].
  intros [= <-]. by right.
Qed.

(** In a table without deleted slots the first empty slot ends a chain. *)
Lemma empty_slot_spec ks vs n R k :
  holds ks vs n R -> no_deleted vs -> (size R < n)%nat -> R !! k = None ->
  exists j y, (j < n)%nat /\ empty_slot vs n k = Some (at_step n k j) /\
    vs !! at_step n k j = Some y /\ y <= 1 /\
    forall i, (i < j)%nat -> other_key ks vs k 1 (at_step n k i) = Some true.
Proof.
  intros Hh Hnd Hsz Hk. pose proof (hash_index_lt k n ltac:(lia)) as Hst.
  assert (Htot : forall i, (i < n)%nat -> exists b, (v ← vs !! i; Some (v >=? 1)) = Some b).
  { intros i Hi. destruct (holds_lookup _ _ _ _ i Hh Hi) as (k' & v & _ & ->). by eexists. }
  assert (Hlive : forall i, (v ← vs !! pos n (hash_index k n) i; Some (v >=? 1)) = Some true ->
    exists v, vs !! pos n (hash_index k n) i = Some v /\ 1 < v).
  { intros i Hi. destruct (vs !! _) as [v|] eqn:Hv; [|done]. cbn in Hi. injection Hi as Hi.
    rewrite Z.geb_leb in Hi. apply Z.leb_le in Hi. exists v. split; [done|].
    destruct (Hnd _ _ Hv); lia. }
  destruct (first_stop n (hash_index k n) (fun i => v ← vs !! i; Some (v >=? 1)) Hst Htot)
    as [(j & Hj & Hstop & Hch)|Hall].
  - destruct (vs !! at_step n k j) as [y|] eqn:Hy; [|done]. cbn in Hstop. injection Hstop as Hstop.
    rewrite Z.geb_leb in Hstop. apply Z.leb_gt in Hstop.
    exists j, y. split; [done|split; [|split; [done|split; [lia|]]]].
    + apply free_loop_spec; try done. rewrite Hy. cbn. by rewrite Z.geb_leb, (proj2 (Z.leb_gt _ _)).
    + intros i Hi. destruct (Hlive i (Hch i Hi)) as (v & Hv & Hv1).
      destruct (holds_lookup _ _ _ _ (at_step n k i) Hh) as (k' & v' & Hk' & Hv'); [apply at_step_lt; lia|].
      simplify_eq. apply other_key_true. exists k', v. split; [done|split; [done|split; [|lia]]].
      intros ->. pose proof (holds_not_live _ _ _ _ _ _ _ Hh Hk Hk' Hv). lia.
  - exfalso. by apply (not_full ks vs n R (hash_index k n) Hh Hst Hsz); auto.
Qed.

Lemma rebuild_loop_spec old n ks vs R0 R :
  holds ks vs n R0 -> no_deleted vs ->
  (forall k v, R !! k = Some v <-> R0 !! k = Some v \/ (k, v) ∈ live old) ->
  NoDup (fst <$> live old) -> (forall k v, (k, v) ∈ live old -> R0 !! k = None) ->
  (size R < n)%nat ->
  exists ks' vs', rebuild_loop old n ks vs = Some (ks', vs') /\ holds ks' vs' n R.
Proof.
  revert ks vs R0. induction old as [|[k v] old IH]; intros ks vs R0 Hh Hnd HR Hdup Hnew Hsz.
  { exists ks, vs. split; [done|]. replace R with R0; [done|]. apply map_eq. intros k.
    apply option_eq. intros v. rewrite HR. cbn. split; [by left|].
    intros [?|H]; [done|by apply not_elem_of_nil in H]. }
  cbn [rebuild_loop]. unfold live in *. rewrite filter_cons in *. cbn [snd] in *.
  destruct (decide (1 < v)) as [Hv|Hv].
  2: { rewrite Z.gtb_ltb, (proj2 (Z.ltb_ge 1 v)) by lia. by apply (IH ks vs R0). }
  rewrite Z.gtb_ltb, (proj2 (Z.ltb_lt 1 v)) by done.
  cbn [fmap list_fmap fst] in Hdup. inversion_clear Hdup as [|? ? Hk Hdup'].
  rename Hdup' into Hdup.
  assert (HRk : R !! k = Some v) by (apply HR; right; apply list_elem_of_here).
  assert (HR0k : R0 !! k = None) by (apply (Hnew k v), list_elem_of_here).
  assert (Hsub : R0 ⊆ R).
  { apply map_subseteq_spec. intros k' v' ?. apply HR. by left. }
  assert (Hsz0 : (size R0 < n)%nat).
  { apply map_subseteq_size in Hsub. lia. }
  destruct (empty_slot_spec ks vs n R0 k Hh Hnd Hsz0 HR0k) as (j & y & Hj & He & Hy & Hy1 & Hch).
  rewrite He. cbn [mbind option_bind]. apply (IH _ _ (<[k := v]> R0)); try done.
  - by eapply holds_insert.
  - by apply no_deleted_insert.
  - intros k' v'. rewrite HR, elem_of_cons. destruct (decide (k' = k)) as [->|Hne].
    + rewrite lookup_insert_eq, HR0k. split.
      * intros [?|[[= ->]|Hin]]; [done|by left|by right].
      * intros [[= ->]|Hin]; [right; by left|right; by right].
    + rewrite lookup_insert_ne by done. split; intros [?|H]; [by left| |by left|right; by right].
      destruct H as [[= -> _]|?]; [done|by right].
  - intros k' v' Hin. rewrite lookup_insert_ne.
    + apply (Hnew k' v'). by apply list_elem_of_further.
    + intros <-. apply Hk. by apply (list_elem_of_fmap_2 fst _ (k, v')).
Qed.

Lemma holds_empty n : holds (replicate n 0) (replicate n 0) n ∅.
Proof.
  split; try by rewrite length_replicate.
  - intros i k v _ [-> _]%lookup_replicate. lia.
  - intros k c. by rewrite lookup_empty.
  - intros i i' k v v' _ _ [-> _]%lookup_replicate. lia.
Qed.

Lemma elem_of_live ks vs k v :
  (k, v) ∈ live (zip ks vs) <-> 1 < v /\ exists i, ks !! i = Some k /\ vs !! i = Some v.
Proof.
  unfold live. rewrite list_elem_of_filter. cbn [snd]. apply and_iff_compat_l.
  rewrite list_elem_of_lookup. apply exist_proper. intros i. rewrite lookup_zip_with.
  destruct (ks !! i), (vs !! i); cbn; split; try (intros [? ?]; done); try done.
  - by intros [= -> ->].
  - by intros [[= ->] [= ->]].
Qed.

Lemma live_NoDup ks vs :
  (forall i i' k v v', ks !! i = Some k -> ks !! i' = Some k -> vs !! i = Some v ->
    vs !! i' = Some v' -> 1 < v -> 1 < v' -> i = i') -> NoDup (fst <$> live (zip ks vs)).
Proof.
  revert vs. induction ks as [|k ks IH]; intros [|v vs] Honce; try constructor.
  assert (IHr : NoDup (fst <$> live (zip ks vs))).
  { apply IH. intros i i' k' w w' H1 H2 H3 H4 H5 H6.
    assert (S i = S i') by (eapply (Honce (S i) (S i')); eauto). lia. }
  change (zip (k :: ks) (v :: vs)) with ((k, v) :: zip ks vs).
  unfold live in *. rewrite filter_cons. cbn [snd]. destruct (decide (1 < v)); [|done].
  cbn [fmap list_fmap fst]. constructor; [|done]. intros Hin.
  apply list_elem_of_fmap in Hin as ([k' v'] & -> & Hin). cbn in *.
  apply elem_of_live in Hin as (Hv' & i & Hi & Hvi).
  assert (0%nat = S i) by (eapply (Honce 0%nat (S i)); eauto; done). lia.
Qed.

Lemma rebuild_spec t R n :
  holds (keys t) (values t) (capacity t) R -> (size R < n)%nat ->
  exists t', rebuildPageRefTable t n = Some t' /\ holds (keys t') (values t') n R /\
    count t' = count t /\ capacity t' = n.
Proof.
  intros Hh Hsz. unfold rebuildPageRefTable.
  destruct (rebuild_loop_spec (zip (keys t) (values t)) n (replicate n 0) (replicate n 0) ∅ R)
    as (ks & vs & -> & Hh'); try done.
  - apply holds_empty.
  - intros i v [-> _]%lookup_replicate. by left.
  - intros k v. rewrite lookup_empty, elem_of_live. split.
    + intros Hk. right. destruct (h_chain _ _ _ _ Hh k v Hk) as (Hv & j & _ & Hkj & Hvj & _). eauto.
    + intros [?|(Hv & i & Hi & Hvi)]; [done|]. by eapply (h_live _ _ _ _ Hh).
  - apply live_NoDup, Hh.
  - by eexists.
Qed.

Lemma testForResize_spec t R :
  represents t R ->
  exists t', testForResize t = Some t' /\ represents t' R /\ count t' = count t /\
    (64 <= capacity t')%nat /\ (count t' * 3 <= capacity t' * 2)%nat.
Proof.
  intros [Hh Hc Hload Hcap]. unfold testForResize, MIN_TABLE_CAPACITY.
  assert (Hre : forall n, (64 <= n)%nat -> (count t * 3 <= n * 2)%nat ->
    exists t', rebuildPageRefTable t n = Some t' /\ represents t' R /\ count t' = count t /\
      (64 <= capacity t')%nat /\ (count t' * 3 <= capacity t' * 2)%nat).
  { intros n Hn Hcn. destruct (rebuild_spec t R n Hh ltac:(lia)) as (t' & Hr & Hh' & Hc' & Hn').
    exists t'. rewrite Hc', Hn'. split; [done|split; [|lia]]. split; rewrite ?Hn', ?Hc'; try done; lia. }
  destruct (Nat.ltb_spec (capacity t) 128); [apply Hre; lia|].
  destruct (Nat.ltb_spec 128 (capacity t)), (Nat.ltb_spec (count t * 4) (capacity t)); cbn [andb];
    [|destruct (Nat.ltb_spec (capacity t * 2) (count t * 3))..].
  - pose proof (Nat.div_mod_eq (capacity t) 2). pose proof (Nat.mod_upper_bound (capacity t) 2).
    apply Hre; lia.
  - pose proof (Nat.div_mod_eq (capacity t * 3) 2). pose proof (Nat.mod_upper_bound (capacity t * 3) 2).
    apply Hre; lia.
  - exists t. split; [done|split; [by split|lia]].
  - lia.
  - exists t. split; [done|split; [by split|lia]].
  - pose proof (Nat.div_mod_eq (capacity t * 3) 2). pose proof (Nat.mod_upper_bound (capacity t * 3) 2).
    apply Hre; lia.
  - exists t. split; [done|split; [by split|lia]].
Qed.

(** ** Properties *)

(** The reference count of a page: pages that are not in the map have one. *)
Definition refs (R : gmap Z Z) (page : Z) : Z := default 1 (R !! page).

(** [hasOtherReferences] compares the count with one. *)
Lemma hasOther_ok zero_page R t page :
  represents t R ->
  hasOtherReferences zero_page t page = Some ((page =? zero_page) || (1 <? refs R page)).
Proof.
  intros [Hh Hc Hload Hcap]. unfold hasOtherReferences. destruct (page =? zero_page); [done|].
  cbn [orb]. unfold refs. destruct (Nat.eqb_spec (count t) 0) as [H0|H0].
  { assert (R = ∅) as -> by (apply map_size_empty_inv; lia). by rewrite lookup_empty. }
  destruct (find_slot_spec t R page Hh ltac:(lia)) as (idx & k & v & -> & Hk & Hv & Hspec).
  cbn [mbind option_bind]. rewrite Hk, Hv. cbn [mbind option_bind].
  destruct (R !! page) as [c|]; cbn [default from_option id].
  - destruct Hspec as (-> & -> & Hc1). by rewrite Z.eqb_refl, Z.gtb_ltb.
  - destruct (Z.eqb_spec k page) as [->|]; [|done]. rewrite Z.gtb_ltb.
    by rewrite (proj2 (Z.ltb_ge 1 v)) by auto.
Qed.

(** [hasOtherReferences] says whether the page has more than one reference;
    the zero page always has. *)
Theorem hasOtherReferences_refines t R zero_page page :
  represents t R ->
  hasOtherReferences zero_page t page = Some ((page =? zero_page) || (1 <? refs R page)).
Proof. apply hasOther_ok. Qed.

(** See [addReferenceFor_refines]. *)
Lemma addReference_ok t R page :
  represents t R -> refs R page + 1 < 2 ^ 64 ->
  exists t', addReferenceFor t page = Some t' /\ represents t' (<[page := refs R page + 1]> R).
Proof.
  intros Hr Hov. unfold addReferenceFor, refs in *.
  destruct (testForResize_spec t R Hr) as (t1 & -> & [Hh Hc Hload _] & _ & Hcap & Hld).
  cbn [mbind option_bind].
  destruct (find_slot_spec t1 R page Hh ltac:(lia)) as (idx & k & v & -> & Hk & Hv & Hspec).
  cbn [mbind option_bind]. rewrite Hk, Hv. cbn [mbind option_bind].
  destruct (R !! page) as [c|] eqn:Hp; cbn [default from_option id] in *.
  - destruct Hspec as (-> & -> & Hc1).
    rewrite Z.eqb_refl, Z.gtb_ltb, (proj2 (Z.ltb_lt 1 c)) by lia. cbn [andb].
    eexists. split; [done|]. unwrap.
    pose proof (holds_change _ _ _ _ page idx c (c + 1) Hh Hk Hv Hc1 ltac:(lia)) as Hch.
    rewrite (proj2 (Z.eqb_neq (c + 1) 1)) in Hch by lia.
    split; cbn [keys values capacity count]; [done| |lia|lia].
    by rewrite map_size_insert, Hp.
  - replace ((k =? page) && (v >? 1)) with false.
    2: { destruct (Z.eqb_spec k page); [|done]. rewrite Z.gtb_ltb, (proj2 (Z.ltb_ge 1 v)); auto. }
    pose proof (hash_index_lt page (capacity t1) ltac:(lia)) as Hst.
    destruct (first_stop (capacity t1) (hash_index page (capacity t1))
      (other_key (keys t1) (values t1) page 2) Hst) as [(j & Hj & Hstop & Hch)|Hall].
    { intros i Hi. by eapply other_key_total; [apply Hh|apply Hh|]. }
    2: { exfalso. apply (not_full _ _ _ R _ Hh Hst); [lia|]. intros i Hi.
      apply Hall, other_key_true in Hi as (x & y & _ & Hy & _ & ?). exists y. split; [done|lia]. }
    rewrite (free_loop_spec _ _ _ Hst _ j) by done. cbn [mbind option_bind].
    destruct (holds_lookup _ _ _ _ (at_step (capacity t1) page j) Hh) as (x & y & Hx & Hy);
      [apply at_step_lt; lia|].
    assert (Hy1 : y <= 1).
    { destruct (other_key_false _ _ _ _ _ _ _ Hx Hy Hstop) as [->|]; [|lia].
      by eapply holds_not_live. }
    eexists. split; [done|]. split; cbn [keys values capacity count]; [| |lia|lia].
    + eapply holds_insert; try done. intros i Hi. apply Hch, other_key_true in Hi as (x' & y' & ? & ? & ? & ?).
      apply other_key_true. exists x', y'. split; [done|split; [done|split; [done|lia]]].
    + rewrite map_size_insert, Hp. by rewrite Hc.
Qed.

(** [addReferenceFor] always returns, resizing the table when it has to,
    and afterwards exactly the given page has one reference more. *)
Theorem addReferenceFor_refines t R page :
  represents t R -> refs R page + 1 < 2 ^ 64 ->
  exists t', addReferenceFor t page = Some t' /\ represents t' (<[page := refs R page + 1]> R).
Proof. apply addReference_ok. Qed.

(** [removeReferenceFor] always returns; a page with several references has
    one less afterwards, and leaves the table with the last but one; every
    other page keeps its count. *)
Theorem removeReferenceFor_refines t R page :
  represents t R ->
  exists t', removeReferenceFor t page = Some t' /\
    represents t' (match R !! page with
                   | Some c => if c =? 2 then delete page R else <[page := c - 1]> R
                   | None => R
                   end).
Proof.
  intros Hr. pose proof Hr as [Hh Hc Hload Hcap]. unfold removeReferenceFor.
  destruct (Nat.eqb_spec (count t) 0) as [H0|H0]; cbn [negb].
  { assert (R = ∅) as -> by (apply map_size_empty_inv; lia). rewrite lookup_empty. by exists t. }
  destruct (find_slot_spec t R page Hh ltac:(lia)) as (idx & k & v & -> & Hk & Hv & Hspec).
  cbn [mbind option_bind]. rewrite Hk, Hv. cbn [mbind option_bind].
  destruct (R !! page) as [c|] eqn:Hp.
  - destruct Hspec as (-> & -> & Hc1).
    rewrite Z.eqb_refl, Z.gtb_ltb, (proj2 (Z.ltb_lt 1 c)) by lia. cbn [andb].
    pose proof (holds_change _ _ _ _ page idx c (c - 1) Hh Hk Hv Hc1 ltac:(lia)) as Hch.
    replace (c =? 2) with (c - 1 =? 1) by lia. destruct (Z.eqb_spec (c - 1) 1) as [E|E].
    + destruct (testForResize_spec
        (mkTable (count t - 1) (capacity t) (keys t) (<[idx := c - 1]> (values t))) (delete page R))
        as (t' & Ht' & Hr' & _); [|by exists t'].
      split; cbn [keys values capacity count]; try done; [| |lia].
      * rewrite map_size_delete, Hp. cbn. lia.
      * lia.
    + eexists. split; [done|]. split; cbn [keys values capacity count]; [done| |lia|lia].
      by rewrite map_size_insert, Hp.
  - replace ((k =? page) && (v >? 1)) with false; [by exists t|].
    destruct (Z.eqb_spec k page); [|done]. rewrite Z.gtb_ltb, (proj2 (Z.ltb_ge 1 v)); auto.
Qed.

Lemma empty_represents : represents (mkTable 0 0 [] []) ∅.
Proof. split; cbn [keys values capacity count]; try lia; [apply (holds_empty 0)|done]. Qed.

(** A table of 128 slots with the page [0x80200000], which three spaces share. *)
Definition demo_page : Z := 0x80200000.
Definition demo_table : PageRefTable :=
  mkTable 1 128 (<[at_step 128 demo_page 0 := demo_page]> (replicate 128 0))
    (<[at_step 128 demo_page 0 := 3]> (replicate 128 0)).

Lemma demo_represents : represents demo_table (<[demo_page := 3]> ∅).
Proof.
  split; cbn [demo_table keys values capacity count]; [|by rewrite map_size_insert|lia|lia].
  eapply (holds_insert _ _ 128 ∅ demo_page 3 0 0); try apply holds_empty; try done; lia.
Qed.

Lemma addReferenceFor_refines_witness :
  exists t', addReferenceFor (mkTable 0 0 [] []) demo_page = Some t' /\
    represents t' (<[demo_page := refs ∅ demo_page + 1]> ∅).
Proof. apply addReferenceFor_refines; [exact empty_represents|vm_compute; reflexivity]. Defined.

Lemma hasOtherReferences_refines_witness :
  hasOtherReferences 0x80100000 demo_table demo_page
  = Some ((demo_page =? 0x80100000) || (1 <? refs (<[demo_page := 3]> ∅) demo_page)).
Proof. apply hasOtherReferences_refines, demo_represents. Defined.

Lemma removeReferenceFor_refines_witness :
  exists t', removeReferenceFor demo_table demo_page = Some t' /\
    represents t' (match (<[demo_page := 3]> (∅ : gmap Z Z)) !! demo_page with
                   | Some c => if c =? 2 then delete demo_page (<[demo_page := 3]> ∅)
                               else <[demo_page := c - 1]> (<[demo_page := 3]> ∅)
                   | None => <[demo_page := 3]> ∅
                   end).
Proof. apply removeReferenceFor_refines, demo_represents. Defined.

End PageRef.
