(* ===== verification/MemSpace.v ===== *)
(** * MemSpace: [kernel/src/memory/memspace.c] and [kernel/src/memory/syscall.c]

    Memory spaces with copy-on-write pages: page faults, cloning for [fork],
    freeing, and the system calls [sbrk] and [protect].  The state is the
    physical memory and the table of reference counts; [global_page_lock] is
    held around the accesses to the table. *)
From S2P Require Import Prelude Util Allocator PageAlloc PageTable PageRef.
Import PageAlloc PageTable.

Local Open Scope c_scope.

Module MemSpace.

(** ** Definitions *)

Record space_state := mkState {
  phys : mem;
  ref_count : PageRef.PageRefTable;
}.

Abbreviation MS := (M space_state).

(** A computation on physical memory. *)
Definition on_mem {A} (c : M mem A) : MS A := fun s =>
  '(a, m) ← c (phys s); Some (a, mkState m (ref_count s)).

Definition on_refs (f : PageRef.PageRefTable -> option PageRef.PageRefTable) : MS unit := fun s =>
  t ← f (ref_count s); Some (tt, mkState (phys s) t).

(** [entry->bits |= b] and [entry->bits &= ~b] *)
Definition or_bits (e b : Z) : Z := set_bits e (Z.lor (entry_bits e) b).
Definition clear_bits (e b : Z) : Z := set_bits e (Z.ldiff (entry_bits e) b).

(** The words [l] of the page [src] copied to the page [dest]. *)
Definition copied (m : mem) (dest src : Z) (l : list Z) : mem :=
  foldr (fun i m' => match m !! (src + 8 * i) with
                     | Some v => <[dest + 8 * i := v]> m'
                     | None => delete (dest + 8 * i) m'
                     end) m l.

(** [memcpy(dest, src, PAGE_SIZE)] of two pages. *)
Definition copy_page (dest src : Z) : M mem unit := fun m =>
  Some (tt, copied m dest src (seqZ 0 512)).

Section Code.
Context `{PageService} (zero_page : Z).

Definition createMemorySpace : MS Z := on_mem createPageTable.

Definition hasOtherReferences (page : Z) : MS bool := fun s =>
  b ← PageRef.hasOtherReferences zero_page (ref_count s) page; Some (b, s).

(** The two branches of [handlePageFault]: [phy == zero_page], and not. *)
Definition fault_zero (entry e : Z) : MS bool :=
  page ← on_mem zalloc_page;
  if page =? 0 then mret false
  else
    on_mem (store entry (set_paddr (clear_bits (or_bits e PAGE_ENTRY_WRITE) PAGE_ENTRY_COPY)
                           (Z.shiftr page 12)));;
    mret true.

Definition fault_copy (entry e phy : Z) : MS bool :=
  other ← hasOtherReferences phy;
  if other : bool then
    page ← on_mem alloc_page;
    if page =? 0 then mret false
    else
      on_mem (copy_page page phy);;
      on_mem (store entry (clear_bits (or_bits (set_paddr e (Z.shiftr page 12)) PAGE_ENTRY_WRITE)
                             PAGE_ENTRY_COPY));;
      mret true
  else
    on_mem (store entry (clear_bits (or_bits e PAGE_ENTRY_WRITE) PAGE_ENTRY_COPY));;
    mret true.

Definition handlePageFault (root address : Z) : MS bool :=
  entry ← on_mem (virtToEntry root address);
  e ← (if entry =? 0 then mret 0 else on_mem (load entry));
  if negb (entry =? 0) && entry_v e && has_bits e PAGE_ENTRY_COPY then
    let phy := entry_page e in
    if phy =? zero_page then fault_zero entry e else fault_copy entry e phy
  else mret false.

Definition virtToPhys (root vaddr : Z) (write allow_all : bool) : MS Z :=
  if root =? 0 then mret vaddr
  else
    entry ← on_mem (virtToEntry root vaddr);
    if entry =? 0 then mret 0
    else
      e ← on_mem (load entry);
      if write then
        if has_bits e PAGE_ENTRY_WRITE then on_mem (unsafeVirtToPhys root vaddr)
        else if has_bits e PAGE_ENTRY_COPY then
          handled ← handlePageFault root vaddr;
          if handled : bool then e ← on_mem (load entry); mret (entry_page e)
          else mret 0
        else if allow_all then on_mem (unsafeVirtToPhys root vaddr)
        else mret 0
      else if has_bits e PAGE_ENTRY_READ || allow_all then on_mem (unsafeVirtToPhys root vaddr)
      else mret 0.

Definition freePageEntryData (entry : Z) : MS unit :=
  e ← on_mem (load entry);
  if negb (has_bits e PAGE_ENTRY_GLOBAL) then
    let phy := entry_page e in
    if negb (phy =? zero_page) then
      other ← hasOtherReferences phy;
      if negb other then on_mem (free_page phy)
      else on_refs (fun t => PageRef.removeReferenceFor t phy)
    else mret tt
  else mret tt.

Definition unmapAndFreePage (root vaddr : Z) : MS unit :=
  entry ← on_mem (virtToEntry root vaddr);
  if negb (entry =? 0) then
    freePageEntryData entry;;
    e ← on_mem (load entry);
    on_mem (store entry (set_v e false))
  else mret tt.

(** [for (i = ...) f(i)] *)
Fixpoint for_each (l : list Z) (f : Z -> MS unit) : MS unit :=
  match l with
  | [] => mret tt
  | i :: l' => f i;; for_each l' f
  end.

(** [level] counts one more than in the code; 0 is its [level < 0]. *)
Fixpoint freePagesInTable (table : Z) (level : nat) : MS unit :=
  match level with
  | O => mret tt
  | S below =>
      for_each (seqZ 0 PAGE_TABLE_SIZE) (fun i =>
        let entry := slot table i in
        e ← on_mem (load entry);
        (if entry_v e then
           if negb (has_bits e PAGE_ENTRY_RWX) then
             freePagesInTable (entry_page e) below;;
             on_mem (free_page (entry_page e))
           else freePageEntryData entry
         else mret tt);;
        on_mem (store entry 0))
  end.

Definition freeMemorySpace (root : Z) : MS unit := freePagesInTable root 3.

Definition deallocMemorySpace (root : Z) : MS unit :=
  freeMemorySpace root;; on_mem (free_page root).

Definition copyMemoryPageEntry (dst src : Z) : MS bool :=
  s ← on_mem (load src);
  (if negb (has_bits s PAGE_ENTRY_GLOBAL) then
     let phy := entry_page s in
     if negb (phy =? zero_page) then
       on_refs (fun t => PageRef.addReferenceFor t phy);;
       if has_bits s PAGE_ENTRY_WRITE then
         on_mem (store src (clear_bits (or_bits s PAGE_ENTRY_COPY) PAGE_ENTRY_WRITE));;
         d ← on_mem (load dst);
         on_mem (store dst (clear_bits (or_bits d PAGE_ENTRY_COPY) PAGE_ENTRY_WRITE))
       else mret tt
     else mret tt
   else mret tt);;
  mret true.

(** [for (...) { if (!f(i)) return false; } return true;] *)
Fixpoint for_all (l : list Z) (f : Z -> MS bool) : MS bool :=
  match l with
  | [] => mret true
  | i :: l' => ok ← f i; if ok : bool then for_all l' f else mret false
  end.

(** The recursion of the code follows the tables; [levels] is how many more
    there can be. *)
Fixpoint copyAllPagesAndAllocUsers (levels : nat) (dest src : Z) : MS bool :=
  match levels with
  | O => fault
  | S below =>
      for_all (seqZ 0 PAGE_TABLE_SIZE) (fun i =>
        let entry := slot src i in
        e ← on_mem (load entry);
        on_mem (store (slot dest i) e);;
        if entry_v e then
          if negb (has_bits e PAGE_ENTRY_RWX) then
            dst_table ← on_mem createPageTable;
            ok ← copyAllPagesAndAllocUsers below dst_table (entry_page e);
            if ok : bool then
              d ← on_mem (load (slot dest i));
              on_mem (store (slot dest i) (set_paddr d (Z.shiftr dst_table 12)));;
              mret true
            else mret false
          else copyMemoryPageEntry (slot dest i) entry
        else mret true)
  end.

Definition cloneMemorySpace (root : Z) : MS Z :=
  space ← createMemorySpace;
  ok ← copyAllPagesAndAllocUsers 3 space root;
  if ok : bool then mret space else deallocMemorySpace space;; mret 0.

(** ** The system calls of [memory/syscall.c] *)

(** The part of [process->memory] they use. *)
Record ProcessMemory := mkMemory { mem_root : Z; start_brk : Z; brk : Z }.

Definition brk_flags : Z :=
  Z.lor (Z.lor (Z.lor PAGE_ENTRY_USER PAGE_ENTRY_READ) PAGE_ENTRY_AD) PAGE_ENTRY_COPY.

(** [for (i = from; i < to; i += PAGE_SIZE) f(i)] *)
Fixpoint pages_do (fuel : nat) (i to : Z) (f : Z -> MS unit) : MS unit :=
  match fuel with
  | O => fault
  | S fuel' => if i <? to then f i;; pages_do fuel' (i +% PAGE_SIZE) to f else mret tt
  end.

Definition page_up (x : Z) : Z := Z.land ((x +% PAGE_SIZE) -% 1) (u64 (- PAGE_SIZE)).

(** [change] is the value of the [intptr_t]; the result is the old break and
    the process afterwards. *)
Definition changeProcessBreak (p : ProcessMemory) (change : Z) : MS (Z * ProcessMemory) :=
  let old_brk := brk p in
  let last := old_brk +% Util.smax change (s64 (- old_brk)) in
  let last := if last <? start_brk p then start_brk p else last in
  let page_start := page_up old_brk in
  let page_end := page_up last in
  let p' := mkMemory (mem_root p) (start_brk p) last in
  let fuel := S (Z.to_nat (Z.abs (page_end - page_start) / PAGE_SIZE)) in
  (if page_start =? page_end then mret tt
   else if page_end >? page_start then
     pages_do fuel page_start page_end (fun i =>
       on_mem (mapPage (mem_root p) i zero_page brk_flags 0);; mret tt)
   else pages_do fuel page_end page_start (unmapAndFreePage (mem_root p)));;
  mret (old_brk, p').

Definition PROT_READ : Z := 1.
Definition PROT_WRITE : Z := 2.
Definition PROT_EXEC : Z := 4.
Definition EINVAL : Z := 22.

Definition allPagesProtectCallback (start last protect : Z) (entry vaddr : Z) : M mem unit :=
  e ← load entry;
  if (vaddr >=? start) && (vaddr <? last) && has_bits e PAGE_ENTRY_USER then
    let e := clear_bits e PAGE_ENTRY_RWX in
    let e := if negb (Z.land protect PROT_READ =? 0) then or_bits e PAGE_ENTRY_READ else e in
    let e := if negb (Z.land protect PROT_WRITE =? 0) then or_bits e PAGE_ENTRY_WRITE else e in
    let e := if negb (Z.land protect PROT_EXEC =? 0) then or_bits e PAGE_ENTRY_EXEC else e in
    store entry e
  else mret tt.

Definition protectSyscall (root addr length protect : Z) : MS Z :=
  if Z.land protect (Z.lor (Z.lor PROT_READ PROT_WRITE) PROT_EXEC) =? 0 then mret (- EINVAL)
  else
    (if negb (length =? 0) then
       let start := Z.land addr (u64 (- PAGE_SIZE)) in
       let last := Z.land (((addr +% length) +% PAGE_SIZE) -% 1) (u64 (- PAGE_SIZE)) in
       on_mem (allPagesDo root (allPagesProtectCallback start last protect))
     else mret tt);;
    mret 0.

End Code.

(** ** Lemmas *)

Lemma on_mem_some {A} (c : M mem A) s a m :
  c (phys s) = Some (a, m) -> on_mem c s = Some (a, mkState m (ref_count s)).
Proof. intros H. unfold on_mem. by rewrite H. Qed.

Lemma bind_mem {A B} (c : M mem A) (k : A -> MS B) s a m :
  c (phys s) = Some (a, m) ->
  mbind (M := MS) k (on_mem c) s = k a (mkState m (ref_count s)).
Proof. intros H. apply bind_some. by apply on_mem_some. Qed.

Lemma entry_v_bits e : entry_v e = Z.testbit (entry_bits e) 0.
Proof. unfold entry_v, entry_bits. by rewrite testbit_get_field by lia. Qed.

Lemma entry_bits_set_bits e b : entry_bits (set_bits e b) = Z.land b (Z.ones 10).
Proof. unfold entry_bits, set_bits. by apply get_set_same. Qed.

Lemma entry_bits_set_paddr e p : entry_bits (set_paddr e p) = entry_bits e.
Proof. unfold entry_bits, set_paddr. apply get_set_other; lia. Qed.

Lemma testbit_entry_bits e i : 0 <= i -> Z.testbit (entry_bits e) i = (i <? 10) && Z.testbit e i.
Proof. intros Hi. unfold entry_bits. by rewrite testbit_get_field by lia. Qed.

(** Setting the flags [a] and clearing the flags [b]. *)
Lemma flags_spec e a b :
  0 <= a < 2 ^ 10 ->
  entry_bits (clear_bits (or_bits e a) b) = Z.ldiff (Z.lor (entry_bits e) a) b.
Proof.
  intros Ha. unfold clear_bits, or_bits. rewrite !entry_bits_set_bits. apply Z.bits_inj'. intros i Hi.
  rewrite !Z.land_spec, !Z.ldiff_spec, !Z.land_spec, !Z.lor_spec, Z.testbit_ones_nonneg by lia.
  rewrite testbit_entry_bits by done. destruct (Z.ltb_spec i 10); cbn [andb].
  - by rewrite !andb_true_r.
  - rewrite (high_bits_zero 10 a) by lia. by rewrite !andb_false_r.
Qed.

Lemma entry_page_clear_bits e b : entry_page (clear_bits e b) = entry_page e.
Proof. unfold entry_page, clear_bits. by rewrite entry_paddr_set_bits. Qed.

Lemma entry_page_or_bits e b : entry_page (or_bits e b) = entry_page e.
Proof. unfold entry_page, or_bits. by rewrite entry_paddr_set_bits. Qed.

Lemma has_bits_eq e e' mask : entry_bits e = entry_bits e' -> has_bits e mask = has_bits e' mask.
Proof. unfold has_bits. by intros ->. Qed.

(** The entry of a copy-on-write page that was made writable. *)
Lemma writable_entry e e' :
  entry_bits e' = Z.ldiff (Z.lor (entry_bits e) PAGE_ENTRY_WRITE) PAGE_ENTRY_COPY ->
  entry_v e = true ->
  entry_v e' = true /\ has_bits e' PAGE_ENTRY_RWX = true /\ has_bits e' PAGE_ENTRY_WRITE = true /\
  has_bits e' PAGE_ENTRY_COPY = false.
Proof.
  intros He Hv.
  assert (Hbit : forall i, 0 <= i -> Z.testbit (entry_bits e') i =
    (Z.testbit (entry_bits e) i || Z.testbit PAGE_ENTRY_WRITE i) && negb (Z.testbit PAGE_ENTRY_COPY i)).
  { intros i Hi. by rewrite He, Z.ldiff_spec, Z.lor_spec. }
  assert (Hmask : forall mask i, 0 <= i -> Z.testbit mask i = true -> Z.testbit (entry_bits e') i = true ->
    has_bits e' mask = true).
  { intros mask i Hi Hm Hb. unfold has_bits. apply negb_true_iff, Z.eqb_neq. intros E.
    assert (Z.testbit (Z.land (entry_bits e') mask) i = true) as Ht by (by rewrite Z.land_spec, Hb, Hm).
    by rewrite E, Z.testbit_0_l in Ht. }
  split; [|split; [|split]].
  - rewrite entry_v_bits in Hv |- *. by rewrite Hbit, Hv.
  - apply (Hmask _ 2); [lia|done|]. rewrite Hbit by lia. by rewrite orb_comm.
  - apply (Hmask _ 2); [lia|done|]. rewrite Hbit by lia. by rewrite orb_comm.
  - unfold has_bits. apply negb_false_iff, Z.eqb_eq. rewrite He. apply Z.bits_inj'. intros i Hi.
    rewrite Z.land_spec, Z.ldiff_spec, Z.bits_0. by destruct (Z.testbit PAGE_ENTRY_COPY i); rewrite ?andb_false_r.
Qed.

Lemma copied_in m dest src l i : i ∈ l -> copied m dest src l !! (dest + 8 * i) = m !! (src + 8 * i).
Proof.
  unfold copied. induction l as [|j l IH]; intros Hi; [by apply not_elem_of_nil in Hi|]. cbn [foldr].
  destruct (decide (i = j)) as [->|Hne].
  - destruct (m !! (src + 8 * j)); [by rewrite lookup_insert_eq|by rewrite lookup_delete_eq].
  - apply elem_of_cons in Hi as [|Hi]; [done|].
    destruct (m !! (src + 8 * j)); [rewrite lookup_insert_ne by lia|rewrite lookup_delete_ne by lia]; auto.
Qed.

Lemma copied_out m dest src l x :
  (forall i, i ∈ l -> x <> dest + 8 * i) -> copied m dest src l !! x = m !! x.
Proof.
  unfold copied. induction l as [|j l IH]; intros Hx; [done|]. cbn [foldr].
  assert (x <> dest + 8 * j) by (apply Hx, list_elem_of_here).
  assert (forall i, i ∈ l -> x <> dest + 8 * i) by (intros; by apply Hx, list_elem_of_further).
  destruct (m !! (src + 8 * j)); [rewrite lookup_insert_ne by done|rewrite lookup_delete_ne by done]; auto.
Qed.

Lemma entry_page_mod e : entry_page e mod 4096 = 0.
Proof.
  unfold entry_page. rewrite Z.shiftl_mul_pow2 by lia. change (2 ^ 12) with 4096. unfold wrap.
  pose proof (get_field_range 10 44 e ltac:(lia)) as Hr. fold (entry_paddr e) in Hr.
  rewrite (Z.mod_small _ (2 ^ 64)) by lia. apply Z.mod_mul. lia.
Qed.

Lemma entry_page_set e p :
  0 <= p < 2 ^ 56 -> p mod 4096 = 0 -> entry_page (set_paddr e (Z.shiftr p 12)) = p.
Proof. intros Hp Hm. unfold entry_page. by rewrite entry_page_set_paddr, align_down_id by (done || lia). Qed.

Section Faults.
Context `{S : PageService} `{!PageLaws S} (zero_page : Z).

(** Pointing the entry of [va] to another page, or changing its flags. *)
Lemma install m T g root va ent e' :
  tree m T g -> T !! root = Some 2%nat -> lookup_pt m 2 root va = Some (ent, 0%nat) ->
  entry_v e' = true -> has_bits e' PAGE_ENTRY_RWX = true ->
  let m2 := <[ent := e']> m in
  tree m2 T g /\ virtToEntry root va m2 = Some (ent, m2) /\
  unsafeVirtToPhys root va m2 = Some (entry_page e' + va mod PAGE_SIZE, m2) /\ ~ owned g ent /\
  exists t, T !! t = Some 0%nat /\ page_of t ent.
Proof.
  intros Htr Hroot Hl Hv Hb m2.
  destruct (lookup_pt_leaf m T g 2 root va ent 0 Htr Hroot Hl) as (t & e & Ht & Hent & He & Hve & Hat).
  pose proof (vpn_range va (Z.of_nat 0)) as Hr. destruct (table_slot m T g t 0 _ Htr Ht Hr) as (Hp & Ho & _).
  assert (Hbr : branch e = false).
  { destruct (branch e) eqn:E; [|done].
    destruct (tr_entry _ _ _ Htr t 0%nat _ Ht Hr) as (e0 & He0 & Hn).
    rewrite Hent in He. simplify_eq. destruct (Hn E) as (n' & ? & _). lia. }
  rewrite <- Hent in Hp, Ho.
  assert (Htr2 : tree m2 T g).
  { unfold m2. rewrite Hent in He |- *. by eapply leaf_tree. }
  destruct (leaf_phys m T g t (vpn va (Z.of_nat 0)) e e' 0 2 root va) as [H1 _]; try done; [by rewrite <- Hent|].
  rewrite <- Hent in H1. fold m2 in H1. destruct (H1 Hat) as [Hent2 Hphys].
  rewrite (virtToEntry_spec m2 T g), (unsafeVirtToPhys_spec m2 T g), Hent2, Hphys by done.
  rewrite align_down_id by (try apply entry_page_mod; done).
  split; [done|split; [done|split; [done|split; [done|by exists t]]]].
Qed.

(** The memory after an allocation: still the same tree. *)
Lemma tree_fresh m m1 T g g1 p root va ent :
  tree m T g -> fresh_page p g g1 m m1 -> T !! root = Some 2%nat ->
  lookup_pt m 2 root va = Some (ent, 0%nat) ->
  tree m1 T g1 /\ lookup_pt m1 2 root va = Some (ent, 0%nat).
Proof.
  intros Htr Hfr Hroot Hl. destruct (tree_frame m m1 T g g1 Htr) as (Htr1 & Hl1); [apply Hfr|apply Hfr| |].
  - intros t n x Ht Hx. apply (fr_frame _ _ _ _ _ Hfr). by eapply tr_free.
  - split; [done|]. by rewrite Hl1.
Qed.

Lemma entry_page_heap e p : heap_page p -> entry_page (set_paddr e (Z.shiftr p 12)) = p.
Proof.
  intros H. destruct (heap_page_range p H) as (H1 & H2 & H3). unfold PAGE_SIZE in *.
  apply entry_page_set; [lia|done].
Qed.

(** After a fault was handled. *)
Record faulted (s s' : space_state) (T : gmap Z nat) (g g' : ghost) (root va ent e e' : Z) : Prop := {
  fl_tree : tree (phys s') T g';
  fl_refs : ref_count s' = ref_count s;
  fl_entry : phys s' !! ent = Some e';
  fl_bits : entry_bits e' = Z.ldiff (Z.lor (entry_bits e) PAGE_ENTRY_WRITE) PAGE_ENTRY_COPY;
  fl_virt : virtToEntry root va (phys s') = Some (ent, phys s');
  fl_phys : unsafeVirtToPhys root va (phys s') = Some (entry_page e' + va mod PAGE_SIZE, phys s');
  fl_frame : forall x, x <> ent -> ~ owned g x -> phys s' !! x = phys s !! x;
}.

(** After a fault that could not be handled: only the allocator's own words may
    differ, every table and every translation is the one of before. *)
Record untouched (s s' : space_state) (T : gmap Z nat) (g g' : ghost) : Prop := {
  un_tree : tree (phys s') T g';
  un_refs : ref_count s' = ref_count s;
  un_owned : forall x, owned g' x -> owned g x;
  un_frame : forall x, ~ owned g x -> phys s' !! x = phys s !! x;
  un_lookup : forall n r va, T !! r = Some n -> lookup_pt (phys s') n r va = lookup_pt (phys s) n r va;
}.

(** A private page for the faulting space. *)
Definition private_page (g g' : ghost) (p : Z) : Prop :=
  forall x, page_of p x -> owned g x /\ ~ owned g' x.

Lemma virt_entry_nonzero m T g root va ent l :
  tree m T g -> T !! root = Some 2%nat -> lookup_pt m 2 root va = Some (ent, l) -> 0 < ent.
Proof.
  intros Htr Hroot Hl.
  destruct (lookup_pt_leaf m T g 2 root va ent l Htr Hroot Hl) as (t & e & Ht & -> & _).
  pose proof (heap_page_range t (tr_page _ _ _ Htr t l Ht)) as (? & _).
  pose proof (vpn_range va (Z.of_nat l)). unfold slot. lia.
Qed.

(** The test at the head of [handlePageFault]. *)
Lemma fault_head s T g root va ent e :
  tree (phys s) T g -> T !! root = Some 2%nat -> lookup_pt (phys s) 2 root va = Some (ent, 0%nat) ->
  phys s !! ent = Some e -> has_bits e PAGE_ENTRY_COPY = true ->
  entry_v e = true /\ on_mem (virtToEntry root va) s = Some (ent, s) /\
  (if ent =? 0 then mret 0 else on_mem (load ent)) s = Some (e, s) /\
  negb (ent =? 0) && entry_v e && has_bits e PAGE_ENTRY_COPY = true.
Proof.
  intros Htr Hroot Hl He Hc.
  destruct (lookup_pt_leaf _ T g 2 root va ent 0 Htr Hroot Hl) as (t & e0 & _ & _ & He0 & Hv & _).
  simplify_eq. pose proof (virt_entry_nonzero _ T g root va ent 0 Htr Hroot Hl).
  rewrite (proj2 (Z.eqb_neq ent 0)) by lia. rewrite Hv, Hc. split; [done|].
  split; [|split; [|done]]; destruct s as [m r]; cbn [phys] in *.
  - erewrite on_mem_some; [reflexivity|]. cbn [phys]. rewrite (virtToEntry_spec m T g) by done.
    unfold lookup_entry. by rewrite Hl.
  - erewrite on_mem_some; [reflexivity|]. cbn [phys]. unfold load. by rewrite He.
Qed.

Lemma fault_done s m1 T g g1 root va ent e e' :
  tree m1 T g1 -> T !! root = Some 2%nat -> lookup_pt m1 2 root va = Some (ent, 0%nat) ->
  (forall x, ~ owned g x -> m1 !! x = phys s !! x) -> entry_v e = true ->
  entry_bits e' = Z.ldiff (Z.lor (entry_bits e) PAGE_ENTRY_WRITE) PAGE_ENTRY_COPY ->
  faulted s (mkState (<[ent := e']> m1) (ref_count s)) T g g1 root va ent e e'.
Proof.
  intros Htr Hroot Hl Hfr Hv Hbits. destruct (writable_entry e e' Hbits Hv) as (Hv' & Hb' & _).
  destruct (install m1 T g1 root va ent e' Htr Hroot Hl Hv' Hb') as (Htr2 & Hvirt & Hphys & _).
  split; cbn [phys ref_count]; try done.
  - by rewrite lookup_insert_eq.
  - intros x Hx Ho. rewrite lookup_insert_ne by done. by apply Hfr.
Qed.

(** The words of a fresh page after the entry was written. *)
Lemma fresh_word (m1 m : mem) T g g0 p root va ent e' i :
  tree m T g -> T !! root = Some 2%nat -> lookup_pt m 2 root va = Some (ent, 0%nat) ->
  private_page g g0 p -> 0 <= i < 512 -> <[ent := e']> m1 !! (p + 8 * i) = m1 !! (p + 8 * i).
Proof.
  intros Htr Hroot Hl Hp Hi. rewrite lookup_insert_ne; [done|]. intros ->.
  destruct (lookup_pt_leaf m T g 2 root va _ 0 Htr Hroot Hl) as (t & e & Ht & Hent & _).
  destruct (table_slot m T g t 0 _ Htr Ht (vpn_range va (Z.of_nat 0))) as (_ & Ho & _).
  rewrite <- Hent in Ho. apply Ho, Hp. unfold page_of, PAGE_SIZE. lia.
Qed.

Lemma fault_none s m1 T g g1 p :
  tree (phys s) T g -> fresh_page p g g1 (phys s) m1 -> untouched s (mkState m1 (ref_count s)) T g g1.
Proof.
  intros Htr Hfr. destruct (tree_frame (phys s) m1 T g g1 Htr) as (Htr1 & Hl1); [apply Hfr|apply Hfr| |].
  { intros t n x Ht Hx. apply (fr_frame _ _ _ _ _ Hfr). by eapply tr_free. }
  split; cbn [phys ref_count]; try done; [apply Hfr|apply Hfr|by auto].
Qed.

(** A branch of [handlePageFault] ends well. *)
Definition fault_ok (s s' : space_state) (T : gmap Z nat) (g g' : ghost) (root va ent e e' : Z) : Prop :=
  faulted s s' T g g' root va ent e e' /\ private_page g g' (entry_page e').

Lemma fault_zero_spec s T g root va ent e :
  tree (phys s) T g -> T !! root = Some 2%nat ->
  lookup_pt (phys s) 2 root va = Some (ent, 0%nat) -> entry_v e = true ->
  (exists s' g', fault_zero ent e s = Some (false, s') /\ free_pages g = 0%nat /\ untouched s s' T g g') \/
  exists s' g' e', fault_zero ent e s = Some (true, s') /\ fault_ok s s' T g g' root va ent e e' /\
    forall i, 0 <= i < 512 -> phys s' !! (entry_page e' + 8 * i) = Some 0.
Proof.
  intros Htr Hroot Hl Hv. unfold fault_zero.
  destruct (zalloc_page_spec (phys s) g (tr_inv _ _ _ Htr)) as (p & m1 & g1 & Ha & Hfr & H0).
  rewrite (bind_mem _ _ _ _ _ Ha). destruct (Z.eqb_spec p 0) as [->|Hp].
  { left. eexists _, g1. split; [done|]. split; [by rewrite (fr_count _ _ _ _ _ Hfr)|by eapply fault_none]. }
  right. destruct (tree_fresh _ m1 T g g1 p root va ent Htr Hfr Hroot Hl) as (Htr1 & Hl1).
  set (e' := set_paddr (clear_bits (or_bits e PAGE_ENTRY_WRITE) PAGE_ENTRY_COPY) (Z.shiftr p 12)).
  assert (Hpg : entry_page e' = p) by (apply entry_page_heap; by apply (fr_heap _ _ _ _ _ Hfr)).
  assert (Hpriv : private_page g g1 p) by (intros x Hx; by apply (fr_page _ _ _ _ _ Hfr Hp)).
  exists (mkState (<[ent := e']> m1) (ref_count s)), g1, e'. split; [done|]. rewrite <- Hpg in Hpriv.
  split; [split; [|done]|].
  - apply fault_done; try done; [apply Hfr|].
    unfold e'. rewrite entry_bits_set_paddr. by apply flags_spec.
  - intros i Hi. cbn [phys].
    rewrite (fresh_word m1 (phys s) T g g1 (entry_page e') root va) by done. rewrite Hpg. by apply H0.
Qed.

Lemma fault_copy_spec s T g R root va ent e :
  tree (phys s) T g -> T !! root = Some 2%nat -> PageRef.represents (ref_count s) R ->
  lookup_pt (phys s) 2 root va = Some (ent, 0%nat) -> entry_v e = true ->
  entry_page e <> zero_page -> (forall x, page_of (entry_page e) x -> ~ owned g x) ->
  1 < PageRef.refs R (entry_page e) ->
  (exists s' g', fault_copy zero_page ent e (entry_page e) s = Some (false, s') /\
    free_pages g = 0%nat /\ untouched s s' T g g') \/
  exists s' g' e', fault_copy zero_page ent e (entry_page e) s = Some (true, s') /\
    fault_ok s s' T g g' root va ent e e' /\
    forall i, 0 <= i < 512 -> phys s' !! (entry_page e' + 8 * i) = phys s !! (entry_page e + 8 * i).
Proof.
  intros Htr Hroot HR Hl Hv Hz Hold Hrefs. unfold fault_copy.
  rewrite (bind_some _ _ s s true).
  2: { unfold hasOtherReferences. rewrite (PageRef.hasOther_ok _ R) by done. cbn [mbind option_bind].
       by rewrite (proj2 (Z.ltb_lt _ _) Hrefs), orb_true_r. }
  destruct (alloc_page_spec (phys s) g (tr_inv _ _ _ Htr)) as (p & m1 & g1 & Ha & Hfr).
  rewrite (bind_mem _ _ _ _ _ Ha). destruct (Z.eqb_spec p 0) as [->|Hp].
  { left. eexists _, g1. split; [done|]. split; [by rewrite (fr_count _ _ _ _ _ Hfr)|by eapply fault_none]. }
  right. destruct (tree_fresh _ m1 T g g1 p root va ent Htr Hfr Hroot Hl) as (Htr1 & Hl1).
  set (e' := clear_bits (or_bits (set_paddr e (Z.shiftr p 12)) PAGE_ENTRY_WRITE) PAGE_ENTRY_COPY).
  assert (Hpg : entry_page e' = p).
  { unfold e'. rewrite entry_page_clear_bits, entry_page_or_bits.
    apply entry_page_heap. by apply (fr_heap _ _ _ _ _ Hfr). }
  assert (Hpriv : private_page g g1 p) by (intros x Hx; by apply (fr_page _ _ _ _ _ Hfr Hp)).
  set (m2 := copied m1 p (entry_page e) (seqZ 0 512)).
  assert (Hword : forall i, i ∈ seqZ 0 512 -> page_of p (p + 8 * i)).
  { intros i Hi%elem_of_seqZ. unfold page_of, PAGE_SIZE. lia. }
  assert (Hout : forall x, ~ page_of p x -> m2 !! x = m1 !! x).
  { intros x Hx. apply copied_out. intros i Hi ->. by apply Hx, Hword. }
  destruct (tree_frame m1 m2 T g1 g1 Htr1) as (Htr2 & Hl2); [|done| |].
  { apply (page_inv_frame m1); [apply Htr1|]. intros x Hx. apply Hout. intros Hpx. by apply (Hpriv x Hpx). }
  { intros t n x Ht Hx. apply Hout. intros Hpx. by apply (tr_free _ _ _ Htr t n x), Hpriv. }
  exists (mkState (<[ent := e']> m2) (ref_count s)), g1, e'.
  split; [by rewrite (bind_mem _ _ (mkState m1 (ref_count s)) tt m2 eq_refl)|].
  rewrite <- Hpg in Hpriv. split; [split; [|done]|].
  - apply fault_done; try done; [by rewrite Hl2| |].
    + intros x Hx. rewrite Hout by (rewrite Hpg in Hpriv; by intros [? _]%Hpriv).
      by apply (fr_frame _ _ _ _ _ Hfr).
    + unfold e'. rewrite flags_spec by done. by rewrite entry_bits_set_paddr.
  - intros i Hi. cbn [phys].
    rewrite (fresh_word m2 (phys s) T g g1 (entry_page e') root va) by done. rewrite Hpg.
    rewrite (copied_in m1 p (entry_page e) (seqZ 0 512)) by (apply elem_of_seqZ; lia). apply (fr_frame _ _ _ _ _ Hfr), Hold.
    unfold page_of, PAGE_SIZE. lia.
Qed.

Lemma fault_alone_spec s T g R root va ent e :
  tree (phys s) T g -> T !! root = Some 2%nat -> PageRef.represents (ref_count s) R ->
  lookup_pt (phys s) 2 root va = Some (ent, 0%nat) -> entry_v e = true ->
  entry_page e <> zero_page -> PageRef.refs R (entry_page e) <= 1 ->
  exists s' e', fault_copy zero_page ent e (entry_page e) s = Some (true, s') /\
    faulted s s' T g g root va ent e e' /\ entry_page e' = entry_page e.
Proof.
  intros Htr Hroot HR Hl Hv Hz Hrefs. unfold fault_copy.
  rewrite (bind_some _ _ s s false).
  2: { unfold hasOtherReferences. rewrite (PageRef.hasOther_ok _ R) by done. cbn [mbind option_bind].
       by rewrite (proj2 (Z.eqb_neq _ _) Hz), (proj2 (Z.ltb_ge _ _) Hrefs). }
  set (e' := clear_bits (or_bits e PAGE_ENTRY_WRITE) PAGE_ENTRY_COPY).
  exists (mkState (<[ent := e']> (phys s)) (ref_count s)), e'. split; [done|split].
  - apply fault_done; try done. by apply flags_spec.
  - unfold e'. by rewrite entry_page_clear_bits, entry_page_or_bits.
Qed.

(** C3: [handlePageFault] on a copy-on-write page returns, and fails only when
    there is no free page; then every word outside the free pages, every
    translation and the reference counts are unchanged.  Otherwise the entry becomes writable and loses the
    copy-on-write mark, all other flags kept.  A page with other references,
    and the zero page, are replaced by a private page with the same contents;
    a page without other references is kept.  Nothing else changes: not the
    shared page, not another entry, not the tables. *)
Theorem handlePageFault_correct s T g R root va ent e :
  tree (phys s) T g -> T !! root = Some 2%nat -> PageRef.represents (ref_count s) R ->
  lookup_pt (phys s) 2 root va = Some (ent, 0%nat) -> phys s !! ent = Some e ->
  has_bits e PAGE_ENTRY_COPY = true -> (forall x, page_of (entry_page e) x -> ~ owned g x) ->
  (exists s' g', handlePageFault zero_page root va s = Some (false, s') /\
    free_pages g = 0%nat /\ untouched s s' T g g') \/
  exists s' g' e', handlePageFault zero_page root va s = Some (true, s') /\
    faulted s s' T g g' root va ent e e' /\
    if (entry_page e =? zero_page) || (1 <? PageRef.refs R (entry_page e)) then
      private_page g g' (entry_page e') /\ forall i, 0 <= i < 512 ->
        phys s' !! (entry_page e' + 8 * i) =
        if entry_page e =? zero_page then Some 0 else phys s !! (entry_page e + 8 * i)
    else entry_page e' = entry_page e.
Proof.
  intros Htr Hroot HR Hl He Hc Hold.
  destruct (fault_head s T g root va ent e Htr Hroot Hl He Hc) as (Hv & Hhd & Hld & Htest).
  unfold handlePageFault. rewrite (bind_some _ _ _ _ _ Hhd), (bind_some _ _ _ _ _ Hld), Htest.
  destruct (Z.eqb_spec (entry_page e) zero_page) as [Hz|Hz]; cbn [orb].
  { destruct (fault_zero_spec s T g root va ent e Htr Hroot Hl Hv)
      as [(s' & g' & H1 & H2)|(s' & g' & e' & H1 & [H2 H3] & H4)]; [left|right].
    - by exists s', g'.
    - by exists s', g', e'. }
  destruct (Z.ltb_spec 1 (PageRef.refs R (entry_page e))) as [Hr|Hr].
  - destruct (fault_copy_spec s T g R root va ent e Htr Hroot HR Hl Hv Hz Hold Hr)
      as [(s' & g' & H1 & H2)|(s' & g' & e' & H1 & [H2 H3] & H4)]; [left|right].
    + by exists s', g'.
    + by exists s', g', e'.
  - right. destruct (fault_alone_spec s T g R root va ent e Htr Hroot HR Hl Hv Hz Hr)
      as (s' & e' & H1 & H2 & H3). by exists s', g, e'.
Qed.

(** cloning a writable page for [fork]: both the copied entry and the
    original lose the write permission and become copy-on-write, so that the
    next write of either space faults, all other flags and the page are kept,
    and the page has one reference more. *)
Theorem copyMemoryPageEntry_shares s R dst src e d :
  PageRef.represents (ref_count s) R -> PageRef.refs R (entry_page e) + 1 < 2 ^ 64 -> dst <> src ->
  phys s !! src = Some e -> phys s !! dst = Some d ->
  has_bits e PAGE_ENTRY_GLOBAL = false -> entry_page e <> zero_page ->
  has_bits e PAGE_ENTRY_WRITE = true ->
  exists s' e' d', copyMemoryPageEntry zero_page dst src s = Some (true, s') /\
    phys s' = <[dst := d']> (<[src := e']> (phys s)) /\
    PageRef.represents (ref_count s') (<[entry_page e := PageRef.refs R (entry_page e) + 1]> R) /\
    entry_page e' = entry_page e /\ entry_page d' = entry_page d /\
    entry_bits e' = Z.ldiff (Z.lor (entry_bits e) PAGE_ENTRY_COPY) PAGE_ENTRY_WRITE /\
    entry_bits d' = Z.ldiff (Z.lor (entry_bits d) PAGE_ENTRY_COPY) PAGE_ENTRY_WRITE.
Proof.
  intros HR Hov Hne Hs Hd Hg Hz Hw.
  destruct (PageRef.addReference_ok (ref_count s) R (entry_page e) HR Hov) as (t & Ht & HR').
  set (e' := clear_bits (or_bits e PAGE_ENTRY_COPY) PAGE_ENTRY_WRITE).
  set (d' := clear_bits (or_bits d PAGE_ENTRY_COPY) PAGE_ENTRY_WRITE).
  exists (mkState (<[dst := d']> (<[src := e']> (phys s))) t), e', d'.
  split.
  { unfold copyMemoryPageEntry. rewrite (bind_mem _ _ s e (phys s)) by (unfold load; by rewrite Hs).
    rewrite Hg. cbn [negb]. rewrite (proj2 (Z.eqb_neq _ _) Hz). cbn [negb].
    rewrite !bind_assoc. erewrite bind_some by (unfold on_refs; cbn [ref_count]; by rewrite Ht).
    rewrite Hw, bind_assoc. erewrite bind_mem by reflexivity. rewrite bind_assoc.
    erewrite bind_mem by (unfold load; cbn [phys]; by rewrite lookup_insert_ne, Hd).
    by erewrite bind_mem. }
  split; [done|split; [done|]]. unfold e', d'.
  rewrite !entry_page_clear_bits, !entry_page_or_bits, !flags_spec by done. done.
Qed.

End Faults.

(** ** Runs

    A heap of 64 pages: the first is the zero page, the second the root table. *)
Section Runs.

#[local] Existing Instance demo_service.

Definition demo_zero : Z := 0x10000.
Definition demo_state : space_state := mkState demo_heap (PageRef.mkTable 0 0 [] []).

(** A space with one page of heap, from [sbrk]. *)
Definition demo_space : MS Z :=
  on_mem zalloc_page;;
  root ← createMemorySpace;
  changeProcessBreak demo_zero (mkMemory root 0x40201000 0x40201000) 0x1000;;
  mret root.

(** The first write to a page of the heap: the address before and after the
    fault is handled. *)
Definition fault_offset_run : MS (list Z) :=
  root ← demo_space;
  first ← virtToPhys demo_zero root 0x40201238 true false;
  second ← virtToPhys demo_zero root 0x40201238 true false;
  mret [first; second].

(** [mprotect(page, PROT_READ | PROT_WRITE)], and a write to the page. *)
Definition protect_run : MS (list Z) :=
  root ← demo_space;
  protectSyscall root 0x40201000 0x1000 (Z.lor PROT_READ PROT_WRITE);;
  p ← virtToPhys demo_zero root 0x40201238 true false;
  mret [p].

(** Both spaces write to a page after [fork]; is the old page still counted? *)
Definition fork_run : MS (list Z * bool) :=
  root ← demo_space;
  page ← virtToPhys demo_zero root 0x40201000 true false;
  clone ← cloneMemorySpace demo_zero root;
  mine ← virtToPhys demo_zero root 0x40201000 true false;
  its ← virtToPhys demo_zero clone 0x40201000 true false;
  counted ← hasOtherReferences demo_zero page;
  mret ([page; mine; its], counted).

(** when [virtToPhys] has to handle a copy-on-write fault it returns the
    start of the new page, and drops the offset: the write goes to offset 0. *)
Example virtToPhys_drops_offset :
  fst <$> fault_offset_run demo_state = Some [0x14000; 0x14238].
Proof. vm_compute. reflexivity. Qed.

(** [protectSyscall] makes a copy-on-write page writable without copying
    it: the write goes to the zero page, which all spaces share. *)
Example protect_writes_zero_page :
  fst <$> protect_run demo_state = Some [demo_zero + 0x238].
Proof. vm_compute. reflexivity. Qed.

(** a fault on a shared page does not release the reference to it: when
    both spaces have their own copy the old page is still counted as shared,
    and it is never freed. *)
Example fault_keeps_reference :
  fst <$> fork_run demo_state = Some ([0x14000; 0x18000; 0x19000], true).
Proof. vm_compute. reflexivity. Qed.

(** A space with the page of [PageRef.demo_table] mapped copy-on-write. *)
Definition shared_space : mem :=
  match (root ← zalloc_page; mapPage root 0x40201000 PageRef.demo_page 0x1c3 0) demo_heap with
  | Some (_, m) => m
  | None => ∅
  end.

Lemma shared_space_tree :
  exists T g, tree shared_space T g /\ T !! 0x10000 = Some 2%nat /\
    forall x, owned g x -> 0x10000 <= x < 0x50000 \/ x = 16.
Proof.
  destruct demo_root as (m & g & Hz & Htr & Hfree & H0).
  destruct (@mapPage_ok demo_service demo_laws m {[ 0x10000 := 2%nat ]} g 0x10000 0x40201000
    PageRef.demo_page 0x1c3 0) as (ent & m' & T' & g' & Hmap & Htr' & Hsub & _); try done.
  - lia.
  - cbn [mappable]. unfold slot. rewrite H0 by apply vpn_range. done.
  - lia.
  - assert (Hm : shared_space = m').
    { change (Z.of_nat 0) with 0 in Hmap. unfold shared_space.
      by rewrite (bind_some _ _ _ _ _ Hz), Hmap. }
    rewrite Hm. exists T', g'. split; [done|split].
    + eapply lookup_weaken; [|exact Hsub]. apply lookup_singleton_eq.
    + intros x [->|Hx]; [by right|left]. by apply (tr_inv _ _ _ Htr').
Qed.

Lemma handlePageFault_correct_witness :
  exists T g ent e s', tree shared_space T g /\
    handlePageFault demo_zero 0x10000 0x40201234 (mkState shared_space PageRef.demo_table)
      = Some (true, s') /\
    exists g' e', faulted (mkState shared_space PageRef.demo_table) s' T g g' 0x10000 0x40201234 ent e e'.
Proof.
  destruct shared_space_tree as (T & g & Htr & Hroot & Hown).
  destruct (lookup_pt shared_space 2 0x10000 0x40201234) as [[ent l]|] eqn:Hl; [|by vm_compute in Hl].
  assert (l = 0%nat) as -> by (vm_compute in Hl; congruence).
  destruct (shared_space !! ent) as [e|] eqn:He.
  2: { exfalso. assert (E : ent = 0x12008) by (vm_compute in Hl; congruence). by rewrite E in He; vm_compute in He. }
  assert (Eent : ent = 0x12008) by (vm_compute in Hl; congruence).
  assert (Ee : e = 0x200801c3) by (rewrite Eent in He; vm_compute in He; congruence).
  destruct (handlePageFault_correct demo_zero (mkState shared_space PageRef.demo_table) T g
    (<[PageRef.demo_page := 3]> ∅) 0x10000 0x40201234 ent e)
    as [(s' & ? & Hr & _)|(s' & g' & e' & Hr & Hf & _)].
  - exact Htr.
  - exact Hroot.
  - exact PageRef.demo_represents.
  - exact Hl.
  - exact He.
  - by rewrite Ee.
  - intros x Hx Ho. rewrite Ee in Hx. apply Hown in Ho. unfold page_of, PAGE_SIZE in Hx.
    change (entry_page 0x200801c3) with 0x80200000 in Hx. lia.
  - exfalso. assert (E : fst <$> handlePageFault demo_zero 0x10000 0x40201234
      (mkState shared_space PageRef.demo_table) = Some true) by (vm_compute; reflexivity).
    by rewrite Hr in E.
  - exists T, g, ent, e, s'. split; [done|split; [done|]]. by exists g', e'.
Defined.

Lemma copyMemoryPageEntry_shares_witness :
  exists s' e' d', copyMemoryPageEntry 0x10000 0x3000 0x2000
    (mkState (<[0x3000 := 0x200800d7]> {[ 0x2000 := 0x200800d7 ]}) PageRef.demo_table) = Some (true, s') /\
    phys s' = <[0x3000 := d']> (<[0x2000 := e']> (<[0x3000 := 0x200800d7]> {[ 0x2000 := 0x200800d7 ]})) /\
    entry_bits e' = 0x1d3 /\ entry_bits d' = 0x1d3.
Proof.
  destruct (copyMemoryPageEntry_shares 0x10000
    (mkState (<[0x3000 := 0x200800d7]> {[ 0x2000 := 0x200800d7 ]}) PageRef.demo_table)
    (<[PageRef.demo_page := 3]> ∅) 0x3000 0x2000 0x200800d7 0x200800d7)
    as (s' & e' & d' & H1 & H2 & _ & _ & _ & H3 & H4).
  - exact PageRef.demo_represents.
  - vm_compute. reflexivity.
  - lia.
  - vm_compute. reflexivity.
  - vm_compute. reflexivity.
  - vm_compute. reflexivity.
  - by vm_compute.
  - vm_compute. reflexivity.
  - exists s', e', d'. split; [exact H1|split; [exact H2|split; [exact H3|exact H4]]].
Defined.

End Runs.

End MemSpace.
