(* ===== verification/VirtPtr.v ===== *)
(** * VirtPtr: [kernel/src/memory/virtptr.c]

    Pointers into other memory spaces: splitting a buffer into physically
    contiguous parts, copying between spaces, and access to integers.  The
    state is that of [MemSpace]; a byte of physical memory is a byte of the word
    that holds it, in little-endian order. *)
From S2P Require Import Prelude Allocator PageAlloc PageTable PageRef MemSpace.
Import PageAlloc PageTable MemSpace.

Local Open Scope c_scope.

Module VirtPtr.

(** ** Definitions *)

Record VirtPtr := mkPtr { address : Z; table : Z; allow_all : bool }.

(** The field [address] of [VirtPtrBufferPart] is [phys_address]. *)
Record BufferPart := mkPart { phys_address : Z; offset : Z; length : Z }.

(** *** Bytes of physical memory *)

Definition word_of (a : Z) : Z := a - a mod 8.

Definition byte_at (a : Z) : M mem Z := fun m =>
  w ← m !! word_of a; Some (get_field (8 * (a mod 8)) 8 w, m).

Definition set_byte (a v : Z) : M mem unit := fun m =>
  w ← m !! word_of a; Some (tt, <[word_of a := set_field (8 * (a mod 8)) 8 w v]> m).

(** [n] bytes from [a] on, as an integer. *)
Fixpoint read_le (n : nat) (a : Z) : M mem Z :=
  match n with
  | O => mret 0
  | S n' => b ← byte_at a; r ← read_le n' (a + 1); mret (b + 2 ^ 8 * r)
  end.

Fixpoint write_le (n : nat) (a v : Z) : M mem unit :=
  match n with
  | O => mret tt
  | S n' => set_byte a (v mod 2 ^ 8);; write_le n' (a + 1) (v / 2 ^ 8)
  end.

Fixpoint read_bytes (n : nat) (a : Z) : M mem (list Z) :=
  match n with
  | O => mret []
  | S n' => b ← byte_at a; r ← read_bytes n' (a + 1); mret (b :: r)
  end.

Fixpoint write_bytes (a : Z) (l : list Z) : M mem unit :=
  match l with
  | [] => mret tt
  | b :: l' => set_byte a b;; write_bytes (a + 1) l'
  end.

(** [memmove]: all bytes are read before the first is written. *)
Definition move_bytes (dest src n : Z) : M mem unit :=
  l ← read_bytes (Z.to_nat n) src; write_bytes dest l.

Section Code.
Context `{PageService} (zero_page kernel_page_table : Z).

Definition virtPtrFor (addr table : Z) : VirtPtr := mkPtr addr table false.
Definition unsafeVirtPtrFor (addr mem : Z) : VirtPtr := mkPtr addr mem true.
Definition virtPtrForKernelConst (addr : Z) : VirtPtr := virtPtrFor addr kernel_page_table.
Definition virtPtrForKernel (addr : Z) : VirtPtr := virtPtrForKernelConst addr.

(** [virtToPhys(addr.table, vaddr, write, addr.allow_all)] *)
Definition ptr_phys (addr : VirtPtr) (vaddr : Z) (write : bool) : MS Z :=
  virtToPhys zero_page (table addr) vaddr write (allow_all addr).

Definition virtPtrPhys (addr : VirtPtr) : MS Z := ptr_phys addr (address addr) false.

(** [(x + PAGE_SIZE) & -PAGE_SIZE] *)
Definition next_page (x : Z) : Z := Z.land (x +% PAGE_SIZE) (u64 (- PAGE_SIZE)).

(** The part from [part_position] to [next_position] or the end. *)
Definition part_of (addr : VirtPtr) (len phys_start part_position next_position : Z) : BufferPart :=
  mkPart phys_start (part_position -% address addr)
    (if next_position >? address addr +% len then (address addr +% len) -% part_position
     else next_position -% part_position).

Fixpoint parts_loop (fuel : nat) (addr : VirtPtr) (len max_parts : Z) (write : bool)
    (part_index part_position next_position : Z) (parts : list BufferPart)
    : MS (Z * list BufferPart) :=
  match fuel with
  | O => fault
  | S fuel' =>
      if part_position <? address addr +% len then
        let next_position := next_page next_position in
        phys_start ← ptr_phys addr part_position write;
        if phys_start =? 0 then mret (part_index, parts)
        else
          phys_end ← ptr_phys addr next_position write;
          if negb (phys_end -% phys_start =? next_position -% part_position)
             || (next_position >? address addr +% len)
          then
            let part := part_of addr len phys_start part_position next_position in
            parts_loop fuel' addr len max_parts write (part_index +% 1) next_position next_position
              (if part_index <? max_parts then parts ++ [part] else parts)
          else parts_loop fuel' addr len max_parts write part_index part_position next_position parts
      else mret (part_index, parts)
  end.

(** One iteration per page, and two. *)
Definition parts_fuel (len : Z) : nat := S (S (S (Z.to_nat (len / PAGE_SIZE)))).

(** The returned count, and the parts stored in the array. *)
Definition getVirtPtrParts (addr : VirtPtr) (len max_parts : Z) (write : bool)
    : MS (Z * list BufferPart) :=
  parts_loop (parts_fuel len) addr len max_parts write 0 (address addr) (address addr) [].

Fixpoint parts_do_loop {U} (fuel : nat) (addr : VirtPtr) (len : Z) (write : bool)
    (callback : BufferPart -> U -> MS U) (part_position next_position : Z) (udata : U) : MS U :=
  match fuel with
  | O => fault
  | S fuel' =>
      if part_position <? address addr +% len then
        let next_position := next_page next_position in
        phys_start ← ptr_phys addr part_position write;
        if phys_start =? 0 then mret udata
        else
          phys_end ← ptr_phys addr next_position write;
          if negb (phys_end -% phys_start =? next_position -% part_position)
             || (next_position >? address addr +% len)
          then
            udata ← callback (part_of addr len phys_start part_position next_position) udata;
            parts_do_loop fuel' addr len write callback next_position next_position udata
          else parts_do_loop fuel' addr len write callback part_position next_position udata
      else mret udata
  end.

Definition virtPtrPartsDo {U} (addr : VirtPtr) (len : Z) (callback : BufferPart -> U -> MS U)
    (udata : U) (write : bool) : MS U :=
  parts_do_loop (parts_fuel len) addr len write callback (address addr) (address addr) udata.

(** The loop of [memcpyBetweenVirtPtr] over the two arrays of parts. *)
Fixpoint copy_parts (fuel : nat) (dest src : list BufferPart) (index n : Z) : MS unit :=
  match fuel with
  | O => fault
  | S fuel' =>
      match dest, src with
      | d :: dest', r :: src' =>
          if index <? n then
            let dest_next := offset d +% length d in
            let src_next := offset r +% length r in
            let dest_off := index -% offset d in
            let src_off := index -% offset r in
            if dest_next <? src_next then
              on_mem (move_bytes (phys_address d + dest_off) (phys_address r + src_off) (dest_next -% index));;
              copy_parts fuel' dest' src dest_next n
            else
              on_mem (move_bytes (phys_address d + dest_off) (phys_address r + src_off) (src_next -% index));;
              copy_parts fuel' dest src' src_next n
          else mret tt
      | _, _ => mret tt
      end
  end.

Definition memcpyBetweenVirtPtr (dest src : VirtPtr) (n : Z) : MS unit :=
  '(dest_count, _) ← getVirtPtrParts dest n 0 true;
  '(src_count, _) ← getVirtPtrParts src n 0 false;
  '(_, dest_parts) ← getVirtPtrParts dest n dest_count true;
  '(_, src_parts) ← getVirtPtrParts src n src_count false;
  copy_parts (S (List.length dest_parts + List.length src_parts)) dest_parts src_parts 0 n.

Fixpoint set_parts (parts : list BufferPart) (byte : Z) : MS unit :=
  match parts with
  | [] => mret tt
  | p :: parts' =>
      on_mem (write_bytes (phys_address p) (replicate (Z.to_nat (length p)) (u8 byte)));;
      set_parts parts' byte
  end.

Definition memsetVirtPtr (dest : VirtPtr) (byte n : Z) : MS unit :=
  '(count, _) ← getVirtPtrParts dest n 0 true;
  '(_, parts) ← getVirtPtrParts dest n count true;
  set_parts parts byte.

Definition int_size (size : Z) : bool := (size =? 8) || (size =? 16) || (size =? 32) || (size =? 64).

Definition readInt (addr : VirtPtr) (size : Z) : MS Z :=
  massert (int_size size);;
  phys ← ptr_phys addr (address addr) false;
  if phys =? 0 then mret 0 else on_mem (read_le (Z.to_nat (size / 8)) phys).

(** [addr.address += n] *)
Definition advance (addr : VirtPtr) (n : Z) : VirtPtr :=
  mkPtr (address addr +% n) (table addr) (allow_all addr).

Definition readIntAt (addr : VirtPtr) (i size : Z) : MS Z := readInt (advance addr (i *% (size / 8))) size.

Definition writeInt (addr : VirtPtr) (size value : Z) : MS unit :=
  massert (int_size size);;
  phys ← ptr_phys addr (address addr) true;
  if negb (phys =? 0) then on_mem (write_le (Z.to_nat (size / 8)) phys value) else mret tt.

Definition writeIntAt (addr : VirtPtr) (size i value : Z) : MS unit :=
  writeInt (advance addr (i *% (size / 8))) size value.

Fixpoint read_misaligned (n : nat) (addr : VirtPtr) (i ret : Z) : MS Z :=
  match n with
  | O => mret ret
  | S n' =>
      b ← readInt addr 8;
      read_misaligned n' (advance addr 1) (i + 8) (Z.lor ret (u64 (Z.shiftl b i)))
  end.

(** The loops run while [i < size], in steps of 8. *)
Definition readMisaligned (addr : VirtPtr) (size : Z) : MS Z :=
  read_misaligned (Z.to_nat ((size + 7) / 8)) addr 0 0.

Fixpoint write_misaligned (n : nat) (addr : VirtPtr) (i value : Z) : MS unit :=
  match n with
  | O => mret tt
  | S n' =>
      writeInt addr 8 (Z.land (Z.shiftr value i) 0xff);;
      write_misaligned n' (advance addr 1) (i + 8) value
  end.

Definition writeMisaligned (addr : VirtPtr) (size value : Z) : MS unit :=
  write_misaligned (Z.to_nat ((size + 7) / 8)) addr 0 value.

Fixpoint strlen_loop (fuel : nat) (str : VirtPtr) (len : Z) : MS Z :=
  match fuel with
  | O => fault
  | S fuel' =>
      c ← readInt str 8;
      if negb (c =? 0) then strlen_loop fuel' (advance str 1) (len +% 1) else mret len
  end.

(** The loop ends at a NUL or an unmapped page; [fuel] bounds the length. *)
Definition strlenVirtPtr (fuel : nat) (str : VirtPtr) : MS Z := strlen_loop fuel str 0.

Definition strcpyVirtPtr (fuel : nat) (dest src : VirtPtr) : MS unit :=
  len ← strlenVirtPtr fuel src;
  memcpyBetweenVirtPtr dest src (len +% 1).

Definition pushToVirtPtrStack (sp : VirtPtr) (ptr size : Z) : MS VirtPtr :=
  let sp := advance sp (- size) in
  memcpyBetweenVirtPtr sp (virtPtrForKernel ptr) size;;
  mret sp.

Definition popFromVirtPtrStack (sp : VirtPtr) (ptr size : Z) : MS VirtPtr :=
  memcpyBetweenVirtPtr (virtPtrForKernel ptr) sp size;;
  mret (advance sp size).

End Code.

(** ** The parts of a buffer *)

Section Parts.
Context `{PageService} (zero_page : Z) (s : space_state) (addr : VirtPtr) (len : Z) (write : bool).

(** The translation of the buffer's addresses, which the state does not change. *)
Context (tr : Z -> Z).
Context (Hread : forall va, ptr_phys zero_page addr va write s = Some (tr va, s)).

Local Abbreviation a := (address addr).

Context (Hrange : forall va, a <= va <= a + len + PAGE_SIZE -> 0 <= tr va < 2 ^ 63).
Context (Hmapped : forall va, a <= va < a + len -> tr va <> 0).
Context (Hpage : forall va d, a <= va -> 0 <= d -> va + d < a + len ->
  va / PAGE_SIZE = (va + d) / PAGE_SIZE -> tr (va + d) = tr va + d).
Context (Ha : 0 <= a) (Hlen : 0 <= len) (Hend : a + len + PAGE_SIZE < 2 ^ 63).

(** The parts follow each other from [pos] to the end of the buffer, and the
    bytes of each are the translations of the addresses it stands for. *)
Fixpoint chain (pos : Z) (parts : list BufferPart) : Prop :=
  match parts with
  | [] => pos = len
  | p :: parts' =>
      offset p = pos /\ 0 < length p /\
      (forall j, 0 <= j < length p -> tr (a + pos + j) = phys_address p + j) /\
      chain (pos + length p) parts'
  end.

Lemma chain_length pos parts : chain pos parts -> pos + Z.of_nat (List.length parts) <= len.
Proof.
  revert pos. induction parts as [|p parts IH]; intros pos; cbn [chain List.length]; [lia|].
  intros (_ & Hp & _ & Hc). apply IH in Hc. lia.
Qed.

(** From [part_position] the buffer is contiguous up to [next_position]. *)
Definition contiguous (p n : Z) : Prop :=
  forall d, 0 <= d -> p + d < n -> p + d < a + len -> tr (p + d) = tr p + d.

Lemma next_page_spec x :
  0 <= x -> x + PAGE_SIZE < 2 ^ 64 ->
  x < next_page x <= x + PAGE_SIZE /\ next_page x mod PAGE_SIZE = 0 /\
  forall y, x <= y < next_page x -> x / PAGE_SIZE = y / PAGE_SIZE.
Proof.
  intros Hx Hlt. unfold next_page, PAGE_SIZE in *. unwrap.
  change (u64 (Z.opp 4096)) with (u64 (- 2 ^ 12)). rewrite land_mask64 by lia. change (2 ^ 12) with 4096.
  assert (E : x + 4096 - (x + 4096) mod 4096 = 4096 * (x / 4096 + 1)).
  { pose proof (Z.div_mod (x + 4096) 4096). replace ((x + 4096) / 4096) with (x / 4096 + 1) in * by (Z.div_mod_to_equations; lia). lia. }
  rewrite E. split; [Z.div_mod_to_equations; lia|split].
  - rewrite Z.mul_comm. apply Z.mod_mul. lia.
  - intros y Hy. Z.div_mod_to_equations. lia.
Qed.

Lemma u64_diff_eq x y : - 2 ^ 63 < x < 2 ^ 63 -> 0 <= y < 2 ^ 63 -> (u64 x =? u64 y) = (x =? y).
Proof.
  intros Hx Hy. rewrite (wrap_small 64 y) by lia.
  destruct (Z.eqb_spec x y) as [->|Hne]; [rewrite wrap_small by lia; apply Z.eqb_refl|].
  apply Z.eqb_neq. unfold wrap. destruct (Z.lt_ge_cases x 0).
  - rewrite <- (Z.mod_add x 1), Z.mod_small by lia. lia.
  - rewrite Z.mod_small by lia. done.
Qed.

(** One page more of a contiguous run. *)
Lemma contiguous_next p n :
  a <= p <= n -> n <= a + len -> contiguous p n -> (n < a + len -> tr n = tr p + (n - p)) ->
  contiguous p (next_page n).
Proof.
  intros Hp Hn Hc Htn d Hd Hlt Hin. unfold PAGE_SIZE in Hend.
  destruct (next_page_spec n) as (_ & _ & Hsame); [lia|unfold PAGE_SIZE; lia|].
  destruct (Z.lt_ge_cases (p + d) n); [by apply Hc|].
  replace (p + d) with (n + (p + d - n)) at 1 by lia.
  rewrite Hpage, Htn by (try apply Hsame; lia). lia.
Qed.

(** A part from [p] that ends at [q] or at the end of the buffer. *)
Lemma chain_part p q parts :
  a <= p -> p < q -> p < a + len -> q < 2 ^ 63 -> contiguous p q -> tr p <> 0 ->
  (q < a + len -> chain (q - a) parts) -> (a + len <= q -> parts = []) ->
  chain (p - a) (part_of addr len (tr p) p q :: parts).
Proof.
  intros Hp Hpq Hlt Hq Hc Ht Hch Hnil. unfold PAGE_SIZE in Hend.
  cbn [chain part_of offset length phys_address]. unwrap. rewrite Z.gtb_ltb.
  split; [done|]. destruct (Z.ltb_spec (a + len) q).
  - rewrite Hnil by lia. split; [lia|split; [|cbn [chain]; lia]].
    intros j Hj. replace (a + (p - a) + j) with (p + j) by lia. apply Hc; lia.
  - split; [lia|split].
    + intros j Hj. replace (a + (p - a) + j) with (p + j) by lia. apply Hc; lia.
    + replace (p - a + (q - p)) with (q - a) by lia.
      destruct (Z.lt_ge_cases q (a + len)) as [?|Hge]; [by apply Hch|].
      rewrite (Hnil Hge). cbn [chain]. lia.
Qed.

Lemma parts_loop_spec fuel p n :
  a <= p <= n -> n <= a + len + PAGE_SIZE -> (p < a + len -> n <= a + len) -> contiguous p n ->
  (p < a + len -> n < a + len -> tr n = tr p + (n - p)) ->
  (a + len) / PAGE_SIZE - n / PAGE_SIZE + 1 < Z.of_nat fuel ->
  exists parts, (p < a + len -> chain (p - a) parts) /\ (a + len <= p -> parts = []) /\
    forall max idx acc, 0 <= idx -> idx + Z.of_nat (List.length parts) < 2 ^ 64 ->
      parts_loop zero_page fuel addr len max write idx p n acc s =
      Some ((idx + Z.of_nat (List.length parts), acc ++ take (Z.to_nat (max - idx)) parts), s).
Proof.
  revert p n. induction fuel as [|fuel IH]; intros p n Hp Hn Hpn Hc Htn Hf; unfold PAGE_SIZE in Hend.
  { unfold PAGE_SIZE in *. exfalso. Z.div_mod_to_equations. lia. }
  cbn [parts_loop]. unwrap. destruct (Z.ltb_spec p (a + len)) as [Hlt|Hge].
  2: { exists []. split; [lia|split; [done|]]. intros max idx acc _ _. cbn [List.length].
    by rewrite take_nil, app_nil_r, Z.add_0_r. }
  specialize (Hpn Hlt). specialize (Htn Hlt).
  destruct (next_page_spec n) as (Hnext & Hmod & _); [lia|unfold PAGE_SIZE; lia|].
  pose proof (contiguous_next p n Hp Hpn Hc Htn) as Hc'.
  set (n' := next_page n) in *.
  assert (Hdiv : n' / PAGE_SIZE = n / PAGE_SIZE + 1)
    by (unfold PAGE_SIZE in *; Z.div_mod_to_equations; lia).
  pose proof (Hrange p ltac:(unfold PAGE_SIZE; lia)) as Hr.
  pose proof (Hrange n' ltac:(unfold PAGE_SIZE in *; lia)) as Hr'. pose proof (Hmapped p ltac:(lia)) as Hm.
  unfold PAGE_SIZE in Hnext.
  assert (Heq : (tr n' -% tr p =? n' -% p) = (tr n' - tr p =? n' - p)) by (apply u64_diff_eq; lia).
  destruct (negb (tr n' -% tr p =? n' -% p) || (n' >? a + len)) eqn:Hemit.
  - destruct (IH n' n') as (parts & Hch & Hnil & Hrun); try lia.
    { unfold PAGE_SIZE. lia. }
    { intros d Hd Hd' _. lia. }
    exists (part_of addr len (tr p) p n' :: parts).
    assert (Hchain : chain (p - a) (part_of addr len (tr p) p n' :: parts)) by (apply chain_part; try done; lia).
    split; [done|split; [lia|]]. intros max idx acc Hidx Hcount. cbn [List.length] in Hcount.
    rewrite (bind_some _ _ _ _ _ (Hread p)), (proj2 (Z.eqb_neq _ _) Hm), (bind_some _ _ _ _ _ (Hread n')).
    rewrite Hemit. rewrite (wrap_small 64 (idx + 1)) by lia. rewrite Hrun by lia. do 3 f_equal.
    + cbn [List.length]. lia.
    + destruct (Z.ltb_spec idx max).
      * replace (Z.to_nat (max - idx)) with (S (Z.to_nat (max - (idx + 1)))) by lia. cbn [take].
        by rewrite <- app_assoc.
      * replace (Z.to_nat (max - idx)) with 0%nat by lia.
        by replace (Z.to_nat (max - (idx + 1))) with 0%nat by lia.
  - rewrite Heq, Z.gtb_ltb in Hemit. apply orb_false_iff in Hemit as [H1 H2].
    apply negb_false_iff, Z.eqb_eq in H1. apply Z.ltb_ge in H2.
    destruct (IH p n') as (parts & Hch & Hnil & Hrun); try (done || lia).
    { unfold PAGE_SIZE. lia. }
    exists parts. split; [done|split; [done|]]. intros max idx acc Hidx Hcount.
    rewrite (bind_some _ _ _ _ _ (Hread p)), (proj2 (Z.eqb_neq _ _) Hm), (bind_some _ _ _ _ _ (Hread n')).
    rewrite Heq, H1, Z.eqb_refl, Z.gtb_ltb, (proj2 (Z.ltb_ge _ _) H2). cbn [negb orb]. by apply Hrun.
Qed.

Lemma getVirtPtrParts_ok :
  exists parts, (0 < len -> chain 0 parts) /\ (len = 0 -> parts = []) /\ forall max,
    getVirtPtrParts zero_page addr len max write s =
    Some ((Z.of_nat (List.length parts), take (Z.to_nat max) parts), s).
Proof.
  unfold getVirtPtrParts, parts_fuel. unfold PAGE_SIZE in Hend.
  destruct (parts_loop_spec (S (S (S (Z.to_nat (len / PAGE_SIZE))))) a a) as (parts & Hch & Hnil & Hrun);
    try lia.
  - unfold PAGE_SIZE. lia.
  - intros d Hd Hd' _. lia.
  - assert (0 <= len / PAGE_SIZE) by (unfold PAGE_SIZE; apply Z.div_pos; lia).
    unfold PAGE_SIZE in *. Z.div_mod_to_equations. lia.
  - exists parts. rewrite Z.sub_diag in Hch.
    assert (Hlen' : Z.of_nat (List.length parts) <= len).
    { destruct (Z.lt_ge_cases 0 len) as [Hpos|Hneg].
      - pose proof (chain_length 0 parts (Hch ltac:(lia))). lia.
      - rewrite Hnil by lia. cbn. lia. }
    split; [intros; apply Hch; lia|split; [intros; apply Hnil; lia|]]. intros max.
    rewrite Hrun by lia. by rewrite Z.add_0_l, Z.sub_0_r.
Qed.

(** [getVirtPtrParts] on a buffer whose pages are all mapped returns, and
    its parts are exactly the buffer: they follow each other without gap or
    overlap from offset 0 to the end, none is empty, and every byte of a part
    is the translation of the address it stands for.  With a smaller array
    the count is the same, as the callers that first ask for it rely on. *)
Theorem getVirtPtrParts_cover :
  exists parts, (0 < len -> chain 0 parts) /\ (len = 0 -> parts = []) /\ forall max,
    getVirtPtrParts zero_page addr len max write s =
    Some ((Z.of_nat (List.length parts), take (Z.to_nat max) parts), s).
Proof. exact getVirtPtrParts_ok. Qed.

End Parts.

(** A buffer of the kernel, whose table [NULL] maps every address to itself. *)
Lemma getVirtPtrParts_cover_witness :
  exists parts, (0 < 0x3000 -> chain (mkPtr 0x1ff0 0 false) 0x3000 (fun va => va) 0 parts) /\
    (0x3000 = 0 -> parts = []) /\ forall max,
    @getVirtPtrParts demo_service demo_zero (mkPtr 0x1ff0 0 false) 0x3000 max false demo_state =
    Some ((Z.of_nat (List.length parts), take (Z.to_nat max) parts), demo_state).
Proof.
  apply (@getVirtPtrParts_cover demo_service demo_zero demo_state (mkPtr 0x1ff0 0 false) 0x3000 false
    (fun va => va)); cbn [address]; unfold PAGE_SIZE; try (intros; lia); done.
Defined.

End VirtPtr.
