(* ===== verification/VfsCache.v ===== *)
(** * VfsCache: [kernel/src/files/vfs/cache.c] and [kernel/src/files/vfs/super.c]

    The hash table of the open nodes of a mounted file system, and the reference
    counts of nodes and superblock.  The state is the store of the nodes and
    the superblock; [cache->lock], a recursive task lock, is held around every
    operation.  [count] and [capacity] do not wrap, since the array they
    describe fits the address space; [zalloc] is taken to succeed. *)
From S2P Require Import Prelude Util Probe.
Import Probe.

Local Open Scope c_scope.

Module VfsCache.

(** ** The node table *)

Definition MIN_TABLE_CAPACITY : nat := 32.

(** The pointers [EMPTY] and [DELETED]. *)
Definition EMPTY : Z := 0.
Definition DELETED : Z := 1.

(** The fields of a node the cache and the superblock look at; [superblock] is
    [None] for [NULL], else the id of the superblock. *)
Record VfsNode := mkNode {
  superblock : option Z;
  node_id : Z;
  nlinks : Z;
  dirty : bool;
  ref_count : Z;
}.

Abbreviation store := (gmap Z VfsNode).

Record VfsNodeCache := mkCache {
  count : nat;
  capacity : nat;
  nodes : list Z;
}.

Definition sb_id_of (n : VfsNode) : option Z := superblock n.

Definition vfsNodeCompareKey (n : VfsNode) (sb_id node_id' : Z) : option bool :=
  if negb (node_id n =? node_id') then Some false
  else id ← superblock n; Some (id =? sb_id).

Definition vfsNodeKeyHash (sb_id node_id : Z) : Z :=
  Util.hashCombine (Util.hashInt64 sb_id) (Util.hashInt64 node_id).

(** [vfsNodeKeyHash(...) % capacity] *)
Definition hash_index (capacity : nat) (key : Z * Z) : nat :=
  Z.to_nat (vfsNodeKeyHash (fst key) (snd key) mod Z.of_nat capacity).

Definition valid_ptr (p : Z) : bool := negb (p =? EMPTY) && negb (p =? DELETED).

Definition isIndexValid (table : VfsNodeCache) (idx : nat) : option bool :=
  p ← nodes table !! idx; Some (valid_ptr p).

(** [key] is the key of the node to insert. *)
Definition continueInsertSearch (st : store) (table : VfsNodeCache) (key : Z * Z) (idx : nat)
    : option bool :=
  p ← nodes table !! idx;
  if valid_ptr p then
    n ← st !! p; same ← vfsNodeCompareKey n (fst key) (snd key); Some (negb same)
  else Some false.

Definition insertIndexHashTable (st : store) (table : VfsNodeCache) (key : Z * Z) : option nat :=
  free_loop (capacity table) (capacity table) (continueInsertSearch st table key)
    (hash_index (capacity table) key).

Definition node_key (n : VfsNode) : option (Z * Z) :=
  id ← superblock n; Some (id, node_id n).

Fixpoint rebuild_loop (st : store) (old : list Z) (new : VfsNodeCache) : option VfsNodeCache :=
  match old with
  | [] => Some new
  | p :: old' =>
      if valid_ptr p then
        n ← st !! p; key ← node_key n;
        idx ← insertIndexHashTable st new key;
        rebuild_loop st old' (mkCache (count new) (capacity new) (<[idx := p]> (nodes new)))
      else rebuild_loop st old' new
  end.

Definition rebuildHashTable (st : store) (table : VfsNodeCache) (new_size : nat) : option VfsNodeCache :=
  rebuild_loop st (nodes table) (mkCache (count table) new_size (replicate new_size EMPTY)).

Definition testForResize (st : store) (table : VfsNodeCache) : option VfsNodeCache :=
  if (capacity table <? MIN_TABLE_CAPACITY)%nat then rebuildHashTable st table MIN_TABLE_CAPACITY
  else if (MIN_TABLE_CAPACITY <? capacity table)%nat && (count table * 4 <? capacity table)%nat
  then rebuildHashTable st table (capacity table / 2)
  else if (capacity table * 2 <? count table * 3)%nat
  then rebuildHashTable st table (capacity table + capacity table / 2)
  else Some table.

(** The search loop of [findIndexHashTable], with [first_free]; [None] inside is
    [SIZE_MAX]. *)
Fixpoint search_loop (fuel : nat) (st : store) (table : VfsNodeCache) (key : Z * Z)
    (start idx : nat) (first_free : option nat) : option (option (nat * option nat)) :=
  match fuel with
  | O => None
  | S fuel' =>
      p ← nodes table !! idx;
      continue ← (if p =? DELETED then Some true
                  else if valid_ptr p then
                    n ← st !! p; same ← vfsNodeCompareKey n (fst key) (snd key); Some (negb same)
                  else Some false);
      if continue : bool then
        let first_free := if p =? DELETED then Some idx else first_free in
        let idx := ((idx + 1) mod capacity table)%nat in
        if decide (idx = start) then Some None
        else search_loop fuel' st table key start idx first_free
      else Some (Some (idx, first_free))
  end.

(** The index, and the table, in which the node may have been moved. *)
Definition findIndexHashTable (st : store) (table : VfsNodeCache) (key : Z * Z)
    : option (option nat * VfsNodeCache) :=
  if (count table =? 0)%nat then Some (None, table)
  else
    let start := hash_index (capacity table) key in
    r ← search_loop (capacity table) st table key start start None;
    match r with
    | None => Some (None, table)
    | Some (idx, first_free) =>
        found ← nodes table !! idx;
        if negb (valid_ptr found) then Some (None, table)
        else
          match first_free with
          | Some f =>
              Some (Some f, mkCache (count table) (capacity table)
                              (<[idx := DELETED]> (<[f := found]> (nodes table))))
          | None => Some (Some idx, table)
          end
    end.

(** ** The file system state *)

Record VfsSuperblock := mkSuper {
  sb_id : Z;
  root_node : Z;
  sb_ref_count : Z;
  sb_nodes : VfsNodeCache;
}.

Record fs_state := mkFs { st_nodes : store; super : VfsSuperblock }.

Abbreviation FS := (M fs_state).

Definition get_cache : FS VfsNodeCache := fun s => Some (sb_nodes (super s), s).

Definition put_cache (c : VfsNodeCache) : FS unit := fun s =>
  let sb := super s in
  Some (tt, mkFs (st_nodes s) (mkSuper (sb_id sb) (root_node sb) (sb_ref_count sb) c)).

Definition get_node (p : Z) : FS VfsNode := fun s => n ← st_nodes s !! p; Some (n, s).

Definition set_refs (p refs : Z) : FS unit := fun s =>
  n ← st_nodes s !! p;
  Some (tt, mkFs (<[p := mkNode (superblock n) (node_id n) (nlinks n) (dirty n) refs]> (st_nodes s)) (super s)).

Definition set_dirty (p : Z) : FS unit := fun s =>
  n ← st_nodes s !! p;
  Some (tt, mkFs (<[p := mkNode (superblock n) (node_id n) (nlinks n) true (ref_count n)]> (st_nodes s)) (super s)).

Definition with_store {A} (f : store -> option A) : FS A := fun s => a ← f (st_nodes s); Some (a, s).

Definition set_sb_refs (refs : Z) : FS unit := fun s =>
  let sb := super s in
  Some (tt, mkFs (st_nodes s) (mkSuper (sb_id sb) (root_node sb) refs (sb_nodes sb))).

Definition get_sb : FS VfsSuperblock := fun s => Some (super s, s).

Definition vfsCacheInsertNewNode (p : Z) : FS unit :=
  n ← get_node p;
  c ← get_cache;
  c ← with_store (fun st => testForResize st c);
  key ← with_store (fun _ => node_key n);
  idx ← with_store (fun st => insertIndexHashTable st c key);
  old ← with_store (fun _ => nodes c !! idx);
  massert ((old =? EMPTY) || (old =? DELETED));;
  put_cache (mkCache (S (count c)) (capacity c) (<[idx := p]> (nodes c))).

Definition vfsCacheCopyNode (p : Z) : FS Z :=
  n ← get_node p;
  (if ref_count n =? 0 then vfsCacheInsertNewNode p else mret tt);;
  set_refs p (ref_count n +% 1);;
  mret (ref_count n +% 1).

Definition vfsCacheCloseNode (p : Z) : FS Z :=
  n ← get_node p;
  massert (ref_count n >? 0);;
  set_refs p (ref_count n - 1);;
  (if ref_count n - 1 =? 0 then
     c ← get_cache;
     key ← with_store (fun _ => node_key n);
     '(idx, c) ← with_store (fun st => findIndexHashTable st c key);
     match idx with
     | None => fault
     | Some idx =>
         at_idx ← with_store (fun _ => nodes c !! idx);
         massert (at_idx =? p);;
         put_cache (mkCache (count c - 1) (capacity c) (<[idx := DELETED]> (nodes c)))
     end
   else mret tt);;
  mret (ref_count n - 1).

Definition vfsCacheInit : VfsNodeCache := mkCache 0 0 [].

(** ** Superblocks and reference counts *)

(** The functions of the file system: [read_node] gives a new node in the
    store or an error, the others an error code; 0 is [SUCCESS]. *)
Section Super.
Context (read_node : Z -> FS (Z * Z)) (new_node : FS (Z * Z)) (free_node write_node : Z -> FS Z)
  (trunc_node : Z -> FS Z) (free_ptr : Z -> FS unit) (free_sb : FS unit).

Definition vfsSuperCopy : FS unit := sb ← get_sb; set_sb_refs (sb_ref_count sb +% 1).

Definition vfsSuperClose : FS unit :=
  sb ← get_sb;
  set_sb_refs (sb_ref_count sb -% 1);;
  if sb_ref_count sb -% 1 =? 0 then
    root ← get_node (root_node sb);
    massert (ref_count root =? 0);;
    massert (count (sb_nodes sb) =? 0)%nat;;
    free_ptr (root_node sb);;
    free_sb
  else mret tt.

Definition vfsSuperCopyNode (p : Z) : FS unit :=
  n ← get_node p;
  match superblock n with
  | None => set_refs p (ref_count n +% 1)
  | Some _ =>
      refs ← vfsCacheCopyNode p;
      if refs =? 1 then vfsSuperCopy else mret tt
  end.

Definition vfsNodeCopy (p : Z) : FS unit := vfsSuperCopyNode p.

(** [None] is [NULL]. *)
Definition vfsCacheGetNodeOrLock (sb_id node_id : Z) : FS (option Z) :=
  c ← get_cache;
  '(idx, c) ← with_store (fun st => findIndexHashTable st c (sb_id, node_id));
  put_cache c;;
  match idx with
  | Some idx =>
      found ← with_store (fun _ => nodes c !! idx);
      vfsNodeCopy found;;
      mret (Some found)
  | None => mret None
  end.

Definition vfsSuperFreeNode (p : Z) : FS Z :=
  n ← get_node p;
  massert (bool_decide (is_Some (superblock n)));;
  err ← trunc_node p;
  if negb (err =? 0) then mret err else free_node p.

Definition vfsSuperCloseNode (p : Z) : FS Z :=
  n ← get_node p;
  match superblock n with
  | None =>
      set_refs p (ref_count n -% 1);;
      (if ref_count n -% 1 =? 0 then free_ptr p else mret tt);;
      mret 0
  | Some _ =>
      refs ← vfsCacheCloseNode p;
      if refs =? 0 then
        sb ← get_sb;
        if root_node sb =? p then vfsSuperClose;; mret 0
        else
          err ← (if nlinks n =? 0 then vfsSuperFreeNode p else mret 0);
          if negb (err =? 0) then mret err
          else
            n ← get_node p;
            err ← (if dirty n then write_node p else mret 0);
            free_ptr p;;
            vfsSuperClose;;
            mret err
      else mret 0
  end.

(** The error and the node. *)
Definition vfsSuperReadNode (id : Z) : FS (Z * Z) :=
  sb ← get_sb;
  root ← get_node (root_node sb);
  if id =? node_id root then
    vfsNodeCopy (root_node sb);;
    mret (0, root_node sb)
  else
    cached ← vfsCacheGetNodeOrLock (sb_id sb) id;
    match cached with
    | Some p => mret (0, p)
    | None =>
        '(err, p) ← read_node id;
        if err =? 0 then
          n ← get_node p;
          massert (ref_count n =? 0);;
          vfsNodeCopy p;;
          mret (0, p)
        else mret (err, 0)
    end.

Definition vfsSuperNewNode : FS (Z * Z) :=
  '(err, id) ← new_node;
  if negb (err =? 0) then mret (err, 0) else vfsSuperReadNode id.

Definition vfsSuperWriteNode (p : Z) : FS Z :=
  n ← get_node p;
  match superblock n with
  | None => mret 0
  | Some _ => set_dirty p;; mret 0
  end.

End Super.

(** ** The map the table stands for *)

Definition slot_of (st : store) (p : Z) : slot (Z * Z) Z :=
  if p =? EMPTY then Empty
  else if p =? DELETED then Deleted
  else match n ← st !! p; node_key n with Some k => Full k p | None => Empty end.

(** Every pointer of the array is a node with a superblock. *)
Definition nodes_ok (st : store) (l : list Z) : Prop :=
  Forall (fun p => valid_ptr p = true -> exists n k, st !! p = Some n /\ node_key n = Some k) l.

(** [table] caches exactly the nodes of [R]. *)
Record caches (st : store) (table : VfsNodeCache) (R : gmap (Z * Z) Z) : Prop := {
  c_table : table_of hash_index (slot_of st <$> nodes table) R;
  c_nodes : nodes_ok st (nodes table);
  c_len : length (nodes table) = capacity table;
  c_count : count table = size R;
  c_load : (count table * 3 <= capacity table * 2 + 3)%nat;
  c_capacity : (16 <= capacity table)%nat \/ (capacity table = 0 /\ count table = 0)%nat;
}.

(** ** Lemmas *)

Lemma node_hash_index_lt cap key : (0 < cap)%nat -> (hash_index cap key < cap)%nat.
Proof.
  intros H. unfold hash_index.
  pose proof (Z.mod_pos_bound (vfsNodeKeyHash (fst key) (snd key)) (Z.of_nat cap)). lia.
Qed.

Lemma slot_valid st l i p :
  nodes_ok st l -> l !! i = Some p -> valid_ptr p = true ->
  exists n k, st !! p = Some n /\ node_key n = Some k /\ slot_of st p = Full k p.
Proof.
  intros Hok Hi Hv. unfold nodes_ok in Hok. rewrite Forall_lookup in Hok.
  destruct (Hok i p Hi Hv) as (n & k & Hn & Hk). exists n, k. split; [done|split; [done|]].
  unfold slot_of, valid_ptr in *. destruct (p =? EMPTY); [done|]. destruct (p =? DELETED); [done|].
  by rewrite Hn; cbn [mbind option_bind]; rewrite Hk.
Qed.

Lemma slot_full st p k v : slot_of st p = Full k v -> v = p /\ valid_ptr p = true.
Proof.
  unfold slot_of, valid_ptr. destruct (p =? EMPTY); [done|]. destruct (p =? DELETED); [done|].
  destruct (st !! p) as [n|]; cbn [mbind option_bind]; [|done]. destruct (node_key n); [|done].
  by intros [= _ ->].
Qed.

Lemma compare_key n k key :
  node_key n = Some k -> vfsNodeCompareKey n (fst key) (snd key) = Some (bool_decide (k = key)).
Proof.
  unfold node_key, vfsNodeCompareKey. destruct (superblock n) as [id|]; [|done].
  intros [= <-]. destruct key as [a b]. cbn [fst snd].
  destruct (Z.eqb_spec (node_id n) b) as [<-|Hne]; cbn [negb mbind option_bind].
  - f_equal. destruct (Z.eqb_spec id a) as [->|Hne]; symmetry;
      [by apply bool_decide_eq_true|apply bool_decide_eq_false; congruence].
  - f_equal. symmetry. apply bool_decide_eq_false. congruence.
Qed.

(** The insertion loop sees the slots of the abstract table. *)
Lemma continue_insert_slot st table key i :
  nodes_ok st (nodes table) ->
  continueInsertSearch st table key i = insert_on key <$> (slot_of st <$> nodes table) !! i.
Proof.
  intros Hok. unfold continueInsertSearch. rewrite list_lookup_fmap.
  destruct (nodes table !! i) as [p|] eqn:Hi; [|done]. cbn [mbind option_bind fmap option_fmap option_map].
  destruct (valid_ptr p) eqn:Hv.
  - destruct (slot_valid st _ i p Hok Hi Hv) as (n & k & Hn & Hk & ->). rewrite Hn.
    cbn [mbind option_bind]. by rewrite (compare_key n k key Hk).
  - unfold valid_ptr in Hv. unfold slot_of. destruct (p =? EMPTY); [done|].
    by destruct (p =? DELETED).
Qed.

Abbreviation slots st l := (slot_of st <$> l).

Lemma not_valid_slot st p : slot_of st p = Empty \/ slot_of st p = Deleted ->
  (valid_ptr p = true -> exists n k, st !! p = Some n /\ node_key n = Some k) -> p = EMPTY \/ p = DELETED.
Proof.
  unfold slot_of, valid_ptr. destruct (Z.eqb_spec p EMPTY); [by left|]. destruct (Z.eqb_spec p DELETED); [by right|].
  cbn [negb andb]. intros Hs Hok. destruct (Hok eq_refl) as (m & k & Hm & Hk).
  rewrite Hm in Hs. cbn [mbind option_bind] in Hs. rewrite Hk in Hs. by destruct Hs.
Qed.

(** Insertion of a node whose key is not cached. *)
Lemma insert_spec st table R key p n :
  table_of hash_index (slots st (nodes table)) R -> nodes_ok st (nodes table) ->
  length (nodes table) = capacity table -> (size R < capacity table)%nat -> R !! key = None ->
  st !! p = Some n -> node_key n = Some key -> valid_ptr p = true ->
  exists idx old, insertIndexHashTable st table key = Some idx /\ nodes table !! idx = Some old /\
    (old = EMPTY \/ old = DELETED) /\
    table_of hash_index (slots st (<[idx := p]> (nodes table))) (<[key := p]> R) /\
    nodes_ok st (<[idx := p]> (nodes table)).
Proof.
  intros Ht Hok Hlen Hsz Hk Hn Hkey Hv.
  assert (Hsl : length (slots st (nodes table)) = capacity table) by by rewrite length_fmap.
  destruct (insert_stop hash_index node_hash_index_lt _ R key Ht) as (j & sl & Hj & Hs & Hsd & Hc); [lia|done|].
  rewrite Hsl in *. set (idx := pos _ _ j) in *. pose proof Hs as Hs'. rewrite list_lookup_fmap in Hs'.
  destruct (nodes table !! idx) as [old|] eqn:Hold; [|done]. injection Hs' as Hs'.
  assert (Hcont : forall i, continueInsertSearch st table key i = insert_on key <$> slots st (nodes table) !! i)
    by (intros; by apply continue_insert_slot).
  exists idx, old. split; [|split; [done|split; [|split]]].
  - unfold insertIndexHashTable. apply free_loop_spec; try done.
    + apply node_hash_index_lt. lia.
    + intros i Hi. rewrite Hcont. by apply Hc.
    + rewrite Hcont. fold idx. rewrite Hs. by destruct Hsd as [-> | ->].
  - apply (not_valid_slot st); [by rewrite Hs'|]. intros Hvo.
    destruct (slot_valid st _ idx old Hok Hold Hvo) as (m & k & ? & ? & _). eauto.
  - rewrite list_fmap_insert. assert (E : slot_of st p = Full key p).
    { unfold slot_of, valid_ptr in *. destruct (p =? EMPTY); [done|]. destruct (p =? DELETED); [done|].
      rewrite Hn. cbn [mbind option_bind]. by rewrite Hkey. }
    rewrite E. unfold idx. rewrite <- Hsl. eapply table_insert; try done; rewrite ?Hsl; try done.
    + apply node_hash_index_lt.
    + intros i Hi. specialize (Hc i Hi). revert Hc.
      destruct (slots st (nodes table) !! pos (capacity table) (hash_index (capacity table) key) i)
        as [x|]; [|done].
      cbn [fmap option_fmap option_map]. intros [= Hx]. by rewrite (insert_search key x).
  - unfold nodes_ok in *. apply Forall_insert; [done|]. intros _. eauto.
Qed.

(** *** Resizing *)

Definition live (st : store) (l : list Z) : list ((Z * Z) * Z) :=
  omap (fun p => match slot_of st p with Full k v => Some (k, v) | _ => None end) l.

Lemma rebuild_cache_loop_spec st old new R0 R :
  table_of hash_index (slots st (nodes new)) R0 -> nodes_ok st (nodes new) -> nodes_ok st old ->
  length (nodes new) = capacity new ->
  (forall k v, R !! k = Some v <-> R0 !! k = Some v \/ (k, v) ∈ live st old) ->
  NoDup (fst <$> live st old) -> (forall k v, (k, v) ∈ live st old -> R0 !! k = None) ->
  (size R < capacity new)%nat ->
  exists l, rebuild_loop st old new = Some (mkCache (count new) (capacity new) l) /\
    table_of hash_index (slots st l) R /\ nodes_ok st l /\ length l = capacity new.
Proof.
  revert new R0. induction old as [|p old IH]; intros new R0 Ht Hok Hoko Hlen HR Hnd Hnew Hsz.
  { exists (nodes new). split; [by destruct new|split; [|done]]. replace R with R0; [done|].
    apply map_eq. intros k. apply option_eq. intros v. rewrite HR. cbn. split; [by left|].
    intros [?|H]; [done|by apply not_elem_of_nil in H]. }
  apply Forall_cons_iff in Hoko as [Hp Hoko]. cbn [rebuild_loop].
  destruct (valid_ptr p) eqn:Hv.
  2: { apply (IH new R0); try done; unfold live in *; cbn [omap list_omap] in *;
       unfold slot_of, valid_ptr in *; destruct (p =? EMPTY); try done; by destruct (p =? DELETED). }
  destruct (Hp eq_refl) as (n & k & Hn & Hk). rewrite Hn. cbn [mbind option_bind]. rewrite Hk.
  cbn [mbind option_bind].
  assert (Hslot : slot_of st p = Full k p).
  { unfold slot_of, valid_ptr in *. destruct (p =? EMPTY); [done|]. destruct (p =? DELETED); [done|].
    rewrite Hn. cbn [mbind option_bind]. by rewrite Hk. }
  assert (Hlive : live st (p :: old) = (k, p) :: live st old).
  { unfold live. cbn [omap list_omap]. by rewrite Hslot. }
  rewrite Hlive in *. cbn [fmap list_fmap fst] in Hnd. inversion_clear Hnd as [|? ? Hkn Hnd'].
  assert (HR0k : R0 !! k = None) by (apply (Hnew k p), list_elem_of_here).
  assert (Hsz0 : (size R0 < capacity new)%nat).
  { assert (R0 ⊆ R) as Hsub%map_subseteq_size; [|lia].
    apply map_subseteq_spec. intros k' v' ?. apply HR. by left. }
  destruct (insert_spec st new R0 k p n Ht Hok Hlen Hsz0 HR0k Hn Hk Hv)
    as (idx & o & -> & _ & _ & Ht' & Hok'). cbn [mbind option_bind].
  apply (IH (mkCache _ _ _) (<[k := p]> R0)); cbn [nodes capacity count]; try done.
  - by rewrite length_insert.
  - intros k' v'. rewrite HR, elem_of_cons. destruct (decide (k' = k)) as [->|Hne].
    + rewrite lookup_insert_eq, HR0k. split.
      * intros [?|[[= ->]|Hin]]; [done|by left|by right].
      * intros [[= ->]|Hin]; [right; by left|right; by right].
    + rewrite lookup_insert_ne by done. split; intros [?|Hin]; [by left| |by left|right; by right].
      destruct Hin as [[= ? _]|?]; [done|by right].
  - intros k' v' Hin. rewrite lookup_insert_ne.
    + apply (Hnew k' v'). by apply list_elem_of_further.
    + intros <-. apply Hkn. by apply (list_elem_of_fmap_2 fst _ (k, v')).
Qed.

Lemma elem_of_live_nodes st l k v :
  (k, v) ∈ live st l <-> exists i, slots st l !! i = Some (Full k v).
Proof.
  unfold live. rewrite list_elem_of_omap. split.
  - intros (p & Hp & Hs). apply list_elem_of_lookup in Hp as [i Hi]. exists i.
    rewrite list_lookup_fmap, Hi. cbn. destruct (slot_of st p); try done. by injection Hs as -> ->.
  - intros (i & Hi). rewrite list_lookup_fmap in Hi. destruct (l !! i) as [p|] eqn:Hp; [|done].
    injection Hi as Hi. exists p. split; [by eapply list_elem_of_lookup_2|]. by rewrite Hi.
Qed.

Lemma live_nodes_NoDup st l :
  (forall i i' k v v', slots st l !! i = Some (Full k v) -> slots st l !! i' = Some (Full k v') -> i = i') ->
  NoDup (fst <$> live st l).
Proof.
  induction l as [|p l IH]; intros Honce; [constructor|].
  assert (IHr : NoDup (fst <$> live st l)).
  { apply IH. intros i i' k v v' H1 H2. assert (S i = S i') by (eapply (Honce (S i) (S i')); eauto). lia. }
  unfold live in *. cbn [omap list_omap]. destruct (slot_of st p) as [| |k v] eqn:Hs; try done.
  cbn [fmap list_fmap fst]. constructor; [|done]. intros Hin.
  apply list_elem_of_fmap in Hin as ([k' v'] & -> & Hin). apply elem_of_live_nodes in Hin as [i Hi].
  assert (0%nat = S i); [|lia]. apply (Honce 0%nat (S i) k' v v'); [|done].
  cbn. by rewrite Hs.
Qed.

Lemma rebuild_cache_spec st table R n :
  caches st table R -> (size R < n)%nat ->
  exists l, rebuildHashTable st table n = Some (mkCache (count table) n l) /\
    table_of hash_index (slots st l) R /\ nodes_ok st l /\ length l = n.
Proof.
  intros [Ht Hok Hlen Hc _ _] Hsz. unfold rebuildHashTable.
  apply (rebuild_cache_loop_spec st (nodes table) (mkCache (count table) n (replicate n EMPTY)) ∅ R);
    cbn [nodes capacity]; try done.
  - rewrite fmap_replicate. apply table_empty.
  - apply Forall_replicate. done.
  - by rewrite length_replicate.
  - intros k v. rewrite lookup_empty, elem_of_live_nodes. split.
    + intros Hk. right. destruct (t_chain _ _ _ Ht k v Hk) as (j & _ & Hj & _). eauto.
    + intros [?|(i & Hi)]; [done|]. by eapply (t_live _ _ _ Ht).
  - apply live_nodes_NoDup. intros i i' k v v'. apply (t_once _ _ _ Ht).
Qed.

Lemma resize_cache_spec st table R :
  caches st table R ->
  exists table', testForResize st table = Some table' /\ caches st table' R /\
    (16 <= capacity table')%nat /\ (count table' * 3 <= capacity table' * 2)%nat /\
    count table' = count table.
Proof.
  intros Hc. pose proof Hc as [_ _ _ Hcnt Hload Hcap]. unfold testForResize, MIN_TABLE_CAPACITY.
  assert (Hre : forall n, (16 <= n)%nat -> (count table * 3 <= n * 2)%nat ->
    exists t', rebuildHashTable st table n = Some t' /\ caches st t' R /\
      (16 <= capacity t')%nat /\ (count t' * 3 <= capacity t' * 2)%nat /\ count t' = count table).
  { intros n Hn Hcn. destruct (rebuild_cache_spec st table R n Hc ltac:(lia)) as (l & Hr & Ht & Hok & Hl).
    exists (mkCache (count table) n l). split; [done|split; [|cbn; lia]]. split; cbn; try done; lia. }
  assert (Hhalf : (capacity table / 2 * 2 <= capacity table < capacity table / 2 * 2 + 2)%nat).
  { pose proof (Nat.div_mod_eq (capacity table) 2). pose proof (Nat.mod_upper_bound (capacity table) 2). lia. }
  destruct (Nat.ltb_spec (capacity table) 32); [apply Hre; lia|].
  destruct (Nat.ltb_spec 32 (capacity table)), (Nat.ltb_spec (count table * 4) (capacity table)); cbn [andb];
    [apply Hre; lia|..];
    (destruct (Nat.ltb_spec (capacity table * 2) (count table * 3));
     [apply Hre; lia|exists table; split; [done|split; [done|lia]]]).
Qed.

(** *** Searching *)

(** The condition of the search loop, on the slots of the abstract table. *)
Lemma search_cond st table key i p :
  nodes_ok st (nodes table) -> nodes table !! i = Some p ->
  (if p =? DELETED then Some true
   else if valid_ptr p then
     n ← st !! p; same ← vfsNodeCompareKey n (fst key) (snd key); Some (negb same)
   else Some false) = Some (search_on key (slot_of st p)) /\
  ((p =? DELETED) = true <-> slot_of st p = Deleted).
Proof.
  intros Hok Hi. destruct (valid_ptr p) eqn:Hv.
  - destruct (slot_valid st _ i p Hok Hi Hv) as (n & k & Hn & Hk & Hs). rewrite Hs, Hn.
    unfold valid_ptr in Hv. destruct (p =? DELETED); [by rewrite andb_false_r in Hv|].
    cbn [mbind option_bind]. rewrite (compare_key n k key Hk). done.
  - unfold valid_ptr in Hv. unfold slot_of. destruct (Z.eqb_spec p EMPTY) as [->|]; [done|].
    by destruct (p =? DELETED).
Qed.

Section Search.
Context (st : store) (table : VfsNodeCache) (key : Z * Z).
Context (Hok : nodes_ok st (nodes table)) (Hlen : length (nodes table) = capacity table).
Context (Hcap : (0 < capacity table)%nat).

Local Abbreviation start := (hash_index (capacity table) key).
Local Abbreviation at_step j := (pos (capacity table) start j).

(** The last deleted slot before step [i]. *)
Definition last_deleted (i : nat) (ff : option nat) : Prop :=
  match ff with
  | None => True
  | Some f => exists d, (d < i)%nat /\ f = at_step d /\ slots st (nodes table) !! f = Some Deleted
  end.

Lemma start_lt : (start < capacity table)%nat.
Proof. by apply node_hash_index_lt. Qed.

Lemma slot_ptr j : exists p, nodes table !! at_step j = Some p /\
  slots st (nodes table) !! at_step j = Some (slot_of st p).
Proof.
  destruct (lookup_lt_is_Some_2 (nodes table) (at_step j)) as [p Hp]; [rewrite Hlen; by apply pos_lt|].
  exists p. by rewrite list_lookup_fmap, Hp.
Qed.

(** One step of the loop over a slot that does not end the search. *)
Lemma search_step fuel i ff :
  search_on key <$> slots st (nodes table) !! at_step i = Some true -> last_deleted i ff ->
  exists ff', last_deleted (S i) ff' /\
    search_loop (S fuel) st table key start (at_step i) ff =
    if decide (at_step (S i) = start) then Some None
    else search_loop fuel st table key start (at_step (S i)) ff'.
Proof.
  intros Hs Hff. destruct (slot_ptr i) as (p & Hp & Hsl). rewrite Hsl in Hs. injection Hs as Hs.
  destruct (search_cond st table key (at_step i) p Hok Hp) as [Hc Hd].
  exists (if p =? DELETED then Some (at_step i) else ff). split.
  - destruct (p =? DELETED) eqn:E; cbn [last_deleted].
    + exists i. split; [lia|split; [done|]]. rewrite Hsl. f_equal. by apply Hd.
    + destruct ff as [f|]; [|done]. destruct Hff as (d & ? & ?). exists d. split; [lia|done].
  - cbn [search_loop]. rewrite Hp. cbn [mbind option_bind]. rewrite Hc. cbn [mbind option_bind].
    rewrite Hs, pos_S by done. done.
Qed.

(** The loop stops at the slot [j] that ends the search. *)
Lemma search_found j s fuel :
  (j < capacity table)%nat -> (j < fuel)%nat -> slots st (nodes table) !! at_step j = Some s ->
  search_on key s = false ->
  (forall i, (i < j)%nat -> search_on key <$> slots st (nodes table) !! at_step i = Some true) ->
  exists ff, search_loop fuel st table key start start None = Some (Some (at_step j, ff)) /\
    last_deleted j ff.
Proof.
  intros Hj Hf Hs Hstop Hc.
  enough (H : forall d i ff fuel, (i + d = j)%nat -> (d < fuel)%nat -> last_deleted i ff ->
    exists ff', search_loop fuel st table key start (at_step i) ff = Some (Some (at_step j, ff')) /\
      last_deleted j ff').
  { specialize (H j 0%nat None fuel). rewrite pos_0 in H by apply start_lt. apply H; [lia|done|done]. }
  clear Hf fuel. induction d as [|d IH]; intros i ff [|fuel] Hi Hf Hff; try lia.
  - replace i with j in * by lia. destruct (slot_ptr j) as (p & Hp & Hsl). rewrite Hsl in Hs.
    injection Hs as <-. destruct (search_cond st table key (at_step j) p Hok Hp) as [Hcd _].
    exists ff. split; [|done]. cbn [search_loop]. rewrite Hp. cbn [mbind option_bind].
    rewrite Hcd. cbn [mbind option_bind]. by rewrite Hstop.
  - destruct (search_step fuel i ff (Hc i ltac:(lia)) Hff) as (ff' & Hff' & ->).
    rewrite decide_False by (apply pos_back; [apply start_lt|lia]). apply IH; [lia|lia|done].
Qed.

(** The loop comes back to the start when no slot ends the search. *)
Lemma search_wrap fuel :
  (capacity table <= fuel)%nat ->
  (forall i, (i < capacity table)%nat -> search_on key <$> slots st (nodes table) !! at_step i = Some true) ->
  search_loop fuel st table key start start None = Some None.
Proof.
  intros Hf Hc.
  enough (H : forall d i ff fuel, (i + d = capacity table)%nat -> (0 < d <= fuel)%nat -> last_deleted i ff ->
    search_loop fuel st table key start (at_step i) ff = Some None).
  { specialize (H (capacity table) 0%nat None fuel). rewrite pos_0 in H by apply start_lt. apply H; [lia|lia|done]. }
  clear Hf fuel. induction d as [|d IH]; intros i ff [|fuel] Hi Hf Hff; try lia.
  destruct (search_step fuel i ff (Hc i ltac:(lia)) Hff) as (ff' & Hff' & ->).
  destruct (decide (at_step (S i) = start)) as [|Hne]; [done|].
  destruct d as [|d]; [|apply IH; [lia|lia|done]]. exfalso. apply Hne. unfold pos.
  replace (start + S i)%nat with (start + 1 * capacity table)%nat by lia.
  rewrite Nat.Div0.mod_add. apply Nat.mod_small, start_lt.
Qed.

End Search.

(** [findIndexHashTable] finds exactly the cached nodes; it may move the node,
    to a table for the same map. *)
Lemma findIndex_spec st table R key :
  caches st table R ->
  match R !! key with
  | None => findIndexHashTable st table key = Some (None, table)
  | Some p => exists idx table', findIndexHashTable st table key = Some (Some idx, table') /\
      nodes table' !! idx = Some p /\ valid_ptr p = true /\
      slots st (nodes table') !! idx = Some (Full key p) /\ caches st table' R
  end.
Proof.
  intros Hc. pose proof Hc as [Ht Hok Hlen Hcnt Hload Hcap]. unfold findIndexHashTable.
  destruct (Nat.eqb_spec (count table) 0) as [H0|H0].
  { assert (R = ∅) as -> by (apply map_size_empty_inv; lia). by rewrite lookup_empty. }
  assert (Hpos : (0 < capacity table)%nat) by lia.
  assert (Hsl : length (slots st (nodes table)) = capacity table) by by rewrite length_fmap.
  pose proof (search_stop hash_index node_hash_index_lt _ R key Ht ltac:(lia)) as Hstop. rewrite Hsl in Hstop.
  destruct (R !! key) as [p|] eqn:Hk.
  - destruct Hstop as (j & Hj & Hs & Hch).
    destruct (search_found st table key Hok Hlen Hpos j _ (capacity table) Hj Hj Hs) as (ff & -> & Hff);
      [cbn; by rewrite bool_decide_eq_true_2|done|]. cbn [mbind option_bind].
    destruct (slot_ptr st table key Hlen Hpos j) as (q & Hq & Hq'). rewrite Hs in Hq'. injection Hq' as Hq'.
    symmetry in Hq'. destruct (slot_full _ _ _ _ Hq') as [-> Hv]. rewrite Hq. cbn [mbind option_bind].
    rewrite Hv. cbn [negb]. destruct ff as [f|]; [|eexists _, _; by rewrite Hs].
    destruct Hff as (d & Hd & -> & Hdel).
    set (jd := pos _ _ d) in *. set (jj := pos _ _ j) in *.
    assert (Hne : jd <> jj) by (intros E; rewrite E, Hs in Hdel; done).
    assert (Hjd : (jd < length (nodes table))%nat) by (rewrite Hlen; by apply pos_lt).
    assert (Hjj : (jj < length (nodes table))%nat) by (rewrite Hlen; by apply pos_lt).
    exists jd, (mkCache (count table) (capacity table) (<[jj := DELETED]> (<[jd := q]> (nodes table)))).
    cbn [nodes]. rewrite !list_fmap_insert, Hq'. split; [done|split; [|split; [done|split]]].
    + by rewrite list_lookup_insert_ne, list_lookup_insert_eq by done.
    + rewrite list_lookup_insert_ne, list_lookup_insert_eq by (rewrite ?length_fmap; done). done.
    + split; cbn [nodes capacity count]; try done.
      * rewrite !list_fmap_insert, Hq'. change (slot_of st DELETED) with (@Deleted (Z * Z) Z).
        unfold jd, jj. rewrite <- Hsl. eapply table_move; rewrite ?Hsl; try done. apply node_hash_index_lt.
      * apply Forall_insert; [apply Forall_insert; [done|]|done].
        intros _. destruct (slot_valid st _ jj q Hok Hq Hv) as (m & k & ? & ? & _). eauto.
      * by rewrite !length_insert.
  - destruct Hstop as [(j & Hj & Hs & Hch)|Hall].
    + destruct (search_found st table key Hok Hlen Hpos j _ (capacity table) Hj Hj Hs) as (ff & -> & Hff);
        [done|done|]. cbn [mbind option_bind].
      destruct (slot_ptr st table key Hlen Hpos j) as (q & Hq & Hq'). rewrite Hs in Hq'. injection Hq' as Hq'.
      rewrite Hq. cbn [mbind option_bind]. destruct (valid_ptr q) eqn:Hv; [|done].
      destruct (slot_valid st _ _ q Hok Hq Hv) as (m & k & _ & _ & E). by rewrite E in Hq'.
    + by rewrite (search_wrap st table key Hok Hlen Hpos).
Qed.

(** ** Properties *)

(** The cached nodes with references, and the cache as it represents them. *)
Definition fs_caches (s : fs_state) (R : gmap (Z * Z) Z) : Prop :=
  caches (st_nodes s) (sb_nodes (super s)) R.

(** Only the reference count of one node differs. *)
Definition with_refs (n : VfsNode) (refs : Z) : VfsNode :=
  mkNode (superblock n) (node_id n) (nlinks n) (dirty n) refs.

Lemma slot_with_refs st p n refs q :
  st !! p = Some n -> slot_of (<[p := with_refs n refs]> st) q = slot_of st q.
Proof.
  intros Hn. unfold slot_of. destruct (q =? EMPTY); [done|]. destruct (q =? DELETED); [done|].
  destruct (decide (q = p)) as [->|Hne]; [by rewrite lookup_insert_eq, Hn|by rewrite lookup_insert_ne].
Qed.

Lemma caches_with_refs st table R p n refs :
  caches st table R -> st !! p = Some n -> caches (<[p := with_refs n refs]> st) table R.
Proof.
  intros [Ht Hok Hlen Hcnt Hload Hcap] Hn. split; try done.
  - erewrite list_fmap_ext; [exact Ht|]. intros i q _. by apply slot_with_refs.
  - unfold nodes_ok in *. rewrite Forall_lookup in *. intros i q Hi Hv.
    specialize (Hok i q Hi) as Hq. destruct (Hq Hv) as (m & k & Hm & Hk).
    destruct (decide (q = p)) as [->|Hne].
    + exists (with_refs n refs), k. rewrite lookup_insert_eq. simplify_eq. done.
    + exists m, k. by rewrite lookup_insert_ne.
Qed.

Lemma set_refs_eq p n refs s :
  st_nodes s !! p = Some n ->
  set_refs p refs s = Some (tt, mkFs (<[p := with_refs n refs]> (st_nodes s)) (super s)).
Proof. intros Hn. unfold set_refs. by rewrite Hn. Qed.

Lemma get_node_eq p n s : st_nodes s !! p = Some n -> get_node p s = Some (n, s).
Proof. intros Hn. unfold get_node. by rewrite Hn. Qed.

(** A new node joins the cache. *)
Lemma insertNewNode_spec s R p n key :
  fs_caches s R -> st_nodes s !! p = Some n -> node_key n = Some key -> valid_ptr p = true ->
  R !! key = None ->
  exists c, vfsCacheInsertNewNode p s =
      Some (tt, mkFs (st_nodes s) (mkSuper (sb_id (super s)) (root_node (super s)) (sb_ref_count (super s)) c)) /\
    caches (st_nodes s) c (<[key := p]> R).
Proof.
  intros Hc Hn Hkey Hv Hk. unfold vfsCacheInsertNewNode. rewrite (bind_some _ _ _ _ _ (get_node_eq _ _ _ Hn)).
  unfold get_cache, with_store, put_cache. unfold mbind at 1, M_bind.
  destruct (resize_cache_spec _ _ R Hc) as (t1 & Ht1 & Hc1 & Hcap & Hld & Hcnt).
  unfold mbind, M_bind. rewrite Ht1. cbn [mbind option_bind]. rewrite Hkey. cbn [mbind option_bind].
  pose proof Hc1 as [Ht Hok Hlen Hcnt1 Hload _].
  destruct (insert_spec (st_nodes s) t1 R key p n Ht Hok Hlen ltac:(lia) Hk Hn Hkey Hv)
    as (idx & old & -> & Hold & Hsd & Ht' & Hok'). cbn [mbind option_bind]. rewrite Hold.
  cbn [mbind option_bind]. unfold massert.
  replace ((old =? EMPTY) || (old =? DELETED)) with true by (by destruct Hsd as [-> | ->]).
  eexists. split; [done|]. split; cbn [nodes capacity count]; try done.
  - by rewrite length_insert.
  - rewrite map_size_insert, Hk. lia.
  - lia.
  - by left.
Qed.

(** [vfsCacheCopyNode] counts a reference, and with the first one the node
    joins the cache under its superblock and node id; nothing else changes. *)
Theorem vfsCacheCopyNode_refines s R p n key :
  fs_caches s R -> st_nodes s !! p = Some n -> node_key n = Some key -> valid_ptr p = true ->
  0 <= ref_count n -> ref_count n + 1 < 2 ^ 64 -> (ref_count n = 0 -> R !! key = None) ->
  exists s', vfsCacheCopyNode p s = Some (ref_count n + 1, s') /\
    fs_caches s' (if ref_count n =? 0 then <[key := p]> R else R) /\
    st_nodes s' = <[p := with_refs n (ref_count n + 1)]> (st_nodes s) /\
    sb_ref_count (super s') = sb_ref_count (super s).
Proof.
  intros Hc Hn Hkey Hv H0 Hov Hk. unfold vfsCacheCopyNode.
  rewrite (bind_some _ _ _ _ _ (get_node_eq _ _ _ Hn)). unwrap.
  destruct (Z.eqb_spec (ref_count n) 0) as [E|E].
  - destruct (insertNewNode_spec s R p n key Hc Hn Hkey Hv (Hk E)) as (c & Hr & Hc').
    rewrite (bind_some _ _ _ _ _ Hr). erewrite bind_some by (by apply set_refs_eq).
    eexists. split; [done|]. cbn [st_nodes super sb_ref_count fs_caches]. split; [|done].
    unfold fs_caches. cbn [st_nodes super sb_nodes]. by apply caches_with_refs.
  - rewrite bind_ret. erewrite bind_some by (by apply set_refs_eq).
    eexists. split; [done|]. split; [|done]. unfold fs_caches. by apply caches_with_refs.
Qed.

(** [vfsCacheCloseNode] gives a reference back; with the last one exactly
    this node leaves the cache.  The assertions of the code hold. *)
Theorem vfsCacheCloseNode_refines s R p n key :
  fs_caches s R -> st_nodes s !! p = Some n -> node_key n = Some key -> R !! key = Some p ->
  0 < ref_count n ->
  exists s', vfsCacheCloseNode p s = Some (ref_count n - 1, s') /\
    fs_caches s' (if ref_count n =? 1 then delete key R else R) /\
    st_nodes s' = <[p := with_refs n (ref_count n - 1)]> (st_nodes s).
Proof.
  intros Hc Hn Hkey Hk H0. unfold vfsCacheCloseNode.
  rewrite (bind_some _ _ _ _ _ (get_node_eq _ _ _ Hn)). rewrite bind_assert by lia.
  erewrite bind_some by (by apply set_refs_eq).
  pose proof (caches_with_refs _ _ R p n (ref_count n - 1) Hc Hn) as Hc1.
  replace (ref_count n =? 1) with (ref_count n - 1 =? 0) by lia.
  destruct (Z.eqb_spec (ref_count n - 1) 0) as [E|E].
  2: { rewrite bind_ret. eexists. split; [done|]. by split. }
  pose proof (findIndex_spec _ _ R key Hc1) as Hf. rewrite Hk in Hf.
  destruct Hf as (idx & t' & Hf & Hp & Hv & Hs & Hc2).
  unfold get_cache, with_store, put_cache, mbind, M_bind. cbn [super st_nodes]. rewrite Hkey.
  cbn [mbind option_bind]. cbn [st_nodes super]. rewrite Hf. cbn [mbind option_bind]. rewrite Hp. cbn [mbind option_bind].
  unfold massert. rewrite Z.eqb_refl. eexists. split; [done|]. split; [|done].
  unfold fs_caches. cbn [st_nodes super sb_nodes]. destruct Hc2 as [Ht Hok Hlen Hcnt Hload Hcap].
  assert (Hsz : size R = S (size (delete key R))).
  { rewrite map_size_delete, Hk. pose proof (map_size_non_empty_iff R) as [_ Hne].
    assert (R <> ∅) by (intros ->; done). specialize (Hne H). lia. }
  split; cbn [nodes capacity count]; try lia.
  - rewrite list_fmap_insert. by eapply (table_delete hash_index).
  - apply Forall_insert; [done|]. done.
  - by rewrite length_insert.
Qed.

(** C4: [vfsCacheGetNodeOrLock] returns the cached node with this superblock
    and node id, with one reference more, and [NULL] exactly when there is none,
    when nothing changes. *)
Theorem vfsCacheGetNodeOrLock_refines s R sb id :
  fs_caches s R ->
  (forall p n, R !! (sb, id) = Some p -> st_nodes s !! p = Some n ->
     1 <= ref_count n /\ ref_count n + 1 < 2 ^ 64) ->
  match R !! (sb, id) with
  | None => vfsCacheGetNodeOrLock sb id s = Some (None, s)
  | Some p => exists s' n, vfsCacheGetNodeOrLock sb id s = Some (Some p, s') /\
      fs_caches s' R /\ st_nodes s !! p = Some n /\
      st_nodes s' = <[p := with_refs n (ref_count n + 1)]> (st_nodes s)
  end.
Proof.
  intros Hc Href. unfold vfsCacheGetNodeOrLock.
  pose proof (findIndex_spec _ _ R (sb, id) Hc) as Hf.
  destruct (R !! (sb, id)) as [p|] eqn:Hk.
  2: { unfold get_cache, with_store, put_cache, mbind, M_bind. rewrite Hf. cbn [mbind option_bind].
       by destruct s as [st [? ? ? ?]]. }
  destruct Hf as (idx & t' & Hf & Hp & Hv & Hs & Hc2).
  assert (Hn : exists n, st_nodes s !! p = Some n /\ node_key n = Some (sb, id)).
  { rewrite list_lookup_fmap, Hp in Hs. cbn in Hs. injection Hs as Hs.
    destruct (slot_valid _ _ idx p (c_nodes _ _ _ Hc2) Hp Hv) as (n & k & Hn & Hkn & Hs').
    exists n. split; [done|]. congruence. }
  destruct Hn as (n & Hn & Hkn). destruct (Href p n eq_refl Hn) as [Hr1 Hr2].
  erewrite bind_some by (unfold get_cache; reflexivity).
  erewrite bind_some by (unfold with_store; by rewrite Hf). cbv beta iota.
  erewrite bind_some by (unfold put_cache; reflexivity).
  erewrite bind_some by (unfold with_store; by rewrite Hp).
  unfold vfsNodeCopy, vfsSuperCopyNode. rewrite bind_assoc.
  erewrite bind_some by (by apply get_node_eq). unfold node_key in Hkn.
  destruct (superblock n) as [sbn|] eqn:Hsb; [|done].
  unfold vfsCacheCopyNode. rewrite !bind_assoc. erewrite bind_some by (by apply get_node_eq).
  rewrite (proj2 (Z.eqb_neq (ref_count n) 0)) by lia. rewrite !bind_assoc, bind_ret. unwrap.
  rewrite !bind_assoc. erewrite bind_some by (by apply set_refs_eq). rewrite !bind_ret.
  rewrite (proj2 (Z.eqb_neq (ref_count n + 1) 1)) by lia. rewrite bind_ret.
  eexists _, n. split; [done|]. cbn [st_nodes]. split; [|done].
  unfold fs_caches. cbn [st_nodes super sb_nodes]. by apply caches_with_refs.
Qed.

(** A superblock with one open node besides its root. *)
Definition demo_node : VfsNode := mkNode (Some 1) 7 1 false 0.
Definition demo_fs : fs_state :=
  mkFs {[ 0x1000 := demo_node ]} (mkSuper 1 0x2000 1 vfsCacheInit).

Lemma demo_caches : fs_caches demo_fs ∅.
Proof.
  split; cbn [demo_fs super sb_nodes vfsCacheInit nodes capacity count st_nodes]; try lia; try done.
  by constructor.
Qed.

Lemma vfsCacheCopyNode_refines_witness :
  exists s', vfsCacheCopyNode 0x1000 demo_fs = Some (1, s') /\
    fs_caches s' (<[(1, 7) := 0x1000]> ∅) /\
    st_nodes s' = <[0x1000 := with_refs demo_node 1]> (st_nodes demo_fs) /\ sb_ref_count (super s') = 1.
Proof.
  apply (vfsCacheCopyNode_refines demo_fs ∅ 0x1000 demo_node (1, 7)); try done. exact demo_caches.
Defined.

(** The node after the first [vfsCacheCopyNode]. *)
Definition demo_table : VfsNodeCache :=
  mkCache 1 32 (<[pos 32 (hash_index 32 (1, 7)) 0 := 0x1000]> (replicate 32 EMPTY)).
Definition demo_open : fs_state :=
  mkFs {[ 0x1000 := with_refs demo_node 1 ]} (mkSuper 1 0x2000 2 demo_table).

Lemma demo_open_caches : fs_caches demo_open (<[(1, 7) := 0x1000]> ∅).
Proof.
  split; cbn [demo_open demo_table super sb_nodes nodes capacity count st_nodes]; try lia.
  - rewrite list_fmap_insert, fmap_replicate.
    change (slot_of _ 0x1000) with (@Full (Z * Z) Z (1, 7) 0x1000).
    eapply (table_insert hash_index node_hash_index_lt (replicate 32 Empty) ∅ (1, 7) 0x1000 0 Empty);
      [apply table_empty|done|rewrite length_replicate; lia|done|by left|lia].
  - apply Forall_insert; [by apply Forall_replicate|]. intros _.
    exists (with_refs demo_node 1), (1, 7). done.
  - by rewrite length_insert, length_replicate.
  - by rewrite map_size_insert.
Qed.

Lemma vfsCacheCloseNode_refines_witness :
  exists s', vfsCacheCloseNode 0x1000 demo_open = Some (0, s') /\
    fs_caches s' (delete (1, 7) (<[(1, 7) := 0x1000]> ∅)) /\
    st_nodes s' = <[0x1000 := with_refs (with_refs demo_node 1) 0]> (st_nodes demo_open).
Proof.
  apply (vfsCacheCloseNode_refines demo_open (<[(1, 7) := 0x1000]> ∅) 0x1000 (with_refs demo_node 1) (1, 7));
    try done. exact demo_open_caches.
Defined.

Lemma vfsCacheGetNodeOrLock_refines_witness :
  exists s' n, vfsCacheGetNodeOrLock 1 7 demo_open = Some (Some 0x1000, s') /\
    fs_caches s' (<[(1, 7) := 0x1000]> ∅) /\ st_nodes demo_open !! 0x1000 = Some n /\
    st_nodes s' = <[0x1000 := with_refs n (ref_count n + 1)]> (st_nodes demo_open).
Proof.
  pose proof (vfsCacheGetNodeOrLock_refines demo_open (<[(1, 7) := 0x1000]> ∅) 1 7 demo_open_caches) as H.
  rewrite lookup_insert_eq in H. apply H. intros p n [= <-] Hn.
  change (st_nodes demo_open) with ({[ 0x1000 := with_refs demo_node 1 ]} : store) in Hn.
  rewrite lookup_singleton_eq in Hn. injection Hn as <-. cbn. lia.
Defined.

End VfsCache.
