(* ===== verification/StringMap.v ===== *)
(** * StringMap: [kernel/src/util/stringmap.c]

    The hash table from strings to pointers.  The keys are the table's own
    copies of the strings, buffers that end in NUL, and the markers [EMPTY] and
    [DELETED]; a deletion marks the key and leaves the value.  [count] and
    [capacity] do not wrap: the arrays of 8-byte elements fit the address space.

    [rebuildStringMap] hashes the values as if they were strings, and takes them
    for the markers: [string_at], the bytes at an address, is what it reads.  The
    theorems are about the operations that do not resize a table that has
    entries; [rebuild_loses_keys] shows what a resize does. *)
From S2P Require Import Prelude Util CString Path Probe.
Import Probe.

Local Open Scope c_scope.

Module StringMap.

(** ** Definitions *)

Definition MIN_TABLE_CAPACITY : nat := 128.

(** [EMPTY] and [DELETED], as values. *)
Definition EMPTY : Z := 0.
Definition DELETED : Z := 1.

(** A [char*] in [keys]: [EMPTY], [DELETED], or a string's buffer. *)
Inductive key_slot : Type :=
| KEmpty
| KDeleted
| Key (buf : list Z).

Record StringMap := mkMap {
  count : nat;
  capacity : nat;
  keys : list key_slot;
  values : list Z;
}.

(** [STRING_MAP_INITIALIZER] *)
Definition empty_map : StringMap := mkMap 0 0 [] [].

(** [hashString(s)], for the string in a buffer *)
Definition hash_of (s : list Z) : option Z :=
  n ← Str.strlen s; Some (Util.hashString (take n s)).

(** [hash % capacity] *)
Definition index (hash : Z) (cap : nat) : nat := Z.to_nat (hash mod Z.of_nat cap).

Section Memory.
Context (string_at : Z -> option (list Z)).

Fixpoint rebuild_loop (old : list (key_slot * Z)) (new_size : nat) (new_keys : list key_slot)
    (new_values : list Z) : option (list key_slot * list Z) :=
  match old with
  | [] => Some (new_keys, new_values)
  | (k, v) :: old' =>
      if negb (v =? EMPTY) && negb (v =? DELETED) then
        s ← string_at v; h ← hash_of s;
        idx ← free_loop new_size new_size
                (fun i => x ← new_values !! i; Some (negb (x =? EMPTY))) (index h new_size);
        rebuild_loop old' new_size (<[idx := k]> new_keys) (<[idx := v]> new_values)
      else rebuild_loop old' new_size new_keys new_values
  end.

Definition rebuildStringMap (table : StringMap) (new_size : nat) : option StringMap :=
  kv ← rebuild_loop (zip (keys table) (values table)) new_size
         (replicate new_size KEmpty) (replicate new_size EMPTY);
  Some (mkMap (count table) new_size (fst kv) (snd kv)).

Definition testForResize (map : StringMap) : option StringMap :=
  if (capacity map <? MIN_TABLE_CAPACITY)%nat then rebuildStringMap map MIN_TABLE_CAPACITY
  else if (MIN_TABLE_CAPACITY <? capacity map)%nat && (count map * 4 <? capacity map)%nat
  then rebuildStringMap map (capacity map / 2)
  else if (capacity map * 2 <? count map * 3)%nat
  then rebuildStringMap map (capacity map + capacity map / 2)
  else Some map.

Definition areKeysEqual (in_table : key_slot) (key : list Z) : option bool :=
  match in_table with
  | Key s => r ← Str.strcmp s key; Some (r =? 0)
  | _ => Some false
  end.

(** [map->keys[idx] != EMPTY && !areKeysEqual(map->keys[idx], key)] *)
Definition continue_search (ks : list key_slot) (key : list Z) (idx : nat) : option bool :=
  k ← ks !! idx;
  match k with
  | KEmpty => Some false
  | _ => same ← areKeysEqual k key; Some (negb same)
  end.

(** The same, with [map->keys[idx] != DELETED]. *)
Definition continue_insert (ks : list key_slot) (key : list Z) (idx : nat) : option bool :=
  k ← ks !! idx;
  match k with
  | Key _ => same ← areKeysEqual k key; Some (negb same)
  | _ => Some false
  end.

(** The loop the operations start with, and whether it found the key. *)
Definition find_key (map : StringMap) (key : list Z) : option (nat * bool) :=
  h ← hash_of key;
  let start := (index h (capacity map)) in
  idx ← find_loop (capacity map) (capacity map) start (continue_search (keys map) key) start;
  k ← keys map !! idx; same ← areKeysEqual k key;
  Some (idx, same).

Definition putToStringMap (map : StringMap) (key : list Z) (value : Z) : option StringMap :=
  map ← testForResize map;
  f ← find_key map key;
  if snd f : bool then
    Some (mkMap (count map) (capacity map) (keys map) (<[fst f := value]> (values map)))
  else
    h ← hash_of key;
    idx ← free_loop (capacity map) (capacity map) (continue_insert (keys map) key)
            (index h (capacity map));
    copy ← Path.stringClone (Some key); copy ← copy;
    Some (mkMap (count map + 1) (capacity map) (<[idx := Key copy]> (keys map))
            (<[idx := value]> (values map))).

(** [NULL] is 0 *)
Definition getFromStringMap (map : StringMap) (key : list Z) : option Z :=
  if negb (count map =? 0)%nat then
    f ← find_key map key;
    if snd f : bool then values map !! fst f else Some 0
  else Some 0.

(** The table's copy of the key; [None] inside is [NULL]. *)
Definition getKeyFromStringMap (map : StringMap) (key : list Z) : option (option (list Z)) :=
  if negb (count map =? 0)%nat then
    f ← find_key map key;
    if snd f : bool then
      k ← keys map !! fst f; Some (match k with Key s => Some s | _ => None end)
    else Some None
  else Some None.

Definition deleteFromStringMap (map : StringMap) (key : list Z) : option StringMap :=
  if negb (count map =? 0)%nat then
    f ← find_key map key;
    if snd f : bool then
      testForResize (mkMap (count map - 1) (capacity map) (<[fst f := KDeleted]> (keys map)) (values map))
    else Some map
  else Some map.

End Memory.

(** ** The map a table represents *)

(** The string in a buffer without anything after the NUL. *)
Definition chars (buf : list Z) : list Z := take (length buf - 1) buf.

Definition slot_of (kv : key_slot * Z) : slot (list Z) Z :=
  match fst kv with
  | KEmpty => Empty
  | KDeleted => Deleted
  | Key buf => Full (chars buf) (snd kv)
  end.

Abbreviation slots m := (slot_of <$> zip (keys m) (values m)).

Definition key_ok (k : key_slot) : Prop :=
  match k with Key buf => exists s, is_cstr s /\ buf = s ++ [0] | _ => True end.

(** The first slot for a string. *)
Definition hash_index (cap : nat) (s : list Z) : nat := index (Util.hashString s) cap.

Record represents (m : StringMap) (R : gmap (list Z) Z) : Prop := {
  m_table : table_of hash_index (slots m) R;
  m_keys : Forall key_ok (keys m);
  m_klen : length (keys m) = capacity m;
  m_vlen : length (values m) = capacity m;
  m_count : count m = size R;
  m_load : (capacity m = 0 \/ count m < capacity m)%nat;
}.

(** The table is not resized by an operation that leaves [n] entries in it. *)
Definition stable (m : StringMap) (n : nat) : Prop :=
  (MIN_TABLE_CAPACITY <= capacity m)%nat /\ (n * 3 <= capacity m * 2)%nat /\
  (capacity m = MIN_TABLE_CAPACITY \/ capacity m <= n * 4)%nat.

Lemma string_index_lt cap s : (0 < cap)%nat -> (hash_index cap s < cap)%nat.
Proof. intros. unfold hash_index, index. pose proof (Z.mod_pos_bound (Util.hashString s) (Z.of_nat cap)). lia. Qed.

Lemma chars_app s : chars (s ++ [0]) = s.
Proof.
  unfold chars. rewrite length_app. cbn [length].
  replace (length s + 1 - 1)%nat with (length s) by lia. apply take_app_length.
Qed.

Lemma hash_of_cstr buf s : holds_cstr buf s -> hash_of buf = Some (Util.hashString s).
Proof.
  intros H. unfold hash_of. rewrite (Str.strlen_spec _ _ H). cbn [mbind option_bind].
  destruct H as [_ [rest ->]]. by rewrite take_app_length.
Qed.

Lemma holds_exact s : is_cstr s -> holds_cstr (s ++ [0]) s.
Proof. intros. split; [done|by exists []]. Qed.

Lemma areKeysEqual_spec k key s :
  key_ok k -> holds_cstr key s ->
  areKeysEqual k key = Some (match k with Key b => bool_decide (chars b = s) | _ => false end).
Proof.
  intros Hk Hs. destruct k as [| |b]; try done. destruct Hk as (s' & Hs' & ->). cbn.
  destruct (Str.strcmp_ok _ _ _ _ (holds_exact s' Hs') Hs) as (r & -> & Hr & _).
  cbn [mbind option_bind]. rewrite chars_app. f_equal.
  destruct (Z.eqb_spec r 0) as [E|E]; case_bool_decide as D; try done; tauto.
Qed.

Section Lookup.
Context (m : StringMap) (R : gmap (list Z) Z) (key s : list Z).
Context (Hm : represents m R) (Hs : holds_cstr key s) (Hcap : (0 < capacity m)%nat).

Lemma slots_length : length (slots m) = capacity m.
Proof. clear Hcap. destruct Hm. rewrite length_fmap, length_zip. lia. Qed.

(** The entry behind a slot. *)
Lemma slot_entry i x : slots m !! i = Some x ->
  exists k v, keys m !! i = Some k /\ values m !! i = Some v /\ key_ok k /\ slot_of (k, v) = x.
Proof.
  rewrite list_lookup_fmap. intros H. destruct (zip _ _ !! i) as [[k v]|] eqn:E; [|done].
  injection H as <-. apply lookup_zip_Some in E as [Ek Ev]. exists k, v.
  repeat split; try done. by eapply (Forall_lookup_1 _ _ _ _ (m_keys _ _ Hm)).
Qed.

Lemma continue_search_spec i :
  (i < capacity m)%nat -> continue_search (keys m) key i = search_on s <$> slots m !! i.
Proof.
  intros Hi. destruct (lookup_lt_is_Some_2 (slots m) i) as [x Hx]; [by rewrite slots_length|].
  rewrite Hx. destruct (slot_entry i x Hx) as (k & v & Hk & _ & Hok & <-).
  unfold continue_search. rewrite Hk. cbn [mbind option_bind].
  destruct k as [| |b]; try done. by rewrite (areKeysEqual_spec _ _ s Hok Hs).
Qed.

Lemma continue_insert_spec i :
  (i < capacity m)%nat -> continue_insert (keys m) key i = insert_on s <$> slots m !! i.
Proof.
  intros Hi. destruct (lookup_lt_is_Some_2 (slots m) i) as [x Hx]; [by rewrite slots_length|].
  rewrite Hx. destruct (slot_entry i x Hx) as (k & v & Hk & _ & Hok & <-).
  unfold continue_insert. rewrite Hk. cbn [mbind option_bind].
  destruct k as [| |b]; try done. by rewrite (areKeysEqual_spec _ _ s Hok Hs).
Qed.

Local Abbreviation at_step j := (pos (capacity m) (hash_index (capacity m) s) j).

(** [find_key] decides whether the string is in the map, and where. *)
Lemma find_key_spec :
  exists idx, (idx < capacity m)%nat /\
    find_key m key = Some (idx, bool_decide (is_Some (R !! s))) /\
    forall v, R !! s = Some v -> slots m !! idx = Some (Full s v).
Proof.
  assert (Hst : (hash_index (capacity m) s < capacity m)%nat) by by apply string_index_lt.
  assert (Hin : forall j, (at_step j < capacity m)%nat) by (intros; by apply pos_lt).
  pose proof (search_stop hash_index string_index_lt _ R s (m_table _ _ Hm)) as Hstop.
  rewrite slots_length in Hstop. specialize (Hstop Hcap).
  unfold find_key. rewrite (hash_of_cstr _ _ Hs). cbn [mbind option_bind].
  change (index (Util.hashString s) (capacity m)) with (hash_index (capacity m) s).
  destruct (R !! s) as [v|] eqn:HR.
  - destruct Hstop as (j & Hj & Hf & Hc). exists (at_step j).
    rewrite (find_loop_spec _ _ _ Hst _ j); try done.
    + cbn [mbind option_bind]. destruct (slot_entry _ _ Hf) as (k & w & Hk & _ & Hok & Hx).
      rewrite Hk. cbn [mbind option_bind]. rewrite (areKeysEqual_spec _ _ s Hok Hs).
      destruct k as [| |b]; try done. injection Hx as Hb ->. rewrite Hb.
      rewrite !bool_decide_eq_true_2 by done. split; [done|split; [done|]]. by intros ? [= <-].
    + intros i Hi. rewrite continue_search_spec by done. by apply Hc.
    + rewrite continue_search_spec, Hf by done. cbn. by rewrite bool_decide_eq_true_2.
  - rewrite (bool_decide_eq_false_2 (is_Some None)) by (by intros [? ?]).
    destruct Hstop as [(j & Hj & Hf & Hc)|Hall].
    + exists (at_step j). rewrite (find_loop_spec _ _ _ Hst _ j); try done.
      * cbn [mbind option_bind]. destruct (slot_entry _ _ Hf) as (k & w & Hk & _ & Hok & Hx).
        rewrite Hk. cbn [mbind option_bind]. by destruct k.
      * intros i Hi. rewrite continue_search_spec by done. by apply Hc.
      * by rewrite continue_search_spec, Hf by done.
    + exists (hash_index (capacity m) s). rewrite find_loop_wrap; try done.
      * cbn [mbind option_bind]. specialize (Hall 0%nat Hcap). rewrite pos_0 in Hall by done.
        destruct (slots m !! _) as [x|] eqn:Hx; [|done].
        destruct (slot_entry _ _ Hx) as (k & w & Hk & _ & Hok & <-). rewrite Hk.
        cbn [mbind option_bind]. rewrite (areKeysEqual_spec _ _ s Hok Hs).
        split; [done|split; [|done]]. destruct k as [| |b]; try done. cbn in Hall.
        injection Hall as Hall. apply negb_true_iff in Hall. by rewrite Hall.
      * intros i Hi. rewrite continue_search_spec by done. by apply Hall.
Qed.

(** Where [putToStringMap] puts a new key. *)
Lemma insert_key_spec :
  R !! s = None -> (size R < capacity m)%nat ->
  exists j o, (j < capacity m)%nat /\
    free_loop (capacity m) (capacity m) (continue_insert (keys m) key) (hash_index (capacity m) s)
      = Some (at_step j) /\
    slots m !! at_step j = Some o /\ (o = Empty \/ o = Deleted) /\
    forall i, (i < j)%nat -> search_on s <$> slots m !! at_step i = Some true.
Proof.
  intros HR Hsz. assert (Hst : (hash_index (capacity m) s < capacity m)%nat) by by apply string_index_lt.
  destruct (insert_stop hash_index string_index_lt _ R s (m_table _ _ Hm)) as (j & o & Hj & Ho & Hd & Hc);
    [by rewrite slots_length|done|]. rewrite slots_length in *.
  exists j, o. split; [done|split; [|split; [done|split; [done|]]]].
  - apply free_loop_spec; try done.
    + intros i Hi. rewrite continue_insert_spec by by apply pos_lt. by apply Hc.
    + rewrite continue_insert_spec, Ho by by apply pos_lt. by destruct Hd as [-> | ->].
  - intros i Hi. specialize (Hc i Hi). destruct (slots m !! at_step i) as [x|]; [|done].
    cbn [fmap option_fmap option_map] in *. injection Hc as Hx. by rewrite (insert_search s x).
Qed.

End Lookup.

Lemma slots_insert_value m i v : slot_of <$> zip (keys m) (<[i := v]> (values m)) =
  match keys m !! i with
  | Some k => <[i := slot_of (k, v)]> (slots m)
  | None => slots m
  end.
Proof.
  destruct (keys m !! i) as [k|] eqn:Hk.
  - rewrite <- list_fmap_insert, insert_zip_with. by rewrite (list_insert_id (keys m) i k Hk).
  - f_equal. apply list_eq. intros j. apply option_eq. intros [k w].
    rewrite !lookup_zip_Some. destruct (decide (i = j)) as [<-|Hne]; [rewrite Hk; split; [intros [[=] _]|intros [? _]; congruence]|].
    by rewrite list_lookup_insert_ne.
Qed.

Lemma slots_insert_key m i k v :
  (i < length (keys m))%nat -> length (keys m) = length (values m) ->
  slot_of <$> zip (<[i := k]> (keys m)) (<[i := v]> (values m)) = <[i := slot_of (k, v)]> (slots m).
Proof. intros. by rewrite <- list_fmap_insert, insert_zip_with. Qed.

Section Resize.
Context (string_at : Z -> option (list Z)).

Lemma stable_test m : stable m (count m) -> testForResize string_at m = Some m.
Proof.
  unfold stable, testForResize, MIN_TABLE_CAPACITY. intros (H1 & H2 & H3).
  destruct (Nat.ltb_spec (capacity m) 128); [lia|].
  destruct (Nat.ltb_spec 128 (capacity m)), (Nat.ltb_spec (count m * 4) (capacity m)); cbn [andb]; try lia;
    by destruct (Nat.ltb_spec (capacity m * 2) (count m * 3)); try lia.
Qed.

Lemma represents_pos m R s v : represents m R -> R !! s = Some v -> (0 < capacity m)%nat /\ count m <> 0%nat.
Proof.
  intros [] Hs. assert (size R <> 0%nat) by (intros E%map_size_empty_inv; by subst).
  destruct m_load0; [|lia]. exfalso. destruct (t_chain _ _ _ m_table0 s v Hs) as (j & Hj & _).
  rewrite length_fmap, length_zip in Hj. lia.
Qed.

Lemma represents_empty : represents empty_map ∅.
Proof. split; try done. by left. Qed.

(** The first entry makes the table. *)
Lemma empty_test : testForResize string_at empty_map =
  Some (mkMap 0 128 (replicate 128 KEmpty) (replicate 128 EMPTY)).
Proof. done. Qed.

Lemma represents_new : represents (mkMap 0 128 (replicate 128 KEmpty) (replicate 128 EMPTY)) ∅.
Proof.
  split; cbn [keys values capacity count]; try done.
  - apply (table_empty hash_index 128).
  - by apply Forall_replicate.
  - right. lia.
Qed.

(** What a put does when the table is not resized. *)
Lemma put_stable m R key s v :
  represents m R -> stable m (count m) -> holds_cstr key s ->
  exists m', putToStringMap string_at m key v = Some m' /\ represents m' (<[s := v]> R) /\ capacity m' = capacity m.
Proof.
  intros Hm Hst Hs. pose proof Hst as (Hcap & Hload & _). unfold MIN_TABLE_CAPACITY in Hcap.
  unfold putToStringMap. rewrite (stable_test _ Hst). cbn [mbind option_bind].
  assert (Hpos : (0 < capacity m)%nat) by lia.
  destruct (find_key_spec m R key s Hm Hs Hpos) as (idx & Hidx & -> & Hfound).
  cbn [mbind option_bind snd fst]. destruct Hm as [Ht Hk Hkl Hvl Hc Hl].
  assert (Hm : represents m R) by done.
  destruct (R !! s) as [w|] eqn:HR.
  - specialize (Hfound w eq_refl). rewrite bool_decide_eq_true_2 by done.
    destruct (slot_entry m R Hm _ _ Hfound) as (k & v' & Hki & Hvi & _ & Hx).
    eexists. split; [done|split; [|done]].
    split; cbn [keys values capacity count]; try done.
    + rewrite slots_insert_value, Hki. destruct k as [| |b]; try done. cbn in Hx. injection Hx as Hb _.
      unfold slot_of at 1. cbn [fst snd]. rewrite Hb. by eapply table_update.
    + by rewrite length_insert.
    + rewrite map_size_insert_Some by by eexists. lia.
  - rewrite bool_decide_eq_false_2 by (by intros [? ?]).
    rewrite (hash_of_cstr _ _ Hs). cbn [mbind option_bind].
    change (index (Util.hashString s) (capacity m)) with (hash_index (capacity m) s).
    destruct (insert_key_spec m R key s Hm Hs Hpos HR) as (j & o & Hj & -> & Ho & Hd & Hch); [lia|].
    cbn [mbind option_bind Path.stringClone]. rewrite (Path.clone_string_spec _ _ Hs). cbn [mbind option_bind fmap option_fmap option_map].
    set (i := pos _ _ j). assert (Hi : (i < capacity m)%nat) by by apply pos_lt.
    eexists. split; [done|split; [|done]].
    split; cbn [keys values capacity count]; try (by rewrite ?length_insert).
    + rewrite slots_insert_key by lia. unfold slot_of at 1. cbn [fst snd]. rewrite chars_app.
      unfold i. rewrite <- (slots_length m R Hm). eapply (table_insert hash_index string_index_lt); try done;
        by rewrite (slots_length m R Hm).
    + apply Forall_insert; [done|]. exists s. split; [apply Hs|done].
    + rewrite map_size_insert_None by done. lia.
    + right. lia.
Qed.

Lemma put_ok m R key s v :
  represents m R -> m = empty_map \/ stable m (count m) -> holds_cstr key s ->
  exists m', putToStringMap string_at m key v = Some m' /\ represents m' (<[s := v]> R).
Proof.
  intros Hm [->|Hst] Hs.
  - assert (R = ∅) as -> by (apply map_size_empty_inv; symmetry; apply (m_count _ _ Hm)).
    set (m1 := mkMap 0 128 (replicate 128 KEmpty) (replicate 128 EMPTY)).
    destruct (put_stable m1 ∅ key s v represents_new) as (m' & Hput & Hm' & _); [|done|].
    { unfold stable, MIN_TABLE_CAPACITY; cbn; lia. }
    exists m'. split; [|done]. rewrite <- Hput. unfold putToStringMap. rewrite empty_test. done.
  - destruct (put_stable m R key s v Hm Hst Hs) as (m' & ? & ? & _). eauto.
Qed.

(** ** Properties *)

(** [putToStringMap] on the empty map, or where the table need not be resized,
    adds the string with the value, or replaces its value. *)
Theorem putToStringMap_refines m R key s v :
  represents m R -> m = empty_map \/ stable m (count m) -> holds_cstr key s ->
  exists m', putToStringMap string_at m key v = Some m' /\ represents m' (<[s := v]> R).
Proof. apply put_ok. Qed.

(** [getFromStringMap] returns the value of the string, and [NULL] when the
    string is not in the map. *)
Theorem getFromStringMap_refines m R key s :
  represents m R -> holds_cstr key s ->
  getFromStringMap m key = Some (default 0 (R !! s)).
Proof.
  intros Hm Hs. unfold getFromStringMap. destruct (Nat.eqb_spec (count m) 0) as [H0|H0]; cbn [negb].
  { assert (R = ∅) as -> by (apply map_size_empty_inv; rewrite <- H0; symmetry; apply (m_count _ _ Hm)).
    by rewrite lookup_empty. }
  assert (Hpos : (0 < capacity m)%nat).
  { destruct (m_load _ _ Hm) as [E|?]; [|lia]. pose proof (m_count _ _ Hm).
    destruct (map_choose R) as (s' & v' & Hs'); [intros ->; done|]. by destruct (represents_pos _ _ _ _ Hm Hs'). }
  destruct (find_key_spec m R key s Hm Hs Hpos) as (idx & _ & -> & Hf). cbn [mbind option_bind fst snd].
  destruct (R !! s) as [v|] eqn:HR.
  - rewrite bool_decide_eq_true_2 by done.
    destruct (slot_entry m R Hm _ _ (Hf v eq_refl)) as (k & w & _ & Hv & _ & Hx).
    rewrite Hv. destruct k; try done. cbn in Hx. by injection Hx as _ ->.
  - rewrite bool_decide_eq_false_2 by (by intros [? ?]). done.
Qed.

(** [deleteFromStringMap] removes the string, when the entries that stay need no
    resizing; a string that is not in the map changes nothing. *)
Theorem deleteFromStringMap_refines m R key s :
  represents m R -> holds_cstr key s -> R !! s = None \/ stable m (count m - 1) ->
  exists m', deleteFromStringMap string_at m key = Some m' /\ represents m' (delete s R) /\
    (R !! s = None -> m' = m).
Proof.
  intros Hm Hs Hst. unfold deleteFromStringMap.
  destruct (R !! s) as [v|] eqn:HR.
  - destruct (represents_pos _ _ _ _ Hm HR) as [Hpos H0]. rewrite (proj2 (Nat.eqb_neq _ _) H0). cbn [negb].
    destruct (find_key_spec m R key s Hm Hs Hpos) as (idx & Hidx & -> & Hf). cbn [mbind option_bind fst snd].
    rewrite HR, bool_decide_eq_true_2 by done. specialize (Hf v HR). destruct Hst as [?|Hst]; [done|].
    destruct (slot_entry m R Hm _ _ Hf) as (k & w & Hk & Hv & _ & Hx).
    rewrite stable_test by done. eexists. split; [done|split; [|done]].
    destruct Hm as [Ht Hko Hkl Hvl Hc Hl].
    split; cbn [keys values capacity count]; try done.
    + rewrite <- (list_insert_id (values m) idx w Hv). rewrite slots_insert_key by lia. by eapply table_delete.
    + by apply Forall_insert.
    + by rewrite length_insert.
    + rewrite map_size_delete, HR. lia.
    + lia.
  - exists m. rewrite delete_id by done. split; [|done].
    destruct (Nat.eqb_spec (count m) 0) as [H0|H0]; cbn [negb]; [done|].
    assert (Hpos : (0 < capacity m)%nat).
    { destruct (m_load _ _ Hm) as [E|?]; [|lia]. pose proof (m_count _ _ Hm).
      destruct (map_choose R) as (s' & v' & Hs'); [intros ->; done|]. by destruct (represents_pos _ _ _ _ Hm Hs'). }
    destruct (find_key_spec m R key s Hm Hs Hpos) as (idx & _ & -> & _). cbn [mbind option_bind fst snd].
    rewrite HR, bool_decide_eq_false_2 by (by intros [? ?]). done.
Qed.

End Resize.

(** No memory is read by the operations that do not resize a table. *)
Definition demo_key : list Z := cstr "tty" ++ [0].
Definition demo_map : StringMap :=
  default empty_map (putToStringMap (fun _ => None) empty_map demo_key 0x1000).

Lemma demo_holds : holds_cstr demo_key (cstr "tty").
Proof. split; [|by exists []]. repeat (apply Forall_cons; [vm_compute; split; reflexivity|]). apply Forall_nil. Qed.

Lemma putToStringMap_refines_witness :
  exists m', putToStringMap (fun _ => None) empty_map demo_key 0x1000 = Some m' /\
    represents m' (<[cstr "tty" := 0x1000]> ∅).
Proof.
  apply putToStringMap_refines; [apply represents_empty|by left|exact demo_holds].
Defined.

Lemma demo_map_represents : represents demo_map (<[cstr "tty" := 0x1000]> ∅).
Proof.
  destruct (put_ok (fun _ => None) empty_map ∅ demo_key (cstr "tty") 0x1000) as (m' & Hput & Hm').
  - apply represents_empty.
  - by left.
  - exact demo_holds.
  - unfold demo_map. rewrite Hput. exact Hm'.
Qed.

Lemma getFromStringMap_refines_witness :
  getFromStringMap demo_map demo_key =
  Some (default 0 ((<[cstr "tty" := 0x1000]> ∅ : gmap (list Z) Z) !! cstr "tty")).
Proof. apply getFromStringMap_refines; [exact demo_map_represents|exact demo_holds]. Defined.

Lemma deleteFromStringMap_refines_witness :
  exists m', deleteFromStringMap (fun _ => None) demo_map demo_key = Some m' /\
    represents m' (delete (cstr "tty") (<[cstr "tty" := 0x1000]> ∅)) /\
    ((<[cstr "tty" := 0x1000]> ∅ : gmap (list Z) Z) !! cstr "tty" = None -> m' = demo_map).
Proof.
  apply deleteFromStringMap_refines; [exact demo_map_represents|exact demo_holds|].
  right. vm_compute. lia.
Defined.

(** The strings of one letter as keys, all with a value that points to an "x". *)
Definition letter_key (n : nat) : list Z := [Z.of_nat n + 1; 0].
Definition x_at (p : Z) : option (list Z) := if p =? 0x1000 then Some (cstr "x" ++ [0]) else None.
Definition put_letters (n : nat) : option StringMap :=
  foldl (fun m i => m ← m; putToStringMap x_at m (letter_key i) 0x1000) (Some empty_map) (seq 0 n).

(** The entry that makes [putToStringMap] resize the table: the keys move to the
    chain of their value's hash, where no search finds them. *)
Example rebuild_loses_keys :
  (m ← put_letters 86; getFromStringMap m (letter_key 0)) = Some 0x1000 /\
  (m ← put_letters 87; getFromStringMap m (letter_key 0)) = Some 0.
Proof. vm_compute. split; reflexivity. Qed.

End StringMap.
