(* ===== verification/Schedule.v ===== *)
(** * Schedule: [kernel/src/task/schedule.c]

    The ready queues, one per hart, the list of waiting tasks, and the moves of
    a task between its states.  A ready queue is a linked list in the order of
    [queue_priority], with a pointer to the last task of every priority or
    lower; the list links and the waiting list share [sched_next].

    Tasks and harts live in stores by address, 0 is [NULL].  The spin locks
    make each operation atomic.  Entering a task does not return: the loop of
    [runNextTaskFrom] is modelled up to the task it enters.  The wake-up
    functions, the handling of signals and [removeProcessTask] are parameters. *)
From Stdlib Require Import Sorting.Sorted.
From S2P Require Import Prelude Util PageAlloc.
Import PageAlloc.

Local Open Scope c_scope.

Module Schedule.

(** ** Definitions *)

Inductive TaskState : Type :=
  UNKNOWN | RUNNING | ENQUABLE | READY | WAITING | STOPPED | TERMINATED.

#[export] Instance TaskState_eq_dec : EqDecision TaskState.
Proof. solve_decision. Defined.

(** The fields of [Task] that scheduling uses: [frame.hart], [process] and
    those of [TaskSched]. *)
Record Task := mkTask {
  hart : Z;
  process : Z;
  priority : Z;
  queue_priority : Z;
  run_for : Z;
  state : TaskState;
  sched_next : Z;
  locks_next : Z;
  wakeup_function : Z;
  wakeup_udata : Z;
}.

Record ScheduleQueue := mkQueue { head : Z; tails : list Z }.

Record HartFrame := mkHart { queue : ScheduleQueue; idle_task : Z; next : Z }.

(** The tasks, the harts, the list of waiting tasks and the current hart. *)
Record sched := mkSched {
  tasks : gmap Z Task;
  harts : gmap Z HartFrame;
  waiting : Z;
  current_hart : Z;
}.

Abbreviation S_ := (M sched).

Definition set_next (t : Task) (n : Z) : Task :=
  mkTask (hart t) (process t) (priority t) (queue_priority t) (run_for t) (state t) n (locks_next t)
    (wakeup_function t) (wakeup_udata t).
Definition set_state (t : Task) (st : TaskState) : Task :=
  mkTask (hart t) (process t) (priority t) (queue_priority t) (run_for t) st (sched_next t) (locks_next t)
    (wakeup_function t) (wakeup_udata t).
Definition set_queue_priority (t : Task) (p : Z) : Task :=
  mkTask (hart t) (process t) (priority t) p (run_for t) (state t) (sched_next t) (locks_next t)
    (wakeup_function t) (wakeup_udata t).
Definition set_run_for (t : Task) (r : Z) : Task :=
  mkTask (hart t) (process t) (priority t) (queue_priority t) r (state t) (sched_next t) (locks_next t)
    (wakeup_function t) (wakeup_udata t).
Definition set_locks_next (t : Task) (n : Z) : Task :=
  mkTask (hart t) (process t) (priority t) (queue_priority t) (run_for t) (state t) (sched_next t) n
    (wakeup_function t) (wakeup_udata t).
Definition set_wakeup (t : Task) (f u : Z) : Task :=
  mkTask (hart t) (process t) (priority t) (queue_priority t) (run_for t) (state t) (sched_next t)
    (locks_next t) f u.

Definition with_tasks (s : sched) (m : gmap Z Task) : sched := mkSched m (harts s) (waiting s) (current_hart s).

Definition get_task (t : Z) : S_ Task := fun s => x ← tasks s !! t; Some (x, s).
Definition put_task (t : Z) (x : Task) : S_ unit := fun s => Some (tt, with_tasks s (<[t := x]> (tasks s))).
Definition modify (t : Z) (f : Task -> Task) : S_ unit := x ← get_task t; put_task t (f x).
Definition get_hart (h : Z) : S_ HartFrame := fun s => x ← harts s !! h; Some (x, s).
Definition put_queue (h : Z) (q : ScheduleQueue) : S_ unit := fun s =>
  x ← harts s !! h;
  Some (tt, mkSched (tasks s) (<[h := mkHart q (idle_task x) (next x)]> (harts s)) (waiting s) (current_hart s)).
Definition get_waiting : S_ Z := fun s => Some (waiting s, s).
Definition put_waiting (t : Z) : S_ unit := fun s => Some (tt, mkSched (tasks s) (harts s) t (current_hart s)).
Definition getCurrentHartFrame : S_ Z := fun s => Some (current_hart s, s).
Definition lift {A} (x : option A) : S_ A := fun s => a ← x; Some (a, s).

(** [Task** current]: [None] is the address of [waiting], [Some t] that of
    [t->sched.sched_next]. *)
Definition read_cell (c : option Z) : S_ Z :=
  match c with None => get_waiting | Some t => x ← get_task t; mret (sched_next x) end.
Definition write_cell (c : option Z) (v : Z) : S_ unit :=
  match c with None => put_waiting v | Some t => modify t (fun x => set_next x v) end.

(** A list holds every task at most once. *)
Definition with_fuel {A} (k : nat -> S_ A) : S_ A := fun s => k (S (size (tasks s))) s.

Definition addWaitingTask (task : Z) : S_ unit :=
  w ← get_waiting;
  massert (negb (task =? w));;
  modify task (fun x => set_next x w);;
  put_waiting task.

(** The loops over [tails] in [pullTaskFromQueue] and [pushTaskToQueue]: from
    index [i] on, [n] at most, while [tails[i] == old]. *)
Fixpoint tails_loop (n i : nat) (old : Z) (new : nat -> list Z -> option Z) (ts : list Z) : option (list Z) :=
  match n with
  | O => Some ts
  | S n' =>
      t ← ts !! i;
      if t =? old then v ← new i ts; tails_loop n' (S i) old new (<[i := v]> ts)
      else Some ts
  end.

Definition MAX : nat := Z.to_nat MAX_PRIORITY.

Definition pullTaskFromQueue (h : Z) : S_ Z :=
  x ← get_hart h;
  let q := queue x in
  if head q =? 0 then mret 0
  else
    let ret := head q in
    r ← get_task ret;
    let qp := Z.to_nat (queue_priority r) in
    last ← lift (tails q !! qp);
    if last =? ret then
      first ← lift (if (qp =? 0)%nat then Some 0 else tails q !! (qp - 1)%nat);
      ts ← lift (tails_loop (MAX - (qp + 1)) (qp + 1) ret (fun i ts => ts !! (i - 1)%nat)
                   (<[qp := first]> (tails q)));
      put_queue h (mkQueue (sched_next r) ts);;
      mret ret
    else
      put_queue h (mkQueue (sched_next r) (tails q));;
      mret ret.

Definition pushTaskToQueue (h : Z) (process : Z) : S_ unit :=
  p ← get_task process;
  (if LOWEST_PRIORITY <? queue_priority p
   then put_task process (set_queue_priority p LOWEST_PRIORITY) else mret tt);;
  p ← get_task process;
  let qp := Z.to_nat (queue_priority p) in
  x ← get_hart h;
  let q := queue x in
  old ← lift (tails q !! qp);
  (if old =? 0 then
     modify process (fun x => set_next x (head q));;
     put_queue h (mkQueue process (tails q))
   else
     t ← get_task old;
     modify process (fun x => set_next x (sched_next t));;
     modify old (fun x => set_next x process));;
  x ← get_hart h;
  let q := queue x in
  ts ← lift (tails_loop (MAX - qp) qp old (fun _ _ => Some process) (tails q));
  put_queue h (mkQueue (head q) ts).

Fixpoint pull_loop (fuel : nat) (hart current : Z) : S_ Z :=
  match fuel with
  | O => fault
  | S fuel' =>
      task ← pullTaskFromQueue current;
      if negb (task =? 0) then mret task
      else
        x ← get_hart current;
        if negb (next x =? hart) then pull_loop fuel' hart (next x)
        else y ← get_hart hart; mret (idle_task y)
  end.

(** The harts form a circle. *)
Definition with_hart_fuel {A} (k : nat -> S_ A) : S_ A := fun s => k (size (harts s)) s.

Definition pullTaskForHart (hart : Z) : S_ Z :=
  massert (negb (hart =? 0));;
  with_hart_fuel (fun fuel => pull_loop fuel hart hart).

(** [removeTaskFromQueue]: the loop writes [*current = NULL] where the head is
    another task, and ends. *)
Definition removeTaskFromQueue (h task : Z) : S_ Z :=
  x ← get_hart h;
  let q := queue x in
  if head q =? 0 then mret 0
  else if head q =? task then
    t ← get_task task;
    put_queue h (mkQueue (sched_next t) (tails q));;
    mret task
  else
    put_queue h (mkQueue 0 (tails q));;
    mret 0.

Fixpoint awaken_loop (fuel : nat) (task : Z) (current : option Z) : S_ (option Z) :=
  match fuel with
  | O => fault
  | S fuel' =>
      c ← read_cell current;
      if negb (c =? 0) && negb (c =? task) then awaken_loop fuel' task (Some c) else mret current
  end.

Definition awakenTask (task : Z) : S_ unit :=
  current ← with_fuel (fun fuel => awaken_loop fuel task None);
  c ← read_cell current;
  massert (c =? task);;
  t ← get_task task;
  write_cell current (sched_next t);;
  t ← get_task task;
  if negb (bool_decide (state t = TERMINATED)) && negb (bool_decide (state t = STOPPED)) then
    massert (bool_decide (state t = WAITING));;
    put_task task (set_state t ENQUABLE)
  else mret tt.

Definition moveTaskToState (task : Z) (st : TaskState) : S_ unit :=
  massert (negb (task =? 0));;
  t ← get_task task;
  (if bool_decide (state t = WAITING) then
     massert (bool_decide (st = TERMINATED) || bool_decide (st = STOPPED));;
     awakenTask task
   else mret tt);;
  t ← get_task task;
  massert (negb (bool_decide (state t = WAITING)));;
  if negb (bool_decide (state t = TERMINATED)) &&
     (negb (bool_decide (state t = STOPPED)) || bool_decide (st = TERMINATED))
  then put_task task (set_state t st)
  else mret tt.

Definition CLOCKS_PER_SEC : Z := 10000000.
Definition PRIORITY_DECREASE : Z := CLOCKS_PER_SEC / 75.

Definition free_task (task : Z) : S_ unit := fun s => Some (tt, with_tasks s (delete task (tasks s))).

Section Callbacks.
Context (wakeup : Z -> Z -> Z -> S_ bool) (removeProcessTask : Z -> S_ unit)
  (handlePendingSignals : Z -> S_ bool).

Definition deallocTask (task : Z) : S_ unit :=
  t ← get_task task;
  (if negb (process t =? 0) then removeProcessTask task else mret tt);;
  free_task task.

(** [queue_priority] has 8 bits. *)
Definition enqueueTask (task : Z) : S_ unit :=
  t ← get_task task;
  hart ← (if hart t =? 0 then getCurrentHartFrame else mret (hart t));
  massert (negb (hart =? 0));;
  x ← get_hart hart;
  if negb (idle_task x =? task) then
    match state t with
    | WAITING => addWaitingTask task
    | ENQUABLE =>
        moveTaskToState task READY;;
        modify task (fun t =>
          if PRIORITY_DECREASE <? run_for t then
            set_run_for
              (set_queue_priority t
                 (wrap 8 (priority t + Util.umin (run_for t / PRIORITY_DECREASE) 5)))
              (run_for t -% PRIORITY_DECREASE / 4)
          else set_queue_priority t (priority t));;
        pushTaskToQueue hart task
    | READY | RUNNING | STOPPED => mret tt
    | TERMINATED => deallocTask task
    | UNKNOWN => fault
    end
  else mret tt.

Fixpoint awakenTasks_loop (fuel : nat) (current : option Z) : S_ unit :=
  match fuel with
  | O => fault
  | S fuel' =>
      task ← read_cell current;
      if task =? 0 then mret tt
      else
        t ← get_task task;
        wake ← (if wakeup_function t =? 0 then mret false
                else wakeup (wakeup_function t) task (wakeup_udata t));
        if wake : bool then
          modify task (fun t => set_state t ENQUABLE);;
          t ← get_task task;
          write_cell current (sched_next t);;
          enqueueTask task;;
          awakenTasks_loop fuel' current
        else awakenTasks_loop fuel' (Some task)
  end.

Definition awakenTasks : S_ unit := with_fuel (fun fuel => awakenTasks_loop fuel None).

(** The loop [while (next == NULL)]. *)
Fixpoint next_task (fuel : nat) (hart : Z) : S_ Z :=
  match fuel with
  | O => fault
  | S fuel' =>
      next ← pullTaskForHart hart;
      t ← get_task next;
      if bool_decide (state t = TERMINATED) then deallocTask next;; next_task fuel' hart
      else mret next
  end.

(** The task that [runNextTaskFrom] enters; [enterTask] moves it to [RUNNING]. *)
Fixpoint runNextTaskFrom (fuel : nat) (hart : Z) : S_ Z :=
  match fuel with
  | O => fault
  | S fuel' =>
      awakenTasks;;
      next ← with_fuel (fun fuel => next_task fuel hart);
      t ← get_task next;
      ready ← (if process t =? 0 then mret true else handlePendingSignals next);
      if ready : bool then moveTaskToState next RUNNING;; mret next
      else enqueueTask next;; runNextTaskFrom fuel' hart
  end.

End Callbacks.

(** ** The list a ready queue represents *)

(** Tasks with their queue priorities, in the order they run. *)
Abbreviation entry := (Z * Z)%type.

Definition upto (p : Z) (l : list entry) : list entry := filter (fun x => snd x <= p) l.
Definition above (p : Z) (l : list entry) : list entry := filter (fun x => p < snd x) l.

(** A task is put behind those of its priority. *)
Definition enqueue (t p : Z) (l : list entry) : list entry := upto p l ++ (t, p) :: above p l.

Fixpoint tlist (m : gmap Z Task) (c : Z) (l : list entry) : Prop :=
  match l with
  | [] => c = 0
  | (t, p) :: l' => c = t /\ t <> 0 /\
      exists x, m !! t = Some x /\ queue_priority x = p /\ tlist m (sched_next x) l'
  end.

Record represents (m : gmap Z Task) (q : ScheduleQueue) (l : list entry) : Prop := {
  q_list : tlist m (head q) l;
  q_sorted : StronglySorted (fun x y => snd x <= snd y) l;
  q_nodup : NoDup (fst <$> l);
  q_prio : Forall (fun x => 0 <= snd x <= LOWEST_PRIORITY) l;
  q_len : length (tails q) = MAX;
  q_tails : forall i, (i < MAX)%nat -> tails q !! i = Some (last_of (upto (Z.of_nat i) l));
}.

(** *** Sorted lists *)

Lemma none_filter (P : entry -> Prop) `{!forall x, Decision (P x)} l :
  (forall x, x ∈ l -> ~ P x) -> filter P l = [].
Proof.
  induction l as [|x l IH]; intros HP; [done|]. rewrite filter_cons_False by (apply HP; by left).
  apply IH. intros y Hy. apply HP. by right.
Qed.

Lemma elem_upto p l x : x ∈ upto p l <-> snd x <= p /\ x ∈ l.
Proof. unfold upto. by rewrite list_elem_of_filter. Qed.

Lemma elem_above p l x : x ∈ above p l <-> p < snd x /\ x ∈ l.
Proof. unfold above. by rewrite list_elem_of_filter. Qed.

Lemma sorted_cons (x : entry) l :
  StronglySorted (fun x y : entry => snd x <= snd y) (x :: l) ->
  StronglySorted (fun x y : entry => snd x <= snd y) l /\ forall y, y ∈ l -> snd x <= snd y.
Proof.
  inversion_clear 1 as [|? ? Hs Hx]. split; [done|]. intros y Hy. rewrite Stdlib.Lists.List.Forall_forall in Hx.
  apply Hx. by apply list_elem_of_In.
Qed.

Lemma sorted_split p l :
  StronglySorted (fun x y : entry => snd x <= snd y) l -> l = upto p l ++ above p l.
Proof.
  unfold upto, above. induction l as [|x l IH]; intros Hs; [done|].
  apply sorted_cons in Hs as [Hs Hx]. rewrite !filter_cons.
  destruct (decide (snd x <= p)) as [H|H].
  - rewrite decide_False by lia. cbn [app]. f_equal. by apply IH.
  - rewrite decide_True by lia. rewrite (none_filter (fun y : entry => snd y <= p)).
    + cbn [app]. f_equal. rewrite (IH Hs) at 1. rewrite none_filter; [done|].
      intros y Hy. specialize (Hx y Hy). lia.
    + intros y Hy. specialize (Hx y Hy). lia.
Qed.

Lemma upto_upto p j l : p <= j -> upto p (upto j l) = upto p l.
Proof. intros. apply list_filter_filter_l. intros x. lia. Qed.

Lemma upto_sorted p l :
  StronglySorted (fun x y : entry => snd x <= snd y) l ->
  StronglySorted (fun x y : entry => snd x <= snd y) (upto p l).
Proof.
  unfold upto. induction l as [|x l IH]; intros Hs; [done|]. apply sorted_cons in Hs as [Hs Hx].
  rewrite filter_cons. destruct (decide _); [|by apply IH]. constructor; [by apply IH|].
  apply Stdlib.Lists.List.Forall_forall. intros y Hy%list_elem_of_In. apply Hx. by apply elem_upto in Hy as [_ ?].
Qed.

Lemma enqueue_sorted t p l :
  StronglySorted (fun x y : entry => snd x <= snd y) l ->
  StronglySorted (fun x y : entry => snd x <= snd y) (enqueue t p l).
Proof.
  unfold enqueue, upto, above. induction l as [|x l IH]; intros Hs; [repeat constructor|].
  pose proof Hs as Hs0. apply sorted_cons in Hs as [Hs Hx]. rewrite !filter_cons.
  destruct (decide (snd x <= p)) as [H|H].
  - rewrite decide_False by lia. cbn [app]. constructor; [by apply IH|].
    apply Stdlib.Lists.List.Forall_forall. intros y Hy%list_elem_of_In.
    apply elem_of_app in Hy as [Hy|Hy]; [apply Hx; by apply elem_upto in Hy as [_ ?]|].
    apply elem_of_cons in Hy as [->|Hy]; [done|]. apply Hx. by apply elem_above in Hy as [_ ?].
  - rewrite decide_True by lia. rewrite none_filter by (intros y Hy; specialize (Hx y Hy); lia).
    cbn [app]. assert (Hab : filter (fun y : entry => p < snd y) l = l).
    { rewrite (sorted_split p l Hs) at 2. unfold upto, above.
      rewrite (none_filter (fun y : entry => snd y <= p)); [done|].
      intros y Hy. specialize (Hx y Hy). lia. }
    rewrite Hab. constructor; [done|]. apply Stdlib.Lists.List.Forall_forall.
    intros y Hy%list_elem_of_In. apply elem_of_cons in Hy as [->|Hy]; [cbn; lia|].
    specialize (Hx y Hy). cbn. lia.
Qed.

Lemma enqueue_Permutation t p l :
  StronglySorted (fun x y : entry => snd x <= snd y) l -> enqueue t p l ≡ₚ (t, p) :: l.
Proof. intros Hs. unfold enqueue. rewrite <- Permutation_middle. by rewrite <- sorted_split. Qed.

(** The last task up to a higher priority is the same only when there is none in
    between. *)
Lemma last_upto_eq p j l :
  StronglySorted (fun x y : entry => snd x <= snd y) l -> NoDup (fst <$> l) ->
  Forall (fun x : entry => fst x <> 0) l -> p <= j ->
  last_of (upto j l) = last_of (upto p l) <-> upto j l = upto p l.
Proof.
  intros Hs Hnd Hnz Hpj. split; [|by intros ->]. intros E.
  pose proof (sorted_split p _ (upto_sorted j l Hs)) as Hsp. rewrite upto_upto in Hsp by done.
  destruct (above p (upto j l)) as [|y l2] eqn:Ha; [by rewrite app_nil_r in Hsp|]. exfalso.
  rewrite Hsp, last_of_app in E.
  assert (Hin : last_of (y :: l2) ∈ fst <$> y :: l2) by by apply last_of_in.
  apply list_elem_of_fmap in Hin as (x & Hx & Hin). rewrite <- Ha in Hin.
  apply elem_above in Hin as [Hpx [Hxj Hxl]%elem_upto].
  destruct (decide (upto p l = [])) as [E0|E0].
  - rewrite E0 in E. cbn in Hx. rewrite Forall_forall in Hnz.
    apply (Hnz x); [by apply list_elem_of_In|]. rewrite <- Hx. exact E.
  - apply last_of_in in E0. apply list_elem_of_fmap in E0 as (x' & Hx' & [Hpx' Hxl']%elem_upto).
    assert (x = x'); [|subst; lia].
    apply list_elem_of_lookup in Hxl as [i Hi], Hxl' as [i' Hi'].
    assert (i = i'); [|congruence]. eapply (NoDup_lookup _ _ _ (fst x) Hnd); rewrite list_lookup_fmap.
    + by rewrite Hi.
    + rewrite Hi'. cbn. f_equal. congruence.
Qed.

Lemma upto_app p l1 l2 : upto p (l1 ++ l2) = upto p l1 ++ upto p l2.
Proof. unfold upto. by rewrite list.filter_app. Qed.

Lemma upto_cons p x l : upto p (x :: l) = if decide (snd x <= p) then x :: upto p l else upto p l.
Proof. unfold upto. by rewrite filter_cons. Qed.

Lemma upto_above p j l : j <= p -> upto j (above p l) = [].
Proof. intros. apply none_filter. intros x [? _]%elem_above. lia. Qed.

(** The last task up to a priority, after a task is put in the queue. *)
Lemma last_enqueue t p j l :
  StronglySorted (fun x y : entry => snd x <= snd y) l -> t <> 0 ->
  last_of (upto j (enqueue t p l)) =
  if decide (p <= j /\ upto j l = upto p l) then t else last_of (upto j l).
Proof.
  intros Hs Ht. pose proof (sorted_split p l Hs) as Hsp. unfold enqueue. rewrite upto_app.
  destruct (decide (p <= j)) as [Hpj|Hpj].
  - assert (E1 : upto j (upto p l) = upto p l).
    { unfold upto. apply list_filter_filter_r. intros x. lia. }
    assert (E2 : upto j l = upto p l ++ upto j (above p l)).
    { rewrite Hsp at 1. by rewrite upto_app, E1. }
    rewrite E1, upto_cons, decide_True by done.
    rewrite E2, !last_of_app. destruct (upto j (above p l)) as [|y r] eqn:Ea.
    + rewrite app_nil_r, decide_True by done. done.
    + rewrite decide_False; [done|]. intros [_ E]. apply (f_equal length) in E.
      rewrite length_app in E. cbn in E. lia.
  - rewrite decide_False by tauto. rewrite upto_cons, decide_False by done. rewrite upto_above, app_nil_r by lia.
    by rewrite upto_upto by lia.
Qed.

(** *** The linked list *)

Lemma tlist_nonzero m c l : tlist m c l -> Forall (fun x : entry => fst x <> 0) l.
Proof.
  revert c. induction l as [|[t p] l IH]; intros c; cbn; [constructor|].
  intros (_ & Ht & x & _ & _ & Hl). constructor; [done|by eapply IH].
Qed.

(** What is not in the list may change. *)
Lemma tlist_frame m c l t x : tlist m c l -> t ∉ fst <$> l -> tlist (<[t := x]> m) c l.
Proof.
  revert c. induction l as [|[u p] l IH]; intros c; cbn; [done|].
  intros (-> & Hu & y & Hy & Hp & Hl) Hn. apply not_elem_of_cons in Hn as [Hne Hn].
  split; [done|split; [done|]]. exists y. split; [by rewrite lookup_insert_ne|]. split; [done|by apply IH].
Qed.

Lemma tlist_insert_after m c l1 o po l2 t p T O :
  tlist m c (l1 ++ (o, po) :: l2) -> NoDup (fst <$> l1 ++ (o, po) :: l2) ->
  t ∉ fst <$> l1 ++ (o, po) :: l2 -> t <> 0 -> m !! t = Some T -> queue_priority T = p -> m !! o = Some O ->
  tlist (<[o := set_next O t]> (<[t := set_next T (sched_next O)]> m)) c (l1 ++ (o, po) :: (t, p) :: l2).
Proof.
  intros Hl Hnd Hn Ht HT Hp HO. revert c Hl. rewrite fmap_app, fmap_cons in *. cbn [fst] in *.
  induction l1 as [|[u q] l1 IH]; intros c Hl; cbn [app tlist] in *.
  - destruct Hl as (-> & Ho & x & Hx & Hpo & Hl2). rewrite HO in Hx. injection Hx as <-.
    cbn in Hnd, Hn. apply not_elem_of_cons in Hn as [Hto Hn]. inversion_clear Hnd as [|? ? Hol2 Hnd'].
    split; [done|split; [done|]]. exists (set_next O t). split; [by rewrite lookup_insert_eq|].
    split; [done|]. cbn [set_next sched_next]. split; [done|split; [done|]].
    exists (set_next T (sched_next O)). split; [by rewrite lookup_insert_ne, lookup_insert_eq|].
    split; [done|]. cbn [set_next sched_next]. by apply tlist_frame; [apply tlist_frame|].
  - destruct Hl as (-> & Hu & x & Hx & Hq & Hl). cbn in Hnd, Hn.
    apply not_elem_of_cons in Hn as [Htu Hn]. inversion_clear Hnd as [|? ? Hul Hnd'].
    split; [done|split; [done|]]. exists x. rewrite lookup_insert_ne, lookup_insert_ne; try done.
    + split; [done|split; [done|]]. by apply IH.
    + intros ->. apply Hul. set_solver.
Qed.

(** *** The loops over the tails *)

Lemma tails_loop_fill n i old v ts :
  (i + n <= length ts)%nat ->
  exists ts', tails_loop n i old (fun _ _ => Some v) ts = Some ts' /\ length ts' = length ts /\
    (forall j, (i <= j < i + n)%nat -> (forall k, (i <= k <= j)%nat -> ts !! k = Some old) -> ts' !! j = Some v) /\
    (forall j, (j < i)%nat \/ (i + n <= j)%nat \/ (exists k, (i <= k <= j)%nat /\ ts !! k <> Some old) ->
       ts' !! j = ts !! j).
Proof.
  revert i ts. induction n as [|n IH]; intros i ts Hlen; cbn [tails_loop].
  { exists ts. split; [done|]. split; [done|]. split; [intros; lia|done]. }
  destruct (lookup_lt_is_Some_2 ts i) as [t Ht]; [lia|]. rewrite Ht. cbn [mbind option_bind].
  destruct (Z.eqb_spec t old) as [->|Hne].
  - destruct (IH (S i) (<[i := v]> ts)) as (ts' & -> & Hl & Hin & Hout); [rewrite length_insert; lia|].
    rewrite length_insert in Hl. exists ts'. split; [done|split; [done|split]].
    + intros j Hj Hall. destruct (decide (j = i)) as [->|Hji].
      * rewrite Hout by lia. by rewrite list_lookup_insert_eq by lia.
      * apply Hin; [lia|]. intros k Hk. rewrite list_lookup_insert_ne by lia. apply Hall. lia.
    + intros j Hj. destruct (decide (j = i)) as [->|Hji].
      * exfalso. destruct Hj as [?|[?|(k & Hk & Hk')]]; [lia|lia|].
        replace k with i in Hk' by lia. done.
      * rewrite Hout; [by rewrite list_lookup_insert_ne by done|].
        destruct Hj as [?|[?|(k & Hk & Hk')]]; [lia|right; left; lia|].
        right; right. exists k. assert (k <> i) by (intros ->; done). split; [lia|].
        by rewrite list_lookup_insert_ne by lia.
  - exists ts. split; [done|split; [done|split; [|done]]].
    intros j Hj Hall. exfalso. specialize (Hall i ltac:(lia)). congruence.
Qed.

(** [tails[i] = tails[i - 1]] carries the first value along. *)
Lemma tails_loop_carry n i old v ts :
  (i + n <= length ts)%nat -> (0 < i)%nat -> ts !! (i - 1)%nat = Some v ->
  tails_loop n i old (fun i ts => ts !! (i - 1)%nat) ts = tails_loop n i old (fun _ _ => Some v) ts.
Proof.
  revert i ts. induction n as [|n IH]; intros i ts Hlen Hi Hv; cbn [tails_loop]; [done|].
  destruct (ts !! i) as [t|]; [|done]. cbn [mbind option_bind].
  destruct (t =? old); [|done]. rewrite Hv. cbn [mbind option_bind]. apply IH.
  - rewrite length_insert. lia.
  - lia.
  - replace (S i - 1)%nat with i by lia. rewrite list_lookup_insert_eq by lia. done.
Qed.

(** *** The operations on a queue *)

Lemma bind_get_task {B} s t x (k : Task -> S_ B) :
  tasks s !! t = Some x -> mbind (M := S_) k (get_task t) s = k x s.
Proof. intros H. apply bind_some. unfold get_task. by rewrite H. Qed.

Lemma bind_get_hart {B} s h x (k : HartFrame -> S_ B) :
  harts s !! h = Some x -> mbind (M := S_) k (get_hart h) s = k x s.
Proof. intros H. apply bind_some. unfold get_hart. by rewrite H. Qed.

Lemma bind_lift {A B} s (o : option A) a (k : A -> S_ B) :
  o = Some a -> mbind (M := S_) k (lift o) s = k a s.
Proof. intros ->. done. Qed.

Lemma bind_put_task {B} s t x (k : unit -> S_ B) :
  mbind (M := S_) k (put_task t x) s = k tt (with_tasks s (<[t := x]> (tasks s))).
Proof. done. Qed.

Lemma bind_modify {B} s t x f (k : unit -> S_ B) :
  tasks s !! t = Some x ->
  mbind (M := S_) k (modify t f) s = k tt (with_tasks s (<[t := f x]> (tasks s))).
Proof. intros H. unfold modify. rewrite bind_assoc. by rewrite (bind_get_task _ _ _ _ H). Qed.

(** The task in front, and the rest. *)
Lemma upto_rest i t p l :
  StronglySorted (fun x y : entry => snd x <= snd y) ((t, p) :: l) -> i < p -> upto i ((t, p) :: l) = [].
Proof.
  intros Hs Hi. apply sorted_cons in Hs as [_ Hx]. apply none_filter. intros x Hin%elem_of_cons.
  destruct Hin as [->|Hin]; [cbn; lia|]. specialize (Hx x Hin). cbn in Hx. lia.
Qed.

Lemma upto_front i t p l : p <= i -> upto i ((t, p) :: l) = (t, p) :: upto i l.
Proof. intros. by rewrite upto_cons, decide_True by done. Qed.

Lemma upto_sub i l : forall x, x ∈ fst <$> upto i l -> x ∈ fst <$> l.
Proof.
  intros x (y & -> & Hy%elem_upto)%list_elem_of_fmap. apply list_elem_of_fmap. exists y. tauto.
Qed.

Lemma upto_nodup i l : NoDup (fst <$> l) -> NoDup (fst <$> upto i l).
Proof.
  induction l as [|x l IH]; intros Hnd; [done|]. inversion_clear Hnd as [|? ? Hx Hn]. rewrite upto_cons.
  destruct (decide _); [|by apply IH]. cbn. constructor; [|by apply IH]. intros Hin. apply Hx.
  by eapply upto_sub.
Qed.

(** What the tails become when the front task leaves. *)
Lemma pull_tails q m t p l :
  represents m q ((t, p) :: l) ->
  exists ts', (if last_of (upto p ((t, p) :: l)) =? t
    then first ← (if (Z.to_nat p =? 0)%nat then Some 0 else tails q !! (Z.to_nat p - 1)%nat);
         tails_loop (MAX - (Z.to_nat p + 1)) (Z.to_nat p + 1) t (fun i ts => ts !! (i - 1)%nat)
           (<[Z.to_nat p := first]> (tails q))
    else Some (tails q)) = Some ts' /\ length ts' = MAX /\
    forall i, (i < MAX)%nat -> ts' !! i = Some (last_of (upto (Z.of_nat i) l)).
Proof.
  intros [Hl Hs Hnd Hp Hlen Ht]. inversion_clear Hp as [|? ? Hpt _]. cbn [snd] in Hpt.
  unfold LOWEST_PRIORITY, MAX_PRIORITY in Hpt. unfold MAX, MAX_PRIORITY in *.
  pose proof (tlist_nonzero _ _ _ Hl) as Hnz. inversion_clear Hnz as [|? ? Ht0 _]. cbn [fst] in Ht0.
  pose proof Hs as [Hsl Hx]%sorted_cons. cbn [snd] in Hx.
  assert (Hlow : forall i, i < p -> upto i l = []).
  { intros i Hi. apply none_filter. intros x Hin. specialize (Hx x Hin). lia. }
  assert (Hhigh : forall i, p <= i -> last_of (upto i ((t, p) :: l)) = if decide (upto i l = []) then t else last_of (upto i l)).
  { intros i Hi. rewrite upto_front by done. destruct (decide _) as [->|Hne]; [done|].
    cbn. by destruct (upto i l). }
  assert (Hne : forall i, last_of (upto i l) = t -> upto i l = []).
  { intros i E. destruct (upto i l) eqn:Eu; [done|]. exfalso. inversion_clear Hnd as [|? ? Hn _].
    apply Hn. cbn [fst]. apply (upto_sub i). rewrite <- E, <- Eu. apply last_of_in. by rewrite Eu. }
  rewrite Hhigh by lia. destruct (decide (upto p l = [])) as [Ep|Ep].
  - rewrite Z.eqb_refl.
    assert (Hfirst : (if (Z.to_nat p =? 0)%nat then Some 0 else tails q !! (Z.to_nat p - 1)%nat) = Some 0).
    { destruct (Nat.eqb_spec (Z.to_nat p) 0); [done|]. rewrite Ht by lia. by rewrite upto_rest by (done || lia). }
    rewrite Hfirst. cbn [mbind option_bind].
    rewrite (tails_loop_carry _ _ _ 0); [|rewrite length_insert; lia|lia|].
    2: { replace (Z.to_nat p + 1 - 1)%nat with (Z.to_nat p) by lia. by rewrite list_lookup_insert_eq by lia. }
    destruct (tails_loop_fill (Z.to_nat 40 - (Z.to_nat p + 1)) (Z.to_nat p + 1) t 0 (<[Z.to_nat p := 0]> (tails q)))
      as (ts' & -> & Hl' & Hin & Hout); [rewrite length_insert; lia|]. rewrite length_insert in Hl'.
    exists ts'. split; [done|split; [lia|]]. intros i Hi.
    destruct (Nat.lt_ge_cases i (Z.to_nat p)) as [Hip|Hip].
    { rewrite Hout by lia. rewrite list_lookup_insert_ne, Ht by lia.
      rewrite upto_rest by (done || lia). by rewrite Hlow by lia. }
    destruct (decide (i = Z.to_nat p)) as [->|Hip'].
    { rewrite Hout by lia. rewrite list_lookup_insert_eq by lia. by rewrite Z2Nat.id, Ep by lia. }
    destruct (decide (upto (Z.of_nat i) l = [])) as [Ei|Ei].
    + rewrite Hin, Ei; [done|lia|]. intros k Hk. rewrite list_lookup_insert_ne, Ht, Hhigh by lia.
      rewrite decide_True; [done|]. rewrite <- (upto_upto (Z.of_nat k) (Z.of_nat i)) by lia. by rewrite Ei.
    + assert (E : tails q !! i = Some (last_of (upto (Z.of_nat i) l))).
      { rewrite Ht, Hhigh by lia. by rewrite decide_False by done. }
      rewrite Hout; [by rewrite list_lookup_insert_ne by lia|]. right; right. exists i. split; [lia|].
      rewrite list_lookup_insert_ne, E by lia. intros [= E']. by apply Ei, Hne.
  - assert (last_of (upto p l) <> t) by (intros E; by apply Ep, Hne).
    rewrite (proj2 (Z.eqb_neq _ _)) by done. exists (tails q). split; [done|split; [done|]]. intros i Hi.
    rewrite Ht by done. destruct (Z.lt_ge_cases (Z.of_nat i) p) as [Hip|Hip].
    { by rewrite upto_rest, Hlow by (done || lia). }
    rewrite Hhigh by done. rewrite decide_False; [done|]. intros Ei. apply Ep.
    rewrite <- (upto_upto p (Z.of_nat i)) by done. by rewrite Ei.
Qed.

(** The tails after a task is put behind those up to its priority. *)
Lemma push_tails q m l t p old :
  represents m q l -> t <> 0 -> 0 <= p <= LOWEST_PRIORITY -> tails q !! Z.to_nat p = Some old ->
  exists ts', tails_loop (MAX - Z.to_nat p) (Z.to_nat p) old (fun _ _ => Some t) (tails q) = Some ts' /\
    length ts' = MAX /\
    forall i, (i < MAX)%nat -> ts' !! i = Some (last_of (upto (Z.of_nat i) (enqueue t p l))).
Proof.
  intros [Hl Hs Hnd _ Hlen Ht] Ht0 Hp Hold. unfold LOWEST_PRIORITY, MAX_PRIORITY in Hp.
  unfold MAX, MAX_PRIORITY in *. pose proof (tlist_nonzero _ _ _ Hl) as Hnz.
  rewrite Ht, Z2Nat.id in Hold by lia. injection Hold as Hold.
  destruct (tails_loop_fill (Z.to_nat 40 - Z.to_nat p) (Z.to_nat p) old t (tails q))
    as (ts' & -> & Hl' & Hin & Hout); [lia|].
  exists ts'. split; [done|split; [lia|]]. intros i Hi. rewrite last_enqueue by done.
  destruct (decide _) as [[Hpi E]|Hn].
  - apply Hin; [lia|]. intros k Hk. rewrite Ht, <- Hold by lia. do 2 f_equal.
    rewrite <- (upto_upto (Z.of_nat k) (Z.of_nat i)) by lia. rewrite E.
    unfold upto. apply list_filter_filter_r. intros x. lia.
  - rewrite Hout; [by apply Ht|]. destruct (Z.lt_ge_cases (Z.of_nat i) p) as [Hip|Hip]; [left; lia|].
    right; right. exists i. split; [lia|]. rewrite Ht by lia. intros [= E]. apply Hn. split; [done|].
    apply (last_upto_eq p (Z.of_nat i) l); try done. congruence.
Qed.

(** Where a task is linked in. *)
Lemma push_list q m l t p T old :
  represents m q l -> tails q !! Z.to_nat p = Some old -> 0 <= p <= LOWEST_PRIORITY ->
  t <> 0 -> t ∉ fst <$> l -> m !! t = Some T -> queue_priority T = p ->
  if old =? 0 then tlist (<[t := set_next T (head q)]> m) t (enqueue t p l)
  else exists O, m !! old = Some O /\
    tlist (<[old := set_next O t]> (<[t := set_next T (sched_next O)]> m)) (head q) (enqueue t p l).
Proof.
  intros [Hl Hs Hnd Hpr Hlen Ht] Hold Hp Ht0 Hn HT HTp. unfold LOWEST_PRIORITY, MAX_PRIORITY, MAX, MAX_PRIORITY in *.
  rewrite Ht, Z2Nat.id in Hold by lia. injection Hold as Hold. pose proof (tlist_nonzero _ _ _ Hl) as Hnz.
  pose proof (sorted_split p l Hs) as Hsp. unfold enqueue.
  destruct (decide (upto p l = [])) as [E|E].
  - rewrite E in *. cbn [app last_of] in *. subst old. cbn [Z.eqb]. rewrite <- Hsp.
    split; [done|split; [done|]]. exists (set_next T (head q)). rewrite lookup_insert_eq.
    split; [done|split; [done|]]. by apply tlist_frame.
  - destruct (last_of_split _ E) as (l1 & po & Hsn). rewrite Hold in Hsn.
    assert (Hin : old ∈ fst <$> l).
    { apply (upto_sub p). rewrite <- Hold. by apply last_of_in. }
    assert (Hon : old <> 0).
    { apply list_elem_of_fmap in Hin as (x & -> & Hx). rewrite Forall_forall in Hnz. apply Hnz.
      by apply list_elem_of_In. }
    rewrite (proj2 (Z.eqb_neq _ _)) by done. rewrite Hsn, <- app_assoc in *. cbn [app] in *.
    rewrite Hsp in Hl, Hnd, Hn.
    assert (HO : exists O, m !! old = Some O).
    { clear -Hl. revert Hl. generalize (head q). induction l1 as [|[u r] l1 IH]; intros c; cbn [app tlist].
      - intros (-> & _ & x & Hx & _). by exists x.
      - intros (_ & _ & x & _ & _ & Hl). by eapply IH. }
    destruct HO as (O & HO). exists O. split; [done|]. by apply (tlist_insert_after _ _ _ _ po _ _ p T O).
Qed.

(** The ready queue of a hart is the list [l]. *)
Definition ready (s : sched) (h : Z) (l : list entry) : Prop :=
  exists x, harts s !! h = Some x /\ represents (tasks s) (queue x) l.

Lemma ready_task s h l t : ready s h l -> t ∈ fst <$> l -> is_Some (tasks s !! t).
Proof.
  intros (x & _ & [Hl _ _ _ _ _]). generalize dependent (head (queue x)). clear x.
  induction l as [|[u p] l IH]; intros c Hl Ht; [by apply not_elem_of_nil in Ht|].
  destruct Hl as (_ & _ & x & Hx & _ & Hl). cbn [fmap list_fmap fst] in Ht. apply elem_of_cons in Ht as [->|Ht]; [by eexists|by eapply IH].
Qed.

(** What a queue operation leaves alone: the waiting list, the other harts, and
    the tasks outside the queue. *)
Record beside (h : Z) (ids : list Z) (s s' : sched) : Prop := {
  b_waiting : waiting s' = waiting s;
  b_current : current_hart s' = current_hart s;
  b_harts : forall h', h' <> h -> harts s' !! h' = harts s !! h';
  b_idle : forall x, harts s !! h = Some x -> exists q,
    harts s' !! h = Some (mkHart q (idle_task x) (next x));
  b_tasks : forall u, u ∉ ids -> tasks s' !! u = tasks s !! u;
  b_same : forall u T, tasks s !! u = Some T -> exists T', tasks s' !! u = Some T' /\
    state T' = state T /\ process T' = process T /\ hart T' = hart T /\ priority T' = priority T;
}.

Lemma enqueue_prio t p l :
  StronglySorted (fun x y : entry => snd x <= snd y) l -> 0 <= p <= LOWEST_PRIORITY ->
  Forall (fun x : entry => 0 <= snd x <= LOWEST_PRIORITY) l ->
  Forall (fun x : entry => 0 <= snd x <= LOWEST_PRIORITY) (enqueue t p l).
Proof. intros Hs Hp Hl. rewrite enqueue_Permutation by done. by constructor. Qed.

Lemma enqueue_nodup t p l :
  StronglySorted (fun x y : entry => snd x <= snd y) l -> t ∉ fst <$> l -> NoDup (fst <$> l) ->
  NoDup (fst <$> enqueue t p l).
Proof. intros Hs Hn Hl. rewrite enqueue_Permutation by done. by constructor. Qed.

Lemma push_ok s h l t T :
  ready s h l -> tasks s !! t = Some T -> t <> 0 -> t ∉ fst <$> l -> 0 <= queue_priority T ->
  exists s', pushTaskToQueue h t s = Some (tt, s') /\
    ready s' h (enqueue t (Z.min (queue_priority T) LOWEST_PRIORITY) l) /\ beside h (t :: (fst <$> l)) s s'.
Proof.
  intros (x & Hx & Hr) HT Ht Hn Hq. set (p := Z.min (queue_priority T) LOWEST_PRIORITY).
  assert (Hp : 0 <= p <= LOWEST_PRIORITY) by (unfold p, LOWEST_PRIORITY, MAX_PRIORITY in *; lia).
  set (T1 := set_queue_priority T p). set (s1 := with_tasks s (<[t := T1]> (tasks s))).
  assert (Hr1 : represents (tasks s1) (queue x) l).
  { destruct Hr. split; try done. by apply tlist_frame. }
  assert (HT1 : tasks s1 !! t = Some T1) by apply lookup_insert_eq.
  assert (Hrest : pushTaskToQueue h t s =
    (old ← lift (tails (queue x) !! Z.to_nat p);
     (if old =? 0 then
        modify t (fun y => set_next y (head (queue x)));; put_queue h (mkQueue t (tails (queue x)))
      else
        O ← get_task old; modify t (fun y => set_next y (sched_next O));; modify old (fun y => set_next y t));;
     y ← get_hart h;
     ts ← lift (tails_loop (MAX - Z.to_nat p) (Z.to_nat p) old (fun _ _ => Some t) (tails (queue y)));
     put_queue h (mkQueue (head (queue y)) ts)) s1).
  { unfold pushTaskToQueue. rewrite (bind_get_task _ _ _ _ HT).
    destruct (Z.ltb_spec LOWEST_PRIORITY (queue_priority T)) as [Hlt|Hge].
    - rewrite bind_put_task.
      replace LOWEST_PRIORITY with p by (unfold p; lia). fold T1 s1.
      rewrite (bind_get_task _ _ _ _ HT1). cbn [T1 set_queue_priority queue_priority].
      by rewrite (bind_get_hart _ _ x) by done.
    - rewrite bind_ret. assert (E : s = s1).
      { unfold s1, T1. replace p with (queue_priority T) by (unfold p; lia).
        destruct s as [m ? ? ?], T. unfold with_tasks, set_queue_priority. cbn in *. by rewrite insert_id. }
      rewrite <- E. rewrite (bind_get_task _ _ _ _ HT). replace (queue_priority T) with p by (unfold p; lia).
      by rewrite (bind_get_hart _ _ x). }
  rewrite Hrest. clear Hrest.
  assert (Hin : (Z.to_nat p < MAX)%nat) by (unfold MAX, LOWEST_PRIORITY, MAX_PRIORITY in *; lia).
  pose proof (q_tails _ _ _ Hr1 _ Hin) as Hold. set (old := last_of _) in Hold.
  rewrite (bind_lift _ _ _ _ Hold).
  destruct (push_tails _ _ _ t p old Hr1 Ht Hp Hold) as (ts' & Hts & Hlen & Htails).
  pose proof (push_list _ _ _ t p T1 old Hr1 Hold Hp Ht Hn HT1 eq_refl) as Hlist.
  destruct Hr1 as [Hl Hs Hnd Hpr Hlen0 Htl].
  assert (Hx1 : harts s1 !! h = Some x) by done.
  destruct (Z.eqb_spec old 0) as [E0|E0].
  - rewrite bind_assoc, (bind_modify _ _ _ _ _ HT1).
    erewrite bind_some by (unfold put_queue; cbn [harts with_tasks]; rewrite Hx1; cbn; reflexivity).
    erewrite bind_get_hart by (cbn [harts]; apply lookup_insert_eq). cbn [queue tails head].
    rewrite E0 in *. rewrite (bind_lift _ _ _ _ Hts).
    unfold put_queue. cbn [harts]. rewrite lookup_insert_eq. cbn [mbind option_bind tasks with_tasks waiting current_hart idle_task next].
    eexists. split; [done|]. split.
    + eexists. split; [cbn [harts]; apply lookup_insert_eq|]. cbn [queue tasks].
      split; cbn [tails head]; try done; [by apply enqueue_sorted|by apply enqueue_nodup|by apply enqueue_prio].
    + split; cbn [waiting harts tasks s1 with_tasks current_hart]; try done.
      * intros h' Hh. by rewrite !lookup_insert_ne.
      * intros y Hy. rewrite Hx in Hy. injection Hy as <-. eexists. by rewrite lookup_insert_eq.
      * intros u [Hut _]%not_elem_of_cons. by rewrite !lookup_insert_ne.
      * intros u U HU. destruct (decide (u = t)) as [->|Hu].
        -- rewrite lookup_insert_eq. rewrite HT in HU. injection HU as <-. by eexists.
        -- rewrite !lookup_insert_ne by done. by eexists.
  - destruct Hlist as (O & HO & Hlist).
    assert (Hot : old <> t).
    { intros E. apply Hn. apply (upto_sub (Z.of_nat (Z.to_nat p))). rewrite <- E. unfold old. apply last_of_in.
      intros En. apply E0. unfold old. by rewrite En. }
    assert (Holdl : old ∈ fst <$> l).
    { apply (upto_sub (Z.of_nat (Z.to_nat p))). unfold old. apply last_of_in. intros En. apply E0. unfold old. by rewrite En. }
    rewrite bind_assoc, (bind_get_task _ _ _ _ HO). rewrite bind_assoc, (bind_modify _ _ _ _ _ HT1).
    rewrite (bind_modify _ old O) by (cbn [tasks with_tasks]; by rewrite lookup_insert_ne).
    erewrite bind_get_hart by (cbn [harts with_tasks]; exact Hx1). rewrite (bind_lift _ _ _ _ Hts).
    unfold put_queue. cbn [harts with_tasks]. rewrite Hx1. cbn [mbind option_bind tasks with_tasks waiting current_hart].
    eexists. split; [done|]. split.
    + eexists. split; [cbn [harts]; apply lookup_insert_eq|]. cbn [queue tasks].
      split; cbn [tails head]; try done; [by apply enqueue_sorted|by apply enqueue_nodup|by apply enqueue_prio].
    + split; cbn [waiting harts tasks s1 with_tasks current_hart]; try done.
      * intros h' Hh. by rewrite !lookup_insert_ne.
      * intros y Hy. rewrite Hx in Hy. injection Hy as <-. eexists. by rewrite lookup_insert_eq.
      * intros u [Hut Hul]%not_elem_of_cons. rewrite !lookup_insert_ne; try done. by intros <-.
      * intros u U HU. destruct (decide (u = old)) as [->|Huo].
        -- rewrite lookup_insert_eq. cbn [s1 tasks with_tasks] in HO. rewrite lookup_insert_ne in HO by done.
           rewrite HU in HO. injection HO as <-. by eexists.
        -- rewrite lookup_insert_ne by done. destruct (decide (u = t)) as [->|Hu].
           ++ rewrite lookup_insert_eq. rewrite HT in HU. injection HU as <-. by eexists.
           ++ rewrite !lookup_insert_ne by done. by eexists.
Qed.

(** *** The waiting list *)

Fixpoint wlist (m : gmap Z Task) (c : Z) (l : list Z) : Prop :=
  match l with
  | [] => c = 0
  | t :: l' => c = t /\ t <> 0 /\ exists x, m !! t = Some x /\ wlist m (sched_next x) l'
  end.

Definition waits (s : sched) (l : list Z) : Prop := wlist (tasks s) (waiting s) l /\ NoDup l.

Lemma wlist_frame m c l t x y :
  wlist m c l -> m !! t = Some x -> t ∉ l \/ sched_next y = sched_next x -> wlist (<[t := y]> m) c l.
Proof.
  intros Hl Ht Hn. revert c Hl Hn. induction l as [|u l IH]; intros c; cbn; [done|].
  intros (-> & Hu & z & Hz & Hl) Hn. split; [done|split; [done|]].
  assert (Hn' : t ∉ l \/ sched_next y = sched_next x).
  { destruct Hn as [Hn|Hn]; [left; by apply not_elem_of_cons in Hn as [_ ?]|by right]. }
  destruct (decide (u = t)) as [->|Hne].
  - exists y. rewrite lookup_insert_eq. split; [done|]. apply IH; [|done].
    destruct Hn as [Hn|Hn]; [by apply not_elem_of_cons in Hn as [? _]|]. rewrite Ht in Hz. injection Hz as <-. by rewrite Hn.
  - exists z. rewrite lookup_insert_ne by done. split; [done|by apply IH].
Qed.

Lemma wlist_size m c l : wlist m c l -> NoDup l -> (length l <= size m)%nat.
Proof.
  intros Hl Hnd. rewrite <- (size_list_to_set (C := gset Z)), <- size_dom by done. apply subseteq_size.
  intros t Ht%elem_of_list_to_set. apply elem_of_dom.
  clear Hnd. revert c Hl. induction l as [|u l IH]; intros c; [by apply not_elem_of_nil in Ht|].
  intros (_ & _ & x & Hx & Hl). apply elem_of_cons in Ht as [->|Ht]; [by exists x|by eapply IH].
Qed.

(** The cell that points at the tasks from [l2] on. *)
Definition at_cell (c : option Z) (l1 : list Z) : Prop :=
  match c with None => l1 = [] | Some t => exists l, l1 = l ++ [t] end.

Lemma read_cell_at s l1 l2 c :
  wlist (tasks s) (waiting s) (l1 ++ l2) -> at_cell c l1 ->
  exists v, read_cell c s = Some (v, s) /\ wlist (tasks s) v l2.
Proof.
  intros Hl Hc. destruct c as [t|]; cbn in Hc; [|subst; by exists (waiting s)].
  destruct Hc as [l ->]. revert Hl. generalize (waiting s). induction l as [|u l IH]; intros c; cbn [app wlist].
  - intros (_ & _ & x & Hx & Hl). exists (sched_next x). split; [|done].
    cbn [read_cell]. by rewrite (bind_get_task _ _ _ _ Hx).
  - intros (_ & _ & x & _ & Hl). by eapply IH.
Qed.

Lemma awaken_loop_at s l1 t l2 fuel c l0 :
  wlist (tasks s) (waiting s) (l0 ++ l1 ++ t :: l2) -> t ∉ l1 -> at_cell c l0 -> (length l1 < fuel)%nat ->
  exists c', awaken_loop fuel t c s = Some (c', s) /\ at_cell c' (l0 ++ l1).
Proof.
  revert fuel c l0. induction l1 as [|u l1 IH]; intros [|fuel] c l0 Hl Hn Hc Hf; try (cbn in Hf; lia);
    cbn [awaken_loop].
  - destruct (read_cell_at s l0 (t :: l2) c Hl Hc) as (v & Hv & -> & Ht & _).
    rewrite (bind_some _ _ _ _ _ Hv). rewrite Z.eqb_refl, andb_false_r. exists c. by rewrite app_nil_r.
  - destruct (read_cell_at s l0 (u :: l1 ++ t :: l2) c Hl Hc) as (v & Hv & -> & Hu & _).
    rewrite (bind_some _ _ _ _ _ Hv). apply not_elem_of_cons in Hn as [Hne Hn].
    rewrite (proj2 (Z.eqb_neq u 0)), (proj2 (Z.eqb_neq u t)) by done. cbn [negb andb].
    replace (l0 ++ u :: l1) with ((l0 ++ [u]) ++ l1) by by rewrite <- app_assoc.
    apply IH; [by rewrite <- !app_assoc|done|by exists l0|cbn in Hf; lia].
Qed.

Lemma wlist_remove m c l1 t l2 x :
  wlist m c (l1 ++ t :: l2) -> NoDup (l1 ++ t :: l2) -> m !! t = Some x ->
  match list.last l1 with
  | None => l1 = [] /\ wlist m (sched_next x) l2
  | Some u => exists U, m !! u = Some U /\ u <> t /\ wlist (<[u := set_next U (sched_next x)]> m) c (l1 ++ l2)
  end.
Proof.
  intros Hl Hnd Hx. destruct l1 as [|u l1 _] using rev_ind.
  - cbn. destruct Hl as (_ & _ & y & Hy & Hl). rewrite Hx in Hy. by injection Hy as <-.
  - rewrite last_snoc. rewrite <- app_assoc in Hl, Hnd. cbn [app] in Hl, Hnd. revert c Hl Hnd.
    induction l1 as [|v l1 IH]; intros c; cbn [app wlist].
    + intros (-> & Hu & U & HU & _ & Ht & y & Hy & Hl) Hnd. rewrite Hx in Hy. injection Hy as <-.
      inversion_clear Hnd as [|? ? Hun Hnd']. inversion_clear Hnd' as [|? ? Htn _].
      exists U. split; [done|]. split; [intros ->; apply Hun; by left|].
      split; [done|split; [done|]]. exists (set_next U (sched_next x)). rewrite lookup_insert_eq.
      split; [done|]. eapply wlist_frame; [done|done|]. left. intros Hin. apply Hun. by right.
    + intros (-> & Hv & V & HV & Hl) Hnd. inversion_clear Hnd as [|? ? Hvn Hnd'].
      destruct (IH _ Hl Hnd') as (U & HU & Hut & Hl'). exists U. split; [done|split; [done|]].
      split; [done|split; [done|]]. exists V. split; [|done]. rewrite lookup_insert_ne; [done|].
      intros ->. apply Hvn. set_solver.
Qed.

(** Every task but [t] keeps its state, and [t] keeps all but its state. *)
Definition only_state (t : Z) (s s' : sched) : Prop :=
  harts s' = harts s /\ current_hart s' = current_hart s /\
  forall u U, tasks s !! u = Some U -> exists U', tasks s' !! u = Some U' /\
    (u <> t -> state U' = state U) /\ set_next (set_state U' UNKNOWN) 0 = set_next (set_state U UNKNOWN) 0.

Lemma awakenTask_ok s l1 t l2 T :
  waits s (l1 ++ t :: l2) -> tasks s !! t = Some T -> state T = WAITING ->
  exists s' T', awakenTask t s = Some (tt, s') /\ waits s' (l1 ++ l2) /\ only_state t s s' /\
    tasks s' !! t = Some T' /\ state T' = ENQUABLE.
Proof.
  intros [Hl Hnd] HT Hst. pose proof (wlist_size _ _ _ Hl Hnd) as Hsz. rewrite length_app in Hsz. cbn in Hsz.
  assert (Hn1 : t ∉ l1) by (apply list.NoDup_app in Hnd as (_ & H & _); intros Hin; apply (H t Hin); by left).
  assert (Hnd' : NoDup (l1 ++ l2)).
  { rewrite <- Permutation_middle in Hnd. by inversion_clear Hnd. }
  destruct (awaken_loop_at s l1 t l2 (S (size (tasks s))) None [] Hl Hn1 eq_refl ltac:(lia)) as (c & Hloop & Hc).
  cbn [app] in Hc. destruct (read_cell_at s l1 (t :: l2) c Hl Hc) as (v & Hv & -> & Ht0 & _).
  unfold awakenTask, with_fuel. erewrite bind_some by exact Hloop. rewrite (bind_some _ _ _ _ _ Hv).
  rewrite bind_assert by apply Z.eqb_refl. rewrite (bind_get_task _ _ _ _ HT).
  pose proof (wlist_remove _ _ _ _ _ _ Hl Hnd HT) as Hrm.
  destruct l1 as [|u l1 _] using rev_ind.
  - cbn in Hrm. destruct Hrm as [_ Hrm]. destruct c as [c|]; [by destruct Hc as [[|? ?] ?]|].
    cbn [write_cell]. erewrite bind_some by (unfold put_waiting; reflexivity).
    rewrite (bind_get_task _ _ T) by done. rewrite Hst. cbn [negb andb bool_decide]. rewrite !bool_decide_eq_false_2 by done.
    cbn [negb andb]. rewrite bind_assert by done. eexists _, (set_state T ENQUABLE). split; [done|].
    split; [split; [|done]|split; [|split; [apply lookup_insert_eq|done]]].
    + cbn [app tasks with_tasks waiting]. eapply wlist_frame; [done|done|by right].
    + split; [done|split; [done|]]. intros w W HW. cbn [tasks with_tasks]. destruct (decide (w = t)) as [->|Hne].
      * rewrite lookup_insert_eq. rewrite HT in HW. injection HW as <-. by eexists.
      * rewrite lookup_insert_ne by done. by eexists.
  - rewrite last_snoc in Hrm. destruct Hrm as (U & HU & Hut & Hrm).
    destruct c as [c|]; [|by destruct l1]. destruct Hc as [l' E]. apply app_inj_tail in E as [_ <-].
    cbn [write_cell]. rewrite (bind_modify _ _ _ _ _ HU).
    assert (HT' : tasks (with_tasks s (<[u := set_next U (sched_next T)]> (tasks s))) !! t = Some T).
    { cbn [tasks with_tasks]. by rewrite lookup_insert_ne. }
    rewrite (bind_get_task _ _ _ _ HT'), Hst. rewrite !bool_decide_eq_false_2 by done. cbn [negb andb].
    rewrite bind_assert by done. eexists _, (set_state T ENQUABLE). split; [done|].
    split; [split; [|done]|split; [|split; [apply lookup_insert_eq|done]]].
    + cbn [tasks with_tasks waiting]. eapply wlist_frame; [done|exact HT'|by right].
    + split; [done|split; [done|]]. intros w W HW. cbn [tasks with_tasks]. destruct (decide (w = t)) as [->|Hne].
      * rewrite lookup_insert_eq. rewrite HT in HW. injection HW as <-. by eexists.
      * rewrite lookup_insert_ne by done. destruct (decide (w = u)) as [->|Hwu].
        -- rewrite lookup_insert_eq. rewrite HU in HW. injection HW as <-. by eexists.
        -- rewrite lookup_insert_ne by done. by eexists.
Qed.

(** The state after a move: [TERMINATED] is final, [STOPPED] ends in nothing
    else. *)
Definition move_state (old new : TaskState) : TaskState :=
  match old with
  | TERMINATED => TERMINATED
  | STOPPED => if decide (new = TERMINATED) then TERMINATED else STOPPED
  | _ => new
  end.

Lemma move_cond old new :
  (if negb (bool_decide (old = TERMINATED)) && (negb (bool_decide (old = STOPPED)) || bool_decide (new = TERMINATED))
   then new else old) = move_state old new.
Proof. by destruct old, new. Qed.

(** Without the task that is moved. *)
Definition without (t : Z) (l : list Z) : list Z := filter (fun u => u <> t) l.

Lemma without_mid t l1 l2 : NoDup (l1 ++ t :: l2) -> without t (l1 ++ t :: l2) = l1 ++ l2.
Proof.
  intros (_ & H1 & H2)%list.NoDup_app. inversion_clear H2 as [|? ? H2' _]. unfold without.
  assert (Hid : forall l : list Z, t ∉ l -> filter (fun u => u <> t) l = l).
  { induction l as [|u l IH]; intros Hn; [done|]. apply not_elem_of_cons in Hn as [? ?].
    rewrite filter_cons_True by done. by rewrite IH. }
  rewrite list.filter_app, filter_cons_False by tauto. rewrite !Hid; try done.
  intros Hin. apply (H1 t Hin). by left.
Qed.

Lemma moveTaskToState_ok s l t T st :
  waits s l -> t <> 0 -> tasks s !! t = Some T ->
  (state T = WAITING -> t ∈ l /\ (st = TERMINATED \/ st = STOPPED)) ->
  exists s' T', moveTaskToState t st s = Some (tt, s') /\ only_state t s s' /\
    tasks s' !! t = Some T' /\ state T' = move_state (state T) st /\
    waits s' (if decide (state T = WAITING) then without t l else l).
Proof.
  intros [Hl Hnd] Ht HT Hw. unfold moveTaskToState. rewrite bind_assert by by apply negb_true_iff, Z.eqb_neq.
  rewrite (bind_get_task _ _ _ _ HT). destruct (decide (state T = WAITING)) as [Hwt|Hwt].
  - destruct (Hw Hwt) as [Hin Hst]. apply list_elem_of_split in Hin as (l1 & l2 & ->).
    rewrite (bool_decide_eq_true_2 (state T = WAITING)) by done. rewrite bind_assoc, bind_assert
      by (apply orb_true_iff; rewrite !bool_decide_eq_true; exact Hst).
    destruct (awakenTask_ok s l1 t l2 T (conj Hl Hnd) HT Hwt) as (s1 & T1 & H1 & Hw1 & Ho & HT1 & Hs1).
    rewrite (bind_some _ _ _ _ _ H1), (bind_get_task _ _ _ _ HT1), Hs1. cbn [bool_decide].
    rewrite !bool_decide_eq_false_2 by done. rewrite bind_assert by done. cbn [negb andb orb].
    eexists _, (set_state T1 st). split; [done|]. split; [|split; [apply lookup_insert_eq|]].
    + destruct Ho as (Hh & Hc & Ho). split; [done|split; [done|]]. intros u U HU.
      destruct (Ho u U HU) as (U1 & HU1 & Hne & He). cbn [tasks with_tasks].
      destruct (decide (u = t)) as [->|Hut].
      * rewrite lookup_insert_eq. rewrite HT1 in HU1. injection HU1 as <-. by eexists.
      * rewrite lookup_insert_ne by done. by exists U1.
    + split; [by rewrite Hwt|]. rewrite without_mid by done. destruct Hw1 as [Hw1 Hn1]. split; [|done].
      cbn [tasks with_tasks waiting]. eapply wlist_frame; [done|done|by right].
  - rewrite (bool_decide_eq_false_2 (state T = WAITING)) by done. rewrite bind_ret, (bind_get_task _ _ _ _ HT).
    rewrite bind_assert by (by rewrite bool_decide_eq_false_2).
    assert (Hcase : exists s', (if negb (bool_decide (state T = TERMINATED)) &&
        (negb (bool_decide (state T = STOPPED)) || bool_decide (st = TERMINATED))
      then put_task t (set_state T st) else mret tt) s = Some (tt, s') /\
      s' = with_tasks s (<[t := set_state T (move_state (state T) st)]> (tasks s))).
    { assert (Hself : s = with_tasks s (<[t := set_state T (state T)]> (tasks s))).
      { destruct s as [m ? ? ?]. unfold with_tasks, set_state. cbn in *. destruct T. cbn. by rewrite insert_id. }
      pose proof (move_cond (state T) st) as Hm. destruct (_ && _); rewrite <- Hm.
      - by eexists.
      - exists s. by split. }
    destruct Hcase as (s' & -> & ->). eexists _, (set_state T (move_state (state T) st)).
    split; [done|split; [|split; [apply lookup_insert_eq|split; [done|]]]].
    + split; [done|split; [done|]]. intros u U HU. cbn [tasks with_tasks]. destruct (decide (u = t)) as [->|Hut].
      * rewrite lookup_insert_eq. rewrite HT in HU. injection HU as <-. by eexists.
      * rewrite lookup_insert_ne by done. by eexists.
    + split; [|done]. cbn [tasks with_tasks waiting]. eapply wlist_frame; [done|done|by right].
Qed.

(** ** Properties *)

(** C5: [pushTaskToQueue] puts the task behind every task of its priority or higher
    and before those of lower priority; priorities beyond the lowest are taken
    for the lowest. *)
Theorem pushTaskToQueue_refines s h l t T :
  ready s h l -> tasks s !! t = Some T -> t <> 0 -> t ∉ fst <$> l -> 0 <= queue_priority T ->
  exists s', pushTaskToQueue h t s = Some (tt, s') /\
    ready s' h (enqueue t (Z.min (queue_priority T) LOWEST_PRIORITY) l) /\ beside h (t :: (fst <$> l)) s s'.
Proof. apply push_ok. Qed.

(** C6: [pullTaskFromQueue] takes the first task, one of the highest priority in the
    queue and of those the one that was put in first; on an empty queue it
    returns [NULL] and changes nothing. *)
Theorem pullTaskFromQueue_refines s h l :
  ready s h l ->
  match l with
  | [] => pullTaskFromQueue h s = Some (0, s)
  | (t, p) :: l' => exists s', pullTaskFromQueue h s = Some (t, s') /\ ready s' h l' /\
      tasks s' = tasks s /\ waiting s' = waiting s /\ (forall h', h' <> h -> harts s' !! h' = harts s !! h') /\
      forall u q, (u, q) ∈ l' -> p <= q
  end.
Proof.
  intros (x & Hx & Hr). unfold pullTaskFromQueue. rewrite (bind_get_hart _ _ _ _ Hx).
  pose proof Hr as [Hl Hs Hnd Hp Hlen Ht]. destruct l as [|[t p] l']; [by rewrite Hl|].
  destruct Hl as (Hh & Ht0 & T & HT & HTp & Hl). rewrite Hh, (proj2 (Z.eqb_neq _ _)) by done.
  rewrite (bind_get_task _ _ _ _ HT), HTp.
  inversion_clear Hp as [|? ? Hpt Hp']. cbn [snd] in Hpt. unfold LOWEST_PRIORITY, MAX_PRIORITY in Hpt.
  destruct (pull_tails _ _ _ _ _ Hr) as (ts' & Hts & Hlen' & Htails).
  rewrite (bind_lift _ _ (last_of (upto p ((t, p) :: l'))))
    by (rewrite Ht by (unfold MAX, MAX_PRIORITY; lia); by rewrite Z2Nat.id by lia).
  pose proof Hs as [Hs' Hx']%sorted_cons. inversion_clear Hnd as [|? ? _ Hnd'].
  assert (Hgoal : exists s', (put_queue h (mkQueue (sched_next T) ts');; mret t) s = Some (t, s') /\ ready s' h l' /\
      tasks s' = tasks s /\ waiting s' = waiting s /\ (forall h', h' <> h -> harts s' !! h' = harts s !! h') /\
      forall u q, (u, q) ∈ l' -> p <= q).
  { erewrite bind_some by (unfold put_queue; rewrite Hx; cbn; reflexivity).
    eexists. split; [done|]. cbn [tasks harts waiting]. split; [|split; [done|split; [done|split]]].
    - eexists. split; [cbn [harts]; apply lookup_insert_eq|]. by split.
    - intros h' Hne. by rewrite lookup_insert_ne.
    - intros u q Hin. apply (Hx' (u, q) Hin). }
  destruct (_ =? t) eqn:E.
  - destruct (if (Z.to_nat p =? 0)%nat then Some 0 else _) as [first|]; [|done]. cbn [mbind option_bind] in Hts.
    erewrite bind_lift by done. by rewrite (bind_lift _ _ _ _ Hts).
  - by injection Hts as ->.
Qed.

(** [moveTaskToState] makes exactly the moves of [move_state]; a waiting task may
    only be stopped or terminated, and leaves the waiting list. *)
Theorem moveTaskToState_correct s l t T st :
  waits s l -> t <> 0 -> tasks s !! t = Some T ->
  (state T = WAITING -> t ∈ l /\ (st = TERMINATED \/ st = STOPPED)) ->
  exists s' T', moveTaskToState t st s = Some (tt, s') /\ only_state t s s' /\
    tasks s' !! t = Some T' /\ state T' = move_state (state T) st /\
    waits s' (if decide (state T = WAITING) then without t l else l).
Proof. apply moveTaskToState_ok. Qed.

(** The queue priority of a task that has run for a time. *)
Definition aged (T : Task) : Z :=
  if PRIORITY_DECREASE <? run_for T then priority T + Z.min (run_for T / PRIORITY_DECREASE) 5 else priority T.

Lemma represents_frame m q l t x :
  represents m q l -> t ∉ fst <$> l -> represents (<[t := x]> m) q l.
Proof. intros [] Hn. split; try done. by apply tlist_frame. Qed.

Lemma enqueueTask_ok removeProcessTask s h l t T :
  ready s h l -> tasks s !! t = Some T -> t <> 0 -> t ∉ fst <$> l ->
  state T = ENQUABLE -> (if hart T =? 0 then current_hart s else hart T) = h -> h <> 0 ->
  (forall x, harts s !! h = Some x -> idle_task x <> t) ->
  0 <= priority T <= LOWEST_PRIORITY -> 0 <= run_for T < 2 ^ 64 ->
  exists s' T', enqueueTask removeProcessTask t s = Some (tt, s') /\
    ready s' h (enqueue t (Z.min (aged T) LOWEST_PRIORITY) l) /\
    tasks s' !! t = Some T' /\ state T' = READY /\ process T' = process T /\ priority T' = priority T.
Proof.
  intros Hr HT Ht Hn Hst Hh Hh0 Hidle Hp Hrf. destruct Hr as (x & Hx & Hr).
  assert (Hmove : moveTaskToState t READY s = Some (tt, with_tasks s (<[t := set_state T READY]> (tasks s)))).
  { unfold moveTaskToState. rewrite bind_assert by by apply negb_true_iff, Z.eqb_neq.
    rewrite (bind_get_task _ _ _ _ HT), Hst. rewrite (bool_decide_eq_false_2 (ENQUABLE = WAITING)) by done.
    rewrite bind_ret, (bind_get_task _ _ _ _ HT), Hst. done. }
  unfold enqueueTask. rewrite (bind_get_task _ _ _ _ HT).
  assert (Ehart : (if hart T =? 0 then getCurrentHartFrame else mret (hart T)) s = Some (h, s)) by (rewrite <- Hh; by destruct (hart T =? 0)).
  rewrite (bind_some _ _ _ _ _ Ehart). rewrite bind_assert by by apply negb_true_iff, Z.eqb_neq.
  rewrite (bind_get_hart _ _ _ _ Hx), (proj2 (Z.eqb_neq _ _)) by by apply Hidle. cbn [negb]. rewrite Hst.
  erewrite bind_some by exact Hmove. set (s2 := with_tasks s _).
  assert (HT2 : tasks s2 !! t = Some (set_state T READY)) by apply lookup_insert_eq.
  rewrite (bind_modify _ _ _ _ _ HT2). set (T3 := if _ <? run_for (set_state T READY) then _ else _).
  set (s3 := with_tasks s2 _). assert (HT3 : tasks s3 !! t = Some T3) by apply lookup_insert_eq.
  assert (Hdec : 0 <= run_for T / PRIORITY_DECREASE) by (apply Z.div_pos; [lia|done]).
  assert (Hq3 : queue_priority T3 = aged T).
  { unfold T3, aged. cbn [set_state run_for priority]. destruct (Z.ltb_spec PRIORITY_DECREASE (run_for T)); [|done].
    cbn [set_run_for set_queue_priority queue_priority]. rewrite Util.umin_spec.
    unfold LOWEST_PRIORITY, MAX_PRIORITY in *. apply wrap_small. change (2 ^ 8) with 256. lia. }
  assert (Hq0 : 0 <= aged T).
  { unfold aged. destruct (_ <? _); lia. }
  destruct (push_ok s3 h l t T3) as (s' & Hpush & Hr' & Hb); try done.
  - exists x. split; [done|]. by apply represents_frame; [apply represents_frame|].
  - by rewrite Hq3.
  - rewrite Hq3 in Hr'. destruct (b_same _ _ _ _ Hb t T3 HT3) as (T' & HT' & Hs' & Hp' & _ & Hpr').
    exists s', T'. rewrite Hs', Hp', Hpr'. unfold T3 in *. by destruct (_ <? _).
Qed.

(** A runnable task goes to the ready queue of its hart, behind the tasks of its
    priority lowered by the time it has run. *)
Theorem enqueueTask_ready removeProcessTask s h l w t T :
  ready s h l -> waits s w -> tasks s !! t = Some T -> t <> 0 -> t ∉ fst <$> l -> t ∉ w ->
  state T = ENQUABLE -> hart T = h -> h <> 0 ->
  (forall x, harts s !! h = Some x -> idle_task x <> t) ->
  0 <= priority T <= LOWEST_PRIORITY -> 0 <= run_for T < 2 ^ 64 ->
  exists s' T', enqueueTask removeProcessTask t s = Some (tt, s') /\
    ready s' h (enqueue t (Z.min (aged T) LOWEST_PRIORITY) l) /\
    tasks s' !! t = Some T' /\ state T' = READY.
Proof.
  intros Hr _ HT Ht Hn _ Hst Hh Hh0 Hidle Hp Hrf. assert (Hh' : (if hart T =? 0 then current_hart s else hart T) = h).
  { rewrite Hh. by rewrite (proj2 (Z.eqb_neq h 0)). }
  destruct (enqueueTask_ok removeProcessTask s h l t T Hr HT Ht Hn Hst Hh' Hh0 Hidle Hp Hrf) as (s' & T' & E & H1 & H2 & H3 & _).
  by exists s', T'.
Qed.

(** A hart with one task in its queue, and a task to put in. *)
Definition queued_task : Task := mkTask 0x100 0 20 20 0 READY 0 0 0 0.
Definition new_task : Task := mkTask 0x100 0 10 10 0 ENQUABLE 0 0 0 0.
Definition waiting_task : Task := mkTask 0x100 0 10 10 0 WAITING 0 0 0 0.
Definition demo_hart : HartFrame := mkHart (mkQueue 0x10 (replicate 20 0 ++ replicate 20 0x10)) 0x90 0x100.
Definition demo : sched :=
  mkSched (<[0x10 := queued_task]> (<[0x20 := new_task]> {[ 0x30 := waiting_task ]}))
    {[ 0x100 := demo_hart ]} 0x30 0x100.

Lemma demo_ready : ready demo 0x100 [(0x10, 20)].
Proof.
  exists demo_hart. split; [done|]. split; try done.
  - split; [done|split; [done|]]. by exists queued_task.
  - repeat constructor.
  - apply NoDup_singleton.
  - repeat constructor; cbn; done.
  - intros i Hi. do 40 (destruct i as [|i]; [reflexivity|]). exfalso. unfold MAX, MAX_PRIORITY in Hi. lia.
Qed.

Lemma demo_waits : waits demo [0x30].
Proof. split; [|apply NoDup_singleton]. split; [done|split; [done|]]. by exists waiting_task. Qed.

Lemma pushTaskToQueue_refines_witness :
  exists s', pushTaskToQueue 0x100 0x20 demo = Some (tt, s') /\
    ready s' 0x100 (enqueue 0x20 (Z.min 10 LOWEST_PRIORITY) [(0x10, 20)]) /\
    beside 0x100 [0x20; 0x10] demo s'.
Proof.
  apply (pushTaskToQueue_refines demo 0x100 [(0x10, 20)] 0x20 new_task); try done; [exact demo_ready|].
  intros [E|E%not_elem_of_nil]%elem_of_cons; done.
Defined.

Lemma pullTaskFromQueue_refines_witness :
  exists s', pullTaskFromQueue 0x100 demo = Some (0x10, s') /\ ready s' 0x100 [] /\
    tasks s' = tasks demo /\ waiting s' = waiting demo /\
    (forall h', h' <> 0x100 -> harts s' !! h' = harts demo !! h') /\
    forall u q, (u, q) ∈ ([] : list entry) -> 20 <= q.
Proof. exact (pullTaskFromQueue_refines demo 0x100 [(0x10, 20)] demo_ready). Defined.

Lemma moveTaskToState_correct_witness :
  exists s' T', moveTaskToState 0x30 STOPPED demo = Some (tt, s') /\ only_state 0x30 demo s' /\
    tasks s' !! 0x30 = Some T' /\ state T' = STOPPED /\ waits s' (without 0x30 [0x30]).
Proof.
  apply (moveTaskToState_correct demo [0x30] 0x30 waiting_task STOPPED); try done; [exact demo_waits|].
  intros _. split; [by left|by right].
Defined.

Lemma enqueueTask_ready_witness :
  exists s' T', enqueueTask (fun _ => mret tt) 0x20 demo = Some (tt, s') /\
    ready s' 0x100 (enqueue 0x20 (Z.min (aged new_task) LOWEST_PRIORITY) [(0x10, 20)]) /\
    tasks s' !! 0x20 = Some T' /\ state T' = READY.
Proof.
  apply (enqueueTask_ready (fun _ => mret tt) demo 0x100 [(0x10, 20)] [0x30] 0x20 new_task); try done.
  - exact demo_ready.
  - exact demo_waits.
  - intros [E|E%not_elem_of_nil]%elem_of_cons; done.
  - intros [E|E%not_elem_of_nil]%elem_of_cons; done.
  - intros x [= <-]. done.
Defined.

(** [removeTaskFromQueue] of the task that is not in front drops the queue and
    does not find the task. *)
Example remove_drops_queue :
  (pushTaskToQueue 0x100 0x20;; removeTaskFromQueue 0x100 0x10) demo ≫=
    (fun r => Some (fst r, head ∘ queue <$> harts (snd r) !! 0x100)) = Some (0, Some 0).
Proof. reflexivity. Qed.

End Schedule.
