(* ===== verification/Lock.v ===== *)
(** * Lock: [kernel/src/task/spinlock.c], [kernel/src/task/tasklock.c]

    Recursive locks of harts and of tasks, on the spinning lock word of
    [kernel/src/util/riscv64/lock.S].  Every function is a program of single
    accesses to memory ([Threads.prog]): reads and writes of one field, the
    atomic swap of the lock word, and the task that the hart runs.  Threads (the
    harts, or the tasks) run such programs at the same time, one access of one
    thread after the other in any order, so that the order of the accesses in
    the source is what the theorems are about.  Memory is sequentially
    consistent (the code has a fence around every swap).

    [Threads] has the programs, the interleaving, and a program logic: what a
    thread may rely on while others run is its knowledge, each access has a rule
    that says what it needs and gives, and a lock is a [Protocol] of such rules.
    [SpinLock] and [TaskLock] are the two locks and their protocols.

    What [DEBUG] adds to the locks is left out.  [panic_lock_bypass], which only a
    panic sets, is an argument of the spin locks. *)
From stdpp Require Import relations.
From S2P Require Import Prelude Schedule.

Declare Scope prog_scope.
Delimit Scope prog_scope with prog.

(** ** Threads that share memory *)

Module Threads.

Section Programs.
(** The accesses, and the memory they are to. *)
Context {O : Type} {S : Type}.

(** [Loop p body k]: [p] is the rest of this turn; when it ends with 0 the program
    goes on with [k], else with another turn.  [Fault] is a failed assertion. *)
Inductive prog : Type :=
| Ret (a : Z)
| Do (o : O) (k : Z -> prog)
| Loop (p body k : prog)
| Fault.

Fixpoint bindp (p : prog) (f : Z -> prog) : prog :=
  match p with
  | Ret a => f a
  | Do o k => Do o (fun v => bindp (k v) f)
  | Loop p body k => Loop p body (bindp k f)
  | Fault => Fault
  end.

Definition whilep (body : prog) : prog := Loop body body (Ret 0).
Definition op (o : O) : prog := Do o Ret.

(** An access of a thread: its value, and the memory behind it; [None] when the
    thread has to wait. *)
Context (exec : Z -> O -> S -> option (Z * S)).

(** The next step of a program. *)
Fixpoint pnext (t : Z) (p : prog) (s : S) : option (prog * S) :=
  match p with
  | Ret _ | Fault => None
  | Do o k => match exec t o s with Some (v, s) => Some (k v, s) | None => None end
  | Loop (Ret a) body k => Some (if a =? 0 then k else Loop body body k, s)
  | Loop p body k => match pnext t p s with Some (p, s) => Some (Loop p body k, s) | None => None end
  end.

(** An assertion has failed. *)
Fixpoint faulty (p : prog) : bool :=
  match p with Fault => true | Loop p _ _ => faulty p | _ => false end.

(** *** What a thread does with a lock *)

Inductive call : Type := LOCK | TRY | UNLOCK.

(** [depth] is how often a thread holds the lock: locking that has returned, less
    unlocking that has begun. *)
Record system := mkSys { shared : S; threads : Z -> option (call * prog); depth : Z -> nat }.

Definition upd {A : Type} (f : Z -> A) (t : Z) (x : A) : Z -> A := fun u => if decide (u = t) then x else f u.

(** A lock that is held may be given back; one level more must be countable. *)
Definition may_call (c : call) (n : nat) : Prop :=
  match c with UNLOCK => (0 < n)%nat | _ => Z.of_nat n < 2 ^ 64 - 1 end.
Definition begun (c : call) (n : nat) : nat := match c with UNLOCK => Nat.pred n | _ => n end.
Definition finished (c : call) (a : Z) (n : nat) : nat :=
  match c with LOCK => Datatypes.S n | TRY => if a =? 0 then n else Datatypes.S n | UNLOCK => n end.

Context (code : Z -> call -> prog) (env : Z -> S -> S -> Prop).

(** A thread calls an operation, one thread makes one access, an operation returns,
    or something else happens to a thread that has nothing to do with the lock. *)
Inductive step : system -> system -> Prop :=
| step_call s t c : t <> 0 -> threads s t = None -> may_call c (depth s t) ->
    step s (mkSys (shared s) (upd (threads s) t (Some (c, code t c))) (upd (depth s) t (begun c (depth s t))))
| step_access s t c p p' m : threads s t = Some (c, p) -> pnext t p (shared s) = Some (p', m) ->
    step s (mkSys m (upd (threads s) t (Some (c, p'))) (depth s))
| step_return s t c a : threads s t = Some (c, Ret a) ->
    step s (mkSys (shared s) (upd (threads s) t None) (upd (depth s) t (finished c a (depth s t))))
| step_env s t m : threads s t = None -> depth s t = 0%nat -> env t (shared s) m ->
    step s (mkSys m (threads s) (depth s)).

Definition idle (m : S) : system := mkSys m (fun _ => None) (fun _ => 0%nat).

(** *** The program logic *)

(** What a thread knows; what an access needs of that, and what it gives. *)
Context {K : Type} (rule : Z -> O -> K -> (Z -> K -> Prop) -> Prop).

(** From the knowledge [k] on, [p] does only what the rules allow, never fails an
    assertion, keeps to [P] all the way and ends in [Q]. *)
Fixpoint wp (t : Z) (P : K -> Prop) (p : prog) (k : K) (Q : Z -> K -> Prop) : Prop :=
  match p with
  | Ret a => P k /\ Q a k
  | Do o c => P k /\ rule t o k (fun v k => wp t P (c v) k Q)
  | Loop p body c => exists I : K -> Prop,
      let ends a k := if a =? 0 then wp t P c k Q else I k in
      wp t P p k ends /\ forall k, I k -> wp t P body k ends
  | Fault => False
  end.

Lemma wp_faulty t P p k Q : wp t P p k Q -> faulty p = false.
Proof. revert k Q. induction p as [a|o c IH|p IHp b _ c _|]; intros k Q H; try done. destruct H as (I & H & _). by eapply IHp. Qed.

Lemma wp_now t P p k Q : wp t P p k Q -> P k.
Proof.
  revert k Q. induction p as [a|o c IH|p IHp b _ c _|]; intros k Q H; [by destruct H..| |done].
  destruct H as (I & H & _). by eapply IHp.
Qed.

Lemma wp_mono_with (mono : forall t o k (Q Q' : Z -> K -> Prop), (forall v k, Q v k -> Q' v k) -> rule t o k Q -> rule t o k Q')
    t P p k (Q Q' : Z -> K -> Prop) : (forall a k, Q a k -> Q' a k) -> wp t P p k Q -> wp t P p k Q'.
Proof.
  revert k Q Q'. induction p as [a|o c IH|p IHp b IHb c IHc|]; intros k Q Q' HQ H; [|..|done].
  - destruct H as [H1 H2]. split; [done|by apply HQ].
  - destruct H as [H1 H2]. split; [done|]. eapply mono; [|exact H2]. intros v k' H. by eapply IH.
  - destruct H as (I & H & HI). exists I.
    assert (He : forall a k, (if a =? 0 then wp t P c k Q else I k) -> if a =? 0 then wp t P c k Q' else I k).
    { intros a k'. destruct (a =? 0); [by apply IHc|done]. }
    split; [by eapply IHp; [apply He|]|]. intros k' Hk. eapply IHb; [apply He|by apply HI].
Qed.

(** One program after another. *)
Lemma wp_bind_with (mono : forall t o k (Q Q' : Z -> K -> Prop), (forall v k, Q v k -> Q' v k) -> rule t o k Q -> rule t o k Q')
    t P p f k Q : wp t P p k (fun a k => wp t P (f a) k Q) -> wp t P (bindp p f) k Q.
Proof.
  revert k. induction p as [a|o c IH|p IHp b IHb c IHc|]; intros k H; [by destruct H|..|done].
  - destruct H as [H1 H2]. split; [done|]. eapply mono; [|exact H2]. intros v k' H. by apply IH.
  - destruct H as (I & H & HI). exists I.
    assert (He : forall a k, (if a =? 0 then wp t P c k (fun a k => wp t P (f a) k Q) else I k) ->
      if a =? 0 then wp t P (bindp c f) k Q else I k).
    { intros a k'. destruct (a =? 0); [by apply IHc|done]. }
    split; [by eapply (wp_mono_with mono); [apply He|]|]. intros k' Hk. eapply (wp_mono_with mono); [apply He|by apply HI].
Qed.

(** How the memory and the knowledge of all threads fit together, what a thread
    knows at rest with the lock [n] times, and what it always knows then. *)
Context (agrees : S -> (Z -> K) -> Prop) (rest during : Z -> nat -> K -> Prop) (start : S -> Prop).

Class Protocol : Prop := {
  rule_mono t o k (Q Q' : Z -> K -> Prop) : (forall v k, Q v k -> Q' v k) -> rule t o k Q -> rule t o k Q';
  rule_sound s κ t o v s' Q : t <> 0 -> agrees s κ -> exec t o s = Some (v, s') -> rule t o (κ t) Q ->
    exists κ', Q v (κ' t) /\ agrees s' κ' /\ forall u, u <> t -> κ' u = κ u;
  code_sound t c n k : t <> 0 -> may_call c n -> rest t n k ->
    wp t (during t (begun c n)) (code t c) k (fun a => rest t (finished c a (begun c n)));
  env_sound s κ t s' : agrees s κ -> env t s s' -> (t <> 0 -> rest t 0 (κ t)) ->
    exists κ', agrees s' κ' /\ (t <> 0 -> rest t 0 (κ' t)) /\ forall u, u <> t -> κ' u = κ u;
  rest_during t n k : rest t n k -> during t n k;
  start_sound s : start s -> exists κ, agrees s κ /\ forall t, t <> 0 -> rest t 0 (κ t);
}.

Context {locking : Protocol}.

Lemma wp_step t P p s κ p' s' Q : t <> 0 -> agrees s κ -> pnext t p s = Some (p', s') -> wp t P p (κ t) Q ->
  exists κ', wp t P p' (κ' t) Q /\ agrees s' κ' /\ forall u, u <> t -> κ' u = κ u.
Proof.
  intros Ht. revert p' Q. induction p as [a|o c IH|p IHp b _ c _|]; intros p' Q Ha E H; try done.
  - cbn [pnext] in E. destruct (exec t o s) as [[v m]|] eqn:Ex; [|done]. injection E as <- <-.
    destruct H as [_ H]. exact (rule_sound s κ t o v m _ Ht Ha Ex H).
  - destruct H as (I & H & HI).
    assert (Hin : forall q m, pnext t p s = Some (q, m) -> p' = Loop q b c -> s' = m ->
      exists κ', wp t P p' (κ' t) Q /\ agrees s' κ' /\ forall u, u <> t -> κ' u = κ u).
    { intros q m Eq -> ->. destruct (IHp _ _ Ha Eq H) as (κ' & H' & Ha' & Hu). exists κ'. split; [by exists I|done]. }
    destruct p as [a|o k|p1 b1 c1|]; cbn [pnext] in E.
    + injection E as <- <-. exists κ. split; [|done]. destruct H as [_ H]. destruct (a =? 0); [done|]. exists I. by split; [apply HI|].
    + destruct (exec t o s) as [[v m]|] eqn:Ex; [|done]. injection E as <- <-. eapply Hin; [cbn [pnext]; by rewrite Ex|done..].
    + destruct (pnext t (Loop p1 b1 c1) s) as [[q m]|] eqn:Ex; cbn [pnext] in Ex; rewrite Ex in E; [|done].
      injection E as <- <-. by eapply Hin.
    + done.
Qed.

(** Every thread is somewhere in its program, with what it knows there. *)
Definition doing (s : system) (t : Z) (k : K) : Prop :=
  match threads s t with
  | None => rest t (depth s t) k
  | Some (c, p) => wp t (during t (depth s t)) p k (fun a => rest t (finished c a (depth s t)))
  end.

Definition invariant (s : system) : Prop :=
  (threads s 0 = None /\ depth s 0 = 0%nat) /\
  exists κ, agrees (shared s) κ /\ forall t, t <> 0 -> doing s t (κ t).

Lemma upd_same {A : Type} (f : Z -> A) t x : upd f t x t = x.
Proof. unfold upd. by rewrite decide_True. Qed.

Lemma upd_other {A : Type} (f : Z -> A) t x u : u <> t -> upd f t x u = f u.
Proof. intros H. unfold upd. by rewrite decide_False. Qed.

(** One thread goes on, the others stay where they are. *)
Lemma others_stay s κ κ' m th d t :
  (forall u, u <> 0 -> doing s u (κ u)) -> (forall u, u <> t -> κ' u = κ u) ->
  (forall u, u <> t -> th u = threads s u) -> (forall u, u <> t -> d u = depth s u) ->
  (t <> 0 -> doing (mkSys m th d) t (κ' t)) -> forall u, u <> 0 -> doing (mkSys m th d) u (κ' u).
Proof.
  intros H Hk Hth Hd Ht u Hu. destruct (decide (u = t)) as [->|Hne]; [by apply Ht|].
  specialize (H u Hu). unfold doing in *. cbn [threads depth]. by rewrite Hk, Hth, Hd by done.
Qed.

Lemma invariant_step s s' : invariant s -> step s s' -> invariant s'.
Proof.
  intros ([H0 Hd0] & κ & Ha & H) Hs. destruct Hs as [s t c Ht Hth Hc|s t c p p' m Hth E|s t c a Hth|s t m Hth Hd E].
  - split; [cbn; by rewrite !upd_other by (by apply not_eq_sym)|]. exists κ. split; [done|].
    apply (others_stay s κ κ _ _ _ t); try done; [intros; by apply upd_other..|]. intros _.
    specialize (H t Ht). unfold doing in *. cbn [threads depth]. rewrite Hth in H. rewrite !upd_same. by apply code_sound.
  - assert (Ht : t <> 0) by (intros ->; congruence). pose proof (H t Ht) as Hw. unfold doing in Hw. rewrite Hth in Hw.
    destruct (wp_step t _ p _ κ p' m _ Ht Ha E Hw) as (κ' & Hw' & Ha' & Hu).
    split; [cbn; by rewrite upd_other by (by apply not_eq_sym)|]. exists κ'. split; [done|].
    apply (others_stay s κ κ' _ _ _ t); try done; [intros; by apply upd_other|]. intros _.
    unfold doing. cbn [threads depth]. by rewrite upd_same.
  - assert (Ht : t <> 0) by (intros ->; congruence). pose proof (H t Ht) as Hw. unfold doing in Hw. rewrite Hth in Hw.
    split; [cbn; by rewrite !upd_other by (by apply not_eq_sym)|]. exists κ. split; [done|].
    apply (others_stay s κ κ _ _ _ t); try done; [intros; by apply upd_other..|]. intros _.
    unfold doing. cbn [threads depth]. rewrite !upd_same. by destruct Hw.
  - destruct (env_sound _ κ t m Ha E) as (κ' & Ha' & Hr & Hu).
    { intros Ht. specialize (H t Ht). unfold doing in H. by rewrite Hth, Hd in H. }
    split; [done|]. exists κ'. split; [done|]. apply (others_stay s κ κ' _ _ _ t); try done.
    intros Ht. unfold doing. cbn [threads depth]. rewrite Hth, Hd. by apply Hr.
Qed.

Lemma invariant_reachable m s : start m -> rtc step (idle m) s -> invariant s.
Proof.
  intros Hm Hr. assert (H0 : invariant (idle m)).
  { destruct (start_sound m Hm) as (κ & Ha & H). split; [done|]. exists κ. split; [done|]. intros t Ht. by apply H. }
  revert H0. induction Hr as [|s1 s2 s3 Hs _ IH]; intros Hi; [done|]. apply IH. by eapply invariant_step.
Qed.

(** What every thread knows at any time. *)
Lemma doing_during s t k : doing s t k -> during t (depth s t) k.
Proof. unfold doing. destruct (threads s t) as [[c p]|]; [apply wp_now|apply rest_during]. Qed.

Lemma doing_faulty s t k c p : doing s t k -> threads s t = Some (c, p) -> faulty p = false.
Proof. unfold doing. intros H E. rewrite E in H. by eapply wp_faulty. Qed.

(** *** Running a schedule *)

Inductive event := Call (t : Z) (c : call) | Run (t : Z).

Definition may_callb (c : call) (n : nat) : bool :=
  match c with UNLOCK => (0 <? n)%nat | _ => Z.of_nat n <? 2 ^ 64 - 1 end.

Definition happen (e : event) (s : system) : option system :=
  match e with
  | Call t c =>
      match threads s t with
      | None => if negb (t =? 0) && may_callb c (depth s t)
                then Some (mkSys (shared s) (upd (threads s) t (Some (c, code t c))) (upd (depth s) t (begun c (depth s t))))
                else None
      | Some _ => None
      end
  | Run t =>
      match threads s t with
      | None => None
      | Some (c, Ret a) => Some (mkSys (shared s) (upd (threads s) t None) (upd (depth s) t (finished c a (depth s t))))
      | Some (c, p) =>
          match pnext t p (shared s) with
          | Some (p', m) => Some (mkSys m (upd (threads s) t (Some (c, p'))) (depth s))
          | None => None
          end
      end
  end.

Fixpoint schedule (l : list event) (s : system) : option system :=
  match l with [] => Some s | e :: l => match happen e s with Some s => schedule l s | None => None end end.

Lemma happen_step e s s' : happen e s = Some s' -> step s s'.
Proof.
  destruct e as [t c|t]; cbn [happen]; destruct (threads s t) as [[c' p]|] eqn:Hth; try done.
  - destruct (negb (t =? 0) && may_callb c (depth s t)) eqn:E; [|done]. intros [= <-]. apply andb_prop in E as [E1 E2].
    constructor; [lia|done|]. destruct c; [by apply Z.ltb_lt..|by apply Nat.ltb_lt].
  - assert (Hgo : match pnext t p (shared s) with
      | Some (p', m) => Some (mkSys m (upd (threads s) t (Some (c', p'))) (depth s)) | None => None end = Some s' -> step s s').
    { destruct (pnext t p (shared s)) as [[p' m]|] eqn:E; [|done]. intros [= <-]. by econstructor. }
    destruct p; try exact Hgo. intros [= <-]. by constructor.
Qed.

Lemma schedule_reachable l s s' : schedule l s = Some s' -> rtc step s s'.
Proof.
  revert s. induction l as [|e l IH]; intros s; cbn [schedule]; [intros [= <-]; apply rtc_refl|].
  destruct (happen e s) as [s1|] eqn:E; [|done]. intros H. eapply rtc_l; [by apply happen_step in E|by apply IH].
Qed.

End Programs.

#[global] Arguments prog : clear implicits.

End Threads.

Notation "x ⟵ p ; q" := (Threads.bindp p%prog (fun x => q%prog)) (at level 20, p at level 100, q at level 200, right associativity) : prog_scope.
Notation "p ⨟ q" := (Threads.bindp p%prog (fun _ => q%prog)) (at level 100, q at level 200, right associativity) : prog_scope.

(** ** Spin locks *)

Module SpinLock.
Import Threads.

(** The lock word of [unsafelock], the hart (0 is [NULL]), the depth, and the task
    that the end of the critical section goes back to. *)
Record SpinLock := mkLock { unsafelock : Z; locked_by : Z; num_locks : Z; crit_ret_frame : Z }.

(** [crit_ret_frame] is left as it is. *)
Definition initSpinLock (l : SpinLock) : SpinLock := mkLock 0 0 0 (crit_ret_frame l).

(** A lock, and the task that runs on each hart; 0 in a critical section. *)
Record memory := mkMemory { lock : SpinLock; current : Z -> Z }.

Inductive field := LOCKED_BY | NUM_LOCKS | CRIT_RET_FRAME.

(** [Swap v] is [amoswap.w] on the lock word; the last two are the hart's own. *)
Inductive access := Swap (v : Z) | Read (f : field) | Write (f : field) (v : Z) | GetTask | SetTask (v : Z).

Definition get (f : field) (l : SpinLock) : Z :=
  match f with LOCKED_BY => locked_by l | NUM_LOCKS => num_locks l | CRIT_RET_FRAME => crit_ret_frame l end.
Definition set (f : field) (v : Z) (l : SpinLock) : SpinLock :=
  match f with
  | LOCKED_BY => mkLock (unsafelock l) v (num_locks l) (crit_ret_frame l)
  | NUM_LOCKS => mkLock (unsafelock l) (locked_by l) v (crit_ret_frame l)
  | CRIT_RET_FRAME => mkLock (unsafelock l) (locked_by l) (num_locks l) v
  end.
Definition set_word (v : Z) (l : SpinLock) : SpinLock := mkLock v (locked_by l) (num_locks l) (crit_ret_frame l).

Definition exec (h : Z) (o : access) (m : memory) : option (Z * memory) :=
  match o with
  | Swap v => Some (unsafelock (lock m), mkMemory (set_word v (lock m)) (current m))
  | Read f => Some (get f (lock m), m)
  | Write f v => Some (0, mkMemory (set f v (lock m)) (current m))
  | GetTask => Some (current m h, m)
  | SetTask v => Some (0, mkMemory (lock m) (upd (current m) h v))
  end.

Section Code.
Context (panic_lock_bypass : bool).
Local Open Scope prog_scope.
Abbreviation prog := (prog access).

(** [kernel/src/util/riscv64/lock.S] *)
Definition lockUnsafeLock : prog := whilep (op (Swap 1)).
Definition tryLockingUnsafeLock : prog := old ⟵ op (Swap 1); Ret (if old =? 0 then 1 else 0).
Definition unlockUnsafeLock : prog := op (Swap 0).

(** [kernel/src/task/syscall.c] *)
Definition criticalEnter : prog :=
  task ⟵ op GetTask;
  if negb (task =? 0) then op (SetTask 0) ⨟ Ret task else Ret 0.

Definition criticalReturn (to : Z) : prog :=
  task ⟵ op GetTask;
  if negb (task =? 0) then Fault
  else if negb (to =? 0) then op (SetTask to) else Ret 0.

Definition lockSpinLock (hart : Z) : prog :=
  task ⟵ criticalEnter;
  test ⟵ (if hart =? 0 then Ret 1 else (by_ ⟵ op (Read LOCKED_BY); Ret (if negb (by_ =? hart) then 1 else 0)));
  (if negb (test =? 0) then
     (if negb panic_lock_bypass then lockUnsafeLock else Ret 0) ⨟
     op (Write LOCKED_BY hart) ⨟
     op (Write CRIT_RET_FRAME task)
   else Ret 0) ⨟
  n ⟵ op (Read NUM_LOCKS);
  op (Write NUM_LOCKS (u64 (n + 1))).

Definition tryLockingSpinLock (hart : Z) : prog :=
  task ⟵ criticalEnter;
  mine ⟵ (if negb (hart =? 0) then (by_ ⟵ op (Read LOCKED_BY); Ret (if by_ =? hart then 1 else 0)) else Ret 0);
  ok ⟵ (if negb (mine =? 0) || panic_lock_bypass then Ret 1 else tryLockingUnsafeLock);
  if negb (ok =? 0) then
    n ⟵ op (Read NUM_LOCKS);
    op (Write NUM_LOCKS (u64 (n + 1))) ⨟
    op (Write LOCKED_BY hart) ⨟
    op (Write CRIT_RET_FRAME task) ⨟
    Ret 1
  else criticalReturn task ⨟ Ret 0.

Definition unlockSpinLock : prog :=
  n ⟵ op (Read NUM_LOCKS);
  op (Write NUM_LOCKS (u64 (n - 1))) ⨟
  n ⟵ op (Read NUM_LOCKS);
  if n =? 0 then
    op (Write LOCKED_BY 0) ⨟
    crit_return ⟵ op (Read CRIT_RET_FRAME);
    op (Write CRIT_RET_FRAME 0) ⨟
    (if negb panic_lock_bypass then unlockUnsafeLock else Ret 0) ⨟
    criticalReturn crit_return
  else Ret 0.

Definition code (hart : Z) (c : call) : prog :=
  match c with LOCK => lockSpinLock hart | TRY => tryLockingSpinLock hart | UNLOCK => unlockSpinLock end.

End Code.

(** A hart outside of the lock may go to another task, and into or out of another
    critical section. *)
Definition switch (h : Z) (m m' : memory) : Prop := exists v, m' = mkMemory (lock m) (upd (current m) h v).

(** *** The protocol *)

(** A hart that has the lock word knows the whole lock, the others only that it
    does not name them. *)
Record knowledge := mkKnow { own : option SpinLock; task : Z }.

(** The lock while its word is taken, and nothing was done yet. *)
Definition taken (c : Z) : SpinLock := mkLock 1 0 0 c.

Definition rule (h : Z) (o : access) (k : knowledge) (Q : Z -> knowledge -> Prop) : Prop :=
  match o, own k with
  | Swap v, None => v = 1 /\ (forall c, Q 0 (mkKnow (Some (taken c)) (task k))) /\ Q 1 k
  | Swap v, Some l => v = 0 /\ l = taken (crit_ret_frame l) /\ Q 1 (mkKnow None (task k))
  | Read f, Some l => Q (get f l) k
  | Read f, None => f = LOCKED_BY /\ forall b, b <> h -> Q b k
  | Write f v, Some l => (f = LOCKED_BY -> v = 0 \/ v = h) /\ Q 0 (mkKnow (Some (set f v l)) (task k))
  | Write _ _, None => False
  | GetTask, _ => Q (task k) k
  | SetTask v, _ => Q 0 (mkKnow (own k) v)
  end.

Record agrees (m : memory) (κ : Z -> knowledge) : Prop := {
  a_task : forall h, h <> 0 -> task (κ h) = current m h;
  a_lock : ((exists l, lock m = initSpinLock l) /\ forall h, h <> 0 -> own (κ h) = None) \/
    exists h, h <> 0 /\ unsafelock (lock m) = 1 /\ own (κ h) = Some (lock m) /\
      (locked_by (lock m) = 0 \/ locked_by (lock m) = h) /\ forall u, u <> 0 -> u <> h -> own (κ u) = None;
}.

(** At rest a hart with the lock is in its critical section. *)
Definition rest (h : Z) (n : nat) (k : knowledge) : Prop :=
  if decide (n = 0%nat) then own k = None
  else exists c, own k = Some (mkLock 1 h (Z.of_nat n) c) /\ task k = 0 /\ Z.of_nat n < 2 ^ 64.
Definition during (h : Z) (n : nat) (k : knowledge) : Prop :=
  (0 < n)%nat -> task k = 0 /\ exists l, own k = Some l.

Definition start (m : memory) : Prop := exists l, lock m = initSpinLock l.

(** A hart that changes its own knowledge only. *)
Lemma agrees_own m κ h k' m' :
  agrees m κ -> h <> 0 -> (forall u, u <> h -> current m' u = current m u) -> task k' = current m' h ->
  own k' = own (κ h) -> lock m' = lock m -> agrees m' (upd κ h k').
Proof.
  intros [Ht Hl] Hh Hc Ek Eo El. split.
  - intros u Hu. destruct (decide (u = h)) as [->|Hne]; [by rewrite upd_same|]. rewrite upd_other, Hc by done. by apply Ht.
  - assert (E : forall u, own (upd κ h k' u) = own (κ u)).
    { intros u. destruct (decide (u = h)) as [->|Hne]; [by rewrite upd_same|by rewrite upd_other]. }
    rewrite El. destruct Hl as [[El' Hn]|(u & Hu & H1 & H2 & H3 & H4)]; [left|right].
    + split; [done|]. intros v Hv. rewrite E. by apply Hn.
    + exists u. rewrite E. split_and!; try done. intros v Hv Hvu. rewrite E. by apply H4.
Qed.

(** The hart that has the lock word changes the lock, or gives it back. *)
Lemma agrees_owner m κ h l : agrees m κ -> h <> 0 -> own (κ h) = Some l ->
  l = lock m /\ unsafelock l = 1 /\ (locked_by l = 0 \/ locked_by l = h) /\ forall u, u <> 0 -> u <> h -> own (κ u) = None.
Proof.
  intros [Ht Hl] Hh El. destruct Hl as [[_ Hn]|(u & Hu & H1 & H2 & H3 & H4)]; [by rewrite Hn in El|].
  destruct (decide (u = h)) as [->|Hne]; [|by rewrite H4 in El by (done || by apply not_eq_sym)].
  rewrite H2 in El. by injection El as <-.
Qed.

Lemma agrees_write m κ h l' : agrees m κ -> h <> 0 -> own (κ h) <> None -> unsafelock l' = 1 ->
  locked_by l' = 0 \/ locked_by l' = h ->
  agrees (mkMemory l' (current m)) (upd κ h (mkKnow (Some l') (task (κ h)))).
Proof.
  intros Ha Hh Ho Hu Hb. destruct (own (κ h)) as [l|] eqn:El; [|done]. destruct (agrees_owner m κ h l Ha Hh El) as (_ & _ & _ & Hn).
  destruct Ha as [Ht _]. split; cbn [current lock].
  - intros u Hu'. destruct (decide (u = h)) as [->|Hne]; [rewrite upd_same|rewrite upd_other by done]; by apply Ht.
  - right. exists h. rewrite upd_same. split_and!; try done. intros u Hu0 Hne. rewrite upd_other by done. by apply Hn.
Qed.

Lemma agrees_acquire m κ h : agrees m κ -> h <> 0 -> own (κ h) = None -> unsafelock (lock m) = 0 ->
  agrees (mkMemory (set_word 1 (lock m)) (current m)) (upd κ h (mkKnow (Some (taken (crit_ret_frame (lock m)))) (task (κ h)))).
Proof.
  intros [Ht Hl] Hh Ho Hw. destruct Hl as [[[l El] Hn]|(u & _ & H1 & _)]; [|congruence]. rewrite El. split; cbn [current lock].
  - intros u Hu. destruct (decide (u = h)) as [->|Hne]; [rewrite upd_same|rewrite upd_other by done]; by apply Ht.
  - right. exists h. rewrite upd_same. split_and!; try done; [by left|]. intros u Hu Hne. rewrite upd_other by done. by apply Hn.
Qed.

Lemma agrees_release m κ h : agrees m κ -> h <> 0 -> own (κ h) = Some (taken (crit_ret_frame (lock m))) ->
  agrees (mkMemory (set_word 0 (lock m)) (current m)) (upd κ h (mkKnow None (task (κ h)))).
Proof.
  intros Ha Hh Ho. destruct (agrees_owner m κ h _ Ha Hh Ho) as (El & _ & _ & Hn). destruct Ha as [Ht _]. rewrite <- El.
  split; cbn [current lock].
  - intros u Hu. destruct (decide (u = h)) as [->|Hne]; [rewrite upd_same|rewrite upd_other by done]; by apply Ht.
  - left. split; [by exists (lock m); rewrite <- El|]. intros u Hu. destruct (decide (u = h)) as [->|Hne]; [by rewrite upd_same|rewrite upd_other by done; by apply Hn].
Qed.

(** The word is free or taken. *)
Lemma agrees_word m κ : agrees m κ -> unsafelock (lock m) = 0 \/ unsafelock (lock m) = 1.
Proof. intros [_ [[[l ->] _]|(h & _ & H & _)]]; [by left|by right]. Qed.

Lemma agrees_not_mine m κ h : agrees m κ -> h <> 0 -> own (κ h) = None -> locked_by (lock m) <> h.
Proof.
  intros [_ [[[l ->] _]|(u & Hu & _ & H2 & H3 & _)]] Hh Ho; [cbn; congruence|]. intros E.
  destruct H3 as [H3|H3]; [congruence|]. rewrite E in H3. subst u. congruence.
Qed.

Lemma spin_rule_sound m κ h o v m' Q : h <> 0 -> agrees m κ -> exec h o m = Some (v, m') -> rule h o (κ h) Q ->
  exists κ', Q v (κ' h) /\ agrees m' κ' /\ forall u, u <> h -> κ' u = κ u.
Proof.
  intros Hh Ha E H. assert (Hsame : agrees m κ -> Q v (κ h) -> m' = m -> exists κ', Q v (κ' h) /\ agrees m' κ' /\ forall u, u <> h -> κ' u = κ u).
  { intros _ HQ ->. by exists κ. }
  assert (Hupd : forall k, Q v k -> agrees m' (upd κ h k) -> exists κ', Q v (κ' h) /\ agrees m' κ' /\ forall u, u <> h -> κ' u = κ u).
  { intros k HQ Hk. exists (upd κ h k). rewrite upd_same. split_and!; try done. intros u Hu. by rewrite upd_other. }
  destruct o as [w|f|f w| |w]; cbn [exec] in E; injection E as <- <-; unfold rule in H; destruct (own (κ h)) as [l|] eqn:Ho.
  - destruct H as (-> & El & HQ). destruct (agrees_owner m κ h l Ha Hh Ho) as (-> & Hw & _).
    rewrite Hw in *. apply (Hupd _ HQ). apply agrees_release; [done..|]. by rewrite Ho, <- El.
  - destruct H as (-> & HQ0 & HQ1). destruct (agrees_word m κ Ha) as [Hw|Hw]; rewrite Hw in *.
    + apply (Hupd _ (HQ0 (crit_ret_frame (lock m)))). by apply agrees_acquire.
    + apply Hsame; [done..|]. destruct m as [[w b n c] cur]. cbn in *. by rewrite Hw.
  - destruct (agrees_owner m κ h l Ha Hh Ho) as (-> & _). by apply Hsame.
  - destruct H as [-> H]. apply Hsame; [done| |done]. apply H. by apply (agrees_not_mine m κ).
  - destruct H as [Hb HQ]. destruct (agrees_owner m κ h l Ha Hh Ho) as (-> & Hu & Hb' & _).
    apply (Hupd _ HQ). apply agrees_write; try done; [by rewrite Ho|by destruct f|]. destruct f; [by apply Hb|done..].
  - done.
  - rewrite (a_task m κ Ha h Hh) in H. by apply Hsame.
  - rewrite (a_task m κ Ha h Hh) in H. by apply Hsame.
  - apply (Hupd _ H). eapply agrees_own; try done; cbn [current lock own task]; [by intros; apply upd_other|by rewrite upd_same].
  - apply (Hupd _ H). eapply agrees_own; try done; cbn [current lock own task]; [by intros; apply upd_other|by rewrite upd_same].
Qed.

Lemma spin_rule_mono h o k (Q Q' : Z -> knowledge -> Prop) : (forall v k, Q v k -> Q' v k) -> rule h o k Q -> rule h o k Q'.
Proof. intros HQ. unfold rule. destruct o as [w|f|f w| |w]; destruct (own k) as [l|]; naive_solver. Qed.

Abbreviation wp := (wp rule).

Lemma wp_bind h P p f k Q : wp h P p k (fun a k => wp h P (f a) k Q) -> wp h P (bindp p f) k Q.
Proof. apply wp_bind_with, spin_rule_mono. Qed.

Lemma wp_op h (P : knowledge -> Prop) o k Q : P k -> rule h o k (fun v k => P k /\ Q v k) -> wp h P (op o) k Q.
Proof. done. Qed.

Lemma wp_ret h (P : knowledge -> Prop) a k (Q : Z -> knowledge -> Prop) : P k -> Q a k -> wp h P (Ret a) k Q.
Proof. done. Qed.

Lemma wp_criticalEnter h (P : knowledge -> Prop) k Q :
  P k -> P (mkKnow (own k) 0) -> Q (task k) (mkKnow (own k) 0) -> wp h P criticalEnter k Q.
Proof.
  intros H1 H2 HQ. unfold criticalEnter. apply wp_bind, wp_op; [done|]. cbn. split; [done|].
  destruct (Z.eqb_spec (task k) 0) as [E|E]; cbn.
  - destruct k as [o t]. cbn in *. by subst.
  - split; [done|]. destruct (own k); cbn; split; try done; destruct k; done.
Qed.

Lemma wp_criticalReturn h (P : knowledge -> Prop) to k Q :
  task k = 0 -> P k -> P (mkKnow (own k) to) -> (forall a, Q a (mkKnow (own k) to)) -> wp h P (criticalReturn to) k Q.
Proof.
  intros Ht H1 H2 HQ. unfold criticalReturn. apply wp_bind, wp_op; [done|].
  assert (Hg : rule h GetTask k (fun v k => P k /\ wp h P (if negb (v =? 0) then Fault else if negb (to =? 0) then op (SetTask to) else Ret 0) k Q)).
  { unfold rule. rewrite Ht. assert (G : P k /\ wp h P (if negb (0 =? 0) then Fault else if negb (to =? 0) then op (SetTask to) else Ret 0) k Q); [|by destruct (own k)].
    split; [done|]. cbn. destruct (Z.eqb_spec to 0) as [->|E]; cbn.
    - split; [done|]. destruct k as [o t]. cbn in *. subst. done.
    - split; [done|]. destruct (own k); by split. }
  exact Hg.
Qed.

Lemma wp_lockUnsafeLock h (P : knowledge -> Prop) k Q :
  own k = None -> P k -> (forall c, P (mkKnow (Some (taken c)) (task k)) /\ Q 0 (mkKnow (Some (taken c)) (task k))) -> wp h P lockUnsafeLock k Q.
Proof.
  intros Ho H1 HQ. exists (fun k' => k' = k).
  assert (Hb : wp h P (op (Swap 1)) k (fun a k' => if a =? 0 then wp h P (Ret 0) k' Q else k' = k)).
  { apply wp_op; [done|]. unfold rule. rewrite Ho. split_and!; try done; intros c; by destruct (HQ c). }
  split; [done|]. by intros k' ->.
Qed.

Lemma wp_tryLockingUnsafeLock h (P : knowledge -> Prop) k Q :
  own k = None -> P k -> (forall c, P (mkKnow (Some (taken c)) (task k)) /\ Q 1 (mkKnow (Some (taken c)) (task k))) -> Q 0 k ->
  wp h P tryLockingUnsafeLock k Q.
Proof.
  intros Ho H1 HQ HQ0. unfold tryLockingUnsafeLock. apply wp_bind, wp_op; [done|]. unfold rule. rewrite Ho.
  split_and!; try done; intros c; by destruct (HQ c).
Qed.

(** Accesses of a hart that has the lock word. *)
Lemma wp_read h (P : knowledge -> Prop) f l t (Q : Z -> knowledge -> Prop) :
  P (mkKnow (Some l) t) -> Q (get f l) (mkKnow (Some l) t) -> wp h P (op (Read f)) (mkKnow (Some l) t) Q.
Proof. intros H HQ. by apply wp_op. Qed.

Lemma wp_write h (P : knowledge -> Prop) f v l t (Q : Z -> knowledge -> Prop) :
  P (mkKnow (Some l) t) -> P (mkKnow (Some (set f v l)) t) -> (f = LOCKED_BY -> v = 0 \/ v = h) ->
  Q 0 (mkKnow (Some (set f v l)) t) -> wp h P (op (Write f v)) (mkKnow (Some l) t) Q.
Proof. intros H1 H2 Hv HQ. by apply wp_op. Qed.

Lemma during_owner h n l : during h n (mkKnow (Some l) 0).
Proof. intros _. split; [done|by exists l]. Qed.

Lemma during_none h k : during h 0 k.
Proof. intros H. lia. Qed.

Hint Resolve during_owner during_none : core.

(** One more level, for a hart that has the lock word. *)
Lemma wp_count h n m w c b (Q : Z -> knowledge -> Prop) : 0 <= m < 2 ^ 64 - 1 ->
  Q 0 (mkKnow (Some (mkLock w b (m + 1) c)) 0) ->
  wp h (during h n) (bindp (op (Read NUM_LOCKS)) (fun n => op (Write NUM_LOCKS (u64 (n + 1))))) (mkKnow (Some (mkLock w b m c)) 0) Q.
Proof.
  intros Hm HQ. apply wp_bind, wp_read; [auto|]. cbn [get num_locks]. rewrite (wrap_small 64) by lia.
  by apply wp_write; auto.
Qed.

Lemma rest_cases h n k : rest h n k ->
  (n = 0%nat /\ own k = None) \/ ((0 < n)%nat /\ Z.of_nat n < 2 ^ 64 /\ exists c, k = mkKnow (Some (mkLock 1 h (Z.of_nat n) c)) 0).
Proof.
  unfold rest. destruct (decide (n = 0%nat)) as [->|Hn]; [by left|]. intros (c & E1 & E2 & E3). right. split; [lia|split; [done|]].
  exists c. destruct k. cbn in *. by subst.
Qed.

Lemma rest_held h n c : (0 < n)%nat -> Z.of_nat n < 2 ^ 64 -> rest h n (mkKnow (Some (mkLock 1 h (Z.of_nat n) c)) 0).
Proof. intros Hn Hb. unfold rest. rewrite decide_False by lia. by exists c. Qed.

Lemma lockSpinLock_ok h n k : h <> 0 -> Z.of_nat n < 2 ^ 64 - 1 -> rest h n k ->
  wp h (during h n) (lockSpinLock false h) k (fun _ => rest h (S n)).
Proof.
  intros Hh Hn Hr. unfold lockSpinLock. apply wp_bind. apply rest_cases in Hr as [[-> Ho]|(Hn0 & _ & c & ->)].
  - apply wp_criticalEnter; [auto..|]. rewrite Ho. apply wp_bind. rewrite (proj2 (Z.eqb_neq h 0)) by done.
    apply wp_bind, wp_op; [auto|]. split; [done|]. intros b Hb. split; [auto|].
    rewrite (proj2 (Z.eqb_neq b h)) by done. cbn [negb Z.eqb]. apply wp_ret; [auto|]. cbn [negb Z.eqb].
    apply wp_bind, wp_bind. apply wp_lockUnsafeLock; [done|auto|]. intros c. split; [auto|]. cbn [task].
    apply wp_bind, wp_write; [auto..|]. cbn [set unsafelock taken num_locks crit_ret_frame].
    apply wp_write; [auto..|done|]. cbn [set unsafelock locked_by num_locks]. apply wp_count; [lia|]. exact (rest_held h 1 _ ltac:(lia) ltac:(lia)).
  - apply wp_criticalEnter; [auto|apply during_owner|]. cbn [own task]. apply wp_bind. rewrite (proj2 (Z.eqb_neq h 0)) by done.
    apply wp_bind, wp_read; [auto|]. cbn [get locked_by]. rewrite Z.eqb_refl. cbn [negb Z.eqb]. apply wp_ret; [auto|]. cbn [negb Z.eqb].
    apply wp_bind, wp_ret; [auto|]. apply wp_count; [lia|]. replace (Z.of_nat n + 1) with (Z.of_nat (S n)) by lia. apply rest_held; lia.
Qed.

Lemma wp_try_success h n m w c b t (Q : Z -> knowledge -> Prop) : 0 <= m < 2 ^ 64 - 1 ->
  Q 1 (mkKnow (Some (mkLock w h (m + 1) t)) 0) ->
  wp h (during h n) (n ⟵ op (Read NUM_LOCKS); op (Write NUM_LOCKS (u64 (n + 1))) ⨟ op (Write LOCKED_BY h) ⨟ op (Write CRIT_RET_FRAME t) ⨟ Ret 1)%prog
    (mkKnow (Some (mkLock w b m c)) 0) Q.
Proof.
  intros Hm HQ. apply wp_bind, wp_read; [auto|]. cbn [get num_locks]. rewrite (wrap_small 64) by lia.
  apply wp_bind, wp_write; [auto..|done|]. apply wp_bind, wp_write; [auto..|]. apply wp_bind, wp_write; [auto..|done|].
  split; [auto|]. done.
Qed.

Lemma tryLockingSpinLock_ok h n k : h <> 0 -> Z.of_nat n < 2 ^ 64 - 1 -> rest h n k ->
  wp h (during h n) (tryLockingSpinLock false h) k (fun a => rest h (if a =? 0 then n else S n)).
Proof.
  intros Hh Hn Hr. unfold tryLockingSpinLock. apply wp_bind. rewrite (proj2 (Z.eqb_neq h 0)) by done.
  apply rest_cases in Hr as [[-> Ho]|(Hn0 & _ & c & ->)].
  - apply wp_criticalEnter; [auto..|]. rewrite Ho. apply wp_bind.
    apply wp_bind, wp_op; [auto|]. split; [done|]. intros b Hb. split; [auto|].
    rewrite (proj2 (Z.eqb_neq b h)) by done. cbn [negb Z.eqb]. apply wp_ret; [auto|]. cbn [negb Z.eqb orb].
    apply wp_bind, wp_tryLockingUnsafeLock; [done|auto| |]; [intros c; split; [auto|]|]; cbn [negb Z.eqb task].
    + apply wp_try_success; [lia|]. exact (rest_held h 1 _ ltac:(lia) ltac:(lia)).
    + apply wp_bind, wp_criticalReturn; [done|auto..|]. intros _. split; [auto|]. done.
  - apply wp_criticalEnter; [auto|apply during_owner|]. cbn [own task]. apply wp_bind. apply wp_bind, wp_read; [auto|].
    cbn [get locked_by]. rewrite Z.eqb_refl. cbn [negb Z.eqb]. apply wp_ret; [auto|]. cbn [negb Z.eqb orb]. apply wp_bind, wp_ret; [auto|].
    cbn [negb Z.eqb]. apply wp_try_success; [lia|]. cbn [Z.eqb]. replace (Z.of_nat n + 1) with (Z.of_nat (S n)) by lia. apply rest_held; lia.
Qed.

Lemma unlockSpinLock_ok h n k : h <> 0 -> rest h (S n) k ->
  wp h (during h n) (unlockSpinLock false) k (fun _ => rest h n).
Proof.
  intros Hh Hr. apply rest_cases in Hr as [[? _]|(_ & Hn & c & ->)]; [done|]. unfold unlockSpinLock.
  apply wp_bind, wp_read; [auto|]. cbn [get num_locks]. rewrite (wrap_small 64) by lia.
  replace (Z.of_nat (S n) - 1) with (Z.of_nat n) by lia.
  apply wp_bind, wp_write; [auto..|done|]. cbn [set unsafelock locked_by crit_ret_frame].
  apply wp_bind, wp_read; [auto|]. cbn [get num_locks]. destruct (Z.eqb_spec (Z.of_nat n) 0) as [E|E].
  - assert (n = 0%nat) as -> by lia. apply wp_bind, wp_write; [auto..|]. cbn [set unsafelock num_locks crit_ret_frame].
    apply wp_bind, wp_read; [auto|]. cbn [get crit_ret_frame]. apply wp_bind, wp_write; [auto..|done|]. cbn [set unsafelock locked_by num_locks].
    apply wp_bind, wp_op; [auto|]. split_and!; [done|done|auto|]. apply wp_criticalReturn; [done|auto..|]. intros _. done.
  - split; [auto|]. apply rest_held; lia.
Qed.

#[export] Instance spin_protocol : Protocol exec (code false) switch rule agrees rest during start.
Proof.
  split.
  - intros h o k Q Q'. apply spin_rule_mono.
  - intros m κ h o v m' Q. apply spin_rule_sound.
  - intros h c n k Hh Hc Hr. destruct c; cbn [code begun finished] in *.
    + by apply lockSpinLock_ok.
    + by apply tryLockingSpinLock_ok.
    + cbn in Hc. destruct n as [|n]; [lia|]. cbn [Nat.pred]. by apply unlockSpinLock_ok.
  - intros m κ h m' Ha [v ->] Hr. destruct (decide (h = 0)) as [->|Hh].
    + exists κ. split; [|done]. destruct Ha as [Ht Hl]. split; [|done]. intros u Hu. cbn [current]. rewrite upd_other by done. by apply Ht.
    + exists (upd κ h (mkKnow (own (κ h)) v)). split; [|split].
      * apply (agrees_own m κ h); try done; cbn [current task own]; [intros; by apply upd_other|by rewrite upd_same].
      * intros _. rewrite upd_same. by apply Hr.
      * intros u Hu. by rewrite upd_other.
  - intros h n k Hr Hn. apply rest_cases in Hr as [[-> _]|(_ & _ & c & ->)]; [lia|]. split; [done|]. by eexists.
  - intros m Hm. exists (fun h => mkKnow None (current m h)). split; [split; [done|by left]|done].
Qed.

Abbreviation step := (Threads.step exec (code false) switch).

Lemma spin_invariant m s : start m -> rtc step (idle m) s -> invariant rule agrees rest during s.
Proof. apply (invariant_reachable exec (code false) switch rule agrees rest during start). Qed.

(** C31: In every state that the harts reach, with their accesses to the lock
    interleaved in any way, at most one hart holds it (it has locked it more often
    than it has begun to unlock it).  A hart that holds it runs no task, so that it
    cannot be preempted; between its operations the lock names it and counts how
    often it holds the lock.  When no hart is at the lock it is as it was
    initialised.  No assertion of the operations fails. *)
Theorem spinlock_mutual_exclusion m s :
  (exists l, lock m = initSpinLock l) -> rtc step (idle m) s ->
  (forall h h', (0 < depth s h)%nat -> (0 < depth s h')%nat -> h = h') /\
  (forall h, (0 < depth s h)%nat -> unsafelock (lock (shared s)) = 1 /\ current (shared s) h = 0 /\
     (threads s h = None -> locked_by (lock (shared s)) = h /\ num_locks (lock (shared s)) = Z.of_nat (depth s h))) /\
  ((forall h, threads s h = None /\ depth s h = 0%nat) -> exists l, lock (shared s) = initSpinLock l) /\
  (forall h c p, threads s h = Some (c, p) -> faulty p = false).
Proof.
  intros Hm Hr. destruct (spin_invariant m s Hm Hr) as ([H0 Hd0] & κ & Ha & H).
  assert (Hown : forall h, (0 < depth s h)%nat -> h <> 0 /\ task (κ h) = 0 /\ exists l, own (κ h) = Some l).
  { intros h Hh. assert (Hn : h <> 0) by (intros ->; lia). split; [done|].
    by apply (doing_during exec (code false) switch rule agrees rest during start s h (κ h) (H h Hn)). }
  split_and!.
  - intros h h' Hh Hh'. destruct (Hown h Hh) as (Hn & _ & l & El), (Hown h' Hh') as (Hn' & _ & l' & El').
    destruct (agrees_owner _ κ h l Ha Hn El) as (_ & _ & _ & Hx). destruct (decide (h' = h)) as [->|Hne]; [done|].
    by rewrite Hx in El'.
  - intros h Hh. destruct (Hown h Hh) as (Hn & Ht & l & El). destruct (agrees_owner _ κ h l Ha Hn El) as (-> & Hu & _).
    split; [done|]. split; [by rewrite <- (a_task _ κ Ha h Hn)|]. intros Hth. specialize (H h Hn). unfold doing in H. rewrite Hth in H.
    apply rest_cases in H as [[? _]|(_ & _ & c & E)]; [lia|]. rewrite E in El. injection El as <-. done.
  - intros Hall. destruct (a_lock _ κ Ha) as [[E _]|(h & Hn & _ & El & _)]; [done|].
    specialize (H h Hn). unfold doing in H. destruct (Hall h) as [E1 E2]. rewrite E1, E2 in H.
    apply rest_cases in H as [[_ E]|[? _]]; [congruence|lia].
  - intros h c p Hth. assert (Hn : h <> 0) by (intros ->; congruence). specialize (H h Hn). by eapply doing_faulty.
Qed.

(** Two harts in two tasks: hart 1 locks twice, hart 2 spins, hart 1 unlocks once,
    access by access. *)
Definition ex_memory : memory := mkMemory (initSpinLock (mkLock 7 7 7 7)) (fun h => h + 100).
Definition runs (n : nat) (h : Z) : list event := replicate n (Run h).
Definition ex_contended : list event :=
  [Call 1 LOCK; Call 2 LOCK] ++ runs 4 1 ++ runs 5 2 ++ runs 6 1 ++ runs 4 2 ++ [Call 1 LOCK] ++ runs 5 1 ++ [Call 1 UNLOCK] ++ runs 3 2 ++ runs 4 1.

Definition summary (l : list event) : option (SpinLock * list Z * list nat * list bool) :=
  s ← schedule exec (code false) l (idle ex_memory);
  Some (lock (shared s), current (shared s) <$> [1; 2], depth s <$> [1; 2],
        (fun h => match threads s h with Some _ => true | None => false end) <$> [1; 2]).

Lemma spinlock_mutual_exclusion_witness : exists s,
  rtc step (idle ex_memory) s /\ summary ex_contended = Some (mkLock 1 1 1 101, [0; 0], [1; 0]%nat, [false; true]) /\
  (forall h h', (0 < depth s h)%nat -> (0 < depth s h')%nat -> h = h') /\
  locked_by (lock (shared s)) = 1 /\ num_locks (lock (shared s)) = 1 /\ current (shared s) 1 = 0.
Proof.
  assert (Es : summary ex_contended = Some (mkLock 1 1 1 101, [0; 0], [1; 0]%nat, [false; true])) by (vm_compute; reflexivity).
  pose proof Es as Ep. unfold summary in Ep. destruct (schedule exec (code false) ex_contended (idle ex_memory)) as [s|] eqn:E; [|discriminate].
  assert (Hr : rtc step (idle ex_memory) s) by (by eapply schedule_reachable).
  cbn in Ep. injection Ep as _ _ _ Hd _ Ht _. destruct (threads s 1) eqn:Hth; [discriminate|].
  exists s. split; [exact Hr|]. split; [exact Es|].
  destruct (spinlock_mutual_exclusion ex_memory s (ex_intro _ (mkLock 7 7 7 7) eq_refl) Hr) as (H1 & H2 & _). split; [exact H1|].
  destruct (H2 1) as (_ & H3 & H4); [lia|]. destruct (H4 Hth) as [H5 H6].
  split; [exact H5|]. split; [by rewrite H6, Hd|exact H3].
Defined.

(** A hart that has the lock and tries to lock it again overwrites the task that
    the end of the critical section goes back to: there is none in the section.
    The last unlock does not go back to the task. *)
Example nested_try_loses_task :
  summary ([Call 1 LOCK] ++ runs 10 1 ++ [Call 1 UNLOCK] ++ runs 10 1) = Some (initSpinLock (mkLock 0 0 0 0), [101; 102], [0; 0]%nat, [false; false]) /\
  summary ([Call 1 LOCK] ++ runs 10 1 ++ [Call 1 TRY] ++ runs 7 1 ++ [Call 1 UNLOCK] ++ runs 4 1 ++ [Call 1 UNLOCK] ++ runs 9 1) =
    Some (initSpinLock (mkLock 0 0 0 0), [0; 102], [0; 0]%nat, [false; false]).
Proof. split; vm_compute; reflexivity. Qed.

(** After a panic the lock word is passed by: two harts hold the lock. *)
Example panic_passes_by :
  (fun s => (depth s <$> [1; 2])) <$>
    schedule exec (code true) ([Call 1 LOCK] ++ runs 8 1 ++ [Call 2 LOCK] ++ runs 8 2) (idle ex_memory) = Some [1; 1]%nat.
Proof. vm_compute. reflexivity. Qed.

End SpinLock.

(** ** Task locks *)

Module TaskLock.
Import Threads Schedule.

(** The lock word, the task that holds the lock (0 is [NULL]), the depth, and the
    waiting tasks, a list through [locks_next]. *)
Record TaskLock := mkLock { unsafelock : Z; locked_by : Z; num_locks : Z; wait_queue : Z }.

Definition initTaskLock : TaskLock := mkLock 0 0 0 0.

(** The lock, the scheduler, and the task that runs where a task's code runs: 0
    while the task is in a critical section of its hart. *)
Record memory := mkMemory { lock : TaskLock; sch : sched; current : Z -> Z }.

Inductive field := LOCKED_BY | NUM_LOCKS | WAIT_QUEUE.

(** [Sched c] is a function of the scheduler, which has a lock of its own; [Park]
    leaves the hart to the other tasks until the task is awakened. *)
Inductive access :=
| Swap (v : Z) | Read (f : field) | Write (f : field) (v : Z) | GetTask | SetTask (v : Z)
| Sched (c : M sched Z) | Park.

Definition get (f : field) (l : TaskLock) : Z :=
  match f with LOCKED_BY => locked_by l | NUM_LOCKS => num_locks l | WAIT_QUEUE => wait_queue l end.
Definition set (f : field) (v : Z) (l : TaskLock) : TaskLock :=
  match f with
  | LOCKED_BY => mkLock (unsafelock l) v (num_locks l) (wait_queue l)
  | NUM_LOCKS => mkLock (unsafelock l) (locked_by l) v (wait_queue l)
  | WAIT_QUEUE => mkLock (unsafelock l) (locked_by l) (num_locks l) v
  end.
Definition set_word (v : Z) (l : TaskLock) : TaskLock := mkLock v (locked_by l) (num_locks l) (wait_queue l).
Definition set_lock (l : TaskLock) (m : memory) : memory := mkMemory l (sch m) (current m).

Definition waits_now (t : Z) (s : sched) : bool :=
  match tasks s !! t with Some x => bool_decide (Schedule.state x = WAITING) | None => false end.

Definition exec (t : Z) (o : access) (m : memory) : option (Z * memory) :=
  match o with
  | Swap v => Some (unsafelock (lock m), set_lock (set_word v (lock m)) m)
  | Read f => Some (get f (lock m), m)
  | Write f v => Some (0, set_lock (set f v (lock m)) m)
  | GetTask => Some (current m t, m)
  | SetTask v => Some (0, mkMemory (lock m) (sch m) (upd (current m) t v))
  | Sched c => match c (sch m) with Some (v, s) => Some (v, mkMemory (lock m) s (current m)) | None => None end
  | Park => if waits_now t (sch m) then None else Some (0, mkMemory (lock m) (sch m) (upd (current m) t t))
  end.

Section Code.
Context (removeProcessTask : Z -> M sched unit).
Local Open Scope prog_scope.
Abbreviation prog := (prog access).

Definition call_sched (c : M sched unit) : prog := op (Sched (c;; mret 0)).

(** [kernel/src/util/riscv64/lock.S] *)
Definition lockUnsafeLock : prog := whilep (op (Swap 1)).
Definition unlockUnsafeLock : prog := op (Swap 0).

(** [kernel/src/task/syscall.c] *)
Definition criticalEnter : prog :=
  task ⟵ op GetTask;
  if negb (task =? 0) then op (SetTask 0) ⨟ Ret task else Ret 0.

Definition criticalReturn (to : Z) : prog :=
  task ⟵ op GetTask;
  if negb (task =? 0) then Fault
  else if negb (to =? 0) then op (SetTask to) else Ret 0.

Definition waitForTaskLock (task : Z) : prog :=
  call_sched (modify task (fun t => set_wakeup t 0 (wakeup_udata t))) ⨟
  call_sched (moveTaskToState task WAITING) ⨟
  call_sched (enqueueTask removeProcessTask task) ⨟
  next ⟵ op (Read WAIT_QUEUE);
  call_sched (modify task (fun t => set_locks_next t next)) ⨟
  op (Write WAIT_QUEUE task) ⨟
  unlockUnsafeLock ⨟
  op Park.

Definition basicLockByTask (task : Z) : prog := op (Write LOCKED_BY task).
Definition basicUnlockByTask : prog := op (Write LOCKED_BY 0).

Definition lockOrWaitTaskLock : prog :=
  task ⟵ criticalEnter;
  if task =? 0 then Fault
  else
    lockUnsafeLock ⨟
    by_ ⟵ op (Read LOCKED_BY);
    if by_ =? 0 then
      basicLockByTask task ⨟
      unlockUnsafeLock ⨟
      criticalReturn task ⨟
      Ret 1
    else
      waitForTaskLock task ⨟
      Ret 0.

Definition lockTaskLock : prog :=
  task ⟵ op GetTask;
  if task =? 0 then Fault
  else
    by_ ⟵ op (Read LOCKED_BY);
    (if negb (by_ =? task) then
       whilep (locked ⟵ lockOrWaitTaskLock; Ret (if locked =? 0 then 1 else 0))
     else Ret 0) ⨟
    n ⟵ op (Read NUM_LOCKS);
    op (Write NUM_LOCKS (u64 (n + 1))).

Definition tryLockingTaskLock : prog :=
  task ⟵ op GetTask;
  if task =? 0 then Fault
  else
    by_ ⟵ op (Read LOCKED_BY);
    result ⟵ (if negb (by_ =? task) then
                 task ⟵ criticalEnter;
                 lockUnsafeLock ⨟
                 by_ ⟵ op (Read LOCKED_BY);
                 result ⟵ (if by_ =? 0 then basicLockByTask task ⨟ Ret 1 else Ret 0);
                 unlockUnsafeLock ⨟
                 criticalReturn task ⨟
                 Ret result
               else Ret 1);
    (if negb (result =? 0) then
       n ⟵ op (Read NUM_LOCKS);
       op (Write NUM_LOCKS (u64 (n + 1)))
     else Ret 0) ⨟
    Ret result.

(** [while (lock->wait_queue != NULL)] *)
Definition wakeup_loop : prog :=
  whilep (
    waiting ⟵ op (Read WAIT_QUEUE);
    if waiting =? 0 then Ret 0
    else
      wakeup ⟵ op (Read WAIT_QUEUE);
      next ⟵ op (Sched (t ← get_task wakeup; mret (locks_next t)));
      op (Write WAIT_QUEUE next) ⨟
      call_sched (awakenTask wakeup) ⨟
      call_sched (enqueueTask removeProcessTask wakeup) ⨟
      Ret 1).

Definition unlockTaskLock : prog :=
  task ⟵ op GetTask;
  if task =? 0 then Fault
  else
    task ⟵ op GetTask;
    by_ ⟵ op (Read LOCKED_BY);
    if negb (task =? by_) then Fault
    else
      n ⟵ op (Read NUM_LOCKS);
      op (Write NUM_LOCKS (u64 (n - 1))) ⨟
      n ⟵ op (Read NUM_LOCKS);
      if n =? 0 then
        task ⟵ criticalEnter;
        lockUnsafeLock ⨟
        basicUnlockByTask ⨟
        wakeup_loop ⨟
        unlockUnsafeLock ⨟
        criticalReturn task
      else Ret 0.

Definition code (_ : Z) (c : call) : prog :=
  match c with LOCK => lockTaskLock | TRY => tryLockingTaskLock | UNLOCK => unlockTaskLock end.

End Code.

(** The scheduler does anything that is not an operation on this lock. *)
Definition scheduling (_ : Z) (m m' : memory) : Prop := exists s, m' = mkMemory (lock m) s (current m).

(** *** The protocol *)

(** [inside]: the task has the lock word, and [locked_by] and [wait_queue] are
    this.  [owns]: the lock is the task's, and its depth is this. *)
Record knowledge := mkKnow { inside : option (Z * Z); owns : option Z; task : Z }.

Definition rule (t : Z) (o : access) (k : knowledge) (Q : Z -> knowledge -> Prop) : Prop :=
  match o with
  | Swap v =>
      match inside k with
      | None => v = 1 /\ Q 1 k /\
          match owns k with
          | Some _ => forall q, Q 0 (mkKnow (Some (t, q)) (owns k) (task k))
          | None => forall b q, b <> t -> (b = 0 -> q = 0) -> Q 0 (mkKnow (Some (b, q)) None (task k))
          end
      | Some (b, q) => v = 0 /\ (b = 0 -> q = 0) /\ Q 1 (mkKnow None (owns k) (task k))
      end
  | Read LOCKED_BY =>
      match inside k, owns k with
      | Some (b, _), _ => Q b k
      | None, Some _ => Q t k
      | None, None => forall b, b <> t -> Q b k
      end
  | Read NUM_LOCKS => match owns k with Some n => Q n k | None => False end
  | Read WAIT_QUEUE => match inside k with Some (_, q) => Q q k | None => False end
  | Write LOCKED_BY v =>
      match inside k, owns k with
      | Some (b, q), None => b = 0 /\ v = t /\ Q 0 (mkKnow (Some (t, q)) (Some 0) (task k))
      | Some (_, q), Some n => v = 0 /\ n = 0 /\ Q 0 (mkKnow (Some (0, q)) None (task k))
      | None, _ => False
      end
  | Write NUM_LOCKS v => match owns k with Some _ => Q 0 (mkKnow (inside k) (Some v) (task k)) | None => False end
  | Write WAIT_QUEUE v => match inside k with Some (b, _) => Q 0 (mkKnow (Some (b, v)) (owns k) (task k)) | None => False end
  | GetTask => Q (task k) k
  | SetTask v => Q 0 (mkKnow (inside k) (owns k) v)
  | Sched _ => forall v, Q v k
  | Park => Q 0 (mkKnow (inside k) (owns k) t)
  end.

Record agrees (m : memory) (κ : Z -> knowledge) : Prop := {
  a_task : forall t, t <> 0 -> task (κ t) = current m t;
  a_word : (unsafelock (lock m) = 0 /\ (locked_by (lock m) = 0 -> wait_queue (lock m) = 0) /\ forall t, t <> 0 -> inside (κ t) = None) \/
    exists t, t <> 0 /\ unsafelock (lock m) = 1 /\ inside (κ t) = Some (locked_by (lock m), wait_queue (lock m)) /\
      forall u, u <> 0 -> u <> t -> inside (κ u) = None;
  a_owner : (locked_by (lock m) = 0 /\ num_locks (lock m) = 0 /\ forall t, t <> 0 -> owns (κ t) = None) \/
    exists t, t <> 0 /\ locked_by (lock m) = t /\ owns (κ t) = Some (num_locks (lock m)) /\
      forall u, u <> 0 -> u <> t -> owns (κ u) = None;
}.

Definition rest (t : Z) (n : nat) (k : knowledge) : Prop :=
  k = mkKnow None (if decide (n = 0%nat) then None else Some (Z.of_nat n)) t /\ Z.of_nat n < 2 ^ 64.
Definition during (t : Z) (n : nat) (k : knowledge) : Prop := (0 < n)%nat -> exists d, owns k = Some d.

(** The tasks that use the lock are not in a critical section. *)
Definition start (m : memory) : Prop := lock m = initTaskLock /\ forall t, t <> 0 -> current m t = t.

(** A task that changes what it alone knows: the task that its hart runs. *)
Lemma task_agrees_own m κ t k' m' :
  agrees m κ -> t <> 0 -> (forall u, u <> t -> current m' u = current m u) -> task k' = current m' t ->
  inside k' = inside (κ t) -> owns k' = owns (κ t) -> lock m' = lock m -> agrees m' (upd κ t k').
Proof.
  intros [Ht Hw Ho] Hn Hc Ek Ei Eo El.
  assert (E1 : forall u, inside (upd κ t k' u) = inside (κ u)) by (intros u; unfold upd; by destruct (decide (u = t)) as [->|]).
  assert (E2 : forall u, owns (upd κ t k' u) = owns (κ u)) by (intros u; unfold upd; by destruct (decide (u = t)) as [->|]).
  split.
  - intros u Hu. destruct (decide (u = t)) as [->|Hne]; [by rewrite upd_same|]. rewrite upd_other, Hc by done. by apply Ht.
  - rewrite El. destruct Hw as [(Ew & Eq & Hn')|(u & H1 & H2 & H3 & H4)]; [left|right; exists u]; setoid_rewrite E1; done.
  - rewrite El. destruct Ho as [(E3 & E4 & Hn')|(u & H1 & H2 & H3 & H4)]; [left|right; exists u]; setoid_rewrite E2; done.
Qed.

(** What the memory is to a task that has the lock word, or the lock. *)
Lemma agrees_inside m κ t b q : agrees m κ -> t <> 0 -> inside (κ t) = Some (b, q) ->
  b = locked_by (lock m) /\ q = wait_queue (lock m) /\ unsafelock (lock m) = 1 /\ forall u, u <> 0 -> u <> t -> inside (κ u) = None.
Proof.
  intros [_ Hw _] Ht E. destruct Hw as [(_ & _ & Hn)|(u & H1 & H2 & H3 & H4)]; [by rewrite Hn in E|].
  destruct (decide (u = t)) as [->|Hne]; [|by rewrite H4 in E by (done || by apply not_eq_sym)].
  rewrite H3 in E. by injection E as <- <-.
Qed.

Lemma agrees_owns m κ t n : agrees m κ -> t <> 0 -> owns (κ t) = Some n ->
  locked_by (lock m) = t /\ num_locks (lock m) = n /\ forall u, u <> 0 -> u <> t -> owns (κ u) = None.
Proof.
  intros [_ _ Ho] Ht E. destruct Ho as [(_ & _ & Hn)|(u & H1 & H2 & H3 & H4)]; [by rewrite Hn in E|].
  destruct (decide (u = t)) as [->|Hne]; [|by rewrite H4 in E by (done || by apply not_eq_sym)].
  rewrite H3 in E. by injection E as <-.
Qed.

Lemma agrees_not_owner m κ t : agrees m κ -> t <> 0 -> owns (κ t) = None -> locked_by (lock m) <> t.
Proof.
  intros [_ _ Ho] Ht E. destruct Ho as [(Eb & _)|(u & H1 & H2 & H3 & H4)]; [congruence|].
  destruct (decide (u = t)) as [->|Hne]; congruence.
Qed.

(** The changes of the memory: the word, the depth, the owner, the list. *)
Lemma agrees_with m κ t l' k' :
  agrees m κ -> t <> 0 -> task k' = task (κ t) ->
  ((unsafelock l' = 0 /\ (locked_by l' = 0 -> wait_queue l' = 0) /\ inside k' = None /\ forall u, u <> 0 -> u <> t -> inside (κ u) = None) \/
   (unsafelock l' = 1 /\ inside k' = Some (locked_by l', wait_queue l') /\ forall u, u <> 0 -> u <> t -> inside (κ u) = None) \/
   (unsafelock l' = unsafelock (lock m) /\ locked_by l' = locked_by (lock m) /\ wait_queue l' = wait_queue (lock m) /\ inside k' = inside (κ t))) ->
  ((locked_by l' = 0 /\ num_locks l' = 0 /\ owns k' = None /\ forall u, u <> 0 -> u <> t -> owns (κ u) = None) \/
   (locked_by l' = t /\ owns k' = Some (num_locks l') /\ forall u, u <> 0 -> u <> t -> owns (κ u) = None) \/
   (locked_by l' = locked_by (lock m) /\ num_locks l' = num_locks (lock m) /\ owns k' = owns (κ t))) ->
  agrees (set_lock l' m) (upd κ t k').
Proof.
  intros [Ht Hw Ho] Hn Ek Hi' Ho'.
  assert (Eo : forall u, u <> t -> upd κ t k' u = κ u) by (intros; by apply upd_other). split; cbn [set_lock lock current].
  - intros u Hu. destruct (decide (u = t)) as [->|Hne]; [rewrite upd_same, Ek|rewrite Eo by done]; by apply Ht.
  - destruct Hi' as [(E1 & E0 & E2 & E3)|[(E1 & E2 & E3)|(E1 & E2 & E0 & E3)]].
    + left. split; [done|]. split; [done|]. intros u Hu. destruct (decide (u = t)) as [->|Hne]; [by rewrite upd_same|]. rewrite Eo by done. by apply E3.
    + right. exists t. rewrite upd_same. split_and!; try done. intros u Hu Hne. rewrite Eo by done. by apply E3.
    + rewrite E1, E2, E0. assert (Ex : forall u, inside (upd κ t k' u) = inside (κ u)).
      { intros u. unfold upd. by destruct (decide (u = t)) as [->|]. }
      setoid_rewrite Ex. exact Hw.
  - destruct Ho' as [(E1 & E2 & E3 & E4)|[(E1 & E2 & E3)|(E1 & E2 & E3)]].
    + left. split_and!; [done..|]. intros u Hu. destruct (decide (u = t)) as [->|Hne]; [by rewrite upd_same|]. rewrite Eo by done. by apply E4.
    + right. exists t. rewrite upd_same. split_and!; try done. intros u Hu Hne. rewrite Eo by done. by apply E3.
    + rewrite E1, E2. assert (Ex : forall u, owns (upd κ t k' u) = owns (κ u)).
      { intros u. unfold upd. by destruct (decide (u = t)) as [->|]. }
      setoid_rewrite Ex. exact Ho.
Qed.

(** The access keeps the rest of the memory; [Hupd] and [Hsame] below are the two
    ways to answer it. *)
Lemma sound_upd m' κ t v k (Q : Z -> knowledge -> Prop) :
  Q v k -> agrees m' (upd κ t k) -> exists κ', Q v (κ' t) /\ agrees m' κ' /\ forall u, u <> t -> κ' u = κ u.
Proof. intros HQ Hk. exists (upd κ t k). rewrite upd_same. split_and!; try done. intros u Hu. by rewrite upd_other. Qed.

Lemma sound_same m κ t v (Q : Z -> knowledge -> Prop) :
  Q v (κ t) -> agrees m κ -> exists κ', Q v (κ' t) /\ agrees m κ' /\ forall u, u <> t -> κ' u = κ u.
Proof. intros HQ Ha. by exists κ. Qed.

Lemma swap_sound m κ t v Q : t <> 0 -> agrees m κ -> rule t (Swap v) (κ t) Q ->
  exists κ', Q (unsafelock (lock m)) (κ' t) /\ agrees (set_lock (set_word v (lock m)) m) κ' /\ forall u, u <> t -> κ' u = κ u.
Proof.
  intros Ht Ha H. cbn [rule] in H. destruct (inside (κ t)) as [[b q]|] eqn:Ei.
  - destruct H as (-> & Hq & HQ). destruct (agrees_inside m κ t b q Ha Ht Ei) as (-> & -> & -> & Hn).
    apply (sound_upd _ κ t _ _ Q HQ). apply agrees_with; try done; [by left|by right; right].
  - destruct H as (-> & HQ1 & HQ0). destruct (a_word m κ Ha) as [(Ew & Eq & Hn)|(u & H1 & Ew & H3 & H4)]; rewrite Ew.
    + assert (HQ : Q 0 (mkKnow (Some (locked_by (lock m), wait_queue (lock m))) (owns (κ t)) (task (κ t)))).
      { destruct (owns (κ t)) as [n|] eqn:Eo.
        - destruct (agrees_owns m κ t n Ha Ht Eo) as (-> & _). apply HQ0.
        - apply HQ0; [by apply (agrees_not_owner m κ)|done]. }
      apply (sound_upd _ κ t _ _ Q HQ). apply agrees_with; try done; [right; left|by right; right].
      split_and!; try done. intros u Hu _. by apply Hn.
    + apply sound_same; [done|]. unfold set_lock, set_word. destruct m as [[w b n q] s c]. cbn in *. by rewrite <- Ew.
Qed.

Lemma write_sound m κ t f v Q : t <> 0 -> agrees m κ -> rule t (Write f v) (κ t) Q ->
  exists κ', Q 0 (κ' t) /\ agrees (set_lock (set f v (lock m)) m) κ' /\ forall u, u <> t -> κ' u = κ u.
Proof.
  intros Ht Ha H. destruct f; cbn [rule set] in *.
  - destruct (inside (κ t)) as [[b q]|] eqn:Ei; [|done]. destruct (agrees_inside m κ t b q Ha Ht Ei) as (-> & -> & Hw & Hn).
    destruct (owns (κ t)) as [n|] eqn:Eo.
    + destruct H as (-> & -> & HQ). destruct (agrees_owns m κ t 0 Ha Ht Eo) as (_ & En & Hx).
      apply (sound_upd _ κ t _ _ Q HQ). apply agrees_with; try done; [by right; left|by left].
    + destruct H as (Eb & -> & HQ). assert (Hx : num_locks (lock m) = 0 /\ forall u, u <> 0 -> owns (κ u) = None).
      { destruct (a_owner m κ Ha) as [(_ & En & Hx)|(u & Hu & E1 & _)]; [done|congruence]. }
      destruct Hx as [En Hx]. apply (sound_upd _ κ t _ _ Q HQ). apply agrees_with; try done; [by right; left|].
      right; left. cbn [locked_by num_locks owns]. rewrite En. split_and!; try done. intros u Hu _. by apply Hx.
  - destruct (owns (κ t)) as [n|] eqn:Eo; [|done]. destruct (agrees_owns m κ t n Ha Ht Eo) as (Eb & En & Hx).
    apply (sound_upd _ κ t _ _ Q H). apply agrees_with; try done; [by right; right|]. right; left. by split_and!.
  - destruct (inside (κ t)) as [[b q]|] eqn:Ei; [|done]. destruct (agrees_inside m κ t b q Ha Ht Ei) as (-> & -> & Hw & Hn).
    apply (sound_upd _ κ t _ _ Q H). apply agrees_with; try done; [by right; left|by right; right].
Qed.

Lemma task_rule_sound m κ t o v m' Q : t <> 0 -> agrees m κ -> exec t o m = Some (v, m') -> rule t o (κ t) Q ->
  exists κ', Q v (κ' t) /\ agrees m' κ' /\ forall u, u <> t -> κ' u = κ u.
Proof.
  intros Ht Ha E H. destruct o as [w|f|f w| |w|c|]; cbn [exec] in E.
  - injection E as <- <-. by apply (swap_sound m κ t w Q).
  - injection E as <- <-. apply sound_same; [|done]. destruct f; cbn [rule get] in *.
    + destruct (inside (κ t)) as [[b q]|] eqn:Ei; [by destruct (agrees_inside m κ t b q Ha Ht Ei) as (<- & _)|].
      destruct (owns (κ t)) as [n|] eqn:Eo; [by destruct (agrees_owns m κ t n Ha Ht Eo) as (-> & _)|].
      apply H. by apply (agrees_not_owner m κ).
    + destruct (owns (κ t)) as [n|] eqn:Eo; [|done]. by destruct (agrees_owns m κ t n Ha Ht Eo) as (_ & -> & _).
    + destruct (inside (κ t)) as [[b q]|] eqn:Ei; [|done]. by destruct (agrees_inside m κ t b q Ha Ht Ei) as (_ & <- & _).
  - injection E as <- <-. by apply (write_sound m κ t f w Q).
  - injection E as <- <-. cbn [rule] in H. rewrite (a_task m κ Ha t Ht) in H. by apply sound_same.
  - injection E as <- <-. apply (sound_upd _ κ t _ _ Q H). apply (task_agrees_own m κ t); try done; cbn [current]; [intros; by apply upd_other|by rewrite upd_same].
  - destruct (c (sch m)) as [[a s]|]; [|done]. injection E as <- <-. apply sound_same; [by apply H|]. destruct Ha as [H1 H2 H3]. by split.
  - destruct (waits_now t (sch m)); [done|]. injection E as <- <-.
    apply (sound_upd _ κ t _ _ Q H). apply (task_agrees_own m κ t); try done; cbn [current]; [intros; by apply upd_other|by rewrite upd_same].
Qed.

Lemma task_rule_mono t o k (Q Q' : Z -> knowledge -> Prop) : (forall v k, Q v k -> Q' v k) -> rule t o k Q -> rule t o k Q'.
Proof.
  intros HQ. unfold rule. destruct o as [w|[]|[] w| |w|c|]; destruct (inside k) as [[b q]|], (owns k) as [n|]; naive_solver.
Qed.

Abbreviation wp := (wp rule).

Lemma task_wp_bind t P p f k Q : wp t P p k (fun a k => wp t P (f a) k Q) -> wp t P (bindp p f) k Q.
Proof. apply wp_bind_with, task_rule_mono. Qed.

Lemma task_wp_op t (P : knowledge -> Prop) o k Q : P k -> rule t o k (fun v k => P k /\ Q v k) -> wp t P (op o) k Q.
Proof. done. Qed.

Lemma task_wp_ret t (P : knowledge -> Prop) a k (Q : Z -> knowledge -> Prop) : P k -> Q a k -> wp t P (Ret a) k Q.
Proof. done. Qed.

Lemma during_free t k : during t 0 k.
Proof. intros H. lia. Qed.

Lemma during_owns t n i d c : during t n (mkKnow i (Some d) c).
Proof. intros _. by exists d. Qed.

Hint Resolve during_free during_owns : core.

(** Every function keeps to a [P] that its steps do not touch. *)
Section Functions.
Context (removeProcessTask : Z -> M sched unit) (t : Z) (P : knowledge -> Prop).
Hypothesis (Ht : t <> 0).

Lemma wp_getTask i o c (Q : Z -> knowledge -> Prop) :
  P (mkKnow i o c) -> Q c (mkKnow i o c) -> wp t P (op GetTask) (mkKnow i o c) Q.
Proof. by split. Qed.

Lemma task_criticalEnter i o (Q : Z -> knowledge -> Prop) :
  P (mkKnow i o t) -> P (mkKnow i o 0) -> Q t (mkKnow i o 0) -> wp t P criticalEnter (mkKnow i o t) Q.
Proof.
  intros H1 H2 HQ. unfold criticalEnter. apply task_wp_bind, wp_getTask; [done|]. rewrite (proj2 (Z.eqb_neq t 0)) by done.
  by split_and!.
Qed.

Lemma task_criticalReturn i o (Q : Z -> knowledge -> Prop) :
  P (mkKnow i o 0) -> P (mkKnow i o t) -> Q 0 (mkKnow i o t) -> wp t P (criticalReturn t) (mkKnow i o 0) Q.
Proof.
  intros H1 H2 HQ. unfold criticalReturn. apply task_wp_bind, wp_getTask; [done|]. cbn [Z.eqb negb].
  rewrite (proj2 (Z.eqb_neq t 0)) by done. by apply task_wp_op.
Qed.

(** The lock word, for a task that does not hold the lock and for one that does. *)
Lemma task_lockUnsafeLock c (Q : Z -> knowledge -> Prop) :
  P (mkKnow None None c) -> (forall b q, b <> t -> (b = 0 -> q = 0) -> P (mkKnow (Some (b, q)) None c) /\ Q 0 (mkKnow (Some (b, q)) None c)) ->
  wp t P lockUnsafeLock (mkKnow None None c) Q.
Proof.
  intros H1 HQ. exists (fun k => k = mkKnow None None c).
  assert (Hb : wp t P (op (Swap 1)) (mkKnow None None c) (fun a k => if a =? 0 then wp t P (Ret 0) k Q else k = mkKnow None None c)).
  { apply task_wp_op; [done|]. split_and!; try done; cbn [Z.eqb owns]; intros b q Hb Hq; by destruct (HQ b q Hb Hq). }
  split; [done|]. by intros k' ->.
Qed.

Lemma owner_lockUnsafeLock d c (Q : Z -> knowledge -> Prop) :
  P (mkKnow None (Some d) c) -> (forall q, P (mkKnow (Some (t, q)) (Some d) c) /\ Q 0 (mkKnow (Some (t, q)) (Some d) c)) ->
  wp t P lockUnsafeLock (mkKnow None (Some d) c) Q.
Proof.
  intros H1 HQ. exists (fun k => k = mkKnow None (Some d) c).
  assert (Hb : wp t P (op (Swap 1)) (mkKnow None (Some d) c) (fun a k => if a =? 0 then wp t P (Ret 0) k Q else k = mkKnow None (Some d) c)).
  { apply task_wp_op; [done|]. split_and!; try done; intros q; cbn [Z.eqb]; by destruct (HQ q). }
  split; [done|]. by intros k' ->.
Qed.

Lemma wp_unlockUnsafeLock b q o c (Q : Z -> knowledge -> Prop) : (b = 0 -> q = 0) ->
  P (mkKnow (Some (b, q)) o c) -> P (mkKnow None o c) -> Q 1 (mkKnow None o c) -> wp t P unlockUnsafeLock (mkKnow (Some (b, q)) o c) Q.
Proof. intros Hq H1 H2 HQ. apply task_wp_op; [done|]. by split_and!. Qed.

(** What does not change what the task knows. *)
Lemma wp_call k c (Q : Z -> knowledge -> Prop) : P k -> (forall a, Q a k) -> wp t P (call_sched c) k Q.
Proof. intros H HQ. apply task_wp_op; [done|]. intros v. by split. Qed.

Lemma wp_read_queue b q o c (Q : Z -> knowledge -> Prop) :
  P (mkKnow (Some (b, q)) o c) -> Q q (mkKnow (Some (b, q)) o c) -> wp t P (op (Read WAIT_QUEUE)) (mkKnow (Some (b, q)) o c) Q.
Proof. by split. Qed.

Lemma wp_write_queue b q v o c (Q : Z -> knowledge -> Prop) :
  P (mkKnow (Some (b, q)) o c) -> P (mkKnow (Some (b, v)) o c) -> Q 0 (mkKnow (Some (b, v)) o c) ->
  wp t P (op (Write WAIT_QUEUE v)) (mkKnow (Some (b, q)) o c) Q.
Proof. intros H1 H2 HQ. by apply task_wp_op. Qed.

(** The owner, as the task that has the word reads and writes it. *)
Lemma wp_read_owner b q o c (Q : Z -> knowledge -> Prop) :
  P (mkKnow (Some (b, q)) o c) -> Q b (mkKnow (Some (b, q)) o c) -> wp t P (op (Read LOCKED_BY)) (mkKnow (Some (b, q)) o c) Q.
Proof. by split. Qed.

Lemma wp_basicLockByTask q c (Q : Z -> knowledge -> Prop) :
  P (mkKnow (Some (0, q)) None c) -> P (mkKnow (Some (t, q)) (Some 0) c) -> Q 0 (mkKnow (Some (t, q)) (Some 0) c) ->
  wp t P (basicLockByTask t) (mkKnow (Some (0, q)) None c) Q.
Proof. intros H1 H2 HQ. by apply task_wp_op. Qed.

Lemma wp_basicUnlockByTask q c (Q : Z -> knowledge -> Prop) :
  P (mkKnow (Some (t, q)) (Some 0) c) -> P (mkKnow (Some (0, q)) None c) -> Q 0 (mkKnow (Some (0, q)) None c) ->
  wp t P basicUnlockByTask (mkKnow (Some (t, q)) (Some 0) c) Q.
Proof. intros H1 H2 HQ. by apply task_wp_op. Qed.

(** [locked_by] outside of the word: another task, or the task that holds it. *)
Lemma wp_peek c (Q : Z -> knowledge -> Prop) :
  P (mkKnow None None c) -> (forall b, b <> t -> Q b (mkKnow None None c)) -> wp t P (op (Read LOCKED_BY)) (mkKnow None None c) Q.
Proof. intros H HQ. apply task_wp_op; [done|]. intros b Hb. split; [done|by apply HQ]. Qed.

Lemma wp_peek_mine d c (Q : Z -> knowledge -> Prop) :
  P (mkKnow None (Some d) c) -> Q t (mkKnow None (Some d) c) -> wp t P (op (Read LOCKED_BY)) (mkKnow None (Some d) c) Q.
Proof. by split. Qed.

(** The depth, for the task that holds the lock. *)
Lemma wp_set_count d c f (Q : Z -> knowledge -> Prop) :
  P (mkKnow None (Some d) c) -> P (mkKnow None (Some (f d)) c) -> Q 0 (mkKnow None (Some (f d)) c) ->
  wp t P (bindp (op (Read NUM_LOCKS)) (fun n => op (Write NUM_LOCKS (f n)))) (mkKnow None (Some d) c) Q.
Proof. intros H1 H2 HQ. by split_and!. Qed.

(** A task that finds the lock held puts itself into the list and sleeps; when it
    goes on it has neither the word nor the lock. *)
Lemma wp_waitForTaskLock b q (Q : Z -> knowledge -> Prop) : b <> 0 ->
  (forall i c, P (mkKnow i None c)) -> Q 0 (mkKnow None None t) ->
  wp t P (waitForTaskLock removeProcessTask t) (mkKnow (Some (b, q)) None 0) Q.
Proof.
  intros Hb HP HQ. unfold waitForTaskLock. apply task_wp_bind, wp_call; [done|]. intros _.
  apply task_wp_bind, wp_call; [done|]. intros _. apply task_wp_bind, wp_call; [done|]. intros _.
  apply task_wp_bind, wp_read_queue; [done|]. apply task_wp_bind, wp_call; [done|]. intros _.
  apply task_wp_bind, wp_write_queue; [done..|]. apply task_wp_bind, wp_unlockUnsafeLock; [done..|]. apply task_wp_op; [done|].
  by split.
Qed.

Lemma wp_lockOrWaitTaskLock (Q : Z -> knowledge -> Prop) :
  (forall i o c, P (mkKnow i o c)) -> Q 1 (mkKnow None (Some 0) t) -> Q 0 (mkKnow None None t) ->
  wp t P (lockOrWaitTaskLock removeProcessTask) (mkKnow None None t) Q.
Proof.
  intros HP H1 H0. unfold lockOrWaitTaskLock. apply task_wp_bind, task_criticalEnter; [done..|].
  rewrite (proj2 (Z.eqb_neq t 0)) by done. apply task_wp_bind, task_lockUnsafeLock; [done|]. intros b q Hb Hq. split; [done|].
  apply task_wp_bind, wp_read_owner; [done|]. destruct (Z.eqb_spec b 0) as [->|Hne].
  - apply task_wp_bind, wp_basicLockByTask; [done..|]. apply task_wp_bind, wp_unlockUnsafeLock; [done..|].
    apply task_wp_bind, task_criticalReturn; [done..|]. by apply task_wp_ret.
  - apply task_wp_bind, wp_waitForTaskLock; [done..|]. by apply task_wp_ret.
Qed.

(** The owner wakes every waiting task. *)
Lemma wp_wakeup_loop b q o c (Q : Z -> knowledge -> Prop) :
  (forall q, P (mkKnow (Some (b, q)) o c)) -> Q 0 (mkKnow (Some (b, 0)) o c) ->
  wp t P (wakeup_loop removeProcessTask) (mkKnow (Some (b, q)) o c) Q.
Proof.
  intros HP HQ. set (I := fun k => exists q, k = mkKnow (Some (b, q)) o c). exists I.
  set (ends := fun a k' => if a =? 0 then wp t P (Ret 0) k' Q else I k').
  assert (Hb : forall q, wp t P (
    waiting ⟵ op (Read WAIT_QUEUE);
    if waiting =? 0 then Ret 0
    else
      wakeup ⟵ op (Read WAIT_QUEUE);
      next ⟵ op (Sched (t ← get_task wakeup; mret (locks_next t)));
      op (Write WAIT_QUEUE next) ⨟
      call_sched (awakenTask wakeup) ⨟
      call_sched (enqueueTask removeProcessTask wakeup) ⨟
      Ret 1)%prog (mkKnow (Some (b, q)) o c) ends).
  { intros q'. apply task_wp_bind, wp_read_queue; [done|]. destruct (Z.eqb_spec q' 0) as [->|Hq]; [by apply task_wp_ret|].
    apply task_wp_bind, wp_read_queue; [done|]. apply task_wp_bind, task_wp_op; [done|]. intros n. split; [done|].
    apply task_wp_bind, wp_write_queue; [done..|]. apply task_wp_bind, wp_call; [done|]. intros _.
    apply task_wp_bind, wp_call; [done|]. intros _. apply task_wp_ret; [done|by eexists]. }
  split; [apply Hb|]. intros k' [q' ->]. apply Hb.
Qed.

End Functions.

(** *** The operations *)

Lemma rest_free t k : rest t 0 k -> k = mkKnow None None t.
Proof. by intros [-> _]. Qed.

Lemma rest_owns t n k : rest t (S n) k -> k = mkKnow None (Some (Z.of_nat (S n))) t /\ Z.of_nat (S n) < 2 ^ 64.
Proof. by intros [-> H]. Qed.

Lemma owns_rest t n d : d = Z.of_nat (S n) -> Z.of_nat n < 2 ^ 64 - 1 -> rest t (S n) (mkKnow None (Some d) t).
Proof. intros -> H. split; [done|lia]. Qed.

(** One level more. *)
Lemma count_up t n d : d = Z.of_nat n -> Z.of_nat n < 2 ^ 64 - 1 ->
  wp t (during t n) (bindp (op (Read NUM_LOCKS)) (fun n => op (Write NUM_LOCKS (u64 (n + 1))))) (mkKnow None (Some d) t)
    (fun _ => rest t (S n)).
Proof. intros -> H. apply wp_set_count; [auto..|]. rewrite (wrap_small 64) by lia. apply owns_rest; lia. Qed.

Lemma lockTaskLock_ok removeProcessTask t n k : t <> 0 -> Z.of_nat n < 2 ^ 64 - 1 -> rest t n k ->
  wp t (during t n) (lockTaskLock removeProcessTask) k (fun _ => rest t (S n)).
Proof.
  intros Ht Hn Hr. unfold lockTaskLock. destruct n as [|n].
  - apply rest_free in Hr as ->. apply task_wp_bind, wp_getTask; [auto|]. rewrite (proj2 (Z.eqb_neq t 0)) by done.
    apply task_wp_bind, wp_peek; [auto|]. intros b Hb. rewrite (proj2 (Z.eqb_neq b t)) by done. cbn [negb].
    apply task_wp_bind. exists (fun k => k = mkKnow None None t).
    set (ends := fun a k' => if a =? 0 then wp t (during t 0) (Ret 0) k' _ else k' = mkKnow None None t).
    assert (Hbody : wp t (during t 0) (locked ⟵ lockOrWaitTaskLock removeProcessTask; Ret (if locked =? 0 then 1 else 0))%prog
      (mkKnow None None t) ends).
    { apply task_wp_bind, wp_lockOrWaitTaskLock; [done|auto| |]; (apply task_wp_ret; [auto|]); cbn [ends Z.eqb]; [|done].
      split; [auto|]. by apply count_up. }
    split; [exact Hbody|]. by intros k' ->.
  - apply rest_owns in Hr as [-> Hb]. apply task_wp_bind, wp_getTask; [auto|]. rewrite (proj2 (Z.eqb_neq t 0)) by done.
    apply task_wp_bind, wp_peek_mine; [auto|]. rewrite Z.eqb_refl. cbn [negb]. apply task_wp_bind, task_wp_ret; [auto|]. by apply count_up.
Qed.

Lemma tryLockingTaskLock_ok t n k : t <> 0 -> Z.of_nat n < 2 ^ 64 - 1 -> rest t n k ->
  wp t (during t n) tryLockingTaskLock k (fun a => rest t (if a =? 0 then n else S n)).
Proof.
  intros Ht Hn Hr. unfold tryLockingTaskLock. destruct n as [|n].
  - apply rest_free in Hr as ->. apply task_wp_bind, wp_getTask; [auto|]. rewrite (proj2 (Z.eqb_neq t 0)) by done.
    apply task_wp_bind, wp_peek; [auto|]. intros b Hb. rewrite (proj2 (Z.eqb_neq b t)) by done. cbn [negb].
    apply task_wp_bind, task_wp_bind, task_criticalEnter; [done|auto..|].
    apply task_wp_bind, task_lockUnsafeLock; [auto|]. intros b' q Hb' Hq. split; [auto|].
    apply task_wp_bind, wp_read_owner; [auto|]. apply task_wp_bind. destruct (Z.eqb_spec b' 0) as [->|Hne].
    + apply task_wp_bind, wp_basicLockByTask; [auto..|]. apply task_wp_ret; [auto|].
      apply task_wp_bind, wp_unlockUnsafeLock; [auto..|]. apply task_wp_bind, task_criticalReturn; [done|auto..|].
      apply task_wp_ret; [auto|]. cbn [negb Z.eqb]. apply task_wp_bind. apply wp_set_count; [auto..|]. apply task_wp_ret; [auto|].
      cbn [Z.eqb]. by apply owns_rest.
    + apply task_wp_ret; [auto|]. apply task_wp_bind, wp_unlockUnsafeLock; [auto..|].
      apply task_wp_bind, task_criticalReturn; [done|auto..|]. apply task_wp_ret; [auto|]. cbn [negb Z.eqb].
      apply task_wp_bind, task_wp_ret; [auto|]. by apply task_wp_ret.
  - apply rest_owns in Hr as [-> Hb]. apply task_wp_bind, wp_getTask; [auto|]. rewrite (proj2 (Z.eqb_neq t 0)) by done.
    apply task_wp_bind, wp_peek_mine; [auto|]. rewrite Z.eqb_refl. cbn [negb]. apply task_wp_bind, task_wp_ret; [auto|]. cbn [negb Z.eqb].
    apply task_wp_bind. apply wp_set_count; [auto..|]. apply task_wp_ret; [auto|]. cbn [Z.eqb]. rewrite (wrap_small 64) by lia.
    apply owns_rest; lia.
Qed.

Lemma unlockTaskLock_ok removeProcessTask t n k : t <> 0 -> rest t (S n) k ->
  wp t (during t n) (unlockTaskLock removeProcessTask) k (fun _ => rest t n).
Proof.
  intros Ht Hr. apply rest_owns in Hr as [-> Hb]. unfold unlockTaskLock.
  apply task_wp_bind, wp_getTask; [auto|]. rewrite (proj2 (Z.eqb_neq t 0)) by done. apply task_wp_bind, wp_getTask; [auto|].
  apply task_wp_bind, wp_peek_mine; [auto|]. rewrite Z.eqb_refl. cbn [negb].
  apply task_wp_bind, task_wp_op; [auto|]. split; [auto|]. apply task_wp_bind, task_wp_op; [auto|]. cbn [rule inside owns task].
  rewrite (wrap_small 64) by lia. replace (Z.of_nat (S n) - 1) with (Z.of_nat n) by lia. split; [auto|].
  apply task_wp_bind, task_wp_op; [auto|]. cbn [rule owns]. split; [auto|]. destruct (Z.eqb_spec (Z.of_nat n) 0) as [E|E].
  - assert (n = 0%nat) as -> by lia. cbn [Z.of_nat]. apply task_wp_bind, task_criticalEnter; [done|auto..|].
    apply task_wp_bind, owner_lockUnsafeLock; [auto|]. intros q. split; [auto|]. apply task_wp_bind, wp_basicUnlockByTask; [auto..|].
    apply task_wp_bind, wp_wakeup_loop; [auto..|]. apply task_wp_bind, wp_unlockUnsafeLock; [auto..|].
    apply task_criticalReturn; [done|auto..|]. by split.
  - apply task_wp_ret; [auto|]. destruct n as [|n]; [lia|]. apply owns_rest; lia.
Qed.

#[export] Instance task_protocol removeProcessTask : Protocol exec (code removeProcessTask) scheduling rule agrees rest during start.
Proof.
  split.
  - intros t o k Q Q'. apply task_rule_mono.
  - intros m κ t o v m' Q. apply task_rule_sound.
  - intros t c n k Ht Hc Hr. destruct c; cbn [code begun finished] in *.
    + by apply lockTaskLock_ok.
    + by apply tryLockingTaskLock_ok.
    + cbn in Hc. destruct n as [|n]; [lia|]. cbn [Nat.pred]. by apply unlockTaskLock_ok.
  - intros m κ t m' Ha [s ->] Hr. exists κ. split; [|done]. destruct Ha as [H1 H2 H3]. by split.
  - intros t n k [-> _] Hn. rewrite decide_False by lia. by eexists.
  - intros m [Hm Hc]. exists (fun t => mkKnow None None t). split.
    + split; [by intros t Ht; rewrite Hc|rewrite Hm; by left..].
    + intros t _. by split.
Qed.

Section Reachable.
Context (removeProcessTask : Z -> M sched unit).
Abbreviation step := (Threads.step exec (code removeProcessTask) scheduling).

Lemma task_invariant m s : start m -> rtc step (idle m) s -> invariant rule agrees rest during s.
Proof. apply (invariant_reachable exec (code removeProcessTask) scheduling rule agrees rest during start). Qed.


End Reachable.

(** The waiting task [0x20] and the holder [0x10], on the scheduler of the
    examples: [0x20] finds the lock held and waits, [0x10] gives it back and wakes
    it, [0x20] locks it. *)
Definition ex_memory : memory := mkMemory initTaskLock Schedule.demo (fun t => t).
Definition turns (n : nat) (t : Z) : list event := replicate n (Run t).
Definition ex_program (_ : Z) : M sched unit := mret tt.

Definition summary (l : list event) : option (TaskLock * list nat * list Z * list bool * list bool) :=
  s ← schedule exec (code ex_program) l (idle ex_memory);
  Some (lock (shared s), depth s <$> [0x10; 0x20], current (shared s) <$> [0x10; 0x20],
        (fun t => match threads s t with Some _ => true | None => false end) <$> [0x10; 0x20],
        (fun t => waits_now t (sch (shared s))) <$> [0x10; 0x20]).

Definition ex_sleep : list event := [Call 0x10 LOCK] ++ turns 15 0x10 ++ [Call 0x20 LOCK] ++ turns 14 0x20.
Definition ex_handover : list event := ex_sleep ++ [Call 0x10 UNLOCK] ++ turns 24 0x10 ++ turns 15 0x20.


(** While it waits, the task is in the list, and the holder may lock once more
    without waiting; a task that only tries is told that the lock is held. *)
Example ex_waits :
  summary ex_sleep = Some (mkLock 0 0x10 1 0x20, [1; 0]%nat, [0x10; 0], [false; true], [false; true]) /\
  summary (ex_sleep ++ [Call 0x10 LOCK] ++ turns 5 0x10) =
    Some (mkLock 0 0x10 2 0x20, [2; 0]%nat, [0x10; 0], [false; true], [false; true]) /\
  summary ([Call 0x10 LOCK] ++ turns 15 0x10 ++ [Call 0x20 TRY] ++ turns 11 0x20) =
    Some (mkLock 0 0x10 1 0, [1; 0]%nat, [0x10; 0x20], [false; false], [false; false]).
Proof. split_and!; vm_compute; reflexivity. Qed.

End TaskLock.
