(* ===== verification/Signals.v ===== *)
(** * Signals: [kernel/src/process/signals.c]

    The pending signals of a process, a linked list with a tail pointer in a
    store of allocated entries, the signal handlers, and the frame on the user
    stack that a handler returns through.

    The user stack is a byte memory; the pushes and pops of [virtptr.c] copy the
    bytes of an object, a sequence of little-endian fields, to mapped pages.  [exitProcess], [stopProcess],
    [continueProcess] and the address [kalloc] gives a new entry are
    parameters; the process lock makes each operation atomic. *)
From S2P Require Import Prelude.

Local Open Scope c_scope.

Module Signals.

(** ** Definitions *)

Definition SIGNONE : Z := 0.
Definition SIGKILL : Z := 9.
Definition SIGALRM : Z := 14.
Definition SIGURG : Z := 16.
Definition SIGSTOP : Z := 17.
Definition SIGTSTP : Z := 18.
Definition SIGCONT : Z := 19.
Definition SIGCHLD : Z := 20.
Definition SIGTTIN : Z := 21.
Definition SIGTTOU : Z := 22.
Definition SIGWINCH : Z := 28.
Definition SIGUSR1 : Z := 30.
Definition SIGUSR2 : Z := 31.
Definition SIG_COUNT : Z := 32.

Definition SA_RESETHAND : Z := 4.
Definition SA_SIGINFO : Z := 16.
Definition SA_NODEFER : Z := 64.

Definition SIG_DFL : Z := 0.
Definition SIG_IGN : Z := 1.

Record SignalHandler := mkHandler { handler : Z; h_mask : Z; flags : Z; restorer : Z }.

Record PendingSignal := mkPending { next : Z; signal : Z; child_pid : Z }.

Record ProcessSignals := mkSignals {
  signals : Z;
  signals_tail : Z;
  handlers : list SignalHandler;
  current_signal : Z;
  restore_frame : Z;
  alarm_at : Z;
  altstack : Z;
  mask : Z;
}.

(** The registers of the task: 31 integer and 32 floating-point registers. *)
Record TrapFrame := mkFrame { regs : list Z; fregs : list Z; pc : Z }.

Record proc := mkProc {
  entries : gmap Z PendingSignal;
  sigs : ProcessSignals;
  frame : TrapFrame;
  stack : bytes;
}.

Abbreviation P := (M proc).

Definition get : P ProcessSignals := fun p => Some (sigs p, p).
Definition put (s : ProcessSignals) : P unit := fun p => Some (tt, mkProc (entries p) s (frame p) (stack p)).
Definition get_frame : P TrapFrame := fun p => Some (frame p, p).
Definition put_frame (f : TrapFrame) : P unit := fun p => Some (tt, mkProc (entries p) (sigs p) f (stack p)).
Definition get_entry (e : Z) : P PendingSignal := fun p => x ← entries p !! e; Some (x, p).
Definition put_entry (e : Z) (x : PendingSignal) : P unit := fun p =>
  Some (tt, mkProc (<[e := x]> (entries p)) (sigs p) (frame p) (stack p)).
(** [dealloc(entry)]: freeing what is not allocated is an error. *)
Definition free_entry (e : Z) : P unit := fun p =>
  _ ← entries p !! e;
  Some (tt, mkProc (delete e (entries p)) (sigs p) (frame p) (stack p)).
Definition lift {A} (x : option A) : P A := fun p => a ← x; Some (a, p).

Definition set_queue (s : ProcessSignals) (h t : Z) : ProcessSignals :=
  mkSignals h t (handlers s) (current_signal s) (restore_frame s) (alarm_at s) (altstack s) (mask s).
Definition set_context (s : ProcessSignals) (cur frame m : Z) : ProcessSignals :=
  mkSignals (signals s) (signals_tail s) (handlers s) cur frame (alarm_at s) (altstack s) m.
Definition set_handlers (s : ProcessSignals) (h : list SignalHandler) : ProcessSignals :=
  mkSignals (signals s) (signals_tail s) h (current_signal s) (restore_frame s) (alarm_at s) (altstack s) (mask s).
Definition set_alarm (s : ProcessSignals) (t : Z) : ProcessSignals :=
  mkSignals (signals s) (signals_tail s) (handlers s) (current_signal s) (restore_frame s) t (altstack s) (mask s).

(** An object in memory: its fields with their sizes. *)
Abbreviation object := (list (nat * Z)).

Definition obj_size (o : object) : Z := foldr (fun f n => Z.of_nat (fst f) + n) 0 o.

Fixpoint write_object (a : Z) (o : object) (m : bytes) : bytes :=
  match o with
  | [] => m
  | (n, v) :: o' => write_object (a + Z.of_nat n) o' (store_le n m a v)
  end.

Fixpoint read_object (a : Z) (sizes : list nat) (m : bytes) : list Z :=
  match sizes with
  | [] => []
  | n :: ns => load_le n m a :: read_object (a + Z.of_nat n) ns m
  end.

(** [PUSH_TO_VIRTPTR] and [POP_FROM_VIRTPTR] *)
Definition push (sp : Z) (o : object) : P Z := fun p =>
  let sp := sp - obj_size o in
  Some (sp, mkProc (entries p) (sigs p) (frame p) (write_object sp o (stack p))).
Definition pop (sp : Z) (sizes : list nat) : P (Z * list Z) := fun p =>
  Some ((sp + foldr (fun n s => Z.of_nat n + s) 0 sizes, read_object sp sizes (stack p)), p).

(** A [uint64_t], a [Signal], an array of 64-bit words. *)
Definition word (v : Z) : object := [(8%nat, v)].
Definition sig_obj (v : Z) : object := [(4%nat, v)].
Definition words (vs : list Z) : object := (fun v => (8%nat, v)) <$> vs.

(** The signals whose default action is to do nothing. *)
Definition ignored_by_default (signal : Z) : bool :=
  (signal =? SIGCHLD) || (signal =? SIGURG) || (signal =? SIGWINCH)
  || (signal =? SIGUSR1) || (signal =? SIGUSR2) || (signal =? SIGCONT).

Definition shouldIgnoreSignal (signal : Z) : P bool :=
  s ← get;
  action ← lift (handlers s !! Z.to_nat signal);
  mret (negb (signal =? SIGKILL) && negb (signal =? SIGSTOP) &&
        ((handler action =? SIG_IGN) || ((handler action =? SIG_DFL) && ignored_by_default signal))).

(** [1UL << (signal - 1)] *)
Definition signal_bit (signal : Z) : Z := Z.shiftl 1 (signal - 1).

(** [&task->process->signals.signals] is [None], [&entry->next] is [Some entry]. *)
Definition read_cell (c : option Z) : P Z :=
  match c with None => s ← get; mret (signals s) | Some e => x ← get_entry e; mret (next x) end.
Definition write_cell (c : option Z) (v : Z) : P unit :=
  match c with
  | None => s ← get; put (set_queue s v (signals_tail s))
  | Some e => x ← get_entry e; put_entry e (mkPending v (signal x) (child_pid x))
  end.

Definition with_fuel {A} (k : nat -> P A) : P A := fun p => k (S (size (entries p))) p.

(** The loop of [getSignalToHandle]; [previous] is 0 at the first entry. *)
Fixpoint get_loop (fuel : nat) (previous : Z) (current : option Z) : P Z :=
  match fuel with
  | O => fault
  | S fuel' =>
      pending ← read_cell current;
      if pending =? 0 then mret SIGNONE
      else
        x ← get_entry pending;
        s ← get;
        if (signal x =? SIGKILL) || (signal x =? SIGSTOP) ||
           (Z.land (mask s) (signal_bit (signal x)) =? 0)
        then
          write_cell current (next x);;
          s ← get;
          (if signals_tail s =? pending then put (set_queue s (signals s) previous) else mret tt);;
          free_entry pending;;
          mret (signal x)
        else get_loop fuel' pending (Some pending)
  end.

Definition getSignalToHandle : P Z := with_fuel (fun fuel => get_loop fuel 0 None).

Section Callbacks.
Context (kalloc : gmap Z PendingSignal -> Z).
Context (exitProcess stopProcess continueProcess : Z -> P unit).

Definition new_entry : P Z := fun p => Some (kalloc (entries p), p).

Definition addSignalToProcess (sig child : Z) : P unit :=
  (if sig =? SIGCONT then continueProcess sig else mret tt);;
  if (SIGNONE <? sig) && (sig <? SIG_COUNT) then
    ignore ← shouldIgnoreSignal sig;
    if negb ignore then
      entry ← new_entry;
      put_entry entry (mkPending 0 sig child);;
      s ← get;
      if signals_tail s =? 0 then put (set_queue s entry entry)
      else
        t ← get_entry (signals_tail s);
        put_entry (signals_tail s) (mkPending entry (signal t) (child_pid t));;
        put (set_queue s (signals s) entry)
    else mret tt
  else mret tt.

Definition REG_RETURN_ADDRESS : nat := 0.
Definition REG_STACK_POINTER : nat := 1.
Definition REG_ARGUMENT_0 : nat := 9.
Definition REG_ARGUMENT_1 : nat := 10.
Definition REG_ARGUMENT_2 : nat := 11.

(** [SigInfo]: number, code and value. *)
Definition sig_info (signal : Z) : object := [(4%nat, signal); (4%nat, 0); (8%nat, 0)].

(** The case of [handleActualSignal] that enters the handler. *)
Definition enter_handler (signal : Z) (action : SignalHandler) : P bool :=
  f ← get_frame;
  s ← get;
  sp ← lift (regs f !! REG_STACK_POINTER);
  sp ← push sp (sig_info signal);
  let info_address := sp in
  sp ← push sp (word (mask s));
  sp ← push sp (word (restore_frame s));
  sp ← push sp (sig_obj (current_signal s));
  sp ← push sp (word (pc f));
  sp ← push sp (words (fregs f));
  sp ← push sp (words (regs f));
  let m := Z.lor (mask s) (h_mask action) in
  let m := if negb (Z.land (flags action) SA_NODEFER =? 0) then Z.lor m (signal_bit signal) else m in
  put (set_context s signal sp m);;
  let r := <[REG_ARGUMENT_0 := signal]> (regs f) in
  let r := <[REG_ARGUMENT_1 := info_address]> r in
  let r := <[REG_ARGUMENT_2 := sp]> r in
  let r := <[REG_STACK_POINTER := sp]> r in
  let r := <[REG_RETURN_ADDRESS := restorer action]> r in
  put_frame (mkFrame r (fregs f) (handler action));;
  s ← get;
  (if negb (Z.land (flags action) SA_RESETHAND =? 0) then
     put (set_handlers s (<[Z.to_nat signal :=
       mkHandler SIG_DFL (h_mask action) (Z.ldiff (flags action) SA_SIGINFO) (restorer action)]> (handlers s)))
   else mret tt);;
  mret true.

Definition handleActualSignal (signal : Z) : P bool :=
  if signal =? SIGKILL then exitProcess signal;; mret false
  else if signal =? SIGSTOP then stopProcess signal;; mret false
  else if (SIG_COUNT <=? signal) || (signal =? SIGNONE) then mret true
  else
    s ← get;
    action ← lift (handlers s !! Z.to_nat signal);
    if handler action =? SIG_DFL then
      if ignored_by_default signal then mret true
      else if (signal =? SIGTSTP) || (signal =? SIGTTIN) || (signal =? SIGTTOU)
      then stopProcess signal;; mret false
      else exitProcess signal;; mret false
    else if handler action =? SIG_IGN then mret true
    else enter_handler signal action.

(** [time] is [getTime()]. *)
Definition handlePendingSignals (time : Z) : P bool :=
  signal ← getSignalToHandle;
  s ← get;
  if negb (signal =? SIGNONE) then handleActualSignal signal
  else if negb (alarm_at s =? 0) && (alarm_at s <=? time) then
    ret ← handleActualSignal SIGALRM;
    s ← get;
    put (set_alarm s 0);;
    mret ret
  else mret true.

End Callbacks.

Definition returnFromSignal : P unit :=
  s ← get;
  if negb (current_signal s =? SIGNONE) then
    r ← pop (restore_frame s) (replicate 31 8%nat);
    fr ← pop (fst r) (replicate 32 8%nat);
    pc ← pop (fst fr) [8%nat];
    cur ← pop (fst pc) [4%nat];
    rf ← pop (fst cur) [8%nat];
    m ← pop (fst rf) [8%nat];
    put_frame (mkFrame (snd r) (snd fr) (default 0 (snd pc !! 0%nat)));;
    put (set_context s (default 0 (snd cur !! 0%nat)) (default 0 (snd rf !! 0%nat)) (default 0 (snd m !! 0%nat)))
  else mret tt.

Fixpoint clear_loop (fuel : nat) : P unit :=
  match fuel with
  | O => fault
  | S fuel' =>
      s ← get;
      if signals s =? 0 then mret tt
      else
        x ← get_entry (signals s);
        put (set_queue s (next x) (signals_tail s));;
        free_entry (signals s);;
        clear_loop fuel'
  end.

Definition clear_handler (h : SignalHandler) : SignalHandler :=
  mkHandler (if negb (handler h =? SIG_IGN) then SIG_DFL else handler h) (h_mask h) 0 (restorer h).

Definition clearSignals : P unit :=
  with_fuel clear_loop;;
  s ← get;
  put (mkSignals (signals s) 0 (clear_handler <$> handlers s) 0 0 (alarm_at s) 0 (mask s)).

Fixpoint clear_child_loop (fuel : nat) (child : Z) (current : option Z) : P unit :=
  match fuel with
  | O => fault
  | S fuel' =>
      e ← read_cell current;
      if e =? 0 then mret tt
      else
        x ← get_entry e;
        if (signal x =? SIGCHLD) && (child_pid x =? child) then
          write_cell current (next x);;
          free_entry e;;
          clear_child_loop fuel' child current
        else clear_child_loop fuel' child (Some e)
  end.

Definition clearPendingChildSignals (child : Z) : P unit :=
  with_fuel (fun fuel => clear_child_loop fuel child None);;
  s ← get;
  if signals s =? 0 then put (set_queue s 0 0) else mret tt.

(** ** The user stack *)

Lemma store_le_out n m a v x : x < a \/ a + Z.of_nat n <= x -> store_le n m a v x = m x.
Proof.
  revert m a v. induction n as [|n IH]; intros m a v Hx; cbn [store_le]; [done|].
  rewrite IH by lia. rewrite wr_spec. by rewrite (proj2 (Z.eqb_neq x a)) by lia.
Qed.

Lemma load_le_ext n m m' a : (forall x, a <= x < a + Z.of_nat n -> m x = m' x) -> load_le n m a = load_le n m' a.
Proof.
  revert a. induction n as [|n IH]; intros a H; cbn [load_le]; [done|].
  rewrite H by lia. f_equal. f_equal. apply IH. intros x Hx. apply H. lia.
Qed.

Lemma load_store_le n m a v : 0 <= v < 2 ^ (8 * Z.of_nat n) -> load_le n (store_le n m a v) a = v.
Proof.
  revert m a v. induction n as [|n IH]; intros m a v Hv; cbn [store_le load_le]; [cbn in Hv; lia|].
  rewrite store_le_out by lia. rewrite wr_spec, Z.eqb_refl.
  replace (8 * Z.of_nat (S n)) with (8 + 8 * Z.of_nat n) in Hv by lia. rewrite Z.pow_add_r in Hv by lia.
  rewrite IH; [|split; [apply Z.div_pos; lia|apply Z.div_lt_upper_bound; lia]].
  pose proof (Z.div_mod v (2 ^ 8)). lia.
Qed.

(** Every field has a value of its size. *)
Definition in_range (o : object) : Prop := Forall (fun f => 0 <= snd f < 2 ^ (8 * Z.of_nat (fst f))) o.

Lemma obj_size_cons n v o : obj_size ((n, v) :: o) = Z.of_nat n + obj_size o.
Proof. done. Qed.

Lemma obj_size_nonneg o : 0 <= obj_size o.
Proof. induction o as [|[n v] o IH]; [done|]. rewrite obj_size_cons. lia. Qed.

Lemma write_object_out a o m x : x < a \/ a + obj_size o <= x -> write_object a o m x = m x.
Proof.
  revert a m. induction o as [|[n v] o IH]; intros a m Hx; cbn [write_object]; [done|].
  rewrite obj_size_cons in Hx. pose proof (obj_size_nonneg o). rewrite IH by lia. apply store_le_out. lia.
Qed.

Lemma read_object_ext a sizes m m' :
  (forall x, a <= x < a + foldr (fun n s => Z.of_nat n + s) 0 sizes -> m x = m' x) ->
  read_object a sizes m = read_object a sizes m'.
Proof.
  revert a. induction sizes as [|n ns IH]; intros a H; cbn [read_object]; [done|]. cbn [foldr] in H.
  assert (0 <= foldr (fun n s => Z.of_nat n + s) 0 ns) by (clear; induction ns; cbn; lia).
  f_equal; [apply load_le_ext; intros; apply H; lia|]. apply IH. intros x Hx. apply H. lia.
Qed.

Lemma read_write_object a o m : in_range o -> read_object a (fst <$> o) (write_object a o m) = snd <$> o.
Proof.
  revert a m. induction o as [|[n v] o IH]; intros a m Ho; [done|]. apply Forall_cons_iff in Ho as [Hv Ho].
  cbn [read_object write_object fmap list_fmap fst snd]. f_equal; [|by apply IH].
  rewrite <- (load_store_le n m a v) at 2 by done. apply load_le_ext. intros x Hx.
  apply write_object_out. lia.
Qed.

(** ** The pending signals *)

(** Entries with their signal and child, in order. *)
Abbreviation queue := (list (Z * (Z * Z))).

Fixpoint slist (m : gmap Z PendingSignal) (c : Z) (l : queue) : Prop :=
  match l with
  | [] => c = 0
  | (e, (sg, ch)) :: l' => c = e /\ e <> 0 /\ exists n, m !! e = Some (mkPending n sg ch) /\ slist m n l'
  end.

(** The last entry, or [NULL]. *)

Record queued (p : proc) (l : queue) : Prop := {
  s_list : slist (entries p) (signals (sigs p)) l;
  s_nodup : NoDup (fst <$> l);
  s_tail : signals_tail (sigs p) = last_of l;
}.

Lemma slist_in m c l e : slist m c l -> e ∈ fst <$> l -> e <> 0 /\ is_Some (m !! e).
Proof.
  revert c. induction l as [|[e' [sg ch]] l IH]; intros c; [by intros _ ?%not_elem_of_nil|].
  intros (_ & He & n & Hn & Hl) [->|Hin]%elem_of_cons; [by split; eauto|by eapply IH].
Qed.

Lemma slist_frame m c l e x : slist m c l -> e ∉ fst <$> l -> slist (<[e := x]> m) c l.
Proof.
  revert c. induction l as [|[e' [sg ch]] l IH]; intros c; [done|].
  intros (-> & He & n & Hn & Hl) [? ?]%not_elem_of_cons. split; [done|split; [done|]].
  exists n. rewrite lookup_insert_ne by done. split; [done|by apply IH].
Qed.

Lemma slist_delete m c l e : slist m c l -> e ∉ fst <$> l -> slist (delete e m) c l.
Proof.
  revert c. induction l as [|[e' [sg ch]] l IH]; intros c; [done|].
  intros (-> & He & n & Hn & Hl) [? ?]%not_elem_of_cons. split; [done|split; [done|]].
  exists n. rewrite lookup_delete_ne by done. split; [done|by apply IH].
Qed.

(** A list in two parts: the second starts where the first points. *)
Lemma slist_app m c l1 e sg ch l2 :
  slist m c (l1 ++ [(e, (sg, ch))] ++ l2) ->
  exists n, m !! e = Some (mkPending n sg ch) /\ slist m n l2.
Proof.
  revert c. induction l1 as [|[e' [sg' ch']] l1 IH]; intros c; cbn [app slist].
  - intros (_ & _ & n & Hn & Hl). by exists n.
  - intros (_ & _ & n & _ & Hl). by eapply IH.
Qed.

(** Redirecting the last entry of the first part. *)
Lemma slist_link m c l1 e sg ch l2 n :
  slist m c (l1 ++ [(e, (sg, ch))] ++ l2) -> NoDup (fst <$> l1 ++ [(e, (sg, ch))]) ->
  forall l2', slist (<[e := mkPending n sg ch]> m) n l2' ->
  slist (<[e := mkPending n sg ch]> m) c (l1 ++ [(e, (sg, ch))] ++ l2').
Proof.
  intros Hl Hnd l2' Hl2. revert c Hl Hnd.
  induction l1 as [|[e' [sg' ch']] l1 IH]; intros c; cbn [app slist fmap list_fmap fst].
  - intros (-> & He & _) _. split; [done|split; [done|]]. exists n. by rewrite lookup_insert_eq.
  - intros (-> & He & k & Hk & Hl) Hnd. inversion_clear Hnd as [|? ? Hn Hnd'].
    split; [done|split; [done|]]. exists k. rewrite lookup_insert_ne; [by split; [|apply IH]|].
    intros <-. apply Hn. rewrite fmap_app. set_solver.
Qed.

Definition at_cell (c : option Z) (l1 : queue) : Prop :=
  match c with None => l1 = [] | Some e => exists l x, l1 = l ++ [x] /\ fst x = e end.

Lemma bind_get {B} (k : ProcessSignals -> P B) p : mbind (M := P) k get p = k (sigs p) p.
Proof. done. Qed.

Lemma bind_get_entry {B} (k : PendingSignal -> P B) p e x :
  entries p !! e = Some x -> mbind (M := P) k (get_entry e) p = k x p.
Proof. intros H. apply bind_some. unfold get_entry. by rewrite H. Qed.

Lemma read_signal_cell_at p l1 l2 c :
  slist (entries p) (signals (sigs p)) (l1 ++ l2) -> at_cell c l1 ->
  exists v, read_cell c p = Some (v, p) /\ slist (entries p) v l2.
Proof.
  intros Hl Hc. destruct c as [e|]; cbn in Hc; [|subst; by eexists].
  destruct Hc as (l & [e' [sg ch]] & -> & E). cbn in E. subst e'. rewrite <- app_assoc in Hl.
  destruct (slist_app _ _ _ _ _ _ _ Hl) as (n & Hn & Hl2). exists n. split; [|done].
  cbn [read_cell]. by rewrite (bind_get_entry _ _ _ _ Hn).
Qed.

(** A signal that the mask does not hold back. *)
Definition deliverable (m sg : Z) : bool :=
  (sg =? SIGKILL) || (sg =? SIGSTOP) || (Z.land m (signal_bit sg) =? 0).

(** Taking an entry out. *)
Definition taken (p p' : proc) : Prop :=
  frame p' = frame p /\ stack p' = stack p /\
  exists h t, sigs p' = set_queue (sigs p) h t.

Lemma take_entry p l1 e sg ch l2 c :
  queued p (l1 ++ (e, (sg, ch)) :: l2) -> at_cell c l1 ->
  exists n p', entries p !! e = Some (mkPending n sg ch) /\
    (write_cell c n;;
     s ← get;
     (if signals_tail s =? e then put (set_queue s (signals s) (last_of l1)) else mret tt);;
     free_entry e;; mret sg) p = Some (sg, p') /\ queued p' (l1 ++ l2) /\ taken p p'.
Proof.
  intros [Hl Hnd Ht] Hc. destruct (slist_app _ _ l1 e sg ch l2 Hl) as (n & Hn & Hl2).
  rewrite fmap_app, fmap_cons in Hnd. cbn [fst] in Hnd.
  pose proof Hnd as (Hnd1 & Hd & Hnd2)%list.NoDup_app. inversion_clear Hnd2 as [|? ? He2 Hnd2'].
  assert (He1 : e ∉ fst <$> l1) by (intros Hin; apply (Hd e Hin); by left).
  assert (Hnd' : NoDup (fst <$> l1 ++ l2)).
  { rewrite fmap_app. rewrite <- Permutation_middle in Hnd. by inversion_clear Hnd. }
  assert (Htail : (if last_of (l1 ++ (e, (sg, ch)) :: l2) =? e then last_of l1
                   else last_of (l1 ++ (e, (sg, ch)) :: l2)) = last_of (l1 ++ l2)).
  { destruct l2 as [|x l2].
    - rewrite last_of_snoc, app_nil_r. cbn [fst]. by rewrite Z.eqb_refl.
    - rewrite !last_of_app_cons. change (last_of ((e, (sg, ch)) :: x :: l2)) with (last_of (x :: l2)).
      rewrite (proj2 (Z.eqb_neq _ _)); [done|]. intros E.
      apply He2. rewrite <- E. by apply last_of_in. }
  exists n. destruct c as [e0|]; cbn [write_cell].
  - destruct Hc as (l & [e0' [sg0 ch0]] & -> & E). cbn in E. subst e0'. rewrite <- app_assoc in Hl.
    destruct (slist_app _ _ l e0 sg0 ch0 _ Hl) as (n0 & Hn0 & _).
    assert (e0 <> e) by (intros ->; apply He1; rewrite fmap_app; set_solver).
    set (m1 := <[e0 := mkPending n sg0 ch0]> (entries p)).
    assert (Hl' : slist m1 (signals (sigs p)) ((l ++ [(e0, (sg0, ch0))]) ++ l2)).
    { rewrite <- app_assoc. eapply slist_link; [done|done|]. apply slist_frame; [done|].
      intros Hin. apply (Hd e0); [rewrite fmap_app; set_solver|by right]. }
    rewrite bind_assoc, (bind_get_entry _ _ _ _ Hn0). erewrite bind_some by (unfold put_entry; reflexivity).
    rewrite bind_get. cbn [sigs signal child_pid]. rewrite Ht.
    assert (Hfree : forall s, free_entry e (mkProc m1 s (frame p) (stack p)) =
      Some (tt, mkProc (delete e m1) s (frame p) (stack p))).
    { intros s. unfold free_entry. cbn [entries]. unfold m1. rewrite lookup_insert_ne by done. by rewrite Hn. }
    exists (mkProc (delete e m1) (set_queue (sigs p) (signals (sigs p)) (last_of ((l ++ [(e0, (sg0, ch0))]) ++ l2))) (frame p) (stack p)).
    split; [done|]. split; [|split].
    + destruct (_ =? e).
      * erewrite bind_some by (unfold put; reflexivity). cbn [entries frame stack]. fold m1.
        rewrite (bind_some _ _ _ _ _ (Hfree _)). unfold mret, M_ret. rewrite <- Htail. done.
      * rewrite bind_ret. fold m1. rewrite (bind_some _ _ _ _ _ (Hfree _)). unfold mret, M_ret.
        rewrite <- Htail, <- Ht. by destruct (sigs p).
    + split; cbn [entries sigs signals set_queue signals_tail]; [|done|done].
      apply slist_delete; [done|]. rewrite fmap_app, elem_of_app. tauto.
    + split; [done|split; [done|]]. by eexists _, _.
  - cbn in Hc. subst l1. cbn [app] in *. destruct Hl as (He & He0 & _).
    rewrite bind_assoc, bind_get. erewrite bind_some by (unfold put; reflexivity). rewrite bind_get.
    cbn [sigs set_queue signals_tail signals]. rewrite Ht.
    assert (Hfree : forall s, free_entry e (mkProc (entries p) s (frame p) (stack p)) =
      Some (tt, mkProc (delete e (entries p)) s (frame p) (stack p))).
    { intros s. unfold free_entry. cbn [entries]. by rewrite Hn. }
    exists (mkProc (delete e (entries p)) (set_queue (sigs p) n (last_of l2)) (frame p) (stack p)).
    split; [done|]. split; [|split].
    + destruct (_ =? e).
      * erewrite bind_some by (unfold put; reflexivity). cbn [entries frame stack].
        rewrite (bind_some _ _ _ _ _ (Hfree _)). unfold mret, M_ret. by rewrite <- Htail.
      * rewrite bind_ret. rewrite (bind_some _ _ _ _ _ (Hfree _)). unfold mret, M_ret. by rewrite <- Htail.
    + split; cbn [entries sigs signals set_queue signals_tail]; [|done|done]. by apply slist_delete.
    + split; [done|split; [done|]]. by eexists _, _.
Qed.

(** The first signal that can be delivered, and the queue without it. *)
Fixpoint next_signal (m : Z) (l : queue) : option (Z * queue) :=
  match l with
  | [] => None
  | x :: l' =>
      if deliverable m (fst (snd x)) then Some (fst (snd x), l')
      else match next_signal m l' with Some (sg, r) => Some (sg, x :: r) | None => None end
  end.

Lemma get_loop_ok fuel p l1 l2 c :
  queued p (l1 ++ l2) -> at_cell c l1 -> (length l2 < fuel)%nat ->
  match next_signal (mask (sigs p)) l2 with
  | None => get_loop fuel (last_of l1) c p = Some (SIGNONE, p)
  | Some (sg, l2') => exists p', get_loop fuel (last_of l1) c p = Some (sg, p') /\
      queued p' (l1 ++ l2') /\ taken p p'
  end.
Proof.
  revert fuel l1 c. induction l2 as [|[e [sg ch]] l2 IH]; intros [|fuel] l1 c Hq Hc Hf; try (cbn in Hf; lia).
  - cbn [next_signal get_loop]. destruct (read_signal_cell_at _ _ _ _ (s_list _ _ Hq) Hc) as (v & Hv & Hl).
    cbn in Hl. subst v. by rewrite (bind_some _ _ _ _ _ Hv).
  - destruct (read_signal_cell_at _ _ _ _ (s_list _ _ Hq) Hc) as (v & Hv & -> & He & _).
    destruct (take_entry p l1 e sg ch l2 c Hq Hc) as (n & p' & Hn & Hrun & Hq' & Ht).
    cbn [next_signal fst snd get_loop]. rewrite (bind_some _ _ _ _ _ Hv), (proj2 (Z.eqb_neq e 0)) by done.
    rewrite (bind_get_entry _ _ _ _ Hn), bind_get. cbn [signal next]. fold (deliverable (mask (sigs p)) sg).
    destruct (deliverable _ sg).
    + exists p'. by split.
    + specialize (IH fuel (l1 ++ [(e, (sg, ch))]) (Some e)). rewrite <- app_assoc, last_of_snoc in IH.
      specialize (IH Hq). cbn [fst] in IH. specialize (IH ltac:(by eexists _, _) ltac:(cbn in Hf; lia)).
      destruct (next_signal _ l2) as [[sg' r]|]; [|done].
      destruct IH as (p2 & ? & Hq2 & ?). exists p2. rewrite <- app_assoc in Hq2. done.
Qed.

Lemma queued_size p l : queued p l -> (length l <= size (entries p))%nat.
Proof.
  intros [Hl Hnd _]. rewrite <- (length_fmap fst), <- (size_list_to_set (C := gset Z)), <- size_dom by done.
  apply subseteq_size. intros e He%elem_of_list_to_set. apply elem_of_dom. by eapply slist_in.
Qed.

(** The same without the tail, which [clearPendingChildSignals] leaves. *)
Definition pending (p : proc) (l : queue) : Prop := slist (entries p) (signals (sigs p)) l /\ NoDup (fst <$> l).

Lemma unlink_entry p l1 e sg ch l2 c :
  pending p (l1 ++ (e, (sg, ch)) :: l2) -> at_cell c l1 ->
  exists n p', entries p !! e = Some (mkPending n sg ch) /\
    (write_cell c n;; free_entry e) p = Some (tt, p') /\ pending p' (l1 ++ l2) /\ taken p p'.
Proof.
  intros [Hl Hnd] Hc. destruct (slist_app _ _ l1 e sg ch l2 Hl) as (n & Hn & Hl2).
  rewrite fmap_app, fmap_cons in Hnd. cbn [fst] in Hnd.
  pose proof Hnd as (Hnd1 & Hd & Hnd2)%list.NoDup_app. inversion_clear Hnd2 as [|? ? He2 Hnd2'].
  assert (He1 : e ∉ fst <$> l1) by (intros Hin; apply (Hd e Hin); by left).
  assert (Hnd' : NoDup (fst <$> l1 ++ l2)).
  { rewrite fmap_app. rewrite <- Permutation_middle in Hnd. by inversion_clear Hnd. }
  exists n. destruct c as [e0|]; cbn [write_cell].
  - destruct Hc as (l & [e0' [sg0 ch0]] & -> & E). cbn in E. subst e0'. rewrite <- app_assoc in Hl.
    destruct (slist_app _ _ l e0 sg0 ch0 _ Hl) as (n0 & Hn0 & _).
    assert (e0 <> e) by (intros ->; apply He1; rewrite fmap_app; set_solver).
    eexists. split; [done|]. rewrite bind_assoc, (bind_get_entry _ _ _ _ Hn0).
    erewrite bind_some by (unfold put_entry; reflexivity). unfold free_entry. cbn [entries signal child_pid].
    rewrite lookup_insert_ne, Hn by done. split; [done|]. split; [|split; [done|split; [done|]]; exists (signals (sigs p)), (signals_tail (sigs p)); by destruct (sigs p)].
    split; [|done]. apply slist_delete; [|rewrite fmap_app, elem_of_app; tauto].
    rewrite <- app_assoc. eapply slist_link; [done|done|]. apply slist_frame; [done|].
    intros Hin. apply (Hd e0); [rewrite fmap_app; set_solver|by right].
  - cbn in Hc. subst l1. cbn [app] in *. eexists. split; [done|]. rewrite bind_assoc, bind_get.
    erewrite bind_some by (unfold put; reflexivity). unfold free_entry. cbn [entries]. rewrite Hn.
    split; [done|]. split; [split; [by apply slist_delete|done]|]. split; [done|split; [done|]]. by eexists _, _.
Qed.

Definition other_child (child : Z) (x : Z * (Z * Z)) : bool := negb ((fst (snd x) =? SIGCHLD) && (snd (snd x) =? child)).

Lemma taken_trans p1 p2 p3 : taken p1 p2 -> taken p2 p3 -> taken p1 p3.
Proof.
  intros (F1 & S1 & h1 & t1 & E1) (F2 & S2 & h2 & t2 & E2). split; [congruence|split; [congruence|]].
  exists h2, t2. rewrite E2, E1. done.
Qed.

Lemma clear_child_loop_ok child fuel : forall p l1 l2 c,
  pending p (l1 ++ l2) -> at_cell c l1 -> (length l2 < fuel)%nat ->
  exists p', clear_child_loop fuel child c p = Some (tt, p') /\ pending p' (l1 ++ List.filter (other_child child) l2) /\ taken p p'.
Proof.
  induction fuel as [|fuel IH]; intros p l1 l2 c Hq Hc Hf; [lia|]. cbn [clear_child_loop].
  destruct (read_signal_cell_at _ _ _ _ (proj1 Hq) Hc) as (v & Hv & Hl). rewrite (bind_some _ _ _ _ _ Hv).
  destruct l2 as [|[e [sg ch]] l2]; cbn [length] in Hf.
  - cbn in Hl. subst v. exists p. split; [done|split; [done|]]. split; [done|split; [done|]].
    exists (signals (sigs p)), (signals_tail (sigs p)). by destruct (sigs p).
  - destruct Hl as (-> & He & _). rewrite (proj2 (Z.eqb_neq e 0)) by done.
    destruct (unlink_entry p l1 e sg ch l2 c Hq Hc) as (n & p' & Hn & Hrun & Hq' & Ht).
    rewrite (bind_get_entry _ _ _ _ Hn). cbn [signal child_pid next List.filter]. unfold other_child at 1. cbn [fst snd].
    destruct ((sg =? SIGCHLD) && (ch =? child)); cbn [negb].
    + rewrite <- bind_assoc, (bind_some _ _ _ _ _ Hrun). destruct (IH p' l1 l2 c Hq' Hc) as (p2 & E & Hq2 & Ht2); [lia|].
      exists p2. split; [done|split; [done|]]. by eapply taken_trans.
    + destruct (IH p (l1 ++ [(e, (sg, ch))]) l2 (Some e)) as (p2 & E & Hq2 & Ht2); [by rewrite <- app_assoc|by eexists _, _|lia|].
      exists p2. rewrite <- app_assoc in Hq2. done.
Qed.

(** The signals of a child that is reaped leave the queue. *)
Lemma clearPendingChildSignals_ok child p l :
  pending p l ->
  exists p', clearPendingChildSignals child p = Some (tt, p') /\ pending p' (List.filter (other_child child) l) /\ taken p p'.
Proof.
  intros Hq. unfold clearPendingChildSignals, with_fuel.
  assert (Hs : (length l <= size (entries p))%nat).
  { apply (queued_size (mkProc (entries p) (set_queue (sigs p) (signals (sigs p)) (last_of l)) (frame p) (stack p))).
    by destruct Hq. }
  destruct (clear_child_loop_ok child (S (size (entries p))) p [] l None Hq eq_refl) as (p' & E & Hq' & Ht); [lia|].
  erewrite bind_some by exact E. rewrite bind_get. destruct (Z.eqb_spec (signals (sigs p')) 0) as [E0|]; [|by exists p'].
  eexists. split; [done|]. split; [|eapply taken_trans; [exact Ht|]; split; [done|split; [done|]]; by eexists _, _].
  destruct Hq' as [H1 H2]. rewrite E0 in H1. split; done.
Qed.

(** ** Properties *)

(** [getSignalToHandle] takes out the first pending signal that the mask does not
    hold back, [SIGKILL] and [SIGSTOP] always; with none it changes nothing. *)
Theorem getSignalToHandle_correct p l :
  queued p l ->
  match next_signal (mask (sigs p)) l with
  | None => getSignalToHandle p = Some (SIGNONE, p)
  | Some (sg, l') => exists p', getSignalToHandle p = Some (sg, p') /\ queued p' l' /\ taken p p'
  end.
Proof.
  intros Hq. pose proof (queued_size _ _ Hq).
  by apply (get_loop_ok (S (size (entries p))) p [] l None Hq eq_refl ltac:(lia)).
Qed.

(** Whether a signal is put in the queue. *)
Definition accepted (p : proc) (sg : Z) : bool :=
  match handlers (sigs p) !! Z.to_nat sg with
  | Some a => (SIGNONE <? sg) && (sg <? SIG_COUNT) &&
      negb (negb (sg =? SIGKILL) && negb (sg =? SIGSTOP) &&
            ((handler a =? SIG_IGN) || ((handler a =? SIG_DFL) && ignored_by_default sg)))
  | None => false
  end.

(** [addSignalToProcess] puts an accepted signal at the end of the queue; it
    drops the ones that are ignored and those out of range. *)
Theorem addSignalToProcess_queues kalloc continueProcess p l sg ch :
  queued p l -> length (handlers (sigs p)) = Z.to_nat SIG_COUNT -> sg <> SIGCONT ->
  (forall m, m !! kalloc m = None /\ kalloc m <> 0) ->
  exists p', addSignalToProcess kalloc continueProcess sg ch p = Some (tt, p') /\
    if accepted p sg then queued p' (l ++ [(kalloc (entries p), (sg, ch))]) /\ taken p p'
    else p' = p.
Proof.
  intros Hq Hlen Hcont Halloc. unfold addSignalToProcess, accepted.
  rewrite (proj2 (Z.eqb_neq sg SIGCONT)), bind_ret by done. unfold SIG_COUNT in Hlen.
  destruct ((SIGNONE <? sg) && (sg <? SIG_COUNT)) eqn:Hr.
  2: { exists p. split; [done|]. by destruct (handlers _ !! _). }
  unfold SIGNONE, SIG_COUNT in Hr.
  destruct (lookup_lt_is_Some_2 (handlers (sigs p)) (Z.to_nat sg)) as [a Ha]; [lia|].
  unfold shouldIgnoreSignal. rewrite bind_assoc, bind_get, bind_assoc.
  erewrite bind_some by (unfold lift; rewrite Ha; done). rewrite bind_ret, Ha. cbn [andb].
  destruct (_ && (_ || _)); cbn [negb]; [by exists p|].
  destruct (Halloc (entries p)) as [Hfresh Hnz]. set (e := kalloc (entries p)) in *.
  erewrite bind_some by (unfold new_entry; reflexivity). erewrite bind_some by (unfold put_entry; reflexivity).
  rewrite bind_get. cbn [sigs]. destruct Hq as [Hl Hnd Ht]. rewrite Ht.
  assert (He : e ∉ fst <$> l).
  { intros Hin. destruct (slist_in _ _ _ _ Hl Hin) as [_ [x Hx]]. congruence. }
  destruct l as [|[e0 [sg0 ch0]] l0 _] using rev_ind.
  - cbn [last_of Z.eqb]. eexists. split; [done|]. split; [|split; [done|split; [done|by eexists _, _]]].
    split; cbn [entries sigs set_queue signals signals_tail]; [|apply NoDup_singleton|done].
    split; [done|split; [done|]]. exists 0. by rewrite lookup_insert_eq.
  - rewrite last_of_snoc. cbn [fst]. destruct (slist_in _ _ _ e0 Hl) as [He0 _]; [rewrite fmap_app; set_solver|].
    rewrite (proj2 (Z.eqb_neq e0 0)) by done.
    destruct (slist_app _ _ l0 e0 sg0 ch0 [] Hl) as (n & Hn & _).
    assert (Hne : e0 <> e) by (intros ->; congruence).
    erewrite bind_get_entry by (cbn [entries]; by rewrite lookup_insert_ne).
    erewrite bind_some by (unfold put_entry; reflexivity). eexists. split; [done|]. split; [|split; [done|split; [done|by eexists _, _]]].
    split; cbn [entries sigs set_queue signals signals_tail signal child_pid].
    + rewrite <- app_assoc. eapply (slist_link _ _ _ _ _ _ []); [by apply slist_frame|done|].
      split; [done|split; [done|]]. exists 0. by rewrite lookup_insert_ne, lookup_insert_eq.
    + rewrite fmap_app. apply list.NoDup_app. split; [done|split; [|apply NoDup_singleton]].
      intros x Hx [->|?%not_elem_of_nil]%elem_of_cons; done.
    + by rewrite last_of_snoc.
Qed.

(** *** The frame on the user stack *)

Lemma read_below a sizes b o m : b + obj_size o <= a -> read_object a sizes (write_object b o m) = read_object a sizes m.
Proof. intros H. apply read_object_ext. intros x Hx. apply write_object_out. lia. Qed.

Lemma words_size vs : obj_size (words vs) = 8 * Z.of_nat (length vs).
Proof. induction vs as [|v vs IH]; [done|]. cbn [words fmap list_fmap]. rewrite obj_size_cons. fold (words vs). cbn [length]. lia. Qed.

Lemma words_sizes vs : fst <$> words vs = replicate (length vs) 8%nat.
Proof. induction vs as [|v vs IH]; [done|]. cbn. by f_equal. Qed.

Lemma words_values vs : snd <$> words vs = vs.
Proof. unfold words. rewrite <- list_fmap_compose. apply list_fmap_id. Qed.

Definition words64 (vs : list Z) : Prop := Forall (fun v => 0 <= v < 2 ^ 64) vs.

Lemma words_in_range vs : words64 vs -> in_range (words vs).
Proof. unfold words64, in_range, words. induction 1; constructor; done. Qed.

Lemma read_words_back a vs n m :
  words64 vs -> n = length vs -> read_object a (replicate n 8%nat) (write_object a (words vs) m) = vs.
Proof.
  intros Hv ->. rewrite <- words_sizes, read_write_object by by apply words_in_range. apply words_values.
Qed.

Lemma read_word_back a v m : 0 <= v < 2 ^ 64 -> read_object a [8%nat] (write_object a (word v) m) = [v].
Proof. intros Hv. apply (read_write_object a (word v) m). constructor; [exact Hv|constructor]. Qed.

Lemma read_sig_back a v m : 0 <= v < 2 ^ 32 -> read_object a [4%nat] (write_object a (sig_obj v) m) = [v].
Proof. intros Hv. apply (read_write_object a (sig_obj v) m). constructor; [exact Hv|constructor]. Qed.

(** What the frame keeps has its width. *)
Record savable (p : proc) : Prop := {
  w_regs : length (regs (frame p)) = 31%nat /\ words64 (regs (frame p));
  w_fregs : length (fregs (frame p)) = 32%nat /\ words64 (fregs (frame p));
  w_pc : 0 <= pc (frame p) < 2 ^ 64;
  w_mask : 0 <= mask (sigs p) < 2 ^ 64;
  w_restore : 0 <= restore_frame (sigs p) < 2 ^ 64;
  w_current : 0 <= current_signal (sigs p) < 2 ^ 32;
}.

(** The frame of [p] below the stack pointer [sp], as [enter_handler] leaves it. *)
Definition saved_at (sp : Z) (p : proc) (m : bytes) : Prop :=
  let a := sp - 548 in
  read_object a (replicate 31 8%nat) m = regs (frame p) /\
  read_object (a + 248) (replicate 32 8%nat) m = fregs (frame p) /\
  read_object (a + 504) [8%nat] m = [pc (frame p)] /\
  read_object (a + 512) [4%nat] m = [current_signal (sigs p)] /\
  read_object (a + 516) [8%nat] m = [restore_frame (sigs p)] /\
  read_object (a + 524) [8%nat] m = [mask (sigs p)].

(** The memory after the pushes of [enter_handler]. *)
Definition pushed (sp sg : Z) (p : proc) : bytes :=
  let a := sp - 548 in
  write_object a (words (regs (frame p))) (write_object (a + 248) (words (fregs (frame p)))
    (write_object (a + 504) (word (pc (frame p))) (write_object (a + 512) (sig_obj (current_signal (sigs p)))
      (write_object (a + 516) (word (restore_frame (sigs p))) (write_object (a + 524) (word (mask (sigs p)))
        (write_object (a + 532) (sig_info sg) (stack p))))))).

Lemma pushed_saved sp sg p : savable p -> saved_at sp p (pushed sp sg p).
Proof.
  intros [[Hrl Hr] [Hfl Hf] Hpc Hm Hrf Hc]. unfold saved_at, pushed. cbv zeta.
  assert (Hsr : obj_size (words (regs (frame p))) = 248) by (rewrite words_size, Hrl; done).
  assert (Hsf : obj_size (words (fregs (frame p))) = 256) by (rewrite words_size, Hfl; done).
  assert (Hs8 : forall v, obj_size (word v) = 8) by done.
  assert (Hs4 : forall v, obj_size (sig_obj v) = 4) by done.
  repeat split.
  - by rewrite read_words_back.
  - rewrite read_below by lia. by rewrite read_words_back.
  - rewrite !read_below by (rewrite ?Hsr, ?Hsf; lia). by rewrite read_word_back.
  - rewrite !read_below by (rewrite ?Hsr, ?Hsf, ?Hs8; lia). by rewrite read_sig_back.
  - rewrite !read_below by (rewrite ?Hsr, ?Hsf, ?Hs8, ?Hs4; lia). by rewrite read_word_back.
  - rewrite !read_below by (rewrite ?Hsr, ?Hsf, ?Hs8, ?Hs4; lia). by rewrite read_word_back.
Qed.

(** [enter_handler] runs the handler on the pushed frame. *)
Definition entered (sp sg : Z) (act : SignalHandler) (p p1 : proc) : Prop :=
  stack p1 = pushed sp sg p /\ restore_frame (sigs p1) = sp - 548 /\ current_signal (sigs p1) = sg /\
  pc (frame p1) = handler act /\ regs (frame p1) !! REG_ARGUMENT_0 = Some sg /\
  regs (frame p1) !! REG_STACK_POINTER = Some (sp - 548) /\
  regs (frame p1) !! REG_RETURN_ADDRESS = Some (restorer act).

Lemma enter_handler_ok p sp sg act :
  savable p -> regs (frame p) !! REG_STACK_POINTER = Some sp ->
  exists p1, enter_handler sg act p = Some (true, p1) /\ entered sp sg act p p1.
Proof.
  intros [[Hrl _] [Hfl _] _ _ _ _] Hsp. unfold enter_handler.
  erewrite bind_some by (unfold get_frame; reflexivity). rewrite bind_get.
  erewrite bind_some by (unfold lift; rewrite Hsp; done).
  do 7 (erewrite bind_some by (unfold push; reflexivity); cbn [entries sigs frame stack]).
  rewrite !words_size, Hrl, Hfl. change (obj_size (sig_info sg)) with 16.
  repeat match goal with |- context [obj_size (word ?v)] => change (obj_size (word v)) with 8 end.
  match goal with |- context [obj_size (sig_obj ?v)] => change (obj_size (sig_obj v)) with 4 end.
  erewrite bind_some by (unfold put; reflexivity). erewrite bind_some by (unfold put_frame; reflexivity).
  rewrite bind_get. cbn [entries sigs frame stack].
  replace (sp - 16 - 8 - 8 - 4 - 8 - 8 * Z.of_nat 32 - 8 * Z.of_nat 31) with (sp - 548) by lia.
  replace (sp - 16 - 8 - 8 - 4 - 8 - 8 * Z.of_nat 32) with (sp - 548 + 248) by lia.
  replace (sp - 16 - 8 - 8 - 4 - 8) with (sp - 548 + 504) by lia.
  replace (sp - 16 - 8 - 8 - 4) with (sp - 548 + 512) by lia.
  replace (sp - 16 - 8 - 8) with (sp - 548 + 516) by lia.
  replace (sp - 16 - 8) with (sp - 548 + 524) by lia. replace (sp - 16) with (sp - 548 + 532) by lia.
  fold (pushed sp sg p).
  assert (Hr : forall r, r = <[REG_RETURN_ADDRESS := restorer act]> (<[REG_STACK_POINTER := sp - 548]>
      (<[REG_ARGUMENT_2 := sp - 548]> (<[REG_ARGUMENT_1 := sp - 548 + 532]> (<[REG_ARGUMENT_0 := sg]> (regs (frame p)))))) ->
    r !! REG_ARGUMENT_0 = Some sg /\ r !! REG_STACK_POINTER = Some (sp - 548) /\
    r !! REG_RETURN_ADDRESS = Some (restorer act)).
  { intros r ->. unfold REG_ARGUMENT_0, REG_ARGUMENT_1, REG_ARGUMENT_2, REG_STACK_POINTER, REG_RETURN_ADDRESS.
    rewrite !(list_lookup_insert_ne _ 0), !(list_lookup_insert_ne _ 1), !(list_lookup_insert_ne _ 11),
      !(list_lookup_insert_ne _ 10) by lia.
    rewrite !list_lookup_insert_eq by (rewrite ?length_insert; lia). done. }
  destruct (negb (Z.land (flags act) SA_RESETHAND =? 0)).
  - erewrite bind_some by (unfold put; reflexivity). eexists. split; [done|].
    do 4 (split; [done|]). by apply Hr.
  - rewrite bind_ret. eexists. split; [done|]. do 4 (split; [done|]). by apply Hr.
Qed.

(** What [returnFromSignal] restores from a saved frame. *)
Lemma return_ok sp p p2 :
  saved_at sp p (stack p2) -> restore_frame (sigs p2) = sp - 548 -> current_signal (sigs p2) <> SIGNONE ->
  exists p3, returnFromSignal p2 = Some (tt, p3) /\ frame p3 = frame p /\
    current_signal (sigs p3) = current_signal (sigs p) /\ restore_frame (sigs p3) = restore_frame (sigs p) /\
    mask (sigs p3) = mask (sigs p).
Proof.
  intros (H1 & H2 & H3 & H4 & H5 & H6) Hrf Hcur. unfold returnFromSignal. rewrite bind_get.
  rewrite (proj2 (Z.eqb_neq _ _)) by done. cbn [negb]. rewrite Hrf.
  assert (E1 : forall a, a + foldr (fun n s => Z.of_nat n + s) 0 (replicate 31 8%nat) = a + 248) by done.
  assert (E2 : forall a, a + foldr (fun n s => Z.of_nat n + s) 0 (replicate 32 8%nat) = a + 256) by done.
  assert (E3 : forall a, a + foldr (fun n s => Z.of_nat n + s) 0 [8%nat] = a + 8) by done.
  assert (E4 : forall a, a + foldr (fun n s => Z.of_nat n + s) 0 [4%nat] = a + 4) by done.
  do 6 (erewrite bind_some by (unfold pop; reflexivity); cbn [fst snd]; rewrite ?E1, ?E2, ?E3, ?E4).
  replace (sp - 548 + 248 + 256) with (sp - 548 + 504) by lia.
  replace (sp - 548 + 504 + 8) with (sp - 548 + 512) by lia.
  replace (sp - 548 + 512 + 4) with (sp - 548 + 516) by lia.
  rewrite E3. replace (sp - 548 + 516 + 8) with (sp - 548 + 524) by lia.
  cbv zeta in *. rewrite H1, H2, H3, H4, H5, H6.
  erewrite bind_some by (unfold put_frame; reflexivity). unfold put. cbn [entries sigs frame stack].
  eexists. split; [done|]. cbn. by destruct (frame p).
Qed.

(** C37: A signal with a handler enters it on a frame on the user stack, and
    [returnFromSignal] restores the registers, the mask and the signal that was
    handled before from it, whatever the handler did above the frame and in
    its registers. *)
Theorem signal_handler_returns exitProcess stopProcess p sp sg act :
  savable p -> regs (frame p) !! REG_STACK_POINTER = Some sp ->
  0 < sg < SIG_COUNT -> sg <> SIGKILL -> sg <> SIGSTOP ->
  handlers (sigs p) !! Z.to_nat sg = Some act -> handler act <> SIG_DFL -> handler act <> SIG_IGN ->
  exists p1, handleActualSignal exitProcess stopProcess sg p = Some (true, p1) /\ entered sp sg act p p1 /\
    forall p2, current_signal (sigs p2) = sg -> restore_frame (sigs p2) = restore_frame (sigs p1) ->
      (forall x, sp - 548 <= x < sp -> stack p2 x = stack p1 x) ->
      exists p3, returnFromSignal p2 = Some (tt, p3) /\ frame p3 = frame p /\
        current_signal (sigs p3) = current_signal (sigs p) /\ restore_frame (sigs p3) = restore_frame (sigs p) /\
        mask (sigs p3) = mask (sigs p).
Proof.
  intros Hs Hsp Hsg Hk Hst Hact Hd Hi.
  destruct (enter_handler_ok p sp sg act Hs Hsp) as (p1 & Hp1 & He). exists p1.
  split; [|split; [done|]].
  - unfold handleActualSignal. rewrite (proj2 (Z.eqb_neq sg SIGKILL)), (proj2 (Z.eqb_neq sg SIGSTOP)) by done.
    unfold SIGNONE. rewrite (proj2 (Z.leb_gt _ _)), (proj2 (Z.eqb_neq sg 0)) by lia. cbn [orb].
    rewrite bind_get. erewrite bind_some by (unfold lift; rewrite Hact; done).
    by rewrite (proj2 (Z.eqb_neq (handler act) SIG_DFL)), (proj2 (Z.eqb_neq (handler act) SIG_IGN)) by done.
  - intros p2 Hc Hrf Hm. destruct He as (Hst1 & Hr1 & _).
    apply (return_ok sp p); [|congruence|rewrite Hc; unfold SIGNONE; lia].
    assert (Hext : forall a sizes, sp - 548 <= a -> a + foldr (fun n s => Z.of_nat n + s) 0 sizes <= sp ->
      read_object a sizes (stack p2) = read_object a sizes (pushed sp sg p)).
    { intros a sizes Ha1 Ha2. rewrite <- Hst1. apply read_object_ext. intros x Hx. apply Hm. lia. }
    destruct (pushed_saved sp sg p Hs) as (H1 & H2 & H3 & H4 & H5 & H6). cbv zeta in *.
    unfold saved_at. cbv zeta.
    rewrite !Hext by (cbn [foldr replicate]; lia). by repeat split.
Qed.

(** *** A process with a handler *)

Definition demo_handler : SignalHandler := mkHandler 0x500 0 0 0x600.
Definition demo_handlers : list SignalHandler := <[10%nat := demo_handler]> (replicate 32 (mkHandler SIG_DFL 0 0 0)).
Definition demo : proc :=
  mkProc ∅ (mkSignals 0 0 demo_handlers 0 0 0 0 0)
    (mkFrame (<[1%nat := 0x10000]> (replicate 31 0)) (replicate 32 0) 0x400) (fun _ => 0).

(** An unused address. *)
Definition fresh_entry (m : gmap Z PendingSignal) : Z := fresh (dom m ∪ {[ 0 ]}).

Lemma fresh_entry_ok m : m !! fresh_entry m = None /\ fresh_entry m <> 0.
Proof.
  pose proof (is_fresh (dom m ∪ {[ 0 ]})) as [H1 H2]%not_elem_of_union. fold (fresh_entry m) in *.
  split; [by apply not_elem_of_dom|]. intros E. apply H2, elem_of_singleton, E.
Qed.

Lemma demo_queued : queued demo [].
Proof. split; [done|constructor|done]. Qed.

Lemma demo_savable : savable demo.
Proof.
  split; cbn [demo frame regs fregs pc sigs mask restore_frame current_signal]; try lia.
  - split; [done|]. unfold words64. repeat constructor; done.
  - split; [done|]. unfold words64. repeat constructor; done.
Qed.

Lemma getSignalToHandle_correct_witness : getSignalToHandle demo = Some (SIGNONE, demo).
Proof. exact (getSignalToHandle_correct demo [] demo_queued). Defined.

Lemma addSignalToProcess_queues_witness :
  exists p', addSignalToProcess fresh_entry (fun _ => mret tt) 10 5 demo = Some (tt, p') /\
    if accepted demo 10 then queued p' ([] ++ [(fresh_entry ∅, (10, 5))]) /\ taken demo p'
    else p' = demo.
Proof.
  apply (addSignalToProcess_queues fresh_entry (fun _ => mret tt) demo [] 10 5); try done.
  - exact demo_queued.
  - exact fresh_entry_ok.
Defined.

Lemma signal_handler_returns_witness :
  exists p1, handleActualSignal (fun _ => mret tt) (fun _ => mret tt) 10 demo = Some (true, p1) /\
    entered 0x10000 10 demo_handler demo p1 /\
    forall p2, current_signal (sigs p2) = 10 -> restore_frame (sigs p2) = restore_frame (sigs p1) ->
      (forall x, 0x10000 - 548 <= x < 0x10000 -> stack p2 x = stack p1 x) ->
      exists p3, returnFromSignal p2 = Some (tt, p3) /\ frame p3 = frame demo /\
        current_signal (sigs p3) = 0 /\ restore_frame (sigs p3) = 0 /\ mask (sigs p3) = 0.
Proof. by apply (signal_handler_returns (fun _ => mret tt) (fun _ => mret tt) demo); [exact demo_savable|..]. Defined.

(** Entries at multiples of 0x100. *)
Definition next_address (m : gmap Z PendingSignal) : Z := 0x100 * (Z.of_nat (size m) + 1).

Abbreviation add := (addSignalToProcess next_address (fun _ => mret tt)).

(** The signals of the child processes 1 and 2, where the handler is set. *)
Definition child_demo : proc :=
  mkProc ∅ (mkSignals 0 0 (<[20%nat := demo_handler]> demo_handlers) 0 0 0 0 0) (frame demo) (stack demo).

(** [clearPendingChildSignals] of the last signal leaves [signals_tail] at the
    freed entry; a signal that is added then is linked there and never found. *)
Definition lost_signal : P (Z * Z) :=
  add SIGCHLD 1;; add SIGCHLD 2;; clearPendingChildSignals 2;; add 10 0;;
  a ← getSignalToHandle; b ← getSignalToHandle; mret (a, b).

Example clear_child_dangles :
  (add SIGCHLD 1;; add SIGCHLD 2;; clearPendingChildSignals 2;; get) child_demo ≫=
    (fun r => Some (signals_tail (fst r), entries (snd r) !! signals_tail (fst r))) = Some (0x200, None) /\
  fst <$> lost_signal child_demo = Some (SIGCHLD, SIGNONE).
Proof. split; vm_compute; reflexivity. Qed.

(** [SA_NODEFER] holds the signal back while it is handled, and without it the
    signal is not held back. *)
Definition mask_in_handler (fl : Z) : option Z :=
  p ← enter_handler 10 (mkHandler 0x500 0 fl 0x600) demo; Some (mask (sigs (snd p))).

Example nodefer_inverted :
  mask_in_handler SA_NODEFER = Some (signal_bit 10) /\ mask_in_handler 0 = Some 0.
Proof. split; reflexivity. Qed.

End Signals.
