(* ===== verification/Sprintf.v ===== *)
(** * Sprintf: [kernel/src/libc/lib/sprintf.c]

    The formatter behind [printf] and [snprintf].  The output buffer is a list of
    bytes, of which the first [size] may be written; [vsprintf] calls with the
    largest size.  The variable arguments are a list of values of the promoted C
    types; taking one of another type is an error, as is reading the format past
    its NUL and writing the digit buffer past its end.  [int] arithmetic on the
    widths is taken not to overflow. *)
From S2P Require Import Prelude.

Local Open Scope c_scope.

Module Sprintf.

(** ** Definitions *)

Definition FLAG_ALTERNATE : Z := 1.
Definition FLAG_ZEROPAD : Z := 2.
Definition FLAG_LEFT : Z := 4.
Definition FLAG_SPACE : Z := 8.
Definition FLAG_PLUS : Z := 16.
Definition FLAG_SIGNED : Z := 32.
Definition FLAG_UPPER : Z := 64.

Definition has (flags f : Z) : bool := negb (Z.land flags f =? 0).

Inductive Length : Type := LENGTH_CHAR | LENGTH_SHORT | LENGTH_INT | LENGTH_LONG | LENGTH_LONG_LONG.

(** An argument: an [int], a [long] or [long long], a pointer, a string with
    its buffer ([None] for [NULL]). *)
Inductive arg : Type :=
| AInt (v : Z)
| ALong (v : Z)
| APtr (v : Z)
| AStr (s : option (list Z)).

(** The characters. *)
Definition ch (s : string) : Z := default 0 (head (cstr s)).

(** [readInt]: the number and the rest of the format. *)
Fixpoint read_int_loop (n : Z) (str : list Z) : option (Z * list Z) :=
  match str with
  | [] => None
  | c :: str' =>
      if (ch "0" <=? c) && (c <=? ch "9") then read_int_loop (n * 10 + (c - ch "0")) str'
      else Some (n, str)
  end.

Definition readInt (str : list Z) : option (Z * list Z) := read_int_loop 0 str.

(** [buf] and [*pos]. *)
Record out := mkOut { buf : list Z; pos : nat }.

Definition writeChar (max : nat) (c : Z) (o : out) : option out :=
  if (pos o <? max)%nat then b ← buf_set (buf o) (pos o) c; Some (mkOut b (pos o + 1))
  else Some (mkOut (buf o) (pos o + 1)).

(** A loop that writes one character after the other. *)
Fixpoint write_all (max : nat) (cs : list Z) (o : out) : option out :=
  match cs with
  | [] => Some o
  | c :: cs' => o ← writeChar max c o; write_all max cs' o
  end.

(** [for (; padding > 0; padding--) writeChar(buf, pos, max, c);] *)
Definition pad (max : nat) (n : Z) (c : Z) (o : out) : option out := write_all max (replicate (Z.to_nat n) c) o.

Definition upper_digits : list Z := cstr "0123456789ABCDEF".
Definition lower_digits : list Z := cstr "0123456789abcdef".

(** [do { buffer[i] = digits[n % base]; n /= base; i++; } while (n != 0);] with
    [buffer] of 64 bytes. *)
Fixpoint digits_loop (fuel : nat) (digits : list Z) (n base : Z) (buffer : list Z) : option (list Z) :=
  match fuel with
  | O => None
  | S fuel' =>
      d ← digits !! Z.to_nat (n mod base);
      if (length buffer <? 64)%nat then
        let buffer := buffer ++ [d] in
        let n := n / base in
        if negb (n =? 0) then digits_loop fuel' digits n base buffer else Some buffer
      else None
  end.

Definition integer_prefix (num base flags : Z) : list Z :=
  (if (num <? 0) && has flags FLAG_SIGNED then [ch "-"]
   else if has flags FLAG_PLUS then [ch "+"]
   else if has flags FLAG_SPACE then [ch " "] else []) ++
  (if has flags FLAG_ALTERNATE then
     if (base =? 2) || (base =? 8) || (base =? 16) then
       [ch "0"] ++
       (if base =? 16 then [if has flags FLAG_UPPER then ch "X" else ch "x"]
        else if base =? 2 then [ch "b"] else [])
     else []
   else []).

Definition formatInteger (max : nat) (num base width flags : Z) (o : out) : option out :=
  let n := if (num <? 0) && has flags FLAG_SIGNED then u64 (- u64 num) else u64 num in
  let digits := if has flags FLAG_UPPER then upper_digits else lower_digits in
  let prefix := integer_prefix num base flags in
  buffer ← digits_loop 65 digits n base [];
  let padding := if 0 <? width then width - Z.of_nat (length buffer) - Z.of_nat (length prefix) else 0 in
  let padding := if padding <? 0 then 0 else padding in
  o ← (if negb (has flags FLAG_LEFT) && negb (has flags FLAG_ZEROPAD) then pad max padding (ch " ") o else Some o);
  o ← write_all max prefix o;
  o ← (if negb (has flags FLAG_LEFT) && has flags FLAG_ZEROPAD then pad max padding (ch "0") o else Some o);
  o ← write_all max (rev buffer) o;
  if has flags FLAG_LEFT then pad max padding (ch " ") o else Some o.

(** The characters of a string; [None] when its buffer has no NUL. *)
Fixpoint chars_of (str : list Z) : option (list Z) :=
  match str with
  | [] => None
  | c :: str' => if negb (c =? 0) then cs ← chars_of str'; Some (c :: cs) else Some []
  end.

Definition stringLength (str : list Z) : option Z :=
  cs ← chars_of str; Some (Z.of_nat (length cs)).

Definition formatString (max : nat) (str : list Z) (width flags : Z) (o : out) : option out :=
  len ← stringLength str;
  let padding := if 0 <? width then width - len else 0 in
  let padding := if padding <? 0 then 0 else padding in
  o ← (if negb (has flags FLAG_LEFT) then pad max padding (ch " ") o else Some o);
  cs ← chars_of str;
  o ← write_all max cs o;
  if has flags FLAG_LEFT then pad max padding (ch " ") o else Some o.

Definition formatCharacter (max : nat) (c width flags : Z) (o : out) : option out :=
  formatString max [c; 0] width flags o.

(** [va_arg(args, int)], and the wider types. *)
Definition va_int (args : list arg) : option (Z * list arg) :=
  match args with AInt v :: args' => Some (v, args') | _ => None end.
Definition va_long (args : list arg) : option (Z * list arg) :=
  match args with ALong v :: args' => Some (v, args') | _ => None end.
Definition va_ptr (args : list arg) : option (Z * list arg) :=
  match args with APtr v :: args' => Some (v, args') | _ => None end.
Definition va_str (args : list arg) : option (option (list Z) * list arg) :=
  match args with AStr s :: args' => Some (s, args') | _ => None end.

(** The loop over the flags. *)
Fixpoint read_flags (flags : Z) (fmt : list Z) : option (Z * list Z) :=
  match fmt with
  | [] => None
  | c :: fmt' =>
      if c =? ch "#" then read_flags (Z.lor flags FLAG_ALTERNATE) fmt'
      else if c =? ch "0" then read_flags (Z.lor flags FLAG_ZEROPAD) fmt'
      else if c =? ch "-" then read_flags (Z.lor flags FLAG_LEFT) fmt'
      else if c =? ch " " then read_flags (Z.lor flags FLAG_SPACE) fmt'
      else if c =? ch "+" then read_flags (Z.lor flags FLAG_PLUS) fmt'
      else Some (flags, fmt)
  end.

(** The width, from an argument or the format. *)
Definition read_width (flags : Z) (fmt : list Z) (args : list arg)
    : option (Z * Z * list Z * list arg) :=
  c ← head fmt;
  wfa ← (if c =? ch "*" then wa ← va_int args; Some (fst wa, tail fmt, snd wa)
         else wf ← readInt fmt; Some (fst wf, snd wf, args));
  let '(width, fmt, args) := wfa in
  if width <? 0 then Some (Z.lor flags FLAG_LEFT, - width, fmt, args)
  else Some (flags, width, fmt, args).

(** The precision is read, and not used. *)
Definition read_precision (fmt : list Z) (args : list arg) : option (list Z * list arg) :=
  c ← head fmt;
  if c =? ch "." then
    let fmt := tail fmt in
    c ← head fmt;
    if c =? ch "*" then pa ← va_int args; Some (tail fmt, snd pa)
    else pf ← readInt fmt; Some (snd pf, args)
  else Some (fmt, args).

(** The length; the second test for an [l] is on the same character. *)
Definition read_length (fmt : list Z) : option (Length * list Z) :=
  c ← head fmt;
  if c =? ch "h" then
    let fmt := tail fmt in
    c ← head fmt;
    if c =? ch "h" then Some (LENGTH_CHAR, tail fmt) else Some (LENGTH_SHORT, fmt)
  else if c =? ch "l" then
    if c =? ch "l" then Some (LENGTH_LONG_LONG, tail fmt) else Some (LENGTH_LONG, fmt)
  else Some (LENGTH_INT, fmt).

Definition is_integer (c : Z) : bool :=
  (c =? ch "i") || (c =? ch "d") || (c =? ch "o") || (c =? ch "u") || (c =? ch "x") || (c =? ch "X")
  || (c =? ch "b").

Definition integer_arg (length : Length) (args : list arg) : option (Z * list arg) :=
  match length with
  | LENGTH_LONG_LONG | LENGTH_LONG => va_long args
  | LENGTH_INT => va_int args
  | LENGTH_SHORT => na ← va_int args; Some (Z.land (fst na) 0xffff, snd na)
  | LENGTH_CHAR => na ← va_int args; Some (Z.land (fst na) 0xff, snd na)
  end.

Definition integer_base (c : Z) : Z :=
  if (c =? ch "i") || (c =? ch "d") then 10
  else if c =? ch "X" then 16
  else if c =? ch "x" then 16
  else if c =? ch "o" then 8
  else if c =? ch "b" then 1
  else 10.

Definition integer_flags (c flags : Z) : Z :=
  if (c =? ch "i") || (c =? ch "d") then Z.lor flags FLAG_SIGNED
  else if c =? ch "X" then Z.lor flags FLAG_UPPER
  else flags.

(** One conversion, at its character. *)
Definition convert (max : nat) (c flags width : Z) (length : Length) (args : list arg) (o : out)
    : option (list arg * out) :=
  if is_integer c then
    na ← integer_arg length args;
    o ← formatInteger max (fst na) (integer_base c) width (integer_flags c flags) o;
    Some (snd na, o)
  else if c =? ch "p" then
    na ← va_ptr args;
    o ← formatInteger max (s64 (fst na)) 16 width FLAG_ALTERNATE o;
    Some (snd na, o)
  else if c =? ch "c" then
    na ← va_int args;
    o ← formatCharacter max (wrap 8 (fst na)) width flags o;
    Some (snd na, o)
  else if c =? ch "s" then
    sa ← va_str args;
    o ← formatString max (default (cstr "(null)" ++ [0]) (fst sa)) width flags o;
    Some (snd sa, o)
  else if c =? ch "%" then o ← writeChar max c o; Some (args, o)
  else o ← writeChar max (ch "%") o; o ← writeChar max c o; Some (args, o).

Fixpoint format_loop (fuel : nat) (max : nat) (fmt : list Z) (args : list arg) (o : out) : option out :=
  match fuel with
  | O => None
  | S fuel' =>
      c ← head fmt;
      if c =? 0 then Some o
      else if c =? ch "%" then
        f ← read_flags 0 (tail fmt);
        w ← read_width (fst f) (snd f) args;
        let '(flags, width, fmt, args) := w in
        p ← read_precision fmt args;
        l ← read_length (fst p);
        c ← head (snd l);
        r ← convert max c flags width (fst l) (snd p) o;
        format_loop fuel' max (tail (snd l)) (fst r) (snd r)
      else
        o ← writeChar max c o;
        format_loop fuel' max (tail fmt) args o
  end.

(** The buffer, [None] for [NULL], and the length of the full output. *)
Definition vsnprintf (b : option (list Z)) (size : nat) (fmt : list Z) (args : list arg)
    : option (option (list Z) * nat) :=
  let size := match b with None => O | Some _ => size end in
  o ← format_loop (S (length fmt)) size fmt args (mkOut (default [] b) 0);
  if negb (size =? 0)%nat then
    b ← (if (pos o <? size)%nat then buf_set (buf o) (pos o) 0 else buf_set (buf o) (size - 1) 0);
    Some (Some b, pos o)
  else Some (match b with None => None | Some _ => Some (buf o) end, pos o).

Definition snprintf := vsnprintf.

(** ** Writing *)

Lemma write_all_app max a b o : write_all max (a ++ b) o = (o ← write_all max a o; write_all max b o).
Proof.
  revert o. induction a as [|c a IH]; intros o; [done|]. cbn [app write_all].
  destruct (writeChar max c o) as [o1|]; [|done]. cbn [mbind option_bind]. apply IH.
Qed.

(** The buffer after the characters [cs] are written at [p]. *)
Record written (max p : nat) (cs b b' : list Z) : Prop := {
  w_len : length b' = length b;
  w_in : forall i, (p <= i < p + length cs)%nat -> (i < max)%nat -> b' !! i = cs !! (i - p)%nat;
  w_out : forall i, (i < p \/ p + length cs <= i \/ max <= i)%nat -> b' !! i = b !! i;
}.

Lemma written_nil max p b : written max p [] b b.
Proof. split; [done| |done]. cbn. lia. Qed.

Lemma write_all_ok max cs b p :
  (max <= length b)%nat ->
  exists b', write_all max cs (mkOut b p) = Some (mkOut b' (p + length cs)) /\ written max p cs b b'.
Proof.
  revert b p. induction cs as [|c cs IH]; intros b p Hb; cbn [write_all].
  { exists b. rewrite Nat.add_0_r. split; [done|apply written_nil]. }
  assert (Hw : exists b1, writeChar max c (mkOut b p) = Some (mkOut b1 (p + 1)) /\ length b1 = length b /\
    ((p < max)%nat -> b1 !! p = Some c) /\ forall i, (i <> p \/ max <= i)%nat -> b1 !! i = b !! i).
  { unfold writeChar. cbn [pos buf]. destruct (Nat.ltb_spec p max).
    - rewrite buf_set_in by lia. eexists. split; [done|]. rewrite length_insert. split; [done|split].
      + intros _. by rewrite list_lookup_insert_eq by lia.
      + intros i Hi. rewrite list_lookup_insert_ne by lia. done.
    - exists b. split; [done|split; [done|split; [lia|done]]]. }
  destruct Hw as (b1 & -> & Hl1 & Hin1 & Hout1). cbn [mbind option_bind].
  destruct (IH b1 (p + 1)%nat ltac:(lia)) as (b' & -> & [Hl Hin Hout]). exists b'.
  split; [do 2 f_equal; cbn [length]; lia|]. split; cbn [length].
  - lia.
  - intros i Hi Hm. destruct (decide (i = p)) as [->|Hne].
    + rewrite Hout, Hin1 by lia. by rewrite Nat.sub_diag.
    + rewrite Hin by lia. replace (i - p)%nat with (S (i - (p + 1))) by lia. done.
  - intros i Hi. rewrite Hout by lia. apply Hout1. lia.
Qed.

Lemma write_all_total max cs o : (max <= length (buf o))%nat -> is_Some (write_all max cs o).
Proof. destruct o as [b p]. intros H. destruct (write_all_ok max cs b p H) as (b' & -> & _). done. Qed.

(** ** Formats

    A format by its parts: flags, width, precision, length and conversion, and the
    text that they give for the arguments, without the code's numbers, masks and
    buffers. *)

Inductive field : Type := Digits (ds : list Z) | Star.
Inductive modifier : Type := MNone | MChar | MShort | MLong.

Record conversion := mkConv {
  c_flags : list Z; c_width : field; c_precision : option field; c_modifier : modifier; c_char : Z }.

Inductive item : Type := Literal (c : Z) | Conversion (x : conversion).

Definition spell_field (f : field) : list Z := match f with Digits ds => ds | Star => cstr "*" end.
Definition spell_modifier (m : modifier) : list Z :=
  match m with MNone => [] | MChar => cstr "hh" | MShort => cstr "h" | MLong => cstr "l" end.
Definition spell (i : item) : list Z :=
  match i with
  | Literal c => [c]
  | Conversion x =>
      cstr "%" ++ c_flags x ++ spell_field (c_width x) ++
      match c_precision x with Some f => cstr "." ++ spell_field f | None => [] end ++
      spell_modifier (c_modifier x) ++ [c_char x]
  end.

Definition digit (c : Z) : Prop := 48 <= c <= 57.
Definition decimal (ds : list Z) : Z := foldl (fun n c => 10 * n + (c - 48)) 0 ds.

(** The number of a field, which an [int] can hold, and the arguments behind it. *)
Inductive field_is : field -> list arg -> Z -> list arg -> Prop :=
| digits_field ds args : Forall digit ds -> decimal ds < 2 ^ 31 -> field_is (Digits ds) args (decimal ds) args
| star_field v args : - 2 ^ 31 < v < 2 ^ 31 -> field_is Star (AInt v :: args) v args.

(** A number in a base, without leading zeros. *)
Definition digit_char (upper : bool) (d : Z) : Z := if d <? 10 then 48 + d else (if upper then 65 else 97) + (d - 10).
Inductive numeral (upper : bool) (base : Z) : Z -> list Z -> Prop :=
| one_digit n : 0 <= n < base -> numeral upper base n [digit_char upper n]
| more_digits n ds : base <= n -> numeral upper base (n / base) ds -> numeral upper base n (ds ++ [digit_char upper (n mod base)]).

(** The width: on the right of the text, of spaces on the left, or of zeros
    between the prefix and the rest. *)
Definition justify (left zero : bool) (width : Z) (prefix body : list Z) : list Z :=
  let fill := replicate (Z.to_nat (width - Z.of_nat (length prefix + length body))) in
  if left then prefix ++ body ++ fill 32
  else if zero then prefix ++ fill 48 ++ body
  else fill 32 ++ prefix ++ body.

(** The argument of an integer conversion: shorter ones lose their sign. *)
Inductive integer_is : modifier -> list arg -> Z -> list arg -> Prop :=
| an_int v args : - 2 ^ 31 <= v < 2 ^ 31 -> integer_is MNone (AInt v :: args) v args
| a_short v args : integer_is MShort (AInt v :: args) (v mod 2 ^ 16) args
| a_char v args : integer_is MChar (AInt v :: args) (v mod 2 ^ 8) args
| a_long v args : - 2 ^ 63 <= v < 2 ^ 63 -> integer_is MLong (ALong v :: args) v args.

Definition sign (fs : list Z) : list Z :=
  if bool_decide (ch "+" ∈ fs) then cstr "+" else if bool_decide (ch " " ∈ fs) then cstr " " else [].
Definition alternate (fs : list Z) (prefix : string) : list Z := if bool_decide (ch "#" ∈ fs) then cstr prefix else [].

(** The text of a conversion, between its width and behind its field. *)
Inductive converts (fs : list Z) (left : bool) (width : Z) (m : modifier) : Z -> list arg -> list Z -> list arg -> Prop :=
| to_signed c args v args' ds : c ∈ cstr "di" -> integer_is m args v args' -> numeral false 10 (Z.abs v) ds ->
    converts fs left width m c args
      (justify left (bool_decide (ch "0" ∈ fs)) width (if v <? 0 then cstr "-" else sign fs) ds) args'
| to_unsigned args v args' ds : integer_is m args v args' -> numeral false 10 (v mod 2 ^ 64) ds ->
    converts fs left width m (ch "u") args (justify left (bool_decide (ch "0" ∈ fs)) width (sign fs) ds) args'
| to_octal args v args' ds : integer_is m args v args' -> numeral false 8 (v mod 2 ^ 64) ds ->
    converts fs left width m (ch "o") args
      (justify left (bool_decide (ch "0" ∈ fs)) width (sign fs ++ alternate fs "0") ds) args'
| to_hex args v args' ds : integer_is m args v args' -> numeral false 16 (v mod 2 ^ 64) ds ->
    converts fs left width m (ch "x") args
      (justify left (bool_decide (ch "0" ∈ fs)) width (sign fs ++ alternate fs "0x") ds) args'
| to_HEX args v args' ds : integer_is m args v args' -> numeral true 16 (v mod 2 ^ 64) ds ->
    converts fs left width m (ch "X") args
      (justify left (bool_decide (ch "0" ∈ fs)) width (sign fs ++ alternate fs "0X") ds) args'
| to_pointer v args ds : 0 <= v < 2 ^ 64 -> numeral false 16 v ds ->
    converts fs left width m (ch "p") (APtr v :: args) (justify false false width (cstr "0x") ds) args
| to_char v args :
    converts fs left width m (ch "c") (AInt v :: args)
      (justify left false width [] (if v mod 2 ^ 8 =? 0 then [] else [v mod 2 ^ 8])) args
| to_string cs rest args : Forall (fun c => c <> 0) cs ->
    converts fs left width m (ch "s") (AStr (Some (cs ++ 0 :: rest)) :: args) (justify left false width [] cs) args
| to_null args :
    converts fs left width m (ch "s") (AStr None :: args) (justify left false width [] (cstr "(null)")) args
| to_percent args : converts fs left width m (ch "%") args (cstr "%") args.

Inductive renders : list item -> list arg -> list Z -> Prop :=
| no_item args : renders [] args []
| a_literal c items args text : c <> 0 -> c <> ch "%" -> renders items args text -> renders (Literal c :: items) args (c :: text)
| a_conversion x items args w args1 args2 text args3 more :
    Forall (fun c => c ∈ cstr "#0- +") (c_flags x) ->
    head (spell_field (c_width x)) <> Some (ch "0") ->
    field_is (c_width x) args w args1 ->
    match c_precision x with Some f => exists p, field_is f args1 p args2 | None => args2 = args1 end ->
    converts (c_flags x) (bool_decide (ch "-" ∈ c_flags x) || (w <? 0)) (Z.abs w) (c_modifier x) (c_char x) args2 text args3 ->
    renders items args3 more -> renders (Conversion x :: items) args (text ++ more).

(** ** Numbers *)

Lemma digits_lookup (upper : bool) d : 0 <= d < 16 ->
  (if upper then upper_digits else lower_digits) !! Z.to_nat d = Some (digit_char upper d).
Proof.
  intros Hd. assert (H : exists k : nat, d = Z.of_nat k /\ (k < 16)%nat) by (exists (Z.to_nat d); lia).
  destruct H as (k & -> & Hk). rewrite Nat2Z.id. do 16 (destruct k as [|k]; [by destruct upper|]). lia.
Qed.

(** A number below [2 ^ k] has at most [k] digits. *)
Lemma numeral_length upper base n ds k : 2 <= base -> numeral upper base n ds -> (0 < k)%nat -> n < 2 ^ Z.of_nat k ->
  (0 < length ds <= k)%nat /\ 0 <= n.
Proof.
  intros Hb H. revert k. induction H as [n Hn|n ds Hn H IH]; intros k Hk Hlt; [cbn; lia|].
  assert (Hq : 1 <= n / base) by (apply Z.div_le_lower_bound; lia).
  assert (Hd : n / base < 2 ^ Z.of_nat (k - 1)).
  { apply Z.div_lt_upper_bound; [lia|]. replace (Z.of_nat k) with (1 + Z.of_nat (k - 1)) in Hlt by lia.
    rewrite Z.pow_add_r in Hlt by lia. pose proof (Z.pow_pos_nonneg 2 (Z.of_nat (k - 1)) ltac:(lia) ltac:(lia)). nia. }
  destruct (decide (k = 1%nat)) as [->|Hne]; [cbn in Hd; lia|]. destruct (IH (k - 1)%nat ltac:(lia) Hd) as [Hl _].
  rewrite length_app. cbn [length]. lia.
Qed.

Lemma digits_loop_ok upper base n ds : 2 <= base <= 16 -> numeral upper base n ds ->
  forall fuel buffer, (length ds <= fuel)%nat -> (length buffer + length ds <= 64)%nat ->
  digits_loop fuel (if upper then upper_digits else lower_digits) n base buffer = Some (buffer ++ rev ds).
Proof.
  intros Hb H. induction H as [n Hn|n ds Hn H IH]; intros fuel buffer Hf Hl; [|rewrite length_app in Hf, Hl]; cbn [length] in *;
    (destruct fuel as [|fuel]; [lia|]); cbn [digits_loop]; pose proof (Z.mod_pos_bound n base ltac:(lia));
    rewrite digits_lookup by lia; cbn [mbind option_bind]; rewrite (proj2 (Nat.ltb_lt _ _)) by lia.
  - by rewrite Z.div_small, Z.mod_small by lia.
  - assert (Hq : 1 <= n / base) by (apply Z.div_le_lower_bound; lia).
    rewrite (proj2 (Z.eqb_neq _ 0)) by lia. cbn [negb]. rewrite IH by (rewrite ?length_app; cbn [length]; lia).
    by rewrite rev_app_distr, <- app_assoc.
Qed.

(** The number that is printed: the magnitude for a signed conversion. *)
Definition printed (num flags : Z) : Z :=
  if (num <? 0) && has flags FLAG_SIGNED then u64 (- u64 num) else u64 num.

Lemma pad_count max n c o : pad max (if n <? 0 then 0 else n) c o = write_all max (replicate (Z.to_nat n) c) o.
Proof. unfold pad. destruct (Z.ltb_spec n 0); [|done]. by rewrite !Z2Nat.nonpos by lia. Qed.

(** The padding, on the side the flags say. *)
Lemma write_justified max (left zero : bool) n prefix body (o : out) :
  ((o ← (if negb left && negb zero then pad max (if n <? 0 then 0 else n) (ch " ") o else Some o : option out);
   o ← write_all max prefix o;
   o ← (if negb left && zero then pad max (if n <? 0 then 0 else n) (ch "0") o else Some o);
   o ← write_all max body o;
   if left then pad max (if n <? 0 then 0 else n) (ch " ") o else Some o) : option out) =
  write_all max (justify left zero (n + Z.of_nat (length prefix + length body)) prefix body) o.
Proof.
  unfold justify. replace (n + Z.of_nat (length prefix + length body) - Z.of_nat (length prefix + length body)) with n by lia.
  set (w := write_all max). destruct left; [|destruct zero]; cbn [negb andb]; rewrite ?andb_true_r, ?andb_false_r; cbn [mbind option_bind].
  - unfold w. rewrite write_all_app. destruct (write_all max prefix o) as [o1|]; cbn [mbind option_bind]; [|done].
    rewrite write_all_app. destruct (write_all max body o1) as [o2|]; cbn [mbind option_bind]; [apply pad_count|done].
  - unfold w. rewrite write_all_app. destruct (write_all max prefix o) as [o1|]; cbn [mbind option_bind]; [|done].
    rewrite write_all_app, pad_count. destruct (write_all max (replicate _ _) o1) as [o2|]; cbn [mbind option_bind]; [|done].
    by destruct (write_all max body o2).
  - unfold w. rewrite write_all_app, pad_count. destruct (write_all max (replicate _ _) o) as [o1|]; cbn [mbind option_bind]; [|done].
    rewrite write_all_app. destruct (write_all max prefix o1) as [o2|]; cbn [mbind option_bind]; [|done]. by destruct (write_all max body o2).
Qed.

Lemma justify_width left zero width width' prefix body :
  Z.max width (Z.of_nat (length prefix + length body)) = Z.max width' (Z.of_nat (length prefix + length body)) ->
  justify left zero width prefix body = justify left zero width' prefix body.
Proof.
  intros H. unfold justify.
  assert (E : Z.to_nat (width - Z.of_nat (length prefix + length body)) = Z.to_nat (width' - Z.of_nat (length prefix + length body))) by lia.
  by rewrite E.
Qed.

Lemma formatInteger_writes max num base width flags o ds : 2 <= base <= 16 -> 0 <= width ->
  numeral (has flags FLAG_UPPER) base (printed num flags) ds ->
  formatInteger max num base width flags o =
    write_all max (justify (has flags FLAG_LEFT) (has flags FLAG_ZEROPAD) width (integer_prefix num base flags) ds) o.
Proof.
  intros Hb Hw Hds. unfold formatInteger. fold (printed num flags).
  assert (Hp : 0 <= printed num flags < 2 ^ 64) by (unfold printed; destruct (_ && _); apply wrap_range; lia).
  destruct (numeral_length _ _ _ ds 64 (proj1 Hb) Hds (Nat.lt_0_succ 63) (proj2 Hp)) as [Hl _].
  rewrite (digits_loop_ok _ _ _ ds Hb Hds) by (cbn [length]; lia). cbn [app mbind option_bind].
  set (n := if 0 <? width then _ else 0).
  rewrite (write_justified max (has flags FLAG_LEFT) (has flags FLAG_ZEROPAD) n (integer_prefix num base flags) (rev (rev ds)) o).
  rewrite rev_involutive. f_equal. apply justify_width. unfold n. rewrite length_rev. destruct (Z.ltb_spec 0 width); lia.
Qed.

(** ** Strings *)

Lemma chars_of_ok cs rest : Forall (fun c => c <> 0) cs -> chars_of (cs ++ 0 :: rest) = Some cs.
Proof. induction 1 as [|c cs Hc _ IH]; [done|]. cbn [app chars_of]. rewrite (proj2 (Z.eqb_neq c 0)) by done. cbn [negb]. by rewrite IH. Qed.

Lemma formatString_writes max str cs width flags o : 0 <= width -> chars_of str = Some cs ->
  formatString max str width flags o = write_all max (justify (has flags FLAG_LEFT) false width [] cs) o.
Proof.
  intros Hw Hs. unfold formatString, stringLength. rewrite Hs. cbn [mbind option_bind].
  set (n := if 0 <? width then _ else 0).
  rewrite <- (justify_width _ _ (n + Z.of_nat (length (@nil Z) + length cs))) by (unfold n; cbn [length]; destruct (Z.ltb_spec 0 width); lia).
  rewrite <- write_justified. cbn [write_all mbind option_bind]. rewrite andb_true_r, andb_false_r.
  by destruct (if negb _ then _ else _).
Qed.

(** ** Reading a conversion *)

Definition flag_bit (c : Z) : Z :=
  if c =? ch "#" then FLAG_ALTERNATE else if c =? ch "0" then FLAG_ZEROPAD else if c =? ch "-" then FLAG_LEFT
  else if c =? ch " " then FLAG_SPACE else if c =? ch "+" then FLAG_PLUS else 0.

Definition mask (fs : list Z) : Z := foldl (fun m c => Z.lor m (flag_bit c)) 0 fs.

Definition is_flag (c : Z) : Prop := c ∈ cstr "#0- +".

Lemma is_flag_cases c : is_flag c -> c = 35 \/ c = 48 \/ c = 45 \/ c = 32 \/ c = 43.
Proof. unfold is_flag. cbn. rewrite !elem_of_cons, elem_of_nil. tauto. Qed.

Lemma read_flags_ok fs m c rest : Forall is_flag fs -> ~ is_flag c ->
  read_flags m (fs ++ c :: rest) = Some (foldl (fun m c => Z.lor m (flag_bit c)) m fs, c :: rest).
Proof.
  intros Hfs Hc. revert m. induction Hfs as [|f fs Hf _ IH]; intros m; cbn [app foldl].
  - assert (Hn : forall x, is_flag x -> (c =? x) = false) by (intros x Hx; apply Z.eqb_neq; by intros ->).
    cbn [read_flags]. rewrite !Hn; [done|..]; unfold is_flag; cbn; rewrite !elem_of_cons; tauto.
  - rewrite <- IH. by destruct (is_flag_cases f Hf) as [-> | [-> | [-> | [-> | ->]]]].
Qed.

Lemma has_lor a b f : has (Z.lor a b) f = has a f || has b f.
Proof.
  unfold has. rewrite Z.land_lor_distr_l. destruct (Z.eqb_spec (Z.lor (Z.land a f) (Z.land b f)) 0) as [E|E]; cbn [negb].
  - apply Z.lor_eq_0_iff in E as [-> ->]. done.
  - destruct (Z.eqb_spec (Z.land a f) 0) as [Ea|], (Z.eqb_spec (Z.land b f) 0) as [Eb|]; try done. by rewrite Ea, Eb in E.
Qed.

(** A flag is set when its character is there. *)
Lemma mask_has fs f c : Forall is_flag fs -> (forall d, is_flag d -> has (flag_bit d) f = bool_decide (d = c)) ->
  has (mask fs) f = bool_decide (c ∈ fs).
Proof.
  intros Hfs Hd. unfold mask. assert (G : forall m, has (foldl (fun m c => Z.lor m (flag_bit c)) m fs) f = has m f || bool_decide (c ∈ fs)).
  { induction Hfs as [|d fs Hx _ IH]; intros m; cbn [foldl]; [by rewrite orb_false_r|]. rewrite IH, has_lor, (Hd d Hx), <- orb_assoc. f_equal.
    destruct (decide (d = c)) as [->|Hne].
    - rewrite (bool_decide_eq_true_2 (c = c)), (bool_decide_eq_true_2 (c ∈ c :: fs)) by (done || by left). done.
    - rewrite bool_decide_eq_false_2 by done. cbn [orb]. apply bool_decide_ext. rewrite elem_of_cons. naive_solver. }
  rewrite G. by unfold has.
Qed.

Lemma flag_has fs f c : Forall is_flag fs -> is_flag c -> flag_bit c = f -> has (mask fs) f = bool_decide (c ∈ fs).
Proof.
  intros Hfs Hc <-. apply mask_has; [done|]. intros d Hd. 
  destruct (is_flag_cases c Hc) as [-> | [-> | [-> | [-> | ->]]]], (is_flag_cases d Hd) as [-> | [-> | [-> | [-> | ->]]]]; reflexivity.
Qed.

Lemma flag_plain fs f : Forall is_flag fs -> (forall d, is_flag d -> has (flag_bit d) f = false) -> has (mask fs) f = false.
Proof.
  intros Hfs Hd. unfold mask. assert (G : forall m, has (foldl (fun m c => Z.lor m (flag_bit c)) m fs) f = has m f).
  { induction Hfs as [|d fs Hx _ IH]; intros m; cbn [foldl]; [done|]. by rewrite IH, has_lor, (Hd d Hx), orb_false_r. }
  by rewrite G.
Qed.

Lemma readInt_ok ds c rest : Forall digit ds -> ~ digit c -> readInt (ds ++ c :: rest) = Some (decimal ds, c :: rest).
Proof.
  intros Hds Hc. unfold readInt, decimal. generalize 0 at 1 2. induction Hds as [|d ds Hd _ IH]; intros n; cbn [app read_int_loop foldl].
  - change (ch "0") with 48. change (ch "9") with 57. unfold digit in Hc. by rewrite (proj2 (andb_false_iff _ _)) by lia.
  - change (ch "0") with 48. change (ch "9") with 57. unfold digit in Hd. rewrite (proj2 (andb_true_iff _ _)) by lia. 
    rewrite IH. do 4 f_equal. lia.
Qed.

Lemma decimal_positive ds : Forall digit ds -> 0 <= decimal ds.
Proof.
  intros Hds. unfold decimal. assert (G : forall n, 0 <= n -> 0 <= foldl (fun n c => 10 * n + (c - 48)) n ds); [|by apply G].
  induction Hds as [|d ds Hd _ IH]; intros n Hn; cbn [foldl]; [done|]. apply IH. unfold digit in Hd. lia.
Qed.

(** What follows a part of a conversion is not read as more of it. *)
Definition after_number (c : Z) : Prop := ~ digit c /\ c <> 42.

Lemma read_width_ok m w args v args1 c rest : field_is w args v args1 -> after_number c ->
  read_width m (spell_field w ++ c :: rest) args =
    Some (if v <? 0 then Z.lor m FLAG_LEFT else m, Z.abs v, c :: rest, args1).
Proof.
  intros Hf [Hc Hs]. unfold read_width. destruct Hf as [ds args Hds _|v args _]; cbn [spell_field].
  - assert (Hh : exists d l, ds ++ c :: rest = d :: l /\ (d =? ch "*") = false).
    { destruct Hds as [|d ds Hd _]; [exists c, rest|exists d, (ds ++ c :: rest)]; (split; [done|]); apply Z.eqb_neq. 1: exact Hs. intros ->. by destruct Hd. }
    destruct Hh as (d & l & E & Hd). rewrite E at 1. cbn [head mbind option_bind]. rewrite Hd, readInt_ok by done. cbn [mbind option_bind fst snd].
    pose proof (decimal_positive ds Hds). destruct (Z.ltb_spec (decimal ds) 0); [lia|]. by rewrite Z.abs_eq.
  - change (cstr "*" ++ c :: rest) with (42 :: c :: rest). cbn [head tail mbind option_bind va_int fst snd]. change (42 =? ch "*") with true.
    cbn [mbind option_bind]. destruct (Z.ltb_spec v 0); [by rewrite Z.abs_neq by lia|by rewrite Z.abs_eq by lia].
Qed.

Definition spell_precision (p : option field) : list Z := match p with Some f => cstr "." ++ spell_field f | None => [] end.
Definition precision_is (p : option field) (args args' : list arg) : Prop :=
  match p with Some f => exists v, field_is f args v args' | None => args' = args end.

Lemma read_precision_ok p args args2 c rest : precision_is p args args2 -> after_number c -> c <> 46 ->
  read_precision (spell_precision p ++ c :: rest) args = Some (c :: rest, args2).
Proof.
  intros Hp [Hc Hs] Hd. unfold read_precision. destruct p as [f|]; cbn [spell_precision precision_is] in *.
  - destruct Hp as [v Hf]. rewrite <- app_assoc. change (cstr "." ++ ?l) with (46 :: l).
    cbn [head tail mbind option_bind]. change (46 =? ch ".") with true. cbn iota.
    destruct Hf as [ds args Hds _|v args _]; cbn [spell_field]; [|done].
    assert (Hh : exists d l, ds ++ c :: rest = d :: l /\ (d =? ch "*") = false).
    { destruct Hds as [|d ds Hd' _]; [exists c, rest|exists d, (ds ++ c :: rest)]; (split; [done|]); apply Z.eqb_neq. 1: exact Hs. intros ->. by destruct Hd'. }
    destruct Hh as (d & l & E & Hd'). rewrite E at 1. cbn [head mbind option_bind]. rewrite Hd', readInt_ok by done. done.
  - subst args2. cbn [app head mbind option_bind]. by rewrite (proj2 (Z.eqb_neq c (ch "."))) by done.
Qed.

Definition conversion_char (c : Z) : Prop := c ∈ cstr "diuoxXpcs%".

Definition length_of (m : modifier) : Length :=
  match m with MNone => LENGTH_INT | MChar => LENGTH_CHAR | MShort => LENGTH_SHORT | MLong => LENGTH_LONG_LONG end.

Lemma conversion_cases c : conversion_char c ->
  c = 100 \/ c = 105 \/ c = 117 \/ c = 111 \/ c = 120 \/ c = 88 \/ c = 112 \/ c = 99 \/ c = 115 \/ c = 37.
Proof. unfold conversion_char. cbn. rewrite !elem_of_cons, elem_of_nil. tauto. Qed.

Lemma read_length_ok m c rest : conversion_char c ->
  read_length (spell_modifier m ++ c :: rest) = Some (length_of m, c :: rest).
Proof. intros Hc. by destruct (conversion_cases c Hc) as [-> | [-> | [-> | [-> | [-> | [-> | [-> | [-> | [-> | ->]]]]]]]]], m. Qed.

(** The first character of the modifier and the conversion, of these and the
    precision, of these and the width. *)
Lemma modifier_head m c rest : conversion_char c -> exists d l, spell_modifier m ++ c :: rest = d :: l /\
  after_number d /\ d <> 46 /\ ~ is_flag d.
Proof.
  intros Hc. assert (G : forall d, conversion_char d \/ d = 104 \/ d = 108 -> after_number d /\ d <> 46 /\ ~ is_flag d).
  { intros d Hd. unfold after_number, digit. assert (Hn : d <> 42 /\ ~ (48 <= d <= 57) /\ d <> 46 /\ ~ is_flag d); [|tauto].
    destruct Hd as [Hd|Hd]; [apply conversion_cases in Hd|]; (split_and!; [lia..|]); intros Hf%is_flag_cases; lia. }
  destruct m; [exists c, rest|exists 104, (104 :: c :: rest)|exists 104, (c :: rest)|exists 108, (c :: rest)]; (split; [done|]); apply G; tauto.
Qed.

Lemma precision_head p d l : after_number d -> d <> 46 -> ~ is_flag d ->
  exists e k, spell_precision p ++ d :: l = e :: k /\ after_number e /\ ~ is_flag e.
Proof.
  intros H1 H2 H3. destruct p as [f|]; [|by exists d, l]. exists 46, (spell_field f ++ d :: l). split; [done|]. unfold after_number, digit.
  split; [lia|]. intros Hf%is_flag_cases. lia.
Qed.

Lemma width_head w args v args1 e k : field_is w args v args1 -> head (spell_field w) <> Some (ch "0") -> ~ is_flag e ->
  exists g j, spell_field w ++ e :: k = g :: j /\ ~ is_flag g.
Proof.
  intros Hf Hz He. destruct Hf as [ds args Hds _|v args _]; cbn [spell_field] in *.
  - destruct Hds as [|d ds Hd _]; [by exists e, k|]. exists d, (ds ++ e :: k). split; [done|]. cbn [head] in Hz.
    intros Hf%is_flag_cases. unfold digit in Hd. destruct (decide (d = 48)) as [->|]; [by apply Hz|lia].
  - exists 42, (e :: k). split; [done|]. intros Hf%is_flag_cases. lia.
Qed.

(** ** One conversion *)

(** The flags of the code stand for the flags of the format. *)
Record flags_are (fs : list Z) (left : bool) (flags : Z) : Prop := {
  f_left : has flags FLAG_LEFT = left;
  f_zero : has flags FLAG_ZEROPAD = bool_decide (ch "0" ∈ fs);
  f_plus : has flags FLAG_PLUS = bool_decide (ch "+" ∈ fs);
  f_space : has flags FLAG_SPACE = bool_decide (ch " " ∈ fs);
  f_alternate : has flags FLAG_ALTERNATE = bool_decide (ch "#" ∈ fs);
  f_signed : has flags FLAG_SIGNED = false;
  f_upper : has flags FLAG_UPPER = false;
}.

Lemma mask_flags fs (b : bool) : Forall is_flag fs ->
  flags_are fs (bool_decide (ch "-" ∈ fs) || b) (if b then Z.lor (mask fs) FLAG_LEFT else mask fs).
Proof.
  intros Hfs. assert (H : forall f, f <> FLAG_LEFT -> has FLAG_LEFT f = false -> has (if b then Z.lor (mask fs) FLAG_LEFT else mask fs) f = has (mask fs) f).
  { intros f _ Hf. destruct b; [|done]. by rewrite has_lor, Hf, orb_false_r. }
  assert (Hc : forall c, c ∈ cstr "#0- +" -> is_flag c) by done.
  split; [|rewrite H by done..].
  - destruct b; [rewrite has_lor; change (has FLAG_LEFT FLAG_LEFT) with true|]; rewrite ?orb_true_r, ?orb_false_r; [done|].
    apply flag_has; [done| |done]. apply Hc. cbn. rewrite !elem_of_cons. tauto.
  - apply flag_has; [done| |done]. apply Hc. cbn. rewrite !elem_of_cons. tauto.
  - apply flag_has; [done| |done]. apply Hc. cbn. rewrite !elem_of_cons. tauto.
  - apply flag_has; [done| |done]. apply Hc. cbn. rewrite !elem_of_cons. tauto.
  - apply flag_has; [done| |done]. apply Hc. cbn. rewrite !elem_of_cons. tauto.
  - apply flag_plain; [done|]. intros d Hd. by destruct (is_flag_cases d Hd) as [-> | [-> | [-> | [-> | ->]]]].
  - apply flag_plain; [done|]. intros d Hd. by destruct (is_flag_cases d Hd) as [-> | [-> | [-> | [-> | ->]]]].
Qed.

Lemma integer_arg_ok m args v args' : integer_is m args v args' ->
  integer_arg (length_of m) args = Some (v, args') /\ - 2 ^ 63 <= v < 2 ^ 63.
Proof.
  intros H. destruct H as [v args H|v args|v args|v args H]; cbn [integer_arg length_of va_int va_long mbind option_bind fst snd].
  - split; [done|lia].
  - change 0xffff with (Z.ones 16). rewrite Z.land_ones by lia. pose proof (Z.mod_pos_bound v (2 ^ 16) ltac:(lia)). split; [done|lia].
  - change 0xff with (Z.ones 8). rewrite Z.land_ones by lia. pose proof (Z.mod_pos_bound v (2 ^ 8) ltac:(lia)). split; [done|lia].
  - done.
Qed.

(** An integer conversion, for the flags that [integer_flags] makes. *)
Lemma convert_integer max c flags width m args v args' ds o : is_integer c = true -> 2 <= integer_base c <= 16 -> 0 <= width ->
  integer_is m args v args' ->
  numeral (has (integer_flags c flags) FLAG_UPPER) (integer_base c) (printed v (integer_flags c flags)) ds ->
  convert max c flags width (length_of m) args o =
    (o ← write_all max (justify (has (integer_flags c flags) FLAG_LEFT) (has (integer_flags c flags) FLAG_ZEROPAD) width
       (integer_prefix v (integer_base c) (integer_flags c flags)) ds) o; Some (args', o)).
Proof.
  intros Hc Hb Hw Ha Hds. unfold convert. rewrite Hc. destruct (integer_arg_ok m args v args' Ha) as [-> _]. cbn [mbind option_bind fst snd].
  by rewrite (formatInteger_writes _ _ _ _ _ _ ds).
Qed.

Lemma printed_signed v flags : - 2 ^ 63 <= v < 2 ^ 63 -> has flags FLAG_SIGNED = true -> printed v flags = Z.abs v.
Proof.
  intros Hv Hf. unfold printed. rewrite Hf, andb_true_r. destruct (Z.ltb_spec v 0).
  - unfold u64, wrap. rewrite <- Z.sub_0_l, Zminus_mod_idemp_r, Z.mod_small by lia. lia.
  - rewrite (wrap_small 64) by lia. lia.
Qed.

Lemma printed_unsigned v flags : has flags FLAG_SIGNED = false -> printed v flags = v mod 2 ^ 64.
Proof. intros Hf. unfold printed. by rewrite Hf, andb_false_r. Qed.

(** The prefix of the code is the sign and the alternate form. *)
Lemma prefix_is v base flags fs left : flags_are fs left flags -> forall flags',
  (forall f, f = FLAG_PLUS \/ f = FLAG_SPACE \/ f = FLAG_ALTERNATE -> has flags' f = has flags f) ->
  integer_prefix v base flags' =
    (if (v <? 0) && has flags' FLAG_SIGNED then cstr "-" else sign fs) ++
    (if bool_decide (ch "#" ∈ fs) then
       if (base =? 2) || (base =? 8) || (base =? 16) then
         [48] ++ (if base =? 16 then [if has flags' FLAG_UPPER then 88 else 120] else if base =? 2 then [98] else [])
       else []
     else []).
Proof. intros [] flags' H. unfold integer_prefix. rewrite (H FLAG_PLUS), (H FLAG_SPACE), (H FLAG_ALTERNATE) by tauto. by rewrite f_plus0, f_space0, f_alternate0. Qed.

Lemma has_other flags f g : has f g = false -> has (Z.lor flags f) g = has flags g.
Proof. intros H. by rewrite has_lor, H, orb_false_r. Qed.

Lemma s64_mod v : 0 <= v < 2 ^ 64 -> s64 v mod 2 ^ 64 = v.
Proof.
  intros Hv. unfold s64. cbv zeta. rewrite (wrap_small 64) by lia. destruct (v <? 2 ^ 63); [by apply Z.mod_small|].
  replace (v - 2 ^ 64) with (v + (-1) * 2 ^ 64) by lia. by rewrite Z.mod_add, Z.mod_small by lia.
Qed.

Lemma convert_ok fs left max c flags width m args text args' o :
  flags_are fs left flags -> 0 <= width -> converts fs left width m c args text args' ->
  convert max c flags width (length_of m) args o = (o ← write_all max text o; Some (args', o)).
Proof.
  intros Hf Hw H. pose proof Hf as [Hl Hz Hp Hs Ha Hsg Hu].
  assert (Hsame : forall f, f = FLAG_PLUS \/ f = FLAG_SPACE \/ f = FLAG_ALTERNATE -> has flags f = has flags f) by done.
  assert (Hplain : forall c v ds, is_integer c = true -> integer_flags c flags = flags -> 2 <= integer_base c <= 16 ->
    integer_is m args v args' -> numeral false (integer_base c) (v mod 2 ^ 64) ds ->
    convert max c flags width (length_of m) args o =
      (o ← write_all max (justify left (bool_decide (ch "0" ∈ fs)) width (integer_prefix v (integer_base c) flags) ds) o; Some (args', o))).
  { intros c' v ds E1 E2 E3 Hi Hn. rewrite (convert_integer max c' flags width m args v args' ds); rewrite ?E2, ?Hl, ?Hz; try done.
    by rewrite Hu, printed_unsigned. }
  destruct H as [c args v args' ds Hc Hi Hn|args v args' ds Hi Hn|args v args' ds Hi Hn|args v args' ds Hi Hn|args v args' ds Hi Hn|v args ds Hv Hn|v args|cs rest args Hcs|args|args].
  - assert (Hsel : is_integer c = true /\ integer_base c = 10 /\ integer_flags c flags = Z.lor flags FLAG_SIGNED).
    { cbn in Hc. rewrite !elem_of_cons, elem_of_nil in Hc. by destruct Hc as [-> | [-> | []]]. }
    destruct Hsel as (E1 & E2 & E3). pose proof (proj2 (integer_arg_ok _ _ _ _ Hi)) as Hv.
    assert (Hg : has (Z.lor flags FLAG_SIGNED) FLAG_SIGNED = true) by (rewrite has_lor; apply orb_true_r).
    rewrite (convert_integer max c flags width m args v args' ds); rewrite ?E1, ?E2, ?E3; try done.
    + rewrite !(has_other flags FLAG_SIGNED) by done. rewrite Hl, Hz.
      rewrite (prefix_is v 10 flags fs left Hf) by (intros f [-> | [-> | ->]]; by apply has_other).
      rewrite Hg, andb_true_r. change ((10 =? 2) || (10 =? 8) || (10 =? 16)) with false. cbn iota.
      destruct (bool_decide (ch "#" ∈ fs)); by rewrite app_nil_r.
    + by rewrite has_other, Hu, printed_signed.
  - rewrite (Hplain (ch "u") v ds) by done. rewrite (prefix_is v _ flags fs left Hf flags Hsame), Hsg, andb_false_r.
    change (integer_base (ch "u")) with 10. change ((10 =? 2) || (10 =? 8) || (10 =? 16)) with false. cbn iota.
    destruct (bool_decide (ch "#" ∈ fs)); by rewrite app_nil_r.
  - rewrite (Hplain (ch "o") v ds) by done. rewrite (prefix_is v _ flags fs left Hf flags Hsame), Hsg, andb_false_r. done.
  - rewrite (Hplain (ch "x") v ds) by done. rewrite (prefix_is v _ flags fs left Hf flags Hsame), Hsg, Hu, andb_false_r. done.
  - assert (Hup : has (Z.lor flags FLAG_UPPER) FLAG_UPPER = true) by (rewrite has_lor; apply orb_true_r).
    rewrite (convert_integer max (ch "X") flags width m args v args' ds); try done;
      change (integer_flags (ch "X") flags) with (Z.lor flags FLAG_UPPER).
    + rewrite !(has_other flags FLAG_UPPER) by done. rewrite Hl, Hz.
      rewrite (prefix_is v _ flags fs left Hf) by (intros f [-> | [-> | ->]]; by apply has_other).
      by rewrite Hup, has_other, Hsg, andb_false_r.
    + rewrite Hup, printed_unsigned; [done|]. by rewrite has_other.
  - assert (E : convert max (ch "p") flags width (length_of m) (APtr v :: args) o =
      (o ← formatInteger max (s64 v) 16 width FLAG_ALTERNATE o; Some (args, o))) by done.
    rewrite E, (formatInteger_writes max (s64 v) 16 width FLAG_ALTERNATE o ds); try done.
    + unfold integer_prefix. change (has FLAG_ALTERNATE FLAG_SIGNED) with false. by rewrite andb_false_r.
    + rewrite printed_unsigned, s64_mod by done. exact Hn.
  - assert (E : convert max (ch "c") flags width (length_of m) (AInt v :: args) o =
      (o ← formatString max [wrap 8 v; 0] width flags o; Some (args, o))) by done.
    rewrite E, (formatString_writes max _ (if v mod 2 ^ 8 =? 0 then [] else [v mod 2 ^ 8])), Hl; [done..|].
    cbn [chars_of]. unfold wrap. by destruct (v mod 2 ^ 8 =? 0).
  - assert (E : convert max (ch "s") flags width (length_of m) (AStr (Some (cs ++ 0 :: rest)) :: args) o =
      (o ← formatString max (cs ++ 0 :: rest) width flags o; Some (args, o))) by done.
    rewrite E, (formatString_writes max _ cs), Hl; [done..|]. by apply chars_of_ok.
  - assert (E : convert max (ch "s") flags width (length_of m) (AStr None :: args) o =
      (o ← formatString max (cstr "(null)" ++ [0]) width flags o; Some (args, o))) by done.
    by rewrite E, (formatString_writes max _ (cstr "(null)")), Hl.
  - assert (E : convert max (ch "%") flags width (length_of m) args o = (o ← writeChar max (ch "%") o; Some (args, o))) by done.
    rewrite E. change (cstr "%") with [ch "%"]. cbn [write_all]. by destruct (writeChar max (ch "%") o).
Qed.

(** ** The format *)

Definition spell_all (items : list item) : list Z := concat (spell <$> items).

(** A conversion, behind its [%]. *)
Lemma format_conversion fuel max x args w args1 args2 text args3 rest o :
  Forall is_flag (c_flags x) -> head (spell_field (c_width x)) <> Some (ch "0") ->
  field_is (c_width x) args w args1 -> precision_is (c_precision x) args1 args2 ->
  converts (c_flags x) (bool_decide (ch "-" ∈ c_flags x) || (w <? 0)) (Z.abs w) (c_modifier x) (c_char x) args2 text args3 ->
  format_loop (S fuel) max (spell (Conversion x) ++ rest) args o =
    (o ← write_all max text o; format_loop fuel max rest args3 o).
Proof.
  intros Hfs Hz Hw Hp Hc. destruct x as [fs wd p m c]. cbn [c_flags c_width c_precision c_modifier c_char] in *.
  assert (Hcc : conversion_char c) by (destruct Hc; unfold conversion_char in *; cbn in *; rewrite ?elem_of_cons in *; tauto).
  assert (Es : spell (Conversion (mkConv fs wd p m c)) ++ rest =
    ch "%" :: fs ++ spell_field wd ++ spell_precision p ++ spell_modifier m ++ c :: rest).
  { unfold spell. cbn [c_flags c_width c_precision c_modifier c_char]. change (cstr "%") with [ch "%"]. cbn [app]. by rewrite <- !app_assoc. }
  rewrite Es. cbn [format_loop head tail mbind option_bind]. change (ch "%" =? 0) with false. change (ch "%" =? ch "%") with true. cbn iota.
  destruct (modifier_head m c rest Hcc) as (d & l & Em & Hd1 & Hd2 & Hd3). 
  destruct (precision_head p d l Hd1 Hd2 Hd3) as (e & k & Ep & He1 & He2).
  destruct (width_head wd args w args1 e k Hw Hz He2) as (g & j & Ew & Hg).
  rewrite Em, Ep, Ew, (read_flags_ok fs 0 g j Hfs Hg). cbn [mbind option_bind fst snd]. fold (mask fs).
  rewrite <- Ew, (read_width_ok _ wd args w args1 e k Hw He1). cbn [mbind option_bind fst snd].
  rewrite <- Ep, (read_precision_ok p args1 args2 d l Hp Hd1 Hd2). cbn [mbind option_bind fst snd].
  rewrite <- Em, (read_length_ok m c rest Hcc). cbn [mbind option_bind fst snd head tail].
  rewrite (convert_ok fs _ max c _ (Z.abs w) m args2 text args3 o (mask_flags fs (w <? 0) Hfs) ltac:(lia) Hc).
  by destruct (write_all max text o).
Qed.

Lemma format_loop_ok max items args text rest : renders items args text ->
  forall fuel o, (length (spell_all items) < fuel)%nat ->
  format_loop fuel max (spell_all items ++ 0 :: rest) args o = write_all max text o.
Proof.
  induction 1 as [args|c items args text H0 Hp H IH|x items args w args1 args2 text args3 more Hfs Hz Hw Hp Hc H IH]; intros fuel o Hf.
  - destruct fuel as [|fuel]; [cbn in Hf; lia|]. done.
  - change (spell_all (Literal c :: items)) with (c :: spell_all items) in *. destruct fuel as [|fuel]; [cbn in Hf; lia|].
    cbn [app format_loop head tail mbind option_bind write_all length] in *. rewrite (proj2 (Z.eqb_neq c 0)), (proj2 (Z.eqb_neq c (ch "%"))) by done.
    destruct (writeChar max c o) as [o1|]; [|done]. cbn [mbind option_bind]. apply IH. lia.
  - change (spell_all (Conversion x :: items)) with (spell (Conversion x) ++ spell_all items) in *. rewrite length_app in Hf.
    assert (Hl : (0 < length (spell (Conversion x)))%nat) by (cbn; lia). destruct fuel as [|fuel]; [lia|].
    rewrite <- app_assoc, (format_conversion fuel max x args w args1 args2 text args3 (spell_all items ++ 0 :: rest) o Hfs Hz Hw Hp Hc).
    rewrite write_all_app. destruct (write_all max text o) as [o1|]; [|done]. cbn [mbind option_bind]. apply IH. lia.
Qed.

(** What is written, as a list. *)
Lemma written_list max cs b b' : (max <= length b)%nat -> written max 0 cs b b' -> b' = take max cs ++ drop (min max (length cs)) b.
Proof.
  intros Hm [Hl Hin Hout]. apply list_eq. intros i. destruct (decide (i < min max (length cs))%nat) as [Hi|Hi].
  - rewrite Hin by lia. rewrite lookup_app_l by (rewrite length_take; lia). rewrite lookup_take_lt by lia. by rewrite Nat.sub_0_r.
  - rewrite Hout by lia. rewrite lookup_app_r by (rewrite length_take; lia). rewrite lookup_drop, length_take. by replace (min max (length cs) + (i - min max (length cs)))%nat with i by lia.
Qed.

(** The NUL behind what fits. *)
Lemma terminated size (text b : list Z) : (0 < size <= length b)%nat -> let n := min (size - 1) (length text) in
  <[n := 0]> (take size text ++ drop (min size (length text)) b) = take (size - 1) text ++ 0 :: drop (S n) b.
Proof.
  intros Hs n. assert (Hn : (n < length (take size text ++ drop (min size (length text)) b))%nat).
  { rewrite length_app, length_take, length_drop. lia. }
  assert (Ht : length (take (size - 1) text) = n) by (rewrite length_take; lia).
  apply list_eq. intros i. destruct (decide (i = n)) as [->|Hne].
  - rewrite list_lookup_insert_eq by done. by rewrite lookup_app_r, Ht, Nat.sub_diag by lia.
  - rewrite list_lookup_insert_ne by done. destruct (decide (i < n)%nat) as [Hi|Hi].
    + rewrite !lookup_app_l by (rewrite ?Ht, ?length_take; lia). by rewrite !lookup_take_lt by lia.
    + rewrite (lookup_app_r (take (size - 1) text)) by lia. rewrite Ht. replace (i - n)%nat with (S (i - S n)) by lia. cbn [lookup list_lookup].
      rewrite (lookup_drop b). replace (S n + (i - S n))%nat with i by lia.
      rewrite lookup_app_r, lookup_drop, length_take by (rewrite length_take; lia). f_equal. lia.
Qed.

(** ** Properties *)


(** [x=%#06x;%-4d|], cut off in a buffer of 12 bytes of 14. *)
Definition ex_items : list item :=
  [Literal (ch "x"); Literal (ch "="); Conversion (mkConv (cstr "#0") (Digits (cstr "6")) None MNone (ch "x"));
   Literal (ch ";"); Conversion (mkConv (cstr "-") (Digits (cstr "4")) None MNone (ch "d")); Literal (ch "|")].

Lemma ex_renders : renders ex_items [AInt 7; AInt (-7)] (cstr "x=0x0007;-7  |").
Proof.
  do 2 (apply a_literal; [done..|]). assert (Hn : numeral false 10 7 (cstr "7") /\ numeral false 16 7 (cstr "7")).
  { split; apply (one_digit _ _ 7); lia. }
  apply (a_conversion (mkConv (cstr "#0") (Digits (cstr "6")) None MNone (ch "x")) _ _ 6 [AInt 7; AInt (-7)] [AInt 7; AInt (-7)] (cstr "0x0007") [AInt (-7)] (cstr ";-7  |"));
    [apply (bool_decide_eq_true_1 (Forall _ _)); vm_compute; reflexivity|done|by apply (digits_field (cstr "6")); [by apply Forall_cons_2; [split; vm_compute; discriminate|apply Forall_nil_2]|]|done| |].
  { exact (to_hex (cstr "#0") false 6 MNone [AInt 7; AInt (-7)] 7 [AInt (-7)] (cstr "7") (an_int 7 [AInt (-7)] ltac:(lia)) (proj2 Hn)). }
  apply a_literal; [done..|].
  apply (a_conversion (mkConv (cstr "-") (Digits (cstr "4")) None MNone (ch "d")) _ _ 4 [AInt (-7)] [AInt (-7)] (cstr "-7  ") [] (cstr "|"));
    [apply (bool_decide_eq_true_1 (Forall _ _)); vm_compute; reflexivity|done|by apply (digits_field (cstr "4")); [by apply Forall_cons_2; [split; vm_compute; discriminate|apply Forall_nil_2]|]|done| |].
  { exact (to_signed (cstr "-") true 4 MNone (ch "d") [AInt (-7)] (-7) [] (cstr "7") ltac:(by left) (an_int (-7) [] ltac:(lia)) (proj1 Hn)). }
  apply a_literal; [done..|]. constructor.
Qed.


(** *** Examples *)

Definition format (fmt : string) (args : list arg) : option string :=
  r ← vsnprintf (Some (replicate 40 0)) 40 (cstr fmt ++ [0]) args;
  b ← fst r; cs ← chars_of b;
  Some (String.string_of_list_ascii ((fun c => Ascii.ascii_of_N (Z.to_N c)) <$> cs)).

Example format_examples :
  format "%d %5d %-5d| %05d %x" [AInt (-7); AInt 42; AInt 42; AInt 42; AInt 255] = Some "-7    42 42   | 00042 ff"%string /\
  format "%s:%c %ld" [AStr (Some (cstr "tty" ++ [0])); AInt 65; ALong 5] = Some "tty:A 5"%string.
Proof. split; vm_compute; reflexivity. Qed.

(** A precision does not shorten a string, a [short] loses its sign, the second
    [l] of [lld] is printed, and [b] has base 1, whose digits never end. *)
Example format_deviations :
  format "%.1s" [AStr (Some (cstr "tty" ++ [0]))] = Some "tty"%string /\
  format "%hd" [AInt (-1)] = Some "65535"%string /\
  format "%lld" [ALong 5] = Some "%ld"%string /\
  format "%b" [AInt 5] = None.
Proof. repeat split; vm_compute; reflexivity. Qed.

End Sprintf.
