(* ===== verification/Pipe.v ===== *)
(** * Pipe: [kernel/src/files/special/pipe.c]

    The ring buffer of a pipe and the read and write operations that wait for
    it.  An operation is an object on the stack of the task that waits; the two
    queues link them.  The memory of the tasks is a byte for every memory space
    and address; the pages of the buffers are mapped.

    The tasks that [awakenTask] and [enqueueTask] are called for are recorded in
    order.  The spin lock of the pipe makes each operation atomic; an operation
    is split where its task waits: [startPipeOperation] queues it and works on
    the pipe, [operation_result] is what the task returns when it runs again. *)
From S2P Require Import Prelude Util.

Local Open Scope c_scope.

Module Pipe.

(** ** Definitions *)

Definition PIPE_BUFFER_CAPACITY : Z := 512.

Record VirtPtr := mkPtr { address : Z; table : Z }.

Record WaitingPipeOperation := mkOp {
  buffer : VirtPtr;
  op_size : Z;
  op_written : Z;
  wakeup : Z;
  next : Z;
}.

(** [buffer] is the kernel buffer, a byte for every index. *)
Record PipeSharedData := mkPipe {
  ref_count : Z;
  write_count : Z;
  ring_buffer : Z -> Z;
  read_pos : Z;
  count : Z;
  waiting_reads : Z;
  waiting_reads_tail : Z;
  waiting_writes : Z;
  waiting_writes_tail : Z;
}.

(** The bytes of the memory spaces. *)
Abbreviation user := (Z -> Z -> Z).

Record state := mkState {
  pipe : PipeSharedData;
  ops : gmap Z WaitingPipeOperation;
  memory : user;
  woken : list Z;
}.

Abbreviation PM := (M state).

(** [memcpyBetweenVirtPtr] out of and into the kernel buffer. *)
Definition to_user (m : user) (p : VirtPtr) (l : list Z) : user :=
  fun t => if t =? table p then put_bytes (m t) (address p) l else m t.
Definition from_user (m : user) (p : VirtPtr) (n : Z) : list Z := bytes_at (m (table p)) (address p) n.

Definition advance (p : VirtPtr) (n : Z) : VirtPtr := mkPtr (address p + n) (table p).

Definition get : PM state := fun s => Some (s, s).
Definition get_op (a : Z) : PM WaitingPipeOperation := fun s => o ← ops s !! a; Some (o, s).
Definition put_op (a : Z) (o : WaitingPipeOperation) : PM unit := fun s =>
  Some (tt, mkState (pipe s) (<[a := o]> (ops s)) (memory s) (woken s)).
Definition put_pipe (p : PipeSharedData) : PM unit := fun s =>
  Some (tt, mkState p (ops s) (memory s) (woken s)).
Definition put_memory (m : user) : PM unit := fun s => Some (tt, mkState (pipe s) (ops s) m (woken s)).
(** [if (task != NULL) { awakenTask(task); enqueueTask(task); }] *)
Definition wake (task : Z) : PM unit := fun s =>
  Some (tt, mkState (pipe s) (ops s) (memory s) (if task =? 0 then woken s else woken s ++ [task])).

(** The read branch of [doOperationOnPipe]. *)
Definition pipe_read : PM unit :=
  s ← get;
  let p := pipe s in
  op ← get_op (waiting_reads p);
  let length := Util.umin (count p) (op_size op) in
  (if PIPE_BUFFER_CAPACITY <? read_pos p + length then
     let first := PIPE_BUFFER_CAPACITY - read_pos p in
     let second := length - first in
     put_memory (to_user (memory s) (buffer op) (bytes_at (ring_buffer p) (read_pos p) first));;
     s ← get;
     put_memory (to_user (memory s) (advance (buffer op) first) (bytes_at (ring_buffer p) 0 second))
   else put_memory (to_user (memory s) (buffer op) (bytes_at (ring_buffer p) (read_pos p) length)));;
  let op := mkOp (advance (buffer op) length) (op_size op - length) (op_written op + length) (wakeup op) (next op) in
  put_op (waiting_reads p) op;;
  let p' := mkPipe (ref_count p) (write_count p) (ring_buffer p)
              ((read_pos p + length) mod PIPE_BUFFER_CAPACITY) (count p - length)
              (waiting_reads p) (waiting_reads_tail p) (waiting_writes p) (waiting_writes_tail p) in
  if (op_size op =? 0) || (waiting_writes p =? 0) then
    put_pipe (mkPipe (ref_count p') (write_count p') (ring_buffer p') (read_pos p') (count p')
                (next op) (if next op =? 0 then 0 else waiting_reads_tail p)
                (waiting_writes p) (waiting_writes_tail p));;
    wake (wakeup op)
  else put_pipe p'.

(** The write branch. *)
Definition pipe_write : PM unit :=
  s ← get;
  let p := pipe s in
  op ← get_op (waiting_writes p);
  let length := Util.umin (PIPE_BUFFER_CAPACITY - count p) (op_size op) in
  let write_pos := (read_pos p + count p) mod PIPE_BUFFER_CAPACITY in
  let ring :=
    if PIPE_BUFFER_CAPACITY <? write_pos + length then
      let first := PIPE_BUFFER_CAPACITY - write_pos in
      let second := length - first in
      put_bytes (put_bytes (ring_buffer p) write_pos (from_user (memory s) (buffer op) first))
        0 (from_user (memory s) (advance (buffer op) first) second)
    else put_bytes (ring_buffer p) write_pos (from_user (memory s) (buffer op) length) in
  let op := mkOp (advance (buffer op) length) (op_size op - length) (op_written op + length) (wakeup op) (next op) in
  put_op (waiting_writes p) op;;
  if op_size op =? 0 then
    put_pipe (mkPipe (ref_count p) (write_count p) ring (read_pos p) (count p + length)
                (waiting_reads p) (waiting_reads_tail p)
                (next op) (if next op =? 0 then 0 else waiting_writes_tail p));;
    wake (wakeup op)
  else
    put_pipe (mkPipe (ref_count p) (write_count p) ring (read_pos p) (count p + length)
                (waiting_reads p) (waiting_reads_tail p) (waiting_writes p) (waiting_writes_tail p)).

Definition can_read (p : PipeSharedData) : bool :=
  negb (waiting_reads p =? 0) && (negb (count p =? 0) || (write_count p =? 0)).
Definition can_write (p : PipeSharedData) : bool :=
  negb (waiting_writes p =? 0) && (count p <? PIPE_BUFFER_CAPACITY).

Fixpoint operation_loop (fuel : nat) : PM unit :=
  match fuel with
  | O => fault
  | S fuel' =>
      s ← get;
      if can_read (pipe s) then pipe_read;; operation_loop fuel'
      else if can_write (pipe s) then pipe_write;; operation_loop fuel'
      else mret tt
  end.

(** Sum over a queue, in [currentReadCapacity] and [currentWriteCapacity]. *)
Fixpoint sum_sizes (fuel : nat) (current : Z) : PM Z :=
  match fuel with
  | O => fault
  | S fuel' =>
      if current =? 0 then mret 0
      else op ← get_op current; rest ← sum_sizes fuel' (next op); mret (op_size op + rest)
  end.

Definition sum_queue (head : Z) : PM Z := fun s => sum_sizes (S (size (ops s))) head s.

Definition currentReadCapacity : PM Z :=
  s ← get; n ← sum_queue (waiting_writes (pipe s)); mret (count (pipe s) + n).
Definition currentWriteCapacity : PM Z :=
  s ← get; n ← sum_queue (waiting_reads (pipe s)); mret (PIPE_BUFFER_CAPACITY - count (pipe s) + n).

(** The loop of [handlePipeWakeup] over the waiting reads; [prev] is the entry
    before, 0 at the head. *)
Fixpoint unlink_read (fuel : nat) (task prev : Z) : PM unit :=
  match fuel with
  | O => fault
  | S fuel' =>
      s ← get;
      current ← (if prev =? 0 then mret (waiting_reads (pipe s)) else o ← get_op prev; mret (next o));
      if current =? 0 then mret tt
      else
        op ← get_op current;
        if wakeup op =? task then
          if prev =? 0 then
            let p := pipe s in
            put_pipe (mkPipe (ref_count p) (write_count p) (ring_buffer p) (read_pos p) (count p)
                        (next op) (if next op =? 0 then 0 else waiting_reads_tail p)
                        (waiting_writes p) (waiting_writes_tail p))
          else
            o ← get_op prev;
            put_op prev (mkOp (buffer o) (op_size o) (op_written o) (wakeup o) (next op))
        else unlink_read fuel' task current
  end.

(** [signals] says whether the process of the task has pending signals. *)
Definition unlink_task (task : Z) : PM unit := fun s => unlink_read (S (size (ops s))) task 0 s.

Definition handlePipeWakeup (signals : bool) (task : Z) : PM bool :=
  if signals then unlink_task task;; mret true else mret false.

(** [doOperationOnPipe]; the fuel covers every byte and every operation. *)
Definition loop_fuel (s : state) : nat :=
  Z.to_nat (2 * map_fold (fun _ o n => op_size o + n) 0 (ops s) + count (pipe s)) + size (ops s) + 1.
Definition doOperationOnPipe : PM unit := fun s => operation_loop (loop_fuel s) s.

Inductive outcome : Type :=
| Queued             (** the task waits *)
| Done (ret : Z)     (** [SUCCESS] with the result *)
| Failed (err : Z).

Definition EAGAIN : Z := 11.
Definition EINTR : Z := 4.

(** Putting the operation at [a] into a queue: the tail stays where it is. *)
Definition queue_op (write : bool) (a : Z) : PM unit :=
  s ← get;
  let p := pipe s in
  if write then
    if waiting_writes p =? 0 then
      put_pipe (mkPipe (ref_count p) (write_count p) (ring_buffer p) (read_pos p) (count p)
                  (waiting_reads p) (waiting_reads_tail p) a a)
    else
      t ← get_op (waiting_writes_tail p);
      put_op (waiting_writes_tail p) (mkOp (buffer t) (op_size t) (op_written t) (wakeup t) a)
  else
    if waiting_reads p =? 0 then
      put_pipe (mkPipe (ref_count p) (write_count p) (ring_buffer p) (read_pos p) (count p)
                  a a (waiting_writes p) (waiting_writes_tail p))
    else
      t ← get_op (waiting_reads_tail p);
      put_op (waiting_reads_tail p) (mkOp (buffer t) (op_size t) (op_written t) (wakeup t) a).

(** [executePipeOperation] up to where the task waits; [a] is the address of its
    operation. *)
Definition startPipeOperation (a task : Z) (buf : VirtPtr) (size : Z) (write block : bool) : PM outcome :=
  massert (negb (task =? 0));;
  r ← currentReadCapacity;
  w ← currentWriteCapacity;
  s ← get;
  if (r =? 0) && (write_count (pipe s) =? 0) then mret (Done 0)
  else if block || (write && (size <=? w)) || (negb write && (0 <? r)) then
    put_op a (mkOp buf size 0 task 0);;
    queue_op write a;;
    doOperationOnPipe;;
    mret Queued
  else mret (Failed EAGAIN).

(** What [executePipeOperation] returns after the task was woken. *)
Definition operation_result (a : Z) : PM outcome :=
  op ← get_op a;
  mret (if op_written op =? 0 then Failed EINTR else Done (op_written op)).

Definition createPipeSharedData (for_write : bool) (ring : Z -> Z) : PipeSharedData :=
  mkPipe 1 (if for_write then 1 else 0) ring 0 0 0 0 0 0.

Definition set_counts (p : PipeSharedData) (r w : Z) : PipeSharedData :=
  mkPipe r w (ring_buffer p) (read_pos p) (count p) (waiting_reads p) (waiting_reads_tail p)
    (waiting_writes p) (waiting_writes_tail p).

Definition copyPipeSharedData (for_write : bool) : PM unit :=
  s ← get;
  let p := pipe s in
  put_pipe (set_counts p (ref_count p + 1) (if for_write then write_count p + 1 else write_count p)).

(** Whether the pipe is freed. *)
Definition freePipeSharedData (for_write : bool) : PM bool :=
  s ← get;
  let p := pipe s in
  put_pipe (set_counts p (ref_count p - 1) (write_count p));;
  (if for_write then
     massert (0 <? write_count p);;
     put_pipe (set_counts p (ref_count p - 1) (write_count p - 1));;
     if write_count p - 1 =? 0 then doOperationOnPipe else mret tt
   else mret tt);;
  s ← get;
  massert (write_count (pipe s) <=? ref_count (pipe s));;
  mret (ref_count (pipe s) =? 0).

Definition pipeIsReady (write : bool) : PM bool :=
  if write then w ← currentWriteCapacity; mret (negb (w =? 0))
  else r ← currentReadCapacity; s ← get; mret (negb (r =? 0) || (write_count (pipe s) =? 0)).

Lemma to_user_tab m p n g t x :
  0 <= n -> to_user m p (tab n g) t x =
  if (t =? table p) && (address p <=? x) && (x <? address p + n) then g (x - address p) else m t x.
Proof.
  intros Hn. unfold to_user. destruct (Z.eqb_spec t (table p)); [|done]. by rewrite put_bytes_tab by done.
Qed.

Lemma wrap_mod x : 0 <= x < 2 * PIPE_BUFFER_CAPACITY ->
  x mod PIPE_BUFFER_CAPACITY = if x <? PIPE_BUFFER_CAPACITY then x else x - PIPE_BUFFER_CAPACITY.
Proof.
  intros H. unfold PIPE_BUFFER_CAPACITY in *. destruct (Z.ltb_spec x 512); [apply Z.mod_small; lia|].
  symmetry. apply (Z.mod_unique _ _ 1); lia.
Qed.

(** ** The contents of the ring *)

Definition ring (p : PipeSharedData) : list Z :=
  tab (count p) (fun i => ring_buffer p ((read_pos p + i) mod PIPE_BUFFER_CAPACITY)).

Record wf (p : PipeSharedData) : Prop := {
  p_pos : 0 <= read_pos p < PIPE_BUFFER_CAPACITY;
  p_count : 0 <= count p <= PIPE_BUFFER_CAPACITY;
}.

(** The bytes from [pos] on in the ring, in the two parts that are copied. *)
Lemma ring_parts p pos n :
  0 <= pos < PIPE_BUFFER_CAPACITY -> 0 <= n <= PIPE_BUFFER_CAPACITY ->
  tab n (fun i => ring_buffer p ((pos + i) mod PIPE_BUFFER_CAPACITY)) =
  if PIPE_BUFFER_CAPACITY <? pos + n
  then bytes_at (ring_buffer p) pos (PIPE_BUFFER_CAPACITY - pos) ++
       bytes_at (ring_buffer p) 0 (n - (PIPE_BUFFER_CAPACITY - pos))
  else bytes_at (ring_buffer p) pos n.
Proof.
  intros Hp Hn. rewrite !bytes_at_tab. destruct (Z.ltb_spec PIPE_BUFFER_CAPACITY (pos + n)).
  - rewrite tab_app by lia. replace (PIPE_BUFFER_CAPACITY - pos + (n - (PIPE_BUFFER_CAPACITY - pos))) with n by lia.
    apply tab_ext. intros i Hi. rewrite wrap_mod by lia.
    destruct (Z.ltb_spec (pos + i) PIPE_BUFFER_CAPACITY), (Z.ltb_spec i (PIPE_BUFFER_CAPACITY - pos)); try lia; f_equal; lia.
  - apply tab_ext. intros i Hi. rewrite Z.mod_small by lia. done.
Qed.

Lemma ring_take p n : wf p -> 0 <= n <= count p ->
  take (Z.to_nat n) (ring p) = tab n (fun i => ring_buffer p ((read_pos p + i) mod PIPE_BUFFER_CAPACITY)).
Proof. intros _ Hn. unfold ring. by rewrite tab_take. Qed.

(** What a read branch does. *)
Definition after_read (s s' : state) (o : WaitingPipeOperation) (n : Z) : Prop :=
  let p := pipe s in let p' := pipe s' in
  wf p' /\ ring p = take (Z.to_nat n) (ring p) ++ ring p' /\
  (forall t x, memory s' t x = to_user (memory s) (buffer o) (take (Z.to_nat n) (ring p)) t x) /\
  ops s' = <[waiting_reads p := mkOp (advance (buffer o) n) (op_size o - n) (op_written o + n) (wakeup o) (next o)]> (ops s) /\
  count p' = count p - n /\ write_count p' = write_count p /\ waiting_writes p' = waiting_writes p /\
  waiting_reads p' = if (op_size o - n =? 0) || (waiting_writes p =? 0) then next o else waiting_reads p.

Lemma umin_min a b : Util.umin a b = Z.min a b.
Proof. apply Util.umin_spec. Qed.

Lemma pipe_read_ok s o :
  wf (pipe s) -> ops s !! waiting_reads (pipe s) = Some o -> 0 <= op_size o ->
  exists s', pipe_read s = Some (tt, s') /\ after_read s s' o (Z.min (count (pipe s)) (op_size o)).
Proof.
  intros Hw Ho Hs. set (n := Z.min (count (pipe s)) (op_size o)). pose proof Hw as [Hpos Hcount].
  assert (Hn : 0 <= n <= count (pipe s)) by lia.
  pose proof (ring_take _ n Hw Hn) as Htake.
  pose proof (ring_parts (pipe s) (read_pos (pipe s)) n Hpos ltac:(lia)) as Hparts.
  assert (Hring : ring (pipe s) = take (Z.to_nat n) (ring (pipe s)) ++
    tab (count (pipe s) - n) (fun i => ring_buffer (pipe s)
      (((read_pos (pipe s) + n) mod PIPE_BUFFER_CAPACITY + i) mod PIPE_BUFFER_CAPACITY))).
  { rewrite Htake. unfold ring. rewrite (tab_split n) at 1 by lia. f_equal. apply tab_ext. intros i Hi.
    f_equal. rewrite Z.add_mod_idemp_l by (unfold PIPE_BUFFER_CAPACITY; lia). f_equal. lia. }
  assert (Hwf : forall a b c d e f g, wf (mkPipe a b c ((read_pos (pipe s) + n) mod PIPE_BUFFER_CAPACITY)
    (count (pipe s) - n) d e f g)).
  { intros. split; cbn; [apply Z.mod_pos_bound; unfold PIPE_BUFFER_CAPACITY; lia|lia]. }
  unfold pipe_read. erewrite bind_some by reflexivity. erewrite bind_some by (unfold get_op; by rewrite Ho).
  rewrite umin_min. fold n.
  set (mem' := if PIPE_BUFFER_CAPACITY <? read_pos (pipe s) + n
    then to_user (to_user (memory s) (buffer o) (bytes_at (ring_buffer (pipe s)) (read_pos (pipe s)) (PIPE_BUFFER_CAPACITY - read_pos (pipe s))))
           (advance (buffer o) (PIPE_BUFFER_CAPACITY - read_pos (pipe s)))
           (bytes_at (ring_buffer (pipe s)) 0 (n - (PIPE_BUFFER_CAPACITY - read_pos (pipe s))))
    else to_user (memory s) (buffer o) (bytes_at (ring_buffer (pipe s)) (read_pos (pipe s)) n)).
  assert (Hmem : forall t x, mem' t x = to_user (memory s) (buffer o) (take (Z.to_nat n) (ring (pipe s))) t x).
  { intros t x. unfold mem'. rewrite Htake, Hparts. destruct (Z.ltb_spec PIPE_BUFFER_CAPACITY (read_pos (pipe s) + n)); [|done].
    rewrite !bytes_at_tab, tab_app by lia. rewrite !to_user_tab by lia. cbn [advance table address].
    destruct (Z.eqb_spec t (table (buffer o))); cbn [andb]; [|done].
    repeat match goal with |- context [?a <=? ?b] => destruct (Z.leb_spec a b) | |- context [?a <? ?b] => destruct (Z.ltb_spec a b) end;
      cbn [andb]; try lia; try done; f_equal; lia. }
  erewrite (bind_some _ _ s (mkState (pipe s) (ops s) mem' (woken s)) tt) by (unfold mem'; by destruct (_ <? _)).
  erewrite bind_some by (unfold put_op; reflexivity). cbn [buffer op_size op_written wakeup next pipe ops memory woken].
  destruct ((op_size o - n =? 0) || (waiting_writes (pipe s) =? 0)) eqn:E.
  - erewrite bind_some by (unfold put_pipe; reflexivity). unfold wake. eexists. split; [done|].
    unfold after_read. rewrite E. cbn [pipe ops memory].
    split; [apply Hwf|]. split; [exact Hring|]. split; [exact Hmem|]. done.
  - unfold put_pipe. eexists. split; [done|]. unfold after_read. rewrite E. cbn [pipe ops memory].
    split; [apply Hwf|]. split; [exact Hring|]. split; [exact Hmem|]. done.
Qed.

(** The ring after [n] bytes are put at [w]. *)
Definition ring_put (f : Z -> Z) (w n : Z) (m : user) (b : VirtPtr) : Z -> Z :=
  if PIPE_BUFFER_CAPACITY <? w + n then
    put_bytes (put_bytes f w (from_user m b (PIPE_BUFFER_CAPACITY - w)))
      0 (from_user m (advance b (PIPE_BUFFER_CAPACITY - w)) (n - (PIPE_BUFFER_CAPACITY - w)))
  else put_bytes f w (from_user m b n).

Lemma ring_put_spec f w n m b k :
  0 <= w < PIPE_BUFFER_CAPACITY -> 0 <= n <= PIPE_BUFFER_CAPACITY -> 0 <= k < PIPE_BUFFER_CAPACITY ->
  ring_put f w n m b ((w + k) mod PIPE_BUFFER_CAPACITY) =
  if k <? n then m (table b) (address b + k) else f ((w + k) mod PIPE_BUFFER_CAPACITY).
Proof.
  intros Hw Hn Hk. rewrite wrap_mod by lia. unfold ring_put, from_user. rewrite !bytes_at_tab.
  cbn [advance address table].
  repeat first
    [ rewrite put_bytes_tab by lia
    | match goal with
      | |- context [?x <=? ?y] => destruct (Z.leb_spec x y)
      | |- context [?x <? ?y] => destruct (Z.ltb_spec x y)
      end ];
    cbn [andb]; try lia; try done; f_equal; lia.
Qed.

(** What a write branch does. *)
Definition after_write (s s' : state) (o : WaitingPipeOperation) (n : Z) : Prop :=
  let p := pipe s in let p' := pipe s' in
  wf p' /\ ring p' = ring p ++ from_user (memory s) (buffer o) n /\ memory s' = memory s /\
  ops s' = <[waiting_writes p := mkOp (advance (buffer o) n) (op_size o - n) (op_written o + n) (wakeup o) (next o)]> (ops s) /\
  count p' = count p + n /\ write_count p' = write_count p /\ waiting_reads p' = waiting_reads p /\
  waiting_writes p' = if op_size o - n =? 0 then next o else waiting_writes p.

Lemma pipe_write_ok s o :
  wf (pipe s) -> ops s !! waiting_writes (pipe s) = Some o -> 0 <= op_size o ->
  exists s', pipe_write s = Some (tt, s') /\
    after_write s s' o (Z.min (PIPE_BUFFER_CAPACITY - count (pipe s)) (op_size o)).
Proof.
  intros [Hpos Hcount] Ho Hs. set (n := Z.min _ _). set (p := pipe s) in *.
  assert (Hn : 0 <= n <= PIPE_BUFFER_CAPACITY - count p) by lia.
  set (w := (read_pos p + count p) mod PIPE_BUFFER_CAPACITY).
  assert (Hwb : 0 <= w < PIPE_BUFFER_CAPACITY) by (apply Z.mod_pos_bound; unfold PIPE_BUFFER_CAPACITY; lia).
  assert (Hidx : forall i, 0 <= i -> exists k, 0 <= k < PIPE_BUFFER_CAPACITY /\
    (read_pos p + i) mod PIPE_BUFFER_CAPACITY = (w + k) mod PIPE_BUFFER_CAPACITY /\
    (i < count p -> k = PIPE_BUFFER_CAPACITY - count p + i) /\
    (count p <= i < count p + n -> i - count p < PIPE_BUFFER_CAPACITY -> k = i - count p)).
  { intros i Hi. unfold w. assert (HC : 0 < PIPE_BUFFER_CAPACITY) by (unfold PIPE_BUFFER_CAPACITY; lia).
    destruct (Z.lt_ge_cases i (count p)).
    - exists (PIPE_BUFFER_CAPACITY - count p + i). split; [lia|]. rewrite Z.add_mod_idemp_l by lia.
      split; [|split; lia].
      replace (read_pos p + count p + (PIPE_BUFFER_CAPACITY - count p + i))
        with (read_pos p + i + 1 * PIPE_BUFFER_CAPACITY) by lia. by rewrite Z.mod_add by lia.
    - destruct (Z.lt_ge_cases (i - count p) PIPE_BUFFER_CAPACITY).
      + exists (i - count p). split; [lia|]. rewrite Z.add_mod_idemp_l by lia.
        split; [f_equal; lia|lia].
      + exists ((i - count p) mod PIPE_BUFFER_CAPACITY). split; [by apply Z.mod_pos_bound|].
        rewrite <- Z.add_mod by lia. split; [f_equal; lia|lia]. }
  assert (Hring : tab (count p + n) (fun i => ring_put (ring_buffer p) w n (memory s) (buffer o)
      ((read_pos p + i) mod PIPE_BUFFER_CAPACITY)) = ring p ++ from_user (memory s) (buffer o) n).
  { unfold ring, from_user. rewrite bytes_at_tab, tab_app by lia. apply tab_ext. intros i Hi.
    destruct (Hidx i ltac:(lia)) as (k & Hk & -> & Hlt & Hge). rewrite ring_put_spec by lia.
    destruct (Z.ltb_spec i (count p)), (Z.ltb_spec k n); try lia; try done.
    f_equal. specialize (Hge ltac:(lia) ltac:(lia)). lia. }
  assert (Hwf : forall a b c d e f g, wf (mkPipe a b c (read_pos p) (count p + n) d e f g)).
  { intros. split; cbn; lia. }
  unfold pipe_write. erewrite bind_some by reflexivity. fold p.
  erewrite bind_some by (unfold get_op, p in *; by rewrite Ho).
  rewrite umin_min. fold n. fold w. fold (ring_put (ring_buffer p) w n (memory s) (buffer o)).
  erewrite bind_some by (unfold put_op; reflexivity). cbn [buffer op_size op_written wakeup next pipe ops memory woken].
  destruct (op_size o - n =? 0) eqn:E.
  - erewrite bind_some by (unfold put_pipe; reflexivity). unfold wake. eexists. split; [done|].
    unfold after_write. fold p. rewrite E. cbn [pipe ops memory]. split; [apply Hwf|]. split; [exact Hring|]. done.
  - unfold put_pipe. eexists. split; [done|]. unfold after_write. fold p. rewrite E. cbn [pipe ops memory].
    split; [apply Hwf|]. split; [exact Hring|]. done.
Qed.

(** ** The queues *)

Fixpoint oplist (m : gmap Z WaitingPipeOperation) (c : Z) (l : list Z) : Prop :=
  match l with
  | [] => c = 0
  | a :: l' => c = a /\ a <> 0 /\ exists o, m !! a = Some o /\ oplist m (next o) l'
  end.

(** The part of a task's memory that an operation still has to do with. *)
Definition region (o : WaitingPipeOperation) (t x : Z) : Prop :=
  t = table (buffer o) /\ address (buffer o) <= x < address (buffer o) + op_size o.

(** What the writers still have to write. *)
Fixpoint pending (m : gmap Z WaitingPipeOperation) (mem : user) (ws : list Z) : list Z :=
  match ws with
  | [] => []
  | a :: ws' => match m !! a with Some o => from_user mem (buffer o) (op_size o) | None => [] end ++ pending m mem ws'
  end.

(** The bytes on their way through the pipe, in order. *)
Definition stream (s : state) (ws : list Z) : list Z := ring (pipe s) ++ pending (ops s) (memory s) ws.

(** The pipe with the waiting readers [rs] and writers [ws]: no two buffers
    overlap, and writers wait only while the pipe is open for writing. *)
Record good (s : state) (rs ws : list Z) : Prop := {
  g_wf : wf (pipe s);
  g_reads : oplist (ops s) (waiting_reads (pipe s)) rs;
  g_writes : oplist (ops s) (waiting_writes (pipe s)) ws;
  g_nodup : NoDup (rs ++ ws);
  g_sizes : forall a o, ops s !! a = Some o -> 0 <= op_size o;
  g_disj : forall a b oa ob t x, a ∈ rs -> b ∈ rs ++ ws -> a <> b -> ops s !! a = Some oa -> ops s !! b = Some ob ->
    region oa t x -> region ob t x -> False;
  g_eof : write_count (pipe s) = 0 -> ws = [];
}.

Lemma oplist_frame m c l a o : oplist m c l -> a ∉ l -> oplist (<[a := o]> m) c l.
Proof.
  revert c. induction l as [|b l IH]; intros c; [done|]. intros (-> & Hb & x & Hx & Hl) [Hab Hn]%not_elem_of_cons.
  split; [done|split; [done|]]. exists x. rewrite lookup_insert_ne by done. split; [done|by apply IH].
Qed.

Lemma pending_frame m mem ws a o : a ∉ ws -> pending (<[a := o]> m) mem ws = pending m mem ws.
Proof.
  induction ws as [|b ws IH]; [done|]. intros [Hab Hn]%not_elem_of_cons. cbn [pending].
  rewrite lookup_insert_ne by done. by rewrite IH.
Qed.

Lemma from_user_ext (m m' : user) p n :
  (forall x, address p <= x < address p + n -> m (table p) x = m' (table p) x) -> from_user m p n = from_user m' p n.
Proof. intros H. unfold from_user. rewrite !bytes_at_tab. apply tab_ext. intros i Hi. apply H. lia. Qed.

Lemma pending_memory m mem mem' ws :
  (forall a o t x, a ∈ ws -> m !! a = Some o -> region o t x -> mem t x = mem' t x) ->
  pending m mem ws = pending m mem' ws.
Proof.
  induction ws as [|b ws IH]; intros H; [done|]. cbn [pending]. f_equal.
  - destruct (m !! b) as [o|] eqn:E; [|done]. apply from_user_ext. intros x Hx. eapply H; [by left|done|by split].
  - apply IH. intros a o t x Ha. apply H. by right.
Qed.

Lemma from_user_split m p k n : 0 <= k <= n -> from_user m p n = from_user m p k ++ from_user m (advance p k) (n - k).
Proof.
  intros H. unfold from_user. rewrite !bytes_at_tab. rewrite (tab_split k) by done. f_equal.
  apply tab_ext. intros i Hi. cbn. f_equal. lia.
Qed.

Lemma from_user_back m p l mem :
  (forall t x, mem t x = to_user m p l t x) -> from_user mem p (Z.of_nat (length l)) = l.
Proof.
  intros H. unfold from_user. rewrite bytes_at_tab. apply list_eq. intros i. rewrite tab_lookup.
  destruct (decide _) as [Hi|Hi].
  - rewrite H. unfold to_user. rewrite Z.eqb_refl. unfold put_bytes.
    rewrite (proj2 (Z.leb_le _ _)), (proj2 (Z.ltb_lt _ _)) by lia. cbn [andb].
    replace (Z.to_nat (address p + Z.of_nat i - address p)) with i by lia.
    destruct (lookup_lt_is_Some_2 l i) as [v Hv]; [lia|]. by rewrite Hv.
  - symmetry. apply lookup_ge_None. lia.
Qed.

Lemma to_user_out m p l t x :
  (t = table p /\ address p <= x < address p + Z.of_nat (length l) -> False) -> to_user m p l t x = m t x.
Proof.
  intros H. unfold to_user, put_bytes. destruct (Z.eqb_spec t (table p)); [|done].
  destruct (Z.leb_spec (address p) x), (Z.ltb_spec x (address p + Z.of_nat (length l))); cbn [andb]; try done.
  exfalso. by apply H.
Qed.

(** The operation after [n] bytes. *)
Definition moved (o : WaitingPipeOperation) (n : Z) : WaitingPipeOperation :=
  mkOp (advance (buffer o) n) (op_size o - n) (op_written o + n) (wakeup o) (next o).

Lemma region_moved o n t x : 0 <= n <= op_size o -> region (moved o n) t x -> region o t x.
Proof. unfold region. cbn. intros Hn [-> Hx]. split; [done|lia]. Qed.

Lemma good_moved s rs ws a o n :
  good s rs ws -> ops s !! a = Some o -> 0 <= n <= op_size o ->
  (forall b ob, <[a := moved o n]> (ops s) !! b = Some ob -> 0 <= op_size ob) /\
  (forall b c ob oc t x, b ∈ rs -> c ∈ rs ++ ws -> b <> c -> <[a := moved o n]> (ops s) !! b = Some ob ->
    <[a := moved o n]> (ops s) !! c = Some oc -> region ob t x -> region oc t x -> False).
Proof.
  intros Hg Ho Hn.
  assert (Hold : forall b ob, <[a := moved o n]> (ops s) !! b = Some ob ->
    exists ob', ops s !! b = Some ob' /\ (forall t x, region ob t x -> region ob' t x) /\ 0 <= op_size ob).
  { intros b ob Hb. destruct (decide (b = a)) as [->|Hne].
    - rewrite lookup_insert_eq in Hb. injection Hb as <-. exists o. split; [done|]. split; [|cbn; lia].
      intros t x. by apply region_moved.
    - rewrite lookup_insert_ne in Hb by done. exists ob. split; [done|split; [done|]]. by eapply g_sizes. }
  split.
  - intros b ob Hb. by destruct (Hold b ob Hb) as (_ & _ & _ & ?).
  - intros b c ob oc t x Hb Hc Hne Hob Hoc H1 H2.
    destruct (Hold b ob Hob) as (ob' & Hob' & Hr1 & _), (Hold c oc Hoc) as (oc' & Hoc' & Hr2 & _).
    eapply (g_disj _ _ _ Hg b c); try done; [by apply Hr1|by apply Hr2].
Qed.

Lemma oplist_head m c a l o : oplist m c (a :: l) -> m !! a = Some o -> c = a /\ a <> 0 /\ oplist m (next o) l.
Proof. intros (-> & Ha & x & Hx & Hl) Ho. by simplify_eq. Qed.

(** The readers and writers after a step. *)
Definition rest (b : bool) (l : list Z) : list Z := if b then tail l else l.

(** A read branch hands the first bytes of the stream to the first reader. *)
Lemma read_step s r rs ws :
  good s (r :: rs) ws ->
  exists s' o n, pipe_read s = Some (tt, s') /\ ops s !! r = Some o /\
    n = Z.min (count (pipe s)) (op_size o) /\ 0 <= n /\
    let fin := (op_size o - n =? 0) || bool_decide (ws = []) in
    good s' (rest fin (r :: rs)) ws /\ ops s' = <[r := moved o n]> (ops s) /\
    stream s ws = from_user (memory s') (buffer o) n ++ stream s' ws /\
    (forall t x, ~ region o t x -> memory s' t x = memory s t x) /\
    count (pipe s') = count (pipe s) - n /\ write_count (pipe s') = write_count (pipe s).
Proof.
  intros Hg. pose proof Hg as [Hwf Hr Hw Hnd Hsz Hdj Heof]. destruct Hr as (Hr0 & Hrn & o & Ho & Hrl).
  rewrite <- Hr0 in Ho. destruct (pipe_read_ok s o Hwf Ho (Hsz _ _ Ho)) as (s' & Hrun & Ha).
  set (n := Z.min _ _) in Ha. destruct Ha as (Hwf' & Hring & Hmem & Hops & Hcnt & Hwc & Hww & Hwr).
  rewrite Hr0 in *. fold (moved o n) in Hops. pose proof (p_count _ Hwf) as Hc. pose proof (Hsz _ _ Ho) as Hso.
  assert (Hn : 0 <= n <= op_size o) by lia.
  assert (Hlen : Z.of_nat (length (take (Z.to_nat n) (ring (pipe s)))) = n).
  { rewrite length_take. unfold ring. rewrite tab_length. lia. }
  assert (Hdata : take (Z.to_nat n) (ring (pipe s)) = from_user (memory s') (buffer o) n).
  { symmetry. rewrite <- Hlen at 1. by apply (from_user_back (memory s)). }
  assert (Hframe : forall t x, ~ region o t x -> memory s' t x = memory s t x).
  { intros t x Hx. rewrite Hmem. apply to_user_out. rewrite Hlen. intros [-> H]. apply Hx. split; [done|lia]. }
  cbn [app] in Hnd. inversion_clear Hnd as [|? ? Hrnot Hnd'].
  assert (Hrw : r ∉ ws) by (intros Hin; apply Hrnot, elem_of_app; by right).
  assert (Hrr : r ∉ rs) by (intros Hin; apply Hrnot, elem_of_app; by left).
  exists s', o, n. split; [done|]. split; [done|]. split; [done|]. split; [lia|].
  assert (Hfin : (op_size o - n =? 0) || (waiting_writes (pipe s) =? 0) =
    (op_size o - n =? 0) || bool_decide (ws = [])).
  { f_equal. destruct ws as [|w ws]; [by rewrite Hw|]. destruct Hw as (-> & Hw0 & _).
    by rewrite (proj2 (Z.eqb_neq _ _)). }
  rewrite Hfin in Hwr. destruct (good_moved s (r :: rs) ws r o n Hg Ho Hn) as [Hsz' Hdj'].
  cbv zeta. split; [|split; [done|split; [|split; [done|split; [done|done]]]]].
  - assert (Hl' : oplist (ops s') (waiting_reads (pipe s')) (rest ((op_size o - n =? 0) || bool_decide (ws = [])) (r :: rs))).
    { rewrite Hwr, Hops. destruct (_ || _); cbn [rest tail].
      - by apply oplist_frame.
      - split; [done|split; [done|]]. exists (moved o n). rewrite lookup_insert_eq. split; [done|by apply oplist_frame]. }
    assert (Hsub : forall b, b ∈ rest ((op_size o - n =? 0) || bool_decide (ws = [])) (r :: rs) -> b ∈ r :: rs).
    { intros b. destruct (_ || _); cbn; [by right|done]. }
    split; try done.
    + rewrite Hww, Hops. by apply oplist_frame.
    + destruct (_ || _); cbn [rest tail app]; [done|by constructor].
    + by rewrite Hops.
    + rewrite Hops. intros b c ob oc t x Hb Hc' Hne. apply Hdj'; [by apply Hsub| |done].
      apply elem_of_app in Hc' as [Hc'|Hc']; apply elem_of_app; [left; by apply Hsub|by right].
    + by rewrite Hwc.
  - unfold stream. rewrite Hring at 1. rewrite Hdata, <- app_assoc. do 2 f_equal.
    rewrite Hops, pending_frame by done. apply pending_memory. intros a oa t x Ha Hoa Hx. symmetry. apply Hframe.
    intros Hx'. eapply (Hdj r a); [by left|by (apply elem_of_app; right)| |done|done|done|done]. by intros <-.
Qed.

(** A write branch moves bytes of the first writer into the ring. *)
Lemma write_step s w rs ws :
  good s rs (w :: ws) ->
  exists s' o n, pipe_write s = Some (tt, s') /\ ops s !! w = Some o /\
    n = Z.min (PIPE_BUFFER_CAPACITY - count (pipe s)) (op_size o) /\ 0 <= n /\
    let fin := op_size o - n =? 0 in
    good s' rs (rest fin (w :: ws)) /\ ops s' = <[w := moved o n]> (ops s) /\
    stream s (w :: ws) = stream s' (rest fin (w :: ws)) /\ memory s' = memory s /\
    count (pipe s') = count (pipe s) + n /\ write_count (pipe s') = write_count (pipe s).
Proof.
  intros Hg. pose proof Hg as [Hwf Hr Hw Hnd Hsz Hdj Heof]. destruct Hw as (Hw0 & Hwn & o & Ho & Hwl).
  rewrite <- Hw0 in Ho. destruct (pipe_write_ok s o Hwf Ho (Hsz _ _ Ho)) as (s' & Hrun & Ha).
  set (n := Z.min _ _) in Ha. destruct Ha as (Hwf' & Hring & Hmem & Hops & Hcnt & Hwc & Hwr & Hww).
  rewrite Hw0 in *. fold (moved o n) in Hops. pose proof (p_count _ Hwf) as Hc. pose proof (Hsz _ _ Ho) as Hso.
  assert (Hn : 0 <= n <= op_size o) by lia.
  rewrite <- Permutation_middle in Hnd. inversion_clear Hnd as [|? ? Hwnot Hnd'].
  assert (Hwr' : w ∉ rs) by (intros Hin; apply Hwnot, elem_of_app; by left).
  assert (Hww' : w ∉ ws) by (intros Hin; apply Hwnot, elem_of_app; by right).
  exists s', o, n. split; [done|]. split; [done|]. split; [done|]. split; [lia|].
  destruct (good_moved s rs (w :: ws) w o n Hg Ho Hn) as [Hsz' Hdj'].
  cbv zeta. split; [|split; [done|split; [|split; [done|split; [done|done]]]]].
  - assert (Hsub : forall b, b ∈ rest (op_size o - n =? 0) (w :: ws) -> b ∈ w :: ws).
    { intros b. destruct (_ =? _); cbn; [by right|done]. }
    split; try done.
    + rewrite Hwr, Hops. by apply oplist_frame.
    + rewrite Hww, Hops. destruct (_ =? _); cbn [rest tail].
      * by apply oplist_frame.
      * split; [done|split; [done|]]. exists (moved o n). rewrite lookup_insert_eq. split; [done|by apply oplist_frame].
    + destruct (_ =? _); cbn [rest tail]; [done|]. rewrite <- Permutation_middle. by constructor.
    + by rewrite Hops.
    + rewrite Hops. intros b c ob oc t x Hb Hc' Hne. apply Hdj'; [done| |done].
      apply elem_of_app in Hc' as [Hc'|Hc']; apply elem_of_app; [by left|right; by apply Hsub].
    + rewrite Hwc. intros E. by specialize (Heof E).
  - unfold stream. cbn [pending]. rewrite Ho, Hring, Hmem, (from_user_split _ _ n _ Hn), <- !app_assoc. f_equal. f_equal.
    rewrite Hops. destruct (Z.eqb_spec (op_size o - n) 0) as [E|E]; cbn [rest tail pending].
    + rewrite pending_frame by done. rewrite E. done.
    + rewrite lookup_insert_eq, pending_frame by done. done.
Qed.

(** ** The loop *)

Fixpoint total (m : gmap Z WaitingPipeOperation) (l : list Z) : Z :=
  match l with [] => 0 | a :: l' => match m !! a with Some o => op_size o | None => 0 end + total m l' end.

(** Every pass moves a byte or finishes an operation. *)
Definition measure (s : state) (rs ws : list Z) : nat :=
  (Z.to_nat (2 * total (ops s) ws + count (pipe s)) + length rs + length ws)%nat.

Lemma total_insert m l a o : a ∉ l -> total (<[a := o]> m) l = total m l.
Proof.
  induction l as [|b l IH]; [done|]. intros [Hab Hn]%not_elem_of_cons. cbn [total].
  rewrite lookup_insert_ne by done. by rewrite IH.
Qed.

Lemma total_ops_nonneg s rs ws l : good s rs ws -> 0 <= total (ops s) l.
Proof.
  intros Hg. induction l as [|a l IH]; [done|]. cbn [total]. destruct (ops s !! a) as [o|] eqn:E; [|lia].
  pose proof (g_sizes _ _ _ Hg _ _ E). lia.
Qed.

(** What the readers [rs] have got from one state to another, in their order. *)
Fixpoint delivered (m m' : gmap Z WaitingPipeOperation) (mem : user) (rs : list Z) : list Z :=
  match rs with
  | [] => []
  | a :: rs' =>
      match m !! a, m' !! a with
      | Some o, Some o' => from_user mem (buffer o) (op_size o - op_size o')
      | _, _ => []
      end ++ delivered m m' mem rs'
  end.

Lemma delivered_ext m1 m2 m' mem rs :
  (forall a, a ∈ rs -> m1 !! a = m2 !! a) -> delivered m1 m' mem rs = delivered m2 m' mem rs.
Proof.
  induction rs as [|a rs IH]; intros H; [done|]. cbn [delivered]. rewrite (H a) by by left.
  f_equal. apply IH. intros b Hb. apply H. by right.
Qed.

Lemma delivered_none m m' mem rs :
  (forall a, a ∈ rs -> m' !! a = m !! a) -> delivered m m' mem rs = [].
Proof.
  induction rs as [|a rs IH]; intros H; [done|]. cbn [delivered]. rewrite (H a) by by left.
  rewrite IH by (intros; apply H; by right). destruct (m !! a); [|done]. by rewrite Z.sub_diag.
Qed.

(** The operations of the queues only shrink; the others stay. *)
Definition shrunk (m m' : gmap Z WaitingPipeOperation) (l : list Z) : Prop :=
  (forall a, a ∉ l -> m' !! a = m !! a) /\
  forall a o, m !! a = Some o -> exists o', m' !! a = Some o' /\ 0 <= op_size o' <= op_size o /\
    op_written o' + op_size o' = op_written o + op_size o.

Definition loop_result (s s' : state) (rs ws rs' ws' : list Z) : Prop :=
  good s' rs' ws' /\ can_read (pipe s') = false /\ can_write (pipe s') = false /\
  stream s ws = delivered (ops s) (ops s') (memory s') rs ++ stream s' ws' /\
  (forall t x, (forall r o, r ∈ rs -> ops s !! r = Some o -> ~ region o t x) -> memory s' t x = memory s t x) /\
  shrunk (ops s) (ops s') (rs ++ ws).

Lemma shrunk_step m m' a o n l l' :
  m !! a = Some o -> 0 <= n <= op_size o -> a ∈ l -> (forall b, b ∈ l' -> b ∈ l) ->
  shrunk (<[a := moved o n]> m) m' l' -> shrunk m m' l.
Proof.
  intros Ho Hn Ha Hsub [H1 H2]. split.
  - intros b Hb. rewrite H1 by (intros Hin; by apply Hb, Hsub). rewrite lookup_insert_ne; [done|]. by intros <-.
  - intros b ob Hob. destruct (decide (b = a)) as [->|Hne].
    + rewrite Ho in Hob. injection Hob as <-. destruct (H2 a (moved o n)) as (o' & ? & ? & ?); [by rewrite lookup_insert_eq|].
      exists o'. cbn in *. split; [done|lia].
    + apply H2. by rewrite lookup_insert_ne.
Qed.

Lemma rest_sub b l (a : Z) : a ∈ rest b l -> a ∈ l.
Proof. destruct b; [|done]. destruct l; [done|]. by right. Qed.

(** A read branch and the passes after it. *)
Lemma loop_after_read s s1 s' r rs ws rs' ws' o n (fin : bool) :
  good s (r :: rs) ws -> ops s !! r = Some o -> 0 <= n <= op_size o ->
  ops s1 = <[r := moved o n]> (ops s) -> stream s ws = from_user (memory s1) (buffer o) n ++ stream s1 ws ->
  (forall t x, ~ region o t x -> memory s1 t x = memory s t x) ->
  loop_result s1 s' (rest fin (r :: rs)) ws rs' ws' -> loop_result s s' (r :: rs) ws rs' ws'.
Proof.
  intros Hg Ho Hn Hops Hst Hmem (Hg' & Hcr & Hcw & Hst' & Hfr & Hsh).
  pose proof (g_nodup _ _ _ Hg) as Hnd. cbn [app] in Hnd. inversion_clear Hnd as [|? ? Hrn _].
  assert (Hrr : r ∉ rs) by (intros Hin; apply Hrn, elem_of_app; by left).
  assert (Hin1 : forall a oa, a ∈ rest fin (r :: rs) -> ops s1 !! a = Some oa ->
    (a = r /\ oa = moved o n) \/ (a <> r /\ a ∈ rs /\ ops s !! a = Some oa)).
  { intros a oa Ha Hoa. apply rest_sub in Ha. rewrite Hops in Hoa. destruct (decide (a = r)) as [->|Hne].
    - rewrite lookup_insert_eq in Hoa. left. by simplify_eq.
    - rewrite lookup_insert_ne in Hoa by done. right. by apply elem_of_cons in Ha as [?|?]. }
  assert (Hold : forall a oa t x, a ∈ rs -> ops s !! a = Some oa -> region o t x -> region oa t x -> False).
  { intros a oa t x Ha Hoa H1 H2. eapply (g_disj _ _ _ Hg r a); [by left|apply elem_of_app; left; by right| |done..].
    by intros <-. }
  assert (Hgot : from_user (memory s1) (buffer o) n = from_user (memory s') (buffer o) n).
  { apply from_user_ext. intros x Hx. symmetry. apply Hfr. intros a oa Ha Hoa.
    destruct (Hin1 a oa Ha Hoa) as [[_ ->]|(_ & Har & Hoa')]; intros Hreg.
    - destruct Hreg as [_ Hreg]. cbn in Hreg. lia.
    - eapply Hold; [exact Har|exact Hoa'| |exact Hreg]. split; [done|lia]. }
  destruct Hsh as [Hsh1 Hsh2]. destruct (Hsh2 r (moved o n)) as (o' & Ho' & Hs' & _); [rewrite Hops; by rewrite lookup_insert_eq|].
  cbn in Hs'.
  split; [done|split; [done|split; [done|split; [|split]]]].
  - rewrite Hst, Hst', Hgot, app_assoc. f_equal. cbn [delivered]. rewrite Ho, Ho'.
    rewrite (delivered_ext (ops s) (ops s1)).
    2: { intros a Ha. rewrite Hops, lookup_insert_ne; [done|]. by intros <-. }
    destruct fin; cbn [rest tail delivered].
    + assert (Hf : ops s' !! r = ops s1 !! r) by (apply Hsh1; exact Hrn).
      rewrite Hops, lookup_insert_eq, Ho' in Hf. injection Hf as ->. cbn [moved op_size].
      replace (op_size o - (op_size o - n)) with n by lia. done.
    + rewrite Hops at 1. rewrite lookup_insert_eq, Ho'. cbn [moved buffer op_size].
      rewrite (from_user_split _ (buffer o) n (op_size o - op_size o')) by lia. rewrite <- app_assoc. f_equal.
      replace (op_size o - op_size o' - n) with (op_size o - n - op_size o') by lia. done.
  - intros t x Hx. rewrite Hfr, Hmem; [done| |].
    + by apply (Hx r); [left|].
    + intros a oa Ha Hoa. destruct (Hin1 a oa Ha Hoa) as [[-> ->]|(_ & Har & Hoa')].
      * intros Hreg. apply (Hx r o); [by left|done|]. by eapply region_moved.
      * apply (Hx a); [by right|done].
  - eapply (shrunk_step _ _ r o n); [done|done|by left| |rewrite <- Hops; by split].
    intros a [Ha|Ha]%elem_of_app; apply elem_of_app; [left; by eapply rest_sub|by right].
Qed.

(** A write branch and the passes after it. *)
Lemma loop_after_write s s1 s' w rs ws rs' ws' o n (fin : bool) :
  good s rs (w :: ws) -> ops s !! w = Some o -> 0 <= n <= op_size o ->
  ops s1 = <[w := moved o n]> (ops s) -> stream s (w :: ws) = stream s1 (rest fin (w :: ws)) ->
  memory s1 = memory s ->
  loop_result s1 s' rs (rest fin (w :: ws)) rs' ws' -> loop_result s s' rs (w :: ws) rs' ws'.
Proof.
  intros Hg Ho Hn Hops Hst Hmem (Hg' & Hcr & Hcw & Hst' & Hfr & Hsh).
  pose proof (g_nodup _ _ _ Hg) as Hnd. rewrite <- Permutation_middle in Hnd. inversion_clear Hnd as [|? ? Hwn _].
  assert (Hwr : w ∉ rs) by (intros Hin; apply Hwn, elem_of_app; by left).
  assert (Hsame : forall a, a ∈ rs -> ops s !! a = ops s1 !! a).
  { intros a Ha. rewrite Hops, lookup_insert_ne; [done|]. by intros <-. }
  split; [done|split; [done|split; [done|split; [|split]]]].
  - by rewrite Hst, Hst', (delivered_ext (ops s) (ops s1)).
  - intros t x Hx. rewrite Hfr, Hmem; [done|]. intros a oa Ha Hoa. apply (Hx a); [done|]. by rewrite Hsame.
  - eapply (shrunk_step _ _ w o n); [done|done|apply elem_of_app; right; by left| |rewrite <- Hops; exact Hsh].
    intros a [Ha|Ha]%elem_of_app; apply elem_of_app; [by left|right; by eapply rest_sub].
Qed.

Lemma operation_loop_ok fuel s rs ws :
  good s rs ws -> (measure s rs ws < fuel)%nat ->
  exists s' rs' ws', operation_loop fuel s = Some (tt, s') /\ loop_result s s' rs ws rs' ws'.
Proof.
  revert s rs ws. induction fuel as [|fuel IH]; intros s rs ws Hg Hf; [lia|]. cbn [operation_loop].
  erewrite bind_some by reflexivity. pose proof (p_count _ (g_wf _ _ _ Hg)) as Hc.
  destruct (can_read (pipe s)) eqn:Hcr; [|destruct (can_write (pipe s)) eqn:Hcw].
  - unfold can_read in Hcr. apply andb_true_iff in Hcr as [Hr Hcond]. apply negb_true_iff, Z.eqb_neq in Hr.
    destruct rs as [|r rs]; [by rewrite (g_reads _ _ _ Hg) in Hr|].
    destruct (read_step s r rs ws Hg) as (s1 & o & n & Hrun & Ho & Hn & Hn0 & Hg1 & Hops & Hst & Hmem & Hcnt & Hwc).
    set (fin := (op_size o - n =? 0) || bool_decide (ws = [])) in *.
    pose proof (g_nodup _ _ _ Hg) as Hnd. cbn [app] in Hnd. inversion_clear Hnd as [|? ? Hrn _].
    assert (Hrw : r ∉ ws) by (intros Hin; apply Hrn, elem_of_app; by right).
    pose proof (total_ops_nonneg _ _ _ ws Hg) as Ht.
    destruct (IH s1 (rest fin (r :: rs)) ws Hg1) as (s' & rs' & ws' & Hloop & Hres).
    { unfold measure in *. rewrite Hcnt, Hops, total_insert by done. cbn [length] in Hf.
      destruct fin eqn:Hfin; cbn [rest tail length]; [lia|].
      apply orb_false_iff in Hfin as [Hfin1 Hfin2]. apply Z.eqb_neq in Hfin1. apply bool_decide_eq_false in Hfin2.
      assert (write_count (pipe s) <> 0) by (intros E; by apply Hfin2, (g_eof _ _ _ Hg)).
      apply orb_true_iff in Hcond as [Hcond|Hcond]; [|lia]. apply negb_true_iff, Z.eqb_neq in Hcond. lia. }
    exists s', rs', ws'. rewrite (bind_some _ _ _ _ _ Hrun). split; [done|].
    apply (loop_after_read s s1 s' r rs ws rs' ws' o n fin); try done. lia.
  - unfold can_write in Hcw. apply andb_true_iff in Hcw as [Hw Hcond]. apply negb_true_iff, Z.eqb_neq in Hw.
    destruct ws as [|w ws]; [by rewrite (g_writes _ _ _ Hg) in Hw|].
    destruct (write_step s w rs ws Hg) as (s1 & o & n & Hrun & Ho & Hn & Hn0 & Hg1 & Hops & Hst & Hmem & Hcnt & Hwc).
    set (fin := op_size o - n =? 0) in *.
    pose proof (g_nodup _ _ _ Hg) as Hnd. rewrite <- Permutation_middle in Hnd. inversion_clear Hnd as [|? ? Hwn _].
    assert (Hww : w ∉ ws) by (intros Hin; apply Hwn, elem_of_app; by right).
    pose proof (total_ops_nonneg _ _ _ ws Hg) as Ht. pose proof (g_sizes _ _ _ Hg _ _ Ho) as Hso.
    destruct (IH s1 rs (rest fin (w :: ws)) Hg1) as (s' & rs' & ws' & Hloop & Hres).
    { unfold measure in *. cbn [total] in Hf. rewrite Ho in Hf. rewrite Hcnt, Hops. unfold fin.
      destruct (Z.eqb_spec (op_size o - n) 0); cbn [rest tail length total] in *.
      - rewrite total_insert by done. lia.
      - rewrite lookup_insert_eq, total_insert by done. cbn [moved op_size]. lia. }
    exists s', rs', ws'. rewrite (bind_some _ _ _ _ _ Hrun). split; [done|].
    apply (loop_after_write s s1 s' w rs ws rs' ws' o n fin); try done. lia.
  - exists s, rs, ws. split; [done|]. split; [done|split; [done|split; [done|split; [|split; [done|]]]]].
    + by rewrite delivered_none.
    + split; [done|]. intros a o Ho. exists o. split; [done|]. pose proof (g_sizes _ _ _ Hg _ _ Ho). lia.
Qed.

(** The fuel covers the measure. *)
Lemma total_fold m l :
  (forall a o, m !! a = Some o -> 0 <= op_size o) -> NoDup l -> (forall a, a ∈ l -> is_Some (m !! a)) ->
  total m l <= map_fold (fun (_ : Z) o n => op_size o + n) 0 m.
Proof.
  intros Hsz Hnd. revert m Hsz. induction Hnd as [|a l Ha Hnd IH]; intros m Hsz Hin; cbn [total].
  - induction m as [|i x m Hi IHm] using map_ind; [by rewrite map_fold_empty|].
    rewrite map_fold_insert_L by first [done|intros; lia].
    pose proof (Hsz i x (lookup_insert_eq _ _ _)). assert (0 <= map_fold (fun (_ : Z) o n => op_size o + n) 0 m); [|lia].
    apply IHm; [|intros a ?%not_elem_of_nil; done]. intros a o Hao. apply (Hsz a).
    rewrite lookup_insert_ne; [done|]. intros ->. congruence.
  - destruct (Hin a) as [o Ho]; [by left|]. rewrite Ho.
    rewrite (map_fold_delete_L _ _ a o m) by first [done|intros; lia].
    specialize (IH (delete a m)). assert (E : total (delete a m) l = total m l).
    { clear -Ha. induction l as [|b l IHl]; [done|]. apply not_elem_of_cons in Ha as [Hab Hal]. cbn [total].
      rewrite lookup_delete_ne by done. by rewrite IHl. }
    rewrite E in IH. enough (total m l <= map_fold (fun (_ : Z) o n => op_size o + n) 0 (delete a m)) by lia.
    apply IH.
    + intros b ob [_ Hb]%lookup_delete_Some. by eapply Hsz.
    + intros b Hb. rewrite lookup_delete_ne; [apply Hin; by right|]. by intros <-.
Qed.

Lemma oplist_in m c l a : oplist m c l -> a ∈ l -> is_Some (m !! a).
Proof.
  revert c. induction l as [|b l IH]; intros c; [by intros _ ?%not_elem_of_nil|].
  intros (_ & _ & o & Ho & Hl) [->|Ha]%elem_of_cons; [by exists o|by eapply IH].
Qed.

Lemma measure_fuel s rs ws : good s rs ws -> (measure s rs ws < loop_fuel s)%nat.
Proof.
  intros Hg. unfold measure, loop_fuel. pose proof Hg as [Hwf Hr Hw Hnd Hsz _ _].
  assert (Hin : forall a, a ∈ rs ++ ws -> is_Some (ops s !! a)).
  { intros a [Ha|Ha]%elem_of_app; [by apply (oplist_in _ _ _ a Hr)|by apply (oplist_in _ _ _ a Hw)]. }
  pose proof (total_ops_nonneg _ _ _ ws Hg).
  assert (Hws : total (ops s) ws <= map_fold (fun (_ : Z) o n => op_size o + n) 0 (ops s)).
  { apply total_fold; [done| |].
    - by apply list.NoDup_app in Hnd as (_ & _ & ?).
    - intros a Ha. apply Hin, elem_of_app. by right. }
  assert (Hl : (length rs + length ws <= size (ops s))%nat).
  { rewrite <- length_app, <- (size_list_to_set (C := gset Z)), <- size_dom by done. apply subseteq_size.
    intros a Ha%elem_of_list_to_set. by apply elem_of_dom, Hin. }
  pose proof (p_count _ Hwf). lia.
Qed.

(** ** Properties *)

(** C32: [doOperationOnPipe] terminates where nothing more can be done.  The pipe is a
    queue of bytes: what was in the ring and in the writers' buffers, in their
    order, is what the readers have got, in their order, followed by what is
    still in the ring and in the buffers; no other memory changes, and every
    operation counts the bytes it moved. *)
Theorem doOperationOnPipe_fifo s rs ws :
  good s rs ws ->
  exists s' rs' ws', doOperationOnPipe s = Some (tt, s') /\ loop_result s s' rs ws rs' ws'.
Proof. intros Hg. apply operation_loop_ok; [done|]. by apply measure_fuel. Qed.

(** A reader for 4 bytes and a writer with 6, in the memory spaces 1 and 2. *)
Definition demo_reader : WaitingPipeOperation := mkOp (mkPtr 0x1000 1) 4 0 0x100 0.
Definition demo_writer : WaitingPipeOperation := mkOp (mkPtr 0x1000 2) 6 0 0x200 0.
Definition demo : state :=
  mkState (mkPipe 2 1 (fun _ => 0) 510 0 0x10 0x10 0x20 0x20)
    (<[0x10 := demo_reader]> {[ 0x20 := demo_writer ]}) (fun t x => t * x) [].

Lemma demo_op a o : ops demo !! a = Some o -> (a = 0x10 /\ o = demo_reader) \/ (a = 0x20 /\ o = demo_writer).
Proof.
  intros H. change (ops demo) with (<[0x10 := demo_reader]> {[ 0x20 := demo_writer ]} : gmap Z WaitingPipeOperation) in H.
  apply lookup_insert_Some in H as [[<- <-]|[_ H]]; [by left|]. apply lookup_singleton_Some in H as [<- <-]. by right.
Qed.

Lemma demo_good : good demo [0x10] [0x20].
Proof.
  split; cbn [demo pipe waiting_reads waiting_writes write_count].
  - split; cbn; unfold PIPE_BUFFER_CAPACITY; lia.
  - split; [done|split; [done|]]. by exists demo_reader.
  - split; [done|split; [done|]]. by exists demo_writer.
  - apply NoDup_cons_2; [|apply NoDup_singleton]. by intros ?%list_elem_of_singleton.
  - intros a o [[_ ->]|[_ ->]]%demo_op; cbn; lia.
  - intros a b oa ob t x Ha Hb Hne [[-> ->]|[-> ->]]%demo_op [[-> ->]|[-> ->]]%demo_op [-> _] [E _]; done.
  - done.
Qed.

Lemma doOperationOnPipe_fifo_witness :
  exists s' rs' ws', doOperationOnPipe demo = Some (tt, s') /\ loop_result demo s' [0x10] [0x20] rs' ws'.
Proof. exact (doOperationOnPipe_fifo demo [0x10] [0x20] demo_good). Defined.

(** The bytes the reader gets, and the tasks that are woken. *)
Example demo_run :
  (doOperationOnPipe demo ≫= fun r =>
     Some (from_user (memory (snd r)) (mkPtr 0x1000 1) 4, woken (snd r), ring (pipe (snd r)))) =
  Some ([0x2000; 0x2002; 0x2004; 0x2006], [0x200; 0x100], [0x2008; 0x200a]).
Proof. vm_compute. reflexivity. Qed.

(** An open pipe without readers or writers. *)
Definition idle : state := mkState (mkPipe 2 1 (fun _ => 0) 0 512 0 0 0 0) ∅ (fun _ _ => 7) [].

(** The queue of writers after three writes to a full pipe. *)
Definition three_writers : PM (list Z) :=
  startPipeOperation 0x10 0x100 (mkPtr 0 1) 1 true true;;
  startPipeOperation 0x20 0x200 (mkPtr 0 2) 1 true true;;
  startPipeOperation 0x30 0x300 (mkPtr 0 3) 1 true true;;
  s ← get;
  a ← get_op (waiting_writes (pipe s)); b ← get_op (next a);
  mret [waiting_writes (pipe s); next a; next b].

(** The third write takes the place of the second in the queue. *)
Example third_writer_unlinks_second : fst <$> three_writers idle = Some [0x10; 0x30; 0].
Proof. vm_compute. reflexivity. Qed.

(** A reader that waits when the last writer closes the pipe fails with [EINTR]. *)
Definition eof_run : PM outcome :=
  startPipeOperation 0x10 0x100 (mkPtr 0 1) 1 false true;;
  freePipeSharedData true;;
  operation_result 0x10.

Example eof_is_interrupt :
  fst <$> eof_run (mkState (mkPipe 2 1 (fun _ => 0) 0 0 0 0 0 0) ∅ (fun _ _ => 7) []) = Some (Failed EINTR).
Proof. vm_compute. reflexivity. Qed.

End Pipe.
