(* ===== verification/BigInt.v ===== *)
(** * BigInt: the decimal arithmetic of [expr], [userspace/src/expr/expr.c]

    An integer is the text of its digits with an optional minus sign.  A
    [const char*] is the list of the characters from the pointer to the NUL,
    which the list leaves out, so [p + 1] is [tail].  [None] is an access
    outside a buffer, or a loop that does not end. *)
From S2P Require Import Prelude.

Module BigInt.

(** ** Definitions *)

(** [p[i]] and [p[i] = c] on the characters of a string. *)
Definition char_at (s : list Z) (i : Z) : option Z := if i <? 0 then None else s !! Z.to_nat i.
Definition set_at (s : list Z) (i : Z) (c : Z) : option (list Z) :=
  if i <? 0 then None else buf_set s (Z.to_nat i) c.

Definition strlen (s : list Z) : Z := Z.of_nat (length s).

(** [*s == c], also at the end of the string. *)
Definition starts (s : list Z) (c : Z) : bool := match s with d :: _ => d =? c | [] => false end.

(** [strcmp]; only its sign is defined. *)
Fixpoint strcmp (a b : list Z) : Z :=
  match a, b with
  | [], [] => 0
  | [], _ => -1
  | _, [] => 1
  | c :: a', d :: b' => if c =? d then strcmp a' b' else if c <? d then -1 else 1
  end.

Definition isZero (arg : list Z) : bool :=
  let arg := if starts arg 45 then tail arg else arg in
  forallb (fun c => c =? 48) arg.

Fixpoint integer_loop (arg : list Z) : bool :=
  match arg with
  | [] => false
  | c :: arg' =>
      if (c <? 48) || (57 <? c) then false
      else match arg' with [] => true | _ => integer_loop arg' end
  end.

Definition isInteger (arg : list Z) : bool :=
  integer_loop (if starts arg 45 then tail arg else arg).

(** [while ( *s == '0') s++]. *)
Fixpoint skip_zeros (s : list Z) : list Z :=
  match s with
  | c :: s' => if c =? 48 then skip_zeros s' else s
  | [] => []
  end.

Fixpoint cmpInteger (fst snd : list Z) : Z :=
  match fst with
  | c :: fst' =>
      if c =? 45 then if starts snd 45 then - cmpInteger fst' (tail snd) else -1
      else if starts snd 45 then 1
      else
        let f := skip_zeros fst in
        let s := skip_zeros snd in
        if negb (strlen f =? strlen s) then s32 (strlen f - strlen s) else strcmp f s
  | [] =>
      if starts snd 45 then 1
      else
        let s := skip_zeros snd in
        if negb (0 =? strlen s) then s32 (0 - strlen s) else strcmp [] s
  end.

Definition negInline (arg : list Z) : list Z := if starts arg 45 then tail arg else 45 :: arg.

(** The end of the arithmetic functions: the leading zeros go, but not the last one. *)
Definition drop_zeros (res : list Z) : option (list Z) :=
  match skip_zeros res with
  | [] => match res with [] => None | _ => Some [48] end
  | s => Some s
  end.

(** The loops that add and multiply: they run from the last digit, [pos] counts
    from the right, and [digit pos] is what the position adds to the carry. *)
Fixpoint carry_loop (fuel : nat) (digit : Z -> option Z) (len pos carry : Z) (res : list Z) : option (list Z) :=
  match fuel with
  | O => None
  | S fuel' =>
      d ← digit pos;
      let v := carry + d in
      res ← set_at res (len - pos) (v mod 10 + 48);
      if pos + 1 <=? len then carry_loop fuel' digit len (pos + 1) (v / 10) res else Some res
  end.

(** [if (pos < len) v += s[len - 1 - pos] - '0']. *)
Definition digit_of (s : list Z) (pos : Z) : option Z :=
  if pos <? strlen s then c ← char_at s (strlen s - 1 - pos); Some (c - 48) else Some 0.

Definition add_digits (fst snd : list Z) : option (list Z) :=
  let fst := skip_zeros fst in
  let snd := skip_zeros snd in
  res ← carry_loop (S (length fst)) (fun pos => a ← digit_of fst pos; b ← digit_of snd pos; Some (a + b))
          (strlen fst) 0 0 (48 :: fst);
  drop_zeros res.

(** [while (sub > val) { carry++; val += 10; }]. *)
Fixpoint borrow_loop (fuel : nat) (sub val carry : Z) : option (Z * Z) :=
  match fuel with
  | O => None
  | S fuel' => if val <? sub then borrow_loop fuel' sub (val + 10) (carry + 1) else Some (val, carry)
  end.

Fixpoint difference_loop (fuel : nat) (fst snd : list Z) (pos carry : Z) (res : list Z) : option (list Z) :=
  match fuel with
  | O => None
  | S fuel' =>
      c ← char_at fst (strlen fst - 1 - pos);
      b ← digit_of snd pos;
      let sub := carry + b in
      '(val, carry) ← borrow_loop 10 sub (c - 48) 0;
      res ← set_at res (strlen fst - 1 - pos) (val - sub + 48);
      if pos + 1 <? strlen fst then difference_loop fuel' fst snd (pos + 1) carry res else Some res
  end.

Definition sub_digits (fst snd : list Z) : option (list Z) :=
  let fst := skip_zeros fst in
  let snd := skip_zeros snd in
  res ← difference_loop (S (length fst)) fst snd 0 0 fst;
  drop_zeros res.

(** [addInteger] and [subInteger], which call each other; [add] and [sub] are the
    recursive calls. *)
Definition add_step (add sub : list Z -> list Z -> option (list Z)) (fst snd : list Z) : option (list Z) :=
  if starts fst 45 && starts snd 45 then negInline <$> add (tail fst) (tail snd)
  else if starts fst 45 then
    if 0 <? cmpInteger (tail fst) snd then negInline <$> sub (tail fst) snd
    else sub snd (tail fst)
  else if starts snd 45 then
    if cmpInteger fst (tail snd) <? 0 then negInline <$> sub (tail snd) fst
    else sub fst (tail snd)
  else if cmpInteger fst snd <? 0 then add snd fst
  else add_digits fst snd.

Definition sub_step (add sub : list Z -> list Z -> option (list Z)) (fst snd : list Z) : option (list Z) :=
  if starts fst 45 && starts snd 45 then sub (tail snd) (tail fst)
  else if starts fst 45 then negInline <$> add (tail fst) snd
  else if starts snd 45 then add fst (tail snd)
  else if cmpInteger fst snd <? 0 then negInline <$> sub snd fst
  else sub_digits fst snd.

(** The mutual recursion, on which of the two is called: every call removes a sign
    or swaps the arguments. *)
Inductive sum_op : Type := Add | Sub.

Fixpoint sum_rec (fuel : nat) (op : sum_op) : list Z -> list Z -> option (list Z) :=
  match fuel with
  | O => fun _ _ => None
  | S fuel' =>
      match op with
      | Add => add_step (sum_rec fuel' Add) (sum_rec fuel' Sub)
      | Sub => sub_step (sum_rec fuel' Add) (sum_rec fuel' Sub)
      end
  end.
Definition add_rec (fuel : nat) : list Z -> list Z -> option (list Z) := sum_rec fuel Add.
Definition sub_rec (fuel : nat) : list Z -> list Z -> option (list Z) := sum_rec fuel Sub.

Definition call_fuel (fst snd : list Z) : nat := length fst + length snd + 4.
Definition addInteger (fst snd : list Z) : option (list Z) := add_rec (call_fuel fst snd) fst snd.
Definition subInteger (fst snd : list Z) : option (list Z) := sub_rec (call_fuel fst snd) fst snd.

Definition decShiftInline (arg : list Z) (pow : nat) : list Z := arg ++ replicate pow 48.

(** [mulInteger] with a [snd] of one digit. *)
Definition mul_digit (fst : list Z) (digit : Z) : option (list Z) :=
  res ← carry_loop (S (length fst)) (fun pos => a ← digit_of fst pos; Some (a * digit))
          (strlen fst) 0 0 (48 :: fst);
  drop_zeros res.

(** The loop over the digits of [snd]; [mul] is the recursive call. *)
Fixpoint product_loop (mul : list Z -> list Z -> option (list Z)) (fst snd res : list Z) : option (list Z) :=
  match snd with
  | [] => Some res
  | c :: snd' =>
      part ← mul fst [c];
      next ← addInteger res (decShiftInline part (length snd'));
      product_loop mul fst snd' next
  end.

Fixpoint mul_rec (fuel : nat) (fst snd : list Z) : option (list Z) :=
  match fuel with
  | O => None
  | S fuel' =>
      if starts fst 45 && starts snd 45 then mul_rec fuel' (tail fst) (tail snd)
      else if starts fst 45 then negInline <$> mul_rec fuel' (tail fst) snd
      else if starts snd 45 then negInline <$> mul_rec fuel' fst (tail snd)
      else if cmpInteger fst snd <? 0 then mul_rec fuel' snd fst
      else
        let fst := skip_zeros fst in
        let snd := skip_zeros snd in
        match snd with
        | [c] => mul_digit fst (c - 48)
        | _ => product_loop (mul_rec fuel') fst snd [48]
        end
  end.

Definition mulInteger (fst snd : list Z) : option (list Z) := mul_rec (call_fuel fst snd) fst snd.

(** The inner loop of [divRemInteger]: a divisor that is not zero is subtracted
    nine times at most, and with zero the loop does not end. *)
Fixpoint digit_loop (fuel : nat) (rem snd : list Z) (digit : Z) : option (list Z * Z) :=
  match fuel with
  | O => None
  | S fuel' =>
      if 0 <=? cmpInteger rem snd then
        next ← subInteger rem snd;
        digit_loop fuel' next snd (digit + 1)
      else Some (rem, digit)
  end.

(** The outer loop: what is left of [fst], and the digits written so far. *)
Fixpoint divide_loop (fuel : nat) (fst snd div rem : list Z) : option (list Z * list Z) :=
  match fst with
  | [] => Some (div, rem)
  | c :: fst' =>
      '(rem, digit) ← digit_loop fuel (rem ++ [c]) snd 0;
      divide_loop fuel fst' snd (div ++ [digit + 48]) rem
  end.

Definition divRem_with (fuel : nat) (fst snd : list Z) : option (list Z * list Z) :=
  '(div, rem) ← divide_loop fuel fst snd [] [48];
  div ← drop_zeros div;
  Some (div, rem).

Definition divRemInteger (fst snd : list Z) : option (list Z * list Z) := divRem_with 10 fst snd.

Fixpoint div_rec (fuel : nat) (fst snd : list Z) : option (list Z) :=
  match fuel with
  | O => None
  | S fuel' =>
      if starts fst 45 && starts snd 45 then div_rec fuel' (tail fst) (tail snd)
      else if starts fst 45 then negInline <$> div_rec fuel' (tail fst) snd
      else if starts snd 45 then negInline <$> div_rec fuel' fst (tail snd)
      else '(div, rem) ← divRemInteger fst snd; Some div
  end.

Definition divInteger (fst snd : list Z) : option (list Z) := div_rec (call_fuel fst snd) fst snd.

Fixpoint rem_rec (fuel : nat) (fst snd : list Z) : option (list Z) :=
  match fuel with
  | O => None
  | S fuel' =>
      if starts fst 45 && starts snd 45 then negInline <$> rem_rec fuel' (tail fst) (tail snd)
      else if starts fst 45 then negInline <$> rem_rec fuel' (tail fst) snd
      else if starts snd 45 then rem_rec fuel' fst (tail snd)
      else '(div, rem) ← divRemInteger fst snd; Some rem
  end.

Definition remInteger (fst snd : list Z) : option (list Z) := rem_rec (call_fuel fst snd) fst snd.

(** ** Values *)

Definition is_digit (c : Z) : Prop := 48 <= c <= 57.
Definition digits (s : list Z) : Prop := Forall is_digit s.

Fixpoint value (s : list Z) : Z :=
  match s with
  | [] => 0
  | c :: s' => (c - 48) * 10 ^ strlen s' + value s'
  end.

(** The value of the last [k] digits. *)
Definition low (s : list Z) (k : nat) : Z := value (drop (length s - k) s).

Lemma value_app a b : value (a ++ b) = value a * 10 ^ strlen b + value b.
Proof.
  induction a as [|c a IH]; [done|]. cbn [app value]. rewrite IH. unfold strlen. rewrite length_app, Nat2Z.inj_add, Z.pow_add_r by lia.
  ring.
Qed.

Lemma value_range s : digits s -> 0 <= value s < 10 ^ strlen s.
Proof.
  induction 1 as [|c s Hc Hs IH]; [done|]. cbn [value]. unfold strlen in *. cbn [length].
  rewrite Nat2Z.inj_succ, Z.pow_succ_r by lia. unfold is_digit in Hc. nia.
Qed.

Lemma low_step s k c : s !! (length s - 1 - k)%nat = Some c -> (k < length s)%nat ->
  low s (S k) = (c - 48) * 10 ^ Z.of_nat k + low s k.
Proof.
  intros Hc Hk. unfold low. replace (length s - k)%nat with (S (length s - S k)) by lia.
  replace (length s - 1 - k)%nat with (length s - S k)%nat in Hc by lia.
  rewrite (drop_S s c) by done. cbn [value]. unfold strlen. rewrite length_drop. do 3 f_equal. lia.
Qed.

Lemma low_all s k : (length s <= k)%nat -> low s k = value s.
Proof. intros Hk. unfold low. by replace (length s - k)%nat with 0%nat by lia. Qed.

Lemma low_write s k c : (k < length s)%nat ->
  low (<[(length s - 1 - k)%nat := c]> s) (S k) = (c - 48) * 10 ^ Z.of_nat k + low s k.
Proof.
  intros Hk. rewrite (low_step _ k c); rewrite ?length_insert; [|apply list_lookup_insert_eq; lia|done].
  f_equal. unfold low. rewrite length_insert. by rewrite drop_insert_lt by lia.
Qed.

Lemma low_range s k : digits s -> (k <= length s)%nat -> 0 <= low s k < 10 ^ Z.of_nat k.
Proof.
  intros Hs Hk. unfold low. pose proof (value_range (drop (length s - k) s) (Forall_drop _ _ _ Hs)) as H.
  unfold strlen in H. rewrite length_drop in H. by replace (length s - (length s - k))%nat with k in H by lia.
Qed.

Lemma digits_at s k c : digits s -> s !! k = Some c -> is_digit c.
Proof. intros Hs Hc. by eapply Forall_lookup_1. Qed.

Lemma digit_of_ok s k : digits s ->
  exists d, digit_of s (Z.of_nat k) = Some d /\ 0 <= d <= 9 /\ low s (S k) = d * 10 ^ Z.of_nat k + low s k.
Proof.
  intros Hs. unfold digit_of, strlen. destruct (Z.ltb_spec (Z.of_nat k) (Z.of_nat (length s))) as [Hk|Hk].
  - destruct (lookup_lt_is_Some_2 s (length s - 1 - k)) as [c Hc]; [lia|].
    unfold char_at. rewrite (proj2 (Z.ltb_ge _ _)) by lia.
    replace (Z.to_nat _) with (length s - 1 - k)%nat by lia. rewrite Hc. exists (c - 48).
    pose proof (digits_at _ _ _ Hs Hc) as Hd. unfold is_digit in Hd.
    split; [done|split; [lia|]]. apply low_step; [done|lia].
  - exists 0. rewrite !low_all by lia. split; [done|lia].
Qed.

Lemma set_at_ok s k c : (k < length s)%nat -> set_at s (Z.of_nat (length s) - 1 - Z.of_nat k) c =
  Some (<[(length s - 1 - k)%nat := c]> s).
Proof.
  intros Hk. unfold set_at. rewrite (proj2 (Z.ltb_ge _ _)) by lia.
  rewrite buf_set_in by lia. do 2 f_equal. lia.
Qed.

Lemma digits_write s k c : digits s -> is_digit c -> digits (<[k := c]> s).
Proof. intros Hs Hc. by apply Forall_insert. Qed.

(** ** The digit loops *)

(** [acc k] is the result of the last [k] digits. *)
Lemma carry_loop_ok digit d (acc : nat -> Z) len fuel k carry res :
  (forall i, (i <= len)%nat -> digit (Z.of_nat i) = Some (d i) /\ 0 <= d i) ->
  (forall i, (i <= len)%nat -> acc (S i) = d i * 10 ^ Z.of_nat i + acc i) ->
  acc (S len) < 10 ^ Z.of_nat (S len) ->
  digits res -> length res = S len -> (k <= len)%nat -> (len < fuel + k)%nat -> 0 <= carry ->
  low res k + carry * 10 ^ Z.of_nat k = acc k ->
  exists res', carry_loop fuel digit (Z.of_nat len) (Z.of_nat k) carry res = Some res' /\
    digits res' /\ length res' = S len /\ value res' = acc (S len).
Proof.
  intros Hd Hacc Hend. revert k carry res. induction fuel as [|fuel IH]; intros k carry res Hr Hl Hk Hf Hc Hi; [lia|].
  cbn [carry_loop]. destruct (Hd k) as [-> Hdk]; [done|]. cbn [mbind option_bind].
  replace (Z.of_nat len - Z.of_nat k) with (Z.of_nat (length res) - 1 - Z.of_nat k) by lia.
  rewrite set_at_ok by lia. cbn [mbind option_bind].
  set (v := carry + d k). set (res1 := <[_ := _]> res).
  assert (Hv : 0 <= v) by (unfold v; lia). pose proof (Z.div_mod v 10 ltac:(lia)) as Hdm.
  pose proof (Z.mod_pos_bound v 10 ltac:(lia)) as Hmp. pose proof (Z.div_pos v 10 Hv ltac:(lia)) as Hdp.
  assert (Hr1 : digits res1) by (apply digits_write; [done|unfold is_digit; lia]).
  assert (Hl1 : length res1 = S len) by (unfold res1; by rewrite length_insert).
  assert (H1 : low res1 (S k) + v / 10 * 10 ^ Z.of_nat (S k) = acc (S k)).
  { unfold res1. rewrite low_write, Hacc, <- Hi by lia. rewrite Nat2Z.inj_succ, Z.pow_succ_r by lia.
    transitivity ((10 * (v / 10) + v mod 10) * 10 ^ Z.of_nat k + low res k); [ring|]. rewrite <- Hdm. unfold v. ring. }
  replace (Z.of_nat k + 1) with (Z.of_nat (S k)) by lia.
  destruct (Z.leb_spec (Z.of_nat (S k)) (Z.of_nat len)) as [Hn|Hn].
  - apply IH; try done; lia.
  - assert (k = len) as -> by lia. exists res1. split; [done|split; [done|split; [done|]]].
    rewrite low_all in H1 by lia. pose proof (value_range _ Hr1) as Hvr. unfold strlen in Hvr. rewrite Hl1 in Hvr.
    destruct (Z.eq_dec (v / 10) 0) as [E|E]; [rewrite E in H1; lia|].
    pose proof (Z.mul_le_mono_nonneg_r 1 (v / 10) (10 ^ Z.of_nat (S len)) ltac:(lia) ltac:(lia)). lia.
Qed.

Lemma skip_ok s : digits s ->
  digits (skip_zeros s) /\ value (skip_zeros s) = value s /\ (length (skip_zeros s) <= length s)%nat.
Proof.
  induction 1 as [|c s Hc Hs (? & ? & ?)]; [by split; [constructor|]|]. cbn [skip_zeros]. destruct (Z.eqb_spec c 48) as [->|].
  - cbn [value length]. rewrite Z.sub_diag, Z.mul_0_l. split; [done|split; lia].
  - split; [by constructor|done].
Qed.

Lemma skip_lower s : digits s -> skip_zeros s <> [] -> 10 ^ (strlen (skip_zeros s) - 1) <= value s.
Proof.
  intros Hs. destruct (skip_ok s Hs) as (Hd & <- & _). 
  assert (H : match skip_zeros s with [] => True | c :: _ => c <> 48 end).
  { clear. induction s as [|c s IH]; [done|]. cbn [skip_zeros]. destruct (Z.eqb_spec c 48); done. }
  destruct (skip_zeros s) as [|c r]; [done|]. intros _. inversion Hd as [|? ? Hc Hr]; subst.
  pose proof (value_range r Hr). unfold is_digit in Hc. cbn [value]. unfold strlen in *. cbn [length].
  replace (Z.of_nat (S (length r)) - 1) with (Z.of_nat (length r)) by lia.
  pose proof (Z.pow_pos_nonneg 10 (Z.of_nat (length r))). nia.
Qed.

(** A result of the digit loops: digits without leading zeros. *)
Definition number (r : list Z) (v : Z) (len : nat) : Prop :=
  digits r /\ r <> [] /\ value r = v /\ (length r <= len)%nat /\ ((1 < length r)%nat -> 10 ^ (strlen r - 1) <= value r).

Lemma number_length r v len n : number r v len -> v < 10 ^ Z.of_nat n -> (0 < n)%nat -> (length r <= n)%nat.
Proof.
  intros (_ & _ & <- & _ & H) Hv Hn. destruct (Nat.le_gt_cases (length r) 1); [lia|]. specialize (H ltac:(lia)).
  destruct (Nat.le_gt_cases (length r) n); [done|]. unfold strlen in H.
  pose proof (Z.pow_le_mono_r 10 (Z.of_nat n) (Z.of_nat (length r) - 1)). lia.
Qed.

Lemma number_change r v v' len len' : number r v len -> v = v' -> (len <= len')%nat -> number r v' len'.
Proof. intros (? & ? & ? & ? & ?) <- ?. repeat split; try done. lia. Qed.

Lemma drop_zeros_ok res : digits res -> res <> [] ->
  exists r, drop_zeros res = Some r /\ number r (value res) (length res).
Proof.
  intros Hr Hn. unfold drop_zeros. destruct (skip_ok res Hr) as (Hd & Hv & Hl). pose proof (skip_lower res Hr) as K.
  destruct (skip_zeros res) as [|c s].
  - destruct res as [|c res]; [done|]. exists [48]. split; [done|].
    split; [constructor; [unfold is_digit; lia|constructor]|].
    split; [done|]. split; [rewrite <- Hv; done|]. split; cbn; lia.
  - exists (c :: s). split; [done|split; [done|split; [done|split; [done|split; [done|]]]]]. intros _. rewrite Hv. by apply K.
Qed.

Lemma strcmp_value a b : digits a -> digits b -> length a = length b -> strcmp a b = Z.sgn (value a - value b).
Proof.
  intros Ha. revert b. induction Ha as [|c a Hc Ha IH]; intros [|d b] Hb Hl; try done.
  inversion Hb as [|? ? Hd Hb']; subst. injection Hl as Hl. cbn [strcmp value]. unfold strlen. rewrite Hl.
  pose proof (value_range a Ha) as Ra. pose proof (value_range b Hb') as Rb. unfold strlen in *. rewrite Hl in Ra.
  set (P := 10 ^ Z.of_nat (length b)) in *. unfold is_digit in *. destruct (Z.eqb_spec c d) as [->|Hne].
  - rewrite IH by done. f_equal. lia.
  - destruct (Z.ltb_spec c d); symmetry; [apply Z.sgn_neg|apply Z.sgn_pos]; nia.
Qed.

(** The strings are shorter than [2^30]. *)
Definition short (s : list Z) : Prop := strlen s < 2 ^ 30.

Lemma digits_unsigned s : digits s -> starts s 45 = false.
Proof. intros [|c r Hc Hr]; [done|]. unfold is_digit in Hc. cbn. lia. Qed.

Lemma cmp_digits a b : digits a -> digits b -> short a -> short b ->
  Z.sgn (cmpInteger a b) = Z.sgn (value a - value b).
Proof.
  intros Ha Hb Sa Sb.
  assert (E : cmpInteger a b = if negb (strlen (skip_zeros a) =? strlen (skip_zeros b))
    then s32 (strlen (skip_zeros a) - strlen (skip_zeros b)) else strcmp (skip_zeros a) (skip_zeros b)).
  { destruct Ha as [|c a Hc Ha]; cbn [cmpInteger]; rewrite (digits_unsigned b) by done; [done|].
    unfold is_digit in Hc. by rewrite (proj2 (Z.eqb_neq c 45)) by lia. }
  rewrite E. destruct (skip_ok a Ha) as (Da & Va & La), (skip_ok b Hb) as (Db & Vb & Lb).
  pose proof (value_range _ Da) as Ra. pose proof (value_range _ Db) as Rb.
  pose proof (skip_lower a Ha) as Ka. pose proof (skip_lower b Hb) as Kb. unfold short, strlen in *.
  destruct (Z.eqb_spec (Z.of_nat (length (skip_zeros a))) (Z.of_nat (length (skip_zeros b)))) as [El|El]; cbn [negb].
  - rewrite strcmp_value, Va, Vb by (done || lia). by destruct (value a - value b).
  - rewrite s32_small by lia. rewrite <- Va, <- Vb in *.
    assert (Hlt : forall x y : list Z, value x < 10 ^ Z.of_nat (length x) -> (length x < length y)%nat ->
      (y <> [] -> 10 ^ (Z.of_nat (length y) - 1) <= value y) -> value x < value y).
    { intros x y Hx Hl Hy. pose proof (Z.pow_le_mono_r 10 (Z.of_nat (length x)) (Z.of_nat (length y) - 1)).
      destruct y; [cbn in Hl; lia|]. specialize (Hy ltac:(done)). lia. }
    destruct (Nat.lt_total (length (skip_zeros a)) (length (skip_zeros b))) as [H|[H|H]]; [|lia|].
    + pose proof (Hlt _ _ (proj2 Ra) H Kb). rewrite !Z.sgn_neg by lia. done.
    + pose proof (Hlt _ _ (proj2 Rb) H Ka). rewrite !Z.sgn_pos by lia. done.
Qed.

Lemma borrow_ok sub val : 0 <= sub <= 10 -> 0 <= val <= 9 ->
  exists val' c, borrow_loop 10 sub val 0 = Some (val', c) /\ 0 <= c <= 1 /\ val' = val + 10 * c /\ 0 <= val' - sub <= 9.
Proof.
  intros Hs Hv. cbn [borrow_loop]. destruct (Z.ltb_spec val sub).
  - rewrite (proj2 (Z.ltb_ge _ _)) by lia. exists (val + 10), 1. split; [done|lia].
  - exists val, 0. split; [done|lia].
Qed.

Lemma difference_loop_ok a b fuel k carry res :
  digits a -> digits b -> digits res -> length res = length a -> (k < length a)%nat -> (length a < fuel + k)%nat ->
  0 <= carry <= 1 -> low res k = low a k - low b k + carry * 10 ^ Z.of_nat k ->
  exists res' c, difference_loop fuel a b (Z.of_nat k) carry res = Some res' /\ digits res' /\
    length res' = length a /\ 0 <= c /\ value res' = value a - low b (length a) + c * 10 ^ strlen a.
Proof.
  intros Ha Hb. revert k carry res. induction fuel as [|fuel IH]; intros k carry res Hr Hl Hk Hf Hc Hi; [lia|].
  cbn [difference_loop]. destruct (digit_of_ok b k Hb) as (db & Edb & Hdb & Lb).
  destruct (lookup_lt_is_Some_2 a (length a - 1 - k)) as [ca Hca]; [lia|].
  pose proof (low_step a k ca Hca Hk) as La. pose proof (digits_at _ _ _ Ha Hca) as Hda. unfold is_digit in Hda.
  assert (E : char_at a (strlen a - 1 - Z.of_nat k) = Some ca).
  { unfold char_at, strlen. rewrite (proj2 (Z.ltb_ge _ _)) by lia. rewrite <- Hca. f_equal. lia. }
  rewrite E, Edb. cbn [mbind option_bind].
  destruct (borrow_ok (carry + db) (ca - 48)) as (val & c & -> & Hc' & Hval & Hd); [lia|lia|]. cbn [mbind option_bind].
  unfold strlen. rewrite <- Hl, set_at_ok by lia. cbn [mbind option_bind]. set (res1 := <[_ := _]> res).
  assert (Hr1 : digits res1) by (apply digits_write; [done|unfold is_digit; lia]).
  assert (Hl1 : length res1 = length a) by (unfold res1; by rewrite length_insert).
  assert (H1 : low res1 (S k) = low a (S k) - low b (S k) + c * 10 ^ Z.of_nat (S k)).
  { unfold res1. rewrite low_write, La, Lb, Hi by lia. rewrite Nat2Z.inj_succ, Z.pow_succ_r by lia. rewrite Hval. ring. }
  replace (Z.of_nat k + 1) with (Z.of_nat (S k)) by lia.
  destruct (Z.ltb_spec (Z.of_nat (S k)) (Z.of_nat (length res))) as [Hn|Hn].
  - rewrite Hl. apply IH; try done; lia.
  - exists res1, c. split; [done|split; [done|split; [congruence|split; [lia|]]]].
    replace (length res) with (S k) by lia. rewrite <- (low_all res1 (S k)), <- (low_all a (S k)) by lia. exact H1.
Qed.

(** A smaller number without leading zeros is not longer. *)
Lemma skip_shorter a b : digits a -> digits b -> value b <= value a ->
  (length (skip_zeros b) <= length (skip_zeros a))%nat.
Proof.
  intros Ha Hb Hv. destruct (Nat.le_gt_cases (length (skip_zeros b)) (length (skip_zeros a))) as [|H]; [done|].
  destruct (skip_ok a Ha) as (Da & Va & _). pose proof (value_range _ Da) as Ra. rewrite Va in Ra.
  pose proof (skip_lower b Hb) as Kb. unfold strlen in *.
  destruct (skip_zeros b) as [|c s]; [cbn in H; lia|]. specialize (Kb ltac:(done)). cbn [length] in *.
  pose proof (Z.pow_le_mono_r 10 (Z.of_nat (length (skip_zeros a))) (Z.of_nat (S (length s)) - 1)). lia.
Qed.

Lemma add_digits_ok a b : digits a -> digits b -> value b <= value a ->
  exists r, add_digits a b = Some r /\ number r (value a + value b) (S (length a)).
Proof.
  intros Ha Hb Hv. pose proof (skip_shorter a b Ha Hb Hv) as Hs.
  destruct (skip_ok a Ha) as (Da & Va & La), (skip_ok b Hb) as (Db & Vb & Lb). unfold add_digits.
  set (x := skip_zeros a) in *. set (y := skip_zeros b) in *.
  assert (H0 : forall i, exists d, (d1 ← digit_of x (Z.of_nat i); d2 ← digit_of y (Z.of_nat i); Some (d1 + d2)) = Some d /\
    0 <= d /\ low x (S i) + low y (S i) = d * 10 ^ Z.of_nat i + (low x i + low y i)).
  { intros i. destruct (digit_of_ok x i Da) as (d1 & E1 & H1 & L1), (digit_of_ok y i Db) as (d2 & E2 & H2 & L2).
    exists (d1 + d2). rewrite E1, E2. split; [done|split; [lia|]]. rewrite L1, L2. ring. }
  destruct (carry_loop_ok (fun pos => a ← digit_of x pos; b ← digit_of y pos; Some (a + b))
    (fun i => default 0 (d1 ← digit_of x (Z.of_nat i); d2 ← digit_of y (Z.of_nat i); Some (d1 + d2)))
    (fun i => low x i + low y i) (length x) (S (length x)) 0 0 (48 :: x)) as (res & E & Hd & Hl & Hval);
    try done; try lia.
  - intros i _. destruct (H0 i) as (d & E & ? & _). by rewrite E.
  - intros i _. destruct (H0 i) as (d & E & _ & ?). by rewrite E.
  - rewrite !low_all by lia. rewrite Va, Vb. pose proof (value_range _ Da) as Ra. rewrite Va in Ra. unfold strlen in Ra.
    rewrite Nat2Z.inj_succ, Z.pow_succ_r by lia. lia.
  - constructor; [unfold is_digit; lia|done].
  - unfold low. cbn [Z.of_nat]. rewrite !drop_ge by (cbn; lia). done.
  - unfold strlen. change (Z.of_nat 0) with 0 in E. rewrite E. cbn [mbind option_bind].
    destruct (drop_zeros_ok res Hd) as (r & -> & Hr); [by destruct res|].
    exists r. split; [done|]. apply (number_change _ _ _ _ _ Hr); [|lia]. rewrite Hval, !low_all by lia. by rewrite Va, Vb.
Qed.

Lemma sub_digits_ok a b : digits a -> digits b -> value b <= value a -> value a <> 0 ->
  exists r, sub_digits a b = Some r /\ number r (value a - value b) (length a).
Proof.
  intros Ha Hb Hv Hn. pose proof (skip_shorter a b Ha Hb Hv) as Hs.
  destruct (skip_ok a Ha) as (Da & Va & La), (skip_ok b Hb) as (Db & Vb & Lb). unfold sub_digits.
  set (x := skip_zeros a) in *. set (y := skip_zeros b) in *.
  assert (Hx : (0 < length x)%nat) by (destruct x; [cbn in Va; lia|cbn; lia]).
  destruct (difference_loop_ok x y (S (length x)) 0 0 x) as (res & c & E & Hd & Hl & Hc & Hval); try done; try lia.
  { unfold low. rewrite !drop_ge by lia. done. }
  change (Z.of_nat 0) with 0 in E. rewrite E. cbn [mbind option_bind].
  destruct (drop_zeros_ok res Hd) as (r & -> & Hr); [by destruct res, x|].
  exists r. split; [done|]. apply (number_change _ _ _ _ _ Hr); [|lia]. rewrite low_all in Hval by lia.
  rewrite Hval, Va, Vb in *. pose proof (value_range _ Hd) as Rr. unfold strlen in *. rewrite Hl in Rr.
  pose proof (value_range _ Db). destruct (Z.eq_dec c 0) as [->|]; [lia|].
  pose proof (Z.mul_le_mono_nonneg_r 1 c (10 ^ Z.of_nat (length x)) ltac:(lia) ltac:(lia)). lia.
Qed.

Lemma sub_digits_zero a b : digits a -> value a = 0 -> sub_digits a b = None.
Proof.
  intros Ha Hv. unfold sub_digits. pose proof (skip_lower a Ha) as K.
  destruct (skip_zeros a) as [|c s]; [done|]. specialize (K ltac:(done)).
  pose proof (Z.pow_pos_nonneg 10 (strlen (c :: s) - 1)). unfold strlen in *. cbn [length] in *. lia.
Qed.

(** ** Signed integers

    [text_of s z]: the string is an integer of that value.  Negative zero is
    none: the comparison takes it for less than zero. *)

Inductive text_of : list Z -> Z -> Prop :=
| text_pos d : digits d -> d <> [] -> text_of d (value d)
| text_neg d : digits d -> d <> [] -> 0 < value d -> text_of (45 :: d) (- value d).

Lemma cmp_sign a b x y : text_of a x -> text_of b y -> short a -> short b ->
  Z.sgn (cmpInteger a b) = Z.sgn (x - y).
Proof.
  unfold short, strlen. intros [d Hd Hn|d Hd Hn Hp] [e He Hm|e He Hm Hq] Sa Sb; cbn [length] in *.
  - by apply cmp_digits.
  - pose proof (value_range d Hd). assert (E : cmpInteger d (45 :: e) = 1).
    { destruct Hd as [|c d Hc Hd]; [done|]. unfold is_digit in Hc. cbn. by rewrite (proj2 (Z.eqb_neq c 45)) by lia. }
    rewrite E. symmetry. apply Z.sgn_pos. lia.
  - pose proof (value_range e He). assert (E : cmpInteger (45 :: d) e = -1).
    { cbn. by rewrite (digits_unsigned e). }
    rewrite E. symmetry. apply Z.sgn_neg. lia.
  - change (cmpInteger (45 :: d) (45 :: e)) with (- cmpInteger d e). rewrite Z.sgn_opp, cmp_digits by (done || unfold short, strlen; lia).
    rewrite <- Z.sgn_opp. f_equal. lia.
Qed.

Lemma cmp_lt a b x y : text_of a x -> text_of b y -> short a -> short b -> (cmpInteger a b <? 0) = (x <? y).
Proof. intros Ha Hb Sa Sb. pose proof (cmp_sign a b x y Ha Hb Sa Sb). destruct (Z.ltb_spec (cmpInteger a b) 0), (Z.ltb_spec x y); lia. Qed.

Lemma cmp_gt a b x y : text_of a x -> text_of b y -> short a -> short b -> (0 <? cmpInteger a b) = (y <? x).
Proof. intros Ha Hb Sa Sb. pose proof (cmp_sign a b x y Ha Hb Sa Sb). destruct (Z.ltb_spec 0 (cmpInteger a b)), (Z.ltb_spec y x); lia. Qed.

Lemma neg_digits r : digits r -> negInline r = 45 :: r.
Proof. intros Hr. unfold negInline. by rewrite digits_unsigned. Qed.

(** A result with its length. *)
Definition result (o : option (list Z)) (z : Z) (len : nat) : Prop :=
  exists r, o = Some r /\ text_of r z /\ (length r <= len)%nat.

Lemma number_result r v len : number r v len -> result (Some r) v len.
Proof. intros (Hd & Hn & <- & Hl & _). exists r. split; [done|split; [by apply text_pos|done]]. Qed.

Lemma number_neg r v len : number r v len -> 0 < v -> result (negInline <$> Some r) (- v) (S len).
Proof.
  intros (Hd & Hn & <- & Hl & _) Hv. exists (45 :: r). cbn [fmap option_fmap option_map]. rewrite neg_digits by done.
  split; [done|split; [by apply text_neg|cbn; lia]].
Qed.

Lemma add_rec_eq f a b : add_rec (S f) a b =
  if starts a 45 && starts b 45 then negInline <$> add_rec f (tail a) (tail b)
  else if starts a 45 then
    if 0 <? cmpInteger (tail a) b then negInline <$> sub_rec f (tail a) b else sub_rec f b (tail a)
  else if starts b 45 then
    if cmpInteger a (tail b) <? 0 then negInline <$> sub_rec f (tail b) a else sub_rec f a (tail b)
  else if cmpInteger a b <? 0 then add_rec f b a else add_digits a b.
Proof. reflexivity. Qed.

Lemma sub_rec_eq f a b : sub_rec (S f) a b =
  if starts a 45 && starts b 45 then sub_rec f (tail b) (tail a)
  else if starts a 45 then negInline <$> add_rec f (tail a) b
  else if starts b 45 then add_rec f a (tail b)
  else if cmpInteger a b <? 0 then negInline <$> sub_rec f b a else sub_digits a b.
Proof. reflexivity. Qed.

(** On natural numbers. *)
Lemma add_rec_pos f a b : digits a -> digits b -> a <> [] -> b <> [] -> short a -> short b ->
  exists r, add_rec (S (S f)) a b = Some r /\ number r (value a + value b) (length a + length b + 1).
Proof.
  intros Ha Hb Na Nb Sa Sb.
  assert (H : forall f x y, digits x -> digits y -> x <> [] -> y <> [] -> short x -> short y -> value y <= value x ->
    exists r, add_rec (S f) x y = Some r /\ number r (value x + value y) (length x + length y + 1)).
  { clear. intros f a b Ha Hb Na Nb Sa Sb Hv. rewrite add_rec_eq. rewrite !digits_unsigned by done. cbn [andb].
    rewrite (cmp_lt a b (value a) (value b)) by (done || by apply text_pos). rewrite (proj2 (Z.ltb_ge _ _)) by lia.
    destruct (add_digits_ok a b Ha Hb Hv) as (r & -> & Hr). exists r. split; [done|]. apply (number_change _ _ _ _ _ Hr); [done|]. destruct b; [done|cbn; lia]. }
  destruct (Z.lt_ge_cases (value a) (value b)); [|by apply H].
  rewrite add_rec_eq.
  rewrite !digits_unsigned by done. cbn [andb].
  rewrite (cmp_lt a b (value a) (value b)) by (done || by apply text_pos). rewrite (proj2 (Z.ltb_lt _ _)) by lia.
  destruct (H f b a) as (r & -> & Hr); try done; [lia|]. exists r. split; [done|].
  apply (number_change _ _ _ _ _ Hr); lia.
Qed.

Lemma sub_rec_pos f a b : digits a -> digits b -> a <> [] -> b <> [] -> short a -> short b ->
  value b <= value a -> value a <> 0 ->
  exists r, sub_rec (S f) a b = Some r /\ number r (value a - value b) (length a).
Proof.
  intros Ha Hb Na Nb Sa Sb Hv Hz. rewrite sub_rec_eq. rewrite !digits_unsigned by done. cbn [andb].
  rewrite (cmp_lt a b (value a) (value b)) by (done || by apply text_pos). rewrite (proj2 (Z.ltb_ge _ _)) by lia.
  by apply sub_digits_ok.
Qed.

Lemma sub_rec_any f a b : digits a -> digits b -> a <> [] -> b <> [] -> short a -> short b ->
  value a <> 0 \/ value b <> 0 ->
  result (sub_rec (S (S f)) a b) (value a - value b) (length a + length b + 1).
Proof.
  intros Ha Hb Na Nb Sa Sb Hz. pose proof (value_range a Ha). pose proof (value_range b Hb).
  destruct (Z.lt_ge_cases (value a) (value b)) as [Hv|Hv].
  - rewrite sub_rec_eq.
    rewrite !digits_unsigned by done. cbn [andb].
    rewrite (cmp_lt a b (value a) (value b)) by (done || by apply text_pos). rewrite (proj2 (Z.ltb_lt _ _)) by lia.
    destruct (sub_rec_pos f b a) as (r & -> & Hr); try done; try lia.
    destruct (number_neg _ _ _ Hr ltac:(lia)) as (r' & E & Ht & Hl). exists r'. split; [done|].
    split; [|lia]. by replace (value a - value b) with (- (value b - value a)) by lia.
  - destruct (sub_rec_pos (S f) a b) as (r & -> & Hr); try done; try lia.
    destruct (number_result _ _ _ Hr) as (r' & E & Ht & Hl). exists r'. split; [done|]. split; [done|lia].
Qed.

Lemma result_change o z z' len len' : result o z len -> z = z' -> (len <= len')%nat -> result o z' len'.
Proof. intros (r & ? & ? & ?) <- ?. exists r. split; [done|split; [done|lia]]. Qed.

Lemma addInteger_ok a b x y : text_of a x -> text_of b y -> short a -> short b ->
  result (addInteger a b) (x + y) (length a + length b + 1).
Proof.
  intros Ha Hb Sa Sb. unfold addInteger, call_fuel. rewrite Nat.add_comm. change (4 + ?n)%nat with (S (S (S (S n)))).
  unfold short, strlen in *. destruct Ha as [d Hd Hn|d Hd Hn Hp], Hb as [e He Hm|e He Hm Hq]; cbn [length] in *.
  - destruct (add_rec_pos (S (S (length d + length e))) d e) as (r & -> & Hr); try done. by apply number_result.
  - rewrite add_rec_eq. rewrite (digits_unsigned d) by done. cbn [starts andb tail]. rewrite Z.eqb_refl.
    rewrite (cmp_lt d e (value d) (value e)) by (unfold short, strlen; lia || by apply text_pos).
    pose proof (value_range d Hd). destruct (Z.ltb_spec (value d) (value e)).
    + destruct (sub_rec_pos (S (S (length d + S (length e)))) e d) as (r & -> & Hr); try done; try (unfold short, strlen; lia).
      apply (result_change _ _ _ _ _ (number_neg _ _ _ Hr ltac:(lia))); lia.
    + destruct (sub_rec_pos (S (S (length d + S (length e)))) d e) as (r & -> & Hr); try done; try (unfold short, strlen; lia).
      apply (result_change _ _ _ _ _ (number_result _ _ _ Hr)); lia.
  - rewrite add_rec_eq. rewrite (digits_unsigned e) by done. cbn [starts andb tail]. rewrite Z.eqb_refl. cbn [andb].
    rewrite (cmp_gt d e (value d) (value e)) by (unfold short, strlen; lia || by apply text_pos).
    pose proof (value_range e He). destruct (Z.ltb_spec (value e) (value d)).
    + destruct (sub_rec_pos (S (S (S (length d) + length e))) d e) as (r & -> & Hr); try done; try (unfold short, strlen; lia).
      apply (result_change _ _ _ _ _ (number_neg _ _ _ Hr ltac:(lia))); lia.
    + destruct (sub_rec_pos (S (S (S (length d) + length e))) e d) as (r & -> & Hr); try done; try (unfold short, strlen; lia).
      apply (result_change _ _ _ _ _ (number_result _ _ _ Hr)); lia.
  - rewrite add_rec_eq. cbn [starts tail]. rewrite Z.eqb_refl. cbn [andb].
    destruct (add_rec_pos (S (S (length d) + S (length e))) d e) as (r & -> & Hr); try done; try (unfold short, strlen; lia).
    apply (result_change _ _ _ _ _ (number_neg _ _ _ Hr ltac:(lia))); lia.
Qed.

Lemma subInteger_ok a b x y : text_of a x -> text_of b y -> short a -> short b -> x <> 0 \/ y <> 0 ->
  result (subInteger a b) (x - y) (length a + length b + 2).
Proof.
  intros Ha Hb Sa Sb. unfold subInteger, call_fuel. rewrite Nat.add_comm. change (4 + ?n)%nat with (S (S (S (S n)))).
  unfold short, strlen in *. destruct Ha as [d Hd Hn|d Hd Hn Hp], Hb as [e He Hm|e He Hm Hq]; cbn [length] in *; intros Hz.
  - eapply result_change; [by apply sub_rec_any|lia..].
  - rewrite sub_rec_eq. rewrite (digits_unsigned d) by done. cbn [starts andb tail]. rewrite Z.eqb_refl.
    destruct (add_rec_pos (S (length d + S (length e))) d e) as (r & -> & Hr); try done; try (unfold short, strlen; lia).
    apply (result_change _ _ _ _ _ (number_result _ _ _ Hr)); lia.
  - rewrite sub_rec_eq. rewrite (digits_unsigned e) by done. cbn [starts andb tail]. rewrite Z.eqb_refl. cbn [andb].
    pose proof (value_range e He).
    destruct (add_rec_pos (S (S (length d) + length e)) d e) as (r & -> & Hr); try done; try (unfold short, strlen; lia).
    apply (result_change _ _ _ _ _ (number_neg _ _ _ Hr ltac:(lia))); lia.
  - rewrite sub_rec_eq. cbn [starts tail]. rewrite Z.eqb_refl. cbn [andb].
    eapply result_change; [apply sub_rec_any; try done; unfold short, strlen; lia|lia..].
Qed.

Lemma subInteger_zero a b : text_of a 0 -> text_of b 0 -> subInteger a b = None.
Proof.
  intros Ha Hb. unfold subInteger, call_fuel. rewrite Nat.add_comm. cbn [Nat.add]. rewrite sub_rec_eq.
  assert (H : forall s, text_of s 0 -> digits s /\ s <> [] /\ value s = 0).
  { intros s Hs. inversion Hs; subst; [done|lia]. }
  destruct (H a Ha) as (Da & Na & Va), (H b Hb) as (Db & Nb & Vb). rewrite !digits_unsigned by done. cbn [andb].
  assert (E : cmpInteger a b = 0).
  { destruct (skip_ok a Da) as (_ & Va' & _), (skip_ok b Db) as (_ & Vb' & _).
    assert (Z0 : forall s, digits s -> value s = 0 -> skip_zeros s = []).
    { intros s Ds Vs. pose proof (skip_lower s Ds) as K. destruct (skip_zeros s); [done|]. specialize (K ltac:(done)).
      pose proof (Z.pow_pos_nonneg 10 (strlen (z :: l) - 1)). unfold strlen in *. cbn [length] in *. lia. }
    destruct Da as [|c a' Hc Ha']; [done|]. cbn [cmpInteger]. unfold is_digit in Hc.
    rewrite (proj2 (Z.eqb_neq c 45)) by lia. rewrite (digits_unsigned b) by done.
    rewrite (Z0 (c :: a')), (Z0 b); [done|done|done|by constructor|done]. }
  rewrite E. cbn [Z.ltb Z.compare]. by apply sub_digits_zero.
Qed.

(** ** Products *)

Lemma mul_digit_ok a d : digits a -> 0 <= d <= 9 ->
  exists r, mul_digit a d = Some r /\ number r (value a * d) (S (length a)).
Proof.
  intros Ha Hd. unfold mul_digit.
  assert (H0 : forall i, exists v, (a ← digit_of a (Z.of_nat i); Some (a * d)) = Some v /\
    0 <= v /\ low a (S i) * d = v * 10 ^ Z.of_nat i + low a i * d).
  { intros i. destruct (digit_of_ok a i Ha) as (d1 & E1 & H1 & L1).
    exists (d1 * d). rewrite E1. split; [done|split; [nia|]]. rewrite L1. ring. }
  destruct (carry_loop_ok (fun pos => a ← digit_of a pos; Some (a * d))
    (fun i => default 0 (a ← digit_of a (Z.of_nat i); Some (a * d)))
    (fun i => low a i * d) (length a) (S (length a)) 0 0 (48 :: a)) as (res & E & Hr & Hl & Hval);
    try done; try lia.
  - intros i _. destruct (H0 i) as (v & E & ? & _). by rewrite E.
  - intros i _. destruct (H0 i) as (v & E & _ & ?). by rewrite E.
  - rewrite !low_all by lia. pose proof (value_range _ Ha) as Ra. unfold strlen in Ra.
    rewrite Nat2Z.inj_succ, Z.pow_succ_r by lia. nia.
  - constructor; [unfold is_digit; lia|done].
  - unfold low. cbn [Z.of_nat]. rewrite !drop_ge by (cbn; lia). done.
  - unfold strlen. change (Z.of_nat 0) with 0 in E. rewrite E. cbn [mbind option_bind].
    destruct (drop_zeros_ok res Hr) as (r & -> & Hn); [by destruct res|].
    exists r. split; [done|]. apply (number_change _ _ _ _ _ Hn); [|lia]. by rewrite Hval, low_all by lia.
Qed.

Lemma number_digits r v len : number r v len -> digits r /\ r <> [].
Proof. by intros (? & ? & _). Qed.

Lemma value_zeros n : digits (replicate n 48) /\ value (replicate n 48) = 0.
Proof.
  induction n as [|n [IH1 IH2]]; [by split; [constructor|]|]. cbn [replicate value]. rewrite IH2.
  split; [by constructor|lia].
Qed.

(** [number] does not depend on the length that bounds it. *)
Lemma number_fit r v len n : number r v len -> v < 10 ^ Z.of_nat n -> (0 < n)%nat -> number r v n.
Proof.
  intros H Hv Hn. pose proof (number_length _ _ _ _ H Hv Hn). destruct H as (? & ? & ? & ? & ?). done.
Qed.

Lemma addInteger_digits a b : digits a -> a <> [] -> digits b -> b <> [] -> short a -> short b ->
  exists r, addInteger a b = Some r /\ number r (value a + value b) (length a + length b + 1).
Proof. intros Ha Na Hb Nb Sa Sb. unfold addInteger, call_fuel. rewrite Nat.add_comm. by apply add_rec_pos. Qed.

Lemma shift_ok r v len n : number r v len ->
  digits (decShiftInline r n) /\ decShiftInline r n <> [] /\ value (decShiftInline r n) = v * 10 ^ Z.of_nat n.
Proof.
  intros (Hd & Hn & <- & _). unfold decShiftInline. destruct (value_zeros n) as [Hz Hv].
  split; [by apply Forall_app|]. split; [by destruct r|]. rewrite value_app, Hv. unfold strlen. rewrite length_replicate. lia.
Qed.

Lemma value_bound a q n : digits a -> 0 <= q < 10 ^ Z.of_nat n -> value a * q < 10 ^ Z.of_nat (length a + n).
Proof.
  intros Ha Hq. pose proof (value_range a Ha). unfold strlen in *. rewrite Nat2Z.inj_add, Z.pow_add_r by lia.
  apply Z.mul_lt_mono_nonneg; lia.
Qed.

Lemma product_loop_ok mul a s q res len n :
  digits a ->
  (forall c, is_digit c -> exists r, mul a [c] = Some r /\ number r (value a * (c - 48)) (S (length a))) ->
  digits s -> (length s <= n)%nat -> (0 < n)%nat -> Z.of_nat (length a + n + 1) < 2 ^ 30 ->
  number res (value a * q) len -> 0 <= q -> q + value s < 10 ^ Z.of_nat n ->
  exists r, product_loop mul a s res = Some r /\ number r (value a * (q + value s)) (length a + n).
Proof.
  intros Ha Hmul Hs. revert q res len. induction Hs as [|c s Hc Hs IH]; intros q res len Hl Hn Hsh Hr Hq Hb.
  - exists res. split; [done|]. cbn [value] in *. rewrite Z.add_0_r in *.
    apply (number_fit _ _ _ _ Hr); [by apply value_bound|lia].
  - cbn [product_loop value] in *. destruct (Hmul c Hc) as (part & -> & Hp). cbn [mbind option_bind].
    destruct (shift_ok part _ _ (length s) Hp) as (Hd & Hne & Hv). pose proof (number_digits _ _ _ Hr) as [Dr Nr].
    pose proof (value_range s Hs) as Rs. unfold is_digit in Hc. pose proof (Z.pow_pos_nonneg 10 (Z.of_nat (length s)) ltac:(lia) ltac:(lia)) as Hpw.
    unfold strlen in *. set (q' := q + (c - 48) * 10 ^ Z.of_nat (length s)).
    assert (Hq' : 0 <= q' /\ q <= q') by (unfold q'; nia). cbn [length] in Hl.
    pose proof (number_length _ _ _ (length a + n) Hr (value_bound a q n Ha ltac:(lia)) ltac:(lia)) as Hlr.
    destruct (addInteger_digits res (decShiftInline part (length s))) as (r & -> & Hnr); try done.
    { unfold short, strlen. lia. }
    { unfold short, strlen, decShiftInline. rewrite length_app, length_replicate.
      destruct Hp as (_ & _ & _ & Hlp & _). lia. }
    cbn [mbind option_bind]. destruct (IH q' r (length res + length (decShiftInline part (length s)) + 1)%nat)
      as (r' & -> & Hr'); try lia.
    + apply (number_change _ _ _ _ _ Hnr); [|done]. rewrite Hv. destruct Hr as (_ & _ & -> & _). unfold q'. ring.
    + exists r'. split; [done|]. apply (number_change _ _ _ _ _ Hr'); [|done]. unfold q'. ring.
Qed.

Lemma number_zero n : (0 < n)%nat -> number [48] 0 n.
Proof. intros Hn. split; [by constructor|]. split; [done|]. split; [done|]. split; [cbn; lia|cbn; lia]. Qed.

Lemma mul_rec_eq f a b : mul_rec (S f) a b =
  if starts a 45 && starts b 45 then mul_rec f (tail a) (tail b)
  else if starts a 45 then negInline <$> mul_rec f (tail a) b
  else if starts b 45 then negInline <$> mul_rec f a (tail b)
  else if cmpInteger a b <? 0 then mul_rec f b a
  else match skip_zeros b with
       | [c] => mul_digit (skip_zeros a) (c - 48)
       | _ => product_loop (mul_rec f) (skip_zeros a) (skip_zeros b) [48]
       end.
Proof. reflexivity. Qed.

(** One digit, with the larger factor first. *)
Lemma mul_rec_digit f a c : digits a -> a <> [] -> short a -> is_digit c -> c - 48 <= value a ->
  exists r, mul_rec (S f) a [c] = Some r /\ number r (value a * (c - 48)) (S (length a)).
Proof.
  intros Ha Na Sa Hc Hv. rewrite mul_rec_eq.
  assert (Hd : digits [c]) by by constructor. rewrite !digits_unsigned by done. cbn [andb].
  rewrite (cmp_lt a [c] (value a) (value [c])) by (by apply text_pos || done). cbn [value].
  change (10 ^ strlen []) with 1. rewrite (proj2 (Z.ltb_ge _ _)) by lia. destruct (skip_ok a Ha) as (Da & Va & La). cbn [skip_zeros].
  destruct (Z.eqb_spec c 48) as [->|Hne].
  - exists [48]. split; [done|]. rewrite Z.mul_0_r. apply number_zero. lia.
  - unfold is_digit in Hc. destruct (mul_digit_ok (skip_zeros a) (c - 48) Da) as (r & -> & Hr); [lia|].
    exists r. split; [done|]. rewrite Va in Hr. apply (number_change _ _ _ _ _ Hr); [done|lia].
Qed.

Lemma mul_rec_pos f a b : digits a -> digits b -> a <> [] -> b <> [] -> Z.of_nat (length a + length b + 2) < 2 ^ 30 ->
  exists r, mul_rec (S (S (S f))) a b = Some r /\ number r (value a * value b) (length a + length b + 1).
Proof.
  assert (H : forall f a b, digits a -> digits b -> a <> [] -> b <> [] -> Z.of_nat (length a + length b + 2) < 2 ^ 30 ->
    value b <= value a -> exists r, mul_rec (S (S f)) a b = Some r /\ number r (value a * value b) (length a + length b + 1)).
  { clear. intros f a b Ha Hb Na Nb Hs Hv. rewrite mul_rec_eq. rewrite !digits_unsigned by done. cbn [andb].
    rewrite (cmp_lt a b (value a) (value b)) by (by apply text_pos || (unfold short, strlen; lia)).
    rewrite (proj2 (Z.ltb_ge _ _)) by lia.
    destruct (skip_ok a Ha) as (Da & Va & La), (skip_ok b Hb) as (Db & Vb & Lb). pose proof (skip_lower b Hb) as Kb.
    pose proof (value_range b Hb). pose proof (value_range _ Db) as Rb. unfold strlen in *.
    destruct (skip_zeros b) as [|c [|c2 s]] eqn:Eb.
    - exists [48]. split; [done|]. cbn in Vb. rewrite <- Vb, Z.mul_0_r. apply number_zero. lia.
    - inversion Db as [|? ? Hc _]; subst. unfold is_digit in Hc. cbn [value] in Vb.
      change (10 ^ strlen []) with 1 in Vb. destruct (mul_digit_ok (skip_zeros a) (c - 48) Da) as (r & -> & Hr); [lia|].
      exists r. split; [done|]. apply (number_change _ _ _ _ _ Hr); [rewrite Va; f_equal; lia|]. destruct b; [done|cbn; lia].
    - specialize (Kb ltac:(done)). cbn [length] in Kb, Lb, Rb.
      assert (Hten : 10 <= value a).
      { pose proof (Z.pow_le_mono_r 10 1 (Z.of_nat (S (S (length s))) - 1)). lia. }
      assert (Nx : skip_zeros a <> []) by (intros E; rewrite E in Va; cbn in Va; lia).
      destruct (product_loop_ok (mul_rec (S f)) (skip_zeros a) (c :: c2 :: s) 0 [48] 1 (length (c :: c2 :: s)))
        as (r & -> & Hr); try done; try (cbn [length]; lia).
      + intros d Hd. unfold is_digit in Hd. apply mul_rec_digit; try done; [unfold short, strlen; lia|lia].
      + rewrite Z.mul_0_r. apply (number_zero 1). lia.
      + exists r. split; [done|]. apply (number_change _ _ _ _ _ Hr); [rewrite Va, Vb; done|]. cbn [length] in *. lia. }
  intros Ha Hb Na Nb Hs. destruct (Z.lt_ge_cases (value a) (value b)); [|by apply H].
  rewrite mul_rec_eq. rewrite !digits_unsigned by done. cbn [andb].
  rewrite (cmp_lt a b (value a) (value b)) by (by apply text_pos || (unfold short, strlen; lia)).
  rewrite (proj2 (Z.ltb_lt _ _)) by lia.
  destruct (H f b a) as (r & -> & Hr); try done; try lia. exists r. split; [done|].
  apply (number_change _ _ _ _ _ Hr); lia.
Qed.

(** The sign of a zero product is the sign of the other factor: [0 * -1] is [-0]. *)
Lemma mulInteger_ok a b x y : text_of a x -> text_of b y -> Z.of_nat (length a + length b + 2) < 2 ^ 30 ->
  (x * y = 0 -> 0 <= x /\ 0 <= y) ->
  result (mulInteger a b) (x * y) (length a + length b + 2).
Proof.
  intros Ha Hb Hs. unfold mulInteger, call_fuel. rewrite Nat.add_comm. change (4 + ?n)%nat with (S (S (S (S n)))).
  destruct Ha as [d Hd Hn|d Hd Hn Hp], Hb as [e He Hm|e He Hm Hq]; cbn [length] in *; intros Hz.
  - destruct (mul_rec_pos (S (length d + length e)) d e) as (r & -> & Hr); try done; try lia.
    apply (result_change _ _ _ _ _ (number_result _ _ _ Hr)); lia.
  - rewrite mul_rec_eq. rewrite (digits_unsigned d) by done. cbn [starts andb tail]. rewrite Z.eqb_refl.
    destruct (mul_rec_pos (length d + S (length e)) d e) as (r & -> & Hr); try done; try lia.
    pose proof (value_range d Hd). apply (result_change _ _ _ _ _ (number_neg _ _ _ Hr ltac:(nia))); lia.
  - rewrite mul_rec_eq. rewrite (digits_unsigned e) by done. cbn [starts andb tail]. rewrite Z.eqb_refl. cbn [andb].
    destruct (mul_rec_pos (S (length d) + length e) d e) as (r & -> & Hr); try done; try lia.
    pose proof (value_range e He). apply (result_change _ _ _ _ _ (number_neg _ _ _ Hr ltac:(nia))); lia.
  - rewrite mul_rec_eq. cbn [starts tail]. rewrite Z.eqb_refl. cbn [andb].
    destruct (mul_rec_pos (S (length d) + S (length e)) d e) as (r & -> & Hr); try done; try lia.
    apply (result_change _ _ _ _ _ (number_result _ _ _ Hr)); lia.
Qed.

(** ** Division *)

Lemma subInteger_digits a b : digits a -> a <> [] -> digits b -> b <> [] -> short a -> short b ->
  value b <= value a -> value a <> 0 ->
  exists r, subInteger a b = Some r /\ number r (value a - value b) (length a).
Proof. intros. unfold subInteger, call_fuel. rewrite Nat.add_comm. by apply sub_rec_pos. Qed.

(** The remainder so far: its leading zero, if any, comes from the shift. *)
Definition remainder (r : list Z) (v : Z) (len : nat) : Prop :=
  digits r /\ r <> [] /\ value r = v /\ (length r <= len)%nat.

Lemma cmp_ge a b : digits a -> a <> [] -> digits b -> b <> [] -> short a -> short b ->
  (0 <=? cmpInteger a b) = (value b <=? value a).
Proof.
  intros. rewrite !Z.leb_antisym. by rewrite (cmp_lt a b (value a) (value b)) by (done || by apply text_pos).
Qed.

Lemma digit_loop_ok b fuel r v len digit :
  digits b -> b <> [] -> short b -> 0 < value b -> Z.of_nat len < 2 ^ 30 ->
  remainder r v len -> 0 <= v -> v / value b < Z.of_nat fuel ->
  exists r', digit_loop fuel r b digit = Some (r', digit + v / value b) /\ remainder r' (v mod value b) len.
Proof.
  intros Hb Nb Sb Hp Hl. revert r v digit. induction fuel as [|fuel IH]; intros r v digit Hr Hv Hf.
  { pose proof (Z.div_pos v (value b)). lia. }
  pose proof Hr as (Dr & Nr & Vr & Lr). cbn [digit_loop].
  rewrite cmp_ge by (done || (unfold short, strlen; lia)). rewrite Vr. destruct (Z.leb_spec (value b) v) as [Hle|Hlt].
  - destruct (subInteger_digits r b) as (r1 & -> & (D1 & N1 & V1 & L1 & _)); try done; try lia; [unfold short, strlen; lia|].
    cbn [mbind option_bind].
    assert (Ed : v / value b = (v - value b) / value b + 1).
    { replace v with ((v - value b) + 1 * value b) at 1 by lia. rewrite Z.div_add by lia. lia. }
    assert (Em : v mod value b = (v - value b) mod value b).
    { replace v with ((v - value b) + 1 * value b) at 1 by lia. by rewrite Z.mod_add by lia. }
    destruct (IH r1 (v - value b) (digit + 1)) as (r' & -> & Hr'); try lia.
    + split; [done|split; [done|split; [lia|lia]]].
    + exists r'. split; [do 2 f_equal; lia|]. by rewrite Em.
  - exists r. rewrite Z.div_small, Z.mod_small by lia. split; [do 2 f_equal; lia|done].
Qed.

Lemma remainder_shift r v len c : remainder r v len -> is_digit c -> remainder (r ++ [c]) (10 * v + (c - 48)) (S len).
Proof.
  intros (Dr & Nr & <- & Lr) Hc. split; [apply Forall_app; split; [done|by constructor]|]. split; [by destruct r|].
  rewrite value_app, length_app. cbn [length value]. change (10 ^ strlen [c]) with 10. change (10 ^ strlen []) with 1.
  split; [lia|lia].
Qed.

Lemma divide_loop_ok b fst div r v len :
  digits b -> b <> [] -> short b -> 0 < value b -> Z.of_nat (len + length fst) < 2 ^ 30 ->
  digits fst -> digits div -> remainder r v len -> 0 <= v < value b ->
  exists div' r', divide_loop 10 fst b div r = Some (div', r') /\ digits div' /\
    length div' = (length div + length fst)%nat /\ remainder r' ((v * 10 ^ strlen fst + value fst) mod value b) (len + length fst) /\
    value div' = value div * 10 ^ strlen fst + (v * 10 ^ strlen fst + value fst) / value b.
Proof.
  intros Hb Nb Sb Hp Hl Hf. revert div r v len Hl. induction Hf as [|c fst Hc Hf IH]; intros div r v len Hl Hd Hr Hv.
  - exists div, r. cbn [divide_loop value length]. change (10 ^ strlen []) with 1. rewrite !Z.mul_1_r, !Z.add_0_r, !Nat.add_0_r.
    rewrite Z.mod_small, Z.div_small by lia. split; [done|split; [done|split; [done|split; [done|lia]]]].
  - cbn [divide_loop]. unfold is_digit in Hc. set (w := 10 * v + (c - 48)). cbn [length] in Hl.
    pose proof (remainder_shift r v len c Hr Hc) as Hr1. fold w in Hr1.
    assert (Hw : w / value b <= 9) by (apply Z.lt_succ_r, Z.div_lt_upper_bound; unfold w; lia).
    assert (Hw0 : 0 <= w / value b) by (apply Z.div_pos; unfold w; lia).
    destruct (digit_loop_ok b 10 (r ++ [c]) w (S len) 0 Hb Nb Sb Hp) as (r2 & -> & Hr2); try done; [lia|unfold w; lia|lia|].
    cbn [mbind option_bind]. rewrite Z.add_0_l.
    assert (Hd1 : digits (div ++ [w / value b + 48])).
    { apply Forall_app. split; [done|]. constructor; [unfold is_digit; lia|constructor]. }
    destruct (IH (div ++ [w / value b + 48]) r2 (w mod value b) (S len)) as (div' & r' & -> & Dd & Ld & Hr' & Vd); try done; try lia.
    { apply Z.mod_pos_bound. lia. }
    exists div', r'. split; [done|split; [done|]]. rewrite length_app in Ld. cbn [length] in *.
    split; [lia|]. pose proof (value_range fst Hf) as Rf. unfold strlen in *. cbn [length value] in *.
    unfold strlen. rewrite Nat2Z.inj_succ, Z.pow_succ_r by lia. set (P := 10 ^ Z.of_nat (length fst)) in *.
    assert (E : v * (10 * P) + ((c - 48) * P + value fst) = (w mod value b * P + value fst) + (w / value b * P) * value b).
    { pose proof (Z.div_mod w (value b) ltac:(lia)) as E0. unfold w in *. nia. }
    rewrite E, Z.mod_add, Z.div_add by lia. split.
    + replace (len + S (length fst))%nat with (S len + length fst)%nat by lia. exact Hr'.
    + rewrite Vd, value_app. cbn [value]. change (10 ^ strlen []) with 1. change (10 ^ strlen [_]) with 10. ring.
Qed.

Lemma divRem_ok a b : digits a -> a <> [] -> digits b -> b <> [] -> 0 < value b ->
  Z.of_nat (length a + length b + 2) < 2 ^ 30 ->
  exists q r, divRemInteger a b = Some (q, r) /\ number q (value a / value b) (length a) /\
    remainder r (value a mod value b) (S (length a)).
Proof.
  intros Ha Na Hb Nb Hp Hs. unfold divRemInteger, divRem_with.
  destruct (divide_loop_ok b a [] [48] 0 1) as (q & r & -> & Dq & Lq & Hr & Vq); try done; try lia.
  { unfold short, strlen. lia. }
  { constructor. }
  { split; [by constructor|done]. }
  cbn [mbind option_bind]. cbn [value] in Vq. rewrite !Z.mul_0_l, !Z.add_0_l in *. cbn [length] in Lq.
  destruct (drop_zeros_ok q Dq) as (q' & -> & Hq); [by destruct q, a|]. exists q', r. split; [done|]. split; [|done].
  apply (number_change _ _ _ _ _ Hq); [done|lia].
Qed.

Lemma div_rec_eq f a b : div_rec (S f) a b =
  if starts a 45 && starts b 45 then div_rec f (tail a) (tail b)
  else if starts a 45 then negInline <$> div_rec f (tail a) b
  else if starts b 45 then negInline <$> div_rec f a (tail b)
  else '(div, rem) ← divRemInteger a b; Some div.
Proof. reflexivity. Qed.

Lemma rem_rec_eq f a b : rem_rec (S f) a b =
  if starts a 45 && starts b 45 then negInline <$> rem_rec f (tail a) (tail b)
  else if starts a 45 then negInline <$> rem_rec f (tail a) b
  else if starts b 45 then rem_rec f a (tail b)
  else '(div, rem) ← divRemInteger a b; Some rem.
Proof. reflexivity. Qed.

Lemma div_rec_pos f a b : digits a -> a <> [] -> digits b -> b <> [] -> 0 < value b ->
  Z.of_nat (length a + length b + 2) < 2 ^ 30 ->
  exists q, div_rec (S f) a b = Some q /\ number q (value a / value b) (length a).
Proof.
  intros Ha Na Hb Nb Hp Hs. rewrite div_rec_eq, !digits_unsigned by done. cbn [andb].
  destruct (divRem_ok a b) as (q & r & -> & Hq & _); try done. by exists q.
Qed.

Lemma rem_rec_pos f a b : digits a -> a <> [] -> digits b -> b <> [] -> 0 < value b ->
  Z.of_nat (length a + length b + 2) < 2 ^ 30 ->
  exists r, rem_rec (S f) a b = Some r /\ remainder r (value a mod value b) (S (length a)).
Proof.
  intros Ha Na Hb Nb Hp Hs. rewrite rem_rec_eq, !digits_unsigned by done. cbn [andb].
  destruct (divRem_ok a b) as (q & r & -> & _ & Hr); try done. by exists r.
Qed.

Lemma divInteger_ok a b x y : text_of a x -> text_of b y -> Z.of_nat (length a + length b + 2) < 2 ^ 30 ->
  y <> 0 -> (Z.quot x y = 0 -> 0 <= x * y) -> (Z.quot x y = 0 -> x = 0 -> 0 < y) ->
  result (divInteger a b) (Z.quot x y) (length a + length b).
Proof.
  intros Ha Hb Hs. unfold divInteger, call_fuel. rewrite Nat.add_comm. change (4 + ?n)%nat with (S (S (S (S n)))).
  destruct Ha as [d Hd Hn|d Hd Hn Hp], Hb as [e He Hm|e He Hm Hq]; cbn [length] in *; intros Hy Hz Hz0;
    pose proof (value_range d Hd); pose proof (value_range e He).
  - destruct (div_rec_pos (S (S (S (length d + length e)))) d e) as (r & -> & Hr); try done; try lia.
    rewrite Z.quot_div_nonneg by lia. apply (result_change _ _ _ _ _ (number_result _ _ _ Hr)); lia.
  - rewrite div_rec_eq. rewrite (digits_unsigned d) by done. cbn [starts andb tail]. rewrite Z.eqb_refl.
    destruct (div_rec_pos (S (S (length d + S (length e)))) d e) as (r & -> & Hr); try done; try lia.
    rewrite Z.quot_opp_r, Z.quot_div_nonneg in * by lia. pose proof (Z.div_pos (value d) (value e) ltac:(lia) ltac:(lia)).
    apply (result_change _ _ _ _ _ (number_neg _ _ _ Hr ltac:(nia))); lia.
  - rewrite div_rec_eq. rewrite (digits_unsigned e) by done. cbn [starts andb tail]. rewrite Z.eqb_refl. cbn [andb].
    destruct (div_rec_pos (S (S (S (length d) + length e))) d e) as (r & -> & Hr); try done; try lia.
    rewrite Z.quot_opp_l, Z.quot_div_nonneg in * by lia. pose proof (Z.div_pos (value d) (value e) ltac:(lia) ltac:(lia)).
    apply (result_change _ _ _ _ _ (number_neg _ _ _ Hr ltac:(nia))); lia.
  - rewrite div_rec_eq. cbn [starts tail]. rewrite Z.eqb_refl. cbn [andb].
    destruct (div_rec_pos (S (S (S (length d) + S (length e)))) d e) as (r & -> & Hr); try done; try lia.
    rewrite Z.quot_opp_opp, Z.quot_div_nonneg by lia.
    apply (result_change _ _ _ _ _ (number_result _ _ _ Hr)); lia.
Qed.

Lemma remainder_result r v len : remainder r v len -> result (Some r) v len.
Proof. intros (Hd & Hn & <- & Hl). exists r. split; [done|split; [by apply text_pos|done]]. Qed.

Lemma remainder_neg r v len : remainder r v len -> 0 < v -> result (negInline <$> Some r) (- v) (S len).
Proof.
  intros (Hd & Hn & <- & Hl) Hv. exists (45 :: r). cbn [fmap option_fmap option_map]. rewrite neg_digits by done.
  split; [done|split; [by apply text_neg|cbn; lia]].
Qed.

Lemma remInteger_ok a b x y : text_of a x -> text_of b y -> Z.of_nat (length a + length b + 2) < 2 ^ 30 ->
  y <> 0 -> (Z.rem x y = 0 -> 0 <= x) ->
  result (remInteger a b) (Z.rem x y) (length a + length b + 2).
Proof.
  intros Ha Hb Hs. unfold remInteger, call_fuel. rewrite Nat.add_comm. change (4 + ?n)%nat with (S (S (S (S n)))).
  destruct Ha as [d Hd Hn|d Hd Hn Hp], Hb as [e He Hm|e He Hm Hq]; cbn [length] in *; intros Hy Hz;
    pose proof (value_range d Hd); pose proof (value_range e He).
  - destruct (rem_rec_pos (S (S (S (length d + length e)))) d e) as (r & -> & Hr); try done; try lia.
    rewrite Z.rem_mod_nonneg by lia. apply (result_change _ _ _ _ _ (remainder_result _ _ _ Hr)); lia.
  - rewrite rem_rec_eq. rewrite (digits_unsigned d) by done. cbn [starts andb tail]. rewrite Z.eqb_refl.
    destruct (rem_rec_pos (S (S (length d + S (length e)))) d e) as (r & -> & Hr); try done; try lia.
    rewrite Z.rem_opp_r, Z.rem_mod_nonneg in * by lia. apply (result_change _ _ _ _ _ (remainder_result _ _ _ Hr)); lia.
  - rewrite rem_rec_eq. rewrite (digits_unsigned e) by done. cbn [starts andb tail]. rewrite Z.eqb_refl. cbn [andb].
    destruct (rem_rec_pos (S (S (S (length d) + length e))) d e) as (r & -> & Hr); try done; try lia.
    rewrite Z.rem_opp_l, Z.rem_mod_nonneg in * by lia. pose proof (Z.mod_pos_bound (value d) (value e) ltac:(lia)).
    apply (result_change _ _ _ _ _ (remainder_neg _ _ _ Hr ltac:(lia))); lia.
  - rewrite rem_rec_eq. cbn [starts tail]. rewrite Z.eqb_refl. cbn [andb].
    destruct (rem_rec_pos (S (S (S (length d) + S (length e)))) d e) as (r & -> & Hr); try done; try lia.
    rewrite Z.rem_opp_opp, Z.rem_mod_nonneg in * by lia. pose proof (Z.mod_pos_bound (value d) (value e) ltac:(lia)).
    apply (result_change _ _ _ _ _ (remainder_neg _ _ _ Hr ltac:(lia))); lia.
Qed.

(** What [isInteger] accepts: [text_of], and minus zero. *)
Lemma isInteger_spec s : isInteger s = true <-> exists d, digits d /\ d <> [] /\ (s = d \/ s = 45 :: d).
Proof.
  assert (H : forall d, integer_loop d = true <-> digits d /\ d <> []).
  { induction d as [|c d IH]; [cbn; split; [done|by intros [_ ?]]|]. cbn [integer_loop].
    destruct (Z.ltb_spec c 48), (Z.ltb_spec 57 c); cbn [orb].
    1-3: split; [done|intros [Hd _]; inversion Hd as [|? ? Hc]; subst; unfold is_digit in Hc; lia].
    destruct d as [|e d].
    - split; [|done]. intros _. split; [|done]. constructor; [unfold is_digit; lia|constructor].
    - rewrite IH. split; [intros [Hd _]|intros [Hd _]; inversion Hd; subst; done].
      split; [|done]. constructor; [unfold is_digit; lia|done]. }
  unfold isInteger. rewrite H. destruct (starts s 45) eqn:Es.
  - destruct s as [|c s]; [done|]. cbn in Es. assert (c = 45) as -> by lia. cbn [tail]. split.
    + intros [? ?]. exists s. auto.
    + intros (d & Hd & Hn & [<-|[= <-]]); [|done]. apply digits_unsigned in Hd. by cbn in Hd.
  - split.
    + intros [? ?]. exists s. auto.
    + intros (d & Hd & Hn & [->| ->]); [done|]. cbn in Es. lia.
Qed.

(** ** Properties *)


Lemma remainder_any r v len : number r v len -> remainder r v len.
Proof. by intros (? & ? & ? & ? & _). Qed.

Lemma digit_loop_zero b fuel r v len digit :
  digits b -> b <> [] -> short b -> value b = 0 -> Z.of_nat len < 2 ^ 30 -> remainder r v len -> 0 <= v ->
  digit_loop fuel r b digit = None.
Proof.
  intros Hb Nb Sb Hz Hl. revert r v digit. induction fuel as [|fuel IH]; intros r v digit (Dr & Nr & Vr & Lr) Hv; [done|].
  cbn [digit_loop]. rewrite cmp_ge by (done || (unfold short, strlen; lia)). rewrite (proj2 (Z.leb_le _ _)) by lia.
  destruct (Z.eq_dec (value r) 0) as [E|E].
  - rewrite subInteger_zero; [done| |]; [rewrite <- E|rewrite <- Hz]; by apply text_pos.
  - destruct (subInteger_digits r b) as (r1 & -> & Hr1); try done; try lia; [unfold short, strlen; lia|].
    cbn [mbind option_bind]. apply (IH r1 v); [|done]. destruct Hr1 as (? & ? & ? & ? & _).
    split; [done|split; [done|split; lia]].
Qed.

(** Dividing a positive integer by zero never gives a result, however long the loop runs. *)
Theorem division_by_zero a b fuel :
  digits a -> a <> [] -> digits b -> b <> [] -> short b -> value b = 0 -> divRem_with fuel a b = None.
Proof.
  intros Ha Na Hb Nb Sb Hz. unfold divRem_with. destruct Ha as [|c a Hc Ha]; [done|]. cbn [divide_loop].
  rewrite (digit_loop_zero b fuel ([48] ++ [c]) (10 * 0 + (c - 48)) 2); try done.
  - apply remainder_shift; [|done]. split; [by constructor|done].
  - unfold is_digit in Hc. lia.
Qed.

(** ** Witnesses and examples *)

Lemma text_cstr s n : isInteger (cstr s) = true -> starts (cstr s) 45 = false -> value (cstr s) = n -> text_of (cstr s) n.
Proof.
  intros H Hs <-. apply isInteger_spec in H as (d & Hd & Hn & [->|E]); [by apply text_pos|].
  rewrite E in Hs. done.
Qed.

Lemma digits_check s : forallb (fun c => (48 <=? c) && (c <=? 57)) s = true -> digits s.
Proof.
  intros H. apply Stdlib.Lists.List.Forall_forall. intros c Hc. rewrite forallb_forall in H. specialize (H c Hc).
  unfold is_digit. lia.
Qed.


Lemma division_by_zero_witness : divRem_with 1000 (cstr "7") (cstr "0") = None.
Proof. by apply division_by_zero; try apply digits_check. Defined.

Example arithmetic_examples :
  addInteger (cstr "-5") (cstr "5") = Some (cstr "0") /\
  subInteger (cstr "1000") (cstr "1") = Some (cstr "999") /\
  mulInteger (cstr "-123") (cstr "456") = Some (cstr "-56088") /\
  divInteger (cstr "-1000") (cstr "7") = Some (cstr "-142") /\
  remInteger (cstr "-1000") (cstr "7") = Some (cstr "-6").
Proof. repeat split; vm_compute; reflexivity. Qed.

(** Zero minus zero writes in front of its buffer, minus zero is less than
    zero, and a remainder that was never reduced keeps the zero of the shift. *)
Example arithmetic_deviations :
  subInteger (cstr "0") (cstr "0") = None /\
  mulInteger (cstr "0") (cstr "-1") = Some (cstr "-0") /\
  cmpInteger (cstr "-0") (cstr "0") = -1 /\
  remInteger (cstr "7") (cstr "9") = Some (cstr "07").
Proof. repeat split; vm_compute; reflexivity. Qed.

End BigInt.
