(* ===== verification/Expr.v ===== *)
(** * Expr: the expression evaluator of [expr], [userspace/src/expr/expr.c]

    The scanner is the list of the arguments that are left.  The recursive
    descent consumes it; every function takes the fuel of its calls.  The
    decimal arithmetic is [BigInt]. *)
From S2P Require Import Prelude BigInt.

Module Expr.

(** ** Definitions *)

Abbreviation str := (list Z).
Abbreviation scanner := (list (list Z)).

(** Why the evaluation does not go on: [strdup] of [NULL], where an operand is
    missing; a number or a copy of [substr] that is out of range; an operation of
    the arithmetic that writes outside of its buffer or does not end. *)
Inductive reason : Type :=
| NO_OPERAND
| OUT_OF_RANGE
| FAILS (op fst snd : str).

(** [Exit] is a call of [exit]. *)
Inductive outcome (A : Type) : Type :=
| Ok (a : A) (rest : scanner)
| Exit (code : Z)
| Stuck (why : reason).

Arguments Ok {A} a rest.
Arguments Exit {A} code.
Arguments Stuck {A} why.

(** [None] is out of fuel. *)
Definition P (A : Type) : Type := scanner -> option (outcome A).

#[global] Instance P_ret : MRet P := fun A a s => Some (Ok a s).

#[global] Instance P_bind : MBind P := fun A B k c s =>
  match c s with
  | Some (Ok a rest) => k a rest
  | Some (Exit code) => Some (Exit code)
  | Some (Stuck why) => Some (Stuck why)
  | None => None
  end.

Definition out_of_fuel {A : Type} : P A := fun _ => None.
Definition exit {A : Type} (code : Z) : P A := fun _ => Some (Exit code).
Definition stuck {A : Type} (why : reason) : P A := fun _ => Some (Stuck why).

(** The result of a computation of [BigInt]. *)
Definition lift (op fst snd : str) (o : option str) : P str :=
  match o with Some r => mret r | None => stuck (FAILS op fst snd) end.

Definition peek : P (option str) := fun args => Some (Ok (head args) args).
Definition next : P (option str) := fun args => Some (Ok (head args) (tail args)).

Definition eq (fst : option str) (snd : string) : bool := bool_decide (fst = Some (cstr snd)).

Definition strdup (s : option str) : P str := match s with Some s => mret s | None => stuck NO_OPERAND end.

Definition syntaxError {A : Type} : P A := exit 2.
Definition assertInteger (arg : str) : P unit := if BigInt.isInteger arg then mret tt else exit 2.

(** [sscanf("%lu")] on an integer; a value that does not fit is undefined. *)
Definition scan_lu (arg : str) : P Z :=
  let neg := BigInt.starts arg 45 in
  let v := BigInt.value (if neg then tail arg else arg) in
  if v <? 2 ^ 64 then mret (u64 (if neg then - v else v)) else stuck OUT_OF_RANGE.

(** [sprintf("%lu")]. *)
Fixpoint print_digits (fuel : nat) (n : Z) (acc : str) : str :=
  match fuel with
  | O => acc
  | S fuel' =>
      let acc := (n mod 10 + 48) :: acc in
      if n / 10 =? 0 then acc else print_digits fuel' (n / 10) acc
  end.
Definition print_lu (n : Z) : str := print_digits 20 n [].

(** [strstr]: the first occurrence. *)
Fixpoint starts_with (hay needle : str) : bool :=
  match needle, hay with
  | [], _ => true
  | c :: n', d :: h' => (c =? d) && starts_with h' n'
  | _, [] => false
  end.
Fixpoint strstr (hay needle : str) : option Z :=
  if starts_with hay needle then Some 0
  else match hay with [] => None | _ :: h' => (fun i => i + 1) <$> strstr h' needle end.

(** The end of the [substr] branch: [size_t] arithmetic wraps around, and the
    copy must stay inside the string. *)
Definition substring (s : str) (posi leni : Z) : P str :=
  let size := BigInt.strlen s in
  let leni := if posi =? 0 then 0 else leni in
  let posi := if posi =? 0 then posi else posi - 1 in
  let posi := if size <? posi then size else posi in
  let leni := if size <? u64 (posi + leni) then size - posi else leni in
  if posi + leni <=? size then mret (take (Z.to_nat leni) (drop (Z.to_nat posi) s)) else stuck OUT_OF_RANGE.

(** The loop that the four levels of binary operators share:
    [while (peek is an operator) { op = next; snd = operand; res = res op snd; }]. *)
Fixpoint binary_loop (fuel : nat) (is_op : option str -> bool) (operand : P str)
    (apply : str -> str -> str -> P str) (res : str) : P str :=
  match fuel with
  | O => out_of_fuel
  | S fuel' =>
      arg ← peek;
      match arg with
      | Some op =>
          if is_op (Some op) then
            next;;
            snd ← operand;
            res ← apply op res snd;
            binary_loop fuel' is_op operand apply res
          else mret res
      | None => mret res
      end
  end.

Definition is_mul (arg : option str) : bool := eq arg "*" || eq arg "/" || eq arg "%".
Definition is_add (arg : option str) : bool := eq arg "+" || eq arg "-".
Definition is_comp (arg : option str) : bool :=
  eq arg "<" || eq arg "<=" || eq arg "=" || eq arg "!=" || eq arg ">=" || eq arg ">".
Definition is_andor (arg : option str) : bool := eq arg "|" || eq arg "&".

Definition apply_mul (op fst snd : str) : P str :=
  assertInteger fst;;
  assertInteger snd;;
  if eq (Some op) "*" then lift op fst snd (BigInt.mulInteger fst snd)
  else if eq (Some op) "/" then lift op fst snd (BigInt.divInteger fst snd)
  else lift op fst snd (BigInt.remInteger fst snd).

Definition apply_add (op fst snd : str) : P str :=
  assertInteger fst;;
  assertInteger snd;;
  if eq (Some op) "+" then lift op fst snd (BigInt.addInteger fst snd) else lift op fst snd (BigInt.subInteger fst snd).

Definition truth (b : bool) : str := cstr (if b then "1" else "0").

Definition apply_comp (op res snd : str) : P str :=
  assertInteger res;;
  assertInteger snd;;
  let cmp := BigInt.cmpInteger res snd in
  mret (if eq (Some op) "<" then truth (cmp <? 0)
        else if eq (Some op) "<=" then truth (cmp <=? 0)
        else if eq (Some op) "=" then truth (cmp =? 0)
        else if eq (Some op) "!=" then truth (negb (cmp =? 0))
        else if eq (Some op) ">=" then truth (0 <=? cmp)
        else truth (0 <? cmp)).

Definition apply_andor (op res snd : str) : P str :=
  mret (if eq (Some op) "|" then if BigInt.isZero res then snd else res
        else if BigInt.isZero res || BigInt.isZero snd then cstr "0" else res).

(** The two levels without a loop; [expr] and [base] are the levels they call. *)
Definition base_level (expr : P str) : P str :=
  arg ← next;
  if eq arg "(" then
    res ← expr;
    arg ← next;
    if negb (eq arg ")") then syntaxError else mret res
  else if eq arg "+" then arg ← next; strdup arg
  else strdup arg.

Definition pre_level (base : P str) : P str :=
  arg ← peek;
  if eq arg "substr" then
    next;;
    s ← base;
    pos ← base;
    len ← base;
    assertInteger pos;;
    assertInteger len;;
    posi ← scan_lu pos;
    leni ← scan_lu len;
    substring s posi leni
  else if eq arg "index" then
    next;;
    haystack ← base;
    needle ← base;
    mret (print_lu (match strstr haystack needle with Some i => i + 1 | None => 0 end))
  else if eq arg "length" then
    next;;
    val ← base;
    mret (print_lu (BigInt.strlen val))
  else base.

(** The functions [evalExpr] to [evalBase], which call each other. *)
Inductive level : Type := LExpr | LAndOr | LComp | LAdd | LMul | LPre | LBase.

Fixpoint eval_level (fuel : nat) (l : level) : P str :=
  match fuel with
  | O => out_of_fuel
  | S f =>
      match l with
      | LExpr => eval_level f LAndOr
      | LAndOr => res ← eval_level f LComp; binary_loop f is_andor (eval_level f LComp) apply_andor res
      | LComp => res ← eval_level f LAdd; binary_loop f is_comp (eval_level f LAdd) apply_comp res
      | LAdd => res ← eval_level f LMul; binary_loop f is_add (eval_level f LMul) apply_add res
      | LMul => res ← eval_level f LPre; binary_loop f is_mul (eval_level f LMul) apply_mul res
      | LPre => pre_level (eval_level f LBase)
      | LBase => base_level (eval_level f LExpr)
      end
  end.

Definition evalExpr (fuel : nat) : P str := eval_level fuel LExpr.
Definition evalAndOr (fuel : nat) : P str := eval_level fuel LAndOr.
Definition evalComp (fuel : nat) : P str := eval_level fuel LComp.
Definition evalAdd (fuel : nat) : P str := eval_level fuel LAdd.
Definition evalMul (fuel : nat) : P str := eval_level fuel LMul.
Definition evalPre (fuel : nat) : P str := eval_level fuel LPre.
Definition evalBase (fuel : nat) : P str := eval_level fuel LBase.

(** Eight calls for every argument: a call goes down one of the seven levels, or
    comes after an argument was consumed. *)
Definition eval_fuel (args : scanner) : nat := 8 * length args + 7.

(** The line that is printed, and the exit status. *)
Definition main (args : scanner) : option (str * Z) :=
  match args with
  | [] => Some ([], 2)
  | _ =>
      match evalExpr (eval_fuel args) args with
      | Some (Ok result _) => Some (result, if BigInt.isZero result then 1 else 0)
      | Some (Exit code) => Some ([], code)
      | _ => None
      end
  end.

(** ** The equations of the levels *)

Lemma evalExpr_eq f : evalExpr (S f) = evalAndOr f.
Proof. reflexivity. Qed.
Lemma evalAndOr_eq f : evalAndOr (S f) = (res ← evalComp f; binary_loop f is_andor (evalComp f) apply_andor res).
Proof. reflexivity. Qed.
Lemma evalComp_eq f : evalComp (S f) = (res ← evalAdd f; binary_loop f is_comp (evalAdd f) apply_comp res).
Proof. reflexivity. Qed.
Lemma evalAdd_eq f : evalAdd (S f) = (res ← evalMul f; binary_loop f is_add (evalMul f) apply_add res).
Proof. reflexivity. Qed.
Lemma evalMul_eq f : evalMul (S f) = (res ← evalPre f; binary_loop f is_mul (evalMul f) apply_mul res).
Proof. reflexivity. Qed.
Lemma evalPre_eq f : evalPre (S f) = pre_level (evalBase f).
Proof. reflexivity. Qed.
Lemma evalBase_eq f : evalBase (S f) = base_level (evalExpr f).
Proof. reflexivity. Qed.

(** ** The language of the evaluator

    An expression, its text with the parentheses it needs, and its value.
    [*], [/] and [%] associate to the right, the other operators to the left. *)

Inductive binop : Type := Or | And | Lt | Le | Eq | Ne | Ge | Gt | Add | Sub | Mul | Div | Rem.

Inductive expr : Type :=
| Lit (s : str)
| Bin (o : binop) (a b : expr).

Definition op_text (o : binop) : string :=
  match o with
  | Or => "|" | And => "&" | Lt => "<" | Le => "<=" | Eq => "=" | Ne => "!=" | Ge => ">=" | Gt => ">"
  | Add => "+" | Sub => "-" | Mul => "*" | Div => "/" | Rem => "%"
  end.

Definition prec (o : binop) : nat :=
  match o with
  | Or | And => 0 | Lt | Le | Eq | Ne | Ge | Gt => 1 | Add | Sub => 2 | Mul | Div | Rem => 3
  end.

Fixpoint print (q : nat) (e : expr) : scanner :=
  match e with
  | Lit s => [s]
  | Bin o a b =>
      let p := prec o in
      let body := print (if (p =? 3)%nat then 4 else p) a ++ [cstr (op_text o)] ++
                  print (if (p =? 3)%nat then 3 else S p) b in
      if (p <? q)%nat then [cstr "("] ++ body ++ [cstr ")"] else body
  end.

Definition int_value (s : str) : Z :=
  if BigInt.starts s 45 then - BigInt.value (tail s) else BigInt.value s.

Definition denote_op (o : binop) (x y : Z) : Z :=
  match o with
  | Or => if x =? 0 then y else x
  | And => if (x =? 0) || (y =? 0) then 0 else x
  | Lt => Z.b2z (x <? y) | Le => Z.b2z (x <=? y) | Eq => Z.b2z (x =? y)
  | Ne => Z.b2z (negb (x =? y)) | Ge => Z.b2z (y <=? x) | Gt => Z.b2z (y <? x)
  | Add => x + y | Sub => x - y | Mul => x * y | Div => Z.quot x y | Rem => Z.rem x y
  end.

Fixpoint denote (e : expr) : Z :=
  match e with Lit s => int_value s | Bin o a b => denote_op o (denote a) (denote b) end.

(** Where the arithmetic is defined: no division by zero, no zero minus zero,
    and no result of minus zero. *)
Definition defined (o : binop) (x y : Z) : Prop :=
  match o with
  | Sub => x <> 0 \/ y <> 0
  | Mul => x * y = 0 -> 0 <= x /\ 0 <= y
  | Div => y <> 0 /\ (Z.quot x y = 0 -> 0 <= x * y) /\ (x = 0 -> 0 < y)
  | Rem => y <> 0 /\ (Z.rem x y = 0 -> 0 <= x)
  | _ => True
  end.

Fixpoint clean (e : expr) : Prop :=
  match e with
  | Lit s => BigInt.text_of s (int_value s)
  | Bin o a b => clean a /\ clean b /\ defined o (denote a) (denote b)
  end.

(** A bound of the length of the result. *)
Fixpoint width (e : expr) : nat :=
  match e with Lit s => length s | Bin _ a b => (width a + width b + 2)%nat end.

Definition is_op_at (q : nat) : option str -> bool :=
  match q with 0 => is_andor | 1 => is_comp | 2 => is_add | _ => is_mul end%nat.
Definition apply_at (q : nat) : str -> str -> str -> P str :=
  match q with 0 => apply_andor | 1 => apply_comp | 2 => apply_add | _ => apply_mul end%nat.

(** *** The operators *)

Lemma text_integer r z : BigInt.text_of r z -> BigInt.isInteger r = true.
Proof. intros H. apply BigInt.isInteger_spec. destruct H as [d|d]; exists d; auto. Qed.

Lemma zero_digits d : BigInt.digits d -> forallb (fun c => c =? 48) d = (BigInt.value d =? 0).
Proof.
  induction 1 as [|c d Hc Hd IH]; [done|]. cbn [forallb BigInt.value]. rewrite IH. unfold BigInt.is_digit in Hc.
  pose proof (BigInt.value_range d Hd). pose proof (Z.pow_pos_nonneg 10 (BigInt.strlen d) ltac:(lia) ltac:(unfold BigInt.strlen; lia)).
  destruct (Z.eqb_spec c 48) as [->|]; cbn [andb]; [f_equal; lia|]. symmetry. apply Z.eqb_neq. nia.
Qed.

Lemma text_zero r z : BigInt.text_of r z -> BigInt.isZero r = (z =? 0).
Proof.
  unfold BigInt.isZero. intros [d Hd Hn|d Hd Hn Hp].
  - rewrite BigInt.digits_unsigned by done. by apply zero_digits.
  - cbn [BigInt.starts tail]. rewrite Z.eqb_refl, zero_digits by done. lia.
Qed.

Lemma text_truth b : BigInt.text_of (truth b) (Z.b2z b).
Proof. destruct b; by apply BigInt.text_cstr. Qed.

Lemma run_asserts a b x y (c : P str) args : BigInt.text_of a x -> BigInt.text_of b y ->
  (assertInteger a;; assertInteger b;; c) args = c args.
Proof. intros Ha Hb. unfold assertInteger. by rewrite (text_integer _ _ Ha), (text_integer _ _ Hb). Qed.

Lemma apply_comp_ok o a b x y args : prec o = 1%nat ->
  BigInt.text_of a x -> BigInt.text_of b y -> Z.of_nat (length a + length b + 2) < 2 ^ 30 ->
  apply_comp (cstr (op_text o)) a b args = Some (Ok (truth (negb (denote_op o x y =? 0))) args).
Proof.
  intros Ho Ha Hb Hs. unfold apply_comp. rewrite (run_asserts a b x y) by done.
  assert (E : Z.sgn (BigInt.cmpInteger a b) = Z.sgn (x - y)).
  { apply BigInt.cmp_sign; try done; unfold BigInt.short, BigInt.strlen; lia. }
  assert (B : forall c, negb (Z.b2z c =? 0) = c) by by intros [].
  destruct o; try done; cbn [op_text denote_op]; rewrite B; unfold mret, P_ret;
    repeat match goal with |- context [eq ?u ?v] => let e := eval vm_compute in (eq u v) in change (eq u v) with e end; cbn match;
    f_equal; f_equal; f_equal; lia.
Qed.

Lemma apply_ok o a b x y : BigInt.text_of a x -> BigInt.text_of b y ->
  Z.of_nat (length a + length b + 2) < 2 ^ 30 -> defined o x y ->
  exists r, (forall args, apply_at (prec o) (cstr (op_text o)) a b args = Some (Ok r args)) /\
    BigInt.text_of r (denote_op o x y) /\ (length r <= length a + length b + 2)%nat.
Proof.
  intros Ha Hb Hs Hd.
  assert (Sa : BigInt.short a) by (unfold BigInt.short, BigInt.strlen; lia).
  assert (Sb : BigInt.short b) by (unfold BigInt.short, BigInt.strlen; lia).
  assert (R : forall f (c : option str) z n, BigInt.result c z n -> (n <= length a + length b + 2)%nat ->
    (forall args, f a b args = lift (cstr (op_text o)) a b c args) ->
    exists r, (forall args, f a b args = Some (Ok r args)) /\ BigInt.text_of r z /\ (length r <= length a + length b + 2)%nat).
  { intros f c z n (r & -> & Ht & Hl) Hn Hf. exists r. split; [done|split; [done|lia]]. }
  assert (C : prec o = 1%nat -> exists r, (forall args, apply_comp (cstr (op_text o)) a b args = Some (Ok r args)) /\
    BigInt.text_of r (denote_op o x y) /\ (length r <= length a + length b + 2)%nat).
  { intros Ho. exists (truth (negb (denote_op o x y =? 0))). split; [intros args; by apply apply_comp_ok|].
    assert (E : denote_op o x y = Z.b2z (negb (denote_op o x y =? 0))).
    { destruct o; try done; cbn [denote_op]; by match goal with |- context [Z.b2z ?b] => destruct b end. }
    rewrite E at 2. split; [apply text_truth|]. by destruct (denote_op o x y =? 0); cbn; lia. }
  destruct o; try (by apply C); cbn [prec apply_at denote_op defined] in *.
  - exists (if x =? 0 then b else a). unfold apply_andor. rewrite (text_zero _ _ Ha).
    split; [done|]. destruct (x =? 0); (split; [done|lia]).
  - exists (if (x =? 0) || (y =? 0) then cstr "0" else a). unfold apply_andor. rewrite (text_zero _ _ Ha), (text_zero _ _ Hb).
    split; [done|]. destruct ((x =? 0) || (y =? 0)); (split; [|cbn; lia]); [by apply BigInt.text_cstr|done].
  - apply (R _ _ _ _ (BigInt.addInteger_ok a b x y Ha Hb Sa Sb)); [lia|]. intros. unfold apply_add. by rewrite (run_asserts a b x y).
  - apply (R _ _ _ _ (BigInt.subInteger_ok a b x y Ha Hb Sa Sb Hd)); [lia|]. intros. unfold apply_add. by rewrite (run_asserts a b x y).
  - apply (R _ _ _ _ (BigInt.mulInteger_ok a b x y Ha Hb Hs Hd)); [lia|]. intros. unfold apply_mul. by rewrite (run_asserts a b x y).
  - destruct Hd as (H1 & H2 & H3). apply (R _ _ _ _ (BigInt.divInteger_ok a b x y Ha Hb Hs H1 H2 (fun _ => H3))); [lia|].
    intros. unfold apply_mul. by rewrite (run_asserts a b x y).
  - destruct Hd as (H1 & H2). apply (R _ _ _ _ (BigInt.remInteger_ok a b x y Ha Hb Hs H1 H2)); [lia|].
    intros. unfold apply_mul. by rewrite (run_asserts a b x y).
Qed.

(** Operands on which an operation of the arithmetic is exact. *)
Definition fits (op a b : str) : Prop :=
  exists o x y, op = cstr (op_text o) /\ BigInt.text_of a x /\ BigInt.text_of b y /\
    Z.of_nat (length a + length b + 2) < 2 ^ 30 /\ defined o x y.

(** What may stop the evaluation of the arguments [args]. *)
Definition explained (args : scanner) (why : reason) : Prop :=
  match why with
  | NO_OPERAND => True
  | OUT_OF_RANGE => cstr "substr" ∈ args
  | FAILS op a b => is_mul (Some op) || is_add (Some op) = true /\ BigInt.isInteger a = true /\ BigInt.isInteger b = true /\ ~ fits op a b
  end.

(** ** Termination

    [runs n c args]: the computation does not run out of fuel; when it gives a
    value it has consumed [n] arguments or more, it exits with 2 only, and what
    else stops it is explained by the arguments of the program. *)

Section Termination.
Context (whole : scanner).

Definition runs {A : Type} (n : nat) (c : P A) (args : scanner) : Prop :=
  args `suffix_of` whole -> exists o, c args = Some o /\
    match o with
    | Ok _ rest => rest `suffix_of` args /\ (length rest + n <= length args)%nat
    | Exit code => code = 2
    | Stuck why => explained whole why
    end.

Lemma runs_ret {A : Type} (a : A) args : runs 0 (mret (M := P) a) args.
Proof. intros _. exists (Ok a args). split; [done|split; [done|lia]]. Qed.

Lemma runs_exit {A : Type} n args : runs n (exit (A := A) 2) args.
Proof. intros _. by exists (Exit 2). Qed.

Lemma runs_stuck {A : Type} n why args : explained whole why -> runs n (stuck (A := A) why) args.
Proof. intros H _. by exists (Stuck why). Qed.

Lemma runs_weaken {A : Type} n m (c : P A) args : (m <= n)%nat -> runs n c args -> runs m c args.
Proof. intros Hm H Hw. destruct (H Hw) as (o & E & H'). exists o. split; [done|]. destruct o; [split; [apply H'|destruct H'; lia]|done..]. Qed.

Lemma runs_bind {A B : Type} n m (c : P A) (k : A -> P B) args :
  runs n c args -> (forall a rest, rest `suffix_of` args -> (length rest + n <= length args)%nat -> runs m (k a) rest) ->
  runs (n + m) (mbind (M := P) k c) args.
Proof.
  intros H Hk Hw. destruct (H Hw) as (o & E & H1). unfold mbind, P_bind. rewrite E. destruct o as [a rest|code|why]; [|by eexists..].
  destruct H1 as [Hs H1]. destruct (Hk a rest Hs H1) as (o & E' & H'); [by etrans|]. exists o. split; [done|].
  destruct o; [|done..]. destruct H' as [Hs' H']. split; [by etrans|lia].
Qed.

(** The same when nothing is known of what the first part consumes. *)
Lemma runs_bind0 {A B : Type} m (c : P A) (k : A -> P B) args :
  runs 0 c args -> (forall a rest, rest `suffix_of` args -> (length rest <= length args)%nat -> runs m (k a) rest) ->
  runs m (mbind (M := P) k c) args.
Proof. intros H Hk. apply (runs_bind 0 m); [done|]. intros a rest Hs Hr. apply Hk; [done|lia]. Qed.

Lemma runs_if {A : Type} n (b : bool) (c d : P A) args : runs n c args -> runs n d args -> runs n (if b then c else d) args.
Proof. by destruct b. Qed.

Lemma runs_asserts {A : Type} a b (c : P A) args :
  (BigInt.isInteger a = true -> BigInt.isInteger b = true -> runs 0 c args) -> runs 0 (assertInteger a;; assertInteger b;; c) args.
Proof.
  intros Hc. unfold assertInteger. destruct (BigInt.isInteger a); [|apply runs_exit]. destruct (BigInt.isInteger b); [|apply runs_exit]. by apply Hc.
Qed.

(** An operation that fails has operands that it is not exact on. *)
Lemma fits_runs op a b : fits op a b -> is_mul (Some op) || is_add (Some op) = true ->
  exists r, forall args, (if is_mul (Some op) then apply_mul else apply_add) op a b args = Some (Ok r args).
Proof.
  intros (o & x & y & -> & Ha & Hb & Hs & Hd) Hop. destruct (apply_ok o a b x y Ha Hb Hs Hd) as (r & Hr & _). exists r.
  by destruct o.
Qed.

Lemma fails_explained op a b args c : is_mul (Some op) || is_add (Some op) = true ->
  BigInt.isInteger a = true -> BigInt.isInteger b = true ->
  (if is_mul (Some op) then apply_mul else apply_add) op a b args = lift op a b c args -> runs 0 (lift op a b c) args.
Proof.
  intros Hop Ha Hb E. destruct c as [r|]; [apply runs_ret|]. apply runs_stuck. split_and!; try done. intros Hf.
  destruct (fits_runs op a b Hf Hop) as (r & Hr). by rewrite Hr in E.
Qed.

Lemma apply_mul_eq op a b args : BigInt.isInteger a = true -> BigInt.isInteger b = true ->
  apply_mul op a b args = lift op a b (if eq (Some op) "*" then BigInt.mulInteger a b
    else if eq (Some op) "/" then BigInt.divInteger a b else BigInt.remInteger a b) args.
Proof. intros Ha Hb. unfold apply_mul, assertInteger. rewrite Ha, Hb. by destruct (eq (Some op) "*"), (eq (Some op) "/"). Qed.

Lemma apply_add_eq op a b args : BigInt.isInteger a = true -> BigInt.isInteger b = true ->
  apply_add op a b args = lift op a b (if eq (Some op) "+" then BigInt.addInteger a b else BigInt.subInteger a b) args.
Proof. intros Ha Hb. unfold apply_add, assertInteger. rewrite Ha, Hb. by destruct (eq (Some op) "+"). Qed.

Lemma runs_apply_mul op a b args : is_mul (Some op) = true -> runs 0 (apply_mul op a b) args.
Proof.
  intros Hop. apply runs_asserts. intros Ha Hb. pose proof (apply_mul_eq op a b args Ha Hb) as E.
  assert (E' : runs 0 (lift op a b (if eq (Some op) "*" then BigInt.mulInteger a b
    else if eq (Some op) "/" then BigInt.divInteger a b else BigInt.remInteger a b)) args).
  { apply fails_explained; [by rewrite Hop|done..|]. by rewrite Hop. }
  by destruct (eq (Some op) "*"), (eq (Some op) "/").
Qed.

Lemma runs_apply_add op a b args : is_add (Some op) = true -> runs 0 (apply_add op a b) args.
Proof.
  intros Hop. apply runs_asserts. intros Ha Hb. pose proof (apply_add_eq op a b args Ha Hb) as E.
  assert (Hm : is_mul (Some op) = false).
  { unfold is_add, is_mul, eq in *. apply orb_prop in Hop as [H|H]; apply bool_decide_eq_true in H; injection H as ->; done. }
  assert (E' : runs 0 (lift op a b (if eq (Some op) "+" then BigInt.addInteger a b else BigInt.subInteger a b)) args).
  { apply fails_explained; [by rewrite Hop, orb_true_r|done..|]. by rewrite Hm. }
  by destruct (eq (Some op) "+").
Qed.

Lemma runs_apply_comp op a b args : is_comp (Some op) = true -> runs 0 (apply_comp op a b) args.
Proof. intros _. apply runs_asserts. intros. apply runs_ret. Qed.

Lemma runs_peek {B : Type} m (k : option str -> P B) args : runs m (k (head args)) args -> runs m (mbind (M := P) k peek) args.
Proof. done. Qed.

(** [next] consumes an argument, unless there is none. *)
Lemma runs_any {B : Type} (k : option str -> P B) args :
  (forall a rest, rest `suffix_of` args -> (length rest <= length args)%nat -> runs 0 (k a) rest) -> runs 0 (mbind (M := P) k next) args.
Proof.
  intros Hk. apply runs_bind0; [|done]. intros _. exists (Ok (head args) (tail args)). split; [done|].
  destruct args as [|arg args]; cbn [tail length]; [split; [done|lia]|]. split; [by apply suffix_cons_r|lia].
Qed.

(** A loop consumes two arguments in every round. *)
Lemma runs_loop fuel (is_op : option str -> bool) operand apply res args :
  (forall args', (length args' < length args)%nat -> runs 1 operand args') ->
  (forall op a b args', is_op (Some op) = true -> runs 0 (apply op a b) args') -> (length args < fuel)%nat ->
  runs 0 (binary_loop fuel is_op operand apply res) args.
Proof.
  intros Ho Ha. revert res args Ho. induction fuel as [|fuel IH]; intros res args Ho Hf; [lia|].
  cbn [binary_loop]. apply runs_peek. destruct args as [|op args]; cbn [head]; [apply runs_ret|].
  destruct (is_op (Some op)) eqn:Hop; [|apply runs_ret]. cbn [length] in *.
  apply (runs_weaken 1); [lia|]. apply (runs_bind 1 0).
  { intros _. exists (Ok (Some op) args). split; [done|]. split; [by apply suffix_cons_r|cbn; lia]. }
  intros _ r1 _ H1. cbn [length] in H1. apply runs_bind0; [apply (runs_weaken 1); [lia|]; apply Ho; lia|].
  intros snd r2 _ H2. apply runs_bind0; [by apply Ha|]. intros r r3 _ H3. apply IH; [|lia].
  intros args' H'. apply Ho. lia.
Qed.

(** A level of the descent: an operand and the loop. *)
Lemma runs_level f operand operand' (is_op : option str -> bool) apply args :
  runs 1 operand args ->
  (forall args', (length args' < length args)%nat -> runs 1 operand' args') ->
  (forall op a b args', is_op (Some op) = true -> runs 0 (apply op a b) args') -> (length args <= f)%nat ->
  runs 1 (res ← operand; binary_loop f is_op operand' apply res) args.
Proof.
  intros H Ho Ha Hf. apply (runs_bind 1 0); [done|]. intros res rest _ Hr.
  apply runs_loop; [intros args' H'; apply Ho; lia|done|lia].
Qed.

Lemma runs_strdup (arg : option str) args : runs 0 (strdup arg) args.
Proof. destruct arg; [apply runs_ret|by apply runs_stuck]. Qed.

(** Where [next] gives [NULL] the caller is stuck. *)
Lemma runs_next {A : Type} (k : option str -> P A) args :
  (forall arg rest, args = arg :: rest -> runs 0 (k (Some arg)) rest) ->
  (args = [] -> k None [] = Some (Stuck NO_OPERAND)) -> runs 1 (mbind (M := P) k next) args.
Proof.
  intros Hk Hn Hw. destruct args as [|arg rest].
  - exists (Stuck NO_OPERAND). split; [|done]. unfold mbind, P_bind, next. cbn [head tail]. by apply Hn.
  - destruct (Hk arg rest eq_refl) as (o & E & H); [by eapply suffix_cons_l|]. exists o. split; [exact E|].
    destruct o as [a r|code|why]; [|done..].
    destruct H as [Hs H]. split; [by apply suffix_cons_r|cbn; lia].
Qed.

(** The fuel the levels need. *)
Record levels (f : nat) (args : scanner) : Prop := {
  l_expr : (8 * length args + 7 <= f)%nat -> runs 1 (evalExpr f) args;
  l_andor : (8 * length args + 6 <= f)%nat -> runs 1 (evalAndOr f) args;
  l_comp : (8 * length args + 5 <= f)%nat -> runs 1 (evalComp f) args;
  l_add : (8 * length args + 4 <= f)%nat -> runs 1 (evalAdd f) args;
  l_mul : (8 * length args + 3 <= f)%nat -> runs 1 (evalMul f) args;
  l_pre : (8 * length args + 2 <= f)%nat -> runs 1 (evalPre f) args;
  l_base : (8 * length args + 1 <= f)%nat -> runs 1 (evalBase f) args;
}.

Lemma base_runs f args : (forall args', levels f args') -> (8 * length args + 1 <= S f)%nat -> runs 1 (evalBase (S f)) args.
Proof.
  intros H Hf. rewrite evalBase_eq; unfold base_level. apply runs_next; [|by intros ->]. intros arg rest ->. cbn [length] in Hf.
  apply runs_if; [|apply runs_if; [|apply runs_strdup]].
  - apply runs_bind0; [apply (runs_weaken 1); [lia|]; apply (l_expr _ _ (H rest)); lia|]. intros res r1 _ H1.
    apply runs_any. intros c r2 _ H2. apply runs_if; [apply runs_exit|apply runs_ret].
  - apply runs_any. intros. apply runs_strdup.
Qed.

(** A keyword is an argument of its own. *)
Lemma runs_keyword {B : Type} w (k : P B) args : eq (head args) w = true ->
  (forall r, (length r < length args)%nat -> cstr w ∈ whole -> runs 0 k r) -> runs 1 (next;; k) args.
Proof.
  unfold eq. intros E%bool_decide_eq_true Hk. destruct args as [|a r]; [done|]. cbn [head] in E. injection E as ->. intros Hw.
  assert (Hin : cstr w ∈ whole) by (destruct Hw as [used ->]; apply elem_of_app; right; by left). revert Hw.
  apply (runs_next (fun _ => k) (cstr w :: r)); [|done]. intros ? ? [= <- <-]. apply Hk; [cbn; lia|done].
Qed.

Lemma runs_scan arg args : cstr "substr" ∈ whole -> runs 0 (scan_lu arg) args.
Proof. intros H. unfold scan_lu. cbv zeta. apply runs_if; [apply runs_ret|by apply runs_stuck]. Qed.

Lemma runs_substring s pos len args : cstr "substr" ∈ whole -> runs 0 (substring s pos len) args.
Proof. intros H. unfold substring. cbv zeta. apply runs_if; [apply runs_ret|by apply runs_stuck]. Qed.

Lemma pre_runs f args : (forall args', levels f args') -> (8 * length args + 2 <= S f)%nat -> runs 1 (evalPre (S f)) args.
Proof.
  intros H Hf. rewrite evalPre_eq; unfold pre_level. apply runs_peek.
  assert (Hb : forall r, (length r < length args)%nat -> runs 0 (evalBase f) r).
  { intros r Hr. apply (runs_weaken 1); [lia|]. apply (l_base _ _ (H r)). lia. }
  destruct (eq (head args) "substr") eqn:E1; [|destruct (eq (head args) "index") eqn:E2; [|destruct (eq (head args) "length") eqn:E3]].
  - apply (runs_keyword "substr"); [done|]. intros r Hr Hin. apply runs_bind0; [by apply Hb|]. intros s r1 _ H1.
    apply runs_bind0; [apply Hb; lia|]. intros p r2 _ H2. apply runs_bind0; [apply Hb; lia|]. intros l r3 _ H3.
    apply runs_asserts. intros _ _. apply runs_bind0; [by apply runs_scan|]. intros posi r4 _ _.
    apply runs_bind0; [by apply runs_scan|]. intros leni r5 _ _. by apply runs_substring.
  - apply (runs_keyword "index"); [done|]. intros r Hr _. apply runs_bind0; [by apply Hb|]. intros s r1 _ H1.
    apply runs_bind0; [apply Hb; lia|]. intros. apply runs_ret.
  - apply (runs_keyword "length"); [done|]. intros r Hr _. apply runs_bind0; [by apply Hb|]. intros. apply runs_ret.
  - apply (l_base _ _ (H args)). lia.
Qed.

Lemma levels_run f args : levels f args.
Proof.
  revert args. induction f as [|f IH]; intros args; [split; lia|]. split; intros Hf.
  - apply (l_andor _ _ (IH args)). lia.
  - apply runs_level; [apply (l_comp _ _ (IH args)); lia|intros a Ha; apply (l_comp _ _ (IH a)); lia| |lia].
    intros. apply runs_ret.
  - apply runs_level; [apply (l_add _ _ (IH args)); lia|intros a Ha; apply (l_add _ _ (IH a)); lia|apply runs_apply_comp|lia].
  - apply runs_level; [apply (l_mul _ _ (IH args)); lia|intros a Ha; apply (l_mul _ _ (IH a)); lia|apply runs_apply_add|lia].
  - apply runs_level; [apply (l_pre _ _ (IH args)); lia|intros a Ha; apply (l_mul _ _ (IH a)); lia|apply runs_apply_mul|lia].
  - by apply pre_runs.
  - by apply base_runs.
Qed.

End Termination.

(** ** More fuel changes nothing *)

Definition below {A : Type} (c d : P A) : Prop := forall args o, c args = Some o -> d args = Some o.

Lemma below_refl {A : Type} (c : P A) : below c c.
Proof. by unfold below. Qed.

#[local] Hint Resolve below_refl : core.

Lemma below_bind {A B : Type} (c c' : P A) (k k' : A -> P B) :
  below c c' -> (forall a, below (k a) (k' a)) -> below (mbind (M := P) k c) (mbind (M := P) k' c').
Proof.
  intros Hc Hk args o. unfold mbind, P_bind. destruct (c args) as [x|] eqn:E; [|done].
  rewrite (Hc _ _ E). destruct x; [apply Hk|done..].
Qed.

Lemma below_if {A : Type} (b : bool) (c c' d d' : P A) :
  below c c' -> below d d' -> below (if b then c else d) (if b then c' else d').
Proof. by destruct b. Qed.

Lemma below_loop f f' is_op operand operand' apply res :
  (f <= f')%nat -> below operand operand' ->
  below (binary_loop f is_op operand apply res) (binary_loop f' is_op operand' apply res).
Proof.
  intros Hf Ho. revert f' res Hf. induction f as [|f IH]; intros [|f'] res Hf; [done|done|lia|].
  cbn [binary_loop]. apply below_bind; [done|]. intros [op|]; [|done]. apply below_if; [|done].
  do 2 (apply below_bind; [done|intros]). apply below_bind; [done|]. intros r. apply IH. lia.
Qed.

Record rising (f f' : nat) : Prop := {
  r_expr : below (evalExpr f) (evalExpr f');
  r_andor : below (evalAndOr f) (evalAndOr f');
  r_comp : below (evalComp f) (evalComp f');
  r_add : below (evalAdd f) (evalAdd f');
  r_mul : below (evalMul f) (evalMul f');
  r_pre : below (evalPre f) (evalPre f');
  r_base : below (evalBase f) (evalBase f');
}.

Lemma fuel_rising f f' : (f <= f')%nat -> rising f f'.
Proof.
  revert f'. induction f as [|f IH]; intros [|f'] Hf; [by split|by split|lia|].
  destruct (IH f' ltac:(lia)) as [H1 H2 H3 H4 H5 H6 H7].
  assert (Hl : forall is_op operand operand' apply res, below operand operand' ->
    below (binary_loop f is_op operand apply res) (binary_loop f' is_op operand' apply res)).
  { intros. apply below_loop; [lia|done]. }
  split; rewrite ?evalExpr_eq, ?evalAndOr_eq, ?evalComp_eq, ?evalAdd_eq, ?evalMul_eq, ?evalPre_eq, ?evalBase_eq; try done.
  1-4: apply below_bind; [done|intros; by apply Hl].
  - apply below_bind; [done|]. intros arg.
    repeat first [apply below_if | apply below_refl | (apply below_bind; [first [done|apply below_refl]|intros])]; done.
  - apply below_bind; [done|]. intros arg.
    repeat first [apply below_if | apply below_refl | (apply below_bind; [first [done|apply below_refl]|intros])]; done.
Qed.

(** [evals c args o]: with enough fuel, [c] gives [o]. *)
Definition evals {A : Type} (c : nat -> P A) (args : scanner) (o : outcome A) : Prop :=
  exists f0, forall f, (f0 <= f)%nat -> c f args = Some o.

Lemma evals_eval_fuel args o : evals evalExpr args o -> evalExpr (eval_fuel args) args = Some o.
Proof.
  intros (f0 & H). destruct (l_expr _ _ _ (levels_run args (eval_fuel args) args)) as (o' & E & _); [done..|].
  pose proof (r_expr _ _ (fuel_rising (eval_fuel args) (f0 + eval_fuel args) ltac:(lia)) _ _ E) as E'.
  rewrite H in E' by lia. by rewrite E, E'.
Qed.

(** *** The four levels *)

Definition eval_at (q : nat) : nat -> P str :=
  match q with 0 => evalAndOr | 1 => evalComp | 2 => evalAdd | 3 => evalMul | _ => evalPre end%nat.
Definition operand_at (q : nat) : nat -> P str := if (q =? 3)%nat then evalMul else eval_at (S q).
Definition loops (q : nat) (res : str) (args : scanner) (o : outcome str) : Prop :=
  exists f0, forall f F, (f0 <= f)%nat -> (f0 <= F)%nat ->
    binary_loop f (is_op_at q) (operand_at q F) (apply_at q) res args = Some o.

Lemma level_rule q args r rest o : (q <= 3)%nat ->
  evals (eval_at (S q)) args (Ok r rest) -> loops q r rest o -> evals (eval_at q) args o.
Proof.
  intros Hq (f1 & H1) (f2 & H2). exists (S (f1 + f2)). intros [|f] Hf; [lia|].
  assert (E : eval_at q (S f) = (res ← eval_at (S q) f; binary_loop f (is_op_at q) (operand_at q f) (apply_at q) res)).
  { destruct q as [|[|[|[|q]]]]; [done..|lia]. }
  rewrite E. unfold mbind, P_bind. rewrite H1 by lia. apply H2; lia.
Qed.

Lemma loop_stop q r rest : is_op_at q (head rest) = false -> loops q r rest (Ok r rest).
Proof.
  intros H. exists 1%nat. intros [|f] F Hf _; [lia|]. cbn [binary_loop]. unfold mbind, P_bind, peek.
  destruct rest as [|op rest]; cbn [head] in *; [done|]. by rewrite H.
Qed.

Lemma loop_step q r op snd r' rest rest' o :
  is_op_at q (Some op) = true -> evals (operand_at q) rest (Ok snd rest') ->
  (forall args, apply_at q op r snd args = Some (Ok r' args)) -> loops q r' rest' o -> loops q r (op :: rest) o.
Proof.
  intros H (f1 & H1) Ha (f2 & H2). exists (S (f1 + f2)). intros [|f] F Hf HF; [lia|].
  cbn [binary_loop]. unfold mbind, P_bind, peek, next. cbn [head tail]. rewrite H, H1, Ha by lia. apply H2; lia.
Qed.

(** *** Parsing what is printed *)

(** No operator of the level or a tighter one follows. *)
Definition ends (q : nat) (rest : scanner) : Prop :=
  forall q', (q <= q' <= 3)%nat -> is_op_at q' (head rest) = false.

(** [value_at q e r]: the function of level [q] reads [e] and stops;
    [prefix_at q e r]: it reads [e] and goes on with its loop. *)
Definition value_at (q : nat) (e : expr) (r : str) : Prop :=
  forall rest, ends q rest -> evals (eval_at q) (print q e ++ rest) (Ok r rest).
Definition prefix_at (q : nat) (e : expr) (r : str) : Prop :=
  forall rest o, ends (S q) rest -> loops q r rest o -> evals (eval_at q) (print q e ++ rest) o.

Definition own_level (e : expr) : nat := match e with Lit _ => 4 | Bin o _ _ => prec o end.

Lemma ends_weaken q q' rest : (q <= q')%nat -> ends q rest -> ends q' rest.
Proof. intros Hq H p Hp. apply H. lia. Qed.

Lemma prefix_value q e r : (q <= 3)%nat -> prefix_at q e r -> value_at q e r.
Proof.
  intros Hq H rest Hr. apply H; [by eapply ends_weaken; [|done]; lia|]. apply loop_stop, Hr. lia.
Qed.

Lemma print_same q e : q <> own_level e -> print q e = print (S q) e.
Proof.
  destruct e as [s|o a b]; [done|]. cbn [print own_level]. intros Hq.
  destruct (Nat.ltb_spec (prec o) q), (Nat.ltb_spec (prec o) (S q)); try lia; done.
Qed.

Lemma value_prefix q e r : (q <= 3)%nat -> q <> own_level e -> value_at (S q) e r -> prefix_at q e r.
Proof.
  intros Hq Hn H rest o Hr Ho. rewrite print_same by done. eapply level_rule; [done|by apply H|done].
Qed.

(** From a level down to a looser one, as long as the print is the same. *)
Lemma value_down e r p q : (q <= p <= 4)%nat -> (p <= own_level e \/ own_level e < q)%nat ->
  value_at p e r -> value_at q e r.
Proof.
  intros Hp Ho. induction p as [|p IH]; intros H; [by replace q with 0%nat by lia|].
  destruct (decide (q = S p)) as [->|Hq]; [done|]. apply IH; [lia|lia|]. apply prefix_value; [lia|].
  apply value_prefix; [lia|lia|done].
Qed.

Lemma evals_paren e r rest : own_level e <> 4%nat -> value_at 0 e r -> evals evalPre (print 4 e ++ rest) (Ok r rest).
Proof.
  intros Hn H. destruct e as [s|o a b]; [done|].
  assert (E : print 4 (Bin o a b) = cstr "(" :: print 0 (Bin o a b) ++ [cstr ")"]) by by destruct o.
  destruct (H (cstr ")" :: rest)) as (f0 & H0); [by intros [|[|[|[|q]]]] Hq; [..|lia]|]. exists (S (S (S f0))).
  intros [|[|[|f]]] Hf; [lia..|]. rewrite E. rewrite evalPre_eq; unfold pre_level. unfold mbind at 1, P_bind at 1, peek. cbn [app head].
  repeat match goal with |- context [eq ?u ?v] => let e := eval vm_compute in (eq u v) in change (eq u v) with e end. cbn match.
  rewrite evalBase_eq; unfold base_level. unfold mbind at 1, P_bind at 1, next. cbn [head tail].
  repeat match goal with |- context [eq (Some (cstr "(")) ?v] => let e := eval vm_compute in (eq (Some (cstr "(")) v) in change (eq (Some (cstr "(")) v) with e end. cbn match.
  rewrite <- app_assoc. cbn [app]. unfold mbind, P_bind. rewrite evalExpr_eq. change (evalAndOr f) with (eval_at 0 f).
  by rewrite H0 by lia.
Qed.

Lemma lit_value s z rest : BigInt.text_of s z -> evals evalPre (s :: rest) (Ok s rest).
Proof.
  intros Hs. exists 2%nat. intros [|[|f]] Hf; [lia..|]. pose proof (text_integer _ _ Hs) as Hi.
  assert (H : forall v, BigInt.isInteger (cstr v) = false -> eq (Some s) v = false).
  { intros v Hv. unfold eq. apply bool_decide_eq_false. intros [= ->]. congruence. }
  rewrite evalPre_eq; unfold pre_level. unfold mbind, P_bind, peek. cbn [head]. rewrite !H by done.
  rewrite evalBase_eq; unfold base_level. unfold mbind, P_bind, next. cbn [head tail]. by rewrite !H by done.
Qed.

Lemma op_level o q : (q <= 3)%nat -> is_op_at q (Some (cstr (op_text o))) = (q =? prec o)%nat.
Proof. intros Hq. by destruct q as [|[|[|[|q]]]]; [..|lia]; destruct o. Qed.

Lemma ends_op o rest : ends (S (prec o)) (cstr (op_text o) :: rest).
Proof. intros q Hq. cbn [head]. rewrite op_level by lia. apply Nat.eqb_neq. lia. Qed.

Lemma ends_no_op q rest p : ends q rest -> (q <= p <= 3)%nat -> is_op_at p (head rest) = false.
Proof. intros H Hp. by apply H. Qed.

(** The value at the own level gives it at every level. *)
Lemma own_all e r : (own_level e <= 3)%nat -> value_at (own_level e) e r -> forall q, (q <= 4)%nat -> value_at q e r.
Proof.
  intros Hl H q Hq. destruct (Nat.le_gt_cases q (own_level e)).
  - apply (value_down e r (own_level e)); [lia|by left|done].
  - apply (value_down e r 4); [lia|by right|]. intros rest _. apply evals_paren; [lia|].
    apply (value_down e r (own_level e)); [lia|by left|done].
Qed.

Lemma bin_own o a b ra rb r : (prec o <= 2)%nat ->
  (forall q, (q <= 4)%nat -> value_at q a ra) -> prefix_at (prec o) a ra -> (forall q, (q <= 4)%nat -> value_at q b rb) ->
  (forall args, apply_at (prec o) (cstr (op_text o)) ra rb args = Some (Ok r args)) ->
  prefix_at (prec o) (Bin o a b) r.
Proof.
  intros Hp Ha Hpa Hb Hop rest out Hr Ho. cbn [print]. rewrite Nat.ltb_irrefl.
  rewrite (proj2 (Nat.eqb_neq (prec o) 3)) by lia. rewrite <- !app_assoc. cbn [app].
  apply Hpa; [apply ends_op|]. eapply loop_step; [by rewrite op_level, Nat.eqb_refl by lia| |exact Hop|exact Ho].
  unfold operand_at. rewrite (proj2 (Nat.eqb_neq (prec o) 3)) by lia. apply Hb; [lia|done].
Qed.

Lemma mul_own o a b ra rb r : prec o = 3%nat ->
  value_at 4 a ra -> value_at 3 b rb ->
  (forall args, apply_at 3 (cstr (op_text o)) ra rb args = Some (Ok r args)) -> value_at 3 (Bin o a b) r.
Proof.
  intros Hp Ha Hb Hop rest Hr. cbn [print]. rewrite Hp. cbn [Nat.ltb Nat.leb Nat.eqb]. rewrite <- !app_assoc. cbn [app].
  eapply level_rule; [lia|apply Ha; intros q ?; lia|].
  eapply loop_step; [by rewrite op_level, Hp by lia|apply Hb; exact Hr|exact Hop|]. apply loop_stop, Hr. lia.
Qed.

(** The induction: every level reads what it prints, and the string of the value. *)
Lemma eval_print e : clean e -> Z.of_nat (width e) < 2 ^ 30 ->
  exists r, BigInt.text_of r (denote e) /\ (length r <= width e)%nat /\
    (forall q, (q <= 4)%nat -> value_at q e r) /\ (forall q, (q <= 2)%nat -> prefix_at q e r).
Proof.
  assert (Hpre : forall e r, (forall q, (q <= 4)%nat -> value_at q e r) ->
    forall q, (q <= 2)%nat -> q <> own_level e -> prefix_at q e r).
  { intros e' r H q Hq Hn. apply value_prefix; [lia|done|]. apply H. lia. }
  induction e as [s|o a IHa b IHb]; cbn [clean width denote]; intros Hc Hw.
  - exists s. split; [done|split; [done|]].
    assert (Hv : forall q, (q <= 4)%nat -> value_at q (Lit s) s).
    { intros q Hq. apply (value_down _ _ 4); [lia|left; cbn; lia|]. intros rest _. by eapply lit_value. }
    split; [done|]. intros q Hq. apply Hpre; [done|done|]. cbn. lia.
  - destruct Hc as (Ca & Cb & Hd). destruct IHa as (ra & Ta & La & Va & Pa); [done|lia|].
    destruct IHb as (rb & Tb & Lb & Vb & Pb); [done|lia|].
    destruct (apply_ok o ra rb (denote a) (denote b) Ta Tb) as (r & Hop & Tr & Lr); [lia|done|].
    exists r. split; [done|split; [lia|]]. assert (Hp3 : (prec o <= 3)%nat) by (destruct o; cbn; lia).
    assert (Hv : forall q, (q <= 4)%nat -> value_at q (Bin o a b) r).
    { apply own_all; [done|]. cbn [own_level]. destruct (decide (prec o = 3%nat)) as [E|E].
      - rewrite E in *. apply (mul_own o a b ra rb); [done|by apply Va|by apply Vb; lia|done].
      - apply prefix_value; [done|]. apply (bin_own o a b ra rb); try done; [lia|apply Pa; lia]. }
    split; [done|]. intros q Hq. destruct (decide (q = prec o)) as [->|E]; [|by apply Hpre].
    apply (bin_own o a b ra rb); try done. by apply Pa.
Qed.

(** ** Properties *)

(** C34: The descent of every level of the evaluator is bounded, on every list of
    arguments, by eight calls for every argument.  It gives a value and has
    consumed an argument, or exits with 2, except where a part of the code that
    it calls is undefined or does not end: an operand is missing at the end of the
    arguments, [substr] is used out of its range, or an arithmetic operation is
    given integers that it is not exact on (division by zero, zero minus zero, a
    result of minus zero, an operand of minus zero, more than 2^30 characters). *)
Theorem evaluation_terminates args fuel l :
  (eval_fuel args <= fuel)%nat ->
  exists o, eval_level fuel l args = Some o /\
    match o with
    | Ok _ rest => rest `suffix_of` args /\ (length rest < length args)%nat
    | Exit code => code = 2
    | Stuck NO_OPERAND => True
    | Stuck OUT_OF_RANGE => cstr "substr" ∈ args
    | Stuck (FAILS op a b) =>
        is_mul (Some op) || is_add (Some op) = true /\ BigInt.isInteger a = true /\ BigInt.isInteger b = true /\ ~ fits op a b
    end.
Proof.
  unfold eval_fuel. intros Hf. assert (H : runs args 1 (eval_level fuel l) args).
  { destruct (levels_run args fuel args) as [H1 H2 H3 H4 H5 H6 H7]. destruct l; [apply H1|apply H2|apply H3|apply H4|apply H5|apply H6|apply H7]; lia. }
  destruct (H (reflexivity _)) as (o & E & Ho). exists o. split; [done|].
  destruct o as [a rest|code|[| |op a b]]; [|done..]. destruct Ho as [Hs Hl]. split; [done|lia].
Qed.

(** C33: The evaluator is the unparser's inverse: on the text of an expression it
    prints the decimal text of the expression's value and exits with 1 when
    that is zero, with 0 otherwise.  The grammar is the code's: [|] and [&] bind
    less than comparisons, these less than sums and these less than products;
    operators of a level group to the left, but [*], [/] and [%] to the right, and
    both operands are always evaluated.  Left out ([clean]) are expressions in
    which the arithmetic fails: a division by zero, zero minus zero, or a result or
    a literal of minus zero. *)
Theorem evaluation_correct e :
  clean e -> Z.of_nat (width e) < 2 ^ 30 ->
  exists r, main (print 0 e) = Some (r, if denote e =? 0 then 1 else 0) /\ BigInt.text_of r (denote e).
Proof.
  intros Hc Hw. destruct (eval_print e Hc Hw) as (r & Hr & _ & Hv & _). exists r. split; [|done].
  assert (H : evals evalExpr (print 0 e) (Ok r [])).
  { destruct (Hv 0%nat ltac:(lia) []) as (f0 & H0); [by intros [|[|[|[|q]]]] Hq; [..|lia]|].
    rewrite app_nil_r in H0. exists (S f0). intros [|f] Hf; [lia|]. apply H0. lia. }
  apply evals_eval_fuel in H. unfold main.
  assert (Hn : print 0 e <> []) by (destruct e as [|o a b]; [done|cbn; by destruct (print _ a)]).
  destruct (print 0 e) as [|arg args] eqn:E; [done|]. rewrite H. by rewrite (text_zero _ _ Hr).
Qed.

(** ** Witnesses and examples *)

Definition num (s : string) : expr := Lit (cstr s).

(** [2 + 3 * ( 4 - 1 ) < 12]. *)
Definition demo : expr := Bin Lt (Bin Add (num "2") (Bin Mul (num "3") (Bin Sub (num "4") (num "1")))) (num "12").

Example demo_print : print 0 demo = cstr <$> ["2"; "+"; "3"; "*"; "("; "4"; "-"; "1"; ")"; "<"; "12"]%string.
Proof. reflexivity. Qed.

Lemma evaluation_correct_witness :
  exists r, main (print 0 demo) = Some (r, if denote demo =? 0 then 1 else 0) /\ BigInt.text_of r (denote demo).
Proof. apply evaluation_correct; [|vm_compute; reflexivity]. repeat (split; try (by apply BigInt.text_cstr)); vm_compute; first [discriminate | left; discriminate | exact I]. Defined.

(** [5 - ( 2 + 3 ) * 2], at the level of the sums. *)
Lemma evaluation_terminates_witness :
  exists o, eval_level 100 LAdd (cstr <$> ["5"; "-"; "("; "2"; "+"; "3"; ")"; "*"; "2"]%string) = Some o /\
    o = Ok (cstr "-5") [] /\ match o with Ok _ rest => (length rest < 9)%nat | _ => False end.
Proof.
  destruct (evaluation_terminates (cstr <$> ["5"; "-"; "("; "2"; "+"; "3"; ")"; "*"; "2"]%string) 100 LAdd) as (o & E & H); [vm_compute; lia|].
  assert (Eo : o = Ok (cstr "-5") []) by (vm_compute in E; injection E as <-; reflexivity).
  exists o. split; [exact E|]. split; [exact Eo|]. rewrite Eo in H |- *. exact (proj2 H).
Defined.

(** What stops an evaluation: a missing operand, [substr], and the arithmetic. *)
Example evaluation_stops :
  evalExpr 100 (cstr <$> ["1"; "+"]%string) = Some (Stuck NO_OPERAND) /\
  evalExpr 100 (cstr <$> ["substr"; "a"; "1"; "18446744073709551616"]%string) = Some (Stuck OUT_OF_RANGE) /\
  evalExpr 100 (cstr <$> ["5"; "/"; "0"]%string) = Some (Stuck (FAILS (cstr "/") (cstr "5") (cstr "0"))) /\
  evalExpr 100 (cstr <$> ["0"; "-"; "0"]%string) = Some (Stuck (FAILS (cstr "-") (cstr "0") (cstr "0"))).
Proof. repeat split; vm_compute; reflexivity. Qed.

Definition run (l : list string) : option (str * Z) := main (cstr <$> l).

(** [8 / 4 / 2] is [8 / (4 / 2)]; [=] does not compare texts; minus zero is
    not zero; division by zero does not end. *)
Example evaluation_deviations :
  run ["8"; "/"; "4"; "/"; "2"] = Some (cstr "4", 0) /\
  run ["a"; "="; "a"] = Some ([], 2) /\
  run ["0"; "*"; "-1"; "="; "0"] = Some (cstr "0", 1) /\
  run ["5"; "/"; "0"] = None.
Proof. repeat split; vm_compute; reflexivity. Qed.

Example evaluation_examples :
  run ["substr"; "hello"; "2"; "3"] = Some (cstr "ell", 0) /\
  run ["index"; "hello"; "l"] = Some (cstr "3", 0) /\
  run ["length"; "hello"; "+"; "1"] = Some (cstr "6", 0) /\
  run ["("; "1"] = Some ([], 2).
Proof. repeat split; vm_compute; reflexivity. Qed.

End Expr.
