(* ===== verification/Errors.v ===== *)
(** * Errors: results of fallible operations, [kernel/src/error/error.h]

    [R St A] is a computation that returns an [Error]: [Good a] is [SUCCESS]
    with the result [a], [Bad kind] any other kind.  [None] is a failed
    assertion or undefined behaviour, as in [M]. *)
From S2P Require Import Prelude.

Module Errors.

Definition SUCCESS : Z := 0.
Definition EPERM : Z := 1.
Definition ENOENT : Z := 2.
Definition EIO : Z := 5.
Definition EAGAIN : Z := 11.
Definition ENOMEM : Z := 12.
Definition EACCES : Z := 13.
Definition EBUSY : Z := 16.
Definition EEXIST : Z := 17.
Definition EXDEV : Z := 18.
Definition ENOTDIR : Z := 20.
Definition EISDIR : Z := 21.
Definition EINVAL : Z := 22.
Definition ENOSPC : Z := 28.
Definition ESPIPE : Z := 29.
Definition ENOSYS : Z := 88.
Definition ELOOP : Z := 92.
Definition SUCCESS_EXIT : Z := 1024.

Inductive result (A : Type) : Type :=
| Good (a : A)
| Bad (kind : Z).

Arguments Good {A} a.
Arguments Bad {A} kind.

Definition R (St A : Type) : Type := St -> option (result A * St).

#[global] Instance R_ret (St : Type) : MRet (R St) := fun A a s => Some (Good a, s).

(** The bind is [CHECKED]: an error returns at once. *)
#[global] Instance R_bind (St : Type) : MBind (R St) := fun A B k c s =>
  match c s with
  | Some (Good a, s') => k a s'
  | Some (Bad kind, s') => Some (Bad kind, s')
  | None => None
  end.

Definition bad {St A : Type} (kind : Z) : R St A := fun s => Some (Bad kind, s).
Definition undefined {St A : Type} : R St A := fun _ => None.
Definition rassert {St : Type} (b : bool) : R St unit := fun s => if b then Some (Good tt, s) else None.
Definition get {St : Type} : R St St := fun s => Some (Good s, s).
Definition put {St : Type} (s : St) : R St unit := fun _ => Some (Good tt, s).

(** [Error err = OP;]: the error is a value. *)
Definition attempt {St A : Type} (c : R St A) : R St (result A) := fun s =>
  '(r, s') ← c s; Some (Good r, s').
Definition give {St A : Type} (r : result A) : R St A := fun s => Some (r, s).

Definition isError {A : Type} (r : result A) : bool := match r with Good _ => false | Bad _ => true end.

(** A computation on a part of the state. *)
Definition on {St S' A : Type} (read : St -> S') (write : S' -> St -> St) (c : R S' A) : R St A := fun s =>
  '(r, p) ← c (read s); Some (r, write p s).

Section Laws.
Context {St A B C : Type}.

Lemma bind_good (c : R St A) (k : A -> R St B) s s' a :
  c s = Some (Good a, s') -> mbind (M := R St) k c s = k a s'.
Proof. intros H. unfold mbind, R_bind. by rewrite H. Qed.

Lemma bind_good_inv (c : R St A) (k : A -> R St B) s s' b :
  mbind (M := R St) k c s = Some (Good b, s') -> exists a s1, c s = Some (Good a, s1) /\ k a s1 = Some (Good b, s').
Proof. unfold mbind, R_bind. destruct (c s) as [[[a|e] s1]|]; [|done..]. by exists a, s1. Qed.

Lemma bind_bad (c : R St A) (k : A -> R St B) s s' e :
  c s = Some (Bad e, s') -> mbind (M := R St) k c s = Some (Bad e, s').
Proof. intros H. unfold mbind, R_bind. by rewrite H. Qed.

Lemma bind_mret (a : A) (k : A -> R St B) s : mbind (M := R St) k (mret (M := R St) a) s = k a s.
Proof. done. Qed.

Lemma bind_bind (c : R St A) (j : A -> R St B) (k : B -> R St C) s :
  mbind (M := R St) k (mbind (M := R St) j c) s = mbind (M := R St) (fun a => mbind (M := R St) k (j a)) c s.
Proof. unfold mbind, R_bind. by destruct (c s) as [[[a|e] s']|]. Qed.

Lemma bind_rassert (b : bool) (k : unit -> R St B) s : b = true -> mbind (M := R St) k (rassert b) s = k tt s.
Proof. intros ->. done. Qed.

Lemma bind_whole (k : St -> R St B) s : mbind (M := R St) k get s = k s s.
Proof. done. Qed.

Lemma bind_put s' (k : unit -> R St B) s : mbind (M := R St) k (put s') s = k tt s'.
Proof. done. Qed.

Lemma bind_attempt (c : R St A) (k : result A -> R St B) s r s' :
  c s = Some (r, s') -> mbind (M := R St) k (attempt c) s = k r s'.
Proof. intros H. unfold mbind, R_bind, attempt. by rewrite H. Qed.

End Laws.

(** ** Files of bytes

    What a filesystem needs of the block device it is on: [vfsFileReadAt] gives
    the bytes it read, [vfsFileWriteAt] their number, and either may be less
    than what was asked for. *)

Class Device (D : Type) : Type := {
  vfsFileReadAt : Z -> Z -> R D (list Z);
  vfsFileWriteAt : Z -> list Z -> R D Z;
}.

(** A device that works: it has content, and inside its capacity it reads and
    writes what was asked for. *)
Class DeviceLaws (D : Type) `{Device D} : Type := {
  content : D -> Z -> Z;
  capacity : D -> Z;
  content_byte : forall d a, is_char (content d a);
  read_ok : forall d off n, 0 <= off -> 0 <= n -> off + n <= capacity d ->
    vfsFileReadAt off n d = Some (Good (bytes_at (content d) off n), d);
  write_ok : forall d off l, 0 <= off -> off + Z.of_nat (length l) <= capacity d -> Forall is_char l ->
    exists d', vfsFileWriteAt off l d = Some (Good (Z.of_nat (length l)), d') /\
      capacity d' = capacity d /\ forall a, content d' a = put_bytes (content d) off l a;
}.

(** A disk in memory. *)
Record RamDisk := mkDisk { disk_bytes : Z -> Z; disk_size : Z }.

#[global] Instance ram_device : Device RamDisk := {
  vfsFileReadAt off n d :=
    Some (Good (bytes_at (fun a => u8 (disk_bytes d a)) off (Z.max 0 (Z.min n (disk_size d - off)))), d);
  vfsFileWriteAt off l d :=
    if off + Z.of_nat (length l) <=? disk_size d
    then Some (Good (Z.of_nat (length l)), mkDisk (put_bytes (disk_bytes d) off l) (disk_size d))
    else Some (Bad ENOSPC, d);
}.

#[global, refine] Instance ram_laws : DeviceLaws RamDisk := {
  content d a := u8 (disk_bytes d a);
  capacity := disk_size;
}.
Proof.
  - intros d a. apply wrap_range. lia.
  - intros d off n H0 Hn Hc. cbn. rewrite Z.min_l, Z.max_r by lia. done.
  - intros d off l H0 Hc Hl. cbn. rewrite (proj2 (Z.leb_le _ _)) by done. eexists. split; [done|split; [done|]].
    intros a. cbn. unfold put_bytes. destruct ((off <=? a) && (a <? off + Z.of_nat (length l))) eqn:E; [|done].
    destruct (l !! Z.to_nat (a - off)) as [c|] eqn:Ec; cbn; [|done].
    rewrite Forall_lookup in Hl. specialize (Hl _ _ Ec). unfold is_char in Hl. by apply wrap_small.
Defined.

End Errors.
