(* ===== verification/MinixMaps.v ===== *)
(** * MinixMaps: the bitmaps of the Minix filesystem, [kernel/src/files/minix/maps.c]

    The maps are read from and written to the block device; [maps_lock] makes
    each operation one step. *)
From S2P Require Import Prelude Util Errors.
Import Errors.

Module MinixMaps.

(** ** Definitions *)

Definition MINIX_BLOCK_SIZE : Z := 1024.
Definition MAX_MAPS_READ_SIZE : Z := Z.shiftl 1 16.

(** What the operations use of [Minix3Superblock]. *)
Record Minix3Superblock := mkSuper {
  ninodes : Z;
  imap_blocks : Z;
  zmap_blocks : Z;
  zones : Z;
}.

(** One byte: the free bit that was found with its position, or the size and
    the position after the byte. *)
Fixpoint scan_bits (n : nat) (byte j size position : Z) : (Z * Z) + (Z * Z) :=
  match n with
  | O => inr (size, position)
  | S n' =>
      if 0 <? size then
        if Z.land (Z.shiftr byte j) 1 =? 0 then inl (j, position)
        else scan_bits n' byte (j + 1) (size - 1) (position + 1)
      else inr (size, position)
  end.

(** The bytes that were read; [i] is the index of the first. *)
Fixpoint scan_bytes (tmp_buffer : list Z) (i size position : Z) : (Z * Z * Z) + (Z * Z) :=
  match tmp_buffer with
  | [] => inr (size, position)
  | byte :: rest =>
      if 0 <? size then
        match scan_bits 8 byte 0 size position with
        | inl (j, position) => inl (i, Z.lor byte (Z.shiftl 1 j), position)
        | inr (size, position) => scan_bytes rest (i + 1) size position
        end
      else inr (size, position)
  end.

Section Device.
Context {D : Type} `{Device D}.

Fixpoint map_loop (fuel : nat) (offset size bytes position : Z) : R D Z :=
  match fuel with
  | O => undefined
  | S fuel' =>
      if 0 <? bytes then
        tmp_buffer ← vfsFileReadAt offset (Util.umin MAX_MAPS_READ_SIZE bytes);
        let tmp_size := Z.of_nat (length tmp_buffer) in
        if tmp_size =? 0 then bad EIO
        else
          match scan_bytes tmp_buffer 0 size position with
          | inl (i, byte, position) =>
              tmp_size ← vfsFileWriteAt (offset + i) [byte];
              if tmp_size =? 0 then bad EIO else mret position
          | inr (size, position) => map_loop fuel' (offset + tmp_size) size (bytes - tmp_size) position
          end
      else bad ENOSPC
  end.

(** Every round consumes a byte. *)
Definition genericMinixGetBitMap (offset size : Z) : R D Z :=
  let bytes := (size + 7) / 8 in
  map_loop (S (Z.to_nat bytes)) offset size bytes 0.

Definition getFreeMinixInode (sb : Minix3Superblock) : R D Z :=
  genericMinixGetBitMap (2 * MINIX_BLOCK_SIZE) (ninodes sb).

Definition getFreeMinixZone (sb : Minix3Superblock) : R D Z :=
  genericMinixGetBitMap ((2 + imap_blocks sb) * MINIX_BLOCK_SIZE) (zones sb).

Definition genericMinixClearBitMap (offset position : Z) : R D unit :=
  tmp_buffer ← vfsFileReadAt (offset + position / 8) 1;
  match tmp_buffer with
  | [] => bad EIO
  | byte :: _ =>
      size ← vfsFileWriteAt (offset + position / 8) [Z.ldiff byte (Z.shiftl 1 (position mod 8))];
      if size =? 0 then bad EIO else mret tt
  end.

Definition freeMinixInode (sb : Minix3Superblock) (inode : Z) : R D unit :=
  genericMinixClearBitMap (2 * MINIX_BLOCK_SIZE) inode.

Definition freeMinixZone (sb : Minix3Superblock) (zone : Z) : R D unit :=
  genericMinixClearBitMap ((2 + imap_blocks sb) * MINIX_BLOCK_SIZE) zone.

End Device.

(** ** Searching a predicate *)

(** The first index of [n] from [k] on where [f] is false. *)
Fixpoint first_free (f : Z -> bool) (k : Z) (n : nat) : option Z :=
  match n with
  | O => None
  | S n' => if f k then first_free f (k + 1) n' else Some k
  end.

Lemma first_free_app f k a b :
  first_free f k (a + b) =
  match first_free f k a with Some x => Some x | None => first_free f (k + Z.of_nat a) b end.
Proof.
  revert k. induction a as [|a IH]; intros k; cbn [Nat.add first_free].
  - do 2 f_equal. lia.
  - destruct (f k); [|done]. rewrite IH. destruct (first_free f (k + 1) a); [done|]. f_equal. lia.
Qed.

Lemma first_free_some f k n x : first_free f k n = Some x ->
  k <= x < k + Z.of_nat n /\ f x = false /\ forall y, k <= y < x -> f y = true.
Proof.
  revert k. induction n as [|n IH]; intros k; cbn [first_free]; [done|]. destruct (f k) eqn:E.
  - intros Hx. destruct (IH _ Hx) as (? & ? & Hy). split; [lia|]. split; [done|]. intros y Hr.
    destruct (Z.eq_dec y k) as [->|]; [done|]. apply Hy. lia.
  - intros [= <-]. split; [lia|]. split; [done|]. lia.
Qed.

Lemma first_free_none f k n : first_free f k n = None -> forall y, k <= y < k + Z.of_nat n -> f y = true.
Proof.
  revert k. induction n as [|n IH]; intros k; cbn [first_free]; [lia|]. destruct (f k) eqn:E; [|done].
  intros Hn y Hy. destruct (Z.eq_dec y k) as [->|]; [done|]. apply (IH _ Hn). lia.
Qed.

(** ** The scans *)

(** Bit [k] of the map at [off]. *)
Definition bit (c : Z -> Z) (off k : Z) : bool := Z.testbit (c (off + k / 8)) (k mod 8).

Lemma testbit_land b j : 0 <= j -> (Z.land (Z.shiftr b j) 1 =? 0) = negb (Z.testbit b j).
Proof.
  intros Hj. change 1 with (Z.ones 1). rewrite Z.land_ones, Z.shiftr_div_pow2 by lia.
  rewrite Z.testbit_odd, Z.shiftr_div_pow2, <- Z.bit0_mod, Z.bit0_odd by lia. by destruct (Z.odd _).
Qed.

Lemma bit_at c off q j : 0 <= j < 8 -> bit c off (8 * q + j) = Z.testbit (c (off + q)) j.
Proof.
  intros Hj. unfold bit. replace ((8 * q + j) / 8) with q by (Z.div_mod_to_equations; lia).
  f_equal. Z.div_mod_to_equations. lia.
Qed.

Lemma scan_bits_ok c off q n j size :
  Z.of_nat n + j = 8 -> 0 <= j -> 0 <= size ->
  scan_bits n (c (off + q)) j size (8 * q + j) =
  let m := Nat.min n (Z.to_nat size) in
  match first_free (bit c off) (8 * q + j) m with
  | Some p => inl (p - 8 * q, p)
  | None => inr (size - Z.of_nat m, 8 * q + j + Z.of_nat m)
  end.
Proof.
  revert j size. induction n as [|n IH]; intros j size Hn Hj Hs; cbn [scan_bits].
  - cbn. f_equal. f_equal; lia.
  - destruct (Z.ltb_spec 0 size) as [Hs0|Hs0].
    + replace (Nat.min (S n) (Z.to_nat size)) with (S (Nat.min n (Z.to_nat (size - 1)))) by lia. cbn zeta.
      cbn [first_free]. rewrite bit_at, testbit_land by lia. destruct (Z.testbit _ j); cbn [negb].
      * replace (8 * q + j + 1) with (8 * q + (j + 1)) by lia. rewrite IH by lia. cbn zeta.
        destruct (first_free _ _ _); [done|]. f_equal. f_equal; lia.
      * f_equal. f_equal. lia.
    + replace (Nat.min (S n) (Z.to_nat size)) with 0%nat by lia. cbn. f_equal. f_equal; lia.
Qed.

Lemma bytes_at_cons f a n : bytes_at f a (Z.of_nat (S n)) = f a :: bytes_at f (a + 1) (Z.of_nat n).
Proof.
  rewrite !bytes_at_tab, (tab_split 1) by lia.
  change (tab 1 (fun i => f (a + i))) with [f (a + 0)]. rewrite Z.add_0_r. cbn [app]. f_equal.
  replace (Z.of_nat (S n) - 1) with (Z.of_nat n) by lia. apply tab_ext. intros i _. f_equal. lia.
Qed.

(** The byte with the bit of position [p] set. *)
Definition set_bit (c : Z -> Z) (off p : Z) : Z := Z.lor (c (off + p / 8)) (Z.shiftl 1 (p mod 8)).

Lemma scan_bytes_ok c off m q i size :
  0 <= size ->
  scan_bytes (bytes_at c (off + q) (Z.of_nat m)) i size (8 * q) =
  let n := Nat.min (8 * m) (Z.to_nat size) in
  match first_free (bit c off) (8 * q) n with
  | Some p => inl (i + (p / 8 - q), set_bit c off p, p)
  | None => inr (size - Z.of_nat n, 8 * q + Z.of_nat n)
  end.
Proof.
  revert q i size. induction m as [|m IH]; intros q i size Hs.
  - cbn zeta. replace (Nat.min (8 * 0) (Z.to_nat size)) with 0%nat by lia. cbn [first_free].
    change (bytes_at c (off + q) (Z.of_nat 0)) with (@nil Z). cbn [scan_bytes]. f_equal. f_equal; lia.
  - rewrite bytes_at_cons. cbn [scan_bytes]. destruct (Z.ltb_spec 0 size) as [Hs0|Hs0].
    2: { cbn zeta. replace (Nat.min (8 * S m) (Z.to_nat size)) with 0%nat by lia. cbn [first_free]. f_equal. f_equal; lia. }
    pose proof (scan_bits_ok c off q 8 0 size ltac:(lia) ltac:(lia) Hs) as E. rewrite Z.add_0_r in E. rewrite E. clear E.
    cbn zeta. set (k := Nat.min 8 (Z.to_nat size)).
    replace (Nat.min (8 * S m) (Z.to_nat size)) with (k + Nat.min (8 * m) (Z.to_nat (size - Z.of_nat k)))%nat by lia.
    rewrite first_free_app. destruct (first_free (bit c off) (8 * q) k) as [p|] eqn:Ep.
    + apply first_free_some in Ep as (Hp & _). f_equal.
      assert (Hd : p / 8 = q) by (Z.div_mod_to_equations; lia). unfold set_bit. rewrite Hd.
      repeat f_equal; [lia|]. Z.div_mod_to_equations. lia.
    + destruct (Z.eq_dec (size - Z.of_nat k) 0) as [E0|E0].
      * rewrite E0. replace (Nat.min (8 * m) (Z.to_nat 0)) with 0%nat by lia. cbn [first_free].
        destruct (bytes_at c (off + q + 1) (Z.of_nat m)); cbn [scan_bytes Z.ltb Z.compare]; f_equal; f_equal; lia.
      * assert (Hk : k = 8%nat) by lia. rewrite Hk in *. replace (8 * q + Z.of_nat 8) with (8 * (q + 1)) by lia.
        replace (off + q + 1) with (off + (q + 1)) by lia. rewrite IH by lia. cbn zeta.
        destruct (first_free (bit c off) (8 * (q + 1)) (Nat.min (8 * m) (Z.to_nat (size - Z.of_nat 8)))).
        -- f_equal. f_equal. f_equal. lia.
        -- f_equal. f_equal; lia.
Qed.

Section Laws.
Context {D : Type} `{DeviceLaws D}.

(** What finding a bit does to the disk. *)
Definition bit_taken (off p : Z) (d d' : D) : Prop :=
  capacity d' = capacity d /\
  forall a, content d' a = if a =? off + p / 8 then set_bit (content d) off p else content d a.

Lemma set_bit_char c off p : (forall a, is_char (c a)) -> is_char (set_bit c off p).
Proof.
  intros Hc. unfold set_bit. specialize (Hc (off + p / 8)). unfold is_char in *.
  rewrite Z.shiftl_mul_pow2, Z.mul_1_l by (apply Z.mod_pos_bound; lia).
  pose proof (Z.mod_pos_bound p 8 ltac:(lia)) as Hm. 
  assert (H2 : 0 <= 2 ^ (p mod 8)) by (apply Z.pow_nonneg; lia).
  split; [apply Z.lor_nonneg; lia|].
  assert (Hlt : forall x y, 0 <= x < 256 -> 0 <= y < 256 -> Z.lor x y < 256).
  { intros x y Hx Hy. destruct (Z.eq_dec (Z.lor x y) 0); [lia|]. change 256 with (2 ^ 8). apply Z.log2_lt_pow2.
    - pose proof (proj2 (Z.lor_nonneg x y)). lia.
    - rewrite Z.log2_lor by lia. apply Z.max_lub_lt; [destruct (Z.eq_dec x 0) as [->|]|destruct (Z.eq_dec y 0) as [->|]];
        try (cbn; lia); apply Z.log2_lt_pow2; lia. }
  apply Hlt; [lia|]. split; [lia|]. apply (Z.pow_lt_mono_r 2 (p mod 8) 8); lia.
Qed.

Lemma map_loop_ok off fuel q size (d : D) :
  0 <= off -> 0 <= q -> 0 <= size -> off + q + (size + 7) / 8 <= capacity d -> (Z.to_nat ((size + 7) / 8) < fuel)%nat ->
  match first_free (bit (content d) off) (8 * q) (Z.to_nat size) with
  | Some p => exists d', map_loop fuel (off + q) size ((size + 7) / 8) (8 * q) d = Some (Good p, d') /\ bit_taken off p d d'
  | None => map_loop fuel (off + q) size ((size + 7) / 8) (8 * q) d = Some (Bad ENOSPC, d)
  end.
Proof.
  intros Ho. revert q size. induction fuel as [|fuel IH]; intros q size Hq Hs Hcap Hf; [lia|].
  cbn [map_loop]. destruct (Z.ltb_spec 0 ((size + 7) / 8)) as [Hb|Hb].
  2: { assert (size = 0) as -> by (Z.div_mod_to_equations; lia). done. }
  set (m := Util.umin MAX_MAPS_READ_SIZE ((size + 7) / 8)).
  assert (Hm : 0 < m <= (size + 7) / 8).
  { unfold m. rewrite Util.umin_spec. change MAX_MAPS_READ_SIZE with 65536. lia. }
  clearbody m.
  assert (Hrd : vfsFileReadAt (off + q) m d = Some (Good (bytes_at (content d) (off + q) m), d)) by (apply read_ok; lia).
  rewrite (bind_good _ _ _ _ _ Hrd).
  assert (Hlen : length (bytes_at (content d) (off + q) m) = Z.to_nat m) by (unfold bytes_at; by rewrite length_fmap, length_seqZ).
  rewrite Hlen. rewrite (proj2 (Z.eqb_neq _ _)) by lia.
  pose proof (scan_bytes_ok (content d) off (Z.to_nat m) q 0 size Hs) as Es. rewrite Z2Nat.id in Es by lia.
  rewrite Es. clear Es. cbn zeta.
  set (n := Nat.min (8 * Z.to_nat m) (Z.to_nat size)).
  replace (Z.to_nat size) with (n + Z.to_nat (size - Z.of_nat n))%nat by lia.
  rewrite first_free_app. destruct (first_free (bit (content d) off) (8 * q) n) as [p|] eqn:Ep.
  - apply first_free_some in Ep as (Hp & _). 
    destruct (write_ok d (off + q + (0 + (p / 8 - q))) [set_bit (content d) off p]) as (d' & Hw & Hc & Hct).
    + Z.div_mod_to_equations; lia.
    + cbn. Z.div_mod_to_equations. lia.
    + constructor; [apply set_bit_char, content_byte|constructor].
    + exists d'. rewrite (bind_good _ _ _ _ _ Hw). cbn. split; [done|]. split; [done|]. intros a. rewrite Hct.
      unfold put_bytes. cbn [length]. replace (off + q + (0 + (p / 8 - q))) with (off + p / 8) by lia.
      destruct (Z.eqb_spec a (off + p / 8)) as [->|Hne].
      * rewrite Z.leb_refl, (proj2 (Z.ltb_lt _ _)), Z.sub_diag by lia. done.
      * destruct (Z.leb_spec (off + p / 8) a), (Z.ltb_spec a (off + p / 8 + Z.of_nat 1)); cbn [andb]; try done. lia.
  - rewrite Z2Nat.id by lia.
    destruct (Z.eq_dec (size - Z.of_nat n) 0) as [E0|E0].
    + rewrite E0. cbn [Z.to_nat first_free]. replace ((size + 7) / 8 - m) with 0 by (Z.div_mod_to_equations; lia).
      destruct fuel as [|fuel]; [lia|]. done.
    + assert (Hn : Z.of_nat n = 8 * m) by lia. rewrite Hn.
      replace ((size + 7) / 8 - m) with ((size - 8 * m + 7) / 8) by (Z.div_mod_to_equations; lia).
      replace (8 * q + 8 * m) with (8 * (q + m)) by lia. replace (off + q + m) with (off + (q + m)) by lia.
      apply IH; try lia; Z.div_mod_to_equations; lia.
Qed.

Lemma bit_taken_bit off p d d' k : 0 <= p -> 0 <= k -> bit_taken off p d d' ->
  bit (content d') off k = (k =? p) || bit (content d) off k.
Proof.
  intros Hp Hk [_ Hc]. unfold bit. rewrite Hc. pose proof (Z.mod_pos_bound k 8 ltac:(lia)). pose proof (Z.mod_pos_bound p 8 ltac:(lia)).
  destruct (Z.eqb_spec (off + k / 8) (off + p / 8)) as [E|E].
  - unfold set_bit. rewrite Z.lor_spec, Z.shiftl_spec by lia. replace (off + p / 8) with (off + k / 8) by lia.
    rewrite orb_comm. f_equal. destruct (Z.eqb_spec k p) as [->|Hne]; [by rewrite Z.sub_diag|].
    assert (k mod 8 - p mod 8 <> 0) by (Z.div_mod_to_equations; lia).
    destruct (Z.lt_ge_cases (k mod 8) (p mod 8)); [by rewrite Z.testbit_neg_r by lia|].
    change 1 with (Z.ones 1). rewrite Z.testbit_ones_nonneg by lia. lia.
  - destruct (Z.eqb_spec k p) as [->|Hne]; [done|done].
Qed.

Lemma write_byte d a b : 0 <= a < capacity d -> is_char b ->
  exists d', vfsFileWriteAt a [b] d = Some (Good 1, d') /\ capacity d' = capacity d /\
    forall x, content d' x = if x =? a then b else content d x.
Proof.
  intros Ha Hb. destruct (write_ok d a [b]) as (d' & Hw & Hc & Hct); [lia|cbn; lia|by constructor|].
  exists d'. split; [done|split; [done|]]. intros x. rewrite Hct. unfold put_bytes. cbn [length].
  destruct (Z.eqb_spec x a) as [->|Hne].
  - rewrite Z.leb_refl, (proj2 (Z.ltb_lt _ _)), Z.sub_diag by lia. done.
  - destruct (Z.leb_spec a x), (Z.ltb_spec x (a + Z.of_nat 1)); cbn [andb]; try done. lia.
Qed.

Lemma clear_ok off p d : 0 <= off -> 0 <= p -> off + p / 8 < capacity d ->
  exists d', genericMinixClearBitMap off p d = Some (Good tt, d') /\ capacity d' = capacity d /\
    forall x, content d' x = if x =? off + p / 8
                             then Z.ldiff (content d x) (Z.shiftl 1 (p mod 8)) else content d x.
Proof.
  intros Ho Hp Hc. unfold genericMinixClearBitMap. assert (0 <= p / 8) by (apply Z.div_pos; lia).
  assert (Hr : vfsFileReadAt (off + p / 8) 1 d = Some (Good [content d (off + p / 8)], d)).
  { rewrite read_ok by lia. by rewrite (bytes_at_cons _ _ 0). }
  rewrite (bind_good _ _ _ _ _ Hr).
  destruct (write_byte d (off + p / 8) (Z.ldiff (content d (off + p / 8)) (Z.shiftl 1 (p mod 8)))) as (d' & Hw & Hcd & Hct).
  - lia.
  - pose proof (content_byte d (off + p / 8)) as Hb. unfold is_char in *. pose proof (Z.mod_pos_bound p 8 ltac:(lia)).
    split; [apply Z.ldiff_nonneg; lia|]. apply (Z.le_lt_trans _ (content d (off + p / 8))); [|lia]. apply Z.ldiff_le; [lia|].
    apply Z.bits_inj'. intros i _. rewrite !Z.ldiff_spec, Z.bits_0. by destruct (Z.testbit (content d (off + p / 8)) i); rewrite ?andb_false_r.
  - rewrite (bind_good _ _ _ _ _ Hw). exists d'. split; [done|split; [done|]]. intros x. rewrite Hct.
    by destruct (Z.eqb_spec x (off + p / 8)) as [->|].
Qed.

(** ** Properties *)

(** [getFreeMinixZone] takes the first free zone of the map: exactly its bit
    is set and no other byte of the disk changes.  When every zone is taken it
    fails with [ENOSPC] and the disk is as it was. *)
Theorem getFreeMinixZone_first sb d :
  0 <= imap_blocks sb -> 0 <= zones sb ->
  (2 + imap_blocks sb) * MINIX_BLOCK_SIZE + (zones sb + 7) / 8 <= capacity d ->
  let off := (2 + imap_blocks sb) * MINIX_BLOCK_SIZE in
  match first_free (bit (content d) off) 0 (Z.to_nat (zones sb)) with
  | Some p => exists d', getFreeMinixZone sb d = Some (Good p, d') /\ capacity d' = capacity d /\
      (forall k, 0 <= k -> bit (content d') off k = (k =? p) || bit (content d) off k) /\
      (forall a, a <> off + p / 8 -> content d' a = content d a)
  | None => getFreeMinixZone sb d = Some (Bad ENOSPC, d)
  end.
Proof.
  intros Hi Hz Hcap off. unfold getFreeMinixZone, genericMinixGetBitMap. fold off. fold off in Hcap.
  pose proof (map_loop_ok off (S (Z.to_nat ((zones sb + 7) / 8))) 0 (zones sb) d) as Hl. rewrite Z.add_0_r in Hl.
  change (8 * 0) with 0 in Hl. unfold MINIX_BLOCK_SIZE in off. specialize (Hl ltac:(unfold off; lia) ltac:(lia) Hz Hcap ltac:(lia)).
  destruct (first_free _ 0 _) as [p|] eqn:Ep; [|exact Hl]. destruct Hl as (d' & Hr & Hb). exists d'.
  apply first_free_some in Ep as (Hp & _). split; [exact Hr|]. split; [apply Hb|]. split.
  - intros k Hk. apply bit_taken_bit; [lia|done|exact Hb].
  - intros a Ha. rewrite (proj2 Hb), (proj2 (Z.eqb_neq _ _)) by exact Ha. done.
Qed.

(** Giving back the zone that was found restores every byte of the disk. *)
Theorem zone_get_free_roundtrip sb d p d' :
  0 <= imap_blocks sb -> 0 <= zones sb ->
  (2 + imap_blocks sb) * MINIX_BLOCK_SIZE + (zones sb + 7) / 8 <= capacity d ->
  getFreeMinixZone sb d = Some (Good p, d') ->
  exists d'', freeMinixZone sb p d' = Some (Good tt, d'') /\ forall a, content d'' a = content d a.
Proof.
  intros Hi Hz Hcap Hget. unfold getFreeMinixZone, genericMinixGetBitMap in Hget.
  pose proof (map_loop_ok ((2 + imap_blocks sb) * MINIX_BLOCK_SIZE) (S (Z.to_nat ((zones sb + 7) / 8))) 0 (zones sb) d) as Hl.
  rewrite Z.add_0_r in Hl. change (8 * 0) with 0 in Hl.
  specialize (Hl ltac:(unfold MINIX_BLOCK_SIZE; lia) ltac:(lia) Hz Hcap ltac:(lia)).
  destruct (first_free _ 0 _) as [p'|] eqn:Ep; [|rewrite Hl in Hget; discriminate].
  destruct Hl as (d1 & Hr & Hc & Hb). rewrite Hr in Hget. injection Hget as <- <-.
  apply first_free_some in Ep as (Hp & Hfree & _). unfold freeMinixZone.
  assert (Hd : 0 <= p' / 8 < (zones sb + 7) / 8) by (Z.div_mod_to_equations; lia).
  destruct (clear_ok ((2 + imap_blocks sb) * MINIX_BLOCK_SIZE) p' d1) as (d2 & Hr2 & _ & Hb2);
    [unfold MINIX_BLOCK_SIZE; lia|lia|rewrite Hc; lia|].
  exists d2. split; [exact Hr2|]. intros a. rewrite Hb2, Hb.
  destruct (Z.eqb_spec a ((2 + imap_blocks sb) * MINIX_BLOCK_SIZE + p' / 8)) as [->|]; [|done].
  unfold set_bit. unfold bit in Hfree. pose proof (Z.mod_pos_bound p' 8 ltac:(lia)).
  apply Z.bits_inj'. intros i Hi'. rewrite Z.ldiff_spec, Z.lor_spec.
  destruct (Z.testbit (Z.shiftl 1 (p' mod 8)) i) eqn:Et; cbn [negb]; [|by rewrite orb_false_r, andb_true_r].
  rewrite andb_false_r. rewrite Z.shiftl_spec in Et by done.
  assert (i = p' mod 8) as ->; [|by rewrite Hfree].
  destruct (Z.lt_ge_cases i (p' mod 8)); [by rewrite Z.testbit_neg_r in Et by lia|].
  change 1 with (Z.ones 1) in Et. rewrite Z.testbit_ones_nonneg in Et by lia. lia.
Qed.

End Laws.

(** ** Witnesses and examples *)

(** A disk of ten blocks with one block of each map; the first two bits of the
    zone map are taken, as [mkfs] leaves them. *)
Definition demo_super : Minix3Superblock := mkSuper 16 1 1 10.
Definition demo_disk : RamDisk := mkDisk (fun a => if a =? 3072 then 3 else 0) 10240.

Lemma getFreeMinixZone_first_witness :
  exists d', getFreeMinixZone demo_super demo_disk = Some (Good 2, d') /\ capacity d' = capacity demo_disk /\
    (forall k, 0 <= k -> bit (content d') 3072 k = (k =? 2) || bit (content demo_disk) 3072 k) /\
    (forall a, a <> 3072 + 2 / 8 -> content d' a = content demo_disk a).
Proof.
  pose proof (getFreeMinixZone_first demo_super demo_disk ltac:(vm_compute; discriminate) ltac:(vm_compute; discriminate)
    ltac:(vm_compute; discriminate)) as H. cbn zeta in H.
  change ((2 + imap_blocks demo_super) * MINIX_BLOCK_SIZE) with 3072 in H.
  assert (E : first_free (bit (content demo_disk) 3072) 0 (Z.to_nat (zones demo_super)) = Some 2) by (vm_compute; reflexivity).
  rewrite E in H. exact H.
Defined.

Definition demo_taken : RamDisk :=
  match getFreeMinixZone demo_super demo_disk with Some (_, d) => d | None => demo_disk end.

Lemma zone_get_free_roundtrip_witness :
  exists d'', freeMinixZone demo_super 2 demo_taken = Some (Good tt, d'') /\
    forall a, content d'' a = content demo_disk a.
Proof.
  apply (zone_get_free_roundtrip demo_super demo_disk); [vm_compute; discriminate..|]. unfold demo_taken.
  destruct (getFreeMinixZone demo_super demo_disk) as [[r d]|] eqn:E; [|vm_compute in E; discriminate].
  do 2 f_equal. vm_compute in E. by injection E as <- _.
Defined.

(** The number of the zone is the number of its bit, and zone 2 is the block of
    the inode map: the map of a disk starts with the first data zone. *)
Example new_zone_is_inode_map :
  fst <$> getFreeMinixZone demo_super demo_disk = Some (Good 2) /\ 2 * MINIX_BLOCK_SIZE = 2048.
Proof. split; vm_compute; reflexivity. Qed.

End MinixMaps.
