(* ===== verification/MinixNode.v ===== *)
(** * MinixNode: the files of the Minix filesystem,
    [kernel/src/files/minix/node.c] and [kernel/src/files/minix/super.c]

    A file is ten zones: seven data zones, and one table of each depth.  The
    zone walk visits the entries in order and gives each to a callback, which
    may change it; [SUCCESS_EXIT] ends a walk.  The node locks make each
    operation one step.  A buffer in the kernel or of a process is a range of
    [memory]. *)
From S2P Require Import Prelude Util CString Errors MinixMaps.
Import Errors MinixMaps.

Module MinixNode.

(** ** Layout *)

Fixpoint le_bytes (n : nat) (v : Z) : list Z :=
  match n with O => [] | S n' => v mod 256 :: le_bytes n' (v / 256) end.

(** The little-endian integer of [n] bytes at an offset of a buffer. *)
Definition le_at (n : nat) (buf : list Z) (off : Z) : Z := load_le n (fun i => default 0 (buf !! Z.to_nat i)) off.

Definition MINIX3_MAGIC : Z := 0x4d5a.
Definition MINIX_NUM_IPTRS : nat := 256.
Definition MINIX_NUM_IPTRS_LOG2 : Z := 8.
Definition MAX_LOOKUP_READ_SIZE : Z := Z.shiftl 1 16.

Definition INODE_SIZE : Z := 64.
Definition DIR_ENTRY_SIZE : Z := 64.

(** [VfsNode.stat] and the zones. *)
Record MinixVfsNode := mkNode {
  id : Z;
  mode : Z;
  nlinks : Z;
  uid : Z;
  gid : Z;
  size : Z;
  atime : Z;
  mtime : Z;
  ctime : Z;
  node_zones : list Z;
}.

(** [MinixInode]. *)
Definition encode_inode (n : MinixVfsNode) : list Z :=
  le_bytes 2 (mode n) ++ le_bytes 2 (nlinks n) ++ le_bytes 2 (uid n) ++ le_bytes 2 (gid n) ++
  le_bytes 4 (size n) ++ le_bytes 4 (atime n / 1000000000) ++ le_bytes 4 (mtime n / 1000000000) ++
  le_bytes 4 (ctime n / 1000000000) ++ concat (le_bytes 4 <$> node_zones n).

Definition decode_inode (id : Z) (b : list Z) : MinixVfsNode :=
  mkNode id (le_at 2 b 0) (le_at 2 b 2) (le_at 2 b 4) (le_at 2 b 6) (le_at 4 b 8)
    (le_at 4 b 12 * 1000000000) (le_at 4 b 16 * 1000000000) (le_at 4 b 20 * 1000000000)
    ((fun k => le_at 4 b (24 + 4 * k)) <$> seqZ 0 10).

Definition offsetForINode (sb : Minix3Superblock) (inode : Z) : Z :=
  (2 + imap_blocks sb + zmap_blocks sb) * MINIX_BLOCK_SIZE + (inode - 1) * INODE_SIZE.

Definition offsetForZone (zone : Z) : Z := zone * MINIX_BLOCK_SIZE.

(** [uint32_t table[MINIX_NUM_IPTRS]]. *)
Definition table_of (b : list Z) : list Z := (fun k => le_at 4 b (4 * k)) <$> seqZ 0 256.
Definition bytes_of_table (t : list Z) : list Z := concat (le_bytes 4 <$> t).

Section Device.
Context {D : Type} `{Device D}.

Definition minixReadNode (sb : Minix3Superblock) (id : Z) : R D MinixVfsNode :=
  b ← vfsFileReadAt (offsetForINode sb id) INODE_SIZE;
  if negb (Z.of_nat (length b) =? INODE_SIZE) then bad EIO else mret (decode_inode id b).

Definition minixWriteNode (sb : Minix3Superblock) (n : MinixVfsNode) : R D unit :=
  tmp_size ← vfsFileWriteAt (offsetForINode sb (id n)) (encode_inode n);
  if negb (tmp_size =? INODE_SIZE) then bad EIO else mret tt.

Definition minixNewNode (sb : Minix3Superblock) : R D Z := getFreeMinixInode sb.

Definition minixFreeNode (sb : Minix3Superblock) (n : MinixVfsNode) : R D unit :=
  rassert (forallb (fun z => z =? 0) (node_zones n));;
  freeMinixInode sb (id n).

Definition createMinixVfsSuperblock : R D (Minix3Superblock * MinixVfsNode) :=
  b ← vfsFileReadAt MINIX_BLOCK_SIZE 32;
  if negb (Z.of_nat (length b) =? 32) then bad EIO
  else if negb (le_at 2 b 24 =? MINIX3_MAGIC) then bad EINVAL
  else
    let sb := mkSuper (le_at 4 b 0) (le_at 2 b 6) (le_at 2 b 8) (le_at 4 b 20) in
    root ← minixReadNode sb 1;
    mret (sb, root).

(** ** The zone walk *)

(** What the callbacks work on: the disk, the buffer that is read from or
    written to, and the request. *)
Record request := mkRq {
  disk : D;
  memory : Z -> Z;
  buffer : Z;
  left : Z;
}.

(** A callback sees a zone and the [changed] flag; it is given the position,
    the size of the entry, and the [pre] and [post] flags. *)
Record entry_state := mkEntry { zone : Z; entry_changed : bool; rq : request }.
Definition callback : Type := Z -> Z -> bool -> bool -> R entry_state unit.

(** The state of the scan of a table. *)
Record walk := mkWalk { tab : list Z; changed : bool; pos : Z; walk_rq : request }.

Definition call (cb : callback) (i : nat) (size : Z) (pre post : bool) : R walk unit := fun w =>
  z ← tab w !! i;
  '(r, e) ← cb (pos w) size pre post (mkEntry z (changed w) (walk_rq w));
  Some (r, mkWalk (<[i := zone e]> (tab w)) (entry_changed e) (pos w) (rq e)).

Definition table_entry (i : nat) : R walk Z := fun w => z ← tab w !! i; Some (Good z, w).
Definition advance (size : Z) : R walk unit := fun w => Some (Good tt, mkWalk (tab w) (changed w) (pos w + size) (walk_rq w)).
Definition get_pos : R walk Z := fun w => Some (Good (pos w), w).

Definition level_size (depth : nat) : Z := Z.shiftl MINIX_BLOCK_SIZE (MINIX_NUM_IPTRS_LOG2 * Z.of_nat depth).

(** [rec] walks the table of a zone. *)
Fixpoint minixZoneWalkRecScan (rec : Z -> R walk unit) (cb : callback) (offset : Z) (depth : nat)
    (n i : nat) : R walk unit :=
  match n with
  | O => mret tt
  | S n' =>
      let size := level_size depth in
      p ← get_pos;
      (if offset <? p + size then
         call cb i size true false;;
         z ← table_entry i;
         (if (depth =? 0)%nat || (z =? 0) then call cb i size false false else rec z);;
         call cb i size false true
       else mret tt);;
      advance size;;
      minixZoneWalkRecScan rec cb offset depth n' (S i)
  end.

Definition on_disk {A : Type} : R D A -> R walk A :=
  on (fun w => disk (walk_rq w))
     (fun d w => mkWalk (tab w) (changed w) (pos w)
        (mkRq d (memory (walk_rq w)) (buffer (walk_rq w)) (left (walk_rq w)))).

(** The scan of a table of its own: the table and the flag around it come back. *)
Definition with_table (t : list Z) (c : R walk unit) : R walk (result unit * list Z * bool) := fun w =>
  '(r, w') ← c (mkWalk t false (pos w) (walk_rq w));
  Some (Good (r, tab w', changed w'), mkWalk (tab w) (changed w) (pos w') (walk_rq w')).

(** [minixZoneWalkRec]: [depth] is the depth of the entries of the table. *)
Fixpoint minixZoneWalkRec (cb : callback) (offset : Z) (depth : nat) (indirect_table : Z) : R walk unit :=
  b ← on_disk (vfsFileReadAt (offsetForZone indirect_table) MINIX_BLOCK_SIZE);
  if negb (Z.of_nat (length b) =? MINIX_BLOCK_SIZE) then bad EIO
  else
    '(err, table, changed) ←
      with_table (table_of b)
        (minixZoneWalkRecScan
           (match depth with O => fun _ => undefined | S depth' => minixZoneWalkRec cb offset depth' end)
           cb offset depth MINIX_NUM_IPTRS 0);
    if changed : bool then
      e ← attempt (on_disk (vfsFileWriteAt (offsetForZone indirect_table) (bytes_of_table table)));
      give (if isError err then err else match e with Good _ => Good tt | Bad k => Bad k end)
    else give err.

(** The scan of the [n] zones of a node from [first] on. *)
Definition scan_node (cb : callback) (offset : Z) (depth n first : nat) : R walk unit :=
  minixZoneWalkRecScan
    (match depth with O => fun _ => undefined | S depth' => minixZoneWalkRec cb offset depth' end)
    cb offset depth n first.

(** The node with its new zones, and the request after the walk. *)
Definition minixZoneWalk (sb : Minix3Superblock) (n : MinixVfsNode) (offset : Z) (cb : callback) :
    R request (result unit * MinixVfsNode) := fun r =>
  '(err, w) ← (scan_node cb offset 0 7 0;;
               scan_node cb offset 1 1 7;;
               scan_node cb offset 2 1 8;;
               scan_node cb offset 3 1 9) (mkWalk (node_zones n) false 0 r);
  let n' := mkNode (id n) (mode n) (nlinks n) (uid n) (gid n) (size n) (atime n) (mtime n) (ctime n) (tab w) in
  if changed w then
    '(e, d) ← minixWriteNode sb n' (disk (walk_rq w));
    Some (Good (if isError err then err else e, n'),
          mkRq d (memory (walk_rq w)) (buffer (walk_rq w)) (left (walk_rq w)))
  else Some (Good (err, n'), walk_rq w).

(** ** Reading and writing *)

Definition get_entry : R entry_state entry_state := get.
Definition put_zone (z : Z) : R entry_state unit := fun e => Some (Good tt, mkEntry z true (rq e)).
Definition put_rq (r : request) : R entry_state unit := fun e => Some (Good tt, mkEntry (zone e) (entry_changed e) r).
Definition entry_disk {A : Type} : R D A -> R entry_state A :=
  on (fun e => disk (rq e))
     (fun d e => mkEntry (zone e) (entry_changed e) (mkRq d (memory (rq e)) (buffer (rq e)) (left (rq e)))).

Definition zero_page : list Z := replicate 1024 0.

(** The zone that a write needs, full of zeros. *)
Definition allocate_zone (sb : Minix3Superblock) : R entry_state unit :=
  new_zone ← entry_disk (getFreeMinixZone sb);
  tmp_size ← entry_disk (vfsFileWriteAt (offsetForZone new_zone) zero_page);
  if negb (tmp_size =? MINIX_BLOCK_SIZE) then bad EIO else put_zone (u32 new_zone).

(** The bytes that move in one entry, and how many. *)
Definition transfer (write : bool) (at_ tmp_size : Z) : R entry_state Z :=
  e ← get_entry;
  let r := rq e in
  if write then
    entry_disk (vfsFileWriteAt at_ (bytes_at (memory r) (buffer r) tmp_size))
  else if zone e =? 0 then
    put_rq (mkRq (disk r) (put_bytes (memory r) (buffer r) (replicate (Z.to_nat tmp_size) 0)) (buffer r) (left r));;
    mret tmp_size
  else
    b ← entry_disk (vfsFileReadAt at_ tmp_size);
    e ← get_entry;
    let r := rq e in
    put_rq (mkRq (disk r) (put_bytes (memory r) (buffer r) b) (buffer r) (left r));;
    mret (Z.of_nat (length b)).

Definition minixRWZoneWalkCallback (sb : Minix3Superblock) (write : bool) (offset : Z) : callback :=
  fun position size pre post =>
  e ← get_entry;
  (if write && pre && (zone e =? 0) && (0 <? left (rq e)) then allocate_zone sb else mret tt);;
  e ← get_entry;
  (if negb pre && negb post && (0 <? left (rq e)) then
     let file_offset := if position <? offset then offset else position in
     let block_offset := file_offset mod MINIX_BLOCK_SIZE in
     let tmp_size := Util.umin (left (rq e)) (position + size - file_offset) in
     tmp_size ← transfer write (offsetForZone (zone e) + block_offset) tmp_size;
     if tmp_size =? 0 then bad EIO
     else
       e ← get_entry;
       let r := rq e in
       put_rq (mkRq (disk r) (memory r) (buffer r + tmp_size) (left r - tmp_size))
   else mret tt);;
  e ← get_entry;
  if left (rq e) =? 0 then bad SUCCESS_EXIT else mret tt.

(** A file: the disk it is on, the memory, and the node. *)
Record file := mkFile { file_disk : D; file_memory : Z -> Z; node : MinixVfsNode }.

Definition on_file_disk {A : Type} : R D A -> R file A :=
  on file_disk (fun d f => mkFile d (file_memory f) (node f)).

Definition set_size (n : MinixVfsNode) (s : Z) : MinixVfsNode :=
  mkNode (id n) (mode n) (nlinks n) (uid n) (gid n) s (atime n) (mtime n) (ctime n) (node_zones n).

Definition put_size (s : Z) : R file unit := fun f => Some (Good tt, mkFile (file_disk f) (file_memory f) (set_size (node f) s)).

(** [if (err.kind != SUCCESS_EXIT && isError(err))]. *)
Definition failed (r : result unit) : option Z :=
  match r with Good _ => None | Bad k => if k =? SUCCESS_EXIT then None else Some k end.

(** The walk of a request, and what is left of it. *)
Definition walk_file (sb : Minix3Superblock) (buf length offset : Z) (cb : callback) : R file (result unit * Z) := fun f =>
  '(r, rq) ← minixZoneWalk sb (node f) offset cb (mkRq (file_disk f) (file_memory f) buf length);
  match r with
  | Good (err, n) => Some (Good (err, left rq), mkFile (disk rq) (memory rq) n)
  | Bad k => Some (Bad k, mkFile (disk rq) (memory rq) (node f))
  end.

Definition minixReadWrite (sb : Minix3Superblock) (buf offset length : Z) (write : bool) : R file Z :=
  f ← get;
  let s := size (node f) in
  let length := if write then length else if s <? offset then 0 else Util.umin length (s - offset) in
  if length =? 0 then mret 0
  else
    '(err, left) ← walk_file sb buf length offset (minixRWZoneWalkCallback sb write offset);
    match failed err with
    | Some k => bad k
    | None =>
        let length := length - left in
        f ← get;
        (if write && (size (node f) <? u64 (offset + length)) then
           put_size (u64 (offset + length));;
           f ← get;
           attempt (on_file_disk (minixWriteNode sb (node f)));;
           mret tt
         else mret tt);;
        mret length
    end.

Definition minixReadAt (sb : Minix3Superblock) (buf offset length : Z) : R file Z := minixReadWrite sb buf offset length false.
Definition minixWriteAt (sb : Minix3Superblock) (buf offset length : Z) : R file Z := minixReadWrite sb buf offset length true.

(** Reading into a buffer of the kernel: the bytes that were read. *)
Definition read_bytes (sb : Minix3Superblock) (offset length : Z) : R file (list Z) := fun f =>
  '(r, f') ← minixReadAt sb 0 offset length (mkFile (file_disk f) (fun _ => 0) (node f));
  let f'' := mkFile (file_disk f') (file_memory f) (node f') in
  match r with
  | Good n => Some (Good (bytes_at (file_memory f') 0 n), f'')
  | Bad k => Some (Bad k, f'')
  end.

Definition write_bytes (sb : Minix3Superblock) (offset : Z) (b : list Z) : R file Z := fun f =>
  '(r, f') ← minixWriteAt sb 0 offset (Z.of_nat (length b)) (mkFile (file_disk f) (put_bytes (fun _ => 0) 0 b) (node f));
  Some (r, mkFile (file_disk f') (file_memory f) (node f')).

(** ** Truncation *)

Definition minixTruncZoneWalkCallback (sb : Minix3Superblock) (length : Z) : callback :=
  fun position size pre post =>
  e ← get_entry;
  if zone e =? 0 then mret tt
  else if length <=? position then
    if post then entry_disk (freeMinixZone sb (zone e));; put_zone 0 else mret tt
  else if negb pre && negb post then
    rassert (negb (position =? 0));;
    let block_offset := length mod position in
    entry_disk (vfsFileWriteAt (offsetForZone (zone e) + block_offset)
                  (replicate (Z.to_nat (MINIX_BLOCK_SIZE - block_offset)) 0));;
    mret tt
  else mret tt.

Definition minixTrunc (sb : Minix3Superblock) (length : Z) : R file unit :=
  '(err, left) ← walk_file sb 0 0 length (minixTruncZoneWalkCallback sb length);
  match failed err with
  | Some k => bad k
  | None =>
      put_size length;;
      f ← get;
      attempt (on_file_disk (minixWriteNode sb (node f)));;
      mret tt
  end.

(** ** Directories *)

(** The entries of a chunk: the inode and the offset of the one with the name. *)
Fixpoint find_entry (n : nat) (tmp_buffer : list Z) (name : list Z) (offset : Z) : option (Z * Z + Z) :=
  match n with
  | O => Some (inr offset)
  | S n' =>
      let inode := le_at 4 tmp_buffer 0 in
      c ← (if inode =? 0 then Some 1 else CString.Str.strcmp (drop 4 tmp_buffer) name);
      if c =? 0 then Some (inl (inode, offset))
      else find_entry n' (drop 64 tmp_buffer) name (offset + DIR_ENTRY_SIZE)
  end.

Fixpoint lookup_loop (fuel : nat) (sb : Minix3Superblock) (name : list Z) (offset left : Z) : R file (Z * Z) :=
  match fuel with
  | O => undefined
  | S fuel' =>
      if 0 <? left then
        tmp_buffer ← read_bytes sb offset (Util.umin MAX_LOOKUP_READ_SIZE left);
        let tmp_size := Z.of_nat (length tmp_buffer) in
        if tmp_size =? 0 then bad EIO
        else
          match find_entry (Z.to_nat (tmp_size / DIR_ENTRY_SIZE)) tmp_buffer name offset with
          | None => undefined
          | Some (inl found) => mret found
          | Some (inr offset) => lookup_loop fuel' sb name offset (left - tmp_size)
          end
      else bad ENOENT
  end.

Definition minixInternalLookup (sb : Minix3Superblock) (name : list Z) : R file (Z * Z) :=
  f ← get;
  lookup_loop (S (Z.to_nat (size (node f)))) sb name 0 (size (node f)).

Definition minixLookup (sb : Minix3Superblock) (name : list Z) : R file Z :=
  '(inodenum, offset) ← minixInternalLookup sb name;
  mret inodenum.

Definition minixUnlink (sb : Minix3Superblock) (name : list Z) : R file unit :=
  '(inodenum, offset) ← minixInternalLookup sb name;
  f ← get;
  entry ← read_bytes sb (size (node f) - DIR_ENTRY_SIZE) DIR_ENTRY_SIZE;
  if negb (Z.of_nat (length entry) =? DIR_ENTRY_SIZE) then bad EIO
  else
    write_bytes sb offset entry;;
    f ← get;
    minixTrunc sb (size (node f) - DIR_ENTRY_SIZE).

(** The bytes of an entry: a name that is too long is cut. *)
Definition encode_entry (inode : Z) (name : list Z) : list Z :=
  let name := take 59 name in
  le_bytes 4 inode ++ name ++ replicate (60 - length name) 0.

(** [name] is the name without its NUL. *)
Definition minixLink (sb : Minix3Superblock) (name : list Z) (entry_id : Z) : R file unit :=
  err ← attempt (minixInternalLookup sb (name ++ [0]));
  f ← get;
  offset ← match err with
           | Good (inodenum, offset) => mret offset
           | Bad k => if k =? ENOENT then mret (size (node f)) else bad k
           end;
  tmp_size ← write_bytes sb offset (encode_entry entry_id name);
  if negb (tmp_size =? DIR_ENTRY_SIZE) then bad EIO else mret tt.

(** [VfsDirectoryEntry]: three words, the type, and the name with its NUL.  The
    size counts the padding of the structure: the last four bytes, [rest], are
    what the allocation held. *)
Definition encode_vfs_entry (inode offset : Z) (name rest : list Z) : list Z :=
  let len := 32 + Z.of_nat (length name) + 1 in
  le_bytes 8 inode ++ le_bytes 8 offset ++ le_bytes 8 len ++ le_bytes 4 0 ++ name ++ [0] ++ rest.

(** How much of the file was read, and the bytes for the caller's buffer. *)
Definition minixReaddirAt (sb : Minix3Superblock) (rest : list Z) (offset length : Z) : R file (Z * list Z) :=
  entry ← read_bytes sb offset DIR_ENTRY_SIZE;
  let tmp_size := Z.of_nat (List.length entry) in
  if negb (tmp_size =? 0) && negb (tmp_size =? DIR_ENTRY_SIZE) then bad EIO
  else if tmp_size =? 0 then mret (0, [])
  else
    match CString.Str.strlen (drop 4 entry) with
    | None => undefined
    | Some name_len =>
        let e := encode_vfs_entry (le_at 4 entry 0) offset (take name_len (drop 4 entry)) rest in
        mret (tmp_size, take (Z.to_nat length) e)
    end.

End Device.

End MinixNode.
