(* ===== verification/MinixRead.v ===== *)
(** * MinixRead: what the zone walk reads

    The content of a file by its zones, and the proof that [minixReadAt] reads
    it: through three depths of tables, over holes, and from any offset. *)
From S2P Require Import Prelude Util Errors MinixMaps MinixNode.
Import Errors MinixMaps MinixNode.

Module MinixRead.

(** ** The content of a file *)

Definition word (c : Z -> Z) (z k : Z) : Z := load_le 4 c (z * 1024 + 4 * k).

(** The byte [x] of what the entry [z] of a table of the depth covers. *)
Fixpoint entry_byte (c : Z -> Z) (depth : nat) (z x : Z) : Z :=
  if z =? 0 then 0
  else match depth with
       | O => c (z * 1024 + x)
       | S d => entry_byte c d (word c z (x / level_size d)) (x mod level_size d)
       end.

(** The zones of the entry are on the disk. *)
Fixpoint valid_zone (c : Z -> Z) (cap : Z) (depth : nat) (z : Z) : Prop :=
  z = 0 \/
  (0 < z /\ z * 1024 + 1024 <= cap /\
   match depth with
   | O => True
   | S d => forall k, 0 <= k < 256 -> valid_zone c cap d (word c z k)
   end).

Definition file_byte (c : Z -> Z) (zs : list Z) (x : Z) : Z :=
  let z k := default 0 (zs !! k) in
  if x <? 7168 then entry_byte c 0 (z (Z.to_nat (x / 1024))) (x mod 1024)
  else if x <? 7168 + level_size 1 then entry_byte c 1 (z 7%nat) (x - 7168)
  else if x <? 7168 + level_size 1 + level_size 2 then entry_byte c 2 (z 8%nat) (x - 7168 - level_size 1)
  else entry_byte c 3 (z 9%nat) (x - 7168 - level_size 1 - level_size 2).

Definition max_size : Z := 7168 + level_size 1 + level_size 2 + level_size 3.

Record valid_zones (c : Z -> Z) (cap : Z) (zs : list Z) : Prop := {
  v_length : length zs = 10%nat;
  v_zone : forall k z, zs !! k = Some z -> valid_zone c cap (k - 6) z;
}.

Lemma level_0 : level_size 0 = 1024.
Proof. reflexivity. Qed.

Lemma level_S d : level_size (S d) = 256 * level_size d.
Proof.
  unfold level_size, MINIX_NUM_IPTRS_LOG2, MINIX_BLOCK_SIZE. rewrite !Z.shiftl_mul_pow2 by lia.
  replace (8 * Z.of_nat (S d)) with (8 + 8 * Z.of_nat d) by lia. rewrite Z.pow_add_r by lia. lia.
Qed.

Lemma level_pos d : 1024 <= level_size d /\ level_size d mod 1024 = 0.
Proof.
  induction d as [|d [IH1 IH2]]; [by rewrite level_0|]. rewrite level_S. split; [lia|].
  rewrite Zmult_mod, IH2, Z.mul_0_r. done.
Qed.

Section Laws.
Context {D : Type} `{DeviceLaws D} (sb : Minix3Superblock) (offset : Z).
Abbreviation walk := (walk (D := D)).
Abbreviation cb := (minixRWZoneWalkCallback (D := D) sb false offset).

(** ** One step of a read

    [lp] is where the entry starts in the file.  [pos] may be ahead of it: a
    table that was walked counts twice; then the read has started already. *)

Record reading (lp : Z) (w : walk) : Prop := {
  rd_left : 0 < left (walk_rq w);
  rd_align : lp mod 1024 = 0;
  rd_pos : pos w = lp \/ (offset <= lp <= pos w /\ pos w mod 1024 = 0);
}.

(** How many of the bytes up to [lp'] are read, from where. *)
Definition from (lp : Z) : Z := Z.max offset lp.
Definition amount (lp lp' l : Z) : Z := Z.min l (Z.max 0 (lp' - from lp)).

Record moved (G : Z -> Z) (lp n : Z) (w w' : walk) : Prop := {
  mv_disk : disk (walk_rq w') = disk (walk_rq w);
  mv_buffer : buffer (walk_rq w') = buffer (walk_rq w) + n;
  mv_left : left (walk_rq w') = left (walk_rq w) - n;
  mv_memory : forall a, memory (walk_rq w') a =
    if (buffer (walk_rq w) <=? a) && (a <? buffer (walk_rq w) + n)
    then G (from lp + (a - buffer (walk_rq w))) else memory (walk_rq w) a;
  mv_tab : tab w' = tab w;
  mv_changed : changed w' = changed w;
}.

Definition stepped (G : Z -> Z) (lp lp' : Z) (w : walk) (r : result unit) (w' : walk) : Prop :=
  moved G lp (amount lp lp' (left (walk_rq w))) w w' /\
  if left (walk_rq w') =? 0 then r = Bad SUCCESS_EXIT else r = Good tt /\ reading lp' w'.

Definition steps (G : Z -> Z) (lp lp' : Z) (w : walk) (c : R walk unit) : Prop :=
  exists r w', c w = Some (r, w') /\ stepped G lp lp' w r w'.

Lemma amount_range lp lp' l : 0 <= l -> 0 <= amount lp lp' l <= l.
Proof. unfold amount. lia. Qed.

(** Reading on after a part that did not finish the request. *)
Lemma moved_trans G lp lp1 lp2 w w1 w2 :
  lp <= lp1 <= lp2 -> 0 < left (walk_rq w) -> left (walk_rq w1) <> 0 ->
  moved G lp (amount lp lp1 (left (walk_rq w))) w w1 ->
  moved G lp1 (amount lp1 lp2 (left (walk_rq w1))) w1 w2 ->
  moved G lp (amount lp lp2 (left (walk_rq w))) w w2.
Proof.
  intros Hl Hp Hn [A1 A2 A3 A4 A5 A6] [B1 B2 B3 B4 B5 B6].
  rewrite A3 in *. set (l := left (walk_rq w)) in *. set (b := buffer (walk_rq w)) in *.
  assert (Hn1 : amount lp lp1 l = Z.max 0 (lp1 - from lp)) by (unfold amount in *; lia).
  assert (Ho : from lp1 = from lp + amount lp lp1 l) by (rewrite Hn1; unfold from; lia).
  assert (Hs : amount lp lp2 l = amount lp lp1 l + amount lp1 lp2 (l - amount lp lp1 l)).
  { rewrite Hn1 in *. unfold amount, from in *. lia. }
  assert (0 <= amount lp lp1 l) by (unfold amount; lia).
  assert (0 <= amount lp1 lp2 (l - amount lp lp1 l)) by (unfold amount in *; lia).
  split; [congruence|fold b l; lia|fold l; lia| |congruence|congruence].
  intros a. fold b l. rewrite B4, A4, A2, Hs, Ho. set (n1 := amount lp lp1 l) in *. set (n2 := amount lp1 lp2 _) in *.
  destruct (Z.leb_spec (b + n1) a), (Z.ltb_spec a (b + n1 + n2)), (Z.leb_spec b a), (Z.ltb_spec a (b + n1)),
    (Z.ltb_spec a (b + (n1 + n2))); cbn [andb]; try lia; try done. f_equal. lia.
Qed.

Lemma steps_bind G lp lp1 lp2 w (c : R walk unit) (k : R walk unit) :
  lp <= lp1 <= lp2 -> 0 < left (walk_rq w) -> steps G lp lp1 w c ->
  (forall w1, reading lp1 w1 -> tab w1 = tab w -> changed w1 = changed w -> disk (walk_rq w1) = disk (walk_rq w) ->
     steps G lp1 lp2 w1 k) ->
  steps G lp lp2 w (c;; k).
Proof.
  intros Hl Hp (r1 & w1 & E1 & M1 & R1) Hk. unfold steps, mbind, R_bind. rewrite E1.
  destruct (Z.eqb_spec (left (walk_rq w1)) 0) as [E0|E0].
  - subst r1. exists (Bad SUCCESS_EXIT), w1. split; [done|]. unfold stepped. rewrite E0, Z.eqb_refl. split; [|done].
    replace (amount lp lp2 (left (walk_rq w))) with (amount lp lp1 (left (walk_rq w))); [done|].
    pose proof (mv_left _ _ _ _ _ M1) as Hm. unfold amount in *. lia.
  - destruct R1 as [-> Hr]. destruct (Hk w1 Hr) as (r2 & w2 & -> & M2 & R2); [apply M1|apply M1|apply M1|].
    exists r2, w2. split; [done|]. split; [|exact R2]. by eapply moved_trans.
Qed.

(** The next entry starts at [lp'] when the walk moves on by [size]. *)
Definition advanced (size : Z) (w : walk) : walk := mkWalk (tab w) (changed w) (pos w + size) (walk_rq w).

Definition steps_before (G : Z -> Z) (lp lp' size : Z) (w : walk) (c : R walk unit) : Prop :=
  exists r w', c w = Some (r, w') /\ moved G lp (amount lp lp' (left (walk_rq w))) w w' /\
    if left (walk_rq w') =? 0 then r = Bad SUCCESS_EXIT else r = Good tt /\ reading lp' (advanced size w').

(** The flags of the callback that do nothing in a read. *)
Lemma call_flags i size pre post w z :
  pre || post = true -> tab w !! i = Some z -> 0 < left (walk_rq w) ->
  call cb i size pre post w = Some (Good tt, w).
Proof.
  intros Hf Hz Hl. destruct w as [t ch p r]. unfold call. cbn [tab changed pos walk_rq] in *. rewrite Hz. cbn.
  unfold minixRWZoneWalkCallback, mbind, R_bind, get_entry, get. cbn.
  replace (negb pre && negb post && (0 <? left r)) with false by (destruct pre, post; done). cbn.
  rewrite (proj2 (Z.eqb_neq _ _)) by lia. cbn. by rewrite list_insert_id.
Qed.

Lemma moved_ext G G' lp n w w' :
  (forall k, 0 <= k < n -> G (from lp + k) = G' (from lp + k)) -> moved G lp n w w' -> moved G' lp n w w'.
Proof.
  intros HG [A1 A2 A3 A4 A5 A6]. split; try done. intros a. rewrite A4.
  destruct (Z.leb_spec (buffer (walk_rq w)) a), (Z.ltb_spec a (buffer (walk_rq w) + n)); cbn [andb]; try done.
  apply HG. lia.
Qed.

Lemma moved_0 G lp w : moved G lp 0 w w.
Proof.
  split; try done; try lia. intros a.
  destruct (Z.leb_spec (buffer (walk_rq w)) a), (Z.ltb_spec a (buffer (walk_rq w) + 0)); cbn [andb]; try done. lia.
Qed.

(** Bytes that were put in the buffer of the request. *)
Lemma moved_put G lp n w :
  0 <= n ->
  moved G lp n w
    (mkWalk (tab w) (changed w) (pos w)
       (mkRq (disk (walk_rq w)) (put_bytes (memory (walk_rq w)) (buffer (walk_rq w)) (Prelude.tab n (fun k => G (from lp + k))))
          (buffer (walk_rq w) + n) (left (walk_rq w) - n))).
Proof.
  intros Hn. split; try done. intros a. cbn [walk_rq memory]. by rewrite put_bytes_tab.
Qed.

Lemma entry_byte_0 c d x : entry_byte c d 0 x = 0.
Proof. by destruct d. Qed.

(** The bytes that the transfer of a read puts in the buffer. *)
Lemma transfer_read d e at_ n G :
  0 <= n -> d = 0%nat \/ zone e = 0 ->
  (zone e = 0 -> forall k, 0 <= k < n -> G k = 0) ->
  (zone e <> 0 -> 0 <= at_ /\ at_ + n <= capacity (disk (rq e)) /\
     forall k, 0 <= k < n -> G k = content (disk (rq e)) (at_ + k)) ->
  transfer false at_ n e =
    Some (Good n, mkEntry (zone e) (entry_changed e)
      (mkRq (disk (rq e)) (put_bytes (memory (rq e)) (buffer (rq e)) (Prelude.tab n G)) (buffer (rq e)) (left (rq e)))).
Proof.
  intros Hn Hd Hz0 Hz1. unfold transfer, get_entry. rewrite bind_whole. cbn zeta.
  destruct (Z.eqb_spec (zone e) 0) as [E|E].
  - unfold mbind, R_bind, put_rq, mret, R_ret. do 5 f_equal.
    rewrite replicate_tab. apply tab_ext. intros k Hk. by rewrite Hz0.
  - destruct (Hz1 E) as (Ha & Hc & HG). unfold mbind, R_bind, entry_disk, on. rewrite read_ok by lia.
    unfold get, put_rq, mret, R_ret. cbn [mbind option_bind zone entry_changed rq disk memory buffer left].
    rewrite bytes_at_tab, tab_length, Z2Nat.id by done. do 5 f_equal.
    apply tab_ext. intros k Hk. by rewrite HG.
Qed.

(** The call that reads: from the zone, or zeros where there is none. *)
Lemma call_mid i d w lp z :
  reading lp w -> offset < lp + level_size d -> tab w !! i = Some z -> d = 0%nat \/ z = 0 ->
  valid_zone (content (disk (walk_rq w))) (capacity (disk (walk_rq w))) d z ->
  steps_before (fun x => entry_byte (content (disk (walk_rq w))) d z (x - lp)) lp (lp + level_size d) (level_size d) w
    (call cb i (level_size d) false false).
Proof.
  intros [Hl Ha Hp] Ho Hz Hd Hv. pose proof (level_pos d) as [Hs1 Hs2].
  set (G := fun x => entry_byte _ d z (x - lp)).
  set (fo := if pos w <? offset then offset else pos w).
  set (n := Z.min (left (walk_rq w)) (pos w + level_size d - fo)).
  assert (Hn : n = amount lp (lp + level_size d) (left (walk_rq w)) /\ 0 < n).
  { unfold n, fo, amount, from. destruct (Z.ltb_spec (pos w) offset); lia. }
  destruct Hn as [Hn Hn0]. unfold steps_before. rewrite <- Hn.
  pose proof (moved_put G lp n w ltac:(lia)) as M.
  set (w' := mkWalk _ _ _ _) in M.
  exists (if left (walk_rq w') =? 0 then Bad SUCCESS_EXIT else Good tt), w'. split; [|split; [exact M|]].
  - assert (Hread : transfer false (offsetForZone z + fo mod MINIX_BLOCK_SIZE) n (mkEntry z (changed w) (walk_rq w)) =
              Some (Good n, mkEntry z (changed w) (mkRq (disk (walk_rq w)) (memory (walk_rq w')) (buffer (walk_rq w)) (left (walk_rq w))))).
    { apply (transfer_read d); [lia|exact Hd| |].
      - cbn [zone]. intros -> k _. apply entry_byte_0.
      - cbn [zone]. intros Hz0. destruct Hd as [->|]; [|done]. destruct Hv as [|(H1 & H2 & _)]; [done|].
        change MINIX_BLOCK_SIZE with 1024. unfold offsetForZone. change MINIX_BLOCK_SIZE with 1024.
        rewrite level_0 in *. cbn [rq].
        assert (Hm : fo mod 1024 = from lp - lp).
        { unfold fo, from. destruct (Z.ltb_spec (pos w) offset), Hp as [Hp|[Hp1 Hp2]]; try lia.
          - pose proof (Z_div_mod_eq_full lp 1024). symmetry. apply (Z.mod_unique _ _ (lp / 1024)); lia.
          - rewrite Hp, Ha. lia. }
        rewrite Hm. assert (Hn1 : n <= lp + 1024 - from lp) by (rewrite Hn; unfold amount, from; lia).
        assert (Hf : lp <= from lp) by (unfold from; lia).
        split; [lia|]. split; [lia|]. intros k Hk. unfold G. cbn [entry_byte].
        rewrite (proj2 (Z.eqb_neq z 0)) by done. f_equal. lia. }
    unfold call. rewrite Hz. cbn [mbind option_bind]. unfold minixRWZoneWalkCallback, get_entry.
    rewrite bind_whole. cbn [negb andb]. rewrite bind_mret, bind_whole. cbn [rq]. rewrite (proj2 (Z.ltb_lt 0 (left _))) by done.
    rewrite bind_bind. fold fo. rewrite Util.umin_spec. fold n. cbn [zone].
    rewrite (bind_good _ _ _ _ _ Hread). rewrite (proj2 (Z.eqb_neq n 0)) by lia.
    rewrite bind_bind, bind_whole. unfold put_rq, get, mbind, R_bind, option_bind. cbn [rq zone entry_changed left].
    change (left (walk_rq w) - n) with (left (walk_rq w')).
    destruct (left (walk_rq w') =? 0); cbn; by rewrite list_insert_id.
  - destruct (Z.eqb_spec (left (walk_rq w')) 0) as [E|E]; [done|]. split; [done|].
    split; cbn in *; [unfold n in *; lia| |].
    + rewrite Zplus_mod, Ha, Hs2. done.
    + destruct Hp as [->|[Hp1 Hp2]]; [by left|right]. split; [lia|]. rewrite Zplus_mod, Hp2, Hs2. done.
Qed.

(** ** The scan of a table *)

(** The byte [x] of what a table covers whose entry 0 is at [base]. *)
Definition table_byte (c : Z -> Z) (d : nat) (t : list Z) (base x : Z) : Z :=
  entry_byte c d (default 0 (t !! Z.to_nat ((x - base) / level_size d))) ((x - base) mod level_size d).

Lemma table_byte_entry c d t i z base x :
  t !! i = Some z -> 0 <= x - (base + level_size d * Z.of_nat i) < level_size d ->
  table_byte c d t base x = entry_byte c d z (x - (base + level_size d * Z.of_nat i)).
Proof.
  intros Hz Hx. unfold table_byte. pose proof (level_pos d) as [Hs _].
  assert (E : (x - base) / level_size d = Z.of_nat i).
  { symmetry. apply (Z.div_unique _ _ _ (x - (base + level_size d * Z.of_nat i))); lia. }
  assert (E' : (x - base) mod level_size d = x - (base + level_size d * Z.of_nat i)).
  { symmetry. apply (Z.mod_unique _ _ (Z.of_nat i)); lia. }
  by rewrite E, E', Nat2Z.id, Hz.
Qed.

Lemma from_amount lp lp' l k : 0 <= k < amount lp lp' l -> lp <= from lp + k < lp'.
Proof. unfold amount, from. lia. Qed.

(** What the recursion promises for an entry of the depth. *)
Definition rec_reads (dk : D) (d : nat) (rec : Z -> R walk unit) : Prop :=
  forall z lp w, reading lp w -> offset < lp + level_size d -> z <> 0 -> disk (walk_rq w) = dk ->
    valid_zone (content dk) (capacity dk) d z ->
    steps_before (fun x => entry_byte (content dk) d z (x - lp)) lp (lp + level_size d) (level_size d) w (rec z).

Definition scan_entry (rec : Z -> R walk unit) (d i : nat) : R walk unit :=
  p ← get_pos;
  (if offset <? p + level_size d then
     call cb i (level_size d) true false;;
     z ← table_entry i;
     (if (d =? 0)%nat || (z =? 0) then call cb i (level_size d) false false else rec z);;
     call cb i (level_size d) false true
   else mret tt);;
  advance (level_size d).

Lemma scan_entry_reads dk rec d i w lp z :
  (d = 0%nat \/ rec_reads dk d rec) ->
  reading lp w -> disk (walk_rq w) = dk -> tab w !! i = Some z -> valid_zone (content dk) (capacity dk) d z ->
  steps (fun x => entry_byte (content dk) d z (x - lp)) lp (lp + level_size d) w (scan_entry rec d i).
Proof.
  intros Hrec Hr Hd Hz Hv. pose proof (level_pos d) as [Hs1 Hs2]. unfold scan_entry, steps.
  unfold get_pos, mbind at 1, R_bind at 1. destruct (Z.ltb_spec offset (pos w + level_size d)) as [Ho|Ho].
  - assert (Ho' : offset < lp + level_size d) by (destruct (rd_pos _ _ Hr); lia).
    rewrite bind_bind. rewrite (bind_good _ _ _ _ _ (call_flags i (level_size d) true false w z eq_refl Hz (rd_left _ _ Hr))).
    rewrite bind_bind. unfold table_entry at 1, mbind at 1, R_bind at 1. rewrite Hz. cbn [mbind option_bind].
    assert (Hm : steps_before (fun x => entry_byte (content dk) d z (x - lp)) lp (lp + level_size d) (level_size d) w
                   (if (d =? 0)%nat || (z =? 0) then call cb i (level_size d) false false else rec z)).
    { subst dk. destruct (Nat.eqb_spec d 0), (Z.eqb_spec z 0); cbn [orb]; try (apply call_mid; by auto).
      destruct Hrec as [|Hrec]; [done|]. by apply Hrec. }
    destruct Hm as (r1 & w1 & E1 & M1 & R1). rewrite bind_bind. unfold mbind at 1, R_bind at 1. rewrite E1.
    destruct (Z.eqb_spec (left (walk_rq w1)) 0) as [E|E].
    + subst r1. eexists _, _. split; [done|]. split; [done|]. by rewrite E.
    + destruct R1 as [-> R1]. unfold mbind, R_bind. rewrite (call_flags i _ false true w1 z eq_refl).
      * unfold advance. eexists _, _. split; [done|]. split; [by destruct M1|]. cbn. rewrite (proj2 (Z.eqb_neq _ _) E). done.
      * by rewrite (mv_tab _ _ _ _ _ M1).
      * apply (rd_left _ _ R1).
  - rewrite bind_mret. unfold advance. eexists _, _. split; [done|]. unfold stepped.
    assert (Hp : pos w = lp) by (destruct (rd_pos _ _ Hr); lia).
    replace (amount lp (lp + level_size d) (left (walk_rq w))) with 0
      by (pose proof (rd_left _ _ Hr); unfold amount, from; lia).
    split; [by destruct (moved_0 (fun x => entry_byte (content dk) d z (x - lp)) lp w)|]. cbn. rewrite (proj2 (Z.eqb_neq _ _)) by (pose proof (rd_left _ _ Hr); lia). split; [done|].
    split; cbn; [apply Hr| |left; lia]. rewrite Zplus_mod, (rd_align _ _ Hr), Hs2. done.
Qed.

Lemma bind_get_pos {A : Type} (k : Z -> R walk A) w : mbind (M := R walk) k get_pos w = k (pos w) w.
Proof. reflexivity. Qed.

Lemma scan_S rec d n i w :
  minixZoneWalkRecScan rec cb offset d (S n) i w =
  (scan_entry rec d i;; minixZoneWalkRecScan rec cb offset d n (S i)) w.
Proof.
  cbn [minixZoneWalkRecScan]. unfold scan_entry. by rewrite bind_bind, !bind_get_pos, bind_bind.
Qed.

Lemma scan_reads dk rec d t base :
  (d = 0%nat \/ rec_reads dk d rec) ->
  forall n i w lp,
  (forall k z, (i <= k < i + n)%nat -> t !! k = Some z -> valid_zone (content dk) (capacity dk) d z) ->
  lp = base + level_size d * Z.of_nat i -> (i + n <= length t)%nat ->
  reading lp w -> disk (walk_rq w) = dk -> tab w = t ->
  steps (table_byte (content dk) d t base) lp (lp + level_size d * Z.of_nat n) w
    (minixZoneWalkRecScan rec cb offset d n i).
Proof.
  intros Hrec n. pose proof (level_pos d) as [Hs1 Hs2]. induction n as [|n IH]; intros i w lp Hv Hlp Hn Hr Hd Ht.
  - exists (Good tt), w. split; [done|]. unfold stepped. rewrite Z.mul_0_r, Z.add_0_r.
    replace (amount lp lp (left (walk_rq w))) with 0 by (pose proof (rd_left _ _ Hr); unfold amount, from; lia).
    split; [apply moved_0|]. rewrite (proj2 (Z.eqb_neq _ _)) by (pose proof (rd_left _ _ Hr); lia). done.
  - destruct (lookup_lt_is_Some_2 t i) as [z Hz]; [lia|].
    unfold steps. rewrite scan_S.
    apply (steps_bind _ _ (lp + level_size d)); [lia|apply Hr| |].
    + destruct (scan_entry_reads dk rec d i w lp z) as (r & w' & E & M & R'); try done; [by rewrite Ht|apply (Hv i z); [lia|done]|].
      exists r, w'. split; [done|]. split; [|done]. eapply moved_ext; [|exact M]. cbn. intros k Hk.
      apply from_amount in Hk. rewrite (table_byte_entry _ _ _ i z) by (done || lia). f_equal. lia.
    + intros w1 R1 Ht1 _ Hd1.
      replace (lp + level_size d * Z.of_nat (S n)) with (lp + level_size d + level_size d * Z.of_nat n) by lia.
      apply IH; try done; [|lia|lia|congruence|congruence]. intros k x Hk. apply Hv. lia.
Qed.

(** ** The recursion *)

Lemma load_le_shift n f g a b : (forall k, 0 <= k < Z.of_nat n -> f (a + k) = g (b + k)) -> load_le n f a = load_le n g b.
Proof.
  revert a b. induction n as [|n IH]; intros a b Hfg; [done|]. cbn [load_le].
  assert (E : f a = g b) by (rewrite <- (Z.add_0_r a), <- (Z.add_0_r b); apply Hfg; lia). rewrite E. do 2 f_equal.
  apply IH. intros k Hk. replace (a + 1 + k) with (a + (1 + k)) by lia. replace (b + 1 + k) with (b + (1 + k)) by lia.
  apply Hfg. lia.
Qed.

Lemma le_at_bytes n c a len off :
  0 <= off -> off + Z.of_nat n <= len -> le_at n (bytes_at c a len) off = load_le n c (a + off).
Proof.
  intros Ho Hl. unfold le_at. apply load_le_shift. intros k Hk.
  rewrite bytes_at_tab, tab_lookup, decide_True by lia. cbn. f_equal. lia.
Qed.

Lemma table_lookup c z k :
  (k < 256)%nat -> table_of (bytes_at c (z * 1024) 1024) !! k = Some (word c z (Z.of_nat k)).
Proof.
  intros Hk. unfold table_of. rewrite list_lookup_fmap, lookup_seqZ_lt by lia. cbn [fmap option_fmap option_map].
  f_equal. rewrite le_at_bytes by lia. unfold word. f_equal; lia.
Qed.

Lemma walk_eta (w : walk) : mkWalk (tab w) (changed w) (pos w) (walk_rq w) = w.
Proof. by destruct w. Qed.

Lemma on_disk_read z w :
  0 < z -> z * 1024 + 1024 <= capacity (disk (walk_rq w)) ->
  on_disk (vfsFileReadAt (offsetForZone z) MINIX_BLOCK_SIZE) w =
    Some (Good (bytes_at (content (disk (walk_rq w))) (z * 1024) 1024), w).
Proof.
  intros Hz Hc. unfold on_disk, on, offsetForZone. change MINIX_BLOCK_SIZE with 1024. rewrite read_ok by lia.
  cbn [mbind option_bind]. do 2 f_equal. by destruct w as [t ch p [dk m b l]].
Qed.

(** The walk of a table, over what is done with its entries. *)
Definition walk_table (rec : Z -> R walk unit) (d : nat) (z : Z) : R walk unit :=
  b ← on_disk (vfsFileReadAt (offsetForZone z) MINIX_BLOCK_SIZE);
  if negb (Z.of_nat (length b) =? MINIX_BLOCK_SIZE) then bad EIO
  else
    '(err, table, changed) ← with_table (table_of b) (minixZoneWalkRecScan rec cb offset d MINIX_NUM_IPTRS 0);
    if changed : bool then
      e ← attempt (on_disk (vfsFileWriteAt (offsetForZone z) (bytes_of_table table)));
      give (if isError err then err else match e with Good _ => Good tt | Bad k => Bad k end)
    else give err.

Lemma walk_table_reads dk rec d : (d = 0%nat \/ rec_reads dk d rec) -> rec_reads dk (S d) (walk_table rec d).
Proof.
  intros Hrec z lp w Hr Ho Hz Hd Hv. destruct Hv as [|(Hz0 & Hc & Hv)]; [done|].
  unfold walk_table, steps_before. rewrite <- Hd in Hc.
  rewrite (bind_good _ _ _ _ _ (on_disk_read z w Hz0 Hc)), Hd.
  rewrite bytes_at_tab, tab_length. change (negb (Z.of_nat (Z.to_nat 1024) =? MINIX_BLOCK_SIZE)) with false. cbn match.
  rewrite <- bytes_at_tab. set (t := table_of _).
  assert (Ht : length t = 256%nat) by (unfold t, table_of; by rewrite length_fmap, length_seqZ).
  set (w0 := mkWalk t false (pos w) (walk_rq w)). pose proof (level_pos d) as [Hs1 Hs2].
  destruct (scan_reads dk rec d t lp Hrec) with (n := 256%nat) (i := 0%nat) (w := w0) (lp := lp) as (r & w' & E & M & R').
  - intros i x _ Hi. assert (i < 256)%nat by (rewrite <- Ht; by eapply lookup_lt_Some).
    unfold t in Hi. rewrite table_lookup in Hi by done. injection Hi as <-. apply Hv. lia.
  - lia.
  - lia.
  - destruct Hr; by split.
  - done.
  - done.
  - replace (lp + level_size d * Z.of_nat 256) with (lp + level_size (S d)) in * by (rewrite level_S; lia).
    unfold with_table, mbind at 1, R_bind at 1. fold w0. change (256%nat) with MINIX_NUM_IPTRS in E. rewrite E.
    cbn [mbind option_bind]. rewrite (mv_changed _ _ _ _ _ M). cbn [changed w0]. unfold give.
    eexists _, _. split; [done|]. split.
    + eapply moved_ext; [|].
      2: { destruct M. split; done. }
      intros k Hk. apply from_amount in Hk. cbn [entry_byte]. rewrite (proj2 (Z.eqb_neq z 0)) by done.
      unfold table_byte. set (x := from lp + k - lp).
      assert (Hx : 0 <= x / level_size d < 256).
      { rewrite level_S in Hk. split; [apply Z.div_pos; lia|apply Z.div_lt_upper_bound; lia]. }
      unfold t. rewrite table_lookup by lia. cbn [default id]. by rewrite Z2Nat.id by lia.
    + cbn [walk_rq left]. destruct (left (walk_rq w') =? 0); [done|]. destruct R' as [-> R']. split; [done|].
      destruct R' as [A1 A2 A3]. split; [done|done|]. right. cbn. rewrite level_S in *.
      split; [destruct A3; lia|]. rewrite Zplus_mod, Z.mul_mod, Hs2, Z.mul_0_r by lia.
      destruct A3 as [->|[_ ->]]; [by rewrite A2|done].
Qed.

Lemma rec_correct dk d : rec_reads dk (S d) (minixZoneWalkRec cb offset d).
Proof.
  induction d as [|d IH].
  - exact (walk_table_reads dk (fun _ => undefined) 0 (or_introl eq_refl)).
  - exact (walk_table_reads dk _ (S d) (or_intror IH)).
Qed.

(** ** The file *)

Lemma scan_node_reads dk zs d n i w lp :
  (forall k z, (i <= k < i + n)%nat -> zs !! k = Some z -> valid_zone (content dk) (capacity dk) d z) ->
  (i + n <= length zs)%nat -> reading lp w -> disk (walk_rq w) = dk -> tab w = zs ->
  steps (table_byte (content dk) d zs (lp - level_size d * Z.of_nat i)) lp (lp + level_size d * Z.of_nat n) w
    (scan_node cb offset d n i).
Proof.
  intros Hv Hn Hr Hd Ht. unfold scan_node. eapply (scan_reads dk); try done; [|lia].
  destruct d as [|d]; [by left|right]. apply rec_correct.
Qed.

Lemma steps_ext G G' lp lp' w c :
  (forall x, lp <= x < lp' -> G x = G' x) -> steps G lp lp' w c -> steps G' lp lp' w c.
Proof.
  intros HG (r & w' & E & M & R'). exists r, w'. split; [done|]. split; [|done].
  eapply moved_ext; [|exact M]. intros k Hk. apply HG. by eapply from_amount.
Qed.

Lemma level_values : level_size 1 = 262144 /\ level_size 2 = 67108864 /\ level_size 3 = 17179869184.
Proof. repeat split; reflexivity. Qed.

(** One of the zones that hold a table. *)
Lemma table_node_reads dk zs d w lp :
  valid_zones (content dk) (capacity dk) zs -> (0 < d <= 3)%nat ->
  reading lp w -> disk (walk_rq w) = dk -> tab w = zs ->
  steps (fun x => entry_byte (content dk) d (default 0 (zs !! (6 + d)%nat)) (x - lp)) lp (lp + level_size d) w
    (scan_node cb offset d 1 (6 + d)).
Proof.
  intros [Hlen Hv] Hd Hr Hk Ht. pose proof (level_pos d) as [Hs _].
  destruct (lookup_lt_is_Some_2 zs (6 + d)) as [z Hz]; [lia|].
  replace (lp + level_size d) with (lp + level_size d * Z.of_nat 1) by lia.
  eapply steps_ext; [|apply (scan_node_reads dk zs d 1 (6 + d) w lp); try done; [|lia]].
  - intros x Hx. rewrite (table_byte_entry _ _ _ (6 + d) z) by (done || lia). rewrite Hz. cbn [default id]. f_equal. lia.
  - intros k y Hi Hy. replace d with (k - 6)%nat by lia. by apply Hv.
Qed.

Lemma node_reads dk zs w :
  valid_zones (content dk) (capacity dk) zs -> reading 0 w -> disk (walk_rq w) = dk -> tab w = zs ->
  steps (file_byte (content dk) zs) 0 max_size w
    (scan_node cb offset 0 7 0;; scan_node cb offset 1 1 7;; scan_node cb offset 2 1 8;; scan_node cb offset 3 1 9).
Proof.
  intros Hv Hr Hd Ht. destruct level_values as (L1 & L2 & L3). pose proof Hv as [Hlen Hz].
  apply (steps_bind _ _ 7168); [unfold max_size; lia|apply Hr| |].
  - eapply steps_ext; [|apply (scan_node_reads dk zs 0 7 0 w 0); try done; [|lia]].
    + rewrite level_0. intros x Hx. unfold table_byte, file_byte. rewrite level_0.
      rewrite (proj2 (Z.ltb_lt x 7168)) by lia. by rewrite Z.sub_0_r.
    + intros k z Hk Hl. replace 0%nat with (k - 6)%nat by lia. by apply Hz.
  - intros w1 R1 T1 _ D1. apply (steps_bind _ _ (7168 + level_size 1)); [unfold max_size; lia|apply R1| |].
    + eapply steps_ext; [|apply (table_node_reads dk zs 1 w1 7168); try done; [lia|congruence|congruence]].
      intros x Hx. unfold file_byte. rewrite (proj2 (Z.ltb_ge x 7168)), (proj2 (Z.ltb_lt x _)) by lia. done.
    + intros w2 R2 T2 _ D2. apply (steps_bind _ _ (7168 + level_size 1 + level_size 2)); [unfold max_size; lia|apply R2| |].
      * eapply steps_ext; [|apply (table_node_reads dk zs 2 w2); try done; [lia|congruence|congruence]].
        intros x Hx. unfold file_byte.
        rewrite (proj2 (Z.ltb_ge x 7168)), (proj2 (Z.ltb_ge x (7168 + level_size 1))), (proj2 (Z.ltb_lt x _)) by lia.
        f_equal. lia.
      * intros w3 R3 T3 _ D3.
        eapply steps_ext; [|apply (table_node_reads dk zs 3 w3); try done; [lia|congruence|congruence]].
        intros x Hx. unfold file_byte.
        rewrite (proj2 (Z.ltb_ge x 7168)), (proj2 (Z.ltb_ge x (7168 + level_size 1))),
          (proj2 (Z.ltb_ge x (7168 + level_size 1 + level_size 2))) by lia.
        f_equal. lia.
Qed.

(** C36: [minixReadAt] gives as many bytes as the request asks for and the file
    has, and puts the bytes of the file in the buffer, zeros for the holes;
    nothing else in memory, on the disk or in the node changes. *)
Theorem minixReadAt_correct (f : file (D := D)) (buf length : Z) :
  0 <= offset -> 0 <= length -> 0 <= size (node f) <= max_size ->
  valid_zones (content (file_disk f)) (capacity (file_disk f)) (node_zones (node f)) ->
  let n := Z.max 0 (Z.min length (size (node f) - offset)) in
  exists memory', minixReadAt sb buf offset length f = Some (Good n, mkFile (file_disk f) memory' (node f)) /\
    forall a, memory' a =
      if (buf <=? a) && (a <? buf + n)
      then file_byte (content (file_disk f)) (node_zones (node f)) (offset + (a - buf))
      else file_memory f a.
Proof.
  intros Ho Hl Hs Hv n. destruct f as [dk m nd]. cbn [file_disk file_memory node] in *.
  unfold minixReadAt, minixReadWrite. rewrite bind_whole. cbn [node].
  set (len := if size nd <? offset then 0 else _).
  assert (Hlen : len = n).
  { unfold len, n. rewrite Util.umin_spec. destruct (Z.ltb_spec (size nd) offset); lia. }
  rewrite Hlen. destruct (Z.eqb_spec n 0) as [E|E].
  { exists m. rewrite E. split; [done|]. intros a.
    destruct (Z.leb_spec buf a), (Z.ltb_spec a (buf + 0)); cbn [andb]; try done. lia. }
  destruct (node_reads dk (node_zones nd) (mkWalk (node_zones nd) false 0 (mkRq dk m buf n)) Hv) as (r & w' & Ew & M & R).
  { split; cbn; [unfold n in *; lia|done|by left]. }
  1-2: done.
  replace (amount 0 max_size _) with n in M by (cbn; unfold amount, from, n in *; lia).
  destruct M as [A1 A2 A3 A4 A5 A6]. cbn in A1, A2, A3, A5, A6.
  exists (memory (walk_rq w')).
  assert (L0 : left (walk_rq w') = 0) by lia. rewrite L0 in R. cbn in R. subst r.
  split.
  - assert (Ec : walk_file sb buf n offset cb (mkFile dk m nd) =
       Some (Good (Bad SUCCESS_EXIT, 0), mkFile dk (memory (walk_rq w')) nd)).
    { unfold walk_file, minixZoneWalk. cbn [node file_disk file_memory]. rewrite Ew. cbn [mbind option_bind].
      rewrite A6. cbn [mbind option_bind]. rewrite A1, A5, L0. by destruct nd. }
    rewrite (bind_good _ _ _ _ _ Ec). replace (n - 0) with n by lia. reflexivity.
  - intros a. rewrite A4. cbn. unfold from. rewrite Z.max_l by lia. done.
Qed.

End Laws.

(** A file with a hole and a table: the zones 20 and, through 30, 21. *)
Definition ex_disk : RamDisk :=
  mkDisk (fun a => if (30720 <=? a) && (a <? 31744) then (if a =? 30720 then 21 else 0) else a mod 251) 40960.
Definition ex_super : Minix3Superblock := mkSuper 64 1 1 64.
Definition ex_node : MinixVfsNode := mkNode 5 0 1 0 0 9000 0 0 0 [20; 0; 0; 0; 0; 0; 0; 30; 0; 0].

Lemma ex_table k :
  0 <= k < 256 -> word (content ex_disk) 30 k = 0 \/ word (content ex_disk) 30 k = 21.
Proof.
  assert (E : forallb (fun k => (word (content ex_disk) 30 k =? 0) || (word (content ex_disk) 30 k =? 21)) (seqZ 0 256) = true)
    by (vm_compute; done).
  rewrite forallb_forall in E. intros Hk. specialize (E k).
  rewrite orb_true_iff, !Z.eqb_eq in E. apply E, list_elem_of_In, elem_of_seqZ. lia.
Qed.

Lemma ex_zones : valid_zones (content ex_disk) (capacity ex_disk) (node_zones ex_node).
Proof.
  split; [done|]. intros [|[|[|[|[|[|[|[|[|[|k]]]]]]]]]] z [= <-]; cbn [Nat.sub valid_zone]; try by left.
  - right. split; [lia|]. split; [vm_compute; done|done].
  - right. split; [lia|]. split; [vm_compute; done|]. intros k Hk.
    destruct (ex_table k Hk) as [->| ->]; [by left|right]. split; [lia|]. split; [vm_compute; done|done].
Qed.

Lemma minixReadAt_correct_witness :
  exists memory',
    minixReadAt ex_super 100 7160 20 (mkFile ex_disk (fun _ => 255) ex_node) =
      Some (Good 20, mkFile ex_disk memory' ex_node) /\
    memory' 99 = 255 /\ memory' 107 = 0 /\ memory' 108 = 21504 mod 251 /\ memory' 120 = 255.
Proof.
  destruct (minixReadAt_correct ex_super 7160 (mkFile ex_disk (fun _ => 255) ex_node) 100 20) as (m & E & Hm).
  - lia.
  - lia.
  - vm_compute. split; congruence.
  - exact ex_zones.
  - exists m. split; [exact E|]. rewrite !Hm. clear. vm_compute. repeat split.
Defined.

(** ** Nodes *)

Definition node_ok (n : MinixVfsNode) : Prop :=
  0 <= mode n < 2 ^ 16 /\ 0 <= nlinks n < 2 ^ 16 /\ 0 <= uid n < 2 ^ 16 /\ 0 <= gid n < 2 ^ 16 /\
  0 <= size n < 2 ^ 32 /\
  Forall (fun t => 0 <= t < 2 ^ 32 * 1000000000 /\ t mod 1000000000 = 0) [atime n; mtime n; ctime n] /\
  length (node_zones n) = 10%nat /\ Forall (fun z => 0 <= z < 2 ^ 32) (node_zones n).

Lemma le_bytes_length n v : length (le_bytes n v) = n.
Proof. revert v. induction n as [|n IH]; intros v; cbn; [done|]. by rewrite IH. Qed.

Lemma le_bytes_char n v : Forall is_char (le_bytes n v).
Proof.
  revert v. induction n as [|n IH]; intros v; cbn; constructor; [|apply IH]. unfold is_char.
  apply Z.mod_pos_bound. lia.
Qed.

Lemma le_at_skip n l1 l2 off : Z.of_nat (length l1) <= off -> le_at n (l1 ++ l2) off = le_at n l2 (off - Z.of_nat (length l1)).
Proof.
  intros Ho. unfold le_at. apply load_le_shift. intros k Hk. rewrite lookup_app_r by lia. do 3 f_equal. lia.
Qed.

Lemma le_at_head n v l off : off = 0 -> 0 <= v < 2 ^ (8 * Z.of_nat n) -> le_at n (le_bytes n v ++ l) off = v.
Proof.
  intros ->. revert v. induction n as [|n IH]; intros v Hv; [cbn in *; lia|]. unfold le_at in *. cbn [load_le].
  rewrite (load_le_shift n _ (fun i => default 0 ((le_bytes n (v / 256) ++ l) !! Z.to_nat i)) _ 0).
  - rewrite IH.
    + pose proof (Z_div_mod_eq_full v 256). change (v mod 256 + 2 ^ 8 * (v / 256) = v). lia.
    + replace (8 * Z.of_nat (S n)) with (8 + 8 * Z.of_nat n) in Hv by lia. rewrite Z.pow_add_r in Hv by lia.
      split; [apply Z.div_pos; lia|apply Z.div_lt_upper_bound; lia].
  - intros k Hk. replace (Z.to_nat (0 + 1 + k)) with (S (Z.to_nat (0 + k))) by lia. done.
Qed.

Lemma le_at_next m n v l off : Z.of_nat m <= off -> le_at n (le_bytes m v ++ l) off = le_at n l (off - Z.of_nat m).
Proof. intros Ho. rewrite le_at_skip; rewrite le_bytes_length; done. Qed.

Lemma node_fields n : node_ok n -> decode_inode (id n) (encode_inode n) = n.
Proof.
  intros (H1 & H2 & H3 & H4 & H5 & H6 & Hl & Hz). destruct n as [i m k u g s a t c zs].
  cbn [mode nlinks uid gid size atime mtime ctime node_zones id] in *.
  do 10 (destruct zs as [|? zs]; [done|]). destruct zs; [|done].
  repeat match goal with H : Forall _ (_ :: _) |- _ => apply Forall_cons_1 in H; destruct H as [? H] end.
  unfold decode_inode, encode_inode. cbn [mode nlinks uid gid size atime mtime ctime node_zones fmap list_fmap concat].
  assert (Ht : forall x, 0 <= x < 2 ^ 32 * 1000000000 /\ x mod 1000000000 = 0 ->
    0 <= x / 1000000000 < 2 ^ 32 /\ x / 1000000000 * 1000000000 = x).
  { intros x [Hx Hm]. pose proof (Z_div_mod_eq_full x 1000000000).
    split; [split; [apply Z.div_pos; lia|apply Z.div_lt_upper_bound; lia]|lia]. }
  change (seqZ 0 10) with [0; 1; 2; 3; 4; 5; 6; 7; 8; 9]. cbn [fmap list_fmap].
  f_equal; try (repeat (apply f_equal2; [|])); repeat (rewrite le_at_next by lia); try (rewrite le_at_head by lia; try done).
  all: try done. all: try (by apply Ht). all: rewrite le_at_head by (lia || by apply Ht); by apply Ht.
Qed.

Lemma encode_inode_length n : length (node_zones n) = 10%nat -> length (encode_inode n) = 64%nat.
Proof.
  intros Hz. unfold encode_inode. rewrite !length_app, !le_bytes_length.
  assert (E : forall zs : list Z, length (concat (le_bytes 4 <$> zs)) = (4 * length zs)%nat).
  { induction zs as [|z zs IH]; [done|]. rewrite fmap_cons. cbn [concat]. rewrite length_app, le_bytes_length, IH. cbn. lia. }
  rewrite E, Hz. done.
Qed.

Lemma encode_inode_char n : Forall is_char (encode_inode n).
Proof.
  unfold encode_inode. rewrite !Forall_app. repeat split; try apply le_bytes_char.
  induction (node_zones n) as [|z zs IH]; [constructor|]. rewrite fmap_cons. cbn [concat].
  apply Forall_app. split; [apply le_bytes_char|done].
Qed.

Section Nodes.
Context {D : Type} `{DeviceLaws D} (sb : Minix3Superblock).

Lemma read_node_at d i :
  0 <= offsetForINode sb i -> offsetForINode sb i + 64 <= capacity d ->
  minixReadNode sb i d = Some (Good (decode_inode i (bytes_at (content d) (offsetForINode sb i) 64)), d).
Proof.
  intros Ho Hc. unfold minixReadNode, mbind, R_bind. change INODE_SIZE with 64. rewrite read_ok by lia.
  rewrite bytes_at_tab, tab_length. done.
Qed.

(** A node that was written is read back, and writing it leaves every
    other node of the disk as it is. *)
Theorem node_write_read (n : MinixVfsNode) (d : D) :
  node_ok n -> 0 <= offsetForINode sb (id n) -> offsetForINode sb (id n) + 64 <= capacity d ->
  exists d', minixWriteNode sb n d = Some (Good tt, d') /\ minixReadNode sb (id n) d' = Some (Good n, d') /\
    forall i, i <> id n -> 0 <= offsetForINode sb i -> offsetForINode sb i + 64 <= capacity d ->
    exists n', minixReadNode sb i d = Some (Good n', d) /\ minixReadNode sb i d' = Some (Good n', d').
Proof.
  intros Hn Ho Hc. pose proof Hn as (_ & _ & _ & _ & _ & _ & Hz & _).
  pose proof (encode_inode_length n Hz) as Hlen.
  destruct (write_ok d (offsetForINode sb (id n)) (encode_inode n)) as (d' & E & Hcap & Hcont); [done|lia|apply encode_inode_char|].
  exists d'. split; [|split].
  - unfold minixWriteNode, mbind, R_bind. rewrite E, Hlen. done.
  - rewrite read_node_at by lia. do 3 f_equal.
    assert (Eb : bytes_at (content d') (offsetForINode sb (id n)) 64 = encode_inode n).
    { change 64 with (Z.of_nat 64). rewrite <- Hlen.
      rewrite <- (bytes_at_put (content d) (offsetForINode sb (id n)) (encode_inode n)) at 2.
      apply bytes_at_ext. intros k Hk. apply Hcont. }
    rewrite Eb. by apply node_fields.
  - intros i Hi Hoi Hci. eexists. split; [by apply read_node_at|]. rewrite read_node_at by lia. do 3 f_equal.
    f_equal. apply bytes_at_ext. intros k Hk. rewrite Hcont. unfold put_bytes. rewrite Hlen.
    destruct (Z.leb_spec (offsetForINode sb (id n)) (offsetForINode sb i + k)),
      (Z.ltb_spec (offsetForINode sb i + k) (offsetForINode sb (id n) + Z.of_nat 64)); cbn [andb]; try done.
    exfalso. unfold offsetForINode, INODE_SIZE in *. lia.
Qed.

End Nodes.

Lemma node_write_read_witness :
  let n := mkNode 5 0x81a4 2 0 0 9000 7000000000 8000000000 9000000000 [20; 0; 0; 0; 0; 0; 0; 30; 0; 0] in
  exists d', minixWriteNode ex_super n ex_disk = Some (Good tt, d') /\ minixReadNode ex_super 5 d' = Some (Good n, d').
Proof.
  intros n. destruct (node_write_read ex_super n ex_disk) as (d' & E1 & E2 & _).
  - unfold node_ok, n. cbn [mode nlinks uid gid size atime mtime ctime node_zones].
    split_and!; try lia; try done; repeat (apply Forall_cons_2; [split; first [lia|done]|]); apply Forall_nil_2.
  - vm_compute. congruence.
  - vm_compute. congruence.
  - exists d'. split; [exact E1|exact E2].
Defined.

(** ** Truncation inside a table

    The file has seven data zones and the table 17 with two zones.  At 8192
    bytes the zone 18 is still part of it, and the walk keeps it; but the
    recursion has moved the position past the table, so that the [post] call
    takes the table itself for unused. *)
Definition full_disk : RamDisk :=
  mkDisk (fun a => if (17408 <=? a) && (a <? 18432) then (if a =? 17408 then 18 else if a =? 17412 then 19 else 0)
                   else if a <? 5120 then 255 else a mod 251) 40960.
Definition full_node (s : Z) : MinixVfsNode := mkNode 5 0 1 0 0 s 0 0 0 [10; 11; 12; 13; 14; 15; 16; 17; 0; 0].

Definition zones_after (length : Z) : option (result unit * list Z) :=
  '(r, f) ← minixTrunc ex_super length (mkFile full_disk (fun _ => 255) (full_node 9216));
  Some (r, node_zones (node f)).

Example truncation_frees_table :
  zones_after 8192 = Some (Good tt, [10; 11; 12; 13; 14; 15; 16; 0; 0; 0]) /\
  zones_after 2048 = Some (Good tt, [10; 11; 0; 0; 0; 0; 0; 0; 0; 0]) /\
  zones_after 0 = Some (Good tt, [0; 0; 0; 0; 0; 0; 0; 0; 0; 0]).
Proof. vm_compute. repeat split. Qed.

(** Inside the first zone the callback divides by the position 0. *)
Example truncation_in_first_zone : zones_after 500 = None.
Proof. vm_compute. reflexivity. Qed.

End MinixRead.
