(* ===== verification/Timer.v ===== *)
(** * Timer: timeouts, [kernel/src/interrupt/timer.c]

    The list of timeouts holds the newest first.  The spin lock makes each
    operation on the list one step; the functions of the timeouts run outside
    of it.  [getTime] and [setTimeCmp] are the clock of the hart: arguments and
    results here. *)
From S2P Require Import Prelude.

Module Timer.

Definition CLOCKS_PER_SEC : Z := 10000000.
Definition MAX_TIME : Z := CLOCKS_PER_SEC / 100.
Definition MAX_IDLE_TIME : Z := CLOCKS_PER_SEC.

Record TimeoutEntry := mkEntry {
  id : Z;
  time : Z;
  function : Z;
  udata : Z;
}.

#[export] Instance TimeoutEntry_eq : EqDecision TimeoutEntry.
Proof. solve_decision. Defined.

Definition due (now : Z) (e : TimeoutEntry) : Prop := time e <= now.
#[export] Instance due_dec now e : Decision (due now e).
Proof. unfold due. apply _. Defined.

Section Timers.
(** The rest of the system, and what calling a function does to it. *)
Context {W : Type}.

Record state := mkState {
  next_id : Z;
  timeouts : list TimeoutEntry;
  world : W;
}.

Context (call : Z -> Z -> Z -> state -> option (unit * state)).

Definition setTimeoutTime (time function udata : Z) : M state Z := fun s =>
  let id := next_id s in
  let s := mkState (u64 (next_id s + 1)) (timeouts s) (world s) in
  Some (id, mkState (next_id s) (mkEntry id time function udata :: timeouts s) (world s)).

Definition setTimeout (now delay function udata : Z) : M state Z := setTimeoutTime (u64 (now + delay)) function udata.

Fixpoint clear_loop (timeout : Z) (l : list TimeoutEntry) : list TimeoutEntry :=
  match l with
  | [] => []
  | e :: rest => if id e =? timeout then clear_loop timeout rest else e :: clear_loop timeout rest
  end.

Definition clearTimeout (timeout : Z) : M state unit := fun s =>
  Some (tt, mkState (next_id s) (clear_loop timeout (timeouts s)) (world s)).

(** What stays in the list, and what is to be called. *)
Fixpoint take_due (now : Z) (l to_call : list TimeoutEntry) : list TimeoutEntry * list TimeoutEntry :=
  match l with
  | [] => ([], to_call)
  | e :: rest =>
      if time e <=? now then take_due now rest (e :: to_call)
      else let '(stay, to_call) := take_due now rest to_call in (e :: stay, to_call)
  end.

Fixpoint call_loop (now : Z) (to_call : list TimeoutEntry) : M state unit :=
  match to_call with
  | [] => mret tt
  | e :: rest =>
      (if negb (function e =? 0) then call (function e) now (udata e) else mret tt);;
      call_loop now rest
  end.

Definition handleTimerInterrupt (now : Z) : M state unit := fun s =>
  let '(stay, to_call) := take_due now (timeouts s) [] in
  call_loop now to_call (mkState (next_id s) stay (world s)).

Fixpoint earliest (next : Z) (l : list TimeoutEntry) : Z :=
  match l with
  | [] => next
  | e :: rest => earliest (if time e <? next then time e else next) rest
  end.

(** The time that is returned, and the time of the next interrupt. *)
Definition setPreemptionTimer (now : Z) (idle : bool) (s : state) : Z * Z :=
  let next := earliest (2 ^ 64 - 1) (timeouts s) in
  let max := if idle then MAX_IDLE_TIME else MAX_TIME in
  (now, if next <? u64 (now + max) then next else u64 (now + max)).

(** ** The lists the loops compute *)

Lemma clear_loop_filter t l : clear_loop t l = filter (fun e => id e <> t) l.
Proof.
  induction l as [|e l IH]; [done|]. cbn [clear_loop]. rewrite filter_cons, IH.
  destruct (Z.eqb_spec (id e) t); repeat case_decide; congruence.
Qed.

Lemma take_due_filter now l acc :
  take_due now l acc = (filter (fun e => ~ due now e) l, reverse (filter (due now) l) ++ acc).
Proof.
  revert acc. induction l as [|e l IH]; intros acc; [done|]. cbn [take_due]. rewrite !filter_cons, !IH. unfold due.
  destruct (Z.leb_spec (time e) now).
  - rewrite decide_False, decide_True by lia. by rewrite reverse_cons, <- app_assoc.
  - by rewrite decide_True, decide_False by lia.
Qed.

Lemma earliest_spec next l :
  earliest next l <= next /\ Forall (fun e => earliest next l <= time e) l /\
  (earliest next l = next \/ exists e, e ∈ l /\ earliest next l = time e).
Proof.
  revert next. induction l as [|e l IH]; intros next; cbn [earliest]; [split_and!; auto; lia|].
  destruct (IH (if time e <? next then time e else next)) as (H1 & H2 & H3).
  destruct (Z.ltb_spec (time e) next).
  - split; [lia|]. split; [by constructor|]. right.
    destruct H3 as [H3|(x & Hx & H3)]; [exists e; by rewrite elem_of_cons; auto|exists x; by rewrite elem_of_cons; auto].
  - split; [lia|]. split; [constructor; [lia|done]|].
    destruct H3 as [H3|(x & Hx & H3)]; [by left|right; exists x; by rewrite elem_of_cons; auto].
Qed.

(** The interrupt calls exactly the timeouts that are due, the one that was set
    first first, with the list of the others in place; those stay as they are. *)
Theorem handleTimerInterrupt_calls_due now s :
  handleTimerInterrupt now s =
  call_loop now (reverse (filter (due now) (timeouts s)))
    (mkState (next_id s) (filter (fun e => ~ due now e) (timeouts s)) (world s)).
Proof. unfold handleTimerInterrupt. by rewrite take_due_filter, app_nil_r. Qed.

(** The next interrupt comes no later than any timeout and no later than the
    time slice, and it is one of these. *)
Theorem setPreemptionTimer_in_time now (idle : bool) (s : state) :
  0 <= now < 2 ^ 64 - MAX_IDLE_TIME -> Forall (fun e => 0 <= time e < 2 ^ 64) (timeouts s) ->
  let slice := if idle then MAX_IDLE_TIME else MAX_TIME in
  let cmp := snd (setPreemptionTimer now idle s) in
  Forall (fun e => cmp <= time e) (timeouts s) /\ cmp <= now + slice /\
  (cmp = now + slice \/ exists e, e ∈ timeouts s /\ cmp = time e).
Proof.
  intros Hn Ht slice cmp. unfold cmp, setPreemptionTimer. cbn [snd]. fold slice.
  assert (Hs : 0 <= slice <= MAX_IDLE_TIME) by (subst slice cmp; destruct idle; vm_compute; split; congruence). clearbody slice.
  rewrite (wrap_small 64) by lia. destruct (earliest_spec (2 ^ 64 - 1) (timeouts s)) as (H1 & H2 & H3).
  destruct (Z.ltb_spec (earliest (2 ^ 64 - 1) (timeouts s)) (now + slice)).
  - split; [done|]. split; [lia|]. right. destruct H3 as [H3|H3]; [lia|done].
  - split; [|split; [lia|by left]]. revert H2. apply Forall_impl. intros e He. lia.
Qed.

End Timers.

(** ** Runs

    The calls are logged: what a function does with the timeouts comes as
    further operations. *)

Definition log_state : Type := state (W := list (Z * Z * Z)).

Definition log_call (f now u : Z) : log_state -> option (unit * log_state) := fun s =>
  Some (tt, mkState (next_id s) (timeouts s) (world s ++ [(f, now, u)])).

Inductive op :=
| Set_ (time function udata : Z)
| Clear (timeout : Z)
| Interrupt (now : Z).

Definition perform (o : op) : M log_state unit :=
  match o with
  | Set_ t f u => setTimeoutTime t f u;; mret tt
  | Clear i => clearTimeout i
  | Interrupt now => handleTimerInterrupt log_call now
  end.

Fixpoint perform_all (os : list op) : M log_state unit :=
  match os with [] => mret tt | o :: rest => perform o;; perform_all rest end.

(** The numbers of the timeouts are used once. *)
Record timers_ok (s : log_state) : Prop := {
  ok_next : 0 <= next_id s;
  ok_ids : Forall (fun e => id e < next_id s) (timeouts s);
  ok_nodup : NoDup (id <$> timeouts s);
}.

Definition calls_of (now : Z) (l : list TimeoutEntry) : list (Z * Z * Z) :=
  (fun e => (function e, now, udata e)) <$> filter (fun e => function e <> 0) l.

Lemma call_loop_log now l s :
  call_loop log_call now l s = Some (tt, mkState (next_id s) (timeouts s) (world s ++ calls_of now l)).
Proof.
  revert s. induction l as [|e l IH]; intros s; cbn [call_loop].
  - unfold calls_of. cbn. rewrite app_nil_r. by destruct s.
  - unfold calls_of. rewrite filter_cons. destruct (Z.eqb_spec (function e) 0); cbn [negb]; case_decide; try congruence.
    + rewrite bind_ret. apply IH.
    + rewrite (bind_some _ _ _ _ _ eq_refl). rewrite IH. cbn. by rewrite <- app_assoc.
Qed.

Lemma interrupt_log now s :
  handleTimerInterrupt log_call now s =
  Some (tt, mkState (next_id s) (filter (fun e => ~ due now e) (timeouts s))
              (world s ++ calls_of now (reverse (filter (due now) (timeouts s))))).
Proof. unfold handleTimerInterrupt. rewrite take_due_filter, app_nil_r. by rewrite call_loop_log. Qed.

Lemma filter_ids (P : TimeoutEntry -> Prop) `{!forall e, Decision (P e)} s w :
  timers_ok s -> timers_ok (mkState (next_id s) (filter P (timeouts s)) w).
Proof.
  intros [H1 H2 H3]. split; cbn [next_id timeouts]; [done| |].
  - induction H2 as [|e l He H2 IH]; [constructor|]. apply NoDup_cons_1_2 in H3. rewrite filter_cons.
    case_decide; [constructor|]; auto.
  - clear H2. induction (timeouts s) as [|e l IH]; [constructor|]. pose proof (NoDup_cons_1_1 _ _ H3) as Hn. apply NoDup_cons_1_2 in H3.
    rewrite filter_cons. case_decide; [|auto]. rewrite fmap_cons. constructor; [|auto].
    intros (x & Ex & Hx)%list_elem_of_fmap. apply Hn, list_elem_of_fmap. exists x.
    split; [done|]. by apply list_elem_of_filter in Hx as [_ Hx].
Qed.

Lemma perform_ok o s :
  timers_ok s -> next_id s < 2 ^ 64 - 1 ->
  exists s', perform o s = Some (tt, s') /\ timers_ok s' /\ next_id s' <= next_id s + 1.
Proof.
  intros Hok Hn. destruct o as [t f u|i|now].
  - destruct Hok as [H1 H2 H3]. assert (E : u64 (next_id s + 1) = next_id s + 1) by (apply (wrap_small 64); lia).
    eexists. split; [reflexivity|]. cbn [next_id timeouts]. rewrite E.
    split; [|lia]. split; cbn [next_id timeouts]; [lia| |].
    + constructor; cbn; [lia|]. eapply Forall_impl; [|exact H2]. cbn. lia.
    + constructor; [|done]. intros (x & Ex & Hx)%list_elem_of_fmap. cbn in Ex.
      apply list_elem_of_In in Hx. rewrite List.Forall_forall in H2. specialize (H2 x Hx). cbn in H2. lia.
  - eexists. split; [reflexivity|]. split; [|cbn; lia]. rewrite clear_loop_filter. by apply filter_ids.
  - eexists. split; [apply interrupt_log|]. split; [|cbn; lia]. by apply filter_ids.
Qed.

(** An operation that neither clears the timeout nor is an interrupt at its time. *)
Definition leaves (e : TimeoutEntry) (o : op) : Prop :=
  match o with Set_ _ _ _ => True | Clear i => i <> id e | Interrupt now => now < time e end.

Lemma leaves_pending e o s s' :
  leaves e o -> e ∈ timeouts s -> perform o s = Some (tt, s') -> e ∈ timeouts s'.
Proof.
  intros Hl He. destruct o as [t f u|i|now]; cbn in Hl.
  - intros [= <-]. cbn. by apply list_elem_of_further.
  - intros [= <-]. cbn. rewrite clear_loop_filter. by apply list_elem_of_filter.
  - cbn. rewrite interrupt_log. intros [= <-]. cbn. apply list_elem_of_filter. unfold due. split; [lia|done].
Qed.

(** The calls of [f] with [u] in a log. *)
Definition called (f u : Z) (log : list (Z * Z * Z)) : list (Z * Z * Z) :=
  filter (fun c => fst (fst c) = f /\ snd c = u) log.

(** An entry, or an operation, that has nothing to do with [f] and [u]. *)
Definition foreign (f u : Z) (x : TimeoutEntry) : Prop := ~ (function x = f /\ udata x = u).
Definition other_op (f u : Z) (o : op) : Prop :=
  match o with Set_ _ f' u' => ~ (f' = f /\ u' = u) | _ => True end.

Lemma called_app f u l k : called f u (l ++ k) = called f u l ++ called f u k.
Proof. apply list.filter_app. Qed.

Lemma calls_of_app now l k : calls_of now (l ++ k) = calls_of now l ++ calls_of now k.
Proof. unfold calls_of. by rewrite list.filter_app, fmap_app. Qed.

Lemma called_foreign f u now l : Forall (foreign f u) l -> called f u (calls_of now l) = [].
Proof.
  induction 1 as [|x l Hx Hl IH]; [done|]. unfold calls_of in *. rewrite filter_cons. case_decide; [|done].
  rewrite fmap_cons. unfold called in *. rewrite filter_cons, decide_False by exact Hx. exact IH.
Qed.

Lemma called_one now e l :
  NoDup l -> e ∈ l -> function e <> 0 -> Forall (fun x => x = e \/ foreign (function e) (udata e) x) l ->
  called (function e) (udata e) (calls_of now l) = [(function e, now, udata e)].
Proof.
  intros Hnd (l1 & l2 & ->)%list_elem_of_split Hf Hl. apply list.NoDup_app in Hnd as (_ & H1 & H2%NoDup_cons_1_1).
  assert (Hpart : forall k, e ∉ k -> Forall (fun x => x = e \/ foreign (function e) (udata e) x) k -> Forall (foreign (function e) (udata e)) k).
  { intros k Hk. rewrite !Forall_forall. intros H x Hx. destruct (H x Hx) as [->|Hx']; [|done]. by apply list_elem_of_In in Hx. }
  apply Forall_app in Hl as [Hl1 Hl2]. apply Forall_cons_1 in Hl2 as [_ Hl2].
  rewrite calls_of_app, called_app, called_foreign.
  2: { apply Hpart; [|done]. intros He. apply (H1 e He). apply list_elem_of_here. }
  change (e :: l2) with ([e] ++ l2). rewrite calls_of_app, called_app, (called_foreign _ _ _ l2) by (by apply Hpart).
  unfold calls_of, called. rewrite filter_cons, decide_True by done. cbn. by rewrite decide_True.
Qed.

Lemma Forall_filter_sub (P Q : TimeoutEntry -> Prop) `{!forall e, Decision (Q e)} l : Forall P l -> Forall P (filter Q l).
Proof.
  induction 1 as [|x l Hx Hl IH]; [constructor|]. rewrite filter_cons. case_decide; [by constructor|done].
Qed.

(** Waiting: the entry is there, and no other has its function and argument. *)
Definition waiting (e : TimeoutEntry) (s : log_state) : Prop :=
  e ∈ timeouts s /\ Forall (fun x => x = e \/ foreign (function e) (udata e) x) (timeouts s).

Lemma waiting_step e o s s' :
  waiting e s -> leaves e o -> other_op (function e) (udata e) o -> perform o s = Some (tt, s') ->
  waiting e s' /\ called (function e) (udata e) (world s') = called (function e) (udata e) (world s).
Proof.
  intros [He Hl] Hle Ho E. pose proof (leaves_pending _ _ _ _ Hle He E) as He'.
  destruct o as [t f u|i|now]; cbn in Hle, Ho.
  - injection E as <-. split; [|done]. split; [done|]. constructor; [|done]. right. intros [? ?]. by apply Ho.
  - injection E as <-. split; [|done]. split; [done|]. cbn. rewrite clear_loop_filter. by apply Forall_filter_sub.
  - cbn in E. rewrite interrupt_log in E. injection E as <-. split; [split; [done|by apply Forall_filter_sub]|].
    cbn [world]. rewrite called_app, called_foreign; [by rewrite app_nil_r|]. apply Forall_reverse.
    rewrite Forall_forall in Hl |- *. intros x Hx. apply list_elem_of_In, list_elem_of_filter in Hx as [Hd Hx%list_elem_of_In].
    destruct (Hl x Hx) as [->|Hx']; [|done]. unfold due in Hd. lia.
Qed.

Lemma gone_step f u o s s' :
  Forall (foreign f u) (timeouts s) -> other_op f u o -> perform o s = Some (tt, s') ->
  Forall (foreign f u) (timeouts s') /\ called f u (world s') = called f u (world s).
Proof.
  intros Hl Ho E. destruct o as [t f' u'|i|now]; cbn in Ho.
  - injection E as <-. split; [by constructor|done].
  - injection E as <-. split; [|done]. cbn. rewrite clear_loop_filter. by apply Forall_filter_sub.
  - cbn in E. rewrite interrupt_log in E. injection E as <-. split; [by apply Forall_filter_sub|].
    cbn [world]. rewrite called_app, called_foreign; [by rewrite app_nil_r|]. by apply Forall_reverse, Forall_filter_sub.
Qed.

(** Operations one after the other keep what each of them keeps. *)
Lemma perform_all_ok (I : log_state -> Prop) (Q : op -> Prop) os s :
  (forall o w w', Q o -> I w -> perform o w = Some (tt, w') -> I w') ->
  timers_ok s -> next_id s + Z.of_nat (length os) < 2 ^ 64 -> Forall Q os -> I s ->
  exists s', perform_all os s = Some (tt, s') /\ timers_ok s' /\ next_id s' <= next_id s + Z.of_nat (length os) /\ I s'.
Proof.
  intros HI. revert s. induction os as [|o os IH]; intros s Hs Hn Hos Hi; [exists s; cbn; split_and!; done || lia|].
  apply Forall_cons_1 in Hos as [Ho Hos]. cbn [length] in Hn. destruct (perform_ok o s Hs) as (s1 & E & Hs1 & Hn1); [lia|].
  destruct (IH s1) as (s' & E' & Hs' & Hn' & Hi'); [done|lia|done|by eapply HI|].
  exists s'. split; [cbn [perform_all]; by rewrite (bind_some _ _ _ _ _ E)|]. split; [done|split; [cbn [length]; lia|done]].
Qed.

(** C29: A timeout that is not cleared waits for the first interrupt at its time or
    later: until then it stays in the list and its function is not called; that
    interrupt calls it, exactly once, with the time and its argument; and whatever
    happens afterwards, it is never called again.  (The calls are told apart by
    their function and argument, which no other timeout has.) *)
Theorem timeout_is_called s t f u now before after :
  timers_ok s -> next_id s + Z.of_nat (length before + length after) < 2 ^ 64 - 1 -> f <> 0 ->
  Forall (foreign f u) (timeouts s) -> Forall (other_op f u) (before ++ after) ->
  let e := mkEntry (next_id s) t f u in
  Forall (leaves e) before -> t <= now ->
  exists s1 s2 s3 s4,
    setTimeoutTime t f u s = Some (id e, s1) /\ perform_all before s1 = Some (tt, s2) /\
    perform (Interrupt now) s2 = Some (tt, s3) /\ perform_all after s3 = Some (tt, s4) /\
    e ∈ timeouts s2 /\ called f u (world s2) = called f u (world s) /\
    called f u (world s3) = called f u (world s) ++ [(f, now, u)] /\ (id e ∉ (id <$> timeouts s3)) /\
    called f u (world s4) = called f u (world s3).
Proof.
  intros Hok Hn Hf Hfor [Hob Hoa]%Forall_app e Hb Ht.
  destruct (perform_ok (Set_ t f u) s Hok) as (s1 & E1 & Hok1 & Hn1); [lia|].
  assert (Hw1 : waiting e s1 /\ called f u (world s1) = called f u (world s)).
  { injection E1 as <-. split; [split; [apply list_elem_of_here|]|done]. constructor; [by left|].
    eapply Forall_impl; [|exact Hfor]. intros x Hx. by right. }
  destruct (perform_all_ok (fun w => waiting e w /\ called f u (world w) = called f u (world s))
    (fun o => leaves e o /\ other_op f u o) before s1) as (s2 & E2 & Hok2 & Hn2 & [He2 Hl2] & Hc2); try done; [|lia|by apply Forall_and|].
  { intros o w w' [Hle Ho] [Hw Hc] E. destruct (waiting_step e o w w' Hw Hle Ho E) as [H1 H2]. split; [done|].
    change (function e) with f in H2. change (udata e) with u in H2. by rewrite H2. }
  set (s3 := mkState (next_id s2) (filter (fun e => ~ due now e) (timeouts s2))
              (world s2 ++ calls_of now (reverse (filter (due now) (timeouts s2))))).
  assert (E3 : perform (Interrupt now) s2 = Some (tt, s3)) by apply interrupt_log.
  assert (Hok3 : timers_ok s3) by (by apply filter_ids). pose proof (NoDup_fmap_1 _ _ (ok_nodup _ Hok2)) as Hnd.
  assert (Hgone : Forall (foreign f u) (timeouts s3)).
  { rewrite Forall_forall in Hl2 |- *. intros x Hx. apply list_elem_of_In, list_elem_of_filter in Hx as [Hd Hx%list_elem_of_In].
    destruct (Hl2 x Hx) as [->|Hx']; [|done]. by destruct Hd. }
  destruct (perform_all_ok (fun w => Forall (foreign f u) (timeouts w) /\ called f u (world w) = called f u (world s3))
    (other_op f u) after s3) as (s4 & E4 & _ & _ & _ & Hc4); try done; [|change (next_id s3) with (next_id s2); lia|].
  { intros o w w' Ho [Hw Hc] E. destruct (gone_step f u o w w' Hw Ho E) as [H1 H2]. split; [done|by rewrite H2]. }
  exists s1, s2, s3, s4. split; [by injection E1 as <-|]. split_and!; try done.
  - unfold s3. cbn [world]. rewrite called_app, Hc2. f_equal. apply (called_one now e); [|apply elem_of_reverse, list_elem_of_filter; done|done|].
    + rewrite reverse_Permutation. by apply list.NoDup_filter.
    + by apply Forall_reverse, Forall_filter_sub.
  - intros (x & Ex & Hx)%list_elem_of_fmap. apply list_elem_of_filter in Hx as [Hd Hx].
    apply list_elem_of_In in Hx as Hx'. rewrite Forall_forall in Hl2. destruct (Hl2 x Hx') as [->|_]; [by apply Hd|].
    assert (x = e) as ->; [|by apply Hd]. apply list_elem_of_lookup in Hx as [i Hi]. apply list_elem_of_lookup in He2 as [j Hj].
    assert (i = j) as ->; [|congruence].
    apply (NoDup_lookup (id <$> timeouts s2) i j (id e)); [apply Hok2| |]; rewrite list_lookup_fmap; [rewrite Hi|rewrite Hj]; cbn [fmap option_fmap option_map]; congruence.
Qed.

(** ** Witnesses *)

Definition ex_timers : log_state := mkState 7 [mkEntry 6 300 11 0; mkEntry 4 40 12 1] [].

Lemma timeout_is_called_witness :
  let before := [Set_ 5 1 0; Clear 4; Interrupt 50; Set_ 500 2 0] in let after := [Interrupt 160; Set_ 3 1 1; Interrupt 900] in
  exists s1 s2 s3 s4,
    setTimeoutTime 100 9 33 ex_timers = Some (7, s1) /\ perform_all before s1 = Some (tt, s2) /\
    perform (Interrupt 150) s2 = Some (tt, s3) /\ perform_all after s3 = Some (tt, s4) /\
    called 9 33 (world s2) = [] /\ called 9 33 (world s3) = [(9, 150, 33)] /\ called 9 33 (world s4) = [(9, 150, 33)].
Proof.
  destruct (timeout_is_called ex_timers 100 9 33 150 [Set_ 5 1 0; Clear 4; Interrupt 50; Set_ 500 2 0] [Interrupt 160; Set_ 3 1 1; Interrupt 900])
    as (s1 & s2 & s3 & s4 & E1 & E2 & E3 & E4 & _ & H1 & H2 & _ & H3).
  - split; [cbn; lia|repeat constructor|]. apply NoDup_cons_2; [|apply NoDup_singleton]. by intros ?%list_elem_of_singleton.
  - cbn. lia.
  - lia.
  - repeat constructor; unfold foreign; cbn; lia.
  - repeat constructor; cbn; lia.
  - repeat constructor; cbn; lia.
  - lia.
  - exists s1, s2, s3, s4. split; [exact E1|]. split; [exact E2|]. split; [exact E3|]. split; [exact E4|].
    split; [exact H1|]. split; [exact H2|]. rewrite H3. exact H2.
Defined.

Lemma setPreemptionTimer_in_time_witness :
  let cmp := snd (setPreemptionTimer 20 false ex_timers) in
  cmp = 40 /\ Forall (fun e => cmp <= time e) (timeouts ex_timers).
Proof.
  split; [vm_compute; reflexivity|].
  apply (setPreemptionTimer_in_time 20 false ex_timers).
  - unfold MAX_IDLE_TIME, CLOCKS_PER_SEC. lia.
  - repeat constructor; cbn; lia.
Defined.

End Timer.
