(* ===== verification/FileTable.v ===== *)
(** * FileTable: the file descriptors of a process, [kernel/src/files/process.c]

    A process has a list of descriptors in ascending order of their numbers.
    A descriptor and the file behind it are counted: a system call holds the
    descriptor it works on, a descriptor holds its file.  Pointers are integers
    and [NULL] is 0.  The lock of the resources makes each operation one step. *)
From S2P Require Import Prelude.

Module FileTable.

Definition VFS_DESC_CLOEXEC : Z := 1.
Definition VFS_FILE_READ : Z := 1.
Definition VFS_FILE_WRITE : Z := 2.
Definition VFS_FILE_ACCESS : Z := Z.lor VFS_FILE_READ VFS_FILE_WRITE.
Definition VFS_FILE_NONBLOCK : Z := Z.shiftl 1 14.
Definition VFS_OPEN_CLOEXEC : Z := 0x40000.

Record VfsFile := mkFile { file_refs : Z; file_flags : Z }.

Record VfsFileDescriptor := mkDesc {
  desc_id : Z;
  desc_flags : Z;
  desc_file : Z;
  desc_refs : Z;
}.

(** The lists [process->resources.files] by process. *)
Record state := mkState {
  descs : gmap Z VfsFileDescriptor;
  files : gmap Z VfsFile;
  tables : gmap Z (list Z);
}.

Definition table (s : state) (q : Z) : list Z := default [] (tables s !! q).

Definition set_table (q : Z) (l : list Z) : M state unit := fun s =>
  Some (tt, mkState (descs s) (files s) (<[q := l]> (tables s))).
Definition set_desc (p : Z) (d : VfsFileDescriptor) : M state unit := fun s =>
  Some (tt, mkState (<[p := d]> (descs s)) (files s) (tables s)).
Definition set_file (f : Z) (v : VfsFile) : M state unit := fun s =>
  Some (tt, mkState (descs s) (<[f := v]> (files s)) (tables s)).
Definition free_desc (p : Z) : M state unit := fun s =>
  Some (tt, mkState (delete p (descs s)) (files s) (tables s)).
Definition free_file (f : Z) : M state unit := fun s =>
  Some (tt, mkState (descs s) (delete f (files s)) (tables s)).
Definition get_desc (p : Z) : M state VfsFileDescriptor := fun s => d ← descs s !! p; Some (d, s).
Definition get_file (f : Z) : M state VfsFile := fun s => v ← files s !! f; Some (v, s).
Definition whole : M state state := fun s => Some (s, s).

(** ** Files, [kernel/src/files/vfs/file.c] *)

Definition vfsFileCopy (f : Z) : M state unit :=
  v ← get_file f;
  set_file f (mkFile (u64 (file_refs v + 1)) (file_flags v)).

(** The node of the file is closed with it. *)
Definition vfsFileClose (f : Z) : M state unit :=
  v ← get_file f;
  let n := u64 (file_refs v - 1) in
  if n =? 0 then free_file f else set_file f (mkFile n (file_flags v)).

(** ** Descriptors *)

Definition vfsFileDescriptorCopy (p : Z) : M state unit :=
  d ← get_desc p;
  set_desc p (mkDesc (desc_id d) (desc_flags d) (desc_file d) (u64 (desc_refs d + 1))).

Definition vfsFileDescriptorClose (p : Z) : M state unit :=
  d ← get_desc p;
  let n := u64 (desc_refs d - 1) in
  if n =? 0 then
    free_desc p;;
    vfsFileClose (desc_file d)
  else set_desc p (mkDesc (desc_id d) (desc_flags d) (desc_file d) n).

(** Past the descriptors with numbers below [fd]: what is passed, and the rest. *)
Fixpoint skip_below (ds : gmap Z VfsFileDescriptor) (fd : Z) (l : list Z) : option (list Z * list Z) :=
  match l with
  | [] => Some ([], [])
  | p :: rest =>
      d ← ds !! p;
      if desc_id d <? fd then '(a, b) ← skip_below ds fd rest; Some (p :: a, b) else Some ([], l)
  end.

(** Past the descriptors whose numbers follow each other from [fd] on. *)
Fixpoint skip_used (ds : gmap Z VfsFileDescriptor) (fd : Z) (l : list Z) : option (list Z * Z * list Z) :=
  match l with
  | [] => Some ([], fd, [])
  | p :: rest =>
      d ← ds !! p;
      if desc_id d =? fd then '(a, fd, b) ← skip_used ds (fd + 1) rest; Some (p :: a, fd, b) else Some ([], fd, l)
  end.

Definition lift {A : Type} (o : option A) : M state A := fun s => a ← o; Some (a, s).

Definition head_is (ds : gmap Z VfsFileDescriptor) (fd : Z) (l : list Z) : option bool :=
  match l with [] => Some false | p :: _ => d ← ds !! p; Some (desc_id d =? fd) end.

Definition getFileDescriptorUnsafe (q fd : Z) : M state Z :=
  s ← whole;
  '(_, rest) ← lift (skip_below (descs s) fd (table s q));
  found ← lift (head_is (descs s) fd rest);
  mret (if found : bool then default 0 (head rest) else 0).

Definition getFileDescriptor (q fd : Z) : M state Z :=
  p ← getFileDescriptorUnsafe q fd;
  (if p =? 0 then mret tt else vfsFileDescriptorCopy p);;
  mret p.

Definition closeFileDescriptor (q fd : Z) : M state unit :=
  s ← whole;
  '(before, rest) ← lift (skip_below (descs s) fd (table s q));
  found ← lift (head_is (descs s) fd rest);
  match (found : bool), rest with
  | true, to_remove :: rest => set_table q (before ++ rest);; vfsFileDescriptorClose to_remove
  | _, _ => mret tt
  end.

Section Allocator.
(** [kalloc]: an address that is not in use. *)
Context (kalloc : gset Z -> Z).

Definition putNewFileDescriptor (q fd flags file : Z) (replace : bool) : M state Z :=
  vfsFileCopy file;;
  '(before, fd, rest) ←
    (if fd <? 0 then
       s ← whole;
       lift (skip_used (descs s) 0 (table s q))
     else
       closeFileDescriptor q fd;;
       s ← whole;
       '(before, rest) ← lift (skip_below (descs s) fd (table s q));
       found ← lift (head_is (descs s) fd rest);
       match (found : bool), rest with
       | true, to_remove :: rest' =>
           if replace then
             vfsFileDescriptorClose to_remove;;
             mret (before, fd, rest')
           else
             '(passed, fd, rest) ← lift (skip_used (descs s) fd rest);
             mret (before ++ passed, fd, rest)
       | _, _ => mret (before, fd, rest)
       end);
  s ← whole;
  match rest with
  | [] => mret tt
  | p :: _ => d ← get_desc p; massert (fd <? desc_id d)
  end;;
  let desc := kalloc (dom (descs s)) in
  set_desc desc (mkDesc fd flags file 1);;
  set_table q (before ++ desc :: rest);;
  mret fd.

Fixpoint close_loop (l : list Z) : M state unit :=
  match l with [] => mret tt | p :: rest => vfsFileDescriptorClose p;; close_loop rest end.

Definition closeAllProcessFiles (q : Z) : M state unit :=
  s ← whole;
  close_loop (table s q);;
  set_table q [].

(** The descriptors that stay. *)
Fixpoint exec_loop (l : list Z) : M state (list Z) :=
  match l with
  | [] => mret []
  | p :: rest =>
      d ← get_desc p;
      if negb (Z.land (desc_flags d) VFS_DESC_CLOEXEC =? 0) then
        vfsFileDescriptorClose p;;
        exec_loop rest
      else
        stay ← exec_loop rest;
        mret (p :: stay)
  end.

Definition closeExecProcessFiles (q : Z) : M state unit :=
  s ← whole;
  stay ← exec_loop (table s q);
  set_table q stay.

Fixpoint fork_loop (q : Z) (l : list Z) : M state unit :=
  match l with
  | [] => mret tt
  | p :: rest =>
      d ← get_desc p;
      putNewFileDescriptor q (desc_id d) (desc_flags d) (desc_file d) false;;
      fork_loop q rest
  end.

Definition forkFileDescriptors (new_process old_process : Z) : M state unit :=
  s ← whole;
  fork_loop new_process (table s old_process).

(** ** System calls on descriptors, [kernel/src/files/syscall.c] *)

Definition EBADF : Z := 9.
Definition EINVAL : Z := 22.

(** [FILE_SYSCALL_OP(READ, WRITE)]. *)
Definition file_syscall_op (READ WRITE : bool) (q fd : Z) (k : Z -> M state Z) : M state Z :=
  desc ← getFileDescriptor q (s32 fd);
  if negb (desc =? 0) then
    d ← get_desc desc;
    f ← get_file (desc_file d);
    if (Z.land (file_flags f) VFS_FILE_WRITE =? 0) && WRITE then
      vfsFileDescriptorClose desc;; mret (- EBADF)
    else if (Z.land (file_flags f) VFS_FILE_READ =? 0) && READ then
      vfsFileDescriptorClose desc;; mret (- EBADF)
    else k desc
  else mret (- EBADF).

Definition closeSyscall (q fd : Z) : M state Z :=
  file_syscall_op false false q fd (fun desc =>
  closeFileDescriptor q (s32 fd);;
  vfsFileDescriptorClose desc;;
  mret 0).

Definition dupSyscall (q fd id flags2 : Z) : M state Z :=
  file_syscall_op false false q fd (fun desc =>
  d ← get_desc desc;
  let flags := Z.ldiff (desc_flags d) VFS_DESC_CLOEXEC in
  let flags := if negb (Z.land flags2 VFS_OPEN_CLOEXEC =? 0) then Z.lor flags VFS_DESC_CLOEXEC else flags in
  id ← putNewFileDescriptor q (s32 id) flags (desc_file d) true;
  vfsFileDescriptorClose desc;;
  mret id).

Definition VFS_FCNTL_DUPFD : Z := 0.
Definition VFS_FCNTL_GETFD : Z := 1.
Definition VFS_FCNTL_SETFD : Z := 2.
Definition VFS_FCNTL_GETFL : Z := 3.
Definition VFS_FCNTL_SETFL : Z := 4.
Definition VFS_FCNTL_DUPFD_CLOEXEC : Z := 14.

Definition fcntlSyscall (q fd request arg : Z) : M state Z :=
  file_syscall_op false false q fd (fun desc =>
  d ← get_desc desc;
  f ← get_file (desc_file d);
  if (request =? VFS_FCNTL_DUPFD) || (request =? VFS_FCNTL_DUPFD_CLOEXEC) then
    let flags := if request =? VFS_FCNTL_DUPFD_CLOEXEC then VFS_DESC_CLOEXEC else 0 in
    id ← putNewFileDescriptor q (s32 arg) flags (desc_file d) false;
    vfsFileDescriptorClose desc;;
    mret id
  else if request =? VFS_FCNTL_GETFD then
    vfsFileDescriptorClose desc;; mret (desc_flags d)
  else if request =? VFS_FCNTL_SETFD then
    set_desc desc (mkDesc (desc_id d) arg (desc_file d) (desc_refs d));;
    vfsFileDescriptorClose desc;; mret 0
  else if request =? VFS_FCNTL_GETFL then
    vfsFileDescriptorClose desc;; mret (file_flags f)
  else if request =? VFS_FCNTL_SETFL then
    set_file (desc_file d) (mkFile (file_refs f) (Z.lor (Z.land arg VFS_FILE_NONBLOCK) (Z.land (file_flags f) VFS_FILE_ACCESS)));;
    vfsFileDescriptorClose desc;; mret 0
  else mret (- EINVAL)).

End Allocator.

(** ** The table as a finite map *)

Definition visible (d : VfsFileDescriptor) : Z * (Z * Z) := (desc_id d, (desc_flags d, desc_file d)).

(** What the numbers of a process stand for: the flags and the file. *)
Definition fds (s : state) (q : Z) : gmap Z (Z * Z) :=
  list_to_map (omap (fun p => visible <$> descs s !! p) (table s q)).

(** The descriptors that hold a file, and the references from elsewhere. *)
Definition holders (ds : gmap Z VfsFileDescriptor) (f : Z) : Z :=
  Z.of_nat (size (filter (fun pd => desc_file (snd pd) = f) ds)).
Definition outside (s : state) (f : Z) : Z := default 0 (file_refs <$> files s !! f) - holders (descs s) f.

Definition rep (ds : gmap Z VfsFileDescriptor) (l : list Z) (vs : list VfsFileDescriptor) : Prop :=
  Forall2 (fun p d => ds !! p = Some d) l vs.

Fixpoint ascending (vs : list VfsFileDescriptor) : Prop :=
  match vs with
  | [] => True
  | d :: rest => Forall (fun x => desc_id d < desc_id x) rest /\ ascending rest
  end.

Definition counted (d : VfsFileDescriptor) : Prop := 0 <= desc_id d /\ 0 < desc_refs d < 2 ^ 64.

Record ok (s : state) : Prop := {
  ok_table : forall q, exists vs, rep (descs s) (table s q) vs /\ ascending vs;
  ok_desc : forall p d, descs s !! p = Some d -> counted d;
  ok_disjoint : forall q q' p, p ∈ table s q -> p ∈ table s q' -> q = q';
  ok_file : forall p d, descs s !! p = Some d -> is_Some (files s !! desc_file d);
  ok_refs : forall f v, files s !! f = Some v -> holders (descs s) f <= file_refs v < 2 ^ 64 /\ 0 < file_refs v;
}.

Lemma rep_app ds l vs la lb :
  rep ds l vs -> l = la ++ lb -> exists va vb, vs = va ++ vb /\ rep ds la va /\ rep ds lb vb.
Proof. intros H ->. apply Forall2_app_inv_l in H as (va & vb & ? & ? & ->). eauto. Qed.

Lemma rep_join ds la lb va vb : rep ds la va -> rep ds lb vb -> rep ds (la ++ lb) (va ++ vb).
Proof. apply Forall2_app. Qed.

Lemma rep_fds ds l vs : rep ds l vs -> omap (fun p => visible <$> ds !! p) l = visible <$> vs.
Proof. induction 1 as [|p d l vs Hp H IH]; [done|]. cbn. rewrite Hp. cbn. by rewrite IH. Qed.

Lemma rep_frame ds ds' l vs : (forall p, p ∈ l -> ds' !! p = ds !! p) -> rep ds l vs -> rep ds' l vs.
Proof.
  intros Hf H. induction H as [|p d l vs Hp H IH]; constructor.
  - rewrite Hf; [done|]. apply list_elem_of_here.
  - apply IH. intros x Hx. apply Hf. by apply list_elem_of_further.
Qed.

Lemma rep_in ds l vs p : rep ds l vs -> p ∈ l -> exists d, d ∈ vs /\ ds !! p = Some d.
Proof.
  induction 1 as [|x d l vs Hx H IH]; intros Hp; [by apply not_elem_of_nil in Hp|].
  apply elem_of_cons in Hp as [->|Hp]; [exists d; split; [apply list_elem_of_here|done]|].
  destruct (IH Hp) as (d' & ? & ?). exists d'. split; [by apply list_elem_of_further|done].
Qed.

Lemma ascending_app va vb :
  ascending (va ++ vb) <-> ascending va /\ ascending vb /\ Forall (fun x => Forall (fun y => desc_id x < desc_id y) vb) va.
Proof.
  induction va as [|d va IH]; cbn [app].
  - split; [intros ?; split_and!; [done|done|constructor]|by intros (? & ? & ?)].
  - cbn [ascending]. rewrite IH, Forall_app, Forall_cons_iff. tauto.
Qed.

Lemma skip_below_spec ds fd l vs :
  rep ds l vs -> ascending vs ->
  exists la lb va vb, skip_below ds fd l = Some (la, lb) /\ l = la ++ lb /\ vs = va ++ vb /\ rep ds la va /\ rep ds lb vb /\
    Forall (fun d => desc_id d < fd) va /\ Forall (fun d => fd <= desc_id d) vb.
Proof.
  induction 1 as [|p d l vs Hp H IH]; intros Hs.
  - exists [], [], [], []. cbn. split_and!; done || constructor.
  - destruct Hs as [Hd Hs]. cbn [skip_below]. rewrite Hp. cbn [mbind option_bind].
    destruct (Z.ltb_spec (desc_id d) fd) as [Hlt|Hge].
    + destruct (IH Hs) as (la & lb & va & vb & -> & -> & -> & Ha & Hb & H1 & H2).
      exists (p :: la), lb, (d :: va), vb. split_and!; try done; by constructor.
    + exists [], (p :: l), [], (d :: vs). split_and!; try done; constructor; try done.
      eapply Forall_impl; [|exact Hd]. cbn. lia.
Qed.

Lemma skip_used_spec ds n l vs :
  rep ds l vs -> ascending vs -> Forall (fun d => n <= desc_id d) vs ->
  exists la lb va vb m, skip_used ds n l = Some (la, m, lb) /\ l = la ++ lb /\ vs = va ++ vb /\ rep ds la va /\ rep ds lb vb /\
    desc_id <$> va = seqZ n (m - n) /\ n <= m /\ Forall (fun d => m < desc_id d) vb.
Proof.
  intros H. revert n. induction H as [|p d l vs Hp H IH]; intros n Hs Hn.
  - exists [], [], [], [], n. cbn. rewrite Z.sub_diag. split_and!; try done || constructor.
  - destruct Hs as [Hd Hs]. apply Forall_cons_1 in Hn as [Hnd Hn]. cbn [skip_used]. rewrite Hp. cbn [mbind option_bind].
    destruct (Z.eqb_spec (desc_id d) n) as [E|E].
    + destruct (IH (n + 1) Hs) as (la & lb & va & vb & m & -> & -> & -> & Ha & Hb & H1 & H2 & H3).
      { eapply Forall_impl; [|exact Hd]. cbn. lia. }
      exists (p :: la), lb, (d :: va), vb, m. split_and!; try done; try (by constructor); [|lia].
      rewrite fmap_cons, H1, E. rewrite (seqZ_cons n (m - n)) by lia. do 2 f_equal; lia.
    + exists [], (p :: l), [], (d :: vs), n. rewrite Z.sub_diag. split_and!; try done; try constructor; try done; [lia|].
      eapply Forall_impl; [|exact Hd]. cbn. lia.
Qed.

Definition tmap (vs : list VfsFileDescriptor) : gmap Z (Z * Z) := list_to_map (visible <$> vs).

Lemma fds_rep s q vs : rep (descs s) (table s q) vs -> fds s q = tmap vs.
Proof. intros H. unfold fds, tmap. by rewrite (rep_fds _ _ _ H). Qed.

Lemma tmap_cons d vs : tmap (d :: vs) = <[desc_id d := (desc_flags d, desc_file d)]> (tmap vs).
Proof. done. Qed.

Lemma tmap_none n vs : Forall (fun d => desc_id d <> n) vs -> tmap vs !! n = None.
Proof. induction 1 as [|d vs Hd H IH]; [done|]. rewrite tmap_cons, lookup_insert_ne by done. done. Qed.

Lemma tmap_insert va d vb :
  Forall (fun x => desc_id x <> desc_id d) va ->
  tmap (va ++ d :: vb) = <[desc_id d := (desc_flags d, desc_file d)]> (tmap (va ++ vb)).
Proof.
  induction 1 as [|x va Hx H IH]; [done|]. cbn [app]. rewrite !tmap_cons, IH. by rewrite insert_insert_ne.
Qed.

Lemma tmap_delete va d vb :
  Forall (fun x => desc_id x <> desc_id d) (va ++ vb) ->
  tmap (va ++ vb) = delete (desc_id d) (tmap (va ++ d :: vb)).
Proof.
  intros H. pose proof H as H'. apply Forall_app in H as [Ha _]. rewrite tmap_insert by done.
  by rewrite delete_insert_id by (by apply tmap_none).
Qed.

Lemma holders_insert ds p d f :
  ds !! p = None -> holders (<[p := d]> ds) f = holders ds f + if decide (desc_file d = f) then 1 else 0.
Proof.
  intros Hp. unfold holders. destruct (decide (desc_file d = f)) as [E|E].
  - rewrite map_filter_insert_True by done. rewrite map_size_insert_None; [lia|]. apply map_lookup_filter_None. by left.
  - rewrite map_filter_insert_False by done. rewrite delete_id by done. lia.
Qed.

Lemma holders_delete ds p d f :
  ds !! p = Some d -> holders (delete p ds) f = holders ds f - if decide (desc_file d = f) then 1 else 0.
Proof.
  intros Hp. rewrite <- (insert_delete_id ds p d Hp) at 2. rewrite holders_insert by (by rewrite lookup_delete_eq). lia.
Qed.

Lemma holders_update ds p d d' f :
  ds !! p = Some d -> desc_file d' = desc_file d -> holders (<[p := d']> ds) f = holders ds f.
Proof.
  intros Hp E. rewrite <- insert_delete_eq, holders_insert by (by rewrite lookup_delete_eq).
  rewrite (holders_delete _ _ _ _ Hp), E. lia.
Qed.

Lemma holders_pos ds p d : ds !! p = Some d -> 0 < holders ds (desc_file d).
Proof.
  intros Hp. rewrite <- (insert_delete_id ds p d Hp), holders_insert by (by rewrite lookup_delete_eq).
  rewrite decide_True by done. unfold holders. lia.
Qed.

(** ** Copying and closing *)

Lemma vfsFileCopy_eq s f v :
  files s !! f = Some v -> 0 < file_refs v < 2 ^ 64 - 1 ->
  vfsFileCopy f s = Some (tt, mkState (descs s) (<[f := mkFile (file_refs v + 1) (file_flags v)]> (files s)) (tables s)).
Proof.
  intros Hf Hv. unfold vfsFileCopy, get_file, mbind, M_bind, set_file. rewrite Hf. cbn.
  do 4 f_equal. f_equal. f_equal. apply (wrap_small 64). lia.
Qed.

Definition drop_file (fs : gmap Z VfsFile) (f : Z) (v : VfsFile) : gmap Z VfsFile :=
  if file_refs v =? 1 then delete f fs else <[f := mkFile (file_refs v - 1) (file_flags v)]> fs.

Lemma vfsFileClose_eq s f v :
  files s !! f = Some v -> 0 < file_refs v < 2 ^ 64 ->
  vfsFileClose f s = Some (tt, mkState (descs s) (drop_file (files s) f v) (tables s)).
Proof.
  intros Hf Hv. unfold vfsFileClose, get_file, mbind, M_bind, drop_file. rewrite Hf. cbn [option_bind].
  assert (E : u64 (file_refs v - 1) = file_refs v - 1) by (apply (wrap_small 64); lia). rewrite E.
  destruct (Z.eqb_spec (file_refs v - 1) 0), (Z.eqb_spec (file_refs v) 1); try lia; done.
Qed.

Definition release (d : VfsFileDescriptor) : VfsFileDescriptor :=
  mkDesc (desc_id d) (desc_flags d) (desc_file d) (desc_refs d - 1).

Lemma vfsFileDescriptorClose_eq s p d :
  descs s !! p = Some d -> 0 < desc_refs d < 2 ^ 64 ->
  (forall v, files s !! desc_file d = Some v -> 0 < file_refs v < 2 ^ 64) -> is_Some (files s !! desc_file d) ->
  exists fs, vfsFileDescriptorClose p s =
    Some (tt, if desc_refs d =? 1 then mkState (delete p (descs s)) fs (tables s)
              else mkState (<[p := release d]> (descs s)) (files s) (tables s)) /\
    forall v, files s !! desc_file d = Some v -> fs = drop_file (files s) (desc_file d) v.
Proof.
  intros Hp Hd Hv [v Hf]. exists (drop_file (files s) (desc_file d) v).
  split; [|by rewrite Hf; intros ? [= ->]].
  unfold vfsFileDescriptorClose, get_desc, mbind, M_bind. rewrite Hp. cbn [option_bind].
  assert (E : u64 (desc_refs d - 1) = desc_refs d - 1) by (apply (wrap_small 64); lia). rewrite E.
  destruct (Z.eqb_spec (desc_refs d - 1) 0), (Z.eqb_spec (desc_refs d) 1); try lia; [|done].
  cbn. rewrite (vfsFileClose_eq _ _ v); [done|done|by apply Hv].
Qed.

Lemma not_in_others s q p : ok s -> p ∈ table s q -> forall q', q' <> q -> p ∉ table s q'.
Proof. intros Hs Hp q' Hq H. apply Hq. by eapply ok_disjoint. Qed.

Lemma fds_frame s s' q :
  table s' q = table s q -> (forall p, p ∈ table s q -> visible <$> descs s' !! p = visible <$> descs s !! p) ->
  fds s' q = fds s q.
Proof.
  intros Ht Hd. unfold fds. rewrite Ht. clear Ht. f_equal. induction (table s q) as [|p l IH]; [done|]. cbn.
  rewrite Hd by apply list_elem_of_here. rewrite IH; [done|]. intros x Hx. apply Hd. by apply list_elem_of_further.
Qed.

Lemma drop_file_lookup fs f v f' :
  fs !! f = Some v ->
  drop_file fs f v !! f' =
    if decide (f' = f) then (if file_refs v =? 1 then None else Some (mkFile (file_refs v - 1) (file_flags v))) else fs !! f'.
Proof.
  intros Hf. unfold drop_file. destruct (decide (f' = f)) as [->|Hn], (file_refs v =? 1).
  - apply lookup_delete_eq.
  - apply lookup_insert_eq.
  - by apply lookup_delete_ne.
  - by apply lookup_insert_ne.
Qed.

Lemma ids_ascending vs vs' : desc_id <$> vs' = desc_id <$> vs -> ascending vs -> ascending vs'.
Proof.
  revert vs'. induction vs as [|d vs IH]; intros [|d' vs'] E; try done. rewrite !fmap_cons in E. injection E as Ed E.
  intros [Hd Hs]. split; [|by apply IH]. rewrite Ed.
  apply (Forall_fmap desc_id (fun i => desc_id d < i)). rewrite E. by apply Forall_fmap.
Qed.

Lemma rep_update ds p d' l vs d :
  rep ds l vs -> ds !! p = Some d -> desc_id d' = desc_id d ->
  exists vs', rep (<[p := d']> ds) l vs' /\ desc_id <$> vs' = desc_id <$> vs.
Proof.
  intros H Hp Hi. induction H as [|x dx l vs Hx H (vs' & H1 & H2)]; [by exists []; split; constructor|].
  destruct (decide (x = p)) as [->|Hn].
  - exists (d' :: vs'). split; [constructor; [apply lookup_insert_eq|done]|]. rewrite !fmap_cons, H2. congruence.
  - exists (dx :: vs'). split; [constructor; [by rewrite lookup_insert_ne|done]|]. by rewrite !fmap_cons, H2.
Qed.

(** Closing a descriptor that is in no table, or that something else still holds. *)
Lemma descriptorClose_ok s p d :
  ok s -> descs s !! p = Some d -> (desc_refs d = 1 -> forall q, p ∉ table s q) ->
  exists s', vfsFileDescriptorClose p s = Some (tt, s') /\ ok s' /\ tables s' = tables s /\
    (forall q, fds s' q = fds s q) /\ (forall f, outside s' f = outside s f) /\
    (forall x, x <> p -> descs s' !! x = descs s !! x) /\ (size (descs s') <= size (descs s))%nat.
Proof.
  intros Hs Hp Hq. destruct (ok_desc s Hs p d Hp) as [Hid Hd]. destruct (ok_file s Hs p d Hp) as [v Hv]. destruct (ok_refs s Hs _ _ Hv) as [Hc1 Hc2].
  destruct (vfsFileDescriptorClose_eq s p d Hp Hd) as (fs & E & Hfs).
  { intros v' Hv'. destruct (ok_refs s Hs _ _ Hv'). lia. }
  { by exists v. }
  rewrite E. specialize (Hfs v Hv). subst fs.
  pose proof (holders_pos _ _ _ Hp) as Hpos.
  destruct (Z.eqb_spec (desc_refs d) 1) as [E1|E1]; (eexists; split; [done|]).
  - assert (Hne : forall q x, x ∈ table s q -> x <> p) by (intros q x Hx ->; by eapply Hq).
    assert (Hh : forall f, holders (delete p (descs s)) f = holders (descs s) f - if decide (desc_file d = f) then 1 else 0)
      by (intros; by apply holders_delete).
    split_and!; [split; cbn| | | | |]; cbn.
    + intros q. destruct (ok_table s Hs q) as (vs & Hr & Hvs). exists vs. split; [|done].
      eapply rep_frame; [|exact Hr]. intros x Hx. by rewrite lookup_delete_ne by (symmetry; by eapply Hne).
    + intros x d' Hx. apply lookup_delete_Some in Hx as [_ Hx]. by eapply ok_desc.
    + apply (ok_disjoint s Hs).
    + intros x d' Hx. apply lookup_delete_Some in Hx as [Hxp Hx]. rewrite (drop_file_lookup _ _ _ _ Hv). case_decide as Ef; [|by eapply ok_file].
      destruct (Z.eqb_spec (file_refs v) 1); [exfalso|done].
      assert (Hx' : delete p (descs s) !! x = Some d') by (by rewrite lookup_delete_ne).
      apply holders_pos in Hx'. rewrite Hh, Ef, decide_True in Hx' by done. lia.
    + intros f v' Hf. rewrite Hh. rewrite (drop_file_lookup _ _ _ _ Hv) in Hf. repeat case_decide; try congruence.
      * destruct (Z.eqb_spec (file_refs v) 1); [done|]. injection Hf as <-. cbn. subst f. lia.
      * destruct (ok_refs s Hs _ _ Hf). lia.
    + done.
    + intros q. apply fds_frame; [done|]. intros x Hx. cbn. by rewrite lookup_delete_ne by (symmetry; by eapply Hne).
    + intros f. unfold outside. cbn. rewrite Hh, (drop_file_lookup _ _ _ _ Hv). repeat case_decide; try congruence; [|lia].
      subst f. rewrite Hv. destruct (Z.eqb_spec (file_refs v) 1); cbn; lia.
    + intros x Hx. by rewrite lookup_delete_ne.
    + rewrite map_size_delete_Some by done. lia.
  - assert (Hh : forall f, holders (<[p := release d]> (descs s)) f = holders (descs s) f)
      by (intros; by apply (holders_update _ _ d)).
    split_and!; [split; cbn| | | | |]; cbn.
    + intros q. destruct (ok_table s Hs q) as (vs & Hr & Hs1).
      destruct (rep_update _ _ (release d) _ _ _ Hr Hp) as (vs' & H1 & H2); [done|].
      exists vs'. split; [done|by eapply ids_ascending].
    + intros x d' Hx. apply lookup_insert_Some in Hx as [[-> <-]|[_ Hx]]; [|by eapply ok_desc].
      split; [done|cbn; lia].
    + apply (ok_disjoint s Hs).
    + intros x d' Hx. apply lookup_insert_Some in Hx as [[-> <-]|[_ Hx]]; [by exists v|by eapply ok_file].
    + intros f v' Hf. rewrite Hh. by apply (ok_refs s Hs).
    + done.
    + intros q. apply fds_frame; [done|]. intros x Hx. cbn. destruct (decide (x = p)) as [->|].
      * by rewrite lookup_insert_eq, Hp.
      * by rewrite lookup_insert_ne.
    + intros f. unfold outside. cbn. by rewrite Hh.
    + intros x Hx. by rewrite lookup_insert_ne.
    + by rewrite map_size_insert_Some.
Qed.

Definition with_table (s : state) (q : Z) (l : list Z) : state := mkState (descs s) (files s) (<[q := l]> (tables s)).

Lemma table_with s q l q' : table (with_table s q l) q' = if decide (q' = q) then l else table s q'.
Proof. unfold table, with_table. cbn. case_decide as E; [subst; by rewrite lookup_insert_eq|by rewrite lookup_insert_ne]. Qed.

(** A part of a table is a table. *)
Lemma with_sub_ok s q l vs :
  ok s -> (forall p, p ∈ l -> p ∈ table s q) -> rep (descs s) l vs -> ascending vs -> ok (with_table s q l).
Proof.
  intros Hs Hl Hr Ha. split.
  - intros q'. rewrite table_with. case_decide; [by exists vs|]. exact (ok_table s Hs q').
  - apply (ok_desc s Hs).
  - intros q1 q2 p. rewrite !table_with. repeat case_decide; subst; try done; intros H1 H2.
    + eapply (ok_disjoint s Hs); [by apply Hl|done].
    + eapply (ok_disjoint s Hs); [done|by apply Hl].
    + by eapply (ok_disjoint s Hs).
  - apply (ok_file s Hs).
  - apply (ok_refs s Hs).
Qed.

Lemma fds_with_other s q l q' : q' <> q -> fds (with_table s q l) q' = fds s q'.
Proof. intros Hq. apply fds_frame; [|done]. by rewrite table_with, decide_False. Qed.

(** A descriptor is once in its table. *)
Lemma ascending_once ds la lb p d va vb :
  rep ds la va -> rep ds lb vb -> ds !! p = Some d -> ascending (va ++ d :: vb) -> p ∉ la ++ lb.
Proof.
  intros Ha Hb Hp Hs Hin. apply ascending_app in Hs as (_ & [Hd _] & Hab).
  rewrite List.Forall_forall in Hd, Hab. apply elem_of_app in Hin as [Hin|Hin].
  - destruct (rep_in _ _ _ _ Ha Hin) as (d' & Hv & Hd'). assert (d' = d) as -> by congruence.
    apply list_elem_of_In in Hv. specialize (Hab _ Hv). apply Forall_cons_1 in Hab as [Hlt _]. lia.
  - destruct (rep_in _ _ _ _ Hb Hin) as (d' & Hv & Hd'). assert (d' = d) as -> by congruence.
    apply list_elem_of_In in Hv. specialize (Hd _ Hv). cbn in Hd. lia.
Qed.

(** What an operation on the table of a process leaves alone. *)
Record preserves (q : Z) (s s' : state) : Prop := {
  p_table : forall q', q' <> q -> table s' q' = table s q';
  p_desc : forall q' p, q' <> q -> p ∈ table s q' -> descs s' !! p = descs s !! p;
  p_outside : forall f, outside s' f = outside s f;
}.

Lemma p_fds q s s' q' : preserves q s s' -> q' <> q -> fds s' q' = fds s q'.
Proof.
  intros [H1 H2 _] Hq. apply fds_frame; [by apply H1|]. intros p Hp. by rewrite (H2 q').
Qed.

Lemma preserves_trans q s1 s2 s3 : preserves q s1 s2 -> preserves q s2 s3 -> preserves q s1 s3.
Proof.
  intros [A1 A2 A3] [B1 B2 B3]. split.
  - intros q' Hq. rewrite B1 by done. by apply A1.
  - intros q' p Hq Hp. rewrite (B2 q') by (done || by rewrite A1). by apply (A2 q').
  - intros f. rewrite B3. apply A3.
Qed.

(** Taking a descriptor out of its table and closing it. *)
Lemma remove_desc s q la p lb va d vb :
  ok s -> table s q = la ++ p :: lb -> rep (descs s) la va -> rep (descs s) lb vb -> descs s !! p = Some d ->
  ascending (va ++ d :: vb) ->
  exists s', (set_table q (la ++ lb);; vfsFileDescriptorClose p) s = Some (tt, s') /\ ok s' /\
    fds s' q = delete (desc_id d) (fds s q) /\ preserves q s s' /\ table s' q = la ++ lb /\
    rep (descs s') la va /\ rep (descs s') lb vb /\ tables s' = <[q := la ++ lb]> (tables s) /\
    (size (descs s') <= size (descs s))%nat.
Proof.
  intros Hs Ht Ha Hb Hp Hasc.
  assert (Hasc' : ascending (va ++ vb)).
  { apply ascending_app in Hasc as (H1 & [_ H2] & H3). apply ascending_app. split_and!; [done|done|].
    eapply Forall_impl; [|exact H3]. intros x Hx. by apply Forall_cons_1 in Hx as [_ Hx]. }
  pose proof (ascending_once _ _ _ _ _ _ _ Ha Hb Hp Hasc) as Hnin.
  assert (Hsub : forall x, x ∈ la ++ lb -> x ∈ table s q) by (intros x; rewrite Ht, !elem_of_app, elem_of_cons; tauto).
  pose proof (with_sub_ok s q (la ++ lb) (va ++ vb) Hs Hsub (rep_join _ _ _ _ _ Ha Hb) Hasc') as Hs1.
  destruct (descriptorClose_ok (with_table s q (la ++ lb)) p d Hs1 Hp) as (s' & E & Hs' & Et & Hf & Ho & Hd & Hsz).
  { intros _ q'. rewrite table_with. case_decide; [done|]. intros Hin.
    assert (q' = q) as ->; [|done]. eapply (ok_disjoint s Hs); [done|]. rewrite Ht, elem_of_app, elem_of_cons. auto. }
  assert (Hr : forall l vs, rep (descs s) l vs -> (forall x, x ∈ l -> x ∈ la ++ lb) -> rep (descs s') l vs).
  { intros l vs Hr Hl. eapply rep_frame; [|exact Hr]. intros x Hx. apply Hd. intros ->. by apply Hnin, Hl. }
  assert (Ha' : rep (descs s') la va) by (apply Hr; [done|]; intros; apply elem_of_app; auto).
  assert (Hb' : rep (descs s') lb vb) by (apply Hr; [done|]; intros; apply elem_of_app; auto).
  assert (Ht' : table s' q = la ++ lb) by (unfold table; rewrite Et; cbn; by rewrite lookup_insert_eq).
  exists s'. split_and!; try done.
  - rewrite (fds_rep s' q (va ++ vb)) by (rewrite Ht'; by apply rep_join).
    rewrite (fds_rep s q (va ++ d :: vb)).
    + apply tmap_delete. apply ascending_app in Hasc as (_ & [H1 _] & H2). apply Forall_app. split.
      * eapply Forall_impl; [|exact H2]. intros x Hx. apply Forall_cons_1 in Hx as [Hx _]. lia.
      * eapply Forall_impl; [|exact H1]. cbn. lia.
    + rewrite Ht. apply rep_join; [done|]. by constructor.
  - split; [|intros q' x Hq Hx; apply Hd; intros ->|done].
    + intros q' Hq. unfold table. rewrite Et. cbn. by rewrite lookup_insert_ne.
    + apply Hq. eapply (ok_disjoint s Hs); [exact Hx|]. rewrite Ht, elem_of_app, elem_of_cons. auto.
Qed.

(** Where a number is, or would be, in the table of a process. *)
Lemma split_at s q fd :
  ok s ->
  exists la lb va vb, skip_below (descs s) fd (table s q) = Some (la, lb) /\ table s q = la ++ lb /\
    rep (descs s) la va /\ rep (descs s) lb vb /\ ascending (va ++ vb) /\
    Forall (fun d => desc_id d < fd) va /\ Forall (fun d => fd <= desc_id d) vb.
Proof.
  intros Hs. destruct (ok_table s Hs q) as (vs & Hr & Ha).
  destruct (skip_below_spec _ fd _ _ Hr Ha) as (la & lb & va & vb & E & Et & -> & Hla & Hlb & H1 & H2).
  exists la, lb, va, vb. by rewrite Et in *.
Qed.

Lemma delete_absent va vb fd :
  Forall (fun d => desc_id d < fd) va -> Forall (fun d => fd < desc_id d) vb -> delete fd (tmap (va ++ vb)) = tmap (va ++ vb).
Proof.
  intros Ha Hb. apply delete_id, tmap_none, Forall_app. split; eapply Forall_impl; try eassumption; cbn; lia.
Qed.

Lemma above_head d vb fd :
  ascending (d :: vb) -> fd < desc_id d -> Forall (fun x => fd < desc_id x) (d :: vb).
Proof. intros [Hd _] Hlt. constructor; [done|]. eapply Forall_impl; [|exact Hd]. cbn. lia. Qed.

(** Closing a number takes it out of the table of the process; the references
    from outside the descriptors stay as they are. *)
Lemma close_splits s q fd :
  ok s ->
  exists s' la lb va vb, closeFileDescriptor q fd s = Some (tt, s') /\ ok s' /\
    fds s' q = delete fd (fds s q) /\ preserves q s s' /\ table s' q = la ++ lb /\
    rep (descs s') la va /\ rep (descs s') lb vb /\ ascending (va ++ vb) /\
    Forall (fun d => desc_id d < fd) va /\ Forall (fun d => fd < desc_id d) vb /\ (size (descs s') <= size (descs s))%nat.
Proof.
  intros Hs. destruct (split_at s q fd Hs) as (la & lb & va & vb & E & Et & Ha & Hb & Hasc & H1 & H2).
  unfold closeFileDescriptor, whole, lift, mbind, M_bind. cbn [option_bind]. rewrite E. cbn [option_bind].
  assert (Hno : forall vb', rep (descs s) lb vb' -> Forall (fun d => fd < desc_id d) vb' -> ascending (va ++ vb') ->
    exists s' la lb va vb, mret (M := M state) tt s = Some (tt, s') /\ ok s' /\
    fds s' q = delete fd (fds s q) /\ preserves q s s' /\ table s' q = la ++ lb /\
    rep (descs s') la va /\ rep (descs s') lb vb /\ ascending (va ++ vb) /\
    Forall (fun d => desc_id d < fd) va /\ Forall (fun d => fd < desc_id d) vb /\ (size (descs s') <= size (descs s))%nat).
  { intros vb' Hr' Hv' Hasc'. exists s, la, lb, va, vb'. split_and!; try done.
    rewrite (fds_rep s q (va ++ vb')) by (rewrite Et; by apply rep_join). by rewrite delete_absent. }
  destruct Hb as [|p d lb vb Hp Hb].
  - cbn. apply (Hno []); [constructor|constructor|done].
  - cbn [head_is]. rewrite Hp. cbn [mbind option_bind]. apply Forall_cons_1 in H2 as [Hd H2].
    pose proof Hasc as Hasc0. apply ascending_app in Hasc0 as (_ & Hdb & _).
    destruct (Z.eqb_spec (desc_id d) fd) as [Ef|Ef].
    + destruct (remove_desc s q la p lb va d vb Hs Et Ha Hb Hp Hasc) as (s' & E' & Hs' & Hf & Hpr & Ht' & Ha' & Hb' & _ & Hsz).
      exists s', la, lb, va, vb. rewrite <- Ef. split_and!; try done.
      * apply ascending_app in Hasc as (X & [_ Y] & Z0). apply ascending_app. split_and!; [done|done|].
        eapply Forall_impl; [|exact Z0]. intros x Hx. by apply Forall_cons_1 in Hx as [_ Hx].
      * by rewrite Ef.
      * by destruct Hdb.
    + apply (Hno (d :: vb)); [by constructor| |done]. apply above_head; [done|lia].
Qed.

Lemma fileCopy_ok s f v :
  ok s -> files s !! f = Some v -> file_refs v < 2 ^ 64 - 1 ->
  exists s', vfsFileCopy f s = Some (tt, s') /\ ok s' /\ descs s' = descs s /\ tables s' = tables s /\
    files s' = <[f := mkFile (file_refs v + 1) (file_flags v)]> (files s) /\
    (forall f', outside s' f' = outside s f' + if decide (f' = f) then 1 else 0).
Proof.
  intros Hs Hf Hv. destruct (ok_refs s Hs _ _ Hf) as [H1 H2].
  eexists. split; [by apply vfsFileCopy_eq|]. split_and!; try done; [split; cbn|]; cbn.
  - apply (ok_table s Hs).
  - apply (ok_desc s Hs).
  - apply (ok_disjoint s Hs).
  - intros p d Hp. destruct (decide (f = desc_file d)) as [->|Hn]; [rewrite lookup_insert_eq; by eexists|].
    rewrite lookup_insert_ne by done. by eapply (ok_file s Hs).
  - intros f' v' Hf'. apply lookup_insert_Some in Hf' as [[<- <-]|[_ Hf']]; [cbn; lia|by apply (ok_refs s Hs)].
  - intros f'. unfold outside. cbn. case_decide as E; [subst|rewrite lookup_insert_ne by done; lia].
    rewrite lookup_insert_eq, Hf. cbn. lia.
Qed.

Lemma insert_desc s q p fd flags file v la lb va vb :
  ok s -> table s q = la ++ lb -> rep (descs s) la va -> rep (descs s) lb vb -> ascending (va ++ vb) ->
  Forall (fun d => desc_id d < fd) va -> Forall (fun d => fd < desc_id d) vb -> 0 <= fd -> descs s !! p = None ->
  files s !! file = Some v -> holders (descs s) file < file_refs v ->
  let s' := mkState (<[p := mkDesc fd flags file 1]> (descs s)) (files s) (<[q := la ++ p :: lb]> (tables s)) in
  ok s' /\ fds s' q = <[fd := (flags, file)]> (fds s q) /\ (forall q', q' <> q -> table s' q' = table s q') /\
  (forall q' x, q' <> q -> x ∈ table s q' -> descs s' !! x = descs s !! x) /\
  (forall f, outside s' f = outside s f - if decide (f = file) then 1 else 0) /\
  (size (descs s') <= size (descs s) + 1)%nat.
Proof.
  intros Hs Ht Ha Hb Hasc H1 H2 Hfd Hp Hf Hh s'. set (nd := mkDesc fd flags file 1).
  assert (Hnot : forall q x, x ∈ table s q -> x <> p).
  { intros q0 x Hx ->. destruct (ok_table s Hs q0) as (vs & Hr & _). destruct (rep_in _ _ _ _ Hr Hx) as (d & _ & Hd). congruence. }
  assert (Hframe : forall q0 l vs, rep (descs s) l vs -> (forall x, x ∈ l -> x ∈ table s q0) -> rep (descs s') l vs).
  { intros q0 l vs Hr Hl. eapply rep_frame; [|exact Hr]. intros x Hx. cbn. rewrite lookup_insert_ne; [done|].
    intros <-. by eapply Hnot; [apply Hl|]. }
  assert (Ha' : rep (descs s') la va) by (apply (Hframe q); [done|]; intros x Hx; rewrite Ht, elem_of_app; auto).
  assert (Hb' : rep (descs s') lb vb) by (apply (Hframe q); [done|]; intros x Hx; rewrite Ht, elem_of_app; auto).
  assert (Hr' : rep (descs s') (la ++ p :: lb) (va ++ nd :: vb)).
  { apply rep_join; [done|]. constructor; [apply lookup_insert_eq|done]. }
  assert (Hasc' : ascending (va ++ nd :: vb)).
  { apply ascending_app in Hasc as (X & Y & Z0). apply ascending_app. cbn [ascending]. split_and!; try done.
    pose proof (List.Forall_and H1 Z0) as HH. eapply Forall_impl; [|exact HH]. intros x [Hx1 Hx2]. by constructor. }
  assert (Htab : forall q', table s' q' = if decide (q' = q) then la ++ p :: lb else table s q').
  { intros q'. unfold table, s'. cbn. case_decide as E; [subst; by rewrite lookup_insert_eq|by rewrite lookup_insert_ne]. }
  assert (Hhold : forall f, holders (descs s') f = holders (descs s) f + if decide (file = f) then 1 else 0)
    by (intros; by apply holders_insert).
  split_and!; [split| | | | |].
  - intros q'. rewrite Htab. case_decide; [by exists (va ++ nd :: vb)|].
    destruct (ok_table s Hs q') as (vs & Hr & Hvs). exists vs. split; [by apply (Hframe q')|done].
  - intros x d Hx. unfold s' in Hx. cbn in Hx. apply lookup_insert_Some in Hx as [[_ <-]|[_ Hx]]; [split; cbn; lia|by eapply (ok_desc s Hs)].
  - intros q1 q2 x. rewrite !Htab. repeat case_decide; subst; try done.
    + rewrite elem_of_app, elem_of_cons. intros [Hx|[->|Hx]] Hx2;
        try (eapply (ok_disjoint s Hs); [|exact Hx2]; rewrite Ht, elem_of_app; by auto). by destruct (Hnot _ _ Hx2).
    + rewrite elem_of_app, elem_of_cons. intros Hx2 [Hx|[->|Hx]];
        try (eapply (ok_disjoint s Hs); [exact Hx2|]; rewrite Ht, elem_of_app; by auto). by destruct (Hnot _ _ Hx2).
    + by apply (ok_disjoint s Hs).
  - intros x d Hx. unfold s' in Hx. cbn in Hx. apply lookup_insert_Some in Hx as [[_ <-]|[_ Hx]]; [by exists v|by eapply (ok_file s Hs)].
  - intros f v' Hv'. destruct (ok_refs s Hs _ _ Hv') as [X Y]. rewrite Hhold. case_decide as E; [|lia].
    subst f. assert (v' = v) as -> by (cbn in Hv'; congruence). lia.
  - rewrite (fds_rep s' q (va ++ nd :: vb)) by (rewrite Htab, decide_True; done).
    rewrite (fds_rep s q (va ++ vb)) by (rewrite Ht; by apply rep_join). apply (tmap_insert va nd vb).
    eapply Forall_impl; [|exact H1]. cbn. lia.
  - intros q' Hq. by rewrite Htab, decide_False.
  - intros q' x Hq Hx. cbn. rewrite lookup_insert_ne; [done|]. intros <-. by destruct (Hnot _ _ Hx).
  - intros f. unfold outside. rewrite Hhold. unfold s'. cbn. repeat case_decide; subst; try done; lia.
  - unfold s'. cbn. rewrite map_size_insert_None by done. lia.
Qed.

Lemma skip_below_eq ds fd la lb va vb :
  rep ds la va -> rep ds lb vb -> Forall (fun d => desc_id d < fd) va -> Forall (fun d => fd < desc_id d) vb ->
  skip_below ds fd (la ++ lb) = Some (la, lb) /\ head_is ds fd lb = Some false.
Proof.
  intros Ha Hb H1 H2. split.
  - induction Ha as [|p d la va Hp Ha IH]; cbn [app].
    + destruct Hb as [|p d lb vb Hp Hb]; [done|]. apply Forall_cons_1 in H2 as [Hd _]. cbn. rewrite Hp. cbn.
      by rewrite (proj2 (Z.ltb_ge _ _)) by lia.
    + apply Forall_cons_1 in H1 as [Hd H1]. cbn. rewrite Hp. cbn. rewrite (proj2 (Z.ltb_lt _ _)) by done. by rewrite IH.
  - destruct Hb as [|p d lb vb Hp Hb]; [done|]. apply Forall_cons_1 in H2 as [Hd _]. cbn. rewrite Hp. cbn.
    by rewrite (proj2 (Z.eqb_neq _ _)) by lia.
Qed.

Lemma tmap_some vs k : k ∈ desc_id <$> vs -> is_Some (tmap vs !! k).
Proof.
  induction vs as [|d vs IH]; intros Hk; [by apply not_elem_of_nil in Hk|].
  rewrite tmap_cons. destruct (decide (desc_id d = k)) as [->|Hn]; [rewrite lookup_insert_eq; by eexists|].
  rewrite lookup_insert_ne by done. apply IH. rewrite fmap_cons, elem_of_cons in Hk. destruct Hk as [->|Hk]; done.
Qed.

Lemma outside_file s f : ok s -> 0 < outside s f -> exists v, files s !! f = Some v /\ holders (descs s) f < file_refs v.
Proof.
  intros Hs Ho. unfold outside in Ho. destruct (files s !! f) as [v|]; cbn in Ho; [exists v; split; [done|lia]|].
  unfold holders in Ho. lia.
Qed.

Section Put.
Context (kalloc : gset Z -> Z) (kalloc_fresh : forall used, kalloc used ∉ used).

(** The last part of [putNewFileDescriptor], at a place in the table. *)
Definition put_at (q fd flags file : Z) (before rest : list Z) : M state Z :=
  s ← whole;
  match rest with
  | [] => mret tt
  | p :: _ => d ← get_desc p; massert (fd <? desc_id d)
  end;;
  let desc := kalloc (dom (descs s)) in
  set_desc desc (mkDesc fd flags file 1);;
  set_table q (before ++ desc :: rest);;
  mret fd.

Lemma put_at_ok s q fd flags file la lb va vb :
  ok s -> table s q = la ++ lb -> rep (descs s) la va -> rep (descs s) lb vb -> ascending (va ++ vb) ->
  Forall (fun d => desc_id d < fd) va -> Forall (fun d => fd < desc_id d) vb -> 0 <= fd -> 0 < outside s file ->
  exists s', put_at q fd flags file la lb s = Some (fd, s') /\ ok s' /\
    fds s' q = <[fd := (flags, file)]> (fds s q) /\ (forall q', q' <> q -> table s' q' = table s q') /\
    (forall q' x, q' <> q -> x ∈ table s q' -> descs s' !! x = descs s !! x) /\
    (forall f, outside s' f = outside s f - if decide (f = file) then 1 else 0) /\
    (size (descs s') <= size (descs s) + 1)%nat.
Proof.
  intros Hs Ht Ha Hb Hasc H1 H2 Hfd Ho. destruct (outside_file s file Hs Ho) as (v & Hv & Hh).
  eexists. split; [|eapply (insert_desc s q (kalloc (dom (descs s))) fd flags file v la lb va vb); try done].
  - unfold put_at, whole, get_desc, mbind, M_bind. cbn [option_bind]. destruct Hb as [|p d lb vb Hp Hb]; [done|].
    rewrite Hp. apply Forall_cons_1 in H2 as [Hd _]. cbn. by rewrite (proj2 (Z.ltb_lt _ _)) by done.
  - apply not_elem_of_dom, kalloc_fresh.
Qed.

Lemma putNewFileDescriptor_ok s q fd flags file replace v :
  ok s -> files s !! file = Some v -> file_refs v < 2 ^ 64 - 1 ->
  exists n s', putNewFileDescriptor kalloc q fd flags file replace s = Some (n, s') /\ ok s' /\
    (0 <= fd -> n = fd) /\
    (fd < 0 -> 0 <= n /\ fds s q !! n = None /\ forall k, 0 <= k < n -> is_Some (fds s q !! k)) /\
    fds s' q = <[n := (flags, file)]> (fds s q) /\ preserves q s s' /\ (size (descs s') <= size (descs s) + 1)%nat.
Proof.
  intros Hs Hf Hv. destruct (fileCopy_ok s file v Hs Hf Hv) as (s1 & E1 & Hs1 & Ed1 & Et1 & Ef1 & Ho1).
  assert (Hfds : forall q', fds s1 q' = fds s q') by (intros; unfold fds, table; by rewrite Ed1, Et1).
  assert (Htab : forall q', table s1 q' = table s q') by (intros; unfold table; by rewrite Et1).
  assert (Hout : 0 < outside s1 file).
  { rewrite Ho1, decide_True by done. unfold outside. rewrite Hf. destruct (ok_refs s Hs _ _ Hf). cbn. lia. }
  assert (Hput : putNewFileDescriptor kalloc q fd flags file replace s =
    ('(before, fd, rest) ←
      (if fd <? 0 then s ← whole; lift (skip_used (descs s) 0 (table s q))
       else closeFileDescriptor q fd;;
         s ← whole;
         '(before, rest) ← lift (skip_below (descs s) fd (table s q));
         found ← lift (head_is (descs s) fd rest);
         match (found : bool), rest with
         | true, to_remove :: rest' =>
             if replace then vfsFileDescriptorClose to_remove;; mret (before, fd, rest')
             else '(passed, fd, rest) ← lift (skip_used (descs s) fd rest); mret (before ++ passed, fd, rest)
         | _, _ => mret (before, fd, rest)
         end);
     put_at q fd flags file before rest) s1).
  { unfold putNewFileDescriptor. by rewrite (bind_some _ _ _ _ _ E1). }
  rewrite Hput. clear Hput. destruct (Z.ltb_spec fd 0) as [Hneg|Hpos].
  - destruct (ok_table s1 Hs1 q) as (vs & Hr & Hasc).
    destruct (skip_used_spec (descs s1) 0 (table s1 q) vs Hr Hasc) as (la & lb & va & vb & m & E & Et & -> & Ha & Hb & Hids & Hm & Hvb).
    { apply Forall_forall. intros d Hd. apply list_elem_of_In, list_elem_of_lookup in Hd as [i Hi].
      destruct (Forall2_lookup_r _ _ _ _ _ Hr Hi) as (p & _ & Hp). by apply (ok_desc s1 Hs1 p). }
    rewrite Z.sub_0_r in Hids.
    assert (Hva : forall d, d ∈ va -> 0 <= desc_id d < m).
    { intros d Hd. apply (elem_of_seqZ 0 m). rewrite <- Hids. by apply list_elem_of_fmap_2. }
    assert (H1 : Forall (fun d => desc_id d < m) va).
    { apply Forall_forall. intros d Hd. apply list_elem_of_In in Hd. apply Hva in Hd. lia. }
    destruct (put_at_ok s1 q m flags file la lb va vb) as (s' & E' & Hs' & Hf' & Hoth & Hdsc & Ho' & Hsz); try done.
    exists m, s'. split; [|split_and!; try done; try lia].
    + unfold whole, lift, mbind, M_bind. cbn [option_bind]. rewrite E. cbn [option_bind]. exact E'.
    + intros _. rewrite <- Hfds, (fds_rep _ _ _ Hr). split_and!; [done| |].
      * apply tmap_none, Forall_app. split; eapply Forall_impl; try eassumption; cbn; lia.
      * intros k Hk. apply tmap_some. rewrite fmap_app, elem_of_app, Hids. left. apply elem_of_seqZ. lia.
    + by rewrite Hf', Hfds.
    + split; [intros q' Hq; rewrite Hoth by done; apply Htab|intros q' x Hq Hx; rewrite Hdsc with q' x; [by rewrite Ed1|done|by rewrite Htab]|].
      intros f. rewrite Ho', Ho1. lia.
    + by rewrite <- Ed1.
  - destruct (close_splits s1 q fd Hs1) as (s2 & la & lb & va & vb & E2 & Hs2 & Hf2 & [Hoth2 Hdsc2 Ho2] & Et & Ha & Hb & Hasc & H1 & H2 & Hsz2).
    destruct (skip_below_eq _ _ _ _ _ _ Ha Hb H1 H2) as [Esk Ehd].
    destruct (put_at_ok s2 q fd flags file la lb va vb) as (s' & E' & Hs' & Hf' & Hoth & Hdsc & Ho' & Hsz); try done; [by rewrite Ho2|].
    exists fd, s'. split; [|split_and!; try done; try lia].
    + rewrite bind_assoc. rewrite (bind_some _ _ _ _ _ E2). unfold whole, lift, mbind, M_bind. cbn [option_bind].
      rewrite Et, Esk. cbn [option_bind]. rewrite Ehd. cbn [option_bind]. exact E'.
    + rewrite Hf', Hf2, Hfds. by rewrite insert_delete_eq.
    + split.
      * intros q' Hq. rewrite Hoth, Hoth2 by done. apply Htab.
      * intros q' x Hq Hx. rewrite (Hdsc q' x), (Hdsc2 q' x); [by rewrite Ed1|done|by rewrite Htab|done|by rewrite Hoth2, Htab].
      * intros f. rewrite Ho', Ho2, Ho1. lia.
    + rewrite Ed1 in Hsz2. lia.
Qed.

End Put.

(** Closing a number takes exactly that number out of the table of the
    process, drops the reference the table had, and frees the file with its
    last descriptor; a number that is not open is ignored. The tables and
    descriptors of the other processes are as before. *)
Theorem closeFileDescriptor_correct s q fd :
  ok s ->
  exists s', closeFileDescriptor q fd s = Some (tt, s') /\ ok s' /\ fds s' q = delete fd (fds s q) /\ preserves q s s'.
Proof. intros Hs. destruct (close_splits s q fd Hs) as (s' & _ & _ & _ & _ & E & Hs' & Hf & Hp & _). by exists s'. Qed.

(** ** Closing many *)

Lemma close_from_table s p s' q l :
  vfsFileDescriptorClose p (with_table s q l) = Some (tt, s') -> exists s0, vfsFileDescriptorClose p s = Some (tt, s0) /\ s' = with_table s0 q l.
Proof.
  unfold vfsFileDescriptorClose, vfsFileClose, get_desc, get_file, free_desc, free_file, set_desc, set_file, mbind, M_bind.
  cbn. destruct (descs s !! p) as [d|]; cbn; [|done]. destruct (_ =? 0); cbn.
  - destruct (files s !! desc_file d) as [v|]; cbn; [|done]. destruct (_ =? 0); intros [= <-]; by eexists.
  - intros [= <-]. by eexists.
Qed.

Lemma close_tables s p s' : vfsFileDescriptorClose p s = Some (tt, s') -> tables s' = tables s.
Proof.
  unfold vfsFileDescriptorClose, vfsFileClose, get_desc, get_file, free_desc, free_file, set_desc, set_file, mbind, M_bind.
  cbn. destruct (descs s !! p) as [d|]; cbn; [|done]. destruct (_ =? 0); cbn.
  - destruct (files s !! desc_file d) as [v|]; cbn; [|done]. destruct (_ =? 0); by intros [= <-].
  - by intros [= <-].
Qed.

Lemma with_with s q l l' : with_table (with_table s q l) q l' = with_table s q l'.
Proof. unfold with_table. cbn. by rewrite insert_insert_eq. Qed.

(** Both loops: close what the test says, keep the rest. *)
Fixpoint sweep (c : VfsFileDescriptor -> bool) (l : list Z) : M state (list Z) :=
  match l with
  | [] => mret []
  | p :: rest =>
      d ← get_desc p;
      if c d then vfsFileDescriptorClose p;; sweep c rest
      else stay ← sweep c rest; mret (p :: stay)
  end.

Lemma sweep_ok c q l : forall s la va vb,
  ok (with_table s q (la ++ l)) -> rep (descs s) la va -> rep (descs s) l vb -> ascending (va ++ vb) ->
  exists stay s', sweep c l s = Some (stay, s') /\ ok (with_table s' q (la ++ stay)) /\
    rep (descs s') (la ++ stay) (va ++ List.filter (fun d => negb (c d)) vb) /\
    preserves q (with_table s q (la ++ l)) (with_table s' q (la ++ stay)) /\ tables s' = tables s.
Proof.
  induction l as [|p l IH]; intros s la va vb Hs Ha Hb Hasc.
  - inversion Hb. subst. exists [], s. split_and!; try done. by rewrite !app_nil_r in *.
  - apply Forall2_cons_inv_l in Hb as (d & vb' & Hp & Hb & ->). cbn [sweep List.filter]. unfold get_desc at 1, mbind at 1, M_bind at 1.
    rewrite Hp. cbn [mbind option_bind]. destruct (c d) eqn:Ec; cbn [negb].
    + destruct (remove_desc (with_table s q (la ++ p :: l)) q la p l va d vb' Hs) as (s1 & E1 & Hs1 & _ & Hpr & _ & Ha1 & Hb1 & Et & _); try done.
      { by rewrite table_with, decide_True. }
      change (vfsFileDescriptorClose p (with_table (with_table s q (la ++ p :: l)) q (la ++ l)) = Some (tt, s1)) in E1.
      rewrite with_with in E1. apply close_from_table in E1 as (s0 & E0 & ->).
      destruct (IH s0 la va vb') as (stay & s' & E & Hs' & Hr' & Hpr' & Htb); try done.
      { apply ascending_app in Hasc as (X & [_ Y] & Z0). apply ascending_app. split_and!; [done|done|].
        eapply Forall_impl; [|exact Z0]. intros x Hx. by apply Forall_cons_1 in Hx as [_ Hx]. }
      exists stay, s'. rewrite (bind_some _ _ _ _ _ E0). split_and!; try done; [by eapply preserves_trans|].
      rewrite Htb. by eapply close_tables.
    + destruct (IH s (la ++ [p]) (va ++ [d]) vb') as (stay & s' & E & Hs' & Hr' & Hpr' & Htb); try (by rewrite <- app_assoc).
      * apply rep_join; [done|]. by constructor.
      * done.
      * exists (p :: stay), s'. rewrite (bind_some _ _ _ _ _ E). rewrite <- !app_assoc in *. split_and!; done.
Qed.

Definition cloexec (d : VfsFileDescriptor) : bool := negb (Z.land (desc_flags d) VFS_DESC_CLOEXEC =? 0).

Lemma exec_sweep l s : exec_loop l s = sweep cloexec l s.
Proof.
  revert s. induction l as [|p l IH]; intros s; [done|]. cbn [exec_loop sweep]. unfold cloexec.
  unfold get_desc, mbind, M_bind. destruct (descs s !! p) as [d|]; cbn [mbind option_bind]; [|done].
  destruct (negb (Z.land (desc_flags d) VFS_DESC_CLOEXEC =? 0)).
  - destruct (vfsFileDescriptorClose p s) as [[[] s2]|]; [|done]. apply IH.
  - by rewrite IH.
Qed.

Lemma tmap_filter (c : VfsFileDescriptor -> bool) (P : Z * (Z * Z) -> Prop) `{!forall x, Decision (P x)} vs :
  (forall d, c d = true <-> P (visible d)) -> ascending vs -> tmap (List.filter c vs) = filter P (tmap vs).
Proof.
  intros Hc. induction vs as [|d vs IH]; intros Hs; [symmetry; apply map_filter_empty|]. destruct Hs as [Hd Hs].
  rewrite tmap_cons. cbn [List.filter]. destruct (c d) eqn:E.
  - rewrite tmap_cons, IH by done. rewrite map_filter_insert_True; [done|]. by apply (Hc d).
  - rewrite IH by done. rewrite map_filter_insert_False.
    + rewrite delete_id; [done|]. apply tmap_none. eapply Forall_impl; [|exact Hd]. cbn. lia.
    + intros HP. apply (Hc d) in HP. congruence.
Qed.

Lemma with_id_fds s q : (forall q', fds (with_table s q (table s q)) q' = fds s q') /\ (ok s -> ok (with_table s q (table s q))).
Proof.
  assert (Ht : forall q', table (with_table s q (table s q)) q' = table s q').
  { intros q'. rewrite table_with. case_decide; [by subst|done]. }
  split; [intros q'; by apply fds_frame|]. intros Hs. split.
  - intros q'. rewrite Ht. apply (ok_table s Hs).
  - apply (ok_desc s Hs).
  - intros q1 q2 p. rewrite !Ht. apply (ok_disjoint s Hs).
  - apply (ok_file s Hs).
  - apply (ok_refs s Hs).
Qed.

(** What is left of the table after an [exec]: the numbers without
    [VFS_DESC_CLOEXEC], each with the file it had. *)
Theorem closeExecProcessFiles_correct s q :
  ok s ->
  exists s', closeExecProcessFiles q s = Some (tt, s') /\ ok s' /\ preserves q s s' /\
    fds s' q = filter (fun e => Z.land (fst (snd e)) VFS_DESC_CLOEXEC = 0) (fds s q).
Proof.
  intros Hs. destruct (with_id_fds s q) as [Hf Hok]. destruct (ok_table s Hs q) as (vs & Hr & Ha).
  destruct (sweep_ok cloexec q (table s q) s [] [] vs (Hok Hs)) as (stay & s' & E & Hs' & Hr' & Hp & Et); [constructor|done|done|].
  exists (with_table s' q stay). split_and!; [|done| |].
  - unfold closeExecProcessFiles, whole, mbind, M_bind. cbn [option_bind]. rewrite exec_sweep, E. done.
  - destruct Hp as [H1 H2 H3]. split; [|intros q' p Hq Hp'; apply (H2 q' p Hq); by rewrite table_with, decide_False|done].
    intros q' Hq. etransitivity; [by apply H1|]. by rewrite table_with, decide_False.
  - rewrite (fds_rep _ q (List.filter (fun d => negb (cloexec d)) vs)) by (by rewrite table_with, decide_True).
    rewrite (fds_rep _ _ _ Hr). apply tmap_filter; [|done]. intros d. unfold cloexec. rewrite negb_involutive, Z.eqb_eq. done.
Qed.

Lemma close_sweep l s stay s' : sweep (fun _ => true) l s = Some (stay, s') -> close_loop l s = Some (tt, s') /\ stay = [].
Proof.
  revert s. induction l as [|p l IH]; intros s; cbn [sweep close_loop].
  - by intros [= <- <-].
  - unfold mbind, M_bind. destruct (get_desc p s) as [[d s1]|] eqn:Eg; [|done]. cbn [option_bind].
    assert (s1 = s) as -> by (unfold get_desc in Eg; destruct (descs s !! p); [by injection Eg as _ <-|done]).
    destruct (vfsFileDescriptorClose p s) as [[[] s2]|]; [|done]. cbn. apply IH.
Qed.

(** A process that ends has no number left, and every file has lost exactly
    the references of that process. *)
Theorem closeAllProcessFiles_correct s q :
  ok s -> exists s', closeAllProcessFiles q s = Some (tt, s') /\ ok s' /\ preserves q s s' /\ fds s' q = ∅.
Proof.
  intros Hs. destruct (with_id_fds s q) as [Hf Hok]. destruct (ok_table s Hs q) as (vs & Hr & Ha).
  destruct (sweep_ok (fun _ => true) q (table s q) s [] [] vs (Hok Hs)) as (stay & s' & E & Hs' & Hr' & Hp & Et); [constructor|done|done|].
  apply close_sweep in E as [E ->]. exists (with_table s' q []). split_and!; [|done| |].
  - unfold closeAllProcessFiles, whole, mbind, M_bind. cbn [option_bind]. by rewrite E.
  - destruct Hp as [H1 H2 H3]. split; [|intros q' p Hq Hp'; apply (H2 q' p Hq); by rewrite table_with, decide_False|done].
    intros q' Hq. etransitivity; [by apply H1|]. by rewrite table_with, decide_False.
  - unfold fds. by rewrite table_with, decide_True.
Qed.

(** ** Forking *)

Lemma refs_bound s f v : ok s -> files s !! f = Some v -> file_refs v <= outside s f + Z.of_nat (size (descs s)).
Proof.
  intros Hs Hf. unfold outside. rewrite Hf. cbn. unfold holders.
  assert (size (filter (fun pd => desc_file (snd pd) = f) (descs s)) <= size (descs s))%nat; [|lia].
  apply map_subseteq_size, map_filter_subseteq.
Qed.

Section Fork.
Context (kalloc : gset Z -> Z) (kalloc_fresh : forall used, kalloc used ∉ used).

Lemma fork_loop_ok q old l : forall s vs,
  ok s -> q <> old -> (forall p, p ∈ l -> p ∈ table s old) -> rep (descs s) l vs -> ascending vs ->
  (forall f, outside s f + Z.of_nat (size (descs s) + length l) < 2 ^ 64 - 1) ->
  exists s', fork_loop kalloc q l s = Some (tt, s') /\ ok s' /\ fds s' q = tmap vs ∪ fds s q /\ preserves q s s'.
Proof.
  induction l as [|p l IH]; intros s vs Hs Hq Hl Hr Ha Hb.
  - inversion Hr. exists s. split_and!; try done. symmetry. apply map_empty_union.
  - apply Forall2_cons_inv_l in Hr as (d & vs' & Hp & Hr & ->). destruct Ha as [Hd Ha].
    destruct (ok_file s Hs p d Hp) as [v Hv]. destruct (ok_desc s Hs p d Hp) as [Hid _].
    pose proof (refs_bound s _ v Hs Hv) as Hrb. pose proof (Hb (desc_file d)) as Hb0. cbn [length] in Hb, Hb0.
    destruct (putNewFileDescriptor_ok kalloc kalloc_fresh s q (desc_id d) (desc_flags d) (desc_file d) false v Hs Hv)
      as (n & s1 & E & Hs1 & Hn & _ & Hf & Hpr & Hsz); [lia|]. rewrite (Hn Hid) in Hf.
    assert (Hl' : forall x, x ∈ l -> x ∈ table s old) by (intros x Hx; apply Hl; by apply list_elem_of_further).
    destruct (IH s1 vs') as (s' & E' & Hs' & Hf' & Hpr'); try done.
    { intros x Hx. rewrite (p_table _ _ _ Hpr old) by done. by apply Hl'. }
    { eapply rep_frame; [|exact Hr]. intros x Hx. apply (p_desc _ _ _ Hpr old); [done|by apply Hl']. }
    { intros f. rewrite (p_outside _ _ _ Hpr). specialize (Hb f). lia. }
    exists s'. split_and!; try done; [| |by eapply preserves_trans].
    + cbn [fork_loop]. unfold get_desc, mbind at 1, M_bind at 1. rewrite Hp. cbn [mbind option_bind].
      rewrite (bind_some _ _ _ _ _ E). done.
    + rewrite Hf', Hf, tmap_cons, <- insert_union_l. symmetry. apply insert_union_r, tmap_none.
      eapply Forall_impl; [|exact Hd]. cbn. lia.
Qed.

(** C28: A new descriptor: the number asked for, which is closed first, or the
    lowest that is free.  The table of the process gains exactly that number,
    the other processes keep theirs, and what holds each file is counted. *)
Theorem putNewFileDescriptor_correct s q fd flags file replace v :
  ok s -> files s !! file = Some v -> file_refs v < 2 ^ 64 - 1 ->
  exists n s', putNewFileDescriptor kalloc q fd flags file replace s = Some (n, s') /\ ok s' /\
    (0 <= fd -> n = fd) /\
    (fd < 0 -> 0 <= n /\ fds s q !! n = None /\ forall k, 0 <= k < n -> is_Some (fds s q !! k)) /\
    fds s' q = <[n := (flags, file)]> (fds s q) /\ preserves q s s' /\ (size (descs s') <= size (descs s) + 1)%nat.
Proof. by apply putNewFileDescriptor_ok. Qed.

(** A fork gives the new process the numbers of the old one, with the same
    files behind them: every file has one more holder for each number. *)
Theorem forkFileDescriptors_correct s new old :
  ok s -> new <> old -> table s new = [] ->
  (forall f, outside s f + Z.of_nat (size (descs s) + length (table s old)) < 2 ^ 64 - 1) ->
  exists s', forkFileDescriptors kalloc new old s = Some (tt, s') /\ ok s' /\
    fds s' new = fds s old /\ fds s' old = fds s old /\ preserves new s s'.
Proof.
  intros Hs Hn Ht Hb. destruct (ok_table s Hs old) as (vs & Hr & Ha).
  destruct (fork_loop_ok new old (table s old) s vs Hs Hn) as (s' & E & Hs' & Hf & Hp); try done.
  exists s'. split_and!; try done.
  - rewrite Hf, (fds_rep _ _ _ Hr). unfold fds. rewrite Ht. cbn. by rewrite (right_id_L ∅ (∪)).
  - apply (p_fds new); [done|]. by apply not_eq_sym.
Qed.

End Fork.

(** ** Witnesses and examples *)

Definition next_address (used : gset Z) : Z := 1 + foldr Z.max 0 (elements used).

Lemma next_address_fresh used : next_address used ∉ used.
Proof.
  intros H. apply elem_of_elements in H. unfold next_address in H.
  assert (Hmax : forall l x, x ∈ l -> x <= foldr Z.max 0 l).
  { induction l as [|y l IH]; intros x Hx; [by apply not_elem_of_nil in Hx|].
    apply elem_of_cons in Hx as [->|Hx]; cbn; [lia|]. specialize (IH x Hx). lia. }
  specialize (Hmax _ _ H). lia.
Qed.

(** Two processes: 0, 1 and 3 of the first, the last closed on [exec]; the
    second has 0, which is the same file as that of the first. *)
Definition ex_state : state :=
  mkState (<[10 := mkDesc 0 0 100 1]> (<[11 := mkDesc 1 0 200 2]> (<[12 := mkDesc 3 1 200 1]> {[ 13 := mkDesc 0 0 100 1 ]})))
    (<[100 := mkFile 2 3]> {[ 200 := mkFile 3 3 ]}) (<[1 := [10; 11; 12]]> {[ 2 := [13] ]}).

Lemma ex_ok : ok ex_state.
Proof.
  assert (Ht : forall q, table ex_state q = if decide (q = 1) then [10; 11; 12] else if decide (q = 2) then [13] else []).
  { intros q. unfold table, ex_state. cbn [tables]. destruct (decide (q = 1)) as [->|]; [done|]. rewrite lookup_insert_ne by done.
    destruct (decide (q = 2)) as [->|]; [done|]. by rewrite lookup_singleton_ne. }
  split.
  - intros q. rewrite Ht. repeat case_decide.
    + exists [mkDesc 0 0 100 1; mkDesc 1 0 200 2; mkDesc 3 1 200 1]. split; [by repeat constructor|].
      cbn. repeat constructor; cbn; lia.
    + exists [mkDesc 0 0 100 1]. split; [by repeat constructor|]. by repeat constructor.
    + exists []. split; [constructor|done].
  - intros p d Hp. unfold ex_state in Hp. cbn [descs] in Hp.
    repeat (apply lookup_insert_Some in Hp as [[_ <-]|[_ Hp]]; [split; cbn; lia|]).
    apply lookup_singleton_Some in Hp as [_ <-]. split; cbn; lia.
  - intros q q' p. rewrite !Ht. repeat case_decide; subst; rewrite ?elem_of_cons, ?elem_of_nil; try done; lia.
  - intros p d Hp. unfold ex_state in *. cbn [descs files] in *.
    repeat (apply lookup_insert_Some in Hp as [[_ <-]|[_ Hp]]; [by eexists|]).
    apply lookup_singleton_Some in Hp as [_ <-]. by eexists.
  - intros f v Hf. unfold ex_state in Hf. cbn [files] in Hf.
    apply lookup_insert_Some in Hf as [[<- <-]|[_ Hf]]; [vm_compute; repeat split; congruence|].
    apply lookup_singleton_Some in Hf as [<- <-]. vm_compute; repeat split; congruence.
Qed.

Lemma putNewFileDescriptor_correct_witness :
  exists n s', putNewFileDescriptor next_address 1 (-1) 0 200 false ex_state = Some (n, s') /\ fds ex_state 1 !! n = None /\
    fds s' 1 = <[n := (0, 200)]> (fds ex_state 1) /\ preserves 1 ex_state s'.
Proof.
  destruct (putNewFileDescriptor_correct next_address next_address_fresh ex_state 1 (-1) 0 200 false (mkFile 3 3) ex_ok)
    as (n & s' & E & _ & _ & Hn & Hf & Hp & _); [done|cbn; lia|].
  exists n, s'. split; [exact E|]. split; [apply Hn; lia|]. split; [exact Hf|exact Hp].
Defined.

Lemma closeFileDescriptor_correct_witness :
  exists s', closeFileDescriptor 1 1 ex_state = Some (tt, s') /\ fds s' 1 = delete 1 (fds ex_state 1).
Proof.
  destruct (closeFileDescriptor_correct ex_state 1 1 ex_ok) as (s' & E & _ & Hf & _). exists s'. split; [exact E|exact Hf].
Defined.

Lemma closeExecProcessFiles_correct_witness :
  exists s', closeExecProcessFiles 1 ex_state = Some (tt, s') /\
    fds s' 1 = filter (fun e => Z.land (fst (snd e)) VFS_DESC_CLOEXEC = 0) (fds ex_state 1).
Proof.
  destruct (closeExecProcessFiles_correct ex_state 1 ex_ok) as (s' & E & _ & _ & Hf). exists s'. split; [exact E|exact Hf].
Defined.

Lemma closeAllProcessFiles_correct_witness :
  exists s', closeAllProcessFiles 1 ex_state = Some (tt, s') /\ fds s' 1 = ∅.
Proof.
  destruct (closeAllProcessFiles_correct ex_state 1 ex_ok) as (s' & E & _ & _ & Hf). exists s'. split; [exact E|exact Hf].
Defined.

Lemma forkFileDescriptors_correct_witness :
  exists s', forkFileDescriptors next_address 7 1 ex_state = Some (tt, s') /\ fds s' 7 = fds ex_state 1.
Proof.
  destruct (forkFileDescriptors_correct next_address next_address_fresh ex_state 7 1 ex_ok) as (s' & E & _ & Hf & _).
  - lia.
  - reflexivity.
  - intros f. unfold outside, ex_state. cbn [files descs]. unfold holders.
    assert (default 0 (file_refs <$> (<[100 := mkFile 2 3]> {[200 := mkFile 3 3]} : gmap Z VfsFile) !! f) <= 3).
    { destruct (decide (f = 100)) as [->|]; [done|]. rewrite lookup_insert_ne by done.
      destruct (decide (f = 200)) as [->|]; [done|]. by rewrite lookup_singleton_ne. }
    match goal with |- ?x - Z.of_nat ?n + Z.of_nat ?k < _ => assert (k = 7%nat) as -> by (vm_compute; reflexivity) end. lia.
  - exists s'. split; [exact E|exact Hf].
Defined.

(** [F_DUPFD] asks for the lowest free number from 1 on, which is 2; it closes
    the descriptor 1 and takes its place. *)
Example dupfd_closes :
  match fcntlSyscall next_address 1 0 VFS_FCNTL_DUPFD 1 ex_state with
  | Some (n, s') => n = 1 /\ fds ex_state 1 !! 1 = Some (0, 200) /\ fds s' 1 !! 1 = Some (0, 100)
  | None => False
  end.
Proof. vm_compute. repeat split. Qed.

(** An unknown request keeps the reference to the descriptor. *)
Example fcntl_keeps_reference :
  match fcntlSyscall next_address 1 0 99 0 ex_state with
  | Some (n, s') => n = - EINVAL /\ (desc_refs <$> descs ex_state !! 10) = Some 1 /\ (desc_refs <$> descs s' !! 10) = Some 2
  | None => False
  end.
Proof. vm_compute. repeat split. Qed.

End FileTable.
