(* ===== verification/VfsFs.v ===== *)
(** * VfsFs: paths, mounts and permissions, [kernel/src/files/vfs/fs.c]

    A node stands for its pointer: the cache keeps one pointer for each open
    node.  What [node.c], [super.c] and the filesystems do is behind the class
    [Nodes]; [VfsCache] holds the counting that [NodesLaws] asks for.  Strings
    that are arguments are lists of characters without the NUL; a path that is
    stored with a file is a buffer with it.  The locks make a step of each access
    to a node. *)
From S2P Require Import Prelude Util CString Path Errors.
Import Errors.

Module VfsFs.

(** ** Modes and access *)

Definition VFS_TYPE_FIFO : Z := 1.
Definition VFS_TYPE_CHAR : Z := 2.
Definition VFS_TYPE_DIR : Z := 4.
Definition VFS_TYPE_BLOCK : Z := 6.
Definition VFS_TYPE_REG : Z := 8.

Definition VFS_MODE_A_X : Z := Z.shiftl 1 0.
Definition VFS_MODE_A_W : Z := Z.shiftl 1 1.
Definition VFS_MODE_A_R : Z := Z.shiftl 1 2.
Definition VFS_MODE_G_X : Z := Z.shiftl 1 3.
Definition VFS_MODE_G_W : Z := Z.shiftl 1 4.
Definition VFS_MODE_G_R : Z := Z.shiftl 1 5.
Definition VFS_MODE_O_X : Z := Z.shiftl 1 6.
Definition VFS_MODE_O_W : Z := Z.shiftl 1 7.
Definition VFS_MODE_O_R : Z := Z.shiftl 1 8.
Definition VFS_MODE_TYPE : Z := Z.shiftl 0xf 12.

Definition MODE_TYPE (mode : Z) : Z := Z.shiftr mode 12.
Definition TYPE_MODE (type : Z) : Z := Z.shiftl type 12.

Definition VFS_ACCESS_R : Z := Z.shiftl 1 0.
Definition VFS_ACCESS_W : Z := Z.shiftl 1 1.
Definition VFS_ACCESS_X : Z := Z.shiftl 1 2.
Definition VFS_ACCESS_DIR : Z := Z.shiftl 1 3.
Definition VFS_ACCESS_REG : Z := Z.shiftl 1 4.
Definition VFS_ACCESS_CHMOD : Z := Z.shiftl 1 5.
Definition VFS_ACCESS_CHOWN : Z := Z.shiftl 1 6.

Definition VFS_OPEN_READ : Z := 0x0001.
Definition VFS_OPEN_WRITE : Z := 0x0002.
Definition VFS_OPEN_APPEND : Z := 0x0008.
Definition VFS_OPEN_CREAT : Z := 0x0200.
Definition VFS_OPEN_TRUNC : Z := 0x0400.
Definition VFS_OPEN_EXCL : Z := 0x0800.
Definition OPEN_ACCESS (open_flags : Z) : Z :=
  Z.lor (Z.land open_flags 3) (Z.shiftl (Z.land (Z.shiftr open_flags 20) 7) 2).

Definition ENXIO : Z := 6.
Definition ENOTEMPTY : Z := 90.

Record VfsStat := mkStat {
  mode : Z;
  nlinks : Z;
  uid : Z;
  gid : Z;
  rdev : Z;
  size : Z;
}.

Record Process := mkProcess { euid : Z; egid : Z; umask : Z; cwd : list Z }.

Definition has (flags f : Z) : bool := negb (Z.land flags f =? 0).

(** [None] is success. *)
Definition basicCanAccess (stat : VfsStat) (process : option Process) (flags : Z) : option Z :=
  if has flags VFS_ACCESS_REG && negb (MODE_TYPE (mode stat) =? VFS_TYPE_REG) then
    Some (if MODE_TYPE (mode stat) =? VFS_TYPE_DIR then EISDIR else EINVAL)
  else if has flags VFS_ACCESS_DIR && negb (MODE_TYPE (mode stat) =? VFS_TYPE_DIR) then Some ENOTDIR
  else
    match process with
    | None => None
    | Some p =>
        if euid p =? 0 then None
        else if (has flags VFS_ACCESS_CHMOD || has flags VFS_ACCESS_CHOWN) && negb (uid stat =? euid p) then Some EPERM
        else if has flags VFS_ACCESS_R && negb (has (mode stat) VFS_MODE_A_R)
                && (negb (has (mode stat) VFS_MODE_G_R) || negb (gid stat =? egid p))
                && (negb (has (mode stat) VFS_MODE_O_R) || negb (uid stat =? euid p)) then Some EACCES
        else if has flags VFS_ACCESS_W && negb (has (mode stat) VFS_MODE_A_W)
                && (negb (has (mode stat) VFS_MODE_G_W) || negb (gid stat =? egid p))
                && (negb (has (mode stat) VFS_MODE_O_W) || negb (uid stat =? euid p)) then Some EACCES
        else if has flags VFS_ACCESS_X && negb (has (mode stat) VFS_MODE_A_X)
                && (negb (has (mode stat) VFS_MODE_G_X) || negb (gid stat =? egid p))
                && (negb (has (mode stat) VFS_MODE_O_X) || negb (uid stat =? euid p)) then Some EACCES
        else None
    end.

Definition canAccess (stat : VfsStat) (process : option Process) (flags : Z) : option Z :=
  match process with None => None | Some p => basicCanAccess stat (Some p) flags end.

(** ** Nodes

    The operations of [node.c] and [super.c] that [fs.c] calls.  Names are
    without the NUL. *)
Class Nodes (N : Type) : Type := {
  stat_of : N -> Z -> VfsStat;
  set_stat : Z -> VfsStat -> N -> N;
  superblock : N -> Z -> Z;
  root_node : N -> Z -> Z;
  vfsNodeCopy : Z -> R N unit;
  vfsNodeClose : Z -> R N unit;
  vfsNodeLookup : Z -> option Process -> list Z -> R N Z;
  vfsNodeLink : Z -> option Process -> list Z -> Z -> R N unit;
  vfsNodeUnlink : Z -> option Process -> list Z -> Z -> R N unit;
  vfsNodeTrunc : Z -> option Process -> Z -> R N unit;
  (** How much was read, the length in the entry, and its name. *)
  vfsNodeReaddirAt : Z -> option Process -> Z -> Z -> R N (Z * option (Z * list Z));
  vfsSuperNewNode : Z -> R N Z;
  vfsSuperClose : Z -> R N unit;
  (** A block device with its size, or a character device. *)
  getDeviceWithId : Z -> option (option Z);
}.

Abbreviation slash := Path.slash.

Section Vfs.
Context {N : Type} `{Nodes N}.

(** [VirtualFilesystem], and [node->mounted] of every node. *)
Record vfs := mkVfs {
  store : N;
  mounted : gmap Z Z;
  root_mounted : option Z;
  tmp_mounted : list (list Z * Z);
}.

Definition on_nodes {A : Type} : R N A -> R vfs A :=
  on store (fun n s => mkVfs n (mounted s) (root_mounted s) (tmp_mounted s)).

Definition copy_node (p : Z) : R vfs unit := on_nodes (vfsNodeCopy p).
Definition close_node (p : Z) : R vfs unit := on_nodes (vfsNodeClose p).
Definition get_stat (p : Z) : R vfs VfsStat := fun s => Some (Good (stat_of (store s) p), s).
Definition put_stat (p : Z) (st : VfsStat) : R vfs unit := fun s =>
  Some (Good tt, mkVfs (set_stat p st (store s)) (mounted s) (root_mounted s) (tmp_mounted s)).
Definition set_mounted (p : Z) (sb : option Z) : R vfs unit := fun s =>
  Some (Good tt, mkVfs (store s) (match sb with Some b => <[p := b]> (mounted s) | None => delete p (mounted s) end)
                   (root_mounted s) (tmp_mounted s)).
Definition set_root (sb : option Z) : R vfs unit := fun s =>
  Some (Good tt, mkVfs (store s) (mounted s) sb (tmp_mounted s)).
Definition set_tmp (l : list (list Z * Z)) : R vfs unit := fun s =>
  Some (Good tt, mkVfs (store s) (mounted s) (root_mounted s) l).
Definition check (err : option Z) : R vfs unit := match err with None => mret tt | Some k => bad k end.

(** [CHECKED(OP, ...)] with what is done on an error. *)
Definition checked {A : Type} (c : R vfs A) (cleanup : R vfs unit) : R vfs A :=
  r ← attempt c;
  match r with Good a => mret a | Bad k => cleanup;; bad k end.

(** ** Lookup *)

Fixpoint follow_loop (fuel : nat) (curr : Z) (last_mountpoint : bool) : R vfs Z :=
  match fuel with
  | O => undefined
  | S fuel' =>
      s ← get;
      match mounted s !! curr with
      | None => mret curr
      | Some sb =>
          let mounted_root := root_node (store s) sb in
          copy_node mounted_root;;
          if last_mountpoint then
            s ← get;
            match mounted s !! mounted_root with
            | Some _ => close_node curr;; follow_loop fuel' mounted_root last_mountpoint
            | None => close_node mounted_root;; mret curr
            end
          else follow_loop fuel' mounted_root last_mountpoint
      end
  end.

(** Every step goes into a filesystem that is mounted. *)
Definition vfsFollowMounts (curr : Z) (last_mountpoint : bool) : R vfs Z :=
  s ← get;
  follow_loop (S (base.size (mounted s))) curr last_mountpoint.

Fixpoint skip_slashes (s : list Z) : list Z :=
  match s with c :: rest => if c =? slash then skip_slashes rest else s | [] => [] end.

(** The characters before the next slash, and the string from there. *)
Fixpoint next_segment (s : list Z) : list Z * list Z :=
  match s with
  | [] => ([], [])
  | c :: rest => if c =? slash then ([], s) else let '(a, b) := next_segment rest in (c :: a, b)
  end.

Definition is_dot (seg : list Z) : bool := bool_decide (seg = [46]).
Definition is_dotdot (seg : list Z) : bool := bool_decide (seg = [46; 46]).

(** The state of the loop of [vfsLookupNode]: [dirs] and [segs] with the last
    entry first, [dirs] without the entry 0. *)
Record lookup_state := mkLookup { curr : Z; dirs : list Z; segs : list (list Z) }.

Fixpoint lookup_loop (fuel : nat) (process : option Process) (segments : list Z) (l : lookup_state) :
    R vfs (result unit * lookup_state) :=
  match fuel with
  | O => undefined
  | S fuel' =>
      match segments with
      | [] => mret (Good tt, l)
      | _ =>
          let '(segment, rest) := next_segment segments in
          let segments := skip_slashes rest in
          st ← get_stat (curr l);
          if negb (MODE_TYPE (mode st) =? VFS_TYPE_DIR) then mret (Bad ENOTDIR, l)
          else if is_dot segment then lookup_loop fuel' process segments l
          else if is_dotdot segment then
            match dirs l with
            | [] => lookup_loop fuel' process segments l
            | dir :: dirs' =>
                close_node (curr l);;
                lookup_loop fuel' process segments (mkLookup dir dirs' (tail (segs l)))
            end
          else
            copy_node (curr l);;
            let dirs' := curr l :: dirs l in
            let segs' := segment :: segs l in
            c ← vfsFollowMounts (curr l) false;
            err ← attempt (on_nodes (vfsNodeLookup c process segment));
            match err with
            | Bad k => mret (Bad k, mkLookup c dirs' segs')
            | Good next =>
                close_node c;;
                lookup_loop fuel' process segments (mkLookup next dirs' segs')
            end
      end
  end.

Fixpoint close_all (l : list Z) : R vfs unit :=
  match l with [] => mret tt | p :: rest => close_node p;; close_all rest end.

(** The prefix and the segments: every segment after a slash, and at least one
    character. *)
Definition build_path (prefix : list Z) (segs : list (list Z)) : list Z :=
  let path := prefix ++ concat ((fun seg => slash :: seg) <$> reverse segs) in
  (match path with [] => [slash] | _ => path end) ++ [0].

(** [real_path] says whether the path is asked for. *)
Definition vfsLookupNode (process : option Process) (curr0 : Z) (path : list Z) (skip_last : bool)
    (prefix : list Z) (real_path : bool) : R vfs (Z * option (list Z)) :=
  copy_node curr0;;
  copy_node curr0;;
  '(err, l) ← lookup_loop (S (length path)) process (skip_slashes path) (mkLookup curr0 [] []);
  close_all (reverse (dirs l ++ [curr0]));;
  match err with
  | Bad k => close_node (curr l);; bad k
  | Good _ =>
      c ← vfsFollowMounts (curr l) skip_last;
      mret (c, if real_path then Some (build_path prefix (segs l)) else None)
  end.

(** [strncmp(path, prefix, prefix_len) == 0 && (prefix[prefix_len] == '/' || prefix[prefix_len] == 0)]. *)
Definition prefix_matches (path prefix : list Z) : bool :=
  let end_ := default 0 ((prefix ++ [0]) !! length prefix) in
  bool_decide (take (length prefix) path = prefix) && ((end_ =? slash) || (end_ =? 0)).

Definition vfsLookupNodeAtExactAbs (process : option Process) (path : list Z) (skip_last real_path : bool) :
    R vfs (Z * option (list Z)) :=
  s ← get;
  match root_mounted s with
  | Some sb =>
      let root := root_node (store s) sb in
      copy_node root;;
      err ← attempt (vfsLookupNode process root path skip_last [] real_path);
      close_node root;;
      give err
  | None =>
      match list_find (fun m => prefix_matches path (fst m) = true) (tmp_mounted s) with
      | Some (_, (prefix, sb)) =>
          let root := root_node (store s) sb in
          copy_node root;;
          err ← attempt (vfsLookupNode process root (drop (length prefix) path) skip_last prefix real_path);
          close_node root;;
          give err
      | None => bad ENOENT
      end
  end.

(** The characters of a buffer before its NUL. *)
Definition text (buf : option (list Z)) : option (list Z) :=
  b ← buf; n ← CString.Str.strlen b; Some (take n b).

Definition defined {A : Type} (o : option A) : R vfs A := fun s => a ← o; Some (Good a, s).

Definition vfsLookupNodeAtAbs (process : option Process) (path : list Z) (parent skip_last real_path : bool) :
    R vfs (Z * option (list Z)) :=
  if parent then
    parent_path ← defined (text (Path.getParentPath (path ++ [0])));
    vfsLookupNodeAtExactAbs process parent_path skip_last real_path
  else vfsLookupNodeAtExactAbs process path skip_last real_path.

(** [file->path]: [None] is no file, [Some None] a file without a path. *)
Definition vfsLookupNodeAt (process : option Process) (file : option (option (list Z))) (path : list Z)
    (parent skip_last real_path : bool) : R vfs (Z * option (list Z)) :=
  c0 ← defined ((path ++ [0]) !! 0%nat);
  if c0 =? slash then vfsLookupNodeAtAbs process path parent skip_last real_path
  else
    base ← match file with
           | None => p ← defined process; mret (cwd p)
           | Some (Some b) => defined (text (Some b))
           | Some None => bad EINVAL
           end;
    vfsLookupNodeAtAbs process (base ++ slash :: path) parent skip_last real_path.

(** ** Creating and opening *)

Definition vfsCreateDirectoryDotAndDotDot (dir_node parent : Z) : R vfs unit :=
  on_nodes (vfsNodeLink dir_node None [46] dir_node);;
  on_nodes (vfsNodeLink dir_node None [46; 46] parent).

(** The buffer of the path has no NUL at its end. *)
Definition join_path (real_parent_path filename : list Z) : list Z :=
  if (length real_parent_path =? 1)%nat then real_parent_path ++ filename
  else real_parent_path ++ slash :: filename.

Definition new_stat (st : VfsStat) (process : option Process) (mode_ device : Z) : VfsStat :=
  match process with
  | Some p => mkStat (Z.ldiff mode_ (umask p)) 0 (euid p) (egid p) device 0
  | None => mkStat mode_ 0 0 0 device 0
  end.

Definition vfsCreateNewNode (process : option Process) (file : option (option (list Z))) (path : list Z)
    (mode_ device : Z) (real_path : bool) : R vfs (Z * option (list Z)) :=
  '(parent, real_parent_path) ← vfsLookupNodeAt process file path true false real_path;
  s ← get;
  new ← checked (on_nodes (vfsSuperNewNode (superblock (store s) parent))) (close_node parent);
  st ← get_stat new;
  put_stat new (new_stat st process mode_ device);;
  filename ← defined (text (Path.getBaseFilename (path ++ [0])));
  checked (on_nodes (vfsNodeLink parent process filename new)) (close_node parent;; close_node new);;
  (if MODE_TYPE mode_ =? VFS_TYPE_DIR then
     checked (vfsCreateDirectoryDotAndDotDot new parent) (close_node parent;; close_node new)
   else mret tt);;
  close_node parent;;
  real ← (if real_path then
            p ← defined (text real_parent_path);
            mret (Some (join_path p filename))
          else mret None);
  mret (new, real).

(** What a descriptor is opened on: a pipe of its own with the end that is
    wanted, a device, or a file with its position. *)
Inductive opened : Type :=
| FifoFile (real_node : Z) (path : option (list Z)) (for_write : bool)
| BlockDeviceFile (real_node : Z) (dev : Z) (path : option (list Z)) (offset : Z)
| CharDeviceFile (real_node : Z) (dev : Z) (path : option (list Z))
| RegularFile (node : Z) (path : option (list Z)) (offset : Z).

(** The node itself stands for [node->real_node]: the node found by a lookup is
    real. *)
Definition vfsOpenNode (process : option Process) (node : Z) (path : option (list Z)) (flags : Z) : R vfs opened :=
  st ← get_stat node;
  checked (check (canAccess st process (OPEN_ACCESS flags))) (close_node node);;
  let type := MODE_TYPE (mode st) in
  if type =? VFS_TYPE_FIFO then mret (FifoFile node path (has flags VFS_OPEN_WRITE))
  else if (type =? VFS_TYPE_CHAR) || (type =? VFS_TYPE_BLOCK) then
    match getDeviceWithId (N := N) (rdev st) with
    | Some (Some dev_size) =>
        if type =? VFS_TYPE_BLOCK
        then mret (BlockDeviceFile node (rdev st) path (if has flags VFS_OPEN_APPEND then dev_size else 0))
        else close_node node;; bad ENXIO
    | Some None =>
        if type =? VFS_TYPE_CHAR then mret (CharDeviceFile node (rdev st) path)
        else close_node node;; bad ENXIO
    | None => close_node node;; bad ENXIO
    end
  else
    (if has flags VFS_OPEN_TRUNC && has flags VFS_OPEN_WRITE then
       checked (on_nodes (vfsNodeTrunc node process 0)) (close_node node)
     else mret tt);;
    st ← get_stat node;
    mret (RegularFile node path (if has flags VFS_OPEN_APPEND then size st else 0)).

Definition vfsOpenAt (process : option Process) (file : option (option (list Z))) (path : list Z)
    (flags mode_ : Z) : R vfs opened :=
  err ← attempt (vfsLookupNodeAt process file path false false true);
  match err with
  | Bad k =>
      if (k =? ENOENT) && has flags VFS_OPEN_CREAT then
        let file_mode := Z.lor (Z.ldiff mode_ VFS_MODE_TYPE) (TYPE_MODE VFS_TYPE_REG) in
        '(node, real_path) ← vfsCreateNewNode process file path file_mode 0 true;
        vfsOpenNode process node real_path flags
      else bad k
  | Good (node, real_path) =>
      if has flags VFS_OPEN_EXCL then close_node node;; bad EEXIST
      else vfsOpenNode process node real_path flags
  end.

Definition vfsMknodAt (process : option Process) (file : option (option (list Z))) (path : list Z)
    (mode_ id : Z) : R vfs unit :=
  let type := MODE_TYPE mode_ in
  if negb (type =? VFS_TYPE_REG) && negb (type =? VFS_TYPE_DIR) && negb (type =? VFS_TYPE_FIFO) then bad EINVAL
  else
    err ← attempt (vfsLookupNodeAt process file path false false false);
    match err with
    | Bad k =>
        if k =? ENOENT then
          '(node, _) ← vfsCreateNewNode process file path mode_ id false;
          close_node node
        else bad k
    | Good (node, _) => close_node node;; bad EEXIST
    end.

(** ** Linking and unlinking *)

Definition ENTRY_MAX_SIZE : Z := 32 + 3.

(** [entry] is what the buffer holds; nothing before the first entry. *)
Fixpoint empty_loop (fuel : nat) (process : option Process) (dir offset : Z) (entry : option (Z * list Z)) : R vfs unit :=
  match fuel with
  | O => undefined
  | S fuel' =>
      '(tmp_size, read) ← on_nodes (vfsNodeReaddirAt dir process offset ENTRY_MAX_SIZE);
      let entry := match read with Some e => Some e | None => entry end in
      e ← defined entry;
      if (ENTRY_MAX_SIZE <? fst e) || (negb (is_dot (snd e)) && negb (is_dotdot (snd e))) then bad ENOTEMPTY
      else if negb (tmp_size =? 0) then empty_loop fuel' process dir (offset + tmp_size) entry
      else mret tt
  end.

Definition vfsCheckDirectoryIsEmpty (process : option Process) (dir : Z) : R vfs unit :=
  st ← get_stat dir;
  empty_loop (S (S (Z.to_nat (size st)))) process dir 0 None.

Definition vfsRemoveDirectoryDotAndDotDot (process : option Process) (parent dir : Z) : R vfs unit :=
  st ← get_stat dir;
  if nlinks st =? 1 then
    on_nodes (vfsNodeUnlink dir process [46] dir);;
    on_nodes (vfsNodeUnlink dir process [46; 46] parent)
  else mret tt.

Definition vfsUnlinkFrom (process : option Process) (parent : Z) (filename : list Z) (node : Z) : R vfs unit :=
  st ← get_stat node;
  if (MODE_TYPE (mode st) =? VFS_TYPE_DIR) && (nlinks st =? 2) then
    vfsCheckDirectoryIsEmpty process node;;
    on_nodes (vfsNodeUnlink parent process filename node);;
    vfsRemoveDirectoryDotAndDotDot process parent node
  else on_nodes (vfsNodeUnlink parent process filename node).

Definition vfsUnlinkAt (process : option Process) (file : option (option (list Z))) (path : list Z) : R vfs unit :=
  '(parent, _) ← vfsLookupNodeAt process file path true false false;
  filename ← defined (text (Path.getBaseFilename (path ++ [0])));
  node ← checked (on_nodes (vfsNodeLookup parent process filename)) (close_node parent);
  err ← attempt (vfsUnlinkFrom process parent filename node);
  close_node node;;
  close_node parent;;
  give err.

Definition vfsMoveDirectoryDotDot (process : option Process) (old_file : option (option (list Z))) (old : list Z)
    (parent child : Z) : R vfs unit :=
  '(old_parent, _) ← vfsLookupNodeAt process old_file old true false false;
  on_nodes (vfsNodeUnlink child process [46; 46] old_parent);;
  on_nodes (vfsNodeLink child process [46; 46] parent).

Definition vfsLinkAt (process : option Process) (old_file : option (option (list Z))) (old : list Z)
    (new_file : option (option (list Z))) (new : list Z) : R vfs unit :=
  '(parent, _) ← vfsLookupNodeAt process new_file new true false false;
  filename ← defined (text (Path.getBaseFilename (new ++ [0])));
  err ← attempt (on_nodes (vfsNodeLookup parent process filename));
  match err with
  | Bad k =>
      if k =? ENOENT then
        '(old_node, _) ← checked (vfsLookupNodeAt process old_file old false false false) (close_node parent);
        err ← attempt (on_nodes (vfsNodeLink parent process filename old_node));
        st ← get_stat old_node;
        err ← (if negb (isError err) && (MODE_TYPE (mode st) =? VFS_TYPE_DIR)
               then attempt (vfsMoveDirectoryDotDot process old_file old parent old_node) else mret err);
        close_node old_node;;
        close_node parent;;
        give err
      else close_node parent;; bad k
  | Good new_node => close_node parent;; close_node new_node;; bad EEXIST
  end.

(** ** Mounting *)

(** With a root: the node keeps its reference until it is unmounted. *)
Definition mount_at (process : option Process) (path : list Z) (sb : Z) : R vfs unit :=
  '(node, _) ← vfsLookupNodeAt process None path false false false;
  s ← get;
  match mounted s !! node with
  | Some _ => close_node node;; bad EINVAL
  | None =>
      st ← get_stat node;
      if negb (MODE_TYPE (mode st) =? VFS_TYPE_DIR) then close_node node;; bad ENOTDIR
      else set_mounted node (Some sb)
  end.

Fixpoint mount_loop (l : list (list Z * Z)) : R vfs unit :=
  match l with
  | [] => mret tt
  | (prefix, sb) :: rest =>
      set_tmp rest;;
      err ← attempt (mount_at None prefix sb);
      (if isError err then on_nodes (vfsSuperClose sb) else mret tt);;
      mount_loop rest
  end.

Definition vfsMount (process : option Process) (path : list Z) (sb : Z) : R vfs unit :=
  s ← get;
  match root_mounted s with
  | None =>
      path_copy ← defined (text (Path.inlineReducePath (path ++ [0])));
      if bool_decide (path_copy = [slash]) then
        set_root (Some sb);;
        mount_loop (tmp_mounted s)
      else set_tmp ((path_copy, sb) :: tmp_mounted s)
  | Some _ => mount_at process path sb
  end.

Definition vfsUmount (process : option Process) (path : list Z) : R vfs unit :=
  s ← get;
  match root_mounted s with
  | None =>
      path_copy ← defined (text (Path.inlineReducePath (path ++ [0])));
      match list_find (fun m => fst m = path_copy) (tmp_mounted s) with
      | Some (i, (_, sb)) =>
          set_tmp (delete i (tmp_mounted s));;
          on_nodes (vfsSuperClose sb)
      | None => bad ENOENT
      end
  | Some sb =>
      if bool_decide (path = [slash]) && bool_decide (mounted s !! root_node (store s) sb = None) then
        set_root None;;
        on_nodes (vfsSuperClose sb)
      else
        '(node, _) ← vfsLookupNodeAt process None path false true false;
        s ← get;
        match mounted s !! node with
        | None => close_node node;; bad EINVAL
        | Some sb =>
            on_nodes (vfsSuperClose sb);;
            set_mounted node None;;
            close_node node;;
            close_node node
        end
  end.

(** ** Where a file that was opened starts *)

(** At the beginning, or with [append] at the end of the file or device. *)
Definition starts_at (append : bool) (o : opened) (s : vfs) (offset : Z) : Prop :=
  match o with
  | RegularFile node _ _ => offset = if append then size (stat_of (store s) node) else 0
  | BlockDeviceFile _ dev _ _ => exists dev_size, getDeviceWithId (N := N) dev = Some (Some dev_size) /\
      offset = if append then dev_size else 0
  | FifoFile _ _ _ | CharDeviceFile _ _ _ => offset = 0
  end.

Definition opened_offset (o : opened) : Z :=
  match o with
  | BlockDeviceFile _ _ _ offset | RegularFile _ _ offset => offset
  | _ => 0
  end.

Lemma vfsOpenNode_position process node path flags s o s' :
  vfsOpenNode process node path flags s = Some (Good o, s') -> starts_at (has flags VFS_OPEN_APPEND) o s' (opened_offset o).
Proof.
  unfold vfsOpenNode. intros (st & s1 & [= <- <-] & E)%bind_good_inv. apply bind_good_inv in E as (_ & s2 & _ & E).
  cbv zeta in E. destruct (MODE_TYPE _ =? VFS_TYPE_FIFO); [by injection E as <- <-|].
  destruct (_ || _).
  - destruct (getDeviceWithId (rdev _)) as [[n|]|] eqn:Ed; [| |by apply bind_good_inv in E as (? & ? & _ & E)].
    + destruct (_ =? VFS_TYPE_BLOCK); [|by apply bind_good_inv in E as (? & ? & _ & E)]. injection E as <- <-. by exists n.
    + destruct (_ =? VFS_TYPE_CHAR); [by injection E as <- <-|by apply bind_good_inv in E as (? & ? & _ & E)].
  - apply bind_good_inv in E as (_ & s3 & _ & E). apply bind_good_inv in E as (st & s4 & [= <- <-] & E). by injection E as <- <-.
Qed.

Lemma vfsOpenAt_position process file path flags mode_ s o s' :
  vfsOpenAt process file path flags mode_ s = Some (Good o, s') ->
  starts_at (has flags VFS_OPEN_APPEND) o s' (opened_offset o).
Proof.
  unfold vfsOpenAt. intros (r & s1 & _ & E)%bind_good_inv. destruct r as [[node real]|k].
  - destruct (has flags VFS_OPEN_EXCL); [by apply bind_good_inv in E as (? & ? & _ & E)|]. by eapply vfsOpenNode_position.
  - destruct (_ && _); [|done]. apply bind_good_inv in E as ([node real] & s2 & _ & E). by eapply vfsOpenNode_position.
Qed.

End Vfs.

(** ** What the nodes promise *)

(** How often a node is in a list of references. *)
Definition cnt (x : Z) (l : list Z) : Z := Z.of_nat (length (filter (fun y => y = x) l)).

Lemma cnt_nil x : cnt x [] = 0.
Proof. done. Qed.

Lemma cnt_cons x y l : cnt x (y :: l) = (if decide (y = x) then 1 else 0) + cnt x l.
Proof. unfold cnt. rewrite filter_cons. case_decide; cbn [length]; lia. Qed.

Lemma cnt_app x l l' : cnt x (l ++ l') = cnt x l + cnt x l'.
Proof. induction l as [|y l IH]; [done|]. cbn [app]. rewrite !cnt_cons, IH. lia. Qed.

Lemma cnt_reverse x l : cnt x (reverse l) = cnt x l.
Proof. induction l as [|y l IH]; [done|]. rewrite reverse_cons, cnt_app, !cnt_cons, cnt_nil, IH. lia. Qed.

Lemma cnt_nonneg x l : 0 <= cnt x l.
Proof. unfold cnt. lia. Qed.

Lemma cnt_in x l : x ∈ l -> 0 < cnt x l.
Proof.
  induction l as [|y l IH]; intros Hx; [by apply not_elem_of_nil in Hx|]. rewrite cnt_cons. pose proof (cnt_nonneg x l).
  case_decide; [lia|]. apply elem_of_cons in Hx as [->|Hx]; [done|]. specialize (IH Hx). lia.
Qed.

#[export] Hint Rewrite cnt_nil cnt_cons cnt_app cnt_reverse : cnt.

Class NodesLaws (N : Type) `{Nodes N} : Type := {
  refs : N -> Z -> Z;
  (** What a process finds under a name, and the nodes that have one. *)
  entry : N -> Z -> option Process -> list Z -> result Z;
  live : N -> Z -> Prop;
  same : N -> N -> Prop;
  same_refl n : same n n;
  same_trans n1 n2 n3 : same n1 n2 -> same n2 n3 -> same n1 n3;
  same_stat n n' : same n n' -> forall p, stat_of n' p = stat_of n p;
  same_root n n' : same n n' -> forall sb, root_node n' sb = root_node n sb;
  same_super n n' : same n n' -> forall p, superblock n' p = superblock n p;
  same_entry n n' : same n n' -> forall p pr name, entry n' p pr name = entry n p pr name;
  same_live n n' p : same n n' -> live n p -> live n' p;
  refs_nonneg n p : 0 <= refs n p;
  copy_ok n p : live n p ->
    exists n', vfsNodeCopy p n = Some (Good tt, n') /\ same n n' /\ forall x, refs n' x = refs n x + cnt x [p];
  close_ok n p : live n p -> 0 < refs n p ->
    exists n', vfsNodeClose p n = Some (Good tt, n') /\ same n n' /\ forall x, refs n' x = refs n x - cnt x [p];
  lookup_ok n p pr name : live n p -> 0 < refs n p ->
    exists n', vfsNodeLookup p pr name n = Some (entry n p pr name, n') /\ same n n' /\
      forall x, refs n' x = refs n x + match entry n p pr name with Good q => cnt x [q] | Bad _ => 0 end;
  entry_live n p pr name q : live n p -> entry n p pr name = Good q -> live n q;
  (** Closing a superblock leaves the nodes of the others alone. *)
  superclose_ok n sb :
    exists n', vfsSuperClose sb n = Some (Good tt, n') /\ (forall x, refs n' x = refs n x) /\
      (forall p, live n p -> superblock n p <> sb -> live n' p);
}.

Section Laws.
Context {N : Type} `{NodesLaws N}.
Abbreviation vfs := (vfs (N := N)).

(** Nothing but the counts of references changes. *)
Record frame (s s' : vfs) : Prop := {
  fr_mounted : mounted s' = mounted s;
  fr_root : root_mounted s' = root_mounted s;
  fr_tmp : tmp_mounted s' = tmp_mounted s;
  fr_same : same (store s) (store s');
}.

Lemma frame_refl s : frame s s.
Proof. split; try done. apply same_refl. Qed.

Lemma frame_trans s1 s2 s3 : frame s1 s2 -> frame s2 s3 -> frame s1 s3.
Proof. intros [A1 A2 A3 A4] [B1 B2 B3 B4]. split; [congruence..|]. by eapply same_trans. Qed.

(** The references of [s'] are those of [s], and those of [l]. *)
Definition holds (s s' : vfs) (l : list Z) : Prop :=
  frame s s' /\ forall x, refs (store s') x = refs (store s) x + cnt x l.

Lemma copy_node_ok s s1 l p :
  live (store s) p -> holds s s1 l -> exists s2, copy_node p s1 = Some (Good tt, s2) /\ holds s s2 (p :: l).
Proof.
  intros Hp [Hf Hr]. destruct (copy_ok (store s1) p) as (n' & E & Hs & Hn); [by eapply same_live; [apply Hf|]|].
  exists (mkVfs n' (mounted s1) (root_mounted s1) (tmp_mounted s1)). split; [unfold copy_node, on_nodes, on; by rewrite E|].
  split; [destruct Hf; split; try done; by eapply same_trans|]. intros x. cbn. rewrite Hn, Hr. autorewrite with cnt. lia.
Qed.

(** Closing one of the references that are held. *)
Lemma close_node_ok s s1 l p l' :
  live (store s) p -> holds s s1 l -> (forall x, cnt x l = cnt x (p :: l')) ->
  exists s2, close_node p s1 = Some (Good tt, s2) /\ holds s s2 l'.
Proof.
  intros Hp [Hf Hr] Hl. assert (H0' : 0 < refs (store s1) p).
  { rewrite Hr, Hl. pose proof (refs_nonneg (store s) p). pose proof (cnt_nonneg p l'). autorewrite with cnt. rewrite decide_True by done. lia. }
  destruct (close_ok (store s1) p) as (n' & E & Hs & Hn); [by eapply same_live; [apply Hf|]|done|].
  exists (mkVfs n' (mounted s1) (root_mounted s1) (tmp_mounted s1)). split; [unfold close_node, on_nodes, on; by rewrite E|].
  split; [destruct Hf; split; try done; by eapply same_trans|]. intros x. cbn. rewrite Hn, Hr, Hl. autorewrite with cnt. lia.
Qed.

Lemma holds_ext s s1 l l' : holds s s1 l -> (forall x, cnt x l = cnt x l') -> holds s s1 l'.
Proof. intros [Hf Hr] Hl. split; [done|]. intros x. by rewrite Hr, Hl. Qed.

(** ** Following mounts *)

(** The node that is mounted over a node in the end, and the nodes on the way. *)
Fixpoint target (fuel : nat) (m : gmap Z Z) (root : Z -> Z) (p : Z) : option (Z * list Z) :=
  match fuel with
  | O => None
  | S fuel' =>
      match m !! p with
      | None => Some (p, [])
      | Some sb => '(q, crossed) ← target fuel' m root (root sb); Some (q, p :: crossed)
      end
  end.

Definition mount_target (s : vfs) (p : Z) : option (Z * list Z) :=
  target (S (base.size (mounted s))) (mounted s) (root_node (store s)) p.

(** The roots of what is mounted exist, and no chain of mounts is endless. *)
Record mounts_ok (s : vfs) : Prop := {
  mo_live : forall p sb, mounted s !! p = Some sb -> live (store s) (root_node (store s) sb);
  mo_end : forall p, is_Some (mount_target s p);
}.

(** [vfsFollowMounts] gets to the target; every node on the way keeps the
    reference that the caller had to it. *)
Lemma follow_loop_ok s fuel : forall p q crossed s1 l,
  mounts_ok s -> live (store s) p -> target fuel (mounted s) (root_node (store s)) p = Some (q, crossed) ->
  holds s s1 (p :: l) ->
  exists s2, follow_loop fuel p false s1 = Some (Good q, s2) /\ holds s s2 (q :: crossed ++ l) /\ live (store s) q.
Proof.
  induction fuel as [|fuel IH]; intros p q crossed s1 l Hm Hp Ht Hs; [done|]. cbn [target] in Ht. cbn [follow_loop].
  rewrite bind_whole. destruct Hs as [Hf Hr]. rewrite (fr_mounted _ _ Hf).
  destruct (mounted s !! p) as [sb|] eqn:E.
  - destruct (target fuel _ _ _) as [[q' crossed']|] eqn:Et; [|done]. injection Ht as <- <-.
    rewrite (same_root _ _ (fr_same _ _ Hf)). pose proof (mo_live s Hm _ _ E) as Hroot.
    destruct (copy_node_ok s s1 (p :: l) (root_node (store s) sb) Hroot) as (s2 & E2 & Hs2); [by split|].
    rewrite (bind_good _ _ _ _ _ E2).
    destruct (IH _ _ _ s2 (p :: l) Hm Hroot Et Hs2) as (s3 & E3 & Hs3 & Hq). exists s3. split; [done|].
    split; [|done]. eapply holds_ext; [exact Hs3|]. intros x. cbn [app]. autorewrite with cnt. lia.
  - injection Ht as <- <-. exists s1. by split_and!.
Qed.

Lemma vfsFollowMounts_ok s p q crossed s1 l :
  mounts_ok s -> live (store s) p -> mount_target s p = Some (q, crossed) -> holds s s1 (p :: l) ->
  exists s2, vfsFollowMounts p false s1 = Some (Good q, s2) /\ holds s s2 (q :: crossed ++ l) /\ live (store s) q.
Proof.
  intros Hm Hp Ht Hs. unfold vfsFollowMounts. rewrite bind_whole. rewrite (fr_mounted _ _ (proj1 Hs)).
  by apply follow_loop_ok.
Qed.

(** ** What a path stands for *)

(** The walk over the segments: how it ends, the state in the end, and the nodes
    whose mounts were followed.  [dirs] are the directories above [curr]. *)
Fixpoint walk_loop (s : vfs) (process : option Process) (path : list (list Z)) (l : lookup_state) :
    option (result unit * lookup_state * list Z) :=
  match path with
  | [] => Some (Good tt, l, [])
  | seg :: rest =>
      if negb (MODE_TYPE (mode (stat_of (store s) (curr l))) =? VFS_TYPE_DIR) then Some (Bad ENOTDIR, l, [])
      else if is_dot seg then walk_loop s process rest l
      else if is_dotdot seg then
        match dirs l with
        | [] => walk_loop s process rest l
        | dir :: dirs' => walk_loop s process rest (mkLookup dir dirs' (tail (segs l)))
        end
      else
        '(c, crossed) ← mount_target s (curr l);
        match entry (store s) c process seg with
        | Bad k => Some (Bad k, mkLookup c (curr l :: dirs l) (seg :: segs l), crossed)
        | Good next =>
            '(r, l', crossed') ← walk_loop s process rest (mkLookup next (curr l :: dirs l) (seg :: segs l));
            Some (r, l', crossed ++ crossed')
        end
  end.

(** The node a path stands for and the names on the way to it. *)
Definition walk (s : vfs) (process : option Process) (path : list (list Z)) (p : Z) :
    option (result (Z * list (list Z)) * list Z) :=
  '(r, l, crossed) ← walk_loop s process path (mkLookup p [] []);
  match r with
  | Bad k => Some (Bad k, crossed)
  | Good _ => '(q, crossed') ← mount_target s (curr l); Some (Good (q, segs l), crossed ++ crossed')
  end.

(** *** The segments of the string *)

Lemma skip_slashes_segs t : Path.segs (skip_slashes t) = Path.segs t.
Proof.
  induction t as [|c t IH]; [done|]. cbn [skip_slashes]. destruct (c =? slash) eqn:E; [|done].
  rewrite IH. unfold Path.segs. cbn. by rewrite E.
Qed.

Lemma skip_slashes_suffix t : exists w, t = w ++ skip_slashes t.
Proof.
  induction t as [|c t [w IH]]; [by exists []|]. cbn [skip_slashes]. destruct (c =? slash); [|by exists []].
  exists (c :: w). cbn. by rewrite <- IH.
Qed.

Lemma skip_slashes_idem t : skip_slashes (skip_slashes t) = skip_slashes t.
Proof.
  induction t as [|c t IH]; [done|]. cbn [skip_slashes]. destruct (c =? slash) eqn:E; [done|]. cbn. by rewrite E.
Qed.

Lemma next_segment_spec t seg rest :
  next_segment t = (seg, rest) -> t = seg ++ rest /\ Forall (fun c => (c =? slash) = false) seg /\
  (rest = [] \/ exists u, rest = slash :: u).
Proof.
  revert seg rest. induction t as [|c t IH]; intros seg rest; cbn [next_segment].
  - intros [= <- <-]. split_and!; [done|constructor|by left].
  - destruct (c =? slash) eqn:E.
    + intros [= <- <-]. split_and!; [done|constructor|]. right. exists t. apply Z.eqb_eq in E. by subst.
    + destruct (next_segment t) as [a b]. intros [= <- <-]. destruct (IH a b eq_refl) as (-> & Ha & Hb).
      split_and!; [done|by constructor|done].
Qed.

(** One step of the scan takes one segment. *)
Lemma scan_segment t seg rest :
  is_cstr t -> t <> [] -> skip_slashes t = t -> next_segment t = (seg, rest) ->
  Path.seg_ok seg /\ Path.segs t = seg :: Path.segs (skip_slashes rest) /\
  (length (skip_slashes rest) < length t)%nat /\ is_cstr (skip_slashes rest).
Proof.
  intros Ht Hne Hsk En. destruct (next_segment_spec _ _ _ En) as (-> & Hseg & Hrest).
  assert (Hs : seg <> []).
  { intros ->. destruct Hrest as [->|[u ->]]; [done|]. cbn [app] in Hsk. destruct (skip_slashes_suffix u) as [w Hw].
    cbn in Hsk. change (slash =? slash) with true in Hsk. rewrite Hsk in Hw. apply (f_equal length) in Hw.
    rewrite length_app in Hw. cbn in Hw. lia. }
  unfold is_cstr in Ht. apply Forall_app in Ht as [Hcs Hcr].
  assert (Hok : Path.seg_ok seg).
  { split; [done|]. apply List.Forall_forall. intros c Hc. rewrite List.Forall_forall in Hseg, Hcs.
    specialize (Hseg c Hc). specialize (Hcs c Hc). cbn in Hcs. unfold Path.plain. rewrite Hseg.
    by rewrite (proj2 (Z.eqb_neq c 0)) by lia. }
  destruct (skip_slashes_suffix rest) as [w Hw].
  split_and!; [done| | |].
  - rewrite skip_slashes_segs. destruct Hrest as [->|[u ->]].
    + rewrite app_nil_r. by apply Path.segs_end.
    + rewrite (Path.segs_cons seg u Hok). by rewrite <- (Path.segs_slashes 1 u).
  - rewrite length_app. apply (f_equal length) in Hw. rewrite length_app in Hw. destruct seg; [done|]. cbn. lia.
  - rewrite Hw in Hcr. by apply Forall_app in Hcr as [_ Hcr].
Qed.

(** *** The loop *)

Lemma on_nodes_lookup s s1 l c l0 process name :
  live (store s) c -> holds s s1 l -> (forall x, cnt x l = cnt x (c :: l0)) ->
  exists s2, on_nodes (vfsNodeLookup c process name) s1 = Some (entry (store s) c process name, s2) /\
    holds s s2 (match entry (store s) c process name with Good q => q :: l | Bad _ => l end).
Proof.
  intros Hc [Hf Hr] Hl. assert (H0' : 0 < refs (store s1) c).
  { rewrite Hr, Hl. pose proof (refs_nonneg (store s) c). pose proof (cnt_nonneg c l0). autorewrite with cnt. rewrite decide_True by done. lia. }
  destruct (lookup_ok (store s1) c process name) as (n' & E & Hs & Hn); [by eapply same_live; [apply Hf|]|done|].
  rewrite (same_entry _ _ (fr_same _ _ Hf)) in E, Hn.
  exists (mkVfs n' (mounted s1) (root_mounted s1) (tmp_mounted s1)). split; [unfold on_nodes, on; by rewrite E|].
  split; [destruct Hf; split; try done; by eapply same_trans|]. intros x. cbn. rewrite Hn, Hr.
  destruct (entry (store s) c process name); autorewrite with cnt; lia.
Qed.

Definition all_live (s : vfs) (l : lookup_state) : Prop := live (store s) (curr l) /\ Forall (live (store s)) (dirs l).

Lemma lookup_loop_ok s process fuel : forall t l s1 l0 r l' crossed,
  mounts_ok s -> is_cstr t -> skip_slashes t = t -> (length t < fuel)%nat -> all_live s l ->
  holds s s1 (curr l :: dirs l ++ l0) -> walk_loop s process (Path.segs t) l = Some (r, l', crossed) ->
  exists s2, lookup_loop fuel process t l s1 = Some (Good (r, l'), s2) /\
    holds s s2 (curr l' :: dirs l' ++ crossed ++ l0) /\ all_live s l'.
Proof.
  induction fuel as [|fuel IH]; intros t l s1 l0 r l' crossed Hm Ht Hsk Hlen [Hc Hd] Hs Hw; [lia|]. cbn [lookup_loop].
  destruct t as [|c0 t0]; [injection Hw as <- <- <-; by exists s1|]. set (t := c0 :: t0) in *.
  destruct (next_segment t) as [seg rest] eqn:En.
  destruct (scan_segment t seg rest Ht ltac:(done) Hsk En) as (Hok & Esegs & Hlt & Hcs). rewrite Esegs in Hw. cbn [walk_loop] in Hw.
  pose proof (skip_slashes_idem rest) as Hid.
  unfold get_stat at 1, mbind at 1, R_bind at 1. rewrite (same_stat _ _ (fr_same _ _ (proj1 Hs))).
  destruct (negb (MODE_TYPE (mode (stat_of (store s) (curr l))) =? VFS_TYPE_DIR)).
  { injection Hw as <- <- <-. by exists s1. }
  destruct (is_dot seg); [apply (IH _ _ s1 l0); by (done || lia)|].
  destruct (is_dotdot seg).
  - destruct (dirs l) as [|dir dirs'] eqn:Ed; [apply (IH _ _ s1 l0); try done; [lia|by split; rewrite ?Ed|by rewrite Ed]|].
    destruct (close_node_ok s s1 _ (curr l) (dir :: dirs' ++ l0) Hc Hs) as (s2 & E2 & Hs2); [done|].
    rewrite (bind_good _ _ _ _ _ E2). apply Forall_cons_1 in Hd as [Hdir Hd]. apply (IH _ _ s2 l0); try done. lia.
  - destruct (copy_node_ok s s1 _ (curr l) Hc Hs) as (s2 & E2 & Hs2). rewrite (bind_good _ _ _ _ _ E2).
    destruct (mount_target s (curr l)) as [[c crossed1]|] eqn:Et; [|done]. cbn [mbind option_bind] in Hw.
    destruct (vfsFollowMounts_ok s (curr l) c crossed1 s2 _ Hm Hc Et Hs2) as (s3 & E3 & Hs3 & Hlc).
    rewrite (bind_good _ _ _ _ _ E3).
    destruct (on_nodes_lookup s s3 _ c (crossed1 ++ curr l :: dirs l ++ l0) process seg Hlc Hs3) as (s4 & E4 & Hs4); [done|].
    rewrite (bind_attempt _ _ _ _ _ E4). destruct (entry (store s) c process seg) as [next|k] eqn:Ee.
    + destruct (close_node_ok s s4 _ c (next :: crossed1 ++ curr l :: dirs l ++ l0) Hlc Hs4) as (s5 & E5 & Hs5).
      { intros x. autorewrite with cnt. lia. }
      rewrite (bind_good _ _ _ _ _ E5).
      destruct (walk_loop s process _ (mkLookup next _ _)) as [[[r1 l1] crossed2]|] eqn:Ew; [|done].
      injection Hw as <- <- <-.
      destruct (IH _ (mkLookup next (curr l :: dirs l) (seg :: segs l)) s5 (crossed1 ++ l0) r1 l1 crossed2 Hm Hcs Hid) as (s6 & E6 & Hs6 & Hl6); try done.
      { lia. }
      { split; [cbn; by eapply entry_live|by constructor]. }
      { eapply holds_ext; [exact Hs5|]. intros x. cbn [curr dirs]. autorewrite with cnt. cbn [app]. autorewrite with cnt. lia. }
      exists s6. split; [done|]. split; [|done]. eapply holds_ext; [exact Hs6|]. intros x. autorewrite with cnt. lia.
    + injection Hw as <- <- <-. exists s4. split; [done|]. split; [|split; [done|by constructor]].
      eapply holds_ext; [exact Hs4|]. intros x. cbn [curr dirs app]. autorewrite with cnt. lia.
Qed.

Lemma close_all_ok s ps : forall s1 l,
  Forall (live (store s)) ps -> holds s s1 (ps ++ l) -> exists s2, close_all ps s1 = Some (Good tt, s2) /\ holds s s2 l.
Proof.
  induction ps as [|p ps IH]; intros s1 l Hl Hs; [by exists s1|]. apply Forall_cons_1 in Hl as [Hp Hl].
  destruct (close_node_ok s s1 _ p (ps ++ l) Hp Hs) as (s2 & E2 & Hs2); [done|]. cbn [close_all].
  rewrite (bind_good _ _ _ _ _ E2). by apply IH.
Qed.

(** The lookup up to the last mounts. *)
Lemma vfsLookupNode_walks s process p path skip_last prefix real_path r0 l' crossed :
  mounts_ok s -> live (store s) p -> is_cstr path ->
  walk_loop s process (Path.segs path) (mkLookup p [] []) = Some (r0, l', crossed) ->
  exists s4, holds s s4 (curr l' :: crossed) /\ live (store s) (curr l') /\
    vfsLookupNode process p path skip_last prefix real_path s =
      match r0 with
      | Bad k => (close_node (curr l');; bad k) s4
      | Good _ => (c ← vfsFollowMounts (curr l') skip_last;
                   mret (c, if real_path then Some (build_path prefix (segs l')) else None)) s4
      end.
Proof.
  intros Hm Hp Hcs Ew. unfold vfsLookupNode.
  destruct (copy_node_ok s s [] p Hp) as (s1 & E1 & Hs1); [split; [apply frame_refl|]; intros; rewrite cnt_nil; lia|].
  rewrite (bind_good _ _ _ _ _ E1). destruct (copy_node_ok s s1 _ p Hp Hs1) as (s2 & E2 & Hs2). rewrite (bind_good _ _ _ _ _ E2).
  destruct (skip_slashes_suffix path) as [w Hsuf].
  destruct (lookup_loop_ok s process (S (length path)) (skip_slashes path) (mkLookup p [] []) s2 [p] r0 l' crossed) as (s3 & E3 & Hs3 & [Hl3 Hd3]); try done.
  { unfold is_cstr in *. rewrite Hsuf in Hcs. by apply Forall_app in Hcs as [_ Hcs]. }
  { apply skip_slashes_idem. }
  { apply (f_equal length) in Hsuf. rewrite length_app in Hsuf. lia. }
  { by rewrite skip_slashes_segs. }
  rewrite (bind_good _ _ _ _ _ E3). cbn match.
  destruct (close_all_ok s (reverse (dirs l' ++ [p])) s3 (curr l' :: crossed)) as (s4 & E4 & Hs4).
  { apply Forall_reverse, Forall_app. split; [done|by constructor]. }
  { eapply holds_ext; [exact Hs3|]. intros x. cbn [app]. autorewrite with cnt. lia. }
  rewrite (bind_good _ _ _ _ _ E4). exists s4. split_and!; try done. by destruct r0 as [[]|k].
Qed.

Lemma lookup_from s process p path prefix real_path r crossed :
  mounts_ok s -> live (store s) p -> is_cstr path -> walk s process (Path.segs path) p = Some (r, crossed) ->
  exists s', vfsLookupNode process p path false prefix real_path s =
      Some (match r with
            | Good (q, names) => Good (q, if real_path then Some (build_path prefix names) else None)
            | Bad k => Bad k
            end, s') /\
    holds s s' (match r with Good (q, _) => q :: crossed | Bad _ => crossed end).
Proof.
  intros Hm Hp Hcs Hw. unfold walk in Hw.
  destruct (walk_loop s process (Path.segs path) (mkLookup p [] [])) as [[[r0 l'] crossed1]|] eqn:Ew; [|done]. cbn [mbind option_bind] in Hw.
  destruct (vfsLookupNode_walks s process p path false prefix real_path r0 l' crossed1 Hm Hp Hcs Ew) as (s4 & Hs4 & Hl & ->).
  destruct r0 as [[]|k].
  - destruct (mount_target s (curr l')) as [[q crossed2]|] eqn:Et; [|done]. injection Hw as <- <-.
    destruct (vfsFollowMounts_ok s (curr l') q crossed2 s4 crossed1 Hm Hl Et Hs4) as (s5 & E5 & Hs5 & Hq).
    rewrite (bind_good _ _ _ _ _ E5). eexists. split; [done|]. eapply holds_ext; [exact Hs5|].
    intros x. autorewrite with cnt. lia.
  - injection Hw as <- <-. destruct (close_node_ok s s4 _ (curr l') crossed1 Hl Hs4) as (s5 & E5 & Hs5); [done|].
    rewrite (bind_good _ _ _ _ _ E5). by exists s5.
Qed.

(** C27: A lookup finds the node the path stands for and gives the caller one
    reference to it; on an error it gives none.  Apart from that, what is left
    is one reference to every node whose mount was followed. *)
Theorem vfsLookupNode_correct s process p path prefix real_path r crossed :
  mounts_ok s -> live (store s) p -> is_cstr path -> walk s process (Path.segs path) p = Some (r, crossed) ->
  exists s', vfsLookupNode process p path false prefix real_path s =
      Some (match r with
            | Good (q, names) => Good (q, if real_path then Some (build_path prefix names) else None)
            | Bad k => Bad k
            end, s') /\
    holds s s' (match r with Good (q, _) => q :: crossed | Bad _ => crossed end).
Proof. apply lookup_from. Qed.

(** ** The real path *)

Lemma walk_loop_names s process path : forall l l' crossed,
  length (dirs l) = length (segs l) -> Path.dotdot ∉ segs l -> walk_loop s process path l = Some (Good tt, l', crossed) ->
  segs l' = Path.resolve true (segs l) path.
Proof.
  induction path as [|seg path IH]; intros l l' crossed Hlen Hdd Hw; cbn [walk_loop] in Hw; [by injection Hw as <- _|].
  destruct (negb _); [done|]. cbn [Path.resolve]. unfold is_dot, is_dotdot in Hw. change [46] with [Path.dot] in Hw.
  change [46; 46] with Path.dotdot in Hw.
  destruct (decide (seg = [Path.dot])) as [Ed|Ed]; [rewrite bool_decide_true in Hw by done; by eapply IH|].
  rewrite bool_decide_false in Hw by done.
  destruct (decide (seg = Path.dotdot)) as [Edd|Edd].
  - rewrite bool_decide_true in Hw by done. destruct (dirs l) as [|dir dirs'] eqn:Ed'.
    + destruct (segs l) as [|? ?] eqn:Es; [|done]. rewrite (IH l l' crossed); try done; by rewrite ?Ed', ?Es.
    + destruct (segs l) as [|top stk] eqn:Es; [done|]. rewrite elem_of_cons in Hdd.
      rewrite decide_False by (intros ->; apply Hdd; by left).
      apply (IH (mkLookup dir dirs' stk) l' crossed); [by injection Hlen|cbn; naive_solver|done].
  - rewrite bool_decide_false in Hw by done. destruct (mount_target s (curr l)) as [[c cr]|]; [|done]. cbn [mbind option_bind] in Hw.
    destruct (entry (store s) c process seg) as [next|]; [|done].
    destruct (walk_loop s process path _) as [[[r1 l1] cr2]|] eqn:Ew; [|done]. injection Hw as -> <- _.
    eapply (IH (mkLookup next (curr l :: dirs l) (seg :: segs l))); [cbn; by rewrite Hlen| |exact Ew].
    cbn. rewrite elem_of_cons. intros [?|?]; by auto.
Qed.

Lemma concat_join sg ss : concat ((fun seg => slash :: seg) <$> sg :: ss) = slash :: Path.join (sg :: ss).
Proof.
  revert sg. induction ss as [|sg' ss IH]; intros sg; [cbn; by rewrite app_nil_r|].
  rewrite fmap_cons. cbn [concat]. rewrite IH. done.
Qed.

Lemma build_path_normal_form t names :
  names = Path.resolve true [] (Path.segs t) -> build_path [] names = Path.normal_form (slash :: t) ++ [0].
Proof.
  intros ->. unfold build_path, Path.normal_form. f_equal. cbn [app Path.is_abs]. change (slash =? slash) with true. cbn match.
  change (Path.segs (slash :: t)) with (Path.segs t).
  destruct (reverse (Path.resolve true [] (Path.segs t))) as [|sg ss]; [done|]. by rewrite concat_join.
Qed.

(** The path of an open file is the normal form of the path it was opened with:
    resolving in the directories gives the names that resolving in the string
    gives. *)
Theorem real_path_is_reduced s process p path q names crossed :
  walk s process (Path.segs path) p = Some (Good (q, names), crossed) ->
  build_path [] names = Path.normal_form (slash :: path) ++ [0].
Proof.
  intros Hw. apply build_path_normal_form. unfold walk in Hw.
  destruct (walk_loop s process (Path.segs path) (mkLookup p [] [])) as [[[r l'] cr]|] eqn:Ew; [|done]. cbn [mbind option_bind] in Hw.
  destruct r as [[]|k]; [|done]. destruct (mount_target s (curr l')) as [[q' cr']|]; [|done]. injection Hw as _ <- _.
  eapply (walk_loop_names s process _ (mkLookup p [] [])); [done| |exact Ew]. apply not_elem_of_nil.
Qed.

(** ** Lookups from the root *)

Lemma frame_target s s' p : frame s s' -> mount_target s' p = mount_target s p.
Proof.
  intros Hf. unfold mount_target. rewrite (fr_mounted _ _ Hf).
  generalize (S (base.size (mounted s))) as fuel. intros fuel. revert p. induction fuel as [|fuel IH]; intros p; [done|]. cbn [target].
  destruct (mounted s !! p) as [sb|]; [|done]. by rewrite (same_root _ _ (fr_same _ _ Hf)), IH.
Qed.

Lemma frame_mounts_ok s s' : frame s s' -> mounts_ok s -> mounts_ok s'.
Proof.
  intros Hf [H1 H2]. split.
  - intros p sb. rewrite (fr_mounted _ _ Hf), (same_root _ _ (fr_same _ _ Hf)). intros Hp. eapply same_live; [apply Hf|by eapply H1].
  - intros p. by rewrite (frame_target s).
Qed.

Lemma frame_walk_loop s s' process path l : frame s s' -> walk_loop s' process path l = walk_loop s process path l.
Proof.
  intros Hf. revert l. induction path as [|seg path IH]; intros l; [done|]. cbn [walk_loop].
  rewrite (same_stat _ _ (fr_same _ _ Hf)). destruct (negb _); [done|]. destruct (is_dot seg); [apply IH|].
  destruct (is_dotdot seg); [destruct (dirs l); apply IH|]. rewrite (frame_target s) by done.
  destruct (mount_target s (curr l)) as [[c cr]|]; [|done]. cbn [mbind option_bind].
  rewrite (same_entry _ _ (fr_same _ _ Hf)). destruct (entry (store s) c process seg); [|done]. by rewrite IH.
Qed.

Lemma holds_trans s s1 s2 l1 l2 : holds s s1 l1 -> holds s1 s2 l2 -> holds s s2 (l2 ++ l1).
Proof.
  intros [F1 H1] [F2 H2]. split; [by eapply frame_trans|]. intros x. rewrite H2, H1, cnt_app. lia.
Qed.

Lemma target_live s fuel : forall p q crossed,
  mounts_ok s -> live (store s) p -> target fuel (mounted s) (root_node (store s)) p = Some (q, crossed) -> live (store s) q.
Proof.
  induction fuel as [|fuel IH]; intros p q crossed Hm Hp Ht; [done|]. cbn [target] in Ht.
  destruct (mounted s !! p) as [sb|] eqn:E; [|by injection Ht as <- <-].
  destruct (target fuel _ _ _) as [[q' cr]|] eqn:Et; [|done]. injection Ht as <- <-.
  eapply IH; [done|by eapply mo_live|exact Et].
Qed.

Lemma walk_loop_live s process path : forall l r l' crossed,
  mounts_ok s -> all_live s l -> walk_loop s process path l = Some (r, l', crossed) -> live (store s) (curr l').
Proof.
  induction path as [|seg path IH]; intros l r l' crossed Hm [Hc Hd] Hw; cbn [walk_loop] in Hw; [by injection Hw as _ <- _|].
  destruct (negb _); [by injection Hw as _ <- _|]. destruct (is_dot seg); [by eapply (IH l); [done|split|]|].
  destruct (is_dotdot seg).
  - destruct (dirs l) as [|dir dirs'] eqn:Ed; [eapply (IH l); [done| |done]; by split; rewrite ?Ed|].
    apply Forall_cons_1 in Hd as [Hdir Hd]. by eapply (IH (mkLookup dir dirs' (tail (segs l)))); [done|split|].
  - destruct (mount_target s (curr l)) as [[c cr]|] eqn:Et; [|done]. cbn [mbind option_bind] in Hw.
    pose proof (target_live s _ _ _ _ Hm Hc Et) as Hlc. destruct (entry (store s) c process seg) as [next|k] eqn:Ee.
    + destruct (walk_loop s process path _) as [[[r1 l1] cr2]|] eqn:Ew; [|done]. injection Hw as <- <- <-.
      eapply (IH (mkLookup next (curr l :: dirs l) (seg :: segs l))); [done| |exact Ew].
      split; [by eapply entry_live|by constructor].
    + by injection Hw as _ <- _.
Qed.

(** A lookup of an absolute path that crosses no mount before its last node. *)
Lemma lookup_abs s process t skip_last l' rsb :
  root_mounted s = Some rsb -> mounts_ok s -> live (store s) (root_node (store s) rsb) -> is_cstr t ->
  walk_loop s process (Path.segs (slash :: t)) (mkLookup (root_node (store s) rsb) [] []) = Some (Good tt, l', []) ->
  (skip_last = false -> mounted s !! curr l' = None) ->
  (skip_last = true -> exists sb, mounted s !! curr l' = Some sb /\ mounted s !! root_node (store s) sb = None) ->
  exists s', vfsLookupNodeAt process None (slash :: t) false skip_last false s = Some (Good (curr l', None), s') /\
    holds s s' [curr l'] /\ live (store s) (curr l').
Proof.
  intros Hroot Hm Hlr Hcs Hw Hf0 Hf1. set (root := root_node (store s) rsb) in *.
  assert (Hcs' : is_cstr (slash :: t)) by (constructor; [done|done]).
  assert (Hq : live (store s) (curr l')) by (eapply walk_loop_live; [done| |exact Hw]; by split).
  change (vfsLookupNodeAt process None (slash :: t) false skip_last false s)
    with (vfsLookupNodeAtExactAbs process (slash :: t) skip_last false s).
  unfold vfsLookupNodeAtExactAbs. rewrite bind_whole, Hroot. cbn zeta. fold root.
  destruct (copy_node_ok s s [] root Hlr) as (s1 & E1 & Hs1); [split; [apply frame_refl|]; intros; rewrite cnt_nil; lia|].
  rewrite (bind_good _ _ _ _ _ E1). pose proof (proj1 Hs1) as F1.
  destruct (vfsLookupNode_walks s1 process root (slash :: t) skip_last [] false (Good tt) l' []) as (s4 & Hs4 & Hl & E4); try done.
  { by eapply frame_mounts_ok. }
  { eapply same_live; [apply F1|done]. }
  { by rewrite (frame_walk_loop s). }
  assert (Hfollow : exists s5, vfsFollowMounts (curr l') skip_last s4 = Some (Good (curr l'), s5) /\ holds s1 s5 [curr l']).
  { unfold vfsFollowMounts. rewrite bind_whole. cbn [follow_loop]. rewrite bind_whole.
    rewrite (fr_mounted _ _ (proj1 Hs4)), (fr_mounted _ _ F1).
    destruct skip_last.
    - destruct (Hf1 eq_refl) as (sb & Esb & Enone). rewrite Esb.
      assert (Hrt : root_node (store s4) sb = root_node (store s) sb).
      { by rewrite (same_root _ _ (fr_same _ _ (proj1 Hs4))), (same_root _ _ (fr_same _ _ F1)). }
      assert (Hlsb : live (store s1) (root_node (store s) sb)) by (eapply same_live; [apply F1|by eapply mo_live]).
      rewrite Hrt. destruct (copy_node_ok s1 s4 _ _ Hlsb Hs4) as (s5 & E5 & Hs5). rewrite (bind_good _ _ _ _ _ E5), bind_whole.
      rewrite (fr_mounted _ _ (proj1 Hs5)), (fr_mounted _ _ F1), Enone.
      destruct (close_node_ok s1 s5 _ (root_node (store s) sb) [curr l'] Hlsb Hs5) as (s6 & E6 & Hs6); [done|].
      rewrite (bind_good _ _ _ _ _ E6). by exists s6.
    - rewrite (Hf0 eq_refl). by exists s4. }
  destruct Hfollow as (s5 & E5 & Hs5). rewrite (bind_good _ _ _ _ _ E5) in E4. rewrite (bind_attempt _ _ _ _ _ E4).
  pose proof (holds_trans _ _ _ _ _ Hs1 Hs5) as Hs15.
  destruct (close_node_ok s s5 _ root [curr l'] Hlr Hs15) as (s6 & E6 & Hs6).
  { intros x. cbn [app]. autorewrite with cnt. lia. }
  rewrite (bind_good _ _ _ _ _ E6). by exists s6.
Qed.

Definition mounting (s : vfs) (q sb : Z) : vfs := mkVfs (store s) {[q := sb]} (root_mounted s) (tmp_mounted s).

Lemma mounting_ok s q sb : live (store s) (root_node (store s) sb) -> root_node (store s) sb <> q -> mounts_ok (mounting s q sb).
Proof.
  intros Hl Hne. split; cbn.
  - intros p sb' Hp. apply lookup_singleton_Some in Hp as [_ <-]. done.
  - intros p. unfold mount_target, mounting. cbn [mounted store]. rewrite map_size_singleton. cbn [target].
    destruct (decide (q = p)) as [->|Hp].
    + rewrite lookup_singleton_eq, lookup_singleton_ne by done. by eexists.
    + rewrite lookup_singleton_ne by done. by eexists.
Qed.

(** The node that is mounted over goes back to its count and nothing is mounted,
    when the filesystem that was mounted last is unmounted. *)
Theorem mount_umount_roundtrip s process t rsb sb l' :
  root_mounted s = Some rsb -> mounted s = ∅ -> live (store s) (root_node (store s) rsb) -> is_cstr t ->
  walk_loop s process (Path.segs (slash :: t)) (mkLookup (root_node (store s) rsb) [] []) = Some (Good tt, l', []) ->
  let q := curr l' in
  walk_loop (mounting s q sb) process (Path.segs (slash :: t)) (mkLookup (root_node (store s) rsb) [] []) = Some (Good tt, l', []) ->
  MODE_TYPE (mode (stat_of (store s) q)) = VFS_TYPE_DIR ->
  live (store s) (root_node (store s) sb) -> root_node (store s) sb <> q -> superblock (store s) q <> sb ->
  exists s1 s2, vfsMount process (slash :: t) sb s = Some (Good tt, s1) /\
    mounted s1 = {[q := sb]} /\ (forall x, refs (store s1) x = refs (store s) x + cnt x [q]) /\
    vfsUmount process (slash :: t) s1 = Some (Good tt, s2) /\
    mounted s2 = ∅ /\ root_mounted s2 = root_mounted s /\ (forall x, refs (store s2) x = refs (store s) x).
Proof.
  intros Hroot Hmt Hlr Hcs Hw q Hw' Hdir Hlsb Hne Hsb.
  assert (Hm : mounts_ok s).
  { split; [intros p b; by rewrite Hmt, lookup_empty|]. intros p. unfold mount_target. cbn [target]. rewrite Hmt, lookup_empty. by eexists. }
  destruct (lookup_abs s process t false l' rsb Hroot Hm Hlr Hcs Hw) as (s1 & E1 & Hs1 & Hq); [by rewrite Hmt, lookup_empty|done|].
  pose proof (proj1 Hs1) as F1. fold q in E1, Hs1, Hq.
  set (s2 := mkVfs (store s1) {[q := sb]} (root_mounted s1) (tmp_mounted s1)).
  assert (Emount : vfsMount process (slash :: t) sb s = Some (Good tt, s2)).
  { unfold vfsMount. rewrite bind_whole, Hroot. unfold mount_at. rewrite (bind_good _ _ _ _ _ E1), bind_whole.
    rewrite (fr_mounted _ _ F1), Hmt, lookup_empty. unfold get_stat, mbind, R_bind.
    rewrite (same_stat _ _ (fr_same _ _ F1)), Hdir. change (negb (VFS_TYPE_DIR =? VFS_TYPE_DIR)) with false. cbn match.
    unfold set_mounted. by rewrite (fr_mounted _ _ F1), Hmt. }
  assert (F2 : frame (mounting s q sb) s2) by (destruct F1; by split).
  assert (Hm2 : mounts_ok s2) by (eapply frame_mounts_ok; [exact F2|by apply mounting_ok]).
  assert (Hroot2 : root_node (store s2) rsb = root_node (store s) rsb) by (apply (same_root _ _ (fr_same _ _ F1))).
  destruct (lookup_abs s2 process t true l' rsb) as (s3 & E3 & Hs3 & Hq3); try done.
  { by rewrite (fr_root _ _ F2). }
  { rewrite Hroot2. eapply same_live; [apply F1|done]. }
  { by rewrite (frame_walk_loop (mounting s q sb)), Hroot2. }
  { intros _. exists sb. fold q. cbn. rewrite lookup_singleton_eq. split; [done|].
    rewrite (same_root _ _ (fr_same _ _ F1)). by rewrite lookup_singleton_ne by done. }
  fold q in E3, Hs3, Hq3. exists s2. pose proof (proj1 Hs3) as F3.
  destruct (superclose_ok (store s3) sb) as (n4 & E4 & Hr4 & Hl4).
  assert (Hq4 : live n4 q).
  { apply Hl4; [eapply same_live; [apply F3|done]|]. rewrite (same_super _ _ (fr_same _ _ F3)). cbn. by rewrite (same_super _ _ (fr_same _ _ F1)). }
  assert (Hc : forall x, refs n4 x = refs (store s) x + 2 * cnt x [q]).
  { intros x. rewrite Hr4, (proj2 Hs3), (proj2 Hs1). fold q. cbn [store s2]. lia. }
  destruct (close_ok n4 q Hq4) as (n5 & E5 & Hs5 & Hr5).
  { rewrite Hc. autorewrite with cnt. rewrite decide_True by done. pose proof (refs_nonneg (store s) q). lia. }
  destruct (close_ok n5 q) as (n6 & E6 & Hs6 & Hr6); [by eapply same_live| |].
  { rewrite Hr5, Hc. autorewrite with cnt. rewrite decide_True by done. pose proof (refs_nonneg (store s) q). lia. }
  exists (mkVfs n6 (delete q (mounted s3)) (root_mounted s3) (tmp_mounted s3)). split_and!.
  - exact Emount.
  - done.
  - intros x. cbn. apply (proj2 Hs1).
  - unfold vfsUmount. rewrite bind_whole. rewrite (fr_root _ _ F2). cbn [root_mounted mounting]. rewrite Hroot.
    assert (Eif : bool_decide (slash :: t = [slash]) && bool_decide (mounted s2 !! root_node (store s2) rsb = None) = false).
    { destruct t as [|c t]; [|done]. cbn in Hw. injection Hw as Hl. apply andb_false_intro2, bool_decide_eq_false_2.
      rewrite Hroot2. unfold s2, q. rewrite <- Hl. cbn [mounted curr]. by rewrite lookup_singleton_eq. }
    rewrite Eif. rewrite (bind_good _ _ _ _ _ E3), bind_whole. rewrite (fr_mounted _ _ F3). cbn [mounted s2].
    rewrite lookup_singleton_eq. unfold on_nodes, on, mbind, R_bind. rewrite E4. cbn [mbind option_bind].
    unfold set_mounted, close_node, on_nodes, on. cbn [store mounted root_mounted tmp_mounted]. rewrite E5. cbn. rewrite E6. cbn. by rewrite (fr_mounted _ _ F3).
  - cbn. rewrite (fr_mounted _ _ F3). cbn. by rewrite delete_singleton_eq.
  - cbn. rewrite (fr_root _ _ F3). cbn. apply (fr_root _ _ F1).
  - intros x. cbn. rewrite Hr6, Hr5, Hc. lia.
Qed.

End Laws.

(** ** Permissions *)

(** A class of access is granted to everybody, to the group or to the owner. *)
Definition grants (st : VfsStat) (p : Process) (everybody group owner : Z) : Prop :=
  has (mode st) everybody = true \/
  (has (mode st) group = true /\ gid st = egid p) \/
  (has (mode st) owner = true /\ uid st = euid p).

Lemma denied_spec st p a g o :
  negb (has (mode st) a) && (negb (has (mode st) g) || negb (gid st =? egid p)) &&
  (negb (has (mode st) o) || negb (uid st =? euid p)) = false <-> grants st p a g o.
Proof.
  unfold grants. destruct (has (mode st) a), (has (mode st) g), (has (mode st) o),
    (Z.eqb_spec (gid st) (egid p)), (Z.eqb_spec (uid st) (euid p)); cbn; intuition congruence.
Qed.

(** The tests of [basicCanAccess], each with what comes after it. *)
Lemma type_check (b : bool) t u e (k : option Z) :
  (if b && negb (t =? u) then Some e else k) = None <-> (b = true -> t = u) /\ k = None.
Proof. destruct b, (Z.eqb_spec t u); cbn; intuition congruence. Qed.

Lemma owner_check (b c : bool) t u e (k : option Z) :
  (if (b || c) && negb (t =? u) then Some e else k) = None <-> (b = true \/ c = true -> t = u) /\ k = None.
Proof. destruct b, c, (Z.eqb_spec t u); cbn; intuition congruence. Qed.

Lemma class_check (b x y z : bool) e (k : option Z) :
  (if b && x && y && z then Some e else k) = None <-> (b = true -> x && y && z = false) /\ k = None.
Proof. destruct b, (x && y && z) eqn:E; rewrite <- ?andb_assoc in *; cbn [andb]; rewrite ?E; intuition congruence. Qed.

(** The permission check as a proposition: an access is granted exactly when
    the node has the type that is asked for and the process is root, or it
    owns the node where the mode or the owner is to be changed and for every
    kind of access asked for the bit of everybody is set, or that of its
    group, or that of the owner it is. *)
Theorem canAccess_correct st p flags :
  canAccess st (Some p) flags = None <->
  (has flags VFS_ACCESS_REG = true -> MODE_TYPE (mode st) = VFS_TYPE_REG) /\
  (has flags VFS_ACCESS_DIR = true -> MODE_TYPE (mode st) = VFS_TYPE_DIR) /\
  (euid p = 0 \/
   ((has flags VFS_ACCESS_CHMOD = true \/ has flags VFS_ACCESS_CHOWN = true -> uid st = euid p) /\
    (has flags VFS_ACCESS_R = true -> grants st p VFS_MODE_A_R VFS_MODE_G_R VFS_MODE_O_R) /\
    (has flags VFS_ACCESS_W = true -> grants st p VFS_MODE_A_W VFS_MODE_G_W VFS_MODE_O_W) /\
    (has flags VFS_ACCESS_X = true -> grants st p VFS_MODE_A_X VFS_MODE_G_X VFS_MODE_O_X))).
Proof.
  unfold canAccess, basicCanAccess. rewrite <- !denied_spec, !type_check. destruct (Z.eqb_spec (euid p) 0) as [E|E]; [tauto|].
  rewrite owner_check, !class_check. tauto.
Qed.

(** ** Filesystems in memory

    The superblock [sb] has the nodes from [100 * sb] on, the first is its
    root. *)
Record tree := mkTree {
  t_refs : gmap Z nat;
  t_entries : gmap (Z * list Z) Z;
  t_stat : gmap Z VfsStat;
  t_next : Z;
}.

Definition t_count (n : tree) (p : Z) : nat := default O (t_refs n !! p).
Definition t_set (p : Z) (c : nat) (n : tree) : tree := mkTree (<[p := c]> (t_refs n)) (t_entries n) (t_stat n) (t_next n).
Definition t_stat_of (n : tree) (p : Z) : VfsStat := default (mkStat 0 1 0 0 0 0) (t_stat n !! p).
Definition t_put_stat (p : Z) (st : VfsStat) (n : tree) : tree := mkTree (t_refs n) (t_entries n) (<[p := st]> (t_stat n)) (t_next n).
Definition t_links (p d : Z) (n : tree) : tree :=
  let st := t_stat_of n p in t_put_stat p (mkStat (mode st) (nlinks st + d) (uid st) (gid st) (rdev st) (size st)) n.

Definition t_entry (n : tree) (p : Z) (pr : option Process) (name : list Z) : result Z :=
  match canAccess (t_stat_of n p) pr (Z.lor VFS_ACCESS_X VFS_ACCESS_DIR) with
  | Some k => Bad k
  | None => match t_entries n !! (p, name) with Some q => Good q | None => Bad ENOENT end
  end.

#[export] Instance tree_nodes : Nodes tree := {
  stat_of := t_stat_of;
  set_stat := t_put_stat;
  superblock _ p := p / 100;
  root_node _ sb := 100 * sb;
  vfsNodeCopy p n := Some (Good tt, t_set p (S (t_count n p)) n);
  vfsNodeClose p n := match t_count n p with S c => Some (Good tt, t_set p c n) | O => None end;
  vfsNodeLookup p pr name n :=
    Some (t_entry n p pr name, match t_entry n p pr name with Good q => t_set q (S (t_count n q)) n | Bad _ => n end);
  vfsNodeLink p pr name q n :=
    match canAccess (t_stat_of n p) pr (Z.lor VFS_ACCESS_W VFS_ACCESS_DIR) with
    | Some k => Some (Bad k, n)
    | None => Some (Good tt, t_links q 1 (mkTree (t_refs n) (<[(p, name) := q]> (t_entries n)) (t_stat n) (t_next n)))
    end;
  vfsNodeUnlink p pr name q n :=
    match canAccess (t_stat_of n p) pr (Z.lor VFS_ACCESS_W VFS_ACCESS_DIR), t_entries n !! (p, name) with
    | Some k, _ => Some (Bad k, n)
    | None, None => Some (Bad ENOENT, n)
    | None, Some _ => Some (Good tt, t_links q (-1) (mkTree (t_refs n) (delete (p, name) (t_entries n)) (t_stat n) (t_next n)))
    end;
  vfsNodeTrunc p pr _ n :=
    let st := t_stat_of n p in
    Some (Good tt, t_put_stat p (mkStat (mode st) (nlinks st) (uid st) (gid st) (rdev st) 0) n);
  vfsNodeReaddirAt _ _ _ _ n := Some (Good (0, None), n);
  vfsSuperNewNode sb n :=
    let p := 100 * sb + t_next n in
    Some (Good p, t_set p 1%nat (mkTree (t_refs n) (t_entries n) (t_stat n) (t_next n + 1)));
  vfsSuperClose _ n := Some (Good tt, n);
  getDeviceWithId _ := None;
}.

Lemma t_count_set p c n x : t_count (t_set p c n) x = if decide (p = x) then c else t_count n x.
Proof. unfold t_count, t_set. cbn. case_decide as E; [subst; by rewrite lookup_insert_eq|by rewrite lookup_insert_ne]. Qed.

Definition t_same (n n' : tree) : Prop := t_entries n' = t_entries n /\ t_stat n' = t_stat n.

Lemma t_same_stat n n' p : t_same n n' -> t_stat_of n' p = t_stat_of n p.
Proof. intros [_ E]. unfold t_stat_of. by rewrite E. Qed.

Lemma t_same_entry n n' p pr name : t_same n n' -> t_entry n' p pr name = t_entry n p pr name.
Proof. intros Hs. unfold t_entry. rewrite (t_same_stat n) by done. destruct Hs as [-> _]. done. Qed.

#[export, refine] Instance tree_laws : NodesLaws tree := {
  refs n p := Z.of_nat (t_count n p);
  entry := t_entry;
  live _ _ := True;
  same := t_same;
}.
Proof.
  - intros n. by split.
  - intros n1 n2 n3 [A1 A2] [B1 B2]. split; congruence.
  - intros n n' Hs p. by apply t_same_stat.
  - done.
  - done.
  - intros n n' Hs p pr name. by apply t_same_entry.
  - done.
  - intros n p. lia.
  - intros n p _. eexists. split; [reflexivity|]. split; [by split|].
    intros x. rewrite t_count_set, cnt_cons, cnt_nil. case_decide; [subst; lia|lia].
  - intros n p _ Hr. cbn. destruct (t_count n p) as [|c] eqn:E; [lia|]. eexists. split; [reflexivity|]. split; [by split|].
    intros x. rewrite t_count_set, cnt_cons, cnt_nil. case_decide; [subst; rewrite E; lia|lia].
  - intros n p pr name _ Hr. cbn. eexists. split; [reflexivity|]. destruct (t_entry n p pr name) as [q|k].
    + split; [by split|]. intros x. rewrite t_count_set, cnt_cons, cnt_nil. case_decide; [subst; lia|lia].
    + split; [by split|]. intros x. lia.
  - done.
  - intros n sb. eexists. split; [reflexivity|]. by split.
Defined.

(** The root filesystem 1 with /a and /a/b, and the filesystem 2 with /c. *)
Definition dir_stat : VfsStat := mkStat (Z.lor (TYPE_MODE VFS_TYPE_DIR) 0x1ed) 2 0 0 0 64.
Definition ex_tree : tree :=
  mkTree ∅ (<[(100, cstr "a") := 101]> (<[(101, cstr "b") := 102]> {[ (200, cstr "c") := 201 ]}))
    (<[100 := dir_stat]> (<[101 := dir_stat]> (<[102 := dir_stat]> (<[200 := dir_stat]> {[ 201 := dir_stat ]})))) 50.
Definition ex_user : Process := mkProcess 1000 1000 0x12 (cstr "/a").
Definition ex_vfs : vfs (N := tree) := mkVfs ex_tree ∅ (Some 1) [].

Lemma no_mounts_ok (s : vfs (N := tree)) : mounted s = ∅ -> mounts_ok s.
Proof.
  intros Hm. split; [intros p b; by rewrite Hm, lookup_empty|].
  intros p. unfold mount_target. cbn [target]. rewrite Hm, lookup_empty. by eexists.
Qed.

Lemma vfsLookupNode_correct_witness :
  exists s', vfsLookupNode (Some ex_user) 100 (cstr "/a/./b/../b") false [] true ex_vfs =
      Some (Good (102, Some (cstr "/a/b" ++ [0])), s') /\ holds ex_vfs s' [102].
Proof.
  destruct (vfsLookupNode_correct ex_vfs (Some ex_user) 100 (cstr "/a/./b/../b") [] true (Good (102, [cstr "b"; cstr "a"])) [])
    as (s' & E & Hs).
  - by apply no_mounts_ok.
  - exact I.
  - unfold is_cstr. repeat (apply Forall_cons; [vm_compute; split; reflexivity|]); apply Forall_nil.
  - vm_compute. reflexivity.
  - exists s'. split; [exact E|exact Hs].
Defined.

Lemma real_path_is_reduced_witness :
  build_path [] [cstr "b"; cstr "a"] = Path.normal_form (slash :: cstr "a//b/.") ++ [0].
Proof.
  apply (real_path_is_reduced ex_vfs (Some ex_user) 100 (cstr "a//b/.") 102 [cstr "b"; cstr "a"] []).
  vm_compute. reflexivity.
Defined.

Lemma mount_umount_roundtrip_witness :
  exists s1 s2, vfsMount None (cstr "/a/b") 2 ex_vfs = Some (Good tt, s1) /\ mounted s1 = {[102 := 2]} /\
    vfsUmount None (cstr "/a/b") s1 = Some (Good tt, s2) /\ mounted s2 = ∅.
Proof.
  destruct (mount_umount_roundtrip ex_vfs None (cstr "a/b") 1 2 (mkLookup 102 [101; 100] [cstr "b"; cstr "a"]))
    as (s1 & s2 & E1 & H1 & _ & E2 & H2 & _).
  - reflexivity.
  - reflexivity.
  - exact I.
  - unfold is_cstr. repeat (apply Forall_cons; [vm_compute; split; reflexivity|]); apply Forall_nil.
  - vm_compute. reflexivity.
  - vm_compute. reflexivity.
  - vm_compute. reflexivity.
  - exact I.
  - vm_compute. congruence.
  - vm_compute. congruence.
  - exists s1, s2. split; [exact E1|]. split; [exact H1|]. split; [exact E2|exact H2].
Defined.

(** *** What modelling showed *)

(** Going through a mount keeps a reference to the node below it for good. *)
Definition ex_mounted : vfs (N := tree) := mkVfs ex_tree {[ 101 := 2 ]} (Some 1) [].

Example mount_leaks_reference :
  match vfsLookupNode (Some ex_user) 100 (cstr "/a/c") false [] false ex_mounted with
  | Some (r, s') => r = Good (201, None) /\ t_count (store s') 201 = 1%nat /\ t_count (store s') 101 = 1%nat
  | None => False
  end.
Proof. vm_compute. repeat split. Qed.

(** Before there is a root, "/dev" is taken for a prefix of "/device". *)
Example prefix_of_a_name : prefix_matches (cstr "/device") (cstr "/dev") = true.
Proof. reflexivity. Qed.

(** The path of a new file has no NUL. *)
Example new_path_unterminated :
  match vfsCreateNewNode None None (cstr "/a/f") 0x81a4 0 true ex_vfs with
  | Some (Good (_, Some path), _) => path = cstr "/a/f"
  | _ => False
  end.
Proof. vm_compute. reflexivity. Qed.

(** Linking a directory elsewhere keeps a reference to the old parent. *)
Example link_leaks_parent :
  match vfsLinkAt None None (cstr "/a/b") None (cstr "/b") (mkVfs
      (mkTree ∅ (<[(102, cstr "..") := 101]> (t_entries ex_tree)) (t_stat ex_tree) 50) ∅ (Some 1) []) with
  | Some (r, s') => r = Good tt /\ t_count (store s') 101 = 1%nat
  | None => False
  end.
Proof. vm_compute. repeat split. Qed.

Lemma canAccess_correct_example :
  canAccess (mkStat (Z.lor (TYPE_MODE VFS_TYPE_REG) 0x1a4) 1 5 1000 0 0) (Some ex_user) VFS_ACCESS_R = None /\
  canAccess (mkStat (Z.lor (TYPE_MODE VFS_TYPE_REG) 0x1a4) 1 5 1000 0 0) (Some ex_user) VFS_ACCESS_W = Some EACCES.
Proof. split; reflexivity. Qed.

End VfsFs.
