(* ===== verification/VfsNode.v ===== *)
(** * VfsNode: operations on nodes, [kernel/src/files/vfs/node.c]

    A node delegates to the functions of its filesystem after the check of the
    permissions.  The functions are pointers: parameters here, [None] for
    [NULL], that work on the data [F] of the filesystems.  The lock of the node
    makes the check and the update of the times one step. *)
From S2P Require Import Prelude Errors VfsFs.
Import Errors VfsFs.

Module VfsNode.

Definition ENOTTY : Z := 25.
Definition VFS_MODE_STICKY : Z := Z.shiftl 1 9.

Record VfsNode := mkNode {
  stat : VfsStat;
  mtime : Z;
  atime : Z;
  ctime : Z;
  node_super : option Z;
  real_node : Z;
  dirty : bool;
}.

Section Node.
Context {F : Type}.

Record VfsNodeFunctions := mkFunctions {
  fn_read_at : option (Z -> Z -> R F (list Z));
  fn_write_at : option (Z -> list Z -> R F Z);
  fn_trunc : option (Z -> R F unit);
  fn_readdir_at : option (Z -> Z -> R F (Z * list Z));
  fn_lookup : option (list Z -> R F Z);
  fn_unlink : option (list Z -> R F unit);
  fn_link : option (list Z -> Z -> R F unit);
  fn_ioctl : option (Z -> Z -> R F Z);
  fn_is_ready : option (bool -> F -> bool);
}.

Record state := mkState { nodes : gmap Z VfsNode; data : F }.

Context (functions : Z -> VfsNodeFunctions) (now : Z) (vfsSuperReadNode : option Z -> Z -> R state Z).

Definition get_node (p : Z) : R state VfsNode := fun s => n ← nodes s !! p; Some (Good n, s).
Definition put_node (p : Z) (n : VfsNode) : R state unit := fun s => Some (Good tt, mkState (<[p := n]> (nodes s)) (data s)).
Definition on_data {A : Type} : R F A -> R state A := on data (fun d s => mkState (nodes s) d).

(** [vfsSuperWriteNode]: the node is written when it is closed. *)
Definition vfsSuperWriteNode (p : Z) : R state unit :=
  n ← get_node p;
  match node_super n with
  | None => mret tt
  | Some _ => put_node p (mkNode (stat n) (mtime n) (atime n) now (node_super n) (real_node n) true)
  end.

Definition check_access (p : Z) (process : option Process) (access : Z) : R state unit :=
  n ← get_node p;
  match canAccess (stat n) process access with Some k => bad k | None => mret tt end.

Definition touch (p : Z) (write : bool) : R state unit :=
  n ← get_node p;
  put_node p (mkNode (stat n) (if write then now else mtime n) now (ctime n) (node_super n) (real_node n) (dirty n)).

Definition set_nlinks (p d : Z) : R state unit :=
  n ← get_node p;
  let st := stat n in
  put_node p (mkNode (mkStat (mode st) (u64 (nlinks st + d)) (uid st) (gid st) (rdev st) (size st))
    (mtime n) (atime n) (ctime n) (node_super n) (real_node n) (dirty n)).

(** [DELEGATE_NODE_FUNCTION]. *)
Definition delegate {A : Type} (p : Z) (process : option Process) (fn : option (R F A)) (access : Z) : R state A :=
  match fn with
  | None => bad EINVAL
  | Some f =>
      check_access p process access;;
      touch p (has access VFS_ACCESS_W);;
      vfsSuperWriteNode p;;
      on_data f
  end.

Definition vfsNodeReadAt (p : Z) (process : option Process) (offset length : Z) : R state (list Z) :=
  delegate p process ((fun f => f offset length) <$> fn_read_at (functions p)) VFS_ACCESS_R.

Definition vfsNodeWriteAt (p : Z) (process : option Process) (offset : Z) (b : list Z) : R state Z :=
  delegate p process ((fun f => f offset b) <$> fn_write_at (functions p)) VFS_ACCESS_W.

Definition vfsNodeReaddirAt (p : Z) (process : option Process) (offset length : Z) : R state (Z * list Z) :=
  delegate p process ((fun f => f offset length) <$> fn_readdir_at (functions p)) (Z.lor VFS_ACCESS_R VFS_ACCESS_DIR).

Definition vfsNodeTrunc (p : Z) (process : option Process) (length : Z) : R state unit :=
  delegate p process ((fun f => f length) <$> fn_trunc (functions p)) VFS_ACCESS_W.

Definition vfsNodeBasicLookup (p : Z) (process : option Process) (name : list Z) : R state Z :=
  delegate p process ((fun f => f name) <$> fn_lookup (functions p)) (Z.lor VFS_ACCESS_X VFS_ACCESS_DIR).

Definition vfsNodeLookup (p : Z) (process : option Process) (name : list Z) : R state Z :=
  node_id ← vfsNodeBasicLookup p process name;
  n ← get_node p;
  vfsSuperReadNode (node_super n) node_id.

Definition vfsNodeBasicUnlink (p : Z) (process : option Process) (name : list Z) : R state unit :=
  delegate p process ((fun f => f name) <$> fn_unlink (functions p)) (Z.lor VFS_ACCESS_W VFS_ACCESS_DIR).

Definition vfsNodeUnlink (p : Z) (process : option Process) (name : list Z) (entry : Z) : R state unit :=
  e0 ← get_node entry;
  let entry := real_node e0 in
  n ← get_node p;
  e ← get_node entry;
  if negb (bool_decide (node_super n = node_super e)) then bad EXDEV
  else
    (if has (mode (stat n)) VFS_MODE_STICKY then check_access entry process VFS_ACCESS_W else mret tt);;
    vfsNodeBasicUnlink p process name;;
    set_nlinks entry (-1);;
    vfsSuperWriteNode entry.

Definition vfsNodeLink (p : Z) (process : option Process) (name : list Z) (entry : Z) : R state unit :=
  e0 ← get_node entry;
  let entry := real_node e0 in
  n ← get_node p;
  e ← get_node entry;
  if negb (bool_decide (node_super n = node_super e)) then bad EXDEV
  else
    match fn_link (functions p) with
    | None => bad EINVAL
    | Some f =>
        check_access p process (Z.lor VFS_ACCESS_W VFS_ACCESS_DIR);;
        touch p true;;
        vfsSuperWriteNode p;;
        set_nlinks entry 1;;
        vfsSuperWriteNode entry;;
        on_data (f name entry)
    end.

Definition vfsNodeIoctl (p : Z) (request argp : Z) : R state Z :=
  match fn_ioctl (functions p) with None => bad ENOTTY | Some f => on_data (f request argp) end.

Definition vfsNodeIsReady (p : Z) (write : bool) : R state bool := fun s =>
  Some (Good (match fn_is_ready (functions p) with None => true | Some f => f write (data s) end), s).

(** ** Properties *)

(** The node after an operation that is allowed. *)
Definition touched (n : VfsNode) (write : bool) : VfsNode :=
  mkNode (stat n) (if write then now else mtime n) now (match node_super n with Some _ => now | None => ctime n end)
    (node_super n) (real_node n) (match node_super n with Some _ => true | None => dirty n end).

Lemma touch_write s p n write :
  nodes s !! p = Some n ->
  (touch p write;; vfsSuperWriteNode p) s = Some (Good tt, mkState (<[p := touched n write]> (nodes s)) (data s)).
Proof.
  intros Hp. unfold touch, vfsSuperWriteNode, get_node, put_node, mbind, R_bind. rewrite Hp. cbn [mbind option_bind nodes data].
  rewrite lookup_insert_eq. cbn [mbind option_bind node_super stat mtime atime ctime real_node dirty]. unfold touched.
  destruct (node_super n) as [sb|] eqn:E; cbn; [by rewrite insert_insert_eq|done].
Qed.

Lemma delegate_run {A : Type} s p n process (fn : option (R F A)) access :
  nodes s !! p = Some n ->
  delegate p process fn access s =
  match fn, canAccess (stat n) process access with
  | None, _ => Some (Bad EINVAL, s)
  | Some _, Some k => Some (Bad k, s)
  | Some f, None =>
      '(r, d) ← f (data s);
      Some (r, mkState (<[p := touched n (has access VFS_ACCESS_W)]> (nodes s)) d)
  end.
Proof.
  intros Hp. unfold delegate. destruct fn as [f|]; [|done].
  assert (Ec : check_access p process access s =
    Some (match canAccess (stat n) process access with Some k => Bad k | None => Good tt end, s)).
  { unfold check_access, get_node, mbind, R_bind. rewrite Hp. cbn. by destruct (canAccess _ _ _). }
  destruct (canAccess (stat n) process access) as [k|]; [by rewrite (bind_bad _ _ _ _ _ Ec)|].
  rewrite (bind_good _ _ _ _ _ Ec). pose proof (touch_write s p n (has access VFS_ACCESS_W) Hp) as Et.
  rewrite <- bind_bind, (bind_good _ _ _ _ _ Et). unfold on_data, on. cbn [data]. by destruct (f (data s)) as [[r d]|].
Qed.

(** An operation that the filesystem does not have is [EINVAL]; one that the
    process may not do is refused with the error of [canAccess]; neither changes
    anything.  Otherwise the function runs once, and the node has new times and
    is marked, whether the function succeeds or not. *)
Theorem delegate_correct {A : Type} s p n process (fn : option (R F A)) access :
  nodes s !! p = Some n ->
  delegate p process fn access s =
  match fn, canAccess (stat n) process access with
  | None, _ => Some (Bad EINVAL, s)
  | Some _, Some k => Some (Bad k, s)
  | Some f, None =>
      '(r, d) ← f (data s);
      Some (r, mkState (<[p := touched n (has access VFS_ACCESS_W)]> (nodes s)) d)
  end.
Proof. apply delegate_run. Qed.

Definition links (s : state) (p : Z) : option Z := (fun n => nlinks (stat n)) <$> nodes s !! p.

Lemma count_write s p n d :
  nodes s !! p = Some n ->
  exists n', (set_nlinks p d;; vfsSuperWriteNode p) s = Some (Good tt, mkState (<[p := n']> (nodes s)) (data s)) /\
    nlinks (stat n') = u64 (nlinks (stat n) + d) /\ real_node n' = real_node n /\ node_super n' = node_super n.
Proof.
  intros Hp. unfold set_nlinks, vfsSuperWriteNode, get_node, put_node, mbind, R_bind. rewrite Hp. cbn [mbind option_bind nodes data].
  rewrite lookup_insert_eq. cbn [mbind option_bind node_super stat mtime atime ctime real_node dirty].
  destruct (node_super n) as [sb|]; cbn; (eexists; split; [rewrite ?insert_insert_eq; reflexivity|by cbn]).
Qed.

Lemma touched_lookup s p n write x e :
  nodes s !! p = Some n -> nodes s !! x = Some e ->
  exists e', <[p := touched n write]> (nodes s) !! x = Some e' /\ stat e' = stat e /\ node_super e' = node_super e /\ real_node e' = real_node e.
Proof.
  intros Hp Hx. destruct (decide (x = p)) as [->|Hn].
  - rewrite lookup_insert_eq. assert (n = e) as <- by congruence. by eexists.
  - rewrite lookup_insert_ne by done. by eexists.
Qed.

(** A link counts for the entry before the filesystem makes it: the count stays
    one higher even when the function of the filesystem fails.  All other counts
    stay. *)
Theorem vfsNodeLink_counts s p n process name entry e0 e f r d :
  nodes s !! p = Some n -> nodes s !! entry = Some e0 -> nodes s !! real_node e0 = Some e ->
  node_super n = node_super e -> fn_link (functions p) = Some f ->
  canAccess (stat n) process (Z.lor VFS_ACCESS_W VFS_ACCESS_DIR) = None ->
  f name (real_node e0) (data s) = Some (r, d) ->
  exists s', vfsNodeLink p process name entry s = Some (r, s') /\ data s' = d /\
    forall x, links s' x = if decide (x = real_node e0) then Some (u64 (nlinks (stat e) + 1)) else links s x.
Proof.
  intros Hp He0 He Hsup Hf Hacc Hrun. unfold vfsNodeLink.
  unfold get_node at 1 2 3, mbind at 1 2 3, R_bind at 1 2 3. rewrite He0. cbn [mbind option_bind]. rewrite Hp. cbn [mbind option_bind].
  rewrite He. cbn [mbind option_bind]. rewrite bool_decide_true by done. cbn [negb]. rewrite Hf.
  assert (Ec : check_access p process (Z.lor VFS_ACCESS_W VFS_ACCESS_DIR) s = Some (Good tt, s)).
  { unfold check_access, get_node, mbind, R_bind. rewrite Hp. cbn. by rewrite Hacc. }
  rewrite (bind_good _ _ _ _ _ Ec). pose proof (touch_write s p n true Hp) as Et. rewrite <- bind_bind, (bind_good _ _ _ _ _ Et).
  destruct (touched_lookup s p n true _ e Hp He) as (e' & He' & Hst & Hsp & Hre).
  destruct (count_write (mkState (<[p := touched n true]> (nodes s)) (data s)) (real_node e0) e' 1 He') as (n' & Ew & Hn' & _).
  rewrite <- bind_bind, (bind_good _ _ _ _ _ Ew). unfold on_data, on. cbn [data nodes]. rewrite Hrun. cbn [mbind option_bind].
  eexists. split; [done|]. split; [done|]. intros x. unfold links. cbn [nodes]. case_decide as Ex.
  - subst x. rewrite lookup_insert_eq. cbn. by rewrite Hn', Hst.
  - rewrite lookup_insert_ne by done. destruct (decide (x = p)) as [->|Hxp].
    + rewrite lookup_insert_eq, Hp. done.
    + by rewrite lookup_insert_ne.
Qed.

(** Unlinking takes the name away first; the count goes down only then. *)
Theorem vfsNodeUnlink_counts s p n process name entry e0 e f r d :
  nodes s !! p = Some n -> nodes s !! entry = Some e0 -> nodes s !! real_node e0 = Some e ->
  node_super n = node_super e -> fn_unlink (functions p) = Some f ->
  canAccess (stat n) process (Z.lor VFS_ACCESS_W VFS_ACCESS_DIR) = None ->
  (has (mode (stat n)) VFS_MODE_STICKY = true -> canAccess (stat e) process VFS_ACCESS_W = None) ->
  f name (data s) = Some (r, d) ->
  exists s', vfsNodeUnlink p process name entry s = Some (r, s') /\ data s' = d /\
    forall x, links s' x =
      match r with
      | Good _ => if decide (x = real_node e0) then Some (u64 (nlinks (stat e) - 1)) else links s x
      | Bad _ => links s x
      end.
Proof.
  intros Hp He0 He Hsup Hf Hacc Hst Hrun. unfold vfsNodeUnlink.
  unfold get_node at 1 2 3, mbind at 1 2 3, R_bind at 1 2 3. rewrite He0. cbn [mbind option_bind]. rewrite Hp. cbn [mbind option_bind].
  rewrite He. cbn [mbind option_bind]. rewrite bool_decide_true by done. cbn [negb].
  assert (Ec : (if has (mode (stat n)) VFS_MODE_STICKY then check_access (real_node e0) process VFS_ACCESS_W else mret tt) s = Some (Good tt, s)).
  { destruct (has (mode (stat n)) VFS_MODE_STICKY); [|done]. unfold check_access, get_node, mbind, R_bind. rewrite He. cbn. by rewrite Hst. }
  rewrite (bind_good _ _ _ _ _ Ec).
  assert (Ed : vfsNodeBasicUnlink p process name s = Some (r, mkState (<[p := touched n true]> (nodes s)) d)).
  { unfold vfsNodeBasicUnlink. rewrite Hf. cbn [fmap option_fmap option_map]. rewrite (delegate_run s p n); [|done].
    rewrite Hacc. by rewrite Hrun. }
  assert (Hl : forall x, links (mkState (<[p := touched n true]> (nodes s)) d) x = links s x).
  { intros x. unfold links. cbn [nodes]. destruct (decide (x = p)) as [->|Hxp]; [by rewrite lookup_insert_eq, Hp|by rewrite lookup_insert_ne]. }
  destruct r as [[]|k].
  - rewrite (bind_good _ _ _ _ _ Ed). destruct (touched_lookup s p n true _ e Hp He) as (e' & He' & Hst' & Hsp & Hre).
    destruct (count_write (mkState (<[p := touched n true]> (nodes s)) d) (real_node e0) e' (-1) He') as (n' & Ew & Hn' & _).
    rewrite Ew. eexists. split; [done|]. split; [done|]. intros x. unfold links at 1. cbn [nodes]. case_decide as Ex.
    + subst x. rewrite lookup_insert_eq. cbn. by rewrite Hn', Hst'.
    + rewrite lookup_insert_ne by done. apply Hl.
  - rewrite (bind_bad _ _ _ _ _ Ed). eexists. split; [done|]. split; [done|]. exact Hl.
Qed.

End Node.

(** ** Witnesses *)

Definition no_functions : VfsNodeFunctions (F := list Z) :=
  mkFunctions None None None None None None None None None.

(** A filesystem whose data is the list of the names; it is full at two. *)
Definition ex_functions (p : Z) : VfsNodeFunctions (F := list Z) :=
  mkFunctions None None None None None
    (Some (fun name d => Some (Good tt, tail d)))
    (Some (fun name id d => if (length d <? 2)%nat then Some (Good tt, id :: d) else Some (Bad ENOSPC, d)))
    None None.

Definition ex_node (m : Z) : VfsNode := mkNode (mkStat m 1 0 0 0 0) 5 5 5 (Some 1) 20 false.
Definition ex_nodes (d : list Z) : state := mkState (<[10 := ex_node 0x41ed]> {[ 20 := ex_node 0x81a4 ]}) d.

Lemma delegate_correct_witness :
  delegate 9 10 None (Some (fun d => Some (Good (length d), 7 :: d))) VFS_ACCESS_W (ex_nodes [1]) =
  Some (Good 1%nat, mkState (<[10 := touched 9 (ex_node 0x41ed) true]> (nodes (ex_nodes [1]))) [7; 1]).
Proof. exact (delegate_correct 9 (ex_nodes [1]) 10 (ex_node 0x41ed) None (Some (fun d => Some (Good (length d), 7 :: d))) VFS_ACCESS_W eq_refl). Defined.

(** The filesystem is full: the link fails, and the file counts two. *)
Lemma vfsNodeLink_counts_witness :
  exists s', vfsNodeLink ex_functions 9 10 None [97] 20 (ex_nodes [1; 2]) = Some (Bad ENOSPC, s') /\ links s' 20 = Some 2.
Proof.
  destruct (vfsNodeLink_counts ex_functions 9 (ex_nodes [1; 2]) 10 (ex_node 0x41ed) None [97] 20 (ex_node 0x81a4) (ex_node 0x81a4)
    (fun name id d => if (length d <? 2)%nat then Some (Good tt, id :: d) else Some (Bad ENOSPC, d)) (Bad ENOSPC) [1; 2])
    as (s' & E & _ & Hl); try reflexivity.
  exists s'. split; [exact E|exact (Hl 20)].
Defined.

Lemma vfsNodeUnlink_counts_witness :
  exists s', vfsNodeUnlink ex_functions 9 10 None [97] 20 (ex_nodes [1; 2]) = Some (Good tt, s') /\ links s' 20 = Some 0.
Proof.
  destruct (vfsNodeUnlink_counts ex_functions 9 (ex_nodes [1; 2]) 10 (ex_node 0x41ed) None [97] 20 (ex_node 0x81a4) (ex_node 0x81a4)
    (fun name d => Some (Good tt, tail d)) (Good tt) [2])
    as (s' & E & _ & Hl); try reflexivity.
  exists s'. split; [exact E|exact (Hl 20)].
Defined.

End VfsNode.
