(* ===== verification/Process.v ===== *)
(** * Process: the tree of processes, [kernel/src/process/process.c]

    Processes in a store by address, 0 is [NULL]; the list of all processes and
    the lists of children are doubly linked through them.  The tasks of a
    process are those of the scheduler, with the fields that only this file
    uses in a store of their own; the pending signals of a process are those of
    [Signals].

    [process_lock] makes each operation atomic.  With no current task, which is
    so while a spin lock is held, [deallocProcess] makes a task that frees the
    process; a system call runs in a task, and there it frees the process itself
    and then leaves, so that it never returns: the operations that do so are
    told whether there is a current task, and say whether they left.  Memory spaces, files
    and the memory of the waiting process are parameters that work on a state
    [W].  Interrupting other harts with [YIELD_TASK] changes no state. *)
From S2P Require Import Prelude Errors Schedule Signals.
Import Errors.

Local Open Scope c_scope.

Module Process.

#[local] Existing Instance Schedule.TaskState_eq_dec.

(** ** Definitions *)

Definition WNOHANG : Z := 1.
Definition WUNTRACED : Z := 2.
Definition WCONTINUED : Z := 4.

Definition STATUS_EXIT : Z := 0.
Definition STATUS_TERM : Z := 1.
Definition STATUS_STOP : Z := 2.
Definition STATUS_CONT : Z := 3.

Definition ESRCH : Z := 3.
Definition EINTR : Z := 4.
Definition ECHILD : Z := 10.

Record TaskTimes := mkTimes { user_time : Z; user_child_time : Z; system_time : Z; system_child_time : Z }.

(** The fields of a task that belong to its process. *)
Record ProcTask := mkProcTask { proc_next : Z; t_times : TaskTimes }.

Record ProcessUser := mkUser { ruid : Z; rgid : Z; suid : Z; sgid : Z; euid : Z; egid : Z }.

Record ProcessTree := mkTree {
  parent : Z;
  children : Z;
  child_next : Z;
  child_prev : Z;
  global_next : Z;
  global_prev : Z;
}.

(** The memory space, the start and the end of the heap. *)
Record ProcessMemory := mkMemory { mem_space : Z; start_brk : Z; brk : Z }.

Record Process := mkProcess {
  pid : Z;
  sid : Z;
  pgid : Z;
  status : Z;
  tasks : Z;
  times : TaskTimes;
  user : ProcessUser;
  tree : ProcessTree;
  memory : ProcessMemory;
  umask : Z;
  cwd : list Z;
  psignals : Signals.proc;
}.

Section Resources.
Context {W : Type}.

Record state := mkState {
  procs : gmap Z Process;
  proc_tasks : gmap Z ProcTask;
  global_first : Z;
  next_pid : Z;
  finalizers : list Z;
  sched : Schedule.sched;
  world : W;
}.

Definition with_procs (s : state) (m : gmap Z Process) : state :=
  mkState m (proc_tasks s) (global_first s) (next_pid s) (finalizers s) (sched s) (world s).

Definition whole : M state state := fun s => Some (s, s).
Definition get_proc (p : Z) : M state Process := fun s => x ← procs s !! p; Some (x, s).
Definition put_proc (p : Z) (x : Process) : M state unit := fun s => Some (tt, with_procs s (<[p := x]> (procs s))).
Definition modify (p : Z) (f : Process -> Process) : M state unit := x ← get_proc p; put_proc p (f x).
Definition free_proc (p : Z) : M state unit := fun s => _ ← procs s !! p; Some (tt, with_procs s (delete p (procs s))).
Definition set_global_first (p : Z) : M state unit := fun s =>
  Some (tt, mkState (procs s) (proc_tasks s) p (next_pid s) (finalizers s) (sched s) (world s)).
Definition set_next_pid (p : Z) : M state unit := fun s =>
  Some (tt, mkState (procs s) (proc_tasks s) (global_first s) p (finalizers s) (sched s) (world s)).
Definition set_finalizers (l : list Z) : M state unit := fun s =>
  Some (tt, mkState (procs s) (proc_tasks s) (global_first s) (next_pid s) l (sched s) (world s)).
Definition get_task (t : Z) : M state ProcTask := fun s => x ← proc_tasks s !! t; Some (x, s).
Definition put_task (t : Z) (x : ProcTask) : M state unit := fun s =>
  Some (tt, mkState (procs s) (<[t := x]> (proc_tasks s)) (global_first s) (next_pid s) (finalizers s) (sched s) (world s)).
Definition on_sched {A : Type} (c : M Schedule.sched A) : M state A := fun s =>
  '(a, q) ← c (sched s);
  Some (a, mkState (procs s) (proc_tasks s) (global_first s) (next_pid s) (finalizers s) q (world s)).
Definition on_world {A : Type} (c : M W A) : M state A := fun s =>
  '(a, w) ← c (world s);
  Some (a, mkState (procs s) (proc_tasks s) (global_first s) (next_pid s) (finalizers s) (sched s) w).

Definition set_tree (x : Process) (t : ProcessTree) : Process :=
  mkProcess (pid x) (sid x) (pgid x) (status x) (tasks x) (times x) (user x) t (memory x) (umask x) (cwd x) (psignals x).
Definition set_status (x : Process) (st : Z) : Process :=
  mkProcess (pid x) (sid x) (pgid x) st (tasks x) (times x) (user x) (tree x) (memory x) (umask x) (cwd x) (psignals x).
Definition set_tasks (x : Process) (t : Z) : Process :=
  mkProcess (pid x) (sid x) (pgid x) (status x) t (times x) (user x) (tree x) (memory x) (umask x) (cwd x) (psignals x).
Definition set_times (x : Process) (t : TaskTimes) : Process :=
  mkProcess (pid x) (sid x) (pgid x) (status x) (tasks x) t (user x) (tree x) (memory x) (umask x) (cwd x) (psignals x).
Definition set_psignals (x : Process) (q : Signals.proc) : Process :=
  mkProcess (pid x) (sid x) (pgid x) (status x) (tasks x) (times x) (user x) (tree x) (memory x) (umask x) (cwd x) q.

Definition modify_tree (p : Z) (f : ProcessTree -> ProcessTree) : M state unit := modify p (fun x => set_tree x (f (tree x))).
Definition set_parent (v : Z) (t : ProcessTree) : ProcessTree :=
  mkTree v (children t) (child_next t) (child_prev t) (global_next t) (global_prev t).
Definition set_children (v : Z) (t : ProcessTree) : ProcessTree :=
  mkTree (parent t) v (child_next t) (child_prev t) (global_next t) (global_prev t).
Definition set_child_next (v : Z) (t : ProcessTree) : ProcessTree :=
  mkTree (parent t) (children t) v (child_prev t) (global_next t) (global_prev t).
Definition set_child_prev (v : Z) (t : ProcessTree) : ProcessTree :=
  mkTree (parent t) (children t) (child_next t) v (global_next t) (global_prev t).
Definition set_global_next (v : Z) (t : ProcessTree) : ProcessTree :=
  mkTree (parent t) (children t) (child_next t) (child_prev t) v (global_prev t).
Definition set_global_prev (v : Z) (t : ProcessTree) : ProcessTree :=
  mkTree (parent t) (children t) (child_next t) (child_prev t) (global_next t) v.

Definition when (b : bool) (c : M state unit) : M state unit := if b then c else mret tt.

(** *** Registering *)

Definition registerProcess (p : Z) : M state unit :=
  s ← whole;
  modify_tree p (set_global_next (global_first s));;
  when (negb (global_first s =? 0)) (modify_tree (global_first s) (set_global_prev p));;
  set_global_first p;;
  x ← get_proc p;
  let par := parent (tree x) in
  when (negb (par =? 0)) (
    y ← get_proc par;
    when (negb (children (tree y) =? 0)) (modify_tree (children (tree y)) (set_child_prev p));;
    y ← get_proc par;
    modify_tree p (set_child_next (children (tree y)));;
    modify_tree par (set_children p)).

(** [deallocProcess] with no current task: it creates and enqueues a task that
    runs [processFinalizeTask]. *)
Definition deallocProcess (p : Z) : M state unit :=
  s ← whole;
  set_finalizers (finalizers s ++ [p]).

(** The loop that gives the children of [process] to its parent. *)
Fixpoint reparent_loop (fuel : nat) (process child : Z) : M state unit :=
  match fuel with
  | O => fault
  | S fuel' =>
      if child =? 0 then mret tt
      else
        x ← get_proc process;
        let par := parent (tree x) in
        modify_tree child (set_parent par);;
        y ← get_proc par;
        modify_tree child (set_child_next (children (tree y)));;
        modify_tree par (set_children child);;
        c ← get_proc child;
        reparent_loop fuel' process (child_next (tree c))
  end.

(** The loop over the children of a process without a parent. *)
Fixpoint orphan_loop (fuel : nat) (child : Z) : M state unit :=
  match fuel with
  | O => fault
  | S fuel' =>
      if child =? 0 then mret tt
      else
        modify_tree child (set_parent 0);;
        c ← get_proc child;
        when (tasks c =? 0) (deallocProcess child);;
        orphan_loop fuel' (child_next (tree c))
  end.

Definition unlink_child (p : Z) : M state unit :=
  x ← get_proc p;
  let par := parent (tree x) in
  if child_prev (tree x) =? 0 then
    modify_tree par (set_children (child_next (tree x)));;
    y ← get_proc par;
    when (negb (children (tree y) =? 0)) (modify_tree (children (tree y)) (set_child_prev 0))
  else
    modify_tree (child_prev (tree x)) (set_child_next (child_next (tree x)));;
    x ← get_proc p;
    when (negb (child_next (tree x) =? 0)) (modify_tree (child_next (tree x)) (set_child_prev (child_prev (tree x)))).

Definition unlink_global (p : Z) : M state unit :=
  x ← get_proc p;
  (if global_prev (tree x) =? 0 then set_global_first (global_next (tree x))
   else modify_tree (global_prev (tree x)) (set_global_next (global_next (tree x))));;
  x ← get_proc p;
  when (negb (global_next (tree x) =? 0)) (modify_tree (global_next (tree x)) (set_global_prev (global_prev (tree x)))).

(** The loops need not end: [fuel] bounds their steps. *)
Definition unregisterProcess (fuel : nat) (p : Z) : M state unit :=
  x ← get_proc p;
  (if negb (parent (tree x) =? 0) then
     reparent_loop fuel p (children (tree x));;
     unlink_child p
   else orphan_loop fuel (children (tree x)));;
  unlink_global p.

(** [Pid] is an [int]: counting past the largest one is undefined. *)
Definition PID_MAX : Z := 2 ^ 31 - 1.

Definition allocateNewPid : M state Z :=
  s ← whole;
  massert (next_pid s <? PID_MAX);;
  set_next_pid (next_pid s + 1);;
  mret (next_pid s).

(** *** Freeing *)

Context (closeAllProcessFiles deallocMemorySpace : Z -> M W unit).

Definition processFinalizeTask (fuel : nat) (p : Z) : M state unit :=
  unregisterProcess fuel p;;
  on_world (closeAllProcessFiles p);;
  x ← get_proc p;
  when (negb (pid x =? 0)) (on_world (deallocMemorySpace (mem_space (memory x))));;
  free_proc p.

(** [deallocProcess] with or without a current task.  [true]: the task has left. *)
Definition deallocProcessIn (current : bool) (fuel : nat) (p : Z) : M state bool :=
  if current then processFinalizeTask fuel p;; mret true
  else deallocProcess p;; mret false.

(** A task made by [deallocProcess] runs. *)
Definition run_finalizer (fuel : nat) (i : nat) : M state unit := fun s =>
  p ← finalizers s !! i;
  (set_finalizers (delete i (finalizers s));; processFinalizeTask fuel p) s.

(** *** Signals of a process *)

Context (kalloc_signal : gmap Z Signals.PendingSignal -> Z).

Definition on_signals {A : Type} (p : Z) (c : M Signals.proc A) : M state A := fun s =>
  x ← procs s !! p;
  '(a, q) ← c (psignals x);
  Some (a, with_procs s (<[p := set_psignals x q]> (procs s))).

Definition get_sched_task (t : Z) : M state Schedule.Task := on_sched (Schedule.get_task t).

(** The loop of [continueProcess].  [enqueueTask] is called for tasks that are
    [ENQUABLE]: it frees none. *)
Fixpoint continue_loop (fuel : nat) (current : Z) : M state unit :=
  match fuel with
  | O => fault
  | S fuel' =>
      if current =? 0 then mret tt
      else
        t ← get_sched_task current;
        when (bool_decide (Schedule.state t = Schedule.STOPPED)) (
          on_sched (Schedule.put_task current (Schedule.set_state t Schedule.ENQUABLE));;
          on_sched (Schedule.enqueueTask (fun _ => mret tt) current));;
        x ← get_task current;
        continue_loop fuel' (proc_next x)
  end.

Definition with_task_fuel {A : Type} (k : nat -> M state A) : M state A := fun s => k (S (size (proc_tasks s))) s.

Definition continueProcess (p signal : Z) : M state unit :=
  modify p (fun x => set_status x (Z.lor (Z.land signal 0xff) (Z.shiftl STATUS_CONT 8)));;
  x ← get_proc p;
  with_task_fuel (fun fuel => continue_loop fuel (tasks x)).

Definition addSignalToProcess (p signal child_pid : Z) : M state unit :=
  when (signal =? Signals.SIGCONT) (continueProcess p signal);;
  on_signals p (Signals.addSignalToProcess kalloc_signal (fun _ => mret tt) signal child_pid).

(** *** States of the tasks of a process *)

Fixpoint move_loop (fuel : nat) (st : Schedule.TaskState) (keep current : Z) : M state unit :=
  match fuel with
  | O => fault
  | S fuel' =>
      if current =? 0 then mret tt
      else
        when (negb (current =? keep)) (on_sched (Schedule.moveTaskToState current st));;
        x ← get_task current;
        move_loop fuel' st keep (proc_next x)
  end.

Definition moveAllProcessTasksToStateBut (p : Z) (st : Schedule.TaskState) (keep : Z) : M state unit :=
  x ← get_proc p;
  with_task_fuel (fun fuel => move_loop fuel st keep (tasks x)).

Definition terminateAllProcessTasksBut (p keep : Z) : M state unit := moveAllProcessTasksToStateBut p Schedule.TERMINATED keep.
Definition terminateAllProcessTasks (p : Z) : M state unit := moveAllProcessTasksToStateBut p Schedule.TERMINATED 0.

Definition exitProcess (p signal exit : Z) : M state unit :=
  modify p (fun x => set_status x
    (if signal =? Signals.SIGNONE then Z.lor (Z.land exit 0xff) (Z.shiftl STATUS_EXIT 8)
     else Z.lor (Z.land signal 0xff) (Z.shiftl STATUS_TERM 8)));;
  terminateAllProcessTasks p.

Definition stopProcess (p signal : Z) : M state unit :=
  modify p (fun x => set_status x (Z.lor (Z.land signal 0xff) (Z.shiftl STATUS_STOP 8)));;
  x ← get_proc p;
  when (negb (parent (tree x) =? 0)) (addSignalToProcess (parent (tree x)) Signals.SIGCHLD (pid x));;
  moveAllProcessTasksToStateBut p Schedule.STOPPED 0.

Definition add_times (a b : TaskTimes) : TaskTimes :=
  mkTimes (user_time a +% user_time b) (user_child_time a +% user_child_time b)
    (system_time a +% system_time b) (system_child_time a +% system_child_time b).

(** [&process->tasks] is [None], [&t->proc_next] is [Some t]. *)
Definition read_task_cell (p : Z) (c : option Z) : M state Z :=
  match c with None => x ← get_proc p; mret (tasks x) | Some t => x ← get_task t; mret (proc_next x) end.
Definition write_task_cell (p : Z) (c : option Z) (v : Z) : M state unit :=
  match c with
  | None => modify p (fun x => set_tasks x v)
  | Some t => x ← get_task t; put_task t (mkProcTask v (t_times x))
  end.

Fixpoint remove_loop (fuel : nat) (p t : Z) (curr : option Z) : M state unit :=
  match fuel with
  | O => fault
  | S fuel' =>
      c ← read_task_cell p curr;
      if c =? 0 then mret tt
      else if c =? t then
        x ← get_task t;
        write_task_cell p curr (proc_next x);;
        remove_loop fuel' p t curr
      else remove_loop fuel' p t (Some c)
  end.

Definition set_task_process (t p : Z) : M state unit :=
  on_sched (Schedule.modify t (fun x =>
    Schedule.mkTask (Schedule.hart x) p (Schedule.priority x) (Schedule.queue_priority x) (Schedule.run_for x)
      (Schedule.state x) (Schedule.sched_next x) (Schedule.locks_next x) (Schedule.wakeup_function x) (Schedule.wakeup_udata x))).

Definition removeProcessTask (current : bool) (fuel : nat) (t : Z) : M state bool :=
  y ← get_sched_task t;
  let p := Schedule.process y in
  massert (negb (p =? 0));;
  with_task_fuel (fun fuel => remove_loop fuel p t None);;
  x ← get_task t;
  modify p (fun y => set_times y (add_times (times y) (t_times x)));;
  set_task_process t 0;;
  x ← get_proc p;
  if tasks x =? 0 then
    if parent (tree x) =? 0 then deallocProcessIn current fuel p
    else addSignalToProcess (parent (tree x)) Signals.SIGCHLD (pid x);; mret false
  else mret false.

Definition addTaskToProcess (p t : Z) : M state unit :=
  set_task_process t p;;
  x ← get_proc p;
  y ← get_task t;
  put_task t (mkProcTask (tasks x) (t_times y));;
  modify p (fun x => set_tasks x t).

(** *** Waiting for a child *)

(** [writeInt] to the address in the memory of the task, and the return value
    of its system call. *)
Context (writeInt set_return : Z -> Z -> M W unit).

Definition wants (me child : Process) (want : Z) : bool :=
  (want =? -1)
  || ((want =? 0) && (pgid me =? pgid child))
  || ((want <? -1) && (pgid me =? - want))
  || ((0 <? want) && (pid child =? want)).

Definition has_news (child : Process) (flags : Z) : bool :=
  (tasks child =? 0)
  || (negb (Z.land flags WUNTRACED =? 0) && (Z.shiftr (status child) 8 =? STATUS_STOP))
  || (negb (Z.land flags WCONTINUED =? 0) && (Z.shiftr (status child) 8 =? STATUS_CONT)).

(** [&process->tree.children] is [None], [&child->tree.child_next] is [Some child]. *)
Definition read_child_cell (p : Z) (c : option Z) : M state Z :=
  match c with None => x ← get_proc p; mret (children (tree x)) | Some q => x ← get_proc q; mret (child_next (tree x)) end.
Definition write_child_cell (p : Z) (c : option Z) (v : Z) : M state unit :=
  match c with None => modify_tree p (set_children v) | Some q => modify_tree q (set_child_next v) end.

(** What happens to the child that is found. *)
Definition reap (me t addr child : Z) (current : option Z) : M state Z :=
  c ← get_proc child;
  on_world (writeInt addr (status c));;
  modify child (fun x => set_status x 0);;
  x ← get_task t;
  let tm := t_times x in
  put_task t (mkProcTask (proc_next x)
    (mkTimes (user_time tm) (user_child_time tm +% (user_time (times c) +% user_child_time (times c)))
       (system_time tm) (system_child_time tm +% (system_time (times c) +% system_child_time (times c)))));;
  on_signals me (Signals.clearPendingChildSignals (pid c));;
  c ← get_proc child;
  when (tasks c =? 0) (
    write_child_cell me current (child_next (tree c));;
    n ← read_child_cell me current;
    when (negb (n =? 0)) (modify_tree n (set_child_prev (child_prev (tree c))));;
    deallocProcess child);;
  mret (pid c).

Fixpoint wait_loop (fuel : nat) (me t want addr flags : Z) (current : option Z) (found : Z) : M state (result Z) :=
  match fuel with
  | O => fault
  | S fuel' =>
      x ← get_proc me;
      child ← read_child_cell me current;
      if child =? 0 then
        mret (Bad (if negb (found =? 0) then if negb (Z.land flags WNOHANG =? 0) then EAGAIN else EINTR else ECHILD))
      else
        c ← get_proc child;
        if wants x c want then
          if has_news c flags then r ← reap me t addr child current; mret (Good r)
          else wait_loop fuel' me t want addr flags (Some child) (found + 1)
        else wait_loop fuel' me t want addr flags (Some child) found
  end.

(** [want], [addr] and [flags] are the arguments in the registers of the task. *)
Definition basicProcessWait (t want addr flags : Z) : M state (result Z) :=
  y ← get_sched_task t;
  s ← whole;
  wait_loop (S (size (procs s))) (Schedule.process y) t want addr flags None 0.

Definition handleProcessWaitWakeup (t want addr flags : Z) : M state bool :=
  err ← basicProcessWait t want addr flags;
  match err with
  | Good r => on_world (set_return t r);; mret true
  | Bad _ =>
      y ← get_sched_task t;
      x ← get_proc (Schedule.process y);
      if negb (Signals.signals (Signals.sigs (psignals x)) =? 0) then
        on_world (set_return t (- EINTR));;
        mret true
      else mret false
  end.

(** [enqueueTask]: a terminated task leaves its process before it is freed. *)
Definition enqueue (current : bool) (fuel : nat) (t : Z) : M state unit :=
  y ← get_sched_task t;
  left ← (if bool_decide (Schedule.state y = Schedule.TERMINATED) && negb (Schedule.process y =? 0)
          then removeProcessTask current fuel t else mret false);
  when (negb left) (on_sched (Schedule.enqueueTask (fun _ => mret tt) t)).

(** [handle] stands for the address of [handleProcessWaitWakeup]; the system
    call runs in a task. *)
Definition executeProcessWait (fuel : nat) (handle t want addr flags : Z) : M state unit :=
  err ← basicProcessWait t want addr flags;
  match err with
  | Good r => on_world (set_return t r);; on_sched (Schedule.awakenTask t);; enqueue true fuel t
  | Bad kind =>
      if kind =? EINTR then on_sched (Schedule.modify t (fun y => Schedule.set_wakeup y handle (Schedule.wakeup_udata y)))
      else on_world (set_return t (- kind));; on_sched (Schedule.awakenTask t);; enqueue true fuel t
  end.

(** *** Finding processes *)

Fixpoint find_loop (fuel : nat) (want : Z) (callback : Z -> M state Z) (current : Z) : M state Z :=
  match fuel with
  | O => fault
  | S fuel' =>
      if current =? 0 then mret (- ESRCH)
      else
        x ← get_proc current;
        if pid x =? want then callback current
        else find_loop fuel' want callback (global_next (tree x))
  end.

Definition doForProcessWithPid (want : Z) (callback : Z -> M state Z) : M state Z :=
  s ← whole;
  find_loop (S (size (procs s))) want callback (global_first s).

(** [b] is what [udata] points to. *)
Fixpoint all_loop {B : Type} (fuel : nat) (callback : Z -> B -> M state B) (current : Z) (b : B) : M state B :=
  match fuel with
  | O => fault
  | S fuel' =>
      if current =? 0 then mret b
      else
        b ← callback current b;
        x ← get_proc current;
        all_loop fuel' callback (global_next (tree x)) b
  end.

Definition doForAllProcess {B : Type} (callback : Z -> B -> M state B) (b : B) : M state B :=
  s ← whole;
  all_loop (S (size (procs s))) callback (global_first s) b.

Definition signalProcessGroup (group signal : Z) : M state unit :=
  doForAllProcess (fun p _ => x ← get_proc p; when (pgid x =? group) (addSignalToProcess p signal 0)) tt.

(** *** New processes *)

(** Addresses that are not in use, or 0 without memory. *)
Context (zalloc_process : gmap Z Process -> Z) (zalloc_task : gmap Z Schedule.Task -> Z).
Context (createMemorySpace : M W Z) (cloneMemorySpace : Z -> M W Z) (forkFileDescriptors : Z -> Z -> M W unit).
(** Entry point, stack and memory of a new task. *)
Context (initTrapFrame : Z -> Z -> Z -> Z -> Z -> Z -> M W unit).

Definition zero_times : TaskTimes := mkTimes 0 0 0 0.
Definition zero_signals : Signals.ProcessSignals :=
  Signals.mkSignals 0 0 (replicate (Z.to_nat Signals.SIG_COUNT) (Signals.mkHandler 0 0 0 0)) 0 0 0 0 0.
Definition zero_frame : Signals.TrapFrame := Signals.mkFrame (replicate 31 0) (replicate 32 0) 0.
Definition zero_process : Process :=
  mkProcess 0 0 0 0 0 zero_times (mkUser 0 0 0 0 0 0) (mkTree 0 0 0 0 0 0) (mkMemory 0 0 0) 0 []
    (Signals.mkProc ∅ zero_signals zero_frame (fun _ => 0)).
Definition zero_task : Schedule.Task := Schedule.mkTask 0 0 0 0 0 Schedule.UNKNOWN 0 0 0 0.

Definition createUserProcess (par : Z) : M state Z :=
  s ← whole;
  let p := zalloc_process (procs s) in
  if p =? 0 then mret 0
  else
    put_proc p zero_process;;
    id ← allocateNewPid;
    modify_tree p (set_parent par);;
    (if negb (par =? 0) then
       y ← get_proc par;
       let sg := Signals.set_queue (Signals.sigs (psignals y)) 0 0 in
       mem ← on_world (cloneMemorySpace (mem_space (memory y)));
       x ← get_proc p;
       put_proc p (mkProcess id (sid y) (pgid y) 0 0 zero_times (user y) (tree x)
         (mkMemory mem (start_brk (memory y)) (brk (memory y))) (umask y) (cwd y)
         (Signals.mkProc ∅ sg zero_frame (fun _ => 0)));;
       on_world (forkFileDescriptors p par)
     else
       mem ← on_world createMemorySpace;
       x ← get_proc p;
       put_proc p (mkProcess id id id 0 0 zero_times (user x) (tree x) (mkMemory mem 0 0) 0 [47] (psignals x)));;
    registerProcess p;;
    mret p.

Definition createTask : M state Z :=
  s ← whole;
  let t := zalloc_task (Schedule.tasks (sched s)) in
  when (negb (t =? 0)) (
    on_sched (Schedule.put_task t zero_task);;
    put_task t (mkProcTask 0 zero_times));;
  mret t.

Definition createTaskInProcess (p sp gp pc priority : Z) : M state Z :=
  t ← createTask;
  when (negb (t =? 0)) (
    set_task_process t p;;
    on_sched (Schedule.modify t (fun x =>
      Schedule.mkTask (Schedule.hart x) (Schedule.process x) priority (Schedule.queue_priority x) (Schedule.run_for x)
        (Schedule.state x) (Schedule.sched_next x) (Schedule.locks_next x) (Schedule.wakeup_function x) (Schedule.wakeup_udata x)));;
    on_sched (Schedule.moveTaskToState t Schedule.ENQUABLE);;
    x ← get_proc p;
    on_world (initTrapFrame t sp gp pc (pid x) (mem_space (memory x)));;
    addTaskToProcess p t);;
  mret t.

End Resources.

(** ** Doubly linked lists

    [v] gives the previous and the next element of every element; [prv] comes
    before the list and [cur] is its first element. *)
Section DoublyLinked.

Fixpoint dll (v : Z -> option (Z * Z)) (prv cur : Z) (l : list Z) : Prop :=
  match l with
  | [] => cur = 0
  | p :: l' => cur = p /\ p <> 0 /\ exists n, v p = Some (prv, n) /\ dll v p n l'
  end.

Lemma dll_ext v v' prv cur l : (forall p, p ∈ l -> v' p = v p) -> dll v prv cur l -> dll v' prv cur l.
Proof.
  revert prv cur. induction l as [|p l IH]; intros prv cur Hv H; [done|]. destruct H as (-> & Hp & n & Hn & H).
  split; [done|split; [done|]]. exists n. split; [by rewrite Hv by apply list_elem_of_here|].
  apply IH; [|done]. intros q Hq. apply Hv. by apply list_elem_of_further.
Qed.

Lemma dll_nonzero v prv cur l p : dll v prv cur l -> p ∈ l -> p <> 0.
Proof.
  revert prv cur. induction l as [|q l IH]; intros prv cur H Hp; [by apply not_elem_of_nil in Hp|].
  destruct H as (-> & Hq & n & _ & H). apply elem_of_cons in Hp as [->|Hp]; [done|]. by eapply IH.
Qed.

Lemma dll_in v prv cur l p : dll v prv cur l -> p ∈ l -> is_Some (v p).
Proof.
  revert prv cur. induction l as [|q l IH]; intros prv cur H Hp; [by apply not_elem_of_nil in Hp|].
  destruct H as (-> & _ & n & Hn & H). apply elem_of_cons in Hp as [->|Hp]; [by eexists|]. by eapply IH.
Qed.

Lemma dll_first v prv cur l : dll v prv cur l -> cur = default 0 (head l).
Proof. destruct l; cbn; [done|]. by intros (-> & _). Qed.

(** Another element in front: the first one gets a new predecessor. *)
Lemma dll_push v v' cur l p :
  dll v 0 cur l -> NoDup l -> p ∉ l -> p <> 0 -> v' p = Some (0, cur) ->
  (forall q, q ∈ l -> v' q = (fun x => ((if decide (q = cur) then p else fst x), snd x)) <$> v q) ->
  dll v' 0 p (p :: l).
Proof.
  intros H Hnd Hp Hp0 Hvp Hv. split; [done|split; [done|]]. exists cur. split; [done|].
  destruct l as [|q l]; [done|]. destruct H as (-> & Hq & n & Hn & H). split; [done|split; [done|]].
  exists n. split; [rewrite Hv, Hn by apply list_elem_of_here; cbn; by rewrite decide_True|].
  apply NoDup_cons_1_1 in Hnd as Hql. eapply dll_ext; [|exact H]. intros x Hx.
  rewrite Hv by by apply list_elem_of_further. destruct (v x) as [[a b]|]; cbn; [|done].
  by rewrite decide_False by (intros ->; done).
Qed.

(** An element is taken out: its neighbours are linked to each other. *)
Lemma dll_delete v v' la p lb pv n : forall prv cur,
  dll v prv cur (la ++ p :: lb) -> NoDup (la ++ p :: lb) -> prv ∉ la ++ p :: lb -> v p = Some (pv, n) ->
  (forall q, q ∈ la ++ lb ->
     v' q = (fun x => ((if decide (q = n) then pv else fst x), (if decide (q = pv) then n else snd x))) <$> v q) ->
  dll v' prv (if decide (la = []) then n else cur) (la ++ lb) /\ (la = [] -> pv = prv) /\
  (la <> [] -> pv ∈ la) /\ (n <> 0 -> n ∈ lb) /\ n = default 0 (head lb).
Proof.
  induction la as [|q la IH]; intros prv cur H Hnd Hprv Hvp Hv; cbn [app] in *.
  - rewrite decide_True by done. destruct H as (-> & Hp & n' & Hn & H). assert (n' = n) as -> by congruence.
    assert (pv = prv) as -> by congruence. pose proof (dll_first _ _ _ _ H) as Hfst. split_and!; try done.
    + destruct lb as [|x lb]; [done|]. destruct H as (-> & Hx & m & Hm & H).
      rewrite !nodup_cons in Hnd. destruct Hnd as (Hpn & Hxn & Hnd).
      rewrite !elem_of_cons in Hprv. split; [done|split; [done|]]. exists m. split.
      * rewrite Hv by apply list_elem_of_here. rewrite Hm. cbn. rewrite decide_True by done. by rewrite decide_False by (intros ->; tauto).
      * eapply dll_ext; [|exact H]. intros y Hy. rewrite Hv by by apply list_elem_of_further.
        destruct (v y) as [[a b]|]; cbn; [|done]. by rewrite !decide_False by (intros ->; tauto).
    + intros Hn0. destruct lb as [|x lb]; [done|]. destruct H as (-> & _). apply list_elem_of_here.
  - rewrite decide_False by done. destruct H as (-> & Hq & n' & Hn & H).
    rewrite nodup_cons in Hnd. destruct Hnd as (Hqn & Hnd). rewrite elem_of_cons in Hprv.
    destruct (IH q n') as (H1 & H2 & H3 & H4 & H5); try done.
    { intros x Hx. apply Hv. by apply list_elem_of_further. }
    rewrite elem_of_app, elem_of_cons in Hqn.
    assert (Hnq : n <> q).
    { intros ->. destruct (decide (q = 0)); [done|]. specialize (H4 ltac:(done)). tauto. }
    split_and!; try done.
    + split; [done|split; [done|]]. exists (if decide (la = []) then n else n'). split; [|done].
      rewrite Hv by apply list_elem_of_here. rewrite Hn. cbn. rewrite (decide_False (P := q = n)) by done. do 2 f_equal.
      destruct (decide (la = [])) as [E|E]; [rewrite decide_True; [done|symmetry; by apply H2]|].
      rewrite decide_False; [done|]. intros ->. apply Hqn. left. by apply H3.
    + intros _. destruct (decide (la = [])) as [E|E]; [rewrite (H2 E)|]; [apply list_elem_of_here|].
      apply list_elem_of_further. by apply H3.
Qed.

End DoublyLinked.

(** ** The forest of processes *)
Section Forest.
Context {W : Type}.
Abbreviation st := (state (W := W)).

Definition view {A : Type} (F : ProcessTree -> A) (m : gmap Z Process) (q : Z) : option A := (fun x => F (tree x)) <$> m !! q.
Definition tweak (p : Z) (f : ProcessTree -> ProcessTree) (m : gmap Z Process) : gmap Z Process :=
  alter (fun x => set_tree x (f (tree x))) p m.

Definition siblings (t : ProcessTree) : Z * Z := (child_prev t, child_next t).
Definition globals (t : ProcessTree) : Z * Z := (global_prev t, global_next t).

(** A process without its links. *)
Definition body (x : Process) : Process := set_tree x (mkTree 0 0 0 0 0 0).

Lemma view_tweak {A : Type} (F : ProcessTree -> A) p f m q :
  view F (tweak p f m) q = if decide (q = p) then view (fun t => F (f t)) m q else view F m q.
Proof.
  unfold view, tweak. case_decide as E; [subst; rewrite lookup_alter_eq|by rewrite lookup_alter_ne].
  by destruct (m !! p).
Qed.

Lemma view_same {A : Type} (F : ProcessTree -> A) p f m q :
  (forall t, F (f t) = F t) -> view F (tweak p f m) q = view F m q.
Proof.
  intros H. rewrite view_tweak. case_decide as E; [|done]. subst. unfold view. destruct (m !! p); cbn; by rewrite ?H.
Qed.

Lemma tweak_some p f m q : is_Some (tweak p f m !! q) <-> is_Some (m !! q).
Proof.
  unfold tweak. destruct (decide (p = q)) as [->|]; [|by rewrite lookup_alter_ne].
  rewrite lookup_alter_eq. apply fmap_is_Some.
Qed.

Lemma tweak_body p f m q : body <$> tweak p f m !! q = body <$> m !! q.
Proof.
  unfold tweak. destruct (decide (p = q)) as [->|]; [|by rewrite lookup_alter_ne].
  rewrite lookup_alter_eq. by destruct (m !! q).
Qed.

Lemma tweak_none p f m : m !! p = None -> tweak p f m = m.
Proof.
  intros H. apply map_eq. intros q. unfold tweak. destruct (decide (p = q)) as [->|]; [|by rewrite lookup_alter_ne].
  by rewrite lookup_alter_eq, H.
Qed.

Lemma modify_tree_ok (s : st) p f :
  is_Some (procs s !! p) -> modify_tree p f s = Some (tt, with_procs s (tweak p f (procs s))).
Proof.
  intros [x Hx]. unfold modify_tree, modify, get_proc, put_proc, mbind, M_bind. rewrite Hx. cbn. do 3 f_equal.
  apply map_eq. intros q. unfold tweak. destruct (decide (p = q)) as [->|]; [|by rewrite lookup_alter_ne, lookup_insert_ne].
  by rewrite lookup_alter_eq, lookup_insert_eq, Hx.
Qed.

(** The links to a neighbour, if there is one. *)
Lemma when_tree_ok (s : st) p f :
  procs s !! 0 = None -> (p <> 0 -> is_Some (procs s !! p)) ->
  when (negb (p =? 0)) (modify_tree p f) s = Some (tt, with_procs s (tweak p f (procs s))).
Proof.
  intros H0 Hp. destruct (Z.eqb_spec p 0) as [->|Hn]; cbn [negb when]; [|by apply modify_tree_ok, Hp].
  rewrite tweak_none by done. by destruct s.
Qed.

(** The list of all processes [gl], and the list of the children of each. *)
Record forest (m : gmap Z Process) (gf : Z) (gl : list Z) (kids : Z -> list Z) : Prop := {
  f_global : dll (view globals m) 0 gf gl;
  f_nodup : NoDup gl;
  f_all : forall p, is_Some (m !! p) <-> p ∈ gl;
  f_kids : forall p c, view children m p = Some c -> dll (view siblings m) 0 c (kids p);
  f_kids_nodup : forall p, p <> 0 -> NoDup (kids p);
  f_parent : forall p q, p <> 0 -> (q ∈ kids p <-> view parent m q = Some p);
  f_up : forall p q, view parent m q = Some p -> p <> 0 -> is_Some (m !! p);
}.

Lemma f_null m gf gl kids : forest m gf gl kids -> m !! 0 = None.
Proof.
  intros H. destruct (m !! 0) as [x|] eqn:E; [|done]. assert (H0 : 0 ∈ gl) by (apply (f_all _ _ _ _ H); by rewrite E).
  by destruct (dll_nonzero _ _ _ _ _ (f_global _ _ _ _ H) H0).
Qed.

Lemma view_some {A : Type} (F : ProcessTree -> A) m q : is_Some (view F m q) <-> is_Some (m !! q).
Proof. apply fmap_is_Some. Qed.

(** A process that the lists do not know changes none of them. *)
Lemma dll_delete_view (F : ProcessTree -> Z * Z) m p prv cur l :
  dll (view F (delete p m)) prv cur l -> (p ∉ l) /\ dll (view F m) prv cur l.
Proof.
  intros H. assert (Hp : p ∉ l).
  { intros Hp. destruct (dll_in _ _ _ _ _ H Hp) as [x Hx]. unfold view in Hx. by rewrite lookup_delete_eq in Hx. }
  split; [done|]. eapply dll_ext; [|exact H]. intros q Hq. unfold view. by rewrite lookup_delete_ne by (intros ->; done).
Qed.

Lemma get_proc_view {A B : Type} (F : ProcessTree -> A) (s : st) p v (k : Process -> M st B) :
  view F (procs s) p = Some v ->
  exists x, procs s !! p = Some x /\ F (tree x) = v /\ (get_proc p ≫= k) s = k x s.
Proof.
  unfold view. intros (x & Hx & ->)%fmap_Some. exists x. split; [done|split; [done|]].
  unfold get_proc, mbind, M_bind. by rewrite Hx.
Qed.

(** Reads a process whose field [F] is [v]. *)
Ltac read_proc F v x Hx Ex :=
  match goal with
  | |- mbind ?k0 (get_proc ?p0) ?s0 = _ =>
      let E := fresh in
      assert (E : view F (procs s0) p0 = Some v); [|destruct (get_proc_view F s0 p0 v k0 E) as (x & Hx & Ex & ->); clear E]
  end.

Lemma bind_modify_tree {B : Type} (s : st) p f (k : unit -> M st B) :
  is_Some (procs s !! p) -> (modify_tree p f ≫= k) s = k tt (with_procs s (tweak p f (procs s))).
Proof. intros H. by rewrite (bind_some _ _ _ _ _ (modify_tree_ok s p f H)). Qed.

Lemma bind_when_tree {B : Type} (s : st) p f (k : unit -> M st B) :
  procs s !! 0 = None -> (p <> 0 -> is_Some (procs s !! p)) ->
  (when (negb (p =? 0)) (modify_tree p f) ≫= k) s = k tt (with_procs s (tweak p f (procs s))).
Proof. intros H H0. by rewrite (bind_some _ _ _ _ _ (when_tree_ok s p f H H0)). Qed.

Lemma tweak_null p f m : m !! 0 = None -> tweak p f m !! 0 = None.
Proof. rewrite !eq_None_not_Some, tweak_some. done. Qed.

(** The processes after [registerProcess]. *)
Definition registered (p par gf c : Z) (m : gmap Z Process) : gmap Z Process :=
  let m := tweak gf (set_global_prev p) (tweak p (set_global_next gf) m) in
  if par =? 0 then m else tweak par (set_children p) (tweak p (set_child_next c) (tweak c (set_child_prev p) m)).

Definition with_first (s : st) (gf : Z) : st :=
  mkState (procs s) (proc_tasks s) gf (next_pid s) (finalizers s) (sched s) (world s).

Lemma registerProcess_run (s : st) p par c :
  procs s !! 0 = None -> view parent (procs s) p = Some par ->
  (global_first s <> 0 -> is_Some (procs s !! global_first s)) ->
  (par <> 0 -> view children (procs s) par = Some c) -> (par <> 0 -> c <> 0 -> is_Some (procs s !! c)) ->
  registerProcess p s = Some (tt, with_first (with_procs s (registered p par (global_first s) c (procs s))) p).
Proof.
  intros H0 Hp Hg Hc Hcs. unfold registerProcess, registered.
  erewrite bind_some by (unfold whole; reflexivity).
  rewrite bind_modify_tree by (apply (view_some parent); by rewrite Hp).
  rewrite bind_when_tree; cbn [procs with_procs]; [|by apply tweak_null|by rewrite tweak_some].
  erewrite bind_some by (unfold set_global_first; reflexivity).
  match goal with |- context [mbind _ _ ?s1] => set (s1' := s1) end.
  assert (Ev : forall A (F : ProcessTree -> A), (forall t v, F (set_global_prev v t) = F t) -> (forall t v, F (set_global_next v t) = F t) ->
    forall q, view F (procs s1') q = view F (procs s) q).
  { intros A F H1 H2 q. unfold s1'. cbn [procs with_procs]. by rewrite !view_same. }
  read_proc parent par x Hx Ex; [by rewrite Ev|].
  cbv zeta. rewrite Ex. destruct (Z.eqb_spec par 0) as [->|Hn]; cbn [negb when]; [done|].
  specialize (Hc Hn). specialize (Hcs Hn).
  read_proc children c y Hy Ey; [by rewrite Ev|].
  rewrite Ey. rewrite bind_when_tree; [|by do 2 apply tweak_null|by intros; unfold s1'; cbn [procs with_procs]; rewrite !tweak_some; apply Hcs].
  read_proc children c z Hz Ez; [cbn [procs with_procs]; by rewrite view_same, Ev|].
  rewrite Ez. rewrite bind_modify_tree.
  - rewrite modify_tree_ok; [done|]. cbn [procs with_procs]. rewrite !tweak_some. apply (view_some children). by rewrite Ev, Hc.
  - cbn [procs with_procs]. rewrite !tweak_some. apply (view_some parent). by rewrite Ev, Hp.
Qed.

Lemma registered_some p par gf c m q : m !! q = None -> registered p par gf c m !! q = None.
Proof. intros H. unfold registered. destruct (par =? 0); rewrite !eq_None_not_Some, !tweak_some, <- eq_None_not_Some; done. Qed.

Definition with_kid (par p : Z) (kids : Z -> list Z) (q : Z) : list Z := if decide (q = par) then p :: kids q else kids q.

(** A process that is not in the forest, with empty links to children and
    siblings. *)
Lemma registered_forest m gf gl kids p par c :
  forest (delete p m) gf gl kids -> p <> 0 -> view id m p = Some (mkTree par 0 0 0 0 0) -> par <> p ->
  (par <> 0 -> view children m par = Some c) ->
  forest (registered p par gf c m) p (p :: gl) (with_kid par p kids).
Proof.
  intros Hf Hp Hx Hpp Hc.
  assert (Hn : m !! 0 = None) by (pose proof (f_null _ _ _ _ Hf) as H; by rewrite lookup_delete_ne in H).
  destruct (dll_delete_view _ _ _ _ _ _ (f_global _ _ _ _ Hf)) as [Hpg Hg].
  assert (Hv : forall A (F : ProcessTree -> A) q, view F m q = if decide (q = p) then Some (F (mkTree par 0 0 0 0 0)) else view F (delete p m) q).
  { intros A F q. unfold view in *. case_decide as E; [subst; destruct (m !! p); [by injection Hx as <-|done]|by rewrite lookup_delete_ne]. }
  assert (Hgf : gf <> p).
  { intros ->. rewrite (dll_first _ _ _ _ Hg) in Hp, Hpg. destruct gl; cbn in *; [done|]. apply Hpg, list_elem_of_here. }
  assert (Hkp : forall q, q <> 0 -> p ∉ kids q).
  { intros q Hq Hin. apply (f_parent _ _ _ _ Hf q p Hq) in Hin. unfold view in Hin. by rewrite lookup_delete_eq in Hin. }
  assert (Hpar : forall q, view parent (registered p par gf c m) q = view parent m q).
  { intros q. unfold registered. destruct (par =? 0); by rewrite !view_same. }
  assert (Hno : kids p = []).
  { destruct (kids p) as [|q l] eqn:E; [done|]. assert (Hq : q ∈ kids p) by (rewrite E; apply list_elem_of_here).
    apply (f_parent _ _ _ _ Hf p q Hp) in Hq. apply (f_up _ _ _ _ Hf p q) in Hq; [|done]. rewrite lookup_delete_eq in Hq. by destruct Hq. }
  assert (Hcpar : par <> 0 -> dll (view siblings m) 0 c (kids par) /\ c <> p).
  { intros Hn0. specialize (Hc Hn0). rewrite Hv, decide_False in Hc by done. pose proof (f_kids _ _ _ _ Hf par c Hc) as Hd.
    apply dll_delete_view in Hd as [Hd1 Hd2]. split; [done|]. intros ->. rewrite (dll_first _ _ _ _ Hd2) in Hp, Hd1.
    destruct (kids par); cbn in *; [done|]. apply Hd1, list_elem_of_here. }
  split.
  - apply dll_push with (v := view globals m) (cur := gf); [done|by apply (f_nodup _ _ _ _ Hf)|done|done| |].
    + unfold registered. destruct (par =? 0); rewrite ?(view_same globals) by done;
        rewrite !view_tweak, !(decide_False (P := p = gf)), decide_True by done; by rewrite (Hv _ (fun t => globals _)), decide_True.
    + intros q Hq. assert (q <> p) by (intros ->; done).
      assert (E : view globals (registered p par gf c m) q = if decide (q = gf) then view (fun t => globals (set_global_prev p t)) m q else view globals m q).
      { unfold registered. destruct (par =? 0); rewrite ?(view_same globals) by done;
        rewrite !view_tweak; repeat case_decide; done. }
      rewrite E. unfold view. case_decide; destruct (m !! q); done.
  - apply nodup_cons. split; [done|by apply (f_nodup _ _ _ _ Hf)].
  - intros q. rewrite elem_of_cons, <- (f_all _ _ _ _ Hf q), <- (view_some parent), Hpar, Hv, <- (view_some parent (delete p m)).
    case_decide; [split; [by left|done]|]. split; [by right|]. by intros [?|?].
  - intros q cq Hcq. assert (Hq0 : q <> 0).
    { intros ->. unfold view in Hcq. by rewrite registered_some in Hcq. }
    assert (Hs : view children m q = Some cq \/ q = par /\ cq = p).
    { unfold registered in Hcq. destruct (Z.eqb_spec par 0); rewrite ?(view_same children) in Hcq by done; [by left|].
      rewrite view_tweak in Hcq. case_decide as E; [right|left; by rewrite !view_same in Hcq].
      split; [done|]. unfold view in Hcq. destruct (_ !! q); cbn in Hcq; congruence. }
    assert (Hsib : forall x, x <> p -> view siblings (registered p par gf c m) x =
      (fun y => ((if decide (x = c /\ par <> 0) then p else fst y), snd y)) <$> view siblings m x).
    { intros x Hxp. unfold registered. destruct (Z.eqb_spec par 0) as [->|Hp0].
      - rewrite !view_same by done. destruct (view siblings m x) as [[]|]; cbn; [by rewrite decide_False by (by intros [_ ?])|done].
      - rewrite (view_same siblings) by done. rewrite view_tweak, decide_False by done. rewrite view_tweak.
        destruct (decide (x = c)) as [Ex|Ex].
        + subst x. rewrite !(view_same (fun t => siblings (set_child_prev p t))) by done. unfold view.
          destruct (m !! c); cbn; [by rewrite decide_True|done].
        + rewrite !view_same by done. destruct (view siblings m x) as [[]|]; cbn; [by rewrite decide_False by (by intros [? _])|done]. }
    assert (Hcp : forall x, x ∈ kids q -> x <> p) by (intros x Hin ->; by apply (Hkp q)).
    unfold with_kid. destruct (decide (q = par)) as [->|Hqp].
    + assert (cq = p) as ->.
      { destruct Hs as [Hs|[_ ?]]; [|done]. unfold registered in Hcq. rewrite (proj2 (Z.eqb_neq par 0)) in Hcq by done.
        rewrite view_tweak, decide_True in Hcq by done. unfold view in Hcq. destruct (_ !! par); cbn in Hcq; congruence. }
      destruct (Hcpar Hq0) as [Hd Hcne]. apply dll_push with (v := view siblings m) (cur := c); try done.
      * by apply (f_kids_nodup _ _ _ _ Hf).
      * by apply Hkp.
      * unfold registered. rewrite (proj2 (Z.eqb_neq par 0)) by done. rewrite (view_same siblings) by done.
        rewrite view_tweak, decide_True by done. rewrite view_tweak, decide_False by done. rewrite !view_same by done.
        by rewrite (Hv _ (fun t => siblings (set_child_next c t))), decide_True.
      * intros x Hin. rewrite Hsib by by apply Hcp. destruct (view siblings m x) as [[]|]; [|done]. cbn.
        destruct (decide (x = c)); [by rewrite decide_True|]. by rewrite decide_False by (by intros [? _]).
    + destruct Hs as [Hs|[? _]]; [|done]. destruct (decide (q = p)) as [->|Hqne].
      * rewrite Hv, decide_True in Hs by done. injection Hs as <-. by rewrite Hno.
      * rewrite Hv, decide_False in Hs by done. pose proof (f_kids _ _ _ _ Hf q cq Hs) as Hd.
        apply dll_delete_view in Hd as [_ Hd]. eapply dll_ext; [|exact Hd]. intros x Hin. rewrite Hsib by by apply Hcp.
        destruct (view siblings m x) as [[]|]; [|done]. cbn. rewrite decide_False; [done|]. intros [-> Hp0].
        destruct (Hcpar Hp0) as [Hd2 _]. pose proof (dll_first _ _ _ _ Hd2) as Hfst.
        assert (c <> 0) by (by eapply (dll_nonzero _ _ _ _ _ Hd)).
        assert (c ∈ kids par) by (rewrite Hfst; destruct (kids par); [by cbn in *|apply list_elem_of_here]).
        apply (f_parent _ _ _ _ Hf q c Hq0) in Hin. apply (f_parent _ _ _ _ Hf par c Hp0) in H0. congruence.
  - intros q Hq. unfold with_kid. case_decide; [|by apply (f_kids_nodup _ _ _ _ Hf)].
    apply nodup_cons. split; [by apply Hkp|by apply (f_kids_nodup _ _ _ _ Hf)].
  - intros q r Hq. rewrite Hpar, Hv. unfold with_kid. case_decide as E1; case_decide as E2; rewrite ?elem_of_cons, ?(f_parent _ _ _ _ Hf q r Hq); cbn.
    + subst. split; [done|by left].
    + split; [by intros [?|?]|by right].
    + subst r. split; [|congruence]. unfold view. by rewrite lookup_delete_eq.
    + done.
  - intros q r Hqr Hq. rewrite <- (view_some parent), Hpar, (view_some parent).
    rewrite Hpar, Hv in Hqr. case_decide as E; [cbn in Hqr; injection Hqr as <-|].
    + apply (view_some children). by rewrite Hc.
    + apply (f_up _ _ _ _ Hf q r) in Hqr; [|done]. destruct (decide (q = p)) as [->|]; [by rewrite lookup_delete_eq in Hqr; destruct Hqr|].
      by rewrite lookup_delete_ne in Hqr.
Qed.

(** A new process becomes the first of all processes and the first child of
    its parent; the other processes keep everything but their links. *)
Lemma registerProcess_links (s : st) gl kids p par :
  forest (delete p (procs s)) (global_first s) gl kids -> p <> 0 -> par <> p ->
  view id (procs s) p = Some (mkTree par 0 0 0 0 0) -> (par <> 0 -> is_Some (procs s !! par)) ->
  exists m, registerProcess p s = Some (tt, with_first (with_procs s m) p) /\
    forest m p (p :: gl) (with_kid par p kids) /\ forall q, body <$> m !! q = body <$> procs s !! q.
Proof.
  intros Hf Hp Hpp Hx Hpar.
  assert (Hn : procs s !! 0 = None) by (pose proof (f_null _ _ _ _ Hf) as H; by rewrite lookup_delete_ne in H).
  destruct (dll_delete_view _ _ _ _ _ _ (f_global _ _ _ _ Hf)) as [Hpg Hg].
  set (c := default 0 (view children (procs s) par)).
  assert (Hc : par <> 0 -> view children (procs s) par = Some c).
  { intros H. destruct (Hpar H) as [y Hy]. unfold c, view. by rewrite Hy. }
  eexists. split; [apply registerProcess_run with (par := par) (c := c); try done|split].
  - unfold view in *. destruct (procs s !! p); [|done]. injection Hx as E. unfold id in E. cbn. by rewrite E.
  - intros H. rewrite (dll_first _ _ _ _ Hg) in *. destruct gl as [|q gl]; [done|].
    apply (view_some globals). eapply dll_in; [exact Hg|apply list_elem_of_here].
  - intros H H0. specialize (Hc H). unfold view in Hc. rewrite <- (lookup_delete_ne _ p) in Hc by (by apply not_eq_sym).
    pose proof (f_kids _ _ _ _ Hf par c Hc) as Hd. apply dll_delete_view in Hd as [_ Hd]. pose proof (dll_first _ _ _ _ Hd) as E.
    apply (view_some siblings). eapply dll_in; [exact Hd|]. rewrite E. destruct (kids par); [by rewrite E in H0|apply list_elem_of_here].
  - cbn. by apply registered_forest.
  - intros q. cbn. unfold registered. destruct (par =? 0); by rewrite !tweak_body.
Qed.

(** *** A process leaves *)

Definition unlinked (par pv n : Z) (m : gmap Z Process) : gmap Z Process :=
  tweak n (set_child_prev pv) (if pv =? 0 then tweak par (set_children n) m else tweak pv (set_child_next n) m).

Definition unlinked_global (pv n : Z) (m : gmap Z Process) : gmap Z Process :=
  tweak n (set_global_prev pv) (if pv =? 0 then m else tweak pv (set_global_next n) m).

Lemma unlink_child_run (s : st) p par pv n :
  procs s !! 0 = None -> view (fun t => (parent t, siblings t)) (procs s) p = Some (par, (pv, n)) -> pv <> p ->
  is_Some (procs s !! par) -> (pv <> 0 -> is_Some (procs s !! pv)) -> (n <> 0 -> is_Some (procs s !! n)) ->
  unlink_child p s = Some (tt, with_procs s (unlinked par pv n (procs s))).
Proof.
  intros H0 Hp Hpv Hpar Hsp Hsn. unfold unlink_child, unlinked.
  read_proc (fun t => (parent t, siblings t)) (par, (pv, n)) x Hx Ex; [done|]. cbv zeta. injection Ex as -> -> ->.
  destruct (Z.eqb_spec pv 0) as [->|Hn].
  - rewrite bind_modify_tree by done. read_proc children n y Hy Ey.
    { cbn [procs with_procs]. rewrite view_tweak, decide_True by done. destruct Hpar as [z Hz]. unfold view. by rewrite Hz. }
    rewrite Ey, when_tree_ok; [done|by apply tweak_null|]. cbn [procs with_procs]. rewrite tweak_some. done.
  - rewrite bind_modify_tree by auto. read_proc siblings (pv, n) y Hy Ey.
    { cbn [procs with_procs]. rewrite view_tweak, decide_False by done. unfold view in *. destruct (procs s !! p) as [z|]; [|done]. cbn in *. congruence. }
    injection Ey as -> ->. rewrite when_tree_ok; [done|by apply tweak_null|]. cbn [procs with_procs]. rewrite tweak_some. done.
Qed.

Lemma unlink_global_run (s : st) p pv n :
  procs s !! 0 = None -> view globals (procs s) p = Some (pv, n) -> pv <> p ->
  (pv <> 0 -> is_Some (procs s !! pv)) -> (n <> 0 -> is_Some (procs s !! n)) ->
  unlink_global p s = Some (tt, with_first (with_procs s (unlinked_global pv n (procs s))) (if pv =? 0 then n else global_first s)).
Proof.
  intros H0 Hp Hpv Hsp Hsn. unfold unlink_global, unlinked_global.
  read_proc globals (pv, n) x Hx Ex; [done|]. injection Ex as -> ->.
  destruct (Z.eqb_spec pv 0) as [->|Hn].
  - erewrite bind_some by (unfold set_global_first; reflexivity). read_proc globals (0, n) y Hy Ey; [done|].
    injection Ey as -> ->. by rewrite when_tree_ok.
  - rewrite bind_modify_tree by auto. read_proc globals (pv, n) y Hy Ey.
    { cbn [procs with_procs]. by rewrite view_tweak, decide_False by done. }
    injection Ey as -> ->. rewrite when_tree_ok; [done|by apply tweak_null|]. cbn [procs with_procs]. rewrite tweak_some. done.
Qed.

Definition without (p : Z) (l : list Z) : list Z := filter (fun q => q <> p) l.

Lemma elem_of_without p q l : q ∈ without p l <-> q <> p /\ (q ∈ l).
Proof. unfold without. by rewrite list_elem_of_filter. Qed.

Lemma without_id p l : p ∉ l -> without p l = l.
Proof.
  induction l as [|q l IH]; intros H; [done|]. rewrite elem_of_cons in H. unfold without. rewrite filter_cons, decide_True by (intros ->; tauto).
  f_equal. apply IH. tauto.
Qed.

Lemma nodup_without p l : NoDup l -> NoDup (without p l).
Proof.
  induction l as [|q l IH]; intros H; [done|]. apply nodup_cons in H as [Hq H]. unfold without. rewrite filter_cons.
  case_decide; [|by apply IH]. apply nodup_cons. split; [|by apply IH]. intros Hin. by apply elem_of_without in Hin as [_ ?].
Qed.

Lemma without_split p la lb : NoDup (la ++ p :: lb) -> without p (la ++ p :: lb) = la ++ lb.
Proof.
  induction la as [|q la IH]; cbn [app]; intros H; apply nodup_cons in H as [Hq H]; unfold without; rewrite filter_cons.
  - rewrite decide_False by tauto. by apply without_id.
  - rewrite elem_of_app, elem_of_cons in Hq. rewrite decide_True by (intros ->; tauto). f_equal. by apply IH.
Qed.

(** The lists without [p], for either kind of links. *)
Lemma dll_without v v' cur l p pv n :
  dll v 0 cur l -> NoDup l -> p ∈ l -> v p = Some (pv, n) ->
  (forall q, q ∈ l -> q <> p ->
     v' q = (fun x => ((if decide (q = n) then pv else fst x), (if decide (q = pv) then n else snd x))) <$> v q) ->
  dll v' 0 (if pv =? 0 then n else cur) (without p l) /\ (pv <> 0 -> (pv ∈ l) /\ pv <> p) /\ (n <> 0 -> (n ∈ l) /\ n <> p).
Proof.
  intros H Hnd (la & lb & ->)%list_elem_of_split Hp Hv. rewrite without_split by done.
  assert (H0 : 0 ∉ la ++ p :: lb) by (intros Hin; by destruct (dll_nonzero _ _ _ _ _ H Hin)).
  assert (Hnp : forall q, q ∈ la ++ lb -> q <> p).
  { intros q Hq ->. rewrite <- (without_split p la lb) in Hq by done. by apply elem_of_without in Hq as [? _]. }
  destruct (dll_delete v v' la p lb pv n 0 cur) as (H1 & H2 & H3 & H4 & H5); try done.
  { intros q Hq. apply Hv; [|by apply Hnp]. apply elem_of_app in Hq as [?|?]; apply elem_of_app; [by left|right; by apply list_elem_of_further]. }
  assert (E : (if decide (la = []) then n else cur) = if pv =? 0 then n else cur).
  { case_decide as Ela; [by rewrite (H2 Ela)|]. specialize (H3 Ela). destruct (Z.eqb_spec pv 0) as [->|]; [|done].
    destruct H0. apply elem_of_app. by left. }
  rewrite <- E. split; [done|]. split.
  - intros Hne. destruct (decide (la = [])) as [Ela|Ela]; [by rewrite (H2 Ela) in Hne|]. specialize (H3 Ela).
    split; [|apply Hnp]; apply elem_of_app; by left.
  - intros Hne. specialize (H4 Hne). split; [|apply Hnp]; apply elem_of_app; right; [by apply list_elem_of_further|done].
Qed.

Section Leaving.
Context (m : gmap Z Process) (gf : Z) (gl : list Z) (kids : Z -> list Z) (Hf : forest m gf gl kids).
Context (p par pv n gpv gn : Z).
Context (Hlinks : view (fun t => (parent t, siblings t)) m p = Some (par, (pv, n))) (Hgl : view globals m p = Some (gpv, gn)).
Context (Hleaf : kids p = []).

Definition gone : gmap Z Process := unlinked_global gpv gn (if par =? 0 then m else unlinked par pv n m).

Lemma leaving_null : m !! 0 = None /\ p <> 0.
Proof. pose proof (f_null _ _ _ _ Hf) as H. split; [done|]. intros ->. unfold view in Hgl. by rewrite H in Hgl. Qed.

Lemma leaving_global : p ∈ gl.
Proof. apply (f_all _ _ _ _ Hf), (view_some globals). by rewrite Hgl. Qed.

Lemma leaving_parent : view parent m p = Some par /\ view siblings m p = Some (pv, n).
Proof. unfold view in *. destruct (m !! p); [|done]. cbn in *. split; congruence. Qed.

Lemma leaving_child : par <> 0 -> p ∈ kids par.
Proof. intros H. apply (f_parent _ _ _ _ Hf); [done|]. apply leaving_parent. Qed.

(** The links in [gone] of a process other than [p]. *)
Lemma gone_siblings q :
  view siblings gone q =
  if par =? 0 then view siblings m q
  else (fun x => ((if decide (q = n) then pv else fst x), (if decide (q = pv /\ pv <> 0) then n else snd x))) <$> view siblings m q.
Proof.
  unfold gone, unlinked_global. assert (E : forall m', view siblings (tweak gn (set_global_prev gpv) (if gpv =? 0 then m' else tweak gpv (set_global_next gn) m')) q = view siblings m' q).
  { intros m'. destruct (gpv =? 0); by rewrite !view_same. }
  rewrite E. destruct (Z.eqb_spec par 0) as [|Hp0]; [done|]. unfold unlinked. rewrite view_tweak.
  destruct (Z.eqb_spec pv 0) as [Ep|Hpv0]; rewrite ?view_tweak; unfold view; repeat case_decide; subst; try tauto; destruct (m !! _); done.
Qed.

Lemma gone_globals q :
  view globals gone q =
  (fun x => ((if decide (q = gn) then gpv else fst x), (if decide (q = gpv /\ gpv <> 0) then gn else snd x))) <$> view globals m q.
Proof.
  unfold gone, unlinked_global. assert (E : forall q, view globals (if par =? 0 then m else unlinked par pv n m) q = view globals m q).
  { intros q'. destruct (par =? 0); [done|]. unfold unlinked. destruct (pv =? 0); by rewrite !view_same. }
  rewrite view_tweak. destruct (Z.eqb_spec gpv 0) as [Ep|Hpv0]; rewrite ?view_tweak.
  - change (view (fun t => globals (set_global_prev gpv t))) with (fun m q => view (fun t => (gpv, snd (globals t))) m q). cbv beta.
    rewrite <- E. unfold view. repeat case_decide; subst; try tauto; destruct (_ !! _); done.
  - rewrite <- E. unfold view. repeat case_decide; subst; try tauto; destruct (_ !! _); done.
Qed.

Lemma gone_parent q : view parent gone q = view parent m q.
Proof.
  unfold gone, unlinked_global, unlinked. destruct (gpv =? 0), (par =? 0), (pv =? 0); by rewrite ?(view_same parent).
Qed.

Lemma gone_children q :
  view children gone q = if decide (q = par /\ par <> 0 /\ pv = 0) then (fun _ => n) <$> view children m q else view children m q.
Proof.
  unfold gone, unlinked_global. rewrite (view_same children) by done.
  assert (E : forall m', view children (if gpv =? 0 then m' else tweak gpv (set_global_next gn) m') q = view children m' q).
  { intros m'. destruct (gpv =? 0); by rewrite ?view_same. }
  rewrite E. unfold unlinked. destruct (Z.eqb_spec par 0) as [|Hp0]; [by rewrite decide_False by tauto|]. rewrite (view_same children) by done.
  destruct (Z.eqb_spec pv 0) as [Ep|Hpv0]; [|rewrite view_same by done; by rewrite decide_False by tauto].
  rewrite view_tweak. case_decide as Eq; [rewrite decide_True by done; subst q|by rewrite decide_False by tauto].
  unfold view. by destruct (m !! par).
Qed.

Lemma gone_some q : is_Some (gone !! q) <-> is_Some (m !! q).
Proof. by rewrite <- (view_some parent), gone_parent, view_some. Qed.

Lemma gone_body q : body <$> gone !! q = body <$> m !! q.
Proof. unfold gone, unlinked_global, unlinked. destruct (gpv =? 0), (par =? 0), (pv =? 0); by rewrite !tweak_body. Qed.

Lemma view_gone {A : Type} (F : ProcessTree -> A) q : q <> p -> view F (delete p gone) q = view F gone q.
Proof. intros H. unfold view. by rewrite lookup_delete_ne by (by apply not_eq_sym). Qed.

(** The neighbours are other members of the lists. *)
Lemma leaving_neighbours :
  (gpv <> 0 -> (gpv ∈ gl) /\ gpv <> p) /\ (gn <> 0 -> (gn ∈ gl) /\ gn <> p) /\ (par <> 0 -> (pv <> 0 -> (pv ∈ kids par) /\ pv <> p) /\ (n <> 0 -> (n ∈ kids par) /\ n <> p)).
Proof.
  pose (v' := fun (v : Z -> option (Z * Z)) pv n q => (fun x : Z * Z => ((if decide (q = n) then pv else fst x), (if decide (q = pv) then n else snd x))) <$> v q).
  destruct (dll_without _ (v' (view globals m) gpv gn) _ _ p gpv gn (f_global _ _ _ _ Hf) (f_nodup _ _ _ _ Hf) leaving_global Hgl) as (_ & H1 & H2); [done|].
  split; [done|split; [done|]]. intros Hp0. destruct leaving_parent as [Epar Esib].
  destruct (view children m par) as [c|] eqn:Ec.
  - destruct (dll_without _ (v' (view siblings m) pv n) _ _ p pv n (f_kids _ _ _ _ Hf par c Ec) (f_kids_nodup _ _ _ _ Hf par Hp0) (leaving_child Hp0) Esib) as (_ & H3 & H4); done.
  - apply eq_None_not_Some in Ec. destruct Ec. apply view_some. by apply (f_up _ _ _ _ Hf par p).
Qed.

Lemma leaving_forest :
  forest (delete p gone) (if gpv =? 0 then gn else gf) (without p gl) (fun q => without p (kids q)).
Proof.
  destruct leaving_null as [H0 Hp]. destruct leaving_parent as [Epar Esib]. destruct leaving_neighbours as (_ & _ & Hnb).
  split.
  - eapply dll_without; [apply (f_global _ _ _ _ Hf)|apply (f_nodup _ _ _ _ Hf)|apply leaving_global|exact Hgl|].
    intros q Hq Hqp. rewrite view_gone, gone_globals by done. destruct (view globals m q) as [[]|]; [|done]. cbn. do 3 f_equal.
    assert (q <> 0) by (by eapply (dll_nonzero _ _ _ _ _ (f_global _ _ _ _ Hf))).
    repeat case_decide; try done; subst; tauto.
  - apply nodup_without, (f_nodup _ _ _ _ Hf).
  - intros q. rewrite elem_of_without, <- (f_all _ _ _ _ Hf q), <- gone_some. destruct (decide (q = p)) as [->|Hq].
    + rewrite lookup_delete_eq. split; [by intros []|tauto].
    + rewrite lookup_delete_ne by (by apply not_eq_sym). tauto.
  - intros q c Hc. destruct (decide (q = p)) as [->|Hq]; [unfold view in Hc; by rewrite lookup_delete_eq in Hc|].
    rewrite view_gone, gone_children in Hc by done.
    assert (Hq0 : q <> 0) by (intros ->; unfold view in Hc; rewrite H0 in Hc; case_decide; done).
    destruct (decide (q = par)) as [->|Hqp].
    + destruct (view children m par) as [c0|] eqn:Ec; [|by case_decide]. cbn in Hc.
      replace c with (if pv =? 0 then n else c0).
      * eapply dll_without; [by apply (f_kids _ _ _ _ Hf)|by apply (f_kids_nodup _ _ _ _ Hf)|by apply leaving_child|exact Esib|].
        intros x Hx Hxp. rewrite view_gone, gone_siblings by done. rewrite (proj2 (Z.eqb_neq par 0)) by done.
        destruct (view siblings m x) as [[]|]; [|done]. cbn. do 3 f_equal.
        assert (x <> 0) by (by eapply (dll_nonzero _ _ _ _ _ (f_kids _ _ _ _ Hf par c0 Ec))).
        repeat case_decide; try done; subst; tauto.
      * destruct (Z.eqb_spec pv 0); case_decide; try tauto; congruence.
    + rewrite decide_False in Hc by tauto. pose proof (f_kids _ _ _ _ Hf q c Hc) as Hd.
      rewrite without_id by (rewrite (f_parent _ _ _ _ Hf q p Hq0), Epar; congruence).
      eapply dll_ext; [|exact Hd]. intros x Hx.
      assert (Hx0 : x <> 0) by (by eapply (dll_nonzero _ _ _ _ _ Hd)).
      apply (f_parent _ _ _ _ Hf q x Hq0) in Hx. rewrite view_gone by congruence. rewrite gone_siblings.
      destruct (Z.eqb_spec par 0) as [|Hp0]; [done|]. destruct (view siblings m x) as [[]|]; [|done]. cbn.
      destruct (Hnb Hp0) as [H1 H2]. pose proof (f_parent _ _ _ _ Hf par x Hp0) as Hpx.
      rewrite !decide_False; [done|..]; intros E; [destruct E as [-> ?]|subst x].
      * destruct (H1 ltac:(done)) as [Hin _]. apply Hpx in Hin. congruence.
      * destruct (H2 Hx0) as [Hin _]. apply Hpx in Hin. congruence.
  - intros q Hq. by apply nodup_without, (f_kids_nodup _ _ _ _ Hf).
  - intros q r Hq. rewrite elem_of_without, (f_parent _ _ _ _ Hf q r Hq). destruct (decide (r = p)) as [->|Hr].
    + unfold view. rewrite lookup_delete_eq. cbn. split; [tauto|done].
    + rewrite view_gone, gone_parent by done. tauto.
  - intros q r Hr Hq. destruct (decide (r = p)) as [->|Hrp]; [unfold view in Hr; by rewrite lookup_delete_eq in Hr|].
    rewrite view_gone, gone_parent in Hr by done. assert (Hqp : q <> p).
    { intros ->. apply (f_parent _ _ _ _ Hf p r Hp) in Hr. rewrite Hleaf in Hr. by apply not_elem_of_nil in Hr. }
    rewrite lookup_delete_ne by (by apply not_eq_sym). apply gone_some. by apply (f_up _ _ _ _ Hf q r).
Qed.

End Leaving.

(** *** Stores with the same links *)

Definition links (m m' : gmap Z Process) : Prop := forall q, view id m q = view id m' q.

#[export] Instance links_equiv : Equivalence links.
Proof. split; [by intros m q|by intros m m' H q|by intros m1 m2 m3 H1 H2 q; rewrite H1]. Qed.

Lemma links_view {A : Type} (F : ProcessTree -> A) m m' q : links m m' -> view F m q = view F m' q.
Proof.
  intros H. specialize (H q). unfold view, id in *. destruct (m !! q), (m' !! q); cbn in *; try done. congruence.
Qed.

#[export] Instance tweak_links p f : Proper (links ==> links) (tweak p f).
Proof. intros m m' H q. rewrite !view_tweak. case_decide; [by apply (links_view (fun t => id (f t)))|apply H]. Qed.

#[export] Instance delete_links p : Proper (links ==> links) (delete p).
Proof.
  intros m m' H q. unfold view. destruct (decide (p = q)) as [->|]; [by rewrite !lookup_delete_eq|].
  rewrite !lookup_delete_ne by done. apply H.
Qed.

#[export] Instance unlinked_links par pv n : Proper (links ==> links) (unlinked par pv n).
Proof. intros m m' H. unfold unlinked. apply tweak_links. destruct (pv =? 0); by apply tweak_links. Qed.

#[export] Instance unlinked_global_links pv n : Proper (links ==> links) (unlinked_global pv n).
Proof. intros m m' H. unfold unlinked_global. apply tweak_links. destruct (pv =? 0); [done|by apply tweak_links]. Qed.

Lemma links_some m m' q : links m m' -> is_Some (m !! q) <-> is_Some (m' !! q).
Proof. intros H. rewrite <- !(view_some id). by rewrite (H q). Qed.

Lemma forest_links m m' gf gl kids : links m m' -> forest m gf gl kids -> forest m' gf gl kids.
Proof.
  intros H [H1 H2 H3 H4 H5 H6 H7]. assert (H' : links m' m) by done. split; try done.
  - eapply dll_ext; [|exact H1]. intros q _. by apply links_view.
  - intros q. rewrite (links_some m' m) by done. apply H3.
  - intros q c Hc. rewrite (links_view _ m' m) in Hc by done. eapply dll_ext; [|by apply H4]. intros r _. by apply links_view.
  - intros q r Hq. rewrite (links_view _ m' m) by done. by apply H6.
  - intros q r Hr Hq. rewrite (links_view _ m' m) in Hr by done. apply (links_some m' m); [done|]. by eapply H7.
Qed.

(** Taking a child out of its list a second time changes nothing. *)
Lemma unlinked_again par pv n m : links (unlinked par pv n (unlinked par pv n m)) (unlinked par pv n m).
Proof.
  intros q. unfold unlinked. destruct (pv =? 0); rewrite !view_tweak; unfold view; repeat case_decide; subst; by destruct (m !! _).
Qed.

Section Finalizing.
Context (closeAllProcessFiles deallocMemorySpace : Z -> M W unit).

Lemma unregister_run fuel (s : st) p par pv n gpv gn :
  procs s !! 0 = None -> view (fun t => (parent t, siblings t)) (procs s) p = Some (par, (pv, n)) -> view globals (procs s) p = Some (gpv, gn) ->
  view children (procs s) p = Some 0 -> gpv <> p -> (gpv <> 0 -> is_Some (procs s !! gpv)) -> (gn <> 0 -> is_Some (procs s !! gn)) ->
  (par <> 0 -> pv <> p /\ is_Some (procs s !! par) /\ (pv <> 0 -> is_Some (procs s !! pv)) /\ (n <> 0 -> is_Some (procs s !! n))) ->
  unregisterProcess (S fuel) p s =
    Some (tt, with_first (with_procs s (gone (procs s) par pv n gpv gn)) (if gpv =? 0 then gn else global_first s)).
Proof.
  intros H0 Hl Hg Hc Hgp Hsp Hsn Hpar. unfold unregisterProcess, gone.
  read_proc (fun t => (parent t, children t)) (par, 0) x Hx Ex.
  { unfold view in *. destruct (procs s !! p); [|done]. cbn in *. congruence. }
  injection Ex as -> ->. destruct (Z.eqb_spec par 0) as [->|Hn]; cbn [negb].
  - cbn [orphan_loop Z.eqb]. rewrite bind_ret. by apply unlink_global_run.
  - destruct (Hpar Hn) as (Hpv & Hsome & Hspv & Hsn'). cbn [reparent_loop Z.eqb]. rewrite bind_assoc, bind_ret.
    rewrite (bind_some _ _ _ _ _ (unlink_child_run s p par pv n H0 Hl Hpv Hsome Hspv Hsn')).
    rewrite (unlink_global_run _ p gpv gn); [done|..]; cbn [procs with_procs].
    + unfold unlinked. destruct (pv =? 0); by do 2 apply tweak_null.
    + unfold unlinked. destruct (pv =? 0); by rewrite !view_same.
    + done.
    + intros H. unfold unlinked. destruct (pv =? 0); rewrite !tweak_some; by apply Hsp.
    + intros H. unfold unlinked. destruct (pv =? 0); rewrite !tweak_some; by apply Hsn.
Qed.

(** The state before a process is freed: it may have left the list of children
    already, when its parent waited for it. *)
Definition leaving (m m0 : gmap Z Process) (p : Z) : Prop :=
  links m m0 \/ exists par pv n,
    view (fun t => (parent t, siblings t)) m0 p = Some (par, (pv, n)) /\ par <> 0 /\ links m (unlinked par pv n m0).

Section Leaf.
Context (m m0 : gmap Z Process) (gf : Z) (gl : list Z) (kids : Z -> list Z) (p : Z).
Context (Hf : forest m0 gf gl kids) (Hleaf : kids p = []) (Hp : p ∈ gl) (Hm : leaving m m0 p).

Lemma leaf_links : exists par pv n gpv gn,
  view id m0 p = Some (mkTree par 0 n pv gn gpv) /\ (par <> 0 -> par <> p).
Proof.
  apply (f_all _ _ _ _ Hf) in Hp as [x Hx]. exists (parent (tree x)), (child_prev (tree x)), (child_next (tree x)), (global_prev (tree x)), (global_next (tree x)).
  assert (Hp0 : p <> 0) by (intros ->; rewrite (f_null _ _ _ _ Hf) in Hx; done).
  split.
  - assert (Hc : view children m0 p = Some (children (tree x))) by (unfold view; by rewrite Hx).
    pose proof (f_kids _ _ _ _ Hf p _ Hc) as Hd. rewrite Hleaf in Hd. cbn in Hd. unfold view. rewrite Hx. cbn. unfold id.
    rewrite <- Hd. by destruct (tree x).
  - intros Hn Heq. assert (Hin : p ∈ kids p).
    { apply (f_parent _ _ _ _ Hf p p Hp0). unfold view. rewrite Hx. cbn. congruence. }
    rewrite Hleaf in Hin. by apply not_elem_of_nil in Hin.
Qed.

Lemma leaf_self : view id m p = view id m0 p.
Proof.
  destruct Hm as [H|(par & pv & n & Hl & Hn & H)]; [apply H|]. destruct leaf_links as (par' & pv' & n' & gpv & gn & Ev & Hpp).
  assert (Hgl : view globals m0 p = Some (gpv, gn)) by (unfold view in *; destruct (m0 !! p); [|done]; cbn in *; unfold id in *; by injection Ev as ->).
  destruct (leaving_neighbours m0 gf gl kids Hf p par pv n gpv gn Hl Hgl) as (_ & _ & Hnb). destruct (Hnb Hn) as [H1 H2].
  assert (par = par') by (unfold view in *; destruct (m0 !! p); [|done]; cbn in *; unfold id in *; injection Ev as E; rewrite E in Hl; cbn in Hl; congruence).
  subst par'. specialize (Hpp Hn). rewrite (H p). unfold unlinked.
  assert (Hp0 : p <> 0) by (by eapply (dll_nonzero _ _ _ _ _ (f_global _ _ _ _ Hf))).
  destruct (Z.eqb_spec pv 0); rewrite !view_tweak, !decide_False; try done; intros ->.
  - by destruct (H2 Hp0).
  - by destruct (H1 Hp0).
  - by destruct (H2 Hp0).
Qed.

Lemma leaf_some q : is_Some (m !! q) <-> is_Some (m0 !! q).
Proof.
  destruct Hm as [H|(par & pv & n & _ & _ & H)]; rewrite (links_some _ _ _ H); [done|].
  unfold unlinked. destruct (pv =? 0); by rewrite !tweak_some.
Qed.

Lemma leaf_gone par pv n gpv gn :
  view (fun t => (parent t, siblings t)) m0 p = Some (par, (pv, n)) ->
  links (gone m par pv n gpv gn) (gone m0 par pv n gpv gn).
Proof.
  intros Hl. unfold gone. destruct Hm as [H|(par' & pv' & n' & Hl' & Hn & H)].
  - destruct (par =? 0); [by rewrite H|by rewrite H].
  - assert (par' = par /\ pv' = pv /\ n' = n) as (-> & -> & ->) by (rewrite Hl in Hl'; injection Hl'; done).
    rewrite (proj2 (Z.eqb_neq par 0)) by done. by rewrite H, unlinked_again.
Qed.

End Leaf.

(** Freeing a process without children takes it out of the list of all
    processes and out of the children of its parent, and nothing else. *)
Lemma processFinalizeTask_ok fuel (s : st) m0 gl kids p x w1 w2 :
  forest m0 (global_first s) gl kids -> leaving (procs s) m0 p -> kids p = [] -> procs s !! p = Some x ->
  closeAllProcessFiles p (world s) = Some (tt, w1) ->
  (if pid x =? 0 then w2 = w1 else deallocMemorySpace (mem_space (memory x)) w1 = Some (tt, w2)) ->
  exists s', processFinalizeTask closeAllProcessFiles deallocMemorySpace (S fuel) p s = Some (tt, s') /\
    forest (procs s') (global_first s') (without p gl) (fun q => without p (kids q)) /\
    (forall q, q <> p -> body <$> procs s' !! q = body <$> procs s !! q) /\ procs s' !! p = None /\
    world s' = w2 /\ proc_tasks s' = proc_tasks s /\ sched s' = sched s /\ finalizers s' = finalizers s.
Proof.
  intros Hf Hm Hleaf Hx Hw1 Hw2.
  assert (Hp : p ∈ gl) by (apply (f_all _ _ _ _ Hf), (leaf_some (procs s) m0 p Hm); by rewrite Hx).
  destruct (leaf_links _ _ _ _ _ _ Hf Hleaf Hp Hm) as (par & pv & n & gpv & gn & Ev & Hpp).
  pose proof (leaf_self _ _ _ _ _ _ Hf Hleaf Hp Hm) as Es. rewrite Ev in Es.
  assert (HF : forall m A (F : ProcessTree -> A), view id m p = Some (mkTree par 0 n pv gn gpv) -> view F m p = Some (F (mkTree par 0 n pv gn gpv))).
  { intros m A F H. unfold view, id in *. destruct (m !! p); [|done]. cbn in *. congruence. }
  assert (Hl : view (fun t => (parent t, siblings t)) m0 p = Some (par, (pv, n))) by by apply (HF m0).
  assert (Hg : view globals m0 p = Some (gpv, gn)) by by apply (HF m0).
  destruct (leaving_neighbours m0 _ gl kids Hf p par pv n gpv gn Hl Hg) as (Hgp & Hgn & Hnb).
  assert (Hin : forall q, q ∈ gl -> is_Some (procs s !! q)) by (intros q Hq; apply (leaf_some _ m0 p Hm); by apply (f_all _ _ _ _ Hf)).
  assert (Hkid : forall q, par <> 0 -> q ∈ kids par -> is_Some (procs s !! q)).
  { intros q Hn Hq. apply (leaf_some _ m0 p Hm). apply (f_parent _ _ _ _ Hf par q Hn) in Hq. apply (view_some parent). by rewrite Hq. }
  assert (Hun : unregisterProcess (S fuel) p s = Some (tt, with_first (with_procs s (gone (procs s) par pv n gpv gn)) (if gpv =? 0 then gn else global_first s))).
  { apply unregister_run.
    - apply eq_None_not_Some. rewrite (leaf_some _ m0 p Hm), (f_null _ _ _ _ Hf). by intros [].
    - by apply (HF (procs s)).
    - by apply (HF (procs s)).
    - by apply (HF (procs s)).
    - intros ->. destruct (decide (p = 0)) as [->|Hp0]; [|by destruct (Hgp Hp0)].
      by destruct (dll_nonzero _ _ _ _ _ (f_global _ _ _ _ Hf) Hp).
    - intros H. apply Hin. by destruct (Hgp H).
    - intros H. apply Hin. by destruct (Hgn H).
    - intros H. destruct (Hnb H) as [H1 H2]. split_and!.
      + intros ->. destruct (decide (p = 0)) as [->|Hp0]; [|by destruct (H1 Hp0)].
        by destruct (dll_nonzero _ _ _ _ _ (f_global _ _ _ _ Hf) Hp).
      + apply (leaf_some _ m0 p Hm). apply (f_up _ _ _ _ Hf par p); [|done]. by apply (HF m0 _ parent).
      + intros H3. apply Hkid; [done|]. by destruct (H1 H3).
      + intros H3. apply Hkid; [done|]. by destruct (H2 H3). }
  set (m1 := gone (procs s) par pv n gpv gn) in *. unfold processFinalizeTask. rewrite (bind_some _ _ _ _ _ Hun).
  assert (Hx1 : exists x1, m1 !! p = Some x1 /\ pid x1 = pid x /\ memory x1 = memory x).
  { pose proof (gone_body (procs s) par pv n gpv gn p) as Hb. rewrite Hx in Hb. fold m1 in Hb.
    destruct (m1 !! p) as [x1|]; [|done]. injection Hb as H1 _ _ _ _ _ _ H2 _ _ _. by exists x1. }
  destruct Hx1 as (x1 & Hx1 & Hpid & Hmem).
  erewrite bind_some by (unfold on_world; cbn [world with_first with_procs]; rewrite Hw1; reflexivity). cbn [procs with_first with_procs proc_tasks global_first next_pid finalizers sched].
  erewrite bind_some by (unfold get_proc; cbn [procs]; rewrite Hx1; reflexivity). rewrite Hpid, Hmem.
  eexists. split.
  { instantiate (1 := mkState (delete p m1) (proc_tasks s) (if gpv =? 0 then gn else global_first s) (next_pid s) (finalizers s) (sched s) w2).
    destruct (pid x =? 0); cbn [negb when].
    - subst w2. rewrite bind_ret. unfold free_proc. cbn [procs]. by rewrite Hx1.
    - erewrite bind_some by (unfold on_world; cbn [world]; rewrite Hw2; reflexivity). unfold free_proc. cbn [procs]. by rewrite Hx1. }
  cbn [procs global_first world proc_tasks sched finalizers]. split_and!; try done.
  - eapply forest_links; [|eapply leaving_forest; [exact Hf|exact Hl|exact Hg|exact Hleaf]].
    apply delete_links. symmetry. unfold m1. by apply (leaf_gone _ _ _ Hm).
  - intros q Hq. rewrite lookup_delete_ne by (by apply not_eq_sym). apply gone_body.
  - by rewrite lookup_delete_eq.
Qed.

(** *** Waiting *)

Context (writeInt : Z -> Z -> M W unit).

Definition cell (pv : Z) : option Z := if pv =? 0 then None else Some pv.

Lemma read_cell_first (s : st) me prv c :
  view children (procs s) me = Some c -> prv = 0 -> read_child_cell me (cell prv) s = Some (c, s).
Proof.
  intros H ->. cbn [cell Z.eqb read_child_cell]. unfold view in H. apply fmap_Some in H as (x & Hx & ->).
  unfold get_proc, mbind, M_bind. by rewrite Hx.
Qed.

Lemma read_cell_next (s : st) me q pv n :
  view siblings (procs s) q = Some (pv, n) -> q <> 0 -> read_child_cell me (cell q) s = Some (n, s).
Proof.
  intros H Hq. unfold cell. rewrite (proj2 (Z.eqb_neq q 0)) by done. cbn [read_child_cell].
  unfold view in H. apply fmap_Some in H as (x & Hx & E). unfold get_proc, mbind, M_bind. rewrite Hx. cbn. by injection E as _ ->.
Qed.

(** The last element, or [prv] of an empty list. *)
Fixpoint ends (prv : Z) (l : list Z) : Z := match l with [] => prv | q :: l => ends q l end.

(** A child that the wait passes. *)
Definition passed (s : st) (x : Process) (want flags q : Z) : Prop :=
  exists c, procs s !! q = Some c /\ (wants x c want && has_news c flags = false).

Definition wanted (s : st) (x : Process) (want : Z) (l : list Z) : Z :=
  Z.of_nat (length (filter (fun q => (fun c => wants x c want) <$> procs s !! q = Some true) l)).

Lemma wait_skip (s : st) me t want addr flags x fuel lb : procs s !! me = Some x ->
  forall la prv cur found,
  dll (view siblings (procs s)) prv cur (la ++ lb) -> read_child_cell me (cell prv) s = Some (cur, s) ->
  Forall (passed s x want flags) la ->
  wait_loop writeInt (length la + fuel) me t want addr flags (cell prv) found s =
  wait_loop writeInt fuel me t want addr flags (cell (ends prv la)) (found + wanted s x want la) s /\
  exists cur', dll (view siblings (procs s)) (ends prv la) cur' lb /\
    read_child_cell me (cell (ends prv la)) s = Some (cur', s).
Proof.
  intros Hx. induction la as [|q la IH]; intros prv cur found Hd Hc Hpass.
  - cbn. unfold wanted. cbn. rewrite Z.add_0_r. split; [done|]. by exists cur.
  - apply Forall_cons_1 in Hpass as [(c & Hq & Hno) Hpass]. destruct Hd as (-> & Hq0 & n & Hn & Hd).
    destruct (IH q n (if wants x c want then found + 1 else found) Hd) as (E & cur' & Hd' & Hc'); [by eapply read_cell_next|done|].
    cbn [ends]. split; [|by exists cur'].
    assert (Ew : (if wants x c want then found + 1 else found) + wanted s x want la = found + wanted s x want (q :: la)).
    { unfold wanted. rewrite filter_cons, Hq. cbn [fmap option_fmap option_map]. destruct (wants x c want); case_decide; try done; cbn [length]; lia. }
    rewrite <- Ew, <- E. cbn [length Nat.add wait_loop].
    erewrite bind_some by (unfold get_proc; rewrite Hx; reflexivity). rewrite (bind_some _ _ _ _ _ Hc), (proj2 (Z.eqb_neq q 0)) by done.
    erewrite bind_some by (unfold get_proc; rewrite Hq; reflexivity). unfold cell. rewrite (proj2 (Z.eqb_neq q 0)) by done.
    destruct (wants x c want); cbn [andb] in Hno; [by rewrite Hno|done].
Qed.

Lemma insert_links m p x y : m !! p = Some x -> tree y = tree x -> links (<[p := y]> m) m.
Proof.
  intros Hx Hy q. unfold view. destruct (decide (p = q)) as [->|]; [|by rewrite lookup_insert_ne].
  by rewrite lookup_insert_eq, Hx; cbn; rewrite Hy.
Qed.

(** The time of a child and its own children counts for the task that waits. *)
Definition waited (pt : ProcTask) (c : Process) : ProcTask :=
  mkProcTask (proc_next pt)
    (mkTimes (user_time (t_times pt)) (user_child_time (t_times pt) +% (user_time (times c) +% user_child_time (times c)))
       (system_time (t_times pt)) (system_child_time (t_times pt) +% (system_time (times c) +% system_child_time (times c)))).

Lemma reap_run (s : st) me t addr child pv n x c pt q w1 :
  procs s !! 0 = None -> procs s !! me = Some x -> procs s !! child = Some c -> me <> child -> proc_tasks s !! t = Some pt ->
  tasks c = 0 -> siblings (tree c) = (pv, n) -> pv <> child -> (pv <> 0 -> is_Some (procs s !! pv)) -> (n <> 0 -> is_Some (procs s !! n)) ->
  writeInt addr (status c) (world s) = Some (tt, w1) ->
  Signals.clearPendingChildSignals (pid c) (psignals x) = Some (tt, q) ->
  reap writeInt me t addr child (cell pv) s = Some (pid c, mkState
    (unlinked me pv n (<[me := set_psignals x q]> (<[child := set_status c 0]> (procs s))))
    (<[t := waited pt c]> (proc_tasks s)) (global_first s) (next_pid s) (finalizers s ++ [child]) (sched s) w1).
Proof.
  intros H0 Hx Hc Hne Ht Htasks Hsib Hpv Hspv Hsn Hw Hq. unfold reap.
  erewrite bind_some by (unfold get_proc; rewrite Hc; reflexivity).
  erewrite bind_some by (unfold on_world; rewrite Hw; reflexivity).
  erewrite bind_some by (unfold modify, get_proc, put_proc, mbind, M_bind; cbn [procs]; rewrite Hc; reflexivity).
  erewrite bind_some by (unfold get_task; cbn [proc_tasks with_procs]; rewrite Ht; reflexivity).
  erewrite bind_some by (unfold put_task; reflexivity).
  erewrite bind_some by (unfold on_signals; cbn [procs with_procs]; rewrite lookup_insert_ne, Hx by (by apply not_eq_sym); cbn [mbind option_bind]; rewrite Hq; reflexivity).
  erewrite bind_some by (unfold get_proc; cbn [procs with_procs]; rewrite lookup_insert_ne, lookup_insert_eq by done; reflexivity).
  cbn [tasks set_status]. rewrite Htasks. cbn [Z.eqb when tree].
  injection Hsib as Hprev Hnext. change (tree (set_status c 0)) with (tree c). rewrite Hprev, Hnext.
  cbn [procs with_procs proc_tasks global_first next_pid finalizers sched world].
  set (m2 := <[me := set_psignals x q]> (<[child := set_status c 0]> (procs s))).
  assert (Hs2 : forall r, is_Some (m2 !! r) <-> is_Some (procs s !! r)).
  { intros r. unfold m2. destruct (decide (r = me)) as [->|]; [rewrite lookup_insert_eq, Hx; split; by eexists|].
    rewrite lookup_insert_ne by (by apply not_eq_sym). destruct (decide (r = child)) as [->|]; [rewrite lookup_insert_eq, Hc; split; by eexists|].
    by rewrite lookup_insert_ne by (by apply not_eq_sym). }
  assert (H2 : m2 !! 0 = None) by (apply eq_None_not_Some; rewrite Hs2, H0; by intros []).
  rewrite bind_assoc. unfold unlinked, cell. destruct (Z.eqb_spec pv 0) as [->|Hn].
  - cbn [write_child_cell]. rewrite bind_modify_tree by (cbn [procs with_procs]; apply Hs2; by rewrite Hx).
    rewrite bind_assoc. erewrite bind_some.
    2: { apply read_cell_first with (prv := 0) (c := n); [|done]. cbn [procs with_procs]. rewrite view_tweak, decide_True by done.
         unfold view, m2. by rewrite lookup_insert_eq. }
    rewrite bind_assoc, bind_when_tree; cbn [procs with_procs]; [done|by apply tweak_null|intros ?; rewrite tweak_some, Hs2; auto].
  - cbn [write_child_cell]. rewrite bind_modify_tree by (cbn [procs with_procs]; apply Hs2; auto).
    rewrite bind_assoc. assert (Hv : exists a, view siblings (tweak pv (set_child_next n) m2) pv = Some (a, n)).
    { rewrite view_tweak, decide_True by done. destruct (proj2 (Hs2 pv) (Hspv Hn)) as [z Hz]. unfold view. rewrite Hz. by eexists. }
    destruct Hv as [a Hv]. erewrite bind_some.
    2: { replace (Some pv) with (cell pv) by (unfold cell; by rewrite (proj2 (Z.eqb_neq pv 0))).
         apply (read_cell_next _ me pv a n); [exact Hv|done]. }
    rewrite bind_assoc, bind_when_tree; cbn [procs with_procs]; [done|by apply tweak_null|intros ?; rewrite tweak_some, Hs2; auto].
Qed.

Lemma kids_size m gf gl kids p : forest m gf gl kids -> p <> 0 -> (length (kids p) <= size m)%nat.
Proof.
  intros Hf Hp. rewrite <- (size_list_to_set (C := gset Z)), <- size_dom by by apply (f_kids_nodup _ _ _ _ Hf).
  apply subseteq_size. intros q Hq%elem_of_list_to_set. apply (f_parent _ _ _ _ Hf p q Hp) in Hq.
  apply elem_of_dom, (view_some parent). by rewrite Hq.
Qed.

Lemma delete_snoc {A : Type} (l : list A) x : delete (length l) (l ++ [x]) = l.
Proof. induction l as [|y l IH]; [done|]. cbn. f_equal. apply IH. Qed.

Lemma unlinked_body par pv n m q : body <$> unlinked par pv n m !! q = body <$> m !! q.
Proof. unfold unlinked. destruct (pv =? 0); by rewrite !tweak_body. Qed.


End Finalizing.

(** *** Going through all processes *)

Section All.
Context {B : Type} (callback : Z -> B -> M st B).
Context (J : st -> Prop) (P : Z -> Process -> B -> Process -> B -> Prop).
(** What the callback does to a process, while [J] holds. *)
Context (callback_ok : forall s p x b, J s -> procs s !! p = Some x -> exists x' b',
  callback p b s = Some (b', with_procs s (<[p := x']> (procs s))) /\ tree x' = tree x /\ P p x b x' b' /\
  J (with_procs s (<[p := x']> (procs s)))).

(** The processes one after the other, with what is accumulated. *)
Inductive visited (m m' : gmap Z Process) : list Z -> B -> B -> Prop :=
| visited_nil b : visited m m' [] b b
| visited_cons p l b b1 b2 x x' :
    m !! p = Some x -> m' !! p = Some x' -> P p x b x' b1 -> visited m m' l b1 b2 -> visited m m' (p :: l) b b2.

Lemma visited_ext m m1 m' m1' l b b' :
  (forall p, p ∈ l -> m1 !! p = m !! p) -> (forall p, p ∈ l -> m1' !! p = m' !! p) -> visited m m' l b b' -> visited m1 m1' l b b'.
Proof.
  intros H1 H2 H. induction H as [|p l b b1 b2 x x' Hx Hx' HP H IH]; [constructor|].
  econstructor; [by rewrite H1 by apply list_elem_of_here|by rewrite H2 by apply list_elem_of_here|exact HP|].
  apply IH; intros q Hq; [apply H1|apply H2]; by apply list_elem_of_further.
Qed.

Lemma all_loop_ok l : forall fuel (s : st) prv cur b,
  J s -> dll (view globals (procs s)) prv cur l -> NoDup l -> (length l < fuel)%nat ->
  exists m' b', all_loop fuel callback cur b s = Some (b', with_procs s m') /\ links m' (procs s) /\ J (with_procs s m') /\
    visited (procs s) m' l b b' /\ (forall q, q ∉ l -> m' !! q = procs s !! q).
Proof.
  induction l as [|p l IH]; intros [|fuel] s prv cur b HJ Hd Hnd Hf; cbn [length] in Hf; try lia.
  - cbn in Hd. subst cur. exists (procs s), b. split; [by destruct s|]. split; [done|]. split; [by destruct s|]. split; [constructor|done].
  - destruct Hd as (-> & Hp & n & Hn & Hd). apply nodup_cons in Hnd as [Hpl Hnd].
    assert (Hx : is_Some (procs s !! p)) by (apply (view_some globals); by rewrite Hn). destruct Hx as [x Hx].
    destruct (callback_ok s p x b HJ Hx) as (x' & b1 & E & Ht & HP & HJ').
    set (s1 := with_procs s (<[p := x']> (procs s))) in *.
    assert (Hl1 : links (procs s1) (procs s)) by (by eapply insert_links).
    destruct (IH fuel s1 p n b1 HJ') as (m' & b' & E' & Hl & HJ2 & Hv & Hout); [|done|lia|].
    { eapply dll_ext; [|exact Hd]. intros q _. by apply links_view. }
    exists m', b'. split; [|split; [by etransitivity|split; [done|split]]].
    + cbn [all_loop]. rewrite (proj2 (Z.eqb_neq p 0)), (bind_some _ _ _ _ _ E) by done.
      erewrite bind_some by (unfold get_proc, s1; cbn [procs with_procs]; rewrite lookup_insert_eq; reflexivity).
      rewrite Ht. unfold view in Hn. rewrite Hx in Hn. cbn in Hn. injection Hn as _ ->. exact E'.
    + econstructor; [exact Hx|rewrite Hout by done; unfold s1; cbn [procs with_procs]; by rewrite lookup_insert_eq|exact HP|].
      eapply visited_ext; [|by intros|exact Hv]. intros q Hq. unfold s1. cbn [procs with_procs]. by rewrite lookup_insert_ne by (intros ->; done).
    + intros q Hq. rewrite elem_of_cons in Hq. rewrite Hout by tauto. unfold s1. cbn [procs with_procs]. rewrite lookup_insert_ne; [done|]. intros ->. tauto.
Qed.

Lemma doForAllProcess_ok (s : st) gl kids b :
  forest (procs s) (global_first s) gl kids -> J s ->
  exists m' b', doForAllProcess callback b s = Some (b', with_procs s m') /\ links m' (procs s) /\ visited (procs s) m' gl b b'.
Proof.
  intros Hf HJ. unfold doForAllProcess. erewrite bind_some by (unfold whole; reflexivity).
  destruct (all_loop_ok gl (S (size (procs s))) s 0 (global_first s) b HJ) as (m' & b' & E & Hl & _ & Hv & _).
  - apply (f_global _ _ _ _ Hf).
  - apply (f_nodup _ _ _ _ Hf).
  - rewrite <- (size_list_to_set (C := gset Z)), <- size_dom by apply (f_nodup _ _ _ _ Hf).
    apply Nat.lt_succ_r, subseteq_size. intros q Hq%elem_of_list_to_set. by apply elem_of_dom, (f_all _ _ _ _ Hf).
  - by exists m', b'.
Qed.

End All.

Lemma visited_in {B : Type} (P : Z -> Process -> B -> Process -> B -> Prop) m m' l b b' p :
  visited P m m' l b b' -> p ∈ l -> exists x x' b1 b2, m !! p = Some x /\ m' !! p = Some x' /\ P p x b1 x' b2.
Proof.
  induction 1 as [|q l b b1 b2 x x' Hx Hx' HP H IH]; intros Hp; [by apply not_elem_of_nil in Hp|].
  apply elem_of_cons in Hp as [->|Hp]; [by eexists _, _, _, _|by apply IH].
Qed.

(** *** Signals for a group *)

Section Group.
Context (kalloc_signal : gmap Z Signals.PendingSignal -> Z).
Context (kalloc_fresh : forall m, m !! kalloc_signal m = None /\ kalloc_signal m <> 0).

(** Every process has a well-formed queue and a full table of handlers. *)
Definition signals_ok (s : st) : Prop :=
  forall p x, procs s !! p = Some x -> exists l, Signals.queued (psignals x) l /\
    length (Signals.handlers (Signals.sigs (psignals x))) = Z.to_nat Signals.SIG_COUNT.

(** The signal joins the queue of the process, unless the process ignores it. *)
Definition signalled (sg : Z) (x x' : Process) : Prop :=
  exists q, x' = set_psignals x q /\
    if Signals.accepted (psignals x) sg
    then forall l, Signals.queued (psignals x) l ->
      Signals.queued q (l ++ [(kalloc_signal (Signals.entries (psignals x)), (sg, 0))])
    else q = psignals x.

Lemma queued_unique p l l' : Signals.queued p l -> Signals.queued p l' -> l = l'.
Proof.
  intros [H _ _] [H' _ _]. revert H H'. generalize (Signals.signals (Signals.sigs p)) as c. revert l'.
  induction l as [|[e [sg ch]] l IH]; intros [|[e' [sg' ch']] l'] c; cbn; [done|intros -> (? & ? & _); congruence|intros (? & ? & _) ->; congruence|].
  intros (-> & He & n & Hn & H) (E & He' & n' & Hn' & H'). subst e'. rewrite Hn in Hn'. injection Hn' as -> -> ->.
  f_equal. by eapply IH.
Qed.

Lemma set_psignals_id x : set_psignals x (psignals x) = x.
Proof. by destruct x. Qed.

Lemma add_signal_ok (s : st) p x sg :
  signals_ok s -> procs s !! p = Some x -> sg <> Signals.SIGCONT ->
  exists x', addSignalToProcess kalloc_signal p sg 0 s = Some (tt, with_procs s (<[p := x']> (procs s))) /\
    signalled sg x x' /\ signals_ok (with_procs s (<[p := x']> (procs s))).
Proof.
  intros Hs Hx Hsg. destruct (Hs p x Hx) as (l & Hq & Hlen).
  destruct (Signals.addSignalToProcess_queues kalloc_signal (fun _ => mret tt) (psignals x) l sg 0 Hq Hlen Hsg kalloc_fresh) as (q & E & Hres).
  exists (set_psignals x q). split.
  - unfold addSignalToProcess. rewrite (proj2 (Z.eqb_neq sg _)) by done. cbn [when]. rewrite bind_ret.
    unfold on_signals. rewrite Hx. cbn [mbind option_bind]. by rewrite E.
  - split.
    + exists q. split; [done|]. destruct (Signals.accepted (psignals x) sg); [|done]. intros l' Hl'.
      rewrite (queued_unique _ _ _ Hl' Hq). by destruct Hres.
    + intros r y. cbn [procs with_procs]. destruct (decide (p = r)) as [->|]; [rewrite lookup_insert_eq|rewrite lookup_insert_ne by done; apply Hs].
      intros [= <-]. cbn [psignals set_psignals]. destruct (Signals.accepted (psignals x) sg) eqn:Ea; [|subst q; by exists l].
      destruct Hres as (Hq' & _ & _ & h & tl & Eh). eexists. split; [exact Hq'|]. by rewrite Eh.
Qed.

(** A signal for a process group reaches every process of the group and no
    other: it joins the queue of each, or is dropped where it is ignored. *)
Theorem signalProcessGroup_delivers (s : st) gl kids group sg :
  forest (procs s) (global_first s) gl kids -> signals_ok s -> sg <> Signals.SIGCONT ->
  exists m', signalProcessGroup kalloc_signal group sg s = Some (tt, with_procs s m') /\ forest m' (global_first s) gl kids /\
    forall p x, procs s !! p = Some x -> exists x', m' !! p = Some x' /\
      if decide (pgid x = group) then signalled sg x x' else x' = x.
Proof.
  intros Hf Hs Hsg.
  destruct (doForAllProcess_ok (fun p _ => x ← get_proc p; when (pgid x =? group) (addSignalToProcess kalloc_signal p sg 0))
    signals_ok (fun _ x _ x' _ => if decide (pgid x = group) then signalled sg x x' else x' = x)) with (s := s) (gl := gl) (kids := kids) (b := tt)
    as (m' & [] & E & Hl & Hv); [|done|done|].
  - intros s0 p x [] H0 Hx. destruct (Z.eqb_spec (pgid x) group) as [Eg|Hg].
    + destruct (add_signal_ok s0 p x sg H0 Hx Hsg) as (x' & E & Hsig & Hok). exists x', tt.
      erewrite bind_some by (unfold get_proc; rewrite Hx; reflexivity). rewrite (proj2 (Z.eqb_eq _ _)) by done. cbn [when].
      rewrite decide_True by done. split; [done|split; [by destruct Hsig as (q & -> & _)|done]].
    + exists x, tt. erewrite bind_some by (unfold get_proc; rewrite Hx; reflexivity). rewrite (proj2 (Z.eqb_neq _ _)) by done.
      assert (Es : with_procs s0 (<[p := x]> (procs s0)) = s0) by (rewrite insert_id by done; by destruct s0).
      rewrite Es, decide_False by done. done.
  - exists m'. split; [done|]. split; [by eapply forest_links; [symmetry; exact Hl|]|].
    intros p x Hx. assert (Hp : p ∈ gl) by (apply (f_all _ _ _ _ Hf); by rewrite Hx).
    destruct (visited_in _ _ _ _ _ _ _ Hv Hp) as (y & x' & _ & _ & Hy & Hx' & HP). exists x'. split; [done|].
    rewrite Hx in Hy. by injection Hy as <-.
Qed.

End Group.

(** ** Forking a process *)

Section ForkProcess.
Context (zalloc_process : gmap Z Process -> Z).
Context (createMemorySpace : M W Z) (cloneMemorySpace : Z -> M W Z) (forkFileDescriptors : Z -> Z -> M W unit).

(** The child of [y]: everything is that of the parent, but no signal is
    pending, no time was used, and there is no task yet. *)
Definition forked (id mem : Z) (tr : ProcessTree) (y : Process) : Process :=
  mkProcess id (sid y) (pgid y) 0 0 zero_times (user y) tr
    (mkMemory mem (start_brk (memory y)) (brk (memory y))) (umask y) (cwd y)
    (Signals.mkProc ∅ (Signals.set_queue (Signals.sigs (psignals y)) 0 0) zero_frame (fun _ => 0)).

(** The numbers of the processes have all been given out, each once. *)
Record numbered (s : st) : Prop := {
  n_below : forall p x, procs s !! p = Some x -> pid x < next_pid s;
  n_unique : forall p q x y, procs s !! p = Some x -> procs s !! q = Some y -> pid x = pid y -> p = q;
}.

Lemma numbered_body (s s' : st) p x : numbered s -> procs s !! p = None -> next_pid s' = next_pid s + 1 ->
  body <$> procs s' !! p = Some (body x) -> pid x = next_pid s ->
  (forall q, q <> p -> body <$> procs s' !! q = body <$> procs s !! q) -> numbered s'.
Proof.
  intros [Hb Hu] Hp Hn Hx Hpid Hrest.
  assert (Hold : forall q y, procs s' !! q = Some y -> (q = p /\ pid y = next_pid s) \/
    (q <> p /\ exists z, procs s !! q = Some z /\ pid y = pid z /\ pid y < next_pid s)).
  { intros q y Hy. destruct (decide (q = p)) as [->|Hne]; [left|right].
    - rewrite Hy in Hx. injection Hx as E. split; [done|congruence].
    - split; [done|]. specialize (Hrest q Hne). rewrite Hy in Hrest. destruct (procs s !! q) as [z|] eqn:Ez; [|done].
      exists z. split; [done|]. injection Hrest as E. rewrite E. split; [done|by eapply Hb]. }
  split.
  - intros q y Hy. destruct (Hold q y Hy) as [[_ ->]|(_ & z & _ & _ & Hlt)]; lia.
  - intros q r y z Hy Hz E. destruct (Hold q y Hy) as [[-> E1]|(Hq & y0 & Hy0 & E1 & L1)], (Hold r z Hz) as [[-> E2]|(Hr & z0 & Hz0 & E2 & L2)];
      [done|lia|lia|]. eapply Hu; [exact Hy0|exact Hz0|congruence].
Qed.

Lemma createUserProcess_ok (s : st) gl kids par y mem w1 w2 :
  forest (procs s) (global_first s) gl kids -> next_pid s < PID_MAX -> procs s !! par = Some y ->
  procs s !! zalloc_process (procs s) = None -> zalloc_process (procs s) <> 0 ->
  cloneMemorySpace (mem_space (memory y)) (world s) = Some (mem, w1) ->
  forkFileDescriptors (zalloc_process (procs s)) par w1 = Some (tt, w2) ->
  let p := zalloc_process (procs s) in
  exists m tr, createUserProcess zalloc_process createMemorySpace cloneMemorySpace forkFileDescriptors par s =
      Some (p, mkState m (proc_tasks s) p (next_pid s + 1) (finalizers s) (sched s) w2) /\
    forest m p (p :: gl) (with_kid par p kids) /\ m !! p = Some (forked (next_pid s) mem tr y) /\ parent tr = par /\
    (forall q, q <> p -> body <$> m !! q = body <$> procs s !! q).
Proof.
  intros Hf Hpid Hy Hfresh Hp0 Hmem Hfd p.
  pose proof (f_null _ _ _ _ Hf) as H0. assert (Hpar : par <> 0) by (intros ->; congruence).
  assert (Hpp : par <> p) by (intros ->; fold p in Hfresh; congruence). fold p in Hfresh, Hp0, Hfd.
  set (x := forked (next_pid s) mem (mkTree par 0 0 0 0 0) y).
  set (s1 := mkState (<[p := x]> (procs s)) (proc_tasks s) (global_first s) (next_pid s + 1) (finalizers s) (sched s) w2).
  destruct (registerProcess_links s1 gl kids p par) as (m & E & Hf2 & Hb); try done.
  { cbn [procs s1]. by rewrite delete_insert_id. }
  { unfold view. cbn [procs s1]. by rewrite lookup_insert_eq. }
  { intros _. cbn [procs s1]. rewrite lookup_insert_ne by done. by eexists. }
  assert (Hself : exists tr, m !! p = Some (forked (next_pid s) mem tr y)).
  { specialize (Hb p). cbn [procs s1] in Hb. rewrite lookup_insert_eq in Hb. destruct (m !! p) as [z|]; [|done].
    exists (tree z). destruct z. unfold x, forked, body, set_tree in *. cbn in *. congruence. }
  destruct Hself as [tr Htr]. exists m, tr. split_and!; try done.
  - unfold createUserProcess. erewrite bind_some by (unfold whole; reflexivity). fold p.
    rewrite (proj2 (Z.eqb_neq p 0)) by done. erewrite bind_some by (unfold put_proc; reflexivity).
    erewrite bind_some.
    2: { unfold allocateNewPid, massert. erewrite bind_some by reflexivity. cbn [next_pid with_procs].
      rewrite (proj2 (Z.ltb_lt _ _) Hpid). reflexivity. }
    rewrite bind_modify_tree by (cbn [procs with_procs]; rewrite lookup_insert_eq; by eexists).
    rewrite (proj2 (Z.eqb_neq par 0)) by done. cbn [negb]. cbv zeta. rewrite bind_assoc.
    cbn [procs with_procs proc_tasks global_first next_pid finalizers sched world].
    erewrite bind_some.
    2: { unfold get_proc, tweak. cbn [procs with_procs]. rewrite lookup_alter_ne, lookup_insert_ne, Hy by (by apply not_eq_sym). reflexivity. }
    rewrite bind_assoc. erewrite bind_some by (unfold on_world; cbn [world with_procs]; rewrite Hmem; reflexivity).
    rewrite bind_assoc. erewrite bind_some.
    2: { unfold get_proc, tweak. cbn [procs with_procs]. rewrite lookup_alter_eq, lookup_insert_eq. reflexivity. }
    rewrite bind_assoc. erewrite bind_some by (unfold put_proc; reflexivity).
    erewrite bind_some by (unfold on_world; cbn [world with_procs]; rewrite Hfd; reflexivity).
    cbn [procs with_procs proc_tasks global_first next_pid finalizers sched world].
    assert (Em : forall z, <[p := z]> (tweak p (set_parent par) (<[p := zero_process]> (procs s))) = <[p := z]> (procs s)).
    { intros z. unfold tweak. apply map_eq. intros q. destruct (decide (p = q)) as [->|]; [by rewrite !lookup_insert_eq|].
      by rewrite !lookup_insert_ne, lookup_alter_ne, lookup_insert_ne by done. }
    rewrite Em. fold s1. unfold s1 in E. unfold x, forked in E. erewrite bind_some by exact E. done.
  - assert (Hin : p ∈ with_kid par p kids par) by (unfold with_kid; rewrite decide_True by done; apply list_elem_of_here).
    apply (f_parent _ _ _ _ Hf2 par p Hpar) in Hin. unfold view in Hin. rewrite Htr in Hin. by injection Hin.
  - intros q Hq. rewrite Hb. cbn [procs s1]. by rewrite lookup_insert_ne by (by apply not_eq_sym).
Qed.

(** A new task of a process. *)
Definition spawned (p priority : Z) : Schedule.Task := Schedule.mkTask 0 p priority 0 0 Schedule.ENQUABLE 0 0 0 0.

Definition with_sched (s : st) (q : Schedule.sched) : st :=
  mkState (procs s) (proc_tasks s) (global_first s) (next_pid s) (finalizers s) q (world s).

Lemma bind_on_sched {A B : Type} (c : M Schedule.sched A) (k : A -> M st B) (s : st) a q :
  c (sched s) = Some (a, q) -> (on_sched c ≫= k) s = k a (with_sched s q).
Proof. intros H. apply bind_some. unfold on_sched. by rewrite H. Qed.

Lemma sched_modify q t x f :
  Schedule.tasks q !! t = Some x -> Schedule.modify t f q = Some (tt, Schedule.with_tasks q (<[t := f x]> (Schedule.tasks q))).
Proof. intros H. unfold Schedule.modify. by rewrite (Schedule.bind_get_task _ _ _ _ H). Qed.

Lemma sched_start q t x :
  Schedule.tasks q !! t = Some x -> t <> 0 -> Schedule.state x = Schedule.UNKNOWN ->
  Schedule.moveTaskToState t Schedule.ENQUABLE q =
  Some (tt, Schedule.with_tasks q (<[t := Schedule.set_state x Schedule.ENQUABLE]> (Schedule.tasks q))).
Proof.
  intros H Ht Hst. unfold Schedule.moveTaskToState. rewrite bind_assert by (by apply negb_true_iff, Z.eqb_neq).
  rewrite (Schedule.bind_get_task _ _ _ _ H), Hst. rewrite (bool_decide_eq_false_2 (Schedule.UNKNOWN = Schedule.WAITING)) by done.
  by rewrite bind_ret, (Schedule.bind_get_task _ _ _ _ H), Hst.
Qed.

Lemma createTaskInProcess_ok (zalloc_task : gmap Z Schedule.Task -> Z) initTrapFrame (s : st) p x sp gp pc priority w' :
  let t := zalloc_task (Schedule.tasks (sched s)) in
  t <> 0 -> procs s !! p = Some x -> initTrapFrame t sp gp pc (pid x) (mem_space (memory x)) (world s) = Some (tt, w') ->
  createTaskInProcess zalloc_task initTrapFrame p sp gp pc priority s =
  Some (t, mkState (<[p := set_tasks x t]> (procs s)) (<[t := mkProcTask (tasks x) zero_times]> (proc_tasks s))
    (global_first s) (next_pid s) (finalizers s)
    (Schedule.with_tasks (sched s) (<[t := spawned p priority]> (Schedule.tasks (sched s)))) w').
Proof.
  intros t Ht Hx Hw. unfold createTaskInProcess, createTask.
  rewrite bind_assoc. erewrite bind_some by (unfold whole; reflexivity). fold t. rewrite (proj2 (Z.eqb_neq t 0)) by done. cbn [negb when].
  rewrite !bind_assoc. erewrite bind_on_sched by (unfold Schedule.put_task; reflexivity).
  erewrite bind_some by (unfold put_task; reflexivity).
  rewrite bind_ret, (proj2 (Z.eqb_neq t 0)) by done. cbn [negb when].
  unfold set_task_process. rewrite bind_assoc. erewrite bind_on_sched by (apply sched_modify; cbn; apply lookup_insert_eq).
  rewrite bind_assoc. erewrite bind_on_sched by (apply sched_modify; cbn; apply lookup_insert_eq).
  rewrite bind_assoc. erewrite bind_on_sched by (apply sched_start; [cbn; apply lookup_insert_eq|done|done]).
  rewrite bind_assoc. erewrite bind_some by (unfold get_proc; cbn; rewrite Hx; reflexivity).
  rewrite bind_assoc. erewrite bind_some by (unfold on_world; cbn; rewrite Hw; reflexivity).
  unfold addTaskToProcess, set_task_process. rewrite !bind_assoc. erewrite bind_on_sched by (apply sched_modify; cbn; apply lookup_insert_eq).
  rewrite ?bind_assoc. erewrite bind_some by (unfold get_proc; cbn; rewrite Hx; reflexivity).
  rewrite ?bind_assoc. erewrite bind_some by (unfold get_task; cbn; rewrite lookup_insert_eq; reflexivity).
  rewrite ?bind_assoc. erewrite bind_some by (unfold put_task; reflexivity).
  unfold modify. rewrite ?bind_assoc. erewrite bind_some by (unfold get_proc; cbn; rewrite Hx; reflexivity).
  unfold put_proc. cbn. unfold mret, M_ret, Schedule.with_tasks, with_procs. cbn. by rewrite !insert_insert_eq.
Qed.

(** The counter is not reset and a number is never given out a second time: the
    last number cannot be counted past. *)
Lemma numbers_run_out (s : st) : next_pid s = PID_MAX -> allocateNewPid s = None.
Proof. intros E. unfold allocateNewPid, whole, massert. rewrite (bind_some _ _ s s s) by done. by rewrite E. Qed.

End ForkProcess.

(** ** What modelling showed: processes whose children lose their parent

    The loop that gives children to another parent follows the link that it has
    just overwritten: with a child to give and one that is there already, it
    goes back and forth between the two. *)
Lemma reparent_loop_diverges p par fuel : forall (s : st) a b,
  view parent (procs s) p = Some par -> view children (procs s) par = Some b -> a <> 0 -> b <> 0 -> a <> p -> b <> p ->
  is_Some (procs s !! a) -> is_Some (procs s !! b) -> reparent_loop fuel p a s = None.
Proof.
  induction fuel as [|fuel IH]; intros s a b Hp Hc Ha Hb Hap Hbp Hsa Hsb; [done|].
  cbn [reparent_loop]. rewrite (proj2 (Z.eqb_neq a 0)) by done.
  read_proc parent par x Hx Ex; [done|]. cbv zeta. rewrite Ex, bind_modify_tree by done.
  read_proc children b y Hy Ey; [cbn [procs with_procs]; by rewrite view_same|].
  rewrite Ey, bind_modify_tree by (cbn [procs with_procs]; by rewrite tweak_some).
  rewrite bind_modify_tree.
  2: { cbn [procs with_procs]. rewrite !tweak_some. apply (view_some children). by rewrite Hc. }
  read_proc child_next b z Hz Ez.
  { cbn [procs with_procs]. rewrite view_same, view_tweak, decide_True by done. destruct Hsa as [w Hw]. unfold view, tweak.
    by rewrite lookup_alter_eq, Hw. }
  rewrite Ez. apply (IH _ b a); cbn [procs with_procs]; rewrite ?tweak_some; try done.
  - rewrite (view_same parent) by done. rewrite (view_same parent) by done. rewrite view_tweak, decide_False by (by apply not_eq_sym). done.
  - rewrite view_tweak, decide_True by done. rewrite view_tweak. assert (Hpar : is_Some (procs s !! par)) by (apply (view_some children); by rewrite Hc).
    destruct Hpar as [w Hw]. case_decide; unfold view, tweak.
    + subst. by rewrite lookup_alter_eq, Hw.
    + destruct (decide (par = a)); [done|]. by rewrite lookup_alter_ne, Hw by (by apply not_eq_sym).
Qed.

Lemma reparenting_never_ends fuel (s : st) p par a b :
  view parent (procs s) p = Some par -> par <> 0 -> view children (procs s) p = Some a -> view children (procs s) par = Some b ->
  a <> 0 -> b <> 0 -> a <> p -> b <> p -> is_Some (procs s !! a) -> is_Some (procs s !! b) ->
  unregisterProcess fuel p s = None.
Proof.
  intros Hp Hn Ha Hb Ha0 Hb0 Hap Hbp Hsa Hsb. unfold unregisterProcess.
  read_proc (fun t => (parent t, children t)) (par, a) x Hx Ex.
  { unfold view in *. destruct (procs s !! p); [|done]. cbn in *. congruence. }
  injection Ex as -> ->. rewrite (proj2 (Z.eqb_neq par 0)) by done. cbn [negb]. rewrite bind_assoc.
  unfold mbind at 1, M_bind at 1. by rewrite (reparent_loop_diverges p par fuel s a b).
Qed.

End Forest.

(** ** Witnesses and examples *)

Definition ex_process (id par kids nx pv gn gp tsk : Z) : Process :=
  mkProcess id 1 1 0 tsk zero_times (mkUser 0 0 0 0 0 0) (mkTree par kids nx pv gn gp) (mkMemory 0 0 0) 0 [47]
    (Signals.mkProc ∅ zero_signals zero_frame (fun _ => 0)).

Definition ex_sched : Schedule.sched :=
  Schedule.mkSched {[ 10 := Schedule.mkTask 0 100 0 0 0 Schedule.WAITING 0 0 0 0 ]} ∅ 10 0.

(** Process 1 with a task that waits, and its children 3, which has ended, and 2. *)
Definition ex_procs : gmap Z Process :=
  <[100 := ex_process 1 0 300 0 0 0 200 10]> (<[200 := ex_process 2 100 0 0 300 100 300 20]> {[ 300 := ex_process 3 100 0 200 0 200 0 0 ]}).

Definition ex_state : state (W := list Z) :=
  mkState ex_procs {[ 10 := mkProcTask 0 zero_times ]} 300 4 [] ex_sched [].

Definition ex_kids (p : Z) : list Z := if decide (p = 100) then [300; 200] else [].

Definition ex_write (a v : Z) : M (list Z) unit := fun w => Some (tt, v :: a :: w).
Definition ex_close (p : Z) : M (list Z) unit := fun w => Some (tt, p :: w).

Lemma ex_lookup p x : ex_procs !! p = Some x -> p = 100 \/ p = 200 \/ p = 300.
Proof.
  unfold ex_procs. intros [[<- _]|[_ [[<- _]|[_ [<- _]%lookup_singleton_Some]]%lookup_insert_Some]]%lookup_insert_Some; auto.
Qed.

Lemma ex_value p x : ex_procs !! p = Some x ->
  p = 100 /\ x = ex_process 1 0 300 0 0 0 200 10 \/ p = 200 /\ x = ex_process 2 100 0 0 300 100 300 20 \/ p = 300 /\ x = ex_process 3 100 0 200 0 200 0 0.
Proof.
  unfold ex_procs. intros [[<- <-]|[_ [[<- <-]|[_ [<- <-]%lookup_singleton_Some]]%lookup_insert_Some]]%lookup_insert_Some; auto.
Qed.

Lemma ex_forest : forest ex_procs 300 [300; 200; 100] ex_kids.
Proof.
  split.
  - repeat (split; [reflexivity|split; [lia|eexists; split; [reflexivity|]]]). reflexivity.
  - repeat (apply nodup_cons; split; [rewrite ?elem_of_cons, ?elem_of_nil; lia|]). constructor.
  - intros p. rewrite !elem_of_cons, elem_of_nil. split.
    + intros [x Hx]. apply ex_lookup in Hx. lia.
    + intros [->|[->|[->|[]]]]; by eexists.
  - intros p c Hc. unfold view in Hc. apply fmap_Some in Hc as (x & Hx & ->). pose proof (ex_lookup _ _ Hx) as [->|[->| ->]]; injection Hx as <-; cbn.
    + repeat (split; [reflexivity|split; [lia|eexists; split; [reflexivity|]]]). reflexivity.
    + reflexivity.
    + reflexivity.
  - intros p _. unfold ex_kids. case_decide; [|constructor].
    repeat (apply nodup_cons; split; [rewrite ?elem_of_cons, ?elem_of_nil; lia|]). constructor.
  - intros p q Hp. unfold ex_kids. split.
    + case_decide as E; [subst|by intros ?%not_elem_of_nil]. rewrite !elem_of_cons, elem_of_nil. by intros [->|[->|[]]].
    + intros H. unfold view in H. apply fmap_Some in H as (x & Hx & E).
      pose proof (ex_lookup _ _ Hx) as [->|[->| ->]]; injection Hx as <-; cbn in E; subst p; [done| |]; rewrite decide_True by done;
        rewrite !elem_of_cons; auto.
  - intros p q H Hp. unfold view in H. apply fmap_Some in H as (x & Hx & E).
    pose proof (ex_lookup _ _ Hx) as [->|[->| ->]]; injection Hx as <-; cbn in E; subst p; [done|by eexists..].
Qed.


Definition ex_fresh (m : gmap Z Signals.PendingSignal) : Z := 1 + foldr Z.max 0 (fst <$> map_to_list m).

Lemma ex_fresh_ok m : m !! ex_fresh m = None /\ ex_fresh m <> 0.
Proof.
  assert (Hmax : forall l x, x ∈ l -> x <= foldr Z.max 0 l).
  { induction l as [|y l IH]; intros x Hx; [by apply not_elem_of_nil in Hx|].
    apply elem_of_cons in Hx as [->|Hx]; cbn; [lia|]. specialize (IH x Hx). lia. }
  assert (Hpos : forall l, 0 <= foldr Z.max 0 l) by (induction l; cbn; lia).
  unfold ex_fresh. split; [|specialize (Hpos (fst <$> map_to_list m)); lia].
  destruct (m !! _) as [x|] eqn:E; [|done]. apply elem_of_map_to_list in E.
  apply (list_elem_of_fmap_2 fst) in E. apply Hmax in E. cbn in E. lia.
Qed.

Lemma ex_signals : signals_ok ex_state.
Proof.
  intros p x Hx. exists []. assert (psignals x = Signals.mkProc ∅ zero_signals zero_frame (fun _ => 0)) as ->.
  { pose proof (ex_lookup _ _ Hx) as [->|[->| ->]]; by injection Hx as <-. }
  split; [split; [done|constructor|done]|done].
Qed.

Lemma signalProcessGroup_delivers_witness :
  exists m', signalProcessGroup ex_fresh 1 2 ex_state = Some (tt, with_procs ex_state m') /\
    exists x', m' !! 200 = Some x' /\ signalled ex_fresh 2 (ex_process 2 100 0 0 300 100 300 20) x'.
Proof.
  destruct (signalProcessGroup_delivers ex_fresh ex_fresh_ok ex_state [300; 200; 100] ex_kids 1 2) as (m' & E & _ & H).
  - exact ex_forest.
  - exact ex_signals.
  - unfold Signals.SIGCONT. lia.
  - exists m'. split; [exact E|]. exact (H 200 (ex_process 2 100 0 0 300 100 300 20) eq_refl).
Defined.

(** A process that is forked after the wait, and before the child is freed, is
    no child of its parent any more. *)
Definition ex_clone (m : Z) : M (list Z) Z := fun w => Some (m, w).
Definition ex_fork (p q : Z) : M (list Z) unit := fun w => Some (tt, w).

Example freeing_loses_new_child :
  match (basicProcessWait ex_write 10 (-1) 0x50 0;; createUserProcess (fun _ => 400) (ex_clone 0) ex_clone ex_fork 100;;
         run_finalizer ex_close ex_close 9 0)
    (mkState (<[100 := ex_process 1 0 300 0 0 0 300 10]> {[ 300 := ex_process 3 100 0 0 0 100 0 0 ]})
      {[ 10 := mkProcTask 0 zero_times ]} 300 4 [] ex_sched []) with
  | Some (_, s) => view parent (procs s) 400 = Some 100 /\ view children (procs s) 100 = Some 0
  | None => False
  end.
Proof. vm_compute. done. Qed.

(** The children of a process that was the first child of its parent: they get
    the parent, but are not in its list. *)
Example freeing_loses_children :
  match (basicProcessWait ex_write 10 (-1) 0x50 0;; run_finalizer ex_close ex_close 9 0)
    (mkState (<[100 := ex_process 1 0 300 0 0 0 300 10]> (<[300 := ex_process 3 100 500 0 0 500 100 0]>
       {[ 500 := ex_process 5 300 0 0 0 0 300 20 ]}))
      {[ 10 := mkProcTask 0 zero_times ]} 500 4 [] ex_sched []) with
  | Some (_, s) => view parent (procs s) 500 = Some 100 /\ view children (procs s) 100 = Some 0
  | None => False
  end.
Proof. vm_compute. done. Qed.

(** Waiting for the group 7 takes children of any group, if it is that of the
    process itself, and none otherwise. *)
Example wait_for_group :
  wants (ex_process 1 0 300 0 0 0 0 10) (ex_process 3 100 0 0 0 0 0 0) (-1) = true /\
  (forall child, wants (mkProcess 1 1 7 0 10 zero_times (mkUser 0 0 0 0 0 0) (mkTree 0 0 0 0 0 0) (mkMemory 0 0 0) 0 [47]
     (Signals.mkProc ∅ zero_signals zero_frame (fun _ => 0))) child (-7) = true).
Proof. split; [reflexivity|]. intros child. reflexivity. Qed.
End Process.
