(* ===== verification/ProcSyscall.v ===== *)
(** * ProcSyscall: the system calls on processes, [kernel/src/process/syscall.c]

    Every call works on the process [me] of the task and the arguments in its
    registers, and gives the value it returns.  User memory is a parameter, as
    in [Process]; [forkSyscall] is the fork of a process with user memory. *)
From S2P Require Import Prelude Errors PageAlloc Schedule Signals Process.
Import Errors Process.

Local Open Scope c_scope.

Module ProcSyscall.

#[local] Existing Instance Schedule.TaskState_eq_dec.

(** ** Definitions *)

(** *** Users and groups

    [Uid] and [Gid] are [int]. *)

Definition set_uids (u : ProcessUser) (r s e : Z) : ProcessUser := mkUser r (rgid u) s (sgid u) e (egid u).
Definition set_gids (u : ProcessUser) (r s e : Z) : ProcessUser := mkUser (ruid u) r (suid u) s (euid u) e.

(** The return value and the new identity. *)
Definition setUid (arg0 : Z) (u : ProcessUser) : Z * ProcessUser :=
  let new_uid := s32 arg0 in
  if euid u =? 0 then (- SUCCESS, set_uids u new_uid new_uid new_uid)
  else if (ruid u =? new_uid) || (suid u =? new_uid) then (- SUCCESS, set_uids u (ruid u) (suid u) new_uid)
  else (- EPERM, u).

Definition setGid (arg0 : Z) (u : ProcessUser) : Z * ProcessUser :=
  let new_gid := s32 arg0 in
  if euid u =? 0 then (- SUCCESS, set_gids u new_gid new_gid new_gid)
  else if (rgid u =? new_gid) || (sgid u =? new_gid) then (- SUCCESS, set_gids u (rgid u) (sgid u) new_gid)
  else (- EPERM, u).

Definition setEUid (arg0 : Z) (u : ProcessUser) : Z * ProcessUser :=
  let new_uid := s32 arg0 in
  if (euid u =? 0) || (ruid u =? new_uid) || (suid u =? new_uid) then (- SUCCESS, set_uids u (ruid u) (suid u) new_uid)
  else (- EPERM, u).

Definition setEGid (arg0 : Z) (u : ProcessUser) : Z * ProcessUser :=
  let new_gid := s32 arg0 in
  if (euid u =? 0) || (rgid u =? new_gid) || (sgid u =? new_gid) then (- SUCCESS, set_gids u (rgid u) (sgid u) new_gid)
  else (- EPERM, u).

Definition setREUid (arg0 arg1 : Z) (u : ProcessUser) : Z * ProcessUser :=
  let new_ruid := s32 arg0 in
  let new_euid := s32 arg1 in
  if (euid u =? 0) ||
     ((new_ruid =? -1) && ((new_euid =? -1) || (ruid u =? new_euid) || (suid u =? new_euid)))
  then
    let u := if negb (new_euid =? -1) then set_uids u (ruid u) (suid u) new_euid else u in
    let u := if negb (new_ruid =? -1) then set_uids u new_ruid (suid u) (euid u) else u in
    let u := if negb (new_ruid =? -1) || (negb (new_euid =? -1) && negb (new_euid =? ruid u))
             then set_uids u (ruid u) (euid u) (euid u) else u in
    (- SUCCESS, u)
  else (- EPERM, u).

Definition setREGid (arg0 arg1 : Z) (u : ProcessUser) : Z * ProcessUser :=
  let new_rgid := s32 arg0 in
  let new_egid := s32 arg1 in
  if (egid u =? 0) ||
     ((new_rgid =? -1) && ((new_egid =? -1) || (rgid u =? new_egid) || (sgid u =? new_egid)))
  then
    let u := if negb (new_egid =? -1) then set_gids u (rgid u) (sgid u) new_egid else u in
    let u := if negb (new_rgid =? -1) then set_gids u new_rgid (sgid u) (egid u) else u in
    let u := if negb (new_rgid =? -1) || (negb (new_egid =? -1) && negb (new_egid =? rgid u))
             then set_gids u (rgid u) (egid u) (egid u) else u in
    (- SUCCESS, u)
  else (- EPERM, u).

Section Calls.
Context {W : Type}.
Abbreviation st := (state (W := W)).

Definition set_user (x : Process) (u : ProcessUser) : Process :=
  mkProcess (pid x) (sid x) (pgid x) (status x) (tasks x) (times x) u (tree x) (memory x) (umask x) (cwd x) (psignals x).
Definition set_groups (x : Process) (s g : Z) : Process :=
  mkProcess (pid x) s g (status x) (tasks x) (times x) (user x) (tree x) (memory x) (umask x) (cwd x) (psignals x).

(** A call on the identity of the process. *)
Definition on_user (me : Z) (f : ProcessUser -> Z * ProcessUser) : M st Z :=
  x ← get_proc me;
  put_proc me (set_user x (snd (f (user x))));;
  mret (fst (f (user x))).

Definition setUidSyscall (me arg0 : Z) : M st Z := on_user me (setUid arg0).
Definition setGidSyscall (me arg0 : Z) : M st Z := on_user me (setGid arg0).
Definition setEUidSyscall (me arg0 : Z) : M st Z := on_user me (setEUid arg0).
Definition setEGidSyscall (me arg0 : Z) : M st Z := on_user me (setEGid arg0).
Definition setREUidSyscall (me arg0 arg1 : Z) : M st Z := on_user me (setREUid arg0 arg1).
Definition setREGidSyscall (me arg0 arg1 : Z) : M st Z := on_user me (setREGid arg0 arg1).

Definition getUidSyscall (me : Z) : M st Z := x ← get_proc me; mret (ruid (user x)).
Definition getGidSyscall (me : Z) : M st Z := x ← get_proc me; mret (rgid (user x)).
Definition getEUidSyscall (me : Z) : M st Z := x ← get_proc me; mret (euid (user x)).
Definition getEGidSyscall (me : Z) : M st Z := x ← get_proc me; mret (egid (user x)).

(** *** Sessions and process groups *)

Definition getpidSyscall (me : Z) : M st Z := x ← get_proc me; mret (pid x).
Definition getppidSyscall (me : Z) : M st Z :=
  x ← get_proc me;
  if negb (parent (tree x) =? 0) then y ← get_proc (parent (tree x)); mret (pid y) else mret 0.

Definition setSidSyscall (me : Z) : M st Z :=
  x ← get_proc me;
  if pid x =? pgid x then mret (- EPERM)
  else put_proc me (set_groups x (pid x) (pid x));; mret (pid x).

Definition getSidSyscallCallback (p : Z) : M st Z := x ← get_proc p; mret (sid x).
Definition getPgidSyscallCallback (p : Z) : M st Z := x ← get_proc p; mret (pgid x).

Definition getSidSyscall (me arg0 : Z) : M st Z :=
  let pid := s32 arg0 in
  if pid =? 0 then getSidSyscallCallback me else doForProcessWithPid pid getSidSyscallCallback.

Definition getPgidSyscall (me arg0 : Z) : M st Z :=
  let pid := s32 arg0 in
  if pid =? 0 then getPgidSyscallCallback me else doForProcessWithPid pid getPgidSyscallCallback.

Definition setPgidSyscallCallback (me arg1 p : Z) : M st Z :=
  x ← get_proc p;
  if negb (p =? me) && negb (parent (tree x) =? me) then mret (- ESRCH)
  else
    let pgid0 := s32 arg1 in
    let set g new_sid : M st Z :=
      if negb (sid x =? new_sid) then mret (- EPERM)
      else put_proc p (set_groups x (sid x) g);; mret 0 in
    if pgid0 =? 0 then set (pid x) (sid x)
    else
      new_sid ← doForProcessWithPid pgid0 getSidSyscallCallback;
      if new_sid <? 0 then mret new_sid else set pgid0 new_sid.

Definition setPgidSyscall (me arg0 arg1 : Z) : M st Z :=
  let pid := s32 arg0 in
  if pid =? 0 then setPgidSyscallCallback me arg1 me
  else doForProcessWithPid pid (setPgidSyscallCallback me arg1).

(** *** Signals *)

Section Signals.
Context (kalloc_signal : gmap Z Signals.PendingSignal -> Z).

Definition addressed (me p : Process) (want : Z) : bool :=
  (want =? -1)
  || ((0 <? want) && (pid p =? want))
  || ((want =? 0) && (pgid p =? pgid me))
  || ((want <? -1) && (pgid p =? - want)).

Definition may_signal (u v : ProcessUser) : bool :=
  (euid u =? 0) || (euid v =? suid u) || (euid v =? ruid u) || (ruid v =? suid u) || (ruid v =? ruid u).

(** [KillRequest]: how many were found, and how many allowed. *)
Definition killSyscallCallback (me arg0 arg1 p : Z) (request : Z * Z) : M st (Z * Z) :=
  x ← get_proc me;
  y ← get_proc p;
  if addressed x y (s32 arg0) then
    if may_signal (user x) (user y) then
      addSignalToProcess kalloc_signal p arg1 0;;
      mret (fst request + 1, snd request + 1)
    else mret (fst request + 1, snd request)
  else mret request.

Definition killSyscall (me arg0 arg1 : Z) : M st Z :=
  if Signals.SIG_COUNT <=? arg1 then mret (- EINVAL)
  else
    '(found, allowed) ← doForAllProcess (killSyscallCallback me arg0 arg1) (0, 0);
    if found =? 0 then mret (- ESRCH)
    else if allowed =? 0 then mret (- EPERM)
    else mret (- SUCCESS).

(** The system calls run in a task: [fuel] is for freeing a process. *)
Context (closeAllProcessFiles deallocMemorySpace : Z -> M W unit).

Definition exitSyscall (fuel : nat) (me t arg0 : Z) : M st unit :=
  (if negb (me =? 0) then exitProcess me Signals.SIGNONE arg0
   else on_sched (Schedule.moveTaskToState t Schedule.TERMINATED));;
  enqueue closeAllProcessFiles deallocMemorySpace kalloc_signal true fuel t.

End Signals.

(** *** The signals of the process itself *)

(** [set_return] sets the return value in the frame of the task; [handle]
    stands for the address of [handlePauseWakeup]. *)
Context (set_return : Z -> Z -> M W unit).

Definition handlePauseWakeup (t : Z) : M st bool :=
  y ← get_sched_task t;
  x ← get_proc (Schedule.process y);
  mret (negb (Signals.signals (Signals.sigs (psignals x)) =? 0)).

Definition pauseSyscall (handle t : Z) : M st unit :=
  on_world (set_return t (- EINTR));;
  on_sched (Schedule.modify t (fun y => Schedule.set_wakeup y handle (Schedule.wakeup_udata y))).

Definition CLOCKS_PER_SEC : Z := 10000000.

(** [time] is [getTime()]; it is computed with, but [curr_time] stays 0. *)
Definition alarmSyscall (time me arg0 : Z) : M st Z :=
  on_signals me (
    s ← Signals.get;
    let curr_time := 0 in
    (if arg0 =? 0 then Signals.put (Signals.set_alarm s 0)
     else Signals.put (Signals.set_alarm s (time +% (arg0 *% CLOCKS_PER_SEC))));;
    mret curr_time).

Definition waitSyscall (kalloc_signal : gmap Z Signals.PendingSignal -> Z) (writeInt : Z -> Z -> M W unit)
    (closeAllProcessFiles deallocMemorySpace : Z -> M W unit) (fuel : nat) (handle t arg0 arg1 arg2 : Z) : M st unit :=
  executeProcessWait closeAllProcessFiles deallocMemorySpace kalloc_signal writeInt set_return fuel handle t (s32 arg0) arg1 (s32 arg2).

(** The layout of a [SignalHandler] in memory; four bytes are padding, which
    holds no value and is written as 0. *)
Definition handler_object (h : Signals.SignalHandler) : list (nat * Z) :=
  [(8%nat, Signals.handler h); (8%nat, Signals.h_mask h); (4%nat, Signals.flags h); (4%nat, 0); (8%nat, Signals.restorer h)].

Definition read_handler (a : Z) (m : bytes) : Signals.SignalHandler :=
  let v := Signals.read_object a (fst <$> handler_object (Signals.mkHandler 0 0 0 0)) m in
  Signals.mkHandler (default 0 (v !! 0%nat)) (default 0 (v !! 1%nat)) (default 0 (v !! 2%nat)) (default 0 (v !! 4%nat)).

(** The memory of the process is that of its stack in [Signals]. *)
Definition sigaction (sig new old : Z) : M Signals.proc Z := fun p =>
  if (Signals.SIG_COUNT <=? sig) || (sig =? 0) then Some (- EINVAL, p)
  else
    old_handler ← Signals.handlers (Signals.sigs p) !! Z.to_nat sig;
    let s := if negb (new =? 0) then
        Signals.set_handlers (Signals.sigs p)
          (<[Z.to_nat sig := read_handler new (Signals.stack p)]> (Signals.handlers (Signals.sigs p)))
      else Signals.sigs p in
    let m := if negb (old =? 0) then Signals.write_object old (handler_object old_handler) (Signals.stack p)
      else Signals.stack p in
    Some (- SUCCESS, Signals.mkProc (Signals.entries p) s (Signals.frame p) m).

(** [Signal] is an unsigned enumeration. *)
Definition sigactionSyscall (me arg0 arg1 arg2 : Z) : M st Z := on_signals me (sigaction (u32 arg0) arg1 arg2).

(** The frame of the task is that in [Signals]. *)
Definition sigreturnSyscall (me : Z) : M st unit :=
  on_signals me (
    f ← Signals.get_frame;
    Signals.put_frame (Signals.mkFrame (<[Signals.REG_ARGUMENT_0 := u64 (- EINVAL)]> (Signals.regs f)) (Signals.fregs f) (Signals.pc f));;
    Signals.returnFromSignal).

Fixpoint pending_loop (fuel : nat) (current set : Z) : M Signals.proc Z :=
  match fuel with
  | O => fault
  | S fuel' =>
      if current =? 0 then mret set
      else
        x ← Signals.get_entry current;
        pending_loop fuel' (Signals.next x) (Z.lor set (Signals.signal_bit (Signals.signal x)))
  end.

Definition sigpending : M Signals.proc Z :=
  s ← Signals.get;
  set ← Signals.with_fuel (fun fuel => pending_loop fuel (Signals.signals s) 0);
  mret (Z.land set (Signals.mask s)).

Definition sigpendingSyscall (me : Z) : M st Z := on_signals me sigpending.

Definition SIG_SETMASK : Z := 0.
Definition SIG_BLOCK : Z := 1.
Definition SIG_UNBLOCK : Z := 2.

Definition new_mask (how new m : Z) : Z :=
  if how =? SIG_SETMASK then new
  else if how =? SIG_BLOCK then Z.lor m new
  else if how =? SIG_UNBLOCK then Z.ldiff m new
  else m.

Definition sigprocmaskSyscall (me arg0 arg1 : Z) : M st Z :=
  on_signals me (
    s ← Signals.get;
    Signals.put (Signals.set_context s (Signals.current_signal s) (Signals.restore_frame s) (new_mask (u32 arg0) arg1 (Signals.mask s)));;
    mret (Signals.mask s)).

(** *** Forking *)

Section Fork.
Context (zalloc_process : gmap Z Process -> Z) (zalloc_task : gmap Z Schedule.Task -> Z).
Context (createMemorySpace : M W Z) (cloneMemorySpace : Z -> M W Z) (forkFileDescriptors : Z -> Z -> M W unit).
Context (initTrapFrame : Z -> Z -> Z -> Z -> Z -> Z -> M W unit).
(** The frames of the tasks are a part of [W]. *)
Context (frames : W -> gmap Z Signals.TrapFrame) (with_frames : gmap Z Signals.TrapFrame -> W -> W).

Definition get_frame (t : Z) : M W Signals.TrapFrame := fun w => f ← frames w !! t; Some (f, w).
Definition put_frame (t : Z) (f : Signals.TrapFrame) : M W unit := fun w => Some (tt, with_frames (<[t := f]> (frames w)) w).

Definition REG_GLOBAL_POINTER : nat := 2.

Definition reg (f : Signals.TrapFrame) (r : nat) : M st Z := fun s => v ← Signals.regs f !! r; Some (v, s).

(** The frame of the child: that of the parent, but the call returns 0. *)
Definition child_frame (f : Signals.TrapFrame) : Signals.TrapFrame :=
  Signals.mkFrame (<[Signals.REG_ARGUMENT_0 := 0]> (Signals.regs f)) (Signals.fregs f) (Signals.pc f).

Context (closeAllProcessFiles deallocMemorySpace : Z -> M W unit).

(** [None]: [deallocProcess] left, and the call does not return. *)
Definition forkSyscall (fuel : nat) (me t : Z) : M st (option Z) :=
  new_process ← createUserProcess zalloc_process createMemorySpace cloneMemorySpace forkFileDescriptors me;
  new_task ←
    (if new_process =? 0 then mret 0
     else
       x ← get_proc new_process;
       if mem_space (memory x) =? 0 then mret 0
       else
         f ← on_world (get_frame t);
         sp ← reg f Signals.REG_STACK_POINTER;
         gp ← reg f REG_GLOBAL_POINTER;
         y ← get_sched_task t;
         createTaskInProcess zalloc_task initTrapFrame new_process sp gp (Signals.pc f) (Schedule.priority y));
  if negb (new_task =? 0) then
    f ← on_world (get_frame t);
    on_world (put_frame new_task (child_frame f));;
    on_sched (Schedule.enqueueTask (fun _ => mret tt) new_task);;
    x ← get_proc new_process;
    mret (Some (pid x))
  else
    left ← deallocProcessIn closeAllProcessFiles deallocMemorySpace true fuel new_process;
    if left : bool then mret None else mret (Some (- ENOMEM)).

End Fork.
End Calls.

(** ** Identities *)

Inductive id_call : Type :=
| SetUid (a : Z) | SetGid (a : Z) | SetEUid (a : Z) | SetEGid (a : Z) | SetREUid (a b : Z) | SetREGid (a b : Z).

Section Identity.
Context {W : Type}.
Abbreviation st := (state (W := W)).

Definition do_call (me : Z) (c : id_call) : M st Z :=
  match c with
  | SetUid a => setUidSyscall me a
  | SetGid a => setGidSyscall me a
  | SetEUid a => setEUidSyscall me a
  | SetEGid a => setEGidSyscall me a
  | SetREUid a b => setREUidSyscall me a b
  | SetREGid a b => setREGidSyscall me a b
  end.

(** Any calls by any processes. *)
Fixpoint do_calls (l : list (Z * id_call)) : M st unit :=
  match l with
  | [] => mret tt
  | (me, c) :: l' => do_call me c;; do_calls l'
  end.

Definition uids (u : ProcessUser) : list Z := [ruid u; suid u; euid u].
Definition gids (u : ProcessUser) : list Z := [rgid u; sgid u; egid u].

(** Neither the user nor the group 0 in any role. *)
Definition unprivileged (u : ProcessUser) : Prop := (0 ∉ uids u) /\ (0 ∉ gids u).

(** No user and no group that was not there before. *)
Definition confined (u u' : ProcessUser) : Prop := uids u' ⊆ uids u /\ gids u' ⊆ gids u.

Definition call_user (c : id_call) : ProcessUser -> Z * ProcessUser :=
  match c with
  | SetUid a => setUid a | SetGid a => setGid a | SetEUid a => setEUid a | SetEGid a => setEGid a
  | SetREUid a b => setREUid a b | SetREGid a b => setREGid a b
  end.

Lemma do_call_user me c : do_call me c = on_user me (call_user c).
Proof. by destruct c. Qed.

Lemma confined_unprivileged u u' : confined u u' -> unprivileged u -> unprivileged u'.
Proof. intros [H1 H2] [H3 H4]. split; intros H; [by apply H3, H1|by apply H4, H2]. Qed.

(** Splits the conditions of a call. *)
Ltac split_call :=
  repeat match goal with
  | |- context [?a =? ?b] => destruct (Z.eqb_spec a b); cbn [andb orb negb fst snd]; try subst; try congruence
  end.

Lemma call_confined c u : unprivileged u -> confined u (snd (call_user c u)).
Proof.
  destruct u as [ru rg su sg eu eg]. intros [H1 H2]. unfold uids, gids in *. cbn in H1, H2.
  rewrite !not_elem_of_cons in H1, H2. destruct H1 as (? & ? & ? & _), H2 as (? & ? & ? & _).
  unfold confined, uids, gids.
  destruct c; cbn [call_user]; unfold setUid, setGid, setEUid, setEGid, setREUid, setREGid, set_uids, set_gids;
    cbn [ruid rgid suid sgid euid egid]; split_call; cbn; split; intros z; rewrite !elem_of_cons; tauto.
Qed.

Lemma set_user_twice x u v : set_user (set_user x u) v = set_user x v.
Proof. done. Qed.

Lemma do_call_run me c (s : st) x :
  procs s !! me = Some x ->
  do_call me c s = Some (fst (call_user c (user x)), with_procs s (<[me := set_user x (snd (call_user c (user x)))]> (procs s))).
Proof.
  intros Hx. rewrite do_call_user. unfold on_user. erewrite bind_some by (unfold get_proc; rewrite Hx; reflexivity). done.
Qed.

(** C9: Whatever calls processes make on their identities, in any order: the calls
    return, a process in which neither the user nor the group 0 has a role gets
    no user and no group it did not have, and nothing else of a process
    changes. *)
Theorem identities_confined (l : list (Z * id_call)) (s : st) :
  Forall (fun c => is_Some (procs s !! fst c)) l ->
  exists m, do_calls l s = Some (tt, with_procs s m) /\
    forall p, match procs s !! p with
      | Some x => exists u, m !! p = Some (set_user x u) /\ (unprivileged (user x) -> confined (user x) u)
      | None => m !! p = None
      end.
Proof.
  revert s. induction l as [|[me c] l IH]; intros s Hl.
  - exists (procs s). split; [by destruct s|]. intros p. destruct (procs s !! p) as [x|]; [|done].
    exists (user x). split; [by destruct x|]. intros _. by split.
  - apply Forall_cons_iff in Hl as [[x Hx] Hl]. cbn [fst] in Hx. cbn [do_calls].
    rewrite (bind_some _ _ _ _ _ (do_call_run me c s x Hx)).
    set (s1 := with_procs s _). destruct (IH s1) as (m & E & Hm).
    { revert Hl. apply Forall_impl. intros [q d] Hq. cbn in *. by apply lookup_insert_is_Some'; right. }
    exists m. split; [exact E|]. intros p. specialize (Hm p). cbn [procs with_procs s1] in Hm.
    destruct (decide (me = p)) as [->|Hne]; [|by rewrite lookup_insert_ne in Hm].
    rewrite lookup_insert_eq in Hm. rewrite Hx. destruct Hm as (u & -> & Hu). exists u.
    split; [by rewrite set_user_twice|]. intros Hun. pose proof (call_confined c _ Hun) as Hc.
    destruct (Hu (confined_unprivileged _ _ Hc Hun)) as [H1 H2]. destruct Hc as [H3 H4]. split; by etransitivity.
Qed.

End Identity.

(** ** Groups and sessions *)

Section Groups.
Context {W : Type}.
Abbreviation st := (state (W := W)).

(** The first process of the list that has the number [want]. *)
Fixpoint first_pid (m : gmap Z Process) (want : Z) (l : list Z) : option Z :=
  match l with
  | [] => None
  | p :: l' => x ← m !! p; if pid x =? want then Some p else first_pid m want l'
  end.

Lemma first_pid_some m want l p : first_pid m want l = Some p -> exists x, m !! p = Some x /\ pid x = want.
Proof.
  induction l as [|q l IH]; [done|]. cbn. destruct (m !! q) as [x|] eqn:E; [|done]. cbn.
  destruct (Z.eqb_spec (pid x) want); [|done]. intros [= <-]. by exists x.
Qed.

Lemma first_pid_none m want l p x : first_pid m want l = None -> Forall (fun q => is_Some (m !! q)) l ->
  p ∈ l -> m !! p = Some x -> pid x <> want.
Proof.
  intros H Hl Hp Hx. induction Hl as [|q l [y Hy] Hl IH]; [by apply not_elem_of_nil in Hp|]. cbn in H. rewrite Hy in H. cbn in H.
  destruct (Z.eqb_spec (pid y) want); [done|]. apply elem_of_cons in Hp as [->|Hp]; [congruence|by apply IH].
Qed.

Lemma find_loop_ok want callback (s : st) l : forall fuel prv cur,
  dll (view globals (procs s)) prv cur l -> (length l < fuel)%nat ->
  find_loop fuel want callback cur s =
  match first_pid (procs s) want l with Some p => callback p s | None => Some (- ESRCH, s) end.
Proof.
  induction l as [|p l IH]; intros [|fuel] prv cur Hd Hf; cbn [length] in Hf; try lia.
  - cbn in Hd. by subst cur.
  - destruct Hd as (-> & Hp & n & Hn & Hd). cbn [find_loop first_pid]. rewrite (proj2 (Z.eqb_neq p 0)) by done.
    unfold view in Hn. destruct (procs s !! p) as [x|] eqn:Hx; [|done]. cbn in Hn. injection Hn as _ En.
    erewrite bind_some by (unfold get_proc; rewrite Hx; reflexivity). cbn [mbind option_bind].
    destruct (pid x =? want); [done|]. rewrite En. eapply IH; [exact Hd|lia].
Qed.

Lemma forest_fuel m gf gl kids : forest m gf gl kids -> (length gl < S (size m))%nat.
Proof.
  intros Hf. rewrite <- (size_list_to_set (C := gset Z)), <- size_dom by apply (f_nodup _ _ _ _ Hf).
  apply Nat.lt_succ_r, subseteq_size. intros q Hq%elem_of_list_to_set. by apply elem_of_dom, (f_all _ _ _ _ Hf).
Qed.

Lemma doForProcessWithPid_ok want callback (s : st) gl kids :
  forest (procs s) (global_first s) gl kids ->
  doForProcessWithPid want callback s =
  match first_pid (procs s) want gl with Some p => callback p s | None => Some (- ESRCH, s) end.
Proof.
  intros Hf. unfold doForProcessWithPid. erewrite bind_some by (unfold whole; reflexivity).
  eapply find_loop_ok; [apply (f_global _ _ _ _ Hf)|by eapply forest_fuel].
Qed.

(** The outcome of [setPgidSyscallCallback]. *)
Definition regrouped (s : st) (me arg0 arg1 r : Z) (s' : st) : Prop :=
  if r =? 0 then exists p x g,
    s' = with_procs s (<[p := set_groups x (sid x) g]> (procs s)) /\
    procs s !! p = Some x /\ (p = me \/ parent (tree x) = me) /\ (p = me \/ pid x = s32 arg0) /\
    (g = pid x \/ g = s32 arg1 /\ exists q y, procs s !! q = Some y /\ pid y = g /\ sid y = sid x)
  else s' = s.

Lemma setPgidSyscallCallback_ok (s : st) gl kids me arg0 arg1 p x :
  forest (procs s) (global_first s) gl kids -> (forall p x, procs s !! p = Some x -> 0 <= sid x) ->
  procs s !! p = Some x -> p = me \/ pid x = s32 arg0 ->
  exists r s', setPgidSyscallCallback me arg1 p s = Some (r, s') /\ regrouped s me arg0 arg1 r s'.
Proof.
  intros Hf Hsid Hx Hp. unfold setPgidSyscallCallback. erewrite bind_some by (unfold get_proc; rewrite Hx; reflexivity).
  destruct (negb (p =? me) && negb (parent (tree x) =? me)) eqn:Erel; [by eexists _, _|].
  assert (Hrel : p = me \/ parent (tree x) = me) by lia. clear Erel. cbv zeta.
  destruct (Z.eqb_spec (s32 arg1) 0) as [E0|E0].
  - rewrite Z.eqb_refl. cbn [negb]. eexists _, _. split; [reflexivity|]. exists p, x, (pid x). auto 6.
  - pose proof (doForProcessWithPid_ok (s32 arg1) getSidSyscallCallback s gl kids Hf) as E.
    destruct (first_pid (procs s) (s32 arg1) gl) as [q|] eqn:Eq; [|rewrite (bind_some _ _ _ _ _ E); by eexists _, _].
    apply first_pid_some in Eq as (y & Hy & Epid).
    assert (E' : getSidSyscallCallback q s = Some (sid y, s)) by (unfold getSidSyscallCallback; by erewrite bind_some by (unfold get_proc; rewrite Hy; reflexivity)).
    rewrite E' in E. rewrite (bind_some _ _ _ _ _ E). pose proof (Hsid q y Hy). rewrite (proj2 (Z.ltb_ge (sid y) 0)) by done.
    destruct (Z.eqb_spec (sid x) (sid y)) as [Es|Es]; cbn [negb]; [|by eexists _, _].
    eexists _, _. split; [reflexivity|]. exists p, x, (s32 arg1). split_and!; try done. right. split; [done|]. by exists q, y.
Qed.

(** [setpgid] moves the process itself or a child, and only to its own group or
    to the number of a process of its session; any other call is refused and
    changes nothing. *)
Theorem setPgid_same_session (s : st) gl kids me arg0 arg1 :
  forest (procs s) (global_first s) gl kids -> is_Some (procs s !! me) ->
  (forall p x, procs s !! p = Some x -> 0 <= sid x) ->
  exists r s', setPgidSyscall me arg0 arg1 s = Some (r, s') /\ regrouped s me arg0 arg1 r s'.
Proof.
  intros Hf [xm Hme] Hsid. unfold setPgidSyscall. cbv zeta.
  destruct (s32 arg0 =? 0); [by eapply setPgidSyscallCallback_ok; [..|left]|].
  rewrite (doForProcessWithPid_ok _ _ s gl kids Hf). destruct (first_pid (procs s) (s32 arg0) gl) as [p|] eqn:Ep; [|by eexists _, _].
  apply first_pid_some in Ep as (x & Hx & Epid). by eapply setPgidSyscallCallback_ok; [..|right].
Qed.

End Groups.

(** ** Sending signals *)

Section Kill.
Context {W : Type}.
Abbreviation st := (state (W := W)).
Context (kalloc_signal : gmap Z Signals.PendingSignal -> Z).
Context (kalloc_fresh : forall m, m !! kalloc_signal m = None /\ kalloc_signal m <> 0).

(** The sender keeps its identity and group while signals are added. *)
Definition sender (me : Z) (x : Process) (s : st) : Prop :=
  signals_ok s /\ exists y, procs s !! me = Some y /\ user y = user x /\ pgid y = pgid x.

Definition killed (x : Process) (arg0 sg : Z) (y : Process) (r : Z * Z) (y' : Process) (r' : Z * Z) : Prop :=
  if addressed x y (s32 arg0) then
    if may_signal (user x) (user y) then signalled kalloc_signal sg y y' /\ r' = (fst r + 1, snd r + 1)
    else y' = y /\ r' = (fst r + 1, snd r)
  else y' = y /\ r' = r.

Lemma addressed_group x x' y want : pgid x' = pgid x -> addressed x' y want = addressed x y want.
Proof. intros H. unfold addressed. by rewrite H. Qed.

Lemma signalled_keeps sg y y' : signalled kalloc_signal sg y y' -> tree y' = tree y /\ user y' = user y /\ pgid y' = pgid y.
Proof. by intros (q & -> & _). Qed.

Lemma killSyscallCallback_ok me arg0 sg x (s : st) p y r :
  sg <> Signals.SIGCONT -> sender me x s -> procs s !! p = Some y ->
  exists y' r', killSyscallCallback kalloc_signal me arg0 sg p r s = Some (r', with_procs s (<[p := y']> (procs s))) /\
    tree y' = tree y /\ killed x arg0 sg y r y' r' /\ sender me x (with_procs s (<[p := y']> (procs s))).
Proof.
  intros Hsg (Hok & xm & Hme & Hu & Hg) Hy. unfold killSyscallCallback, killed.
  erewrite bind_some by (unfold get_proc; rewrite Hme; reflexivity).
  erewrite bind_some by (unfold get_proc; rewrite Hy; reflexivity).
  rewrite (addressed_group x xm) by done. rewrite Hu.
  assert (Hsame : with_procs s (<[p := y]> (procs s)) = s) by (rewrite insert_id by done; by destruct s).
  destruct (addressed x y (s32 arg0)); [destruct (may_signal (user x) (user y))|].
  - destruct (add_signal_ok kalloc_signal kalloc_fresh s p y sg Hok Hy Hsg) as (y' & E & Hs & Hok').
    exists y', (fst r + 1, snd r + 1). rewrite (bind_some _ _ _ _ _ E).
    destruct (signalled_keeps _ _ _ Hs) as (Ht & Hu' & Hg'). split_and!; try done.
    split; [done|]. cbn [procs with_procs]. destruct (decide (p = me)) as [->|Hne].
    + rewrite lookup_insert_eq. exists y'. rewrite Hme in Hy. injection Hy as ->. split; [done|]. by rewrite Hu', Hg'.
    + rewrite lookup_insert_ne by done. by exists xm.
  - exists y, (fst r + 1, snd r). rewrite Hsame. split_and!; try done. split; [done|by exists xm].
  - exists y, r. rewrite Hsame. split_and!; try done. split; [done|by exists xm].
Qed.

(** What is counted, over the processes one after the other. *)
Lemma killed_count x arg0 sg m m' l r r' :
  visited (fun _ => killed x arg0 sg) m m' l r r' ->
  fst r' = fst r + Z.of_nat (length (List.filter (fun p => match m !! p with Some y => addressed x y (s32 arg0) | None => false end) l)) /\
  snd r' = snd r + Z.of_nat (length (List.filter (fun p => match m !! p with
    Some y => addressed x y (s32 arg0) && may_signal (user x) (user y) | None => false end) l)).
Proof.
  induction 1 as [|p l b b1 b2 y y' Hy Hy' HP H [IH1 IH2]]; [cbn; lia|]. cbn [List.filter]. rewrite Hy. unfold killed in HP.
  destruct (addressed x y (s32 arg0)); [destruct (may_signal (user x) (user y))|]; destruct HP as [_ ->]; cbn [andb length fst snd] in *; lia.
Qed.

Lemma filter_exists (f : Z -> bool) l : (0 <? Z.of_nat (length (List.filter f l))) = existsb f l.
Proof.
  induction l as [|x l IH]; [done|]. cbn [List.filter existsb]. destruct (f x); cbn [orb length]; [|exact IH]. apply Z.ltb_lt. lia.
Qed.

Lemma existsb_same {A : Type} (f g : A -> bool) l : (forall x, f x = g x) -> existsb f l = existsb g l.
Proof. intros H. induction l as [|x l IH]; [done|]. cbn [existsb]. by rewrite H, IH. Qed.

(** Whom a number means: one process, all, the caller's group, or a group. *)
Inductive target (caller p : Process) : Z -> Prop :=
  | target_one : 0 < pid p -> target caller p (pid p)
  | target_all : target caller p (-1)
  | target_own_group : pgid p = pgid caller -> target caller p 0
  | target_group : 1 < pgid p -> target caller p (- pgid p).

(** The super user may signal everyone, others those one of whose current users
    (effective, real) is one of their own real or saved ones. *)
Definition permitted (caller p : ProcessUser) : Prop :=
  euid caller = 0 \/ exists u, u ∈ [euid p; ruid p] /\ u ∈ [suid caller; ruid caller].

Lemma addressed_target x y want : addressed x y want = true <-> target x y want.
Proof.
  unfold addressed. split.
  - intros H. destruct (Z.eqb_spec want (-1)) as [E|H1]; [subst want; constructor|].
    destruct (Z.ltb_spec 0 want) as [H2|H2].
    { destruct (Z.eqb_spec (pid y) want) as [E|H3]; [rewrite <- E in *; by constructor|]. exfalso.
      rewrite (proj2 (Z.eqb_neq want 0)), (proj2 (Z.ltb_ge want (-1))) in H by lia. done. }
    destruct (Z.eqb_spec want 0) as [E|H3].
    { subst want. constructor. cbn in H. rewrite orb_false_r in H. by apply Z.eqb_eq. }
    cbn [orb andb] in H. apply andb_prop in H as [H4 H5]. apply Z.ltb_lt in H4. apply Z.eqb_eq in H5.
    replace want with (- pgid y) by lia. constructor. lia.
  - intros [H| |H|H].
    + by rewrite (proj2 (Z.ltb_lt 0 (pid y)) H), Z.eqb_refl, orb_true_r.
    + done.
    + by rewrite (proj2 (Z.eqb_eq _ _) H), !orb_true_r.
    + rewrite Z.opp_involutive, Z.eqb_refl, (proj2 (Z.ltb_lt (- pgid y) (-1))) by lia. by rewrite orb_true_r.
Qed.

Lemma may_signal_permitted u v : may_signal u v = true <-> permitted u v.
Proof.
  unfold may_signal, permitted. rewrite !orb_true_iff, !Z.eqb_eq. split.
  - intros [[[[H|H]|H]|H]|H]; [by left|right..].
    1: exists (suid u). 2: exists (ruid u). 3: exists (suid u). 4: exists (ruid u). all: rewrite H; split; set_solver.
  - intros [H|(i & Hi & Hj)]; [tauto|]. rewrite !elem_of_cons, elem_of_nil in Hi, Hj. intuition congruence.
Qed.

(** The comparison has the users of the wrong side: a process that has given up
    the super user may still signal the super user's processes, as long as the
    saved user is the super user.  (It should be the real or the effective user
    of the caller, and the real or the saved user of the other process.) *)
Example saved_user_signals_root : may_signal (mkUser 1000 0 0 0 1000 0) (mkUser 0 0 0 0 0 0) = true.
Proof. reflexivity. Qed.

Lemma targets_exist (s : st) gl kids x want (Q : Process -> bool) :
  forest (procs s) (global_first s) gl kids ->
  existsb (fun p => match procs s !! p with Some y => addressed x y want && Q y | None => false end) gl = true <->
  exists p y, procs s !! p = Some y /\ target x y want /\ Q y = true.
Proof.
  intros Hf. rewrite existsb_exists. split.
  - intros (p & _ & H). destruct (procs s !! p) as [y|] eqn:Hy; [|done]. apply andb_prop in H as [H1 H2].
    exists p, y. split; [done|]. by rewrite <- addressed_target.
  - intros (p & y & Hy & Ht & Hq). exists p. split.
    + apply list_elem_of_In, (f_all _ _ _ _ Hf). by rewrite Hy.
    + by rewrite Hy, Hq, (proj2 (addressed_target x y want) Ht).
Qed.

(** The result of [kill]: was anyone meant, and could one of them be signalled? *)
Inductive kill_result (m : gmap Z Process) (x : Process) (want : Z) : Z -> Prop :=
  | kill_success p y : m !! p = Some y -> target x y want -> permitted (user x) (user y) -> kill_result m x want (- SUCCESS)
  | kill_eperm p y : m !! p = Some y -> target x y want ->
      (forall q z, m !! q = Some z -> target x z want -> ~ permitted (user x) (user z)) -> kill_result m x want (- EPERM)
  | kill_esrch : (forall q z, m !! q = Some z -> ~ target x z want) -> kill_result m x want (- ESRCH).

Lemma kill_result_ok (s : st) gl kids x want :
  forest (procs s) (global_first s) gl kids ->
  kill_result (procs s) x want
    (if existsb (fun p => match procs s !! p with Some y => addressed x y want && may_signal (user x) (user y) | None => false end) gl
     then - SUCCESS
     else if existsb (fun p => match procs s !! p with Some y => addressed x y want && true | None => false end) gl then - EPERM
     else - ESRCH).
Proof.
  intros Hf.
  destruct (existsb _ gl) eqn:E1.
  { apply (targets_exist s gl kids x want (fun y => may_signal (user x) (user y)) Hf) in E1 as (p & y & Hy & Ht & Hq).
    eapply kill_success; [done..|]. by apply may_signal_permitted. }
  apply not_true_iff_false in E1. rewrite (targets_exist s gl kids x want (fun y => may_signal (user x) (user y)) Hf) in E1.
  destruct (existsb _ gl) eqn:E2.
  { apply (targets_exist s gl kids x want (fun _ => true) Hf) in E2 as (p & y & Hy & Ht & _).
    eapply kill_eperm; [done..|]. intros q z Hz Hzt Hp. apply E1. exists q, z. by rewrite may_signal_permitted. }
  apply not_true_iff_false in E2. rewrite (targets_exist s gl kids x want (fun _ => true) Hf) in E2.
  apply kill_esrch. intros q z Hz Hzt. apply E2. by exists q, z.
Qed.

(** C10: [kill], with a signal other than SIGCONT, sends the signal to exactly
    the processes that its number means and that the caller may signal; all
    others stay as they are.  Its result says whether nobody was meant (ESRCH),
    or nobody of those may be signalled (EPERM). *)
Theorem killSyscall_delivers (s : st) gl kids me x arg0 sg :
  forest (procs s) (global_first s) gl kids -> signals_ok s -> procs s !! me = Some x ->
  0 <= sg < Signals.SIG_COUNT -> sg <> Signals.SIGCONT ->
  exists r m', killSyscall kalloc_signal me arg0 sg s = Some (r, with_procs s m') /\
    kill_result (procs s) x (s32 arg0) r /\ forest m' (global_first s) gl kids /\
    forall p y, procs s !! p = Some y -> exists y', m' !! p = Some y' /\
      (target x y (s32 arg0) -> permitted (user x) (user y) -> signalled kalloc_signal sg y y') /\
      (~ (target x y (s32 arg0) /\ permitted (user x) (user y)) -> y' = y).
Proof.
  intros Hf Hok Hme Hsg Hcont. unfold killSyscall. rewrite (proj2 (Z.leb_gt _ _)) by lia.
  destruct (doForAllProcess_ok (killSyscallCallback kalloc_signal me arg0 sg) (sender me x) (fun _ => killed x arg0 sg)) with
    (s := s) (gl := gl) (kids := kids) (b := (0, 0)) as (m' & [found allowed] & E & Hl & Hv); [|done|by split; [|exists x]|].
  { intros s0 p y r H0 Hy. by apply killSyscallCallback_ok. }
  eexists _, m'. split; [|split; [by eapply (kill_result_ok s gl kids)|split; [by eapply forest_links; [symmetry; exact Hl|]|]]].
  - rewrite (bind_some _ _ _ _ _ E). apply killed_count in Hv. cbn [fst snd] in Hv. destruct Hv as [E1 E2].
    rewrite (existsb_same (fun p => match procs s !! p with Some y => addressed x y (s32 arg0) && true | None => false end)
      (fun p => match procs s !! p with Some y => addressed x y (s32 arg0) | None => false end))
      by (intros p; destruct (procs s !! p); [by rewrite andb_true_r|done]).
    rewrite <- !filter_exists. rewrite Z.add_0_l in E1, E2. rewrite <- E1, <- E2.
    assert (Hle : 0 <= allowed <= found).
    { rewrite E1, E2. clear. induction gl as [|p l IH]; cbn [List.filter]; [cbn; lia|]. destruct (procs s !! p) as [y|]; [|done].
      destruct (addressed x y (s32 arg0)), (may_signal (user x) (user y)); cbn [andb length]; lia. }
    destruct (Z.eqb_spec found 0), (Z.eqb_spec allowed 0), (Z.ltb_spec 0 found), (Z.ltb_spec 0 allowed); try lia; done.
  - intros p y Hy. assert (Hp : p ∈ gl) by (apply (f_all _ _ _ _ Hf); by rewrite Hy).
    destruct (visited_in _ _ _ _ _ _ _ Hv Hp) as (y0 & y' & r & r' & Hy0 & Hy' & HP). rewrite Hy in Hy0. injection Hy0 as <-.
    exists y'. split; [done|]. unfold killed in HP. rewrite <- addressed_target, <- may_signal_permitted.
    destruct (addressed x y (s32 arg0)); [destruct (may_signal (user x) (user y))|]; destruct HP as [HP _];
      (split; [intros H1 H2; first [exact HP|discriminate]|intros H; first [exact HP|exfalso; by apply H]]).
Qed.

End Kill.

(** ** Forking *)

Section Forking.
Context {W : Type}.
Abbreviation st := (state (W := W)).
Context (zalloc_process : gmap Z Process -> Z) (zalloc_task : gmap Z Schedule.Task -> Z).
Context (createMemorySpace : M W Z) (cloneMemorySpace : Z -> M W Z) (forkFileDescriptors : Z -> Z -> M W unit).
Context (initTrapFrame : Z -> Z -> Z -> Z -> Z -> Z -> M W unit).
Context (frames : W -> gmap Z Signals.TrapFrame) (with_frames : gmap Z Signals.TrapFrame -> W -> W).
Context (frames_with : forall m w, frames (with_frames m w) = m).
Context (closeAllProcessFiles deallocMemorySpace : Z -> M W unit).

(** C7: [fork], with memory for everything and a number left to give out (the
    counter is an [int] that starts at 1 and is never reset): a child with the next number that is a
    copy of its parent, with one task that continues where the parent does, gets
    0 from the call, has the priority of the parent and is in the ready queue.
    The processes stay a forest in which numbers are unique. *)
Theorem forkSyscall_copies (s : st) gl kids me t x y h l mem f sp gp w1 w2 w3 fuel :
  let p := zalloc_process (procs s) in
  let t' := zalloc_task (Schedule.tasks (sched s)) in
  forest (procs s) (global_first s) gl kids -> numbered s -> next_pid s < PID_MAX -> procs s !! me = Some x ->
  procs s !! p = None -> p <> 0 -> Schedule.tasks (sched s) !! t' = None -> t' <> 0 ->
  cloneMemorySpace (mem_space (memory x)) (world s) = Some (mem, w1) -> mem <> 0 ->
  forkFileDescriptors p me w1 = Some (tt, w2) -> frames w2 !! t = Some f ->
  Signals.regs f !! Signals.REG_STACK_POINTER = Some sp -> Signals.regs f !! REG_GLOBAL_POINTER = Some gp ->
  initTrapFrame t' sp gp (Signals.pc f) (next_pid s) mem w2 = Some (tt, w3) -> frames w3 !! t = Some f ->
  Schedule.ready (sched s) h l -> Schedule.tasks (sched s) !! t = Some y -> 0 <= Schedule.priority y <= PageAlloc.LOWEST_PRIORITY ->
  Schedule.current_hart (sched s) = h -> h <> 0 -> (forall z, Schedule.harts (sched s) !! h = Some z -> Schedule.idle_task z <> t') ->
  exists s', forkSyscall zalloc_process zalloc_task createMemorySpace cloneMemorySpace forkFileDescriptors initTrapFrame
      frames with_frames closeAllProcessFiles deallocMemorySpace fuel me t s = Some (Some (next_pid s), s') /\
    forest (procs s') (global_first s') (p :: gl) (with_kid me p kids) /\ numbered s' /\
    (exists tr, procs s' !! p = Some (set_tasks (forked (next_pid s) mem tr x) t') /\ parent tr = me) /\
    (forall q, q <> p -> body <$> procs s' !! q = body <$> procs s !! q) /\
    proc_tasks s' !! t' = Some (mkProcTask 0 zero_times) /\ frames (world s') !! t' = Some (child_frame f) /\
    Schedule.ready (sched s') h (Schedule.enqueue t' (Schedule.priority y) l) /\
    exists T', Schedule.tasks (sched s') !! t' = Some T' /\ Schedule.process T' = p /\ Schedule.state T' = Schedule.READY.
Proof.
  intros p t' Hf Hnum Hpid Hx Hp Hp0 Ht' Ht0 Hmem Hmem0 Hfd Hfr Hsp Hgp Hinit Hfr3 Hready Hy Hprio Hh Hh0 Hidle.
  destruct (createUserProcess_ok zalloc_process createMemorySpace cloneMemorySpace forkFileDescriptors s gl kids me x mem w1 w2)
    as (m & tr & E & Hf' & Hchild & Hpar & Hrest); try done. fold p in E, Hf', Hchild, Hrest.
  set (s1 := mkState m _ _ _ _ _ _) in E.
  pose proof (createTaskInProcess_ok zalloc_task initTrapFrame s1 p (forked (next_pid s) mem tr x) sp gp (Signals.pc f) (Schedule.priority y) w3 Ht0 Hchild Hinit) as E2.
  cbn [sched s1] in E2. fold t' in E2. set (s2 := mkState _ _ _ _ _ _ _) in E2.
  assert (Hnew : t' ∉ fst <$> l) by (intros Hin; destruct (Schedule.ready_task _ _ _ _ Hready Hin); congruence).
  destruct (Schedule.enqueueTask_ok (fun _ => mret tt) (sched s2) h l t' (spawned p (Schedule.priority y))) as (q & T' & E3 & Hr' & HT' & Hst & Hpr & _); try done.
  { destruct Hready as (z & Hz & Hr). exists z. split; [done|]. by apply Schedule.represents_frame. }
  { cbn. apply lookup_insert_eq. }
  assert (Ht : t <> t') by (intros ->; congruence).
  set (w4 := with_frames (<[t' := child_frame f]> (frames w3)) w3).
  set (s3 := mkState (procs s2) (proc_tasks s2) (global_first s2) (next_pid s2) (finalizers s2) q w4).
  exists s3. split; [|split; [|split; [|split; [|split; [|split; [|split; [|split]]]]]]].
  - unfold forkSyscall. rewrite (bind_some _ _ _ _ _ E), (proj2 (Z.eqb_neq p 0)) by done. rewrite bind_assoc.
    erewrite bind_some by (unfold get_proc; cbn [procs s1]; rewrite Hchild; reflexivity).
    cbn [memory forked mem_space]. rewrite (proj2 (Z.eqb_neq mem 0)) by done. rewrite bind_assoc.
    erewrite bind_some by (unfold on_world, get_frame; cbn [world s1]; rewrite Hfr; reflexivity). cbn [s1 procs proc_tasks global_first next_pid finalizers sched]. fold s1.
    rewrite bind_assoc. erewrite bind_some by (unfold reg; rewrite Hsp; reflexivity).
    rewrite bind_assoc. erewrite bind_some by (unfold reg; rewrite Hgp; reflexivity).
    rewrite bind_assoc. erewrite bind_some by (unfold get_sched_task, on_sched, Schedule.get_task; cbn [sched s1]; rewrite Hy; reflexivity). fold s1.
    rewrite (bind_some _ _ _ _ _ E2), (proj2 (Z.eqb_neq t' 0)) by done. cbn [negb].
    erewrite bind_some by (unfold on_world, get_frame; cbn [world s2]; rewrite Hfr3; reflexivity).
    erewrite bind_some by (unfold on_world, put_frame; reflexivity).
    erewrite bind_on_sched by exact E3. unfold get_proc. cbn [procs with_sched s2]. unfold mbind, M_bind, option_bind. cbn.
    rewrite lookup_insert_eq. done.
  - cbn. eapply forest_links; [symmetry; eapply insert_links; [exact Hchild|done]|exact Hf'].
  - apply (numbered_body s s3 p (set_tasks (forked (next_pid s) mem tr x) t')); try done.
    + cbn. rewrite lookup_insert_eq. reflexivity.
    + intros r Hr. cbn. rewrite lookup_insert_ne by (by apply not_eq_sym). by apply Hrest.
  - exists tr. cbn. by rewrite lookup_insert_eq.
  - intros r Hr. cbn. rewrite lookup_insert_ne by (by apply not_eq_sym). by apply Hrest.
  - cbn. by rewrite lookup_insert_eq.
  - cbn. unfold w4. by rewrite frames_with, lookup_insert_eq.
  - cbn. assert (Ea : Z.min (Schedule.aged (spawned p (Schedule.priority y))) PageAlloc.LOWEST_PRIORITY = Schedule.priority y); [|by rewrite <- Ea].
    change (Schedule.aged _) with (Schedule.priority y). lia.
  - by exists T'.
Qed.

End Forking.

(** ** The signals of the process itself *)

Section OwnSignals.

Definition reported (l : list (Z * (Z * Z))) (i : Z) : bool := existsb (fun x => fst (snd x) =? i + 1) l.

Lemma signal_bit_spec sg i : 0 < sg -> 0 <= i -> Z.testbit (Signals.signal_bit sg) i = (sg =? i + 1).
Proof.
  intros Hs Hi. unfold Signals.signal_bit. rewrite Z.shiftl_1_l, Z.pow2_bits_eqb by lia.
  destruct (Z.eqb_spec (sg - 1) i), (Z.eqb_spec sg (i + 1)); try lia; done.
Qed.

Lemma pending_loop_ok p l : forall fuel c set,
  Signals.slist (Signals.entries p) c l -> (length l < fuel)%nat -> Forall (fun x => 0 < fst (snd x)) l ->
  exists v, pending_loop fuel c set p = Some (v, p) /\ forall i, 0 <= i -> Z.testbit v i = Z.testbit set i || reported l i.
Proof.
  induction l as [|[e [sg ch]] l IH]; intros [|fuel] c set Hl Hf Hpos; cbn [length] in Hf; try lia.
  - cbn in Hl. subst c. exists set. split; [done|]. intros i _. by rewrite orb_false_r.
  - destruct Hl as (-> & He & n & Hn & Hl). apply Forall_cons_iff in Hpos as [Hsg Hpos]. cbn [fst snd] in Hsg.
    cbn [pending_loop]. rewrite (proj2 (Z.eqb_neq e 0)) by done. erewrite bind_some by (unfold Signals.get_entry; rewrite Hn; reflexivity).
    cbn [Signals.next Signals.signal].
    destruct (IH fuel n (Z.lor set (Signals.signal_bit sg)) Hl) as (v & E & Hv); [lia|done|]. exists v. split; [exact E|].
    intros i Hi. rewrite Hv, Z.lor_spec, signal_bit_spec by done. unfold reported. cbn [existsb fst snd]. by rewrite orb_assoc.
Qed.

(** [sigpending] reports exactly the signals that are in the queue of the process
    and blocked by its mask. *)
Theorem sigpending_reports p l :
  Signals.queued p l -> Forall (fun x => 0 < fst (snd x)) l ->
  exists v, sigpending p = Some (v, p) /\
    forall i, 0 <= i -> Z.testbit v i = reported l i && Z.testbit (Signals.mask (Signals.sigs p)) i.
Proof.
  intros Hq Hpos. unfold sigpending. rewrite Signals.bind_get. pose proof (Signals.queued_size p l Hq) as Hsize.
  destruct Hq as [Hl _ _]. destruct (pending_loop_ok p l (S (size (Signals.entries p))) _ 0 Hl) as (v & E & Hv); [lia|done|].
  unfold mbind, M_bind, Signals.with_fuel. rewrite E. eexists. split; [reflexivity|].
  intros i Hi. by rewrite Z.land_spec, Hv, Z.bits_0.
Qed.

(** The fields of a handler have their size. *)
Definition handler_ok (h : Signals.SignalHandler) : Prop := Signals.in_range (handler_object h).

Lemma read_handler_back a h m : handler_ok h -> read_handler a (Signals.write_object a (handler_object h) m) = h.
Proof.
  intros Hh. unfold read_handler. cbv zeta. change (fst <$> handler_object _) with (fst <$> handler_object h).
  rewrite Signals.read_write_object by done. by destruct h.
Qed.

(** Setting a handler and then the one that was given back in [old] leaves the
    handlers as they were; only the memory at [old] has changed. *)
Theorem sigaction_restores p sg new old h :
  0 < sg < Signals.SIG_COUNT -> Signals.handlers (Signals.sigs p) !! Z.to_nat sg = Some h -> handler_ok h -> old <> 0 ->
  exists p1 p2, sigaction sg new old p = Some (- SUCCESS, p1) /\ sigaction sg old 0 p1 = Some (- SUCCESS, p2) /\
    Signals.sigs p2 = Signals.sigs p /\
    Signals.handlers (Signals.sigs p1) !! Z.to_nat sg = Some (if new =? 0 then h else read_handler new (Signals.stack p)) /\
    forall a, a < old \/ old + 32 <= a -> Signals.stack p2 a = Signals.stack p a.
Proof.
  intros Hsg Hh Hok Hold. pose proof (lookup_lt_Some _ _ _ Hh) as Hlen.
  assert (Hguard : (Signals.SIG_COUNT <=? sg) || (sg =? 0) = false) by lia.
  unfold sigaction. rewrite Hguard, Hh. cbn [mbind option_bind]. rewrite (proj2 (Z.eqb_neq old 0)) by done. cbn [negb].
  eexists _, _. split; [reflexivity|]. split.
  - cbn [Signals.sigs Signals.stack Signals.entries Signals.frame]. rewrite read_handler_back by done.
    assert (Hl : exists h', Signals.handlers (if negb (new =? 0) then Signals.set_handlers (Signals.sigs p)
      (<[Z.to_nat sg := read_handler new (Signals.stack p)]> (Signals.handlers (Signals.sigs p))) else Signals.sigs p) !! Z.to_nat sg = Some h').
    { destruct (new =? 0); cbn [negb Signals.handlers Signals.set_handlers]; [by eexists|].
      eexists. apply list_lookup_insert_eq. lia. }
    destruct Hl as [h' ->]. change (negb (0 =? 0)) with false. cbv iota. reflexivity.
  - cbn [Signals.sigs Signals.stack]. split; [|split].
    + assert (Hid : <[Z.to_nat sg := h]> (Signals.handlers (Signals.sigs p)) = Signals.handlers (Signals.sigs p)) by by apply list_insert_id.
      destruct (new =? 0); cbn [negb Signals.handlers Signals.set_handlers]; rewrite ?list_insert_insert_eq, Hid; by destruct (Signals.sigs p).
    + destruct (new =? 0); cbn [negb Signals.handlers Signals.set_handlers]; [done|]. apply list_lookup_insert_eq. lia.
    + intros a Ha. apply Signals.write_object_out. change (Signals.obj_size (handler_object h)) with 32. done.
Qed.

End OwnSignals.

(** ** Witnesses and examples *)

Definition ex_user (u g : Z) : ProcessUser := mkUser u g u g u g.

Lemma identities_confined_witness :
  let s := with_procs ex_state (<[200 := set_user (ex_process 2 100 0 0 300 100 300 20) (ex_user 7 8)]> ex_procs) in
  exists m, do_calls [(200, SetREUid (u64 (-1)) 0); (100, SetUid 7); (200, SetEUid 7); (200, SetGid 0)] s = Some (tt, with_procs s m) /\
    exists u, m !! 200 = Some (set_user (set_user (ex_process 2 100 0 0 300 100 300 20) (ex_user 7 8)) u) /\ confined (ex_user 7 8) u.
Proof.
  intros s. destruct (identities_confined [(200, SetREUid (u64 (-1)) 0); (100, SetUid 7); (200, SetEUid 7); (200, SetGid 0)] s) as (m & E & H).
  - repeat (constructor; [by eexists|]). constructor.
  - exists m. split; [exact E|]. destruct (H 200) as (u & Hu & Hc). exists u. split; [exact Hu|]. apply Hc.
    unfold unprivileged, uids, gids. cbn. rewrite !not_elem_of_cons. split_and!; try lia; apply not_elem_of_nil.
Defined.

Lemma setPgid_same_session_witness :
  exists r s', setPgidSyscall 100 2 3 ex_state = Some (r, s') /\ regrouped ex_state 100 2 3 r s' /\ r = 0.
Proof.
  destruct (setPgid_same_session ex_state [300; 200; 100] ex_kids 100 2 3) as (r & s' & E & H).
  - exact ex_forest.
  - by eexists.
  - intros p x Hx. destruct (ex_value _ _ Hx) as [[-> ->]|[[-> ->]|[-> ->]]]; cbn; lia.
  - exists r, s'. split; [exact E|]. split; [exact H|].
    pose proof (f_equal (fmap fst) E) as E'. vm_compute in E'. congruence.
Defined.

Lemma killSyscall_delivers_witness :
  exists r m', killSyscall ex_fresh 100 2 15 ex_state = Some (r, with_procs ex_state m') /\
    kill_result (procs ex_state) (ex_process 1 0 300 0 0 0 200 10) 2 r /\
    exists y', m' !! 200 = Some y' /\ signalled ex_fresh 15 (ex_process 2 100 0 0 300 100 300 20) y'.
Proof.
  destruct (killSyscall_delivers ex_fresh ex_fresh_ok ex_state [300; 200; 100] ex_kids 100 (ex_process 1 0 300 0 0 0 200 10) 2 15)
    as (r & m' & E & Hr & _ & H); try reflexivity.
  - exact ex_forest.
  - exact ex_signals.
  - split; [lia|reflexivity].
  - unfold Signals.SIGCONT. lia.
  - exists r, m'. split; [exact E|]. split; [exact Hr|].
    destruct (H 200 (ex_process 2 100 0 0 300 100 300 20) eq_refl) as (y' & Hy & Hs & _). exists y'. split; [exact Hy|].
    apply Hs; [by apply addressed_target|left; reflexivity].
Defined.

Definition ex_frame : Signals.TrapFrame := Signals.mkFrame (replicate 31 7) (replicate 32 0) 0x1000.

(** The world is the frames of the tasks. *)
Definition ex_fork_state : state (W := gmap Z Signals.TrapFrame) :=
  mkState ex_procs {[ 10 := mkProcTask 0 zero_times ]} 300 4 [] Schedule.demo {[ 0x20 := ex_frame ]}.

Definition ex_init (t sp gp pc0 id mem : Z) : M (gmap Z Signals.TrapFrame) unit := fun w =>
  Some (tt, <[t := Signals.mkFrame (replicate 31 0) (replicate 32 0) pc0]> w).

Lemma ex_numbered : numbered ex_fork_state.
Proof.
  split.
  - intros p x Hx. destruct (ex_value _ _ Hx) as [[-> ->]|[[-> ->]|[-> ->]]]; cbn; lia.
  - intros p q x y Hx Hy. destruct (ex_value _ _ Hx) as [[-> ->]|[[-> ->]|[-> ->]]],
      (ex_value _ _ Hy) as [[-> ->]|[[-> ->]|[-> ->]]]; cbn; lia.
Qed.

Lemma forkSyscall_copies_witness :
  exists s', forkSyscall (fun _ => 400) (fun _ => 0x40) (fun w => Some (0, w)) (fun m w => Some (0x9000, w)) (fun p q w => Some (tt, w))
      ex_init id (fun m _ => m) (fun _ => mret tt) (fun _ => mret tt) 0 100 0x20 ex_fork_state = Some (Some 4, s') /\
    forest (procs s') (global_first s') [400; 300; 200; 100] (with_kid 100 400 ex_kids) /\ numbered s'.
Proof.
  destruct (forkSyscall_copies (fun _ => 400) (fun _ => 0x40) (fun w => Some (0, w)) (fun m w => Some (0x9000, w)) (fun p q w => Some (tt, w))
    ex_init id (fun m _ => m) (fun m w => eq_refl) (fun _ => mret tt) (fun _ => mret tt) ex_fork_state [300; 200; 100] ex_kids 100 0x20 (ex_process 1 0 300 0 0 0 200 10) Schedule.new_task
    0x100 [(0x10, 20)] 0x9000 ex_frame 7 7 {[ 0x20 := ex_frame ]} {[ 0x20 := ex_frame ]}
    (<[0x40 := Signals.mkFrame (replicate 31 0) (replicate 32 0) 0x1000]> {[ 0x20 := ex_frame ]}) 0) as (s' & E & Hf & Hn & _); try reflexivity.
  - exact ex_forest.
  - exact ex_numbered.
  - lia.
  - lia.
  - lia.
  - exact Schedule.demo_ready.
  - split; done.
  - lia.
  - intros z Hz. change (Some Schedule.demo_hart = Some z) in Hz. injection Hz as <-. cbn. lia.
  - exists s'. split; [exact E|]. split; [exact Hf|exact Hn].
Defined.

(** A process with SIGBUS pending that has it blocked. *)
Definition ex_blocked : Signals.proc :=
  Signals.mkProc {[ 0x100 := Signals.mkPending 0 10 0 ]}
    (Signals.mkSignals 0x100 0x100 (replicate 32 (Signals.mkHandler 0 0 0 0)) 0 0 0 0 0x200) zero_frame (fun _ => 0).

Lemma sigpending_reports_witness : exists v, sigpending ex_blocked = Some (v, ex_blocked) /\ Z.testbit v 9 = true.
Proof.
  destruct (sigpending_reports ex_blocked [(0x100, (10, 0))]) as (v & E & H).
  - split; [|repeat constructor; by intros ?%not_elem_of_nil|reflexivity]. split; [reflexivity|]. split; [lia|]. by exists 0.
  - repeat constructor.
  - exists v. split; [exact E|]. rewrite H by lia. reflexivity.
Defined.

Lemma sigaction_restores_witness :
  exists p1 p2, sigaction 10 0x1000 0x2000 Signals.demo = Some (0, p1) /\ sigaction 10 0x2000 0 p1 = Some (0, p2) /\
    Signals.sigs p2 = Signals.sigs Signals.demo.
Proof.
  destruct (sigaction_restores Signals.demo 10 0x1000 0x2000 Signals.demo_handler) as (p1 & p2 & E1 & E2 & E3 & _).
  - split; reflexivity.
  - reflexivity.
  - repeat constructor; cbn; lia.
  - lia.
  - exists p1, p2. split; [exact E1|split; [exact E2|exact E3]].
Defined.

(** [setregid] asks whether the group is 0, not whether the user is. *)
Example setregid_privilege :
  setREGid 5 5 (mkUser 1000 1000 1000 1000 1000 0) = (0, mkUser 1000 5 1000 5 1000 5) /\
  setREGid 5 5 (mkUser 0 100 0 100 0 100) = (- EPERM, mkUser 0 100 0 100 0 100).
Proof. split; reflexivity. Qed.

(** [alarm] gives 0, whatever time was left. *)
Lemma alarm_returns_zero {W : Type} (s : state (W := W)) time me arg0 r s' : alarmSyscall time me arg0 s = Some (r, s') -> r = 0.
Proof.
  unfold alarmSyscall, on_signals. destruct (procs s !! me) as [x|]; [|done]. cbn [mbind option_bind].
  rewrite Signals.bind_get. cbv zeta. destruct (arg0 =? 0); cbn; by intros [= <- _].
Qed.

(** Without memory for a process, [fork] frees the process [NULL]: a null
    pointer is followed. *)
Lemma fork_without_memory {W : Type} (s : state (W := W)) ct cms clone fd init fr wf me t fuel close dealloc :
  procs s !! 0 = None -> forkSyscall (fun _ => 0) ct cms clone fd init fr wf close dealloc fuel me t s = None.
Proof. intros H0. unfold forkSyscall, createUserProcess, deallocProcessIn, processFinalizeTask, unregisterProcess, mbind, M_bind, whole, get_proc. cbn. by rewrite H0. Qed.

(** Without memory for a task, it ends the task that makes the call: the parent
    never gets the error. *)
Example fork_never_returns :
  fst <$> forkSyscall (fun _ => 400) (fun _ => 0) (fun w => Some (0, w)) (fun m w => Some (0x9000, w)) (fun p q w => Some (tt, w))
    ex_init id (fun m _ => m) (fun _ => mret tt) (fun _ => mret tt) 1 100 0x20 ex_fork_state = Some None.
Proof. vm_compute. reflexivity. Qed.

End ProcSyscall.
