(* ===== verification/Tty.v ===== *)
(** * Tty: the terminal, [kernel/src/devices/serial/tty.c]

    The ring buffer of the characters typed, the editing of lines, echoing, and
    the reads that wait for a line or for a number of characters.

    The buffer is the bytes from 0 up to its capacity; user memory is a byte for
    every address.  The device registers of the UART, [uart16550.c], are the
    characters that wait to be received, those sent, and how often the
    transmitter is busy before each of them.  [signalProcessGroup], the two
    calls that wake a task up, [setTimeout] and [addRandomEvent] work on a state
    [W]; [time] is [getTime()].  The lock of the device makes each operation
    atomic; a read that waits gives the lock back and is tried again when its
    task has been woken up. *)
From S2P Require Import Prelude Util Errors Signals.
Import Errors.

Local Open Scope c_scope.

Module Tty.

(** ** Definitions *)

Definition ENOTTY : Z := 25.
Definition EINTR : Z := 4.
Definition ENOTSUP : Z := 134.

Definition TCGETS : Z := 0x5401.
Definition TCSETS : Z := 0x5402.
Definition TCSETSW : Z := 0x5403.
Definition TCSETSF : Z := 0x5404.
Definition TIOCGPGRP : Z := 0x540F.
Definition TIOCSPGRP : Z := 0x5410.
Definition TCXONC : Z := 0x540A.
Definition TCFLSH : Z := 0x540B.
Definition FIONREAD : Z := 0x541B.

(** Octal in the source. *)
Definition INLCR : Z := 0x40.
Definition IGNCR : Z := 0x80.
Definition ICRNL : Z := 0x100.
Definition OPOST : Z := 0x1.
Definition OCRNL : Z := 0x4.
Definition ONLCR : Z := 0x8.
Definition ONOCR : Z := 0x10.
Definition ISIG : Z := 0x1.
Definition ICANON : Z := 0x2.
Definition ECHO : Z := 0x8.
Definition ECHOE : Z := 0x10.
Definition ECHOK : Z := 0x20.
Definition ECHONL : Z := 0x40.
Definition ECHOCTL : Z := 0x400.

Definition VINTR : nat := 0.
Definition VQUIT : nat := 1.
Definition VERASE : nat := 2.
Definition VKILL : nat := 3.
Definition VEOF : nat := 4.
Definition VTIME : nat := 5.
Definition VMIN : nat := 6.
Definition VSUSP : nat := 10.
Definition VEOL : nat := 11.

(** Characters: [\b], [\t], [\n], [\r], the space and [^]. *)
Definition BS : Z := 8.
Definition TAB : Z := 9.
Definition NL : Z := 10.
Definition CR : Z := 13.
Definition SPACE : Z := 32.
Definition CARET : Z := 94.

Definition INITIAL_TTY_BUFFER_CAPACITY : Z := 512.
Definition MAX_TTY_BUFFER_CAPACITY : Z := 4096.
Definition CLOCKS_PER_SEC : Z := 10000000.

Definition SIGINT : Z := 2.
Definition SIGQUIT : Z := 3.

Record Termios := mkTermios {
  iflag : Z; oflag : Z; cflag : Z; lflag : Z; line : Z; cc : list Z; ispeed : Z; ospeed : Z
}.

(** [blocked] is the list of the tasks linked by [locks_next]. *)
Record UartTtyDevice := mkTty {
  buffer : bytes;
  buffer_start : Z;
  buffer_count : Z;
  buffer_capacity : Z;
  line_delim_count : Z;
  last_byte : Z;
  ctrl : Termios;
  process_group : Z;
  blocked : list Z;
}.

Record Uart16550 := mkUart { rx : list Z; tx : list Z; busy : list nat }.

Section Device.
Context {W : Type}.

Record state := mkState { dev : UartTtyDevice; uart : Uart16550; umem : bytes; world : W }.

Abbreviation T := (M state).

Definition get : T UartTtyDevice := fun s => Some (dev s, s).
Definition put (d : UartTtyDevice) : T unit := fun s => Some (tt, mkState d (uart s) (umem s) (world s)).
Definition modify (f : UartTtyDevice -> UartTtyDevice) : T unit := d ← get; put (f d).
Definition on_uart {A : Type} (c : M Uart16550 A) : T A := fun s =>
  '(a, u) ← c (uart s); Some (a, mkState (dev s) u (umem s) (world s)).
Definition on_world {A : Type} (c : M W A) : T A := fun s =>
  '(a, w) ← c (world s); Some (a, mkState (dev s) (uart s) (umem s) w).
(** [memcpyBetweenVirtPtr] to user memory. *)
Definition write_user (a : Z) (l : list Z) : T unit := fun s => Some (tt, mkState (dev s) (uart s) (put_bytes (umem s) a l) (world s)).

Definition set_buffer (d : UartTtyDevice) (b : bytes) : UartTtyDevice :=
  mkTty b (buffer_start d) (buffer_count d) (buffer_capacity d) (line_delim_count d) (last_byte d) (ctrl d) (process_group d) (blocked d).
Definition set_range (d : UartTtyDevice) (start count : Z) : UartTtyDevice :=
  mkTty (buffer d) start count (buffer_capacity d) (line_delim_count d) (last_byte d) (ctrl d) (process_group d) (blocked d).
Definition set_count (d : UartTtyDevice) (count : Z) : UartTtyDevice := set_range d (buffer_start d) count.
Definition set_capacity (d : UartTtyDevice) (n : Z) : UartTtyDevice :=
  mkTty (buffer d) (buffer_start d) (buffer_count d) n (line_delim_count d) (last_byte d) (ctrl d) (process_group d) (blocked d).
Definition set_delims (d : UartTtyDevice) (n : Z) : UartTtyDevice :=
  mkTty (buffer d) (buffer_start d) (buffer_count d) (buffer_capacity d) n (last_byte d) (ctrl d) (process_group d) (blocked d).
Definition set_last_byte (d : UartTtyDevice) (t : Z) : UartTtyDevice :=
  mkTty (buffer d) (buffer_start d) (buffer_count d) (buffer_capacity d) (line_delim_count d) t (ctrl d) (process_group d) (blocked d).
Definition set_ctrl (d : UartTtyDevice) (c : Termios) : UartTtyDevice :=
  mkTty (buffer d) (buffer_start d) (buffer_count d) (buffer_capacity d) (line_delim_count d) (last_byte d) c (process_group d) (blocked d).
Definition set_group (d : UartTtyDevice) (g : Z) : UartTtyDevice :=
  mkTty (buffer d) (buffer_start d) (buffer_count d) (buffer_capacity d) (line_delim_count d) (last_byte d) (ctrl d) g (blocked d).
Definition set_blocked (d : UartTtyDevice) (l : list Z) : UartTtyDevice :=
  mkTty (buffer d) (buffer_start d) (buffer_count d) (buffer_capacity d) (line_delim_count d) (last_byte d) (ctrl d) (process_group d) l.

Definition flag (flags mask : Z) : bool := negb (Z.land flags mask =? 0).
Definition key (c : Termios) (v : nat) : Z := default 0 (cc c !! v).

(** *** The UART *)

Definition writeUart16550 (value : Z) : M Uart16550 Z := fun u =>
  match busy u with
  | S n :: l => Some (EBUSY, mkUart (rx u) (tx u) (n :: l))
  | l => Some (SUCCESS, mkUart (rx u) (tx u ++ [value]) (tail l))
  end.

Definition readUart16550 : M Uart16550 (result Z) := fun u =>
  match rx u with
  | [] => Some (Bad EAGAIN, u)
  | c :: l => Some (Good c, mkUart l (tx u) (busy u))
  end.

(** *** The ring buffer *)

(** An empty ring has no index. *)
Definition ring_index (d : UartTtyDevice) (index : Z) : option Z :=
  if buffer_capacity d =? 0 then None else Some ((buffer_start d + index) mod buffer_capacity d).

Definition getBuffer (d : UartTtyDevice) (index : Z) : option Z := i ← ring_index d index; Some (buffer d i).

(** From [i] on, with [n] characters left. *)
Fixpoint line_loop (n : nat) (d : UartTtyDevice) (i : Z) : option Z :=
  match n with
  | O => Some 0
  | S n' =>
      c ← getBuffer d i;
      if (c =? NL) || (c =? key (ctrl d) VEOL) then Some (i + 1)
      else if c =? key (ctrl d) VEOF then Some i
      else line_loop n' d (i + 1)
  end.

Definition bufferLineLength (d : UartTtyDevice) : option Z := line_loop (Z.to_nat (buffer_count d)) d 0.

Definition canReturnRead (time : Z) (d : UartTtyDevice) : bool :=
  if negb (flag (lflag (ctrl d)) ICANON) then
    if key (ctrl d) VTIME =? 0 then key (ctrl d) VMIN <=? buffer_count d
    else (Util.umax (key (ctrl d) VMIN) 1 <=? buffer_count d)
         || ((Util.umin (key (ctrl d) VMIN) 1 <=? buffer_count d)
             && (last_byte d +% (key (ctrl d) VTIME * CLOCKS_PER_SEC / 10) <? time))
  else 0 <? line_delim_count d.

Definition uartTtyResizeBuffer : T unit :=
  d ← get;
  let capacity := if buffer_capacity d =? 0 then INITIAL_TTY_BUFFER_CAPACITY else buffer_capacity d * 3 / 2 in
  let capacity := if MAX_TTY_BUFFER_CAPACITY <? capacity then MAX_TTY_BUFFER_CAPACITY else capacity in
  if negb (capacity =? buffer_capacity d) then
    (if buffer_capacity d <? buffer_start d + buffer_count d then
       let to_move := buffer_start d - buffer_capacity d + buffer_count d in
       massert (buffer_capacity d + to_move <=? capacity);;
       put (set_buffer d (put_bytes (buffer d) (buffer_capacity d) (bytes_at (buffer d) 0 to_move)))
     else mret tt);;
    modify (fun d => set_capacity d capacity)
  else mret tt.

(** *** Output *)

(** [do ... while (error.kind == EBUSY)] *)
Fixpoint write_loop (fuel : nat) (character : Z) : T Z :=
  match fuel with
  | O => fault
  | S fuel' =>
      error ← on_uart (writeUart16550 character);
      if error =? EBUSY then write_loop fuel' character else mret error
  end.

Definition write_char (character : Z) : T Z := fun s => write_loop (S (default 0%nat (head (busy (uart s))))) character s.

Definition basicTtyWrite (character : Z) : T Z :=
  d ← get;
  let o := oflag (ctrl d) in
  if (character =? CR) && flag o ONOCR then mret SUCCESS
  else
    let character := if (character =? CR) && flag o OCRNL then NL else character in
    error ← (if (character =? NL) && flag o ONLCR then write_char CR else mret SUCCESS);
    if error =? SUCCESS then write_char character else mret error.

Definition isTerminalSpecialChar (c : Z) : bool := (c <? 0x20) && (2 <=? c) && negb (c =? TAB) && negb (c =? NL).

Fixpoint rub_out (n : nat) : T unit :=
  match n with
  | O => mret tt
  | S n' => basicTtyWrite BS;; basicTtyWrite SPACE;; basicTtyWrite BS;; rub_out n'
  end.

Definition lift {A : Type} (o : option A) : T A := fun s => a ← o; Some (a, s).

Definition eraseLastCharacter : T unit :=
  d ← get;
  if 0 <? buffer_count d then
    put (set_count d (buffer_count d - 1));;
    d ← get;
    count ← (if flag (lflag (ctrl d)) ECHOCTL then
               c ← lift (getBuffer d (buffer_count d));
               mret (if isTerminalSpecialChar c then 2%nat else 1%nat)
             else mret 1%nat);
    rub_out count
  else mret tt.

(** The loop of the kill character: a character less each time. *)
Fixpoint kill_loop (fuel : nat) : T unit :=
  match fuel with
  | O => fault
  | S fuel' => d ← get; if 0 <? buffer_count d then eraseLastCharacter;; kill_loop fuel' else mret tt
  end.

(** *** Input *)

Context (signalProcessGroup : Z -> Z -> M W unit).
(** [awakenTask] and [enqueueTask] *)
Context (wake : Z -> M W unit).
Context (setTimeout : Z -> M W unit).
Context (addRandomEvent : M W unit).

(** A character that is mapped, or [None] for one that is ignored. *)
Definition map_input (c : Termios) (ch : Z) : option Z :=
  if ch =? CR then
    if flag (iflag c) IGNCR then None else if flag (iflag c) ICRNL then Some NL else Some ch
  else if ch =? NL then if flag (iflag c) INLCR then Some CR else Some ch
  else Some ch.

Definition is_delim (c : Termios) (ch : Z) : bool := (ch =? NL) || (ch =? key c VEOL) || (ch =? key c VEOF).

Definition is_signal (c : Termios) (ch : Z) : bool :=
  flag (lflag c) ISIG && ((ch =? key c VINTR) || (ch =? key c VQUIT) || (ch =? key c VSUSP)).

Definition signal_of (c : Termios) (ch : Z) : Z :=
  if ch =? key c VINTR then SIGINT else if ch =? key c VQUIT then SIGQUIT else Signals.SIGTSTP.

(** What is echoed for a character that joins the buffer. *)
Definition echo (ch : Z) : T unit :=
  d ← get;
  let l := lflag (ctrl d) in
  if (flag l ECHO || (flag l ECHONL && flag l ICANON && (ch =? NL))) && (negb (flag l ICANON) || negb (ch =? key (ctrl d) VEOF)) then
    if flag l ECHOCTL && isTerminalSpecialChar ch then basicTtyWrite CARET;; basicTtyWrite (wrap 8 (ch + 0x40));; mret tt
    else basicTtyWrite ch;; mret tt
  else mret tt.

(** A character that was stored behind the last one in the buffer. *)
Definition take_input (ch : Z) : T unit :=
  d ← get;
  let l := lflag (ctrl d) in
  if flag l ECHOE && flag l ICANON && (ch =? key (ctrl d) VERASE) then eraseLastCharacter
  else if flag l ECHOK && flag l ICANON && (ch =? key (ctrl d) VKILL) then kill_loop (S (Z.to_nat (buffer_count d)))
  else if is_signal (ctrl d) ch then on_world (signalProcessGroup (process_group d) (signal_of (ctrl d) ch))
  else
    (if is_delim (ctrl d) ch then modify (fun d => set_delims d (line_delim_count d +% 1)) else mret tt);;
    modify (fun d => set_count d (buffer_count d + 1));;
    echo ch.

Definition basicTtyRead : T (result unit) :=
  d ← get;
  (if buffer_count d =? buffer_capacity d then uartTtyResizeBuffer else mret tt);;
  d ← get;
  (if buffer_count d =? buffer_capacity d then put (set_count d (buffer_count d -% 1)) else mret tt);;
  d ← get;
  new ← lift (ring_index d (buffer_count d));
  r ← on_uart readUart16550;
  match r with
  | Bad kind => mret (Bad kind)
  | Good c =>
      match map_input (ctrl d) c with
      | None => put (set_buffer d (wr (buffer d) new c));; mret (Good tt)
      | Some ch => put (set_buffer d (wr (buffer d) new ch));; take_input ch;; mret (Good tt)
      end
  end.

Fixpoint read_all (fuel : nat) : T unit :=
  match fuel with
  | O => fault
  | S fuel' => r ← basicTtyRead; match r with Good _ => read_all fuel' | Bad _ => mret tt end
  end.

Fixpoint wake_all (l : list Z) : T unit :=
  match l with [] => mret tt | t :: l' => modify (fun d => set_blocked d l');; on_world (wake t);; wake_all l' end.

Definition wakeupIfRequired (time : Z) : T bool :=
  d ← get;
  if canReturnRead time d then wake_all (blocked d);; mret true else mret false.

Definition uartTtyDataReady (time : Z) : T unit :=
  on_world addRandomEvent;;
  (fun s => read_all (S (length (rx (uart s)))) s);;
  modify (fun d => set_last_byte d time);;
  wakeupIfRequired time;;
  mret tt.

Definition read_timeout (d : UartTtyDevice) : Z := key (ctrl d) VTIME * CLOCKS_PER_SEC / 10.

Definition checkForWakeup (time : Z) : T unit :=
  woken ← wakeupIfRequired time;
  if woken : bool then mret tt else d ← get; on_world (setTimeout (read_timeout d)).

(** [pending]: the process of the task has a signal pending.  [true]: the task
    wakes up. *)
Definition handleTtyWakeup (pending : bool) (task : Z) : T bool :=
  if pending then
    d ← get;
    put (set_blocked d (match list_find (fun t => t = task) (blocked d) with Some (i, _) => delete i (blocked d) | None => blocked d end));;
    mret true
  else mret false.

(** *** Reading *)

(** [moveTaskToState] and [enqueueTask] of the task that waits. *)
Context (sleep : Z -> M W unit).

Inductive outcome : Type :=
| Returned (r : result Z)
| Waiting.

Definition waitForReadOperation (task : Z) : T unit :=
  on_world (sleep task);;
  d ← get;
  put (set_blocked d (task :: blocked d));;
  d ← get;
  if negb (flag (lflag (ctrl d)) ICANON) && negb (key (ctrl d) VTIME =? 0) && bool_decide (blocked d = [])
  then on_world (setTimeout (read_timeout d)) else mret tt.

(** The loop over the characters that are returned. *)
Fixpoint uncount_loop (n : nat) (i : Z) : T unit :=
  match n with
  | O => mret tt
  | S n' =>
      d ← get;
      c ← lift (getBuffer d i);
      (if is_delim (ctrl d) c then put (set_delims d (line_delim_count d -% 1)) else mret tt);;
      uncount_loop n' (i + 1)
  end.

(** The copy to user memory, in two parts when the range wraps around. *)
Definition copy_out (address length : Z) : T unit :=
  d ← get;
  if buffer_capacity d <? buffer_start d + length then
    let first := buffer_capacity d - buffer_start d in
    write_user address (bytes_at (buffer d) (buffer_start d) first);;
    write_user (address + first) (bytes_at (buffer d) 0 (length - first))
  else write_user address (bytes_at (buffer d) (buffer_start d) length).

(** [length] more characters are gone from the start of the ring. *)
Definition advance (length : Z) : T unit :=
  d ← get;
  start ← lift (ring_index d length);
  put (set_range d start (buffer_count d - length)).

Definition drop_eof : T unit :=
  d ← get;
  if flag (lflag (ctrl d)) ICANON && (0 <? buffer_count d) then
    c ← lift (getBuffer d 0);
    if c =? key (ctrl d) VEOF then
      put (set_delims (set_count d (buffer_count d - 1)) (line_delim_count d -% 1))
    else mret tt
  else mret tt.

Definition uartTtyReadOrWait (time : Z) (pending : bool) (task address size : Z) (block : bool) : T outcome :=
  d ← get;
  (if negb (flag (lflag (ctrl d)) ICANON) && negb (key (ctrl d) VTIME =? 0) && bool_decide (blocked d = [])
   then put (set_last_byte d time) else mret tt);;
  d ← get;
  if canReturnRead time d then
    size_available ← (if flag (lflag (ctrl d)) ICANON then lift (bufferLineLength d) else mret (buffer_count d));
    let length := Util.umin size_available size in
    uncount_loop (Z.to_nat length) 0;;
    copy_out address length;;
    advance length;;
    drop_eof;;
    mret (Returned (Good length))
  else if pending then mret (Returned (Bad EINTR))
  else if block then waitForReadOperation task;; mret Waiting
  else mret (Returned (Bad EAGAIN)).

(** While the task waits, other operations run; it is then woken up at a time
    and with signals pending or not, and tries again. *)
Fixpoint uartTtyReadFunction (between : list (T unit * (Z * bool))) (time : Z) (pending : bool) (task address size : Z) (block : bool) : T outcome :=
  r ← uartTtyReadOrWait time pending task address size block;
  match r with
  | Returned e => mret (Returned e)
  | Waiting =>
      match between with
      | [] => mret Waiting
      | (op, (time, pending)) :: between' => op;; uartTtyReadFunction between' time pending task address size block
      end
  end.

(** *** Writing and control *)

(** The characters of the parts of the buffer; the error and how many were
    written. *)
Fixpoint write_part (l : list Z) (count : Z) : T (Z * Z) :=
  match l with
  | [] => mret (SUCCESS, count)
  | c :: l' => error ← basicTtyWrite c; if error =? SUCCESS then write_part l' (count + 1) else mret (error, count)
  end.

Fixpoint write_parts (parts : list (list Z)) (count : Z) : T (Z * Z) :=
  match parts with
  | [] => mret (SUCCESS, count)
  | p :: parts' =>
      '(error, count) ← write_part p count;
      if error =? SUCCESS then write_parts parts' count else mret (error, count)
  end.

Definition uartTtyWriteFunction (parts : list (list Z)) : T (Z * Z) := write_parts parts 0.

(** The layout of [Termios], with a byte of padding that is written as 0. *)
Definition termios_object (c : Termios) : list (nat * Z) :=
  [(2%nat, iflag c); (2%nat, oflag c); (2%nat, cflag c); (2%nat, lflag c); (1%nat, line c)]
  ++ ((fun k => (1%nat, k)) <$> cc c) ++ [(1%nat, ispeed c); (1%nat, ospeed c); (1%nat, 0)].

Definition read_termios (a : Z) (m : bytes) : Termios :=
  let v := Signals.read_object a ([2; 2; 2; 2; 1] ++ replicate 32 1 ++ [1; 1; 1])%nat m in
  let f i := default 0 (v !! i) in
  mkTermios (f 0%nat) (f 1%nat) (f 2%nat) (f 3%nat) (f 4%nat) (take 32 (drop 5 v)) (f 37%nat) (f 38%nat).

Definition user : T bytes := fun s => Some (umem s, s).
Definition set_user (m : bytes) : T unit := fun s => Some (tt, mkState (dev s) (uart s) m (world s)).

Definition basicUartTtyIoctlFunction (time request argp : Z) : T Z :=
  d ← get;
  m ← user;
  if request =? TCGETS then set_user (Signals.write_object argp (termios_object (ctrl d)) m);; mret SUCCESS
  else if (request =? TCSETSF) || (request =? TCSETSW) || (request =? TCSETS) then
    let d := if request =? TCSETSF then set_count d 0 else d in
    put (set_ctrl d (read_termios argp m));;
    wakeupIfRequired time;;
    mret SUCCESS
  else if request =? TIOCGPGRP then set_user (store_le 4 m argp (u32 (process_group d)));; mret SUCCESS
  else if request =? TIOCSPGRP then put (set_group d (s32 (load_le 4 m argp)));; mret SUCCESS
  else if request =? TCXONC then mret ENOTSUP
  else if request =? TCFLSH then put (set_count d 0);; mret SUCCESS
  else if request =? FIONREAD then set_user (store_le 4 m argp (u32 (buffer_count d)));; mret SUCCESS
  else mret ENOTTY.

Definition uartTtyIsReadyFunction (time : Z) (d : UartTtyDevice) (write : bool) : bool :=
  write || (canReturnRead time d && (0 <? buffer_count d)).

End Device.

Definition initial_cc : list Z :=
  <[VMIN := 1]> (<[VSUSP := 0x14]> (<[VQUIT := 6]> (<[VKILL := 0x15]> (<[VINTR := 5]>
    (<[VEOF := 4]> (<[VERASE := 0x7f]> (replicate 32 0))))))).

Definition initial_ctrl : Termios :=
  mkTermios ICRNL (Z.lor ONLCR OPOST) 0
    (Z.lor ECHO (Z.lor ECHOK (Z.lor ECHOE (Z.lor ECHONL (Z.lor ECHOCTL (Z.lor ICANON ISIG)))))) 0 initial_cc 0 0.

(** The buffer does not exist yet. *)
Definition createUartTtyDevice : UartTtyDevice := mkTty (fun _ => 0) 0 0 0 0 0 initial_ctrl 1 [].

(** ** The contents of the ring *)

Section Ring.

Definition slot (d : UartTtyDevice) (i : Z) : Z := buffer d ((buffer_start d + i) mod buffer_capacity d).

(** The characters that were typed and not read yet. *)
Definition contents (d : UartTtyDevice) : list Z := tab (buffer_count d) (slot d).

Record ring (d : UartTtyDevice) : Prop := {
  r_count : 0 <= buffer_count d <= buffer_capacity d;
  r_start : 0 <= buffer_start d /\ (buffer_start d < buffer_capacity d \/ buffer_capacity d = 0 /\ buffer_start d = 0);
  r_max : buffer_capacity d <= MAX_TTY_BUFFER_CAPACITY;
}.

Lemma contents_length d : ring d -> Z.of_nat (length (contents d)) = buffer_count d.
Proof. intros H. unfold contents. rewrite tab_length. pose proof (r_count _ H). lia. Qed.

Lemma contents_ext d d' : buffer_count d' = buffer_count d ->
  (forall i, 0 <= i < buffer_count d -> slot d' i = slot d i) -> contents d' = contents d.
Proof. intros E H. unfold contents. rewrite E. by apply tab_ext. Qed.

Lemma getBuffer_ok d i : ring d -> 0 <= i < buffer_count d ->
  exists c, getBuffer d i = Some c /\ contents d !! Z.to_nat i = Some c /\ c = slot d i.
Proof.
  intros H Hi. exists (slot d i). pose proof (r_count _ H). unfold getBuffer, ring_index.
  rewrite (proj2 (Z.eqb_neq _ _)) by lia. split; [done|]. split; [|done].
  unfold contents. rewrite tab_lookup, decide_True by lia. do 2 f_equal. lia.
Qed.

Lemma mod_once x n : 0 <= x < 2 * n -> x mod n = if x <? n then x else x - n.
Proof.
  intros H. destruct (Z.ltb_spec x n); [by apply Z.mod_small; lia|]. by rewrite <- (Z.mod_unique x n 1 (x - n)) by lia.
Qed.

(** Positions of the ring are different. *)
Lemma ring_inj d i j : ring d -> 0 <= i < buffer_capacity d -> 0 <= j < buffer_capacity d ->
  (buffer_start d + i) mod buffer_capacity d = (buffer_start d + j) mod buffer_capacity d -> i = j.
Proof.
  intros H Hi Hj. destruct (r_start _ H) as [H0 Hs]. rewrite !mod_once by lia.
  destruct (Z.ltb_spec (buffer_start d + i) (buffer_capacity d)), (Z.ltb_spec (buffer_start d + j) (buffer_capacity d)); lia.
Qed.

(** A character is stored behind the last one. *)
Definition stored (d : UartTtyDevice) (c : Z) : UartTtyDevice :=
  set_buffer d (wr (buffer d) ((buffer_start d + buffer_count d) mod buffer_capacity d) c).

Lemma stored_ring d c : ring d -> ring (stored d c).
Proof. by intros []. Qed.

Lemma stored_slot d c i : ring d -> buffer_count d < buffer_capacity d -> 0 <= i <= buffer_count d ->
  slot (stored d c) i = if i =? buffer_count d then c else slot d i.
Proof.
  intros H Hc Hi. unfold slot, stored. cbn [buffer buffer_start buffer_capacity set_buffer]. rewrite wr_spec.
  destruct (Z.eqb_spec i (buffer_count d)) as [->|Hne]; [by rewrite Z.eqb_refl|].
  rewrite (proj2 (Z.eqb_neq _ _)); [done|]. intros E. apply Hne. eapply ring_inj; [exact H|lia..|exact E].
Qed.

Lemma stored_contents d c : ring d -> buffer_count d < buffer_capacity d -> contents (stored d c) = contents d.
Proof.
  intros H Hc. apply contents_ext; [done|]. intros i Hi. rewrite stored_slot by (done || lia).
  by rewrite (proj2 (Z.eqb_neq _ _)) by lia.
Qed.

Lemma set_count_ring d n : ring d -> 0 <= n <= buffer_capacity d -> ring (set_count d n).
Proof. by intros [] ?. Qed.

Lemma tab_one f : tab 1 f = [f 0].
Proof. reflexivity. Qed.

Lemma push_contents d c : ring d -> buffer_count d < buffer_capacity d ->
  contents (set_count (stored d c) (buffer_count d + 1)) = contents d ++ [c].
Proof.
  intros H Hc. pose proof (r_count _ H). unfold contents at 1. cbn [buffer_count set_count set_range].
  rewrite (tab_split (buffer_count d)) by lia. f_equal.
  - apply tab_ext. intros i Hi. change (slot (set_count (stored d c) _) i) with (slot (stored d c) i).
    rewrite stored_slot by (done || lia). by rewrite (proj2 (Z.eqb_neq _ _)) by lia.
  - replace (buffer_count d + 1 - buffer_count d) with 1 by lia. rewrite tab_one. f_equal.
    change (slot (set_count (stored d c) _) ?i) with (slot (stored d c) i).
    rewrite Z.add_0_r, stored_slot by (done || lia). by rewrite Z.eqb_refl.
Qed.

Lemma take_contents d n : ring d -> 0 <= n <= buffer_count d -> contents (set_count d n) = take (Z.to_nat n) (contents d).
Proof. intros H Hn. symmetry. unfold contents. by rewrite tab_take. Qed.

Lemma drop_contents d n : ring d -> 0 <= n <= buffer_count d ->
  contents (set_range d ((buffer_start d + n) mod buffer_capacity d) (buffer_count d - n)) = drop (Z.to_nat n) (contents d).
Proof.
  intros H Hn. unfold contents. rewrite tab_drop by done. apply tab_ext. intros i Hi.
  unfold slot. cbn [buffer buffer_start buffer_capacity set_range].
  rewrite Zplus_mod_idemp_l. do 2 f_equal. lia.
Qed.

Lemma advance_ring d n : ring d -> 0 < buffer_capacity d -> 0 <= n <= buffer_count d ->
  ring (set_range d ((buffer_start d + n) mod buffer_capacity d) (buffer_count d - n)).
Proof.
  intros H Hc Hn. destruct H. split; cbn; [lia| |done].
  pose proof (Z.mod_pos_bound (buffer_start d + n) (buffer_capacity d) Hc). lia.
Qed.

(** The bytes of the two parts of a range of the ring. *)
Lemma ring_bytes d n : ring d -> 0 < buffer_capacity d -> 0 <= n <= buffer_count d ->
  take (Z.to_nat n) (contents d) =
  if buffer_capacity d <? buffer_start d + n then
    bytes_at (buffer d) (buffer_start d) (buffer_capacity d - buffer_start d)
    ++ bytes_at (buffer d) 0 (n - (buffer_capacity d - buffer_start d))
  else bytes_at (buffer d) (buffer_start d) n.
Proof.
  intros H Hc Hn. destruct (r_start _ H) as [H0 Hs]. pose proof (r_count _ H). unfold contents. rewrite tab_take by done.
  destruct (Z.ltb_spec (buffer_capacity d) (buffer_start d + n)).
  - rewrite !bytes_at_tab, tab_app by lia. rewrite Zplus_minus. apply tab_ext. intros i Hi. unfold slot.
    destruct (Z.ltb_spec i (buffer_capacity d - buffer_start d)); [by rewrite Z.mod_small by lia|].
    f_equal. rewrite <- (Z.mod_unique (buffer_start d + i) (buffer_capacity d) 1 (buffer_start d + i - buffer_capacity d)) by lia. lia.
  - rewrite bytes_at_tab. apply tab_ext. intros i Hi. unfold slot. by rewrite Z.mod_small by lia.
Qed.

End Ring.

(** ** Typing *)

(** What a terminal shows and keeps: the characters that can be read, the number
    of delimiters that were counted, what was sent, and the signals. *)
Record session := mkSession { text : list Z; delims : Z; sent : list Z; signals : list Z }.

(** The characters that [basicTtyWrite] sends. *)
Definition output (c : Termios) (ch : Z) : list Z :=
  let o := oflag c in
  if (ch =? CR) && flag o ONOCR then []
  else
    let ch := if (ch =? CR) && flag o OCRNL then NL else ch in
    if (ch =? NL) && flag o ONLCR then [CR; ch] else [ch].

Definition rub_output (c : Termios) (ch : Z) : list Z :=
  let one := output c BS ++ output c SPACE ++ output c BS in
  if flag (lflag c) ECHOCTL && isTerminalSpecialChar ch then one ++ one else one.

Definition echo_output (c : Termios) (ch : Z) : list Z :=
  let l := lflag c in
  if (flag l ECHO || (flag l ECHONL && flag l ICANON && (ch =? NL))) && (negb (flag l ICANON) || negb (ch =? key c VEOF)) then
    if flag l ECHOCTL && isTerminalSpecialChar ch then output c CARET ++ output c (wrap 8 (ch + 0x40)) else output c ch
  else [].

(** Erasing the last character, and all of them. *)
Definition erase (c : Termios) (x : session) : session :=
  match List.rev (text x) with
  | [] => x
  | e :: l => mkSession (List.rev l) (delims x) (sent x ++ rub_output c e) (signals x)
  end.

Fixpoint erase_all (n : nat) (c : Termios) (x : session) : session :=
  match n with O => x | S n' => erase_all n' c (erase c x) end.

Definition enter (c : Termios) (x : session) (ch : Z) : session :=
  let l := lflag c in
  if flag l ECHOE && flag l ICANON && (ch =? key c VERASE) then erase c x
  else if flag l ECHOK && flag l ICANON && (ch =? key c VKILL) then erase_all (length (text x)) c x
  else if is_signal c ch then mkSession (text x) (delims x) (sent x) (signals x ++ [signal_of c ch])
  else mkSession (text x ++ [ch]) (if is_delim c ch then delims x +% 1 else delims x) (sent x ++ echo_output c ch) (signals x).

(** The line discipline: what typing a character does. *)
Definition type_char (c : Termios) (x : session) (ch : Z) : session :=
  match map_input c ch with None => x | Some ch => enter c x ch end.

Section Typing.
Context {W : Type}.
Abbreviation st := (state (W := W)).
Context (signalProcessGroup : Z -> Z -> M W unit).

Definition with_dev (s : st) (d : UartTtyDevice) : st := mkState d (uart s) (umem s) (world s).
Definition with_uart (s : st) (u : Uart16550) : st := mkState (dev s) u (umem s) (world s).

Lemma bind_tty_get {B : Type} (s : st) (k : UartTtyDevice -> M st B) : (get ≫= k) s = k (dev s) s.
Proof. done. Qed.

Lemma bind_tty_put {B : Type} (s : st) d (k : unit -> M st B) : (put d ≫= k) s = k tt (with_dev s d).
Proof. done. Qed.

Lemma bind_tty_modify {B : Type} (s : st) f (k : unit -> M st B) : (modify f ≫= k) s = k tt (with_dev s (f (dev s))).
Proof. done. Qed.

Lemma bind_tty_lift {A B : Type} (s : st) (o : option A) a (k : A -> M st B) : o = Some a -> (lift o ≫= k) s = k a s.
Proof. intros ->. done. Qed.

(** *** Output *)

(** The transmitter sends [l]. *)
Definition sends (l : list Z) (u u' : Uart16550) : Prop := rx u' = rx u /\ tx u' = tx u ++ l.

Lemma sends_nil u : sends [] u u.
Proof. split; [done|]. by rewrite app_nil_r. Qed.

Lemma sends_app l1 l2 u1 u2 u3 : sends l1 u1 u2 -> sends l2 u2 u3 -> sends (l1 ++ l2) u1 u3.
Proof. intros [H1 H2] [H3 H4]. split; [congruence|]. by rewrite H4, H2, <- app_assoc. Qed.

Lemma write_loop_ok c : forall n (s : st) l, busy (uart s) = n :: l ->
  exists u, write_loop (S n) c s = Some (SUCCESS, with_uart s u) /\ sends [c] (uart s) u.
Proof.
  induction n as [|n IH]; intros s l Hb; cbn [write_loop]; unfold on_uart, writeUart16550, mbind, M_bind, option_bind; rewrite Hb.
  - by eexists.
  - change (EBUSY =? EBUSY) with true. cbv iota. set (s1 := mkState _ _ _ _). destruct (IH s1 l eq_refl) as (u & E & Hs).
    exists u. split; [exact E|]. by destruct Hs.
Qed.

Lemma write_char_ok c (s : st) : exists u, write_char c s = Some (SUCCESS, with_uart s u) /\ sends [c] (uart s) u.
Proof.
  unfold write_char. destruct (busy (uart s)) as [|n l] eqn:Hb; cbn [head default].
  - unfold write_loop, on_uart, writeUart16550, mbind, M_bind, option_bind. rewrite Hb. by eexists.
  - by eapply write_loop_ok.
Qed.

Lemma basicTtyWrite_ok c (s : st) : exists u,
  basicTtyWrite c s = Some (SUCCESS, with_uart s u) /\ sends (output (ctrl (dev s)) c) (uart s) u.
Proof.
  unfold basicTtyWrite, output. rewrite bind_tty_get. cbv zeta. destruct ((c =? CR) && flag _ ONOCR).
  { exists (uart s). split; [by destruct s|apply sends_nil]. }
  set (ch := if (c =? CR) && flag (oflag (ctrl (dev s))) OCRNL then NL else c). destruct ((ch =? NL) && flag _ ONLCR).
  - destruct (write_char_ok CR s) as (u & E & Hu). rewrite (bind_some _ _ _ _ _ E). change (SUCCESS =? SUCCESS) with true. cbv iota.
    destruct (write_char_ok ch (with_uart s u)) as (u' & E' & Hu'). exists u'. split; [exact E'|].
    by apply (sends_app [CR] [ch] _ u).
  - rewrite bind_ret. change (SUCCESS =? SUCCESS) with true. cbv iota. apply write_char_ok.
Qed.

Lemma bind_write {B : Type} c (s : st) (k : Z -> M st B) : exists u,
  (basicTtyWrite c ≫= k) s = k SUCCESS (with_uart s u) /\ sends (output (ctrl (dev s)) c) (uart s) u.
Proof.
  destruct (basicTtyWrite_ok c s) as (u & E & Hu). exists u. split; [|done]. by rewrite (bind_some _ _ _ _ _ E).
Qed.

(** Runs the next write. *)
Ltac run_write u H :=
  cbv beta;
  match goal with |- context [(basicTtyWrite ?c ≫= ?k) ?s] => destruct (bind_write c s k) as (u & -> & H) end;
  cbv beta.

Lemma rub_out_ok n (s : st) :
  let one := output (ctrl (dev s)) BS ++ output (ctrl (dev s)) SPACE ++ output (ctrl (dev s)) BS in
  exists u, rub_out n s = Some (tt, with_uart s u) /\ sends (List.concat (replicate n one)) (uart s) u.
Proof.
  intros one. revert s one. induction n as [|n IH]; intros s one; [exists (uart s); split; [by destruct s|apply sends_nil]|].
  cbn [rub_out replicate List.concat]. run_write u1 H1. run_write u2 H2. run_write u3 H3.
  change (with_uart _ u3) with (with_uart s u3).
  destruct (IH (with_uart s u3)) as (u4 & -> & H4). exists u4. split; [done|].
  unfold one. rewrite <- !app_assoc. eapply sends_app; [exact H1|]. eapply sends_app; [exact H2|].
  eapply sends_app; [exact H3|exact H4].
Qed.

Lemma echo_ok c (s : st) : exists u,
  echo c s = Some (tt, with_uart s u) /\ sends (echo_output (ctrl (dev s)) c) (uart s) u.
Proof.
  unfold echo, echo_output. rewrite bind_tty_get. cbv zeta. destruct (_ && _).
  - destruct (_ && isTerminalSpecialChar c).
    + run_write u1 H1. run_write u2 H2. exists u2. split; [done|]. by eapply sends_app.
    + run_write u1 H1. by exists u1.
  - exists (uart s). split; [by destruct s|apply sends_nil].
Qed.

(** *** Editing *)

Fixpoint signal_all (group : Z) (l : list Z) : M W unit :=
  match l with [] => mret tt | sg :: l' => signalProcessGroup group sg;; signal_all group l' end.

Lemma signal_all_snoc group l sg w w1 w2 :
  signal_all group l w = Some (tt, w1) -> signalProcessGroup group sg w1 = Some (tt, w2) -> signal_all group (l ++ [sg]) w = Some (tt, w2).
Proof.
  revert w. induction l as [|x l IH]; intros w H1 H2; cbn [app signal_all] in *.
  - injection H1 as ->. by rewrite (bind_some _ _ _ _ _ H2).
  - unfold mbind, M_bind in *. destruct (signalProcessGroup group x w) as [[[] w']|]; [|done]. by apply IH.
Qed.

(** The terminal [s] is [s0] with the session [x] since. *)
Record shows (s0 s : st) (x : session) : Prop := {
  sh_ring : ring (dev s);
  sh_text : contents (dev s) = text x;
  sh_delims : line_delim_count (dev s) = delims x;
  sh_sent : tx (uart s) = tx (uart s0) ++ sent x;
  sh_signals : signal_all (process_group (dev s0)) (signals x) (world s0) = Some (tt, world s);
  sh_umem : umem s = umem s0;
  sh_ctrl : ctrl (dev s) = ctrl (dev s0);
  sh_group : process_group (dev s) = process_group (dev s0);
  sh_blocked : blocked (dev s) = blocked (dev s0);
}.

(** What editing leaves alone. *)
Definition kept (s s' : st) : Prop := rx (uart s') = rx (uart s) /\ buffer_capacity (dev s') = buffer_capacity (dev s).

Lemma terminal_kept_trans s1 s2 s3 : kept s1 s2 -> kept s2 s3 -> kept s1 s3.
Proof. intros [H1 H2] [H3 H4]. split; congruence. Qed.

Lemma rub_output_eq c ch :
  List.concat (replicate (if flag (lflag c) ECHOCTL then if isTerminalSpecialChar ch then 2%nat else 1%nat else 1%nat)
    (output c BS ++ output c SPACE ++ output c BS)) = rub_output c ch.
Proof.
  unfold rub_output. destruct (flag (lflag c) ECHOCTL), (isTerminalSpecialChar ch); cbn [andb replicate List.concat]; by rewrite ?app_nil_r.
Qed.

Lemma last_contents d : ring d -> 0 < buffer_count d ->
  contents d = contents (set_count d (buffer_count d - 1)) ++ [slot d (buffer_count d - 1)].
Proof.
  intros H Hc. unfold contents at 1. rewrite (tab_split (buffer_count d - 1)) by lia. f_equal.
  replace (buffer_count d - (buffer_count d - 1)) with 1 by lia. rewrite tab_one. do 2 f_equal. lia.
Qed.

Lemma eraseLastCharacter_ok s0 s x : shows s0 s x ->
  exists s', eraseLastCharacter s = Some (tt, s') /\ shows s0 s' (erase (ctrl (dev s0)) x) /\ kept s s'.
Proof.
  intros H. destruct H as [Hr Ht Hd Hs Hg Hu Hc Hp Hb]. unfold eraseLastCharacter. rewrite bind_tty_get.
  destruct (Z.ltb_spec 0 (buffer_count (dev s))) as [Hpos|Hpos].
  - rewrite bind_tty_put. set (d := set_count (dev s) _). rewrite bind_tty_get. change (dev (with_dev s d)) with d.
    pose proof (last_contents _ Hr Hpos) as El. fold d in El. set (e := slot (dev s) _) in El.
    assert (Hx : erase (ctrl (dev s0)) x = mkSession (contents d) (delims x) (sent x ++ rub_output (ctrl (dev s0)) e) (signals x)).
    { unfold erase. rewrite <- Ht, El, rev_app_distr. cbn [List.rev app]. by rewrite rev_involutive. }
    rewrite Hx, <- rub_output_eq, <- Hc. change (ctrl d) with (ctrl (dev s)).
    assert (Hget : getBuffer d (buffer_count d) = Some e).
    { unfold getBuffer, ring_index. change (buffer_capacity d) with (buffer_capacity (dev s)).
      pose proof (r_count _ Hr). rewrite (proj2 (Z.eqb_neq _ _)) by lia. done. }
    set (n := if flag (lflag (ctrl (dev s))) ECHOCTL then if isTerminalSpecialChar e then 2%nat else 1%nat else 1%nat).
    destruct (rub_out_ok n (with_dev s d)) as (u & E & Hsend). exists (with_uart (with_dev s d) u). split.
    { rewrite <- E. unfold n. destruct (flag _ ECHOCTL); [|by rewrite bind_ret].
      rewrite bind_assoc, (bind_tty_lift _ _ _ _ Hget). by rewrite bind_ret. }
    destruct Hsend as [H1 H2]. split; [|by split]. split; try done.
    + apply set_count_ring; [done|]. pose proof (r_count _ Hr). lia.
    + cbn [sent]. change (tx (uart (with_uart _ u))) with (tx u). rewrite H2. cbn [uart with_dev]. by rewrite Hs, <- app_assoc.
  - exists s. split; [done|]. split; [|done].
    assert (Hnil : text x = []).
    { rewrite <- Ht. apply nil_length_inv. pose proof (contents_length _ Hr). lia. }
    unfold erase. rewrite Hnil. by split.
Qed.

Lemma kill_loop_ok s0 n : forall s x, shows s0 s x -> length (text x) = n ->
  exists s', kill_loop (S n) s = Some (tt, s') /\ shows s0 s' (erase_all n (ctrl (dev s0)) x) /\ kept s s'.
Proof.
  induction n as [|n IH]; intros s x H Hn.
  - exists s. split; [|done]. cbn [kill_loop]. rewrite bind_tty_get. pose proof (contents_length _ (sh_ring _ _ _ H)) as Hl.
    rewrite (sh_text _ _ _ H), Hn in Hl. by rewrite <- Hl.
  - pose proof (contents_length _ (sh_ring _ _ _ H)) as Hl. rewrite (sh_text _ _ _ H), Hn in Hl.
    destruct (eraseLastCharacter_ok _ _ _ H) as (s1 & E1 & H1 & K1).
    destruct (IH s1 (erase (ctrl (dev s0)) x) H1) as (s2 & E2 & H2 & K2).
    { unfold erase. pose proof (length_rev (text x)) as E. destruct (List.rev (text x)) as [|e l]; cbn [length] in *; [lia|].
      cbn [text]. rewrite length_rev. lia. }
    exists s2. split; [|split; [done|by eapply terminal_kept_trans]].
    cbn [kill_loop]. rewrite bind_tty_get, (proj2 (Z.ltb_lt _ _)) by lia. rewrite (bind_some _ _ _ _ _ E1). exact E2.
Qed.

(** *** A character arrives *)

Context (signal_ok : forall g sg w, exists w', signalProcessGroup g sg w = Some (tt, w')).

Lemma shows_stored s0 s x ch : shows s0 s x -> buffer_count (dev s) < buffer_capacity (dev s) ->
  shows s0 (with_dev s (stored (dev s) ch)) x.
Proof.
  intros [] Hc. split; try done; cbn [dev with_dev]; [by apply stored_ring|by rewrite stored_contents].
Qed.

Lemma take_input_ok s0 s x ch : shows s0 s x -> buffer_count (dev s) < buffer_capacity (dev s) ->
  exists s', take_input signalProcessGroup ch (with_dev s (stored (dev s) ch)) = Some (tt, s') /\
    shows s0 s' (enter (ctrl (dev s0)) x ch) /\ kept s s'.
Proof.
  intros H Hroom. pose proof (shows_stored s0 s x ch H Hroom) as Hs. set (s1 := with_dev s _) in *.
  assert (K1 : kept s s1) by done. unfold take_input, enter. rewrite bind_tty_get. rewrite (sh_ctrl _ _ _ Hs). cbv zeta.
  destruct (_ && (ch =? key _ VERASE)).
  { destruct (eraseLastCharacter_ok _ _ _ Hs) as (s' & E & H' & K). by exists s'. }
  destruct (_ && (ch =? key _ VKILL)).
  { destruct (kill_loop_ok s0 (length (text x)) s1 x Hs eq_refl) as (s' & E & H' & K). exists s'. split; [|done].
    rewrite <- E. do 2 f_equal. pose proof (contents_length _ (sh_ring _ _ _ Hs)) as Hl. rewrite (sh_text _ _ _ Hs) in Hl. lia. }
  destruct (is_signal _ ch).
  { rewrite (sh_group _ _ _ Hs). set (sg := signal_of _ ch). destruct (signal_ok (process_group (dev s0)) sg (world s1)) as [w' Hw].
    exists (mkState (dev s1) (uart s1) (umem s1) w'). split.
    { unfold on_world. by rewrite Hw. }
    split; [|done]. destruct Hs. split; try done. cbn [world]. by eapply signal_all_snoc. }
  set (d1 := if is_delim (ctrl (dev s0)) ch then set_delims (dev s1) (line_delim_count (dev s1) +% 1) else dev s1).
  set (d2 := set_count d1 (buffer_count d1 + 1)).
  destruct (echo_ok ch (with_dev s1 d2)) as (u & E & Hu1 & Hu2).
  exists (with_uart (with_dev s1 d2) u). split; [|split; [|]].
  - rewrite <- E. unfold d2, d1. destruct (is_delim _ ch); [rewrite bind_tty_modify|rewrite bind_ret]; done.
  - destruct H. destruct Hs as [Hr' Ht' Hd' Hsent' Hg' Hum' Hc' Hp' Hb'].
    assert (Hctrl : ctrl (dev (with_dev s1 d2)) = ctrl (dev s0)) by (unfold d2, d1; cbn [dev with_dev]; by destruct (is_delim _ ch)).
    rewrite Hctrl in Hu2. split; try done.
    + unfold d2, d1. cbn [dev with_uart with_dev]. pose proof (r_count _ Hr').
      destruct (is_delim _ ch); cbn; by (destruct Hr'; split; cbn in *; lia).
    + cbn [dev with_uart with_dev text]. unfold d2, d1.
      transitivity (contents (set_count (stored (dev s) ch) (buffer_count (dev s) + 1))); [by destruct (is_delim _ ch)|].
      rewrite push_contents by done. by f_equal.
    + unfold d2, d1. cbn [dev with_uart with_dev delims]. rewrite <- Hd'. by destruct (is_delim _ ch).
    + cbn [uart with_uart sent]. rewrite Hu2. cbn [uart with_dev]. by rewrite Hsent', <- app_assoc.
    + unfold d2, d1. cbn [dev with_uart with_dev]. by destruct (is_delim _ ch).
    + unfold d2, d1. cbn [dev with_uart with_dev]. by destruct (is_delim _ ch).
  - split; [done|]. unfold d2, d1. cbn [dev with_uart with_dev]. by destruct (is_delim _ ch).
Qed.

(** Where the first buffer is allocated, 512 characters fit. *)
Definition room (d : UartTtyDevice) : Z :=
  if buffer_capacity d =? 0 then INITIAL_TTY_BUFFER_CAPACITY else buffer_capacity d.

(** The buffer is allocated when it is used for the first time; with room in it,
    nothing else happens to it. *)
Lemma first_buffer (s : st) : ring (dev s) -> buffer_count (dev s) < room (dev s) ->
  (if buffer_count (dev s) =? buffer_capacity (dev s) then uartTtyResizeBuffer else mret tt) s =
  Some (tt, with_dev s (set_capacity (dev s) (room (dev s)))).
Proof.
  intros Hr Hroom. pose proof (r_count _ Hr) as Hc. unfold room in *. destruct (Z.eqb_spec (buffer_capacity (dev s)) 0) as [E0|E0].
  - rewrite (proj2 (Z.eqb_eq (buffer_count (dev s)) _)) by lia. unfold uartTtyResizeBuffer. rewrite bind_tty_get, E0.
    change (0 =? 0) with true. cbv zeta iota. change (MAX_TTY_BUFFER_CAPACITY <? INITIAL_TTY_BUFFER_CAPACITY) with false. cbv iota.
    change (negb (INITIAL_TTY_BUFFER_CAPACITY =? 0)) with true. cbv iota.
    destruct (r_start _ Hr) as [_ Hst]. rewrite (proj2 (Z.ltb_ge _ _)) by lia. by rewrite bind_ret.
  - rewrite (proj2 (Z.eqb_neq _ _)) by lia. by destruct s as [[]].
Qed.

Lemma shows_room s0 s x : shows s0 s x -> shows s0 (with_dev s (set_capacity (dev s) (room (dev s)))) x.
Proof.
  intros []. unfold room. destruct (Z.eqb_spec (buffer_capacity (dev s)) 0) as [E0|E0]; [|by destruct s as [[]]].
  pose proof (r_count _ sh_ring0) as Hc. destruct (r_start _ sh_ring0) as [Hs0 Hs]. split; try done.
  - split; cbn [dev with_dev set_capacity buffer_count buffer_capacity buffer_start]; unfold INITIAL_TTY_BUFFER_CAPACITY, MAX_TTY_BUFFER_CAPACITY; lia.
  - rewrite <- sh_text0. apply contents_ext; [done|]. cbn [dev with_dev set_capacity buffer_count]. lia.
Qed.

Lemma basicTtyRead_ok s0 s x : shows s0 s x -> buffer_count (dev s) < room (dev s) ->
  exists s', buffer_capacity (dev s') = room (dev s) /\
  match rx (uart s) with
  | [] => basicTtyRead signalProcessGroup s = Some (Bad EAGAIN, s') /\ shows s0 s' x /\ rx (uart s') = []
  | c :: l => basicTtyRead signalProcessGroup s = Some (Good tt, s') /\ shows s0 s' (type_char (ctrl (dev s0)) x c) /\ rx (uart s') = l
  end.
Proof.
  intros H Hroom. pose proof (shows_room _ _ _ H) as H1. pose proof (first_buffer s (sh_ring _ _ _ H) Hroom) as E1.
  set (s1 := with_dev s _) in *. assert (Hc1 : buffer_count (dev s1) < buffer_capacity (dev s1)) by done.
  assert (Hcap : buffer_capacity (dev s1) <> 0) by (pose proof (r_count _ (sh_ring _ _ _ H1)); lia).
  assert (Hkeep : forall s' : st, buffer_capacity (dev s') = buffer_capacity (dev s1) -> buffer_capacity (dev s') = room (dev s)) by (by intros s' ->).
  assert (Hrun : forall (k : UartTtyDevice -> Z -> M st (result unit)),
    (d ← get; (if buffer_count d =? buffer_capacity d then uartTtyResizeBuffer else mret tt);;
     d ← get; (if buffer_count d =? buffer_capacity d then put (set_count d (buffer_count d -% 1)) else mret tt);;
     d ← get; new ← lift (ring_index d (buffer_count d)); k d new) s =
    k (dev s1) ((buffer_start (dev s1) + buffer_count (dev s1)) mod buffer_capacity (dev s1)) s1).
  { intros k. rewrite bind_tty_get, (bind_some _ _ _ _ _ E1), bind_tty_get.
    rewrite (proj2 (Z.eqb_neq (buffer_count (dev s1)) _)) by lia. rewrite bind_ret, bind_tty_get.
    erewrite bind_tty_lift by (unfold ring_index; rewrite (proj2 (Z.eqb_neq _ _)) by done; reflexivity). done. }
  unfold basicTtyRead. rewrite Hrun. change (rx (uart s)) with (rx (uart s1)). clearbody s1. clear Hrun E1.
  destruct (rx (uart s1)) as [|c l] eqn:Erx.
  - exists s1. split; [by apply Hkeep|]. split; [|done]. unfold on_uart, readUart16550, mbind, M_bind, option_bind. rewrite Erx. by destruct s1.
  - set (s2 := with_uart s1 (mkUart l (tx (uart s1)) (busy (uart s1)))).
    assert (H2 : shows s0 s2 x) by (destruct H1; by split).
    assert (Hread : forall k : result Z -> M st (result unit), (on_uart readUart16550 ≫= k) s1 = k (Good c) s2).
    { intros k. apply bind_some. unfold on_uart, readUart16550. by rewrite Erx. }
    rewrite Hread, (sh_ctrl _ _ _ H1). unfold type_char. destruct (map_input (ctrl (dev s0)) c) as [ch|].
    + rewrite bind_tty_put. destruct (take_input_ok s0 s2 x ch H2 Hc1) as (s' & E & Hs' & K). exists s'. split; [by apply Hkeep; destruct K|].
      split; [|split; [done|by destruct K]]. change (with_dev s2 _) with (with_dev s2 (stored (dev s2) ch)). by rewrite (bind_some _ _ _ _ _ E).
    + rewrite bind_tty_put. exists (with_dev s2 (stored (dev s2) c)). split; [by apply Hkeep|]. split; [done|].
      split; [by apply shows_stored|done].
Qed.

Lemma erase_length c x : (length (text (erase c x)) <= length (text x))%nat.
Proof.
  unfold erase. pose proof (length_rev (text x)) as E. destruct (List.rev (text x)); cbn [text length] in *; [lia|]. rewrite length_rev. lia.
Qed.

Lemma erase_all_length c n : forall x, (length (text (erase_all n c x)) <= length (text x))%nat.
Proof. induction n as [|n IH]; intros x; [done|]. cbn [erase_all]. etransitivity; [apply IH|apply erase_length]. Qed.

Lemma type_char_length c x ch : (length (text (type_char c x ch)) <= S (length (text x)))%nat.
Proof.
  unfold type_char, enter. destruct (map_input c ch) as [ch'|]; [|lia].
  destruct (_ && _); [pose proof (erase_length c x); lia|]. destruct (_ && _); [pose proof (erase_all_length c (length (text x)) x); lia|].
  destruct (is_signal c ch'); cbn [text]; [lia|]. rewrite length_app. cbn. lia.
Qed.

Lemma room_capacity d : ring d -> 0 < buffer_capacity d -> room d = buffer_capacity d.
Proof. intros H Hc. unfold room. by rewrite (proj2 (Z.eqb_neq _ _)) by lia. Qed.

Lemma read_all_ok s0 l : forall s x, shows s0 s x -> rx (uart s) = l -> Z.of_nat (length (text x) + length l) < room (dev s) ->
  exists s', read_all signalProcessGroup (S (length l)) s = Some (tt, s') /\ shows s0 s' (foldl (type_char (ctrl (dev s0))) x l) /\ rx (uart s') = [] /\
    buffer_capacity (dev s') = room (dev s).
Proof.
  induction l as [|c l IH]; intros s x H Erx Hroom; cbn [length] in *.
  - pose proof (contents_length _ (sh_ring _ _ _ H)) as Hl. rewrite (sh_text _ _ _ H) in Hl.
    destruct (basicTtyRead_ok s0 s x H) as (s' & Hcap & Hrun); [lia|]. rewrite Erx in Hrun. destruct Hrun as (E & H' & E').
    exists s'. split; [|by split]. cbn [read_all]. by rewrite (bind_some _ _ _ _ _ E).
  - pose proof (contents_length _ (sh_ring _ _ _ H)) as Hl. rewrite (sh_text _ _ _ H) in Hl.
    destruct (basicTtyRead_ok s0 s x H) as (s1 & Hr & Hrun); [lia|]. rewrite Erx in Hrun. destruct Hrun as (E & H1 & E1).
    pose proof (type_char_length (ctrl (dev s0)) x c).
    assert (Hr1 : room (dev s1) = room (dev s)) by (rewrite <- Hr; apply room_capacity; [apply H1|lia]).
    destruct (IH s1 _ H1 E1) as (s' & E' & H' & Erx' & Hcap); [rewrite Hr1; lia|].
    exists s'. split; [|split; [done|split; [done|congruence]]]. cbn [read_all]. by rewrite (bind_some _ _ _ _ _ E).
Qed.

Context (wake : Z -> M W unit) (addRandomEvent : M W unit).
Context (wake_ok : forall t w, exists w', wake t w = Some (tt, w')).

Fixpoint wake_list (l : list Z) : M W unit := match l with [] => mret tt | t :: l' => wake t;; wake_list l' end.

Lemma wake_all_ok l : forall s, blocked (dev s) = l ->
  exists w, wake_all wake l s = Some (tt, mkState (set_blocked (dev s) []) (uart s) (umem s) w) /\ wake_list l (world s) = Some (tt, w).
Proof.
  induction l as [|t l IH]; intros s Hs; cbn [wake_all wake_list].
  - exists (world s). split; [|done]. destruct s as [[] ? ? ?]. cbn in Hs. by subst.
  - rewrite bind_tty_modify. set (s1 := with_dev s _). destruct (wake_ok t (world s)) as [w1 E1].
    set (s2 := mkState (dev s1) (uart s) (umem s) w1). destruct (IH s2) as (w & E & Ew); [done|].
    exists w. split; [|by rewrite (bind_some _ _ _ _ _ E1)].
    assert (E2 : on_world (wake t) s1 = Some (tt, s2)) by (unfold on_world; cbn [world s1 with_dev]; by rewrite E1).
    by rewrite (bind_some _ _ _ _ _ E2).
Qed.

(** The session that begins with what is in the buffer of a terminal. *)
Definition session_of (d : UartTtyDevice) : session := mkSession (contents d) (line_delim_count d) [] [].

Lemma shows_self s : ring (dev s) -> shows s s (session_of (dev s)).
Proof. intros H. split; try done. cbn. by rewrite app_nil_r. Qed.

Lemma uartTtyDataReady_ok (s : st) time w0 :
  ring (dev s) -> buffer_count (dev s) + Z.of_nat (length (rx (uart s))) < room (dev s) -> addRandomEvent (world s) = Some (tt, w0) ->
  exists s', uartTtyDataReady signalProcessGroup wake addRandomEvent time s = Some (tt, s') /\
    let x := foldl (type_char (ctrl (dev s))) (session_of (dev s)) (rx (uart s)) in
    let woken := if canReturnRead time (dev s') then blocked (dev s) else [] in
    ring (dev s') /\ contents (dev s') = text x /\ line_delim_count (dev s') = delims x /\
    rx (uart s') = [] /\ tx (uart s') = tx (uart s) ++ sent x /\ umem s' = umem s /\ buffer_capacity (dev s') = room (dev s) /\
    ctrl (dev s') = ctrl (dev s) /\ last_byte (dev s') = time /\
    blocked (dev s') = (if canReturnRead time (dev s') then [] else blocked (dev s)) /\
    (signal_all (process_group (dev s)) (signals x);; wake_list woken) w0 = Some (tt, world s').
Proof.
  intros Hr Hroom Hw0. set (s0 := mkState (dev s) (uart s) (umem s) w0).
  pose proof (contents_length _ Hr) as Hl.
  destruct (read_all_ok s0 (rx (uart s)) s0 (session_of (dev s)) (shows_self s0 Hr) eq_refl) as (s1 & E1 & H1 & Erx & Hcap).
  { cbn [text session_of]. change (dev s0) with (dev s). lia. }
  change (ctrl (dev s0)) with (ctrl (dev s)) in H1. set (x := foldl _ _ _) in *. destruct H1.
  set (s2 := with_dev s1 (set_last_byte (dev s1) time)).
  assert (Erun : uartTtyDataReady signalProcessGroup wake addRandomEvent time s = (wakeupIfRequired wake time;; mret tt) s2).
  { unfold uartTtyDataReady. erewrite (bind_some (on_world _)) by (unfold on_world; rewrite Hw0; reflexivity). fold s0.
    erewrite (bind_some (fun s : st => _)) by exact E1. by rewrite bind_tty_modify. }
  rewrite Erun. unfold wakeupIfRequired. rewrite bind_assoc, bind_tty_get. destruct (canReturnRead time (dev s2)) eqn:Ecan.
  - destruct (wake_all_ok (blocked (dev s2)) s2 eq_refl) as (w & E & Ew). rewrite bind_assoc, (bind_some _ _ _ _ _ E).
    eexists. split; [reflexivity|]. cbv zeta. cbn [dev uart umem world mret M_ret].
    change (canReturnRead time (set_blocked (dev s2) [])) with (canReturnRead time (dev s2)). rewrite Ecan.
    assert (Eb : blocked (dev s2) = blocked (dev s)) by exact sh_blocked0. rewrite Eb in Ew.
    split_and!; try done; [by destruct sh_ring0|]. by rewrite (bind_some _ _ _ _ _ sh_signals0).
  - exists s2. split; [done|]. cbv zeta. rewrite Ecan. split_and!; try done; [by destruct sh_ring0|].
    by rewrite (bind_some _ _ _ _ _ sh_signals0).
Qed.

(** When characters have arrived and fit in the buffer, the terminal takes all
    of them, and has edited, echoed and signalled what the line discipline says,
    character by character; the tasks that wait are woken up exactly when a read
    can return. *)
Theorem uartTtyDataReady_types (s : st) time w0 :
  ring (dev s) -> buffer_count (dev s) + Z.of_nat (length (rx (uart s))) < room (dev s) -> addRandomEvent (world s) = Some (tt, w0) ->
  exists s', uartTtyDataReady signalProcessGroup wake addRandomEvent time s = Some (tt, s') /\
    let x := foldl (type_char (ctrl (dev s))) (session_of (dev s)) (rx (uart s)) in
    let woken := if canReturnRead time (dev s') then blocked (dev s) else [] in
    ring (dev s') /\ contents (dev s') = text x /\ line_delim_count (dev s') = delims x /\
    rx (uart s') = [] /\ tx (uart s') = tx (uart s) ++ sent x /\ umem s' = umem s /\ buffer_capacity (dev s') = room (dev s) /\
    ctrl (dev s') = ctrl (dev s) /\ last_byte (dev s') = time /\
    blocked (dev s') = (if canReturnRead time (dev s') then [] else blocked (dev s)) /\
    (signal_all (process_group (dev s)) (signals x);; wake_list woken) w0 = Some (tt, world s').
Proof. apply uartTtyDataReady_ok. Qed.

End Typing.

(** ** Reading *)

(** The length of the first line: with its end, but without the character that
    marks the end of the file. *)
Fixpoint first_line (c : Termios) (l : list Z) : option Z :=
  match l with
  | [] => None
  | ch :: l' =>
      if (ch =? NL) || (ch =? key c VEOL) then Some 1
      else if ch =? key c VEOF then Some 0
      else n ← first_line c l'; Some (1 + n)
  end.

Definition canonical (c : Termios) : bool := flag (lflag c) ICANON.

(** How many characters a read may take. *)
Definition available (c : Termios) (l : list Z) : Z :=
  if canonical c then default 0 (first_line c l) else Z.of_nat (length l).

Definition count_delims (c : Termios) (l : list Z) : Z := Z.of_nat (length (List.filter (is_delim c) l)).

(** The end-of-file character behind a line is taken with it: the count goes
    down, but the start of the ring does not move. *)
Definition eof_next (c : Termios) (l : list Z) : bool :=
  canonical c && match l with [] => false | ch :: _ => ch =? key c VEOF end.

(** The session after a read of [n] characters. *)
Definition taken (c : Termios) (x : session) (n : Z) : session :=
  let l := drop (Z.to_nat n) (text x) in
  let d := u64 (delims x - count_delims c (take (Z.to_nat n) (text x))) in
  if eof_next c l then mkSession (take (length l - 1) l) (d -% 1) (sent x) (signals x)
  else mkSession l d (sent x) (signals x).

Section Reading.
Context {W : Type}.
Abbreviation st := (state (W := W)).

Lemma contents_drop d i : ring d -> 0 <= i < buffer_count d ->
  exists c, getBuffer d i = Some c /\ drop (Z.to_nat i) (contents d) = c :: drop (Z.to_nat (i + 1)) (contents d).
Proof.
  intros H Hi. destruct (getBuffer_ok d i H Hi) as (c & E1 & E2 & _). exists c. split; [done|].
  rewrite (drop_S _ c) by done. do 2 f_equal. lia.
Qed.

Lemma line_loop_ok d n : forall i, ring d -> 0 <= i -> buffer_count d = i + Z.of_nat n ->
  line_loop n d i = Some (match first_line (ctrl d) (drop (Z.to_nat i) (contents d)) with Some k => i + k | None => 0 end).
Proof.
  induction n as [|n IH]; intros i H Hi Hn; cbn [line_loop].
  - pose proof (contents_length _ H). rewrite drop_ge by lia. done.
  - destruct (contents_drop d i H) as (c & E & ->); [lia|]. rewrite E. cbn [mbind option_bind first_line].
    destruct ((c =? NL) || (c =? key (ctrl d) VEOL)); [done|]. destruct (c =? key (ctrl d) VEOF); [by rewrite Z.add_0_r|].
    rewrite IH by (done || lia). destruct (first_line _ _); cbn; [f_equal; lia|done].
Qed.

Lemma bufferLineLength_ok d : ring d -> bufferLineLength d = Some (default 0 (first_line (ctrl d) (contents d))).
Proof.
  intros H. unfold bufferLineLength. rewrite line_loop_ok by (done || (pose proof (r_count _ H); lia)).
  rewrite drop_0. by destruct (first_line _ _).
Qed.

Lemma first_line_bound c l n : first_line c l = Some n -> 0 <= n <= Z.of_nat (length l).
Proof.
  revert n. induction l as [|ch l IH]; intros n; cbn [first_line length]; [done|].
  destruct (_ || _); [intros [= <-]; lia|]. destruct (_ =? _); [intros [= <-]; lia|].
  destruct (first_line c l) as [k|]; cbn; [|done]. intros [= <-]. specialize (IH k eq_refl). lia.
Qed.

Lemma available_bound c l : 0 <= available c l <= Z.of_nat (length l).
Proof.
  unfold available. destruct (canonical c); [|lia]. destruct (first_line c l) as [n|] eqn:E; cbn; [by apply first_line_bound in E|lia].
Qed.

Lemma count_delims_cons c ch l : count_delims c (ch :: l) = (if is_delim c ch then 1 else 0) + count_delims c l.
Proof. unfold count_delims. cbn [List.filter]. destruct (is_delim c ch); cbn [length]; lia. Qed.

Lemma take_drop_cons {A : Type} (l l' : list A) i n c : drop i l = c :: l' -> take (S n) (drop i l) = c :: take n (drop (S i) l).
Proof. intros H. rewrite H. cbn. f_equal. replace (S i) with (i + 1)%nat by lia. rewrite <- drop_drop, H. done. Qed.

Lemma uncount_loop_ok n : forall (s : st) i, ring (dev s) -> 0 <= i -> i + Z.of_nat n <= buffer_count (dev s) ->
  0 <= line_delim_count (dev s) < 2 ^ 64 ->
  uncount_loop n i s = Some (tt, mkState (set_delims (dev s) (u64 (line_delim_count (dev s)
    - count_delims (ctrl (dev s)) (take n (drop (Z.to_nat i) (contents (dev s))))))) (uart s) (umem s) (world s)).
Proof.
  induction n as [|n IH]; intros s i H Hi Hn Hd; cbn [uncount_loop].
  - cbn [take]. change (count_delims _ []) with 0. rewrite Z.sub_0_r, wrap_small by lia. by destruct s as [[]].
  - rewrite bind_tty_get. destruct (contents_drop (dev s) i H) as (c & E & Ed); [lia|]. rewrite (bind_tty_lift _ _ _ _ E).
    rewrite (take_drop_cons _ _ _ _ _ Ed), count_delims_cons. replace (S (Z.to_nat i)) with (Z.to_nat (i + 1)) by lia.
    destruct (is_delim (ctrl (dev s)) c).
    + rewrite bind_tty_put. assert (Hr : ring (dev (with_dev s (set_delims (dev s) (line_delim_count (dev s) -% 1))))) by by destruct H.
      rewrite (IH _ (i + 1) Hr); [|lia|cbn; lia|apply wrap_range; lia].
      cbn [dev with_dev uart umem world]. do 3 f_equal.
      change (contents (set_delims ?d ?n)) with (contents d). change (ctrl (set_delims ?d ?n)) with (ctrl d).
      change (line_delim_count (set_delims ?d ?n)) with n. change (set_delims (set_delims ?d ?n) ?k) with (set_delims d k).
      f_equal. unfold wrap. rewrite Zminus_mod_idemp_l. f_equal. lia.
    + rewrite bind_ret, IH by (done || lia). done.
Qed.

Lemma copy_out_ok (s : st) address n : ring (dev s) -> 0 < buffer_capacity (dev s) -> 0 <= n <= buffer_count (dev s) ->
  exists m, copy_out address n s = Some (tt, mkState (dev s) (uart s) m (world s)) /\
    forall a, m a = put_bytes (umem s) address (take (Z.to_nat n) (contents (dev s))) a.
Proof.
  intros H Hc Hn. unfold copy_out. rewrite bind_tty_get, (ring_bytes _ _ H Hc Hn).
  destruct (_ <? _) eqn:E; eexists; (split; [reflexivity|]); [|done]. intros a. cbn [umem].
  rewrite <- put_bytes_app. f_equal. rewrite bytes_at_tab, tab_length. pose proof (r_start _ H). lia.
Qed.

Lemma drop_eof_ok (s : st) : ring (dev s) ->
  exists d, drop_eof s = Some (tt, mkState d (uart s) (umem s) (world s)) /\ ring d /\
    d = (if eof_next (ctrl (dev s)) (contents (dev s))
         then set_delims (set_count (dev s) (buffer_count (dev s) - 1)) (line_delim_count (dev s) -% 1) else dev s).
Proof.
  intros H. pose proof (contents_length _ H) as Hl. unfold drop_eof, eof_next, canonical. rewrite bind_tty_get.
  destruct (flag (lflag (ctrl (dev s))) ICANON); cbn [andb]; [|exists (dev s); by destruct s].
  destruct (Z.ltb_spec 0 (buffer_count (dev s))) as [Hc|Hc].
  - destruct (contents_drop (dev s) 0 H) as (c & E & Ed); [lia|]. change (drop (Z.to_nat 0) (contents (dev s))) with (contents (dev s)) in Ed.
    rewrite (bind_tty_lift _ _ _ _ E), Ed. destruct (c =? _).
    + eexists. split; [reflexivity|]. split; [|done]. destruct H. split; cbn in *; lia.
    + exists (dev s). by destruct s.
  - destruct (contents (dev s)) as [|c l]; [|cbn in Hl; lia]. exists (dev s). by destruct s.
Qed.

(** The device at the moment a read looks at it. *)
Definition looked_at (time : Z) (d : UartTtyDevice) : UartTtyDevice :=
  if negb (flag (lflag (ctrl d)) ICANON) && negb (key (ctrl d) VTIME =? 0) && bool_decide (blocked d = [])
  then set_last_byte d time else d.

Lemma looked_at_same time d : ring d -> ring (looked_at time d) /\ contents (looked_at time d) = contents d /\
  line_delim_count (looked_at time d) = line_delim_count d /\ ctrl (looked_at time d) = ctrl d /\
  buffer_capacity (looked_at time d) = buffer_capacity d /\ blocked (looked_at time d) = blocked d /\
  process_group (looked_at time d) = process_group d /\ buffer_count (looked_at time d) = buffer_count d.
Proof. intros []. unfold looked_at. by destruct (_ && _). Qed.

Lemma look_ok (s : st) time :
  (if negb (flag (lflag (ctrl (dev s))) ICANON) && negb (key (ctrl (dev s)) VTIME =? 0) && bool_decide (blocked (dev s) = [])
   then put (set_last_byte (dev s) time) else mret tt) s = Some (tt, with_dev s (looked_at time (dev s))).
Proof.
  unfold looked_at. destruct (negb (flag _ ICANON) && _ && bool_decide (blocked (dev s) = [])); [done|by destruct s].
Qed.

Lemma uartTtyReadOrWait_ok (setTimeout sleep : Z -> M W unit) (s : st) time pending task address size block :
  ring (dev s) -> 0 < buffer_capacity (dev s) -> 0 <= line_delim_count (dev s) < 2 ^ 64 -> 0 <= size ->
  canReturnRead time (looked_at time (dev s)) = true ->
  let c := ctrl (dev s) in
  let n := Z.min (available c (contents (dev s))) size in
  let x := taken c (session_of (dev s)) n in
  exists s', uartTtyReadOrWait setTimeout sleep time pending task address size block s = Some (Returned (Good n), s') /\
    ring (dev s') /\ contents (dev s') = text x /\ line_delim_count (dev s') = delims x /\
    (forall a, umem s' a = put_bytes (umem s) address (take (Z.to_nat n) (contents (dev s))) a) /\
    uart s' = uart s /\ world s' = world s /\ ctrl (dev s') = c /\ buffer_capacity (dev s') = buffer_capacity (dev s) /\
    blocked (dev s') = blocked (dev s) /\ process_group (dev s') = process_group (dev s) /\ last_byte (dev s') = last_byte (looked_at time (dev s)).
Proof.
  intros Hr0 Hcap Hd Hsize Hcan c n x. destruct (looked_at_same time (dev s) Hr0) as (Hr & Et & Ed & Ec & Ecap & Eb & Eg & Ecount).
  pose proof (available_bound c (contents (dev s))) as Hav. pose proof (contents_length _ Hr0) as Hlen.
  assert (Hn : 0 <= n <= buffer_count (dev s)) by lia.
  unfold uartTtyReadOrWait. rewrite bind_tty_get.
  set (d1 := looked_at time (dev s)) in *. set (s1 := with_dev s d1).
  rewrite (bind_some _ _ _ _ _ (look_ok s time)), bind_tty_get. fold d1 s1. change (dev s1) with d1. rewrite Hcan.
  assert (E2 : (if flag (lflag (ctrl d1)) ICANON then lift (bufferLineLength d1) else mret (buffer_count d1)) s1 = Some (available c (contents (dev s)), s1)).
  { rewrite Ec. unfold available. fold c. unfold canonical. destruct (flag (lflag c) ICANON).
    - unfold lift. rewrite bufferLineLength_ok by done. rewrite Et, Ec. done.
    - unfold mret, M_ret. do 2 f_equal. lia. }
  rewrite (bind_some _ _ _ _ _ E2). cbv zeta. rewrite Util.umin_spec. fold n.
  rewrite (bind_some _ _ _ _ _ (uncount_loop_ok (Z.to_nat n) s1 0 Hr ltac:(lia) ltac:(cbn [dev s1 with_dev]; lia) ltac:(cbn [dev s1 with_dev]; lia))).
  change (drop (Z.to_nat 0) (contents (dev s1))) with (contents d1). rewrite Et. change (dev s1) with d1. change (uart s1) with (uart s).
  change (umem s1) with (umem s). change (world s1) with (world s). rewrite Ec, Ed. fold c.
  set (k := u64 (line_delim_count (dev s) - count_delims c (take (Z.to_nat n) (contents (dev s))))).
  set (d2 := set_delims d1 k). set (s2 := mkState d2 _ _ _). assert (Hr2 : ring (dev s2)) by by destruct Hr.
  destruct (copy_out_ok s2 address n Hr2) as (m & E3 & Hm); [cbn [dev s2 d2 set_delims buffer_capacity]; lia|cbn [dev s2 d2 set_delims buffer_count]; lia|].
  rewrite (bind_some _ _ _ _ _ E3). set (s3 := mkState _ _ _ _). set (d3 := set_range d2 ((buffer_start d2 + n) mod buffer_capacity d2) (buffer_count d2 - n)).
  assert (E4 : advance n s3 = Some (tt, with_dev s3 d3)).
  { unfold advance. rewrite bind_tty_get. erewrite bind_tty_lift; [reflexivity|]. unfold ring_index.
    change (buffer_capacity (dev s3)) with (buffer_capacity d1). rewrite (proj2 (Z.eqb_neq _ _)) by lia. done. }
  rewrite (bind_some _ _ _ _ _ E4).
  assert (Hn1 : 0 <= n <= buffer_count d2) by (cbn [d2 set_delims buffer_count]; lia).
  assert (Hr3 : ring d3) by (apply advance_ring; [done|cbn [d2 set_delims buffer_capacity]; lia|done]).
  assert (Et3 : contents d3 = drop (Z.to_nat n) (contents (dev s))).
  { unfold d3. rewrite drop_contents by done. change (contents d2) with (contents d1). by rewrite Et. }
  destruct (drop_eof_ok (with_dev s3 d3) Hr3) as (d4 & E5 & Hr4 & Ed4). rewrite (bind_some _ _ _ _ _ E5).
  eexists. split; [reflexivity|]. cbn [dev uart umem world].
  change (dev (with_dev s3 d3)) with d3 in Ed4. change (ctrl d3) with (ctrl d1) in Ed4. rewrite Ec, Et3 in Ed4. fold c in Ed4.
  assert (Hx : contents d4 = text x /\ line_delim_count d4 = delims x).
  { unfold x, taken. cbn [text delims session_of sent signals]. destruct (eof_next c _) eqn:Eeof; subst d4; cbn [text delims]; [|by rewrite Et3].
    split; [|done]. change (contents (set_delims ?d ?j)) with (contents d).
    assert (Hlen3 : Z.of_nat (length (contents d3)) = buffer_count d3) by by apply contents_length.
    assert (0 < length (contents d3))%nat.
    { rewrite Et3. unfold eof_next in Eeof. destruct (drop (Z.to_nat n) (contents (dev s))); [by rewrite andb_false_r in Eeof|cbn; lia]. }
    rewrite take_contents by (done || lia). rewrite Et3. f_equal. rewrite <- Et3. lia. }
  destruct Hx as [Hx1 Hx2]. assert (Hsame : ctrl d4 = c /\ buffer_capacity d4 = buffer_capacity (dev s) /\ blocked d4 = blocked (dev s) /\
    process_group d4 = process_group (dev s) /\ last_byte d4 = last_byte d1).
  { rewrite Ed4. destruct (eof_next _ _); cbn; by rewrite ?Ec, ?Ecap, ?Eb, ?Eg. }
  destruct Hsame as (? & ? & ? & ? & ?). split_and!; try done.
  intros a. rewrite Hm. cbn [dev s2]. change (contents d2) with (contents d1). by rewrite Et.
Qed.

End Reading.

(** ** The terminal as a machine

    Characters arrive and reads that do not wait are made, in any order. *)
Inductive op : Type :=
| Arrive (l : list Z) (time : Z)
| Read (time task address size : Z).

(** What a read gets: the characters, or an error. *)
Abbreviation answers := (list (result (list Z))).

(** When a read returns, seen from the session and the time of the last
    character. *)
Definition can_return (c : Termios) (time : Z) (x : session) (last : Z) : bool :=
  let n := Z.of_nat (length (text x)) in
  if canonical c then 0 <? delims x
  else if key c VTIME =? 0 then key c VMIN <=? n
  else (Z.max (key c VMIN) 1 <=? n) || ((Z.min (key c VMIN) 1 <=? n) && (last +% (key c VTIME * CLOCKS_PER_SEC / 10) <? time)).

(** A step with room for [R] characters; [None]: too many characters arrive. *)
Definition machine_step (c : Termios) (R : Z) (x : session) (last : Z) (o : op) : option (session * Z * answers) :=
  match o with
  | Arrive l time =>
      if Z.of_nat (length (text x) + length l) <? R then Some (foldl (type_char c) x l, time, []) else None
  | Read time _ _ size =>
      let last := if negb (canonical c) && negb (key c VTIME =? 0) then time else last in
      if can_return c time x last then
        let n := Z.min (available c (text x)) size in
        Some (taken c x n, last, [Good (take (Z.to_nat n) (text x))])
      else Some (x, last, [Bad EAGAIN])
  end.

Fixpoint machine_run (c : Termios) (R : Z) (x : session) (last : Z) (ops : list op) : option (session * Z * answers) :=
  match ops with
  | [] => Some (x, last, [])
  | o :: ops' =>
      '(x, last, a) ← machine_step c R x last o;
      '(x, last, a') ← machine_run c R x last ops';
      Some (x, last, a ++ a')
  end.

Section Machine.
Context {W : Type}.
Abbreviation st := (state (W := W)).
Context (signalProcessGroup : Z -> Z -> M W unit) (wake sleep setTimeout : Z -> M W unit) (addRandomEvent : M W unit).
Context (signal_ok : forall g sg w, exists w', signalProcessGroup g sg w = Some (tt, w')).
Context (wake_ok : forall t w, exists w', wake t w = Some (tt, w')).
Context (random_ok : forall w, exists w', addRandomEvent w = Some (tt, w')).

(** The UART receives [l]. *)
Definition receive (l : list Z) : M Uart16550 unit := fun u => Some (tt, mkUart (rx u ++ l) (tx u) (busy u)).

Definition run_op (o : op) : M st answers :=
  match o with
  | Arrive l time => on_uart (receive l);; uartTtyDataReady signalProcessGroup wake addRandomEvent time;; mret []
  | Read time task address size =>
      r ← uartTtyReadOrWait setTimeout sleep time false task address size false;
      m ← user;
      match r with
      | Returned (Good n) => mret [Good (bytes_at m address n)]
      | Returned (Bad kind) => mret [Bad kind]
      | Waiting => mret []
      end
  end.

Fixpoint run_ops (ops : list op) : M st answers :=
  match ops with [] => mret [] | o :: ops' => a ← run_op o; a' ← run_ops ops'; mret (a ++ a') end.

Definition well_sized (o : op) : Prop := match o with Read _ _ _ size => 0 <= size | _ => True end.

(** The device [s] is in the state [x] of the machine; [sent] are the characters
    sent so far. *)
Record simulates (c : Termios) (R : Z) (s : st) (x : session) (last : Z) : Prop := {
  si_ring : ring (dev s);
  si_capacity : 0 < buffer_capacity (dev s);
  si_room : room (dev s) = R;
  si_text : contents (dev s) = text x;
  si_delims : line_delim_count (dev s) = delims x;
  si_range : 0 <= delims x < 2 ^ 64;
  si_sent : tx (uart s) = sent x;
  si_rx : rx (uart s) = [];
  si_ctrl : ctrl (dev s) = c;
  si_blocked : blocked (dev s) = [];
  si_last : last_byte (dev s) = last;
}.

Lemma erase_all_delims c n : forall x, delims (erase_all n c x) = delims x.
Proof. induction n as [|n IH]; intros x; [done|]. cbn [erase_all]. rewrite IH. unfold erase. by destruct (List.rev (text x)). Qed.

Lemma type_char_range c x ch : 0 <= delims x < 2 ^ 64 -> 0 <= delims (type_char c x ch) < 2 ^ 64.
Proof.
  intros H. unfold type_char, enter. destruct (map_input c ch) as [ch'|]; [|done].
  destruct (_ && _); [unfold erase; by destruct (List.rev (text x))|]. destruct (_ && _); [by rewrite erase_all_delims|].
  destruct (is_signal c ch'); [done|]. cbn [delims]. destruct (is_delim c ch'); [apply u64_range|done].
Qed.

Lemma type_all_range c l : forall x, 0 <= delims x < 2 ^ 64 -> 0 <= delims (foldl (type_char c) x l) < 2 ^ 64.
Proof. induction l as [|ch l IH]; intros x H; [done|]. cbn [foldl]. by apply IH, type_char_range. Qed.

(** Typing adds to what was sent and does not look at it. *)
Definition resent (x : session) (p : list Z) (q : list Z) : session := mkSession (text x) (delims x) (p ++ sent x) (q ++ signals x).

Lemma erase_resent c x p q : erase c (resent x p q) = resent (erase c x) p q.
Proof. unfold erase, resent. cbn [text]. destruct (List.rev (text x)); cbn [text delims sent signals]; [done|]. by rewrite <- app_assoc. Qed.

Lemma erase_all_resent c n : forall x p q, erase_all n c (resent x p q) = resent (erase_all n c x) p q.
Proof. induction n as [|n IH]; intros x p q; [done|]. cbn [erase_all]. by rewrite erase_resent, IH. Qed.

Lemma type_char_resent c x p q ch : type_char c (resent x p q) ch = resent (type_char c x ch) p q.
Proof.
  unfold type_char, enter. destruct (map_input c ch) as [ch'|]; [|done]. cbn [text resent].
  destruct (_ && _); [apply erase_resent|]. destruct (_ && _); [apply erase_all_resent|].
  destruct (is_signal c ch'); unfold resent; cbn [text delims sent signals]; by rewrite <- app_assoc.
Qed.

Lemma type_all_resent c l : forall x p q, foldl (type_char c) (resent x p q) l = resent (foldl (type_char c) x l) p q.
Proof. induction l as [|ch l IH]; intros x p q; [done|]. cbn [foldl]. by rewrite type_char_resent, IH. Qed.

Lemma arrive_ok c R s x last l time x' last' a :
  simulates c R s x last -> machine_step c R x last (Arrive l time) = Some (x', last', a) ->
  exists s', run_op (Arrive l time) s = Some (a, s') /\ simulates c R s' x' last'.
Proof.
  intros H Hstep. cbn [machine_step] in Hstep. destruct (Z.ltb_spec (Z.of_nat (length (text x) + length l)) R) as [Hfit|]; [|done].
  injection Hstep as <- <- <-. destruct H. subst c R last.
  set (s1 := mkState (dev s) (mkUart l (tx (uart s)) (busy (uart s))) (umem s) (world s)).
  assert (E1 : on_uart (receive l) s = Some (tt, s1)) by (unfold on_uart, receive; cbn; by rewrite si_rx0).
  pose proof (contents_length _ si_ring0) as Hlen. destruct (random_ok (world s)) as [w0 Hw0].
  destruct (uartTtyDataReady_ok signalProcessGroup signal_ok wake addRandomEvent wake_ok s1 time w0 si_ring0) as (s' & E & Hpost).
  { cbn [dev s1 uart rx]. rewrite si_text0 in Hlen. lia. }
  { exact Hw0. }
  cbv zeta in Hpost. destruct Hpost as (Hr & Et & Ed & Erx & Etx & _ & Ecap & Ec & El & Eb & _).
  cbn [dev s1 uart rx tx] in *.
  assert (Ex : x = resent (session_of (dev s)) (sent x) (signals x)).
  { unfold resent, session_of. cbn [text delims sent signals]. rewrite si_text0, si_delims0, !app_nil_r. by destruct x. }
  assert (Eall : foldl (type_char (ctrl (dev s))) x l = resent (foldl (type_char (ctrl (dev s))) (session_of (dev s)) l) (sent x) (signals x)).
  { rewrite Ex at 1. by rewrite type_all_resent. }
  exists s'. split.
  { unfold run_op. rewrite (bind_some _ _ _ _ _ E1), (bind_some _ _ _ _ _ E). done. }
  pose proof (type_all_range (ctrl (dev s)) l x si_range0) as Hrange. rewrite Eall in Hrange |- *. cbn [resent delims] in Hrange.
  assert (Hcap : 0 < room (dev s)) by (rewrite room_capacity; done).
  split; cbn [resent text delims sent]; try done.
  - lia.
  - rewrite room_capacity; [done|done|lia].
  - by rewrite Etx, si_sent0.
  - rewrite Eb, si_blocked0. by destruct (canReturnRead _ _).
Qed.

Lemma can_return_ok d time : ring d -> blocked d = [] ->
  canReturnRead time (looked_at time d) =
  can_return (ctrl d) time (session_of d) (if negb (canonical (ctrl d)) && negb (key (ctrl d) VTIME =? 0) then time else last_byte d).
Proof.
  intros H Hb. pose proof (contents_length _ H) as Hlen. unfold looked_at, canReturnRead, can_return, canonical. rewrite Hb, bool_decide_eq_true_2 by done.
  rewrite andb_true_r. cbn [session_of text delims]. rewrite Hlen, !Util.umax_spec, !Util.umin_spec.
  destruct (flag (lflag (ctrl d)) ICANON) eqn:Ei; cbn [negb andb]; [by rewrite Ei|].
  destruct (key (ctrl d) VTIME =? 0) eqn:Ev; cbn [negb]; [by rewrite Ei, Ev|].
  cbn [ctrl set_last_byte]. by rewrite Ei, Ev.
Qed.

Lemma taken_range c x n : 0 <= delims (taken c x n) < 2 ^ 64.
Proof. unfold taken. destruct (eof_next _ _); apply u64_range. Qed.

Lemma read_ok c R s x last time task address size x' last' a :
  simulates c R s x last -> 0 <= size -> machine_step c R x last (Read time task address size) = Some (x', last', a) ->
  exists s', run_op (Read time task address size) s = Some (a, s') /\ simulates c R s' x' last'.
Proof.
  intros H Hsize Hstep. cbn [machine_step] in Hstep. pose proof H as [Hring Hcap Hroom Htext Hdelims Hrange Hsent Hrx Hctrl Hblocked Hlast].
  pose proof (can_return_ok (dev s) time Hring Hblocked) as Hcan. rewrite Hctrl, Hlast in Hcan.
  set (last1 := if _ && _ then time else last) in *.
  assert (Ecan : can_return c time (session_of (dev s)) last1 = can_return c time x last1).
  { unfold can_return. cbn [session_of text delims]. by rewrite Htext, Hdelims. }
  rewrite Ecan in Hcan. destruct (looked_at_same time (dev s) Hring) as (Lr & Lt & Ld & Lc & Lcap & Lb & Lg & Ln).
  assert (Llast : last_byte (looked_at time (dev s)) = last1).
  { unfold looked_at, last1, canonical. rewrite Hctrl, Hblocked, bool_decide_eq_true_2, andb_true_r by done. by destruct (_ && _). }
  destruct (can_return c time x last1) eqn:Hret.
  - injection Hstep as <- <- <-.
    destruct (uartTtyReadOrWait_ok setTimeout sleep s time false task address size false Hring Hcap) as
      (s' & E & Hr & Et & Ed & Em & Eu & Ew & Ec & Ecap & Eb & Eg & El); [by rewrite Hdelims|done|by rewrite Hcan|].
    cbv zeta in *. rewrite Hctrl, Htext in *. exists s'. set (n := Z.min (available c (text x)) size) in *.
    assert (Ex : text (taken c (session_of (dev s)) n) = text (taken c x n) /\ delims (taken c (session_of (dev s)) n) = delims (taken c x n) /\
      sent (taken c x n) = sent x).
    { unfold taken. cbn [session_of text delims sent signals]. rewrite Htext, Hdelims. by destruct (eof_next _ _). }
    destruct Ex as (Ex1 & Ex2 & Ex3). split.
    + unfold run_op. rewrite (bind_some _ _ _ _ _ E). unfold user, mbind, M_bind, mret, M_ret. do 4 f_equal.
      rewrite (bytes_at_ext _ _ _ _ (fun i _ => Em _)). etrans; [|apply bytes_at_put]. f_equal.
      pose proof (available_bound c (text x)). rewrite length_take. lia.
    + rewrite room_capacity in Hroom by done. assert (room (dev s') = R) by (rewrite room_capacity by (done || lia); congruence).
      split; try done; try apply taken_range; try congruence; lia.
  - injection Hstep as <- <- <-. set (d1 := looked_at time (dev s)) in *.
    assert (E : uartTtyReadOrWait setTimeout sleep time false task address size false s = Some (Returned (Bad EAGAIN), with_dev s d1)).
    { unfold uartTtyReadOrWait. rewrite bind_tty_get.
      rewrite (bind_some _ _ _ _ _ (look_ok s time)), bind_tty_get. fold d1. change (dev (with_dev s d1)) with d1. by rewrite Hcan. }
    exists (with_dev s d1). split; [unfold run_op; by rewrite (bind_some _ _ _ _ _ E)|].
    rewrite room_capacity in Hroom by done. assert (room d1 = R) by (rewrite room_capacity by (done || lia); congruence).
    split; cbn [dev uart with_dev]; try done; try congruence; lia.
Qed.

(** C13: Reads and arriving characters, in any order: as long as the buffer does not
    fill up, the terminal behaves as the machine that edits a session character
    by character and gives each read the first line, or what there is. *)
Theorem terminal_refines c R ops : forall s x last x' last' a,
  simulates c R s x last -> Forall well_sized ops -> machine_run c R x last ops = Some (x', last', a) ->
  exists s', run_ops ops s = Some (a, s') /\ simulates c R s' x' last'.
Proof.
  induction ops as [|o ops IH]; intros s x last x' last' a H Hops Hrun; cbn [machine_run] in Hrun.
  - injection Hrun as <- <- <-. by exists s.
  - apply Forall_cons_iff in Hops as [Ho Hops].
    destruct (machine_step c R x last o) as [[[x1 last1] a1]|] eqn:E1; [|done]. cbn [mbind option_bind] in Hrun.
    destruct (machine_run c R x1 last1 ops) as [[[x2 last2] a2]|] eqn:E2; [|done]. cbn in Hrun. injection Hrun as <- <- <-.
    assert (Hstep : exists s', run_op o s = Some (a1, s') /\ simulates c R s' x1 last1).
    { destruct o as [l time|time task address size]; [by eapply arrive_ok|by eapply read_ok]. }
    destruct Hstep as (s1 & Er & H1). destruct (IH _ _ _ _ _ _ H1 Hops E2) as (s2 & Er2 & H2).
    exists s2. split; [|done]. cbn [run_ops]. by rewrite (bind_some _ _ _ _ _ Er), (bind_some _ _ _ _ _ Er2).
Qed.

End Machine.

(** ** Control *)

Section Control.
Context {W : Type}.
Abbreviation st := (state (W := W)).

(** The fields have their size, and there are 32 control characters. *)
Definition termios_ok (c : Termios) : Prop := Signals.in_range (termios_object c) /\ length (cc c) = 32%nat.

Lemma read_termios_back a c m : termios_ok c -> read_termios a (Signals.write_object a (termios_object c) m) = c.
Proof.
  intros [Hc Hlen]. unfold read_termios. cbv zeta.
  assert (Es : ([2; 2; 2; 2; 1] ++ replicate 32 1 ++ [1; 1; 1])%nat = fst <$> termios_object c).
  { unfold termios_object. rewrite !fmap_app, <- list_fmap_compose. cbn [fmap list_fmap fst]. do 2 f_equal.
    rewrite <- Hlen. clear. induction (cc c) as [|k l IH]; [done|]. cbn. by f_equal. }
  rewrite Es, Signals.read_write_object by done. destruct c as [i o cf l ln k s1 s2]. cbn [cc] in Hlen.
  unfold termios_object. cbn [iflag oflag cflag lflag line cc ispeed ospeed]. rewrite !fmap_app, <- list_fmap_compose.
  cbn [fmap list_fmap snd app]. change (map (snd ∘ (fun k => (1%nat, k))) k) with (map id k). rewrite map_id.
  do 32 (destruct k as [|? k]; [done|]). by destruct k.
Qed.

(** The resized buffer holds what the old one held. *)
Lemma uartTtyResizeBuffer_ok (s : st) s' : ring (dev s) -> buffer_count (dev s) = buffer_capacity (dev s) ->
  uartTtyResizeBuffer s = Some (tt, s') -> ring (dev s') /\ contents (dev s') = contents (dev s) /\
    buffer_count (dev s') = buffer_count (dev s) /\ line_delim_count (dev s') = line_delim_count (dev s).
Proof.
  intros H Hfull. unfold uartTtyResizeBuffer. rewrite bind_tty_get. destruct (r_start _ H) as [H0 Hs]. pose proof (r_count _ H) as Hc.
  pose proof (r_max _ H) as Hmax. set (d := dev s) in *.
  set (n := if MAX_TTY_BUFFER_CAPACITY <? _ then MAX_TTY_BUFFER_CAPACITY else _). cbv zeta.
  assert (Hn : buffer_capacity d <= n <= MAX_TTY_BUFFER_CAPACITY /\ 0 < n).
  { unfold n, MAX_TTY_BUFFER_CAPACITY, INITIAL_TTY_BUFFER_CAPACITY in *. destruct (Z.eqb_spec (buffer_capacity d) 0).
    - cbn. lia.
    - pose proof (Z.div_mod (buffer_capacity d * 3) 2). pose proof (Z.mod_pos_bound (buffer_capacity d * 3) 2).
      destruct (Z.ltb_spec 4096 (buffer_capacity d * 3 / 2)); lia. }
  destruct (Z.eqb_spec n (buffer_capacity d)) as [E|E]; cbn [negb].
  { intros [= <-]. done. }
  destruct (Z.ltb_spec (buffer_capacity d) (buffer_start d + buffer_count d)) as [Hw|Hw].
  - rewrite bind_assoc. set (k := buffer_start d - buffer_capacity d + buffer_count d). destruct (Z.leb_spec (buffer_capacity d + k) n) as [Hk|Hk].
    2: { unfold massert, mbind, M_bind. done. }
    rewrite bind_assert, bind_tty_put by done. unfold modify. rewrite bind_tty_get. intros [= <-].
    cbn [dev with_dev]. split; [|split; [|done]].
    + split; cbn [buffer_count set_capacity set_buffer buffer_start buffer_capacity]; lia.
    + apply contents_ext; [done|]. cbn [buffer_count set_capacity set_buffer]. intros i Hi. unfold slot.
      cbn [buffer buffer_start buffer_capacity set_capacity set_buffer]. rewrite bytes_at_tab, put_bytes_tab by lia.
      rewrite (Z.mod_small (buffer_start d + i) n) by lia. rewrite mod_once by lia.
      destruct (Z.leb_spec (buffer_capacity d) (buffer_start d + i)), (Z.ltb_spec (buffer_start d + i) (buffer_capacity d + k)),
        (Z.ltb_spec (buffer_start d + i) (buffer_capacity d)); cbn [andb]; try lia; done || (f_equal; lia).
  - rewrite bind_ret. unfold modify. rewrite bind_tty_get. intros [= <-]. cbn [dev with_dev]. split; [|split; [|done]].
    + split; cbn [buffer_count set_capacity set_buffer buffer_start buffer_capacity]; fold d; lia.
    + apply contents_ext; [done|]. cbn [buffer_count set_capacity]. intros i Hi. unfold slot.
      cbn [buffer buffer_start buffer_capacity set_capacity]. fold d. by rewrite !Z.mod_small by lia.
Qed.

End Control.

(** The memory that [TCGETS] filled sets the control flags back. *)
Lemma termios_get_set {W : Type} (wake : Z -> M W unit) (s : state (W := W)) time argp c :
  termios_ok (ctrl (dev s)) -> (forall t w, exists w', wake t w = Some (tt, w')) ->
  exists s1 s2, basicUartTtyIoctlFunction wake time TCGETS argp s = Some (SUCCESS, s1) /\ dev s1 = dev s /\
    basicUartTtyIoctlFunction wake time TCSETS argp
      (mkState (set_ctrl (dev s) c) (uart s) (umem s1) (world s)) = Some (SUCCESS, s2) /\
    ctrl (dev s2) = ctrl (dev s) /\ contents (dev s2) = contents (dev s) /\ line_delim_count (dev s2) = line_delim_count (dev s).
Proof.
  intros Hc Hwake. set (m := Signals.write_object argp (termios_object (ctrl (dev s))) (umem s)).
  set (s1 := mkState (dev s) (uart s) m (world s)).
  assert (E2 : exists s2, basicUartTtyIoctlFunction wake time TCSETS argp (mkState (set_ctrl (dev s) c) (uart s) m (world s)) = Some (SUCCESS, s2) /\
    ctrl (dev s2) = ctrl (dev s) /\ contents (dev s2) = contents (dev s) /\ line_delim_count (dev s2) = line_delim_count (dev s)).
  { unfold basicUartTtyIoctlFunction. rewrite bind_tty_get. erewrite bind_some by (unfold user; reflexivity).
    change (TCSETS =? TCGETS) with false. change ((TCSETS =? TCSETSF) || (TCSETS =? TCSETSW) || (TCSETS =? TCSETS)) with true.
    change (TCSETS =? TCSETSF) with false. cbv zeta iota. rewrite bind_tty_put. cbn [umem]. unfold m. rewrite read_termios_back by done.
    unfold wakeupIfRequired. rewrite bind_assoc, bind_tty_get. destruct (canReturnRead _ _).
    - set (s2 := with_dev _ _). destruct (wake_all_ok wake Hwake (blocked (dev s2)) s2 eq_refl) as (w & E & _).
      rewrite bind_assoc, (bind_some _ _ _ _ _ E). eexists. split; [reflexivity|done].
    - eexists. split; [reflexivity|done]. }
  destruct E2 as (s2 & E2 & H). exists s1, s2. split; [|done]. unfold basicUartTtyIoctlFunction. rewrite bind_tty_get.
  erewrite bind_some by (unfold user; reflexivity). reflexivity.
Qed.

(** ** Witnesses and examples *)

Definition nothing {A : Type} (x : A) : M unit unit := fun w => Some (tt, w).

(** A terminal whose buffer has been allocated. *)
Definition ex_tty : UartTtyDevice := set_capacity createUartTtyDevice 512.
Definition ex_terminal (d : UartTtyDevice) (l : list Z) : state (W := unit) := mkState d (mkUart l [] []) (fun _ => 0) tt.

(** The characters of [ls], a rubout, and a new line. *)
Definition ex_line : list Z := [108; 120; 127; 115; 13].

Lemma ex_ring : ring ex_tty.
Proof. split; cbn; unfold MAX_TTY_BUFFER_CAPACITY; lia. Qed.

Lemma uartTtyDataReady_types_witness :
  exists s', uartTtyDataReady (fun _ => nothing) nothing (nothing tt) 7 (ex_terminal ex_tty ex_line) = Some (tt, s') /\
    contents (dev s') = [108; 115; 10] /\ tx (uart s') = [108; 120; 8; 32; 8; 115; 13; 10].
Proof.
  destruct (uartTtyDataReady_types (fun _ => nothing) (fun _ _ w => ex_intro _ w eq_refl) nothing (nothing tt) (fun _ w => ex_intro _ w eq_refl)
    (ex_terminal ex_tty ex_line) 7 tt) as (s' & E & _ & Ht & _ & _ & Hs & _).
  - exact ex_ring.
  - vm_compute. reflexivity.
  - reflexivity.
  - exists s'. split; [exact E|]. split; [rewrite Ht; vm_compute; reflexivity|rewrite Hs; vm_compute; reflexivity].
Defined.

Definition run_ex (ops : list op) : M (state (W := unit)) (list (result (list Z))) :=
  run_ops (fun _ => nothing) nothing nothing nothing (nothing tt) ops.

(** A line arrives in two parts, and is read in two parts. *)
Definition ex_ops : list op := [Arrive [108; 115] 1; Read 2 10 0x1000 80; Arrive [13; 120] 3; Read 4 10 0x1000 2; Read 5 10 0x1000 80].

Lemma terminal_refines_witness :
  exists s', run_ex ex_ops (ex_terminal ex_tty []) = Some ([Bad EAGAIN; Good [108; 115]; Good [10]], s').
Proof.
  assert (H : simulates initial_ctrl 512 (ex_terminal ex_tty []) (mkSession [] 0 [] []) 0).
  { split; try reflexivity; [exact ex_ring|cbn; lia]. }
  destruct (terminal_refines (fun _ => nothing) nothing nothing nothing (nothing tt) (fun _ _ w => ex_intro _ w eq_refl) (fun _ w => ex_intro _ w eq_refl)
    (fun w => ex_intro _ w eq_refl) initial_ctrl 512 ex_ops (ex_terminal ex_tty []) (mkSession [] 0 [] []) 0
    (mkSession [120] 0 [108; 115; 13; 10; 120] []) 3 [Bad EAGAIN; Good [108; 115]; Good [10]] H) as (s' & E & _).
  - repeat constructor; cbn; lia.
  - vm_compute. reflexivity.
  - exists s'. exact E.
Defined.

Lemma termios_get_set_witness :
  exists s1 s2, basicUartTtyIoctlFunction nothing 0 TCGETS 0x2000 (ex_terminal ex_tty []) = Some (SUCCESS, s1) /\
    basicUartTtyIoctlFunction nothing 0 TCSETS 0x2000 (mkState (set_ctrl ex_tty (mkTermios 0 0 0 0 0 [] 0 0)) (mkUart [] [] []) (umem s1) tt) = Some (SUCCESS, s2) /\
    ctrl (dev s2) = initial_ctrl.
Proof.
  destruct (termios_get_set nothing (ex_terminal ex_tty []) 0 0x2000 (mkTermios 0 0 0 0 0 [] 0 0)) as (s1 & s2 & E1 & _ & E2 & E3 & _).
  - split; [|reflexivity]. apply (bool_decide_unpack _). vm_compute. exact I.
  - intros t w. by exists w.
  - exists s1, s2. split; [exact E1|split; [exact E2|exact E3]].
Defined.

(** Rubbing out the end of a line leaves its count behind: the next read gets
    no characters, as at the end of a file. *)
Example erase_crosses_line :
  fst <$> run_ex [Arrive [97; 13; 127] 1; Read 2 10 0x1000 80] (ex_terminal ex_tty []) = Some [Good []].
Proof. vm_compute. reflexivity. Qed.

(** So does flushing the input. *)
Example flush_keeps_delims :
  fst <$> (run_ex [Arrive [97; 13] 1];; basicUartTtyIoctlFunction nothing 2 TCFLSH 0;; run_ex [Read 3 10 0x1000 80]) (ex_terminal ex_tty [])
  = Some [Good []].
Proof. vm_compute. reflexivity. Qed.

(** An end-of-file character with a line behind it: the last character of the
    line is taken from the buffer instead, and the next read finds the
    end-of-file character again. *)
Example eof_takes_last :
  fst <$> run_ex [Arrive [4; 97; 98; 13] 1; Read 2 10 0x1000 80; Read 3 10 0x1000 80; Read 4 10 0x1000 80] (ex_terminal ex_tty [])
  = Some [Good []; Good []; Bad EAGAIN].
Proof. vm_compute. reflexivity. Qed.

(** Typed behind a line that was not read yet, it is lost. *)
Example eof_is_lost :
  fst <$> run_ex [Arrive [97; 13; 4] 1; Read 2 10 0x1000 80; Read 3 10 0x1000 80] (ex_terminal ex_tty []) = Some [Good [97; 10]; Bad EAGAIN].
Proof. vm_compute. reflexivity. Qed.

(** A full ring that starts behind its middle cannot be resized: what has to
    move does not fit behind it. *)
Example resize_does_not_fit :
  uartTtyResizeBuffer (ex_terminal (set_range ex_tty 300 512) []) = None.
Proof. vm_compute. reflexivity. Qed.

(** At the largest size, looking for a character that has not arrived drops one
    that has. *)
Example full_buffer_drops :
  (fun x => buffer_count (dev (snd x))) <$> basicTtyRead (fun _ => nothing) (ex_terminal (set_range (set_capacity ex_tty 4096) 0 4096) []) = Some 4095.
Proof. vm_compute. reflexivity. Qed.

(** A reader that waits never sets the timeout: the list it looks at holds the
    reader itself. *)
Lemma wait_sets_no_timeout {W : Type} (sleep setTimeout : Z -> M W unit) (s : state (W := W)) task :
  waitForReadOperation setTimeout sleep task s = waitForReadOperation (fun _ => fault) sleep task s.
Proof.
  unfold waitForReadOperation, mbind, M_bind. destruct (on_world (sleep task) s) as [[[] s']|]; [|done].
  cbn [get put dev set_blocked blocked]. rewrite bool_decide_eq_false_2 by done. by rewrite andb_false_r.
Qed.

End Tty.
