(* ===== verification/BlockDev.v ===== *)
(** * BlockDev: block devices and the files on them

    The interface of a block device of [kernel/src/devices/devices.h], and
    [kernel/src/files/special/blkfile.c], which reads and writes any range of
    bytes on a device that moves whole blocks only. *)
From S2P Require Import Prelude Util Errors.
Import Errors.

Module BlockDev.

(** ** Definitions *)

(** [BlockDeviceFunctions] and [block_size].  A buffer is passed as the bytes
    that are read into it or written from it: that copying through a [VirtPtr]
    moves the bytes is proved in [VirtPtr.v]. *)
Class BlockDevice (D : Type) : Type := {
  block_size : Z;
  dev_read : Z -> Z -> R D (list Z);
  dev_write : Z -> list Z -> R D unit;
}.

(** A device that works: inside its size it moves whole blocks.  [good] is its
    own invariant; a read may change its state, but not its content. *)
Class BlockLaws (D : Type) `{BlockDevice D} : Type := {
  good : D -> Prop;
  contents : D -> Z -> Z;
  dev_size : D -> Z;
  contents_byte : forall d a, good d -> is_char (contents d a);
  block_size_pow : exists k, 0 <= k < 32 /\ block_size = 2 ^ k;
  dev_size_blocks : forall d, good d -> dev_size d mod block_size = 0 /\ 0 <= dev_size d < 2 ^ 63;
  dev_read_ok : forall d off n, good d -> 0 <= off -> 0 <= n -> off + n <= dev_size d ->
    off mod block_size = 0 -> n mod block_size = 0 ->
    exists d', dev_read off n d = Some (Good (bytes_at (contents d) off n), d') /\
      good d' /\ dev_size d' = dev_size d /\ forall a, contents d' a = contents d a;
  dev_write_ok : forall d off l, good d -> 0 <= off -> off + Z.of_nat (length l) <= dev_size d ->
    off mod block_size = 0 -> Z.of_nat (length l) mod block_size = 0 -> Forall is_char l ->
    exists d', dev_write off l d = Some (Good tt, d') /\
      good d' /\ dev_size d' = dev_size d /\ forall a, contents d' a = put_bytes (contents d) off l a;
}.

Section File.
Context {D : Type} `{BlockDevice D}.

(** The memory of the caller and the device. *)
Abbreviation world := (bytes * D)%type.

Definition device {A} (c : R D A) : R world A := on snd (fun d w => (fst w, d)) c.

(** [memcpyBetweenVirtPtr] into the memory of the caller. *)
Definition copy_out (buffer : Z) (l : list Z) : R world unit :=
  w ← get; put (put_bytes (fst w) buffer l, snd w).

(** [blockOperation] between the device and the memory at [buffer]. *)
Definition blockOperation (write : bool) (buffer offset size : Z) : R world unit :=
  if write then
    w ← get;
    device (dev_write offset (bytes_at (fst w) buffer size))
  else
    l ← device (dev_read offset size);
    copy_out buffer l.

(** The branch for a part of one block: the block goes through [tmp_buffer], at
    [tmp]; a device that is given a null pointer for a block is undefined. *)
Definition partial_block (tmp : Z) (write : bool) (buffer offset size_diff : Z) : R world unit :=
  if tmp =? 0 then undefined else
  let tmp_start := Z.land offset (u64 (- block_size)) in
  let at_ := offset mod block_size in
  tmp_buffer ← device (dev_read tmp_start block_size);
  if write then
    w ← get;
    let data := bytes_at (fst w) buffer size_diff in
    device (dev_write tmp_start
      (take (Z.to_nat at_) tmp_buffer ++ data ++ drop (Z.to_nat (at_ + size_diff)) tmp_buffer))
  else copy_out buffer (take (Z.to_nat size_diff) (drop (Z.to_nat at_) tmp_buffer)).

Fixpoint block_loop (fuel : nat) (tmp : Z) (write : bool) (buffer offset left : Z) : R world Z :=
  match fuel with
  | O => undefined
  | S fuel =>
      if left >? 0 then
        if (offset mod block_size =? 0) && (left >? block_size) then
          let size_diff := Z.land left (u64 (- block_size)) in
          blockOperation write buffer offset size_diff;;
          block_loop fuel tmp write (u64 (buffer + size_diff)) (u64 (offset + size_diff)) (left - size_diff)
        else
          let size_diff := Util.umin left (block_size - offset mod block_size) in
          partial_block tmp write buffer offset size_diff;;
          block_loop fuel tmp write (u64 (buffer + size_diff)) (u64 (offset + size_diff)) (left - size_diff)
      else mret left
  end.

(** The kernel's heap: the result of [kalloc] is used without a test. *)
Context {Heap : Type} (kalloc : Z -> M Heap Z) (dealloc : Z -> M Heap unit).

(** The loop makes at most three turns: a first part, whole blocks and a last
    part.  The buffer is given back when it ends, with an error or without. *)
Definition genericBlockFileFunction (write : bool) (buffer offset size : Z) : R (Heap * world) Z := fun s =>
  match kalloc block_size (fst s) with
  | Some (tmp_buffer, h) =>
      match block_loop 4 tmp_buffer write buffer offset size (snd s) with
      | Some (r, w) =>
          match dealloc tmp_buffer h with
          | Some (_, h) => Some (match r with Good rest => Good (size - rest) | Bad e => Bad e end, (h, w))
          | None => None
          end
      | None => None
      end
  | None => None
  end.

Definition blkNodeReadAt (buff offset length : Z) : R (Heap * world) Z :=
  genericBlockFileFunction false buff offset length.

Definition blkNodeWriteAt (buff offset length : Z) : R (Heap * world) Z :=
  genericBlockFileFunction true buff offset length.

End File.

(** ** Lemmas *)

Section Transfer.
Context {D : Type} `{BlockLaws D}.
Context (tmp : Z) (Htmp : tmp <> 0).

Abbreviation world := (bytes * D)%type.

Lemma device_good {A} (c : R D A) m d a d' : c d = Some (Good a, d') -> device c (m, d) = Some (Good a, (m, d')).
Proof. intros E. unfold device, on. cbn [fst snd]. by rewrite E. Qed.

(** [n] bytes went between the memory at [b] and the device at [o], and
    nothing else changed. *)
Definition transferred (write : bool) (w w' : world) (b o n : Z) : Prop :=
  good (snd w') /\ dev_size (snd w') = dev_size (snd w) /\
  (forall x, fst w' x = if write then fst w x else copied (fst w) b n (contents (snd w)) o x) /\
  (forall a, contents (snd w') a = if write then copied (contents (snd w)) o n (fst w) b a else contents (snd w) a).

Lemma transferred_app write w w1 w2 b o n k :
  0 <= n -> 0 <= k -> transferred write w w1 b o n -> transferred write w1 w2 (b + n) (o + n) k ->
  transferred write w w2 b o (n + k).
Proof.
  intros Hn Hk (G1 & S1 & M1 & C1) (G2 & S2 & M2 & C2). split; [done|split; [congruence|]].
  destruct write; split; intros x; rewrite ?M2, ?C2, ?M1, ?C1; try done;
    by apply copied_app; try done; intros i Hi; rewrite ?M1, ?C1.
Qed.

Lemma transferred_0 write w b o : good (snd w) -> transferred write w w b o 0.
Proof. intros Hg. split; [done|split; [done|]]. by destruct write; split; intros x; rewrite ?copied_0. Qed.

(** A request the code may make. *)
Definition request (w : world) (buffer offset size : Z) : Prop :=
  good (snd w) /\ byte_mem (fst w) /\ 0 <= offset /\ 0 <= size /\ offset + size <= dev_size (snd w) /\
  0 <= buffer /\ buffer + size < 2 ^ 64.

Lemma request_next write w w' b o n k :
  0 <= n -> 0 <= k -> request w b o (n + k) -> transferred write w w' b o n -> request w' (b + n) (o + n) k.
Proof.
  intros Hn Hk (Hg & Hm & ?) (Hg' & Hs & Hm' & _). split; [done|split; [|rewrite Hs; lia]].
  intros a. rewrite Hm'. destruct write; [apply Hm|]. unfold copied. destruct (_ && _); [by apply contents_byte|apply Hm].
Qed.

Lemma request_sub w b o n k : request w b o n -> 0 <= k <= n -> request w b o k.
Proof. intros (? & ? & ?) Hk. split; [done|split; [done|lia]]. Qed.

Lemma block_size_pos : 0 < block_size < 2 ^ 32.
Proof. destruct block_size_pow as (k & Hk & ->). split; [lia|]. apply Z.pow_lt_mono_r; lia. Qed.

Lemma mod_block x : 0 <= x mod block_size < block_size.
Proof. apply Z.mod_pos_bound, block_size_pos. Qed.

Lemma mask_blocks x : 0 <= x < 2 ^ 64 -> Z.land x (u64 (- block_size)) = x - x mod block_size.
Proof. intros Hx. destruct block_size_pow as (k & Hk & ->). apply land_mask64; lia. Qed.

Lemma blocks_le st l : 0 < l - st -> st mod block_size = 0 -> l mod block_size = 0 -> st + block_size <= l.
Proof.
  pose proof block_size_pos. intros Hlt Hs Hl. apply Z.div_exact in Hs, Hl; [|lia..]. rewrite Hs, Hl in *.
  assert (st / block_size < l / block_size) by nia. nia.
Qed.

Lemma sub_mod_blocks x : (x - x mod block_size) mod block_size = 0.
Proof. rewrite Zminus_mod, Zmod_mod, Z.sub_diag. done. Qed.

Lemma blockOperation_ok write w b o n :
  request w b o n -> o mod block_size = 0 -> n mod block_size = 0 ->
  exists w', blockOperation write b o n w = Some (Good tt, w') /\ transferred write w w' b o n.
Proof.
  destruct w as [m d]. intros (Hg & Hm & Ho & Hn & Hs & Hb) Hom Hnm. cbn [fst snd] in *.
  unfold blockOperation. destruct write.
  - destruct (dev_write_ok d o (bytes_at m b n)) as (d' & E & Hg' & Hs' & Hc);
      rewrite ?bytes_at_length by done; try done; [by apply bytes_at_char|].
    exists (m, d'). rewrite bind_whole. split; [by apply device_good|]. repeat split; try done.
    intros a. cbn [fst snd]. rewrite Hc. by apply put_bytes_copied.
  - destruct (dev_read_ok d o n) as (d' & E & Hg' & Hs' & Hc); try done.
    exists (put_bytes m b (bytes_at (contents d) o n), d'). rewrite (bind_good _ _ _ _ _ (device_good _ _ _ _ _ E)).
    split; [done|]. repeat split; try done. intros x. cbn [fst snd]. by apply put_bytes_copied.
Qed.

(** The block with a part of it replaced. *)
Lemma patched_block f g at_ n s :
  0 <= at_ -> 0 <= n -> at_ + n <= s ->
  take (Z.to_nat at_) (tab s f) ++ tab n g ++ drop (Z.to_nat (at_ + n)) (tab s f) =
  tab s (fun i => if (at_ <=? i) && (i <? at_ + n) then g (i - at_) else f i).
Proof.
  intros. rewrite tab_take, tab_drop, !tab_app by lia. replace (at_ + (n + (s - (at_ + n)))) with s by lia.
  apply tab_ext. intros i Hi.
  destruct (Z.ltb_spec i at_), (Z.leb_spec at_ i), (Z.ltb_spec (i - at_) n), (Z.ltb_spec i (at_ + n)); cbn [andb];
    try lia; try done. f_equal. lia.
Qed.

Lemma partial_block_ok write w b o n :
  request w b o n -> 0 < n -> o mod block_size + n <= block_size ->
  exists w', partial_block tmp write b o n w = Some (Good tt, w') /\ transferred write w w' b o n.
Proof.
  destruct w as [m d]. intros (Hg & Hm & Ho & _ & Hs & Hb) Hn Hfit. cbn [fst snd] in *.
  pose proof block_size_pos. pose proof (mod_block o).
  pose proof (dev_size_blocks d Hg) as [Hdm Hd].
  unfold partial_block. rewrite (proj2 (Z.eqb_neq tmp 0)), mask_blocks by (done || lia). pose proof (sub_mod_blocks o) as Hst.
  set (st := o - o mod block_size) in *.
  assert (Hst0 : 0 <= st) by (unfold st; pose proof (Z.mod_le o block_size Ho ltac:(apply block_size_pos)); lia).
  assert (Hlast : st + block_size <= dev_size d) by (apply blocks_le; try done; lia).
  destruct (dev_read_ok d st block_size) as (d1 & E1 & Hg1 & Hs1 & Hc1); try done; [lia|by apply Z_mod_same_full|].
  rewrite (bind_good _ _ _ _ _ (device_good _ _ _ _ _ E1)). destruct write.
  - rewrite bind_whole. cbn [fst snd]. rewrite (bytes_at_tab (contents d)), (bytes_at_tab m b), patched_block by lia.
    destruct (dev_write_ok d1 st (tab block_size (fun i => if (o mod block_size <=? i) && (i <? o mod block_size + n)
      then m (b + (i - o mod block_size)) else contents d (st + i)))) as (d2 & E2 & Hg2 & Hs2 & Hc2); try done;
      rewrite ?tab_length, ?Z2Nat.id by lia; try lia; try done; [by apply Z_mod_same_full| |].
    + apply Forall_fmap, Forall_forall. intros i _. cbn. destruct (_ && _); [apply Hm|by apply contents_byte].
    + exists (m, d2). split; [by apply device_good|].
      repeat split; cbn [fst snd]; try done; [congruence|]. intros a. rewrite Hc2, put_bytes_tab, Hc1 by lia.
      unfold copied, st.
      destruct (Z.leb_spec (o - o mod block_size) a), (Z.ltb_spec a (o - o mod block_size + block_size)),
        (Z.leb_spec o a), (Z.ltb_spec a (o + n)), (Z.leb_spec (o mod block_size) (a - (o - o mod block_size))),
        (Z.ltb_spec (a - (o - o mod block_size)) (o mod block_size + n)); cbn [andb]; try lia; try done; f_equal; lia.
  - exists (put_bytes m b (bytes_at (contents d) o n), d1).
    rewrite bytes_at_tab, tab_drop, tab_take by lia. unfold copy_out. rewrite bind_whole. split.
    + unfold put. cbn [fst snd]. do 4 f_equal. apply tab_ext. intros i Hi. f_equal. unfold st. lia.
    + repeat split; cbn [fst snd]; try done. intros x. by apply put_bytes_copied; lia.
Qed.

(** ** The loop ends after a first part, whole blocks and a last part *)

Definition moves (fuel : nat) (write : bool) (w : world) (b o n : Z) : Prop :=
  exists w', block_loop fuel tmp write b o n w = Some (Good 0, w') /\ transferred write w w' b o n.

Lemma loop_done fuel write w b o : good (snd w) -> moves (S fuel) write w b o 0.
Proof. intros Hg. exists w. split; [done|by apply transferred_0]. Qed.

Lemma request_wrap w b o n k : 0 <= k <= n -> request w b o n -> u64 (b + k) = b + k /\ u64 (o + k) = o + k.
Proof.
  intros Hk (Hg & _ & ? & ? & ? & ?). pose proof (dev_size_blocks _ Hg) as [_ ?]. split; apply wrap_small; lia.
Qed.

Lemma loop_partial fuel write w b o n :
  request w b o n -> 0 < n -> (o mod block_size <> 0 \/ n <= block_size) ->
  let k := Z.min n (block_size - o mod block_size) in
  (forall w', transferred write w w' b o k -> moves fuel write w' (b + k) (o + k) (n - k)) ->
  moves (S fuel) write w b o n.
Proof.
  intros Hr Hn Hor k Hrest. pose proof block_size_pos. pose proof (mod_block o).
  assert (Hk : 0 < k <= n) by (unfold k; lia).
  assert (Hr' : request w b o k) by (apply (request_sub _ _ _ n); [done|lia]).
  destruct (partial_block_ok write w b o k Hr') as (w' & E & Ht); [lia|unfold k; lia|].
  destruct (Hrest w' Ht) as (w2 & E2 & Ht2). exists w2. split.
  - cbn [block_loop]. rewrite Z.gtb_ltb, (proj2 (Z.ltb_lt 0 n)) by lia.
    replace ((o mod block_size =? 0) && (n >? block_size)) with false
      by (destruct (Z.eqb_spec (o mod block_size) 0), (Z.gtb_spec n block_size); cbn; lia).
    rewrite Util.umin_spec. fold k. rewrite (bind_good _ _ _ _ _ E).
    destruct (request_wrap w b o n k ltac:(lia) Hr) as [-> ->]. done.
  - replace n with (k + (n - k)) by lia. eapply transferred_app; [lia|lia|done|done].
Qed.

Lemma loop_small fuel write w b o n :
  request w b o n -> o mod block_size + n <= block_size -> moves (S (S fuel)) write w b o n.
Proof.
  intros Hr Hfit. destruct (Z.eq_dec n 0) as [->|Hn]; [by apply loop_done, Hr|].
  pose proof block_size_pos. pose proof (mod_block o).
  assert (0 <= n) by apply Hr. apply loop_partial; [done|lia|lia|]. intros w' Ht.
  replace (n - _) with 0 by lia. by apply loop_done, Ht.
Qed.

Lemma loop_aligned fuel write w b o n :
  request w b o n -> o mod block_size = 0 -> moves (S (S (S fuel))) write w b o n.
Proof.
  intros Hr Ho. pose proof block_size_pos. destruct (Z.le_gt_cases n block_size); [apply loop_small; [done|lia]|].
  pose proof (mod_block n). set (k := n - n mod block_size).
  assert (Hk : 0 < k <= n) by (unfold k; lia).
  assert (Hn64 : 0 <= n < 2 ^ 64) by (destruct Hr as (Hg & _ & Hr); pose proof (dev_size_blocks _ Hg); lia).
  assert (Hr' : request w b o k) by (apply (request_sub _ _ _ n); [done|lia]).
  destruct (blockOperation_ok write w b o k Hr' Ho) as (w' & E & Ht); [apply sub_mod_blocks|].
  destruct (loop_small fuel write w' (b + k) (o + k) (n - k)) as (w2 & E2 & Ht2).
  - eapply request_next; [| |by replace (k + (n - k)) with n by lia|done]; lia.
  - rewrite Z.add_mod, Ho, Z.add_0_l, Zmod_mod by lia. unfold k at 1. rewrite sub_mod_blocks. unfold k. lia.
  - exists w2. split.
    + cbn [block_loop]. rewrite Z.gtb_ltb, (proj2 (Z.ltb_lt 0 n)) by lia.
      rewrite Ho, Z.gtb_ltb, (proj2 (Z.ltb_lt block_size n)) by lia. cbn [Z.eqb andb].
      rewrite mask_blocks by done. fold k. rewrite (bind_good _ _ _ _ _ E).
      destruct (request_wrap w b o n k ltac:(lia) Hr) as [-> ->]. done.
    + replace n with (k + (n - k)) by lia. eapply transferred_app; [lia|lia|done|done].
Qed.

Lemma loop_any fuel write w b o n : request w b o n -> moves (S (S (S (S fuel)))) write w b o n.
Proof.
  intros Hr. pose proof block_size_pos. pose proof (mod_block o).
  destruct (Z.eq_dec (o mod block_size) 0); [by apply loop_aligned|]. assert (Hn0 : 0 <= n) by apply Hr.
  destruct (Z.eq_dec n 0) as [->|Hn]; [by apply loop_done, Hr|].
  apply loop_partial; [done|lia|by left|]. intros w' Ht.
  set (k := Z.min n (block_size - o mod block_size)) in *.
  assert (Hr' : request w' (b + k) (o + k) (n - k)).
  { eapply request_next; [| |by replace (k + (n - k)) with n by lia|done]; unfold k; lia. }
  destruct (Z.le_gt_cases n (block_size - o mod block_size)) as [Hle|Hgt].
  - replace (n - k) with 0 by (unfold k; lia). apply loop_done, Ht.
  - apply loop_aligned; [done|]. replace (o + k) with (o - o mod block_size + 1 * block_size) by (unfold k; lia).
    rewrite Z_mod_plus_full. apply sub_mod_blocks.
Qed.

End Transfer.

(** ** A disk in memory *)

Definition ram_blocks (bs : Z) : BlockDevice RamDisk := {|
  block_size := bs;
  dev_read off n d :=
    if (off mod bs =? 0) && (n mod bs =? 0) && (off + n <=? disk_size d)
    then Some (Good (bytes_at (fun a => u8 (disk_bytes d a)) off n), d) else Some (Bad EINVAL, d);
  dev_write off l d :=
    if (off mod bs =? 0) && (Z.of_nat (length l) mod bs =? 0) && (off + Z.of_nat (length l) <=? disk_size d)
    then Some (Good tt, mkDisk (put_bytes (disk_bytes d) off l) (disk_size d)) else Some (Bad EINVAL, d);
|}.

#[refine] Instance ram_blocks_laws (k : Z) (Hk : 0 <= k < 32) : @BlockLaws RamDisk (ram_blocks (2 ^ k)) := {|
  good d := disk_size d mod 2 ^ k = 0 /\ 0 <= disk_size d < 2 ^ 63;
  contents d a := u8 (disk_bytes d a);
  dev_size d := disk_size d;
|}.
Proof.
  - intros d a _. apply wrap_range. lia.
  - by exists k.
  - done.
  - intros d off n Hg Ho Hn Hs Hom Hnm. cbn in *. rewrite Hom, Hnm, (proj2 (Z.leb_le _ _)) by done. cbn. by exists d.
  - intros d off l Hg Ho Hs Hom Hlm Hl. cbn in *. rewrite Hom, Hlm, (proj2 (Z.leb_le _ _)) by done. cbn.
    eexists. split; [done|split; [done|split; [done|]]]. intros a. cbn. unfold put_bytes.
    destruct ((off <=? a) && (a <? off + Z.of_nat (length l))) eqn:E; [|done].
    destruct (l !! Z.to_nat (a - off)) as [c|] eqn:Ec; cbn; [|done].
    rewrite Forall_lookup in Hl. specialize (Hl _ _ Ec). unfold is_char in Hl. by apply wrap_small.
Defined.

(** ** Properties *)

(** C14: A block device file reads and writes any range of bytes: a request that
    lies on the device is carried out in full, whatever its offset and length,
    although the device moves whole blocks only.  A read puts exactly the bytes
    of the device into the buffer and leaves the device as it is; a write
    changes exactly the range it was asked for, and no byte next to it.  This
    needs the buffer for one block, which is given back at the end. *)
Theorem genericBlockFile_correct {D Heap : Type} `{BlockLaws D} (kalloc : Z -> M Heap Z) (dealloc : Z -> M Heap unit)
    write h h1 h2 tmp w buffer offset size :
  request w buffer offset size ->
  kalloc block_size h = Some (tmp, h1) -> tmp <> 0 -> dealloc tmp h1 = Some (tt, h2) ->
  exists w', genericBlockFileFunction kalloc dealloc write buffer offset size (h, w) = Some (Good size, (h2, w')) /\
    transferred write w w' buffer offset size.
Proof.
  intros Hr E1 Ht E2. destruct (loop_any tmp Ht 0 write w buffer offset size Hr) as (w' & E & Htr). exists w'. split; [|done].
  unfold genericBlockFileFunction. cbn [fst snd]. by rewrite E1, E, E2, Z.sub_0_r.
Qed.

(** Nobody looks whether there was memory for the buffer: without it a request
    that starts inside a block is undefined. *)
Lemma no_buffer_undefined {D Heap : Type} `{BlockDevice D} (kalloc : Z -> M Heap Z) (dealloc : Z -> M Heap unit)
    write h h1 w buffer offset size :
  kalloc block_size h = Some (0, h1) -> offset mod block_size <> 0 -> 0 < size ->
  genericBlockFileFunction kalloc dealloc write buffer offset size (h, w) = None.
Proof.
  intros E Ho Hs. unfold genericBlockFileFunction. cbn [fst snd]. rewrite E. cbn [block_loop].
  rewrite Z.gtb_ltb, (proj2 (Z.ltb_lt 0 size)), (proj2 (Z.eqb_neq _ 0)) by done. done.
Qed.

(** A disk of eight blocks of eight bytes, and 21 bytes from its offset 5 on. *)
Definition ex_disk : RamDisk := mkDisk (fun a => a + 100) 64.
(** The heap counts the buffers that are in use. *)
Definition ex_kalloc (n : Z) : M Z Z := fun h => Some (0x1000, h + 1).
Definition ex_dealloc (p : Z) : M Z unit := fun h => Some (tt, h - 1).
Definition ex_file : Z -> option Z := fun a =>
  match @genericBlockFileFunction _ (ram_blocks 8) _ ex_kalloc ex_dealloc true 1000 5 21 (0, (fun a => u8 a, ex_disk)) with
  | Some (Good 21, (0, (_, d))) => Some (u8 (disk_bytes d a))
  | _ => None
  end.

Lemma genericBlockFile_correct_witness :
  (exists w', @genericBlockFileFunction _ (ram_blocks (2 ^ 3)) _ ex_kalloc ex_dealloc true 1000 5 21
      (0, (fun a => u8 a, ex_disk)) = Some (Good 21, (0, w')) /\
    @transferred _ _ (ram_blocks_laws 3 ltac:(lia)) true (fun a => u8 a, ex_disk) w' 1000 5 21) /\
  ex_file <$> [4; 5; 6; 25; 26] = Some <$> [104; 232; 233; 252; 126].
Proof.
  split; [|vm_compute; reflexivity].
  apply (@genericBlockFile_correct _ _ _ (ram_blocks_laws 3 ltac:(lia)) ex_kalloc ex_dealloc true 0 1 0 0x1000); try done.
  repeat split; cbn; try lia. all: apply Z.mod_pos_bound; lia.
Defined.

End BlockDev.
