(* ===== verification/BlockCache.v ===== *)
(** * BlockCache: [kernel/src/devices/blockcache.c]

    The read cache that is put in front of a block device: a hash table of
    blocks with robin-hood probing, whose deletion shifts the blocks behind
    the hole back, and the device functions that use it.  [cache_lock] makes
    every section between a lock and an unlock atomic. *)
From S2P Require Import Prelude Util Errors Probe BlockDev.
Import Errors BlockDev.

Module BlockCache.

(** ** Definitions *)

Definition MIN_TABLE_CAPACITY : nat := 32.
Definition DEFAULT_PRIORITY : Z := 20.

Record CachedBlock := mkBlock { offset : Z; priority : Z; bytes_ : Z }.

(** The [CachedBlock]s by their address. *)
Abbreviation heap := (gmap Z CachedBlock).

(** [blocks] holds [capacity] pointers, 0 for [NULL].  A count is a [nat]: it
    is bounded by the memory, and three times it does not overflow. *)
Record CachedBlockTable := mkTable { blocks : list Z; count : nat; capacity : nat }.

Definition hash_slot (size : nat) (offset : Z) : nat := Z.to_nat (Util.hashInt64 offset mod Z.of_nat size).

(** [(size + idx - (hashInt64(offset) % size)) % size] *)
Definition probe_length (size idx : nat) (offset : Z) : nat := ((size + idx - hash_slot size offset) mod size)%nat.

(** The loop that [lookupCachedBlock] and [removeCachedBlock] share: [None] is
    an early return of [NULL], otherwise the slot where it stops. *)
Fixpoint search_loop (fuel : nat) (h : heap) (blocks : list Z) (size : nat) (off : Z) (pl idx : nat)
  : option (option nat) :=
  match fuel with
  | O => None
  | S fuel =>
      p ← blocks !! idx;
      if p =? 0 then Some (Some idx) else
      b ← h !! p;
      if offset b =? off then Some (Some idx) else
      if (probe_length size idx (offset b) <? pl)%nat then Some None
      else search_loop fuel h blocks size off (S pl) ((idx + 1) mod size)
  end.

Definition lookupCachedBlock (h : heap) (blocks : list Z) (size : nat) (off : Z) : option Z :=
  r ← search_loop (S size) h blocks size off 0 (hash_slot size off);
  match r with None => Some 0 | Some idx => blocks !! idx end.

Fixpoint insert_loop (fuel : nat) (h : heap) (blocks : list Z) (size : nat) (block : Z) (pl idx : nat)
  : option (list Z) :=
  match fuel with
  | O => None
  | S fuel =>
      p ← blocks !! idx;
      c ← h !! block;
      if p =? 0 then Some (<[idx := block]> blocks) else
      b ← h !! p;
      if offset b =? offset c then Some (<[idx := block]> blocks) else
      let oth_pl := probe_length size idx (offset b) in
      if (oth_pl <? pl)%nat
      then insert_loop fuel h (<[idx := block]> blocks) size p (S oth_pl) ((idx + 1) mod size)
      else insert_loop fuel h blocks size block (S pl) ((idx + 1) mod size)
  end.

Definition insertCachedBlock (h : heap) (blocks : list Z) (size : nat) (block : Z) : option (list Z) :=
  b ← h !! block;
  insert_loop (S size) h blocks size block 0 (hash_slot size (offset b)).

(** The second loop of [removeCachedBlock]: the blocks behind the hole move
    back, up to an empty slot or a block in its own slot. *)
Fixpoint shift_loop (fuel : nat) (h : heap) (blocks : list Z) (size idx : nat) : option (list Z) :=
  match fuel with
  | O => None
  | S fuel =>
      let nxt_idx := ((idx + 1) mod size)%nat in
      p ← blocks !! nxt_idx;
      if p =? 0 then Some (<[idx := 0]> blocks) else
      b ← h !! p;
      if (probe_length size nxt_idx (offset b) =? 0)%nat then Some (<[idx := 0]> blocks)
      else shift_loop fuel h (<[idx := p]> blocks) size nxt_idx
  end.

Definition removeCachedBlock (h : heap) (blocks : list Z) (size : nat) (off : Z) : option (Z * list Z) :=
  r ← search_loop (S size) h blocks size off 0 (hash_slot size off);
  match r with
  | None => Some (0, blocks)
  | Some idx =>
      removed ← blocks !! idx;
      if removed =? 0 then Some (removed, blocks) else
      blocks' ← shift_loop (S size) h blocks size idx;
      Some (removed, blocks')
  end.

Fixpoint rebuild_loop (h : heap) (old new_blocks : list Z) (new_size : nat) : option (list Z) :=
  match old with
  | [] => Some new_blocks
  | p :: old =>
      if p =? 0 then rebuild_loop h old new_blocks new_size else
      new_blocks ← insertCachedBlock h new_blocks new_size p;
      rebuild_loop h old new_blocks new_size
  end.

Definition rebuildTable (h : heap) (table : CachedBlockTable) (new_size : nat) : option CachedBlockTable :=
  new_blocks ← rebuild_loop h (take (capacity table) (blocks table)) (replicate new_size 0) new_size;
  Some (mkTable new_blocks (count table) new_size).

Fixpoint shrink_loop (fuel count new_size : nat) : option nat :=
  match fuel with
  | O => None
  | S fuel =>
      if (MIN_TABLE_CAPACITY <? new_size)%nat && (count * 4 <? new_size)%nat
      then shrink_loop fuel count (new_size / 2) else Some new_size
  end.

Fixpoint grow_loop (fuel count new_size : nat) : option nat :=
  match fuel with
  | O => None
  | S fuel =>
      if (new_size * 2 <? count * 3)%nat then grow_loop fuel count (new_size * 3 / 2) else Some new_size
  end.

Definition testForResize (h : heap) (table : CachedBlockTable) : option CachedBlockTable :=
  new_size ← shrink_loop (S (capacity table)) (count table) (capacity table);
  let new_size := if (new_size <? MIN_TABLE_CAPACITY)%nat then MIN_TABLE_CAPACITY else new_size in
  new_size ← grow_loop (S (count table * 3)) (count table) new_size;
  if (new_size =? capacity table)%nat then Some table else rebuildTable h table new_size.

(** [block] is the address [kalloc] gives. *)
Definition insertIntoTable (block : Z) (h : heap) (table : CachedBlockTable) (off bytes : Z)
  : option (heap * CachedBlockTable) :=
  table ← testForResize h table;
  let h := <[block := mkBlock off DEFAULT_PRIORITY bytes]> h in
  blocks' ← insertCachedBlock h (blocks table) (capacity table) block;
  Some (h, mkTable blocks' (S (count table)) (capacity table)).

Definition getFromTable (h : heap) (table : CachedBlockTable) (off : Z) : option Z :=
  if (count table =? 0)%nat then Some 0 else lookupCachedBlock h (blocks table) (capacity table) off.

(** *** The device *)

Section Device.
Context {D : Type} `{BlockDevice D}.

(** [allocMemory] of the device's allocator: the address of that many blocks,
    for the blocks that are in use; and [kalloc] for a [CachedBlock]. *)
Context (new_bytes : gset Z -> Z -> Z) (new_block : gset Z -> Z).

Record CachedBlockDevice := mkDevice {
  uncached : D; table : CachedBlockTable; cached : heap; live : gset Z; memory : bytes }.

(** The memory of the caller and the device. *)
Abbreviation world := (bytes * CachedBlockDevice)%type.

Definition set_table (s : CachedBlockDevice) (h : heap) (t : CachedBlockTable) : CachedBlockDevice :=
  mkDevice (uncached s) t h (live s) (memory s).
Definition set_memory (s : CachedBlockDevice) (m : bytes) : CachedBlockDevice :=
  mkDevice (uncached s) (table s) (cached s) (live s) m.

(** The addresses of [n] blocks from [p] on. *)
Definition pieces (p : Z) (n : nat) : list Z := (fun k => p + block_size * Z.of_nat k) <$> seq 0 n.

Definition allocMemory (size : Z) : R world Z := fun w =>
  let '(u, s) := w in
  let n := Z.to_nat (size / block_size) in
  let p := new_bytes (live s) (Z.of_nat n) in
  Some (Good p, (u, mkDevice (uncached s) (table s) (cached s) (live s ∪ list_to_set (pieces p n)) (memory s))).

Definition deallocMemory (p size : Z) : R world unit := fun w =>
  let '(u, s) := w in
  let ps := pieces p (Z.to_nat (size / block_size)) in
  if forallb (fun a => bool_decide (a ∈ live s)) ps then
    Some (Good tt, (u, mkDevice (uncached s) (table s) (cached s) (live s ∖ list_to_set ps) (memory s)))
  else None.

(** [getFromTable] and [insertIntoTable] on the table of the device. *)
Definition get_block (off : Z) : R world Z := fun w =>
  p ← getFromTable (cached (snd w)) (table (snd w)) off; Some (Good p, w).

Definition insert_block (off bytes : Z) : R world unit := fun w =>
  let '(u, s) := w in
  '(h, t) ← insertIntoTable (new_block (dom (cached s))) (cached s) (table s) off bytes;
  Some (Good tt, (u, set_table s h t)).

(** [if (cached->priority > 0) { cached->priority--; }] *)
Definition used (b : CachedBlock) : CachedBlock :=
  if priority b >? 0 then mkBlock (offset b) (priority b - 1) (bytes_ b) else b.

Definition touch_block (p : Z) : R world unit := fun w =>
  let '(u, s) := w in
  b ← cached s !! p;
  Some (Good tt, (u, set_table s (<[p := used b]> (cached s)) (table s))).

(** The read without the lock: the bytes are in the memory of the cache. *)
Definition fetch (bytes offset size : Z) : R world unit := fun w =>
  let '(u, s) := w in
  '(r, d) ← dev_read offset size (uncached s);
  match r with
  | Good l => Some (Good tt, (u, mkDevice d (table s) (cached s) (live s) (put_bytes (memory s) bytes l)))
  | Bad e => Some (Bad e, (u, mkDevice d (table s) (cached s) (live s) (memory s)))
  end.

(** [memcpyBetweenVirtPtr] between the memory of the cache and the caller. *)
Definition to_caller (buff bytes size : Z) : R world unit := fun w =>
  let '(u, s) := w in Some (Good tt, (put_bytes u buff (bytes_at (memory s) bytes size), s)).
Definition from_caller (bytes buff size : Z) : R world unit := fun w =>
  let '(u, s) := w in Some (Good tt, (u, set_memory s (put_bytes (memory s) bytes (bytes_at u buff size)))).

(** The loop of [readUncached], under the lock again. *)
Fixpoint store_loop (fuel : nat) (bytes offset size : Z) : R world unit :=
  match fuel with
  | O => undefined
  | S fuel =>
      if size >? 0 then
        cached ← get_block offset;
        (if cached =? 0 then insert_block offset bytes
         else deallocMemory bytes block_size;; touch_block cached);;
        store_loop fuel (bytes + block_size) (u64 (offset + block_size)) (size - block_size)
      else mret tt
  end.

Definition readUncached (buff offset size : Z) : R world unit :=
  bytes ← allocMemory size;
  rassert (negb (bytes =? 0));;
  r ← attempt (fetch bytes offset size);
  match r with
  | Bad e => deallocMemory bytes size;; bad e
  | Good _ =>
      to_caller buff bytes size;;
      store_loop (S (Z.to_nat size)) bytes offset size
  end.

Definition block_bytes (p : Z) : R world Z := fun w =>
  b ← cached (snd w) !! p; Some (Good (bytes_ b), w).

Definition read_cached (cached cbuff : Z) : R world unit :=
  touch_block cached;;
  bytes ← block_bytes cached;
  to_caller cbuff bytes block_size.

Fixpoint read_loop (fuel : nat) (buff offset uncached size : Z) : R world unit :=
  match fuel with
  | O => undefined
  | S fuel =>
      if size >? 0 then
        cached ← get_block (u64 (offset + uncached));
        if negb (cached =? 0) then
          read_cached cached (u64 (buff + uncached));;
          (if negb (uncached =? 0) then readUncached buff offset uncached else mret tt);;
          read_loop fuel (u64 (buff + (uncached + block_size))) (u64 (offset + (uncached + block_size))) 0 (size - block_size)
        else read_loop fuel buff offset (uncached + block_size) (size - block_size)
      else if negb (uncached =? 0) then readUncached buff offset uncached else mret tt
  end.

Definition readFunction (buff offset size : Z) : R world unit :=
  rassert ((size mod block_size =? 0) && (offset mod block_size =? 0));;
  read_loop (S (Z.to_nat size)) buff offset 0 size.

(** The part of [writeFunction] under the lock. *)
Fixpoint write_loop (fuel : nat) (buff offset size : Z) : R world unit :=
  match fuel with
  | O => undefined
  | S fuel =>
      if size >? 0 then
        cached ← get_block offset;
        (if cached =? 0 then
           bytes ← allocMemory block_size;
           rassert (negb (bytes =? 0));;
           from_caller bytes buff block_size;;
           insert_block offset bytes
         else
           bytes ← block_bytes cached;
           from_caller bytes buff block_size);;
        write_loop fuel (u64 (buff + block_size)) (u64 (offset + block_size)) (size - block_size)
      else mret tt
  end.

Definition write_uncached (buff offset size : Z) : R world unit := fun w =>
  let '(u, s) := w in
  '(r, d) ← dev_write offset (bytes_at u buff size) (uncached s);
  Some (r, (u, mkDevice d (table s) (cached s) (live s) (memory s))).

Definition writeFunction (buff offset size : Z) : R world unit :=
  rassert ((size mod block_size =? 0) && (offset mod block_size =? 0));;
  write_uncached buff offset size;;
  write_loop (S (Z.to_nat size)) buff offset size.

Fixpoint reclaim_loop (fuel : nat) (prio : Z) (i : nat) (freed : nat) (s : CachedBlockDevice)
  : option (nat * CachedBlockDevice) :=
  match fuel with
  | O => None
  | S fuel =>
      if (i <? capacity (table s))%nat then
        p ← blocks (table s) !! i;
        if negb (p =? 0) then
          b ← cached s !! p;
          if priority b >=? prio then
            '(_, l) ← removeCachedBlock (cached s) (blocks (table s)) (capacity (table s)) (offset b);
            let s := set_table s (cached s) (mkTable l (count (table s) - 1) (capacity (table s))) in
            '(_, (_, s)) ← deallocMemory (bytes_ b) block_size (memory s, s);
            reclaim_loop fuel prio i (S freed) (set_table s (delete p (cached s)) (table s))
          else
            reclaim_loop fuel prio (S i) freed
              (set_table s (<[p := mkBlock (offset b) (priority b + 1) (bytes_ b)]> (cached s)) (table s))
        else reclaim_loop fuel prio (S i) freed s
      else Some (freed, s)
  end.

Definition reclaimFunction (prio : Z) (s : CachedBlockDevice) : option (bool * CachedBlockDevice) :=
  '(freed, s) ← reclaim_loop (S (capacity (table s) + count (table s))) prio 0 0 s;
  t ← testForResize (cached s) (table s);
  Some (negb (freed =? 0)%nat, set_table s (cached s) t).

Definition wrapBlockDeviceWithCache (d : D) : CachedBlockDevice := mkDevice d (mkTable [] 0 0) ∅ ∅ (fun _ => 0).

(** [funcs]: the wrapped device is a block device again. *)
Definition cached_device : BlockDevice CachedBlockDevice := {|
  block_size := block_size;
  dev_read off n s :=
    match readFunction 0 off n (fun _ => 0, s) with
    | Some (Good _, (u, s)) => Some (Good (bytes_at u 0 n), s)
    | Some (Bad e, (_, s)) => Some (Bad e, s)
    | None => None
    end;
  dev_write off l s :=
    match writeFunction 0 off (Z.of_nat (length l)) (put_bytes (fun _ => 0) 0 l, s) with
    | Some (r, (_, s)) => Some (r, s)
    | None => None
    end;
|}.

End Device.

(** ** Lemmas: permutations and slots *)

Lemma insert_swap {A} (l : list A) i x y : l !! i = Some x -> (x :: <[i := y]> l) ≡ₚ (y :: l).
Proof.
  revert i. induction l as [|z l IH]; intros [|i] Hi; [done|done| |].
  - injection Hi as ->. cbn. constructor.
  - cbn in Hi |- *. rewrite Permutation_swap, (IH i Hi). constructor.
Qed.

Lemma nodup_omap {A B} (f : A -> option B) (l : list A) i j x y k :
  NoDup (omap f l) -> l !! i = Some x -> l !! j = Some y -> f x = Some k -> f y = Some k -> i = j.
Proof.
  revert i j. induction l as [|z l IH]; intros i j Hn Hi Hj Hx Hy; [done|]. cbn in Hn.
  assert (Hin : forall m w, l !! m = Some w -> f w = Some k -> k ∈ omap f l).
  { intros m w Hm Hw. apply list_elem_of_omap. exists w. split; [by eapply list_elem_of_lookup_2|done]. }
  destruct i as [|i], j as [|j]; [done| | |].
  - cbn in Hi, Hj. injection Hi as ->. rewrite Hx in Hn. apply nodup_cons in Hn as [Hn _]. destruct Hn. eauto.
  - cbn in Hi, Hj. injection Hj as ->. rewrite Hy in Hn. apply nodup_cons in Hn as [Hn _]. destruct Hn. eauto.
  - f_equal. apply IH; try done. destruct (f z); [|done]. by apply nodup_cons in Hn as [_ Hn].
Qed.

Lemma next_spec n i : (i < n)%nat -> ((i + 1) mod n = if decide (i + 1 = n) then 0 else i + 1)%nat.
Proof.
  intros Hi. destruct (decide _) as [->|]; [apply Nat.Div0.mod_same|apply Nat.mod_small; lia].
Qed.

Lemma next_inj n i i' : (i < n -> i' < n -> (i + 1) mod n = (i' + 1) mod n -> i = i')%nat.
Proof. intros Hi Hi'. rewrite !next_spec by done. repeat destruct (decide _); lia. Qed.

Lemma hash_slot_lt n o : (0 < n)%nat -> (hash_slot n o < n)%nat.
Proof. intros Hn. unfold hash_slot. pose proof (Z.mod_pos_bound (Util.hashInt64 o) (Z.of_nat n) ltac:(lia)). lia. Qed.

Lemma probe_pos n o j : (j < n)%nat -> probe_length n (Probe.pos n (hash_slot n o) j) o = j.
Proof.
  intros Hj. pose proof (hash_slot_lt n o ltac:(lia)). set (s := hash_slot n o) in *.
  unfold probe_length, Probe.pos. fold s. destruct (Nat.lt_ge_cases (s + j) n) as [Hlt|Hge].
  - rewrite (Nat.mod_small (s + j)) by done. replace (n + (s + j) - s)%nat with (j + 1 * n)%nat by lia.
    rewrite Nat.Div0.mod_add. by apply Nat.mod_small.
  - replace (s + j)%nat with ((s + j - n) + 1 * n)%nat by lia. rewrite Nat.Div0.mod_add, (Nat.mod_small (s + j - n)) by lia.
    replace (n + (s + j - n) - s)%nat with j by lia. by apply Nat.mod_small.
Qed.

Lemma pos_probe n o i : (i < n)%nat -> Probe.pos n (hash_slot n o) (probe_length n i o) = i.
Proof.
  intros Hi. destruct (Probe.pos_surj n (hash_slot n o) i) as (j & Hj & <-); [by apply hash_slot_lt; lia|done|].
  by rewrite probe_pos.
Qed.

Lemma probe_lt n i o : (0 < n)%nat -> (probe_length n i o < n)%nat.
Proof. intros Hn. apply Nat.mod_upper_bound. lia. Qed.

(** A key one slot closer to its own. *)
Lemma probe_prev n i o :
  (i < n)%nat -> (0 < probe_length n ((i + 1) mod n) o)%nat ->
  S (probe_length n i o) = probe_length n ((i + 1) mod n) o.
Proof.
  intros Hi Hp. set (q := ((i + 1) mod n)%nat) in *. assert (Hq : (q < n)%nat) by (apply Nat.mod_upper_bound; lia).
  pose proof (pos_probe n o q Hq) as E. pose proof (probe_lt n q o ltac:(lia)) as Hlt.
  set (d := probe_length n q o) in *. destruct d as [|d]; [lia|].
  rewrite <- Probe.pos_S in E by lia. unfold q in E. apply next_inj in E; [|apply Probe.pos_lt; lia|done].
  rewrite <- E, probe_pos by lia. done.
Qed.

(** ** The invariant of the table

    The rank of a slot is 0 when it is empty, and one more than the probe
    length of its block otherwise.  From a slot to the next, it grows by at most
    one: this is what lets a search stop early. *)

Section Table.
Context (h : heap).

Definition key (p : Z) : option Z := if p =? 0 then None else offset <$> h !! p.

Abbreviation keys l := (omap key l).

Definition rank_of (n i : nat) (p : Z) : nat :=
  match key p with None => 0 | Some o => S (probe_length n i o) end.

Definition rank (l : list Z) (i : nat) : nat := match l !! i with Some p => rank_of (length l) i p | None => 0 end.

Definition ranked (l : list Z) : Prop :=
  forall i, (i < length l)%nat -> (rank l ((i + 1) mod length l) <= S (rank l i))%nat.

Definition known (p : Z) : Prop := p = 0 \/ is_Some (h !! p).

Record robin (l : list Z) : Prop := {
  rb_len : (0 < length l)%nat;
  rb_known : Forall known l;
  rb_ranked : ranked l;
  rb_once : NoDup (keys l);
}.

Lemma known_key p : known p -> p <> 0 -> exists b, h !! p = Some b /\ key p = Some (offset b).
Proof.
  intros [->|[b Hb]] Hp; [done|]. exists b. split; [done|]. unfold key. rewrite (proj2 (Z.eqb_neq p 0)) by done. by rewrite Hb.
Qed.

Lemma key_0 : key 0 = None.
Proof. done. Qed.

Lemma rank_at l i p : l !! i = Some p -> rank l i = rank_of (length l) i p.
Proof. unfold rank. by intros ->. Qed.

Lemma rank_insert l i p : (i < length l)%nat -> rank (<[i := p]> l) i = rank_of (length l) i p.
Proof. intros Hi. unfold rank. by rewrite list_lookup_insert_eq, length_insert. Qed.

Lemma rank_insert_ne l i j p : i <> j -> rank (<[i := p]> l) j = rank l j.
Proof. intros Hij. unfold rank. by rewrite list_lookup_insert_ne, length_insert. Qed.

(** A slot may get any block whose rank fits between its neighbours. *)
Lemma ranked_put l idx p :
  ranked l -> (idx < length l)%nat ->
  (forall i, (i < length l)%nat -> i <> idx -> (i + 1) mod length l = idx ->
     rank_of (length l) idx p <= S (rank l i))%nat ->
  (rank l ((idx + 1) mod length l) <= S (rank_of (length l) idx p))%nat ->
  ranked (<[idx := p]> l).
Proof.
  intros Hr Hidx Hp Hn i. rewrite length_insert. intros Hi.
  destruct (decide (idx = (i + 1) mod length l)%nat) as [E|E], (decide (idx = i)) as [<-|E'].
  - rewrite <- E, rank_insert by done. lia.
  - rewrite <- E, rank_insert, rank_insert_ne by done. by apply Hp.
  - rewrite rank_insert_ne, rank_insert by done. done.
  - rewrite !rank_insert_ne by done. by apply Hr.
Qed.

(** [j] slots behind an empty slot the rank is at most [j]. *)
Lemma rank_behind l e j :
  ranked l -> l !! e = Some 0 -> (j < length l)%nat -> (rank l (Probe.pos (length l) e j) <= j)%nat.
Proof.
  intros Hr He. assert (Hel : (e < length l)%nat) by by eapply lookup_lt_Some.
  induction j as [|j IH]; intros Hj.
  - rewrite Probe.pos_0 by done. rewrite (rank_at _ _ _ He). done.
  - rewrite <- Probe.pos_S by lia. pose proof (Hr (Probe.pos (length l) e j) (Probe.pos_lt (length l) e j ltac:(lia))).
    specialize (IH ltac:(lia)). lia.
Qed.

Lemma pos_full n e : (e < n)%nat -> Probe.pos n e n = e.
Proof.
  intros He. unfold Probe.pos. replace (e + n)%nat with (e + 1 * n)%nat by lia. rewrite Nat.Div0.mod_add. by apply Nat.mod_small.
Qed.

(** *** Searches *)

Lemma rb_at l i : robin l -> (i < length l)%nat ->
  exists p, l !! i = Some p /\ (p = 0 \/ exists b, h !! p = Some b /\ p <> 0 /\ key p = Some (offset b)).
Proof.
  intros Hr Hi. destruct (lookup_lt_is_Some_2 l i Hi) as [p Hp]. exists p. split; [done|].
  destruct (Z.eq_dec p 0); [by left|right]. destruct (known_key p) as (b & Hb & Hk); [|done|by exists b].
  eapply Forall_lookup_1; [apply Hr|done].
Qed.

Lemma rb_index l i j p q o :
  robin l -> l !! i = Some p -> l !! j = Some q -> key p = Some o -> key q = Some o -> i = j.
Proof. intros Hr. eapply nodup_omap, Hr. Qed.

(** The slots before a block are full, with probe lengths of at least theirs. *)
Lemma rank_before l i p o k :
  robin l -> l !! i = Some p -> key p = Some o -> (k <= probe_length (length l) i o)%nat ->
  (S k <= rank l (Probe.pos (length l) (hash_slot (length l) o) k))%nat.
Proof.
  intros Hr Hi Hk Hle. pose proof (rb_len _ Hr) as Hn. assert (Hil : (i < length l)%nat) by by eapply lookup_lt_Some.
  set (s := hash_slot (length l) o). set (J := probe_length (length l) i o) in *.
  assert (HJ : (J < length l)%nat) by by apply probe_lt.
  enough (H : forall m, (m <= J)%nat -> (S (J - m) <= rank l (Probe.pos (length l) s (J - m)))%nat).
  { specialize (H (J - k)%nat ltac:(lia)). by replace (J - (J - k))%nat with k in H by lia. }
  induction m as [|m IH]; intros Hm.
  - rewrite Nat.sub_0_r. unfold s, J. rewrite pos_probe by done. rewrite (rank_at _ _ _ Hi). unfold rank_of. by rewrite Hk.
  - specialize (IH ltac:(lia)). replace (J - m)%nat with (S (J - S m)) in IH by lia.
    rewrite <- Probe.pos_S in IH by done.
    pose proof (rb_ranked _ Hr (Probe.pos (length l) s (J - S m)) (Probe.pos_lt _ _ _ Hn)). lia.
Qed.

Lemma probe_found l i p o :
  robin l -> l !! i = Some p -> key p = Some o ->
  search_loop (S (length l)) h l (length l) o 0 (hash_slot (length l) o) = Some (Some i).
Proof.
  intros Hr Hi Hk. pose proof (rb_len _ Hr) as Hn. assert (Hil : (i < length l)%nat) by by eapply lookup_lt_Some.
  set (s := hash_slot (length l) o). set (J := probe_length (length l) i o).
  assert (HJ : (J < length l)%nat) by by apply probe_lt.
  enough (H : forall d j fuel, (j + d = J)%nat -> (d < fuel)%nat ->
    search_loop fuel h l (length l) o j (Probe.pos (length l) s j) = Some (Some i)).
  { specialize (H J 0%nat (S (length l)) ltac:(lia) ltac:(lia)). rewrite Probe.pos_0 in H; [done|by apply hash_slot_lt]. }
  induction d as [|d IH]; intros j [|fuel] Hj Hf; try lia; cbn [search_loop].
  - replace j with J by lia. unfold s, J. rewrite pos_probe by done. rewrite Hi. cbn [mbind option_bind].
    destruct (Z.eqb_spec p 0) as [->|Hp]; [done|].
    destruct (known_key p) as (b & Hb & Hkb); [eapply Forall_lookup_1; [apply Hr|done]|done|].
    rewrite Hb. cbn [mbind option_bind]. rewrite (proj2 (Z.eqb_eq _ _)); [done|congruence].
  - pose proof (rank_before l i p o j Hr Hi Hk) as Hrk. fold s J in Hrk. specialize (Hrk ltac:(lia)).
    assert (Hpl : (Probe.pos (length l) s j < length l)%nat) by by apply Probe.pos_lt.
    destruct (rb_at l _ Hr Hpl) as (q & Hq & Hor). rewrite (rank_at _ _ _ Hq) in Hrk. unfold rank_of in Hrk.
    rewrite Hq. cbn [mbind option_bind]. destruct Hor as [->|(b & Hb & Hq0 & Hkq)]; [rewrite key_0 in Hrk; lia|].
    rewrite (proj2 (Z.eqb_neq _ _)) by done. rewrite Hb. cbn [mbind option_bind]. rewrite Hkq in Hrk.
    rewrite (proj2 (Z.eqb_neq _ _)).
    + rewrite (proj2 (Nat.ltb_ge _ _)) by lia. rewrite Probe.pos_S by done. apply IH; lia.
    + intros E. rewrite E in Hkq. pose proof (rb_index _ _ _ _ _ _ Hr Hq Hi Hkq Hk) as Ei.
      rewrite <- (pos_probe (length l) o i Hil) in Ei. fold s J in Ei. apply Probe.pos_inj in Ei; try lia.
      by apply hash_slot_lt.
Qed.

Lemma probe_absent l o :
  robin l -> o ∉ keys l ->
  exists r, search_loop (S (length l)) h l (length l) o 0 (hash_slot (length l) o) = Some r /\
    match r with None => True | Some i => l !! i = Some 0 end.
Proof.
  intros Hr Ho. pose proof (rb_len _ Hr) as Hn.
  enough (H : forall fuel pl idx, (pl <= length l)%nat -> (length l < pl + fuel)%nat -> (idx < length l)%nat ->
    exists r, search_loop fuel h l (length l) o pl idx = Some r /\ match r with None => True | Some i => l !! i = Some 0 end).
  { apply H; [lia|lia|by apply hash_slot_lt]. }
  induction fuel as [|fuel IH]; intros pl idx Hpl Hf Hidx; [lia|]. cbn [search_loop].
  destruct (rb_at l idx Hr Hidx) as (q & Hq & Hor). rewrite Hq. cbn [mbind option_bind].
  destruct Hor as [->|(b & Hb & Hq0 & Hkq)]; [by exists (Some idx)|].
  rewrite (proj2 (Z.eqb_neq _ _)) by done. rewrite Hb. cbn [mbind option_bind]. rewrite (proj2 (Z.eqb_neq _ _)).
  - destruct (Nat.ltb_spec (probe_length (length l) idx (offset b)) pl) as [|Hge]; [by exists None|].
    pose proof (probe_lt (length l) idx (offset b) Hn). apply IH; [lia|lia|]. apply Nat.mod_upper_bound. lia.
  - intros E. apply Ho, list_elem_of_omap. exists q. rewrite Hkq, E. split; [by eapply list_elem_of_lookup_2|done].
Qed.

(** *** Insertion *)

(** What the loop carries: a block that is not in the table, [pl] slots behind
    its own, and every slot up to here has a higher rank. *)
Record carries (l : list Z) (e : nat) (c : Z) (pl j : nat) : Prop := {
  c_robin : robin l;
  c_empty : l !! e = Some 0;
  c_steps : (0 < j <= length l)%nat;
  c_new : exists o, key c = Some o /\ (o ∉ keys l) /\
    Probe.pos (length l) (hash_slot (length l) o) pl = Probe.pos (length l) e j;
  c_pl : (pl <= rank l (Probe.pos (length l) e (j - 1)))%nat;
}.

Lemma key_known p o : key p = Some o -> p <> 0 /\ exists b, h !! p = Some b /\ offset b = o.
Proof.
  unfold key. destruct (Z.eqb_spec p 0); [done|]. intros E. split; [done|].
  destruct (h !! p) as [b|]; [|done]. exists b. by injection E as <-.
Qed.

Lemma carries_pl l e c pl j : carries l e c pl j -> (pl < length l)%nat /\ (pl <= j - 1)%nat.
Proof.
  intros Hc. pose proof (c_steps _ _ _ _ _ Hc). pose proof (c_pl _ _ _ _ _ Hc).
  pose proof (rank_behind l e (j - 1) (rb_ranked _ (c_robin _ _ _ _ _ Hc)) (c_empty _ _ _ _ _ Hc) ltac:(lia)). lia.
Qed.

Lemma keys_cons x l : omap key (x :: l) = match key x with Some o => o :: keys l | None => keys l end.
Proof. done. Qed.

Lemma keys_swap l i x y : l !! i = Some x -> (omap key (x :: <[i := y]> l)) ≡ₚ (omap key (y :: l)).
Proof. intros Hi. by rewrite (insert_swap l i x y Hi). Qed.

(** Putting the carried block down, where the slot has a smaller rank. *)
Lemma carries_put l e c pl j p :
  carries l e c pl j -> l !! Probe.pos (length l) e j = Some p ->
  (rank_of (length l) (Probe.pos (length l) e j) p <= S pl)%nat ->
  robin (<[Probe.pos (length l) e j := c]> l) /\
  rank (<[Probe.pos (length l) e j := c]> l) (Probe.pos (length l) e j) = S pl.
Proof.
  intros Hc Hp Hrk. pose proof (c_robin _ _ _ _ _ Hc) as Hr. destruct (c_new _ _ _ _ _ Hc) as (o & Hk & Hno & Hpos).
  destruct (carries_pl _ _ _ _ _ Hc) as [Hpl _]. pose proof (rb_len _ Hr) as Hn. pose proof (c_steps _ _ _ _ _ Hc) as Hj.
  set (idx := Probe.pos (length l) e j) in *. assert (Hidx : (idx < length l)%nat) by by apply Probe.pos_lt.
  assert (Hro : rank_of (length l) idx c = S pl) by (unfold rank_of; rewrite Hk, <- Hpos, probe_pos by done; done).
  split; [|by rewrite rank_insert by done]. split.
  - by rewrite length_insert.
  - apply Forall_insert; [apply Hr|]. right. destruct (key_known _ _ Hk) as (_ & b & -> & _). by eexists.
  - apply ranked_put; [apply Hr|done| |].
    + intros i Hi _ E. rewrite Hro. assert (Ei : i = Probe.pos (length l) e (j - 1)).
      { apply (next_inj (length l)); [done|by apply Probe.pos_lt|]. rewrite E, Probe.pos_S by done. unfold idx. f_equal. lia. }
      rewrite Ei. pose proof (c_pl _ _ _ _ _ Hc). lia.
    + rewrite Hro. pose proof (rb_ranked _ Hr idx Hidx). rewrite (rank_at _ _ _ Hp) in *. lia.
  - assert (Hnd : NoDup (omap key (p :: <[idx := c]> l))).
    { rewrite (keys_swap l idx p c Hp). rewrite !keys_cons. rewrite Hk. apply nodup_cons. split; [done|apply Hr]. }
    rewrite !keys_cons in Hnd. destruct (key p); [by apply nodup_cons in Hnd as [_ Hnd]|done].
Qed.

(** A block with a longer way behind it stays; the carried block goes on. *)
Lemma carries_pass l e c pl j p b :
  carries l e c pl j -> (j < length l)%nat -> l !! Probe.pos (length l) e j = Some p -> key p = Some (offset b) ->
  (pl <= probe_length (length l) (Probe.pos (length l) e j) (offset b))%nat ->
  carries l e c (S pl) (S j).
Proof.
  intros Hc Hj Hp Hk Hge. pose proof (rb_len _ (c_robin _ _ _ _ _ Hc)) as Hn.
  destruct (c_new _ _ _ _ _ Hc) as (o & Hkc & Hno & Hpos). split; [apply Hc|apply Hc|lia| |].
  - exists o. split; [done|split; [done|]]. rewrite <- !Probe.pos_S by done. by rewrite Hpos.
  - replace (S j - 1)%nat with j by lia. rewrite (rank_at _ _ _ Hp). unfold rank_of. rewrite Hk. lia.
Qed.

(** A block with a shorter way is taken up in exchange. *)
Lemma carries_swap l e c pl j p b :
  let idx := Probe.pos (length l) e j in
  carries l e c pl j -> (j < length l)%nat -> l !! idx = Some p -> key p = Some (offset b) ->
  (probe_length (length l) idx (offset b) < pl)%nat ->
  carries (<[idx := c]> l) e p (S (probe_length (length l) idx (offset b))) (S j).
Proof.
  intros idx Hc Hj Hp Hk Hlt. pose proof (rb_len _ (c_robin _ _ _ _ _ Hc)) as Hn.
  destruct (c_new _ _ _ _ _ Hc) as (o & Hkc & Hno & Hpos).
  destruct (carries_put l e c pl j p Hc Hp) as [Hr Hrk]; [unfold rank_of; rewrite Hk; fold idx; lia|]. fold idx in Hr, Hrk.
  split; rewrite ?length_insert; [done| |lia| |].
  - rewrite list_lookup_insert_ne; [apply Hc|]. intros E. rewrite E, (c_empty _ _ _ _ _ Hc) in Hp. by injection Hp as <-.
  - exists (offset b). split; [done|split].
    + pose proof (keys_swap l idx p c Hp) as Hsw. rewrite !keys_cons, Hk, Hkc in Hsw.
      assert (Hnd : NoDup (offset b :: omap key (<[idx := c]> l))).
      { rewrite Hsw. apply nodup_cons. split; [done|apply Hc]. }
      by apply nodup_cons in Hnd as [Hnd _].
    + rewrite <- !Probe.pos_S by done. f_equal. f_equal. apply pos_probe. by apply Probe.pos_lt.
  - replace (S j - 1)%nat with j by lia. fold idx. rewrite Hrk. lia.
Qed.

Lemma insert_loop_ok d : forall fuel l e c pl j,
  (j + d = length l)%nat -> (d < fuel)%nat -> carries l e c pl j ->
  exists l', insert_loop fuel h l (length l) c pl (Probe.pos (length l) e j) = Some l' /\
    robin l' /\ length l' = length l /\ (0 :: l') ≡ₚ (c :: l).
Proof.
  induction d as [|d IH]; intros [|fuel] l e c pl j Hj Hf Hc; try lia; cbn [insert_loop];
    pose proof (c_robin _ _ _ _ _ Hc) as Hr; pose proof (rb_len _ Hr) as Hn; set (idx := Probe.pos (length l) e j) in *;
    (assert (Hidx : (idx < length l)%nat) by by apply Probe.pos_lt);
    destruct (rb_at l _ Hr Hidx) as (p & Hp & Hor); rewrite Hp; cbn [mbind option_bind];
    destruct (c_new _ _ _ _ _ Hc) as (o & Hk & Hno & Hpos); destruct (key_known _ _ Hk) as (Hc0 & cb & Hcb & Ho);
    rewrite Hcb; cbn [mbind option_bind];
    (assert (Hput : p = 0 -> exists l', Some (<[idx := c]> l) = Some l' /\ robin l' /\ length l' = length l /\ (0 :: l') ≡ₚ (c :: l))
      by (intros ->; eexists; split; [done|]; destruct (carries_put l e c pl j 0 Hc Hp) as [? _]; [cbn; lia|];
          split; [done|]; split; [by rewrite length_insert|by apply insert_swap])).
  - assert (E : p = 0).
    { pose proof (c_empty _ _ _ _ _ Hc) as He. unfold idx in Hp. replace j with (length l) in Hp by lia.
      rewrite pos_full in Hp by (by eapply lookup_lt_Some). congruence. }
    rewrite (proj2 (Z.eqb_eq _ _)) by done. by apply Hput.
  - destruct (Z.eqb_spec p 0) as [E|Hp0]; [by apply Hput|]. destruct Hor as [|(b & Hb & _ & Hkp)]; [done|].
    rewrite Hb. cbn [mbind option_bind]. rewrite (proj2 (Z.eqb_neq _ _)).
    2: { intros E. apply Hno, list_elem_of_omap. exists p. rewrite Hkp, E, Ho. split; [by eapply list_elem_of_lookup_2|done]. }
    replace ((idx + 1) mod length l)%nat with (Probe.pos (length l) e (S j)) by (symmetry; by apply Probe.pos_S).
    destruct (Nat.ltb_spec (probe_length (length l) idx (offset b)) pl) as [Hlt|Hge].
    + destruct (IH fuel (<[idx := c]> l) e p (S (probe_length (length l) idx (offset b))) (S j)) as (l' & E & Hrob & Hlen & Hperm);
        rewrite ?length_insert in *; [lia|lia|apply (carries_swap l e c pl j p b); try done; lia|].
      exists l'. split; [done|split; [done|split; [done|]]]. rewrite Hperm. by apply insert_swap.
    + apply IH; [lia|lia|]. apply (carries_pass l e c pl j p b); try done; lia.
Qed.

Lemma insertCachedBlock_ok l c o :
  robin l -> 0 ∈ l -> key c = Some o -> o ∉ keys l ->
  exists l', insertCachedBlock h l (length l) c = Some l' /\ robin l' /\ length l' = length l /\ (0 :: l') ≡ₚ (c :: l).
Proof.
  intros Hr [e He]%list_elem_of_lookup Hk Ho. pose proof (rb_len _ Hr) as Hn.
  assert (Hel : (e < length l)%nat) by by eapply lookup_lt_Some.
  destruct (key_known _ _ Hk) as (_ & b & Hb & Hob). unfold insertCachedBlock. rewrite Hb. cbn [mbind option_bind]. rewrite Hob.
  set (s := hash_slot (length l) o). assert (Hs : (s < length l)%nat) by by apply hash_slot_lt.
  assert (Hj : exists j, (0 < j <= length l)%nat /\ Probe.pos (length l) e j = s).
  { destruct (Probe.pos_surj (length l) e s Hel Hs) as ([|j] & Hj & E); [|by exists (S j); split; [lia|]].
    exists (length l). split; [lia|]. rewrite Probe.pos_0 in E by done. by rewrite pos_full, E. }
  destruct Hj as (j & Hj & E). rewrite <- E. apply (insert_loop_ok (length l - j)); [lia|lia|].
  split; [done|done|done| |lia]. exists o. split; [done|split; [done|]]. fold s. rewrite Probe.pos_0 by done. done.
Qed.

(** *** Deletion *)

(** The loop has a hole at [j] slots behind the empty slot [e]. *)
Lemma shift_loop_ok d : forall fuel l e j base,
  (j + d = length l)%nat -> (0 < d)%nat -> (d < fuel)%nat -> (0 < j)%nat -> l !! e = Some 0 ->
  Forall known l -> ranked l -> <[Probe.pos (length l) e j := 0]> l ≡ₚ base ->
  exists l', shift_loop fuel h l (length l) (Probe.pos (length l) e j) = Some l' /\
    ranked l' /\ length l' = length l /\ l' ≡ₚ base.
Proof.
  induction d as [|d IH]; intros [|fuel] l e j base Hj Hd Hf Hj0 He Hkn Hr Hperm; try lia; cbn [shift_loop].
  assert (Hn : (0 < length l)%nat) by lia. assert (Hel : (e < length l)%nat) by by eapply lookup_lt_Some.
  set (idx := Probe.pos (length l) e j) in *. assert (Hidx : (idx < length l)%nat) by by apply Probe.pos_lt.
  assert (Hnext : ((idx + 1) mod length l)%nat = Probe.pos (length l) e (S j)) by by apply Probe.pos_S.
  set (nxt := ((idx + 1) mod length l)%nat) in *.
  assert (Hnxt : (nxt < length l)%nat) by (apply Nat.mod_upper_bound; lia).
  destruct (lookup_lt_is_Some_2 l nxt Hnxt) as [p Hp]. rewrite Hp. cbn [mbind option_bind].
  assert (Hclear : (rank l nxt <= 1)%nat -> exists l', Some (<[idx := 0]> l) = Some l' /\ ranked l' /\ length l' = length l /\ l' ≡ₚ base).
  { intros Hrk. eexists. split; [done|split; [|split; [by rewrite length_insert|done]]].
    apply ranked_put; [done|done|intros; cbn; lia|]. fold nxt. cbn. lia. }
  rewrite (rank_at _ _ _ Hp) in Hclear. unfold rank_of in Hclear.
  destruct (Z.eqb_spec p 0) as [->|Hp0]; [by apply Hclear; rewrite key_0; lia|].
  destruct (known_key p) as (b & Hb & Hk); [by eapply Forall_lookup_1|done|]. rewrite Hb. cbn [mbind option_bind].
  rewrite Hk in Hclear. destruct (Nat.eqb_spec (probe_length (length l) nxt (offset b)) 0) as [E|Hpl]; [apply Hclear; lia|].
  assert (Hne : nxt <> e) by (intros E; rewrite E in Hp; congruence).
  assert (Hlast : (S j < length l)%nat).
  { destruct (Nat.eq_dec (S j) (length l)) as [E|]; [|lia]. destruct Hne. by rewrite Hnext, E, pos_full. }
  assert (Hie : idx <> e) by (apply Probe.pos_back; [done|lia]).
  assert (Hin : idx <> nxt).
  { unfold idx. rewrite Hnext. intros E. apply Probe.pos_inj in E; [lia|done|lia|done]. }
  destruct (IH fuel (<[idx := p]> l) e (S j) base) as (l' & E & H1 & H2 & H3); rewrite ?length_insert in *; try lia.
  - by rewrite list_lookup_insert_ne.
  - apply Forall_insert; [done|]. by eapply Forall_lookup_1.
  - pose proof (probe_prev (length l) idx (offset b) Hidx) as Hpp. fold nxt in Hpp. specialize (Hpp ltac:(lia)).
    assert (Hrn : rank l nxt = S (probe_length (length l) nxt (offset b))) by (rewrite (rank_at _ _ _ Hp); unfold rank_of; by rewrite Hk).
    assert (Hri : rank_of (length l) idx p = probe_length (length l) nxt (offset b)) by (unfold rank_of; rewrite Hk; lia).
    apply ranked_put; [done|done| |].
    + intros i Hi _ Ei. rewrite Hri. pose proof (Hr idx Hidx). fold nxt in H. pose proof (Hr i Hi). rewrite Ei in *. lia.
    + fold nxt. rewrite Hri, Hrn. lia.
  - rewrite <- Hperm, <- Hnext. apply (Permutation_cons_inv (a := p)).
    rewrite (insert_swap (<[idx := p]> l) nxt p 0) by by rewrite list_lookup_insert_ne.
    pose proof (insert_swap (<[idx := 0]> l) idx 0 p ltac:(by rewrite list_lookup_insert_eq)) as Hsw.
    by rewrite list_insert_insert_eq in Hsw.
  - exists l'. rewrite Hnext. done.
Qed.

Lemma removeCachedBlock_ok l p o :
  robin l -> 0 ∈ l -> p ∈ l -> key p = Some o ->
  exists l', removeCachedBlock h l (length l) o = Some (p, l') /\ robin l' /\ length l' = length l /\ (p :: l') ≡ₚ (0 :: l).
Proof.
  intros Hr [e He]%list_elem_of_lookup [i Hi]%list_elem_of_lookup Hk. pose proof (rb_len _ Hr) as Hn.
  destruct (key_known _ _ Hk) as (Hp0 & _). unfold removeCachedBlock. rewrite (probe_found l i p o Hr Hi Hk).
  cbn [mbind option_bind]. rewrite Hi. cbn [mbind option_bind]. rewrite (proj2 (Z.eqb_neq _ _)) by done.
  assert (Hel : (e < length l)%nat) by by eapply lookup_lt_Some. assert (Hil : (i < length l)%nat) by by eapply lookup_lt_Some.
  destruct (Probe.pos_surj (length l) e i Hel Hil) as (j & Hj & E).
  assert (Hj0 : (0 < j)%nat). { destruct j; [|lia]. rewrite Probe.pos_0 in E by done. congruence. }
  rewrite <- E in Hi |- *.
  destruct (shift_loop_ok (length l - j) (S (length l)) l e j (<[Probe.pos (length l) e j := 0]> l)) as (l' & El & Hrk & Hlen & Hperm);
    try lia; [done|apply Hr|apply Hr|done|].
  rewrite El. cbn [mbind option_bind]. exists l'. split; [done|].
  assert (Hall : (p :: l') ≡ₚ (0 :: l)) by (rewrite Hperm; by apply insert_swap).
  split; [|done]. split; [lia| |done|].
  - assert (H : Forall known (p :: l')) by (rewrite Hall; constructor; [by left|apply Hr]). by inversion H.
  - assert (H : NoDup (omap key (p :: l'))) by (rewrite Hall; apply Hr). rewrite keys_cons, Hk in H. by apply nodup_cons in H as [_ H].
Qed.

Lemma remove_absent l o :
  robin l -> o ∉ keys l -> removeCachedBlock h l (length l) o = Some (0, l).
Proof.
  intros Hr Ho. destruct (probe_absent l o Hr Ho) as (r & E & H). unfold removeCachedBlock. rewrite E. cbn [mbind option_bind].
  destruct r as [i|]; [|done]. by rewrite H.
Qed.

Lemma lookupCachedBlock_ok l o :
  robin l -> exists p, lookupCachedBlock h l (length l) o = Some p /\
    ((p = 0 /\ o ∉ keys l) \/ (p ∈ l /\ key p = Some o)).
Proof.
  intros Hr. unfold lookupCachedBlock. destruct (decide (o ∈ keys l)) as [Hin|Hno].
  - apply list_elem_of_omap in Hin as (p & [i Hi]%list_elem_of_lookup & Hk). exists p.
    rewrite (probe_found l i p o Hr Hi Hk). cbn [mbind option_bind]. rewrite Hi. split; [done|right].
    split; [by eapply list_elem_of_lookup_2|done].
  - exists 0. destruct (probe_absent l o Hr Hno) as (r & E & H). rewrite E. cbn [mbind option_bind].
    destruct r as [i|]; [rewrite H|]; (split; [done|by left]).
Qed.

End Table.

(** ** The table holds the blocks of a heap *)

(** The pointers in a table. *)
Definition pointers (l : list Z) : list Z := filter (fun p => p <> 0) l.

Lemma pointers_cons p l : pointers (p :: l) = if decide (p <> 0) then p :: pointers l else pointers l.
Proof. unfold pointers. by rewrite filter_cons. Qed.

Lemma pointers_0 l : pointers (0 :: l) = pointers l.
Proof. done. Qed.

Lemma pointers_nz p l : p <> 0 -> pointers (p :: l) = p :: pointers l.
Proof. intros Hp. rewrite pointers_cons. by rewrite decide_True. Qed.

Lemma pointers_perm l l' : l ≡ₚ l' -> pointers l ≡ₚ pointers l'.
Proof. intros H. unfold pointers. by rewrite H. Qed.

Lemma pointers_room l : (length (pointers l) < length l)%nat <-> 0 ∈ l.
Proof.
  induction l as [|p l IH]; [split; intros H; [cbn in H; lia|by apply not_elem_of_nil in H]|].
  rewrite elem_of_cons, pointers_cons. pose proof (length_filter (fun p => p <> 0) l) as Hl. fold (pointers l) in Hl.
  destruct (decide (p <> 0)) as [Hp|Hp]; cbn [length].
  - rewrite <- Nat.succ_lt_mono, IH. split; [by right|]. intros [E|?]; [by symmetry in E|done].
  - apply dec_stable in Hp. split; [by left|lia].
Qed.

Lemma pointers_in p l : p ∈ pointers l <-> p <> 0 /\ p ∈ l.
Proof. unfold pointers. by rewrite list_elem_of_filter. Qed.

Lemma pointers_replicate n : pointers (replicate n 0) = [].
Proof. induction n as [|n IH]; [done|]. cbn [replicate]. by rewrite pointers_0. Qed.

Definition addresses (h : heap) : list Z := (map_to_list h).*1.

Lemma addresses_in h p : p ∈ addresses h <-> is_Some (h !! p).
Proof.
  unfold addresses. rewrite list_elem_of_fmap. split.
  - intros ([q b] & -> & H%elem_of_map_to_list). by exists b.
  - intros [b Hb]. exists (p, b). split; [done|by apply elem_of_map_to_list].
Qed.

Lemma addresses_insert h p b : h !! p = None -> addresses (<[p := b]> h) ≡ₚ p :: addresses h.
Proof. intros Hp. unfold addresses. by rewrite map_to_list_insert. Qed.

Lemma addresses_delete h p b : h !! p = Some b -> addresses h ≡ₚ p :: addresses (delete p h).
Proof. intros Hp. unfold addresses. by rewrite <- (map_to_list_delete h p b Hp). Qed.

Lemma addresses_dom h h' : (forall p, is_Some (h !! p) <-> is_Some (h' !! p)) -> addresses h ≡ₚ addresses h'.
Proof.
  intros H. apply NoDup_Permutation; [apply NoDup_fst_map_to_list..|]. intros p. by rewrite !addresses_in.
Qed.

Lemma addresses_length h : length (addresses h) = size h.
Proof. unfold addresses. by rewrite length_fmap, length_map_to_list. Qed.

(** No two blocks have the same offset, and the table [t] points to exactly
    the blocks of [h]. *)
Record table_ok (h : heap) (t : CachedBlockTable) : Prop := {
  to_len : length (blocks t) = capacity t;
  to_robin : capacity t = 0%nat \/ ((MIN_TABLE_CAPACITY <= capacity t)%nat /\ robin h (blocks t));
  to_holds : pointers (blocks t) ≡ₚ addresses h;
  to_count : count t = size h;
  to_room : (count t < Nat.max 1 (capacity t))%nat;
}.

Lemma table_ok_init : table_ok ∅ (mkTable [] 0 0).
Proof. split; [done|by left|done|by rewrite map_size_empty|cbn; lia]. Qed.

Lemma to_nz h t : table_ok h t -> h !! 0 = None.
Proof.
  intros Ht. destruct (h !! 0) as [b|] eqn:E; [|done]. exfalso.
  assert (H : 0 ∈ addresses h) by (apply addresses_in; by exists b).
  rewrite <- (to_holds _ _ Ht) in H. by apply pointers_in in H as [? _].
Qed.

Lemma to_in h t p b : table_ok h t -> h !! p = Some b -> p <> 0 /\ p ∈ blocks t /\ key h p = Some (offset b).
Proof.
  intros Ht Hb. assert (H : p ∈ addresses h) by (apply addresses_in; by exists b).
  rewrite <- (to_holds _ _ Ht) in H. apply pointers_in in H as [Hp Hin]. split; [done|split; [done|]].
  unfold key. rewrite (proj2 (Z.eqb_neq _ _)) by done. by rewrite Hb.
Qed.

Lemma to_some h t p : table_ok h t -> p ∈ blocks t -> p <> 0 -> is_Some (h !! p).
Proof. intros Ht Hin Hp. apply addresses_in. rewrite <- (to_holds _ _ Ht). by apply pointers_in. Qed.

Lemma to_nonempty h t p b : table_ok h t -> h !! p = Some b -> robin h (blocks t) /\ 0 ∈ blocks t.
Proof.
  intros Ht Hb. destruct (to_in _ _ _ _ Ht Hb) as (_ & Hin & _). destruct (to_robin _ _ Ht) as [E|[_ Hr]].
  { pose proof (to_len _ _ Ht) as Hl. rewrite E in Hl. apply length_zero_iff_nil in Hl. rewrite Hl in Hin. by apply not_elem_of_nil in Hin. }
  split; [done|]. apply pointers_room. rewrite (to_holds _ _ Ht), addresses_length, <- (to_count _ _ Ht).
  pose proof (to_room _ _ Ht). pose proof (rb_len _ _ Hr). rewrite (to_len _ _ Ht) in *. lia.
Qed.

Lemma key_ext h h' p : (h !! p) = (h' !! p) -> key h p = key h' p.
Proof. unfold key. by intros ->. Qed.

(** The invariant depends on the offsets only. *)
Lemma robin_ext h h' l : (forall p, p ∈ l -> key h p = key h' p) -> robin h l -> robin h' l.
Proof.
  intros Hk [Hl Hkn Hr Ho]. assert (Hrank : forall i, rank h' l i = rank h l i).
  { intros i. unfold rank. destruct (l !! i) as [p|] eqn:E; [|done]. unfold rank_of.
    rewrite Hk; [done|by eapply list_elem_of_lookup_2]. }
  split; [done| |intros i Hi; rewrite !Hrank; by apply Hr|].
  - apply Forall_forall. intros p Hp. apply list_elem_of_In in Hp. destruct (Z.eq_dec p 0) as [|Hp0]; [by left|right].
    rewrite Forall_forall in Hkn. destruct (known_key h p) as (b & _ & Hkb); [apply Hkn; by apply list_elem_of_In|done|].
    rewrite Hk in Hkb by done. destruct (key_known _ _ _ Hkb) as (_ & c & Hc & _). by exists c.
  - replace (omap (key h') l) with (omap (key h) l); [done|]. clear -Hk. induction l as [|p l IH]; [done|].
    rewrite !keys_cons, Hk by by left. rewrite IH; [done|]. intros q Hq. apply Hk. by right.
Qed.

(** Blocks may change, but for their offsets. *)
Lemma table_ok_update h h' t :
  (forall p, offset <$> h !! p = offset <$> h' !! p) -> table_ok h t -> table_ok h' t.
Proof.
  intros Ho Ht. assert (Hd : forall p, is_Some (h !! p) <-> is_Some (h' !! p)).
  { intros p. rewrite <- !(fmap_is_Some offset). by rewrite Ho. }
  pose proof (addresses_dom h h' Hd) as Ha. split; [apply Ht| |by rewrite <- Ha; apply Ht| |apply Ht].
  - destruct (to_robin _ _ Ht) as [|[? Hr]]; [by left|right]. split; [done|]. eapply robin_ext; [|done].
    intros p _. unfold key. by rewrite Ho.
  - rewrite (to_count _ _ Ht), <- !addresses_length. by rewrite Ha.
Qed.

Lemma robin_init h n : (0 < n)%nat -> robin h (replicate n 0).
Proof.
  intros Hn. split; [by rewrite length_replicate|apply Forall_replicate; by left| |].
  - intros i _. unfold rank. destruct (replicate n 0 !! _) as [p|] eqn:E; [|lia].
    apply lookup_replicate in E as [-> _]. cbn. lia.
  - induction n as [|[|n] IH]; [lia|constructor|]. apply IH. lia.
Qed.

(** *** Resizing *)

Lemma insert_pointers c l l' : c <> 0 -> (0 :: l') ≡ₚ (c :: l) -> pointers l' ≡ₚ c :: pointers l.
Proof. intros Hc H. rewrite <- pointers_0, <- (pointers_nz c l Hc). by apply pointers_perm. Qed.

Lemma keys_pointers h l : omap (key h) (pointers l) = omap (key h) l.
Proof.
  induction l as [|p l IH]; [done|]. rewrite pointers_cons, keys_cons. destruct (decide (p <> 0)) as [Hp|Hp].
  - by rewrite keys_cons, IH.
  - apply dec_stable in Hp as ->. by rewrite key_0, IH.
Qed.

Lemma rebuild_loop_ok h old : forall new,
  robin h new -> Forall (known h) old -> NoDup (omap (key h) (pointers old ++ pointers new)) ->
  (length (pointers old) + length (pointers new) < length new)%nat ->
  exists l, rebuild_loop h old new (length new) = Some l /\ robin h l /\ length l = length new /\
    pointers l ≡ₚ pointers old ++ pointers new.
Proof.
  induction old as [|p old IH]; intros new Hr Hkn Hnd Hroom; [by exists new|].
  rewrite Forall_cons_iff in Hkn. destruct Hkn as [Hp Hkn]. cbn [rebuild_loop].
  destruct (Z.eqb_spec p 0) as [->|Hp0]; [rewrite pointers_0 in *; by apply IH|].
  destruct (known_key h p Hp Hp0) as (b & _ & Hk). rewrite pointers_nz in * by done.
  cbn [app] in Hnd. rewrite keys_cons, Hk, nodup_cons, omap_app, keys_pointers, (keys_pointers h new) in Hnd. destruct Hnd as [Hno Hnd].
  destruct (insertCachedBlock_ok h new p (offset b)) as (l & El & Hrl & Hlen & Hperm).
  { done. } { apply pointers_room. cbn [length] in Hroom. lia. } { done. }
  { intros Hin. apply Hno. rewrite elem_of_app. by right. }
  pose proof (insert_pointers _ _ _ Hp0 Hperm) as Hpl.
  rewrite El. cbn [mbind option_bind]. rewrite <- Hlen. destruct (IH l) as (l2 & E2 & Hr2 & Hlen2 & Hp2); [done|done| | |].
  - rewrite Hpl, omap_app, keys_cons, Hk, !keys_pointers. rewrite <- Permutation_middle. apply nodup_cons. done.
  - rewrite Hpl, Hlen. cbn [length] in *. lia.
  - exists l2. split; [done|split; [done|split; [done|]]]. rewrite Hp2, Hpl. by rewrite <- Permutation_middle.
Qed.

Lemma shrink_loop_ok fuel c n : (n < fuel)%nat -> exists s, shrink_loop fuel c n = Some s /\ (s <= n)%nat.
Proof.
  revert n. induction fuel as [|fuel IH]; intros n Hf; [lia|]. cbn [shrink_loop].
  destruct (Nat.ltb_spec MIN_TABLE_CAPACITY n); cbn [andb]; [|by exists n].
  destruct (c * 4 <? n)%nat; [|by exists n]. unfold MIN_TABLE_CAPACITY in *.
  assert (n / 2 < n)%nat by (apply Nat.div_lt; lia). destruct (IH (n / 2)%nat) as (s & E & ?); [lia|]. exists s. split; [done|lia].
Qed.

Lemma grow_loop_ok fuel c n :
  (MIN_TABLE_CAPACITY <= n)%nat -> (0 < fuel)%nat -> (c * 3 < n + fuel)%nat ->
  exists s, grow_loop fuel c n = Some s /\ (n <= s)%nat /\ (c * 3 <= s * 2)%nat.
Proof.
  unfold MIN_TABLE_CAPACITY. revert n. induction fuel as [|fuel IH]; intros n Hn H0 Hf; [lia|].
  cbn [grow_loop]. destruct (Nat.ltb_spec (n * 2) (c * 3)); [|by exists n].
  pose proof (Nat.div_mod_eq (n * 3) 2). pose proof (Nat.mod_upper_bound (n * 3) 2 ltac:(lia)).
  destruct (IH (n * 3 / 2)%nat) as (s & E & ? & ?); [lia|lia|lia|]. exists s. split; [done|lia].
Qed.

(** A table after [testForResize]: a third of it is empty. *)
Definition roomy (t : CachedBlockTable) : Prop :=
  (MIN_TABLE_CAPACITY <= capacity t)%nat /\ (count t * 3 <= capacity t * 2)%nat.

Lemma testForResize_ok h t :
  table_ok h t -> exists t', testForResize h t = Some t' /\ table_ok h t' /\ roomy t' /\ count t' = count t.
Proof.
  intros Ht. pose proof (to_len _ _ Ht) as Hlen. unfold testForResize.
  destruct (shrink_loop_ok (S (capacity t)) (count t) (capacity t)) as (s & -> & Hs); [lia|]. cbn [mbind option_bind].
  set (s1 := if (s <? MIN_TABLE_CAPACITY)%nat then MIN_TABLE_CAPACITY else s).
  assert (Hs1 : (MIN_TABLE_CAPACITY <= s1)%nat) by (unfold s1; destruct (Nat.ltb_spec s MIN_TABLE_CAPACITY); lia).
  destruct (grow_loop_ok (S (count t * 3)) (count t) s1) as (n & -> & Hn & Hc); [done|lia|lia|]. cbn [mbind option_bind].
  assert (H32 : (MIN_TABLE_CAPACITY <= n)%nat) by lia. unfold MIN_TABLE_CAPACITY in H32.
  destruct (Nat.eqb_spec n (capacity t)) as [->|Hne]; [by exists t|].
  unfold rebuildTable. rewrite <- Hlen, firstn_all.
  destruct (rebuild_loop_ok h (blocks t) (replicate n 0)) as (l & E & Hr & Hll & Hp).
  - apply robin_init. lia.
  - destruct (to_robin _ _ Ht) as [E|[_ Hr]]; [|apply Hr]. rewrite E in Hlen. apply length_zero_iff_nil in Hlen as ->. constructor.
  - rewrite pointers_replicate.
    rewrite app_nil_r, keys_pointers.
    destruct (to_robin _ _ Ht) as [E|[_ Hr]]; [|apply Hr]. rewrite E in Hlen. apply length_zero_iff_nil in Hlen as ->. constructor.
  - rewrite pointers_replicate.
    rewrite (to_holds _ _ Ht), addresses_length, <- (to_count _ _ Ht), length_replicate. cbn. lia.
  - rewrite length_replicate in *. rewrite E. cbn [mbind option_bind]. eexists. split; [done|].
    rewrite pointers_replicate in Hp.
    rewrite app_nil_r in Hp. split; [|split; [split; cbn; unfold MIN_TABLE_CAPACITY; lia|done]].
    split; cbn; [done|right; unfold MIN_TABLE_CAPACITY; by split|by rewrite Hp; apply Ht|apply Ht|lia].
Qed.

(** *** The operations as operations of a map *)

Definition has_offset (h : heap) (o : Z) : Prop := exists p b, h !! p = Some b /\ offset b = o.

Lemma keys_offset h t o : table_ok h t -> o ∈ omap (key h) (blocks t) -> has_offset h o.
Proof.
  intros Ht (p & _ & Hk)%list_elem_of_omap. destruct (key_known _ _ _ Hk) as (_ & b & Hb & Ho). by exists p, b.
Qed.

Lemma getFromTable_ok h t o :
  table_ok h t ->
  exists p, getFromTable h t o = Some p /\
    ((p = 0 /\ ~ has_offset h o) \/ exists b, h !! p = Some b /\ offset b = o /\ p <> 0).
Proof.
  intros Ht. unfold getFromTable. destruct (Nat.eqb_spec (count t) 0) as [E|E].
  - exists 0. split; [done|left; split; [done|]]. intros (p & b & Hb & _).
    rewrite (to_count _ _ Ht) in E. apply map_size_empty_inv in E. subst h. by rewrite lookup_empty in Hb.
  - destruct (to_robin _ _ Ht) as [Hc|[_ Hr]]; [pose proof (to_room _ _ Ht); lia|].
    rewrite <- (to_len _ _ Ht). destruct (lookupCachedBlock_ok h (blocks t) o Hr) as (p & Ep & Hor).
    exists p. split; [done|]. destruct Hor as [[-> Hno]|[Hin Hk]].
    + left. split; [done|]. intros (q & b & Hb & Ho). destruct (to_in _ _ _ _ Ht Hb) as (_ & Hin & Hk).
      apply Hno, list_elem_of_omap. exists q. by rewrite Hk, Ho.
    + right. destruct (key_known _ _ _ Hk) as (Hp & b & Hb & Ho). by exists b.
Qed.

Lemma insertIntoTable_ok h t p o bytes :
  table_ok h t -> p <> 0 -> h !! p = None -> ~ has_offset h o ->
  exists t', insertIntoTable p h t o bytes = Some (<[p := mkBlock o DEFAULT_PRIORITY bytes]> h, t') /\
    table_ok (<[p := mkBlock o DEFAULT_PRIORITY bytes]> h) t'.
Proof.
  intros Ht Hp Hf Hno. unfold insertIntoTable.
  destruct (testForResize_ok h t Ht) as (t1 & -> & Ht1 & [H32 Hroom] & Hc1). cbn [mbind option_bind].
  set (b := mkBlock o DEFAULT_PRIORITY bytes). unfold MIN_TABLE_CAPACITY in H32.
  destruct (to_robin _ _ Ht1) as [|[_ Hr]]; [lia|].
  assert (Hpn : p ∉ blocks t1). { intros Hin. destruct (to_some _ _ _ Ht1 Hin Hp) as [c Hc]. congruence. }
  assert (Hext : forall q, q ∈ blocks t1 -> key h q = key (<[p := b]> h) q).
  { intros q Hq. apply key_ext. by rewrite lookup_insert_ne by (by intros ->). }
  assert (Hkeys : omap (key (<[p := b]> h)) (blocks t1) = omap (key h) (blocks t1)).
  { clear -Hext. induction (blocks t1) as [|q l IH]; [done|]. rewrite !keys_cons, <- Hext by by left. rewrite IH; [done|].
    intros x Hx. apply Hext. by right. }
  pose proof (robin_ext _ _ _ Hext Hr) as Hr'.
  destruct (insertCachedBlock_ok (<[p := b]> h) (blocks t1) p o) as (l & El & Hrl & Hll & Hperm).
  - done.
  - apply pointers_room. rewrite (to_holds _ _ Ht1), addresses_length, <- (to_count _ _ Ht1), (to_len _ _ Ht1). lia.
  - unfold key. rewrite (proj2 (Z.eqb_neq _ _)) by done. by rewrite lookup_insert_eq.
  - rewrite Hkeys. intros Hin. apply Hno. by eapply keys_offset.
  - rewrite <- (to_len _ _ Ht1), El. cbn [mbind option_bind]. eexists. split; [done|]. split; cbn.
    + done.
    + right. split; [rewrite (to_len _ _ Ht1); unfold MIN_TABLE_CAPACITY; lia|done].
    + rewrite (insert_pointers _ _ _ Hp Hperm), (addresses_insert h p b Hf). by rewrite (to_holds _ _ Ht1).
    + rewrite map_size_insert_None by done. by rewrite (to_count _ _ Ht1).
    + rewrite (to_len _ _ Ht1). lia.
Qed.

Lemma removeFromTable_ok h t p b :
  table_ok h t -> h !! p = Some b ->
  exists l, removeCachedBlock h (blocks t) (capacity t) (offset b) = Some (p, l) /\
    table_ok (delete p h) (mkTable l (count t - 1) (capacity t)).
Proof.
  intros Ht Hb. destruct (to_nonempty _ _ _ _ Ht Hb) as [Hr H0]. destruct (to_in _ _ _ _ Ht Hb) as (Hp & Hin & Hk).
  rewrite <- (to_len _ _ Ht). destruct (removeCachedBlock_ok h (blocks t) p (offset b) Hr H0 Hin Hk) as (l & E & Hrl & Hll & Hperm).
  exists l. split; [done|]. pose proof (pointers_perm _ _ Hperm) as Hpp. rewrite pointers_nz, pointers_0 in Hpp by done.
  assert (Hps : pointers l ≡ₚ addresses (delete p h)).
  { apply (Permutation_cons_inv (a := p)). rewrite Hpp, (to_holds _ _ Ht). by apply addresses_delete with b. }
  assert (Hpl : p ∉ l).
  { intros Hil. assert (H : p ∈ addresses (delete p h)) by (rewrite <- Hps; by apply pointers_in).
    apply addresses_in in H. rewrite lookup_delete_eq in H. by destruct H. }
  split; cbn.
  - done.
  - right. destruct (to_robin _ _ Ht) as [E0|[H32 _]]; [rewrite <- (to_len _ _ Ht) in E0; pose proof (rb_len _ _ Hr); lia|].
    rewrite (to_len _ _ Ht). split; [done|]. eapply robin_ext; [|done]. intros q Hq. apply key_ext.
    by rewrite lookup_delete_ne by (by intros ->).
  - done.
  - rewrite (to_count _ _ Ht), map_size_delete_Some by by exists b. lia.
  - pose proof (to_room _ _ Ht). rewrite (to_len _ _ Ht). lia.
Qed.

(** ** The invariant of the device *)

Section Coherence.
Context {D : Type} `{BlockLaws D} (new_bytes : gset Z -> Z -> Z) (new_block : gset Z -> Z).

(** What the code relies on: the allocators give memory that is not in use.
    Neither result is checked for [NULL]. *)
Record memory_laws : Prop := {
  ml_bytes : forall live n, 0 < n -> 0 < new_bytes live n /\
    forall a k, a ∈ live -> 0 <= k < n ->
      a + block_size <= new_bytes live n + block_size * k \/ new_bytes live n + block_size * k + block_size <= a;
  ml_block : forall used, new_block used <> 0 /\ new_block used ∉ used;
}.

Abbreviation cache := (@CachedBlockDevice D).

(** The bytes of the device's block at [o] are in the memory at [a]. *)
Definition holds_block (s : cache) (a o : Z) : Prop :=
  forall i, 0 <= i < block_size -> memory s (a + i) = contents (uncached s) (o + i).

(** The cached blocks are blocks of the device, and hold its bytes unless they
    are in the range [lo, hi).  The memory in use is theirs and that at [ps],
    and no two of them share any. *)
Record coherent_with (lo hi : Z) (s : cache) (ps : list Z) : Prop := {
  co_good : good (uncached s);
  co_table : table_ok (cached s) (table s);
  co_range : forall p b, cached s !! p = Some b ->
    offset b mod block_size = 0 /\ 0 <= offset b /\ offset b + block_size <= dev_size (uncached s);
  co_holds : forall p b, cached s !! p = Some b -> ~ (lo <= offset b < hi) -> holds_block s (bytes_ b) (offset b);
  co_live : forall a, a ∈ live s <-> (exists p b, cached s !! p = Some b /\ bytes_ b = a) \/ a ∈ ps;
  co_apart : forall a a', a ∈ live s -> a' ∈ live s -> a <> a' -> a + block_size <= a' \/ a' + block_size <= a;
  co_own : forall p q b c, cached s !! p = Some b -> cached s !! q = Some c -> bytes_ b = bytes_ c -> p = q;
  co_free : forall p b, cached s !! p = Some b -> bytes_ b ∉ ps;
  co_once : NoDup ps;
}.

(** The device and its cache agree. *)
Definition coherent (s : cache) : Prop := coherent_with 0 0 s [].

Lemma bs_pos : 0 < block_size.
Proof. apply block_size_pos. Qed.

Lemma bs_nz : block_size <> 0.
Proof. pose proof bs_pos. lia. Qed.

Lemma coherent_init d : good d -> coherent (wrapBlockDeviceWithCache d).
Proof.
  intros Hg. split; cbn; try done; try (intros; by rewrite lookup_empty in * ).
  - apply table_ok_init.
  - intros a. split; [by intros ?%elem_of_empty|]. intros [(p & b & Hb & _)|Hin]; [by rewrite lookup_empty in Hb|by apply not_elem_of_nil in Hin].
  - constructor.
Qed.

Lemma get_block_ok lo hi u s ps o :
  coherent_with lo hi s ps ->
  exists p, get_block o (u, s) = Some (Good p, (u, s)) /\
    ((p = 0 /\ ~ has_offset (cached s) o) \/ exists b, cached s !! p = Some b /\ offset b = o /\ p <> 0).
Proof.
  intros Hc. destruct (getFromTable_ok _ _ o (co_table _ _ _ _ Hc)) as (p & E & Hor). exists p. split; [|done].
  unfold get_block. cbn [fst snd]. by rewrite E.
Qed.

(** A block may get another priority. *)
Lemma co_priority lo hi s ps p b b' :
  coherent_with lo hi s ps -> cached s !! p = Some b -> offset b' = offset b -> bytes_ b' = bytes_ b ->
  coherent_with lo hi (set_table s (<[p := b']> (cached s)) (table s)) ps.
Proof.
  intros [Hg Ht Hr Hh Hl Ha Ho Hf Hn] Hb Eo Eb.
  assert (Hold : forall q c, <[p := b']> (cached s) !! q = Some c ->
    exists c0, cached s !! q = Some c0 /\ offset c = offset c0 /\ bytes_ c = bytes_ c0).
  { intros q c Hq. destruct (decide (p = q)) as [<-|]; [rewrite lookup_insert_eq in Hq; injection Hq as <-; by exists b|].
    rewrite lookup_insert_ne in Hq by done. by exists c. }
  assert (Hnew : forall q c0, cached s !! q = Some c0 -> exists c, <[p := b']> (cached s) !! q = Some c /\ bytes_ c = bytes_ c0).
  { intros q c Hq. destruct (decide (p = q)) as [<-|]; [exists b'; rewrite lookup_insert_eq; split; [done|congruence]|].
    exists c. by rewrite lookup_insert_ne. }
  split; cbn; try done.
  - eapply table_ok_update; [|done]. intros q. destruct (decide (p = q)) as [<-|];
      [rewrite lookup_insert_eq, Hb; cbn; by f_equal|by rewrite lookup_insert_ne].
  - intros q c Hq. destruct (Hold _ _ Hq) as (c0 & Hc0 & -> & _). eauto.
  - intros q c Hq. destruct (Hold _ _ Hq) as (c0 & Hc0 & -> & ->). eauto.
  - intros a. rewrite Hl. split; (intros [(q & c & Hq & E)|]; [left|by right]).
    + destruct (Hnew _ _ Hq) as (c' & Hc' & Ec). exists q, c'. split; [done|congruence].
    + destruct (Hold _ _ Hq) as (c' & Hc' & _ & Ec). exists q, c'. split; [done|congruence].
  - intros q r c e Hq He E. destruct (Hold _ _ Hq) as (c' & Hc' & _ & Ec), (Hold _ _ He) as (e' & He' & _ & Ee).
    eapply Ho; [done..|congruence].
  - intros q c Hq. destruct (Hold _ _ Hq) as (c0 & Hc0 & _ & ->). eauto.
Qed.

(** The memory outside the cached blocks may change. *)
Lemma co_memory lo hi s ps m :
  coherent_with lo hi s ps ->
  (forall p b i, cached s !! p = Some b -> ~ (lo <= offset b < hi) -> 0 <= i < block_size ->
     m (bytes_ b + i) = memory s (bytes_ b + i)) ->
  coherent_with lo hi (set_memory s m) ps.
Proof.
  intros [Hg Ht Hr Hh Hl Ha Ho Hf Hn] Hm. split; cbn; try done.
  intros p b Hb Hs i Hi. cbn. rewrite (Hm p b) by done. by apply (Hh p b).
Qed.

Definition unchanged (s s' : cache) : Prop := uncached s' = uncached s /\ memory s' = memory s.

Lemma touch_block_ok lo hi u s ps p b :
  coherent_with lo hi s ps -> cached s !! p = Some b ->
  exists s', touch_block p (u, s) = Some (Good tt, (u, s')) /\ coherent_with lo hi s' ps /\ unchanged s s' /\
    exists b', cached s' !! p = Some b' /\ bytes_ b' = bytes_ b.
Proof.
  intros Hc Hb. unfold touch_block. rewrite Hb. cbn [mbind option_bind]. eexists. split; [done|].
  assert (E : offset (used b) = offset b /\ bytes_ (used b) = bytes_ b) by (unfold used; by destruct (_ >? _)).
  split; [apply (co_priority lo hi s ps p b (used b)); [done|done|apply E|apply E]|]. split; [done|]. exists (used b). cbn. rewrite lookup_insert_eq. split; [done|apply E].
Qed.

(** A block of the memory in use is put into the table. *)
Lemma insert_block_ok lo hi u s a ps o :
  memory_laws -> coherent_with lo hi s (a :: ps) -> ~ has_offset (cached s) o ->
  o mod block_size = 0 -> 0 <= o -> o + block_size <= dev_size (uncached s) -> holds_block s a o ->
  exists s', insert_block new_block o a (u, s) = Some (Good tt, (u, s')) /\ coherent_with lo hi s' ps /\ unchanged s s'.
Proof.
  intros Hml Hco Hno Hom Ho0 Hos Hbl. destruct (ml_block Hml (dom (cached s))) as [Hp0 Hp]. apply not_elem_of_dom in Hp.
  pose proof Hco as [Hg Ht Hr Hh Hl Ha Ho Hf Hn]. apply nodup_cons in Hn as [Han Hn].
  destruct (insertIntoTable_ok _ _ _ o a Ht Hp0 Hp Hno) as (t & E & Ht').
  unfold insert_block. rewrite E. cbn [mbind option_bind]. eexists. split; [done|split; [|done]].
  set (p := new_block (dom (cached s))) in *. set (b0 := mkBlock o DEFAULT_PRIORITY a) in *.
  assert (Hcase : forall q c, <[p := b0]> (cached s) !! q = Some c -> (q = p /\ c = b0) \/ (q <> p /\ cached s !! q = Some c)).
  { intros q c Hq. destruct (decide (p = q)) as [<-|]; [rewrite lookup_insert_eq in Hq; injection Hq as <-; by left|].
    rewrite lookup_insert_ne in Hq by done. by right. }
  assert (Hna : forall q c, cached s !! q = Some c -> bytes_ c <> a). { intros q c Hq ->%eq_sym. destruct (Hf _ _ Hq). by left. }
  split; cbn; try done.
  - intros q c [[-> ->]|[_ Hq]]%Hcase; [done|eauto].
  - intros q c [[-> ->]|[_ Hq]]%Hcase Hs; [done|]. by apply (Hh q c).
  - intros x. rewrite Hl, elem_of_cons. split.
    + intros [(q & c & Hq & Ex)|[->|Hin]]; [left|left|by right].
      * exists q, c. rewrite lookup_insert_ne; [done|]. intros <-. congruence.
      * exists p, b0. by rewrite lookup_insert_eq.
    + intros [(q & c & [[-> ->]|[_ Hq]]%Hcase & Ex)|Hin]; [right; by left|left; by exists q, c|right; by right].
  - intros q r c e [[-> ->]|[Hqp Hq]]%Hcase [[-> ->]|[Hrp Hr']]%Hcase Ebe; [done| | |by eapply Ho].
    + by destruct (Hna _ _ Hr').
    + by destruct (Hna _ _ Hq).
  - intros q c [[-> ->]|[_ Hq]]%Hcase; [done|]. intros Hin. destruct (Hf _ _ Hq). by right.
Qed.

Lemma pieces_in p n a : a ∈ pieces p n <-> exists k, (k < n)%nat /\ a = p + block_size * Z.of_nat k.
Proof.
  unfold pieces. rewrite list_elem_of_fmap. split.
  - intros (k & -> & Hk%elem_of_seq). exists k. split; [lia|done].
  - intros (k & Hk & ->). exists k. split; [done|apply elem_of_seq; lia].
Qed.

Lemma pieces_S p n : pieces p (S n) = p :: pieces (p + block_size) n.
Proof.
  unfold pieces. cbn [seq fmap list_fmap]. f_equal; [lia|]. rewrite <- seq_shift.
  change (list_fmap Z Z) with (@fmap list list_fmap). rewrite <- list_fmap_compose. apply list_fmap_ext. intros _ k _. cbn. lia.
Qed.

Lemma pieces_NoDup p n : NoDup (pieces p n).
Proof. pose proof bs_pos. apply NoDup_fmap_2_strong; [|apply NoDup_seq]. intros i j _ _ E. nia. Qed.

Lemma pieces_number (n : Z) : 0 <= n -> Z.to_nat (block_size * n / block_size) = Z.to_nat n.
Proof. intros Hn. pose proof bs_pos. rewrite Z.mul_comm, Z.div_mul by lia. done. Qed.

Lemma cache_alloc_ok lo hi u s n :
  memory_laws -> coherent_with lo hi s [] -> 0 < n ->
  exists p s', allocMemory new_bytes (block_size * n) (u, s) = Some (Good p, (u, s')) /\ 0 < p /\
    coherent_with lo hi s' (pieces p (Z.to_nat n)) /\ unchanged s s' /\ cached s' = cached s.
Proof.
  intros Hml [Hg Ht Hr Hh Hl Ha Ho Hf Hn] Hn0. pose proof bs_pos. destruct (ml_bytes Hml (live s) n Hn0) as [Hp Hap].
  unfold allocMemory. rewrite pieces_number, Z2Nat.id by lia. set (p := new_bytes (live s) n) in *.
  assert (Happ : forall a a', a ∈ live s -> a' ∈ pieces p (Z.to_nat n) -> a + block_size <= a' \/ a' + block_size <= a).
  { intros a a' Hin (k & Hk & ->)%pieces_in. apply Hap; [done|lia]. }
  exists p. eexists. split; [done|split; [done|split; [|done]]]. split; cbn; try done.
  - intros a. rewrite elem_of_union, elem_of_list_to_set, Hl. split; [intros [[?|Hin]|?]; [by left|by apply not_elem_of_nil in Hin|by right]|].
    intros [?|?]; [left; by left|by right].
  - intros a a'. rewrite !elem_of_union, !elem_of_list_to_set. intros [Hin|Hin] [Hin'|Hin'] Hne.
    + by apply Ha.
    + by apply Happ.
    + destruct (Happ a' a) as [?|?]; auto.
    + apply pieces_in in Hin as (k & Hk & ->), Hin' as (k' & Hk' & ->). assert (k <> k') by (intros ->; done). destruct (Nat.lt_ge_cases k k'); [left|right]; nia.
  - intros q b Hq Hin. destruct (Happ (bytes_ b) (bytes_ b)); [apply Hl; left; by exists q, b|done|lia|lia].
  - apply pieces_NoDup.
Qed.

Lemma deallocMemory_one lo hi u s a ps :
  coherent_with lo hi s (a :: ps) ->
  exists s', deallocMemory a block_size (u, s) = Some (Good tt, (u, s')) /\ coherent_with lo hi s' ps /\ unchanged s s' /\
    cached s' = cached s.
Proof.
  intros [Hg Ht Hr Hh Hl Ha Ho Hf Hn]. pose proof bs_pos. unfold deallocMemory. rewrite Z.div_same by lia.
  assert (Ep : pieces a (Z.to_nat 1) = [a]) by (change (Z.to_nat 1) with 1%nat; by rewrite pieces_S). rewrite Ep. cbn [forallb].
  rewrite bool_decide_true by (apply Hl; right; by left). eexists. split; [done|split; [|done]].
  apply nodup_cons in Hn as [Han Hn]. split; cbn; try done.
  - intros x. rewrite elem_of_difference, Hl, elem_of_cons, elem_of_union, elem_of_singleton. split.
    + intros [[?|[->|?]] Hx]; [by left|destruct Hx; by left|by right].
    + intros Hor. split; [destruct Hor; [by left|right; by right]|]. intros [->|Hx]; [|by apply elem_of_empty in Hx].
      destruct Hor as [(p & b & Hp & Ex)|Hin]; [|done]. destruct (Hf _ _ Hp). rewrite Ex. by left.
  - intros x x' [Hx _]%elem_of_difference [Hx' _]%elem_of_difference. by apply Ha.
  - intros p b Hp Hin. destruct (Hf _ _ Hp). by right.
Qed.

(** Memory at the pieces is not that of a cached block. *)
Lemma piece_apart lo hi s p n q b i x :
  coherent_with lo hi s (pieces p n) -> cached s !! q = Some b -> 0 <= i < block_size ->
  p <= x < p + block_size * Z.of_nat n -> bytes_ b + i <> x.
Proof.
  intros Hc Hq Hi Hx E. pose proof bs_pos. set (k := Z.to_nat ((x - p) / block_size)).
  pose proof (Z.div_mod (x - p) block_size bs_nz). pose proof (mod_block (x - p)).
  assert (0 <= (x - p) / block_size < Z.of_nat n) by (split; [apply Z.div_pos; lia|apply Z.div_lt_upper_bound; lia]).
  assert (Hin : (p + block_size * Z.of_nat k) ∈ pieces p n) by (apply pieces_in; exists k; split; [unfold k; lia|done]).
  assert (Hk : Z.of_nat k = (x - p) / block_size) by (unfold k; lia).
  destruct (co_apart _ _ _ _ Hc (bytes_ b) (p + block_size * Z.of_nat k)) as [?|?]; try lia.
  - apply (co_live _ _ _ _ Hc). left. by exists q, b.
  - apply (co_live _ _ _ _ Hc). by right.
  - intros E'. destruct (co_free _ _ _ _ Hc _ _ Hq). by rewrite E'.
Qed.

(** What the next block of a request is about. *)
Definition in_device (s : cache) (off n : Z) : Prop :=
  off mod block_size = 0 /\ 0 <= off /\ off + block_size * n <= dev_size (uncached s).

Lemma in_device_64 s off n : good (uncached s) -> in_device s off n -> 0 <= n -> 0 <= off + block_size * n < 2 ^ 63.
Proof. intros Hg (_ & ? & ?) Hn. pose proof bs_pos. pose proof (dev_size_blocks _ Hg) as [_ ?]. nia. Qed.

Lemma in_device_next s off n k :
  0 <= k -> in_device s off (k + n) -> in_device s (off + block_size * k) n.
Proof.
  intros Hk (Hm & Ho & Hs). pose proof bs_pos. split; [|split; nia]. rewrite Z.mul_comm, Z_mod_plus_full. done.
Qed.

Lemma in_device_first s off n k : 0 <= k <= n -> in_device s off n -> in_device s off k.
Proof. intros Hk (Hm & Ho & Hs). pose proof bs_pos. split; [done|split; [done|nia]]. Qed.

Lemma step_64 lo hi s ps off n :
  coherent_with lo hi s ps -> in_device s off (Z.of_nat (S n)) -> u64 (off + block_size) = off + block_size.
Proof.
  intros Hc Hd. pose proof (in_device_64 _ _ _ (co_good _ _ _ _ Hc) Hd ltac:(lia)). pose proof bs_pos.
  destruct Hd as (_ & ? & _). apply wrap_small. nia.
Qed.

Lemma size_next n : block_size * Z.of_nat (S n) - block_size = block_size * Z.of_nat n.
Proof. lia. Qed.

Lemma size_some n : (block_size * Z.of_nat (S n) >? 0) = true.
Proof. pose proof bs_pos. apply Z.gtb_lt. nia. Qed.

(** The loop of [readUncached] gives every block that was read to the table,
    or back to the allocator. *)
Lemma store_loop_ok lo hi u n : memory_laws -> forall fuel s p off,
  (n < fuel)%nat -> 0 < p -> coherent_with lo hi s (pieces p n) -> in_device s off (Z.of_nat n) ->
  (forall i, 0 <= i < block_size * Z.of_nat n -> memory s (p + i) = contents (uncached s) (off + i)) ->
  exists s', store_loop new_block fuel p off (block_size * Z.of_nat n) (u, s) = Some (Good tt, (u, s')) /\
    coherent_with lo hi s' [] /\ unchanged s s'.
Proof.
  intros Hml. pose proof bs_pos. induction n as [|n IH]; intros [|fuel] s p off Hf Hp Hc Hd Hm; try lia; cbn [store_loop].
  - rewrite Z.mul_0_r. by exists s.
  - rewrite size_some, size_next. destruct (get_block_ok _ _ u _ _ off Hc) as (q & E & Hor). rewrite (bind_good _ _ _ _ _ E).
    rewrite pieces_S in Hc. rewrite (step_64 _ _ _ _ _ _ Hc Hd).
    assert (Hrest : forall s1, coherent_with lo hi s1 (pieces (p + block_size) n) -> unchanged s s1 ->
      exists s', store_loop new_block fuel (p + block_size) (off + block_size) (block_size * Z.of_nat n) (u, s1) = Some (Good tt, (u, s')) /\
        coherent_with lo hi s' [] /\ unchanged s s').
    { intros s1 Hc1 [Eu Em]. destruct (IH fuel s1 (p + block_size) (off + block_size)) as (s' & E' & Hc' & [Eu' Em']); [lia|lia|done| | |].
      - pose proof (in_device_next s off (Z.of_nat n) 1) as Hn. rewrite Z.mul_1_r in Hn. unfold in_device. rewrite Eu. apply Hn; [lia|].
        by replace (1 + Z.of_nat n) with (Z.of_nat (S n)) by lia.
      - intros i Hi. rewrite Eu, Em. replace (p + block_size + i) with (p + (block_size + i)) by lia. rewrite Hm by lia. f_equal. lia.
      - exists s'. split; [done|split; [done|split; congruence]]. }
    destruct Hor as [[-> Hno]|(b & Hb & Ho & Hq0)].
    + cbn [Z.eqb]. destruct Hd as (Hdm & Hd0 & Hds).
      destruct (insert_block_ok lo hi u s p (pieces (p + block_size) n) off) as (s1 & E1 & Hc1 & Hu1); try done; [nia| |].
      { intros i Hi. apply Hm. nia. }
      rewrite (bind_good _ _ _ _ _ E1). by apply Hrest.
    + rewrite (proj2 (Z.eqb_neq _ _)) by done.
      destruct (deallocMemory_one lo hi u s p _ Hc) as (s1 & E1 & Hc1 & [Eu1 Em1] & Eh1).
      destruct (touch_block_ok lo hi u s1 _ q b Hc1) as (s2 & E2 & Hc2 & [Eu2 Em2] & _); [by rewrite Eh1|].
      rewrite bind_bind, (bind_good _ _ _ _ _ E1), (bind_good _ _ _ _ _ E2). apply Hrest; [done|split; congruence].
Qed.

(** The device behind the cache still has the same content. *)
Definition same_disk (s s' : cache) : Prop :=
  dev_size (uncached s') = dev_size (uncached s) /\ forall a, contents (uncached s') a = contents (uncached s) a.

Lemma same_disk_trans s1 s2 s3 : same_disk s1 s2 -> same_disk s2 s3 -> same_disk s1 s3.
Proof. intros [E1 H1] [E2 H2]. split; [congruence|]. intros a. by rewrite H2. Qed.

Lemma unchanged_same s s' : unchanged s s' -> same_disk s s'.
Proof. intros [E _]. unfold same_disk. by rewrite E. Qed.

(** A read of the device that leaves the pieces filled. *)
Lemma fetch_ok u s p n off :
  coherent_with 0 0 s (pieces p n) -> in_device s off (Z.of_nat n) ->
  exists s', fetch p off (block_size * Z.of_nat n) (u, s) = Some (Good tt, (u, s')) /\
    coherent_with 0 0 s' (pieces p n) /\ same_disk s s' /\
    forall i, 0 <= i < block_size * Z.of_nat n -> memory s' (p + i) = contents (uncached s') (off + i).
Proof.
  intros Hc (Hm & Ho & Hs). pose proof bs_pos. pose proof Hc as [Hg Ht Hr Hh Hl Ha Hw Hf Hn].
  destruct (dev_read_ok (uncached s) off (block_size * Z.of_nat n)) as (d & E & Hgd & Hsd & Hcd); try done; [lia|by rewrite Z.mul_comm, Z_mod_mult|].
  unfold fetch. rewrite E. cbn [mbind option_bind]. eexists. split; [done|]. split; [|split; [split; [done|by intros a; rewrite <- Hcd]|]].
  - split; cbn; try done.
    + intros q b Hq. rewrite Hsd. eauto.
    + intros q b Hq _ i Hi. cbn. rewrite Hcd, put_bytes_copied by lia. rewrite <- (Hh q b Hq) by lia. unfold copied.
      destruct (Z.leb_spec p (bytes_ b + i)), (Z.ltb_spec (bytes_ b + i) (p + block_size * Z.of_nat n)); try done.
      by destruct (piece_apart 0 0 s p n q b i (bytes_ b + i) Hc Hq Hi).
  - intros i Hi. cbn. rewrite put_bytes_copied, Hcd by lia. unfold copied.
    rewrite (proj2 (Z.leb_le _ _)), (proj2 (Z.ltb_lt _ _)) by lia. cbn. f_equal. lia.
Qed.

Lemma readUncached_ok u s buff off n :
  memory_laws -> coherent s -> (0 < n)%nat -> in_device s off (Z.of_nat n) ->
  exists u' s', readUncached new_bytes new_block buff off (block_size * Z.of_nat n) (u, s) = Some (Good tt, (u', s')) /\
    coherent s' /\ same_disk s s' /\
    forall x, u' x = copied u buff (block_size * Z.of_nat n) (contents (uncached s)) off x.
Proof.
  intros Hml Hc Hn Hd. pose proof bs_pos. unfold readUncached.
  destruct (cache_alloc_ok 0 0 u s (Z.of_nat n) Hml Hc) as (p & s1 & E1 & Hp & Hc1 & [Eu1 Em1] & _); [lia|].
  rewrite Nat2Z.id in Hc1. rewrite (bind_good _ _ _ _ _ E1), bind_rassert by (rewrite (proj2 (Z.eqb_neq _ _)) by lia; done).
  destruct (fetch_ok u s1 p n off Hc1) as (s2 & E2 & Hc2 & Hs2 & Hm2); [unfold in_device; by rewrite Eu1|].
  rewrite (bind_attempt _ _ _ _ _ E2). cbn beta iota.
  set (u' := put_bytes u buff (bytes_at (memory s2) p (block_size * Z.of_nat n))).
  assert (Et : to_caller buff p (block_size * Z.of_nat n) (u, s2) = Some (Good tt, (u', s2))) by done.
  rewrite (bind_good _ _ _ _ _ Et).
  destruct (store_loop_ok 0 0 u' n Hml (S (Z.to_nat (block_size * Z.of_nat n))) s2 p off) as (s3 & E3 & Hc3 & Hu3); try done.
  { nia. } { unfold in_device. destruct Hs2 as [-> _]. by rewrite Eu1. }
  exists u', s3. split; [done|split; [done|]]. rewrite <- Eu1. split.
  - eapply same_disk_trans; [|by eapply same_disk_trans; [exact Hs2|apply unchanged_same]]. split; by rewrite Eu1.
  - intros x. unfold u'. rewrite put_bytes_copied by lia. unfold copied.
    destruct (Z.leb_spec buff x), (Z.ltb_spec x (buff + block_size * Z.of_nat n)); try done. cbn [andb].
    rewrite Hm2 by lia. by rewrite (proj2 Hs2).
Qed.

(** Reading the blocks that were skipped so far, if any. *)
Lemma flush_ok u s buff off k :
  memory_laws -> coherent s -> in_device s off (Z.of_nat k) ->
  exists u' s', (if negb (block_size * Z.of_nat k =? 0)
                 then readUncached new_bytes new_block buff off (block_size * Z.of_nat k)
                 else mret tt) (u, s) = Some (Good tt, (u', s')) /\
    coherent s' /\ same_disk s s' /\ forall x, u' x = copied u buff (block_size * Z.of_nat k) (contents (uncached s)) off x.
Proof.
  intros Hml Hc Hd. pose proof bs_pos. destruct (Z.eqb_spec (block_size * Z.of_nat k) 0) as [E|E]; cbn [negb].
  - exists u, s. split; [done|split; [done|split; [done|]]]. intros x. by rewrite E, copied_0.
  - apply readUncached_ok; try done. destruct k; [lia|lia].
Qed.

(** A cached block goes to the caller. *)
Lemma cached_block_ok u s p b a :
  coherent s -> cached s !! p = Some b ->
  exists u' s', read_cached p a (u, s) = Some (Good tt, (u', s')) /\
    coherent s' /\ same_disk s s' /\ forall x, u' x = copied u a block_size (contents (uncached s)) (offset b) x.
Proof.
  intros Hc Hb. pose proof bs_pos. destruct (touch_block_ok 0 0 u s [] p b Hc Hb) as (s' & E & Hc' & Hu & b' & Hb' & Eb).
  unfold read_cached. rewrite (bind_good _ _ _ _ _ E).
  assert (Ebb : block_bytes p (u, s') = Some (Good (bytes_ b), (u, s'))).
  { unfold block_bytes. cbn [snd]. rewrite Hb'. cbn. by rewrite Eb. }
  rewrite (bind_good _ _ _ _ _ Ebb). eexists _, s'. split; [done|split; [done|split; [by apply unchanged_same|]]].
  intros x. rewrite put_bytes_copied by lia. unfold copied.
  destruct (Z.leb_spec a x), (Z.ltb_spec x (a + block_size)); try done. cbn [andb]. rewrite (proj2 Hu).
  apply (co_holds _ _ _ _ Hc p b Hb); lia.
Qed.

Lemma read_loop_ok n : memory_laws -> forall fuel u s buff off k,
  (n < fuel)%nat -> coherent s -> in_device s off (Z.of_nat (k + n)) ->
  0 <= buff -> buff + block_size * Z.of_nat (k + n) < 2 ^ 64 ->
  exists u' s', read_loop new_bytes new_block fuel buff off (block_size * Z.of_nat k) (block_size * Z.of_nat n) (u, s) =
      Some (Good tt, (u', s')) /\ coherent s' /\ same_disk s s' /\
    forall x, u' x = copied u buff (block_size * Z.of_nat (k + n)) (contents (uncached s)) off x.
Proof.
  intros Hml. pose proof bs_pos. induction n as [|n IH]; intros [|fuel] u s buff off k Hf Hc Hd Hb0 Hb; try lia; cbn [read_loop].
  - rewrite Z.mul_0_r. cbn [Z.gtb Z.compare]. rewrite Nat.add_0_r in *. by apply flush_ok.
  - rewrite size_some, size_next. pose proof (in_device_64 _ _ _ (co_good _ _ _ _ Hc) Hd ltac:(lia)) as H64. pose proof Hd as (Hdm & Hd0 & Hds).
    rewrite (wrap_small 64 (off + block_size * Z.of_nat k)) by nia.
    destruct (get_block_ok _ _ u s _ (off + block_size * Z.of_nat k) Hc) as (q & E & Hor). rewrite (bind_good _ _ _ _ _ E).
    destruct Hor as [[-> Hno]|(b & Hqb & Ho & Hq0)].
    + cbn [Z.eqb negb]. replace (block_size * Z.of_nat k + block_size) with (block_size * Z.of_nat (S k)) by lia.
      replace (k + S n)%nat with (S k + n)%nat in * by lia. by apply IH; [lia|..].
    + rewrite (proj2 (Z.eqb_neq q 0)) by done. cbn [negb].
      rewrite (wrap_small 64 (buff + block_size * Z.of_nat k)) by nia.
      destruct (cached_block_ok u s q b (buff + block_size * Z.of_nat k) Hc Hqb) as (u1 & s1 & E1 & Hc1 & Hs1 & Hu1).
      rewrite (bind_good _ _ _ _ _ E1).
      assert (Hdk : forall s2, dev_size (uncached s2) = dev_size (uncached s) -> in_device s2 off (Z.of_nat k)).
      { intros s2 E2. split; [done|split; [done|]]. rewrite E2. nia. }
      destruct (flush_ok u1 s1 buff off k Hml Hc1 (Hdk s1 (proj1 Hs1))) as (u2 & s2 & E2 & Hc2 & Hs2 & Hu2).
      rewrite (bind_good _ _ _ _ _ E2).
      rewrite (wrap_small 64 (buff + (block_size * Z.of_nat k + block_size))), (wrap_small 64 (off + (block_size * Z.of_nat k + block_size))) by nia.
      assert (Hs02 : same_disk s s2) by by eapply same_disk_trans.
      destruct (IH fuel u2 s2 (buff + (block_size * Z.of_nat k + block_size)) (off + (block_size * Z.of_nat k + block_size)) 0%nat)
        as (u3 & s3 & E3 & Hc3 & Hs3 & Hu3); [lia|done| |nia|nia|].
      { split; [|split; [nia|rewrite (proj1 Hs02); nia]].
        replace (off + (block_size * Z.of_nat k + block_size)) with (off + (Z.of_nat k + 1) * block_size) by lia.
        by rewrite Z_mod_plus_full. }
      rewrite Z.mul_0_r in E3. exists u3, s3. split; [done|split; [done|split; [by eapply same_disk_trans|]]].
      intros x. rewrite Hu3. unfold copied. rewrite Hu2. unfold copied. rewrite Hu1, Ho. unfold copied.
      rewrite (proj2 Hs02), (proj2 Hs1). cbn [Nat.add].
      replace (block_size * Z.of_nat (k + S n)) with (block_size * Z.of_nat k + block_size + block_size * Z.of_nat n) by lia.
      set (K := block_size * Z.of_nat k) in *. assert (0 <= K) by (unfold K; nia). assert (0 <= block_size * Z.of_nat n) by nia.
      repeat match goal with |- context [Z.leb ?a ?b] => destruct (Z.leb_spec a b) | |- context [Z.ltb ?a ?b] => destruct (Z.ltb_spec a b) end;
        cbn [andb]; try lia; try done; f_equal; lia.
Qed.

Lemma aligned_number n : 0 <= n -> n mod block_size = 0 ->
  exists k, n = block_size * Z.of_nat k.
Proof.
  intros Hn Hm. pose proof bs_pos. exists (Z.to_nat (n / block_size)).
  assert (0 <= n / block_size) by (apply Z.div_pos; lia). rewrite Z2Nat.id by done. apply Z.div_exact in Hm; lia.
Qed.

(** [readFunction] gives the bytes of the device. *)
Lemma readFunction_ok u s buff off n :
  memory_laws -> coherent s -> 0 <= n -> n mod block_size = 0 -> off mod block_size = 0 -> 0 <= off ->
  off + n <= dev_size (uncached s) -> 0 <= buff -> buff + n < 2 ^ 64 ->
  exists u' s', readFunction new_bytes new_block buff off n (u, s) = Some (Good tt, (u', s')) /\
    coherent s' /\ same_disk s s' /\ forall x, u' x = copied u buff n (contents (uncached s)) off x.
Proof.
  intros Hml Hc Hn Hnm Hom Ho Hs Hb0 Hb. destruct (aligned_number n) as (k & ->); try done.
  unfold readFunction. rewrite bind_rassert by by rewrite Hnm, Hom. pose proof bs_pos.
  pose proof (read_loop_ok k Hml (S (Z.to_nat (block_size * Z.of_nat k))) u s buff off 0) as Hr.
  rewrite Z.mul_0_r in Hr. apply Hr; try done. nia.
Qed.

(** *** Writes *)

Lemma offset_once h t p q b c : table_ok h t -> h !! p = Some b -> h !! q = Some c -> offset b = offset c -> p = q.
Proof.
  intros Ht Hb Hc E. destruct (to_nonempty _ _ _ _ Ht Hb) as [Hr _].
  destruct (to_in _ _ _ _ Ht Hb) as (_ & [i Hi]%list_elem_of_lookup & Hkb), (to_in _ _ _ _ Ht Hc) as (_ & [j Hj]%list_elem_of_lookup & Hkc).
  rewrite <- E in Hkc. pose proof (rb_index _ _ _ _ _ _ _ Hr Hi Hj Hkb Hkc) as <-. congruence.
Qed.

(** Other blocks may be the ones that are not up to date. *)
Lemma co_stale lo hi lo' hi' s ps :
  coherent_with lo hi s ps ->
  (forall p b, cached s !! p = Some b -> ~ (lo' <= offset b < hi') -> lo <= offset b < hi -> holds_block s (bytes_ b) (offset b)) ->
  coherent_with lo' hi' s ps.
Proof.
  intros [Hg Ht Hr Hh Hl Ha Ho Hf Hn] Hs. split; try done. intros p b Hb Hout.
  destruct (decide (lo <= offset b < hi)); [by apply (Hs p b)|by apply (Hh p b)].
Qed.

Lemma same_block o o' : o mod block_size = 0 -> o' mod block_size = 0 -> o <= o' < o + block_size -> o' = o.
Proof.
  intros Ho Ho' Hlt. destruct (Z.eq_dec o o') as [|Hne]; [done|].
  pose proof (blocks_le o o' ltac:(lia) Ho Ho'). lia.
Qed.

Lemma write_uncached_ok u s buff off n :
  coherent s -> byte_mem u -> in_device s off (Z.of_nat n) ->
  exists s', write_uncached buff off (block_size * Z.of_nat n) (u, s) = Some (Good tt, (u, s')) /\
    coherent_with off (off + block_size * Z.of_nat n) s' [] /\ dev_size (uncached s') = dev_size (uncached s) /\
    forall a, contents (uncached s') a = copied (contents (uncached s)) off (block_size * Z.of_nat n) u buff a.
Proof.
  intros Hc Hu (Hm & Ho & Hs). pose proof bs_pos. set (k := block_size * Z.of_nat n) in *.
  assert (Hk : 0 <= k) by (unfold k; lia). pose proof Hc as [Hg Ht Hr Hh Hl Ha Hw Hf Hn].
  destruct (dev_write_ok (uncached s) off (bytes_at u buff k)) as (d & E & Hgd & Hsd & Hcd);
    rewrite ?bytes_at_length by done; try done; [by unfold k; rewrite Z.mul_comm, Z_mod_mult|by apply bytes_at_char|].
  unfold write_uncached. rewrite E. cbn [mbind option_bind]. eexists. split; [done|]. cbn [uncached].
  assert (Hcd' : forall a, contents d a = copied (contents (uncached s)) off k u buff a).
  { intros a. rewrite Hcd. by apply put_bytes_copied. }
  split; [|by split]. split; cbn; try done.
  - intros p b Hb. rewrite Hsd. eauto.
  - intros p b Hb Hout i Hi. cbn. rewrite Hcd'. destruct (Hr p b Hb) as (Hbm & Hb0 & _). unfold copied.
    destruct (Z.leb_spec off (offset b + i)), (Z.ltb_spec (offset b + i) (off + k)); cbn [andb]; try (apply (Hh p b Hb); lia).
    exfalso. assert (offset b < off) by lia. pose proof (blocks_le (offset b) off ltac:(lia) Hbm Hm). lia.
Qed.

(** A cached block gets the bytes of the device. *)
Lemma overwrite_ok hi s q b f :
  coherent_with (offset b) hi s [] -> cached s !! q = Some b ->
  (forall i, 0 <= i < block_size -> f i = contents (uncached s) (offset b + i)) ->
  coherent_with (offset b + block_size) hi (set_memory s (put_bytes (memory s) (bytes_ b) (tab block_size f))) [].
Proof.
  intros Hc Hb Hf. pose proof bs_pos. pose proof Hc as [Hg Ht Hr Hh Hl Ha Ho Hfr Hn]. split; cbn; try done.
  intros p c Hpc Hout i Hi. cbn. rewrite put_bytes_tab by lia.
  destruct (decide (p = q)) as [->|Hne].
  - rewrite Hb in Hpc. injection Hpc as <-. rewrite (proj2 (Z.leb_le _ _)), (proj2 (Z.ltb_lt _ _)) by lia. cbn [andb].
    rewrite <- Hf by lia. f_equal. lia.
  - assert (Hbb : bytes_ c <> bytes_ b) by (intros E; by apply Hne, (Ho p q c b)).
    assert (Hlc : bytes_ c ∈ live s) by (apply Hl; left; by exists p, c).
    assert (Hlb : bytes_ b ∈ live s) by (apply Hl; left; by exists q, b).
    replace ((bytes_ b <=? bytes_ c + i) && (bytes_ c + i <? bytes_ b + block_size)) with false.
    2: { destruct (Ha _ _ Hlc Hlb Hbb), (Z.leb_spec (bytes_ b) (bytes_ c + i)), (Z.ltb_spec (bytes_ c + i) (bytes_ b + block_size)); cbn; lia. }
    apply (Hh p c Hpc); [|lia]. intros Hin.
    destruct (Hr _ _ Hpc) as (Hcm & _), (Hr _ _ Hb) as (Hbm & _).
    assert (offset c < offset b + block_size) by lia. apply Hne, (offset_once _ _ p q c b Ht Hpc Hb).
    apply same_block; [done|done|lia].
Qed.

Lemma update_loop_ok u n : memory_laws -> forall fuel s buff off,
  (n < fuel)%nat -> coherent_with off (off + block_size * Z.of_nat n) s [] -> in_device s off (Z.of_nat n) ->
  0 <= buff -> buff + block_size * Z.of_nat n < 2 ^ 64 ->
  (forall i, 0 <= i < block_size * Z.of_nat n -> u (buff + i) = contents (uncached s) (off + i)) ->
  exists s', write_loop new_bytes new_block fuel buff off (block_size * Z.of_nat n) (u, s) = Some (Good tt, (u, s')) /\
    coherent s' /\ uncached s' = uncached s.
Proof.
  intros Hml. pose proof bs_pos. induction n as [|n IH]; intros [|fuel] s buff off Hf Hc Hd Hb0 Hb Hu; try lia; cbn [write_loop].
  - rewrite Z.mul_0_r in *. exists s. split; [done|split; [|done]]. eapply co_stale; [exact Hc|]. intros p b _ _ Hin. lia.
  - rewrite size_some, size_next. destruct (get_block_ok _ _ u _ _ off Hc) as (q & E & Hor). rewrite (bind_good _ _ _ _ _ E).
    rewrite (step_64 _ _ _ _ _ _ Hc Hd), (wrap_small 64 (buff + block_size)) by nia.
    replace (off + block_size * Z.of_nat (S n)) with (off + block_size + block_size * Z.of_nat n) in Hc by lia.
    assert (Hrest : forall s1, coherent_with (off + block_size) (off + block_size + block_size * Z.of_nat n) s1 [] ->
      uncached s1 = uncached s ->
      exists s', write_loop new_bytes new_block fuel (buff + block_size) (off + block_size) (block_size * Z.of_nat n) (u, s1) =
        Some (Good tt, (u, s')) /\ coherent s' /\ uncached s' = uncached s).
    { intros s1 Hc1 Eu. destruct (IH fuel s1 (buff + block_size) (off + block_size)) as (s' & E' & Hc' & Eu'); [lia|done| |nia|nia| |].
      - pose proof (in_device_next s off (Z.of_nat n) 1) as Hn. rewrite Z.mul_1_r in Hn. unfold in_device. rewrite Eu. apply Hn; [lia|].
        by replace (1 + Z.of_nat n) with (Z.of_nat (S n)) by lia.
      - intros i Hi. rewrite Eu. replace (buff + block_size + i) with (buff + (block_size + i)) by lia. rewrite Hu by nia. f_equal. lia.
      - exists s'. split; [done|split; [done|congruence]]. }
    pose proof Hd as (Hdm & Hd0 & Hds). destruct Hor as [[-> Hno]|(b & Hqb & Ho & Hq0)].
    + cbn [Z.eqb].
      assert (Hc1 : coherent_with (off + block_size) (off + block_size + block_size * Z.of_nat n) s []).
      { eapply co_stale; [exact Hc|]. intros p b Hb' Hout Hin. destruct Hno. exists p, b. split; [done|].
        destruct (co_range _ _ _ _ Hc p b Hb') as (? & _). apply same_block; [done|done|lia]. }
      destruct (cache_alloc_ok _ _ u s 1 Hml Hc1) as (p & s1 & E1 & Hp & Hc2 & [Eu1 Em1] & Eh1); [lia|].
      rewrite Z.mul_1_r in E1. change (Z.to_nat 1) with 1%nat in Hc2.
      set (s2 := set_memory s1 (put_bytes (memory s1) p (bytes_at u buff block_size))).
      assert (Hc3 : coherent_with (off + block_size) (off + block_size + block_size * Z.of_nat n) s2 (pieces p 1)).
      { apply co_memory; [done|]. intros r c i Hr _ Hi. rewrite put_bytes_copied by lia. unfold copied.
        destruct (Z.leb_spec p (bytes_ c + i)), (Z.ltb_spec (bytes_ c + i) (p + block_size)); try done.
        by destruct (piece_apart _ _ s1 p 1 r c i (bytes_ c + i) Hc2 Hr Hi); [lia|]. }
      change (pieces p 1) with (p + block_size * Z.of_nat 0 :: []) in Hc3. rewrite Z.mul_0_r, Z.add_0_r in Hc3.
      destruct (insert_block_ok _ _ u s2 p [] off Hml Hc3) as (s3 & E3 & Hc4 & [Eu3 _]); try done.
      { cbn. by rewrite Eh1. } { cbn. rewrite Eu1. nia. }
      { intros i Hi. cbn. rewrite put_bytes_copied, Eu1 by lia. unfold copied.
        rewrite (proj2 (Z.leb_le _ _)), (proj2 (Z.ltb_lt _ _)) by lia. cbn [andb]. rewrite <- Hu by nia. f_equal. lia. }
      rewrite bind_bind, (bind_good _ _ _ _ _ E1), bind_bind, bind_rassert by (rewrite (proj2 (Z.eqb_neq _ _)) by lia; done).
      assert (E2 : from_caller p buff block_size (u, s1) = Some (Good tt, (u, s2))) by done.
      rewrite bind_bind, (bind_good _ _ _ _ _ E2), (bind_good _ _ _ _ _ E3). apply Hrest; [done|]. rewrite Eu3. cbn. done.
    + rewrite (proj2 (Z.eqb_neq _ _)) by done. subst off.
      assert (E1 : block_bytes q (u, s) = Some (Good (bytes_ b), (u, s))) by (unfold block_bytes; cbn [snd]; by rewrite Hqb).
      rewrite bind_bind, (bind_good _ _ _ _ _ E1).
      match goal with |- context [from_caller ?a ?c ?d] => assert (E2 : from_caller a c d (u, s) =
        Some (Good tt, (u, set_memory s (put_bytes (memory s) (bytes_ b) (tab block_size (fun i => u (buff + i))))))) by done end.
      rewrite (bind_good _ _ _ _ _ E2). apply Hrest; [|done]. apply overwrite_ok with q; [done|done|]. intros i Hi. apply Hu. nia.
Qed.

(** [writeFunction] changes the device and the cache alike. *)
Lemma writeFunction_ok u s buff off n :
  memory_laws -> coherent s -> byte_mem u -> 0 <= n -> n mod block_size = 0 -> off mod block_size = 0 -> 0 <= off ->
  off + n <= dev_size (uncached s) -> 0 <= buff -> buff + n < 2 ^ 64 ->
  exists s', writeFunction new_bytes new_block buff off n (u, s) = Some (Good tt, (u, s')) /\
    coherent s' /\ dev_size (uncached s') = dev_size (uncached s) /\
    forall a, contents (uncached s') a = copied (contents (uncached s)) off n u buff a.
Proof.
  intros Hml Hc Hu Hn Hnm Hom Ho Hs Hb0 Hb. destruct (aligned_number n) as (k & ->); try done.
  unfold writeFunction. rewrite bind_rassert by by rewrite Hnm, Hom. pose proof bs_pos.
  destruct (write_uncached_ok u s buff off k Hc Hu) as (s1 & E1 & Hc1 & Hs1 & Hd1); [done|]. rewrite (bind_good _ _ _ _ _ E1).
  destruct (update_loop_ok u k Hml (S (Z.to_nat (block_size * Z.of_nat k))) s1 buff off) as (s2 & E2 & Hc2 & Eu2); try done; [nia| | |].
  - split; [done|split; [done|]]. by rewrite Hs1.
  - intros i Hi. rewrite Hd1. unfold copied. rewrite (proj2 (Z.leb_le _ _)), (proj2 (Z.ltb_lt _ _)) by lia. cbn. f_equal. lia.
  - exists s2. rewrite Eu2. done.
Qed.

(** *** Reclaiming *)

Lemma evict_ok s p b t :
  coherent s -> cached s !! p = Some b -> table_ok (delete p (cached s)) t ->
  exists s', deallocMemory (bytes_ b) block_size (memory s, set_table s (cached s) t) = Some (Good tt, (memory s, s')) /\
    cached s' = cached s /\ table s' = t /\ coherent (set_table s' (delete p (cached s)) t) /\ unchanged s s'.
Proof.
  intros Hc Hb Ht'. pose proof Hc as [Hg Ht Hr Hh Hl Ha Ho Hf Hn].
  assert (Hd : forall q c, delete p (cached s) !! q = Some c -> q <> p /\ cached s !! q = Some c).
  { intros q c Hq. apply lookup_delete_Some in Hq as [? ?]. done. }
  assert (Hc1 : coherent_with 0 0 (set_table s (delete p (cached s)) t) [bytes_ b]).
  { split; cbn; try done.
    - intros q c [_ Hq]%Hd. eauto.
    - intros q c [_ Hq]%Hd _. apply (Hh q c Hq). lia.
    - intros a. rewrite Hl, list_elem_of_singleton. split.
      + intros [(q & c & Hq & E)|Hin]; [|by apply not_elem_of_nil in Hin]. destruct (decide (p = q)) as [<-|Hne]; [right; congruence|].
        left. exists q, c. by rewrite lookup_delete_ne.
      + intros [(q & c & [_ Hq]%Hd & E)| ->]; left; [by exists q, c|by exists p, b].
    - intros q r c e [_ Hq]%Hd [_ Hr']%Hd E. by eapply Ho.
    - intros q c [Hne Hq]%Hd E%list_elem_of_singleton. apply Hne. by apply (Ho q p c b).
    - apply NoDup_singleton. }
  destruct (deallocMemory_one 0 0 (memory s) _ _ _ Hc1) as (s1 & E1 & Hc2 & Hu & Hca). unfold deallocMemory in *. cbn [live] in *.
  change (live (set_table s (cached s) t)) with (live s) in *. change (live (set_table s (delete p (cached s)) t)) with (live s) in *.
  destruct (forallb _ _); [|done]. injection E1 as <-. eexists. split; [done|]. cbn. split; [done|split; [done|split; [exact Hc2|done]]].
Qed.

Definition kept_blocks (h h' : heap) : Prop :=
  forall p b', h' !! p = Some b' -> exists b, h !! p = Some b /\ offset b' = offset b /\ bytes_ b' = bytes_ b.

Lemma kept_blocks_trans h1 h2 h3 : kept_blocks h1 h2 -> kept_blocks h2 h3 -> kept_blocks h1 h3.
Proof.
  intros K1 K2 p b Hb. destruct (K2 p b Hb) as (b2 & H2 & E & E'). destruct (K1 p b2 H2) as (b1 & H1 & E1 & E1').
  exists b1. split; [done|split; congruence].
Qed.

Lemma reclaim_loop_ok prio fuel : forall i freed s,
  (capacity (table s) - i + count (table s) < fuel)%nat -> coherent s ->
  exists freed' s', reclaim_loop fuel prio i freed s = Some (freed', s') /\ coherent s' /\ unchanged s s' /\
    kept_blocks (cached s) (cached s') /\ (size (cached s') + freed' = size (cached s) + freed)%nat.
Proof.
  induction fuel as [|fuel IH]; intros i freed s Hf Hc; [lia|]. cbn [reclaim_loop]. pose proof (co_table _ _ _ _ Hc) as Ht.
  destruct (Nat.ltb_spec i (capacity (table s))) as [Hi|Hi].
  2: { exists freed, s. split; [done|split; [done|split; [done|split; [|done]]]]. intros p b Hb. by exists b. }
  rewrite <- (to_len _ _ Ht) in Hi. destruct (lookup_lt_is_Some_2 _ _ Hi) as [p Hp]. rewrite Hp. cbn [mbind option_bind].
  rewrite (to_len _ _ Ht) in Hi.
  destruct (Z.eqb_spec p 0) as [->|Hp0]; cbn [negb]; [apply IH; [lia|done]|].
  destruct (to_some _ _ p Ht) as [b Hb]; [by eapply list_elem_of_lookup_2|done|]. rewrite Hb. cbn [mbind option_bind].
  destruct (priority b >=? prio).
  - destruct (removeFromTable_ok _ _ p b Ht Hb) as (l & E & Ht'). rewrite E. cbn [mbind option_bind].
    destruct (evict_ok s p b _ Hc Hb Ht') as (s1 & E1 & Eh & Et & Hc1 & [Eu Em]).
    change (memory (set_table s (cached s) (mkTable l (count (table s) - 1) (capacity (table s))))) with (memory s).
    rewrite E1. cbn [mbind option_bind]. rewrite Eh, Et.
    assert (Hsz : size (cached s) = S (size (delete p (cached s)))).
    { rewrite map_size_delete_Some by by exists b. pose proof (map_size_non_empty_iff (cached s)) as [_ Hne].
      assert (size (cached s) <> 0%nat); [|lia]. apply Hne. intros E0. rewrite E0, lookup_empty in Hb. done. }
    destruct (fun Hlt => IH i (S freed) _ Hlt Hc1) as (f' & s' & E2 & Hc2 & [Eu2 Em2] & K & Es).
    { cbn. rewrite (to_count _ _ Ht) in *. lia. }
    exists f', s'. split; [exact E2|split; [done|split; [split; cbn in *; congruence|split]]].
    + eapply kept_blocks_trans; [|exact K]. cbn. intros q c Hq. apply lookup_delete_Some in Hq as [_ Hq]. by exists c.
    + cbn in Es. lia.
  - pose proof (co_priority 0 0 s [] p b (mkBlock (offset b) (priority b + 1) (bytes_ b)) Hc Hb eq_refl eq_refl) as Hc1.
    destruct (fun Hlt => IH (S i) freed _ Hlt Hc1) as (f' & s' & E2 & Hc2 & [Eu2 Em2] & K & Es); [cbn; lia|].
    exists f', s'. split; [exact E2|split; [done|split; [done|split]]].
    + eapply kept_blocks_trans; [|exact K]. cbn. intros q c Hq. destruct (decide (p = q)) as [<-|].
      * rewrite lookup_insert_eq in Hq. injection Hq as <-. by exists b.
      * rewrite lookup_insert_ne in Hq by done. by exists c.
    + cbn in Es. rewrite map_size_insert_Some in Es by by exists b. done.
Qed.

Lemma reclaimFunction_ok prio s :
  coherent s ->
  exists r s', reclaimFunction prio s = Some (r, s') /\ coherent s' /\ unchanged s s' /\ kept_blocks (cached s) (cached s') /\
    (r = true <-> (size (cached s') < size (cached s))%nat).
Proof.
  intros Hc. unfold reclaimFunction.
  destruct (reclaim_loop_ok prio (S (capacity (table s) + count (table s))) 0 0 s) as (f & s1 & E & Hc1 & Hu & K & Es); [lia|done|].
  rewrite E. cbn [mbind option_bind]. pose proof Hc1 as [Hg Ht Hr Hh Hl Ha Ho Hf Hn].
  destruct (testForResize_ok _ _ Ht) as (t & Et & Ht1 & _). rewrite Et. cbn [mbind option_bind].
  exists (negb (f =? 0)%nat), (set_table s1 (cached s1) t). split; [done|]. split; [by split|]. split; [done|split; [done|]]. cbn.
  destruct (Nat.eqb_spec f 0); cbn; split; intros; [done|lia|lia|done].
Qed.

End Coherence.

(** ** The cached device is a block device *)

Lemma read_result {D : Type} `{BlockDevice D} new_bytes new_block off n (s : @CachedBlockDevice D) u s' :
  readFunction new_bytes new_block 0 off n (fun _ => 0, s) = Some (Good tt, (u, s')) ->
  @dev_read _ (cached_device new_bytes new_block) off n s = Some (Good (bytes_at u 0 n), s').
Proof.
  exact (fun E => f_equal (fun r => match r with
    | Some (Good _, (u, s)) => Some (Good (bytes_at u 0 n), s) | Some (Bad e, (_, s)) => Some (Bad e, s) | None => None end) E).
Qed.

Lemma write_result {D : Type} `{BlockDevice D} new_bytes new_block off l (s : @CachedBlockDevice D) u s' :
  writeFunction new_bytes new_block 0 off (Z.of_nat (length l)) (put_bytes (fun _ => 0) 0 l, s) = Some (Good tt, (u, s')) ->
  @dev_write _ (cached_device new_bytes new_block) off l s = Some (Good tt, s').
Proof. exact (fun E => f_equal (fun r => match r with Some (r, (_, s)) => Some (r, s) | None => None end) E). Qed.

#[refine] Instance cached_laws {D : Type} `{BlockLaws D} (new_bytes : gset Z -> Z -> Z) (new_block : gset Z -> Z)
    (Hml : memory_laws new_bytes new_block) :
  @BlockLaws (@CachedBlockDevice D) (cached_device new_bytes new_block) := {|
  good := coherent;
  contents s := contents (uncached s);
  dev_size s := dev_size (uncached s);
|}.
Proof.
  - intros s a Hc. apply contents_byte, (co_good _ _ _ _ Hc).
  - exact (@block_size_pow D _ _).
  - intros s Hc. exact (dev_size_blocks (uncached s) (co_good _ _ _ _ Hc)).
  - intros s off n Hc Ho Hn Hs Hom Hnm. pose proof (dev_size_blocks (uncached s) (co_good _ _ _ _ Hc)) as [_ Hd].
    destruct (readFunction_ok new_bytes new_block (fun _ => 0) s 0 off n) as (u & s' & E & Hc' & [Es Ec] & Hu); try done; [lia|].
    exists s'. split; [rewrite (read_result _ _ _ _ _ _ _ E)|done]. do 3 f_equal. rewrite !bytes_at_tab. apply tab_ext.
    intros i Hi. rewrite Hu. unfold copied. rewrite (proj2 (Z.leb_le _ _)), (proj2 (Z.ltb_lt _ _)) by lia. cbn. f_equal. lia.
  - intros s off l Hc Ho Hs Hom Hnm Hl. pose proof (dev_size_blocks (uncached s) (co_good _ _ _ _ Hc)) as [_ Hd].
    destruct (writeFunction_ok new_bytes new_block (put_bytes (fun _ => 0) 0 l) s 0 off (Z.of_nat (length l)))
      as (s' & E & Hc' & Es & Ec); try done; try lia.
    { intros a. unfold put_bytes. destruct (_ && _); [|done]. destruct (l !! _) as [c|] eqn:El; [|done]. cbn.
      rewrite Forall_lookup in Hl. by eapply Hl. }
    exists s'. split; [apply (write_result _ _ _ _ _ _ _ E)|split; [done|split; [done|]]].
    intros a. rewrite Ec, <- put_bytes_copied by lia. by rewrite bytes_at_put.
Defined.

(** ** Sequences of requests *)

Section Requests.
Context {D : Type} `{BlockLaws D} (new_bytes : gset Z -> Z -> Z) (new_block : gset Z -> Z).

Abbreviation cache := (@CachedBlockDevice D).

Inductive op : Type :=
| Read (off n : Z)
| Write (off : Z) (l : list Z)
| Reclaim (prio : Z).

(** What an operation gives, and the device afterwards; [None] is an error or
    undefined behaviour. *)
Definition run_op (o : op) (s : cache) : option (list Z * cache) :=
  match o with
  | Read off n =>
      match @dev_read _ (cached_device new_bytes new_block) off n s with
      | Some (Good l, s) => Some (l, s)
      | _ => None
      end
  | Write off l =>
      match @dev_write _ (cached_device new_bytes new_block) off l s with
      | Some (Good _, s) => Some ([], s)
      | _ => None
      end
  | Reclaim prio => '(_, s) ← reclaimFunction prio s; Some ([], s)
  end.

Fixpoint run (os : list op) (s : cache) : option (list (list Z) * cache) :=
  match os with
  | [] => Some ([], s)
  | o :: os => '(l, s) ← run_op o s; '(ls, s) ← run os s; Some (l :: ls, s)
  end.

(** The same on the content of a device without a cache. *)
Definition plain_op (o : op) (c : Z -> Z) : list Z * (Z -> Z) :=
  match o with
  | Read off n => (bytes_at c off n, c)
  | Write off l => ([], put_bytes c off l)
  | Reclaim _ => ([], c)
  end.

Fixpoint plain (os : list op) (c : Z -> Z) : list (list Z) * (Z -> Z) :=
  match os with
  | [] => ([], c)
  | o :: os => let '(l, c) := plain_op o c in let '(ls, c) := plain os c in (l :: ls, c)
  end.

(** Whole blocks inside the device. *)
Definition allowed (size : Z) (o : op) : Prop :=
  match o with
  | Read off n => 0 <= off /\ 0 <= n /\ off + n <= size /\ off mod block_size = 0 /\ n mod block_size = 0
  | Write off l => 0 <= off /\ off + Z.of_nat (length l) <= size /\ off mod block_size = 0 /\
      Z.of_nat (length l) mod block_size = 0 /\ Forall is_char l
  | Reclaim _ => True
  end.

Lemma plain_ext os : forall c c', (forall a, c a = c' a) ->
  fst (plain os c) = fst (plain os c') /\ forall a, snd (plain os c) a = snd (plain os c') a.
Proof.
  induction os as [|o os IH]; intros c c' Hc; [done|]. cbn [plain].
  assert (Ho : fst (plain_op o c) = fst (plain_op o c') /\ forall a, snd (plain_op o c) a = snd (plain_op o c') a).
  { destruct o as [off n|off l|]; cbn; [split; [|done]|split; [done|]|done].
    - rewrite !bytes_at_tab. by apply tab_ext.
    - intros a. unfold put_bytes. by destruct (_ && _). }
  destruct (plain_op o c) as [l1 c1], (plain_op o c') as [l2 c2]. cbn in Ho. destruct Ho as [-> Hc12].
  destruct (IH c1 c2 Hc12) as [E1 E2]. destruct (plain os c1), (plain os c2). cbn in *. by subst.
Qed.

Lemma run_op_ok o s :
  memory_laws new_bytes new_block -> coherent s -> allowed (dev_size (uncached s)) o ->
  exists s', run_op o s = Some (fst (plain_op o (contents (uncached s))), s') /\ coherent s' /\
    dev_size (uncached s') = dev_size (uncached s) /\
    forall a, contents (uncached s') a = snd (plain_op o (contents (uncached s))) a.
Proof.
  intros Hml Hc Ha. destruct o as [off n|off l|prio]; cbn [run_op plain_op fst snd].
  - destruct Ha as (? & ? & ? & ? & ?).
    destruct (@dev_read_ok _ _ (cached_laws new_bytes new_block Hml) s off n) as (s' & E & ?); try done.
    exists s'. rewrite E. done.
  - destruct Ha as (? & ? & ? & ? & ?).
    destruct (@dev_write_ok _ _ (cached_laws new_bytes new_block Hml) s off l) as (s' & E & ?); try done.
    exists s'. rewrite E. done.
  - destruct (reclaimFunction_ok prio s Hc) as (r & s' & E & Hc' & [Eu _] & _). rewrite E. exists s'.
    cbn. split; [done|split; [done|]]. by rewrite Eu.
Qed.

Lemma cached_run_ok os : memory_laws new_bytes new_block -> forall s, coherent s -> Forall (allowed (dev_size (uncached s))) os ->
  exists s', run os s = Some (fst (plain os (contents (uncached s))), s') /\ coherent s' /\
    forall a, contents (uncached s') a = snd (plain os (contents (uncached s))) a.
Proof.
  intros Hml. induction os as [|o os IH]; intros s Hc Ha; [by exists s|]. rewrite Forall_cons_iff in Ha. destruct Ha as [Ho Ha].
  destruct (run_op_ok o s Hml Hc Ho) as (s1 & E & Hc1 & Es & Ec). cbn [run plain]. rewrite E. cbn [mbind option_bind].
  destruct (IH s1 Hc1) as (s2 & E2 & Hc2 & Ec2); [by rewrite Es|]. rewrite E2. cbn [mbind option_bind]. exists s2.
  destruct (plain_ext os _ _ Ec) as [El Er]. rewrite El.
  destruct (plain_op o (contents (uncached s))) as [l1 c1]. cbn [fst snd] in *.
  destruct (plain os c1) as [ls c2]. cbn [fst snd] in *. split; [done|split; [done|]]. intros a. by rewrite Ec2, Er.
Qed.

End Requests.

(** ** Properties *)

(** C11: The cache is invisible: over any sequence of reads, writes and
    reclaims that starts with an empty cache, every read gives the bytes a device without
    a cache would give, every request inside the device succeeds, and the
    device holds what was written.  Every cached block agrees with the device
    after every step, and the memory in use is exactly that of the cached
    blocks. *)
Theorem cached_device_refines {D : Type} `{BlockLaws D} new_bytes new_block os d :
  memory_laws new_bytes new_block -> good d -> Forall (allowed (dev_size d)) os ->
  exists s', run new_bytes new_block os (wrapBlockDeviceWithCache d) = Some (fst (plain os (contents d)), s') /\
    coherent s' /\ forall a, contents (uncached s') a = snd (plain os (contents d)) a.
Proof.
  intros Hml Hg Ha. apply (cached_run_ok new_bytes new_block os Hml (wrapBlockDeviceWithCache d)); [by apply coherent_init|done].
Qed.

(** C12: The hash table of the cache implements a finite map from offsets to
    blocks.  Looking an offset up finds its block if there is one; inserting a
    new one, with the resizing before it, keeps every other; removing one shifts
    the blocks behind it so that every other is still found.  The loops all
    end, and there is always room for the next block. *)
Theorem table_operations_correct h t :
  table_ok h t ->
  (forall o, exists p, getFromTable h t o = Some p /\
     ((p = 0 /\ ~ has_offset h o) \/ exists b, h !! p = Some b /\ offset b = o /\ p <> 0)) /\
  (forall p o bytes, p <> 0 -> h !! p = None -> ~ has_offset h o ->
     exists t', insertIntoTable p h t o bytes = Some (<[p := mkBlock o DEFAULT_PRIORITY bytes]> h, t') /\
       table_ok (<[p := mkBlock o DEFAULT_PRIORITY bytes]> h) t') /\
  (forall p b, h !! p = Some b ->
     exists l, removeCachedBlock h (blocks t) (capacity t) (offset b) = Some (p, l) /\
       table_ok (delete p h) (mkTable l (count t - 1) (capacity t))) /\
  (exists t', testForResize h t = Some t' /\ table_ok h t' /\ roomy t').
Proof.
  intros Ht. split; [by intros o; apply getFromTable_ok|]. split; [by intros p o bytes; apply insertIntoTable_ok|].
  split; [by intros p b; apply removeFromTable_ok|]. destruct (testForResize_ok h t Ht) as (t' & ? & ? & ? & _). by exists t'.
Qed.

(** *** An example: a disk of blocks of four bytes *)

(** Addresses above all that are in use. *)
Definition above (used : gset Z) : Z := set_fold Z.max 0 used + 4.

Lemma above_spec used a : a ∈ used -> a + 4 <= above used.
Proof.
  unfold above. revert a. apply (set_fold_ind_L (fun (m : Z) (X : gset Z) => forall a, a ∈ X -> a + 4 <= m + 4)).
  - intros a Ha. by apply elem_of_empty in Ha.
  - intros x X m _ IH a Ha. apply elem_of_union in Ha as [Ha%elem_of_singleton|Ha]; [lia|]. specialize (IH a Ha). lia.
Qed.

Lemma above_pos used : 0 < above used.
Proof.
  unfold above. enough (0 <= set_fold Z.max 0 used) by lia.
  apply (set_fold_ind_L (fun (m : Z) (X : gset Z) => 0 <= m)); [lia|]. intros. lia.
Qed.

Definition ex_blocks : BlockDevice RamDisk := ram_blocks (2 ^ 2).
Definition ex_laws : @BlockLaws RamDisk ex_blocks := ram_blocks_laws 2 ltac:(lia).
Definition ex_bytes (live : gset Z) (n : Z) : Z := above live.

Lemma ex_memory : @memory_laws RamDisk ex_blocks ex_bytes above.
Proof.
  split.
  - intros used n Hn. split; [apply above_pos|]. intros a k Ha Hk. pose proof (above_spec _ _ Ha). cbn. unfold ex_bytes. left. lia.
  - intros used. pose proof (above_pos used). split; [lia|]. intros Hin. pose proof (above_spec _ _ Hin). lia.
Qed.

Definition ex_disk : RamDisk := mkDisk (fun a => a + 100) 64.
Definition ex_ops : list op := [Read 8 12; Write 12 [1; 2; 3; 4; 5; 6; 7; 8]; Read 8 16; Reclaim 0; Read 16 4].

Lemma cached_device_refines_witness :
  (exists s', @run RamDisk ex_blocks ex_bytes above ex_ops (wrapBlockDeviceWithCache ex_disk) =
     Some (fst (plain ex_ops (@contents _ _ ex_laws ex_disk)), s') /\ @coherent _ _ ex_laws s' /\
     forall a, @contents _ _ ex_laws (uncached s') a = snd (plain ex_ops (@contents _ _ ex_laws ex_disk)) a) /\
  fst <$> @run RamDisk ex_blocks ex_bytes above ex_ops (wrapBlockDeviceWithCache ex_disk) =
    Some [[108; 109; 110; 111; 112; 113; 114; 115; 116; 117; 118; 119]; [];
          [108; 109; 110; 111; 1; 2; 3; 4; 5; 6; 7; 8; 120; 121; 122; 123]; []; [5; 6; 7; 8]].
Proof.
  split; [|vm_compute; reflexivity].
  apply (@cached_device_refines RamDisk ex_blocks ex_laws); [apply ex_memory|split; [done|split; done]|].
  repeat constructor; try done; vm_compute; done.
Defined.

Definition ex_heap : heap := <[8 := mkBlock 512 20 4096]> ∅.

Lemma ex_table_ok : table_ok ex_heap (mkTable (<[hash_slot 32 512 := 8]> (replicate 32 0)) 1 32).
Proof.
  split; [done| | |done|cbn; lia].
  - right. split; [unfold MIN_TABLE_CAPACITY; cbn; lia|]. split; [cbn [blocks]; rewrite length_insert, length_replicate; lia| | |].
    + apply Forall_insert; [apply Forall_replicate; by left|]. right. by exists (mkBlock 512 20 4096).
    + apply ranked_put; [by apply (rb_ranked _ _ (robin_init ex_heap 32 ltac:(lia)))|rewrite length_replicate; by apply hash_slot_lt; lia| |].
      * intros i _ _ _. rewrite length_replicate.
        replace (rank_of ex_heap _ _ 8) with 1%nat by (vm_compute; reflexivity). lia.
      * unfold rank. destruct (replicate 32 0 !! _) as [p|] eqn:E; [|lia]. apply lookup_replicate in E as [-> _]. cbn. lia.
    + vm_compute. repeat constructor. by intros ?%not_elem_of_nil.
  - vm_compute. done.
Qed.

Lemma table_operations_correct_witness :
  exists t', testForResize ex_heap (mkTable (<[hash_slot 32 512 := 8]> (replicate 32 0)) 1 32) = Some t' /\
    table_ok ex_heap t' /\ roomy t'.
Proof. exact (proj2 (proj2 (proj2 (table_operations_correct _ _ ex_table_ok)))). Defined.

(** ** Found *)

(** Two tasks write the same block at once: the device takes the bytes of the
    second, and the cache, whose lock is taken only after the write to the
    device, those of the first. *)
Definition racing_writers : option (list Z * Z) :=
  let one : bytes := fun _ => 1 in
  let two : bytes := fun _ => 2 in
  let s := wrapBlockDeviceWithCache ex_disk in
  match @write_uncached _ ex_blocks 0 8 4 (one, s) with
  | Some (Good _, (_, s)) =>
      match @write_uncached _ ex_blocks 0 8 4 (two, s) with
      | Some (Good _, (_, s)) =>
          match @write_loop _ ex_blocks ex_bytes above 5 0 8 4 (two, s) with
          | Some (Good _, (_, s)) =>
              match @write_loop _ ex_blocks ex_bytes above 5 0 8 4 (one, s) with
              | Some (Good _, (_, s)) =>
                  match @dev_read _ (@cached_device _ ex_blocks ex_bytes above) 8 4 s with
                  | Some (Good l, s) => Some (l, disk_bytes (uncached s) 8)
                  | _ => None
                  end
              | _ => None
              end
          | _ => None
          end
      | _ => None
      end
  | _ => None
  end.

Lemma racing_writers_disagree : racing_writers = Some ([1; 1; 1; 1], 2).
Proof. vm_compute. reflexivity. Qed.

End BlockCache.
