(* ===== verification/Virtio.v ===== *)
(** * Virtio: the block driver, [kernel/src/devices/virtio/virtio.c] and
    [kernel/src/devices/virtio/block.c]

    A request to a VirtIO block device is a chain of descriptors in a ring
    shared with the device: the header, the parts of the buffer, the status.
    The parts come from [VirtPtr.getVirtPtrParts], so the state is that of the
    memory spaces and the device.  The spin lock of the device, taken inside of
    a critical section, makes each operation one step; what the device does is
    to fill the used ring and the status of a request between them.  The task of a request waits until
    [virtIOBlockFreePendingRequests] has given it a result. *)
From S2P Require Import Prelude PageAlloc Probe PageTable MemSpace VirtPtr Errors.
Import PageAlloc MemSpace VirtPtr Errors.

Module Virtio.

(** ** Definitions *)

Definition VIRTIO_RING_SIZE : nat := 128.
Definition BLOCK_SECTOR_SIZE : Z := 512.

Definition VIRTIO_DESC_NEXT : Z := 1.
Definition VIRTIO_DESC_WRITE : Z := 2.

Definition VIRTIO_BLOCK_T_IN : Z := 0.
Definition VIRTIO_BLOCK_T_OUT : Z := 1.

Definition VIRTIO_BLOCK_S_OK : Z := 0.
Definition VIRTIO_BLOCK_S_IOERR : Z := 1.
Definition VIRTIO_BLOCK_S_UNSUPP : Z := 2.
Definition VIRTIO_BLOCK_S_UNKNOWN : Z := 3.

Definition ENOTSUP : Z := 134.

Record VirtIODescriptor := mkDescriptor { d_address : Z; d_length : Z; d_flags : Z; d_next : Z }.

(** The available ring holds the first descriptor of every request, the used
    ring that of every request the device is done with. *)
Record VirtIOQueue := mkQueue {
  descriptors : list VirtIODescriptor;
  avail_index : Z;
  avail_ring : list Z;
  used_index : Z;
  used_ring : list Z }.

Record VirtIODevice := mkDevice { queue : VirtIOQueue; desc_index : Z; ack_index : Z }.

Definition set_descriptors (d : VirtIODevice) (l : list VirtIODescriptor) (i : Z) : VirtIODevice :=
  let q := queue d in
  mkDevice (mkQueue l (avail_index q) (avail_ring q) (used_index q) (used_ring q)) i (ack_index d).

Definition fillNextDescriptor (d : VirtIODevice) (descriptor : VirtIODescriptor) : option (Z * VirtIODevice) :=
  let i := (desc_index d + 1) mod Z.of_nat VIRTIO_RING_SIZE in
  let descriptor :=
    if negb (Z.land (d_flags descriptor) VIRTIO_DESC_NEXT =? 0)
    then mkDescriptor (d_address descriptor) (d_length descriptor) (d_flags descriptor)
           ((i + 1) mod Z.of_nat VIRTIO_RING_SIZE)
    else descriptor in
  if decide (Z.to_nat i < List.length (descriptors (queue d)))%nat
  then Some (i, set_descriptors d (<[Z.to_nat i := descriptor]> (descriptors (queue d))) i)
  else None.

(** The loop of [addDescriptorsFor] over the parts from [i] on. *)
Fixpoint fill_loop (parts : list BufferPart) (i part_count flags first_id : Z) (d : VirtIODevice) : option (Z * VirtIODevice) :=
  match parts with
  | [] => Some (first_id, d)
  | p :: parts =>
      let desc := mkDescriptor (phys_address p) (u32 (VirtPtr.length p))
        (Z.lor flags (if i + 1 <? part_count then VIRTIO_DESC_NEXT else 0)) 0 in
      '(index, d) ← fillNextDescriptor d desc;
      fill_loop parts (i + 1) part_count flags (if i =? 0 then index else first_id) d
  end.

Definition sendRequestAt (d : VirtIODevice) (descriptor : Z) : VirtIODevice :=
  let q := queue d in
  mkDevice (mkQueue (descriptors q) (u16 (avail_index q + 1))
    (<[Z.to_nat (avail_index q mod Z.of_nat VIRTIO_RING_SIZE) := descriptor]> (avail_ring q)) (used_index q) (used_ring q))
    (desc_index d) (ack_index d).

(** A request is on the stack of the task [wakeup] that waits for it. *)
Record VirtIOBlockRequest := mkRequest {
  blk_type : Z; sector : Z; status : Z; head : Z; wakeup : Z }.

Record VirtIOBlockDevice := mkBlock { virtio : VirtIODevice; requests : list VirtIOBlockRequest; read_only : bool }.

Definition set_virtio (b : VirtIOBlockDevice) (d : VirtIODevice) : VirtIOBlockDevice :=
  mkBlock d (requests b) (read_only b).

(** [header] is the first field of a request, [status] is 40 bytes behind it. *)
Definition sizeof_header : Z := 16.
Definition sizeof_status : Z := 1.
Definition status_of (request : Z) : Z := request + 40.

Section Code.
Context `{PageService} (zero_page kernel_page_table : Z).

Abbreviation St := (space_state * VirtIOBlockDevice)%type.

Definition addDescriptorsFor (buffer : VirtPtr) (length flags : Z) (write : bool) : M St Z := fun s =>
  '((part_count, _), m) ← getVirtPtrParts zero_page buffer length 0 write (fst s);
  '((_, parts), m) ← getVirtPtrParts zero_page buffer length part_count write m;
  '(first_id, d) ← fill_loop parts 0 part_count flags 0 (virtio (snd s));
  Some (first_id, (m, set_virtio (snd s) d)).

(** [criticalEnter] of [task/syscall.c]: the hart leaves its task, which is the
    result, and runs on without one; inside of a critical section there is none.
    The state is the task that runs on the hart. *)
Definition criticalEnter (current : Z) : Z * Z := if negb (current =? 0) then (current, 0) else (0, 0).

(** Up to where the task waits: [None] in the result is a request on its way, and
    [waitForBlockOperation] leaves the hart to the other tasks.  The third part of
    the state is the task of the hart. *)
Definition virtIOBlockDeviceOperation (request : Z) (buffer : VirtPtr) (offset size : Z) (write : bool)
    : M (St * Z) (option Z) := fun w =>
  let '(s, current) := w in
  let b := snd s in
  if write && read_only b then Some (Some EINVAL, (s, current))
  else if negb (size mod BLOCK_SECTOR_SIZE =? 0) || negb (offset mod BLOCK_SECTOR_SIZE =? 0)
  then Some (Some EINVAL, (s, current))
  else
    let '(task, current) := criticalEnter current in
    if task =? 0 then None
    else if avail_index (queue (virtio b)) - ack_index (virtio b) >=? Z.of_nat VIRTIO_RING_SIZE
    then Some (Some EBUSY, (s, current))
    else
      let sector := u32 (offset / BLOCK_SECTOR_SIZE) in
      '(head, s) ← addDescriptorsFor (virtPtrForKernel kernel_page_table request) sizeof_header VIRTIO_DESC_NEXT true s;
      '(_, s) ← addDescriptorsFor buffer size (Z.lor VIRTIO_DESC_NEXT (if write then 0 else VIRTIO_DESC_WRITE)) write s;
      '(_, s) ← addDescriptorsFor (virtPtrForKernel kernel_page_table (status_of request)) sizeof_status VIRTIO_DESC_WRITE true s;
      let b := snd s in
      let r := mkRequest (if write then VIRTIO_BLOCK_T_OUT else VIRTIO_BLOCK_T_IN) sector VIRTIO_BLOCK_S_UNKNOWN head task in
      Some (None, ((fst s, mkBlock (sendRequestAt (virtio b) head) (r :: requests b) (read_only b)), current)).

End Code.

(** The inner loop of [virtIOBlockFreePendingRequests]: the first request that
    starts at the descriptor [id] is taken off the list. *)
Fixpoint take_request (id : Z) (l : list VirtIOBlockRequest) : list VirtIOBlockRequest * list VirtIOBlockRequest :=
  match l with
  | [] => ([], [])
  | r :: l => if head r =? id then ([r], l) else let '(f, l) := take_request id l in (f, r :: l)
  end.

Fixpoint ack_loop (fuel : nat) (b : VirtIOBlockDevice) (finished : list VirtIOBlockRequest)
    : option (VirtIOBlockDevice * list VirtIOBlockRequest) :=
  match fuel with
  | O => None
  | S fuel =>
      let d := virtio b in
      if ack_index d =? used_index (queue d) then Some (b, finished)
      else
        id ← used_ring (queue d) !! Z.to_nat (ack_index d mod Z.of_nat VIRTIO_RING_SIZE);
        let '(f, l) := take_request id (requests b) in
        ack_loop fuel (mkBlock (mkDevice (queue d) (desc_index d) (u16 (ack_index d + 1))) l (read_only b)) (f ++ finished)
  end.

(** What the task of a request returns; the switch has no other case. *)
Definition request_result (r : VirtIOBlockRequest) : option Z :=
  if status r =? VIRTIO_BLOCK_S_OK then Some SUCCESS
  else if status r =? VIRTIO_BLOCK_S_IOERR then Some EIO
  else if status r =? VIRTIO_BLOCK_S_UNSUPP then Some ENOTSUP
  else if status r =? VIRTIO_BLOCK_S_UNKNOWN then Some EIO
  else None.

(** The tasks that are woken up, in this order, with their results. *)
Definition virtIOBlockFreePendingRequests (b : VirtIOBlockDevice) : option (list (Z * Z) * VirtIOBlockDevice) :=
  '(b, finished) ← ack_loop (S (Z.to_nat (u16 (used_index (queue (virtio b)) - ack_index (virtio b))))) b [];
  woken ← mapM (fun r => e ← request_result r; Some (wakeup r, e)) finished;
  Some (woken, b).

(** ** The chain of a request *)

Abbreviation ring := (Z.of_nat VIRTIO_RING_SIZE).

(** The descriptors the device reads from [head] on. *)
Fixpoint device_chain (fuel : nat) (l : list VirtIODescriptor) (head : nat) : option (list VirtIODescriptor) :=
  match fuel with
  | O => None
  | S fuel =>
      d ← l !! head;
      if negb (Z.land (d_flags d) VIRTIO_DESC_NEXT =? 0)
      then ds ← device_chain fuel l (Z.to_nat (d_next d)); Some (d :: ds)
      else Some [d]
  end.

(** What a descriptor says, without the link. *)
Definition content (d : VirtIODescriptor) : Z * Z * Z := (d_address d, d_length d, d_flags d).

(** The descriptors for parts: all but the last are linked. *)
Fixpoint describe (flags : Z) (parts : list BufferPart) : list (Z * Z * Z) :=
  match parts with
  | [] => []
  | [p] => [(phys_address p, u32 (VirtPtr.length p), Z.lor flags 0)]
  | p :: parts => (phys_address p, u32 (VirtPtr.length p), Z.lor flags VIRTIO_DESC_NEXT) :: describe flags parts
  end.

(** The slot [k] descriptors behind the last that was filled. *)
Definition slot (d : VirtIODevice) (k : nat) : nat := Probe.pos VIRTIO_RING_SIZE (Z.to_nat (desc_index d + 1)) k.

#[local] Arguments slot : simpl never.

Definition fits (d : VirtIODevice) : Prop :=
  List.length (descriptors (queue d)) = VIRTIO_RING_SIZE /\ 0 <= desc_index d < ring.

(** [ds] was written into the slots from [d]'s next one on. *)
Record filled (d d' : VirtIODevice) (ds : list (Z * Z * Z)) : Prop := {
  fl_fits : fits d';
  fl_index : desc_index d' = (desc_index d + Z.of_nat (List.length ds)) mod ring;
  fl_slots : forall k c, ds !! k = Some c -> exists x, descriptors (queue d') !! slot d k = Some x /\ content x = c /\
    (Z.land (d_flags x) VIRTIO_DESC_NEXT <> 0 -> Z.to_nat (d_next x) = slot d (S k));
  fl_other : forall i, (forall k, (k < List.length ds)%nat -> i <> slot d k) ->
    descriptors (queue d') !! i = descriptors (queue d) !! i;
  fl_rest : avail_index (queue d') = avail_index (queue d) /\ avail_ring (queue d') = avail_ring (queue d) /\
    used_index (queue d') = used_index (queue d) /\ used_ring (queue d') = used_ring (queue d) /\
    ack_index d' = ack_index d;
}.

Lemma slot_lt d k : (slot d k < VIRTIO_RING_SIZE)%nat.
Proof. apply Probe.pos_lt. unfold VIRTIO_RING_SIZE. lia. Qed.

Lemma desc_slot_inj d j k : (j < VIRTIO_RING_SIZE)%nat -> (k < VIRTIO_RING_SIZE)%nat -> slot d j = slot d k -> j = k.
Proof.
  intros Hj Hk E. unfold slot in E. apply Probe.pos_inj with VIRTIO_RING_SIZE (Z.to_nat (desc_index d + 1) mod VIRTIO_RING_SIZE)%nat; try done.
  - apply Nat.mod_upper_bound. unfold VIRTIO_RING_SIZE. lia.
  - unfold Probe.pos in *. by rewrite !Nat.Div0.add_mod_idemp_l.
Qed.

Lemma slot_value d k : 0 <= desc_index d -> Z.of_nat (slot d k) = (desc_index d + 1 + Z.of_nat k) mod ring.
Proof.
  intros Hd. unfold slot, Probe.pos. rewrite Nat2Z.inj_mod, Nat2Z.inj_add, Z2Nat.id by lia. done.
Qed.

(** Going on behind what was filled. *)
Lemma slot_after d d' n k : 0 <= desc_index d -> desc_index d' = (desc_index d + Z.of_nat n) mod ring -> slot d' k = slot d (n + k).
Proof.
  intros Hd E. apply Nat2Z.inj. assert (0 <= desc_index d') by (rewrite E; apply Z.mod_pos_bound; unfold VIRTIO_RING_SIZE; lia).
  rewrite !slot_value, E by done. rewrite <- Z.add_assoc, Zplus_mod_idemp_l. f_equal. lia.
Qed.

Lemma filled_nil d : fits d -> filled d d [].
Proof.
  intros Hd. split; try done.
  destruct Hd as [_ Hi]. cbn. rewrite Z.add_0_r, Z.mod_small by done. done.
Qed.

Lemma filled_app d d1 d2 ds1 ds2 :
  0 <= desc_index d -> filled d d1 ds1 -> filled d1 d2 ds2 ->
  (List.length ds1 + List.length ds2 <= VIRTIO_RING_SIZE)%nat -> filled d d2 (ds1 ++ ds2).
Proof.
  intros Hd F1 F2 Hlen. pose proof (slot_after d d1 (List.length ds1)) as Hs. specialize (fun k => Hs k Hd (fl_index _ _ _ F1)).
  split.
  - apply F2.
  - rewrite (fl_index _ _ _ F2), (fl_index _ _ _ F1), Zplus_mod_idemp_l, length_app. f_equal. lia.
  - intros k c Hk. destruct (Nat.lt_ge_cases k (List.length ds1)) as [Hlt|Hge].
    + rewrite lookup_app_l in Hk by done. destruct (fl_slots _ _ _ F1 k c Hk) as (x & Hx & Hc & Hn). exists x.
      split; [|done]. rewrite (fl_other _ _ _ F2); [done|]. intros j Hj E. rewrite Hs in E. apply desc_slot_inj in E; lia.
    + rewrite lookup_app_r in Hk by done. destruct (fl_slots _ _ _ F2 _ c Hk) as (x & Hx & Hc & Hn). rewrite !Hs in *.
      replace (List.length ds1 + (k - List.length ds1))%nat with k in * by lia.
      replace (List.length ds1 + S (k - List.length ds1))%nat with (S k) in * by lia. by exists x.
  - intros i Hi. rewrite length_app in Hi. rewrite (fl_other _ _ _ F2), (fl_other _ _ _ F1); [done| |].
    + intros k Hk. apply Hi. lia.
    + intros k Hk. rewrite Hs. apply Hi. lia.
  - destruct (fl_rest _ _ _ F2) as (-> & -> & -> & -> & ->). apply F1.
Qed.

Lemma fillNextDescriptor_ok d x :
  fits d -> exists d', fillNextDescriptor d x = Some (Z.of_nat (slot d 0), d') /\ filled d d' [content x].
Proof.
  intros [Hl Hi]. unfold fillNextDescriptor. pose proof (slot_value d 0 (proj1 Hi)) as Hv. rewrite Z.add_0_r in Hv.
  rewrite <- Hv, Nat2Z.id, Hl. pose proof (slot_lt d 0). rewrite decide_True by done.
  eexists. split; [done|]. split; cbn.
  - split; [cbn; by rewrite length_insert|cbn; lia].
  - lia.
  - intros [|k] c Hk; [|done]. injection Hk as <-. rewrite list_lookup_insert_eq by lia. eexists. split; [done|].
    destruct (Z.eqb_spec (Z.land (d_flags x) VIRTIO_DESC_NEXT) 0) as [E|E]; cbn; (split; [done|]); [by rewrite E|].
    intros _. apply Nat2Z.inj. rewrite Z2Nat.id by (apply Z.mod_pos_bound; unfold VIRTIO_RING_SIZE; lia).
    rewrite Hv, Zplus_mod_idemp_l. by rewrite slot_value by lia.
  - intros i Hn. apply list_lookup_insert_ne. intros E. by apply (Hn 0%nat); [lia|].
  - done.
Qed.

Lemma describe_length flags parts : List.length (describe flags parts) = List.length parts.
Proof. induction parts as [|p [|q parts] IH]; [done|done|]. cbn [describe List.length] in *. by rewrite IH. Qed.

Lemma describe_lookup flags parts k c :
  describe flags parts !! k = Some c ->
  exists p, parts !! k = Some p /\
    c = (phys_address p, u32 (VirtPtr.length p),
         Z.lor flags (if decide (S k < List.length parts)%nat then VIRTIO_DESC_NEXT else 0)).
Proof.
  revert k. induction parts as [|p [|q parts] IH]; intros k Hk; [done| |].
  - destruct k; [|done]. injection Hk as <-. exists p. split; [done|]. rewrite decide_False; [done|cbn; lia].
  - destruct k as [|k].
    + injection Hk as <-. exists p. split; [done|]. rewrite decide_True; [done|cbn; lia].
    + destruct (IH k Hk) as (r & Hr & ->). exists r. split; [done|]. do 2 f_equal. cbn [List.length].
      destruct (decide _), (decide _); cbn [List.length] in *; try reflexivity; exfalso; lia.
Qed.

Lemma describe_cons flags p parts :
  describe flags (p :: parts) =
  (phys_address p, u32 (VirtPtr.length p), Z.lor flags (if decide (parts = []) then 0 else VIRTIO_DESC_NEXT)) :: describe flags parts.
Proof. destruct parts; cbn; [by rewrite decide_True|by rewrite decide_False]. Qed.

Lemma fill_loop_ok flags count parts : forall i first d,
  fits d -> 0 <= i -> count = i + Z.of_nat (List.length parts) -> (List.length parts <= VIRTIO_RING_SIZE)%nat ->
  exists d', fill_loop parts i count flags first d =
    Some (if (i =? 0) && negb (bool_decide (parts = [])) then Z.of_nat (slot d 0) else first, d') /\
    filled d d' (describe flags parts).
Proof.
  induction parts as [|p parts IH]; intros i first d Hd Hi Hc Hlen; cbn [fill_loop].
  - exists d. rewrite andb_false_r. split; [done|by apply filled_nil].
  - set (x := mkDescriptor _ _ _ _).
    destruct (fillNextDescriptor_ok d x Hd) as (d1 & E1 & F1). rewrite E1. cbn [mbind option_bind].
    destruct (IH (i + 1) (if i =? 0 then Z.of_nat (slot d 0) else first) d1) as (d2 & E2 & F2).
    { apply F1. } { lia. } { cbn [List.length] in Hc. lia. } { cbn [List.length] in Hlen. lia. }
    exists d2. rewrite E2. rewrite (proj2 (Z.eqb_neq (i + 1) 0)) by lia. cbn [andb]. split.
    + rewrite bool_decide_false by done. by destruct (i =? 0).
    + assert (Ex : content x :: describe flags parts = describe flags (p :: parts)).
      { rewrite describe_cons. unfold x, content. cbn [d_address d_length d_flags]. do 3 f_equal. cbn [List.length] in Hc.
        destruct (decide (parts = [])) as [->|Hne]; cbn [List.length] in Hc.
        - by rewrite (proj2 (Z.ltb_ge _ _)) by lia.
        - destruct parts; [done|]. by rewrite (proj2 (Z.ltb_lt _ _)) by (cbn [List.length] in Hc; lia). }
      rewrite <- Ex. apply (filled_app d d1 d2 [content x]); [apply Hd|done|done|].
      rewrite describe_length. cbn [List.length] in *. lia.
Qed.

(** *** Reading the chain *)

(** All but the last say that another follows. *)
Definition linked (ds : list (Z * Z * Z)) : Prop :=
  forall k a n f, ds !! k = Some (a, n, f) -> (Z.land f VIRTIO_DESC_NEXT <> 0 <-> (S k < List.length ds)%nat).

Lemma chain_from d d' ds :
  filled d d' ds -> linked ds -> (List.length ds <= VIRTIO_RING_SIZE)%nat -> forall m k, (k + m = List.length ds)%nat -> (0 < m)%nat ->
  exists xs, device_chain m (descriptors (queue d')) (slot d k) = Some xs /\ content <$> xs = drop k ds.
Proof.
  intros F Hl Hlen. induction m as [|m IH]; intros k Hk Hm; [lia|]. cbn [device_chain].
  destruct (lookup_lt_is_Some_2 ds k ltac:(lia)) as [[[a n] f] Hc].
  destruct (fl_slots _ _ _ F k _ Hc) as (x & Hx & Ec & Hn). rewrite Hx. cbn [mbind option_bind].
  assert (Ef : d_flags x = f) by (unfold content in Ec; congruence). pose proof (Hl k a n f Hc) as Hlk.
  rewrite (drop_S _ _ _ Hc). destruct (Z.eqb_spec (Z.land (d_flags x) VIRTIO_DESC_NEXT) 0) as [E|E]; cbn [negb].
  - exists [x]. split; [done|]. rewrite Ef in E. assert (~ (S k < List.length ds)%nat) by (intros H; by apply Hlk in H).
    cbn. rewrite Ec, drop_ge by lia. done.
  - assert (Hsk : (S k < List.length ds)%nat) by (apply Hlk; by rewrite <- Ef).
    rewrite Hn by done. destruct (IH (S k)) as (xs & Exs & Hxs); [lia|lia|]. rewrite Exs. cbn [mbind option_bind].
    exists (x :: xs). split; [done|]. cbn. by rewrite Ec, <- Hxs.
Qed.

Lemma linked_app ds1 ds2 :
  (forall a n f, (a, n, f) ∈ ds1 -> Z.land f VIRTIO_DESC_NEXT <> 0) -> linked ds2 -> ds2 <> [] -> linked (ds1 ++ ds2).
Proof.
  intros H1 H2 Hne k a n f Hk. rewrite length_app. assert (0 < List.length ds2)%nat by (destruct ds2; [done|cbn; lia]).
  destruct (Nat.lt_ge_cases k (List.length ds1)) as [Hlt|Hge].
  - rewrite lookup_app_l in Hk by done. split; [intros _; lia|]. intros _. apply (H1 a n f). by eapply list_elem_of_lookup_2.
  - rewrite lookup_app_r in Hk by done. rewrite (H2 _ _ _ _ Hk). lia.
Qed.

Lemma describe_next flags parts a n f :
  Z.land flags VIRTIO_DESC_NEXT = VIRTIO_DESC_NEXT -> (a, n, f) ∈ describe flags parts -> Z.land f VIRTIO_DESC_NEXT <> 0.
Proof.
  intros Hf [k Hk]%list_elem_of_lookup. destruct (describe_lookup _ _ _ _ Hk) as (p & _ & [= -> -> ->]).
  rewrite Z.land_lor_distr_l, Hf. by destruct (decide _).
Qed.

Lemma describe_linked parts : linked (describe VIRTIO_DESC_WRITE parts).
Proof.
  intros k a n f Hk. destruct (describe_lookup _ _ _ _ Hk) as (p & _ & [= -> -> ->]). rewrite describe_length.
  destruct (decide _); split; try done; intros H; by destruct H.
Qed.

Section Operation.
Context `{PageService} (zero_page kernel_page_table : Z).

(** The parts of a buffer, which looking at it does not change: what
    [VirtPtr.getVirtPtrParts_cover] shows of a buffer whose pages are mapped. *)
Definition splits (m : space_state) (addr : VirtPtr) (len : Z) (write : bool) (parts : list BufferPart) : Prop :=
  forall max, getVirtPtrParts zero_page addr len max write m =
    Some ((Z.of_nat (List.length parts), take (Z.to_nat max) parts), m).

Lemma addDescriptorsFor_ok m b buffer len flags write parts :
  splits m buffer len write parts -> fits (virtio b) -> (List.length parts <= VIRTIO_RING_SIZE)%nat ->
  exists first d', addDescriptorsFor zero_page buffer len flags write (m, b) = Some (first, (m, set_virtio b d')) /\
    filled (virtio b) d' (describe flags parts) /\ (parts <> [] -> first = Z.of_nat (slot (virtio b) 0)).
Proof.
  intros Hs Hf Hlen. destruct (fill_loop_ok flags (Z.of_nat (List.length parts)) parts 0 0 (virtio b) Hf) as (d' & E & F); [lia|lia|done|].
  eexists _, d'. unfold addDescriptorsFor. cbn [fst snd]. rewrite Hs. cbn [mbind option_bind].
  rewrite Hs, Nat2Z.id, take_ge by lia. cbn [mbind option_bind]. rewrite E. cbn [mbind option_bind].
  split; [done|split; [done|]]. intros Hne. by rewrite bool_decide_false.
Qed.

(** The descriptors of a request. *)
Definition request_chain (write : bool) (hp dp sp : list BufferPart) : list (Z * Z * Z) :=
  describe VIRTIO_DESC_NEXT hp ++ describe (Z.lor VIRTIO_DESC_NEXT (if write then 0 else VIRTIO_DESC_WRITE)) dp ++
  describe VIRTIO_DESC_WRITE sp.

Lemma request_chain_linked write hp dp sp : sp <> [] -> linked (request_chain write hp dp sp).
Proof.
  intros Hsp. assert (Hne : describe VIRTIO_DESC_WRITE sp <> []).
  { intros E. apply (f_equal List.length) in E. rewrite describe_length in E. by destruct sp. }
  apply linked_app; [intros a n f; by apply describe_next| |by destruct (describe _ dp)].
  apply linked_app; [intros a n f; apply describe_next; by destruct write|apply describe_linked|done].
Qed.

Lemma request_chain_length write hp dp sp :
  List.length (request_chain write hp dp sp) = (List.length hp + List.length dp + List.length sp)%nat.
Proof. unfold request_chain. rewrite !length_app, !describe_length. lia. Qed.

Lemma operation_ok m b request task buffer offset size write hp dp sp :
  fits (virtio b) -> List.length (avail_ring (queue (virtio b))) = VIRTIO_RING_SIZE ->
  0 <= avail_index (queue (virtio b)) ->
  (write && read_only b) = false -> size mod BLOCK_SECTOR_SIZE = 0 -> offset mod BLOCK_SECTOR_SIZE = 0 ->
  avail_index (queue (virtio b)) - ack_index (virtio b) < ring -> task <> 0 ->
  splits m (virtPtrForKernel kernel_page_table request) sizeof_header true hp -> hp <> [] ->
  splits m buffer size write dp ->
  splits m (virtPtrForKernel kernel_page_table (status_of request)) sizeof_status true sp -> sp <> [] ->
  (List.length hp + List.length dp + List.length sp <= VIRTIO_RING_SIZE)%nat ->
  let d := virtio b in
  let first := slot d 0 in
  let r := mkRequest (if write then VIRTIO_BLOCK_T_OUT else VIRTIO_BLOCK_T_IN) (u32 (offset / BLOCK_SECTOR_SIZE))
             VIRTIO_BLOCK_S_UNKNOWN (Z.of_nat first) task in
  exists d', virtIOBlockDeviceOperation zero_page kernel_page_table request buffer offset size write ((m, b), task) =
      Some (None, ((m, mkBlock d' (r :: requests b) (read_only b)), 0)) /\
    (exists xs, device_chain (List.length (request_chain write hp dp sp)) (descriptors (queue d')) first = Some xs /\
       content <$> xs = request_chain write hp dp sp) /\
    (forall i, (forall k, (k < List.length (request_chain write hp dp sp))%nat -> i <> slot d k) ->
       descriptors (queue d') !! i = descriptors (queue d) !! i) /\
    avail_index (queue d') = u16 (avail_index (queue d) + 1) /\
    avail_ring (queue d') !! Z.to_nat (avail_index (queue d) mod ring) = Some (Z.of_nat first) /\
    fits d'.
Proof.
  intros Hf Hav Hai Hro Hsz Hoff Hroom Htask Hh Hhne Hd Hs Hsne Hlen d first r. unfold virtIOBlockDeviceOperation, criticalEnter. cbn [fst snd].
  rewrite Hro, Hsz, Hoff. cbn [Z.eqb negb orb]. rewrite (proj2 (Z.eqb_neq task 0)) by done. cbn [negb].
  rewrite (proj2 (Z.eqb_neq task 0)) by done. rewrite Z.geb_leb, (proj2 (Z.leb_gt _ _)) by lia.
  assert (Hlens := request_chain_length write hp dp sp). pose proof Hf as [_ Hdi].
  destruct (addDescriptorsFor_ok m b _ _ VIRTIO_DESC_NEXT _ hp Hh Hf) as (f1 & d1 & E1 & F1 & Hf1); [lia|].
  rewrite E1. cbn [mbind option_bind].
  destruct (addDescriptorsFor_ok m (set_virtio b d1) _ _ (Z.lor VIRTIO_DESC_NEXT (if write then 0 else VIRTIO_DESC_WRITE)) _ dp Hd) as (f2 & d2 & E2 & F2 & _); [apply F1|lia|].
  rewrite E2. cbn [mbind option_bind].
  destruct (addDescriptorsFor_ok m (set_virtio (set_virtio b d1) d2) _ _ VIRTIO_DESC_WRITE _ sp Hs) as (f3 & d3 & E3 & F3 & _); [apply F2|lia|].
  rewrite E3. cbn [mbind option_bind]. cbn [virtio set_virtio] in F2, F3.
  assert (F : filled d d3 (request_chain write hp dp sp)).
  { unfold request_chain. apply (filled_app d d1 d3); [apply Hdi|done| |rewrite length_app, !describe_length; lia].
    apply (filled_app d1 d2 d3); [|done|done|rewrite !describe_length; lia]. apply (fl_fits _ _ _ F1). }
  cbn [fst snd virtio set_virtio requests read_only]. rewrite (Hf1 Hhne). eexists. split; [done|].
  destruct (fl_rest _ _ _ F) as (Ea & Er & _). cbn [sendRequestAt queue descriptors avail_index avail_ring].
  split; [|split; [|split; [by rewrite Ea|split]]].
  - destruct (chain_from d d3 _ F (request_chain_linked write hp dp sp Hsne)) with (m := List.length (request_chain write hp dp sp)) (k := 0%nat)
      as (xs & Ex & Hx); [lia|lia| |by exists xs]. rewrite Hlens. destruct sp; [done|cbn; lia].
  - apply F.
  - rewrite Ea, Er. apply list_lookup_insert_eq. change (queue d) with (queue (virtio b)). rewrite Hav. unfold VIRTIO_RING_SIZE.
    pose proof (Z.mod_pos_bound (avail_index (queue (virtio b))) (Z.of_nat 128) ltac:(lia)). lia.
  - destruct (fl_fits _ _ _ F) as [? ?]. split; done.
Qed.

End Operation.

(** ** Completion *)

Lemma take_request_spec id l :
  NoDup (head <$> l) ->
  snd (take_request id l) = filter (fun r => head r <> id) l /\
  fst (take_request id l) = filter (fun r => head r = id) l.
Proof.
  induction l as [|r l IH]; intros Hn; [done|]. rewrite fmap_cons, nodup_cons in Hn. destruct Hn as [Hr Hn].
  cbn [take_request]. rewrite !filter_cons. destruct (Z.eqb_spec (head r) id) as [E|E].
  - rewrite decide_False by (intros H; by apply H). rewrite (decide_True (P := head r = id)) by done. cbn [fst snd].
    assert (Hno : Forall (fun r' => head r' <> id) l).
    { apply Forall_forall. intros x Hx Ex. apply Hr. rewrite E, <- Ex. apply list_elem_of_fmap. exists x. split; [done|]. by apply list_elem_of_In. }
    split; [|f_equal]; clear -Hno; induction l as [|x l IH]; try done; rewrite Forall_cons_iff in Hno; destruct Hno as [Hx Hno];
      rewrite filter_cons; [rewrite decide_True by done; by rewrite <- IH|rewrite decide_False by done; by apply IH].
  - rewrite decide_True by done. rewrite (decide_False (P := head r = id)) by done. destruct (IH Hn) as [E1 E2].
    destruct (take_request id l). cbn in *. by rewrite E1, E2.
Qed.

(** The entries the device has added to the used ring. *)
Definition done_ids (d : VirtIODevice) : list Z :=
  (fun k => default 0 (used_ring (queue d) !! Z.to_nat (u16 (ack_index d + Z.of_nat k) mod ring))) <$>
  seq 0 (Z.to_nat (u16 (used_index (queue d) - ack_index d))).

Definition remaining (ids : list Z) (l : list VirtIOBlockRequest) : list VirtIOBlockRequest :=
  filter (fun r => head r ∉ ids) l.
Definition completed (ids : list Z) (l : list VirtIOBlockRequest) : list VirtIOBlockRequest :=
  filter (fun r => head r ∈ ids) l.

Lemma remaining_cons id ids l : remaining ids (filter (fun r => head r <> id) l) = remaining (id :: ids) l.
Proof.
  unfold remaining. induction l as [|r l IH]; [done|]. rewrite !filter_cons.
  destruct (decide (head r <> id)) as [Hn|Hn].
  - rewrite filter_cons, IH. destruct (decide (head r ∉ ids)) as [Hi|Hi].
    + rewrite decide_True; [done|]. rewrite elem_of_cons. by intros [?|?].
    + rewrite decide_False; [done|]. rewrite elem_of_cons. intros H. apply Hi. intros Hin. apply H. by right.
  - rewrite decide_False; [done|]. apply dec_stable in Hn as ->. rewrite elem_of_cons. intros H. apply H. by left.
Qed.

Lemma completed_cons id ids l :
  completed (id :: ids) l ≡ₚ filter (fun r => head r = id) l ++ completed ids (filter (fun r => head r <> id) l).
Proof.
  unfold completed. induction l as [|r l IH]; [done|]. rewrite !filter_cons. destruct (decide (head r = id)) as [E|E].
  - rewrite decide_True by (rewrite E; by left). rewrite decide_False by (intros H; by apply H). cbn [app]. by rewrite IH.
  - rewrite (decide_True (P := head r <> id)) by done. rewrite filter_cons. destruct (decide (head r ∈ ids)) as [Hi|Hi].
    + rewrite decide_True by (by right). rewrite IH. by rewrite Permutation_middle.
    + rewrite decide_False; [done|]. rewrite elem_of_cons. by intros [?|?].
Qed.

Lemma completed_Forall (P : VirtIOBlockRequest -> Prop) ids l : Forall P l -> Forall P (completed ids l).
Proof.
  intros H. unfold completed. induction l as [|r l IH]; [done|]. rewrite Forall_cons_iff in H. destruct H as [Hr H].
  rewrite filter_cons. destruct (decide _); [constructor; [done|]|]; by apply IH.
Qed.

Lemma heads_filter (P : VirtIOBlockRequest -> Prop) `{forall r, Decision (P r)} l : NoDup (head <$> l) -> NoDup (head <$> filter P l).
Proof.
  intros Hn. induction l as [|r l IH]; [done|]. rewrite fmap_cons, nodup_cons in Hn. destruct Hn as [Hr Hn].
  rewrite filter_cons. destruct (decide (P r)); [|by apply IH]. rewrite fmap_cons. apply nodup_cons. split; [|by apply IH].
  intros (x & Ex & Hx)%list_elem_of_fmap. apply Hr, list_elem_of_fmap. exists x. split; [done|].
  by apply list_elem_of_filter in Hx as [_ Hx].
Qed.

Lemma done_ids_next d n :
  0 <= ack_index d < 2 ^ 16 -> 0 <= used_index (queue d) < 2 ^ 16 ->
  Z.to_nat (u16 (used_index (queue d) - ack_index d)) = S n ->
  let d' := mkDevice (queue d) (desc_index d) (u16 (ack_index d + 1)) in
  Z.to_nat (u16 (used_index (queue d) - ack_index d')) = n /\
  done_ids d = default 0 (used_ring (queue d) !! Z.to_nat (ack_index d mod ring)) :: done_ids d'.
Proof.
  intros Ha Hu Hn d'. set (u := used_index (queue d)) in *. set (a := ack_index d) in *.
  assert (E : Z.to_nat (u16 (u - ack_index d')) = n).
  { unfold d'. cbn [ack_index]. unfold wrap in *. change (2 ^ 16) with 65536 in *.
    rewrite Zminus_mod_idemp_r. replace (u - (a + 1)) with (u - a - 1) by lia.
    rewrite <- Zminus_mod_idemp_l. rewrite (Z.mod_small ((u - a) mod 65536 - 1)); [lia|].
    pose proof (Z.mod_pos_bound (u - a) 65536). lia. }
  split; [done|]. unfold done_ids. fold u a. change (used_index (queue d')) with u. rewrite Hn, E.
  cbn [seq fmap list_fmap]. f_equal.
  - rewrite Z.add_0_r, (wrap_small 16 a) by done. done.
  - change (list_fmap nat Z) with (@fmap list list_fmap nat Z). rewrite <- seq_shift, <- list_fmap_compose.
    apply list_fmap_ext. intros _ k _. cbn [compose ack_index queue d']. unfold compose, d'. cbn [ack_index queue].
    rewrite wrap_add_l. do 5 f_equal. lia.
Qed.

(** The used ring is consumed in order. *)
Lemma ack_loop_ok n : forall b finished,
  0 <= ack_index (virtio b) < 2 ^ 16 -> 0 <= used_index (queue (virtio b)) < 2 ^ 16 ->
  List.length (used_ring (queue (virtio b))) = VIRTIO_RING_SIZE -> NoDup (head <$> requests b) ->
  Z.to_nat (u16 (used_index (queue (virtio b)) - ack_index (virtio b))) = n ->
  exists b' finished', ack_loop (S n) b finished = Some (b', finished') /\
    finished' ≡ₚ completed (done_ids (virtio b)) (requests b) ++ finished /\
    b' = mkBlock (mkDevice (queue (virtio b)) (desc_index (virtio b)) (used_index (queue (virtio b))))
           (remaining (done_ids (virtio b)) (requests b)) (read_only b).
Proof.
  induction n as [|n IH]; intros b finished Ha Hu Hlen Hnd Hn; cbn [ack_loop].
  - assert (E : ack_index (virtio b) = used_index (queue (virtio b))).
    { unfold wrap in Hn. change (2 ^ 16) with 65536 in *.
      pose proof (Z.mod_pos_bound (used_index (queue (virtio b)) - ack_index (virtio b)) 65536 ltac:(lia)).
      assert (Hz : (used_index (queue (virtio b)) - ack_index (virtio b)) mod 65536 = 0) by lia.
      apply Z.mod_divide in Hz as [q Hq]; lia. }
    rewrite (proj2 (Z.eqb_eq _ _) E). exists b, finished. split; [done|].
    assert (Ed : done_ids (virtio b) = []) by (unfold done_ids; by rewrite Hn). rewrite Ed.
    assert (Ec : completed [] (requests b) = []).
    { unfold completed. clear. induction (requests b) as [|r l IH]; [done|]. rewrite filter_cons, decide_False; [done|apply not_elem_of_nil]. }
    assert (Er : remaining [] (requests b) = requests b).
    { unfold remaining. clear. induction (requests b) as [|r l IH]; [done|]. rewrite filter_cons, decide_True, IH; [done|apply not_elem_of_nil]. }
    rewrite Ec, Er. split; [done|]. rewrite <- E. by destruct b as [[] ? ?].
  - destruct (Z.eqb_spec (ack_index (virtio b)) (used_index (queue (virtio b)))) as [E|_].
    { rewrite E, Z.sub_diag in Hn. done. }
    destruct (done_ids_next (virtio b) n Ha Hu Hn) as [Hn' Hids].
    assert (Hlt : (Z.to_nat (ack_index (virtio b) mod ring) < List.length (used_ring (queue (virtio b))))%nat).
    { rewrite Hlen. unfold VIRTIO_RING_SIZE. pose proof (Z.mod_pos_bound (ack_index (virtio b)) (Z.of_nat 128) ltac:(lia)). lia. }
    destruct (lookup_lt_is_Some_2 _ _ Hlt) as [id Hid]. rewrite Hid in Hids |- *. cbn [mbind option_bind]. cbn [default] in Hids.
    destruct (take_request_spec id (requests b) Hnd) as [E1 E2]. destruct (take_request id (requests b)) as [f l]. cbn [fst snd] in *. subst f l.
    edestruct (IH (mkBlock (mkDevice (queue (virtio b)) (desc_index (virtio b)) (u16 (ack_index (virtio b) + 1)))
      (filter (fun r => head r <> id) (requests b)) (read_only b))) as (b' & fin' & E' & Hp & Hb'); cbn [virtio queue ack_index requests]; try done.
    { apply wrap_range. lia. } { by apply heads_filter. }
    cbn [virtio queue ack_index desc_index requests read_only] in *.
    exists b', fin'. split; [exact E'|]. split.
    + rewrite Hp, Hids, completed_cons. rewrite <- app_assoc. apply Permutation_app_swap_app.
    + by rewrite Hb', Hids, <- remaining_cons.
Qed.

(** ** Properties *)

(** C25: A request to the block device is queued as one chain of descriptors: the
    header, the parts of the buffer in order, the status, with the flag for
    device writes on the buffer of a read and on the status only.  The device that
    starts at the descriptor put into the available ring reads exactly that
    chain.  As long as the chain fits into the ring, no slot outside of it
    changes, and the request waits with the right sector for the task that ran on
    the hart, which now runs none.  The call gives up without an effect when the
    device is read-only or the range is not one of whole sectors.  When the ring
    is full nothing is queued, but the call returns from inside of the critical
    section: the hart stays without its task. *)
Theorem virtIOBlockDeviceOperation_queues `{PageService} zero_page kernel_page_table m b request task buffer offset size write hp dp sp :
  fits (virtio b) -> List.length (avail_ring (queue (virtio b))) = VIRTIO_RING_SIZE ->
  0 <= avail_index (queue (virtio b)) -> task <> 0 ->
  splits zero_page m (virtPtrForKernel kernel_page_table request) sizeof_header true hp -> hp <> [] ->
  splits zero_page m buffer size write dp ->
  splits zero_page m (virtPtrForKernel kernel_page_table (status_of request)) sizeof_status true sp -> sp <> [] ->
  (List.length hp + List.length dp + List.length sp <= VIRTIO_RING_SIZE)%nat ->
  let d := virtio b in
  let operation := virtIOBlockDeviceOperation zero_page kernel_page_table request buffer offset size write ((m, b), task) in
  let r := mkRequest (if write then VIRTIO_BLOCK_T_OUT else VIRTIO_BLOCK_T_IN) (u32 (offset / BLOCK_SECTOR_SIZE))
             VIRTIO_BLOCK_S_UNKNOWN (Z.of_nat (slot d 0)) task in
  if (write && read_only b) || negb (size mod BLOCK_SECTOR_SIZE =? 0) || negb (offset mod BLOCK_SECTOR_SIZE =? 0)
  then operation = Some (Some EINVAL, ((m, b), task))
  else if avail_index (queue d) - ack_index d >=? Z.of_nat VIRTIO_RING_SIZE then operation = Some (Some EBUSY, ((m, b), 0))
  else exists d', operation = Some (None, ((m, mkBlock d' (r :: requests b) (read_only b)), 0)) /\
    (exists xs, device_chain (List.length (request_chain write hp dp sp)) (descriptors (queue d')) (slot d 0) = Some xs /\
       content <$> xs = request_chain write hp dp sp) /\
    (forall i, (forall k, (k < List.length (request_chain write hp dp sp))%nat -> i <> slot d k) ->
       descriptors (queue d') !! i = descriptors (queue d) !! i) /\
    avail_index (queue d') = u16 (avail_index (queue d) + 1) /\
    avail_ring (queue d') !! Z.to_nat (avail_index (queue d) mod Z.of_nat VIRTIO_RING_SIZE) = Some (Z.of_nat (slot d 0)) /\
    fits d'.
Proof.
  intros Hf Hav Hai Htask Hh Hhne Hd Hs Hsne Hlen d operation r.
  destruct (write && read_only b) eqn:Ero; cbn [orb].
  { unfold operation, virtIOBlockDeviceOperation. cbn [snd]. by rewrite Ero. }
  destruct (Z.eqb_spec (size mod BLOCK_SECTOR_SIZE) 0) as [Es|Es]; cbn [negb orb].
  2: { unfold operation, virtIOBlockDeviceOperation. cbn [snd]. by rewrite Ero, (proj2 (Z.eqb_neq _ _) Es). }
  destruct (Z.eqb_spec (offset mod BLOCK_SECTOR_SIZE) 0) as [Eo|Eo]; cbn [negb orb].
  2: { unfold operation, virtIOBlockDeviceOperation. cbn [snd]. by rewrite Ero, Es, (proj2 (Z.eqb_neq _ _) Eo). }
  destruct (Z.geb_spec (avail_index (queue d) - ack_index d) (Z.of_nat VIRTIO_RING_SIZE)) as [Hge|Hlt].
  { unfold operation, virtIOBlockDeviceOperation. cbn [snd]. rewrite Ero, Es, Eo. cbn [Z.eqb negb orb]. fold d.
    unfold criticalEnter. rewrite (proj2 (Z.eqb_neq task 0)) by done. cbn [negb]. rewrite (proj2 (Z.eqb_neq task 0)) by done.
    by rewrite Z.geb_leb, (proj2 (Z.leb_le _ _)) by lia. }
  by apply operation_ok.
Qed.

(** C26: When the device has finished requests, exactly the tasks of those are
    woken up, each once and with the result its status stands for; the others
    keep waiting, and the entries of the used ring are all taken. *)
Theorem virtIOBlockFreePendingRequests_wakes b :
  0 <= ack_index (virtio b) < 2 ^ 16 -> 0 <= used_index (queue (virtio b)) < 2 ^ 16 ->
  List.length (used_ring (queue (virtio b))) = VIRTIO_RING_SIZE -> NoDup (head <$> requests b) ->
  Forall (fun r => 0 <= status r <= VIRTIO_BLOCK_S_UNKNOWN) (requests b) ->
  let ids := done_ids (virtio b) in
  exists woken b', virtIOBlockFreePendingRequests b = Some (woken, b') /\
    woken ≡ₚ (fun r => (wakeup r, if status r =? VIRTIO_BLOCK_S_OK then SUCCESS
                                  else if status r =? VIRTIO_BLOCK_S_UNSUPP then ENOTSUP else EIO)) <$> completed ids (requests b) /\
    requests b' = remaining ids (requests b) /\ done_ids (virtio b') = [] /\
    descriptors (queue (virtio b')) = descriptors (queue (virtio b)).
Proof.
  intros Ha Hu Hlen Hnd Hst ids. unfold virtIOBlockFreePendingRequests.
  destruct (ack_loop_ok _ b [] Ha Hu Hlen Hnd eq_refl) as (b' & fin & E & Hp & ->). rewrite E. cbn [mbind option_bind].
  rewrite app_nil_r in Hp. fold ids in Hp |- *.
  assert (Hok : Forall (fun r => 0 <= status r <= VIRTIO_BLOCK_S_UNKNOWN) fin).
  { rewrite Hp. by apply completed_Forall. }
  set (f := fun r => (wakeup r, if status r =? VIRTIO_BLOCK_S_OK then SUCCESS
                                else if status r =? VIRTIO_BLOCK_S_UNSUPP then ENOTSUP else EIO)).
  assert (Em : mapM (fun r => e ← request_result r; Some (wakeup r, e)) fin = Some (f <$> fin)).
  { apply mapM_Some_2, Forall2_fmap_r, Forall_Forall2_diag. revert Hok. apply Forall_impl.
    intros r Hr. unfold request_result, f, VIRTIO_BLOCK_S_OK, VIRTIO_BLOCK_S_IOERR, VIRTIO_BLOCK_S_UNSUPP, VIRTIO_BLOCK_S_UNKNOWN in *. unfold compose.
    destruct (Z.eqb_spec (status r) 0), (Z.eqb_spec (status r) 1), (Z.eqb_spec (status r) 2), (Z.eqb_spec (status r) 3);
      try lia; done. }
  match goal with |- context [mapM ?g fin] => change (mapM g fin) with (mapM (fun r => e ← request_result r; Some (wakeup r, e)) fin) end.
  rewrite Em. cbn [mbind option_bind]. eexists _, _. split; [done|]. split; [by rewrite Hp|split; [done|split; [|done]]].
  unfold done_ids. cbn [virtio queue used_index ack_index]. by rewrite Z.sub_diag.
Qed.

(** ** Examples, in the demo memory of [MemSpace] *)

Section Runs.

#[local] Existing Instance PageTable.demo_service.

Definition no_descriptor : VirtIODescriptor := mkDescriptor 0 0 0 0.
Definition new_device : VirtIODevice :=
  mkDevice (mkQueue (replicate VIRTIO_RING_SIZE no_descriptor) 0 (replicate VIRTIO_RING_SIZE 0) 0 (replicate VIRTIO_RING_SIZE 0)) 0 0.
Definition new_block : VirtIOBlockDevice := mkBlock new_device [] false.

(** The parts of a kernel buffer are those the code computes. *)
Lemma splits_kernel a len write parts :
  0 < a -> 0 <= len -> a + len + PAGE_SIZE < 2 ^ 63 -> (List.length parts <= 1000)%nat ->
  getVirtPtrParts demo_zero (virtPtrForKernel 0 a) len 1000 write demo_state =
    Some ((Z.of_nat (List.length parts), parts), demo_state) ->
  splits demo_zero demo_state (virtPtrForKernel 0 a) len write parts.
Proof.
  intros Ha Hl He Hn E.
  destruct (@getVirtPtrParts_ok PageTable.demo_service demo_zero demo_state (virtPtrForKernel 0 a) len write (fun va => va))
    as (ps & _ & _ & Hall); cbn [address virtPtrForKernel virtPtrForKernelConst virtPtrFor]; unfold PAGE_SIZE in *; try (intros; lia); try done.
  enough (ps = parts) as <- by exact Hall.
  rewrite Hall in E. injection E as El Et. assert (List.length ps = List.length parts) by lia.
  rewrite take_ge in Et by lia. done.
Qed.

Definition ex_buffer : VirtPtr := virtPtrForKernel 0 0x21e00.

Lemma virtIOBlockDeviceOperation_queues_witness :
  exists hp dp sp d', virtIOBlockDeviceOperation demo_zero 0 0x20ff8 ex_buffer 4096 1024 false ((demo_state, new_block), 77) =
      Some (None, ((demo_state, mkBlock d' [mkRequest VIRTIO_BLOCK_T_IN 8 VIRTIO_BLOCK_S_UNKNOWN 1 77] false), 0)) /\
    (exists xs, device_chain (List.length (request_chain false hp dp sp)) (descriptors (queue d')) 1 = Some xs /\
       content <$> xs = request_chain false hp dp sp) /\
    request_chain false hp dp sp = [(0x20ff8, 16, 1); (0x21e00, 1024, 3); (0x21020, 1, 2)].
Proof.
  exists [mkPart 0x20ff8 0 16], [mkPart 0x21e00 0 1024], [mkPart 0x21020 0 1].
  pose proof (virtIOBlockDeviceOperation_queues demo_zero 0 demo_state new_block 0x20ff8 77 ex_buffer 4096 1024 false
    [mkPart 0x20ff8 0 16] [mkPart 0x21e00 0 1024] [mkPart 0x21020 0 1]) as H. cbn zeta in H.
  destruct H as (d' & E & Hc & _).
  - split; [done|split; [done|vm_compute; reflexivity]].
  - done.
  - done.
  - done.
  - apply splits_kernel; [lia|vm_compute; done|vm_compute; done|cbn; lia|vm_compute; reflexivity].
  - done.
  - apply splits_kernel; [lia|lia|vm_compute; done|cbn; lia|vm_compute; reflexivity].
  - apply splits_kernel; [vm_compute; done|vm_compute; done|vm_compute; done|cbn; lia|vm_compute; reflexivity].
  - done.
  - vm_compute. lia.
  - exists d'. split; [exact E|split; [exact Hc|done]].
Defined.

(** The device is done with the first of two requests. *)
Definition ex_done : VirtIOBlockDevice :=
  mkBlock (mkDevice (mkQueue (replicate VIRTIO_RING_SIZE no_descriptor) 2 (replicate VIRTIO_RING_SIZE 0) 0
      (<[127%nat := 1]> (replicate VIRTIO_RING_SIZE 0))) 6 65535)
    [mkRequest 0 9 VIRTIO_BLOCK_S_UNKNOWN 4 78; mkRequest 0 8 VIRTIO_BLOCK_S_OK 1 77] false.

Lemma virtIOBlockFreePendingRequests_wakes_witness :
  (exists woken b', virtIOBlockFreePendingRequests ex_done = Some (woken, b') /\
     woken ≡ₚ [(77, SUCCESS)] /\ requests b' = [mkRequest 0 9 VIRTIO_BLOCK_S_UNKNOWN 4 78]).
Proof.
  destruct (virtIOBlockFreePendingRequests_wakes ex_done) as (w & b' & E & Hw & Hr & _).
  - vm_compute. done.
  - vm_compute. done.
  - done.
  - vm_compute. repeat constructor; rewrite ?elem_of_cons; intros ?; destruct_or?; try done; by eapply not_elem_of_nil.
  - repeat constructor; vm_compute; done.
  - exists w, b'. split; [exact E|]. split; [etrans; [exact Hw|vm_compute; reflexivity]|by rewrite Hr; vm_compute].
Defined.

(** Forty-three requests of three descriptors each are accepted, since the
    requests are counted and not their descriptors: the chain of the first is
    overwritten while the device still has to read it. *)
Fixpoint submit (n : nat) (s : space_state * VirtIOBlockDevice) : option (space_state * VirtIOBlockDevice) :=
  match n with
  | O => Some s
  | S n =>
      match virtIOBlockDeviceOperation demo_zero 0 (0x20000 + 64 * Z.of_nat n) ex_buffer 0 512 false (s, 1) with
      | Some (None, (s, _)) => submit n s
      | _ => None
      end
  end.

Definition many_requests : option (option (list (Z * Z * Z))) :=
  match submit 43 (demo_state, new_block) with
  | Some (_, b) => Some (map content <$> device_chain 3 (descriptors (queue (virtio b))) 1)
  | None => None
  end.

Lemma ring_overflows :
  many_requests = Some (Some [(0x20028, 1, 2)]).
Proof. vm_compute. reflexivity. Qed.

(** A device whose 128 requests are all on their way: the task gets EBUSY, but is
    still in the critical section, and its next request fails an assertion. *)
Definition full_block : VirtIOBlockDevice :=
  mkBlock (mkDevice (mkQueue (replicate VIRTIO_RING_SIZE no_descriptor) 128 (replicate VIRTIO_RING_SIZE 0) 0 (replicate VIRTIO_RING_SIZE 0)) 0 0)
    [] false.

Definition read_twice : option (list (option Z) * Z) :=
  match virtIOBlockDeviceOperation demo_zero 0 0x20000 ex_buffer 0 512 false ((demo_state, full_block), 77) with
  | Some (r1, w) =>
      match virtIOBlockDeviceOperation demo_zero 0 0x20000 ex_buffer 0 512 false w with
      | Some (r2, w) => Some ([r1; r2], snd w)
      | None => Some ([r1], snd w)
      end
  | None => None
  end.

Lemma busy_stays_critical : read_twice = Some ([Some EBUSY], 0).
Proof. vm_compute. reflexivity. Qed.

(** The pages of a buffer are looked up for writing when the device reads
    them, and for reading when it writes them: a read into a page that is
    copied on write goes to the zero page that all processes share. *)
Definition read_into_heap : option (list (Z * Z * Z)) :=
  match demo_space demo_state with
  | Some (root, m) =>
      match virtIOBlockDeviceOperation demo_zero 0 0x20000 (virtPtrFor 0x40201000 root) 0 512 false ((m, new_block), 1) with
      | Some (_, ((_, b), _)) => map content <$> device_chain 3 (descriptors (queue (virtio b))) 1
      | None => None
      end
  | None => None
  end.

Lemma read_overwrites_zero_page :
  read_into_heap = Some [(0x20000, 16, 1); (demo_zero, 512, 3); (0x20028, 1, 2)].
Proof. vm_compute. reflexivity. Qed.

End Runs.

End Virtio.
