(* ===== verification/FileSyscall.v ===== *)
(** * FileSyscall: the system calls on files, [kernel/src/files/syscall.c] and
    [kernel/src/files/vfs/file.c]

    The calls join the descriptors of [FileTable] with the paths of [VfsFs].
    What they need of single nodes is behind the class [FileNodes]: reading and
    writing, which [VfsNode] checks and delegates.  The memory of a process is a
    byte for every address.  A call is one step, also when it would wait; the
    node of a file that loses its last reference is closed at the end of the
    operation on the table that drops it. *)
From S2P Require Import Prelude Util CString Errors FileTable VfsFs.
Import Errors VfsFs.

Module FileSyscall.

(** ** Definitions *)

Definition VFS_SEEK_SET : Z := 0.
Definition VFS_SEEK_CUR : Z := 1.
Definition VFS_SEEK_END : Z := 2.

Definition VFS_OPEN_ACCESS_MODE : Z := 0x0003.
Definition VFS_OPEN_DIRECTORY : Z := 0x200000.

Definition EINTR : Z := 4.
Definition ENOTTY : Z := 25.

Definition convertOpenMode (arg : Z) : Z :=
  let flags := u32 arg in
  let access_mode := Z.land (u32 (flags + 1)) VFS_OPEN_ACCESS_MODE in
  Z.lor (Z.ldiff flags VFS_OPEN_ACCESS_MODE) access_mode.

(** What the calls use of nodes and superblocks beyond [Nodes].  The results of
    reads are the bytes that go to the buffer, writes get the bytes in it. *)
Class FileNodes (N : Type) `{Nodes N} : Type := {
  (** The node of a new file: that of the path, or one of its own. *)
  file_node : opened -> R N Z;
  real_node : N -> Z -> Z;
  (** The bytes of [VfsStat]. *)
  stat_bytes : N -> Z -> list Z;
  vfsNodeReadAt : Z -> option Process -> Z -> Z -> bool -> R N (list Z);
  vfsNodeWriteAt : Z -> option Process -> Z -> list Z -> bool -> R N Z;
  (** How far the position moves, and the entries. *)
  vfsNodeReadEntries : Z -> option Process -> Z -> Z -> R N (Z * list Z);
  vfsNodeIoctl : Z -> option Process -> Z -> Z -> R N Z;
  vfsNodeIsReady : N -> Z -> option Process -> bool -> bool;
  vfsSuperWriteNode : Z -> R N unit;
  (** The nodes of the two ends of a pipe. *)
  createPipeFile : R N Z;
  createPipeFileClone : Z -> R N Z;
  vfsCreateSuperblock : option Process -> list Z -> list Z -> Z -> R N Z;
  device_name : Z -> option (list Z);
}.

(** What [FileTable] leaves out of a file. *)
Record FileData := mkData { f_node : Z; f_path : option (list Z); f_offset : Z }.

Section Code.
Context {N : Type} `{FileNodes N}.

Record state := mkState {
  tbl : FileTable.state;
  data : gmap Z FileData;
  fs : vfs (N := N);
  procs : gmap Z Process;
  user : Z -> Z -> Z;
}.

Abbreviation S := (M state).

Definition set_tbl (t : FileTable.state) (s : state) : state := mkState t (data s) (fs s) (procs s) (user s).
Definition set_data (d : gmap Z FileData) (s : state) : state := mkState (tbl s) d (fs s) (procs s) (user s).
Definition set_fs (v : vfs) (s : state) : state := mkState (tbl s) (data s) v (procs s) (user s).
Definition set_procs (p : gmap Z Process) (s : state) : state := mkState (tbl s) (data s) (fs s) p (user s).
Definition set_user (u : Z -> Z -> Z) (s : state) : state := mkState (tbl s) (data s) (fs s) (procs s) u.

Definition gets {A} (f : state -> A) : S A := fun s => Some (f s, s).
Definition modify (f : state -> state) : S unit := fun s => Some (tt, f s).

(** [None] is [NULL]: a task of the kernel. *)
Definition process (q : Z) : S (option Process) := gets (fun s => if q =? 0 then None else procs s !! q).

Definition on_fs {A} (c : R vfs A) : S (result A) := fun s => '(r, v) ← c (fs s); Some (r, set_fs v s).
Definition on_node {A} (c : R N A) : S (result A) := on_fs (on_nodes c).

Definition file_data (f : Z) : S FileData := fun s => d ← data s !! f; Some (d, s).
Definition set_offset (f offset : Z) : S unit :=
  d ← file_data f; modify (fun s => set_data (<[f := mkData (f_node d) (f_path d) offset]> (data s)) s).
Definition table_of {A} (c : M FileTable.state A) : S A := fun s => '(a, t) ← c (tbl s); Some (a, set_tbl t s).

Definition close_gone (f : Z) : S unit :=
  d ← file_data f;
  on_node (vfsNodeClose (f_node d));;
  modify (fun s => set_data (delete f (data s)) s).

Fixpoint for_each (l : list Z) (f : Z -> S unit) : S unit :=
  match l with
  | [] => mret tt
  | i :: l => f i;; for_each l f
  end.

(** An operation on the descriptors and files, and on the nodes of the files that
    it frees. *)
Definition on_table {A} (c : M FileTable.state A) : S A :=
  before ← gets (fun s => FileTable.files (tbl s));
  a ← table_of c;
  after ← gets (fun s => FileTable.files (tbl s));
  for_each (elements (dom before ∖ dom after)) close_gone;;
  mret a.

(** *** User memory *)

Definition write_user (q a : Z) (l : list Z) : S unit :=
  modify (fun s => set_user (fun p => if p =? q then put_bytes (user s q) a l else user s p) s).
Definition read_user (q a n : Z) : S (list Z) := gets (fun s => bytes_at (user s q) a n).

Fixpoint le_bytes (n : nat) (v : Z) : list Z :=
  match n with O => [] | Datatypes.S n => v mod 256 :: le_bytes n (v / 256) end.
Fixpoint le_value (l : list Z) : Z := match l with [] => 0 | b :: l => b + 256 * le_value l end.

Definition writeInt (q a size v : Z) : S unit := write_user q a (le_bytes (Z.to_nat (size / 8)) v).
Definition readInt (q a size : Z) : S Z := l ← read_user q a (size / 8); mret (le_value l).

(** [strlenVirtPtr]; [fuel] is more than the length of any string. *)
Fixpoint strlen_loop (fuel : nat) (m : Z -> Z) (a len : Z) : option Z :=
  match fuel with
  | O => None
  | Datatypes.S fuel => if m (a + len) =? 0 then Some len else strlen_loop fuel m a (len + 1)
  end.

Context (fuel : nat) (kalloc_string : Z -> bool) (kalloc : gset Z -> Z).

(** [None] is [NULL], when there is no memory. *)
Definition copyStringFromSyscallArgs (q ptr : Z) : S (option (list Z)) := fun s =>
  length ← strlen_loop fuel (user s q) ptr 0;
  if kalloc_string (length + 1) then Some (Some (bytes_at (user s q) ptr length), s) else Some (None, s).

(** [SYSCALL_RETURN(-err.kind)] *)
Definition status (r : result unit) : Z := match r with Good _ => - SUCCESS | Bad k => - k end.
Definition value (r : result Z) : Z := match r with Good v => v | Bad k => - k end.

(** [if (string != NULL) k else SYSCALL_RETURN(-EINVAL)] *)
Definition with_string (q ptr : Z) (k : list Z -> S Z) : S Z :=
  string ← copyStringFromSyscallArgs q ptr;
  match string with Some string => k string | None => mret (- EINVAL) end.

(** *** Files, [vfs/file.c] *)

Definition vfsFileClose (f : Z) : S unit := on_table (FileTable.vfsFileClose f).

Definition nonblock (f : Z) : S bool :=
  v ← table_of (FileTable.get_file f); mret (has (FileTable.file_flags v) FileTable.VFS_FILE_NONBLOCK).

Definition vfsFileSeek (f offset whence : Z) : S (result Z) :=
  d ← file_data f;
  if whence =? VFS_SEEK_CUR then
    let pos := u64 (f_offset d + offset) in set_offset f pos;; mret (Good pos)
  else if whence =? VFS_SEEK_SET then set_offset f offset;; mret (Good offset)
  else if whence =? VFS_SEEK_END then
    v ← gets fs;
    let pos := u64 (size (stat_of (store v) (f_node d)) + offset) in set_offset f pos;; mret (Good pos)
  else mret (Bad EINVAL).

Definition vfsFileReadAt (f q buffer offset length : Z) : S (result Z) :=
  d ← file_data f;
  p ← process q;
  nb ← nonblock f;
  r ← on_node (vfsNodeReadAt (f_node d) p offset length (negb nb));
  match r with
  | Good bytes => write_user q buffer bytes;; mret (Good (Z.of_nat (List.length bytes)))
  | Bad k => mret (Bad k)
  end.

Definition vfsFileWriteAt (f q buffer offset length : Z) : S (result Z) :=
  d ← file_data f;
  p ← process q;
  nb ← nonblock f;
  bytes ← read_user q buffer length;
  on_node (vfsNodeWriteAt (f_node d) p offset bytes (negb nb)).

(** [if (!isError(err)) file->offset += n] *)
Definition advance (f : Z) (r : result Z) : S unit :=
  match r with
  | Good n => d ← file_data f; set_offset f (u64 (f_offset d + n))
  | Bad _ => mret tt
  end.

Definition vfsFileRead (f q buffer length : Z) : S (result Z) :=
  d ← file_data f;
  r ← vfsFileReadAt f q buffer (f_offset d) length;
  advance f r;;
  mret r.

Definition vfsFileWrite (f q buffer length : Z) : S (result Z) :=
  d ← file_data f;
  r ← vfsFileWriteAt f q buffer (f_offset d) length;
  advance f r;;
  mret r.

Definition real (f : Z) : S Z :=
  d ← file_data f; v ← gets fs; mret (real_node (store v) (f_node d)).

Definition vfsFileStat (f q ret : Z) : S (result unit) :=
  node ← real f;
  v ← gets fs;
  write_user q ret (stat_bytes (store v) node);;
  mret (Good tt).

Definition vfsFileTrunc (f q size : Z) : S (result unit) :=
  d ← file_data f;
  p ← process q;
  on_node (vfsNodeTrunc (f_node d) p size).

(** [CHECKED(canAccess(node, process, access))], the new attributes, and
    [vfsSuperWriteNode]. *)
Definition change_stat (f q access : Z) (change : VfsStat -> VfsStat) : S (result unit) :=
  node ← real f;
  p ← process q;
  on_fs (
    st ← get_stat node;
    check (canAccess st p access);;
    put_stat node (change st);;
    on_nodes (vfsSuperWriteNode node)).

Definition vfsFileChmod (f q mode_ : Z) : S (result unit) :=
  change_stat f q VFS_ACCESS_CHMOD (fun st =>
    mkStat (Z.lor (Z.land (mode st) VFS_MODE_TYPE) (Z.ldiff mode_ VFS_MODE_TYPE))
      (nlinks st) (uid st) (gid st) (rdev st) (size st)).

Definition vfsFileChown (f q uid_ gid_ : Z) : S (result unit) :=
  change_stat f q VFS_ACCESS_CHOWN (fun st =>
    mkStat (mode st) (nlinks st) (if 0 <=? uid_ then uid_ else uid st) (if 0 <=? gid_ then gid_ else gid st)
      (rdev st) (size st)).

Definition vfsFileReaddir (f q buffer length : Z) : S (result Z) :=
  d ← file_data f;
  p ← process q;
  r ← on_node (vfsNodeReadEntries (f_node d) p (f_offset d) length);
  match r with
  | Good (tmp_size, bytes) =>
      write_user q buffer bytes;;
      advance f (Good tmp_size);;
      mret (Good (Z.of_nat (List.length bytes)))
  | Bad k => mret (Bad k)
  end.

Definition vfsFileIoctl (f q request argp : Z) : S (result Z) :=
  d ← file_data f;
  p ← process q;
  on_node (vfsNodeIoctl (f_node d) p request argp).

Definition vfsFileIsReady (f q : Z) (write : bool) : S bool :=
  d ← file_data f;
  p ← process q;
  gets (fun s => vfsNodeIsReady (store (fs s)) (f_node d) p write).

(** *** System calls on paths *)

Definition unlinkSyscall (q ptr : Z) : S Z :=
  with_string q ptr (fun path =>
  p ← process q;
  r ← on_fs (vfsUnlinkAt p None path);
  mret (status r)).

Definition linkSyscall (q old_ptr new_ptr : Z) : S Z :=
  with_string q old_ptr (fun old =>
  with_string q new_ptr (fun new =>
  p ← process q;
  r ← on_fs (vfsLinkAt p None old None new);
  mret (status r))).

Definition renameSyscall (q old_ptr new_ptr : Z) : S Z :=
  with_string q old_ptr (fun old =>
  with_string q new_ptr (fun new =>
  p ← process q;
  r ← on_fs (vfsLinkAt p None old None new);
  match r with
  | Good _ => r ← on_fs (vfsUnlinkAt p None old); mret (status r)
  | Bad k => mret (- k)
  end)).

Definition mknodSyscall (q ptr mode_ dev : Z) : S Z :=
  with_string q ptr (fun path =>
  p ← process q;
  r ← on_fs (vfsMknodAt p None path (u16 mode_) dev);
  mret (status r)).

(** [if (task->process->user.euid != 0) SYSCALL_RETURN(-EPERM)] *)
Definition only_root (q : Z) (k : S Z) : S Z :=
  p ← process q;
  match p with
  | Some p => if negb (euid p =? 0) then mret (- EPERM) else k
  | None => k
  end.

Definition mountSyscall (q source_ptr target_ptr type_ptr data_ptr : Z) : S Z :=
  only_root q (
  with_string q source_ptr (fun source =>
  with_string q type_ptr (fun type =>
  p ← process q;
  r ← on_node (vfsCreateSuperblock p source type data_ptr);
  match r with
  | Bad k => mret (- k)
  | Good sb =>
      target ← copyStringFromSyscallArgs q target_ptr;
      match target with
      | Some target =>
          r ← on_fs (vfsMount p target sb);
          match r with Bad _ => on_node (vfsSuperClose sb);; mret tt | Good _ => mret tt end;;
          mret (status r)
      | None => on_node (vfsSuperClose sb);; mret (- EINVAL)
      end
  end))).

Definition umountSyscall (q ptr : Z) : S Z :=
  only_root q (
  with_string q ptr (fun path =>
  p ← process q;
  r ← on_fs (vfsUmount p path);
  mret (status r))).

(** A new file with one reference. *)
Definition new_file (node : Z) (path : option (list Z)) (offset flags : Z) : S Z := fun s =>
  let f := kalloc (dom (FileTable.files (tbl s))) in
  let t := tbl s in
  Some (f, set_data (<[f := mkData node path offset]> (data s))
             (set_tbl (FileTable.mkState (FileTable.descs t) (<[f := FileTable.mkFile 1 flags]> (FileTable.files t))
                         (FileTable.tables t)) s)).

Definition opened_path (o : opened) : option (list Z) :=
  match o with
  | FifoFile _ path _ | BlockDeviceFile _ _ path _ | CharDeviceFile _ _ path | RegularFile _ path _ => path
  end.

(** [vfsOpenAt], up to the file it returns. *)
Definition open_node (p : option Process) (path : list Z) (flags mode_ : Z) : R vfs (opened * Z) :=
  o ← vfsOpenAt p None path flags mode_;
  node ← on_nodes (file_node o);
  mret (o, node).

Definition open_file (q : Z) (path : list Z) (flags mode_ : Z) : S (result Z) :=
  p ← process q;
  r ← on_fs (open_node p path flags mode_);
  match r with
  | Bad k => mret (Bad k)
  | Good (o, node) => f ← new_file node (opened_path o) (opened_offset o) 0; mret (Good f)
  end.

Definition openSyscall (q ptr flags_arg mode_ : Z) : S Z :=
  with_string q ptr (fun string =>
  let flags := convertOpenMode flags_arg in
  r ← open_file q string flags (u16 mode_);
  match r with
  | Bad k => mret (- k)
  | Good file =>
      v ← table_of (FileTable.get_file file);
      table_of (FileTable.set_file file (FileTable.mkFile (FileTable.file_refs v)
        (Z.land flags (Z.lor VFS_OPEN_ACCESS_MODE FileTable.VFS_FILE_NONBLOCK))));;
      fd ← on_table (FileTable.putNewFileDescriptor kalloc q (-1)
             (if has flags FileTable.VFS_OPEN_CLOEXEC then FileTable.VFS_DESC_CLOEXEC else 0) file false);
      vfsFileClose file;;
      mret fd
  end).

Definition chdirSyscall (q ptr : Z) : S Z :=
  with_string q ptr (fun path =>
  r ← open_file q path VFS_OPEN_DIRECTORY 0;
  match r with
  | Bad k => mret (- k)
  | Good file =>
      d ← file_data file;
      (fun s => new ← text (f_path d);
         p ← procs s !! q;
         Some (tt, set_procs (<[q := mkProcess (euid p) (egid p) (umask p) new]> (procs s)) s));;
      vfsFileClose file;;
      mret (- SUCCESS)
  end).

Definition getcwdSyscall (q buff length : Z) : S Z :=
  p ← process q;
  match p with
  | None => fault
  | Some p =>
      write_user q buff (take (Z.to_nat (Z.min length (Z.of_nat (List.length (cwd p)) + 1))) (cwd p ++ [0]));;
      mret (- SUCCESS)
  end.

Definition umaskSyscall (q mask : Z) : S Z := fun s =>
  p ← procs s !! q;
  Some (umask p, set_procs (<[q := mkProcess (euid p) (egid p) (Z.land mask 0x1ff) (cwd p)]> (procs s)) s).

Definition pipeSyscall (q arr : Z) : S Z :=
  r ← on_node createPipeFile;
  match r with
  | Bad _ => fault
  | Good read_node =>
      file_read ← new_file read_node None 0 0;
      w ← on_node (createPipeFileClone read_node);
      match w with
      | Bad _ => fault
      | Good write_node =>
          file_write ← new_file write_node None 0 0;
          table_of (FileTable.set_file file_read (FileTable.mkFile 1 FileTable.VFS_FILE_READ));;
          table_of (FileTable.set_file file_write (FileTable.mkFile 1 FileTable.VFS_FILE_WRITE));;
          pipe_read ← on_table (FileTable.putNewFileDescriptor kalloc q (-1) 0 file_read false);
          pipe_write ← on_table (FileTable.putNewFileDescriptor kalloc q (-1) 0 file_write false);
          vfsFileClose file_read;;
          vfsFileClose file_write;;
          writeInt q arr 32 pipe_read;;
          writeInt q (arr + 4) 32 pipe_write;;
          mret (- SUCCESS)
      end
  end.

(** *** System calls on descriptors *)

(** [FILE_SYSCALL_OP(READ, WRITE)]; the rest of the call gets the descriptor and
    its file. *)
Definition file_syscall_op (READ WRITE : bool) (q fd : Z) (k : Z -> Z -> S Z) : S Z :=
  desc ← on_table (FileTable.getFileDescriptor q (s32 fd));
  if negb (desc =? 0) then
    d ← table_of (FileTable.get_desc desc);
    f ← table_of (FileTable.get_file (FileTable.desc_file d));
    if (Z.land (FileTable.file_flags f) FileTable.VFS_FILE_WRITE =? 0) && WRITE then
      on_table (FileTable.vfsFileDescriptorClose desc);; mret (- FileTable.EBADF)
    else if (Z.land (FileTable.file_flags f) FileTable.VFS_FILE_READ =? 0) && READ then
      on_table (FileTable.vfsFileDescriptorClose desc);; mret (- FileTable.EBADF)
    else k desc (FileTable.desc_file d)
  else mret (- FileTable.EBADF).

(** [vfsFileDescriptorClose(task->process, desc); SYSCALL_RETURN(...)] *)
Definition file_operation {A} (READ WRITE : bool) (q fd : Z) (op : Z -> S A) (ret : A -> Z) : S Z :=
  file_syscall_op READ WRITE q fd (fun desc file =>
  r ← op file;
  on_table (FileTable.vfsFileDescriptorClose desc);;
  mret (ret r)).

Definition closeSyscall (q fd : Z) : S Z := on_table (FileTable.closeSyscall q fd).
Definition dupSyscall (q fd id flags : Z) : S Z := on_table (FileTable.dupSyscall kalloc q fd id flags).
Definition fcntlSyscall (q fd request arg : Z) : S Z := on_table (FileTable.fcntlSyscall kalloc q fd request arg).

Definition readSyscall (q fd buffer length : Z) : S Z :=
  file_operation true false q fd (fun f => vfsFileRead f q buffer length) value.
Definition writeSyscall (q fd buffer length : Z) : S Z :=
  file_operation false true q fd (fun f => vfsFileWrite f q buffer length) value.
Definition seekSyscall (q fd offset whence : Z) : S Z :=
  file_operation false false q fd (fun f => vfsFileSeek f offset (u32 whence)) value.
Definition statSyscall (q fd ptr : Z) : S Z :=
  file_operation false false q fd (fun f => vfsFileStat f q ptr) status.
Definition truncSyscall (q fd size : Z) : S Z :=
  file_operation false true q fd (fun f => vfsFileTrunc f q size) status.
Definition chmodSyscall (q fd mode_ : Z) : S Z :=
  file_operation false true q fd (fun f => vfsFileChmod f q (u16 mode_)) status.
Definition chownSyscall (q fd uid_ gid_ : Z) : S Z :=
  file_operation false true q fd (fun f => vfsFileChown f q (s32 uid_) (s32 gid_)) status.
Definition readdirSyscall (q fd buffer length : Z) : S Z :=
  file_operation true false q fd (fun f => vfsFileReaddir f q buffer length) value.
Definition ioctlSyscall (q fd request argp : Z) : S Z :=
  file_operation false false q fd (fun f => vfsFileIoctl f q request argp) value.

Definition isattySyscall (q fd : Z) : S Z :=
  file_operation false false q fd (fun f =>
    d ← file_data f;
    gets (fun s =>
      let st := stat_of (store (fs s)) (f_node d) in
      (MODE_TYPE (mode st) =? VFS_TYPE_CHAR) && bool_decide (device_name (rdev st) = Some (cstr "tty"))))
    (fun b : bool => if b then - SUCCESS else - ENOTTY).

(** *** [select] *)

(** One of the two tests for the number [i]: [Good] is the new set and whether the
    file is ready. *)
Definition select_test (q i access : Z) (write : bool) (set : Z) : S (result (Z * bool)) :=
  desc ← table_of (FileTable.getFileDescriptorUnsafe q i);
  if desc =? 0 then mret (Bad FileTable.EBADF)
  else
    d ← table_of (FileTable.get_desc desc);
    f ← table_of (FileTable.get_file (FileTable.desc_file d));
    if Z.land (FileTable.file_flags f) access =? 0 then mret (Bad FileTable.EBADF)
    else
      ready ← vfsFileIsReady (FileTable.desc_file d) q write;
      mret (Good (if ready : bool then set else Z.clearbit set i, ready)).

(** The loop; a shift by as many bits as the type has is undefined: [1UL << i] has
    64, [1 << i] has 32 and a sign. *)
Fixpoint select_loop (n : nat) (q i reads writes num_ready : Z) : S (result (Z * Z * Z)) :=
  match n with
  | O => mret (Good (reads, writes, num_ready))
  | Datatypes.S n =>
      massert (i <? 31);;
      r ← (if Z.testbit reads i then select_test q i FileTable.VFS_FILE_READ false reads
           else mret (Good (reads, false)));
      match r with
      | Bad k => mret (Bad k)
      | Good (reads, ready) =>
          let num_ready := num_ready + Z.b2z ready in
          w ← (if Z.testbit writes i then select_test q i FileTable.VFS_FILE_WRITE true writes
               else mret (Good (writes, false)));
          match w with
          | Bad k => mret (Bad k)
          | Good (writes, ready) => select_loop n q (i + 1) reads writes (num_ready + Z.b2z ready)
          end
      end
  end.

Definition write_sets (q reads_ptr writes_ptr excepts_ptr reads writes : Z) : S unit :=
  writeInt q reads_ptr 64 reads;;
  writeInt q writes_ptr 64 writes;;
  writeInt q excepts_ptr 64 0.

(** Whether the task wakes up, and then what the call returns.  [signalled] is
    whether a signal is pending, [timeout] is in clock ticks, [None] for none. *)
Definition handleSelectWakeup (q : Z) (signalled : bool) (num_fds reads_ptr writes_ptr excepts_ptr : Z)
    (entered now : Z) (timeout : option Z) : S (option Z) :=
  if signalled then mret (Some (- EINTR))
  else
    reads ← readInt q reads_ptr 64;
    writes ← readInt q writes_ptr 64;
    r ← select_loop (Z.to_nat num_fds) q 0 reads writes 0;
    match r with
    | Bad k => mret (Some (- k))
    | Good (reads, writes, num_ready) =>
        if negb (num_ready =? 0) then
          write_sets q reads_ptr writes_ptr excepts_ptr reads writes;;
          mret (Some num_ready)
        else
          match timeout with
          | Some timeout =>
              if u64 (entered + timeout) <=? now then
                write_sets q reads_ptr writes_ptr excepts_ptr 0 0;;
                mret (Some 0)
              else mret None
          | None => mret None
          end
    end.

End Code.

(** ** Lemmas on descriptors *)

Definition renew (d : FileTable.VfsFileDescriptor) : FileTable.VfsFileDescriptor :=
  FileTable.mkDesc (FileTable.desc_id d) (FileTable.desc_flags d) (FileTable.desc_file d) (FileTable.desc_refs d + 1).

(** Descriptors are not at [NULL], and there is room for one more reference. *)
Record held (t : FileTable.state) : Prop := {
  held_ok : FileTable.ok t;
  held_null : forall p, is_Some (FileTable.descs t !! p) -> p <> 0;
  held_room : forall p d, FileTable.descs t !! p = Some d -> FileTable.desc_refs d < 2 ^ 64 - 1 }.

Lemma tmap_lookup vs fd e : FileTable.ascending vs ->
  FileTable.tmap vs !! fd = Some e -> exists d, d ∈ vs /\ FileTable.desc_id d = fd /\ (FileTable.desc_flags d, FileTable.desc_file d) = e.
Proof.
  induction vs as [|d vs IH]; intros Ha Hl; [done|].
  rewrite FileTable.tmap_cons in Hl. apply lookup_insert_Some in Hl as [[H1 H2]|[_ Hl]].
  - exists d. split; [by left|done].
  - destruct Ha as [_ Ha]. destruct (IH Ha Hl) as (d' & ? & ?). exists d'. split; [by right|done].
Qed.

Lemma find_descriptor t q fd : held t ->
  match FileTable.fds t q !! fd with
  | Some (fl, f) => exists p d, FileTable.getFileDescriptorUnsafe q fd t = Some (p, t) /\ p <> 0 /\
      FileTable.descs t !! p = Some d /\ FileTable.desc_file d = f /\ FileTable.desc_flags d = fl
  | None => FileTable.getFileDescriptorUnsafe q fd t = Some (0, t)
  end.
Proof.
  intros [Hok Hnull Hroom]. destruct (FileTable.split_at t q fd Hok) as (la & lb & va & vb & E & Et & Ha & Hb & Hasc & H1 & H2).
  assert (Hf : FileTable.fds t q = FileTable.tmap (va ++ vb)).
  { apply FileTable.fds_rep. rewrite Et. by apply FileTable.rep_join. }
  unfold FileTable.getFileDescriptorUnsafe, FileTable.whole, FileTable.lift, mbind, M_bind. cbn [option_bind]. rewrite E. cbn [option_bind].
  rewrite Hf. apply FileTable.ascending_app in Hasc as (Aa & Ab & _).
  destruct Hb as [|p d lb vb Hp Hb]; cbn [FileTable.head_is option_bind mret M_ret].
  - rewrite app_nil_r. rewrite FileTable.tmap_none; [done|]. eapply Forall_impl; [|exact H1]. cbn. lia.
  - cbn [FileTable.head_is]. rewrite Hp. cbn. apply Forall_cons_1 in H2 as [Hd H2].
    assert (Hva : Forall (fun x => FileTable.desc_id x <> fd) va) by (eapply Forall_impl; [|exact H1]; cbn; lia).
    destruct (Z.eqb_spec (FileTable.desc_id d) fd) as [<-|Hne]; cbn.
    + rewrite FileTable.tmap_insert, lookup_insert_eq by done. exists p, d. split_and!; try done. apply Hnull. by eexists.
    + rewrite FileTable.tmap_none; [done|]. apply Forall_app. split; [done|].
      pose proof (FileTable.above_head d vb fd Ab ltac:(lia)) as Hab. eapply Forall_impl; [|exact Hab]. cbn. lia.
Qed.

Definition holding (t : FileTable.state) (p : Z) (d : FileTable.VfsFileDescriptor) : FileTable.state :=
  FileTable.mkState (<[p := renew d]> (FileTable.descs t)) (FileTable.files t) (FileTable.tables t).

(** A call holds the descriptor while it works, and leaves the table as it was. *)
Lemma getFileDescriptor_ok t q fd : held t ->
  match FileTable.fds t q !! fd with
  | Some (fl, f) => exists p d v, FileTable.getFileDescriptor q fd t = Some (p, holding t p d) /\ p <> 0 /\
      FileTable.desc_file d = f /\ FileTable.files t !! f = Some v /\
      FileTable.descs (holding t p d) !! p = Some (renew d) /\
      FileTable.vfsFileDescriptorClose p (holding t p d) = Some (tt, t)
  | None => FileTable.getFileDescriptor q fd t = Some (0, t)
  end.
Proof.
  intros Ht. pose proof (find_descriptor t q fd Ht) as Hfind. destruct Ht as [Hok Hnull Hroom].
  unfold FileTable.getFileDescriptor. destruct (FileTable.fds t q !! fd) as [[fl f]|].
  2: by rewrite (bind_some _ _ _ _ _ Hfind).
  destruct Hfind as (p & d & E & Hp0 & Hp & Hf & _). rewrite (bind_some _ _ _ _ _ E).
  rewrite (proj2 (Z.eqb_neq p 0)) by done.
  destruct (FileTable.ok_desc t Hok p d Hp) as [_ Hd]. pose proof (Hroom p d Hp) as Hr.
  destruct (FileTable.ok_file t Hok p d Hp) as [v Hv]. rewrite Hf in Hv.
  assert (El : FileTable.descs (holding t p d) !! p = Some (renew d)) by apply lookup_insert_eq.
  exists p, d, v. split_and!; try done.
  - unfold FileTable.vfsFileDescriptorCopy, FileTable.get_desc, FileTable.set_desc, mbind, M_bind. rewrite Hp. cbn [mbind option_bind].
    rewrite (wrap_small 64) by lia. done.
  - unfold FileTable.vfsFileDescriptorClose, FileTable.get_desc, FileTable.set_desc, mbind, M_bind. rewrite El. cbn [mbind option_bind].
    cbn [renew FileTable.desc_id FileTable.desc_flags FileTable.desc_file FileTable.desc_refs].
    rewrite (wrap_small 64) by lia. rewrite (proj2 (Z.eqb_neq _ _)) by lia. unfold holding. cbn.
    rewrite insert_insert_eq, Z.add_simpl_r. destruct d; cbn in *. rewrite insert_id by done. by destruct t.
Qed.

(** ** Operations on files do not look at descriptors *)

Section Proofs.
Context {N : Type} `{FileNodes N}.

Abbreviation St := (state (N := N)).

(** The table stays as it is, and its descriptors do not matter. *)
Class Independent {A} (c : M St A) : Prop := {
  independent : forall s t, FileTable.files t = FileTable.files (tbl s) ->
    c (set_tbl t s) = '(a, s') ← c s; Some (a, set_tbl t s');
  unchanged : forall s a s', c s = Some (a, s') -> tbl s' = tbl s }.

#[global] Instance ret_independent {A} (a : A) : Independent (mret (M := M St) a).
Proof. split; [done|]. by intros s ? ? [= _ <-]. Qed.

#[global] Instance bind_independent {A B} (c : M St A) (k : A -> M St B) :
  Independent c -> (forall a, Independent (k a)) -> Independent (mbind (M := M St) k c).
Proof.
  intros [C1 C2] K. split.
  - intros s t Ht. unfold mbind, M_bind. rewrite C1 by done. destruct (c s) as [[a s1]|] eqn:E; [|done]. cbn.
    apply K. by rewrite (C2 _ _ _ E).
  - intros s b s2. unfold mbind, M_bind. destruct (c s) as [[a s1]|] eqn:E; [|done]. intros E2.
    destruct (K a) as [_ K2]. by rewrite (K2 _ _ _ E2), (C2 _ _ _ E).
Qed.

#[global] Instance gets_independent {A} (f : St -> A) :
  (forall s t, f (set_tbl t s) = f s) -> Independent (gets f).
Proof. intros Hf. split; [by intros s t _; unfold gets; rewrite Hf|]. by intros s ? ? [= _ <-]. Qed.

#[global] Instance modify_independent (f : St -> St) :
  (forall s t, f (set_tbl t s) = set_tbl t (f s)) -> (forall s, tbl (f s) = tbl s) -> Independent (modify f).
Proof. intros H1 H2. split; [by intros s t _; unfold modify; rewrite H1|]. by intros s ? ? [= _ <-]. Qed.

#[global] Instance process_independent q : Independent (process q).
Proof. by apply gets_independent. Qed.

#[global] Instance fs_independent : Independent (gets fs).
Proof. by apply gets_independent. Qed.

#[global] Instance on_fs_independent {A} (c : R vfs A) : Independent (on_fs c).
Proof.
  split.
  - intros s t _. unfold on_fs. cbn [set_tbl fs]. by destruct (c (fs s)) as [[r v]|].
  - intros s a s'. unfold on_fs. destruct (c (fs s)) as [[r v]|]; [|done]. by intros [= _ <-].
Qed.

#[global] Instance file_data_independent f : Independent (file_data f).
Proof.
  split; unfold file_data; [intros s t _; cbn [set_tbl data]; by destruct (data s !! f)|].
  intros s a s'. destruct (data s !! f); [|done]. by intros [= _ <-].
Qed.

#[global] Instance set_offset_independent f offset : Independent (set_offset f offset).
Proof. apply bind_independent; [apply _|]. intros d. by apply modify_independent. Qed.

#[global] Instance write_user_independent q a l : Independent (write_user q a l).
Proof. by apply modify_independent. Qed.

#[global] Instance read_user_independent q a n : Independent (read_user q a n).
Proof. by apply gets_independent. Qed.

#[global] Instance nonblock_independent f : Independent (nonblock f).
Proof.
  unfold nonblock, table_of, FileTable.get_file. split.
  - intros s t Ht. unfold mbind, M_bind. cbn [set_tbl tbl]. rewrite Ht.
    by destruct (FileTable.files (tbl s) !! f); cbn.
  - intros s a s'. unfold mbind, M_bind. destruct (FileTable.files (tbl s) !! f); cbn; [|done]. intros [= _ <-]. by destruct s as [[]].
Qed.

#[global] Instance advance_independent f r : Independent (advance f r).
Proof. destruct r; apply _. Qed.

#[global] Instance match_result_independent {A B} (r : result A) (k : A -> M St B) (e : Z -> M St B) :
  (forall a, Independent (k a)) -> (forall z, Independent (e z)) ->
  Independent (match r with Good a => k a | Bad z => e z end).
Proof. by destruct r. Qed.

#[global] Instance if_independent {A} (b : bool) (c1 c2 : M St A) :
  Independent c1 -> Independent c2 -> Independent (if b then c1 else c2).
Proof. by destruct b. Qed.

#[global] Instance read_independent f q buffer length : Independent (vfsFileRead f q buffer length).
Proof. unfold vfsFileRead, vfsFileReadAt, on_node. apply _. Qed.

#[global] Instance write_independent f q buffer length : Independent (vfsFileWrite f q buffer length).
Proof. unfold vfsFileWrite, vfsFileWriteAt, on_node. apply _. Qed.

#[global] Instance seek_independent f offset whence : Independent (vfsFileSeek f offset whence).
Proof. unfold vfsFileSeek. cbn zeta. apply _. Qed.

#[global] Instance stat_independent f q ret : Independent (vfsFileStat f q ret).
Proof. unfold vfsFileStat, real. apply _. Qed.

#[global] Instance trunc_independent f q size : Independent (vfsFileTrunc f q size).
Proof. unfold vfsFileTrunc, on_node. apply _. Qed.

#[global] Instance chmod_independent f q mode_ : Independent (vfsFileChmod f q mode_).
Proof. unfold vfsFileChmod, change_stat, real. apply _. Qed.

#[global] Instance chown_independent f q uid_ gid_ : Independent (vfsFileChown f q uid_ gid_).
Proof. unfold vfsFileChown, change_stat, real. apply _. Qed.

#[global] Instance ioctl_independent f q request argp : Independent (vfsFileIoctl f q request argp).
Proof. unfold vfsFileIoctl, on_node. apply _. Qed.

Lemma set_tbl_id (s : St) : set_tbl (tbl s) s = s.
Proof. by destruct s. Qed.

Lemma set_tbl_twice t t' (s : St) : set_tbl t (set_tbl t' s) = set_tbl t s.
Proof. done. Qed.

Lemma on_table_same {A} (c : M FileTable.state A) (s : St) a t :
  c (tbl s) = Some (a, t) -> dom (FileTable.files (tbl s)) ⊆ dom (FileTable.files t) -> on_table c s = Some (a, set_tbl t s).
Proof.
  intros E Hd. unfold on_table, table_of, gets, mbind, M_bind. rewrite E. cbn [option_bind set_tbl tbl].
  assert (X : dom (FileTable.files (tbl s)) ∖ dom (FileTable.files t) = ∅) by set_solver.
  rewrite X, elements_empty. done.
Qed.

Definition permits (v : FileTable.VfsFile) (READ WRITE : bool) : bool :=
  negb ((Z.land (FileTable.file_flags v) FileTable.VFS_FILE_WRITE =? 0) && WRITE) &&
  negb ((Z.land (FileTable.file_flags v) FileTable.VFS_FILE_READ =? 0) && READ).

(** The file behind a number, if the call may use it. *)
Definition usable (t : FileTable.state) (q fd : Z) (READ WRITE : bool) : option Z :=
  '(_, f) ← FileTable.fds t q !! fd;
  v ← FileTable.files t !! f;
  if permits v READ WRITE then Some f else None.

Lemma file_operation_ok {A} READ WRITE q fd (op : Z -> M St A) ret s :
  held (tbl s) -> (forall f, Independent (op f)) ->
  file_operation READ WRITE q fd op ret s =
    match usable (tbl s) q (s32 fd) READ WRITE with
    | Some f => '(r, s') ← op f s; Some (ret r, s')
    | None => Some (- FileTable.EBADF, s)
    end.
Proof.
  intros Hh Hop. pose proof (getFileDescriptor_ok (tbl s) q (s32 fd) Hh) as Hg. unfold usable, file_operation, file_syscall_op.
  destruct (FileTable.fds (tbl s) q !! s32 fd) as [[fl f]|].
  2: { rewrite (bind_some _ _ _ _ _ (on_table_same _ _ _ _ Hg ltac:(done))). cbn. by rewrite set_tbl_id. }
  destruct Hg as (p & d & v & Eg & Hp & Hdf & Hv & Hd & Ec). cbn [mbind option_bind]. rewrite Hv. cbn [mbind option_bind].
  set (t := holding (tbl s) p d) in *.
  rewrite (bind_some _ _ _ _ _ (on_table_same _ _ _ _ Eg ltac:(done))).
  rewrite (proj2 (Z.eqb_neq p 0)) by done. cbn [negb].
  assert (Ed : table_of (FileTable.get_desc p) (set_tbl t s) = Some (renew d, set_tbl t s)).
  { unfold table_of, FileTable.get_desc. cbn [set_tbl tbl]. by rewrite Hd. }
  rewrite (bind_some _ _ _ _ _ Ed). cbn [renew FileTable.desc_file]. rewrite Hdf.
  assert (Ev : table_of (FileTable.get_file f) (set_tbl t s) = Some (v, set_tbl t s)).
  { unfold table_of, FileTable.get_file. cbn [set_tbl tbl t holding FileTable.files]. by rewrite Hv. }
  rewrite (bind_some _ _ _ _ _ Ev).
  assert (Eclose : forall s', tbl s' = t -> on_table (FileTable.vfsFileDescriptorClose p) s' = Some (tt, set_tbl (tbl s) s')).
  { intros s' Hs'. apply on_table_same; [by rewrite Hs'|]. by rewrite Hs'. }
  unfold permits.
  destruct ((Z.land (FileTable.file_flags v) FileTable.VFS_FILE_WRITE =? 0) && WRITE); cbn [negb andb].
  { rewrite (bind_some _ _ _ _ _ (Eclose (set_tbl t s) ltac:(done))). cbn. by rewrite set_tbl_twice, set_tbl_id. }
  destruct ((Z.land (FileTable.file_flags v) FileTable.VFS_FILE_READ =? 0) && READ); cbn [negb andb].
  { rewrite (bind_some _ _ _ _ _ (Eclose (set_tbl t s) ltac:(done))). cbn. by rewrite set_tbl_twice, set_tbl_id. }
  destruct (Hop f) as [H1 H2]. unfold mbind at 1, M_bind. rewrite H1 by done.
  destruct (op f s) as [[r s']|] eqn:E; [|done]. cbn [mbind option_bind].
  unfold mbind, M_bind. rewrite (Eclose (set_tbl t s') ltac:(done)). cbn. rewrite set_tbl_twice.
  by rewrite <- (H2 _ _ _ E), set_tbl_id.
Qed.

Lemma on_node_run {A} (c : R N A) (s : St) r n :
  c (store (fs s)) = Some (r, n) ->
  on_node c s = Some (r, set_fs (mkVfs n (mounted (fs s)) (root_mounted (fs s)) (tmp_mounted (fs s))) s).
Proof. intros E. unfold on_node, on_fs, on_nodes, on. by rewrite E. Qed.

(** The state after the nodes have changed to [n], the file [f] has got the
    position [offset] and the bytes [l] were put at [a] in the memory of [q]. *)
Definition with_node (n : N) (s : St) : St :=
  set_fs (mkVfs n (mounted (fs s)) (root_mounted (fs s)) (tmp_mounted (fs s))) s.
Definition with_offset (f : Z) (d : FileData) (offset : Z) (s : St) : St :=
  set_data (<[f := mkData (f_node d) (f_path d) offset]> (data s)) s.
Definition with_bytes (q a : Z) (l : list Z) (s : St) : St :=
  set_user (fun p => if p =? q then put_bytes (user s q) a l else user s p) s.

Lemma file_data_run f d (s : St) : data s !! f = Some d -> file_data f s = Some (d, s).
Proof. intros E. unfold file_data. by rewrite E. Qed.

Lemma set_offset_run f d offset (s : St) : data s !! f = Some d -> set_offset f offset s = Some (tt, with_offset f d offset s).
Proof. intros E. unfold set_offset. by rewrite (bind_some _ _ _ _ _ (file_data_run f d s E)). Qed.

Lemma nonblock_run f v (s : St) : FileTable.files (tbl s) !! f = Some v ->
  nonblock f s = Some (has (FileTable.file_flags v) FileTable.VFS_FILE_NONBLOCK, s).
Proof.
  intros E. unfold nonblock, table_of, FileTable.get_file, mbind, M_bind. rewrite E. cbn. by rewrite set_tbl_id.
Qed.

Definition caller (s : St) (q : Z) : option Process := if q =? 0 then None else procs s !! q.

Lemma process_run q (s : St) : process q s = Some (caller s q, s).
Proof. done. Qed.

Lemma read_user_run q a n (s : St) : read_user q a n s = Some (bytes_at (user s q) a n, s).
Proof. done. Qed.

Lemma write_user_run q a l (s : St) : write_user q a l s = Some (tt, with_bytes q a l s).
Proof. done. Qed.

Lemma vfsFileRead_run f q buffer len d v (s : St) :
  data s !! f = Some d -> FileTable.files (tbl s) !! f = Some v ->
  vfsFileRead f q buffer len s =
    match vfsNodeReadAt (f_node d) (caller s q) (f_offset d) len
            (negb (has (FileTable.file_flags v) FileTable.VFS_FILE_NONBLOCK)) (store (fs s)) with
    | Some (Good bytes, n) =>
        Some (Good (Z.of_nat (List.length bytes)),
          with_offset f d (u64 (f_offset d + Z.of_nat (List.length bytes))) (with_bytes q buffer bytes (with_node n s)))
    | Some (Bad k, n) => Some (Bad k, with_node n s)
    | None => None
    end.
Proof.
  intros Hd Hv. unfold vfsFileRead. rewrite (bind_some _ _ _ _ _ (file_data_run f d s Hd)).
  unfold vfsFileReadAt. rewrite bind_assoc, (bind_some _ _ _ _ _ (file_data_run f d s Hd)).
  rewrite bind_assoc, (bind_some _ _ _ _ _ (process_run q s)).
  rewrite bind_assoc, (bind_some _ _ _ _ _ (nonblock_run f v s Hv)), bind_assoc.
  destruct (vfsNodeReadAt _ _ _ _ _ (store (fs s))) as [[[bytes|k] n]|] eqn:E.
  - rewrite (bind_some _ _ _ _ _ (on_node_run _ _ _ _ E)). fold (with_node n s).
    rewrite bind_assoc, (bind_some _ _ _ _ _ (write_user_run q buffer bytes (with_node n s))), bind_ret. cbn [advance]. rewrite bind_assoc. rewrite (bind_some _ _ _ _ _ (file_data_run f d (with_bytes q buffer bytes (with_node n s)) Hd)).
    by rewrite (bind_some _ _ _ _ _ (set_offset_run f d _ (with_bytes q buffer bytes (with_node n s)) Hd)).
  - by rewrite (bind_some _ _ _ _ _ (on_node_run _ _ _ _ E)).
  - unfold mbind, M_bind, on_node, on_fs, on_nodes, on. by rewrite E.
Qed.

Lemma vfsFileWrite_run f q buffer len d v (s : St) :
  data s !! f = Some d -> FileTable.files (tbl s) !! f = Some v ->
  vfsFileWrite f q buffer len s =
    match vfsNodeWriteAt (f_node d) (caller s q) (f_offset d) (bytes_at (user s q) buffer len)
            (negb (has (FileTable.file_flags v) FileTable.VFS_FILE_NONBLOCK)) (store (fs s)) with
    | Some (Good w, n) => Some (Good w, with_offset f d (u64 (f_offset d + w)) (with_node n s))
    | Some (Bad k, n) => Some (Bad k, with_node n s)
    | None => None
    end.
Proof.
  intros Hd Hv. unfold vfsFileWrite. rewrite (bind_some _ _ _ _ _ (file_data_run f d s Hd)).
  unfold vfsFileWriteAt. rewrite bind_assoc, (bind_some _ _ _ _ _ (file_data_run f d s Hd)).
  rewrite bind_assoc, (bind_some _ _ _ _ _ (process_run q s)).
  rewrite bind_assoc, (bind_some _ _ _ _ _ (nonblock_run f v s Hv)), bind_assoc.
  rewrite (bind_some _ _ _ _ _ (read_user_run q buffer len s)).
  destruct (vfsNodeWriteAt _ _ _ _ _ (store (fs s))) as [[[w|k] n]|] eqn:E.
  - rewrite (bind_some _ _ _ _ _ (on_node_run _ _ _ _ E)). fold (with_node n s). cbn [advance]. rewrite bind_assoc.
    rewrite (bind_some _ _ _ _ _ (file_data_run f d (with_node n s) Hd)).
    by rewrite (bind_some _ _ _ _ _ (set_offset_run f d _ (with_node n s) Hd)).
  - by rewrite (bind_some _ _ _ _ _ (on_node_run _ _ _ _ E)).
  - unfold mbind, M_bind, on_node, on_fs, on_nodes, on. by rewrite E.
Qed.

(** ** Reading, writing and seeking: what a user is promised *)

Inductive call : Type :=
| Read (q fd buffer length : Z)
| Write (q fd buffer length : Z)
| Seek (q fd offset whence : Z).

Definition call_ok (c : call) : Prop :=
  match c with
  | Read _ _ _ length | Write _ _ _ length => 0 <= length
  | Seek _ _ offset _ => 0 <= offset < 2 ^ 64
  end.

Definition run_call (c : call) : M St Z :=
  match c with
  | Read q fd buffer length => readSyscall q fd buffer length
  | Write q fd buffer length => writeSyscall q fd buffer length
  | Seek q fd offset whence => seekSyscall q fd offset whence
  end.

Fixpoint run_calls (l : list call) : M St (list Z) :=
  match l with
  | [] => mret []
  | c :: l => r ← run_call c; rs ← run_calls l; mret (r :: rs)
  end.

(** The bytes [l] put at [offset]; a gap is filled with zeros. *)
Definition write_at (offset : Z) (l old : list Z) : list Z :=
  let o := Z.to_nat offset in
  take o (old ++ replicate (o - List.length old) 0) ++ l ++ drop (o + List.length l) old.

(** What regular files are, whatever stores them. *)
Class FileLaws : Type := {
  regular : Z -> Prop;
  content : N -> Z -> list Z;
  read_law : forall node p offset len block n, regular node -> 0 <= offset -> 0 <= len ->
    exists r n', vfsNodeReadAt node p offset len block n = Some (r, n') /\
      (forall x, regular x -> content n' x = content n x) /\
      match r with
      | Good bytes => bytes = take (Z.to_nat len) (drop (Z.to_nat offset) (content n node))
      | Bad k => 0 < k
      end;
  write_law : forall node p offset l block n, regular node -> 0 <= offset ->
    exists r n', vfsNodeWriteAt node p offset l block n = Some (r, n') /\
      (forall x, regular x -> x <> node -> content n' x = content n x) /\
      match r with
      | Good w => 0 <= w <= Z.of_nat (List.length l) /\
          content n' node = write_at offset (take (Z.to_nat w) l) (content n node)
      | Bad k => 0 < k
      end;
  size_law : forall node n, regular node -> size (stat_of n node) = Z.of_nat (List.length (content n node)) }.

Section Calls.
Context `{L : FileLaws}.

(** Files have positions, which all numbers of a file share, nodes have
    contents. *)
Record posix := mkPosix { position : Z -> Z; contents : Z -> list Z; memory : Z -> Z -> Z }.

Definition call_file (t : FileTable.state) (c : call) : option Z :=
  match c with
  | Read q fd _ _ => usable t q (s32 fd) true false
  | Write q fd _ _ => usable t q (s32 fd) false true
  | Seek q fd _ _ => usable t q (s32 fd) false false
  end.

Definition seek_to (st : posix) (f node offset whence : Z) : option Z :=
  if whence =? VFS_SEEK_CUR then Some (u64 (position st f + offset))
  else if whence =? VFS_SEEK_SET then Some offset
  else if whence =? VFS_SEEK_END then Some (u64 (Z.of_nat (List.length (contents st node)) + offset))
  else None.

Definition moves (f pos : Z) (st st' : posix) : Prop :=
  forall x, position st' x = if x =? f then pos else position st x.
Definition same_contents (st st' : posix) : Prop := forall x, regular x -> contents st' x = contents st x.
Definition same_others (node : Z) (st st' : posix) : Prop :=
  forall x, regular x -> x <> node -> contents st' x = contents st x.

(** One call over the descriptors [t], where [node f] is the node of the file
    [f]: what it returns and what it changes. *)
Inductive posix_call (t : FileTable.state) (node : Z -> Z) : call -> posix -> Z -> posix -> Prop :=
| P_no_file c st : call_file t c = None -> posix_call t node c st (- FileTable.EBADF) st
| P_read q fd buffer len st st' f bytes :
    usable t q (s32 fd) true false = Some f ->
    bytes = take (Z.to_nat len) (drop (Z.to_nat (position st f)) (contents st (node f))) ->
    moves f (u64 (position st f + Z.of_nat (List.length bytes))) st st' -> same_contents st st' ->
    memory st' = (fun p => if p =? q then put_bytes (memory st q) buffer bytes else memory st p) ->
    posix_call t node (Read q fd buffer len) st (Z.of_nat (List.length bytes)) st'
| P_read_error q fd buffer len st st' f k :
    usable t q (s32 fd) true false = Some f -> 0 < k ->
    position st' = position st -> same_contents st st' -> memory st' = memory st ->
    posix_call t node (Read q fd buffer len) st (- k) st'
| P_write q fd buffer len st st' f w :
    usable t q (s32 fd) false true = Some f -> 0 <= w <= len ->
    moves f (u64 (position st f + w)) st st' -> same_others (node f) st st' ->
    contents st' (node f) = write_at (position st f) (bytes_at (memory st q) buffer w) (contents st (node f)) ->
    memory st' = memory st ->
    posix_call t node (Write q fd buffer len) st w st'
| P_write_error q fd buffer len st st' f k :
    usable t q (s32 fd) false true = Some f -> 0 < k ->
    position st' = position st -> same_others (node f) st st' -> memory st' = memory st ->
    posix_call t node (Write q fd buffer len) st (- k) st'
| P_seek q fd offset whence st st' f pos :
    usable t q (s32 fd) false false = Some f -> seek_to st f (node f) offset (u32 whence) = Some pos ->
    moves f pos st st' -> same_contents st st' -> memory st' = memory st ->
    posix_call t node (Seek q fd offset whence) st pos st'
| P_bad_seek q fd offset whence st f :
    usable t q (s32 fd) false false = Some f -> seek_to st f (node f) offset (u32 whence) = None ->
    posix_call t node (Seek q fd offset whence) st (- EINVAL) st.

Inductive posix_calls (t : FileTable.state) (node : Z -> Z) : list call -> posix -> list Z -> posix -> Prop :=
| P_nil st : posix_calls t node [] st [] st
| P_cons c l st r rs st1 st2 :
    posix_call t node c st r st1 -> posix_calls t node l st1 rs st2 -> posix_calls t node (c :: l) st (r :: rs) st2.

Definition node_of (s : St) (f : Z) : Z := default 0 (f_node <$> data s !! f).

(** What a state of the kernel stands for. *)
Definition abs (s : St) : posix :=
  mkPosix (fun f => default 0 (f_offset <$> data s !! f)) (content (store (fs s))) (user s).

Record files_ok (s : St) : Prop := {
  fo_held : held (tbl s);
  fo_data : forall f, is_Some (FileTable.files (tbl s) !! f) ->
    exists d, data s !! f = Some d /\ regular (f_node d) /\ 0 <= f_offset d }.

Lemma abs_offset f d pos s : data s !! f = Some d -> moves f pos (abs s) (abs (with_offset f d pos s)).
Proof.
  intros Hd x. unfold abs. cbn [position with_offset set_data data].
  destruct (Z.eqb_spec x f) as [->|Hx]; [by rewrite lookup_insert_eq|by rewrite lookup_insert_ne].
Qed.

(** The files stay, with their nodes. *)
Definition keeps (s s' : St) : Prop :=
  tbl s' = tbl s /\ files_ok s' /\ forall f, node_of s' f = node_of s f.

Lemma keeps_data s s' : files_ok s -> tbl s' = tbl s -> data s' = data s -> keeps s s'.
Proof. intros [Hh Hf] Ht Hd. split; [done|split; [split; rewrite ?Ht, ?Hd; done|intros f; unfold node_of; by rewrite Hd]]. Qed.

Lemma keeps_offset s s' f d pos : files_ok s -> tbl s' = tbl s -> data s !! f = Some d -> 0 <= pos ->
  data s' = <[f := mkData (f_node d) (f_path d) pos]> (data s) -> keeps s s'.
Proof.
  intros [Hh Hf] Ht Hd Hpos Hs'. split; [done|split].
  - split; rewrite Ht; [done|]. intros x Hx. rewrite Hs'. destruct (Hf x Hx) as (e & He & Hr & Ho).
    destruct (decide (x = f)) as [->|Hne]; [rewrite lookup_insert_eq|rewrite lookup_insert_ne by done; by exists e].
    eexists. split; [done|]. cbn. split; [|done]. congruence.
  - intros x. unfold node_of. rewrite Hs'. destruct (decide (x = f)) as [->|Hne]; [by rewrite lookup_insert_eq, Hd|by rewrite lookup_insert_ne].
Qed.

Lemma usable_file s q fd READ WRITE f : files_ok s -> usable (tbl s) q fd READ WRITE = Some f ->
  exists v d, FileTable.files (tbl s) !! f = Some v /\ data s !! f = Some d /\ regular (f_node d) /\ 0 <= f_offset d.
Proof.
  intros [_ Hd]. unfold usable. destruct (FileTable.fds (tbl s) q !! fd) as [[fl f']|]; [|done]. cbn [mbind option_bind].
  destruct (FileTable.files (tbl s) !! f') as [v|] eqn:E; [|done]. cbn [mbind option_bind].
  destruct (permits v READ WRITE); [|done]. intros [= <-]. destruct (Hd f' ltac:(by eexists)) as (d & ? & ? & ?). by exists v, d.
Qed.

Lemma wrap_nonneg w z : 0 <= w -> 0 <= wrap w z.
Proof. intros. by apply wrap_range. Qed.

Lemma take_bytes_at m a n w : 0 <= w <= n -> take (Z.to_nat w) (bytes_at m a n) = bytes_at m a w.
Proof. intros. rewrite !bytes_at_tab. by apply tab_take. Qed.

Lemma read_call s q fd buffer len : files_ok s -> 0 <= len ->
  exists r s', run_call (Read q fd buffer len) s = Some (r, s') /\
    posix_call (tbl s) (node_of s) (Read q fd buffer len) (abs s) r (abs s') /\ keeps s s'.
Proof.
  intros Hs Hlen. cbn [run_call]. unfold readSyscall. rewrite file_operation_ok by (apply Hs || apply _).
  destruct (usable (tbl s) q (s32 fd) true false) as [f|] eqn:Eu.
  2: { exists (- FileTable.EBADF), s. split; [done|split; [by apply P_no_file|by apply keeps_data]]. }
  destruct (usable_file s q (s32 fd) true false f Hs Eu) as (v & d & Hv & Hd & Hr & Ho).
  rewrite (vfsFileRead_run f q buffer len d v s Hd Hv).
  destruct (read_law (f_node d) (caller s q) (f_offset d) len (negb (has (FileTable.file_flags v) FileTable.VFS_FILE_NONBLOCK))
    (store (fs s)) Hr Ho Hlen) as (r & n & E & Hsame & Hres). rewrite E.
  assert (Hnode : node_of s f = f_node d) by (unfold node_of; by rewrite Hd).
  assert (Hpos : position (abs s) f = f_offset d) by (unfold abs; cbn; by rewrite Hd).
  destruct r as [bytes|k]; cbn [mbind option_bind value].
  - eexists _, _. split; [done|]. split; [|by eapply (keeps_offset s _ f d); [..|apply wrap_nonneg|done]].
    eapply P_read; try done.
    + rewrite Hpos, Hnode. exact Hres.
    + rewrite Hpos. intros x. by apply (abs_offset f d _ (with_bytes q buffer bytes (with_node n s))).
  - eexists _, _. split; [done|]. split; [|by apply keeps_data]. by eapply P_read_error.
Qed.

Lemma write_call s q fd buffer len : files_ok s -> 0 <= len ->
  exists r s', run_call (Write q fd buffer len) s = Some (r, s') /\
    posix_call (tbl s) (node_of s) (Write q fd buffer len) (abs s) r (abs s') /\ keeps s s'.
Proof.
  intros Hs Hlen. cbn [run_call]. unfold writeSyscall. rewrite file_operation_ok by (apply Hs || apply _).
  destruct (usable (tbl s) q (s32 fd) false true) as [f|] eqn:Eu.
  2: { exists (- FileTable.EBADF), s. split; [done|split; [by apply P_no_file|by apply keeps_data]]. }
  destruct (usable_file s q (s32 fd) false true f Hs Eu) as (v & d & Hv & Hd & Hr & Ho).
  rewrite (vfsFileWrite_run f q buffer len d v s Hd Hv).
  destruct (write_law (f_node d) (caller s q) (f_offset d) (bytes_at (user s q) buffer len)
    (negb (has (FileTable.file_flags v) FileTable.VFS_FILE_NONBLOCK)) (store (fs s)) Hr Ho) as (r & n & E & Hsame & Hres). rewrite E.
  assert (Hnode : node_of s f = f_node d) by (unfold node_of; by rewrite Hd).
  assert (Hpos : position (abs s) f = f_offset d) by (unfold abs; cbn; by rewrite Hd).
  destruct r as [w|k]; cbn [mbind option_bind value].
  - destruct Hres as [Hw Hc]. rewrite bytes_at_length in Hw by done.
    eexists _, _. split; [done|]. split; [|by eapply (keeps_offset s _ f d); [..|apply wrap_nonneg|done]].
    eapply P_write; try done.
    + rewrite Hpos. intros x. by apply (abs_offset f d _ (with_node n s)).
    + intros x Hx. rewrite Hnode. by apply Hsame.
    + rewrite Hpos, Hnode. cbn [abs contents memory]. rewrite <- (take_bytes_at _ _ len w) by done. exact Hc.
  - eexists _, _. split; [done|]. split; [|by apply keeps_data]. eapply P_write_error; try done.
    intros x Hx. rewrite Hnode. by apply Hsame.
Qed.

Lemma vfsFileSeek_run f d offset whence s : data s !! f = Some d -> regular (f_node d) ->
  vfsFileSeek f offset whence s = match seek_to (abs s) f (f_node d) offset whence with
    | Some pos => Some (Good pos, with_offset f d pos s)
    | None => Some (Bad EINVAL, s)
    end.
Proof.
  intros Hd Hr. unfold vfsFileSeek, seek_to. rewrite (bind_some _ _ _ _ _ (file_data_run f d s Hd)).
  cbn [abs position contents]. rewrite Hd. cbn [fmap option_fmap option_map from_option].
  destruct (whence =? VFS_SEEK_CUR); [by rewrite (bind_some _ _ _ _ _ (set_offset_run f d _ s Hd))|].
  destruct (whence =? VFS_SEEK_SET); [by rewrite (bind_some _ _ _ _ _ (set_offset_run f d _ s Hd))|].
  destruct (whence =? VFS_SEEK_END); [|done].
  rewrite <- size_law by done. rewrite (bind_some (gets fs) _ s s (fs s) eq_refl).
  by rewrite (bind_some _ _ _ _ _ (set_offset_run f d _ s Hd)).
Qed.

Lemma seek_call s q fd offset whence : files_ok s -> 0 <= offset < 2 ^ 64 ->
  exists r s', run_call (Seek q fd offset whence) s = Some (r, s') /\
    posix_call (tbl s) (node_of s) (Seek q fd offset whence) (abs s) r (abs s') /\ keeps s s'.
Proof.
  intros Hs Hoff. cbn [run_call]. unfold seekSyscall. rewrite file_operation_ok by (apply Hs || apply _).
  destruct (usable (tbl s) q (s32 fd) false false) as [f|] eqn:Eu.
  2: { exists (- FileTable.EBADF), s. split; [done|split; [by apply P_no_file|by apply keeps_data]]. }
  destruct (usable_file s q (s32 fd) false false f Hs Eu) as (v & d & Hv & Hd & Hr & Ho).
  rewrite (vfsFileSeek_run f d) by done.
  assert (Hnode : node_of s f = f_node d) by (unfold node_of; by rewrite Hd).
  destruct (seek_to (abs s) f (f_node d) offset (u32 whence)) as [pos|] eqn:Es; cbn [mbind option_bind value].
  - exists pos, (with_offset f d pos s). split; [done|]. split.
    + eapply P_seek; [exact Eu|by rewrite Hnode|by apply abs_offset|done|done].
    + eapply (keeps_offset s _ f d pos); try done. unfold seek_to in Es.
      repeat case_match; try done; injection Es as <-; try apply wrap_nonneg; lia.
  - exists (- EINVAL), s. split; [done|]. split; [by eapply P_bad_seek; [exact Eu|rewrite Hnode]|by apply keeps_data].
Qed.

Lemma posix_calls_nodes t node node' l st rs st' : (forall f, node f = node' f) ->
  posix_calls t node l st rs st' -> posix_calls t node' l st rs st'.
Proof.
  intros Hn. induction 1 as [|c l st r rs st1 st2 Hc _ IH]; [constructor|]. econstructor; [|exact IH].
  destruct Hc; econstructor; eauto; rewrite <- ?Hn; done.
Qed.

(** C15: Over any sequence of reads, writes and seeks by any processes the kernel
    returns and does what the interface promises: a position for each open
    file that all its numbers share, [EBADF] without an effect for a number that
    is not open for the call, and otherwise the bytes of the file at the
    position.  The table of descriptors is afterwards as before. *)
Theorem file_calls_refine l : forall s, files_ok s -> Forall call_ok l ->
  exists rs s', run_calls l s = Some (rs, s') /\
    posix_calls (tbl s) (node_of s) l (abs s) rs (abs s') /\ tbl s' = tbl s /\ files_ok s'.
Proof.
  induction l as [|c l IH]; intros s Hs Hl; cbn [run_calls].
  { exists [], s. split; [done|split; [constructor|done]]. }
  rewrite Forall_cons_iff in Hl. destruct Hl as [Hc Hl].
  assert (Hstep : exists r s1, run_call c s = Some (r, s1) /\
    posix_call (tbl s) (node_of s) c (abs s) r (abs s1) /\ keeps s s1).
  { destruct c; [by apply read_call|by apply write_call|by apply seek_call]. }
  destruct Hstep as (r & s1 & E1 & Hp & Ht & Hs1 & Hn). destruct (IH s1 Hs1 Hl) as (rs & s2 & E2 & Hps & Ht2 & Hs2).
  exists (r :: rs), s2. rewrite (bind_some _ _ _ _ _ E1), (bind_some _ _ _ _ _ E2). split; [done|]. split; [|split; [congruence|done]].
  econstructor; [exact Hp|]. rewrite <- Ht. by eapply posix_calls_nodes.
Qed.

End Calls.

(** ** Opening *)

Section Open.
Context (fuel : nat) (kalloc_string : Z -> bool) (kalloc : gset Z -> Z).
Context (kalloc_fresh : forall used, kalloc used ∉ used) (kalloc_null : forall used, kalloc used <> 0).

(** A descriptor with the lowest free number: what changes in the table. *)
Lemma put_lowest t q flags file v : FileTable.ok t -> FileTable.files t !! file = Some v -> FileTable.file_refs v < 2 ^ 64 - 1 ->
  let p := kalloc (dom (FileTable.descs t)) in
  exists n t', FileTable.putNewFileDescriptor kalloc q (-1) flags file false t = Some (n, t') /\
    FileTable.files t' = <[file := FileTable.mkFile (FileTable.file_refs v + 1) (FileTable.file_flags v)]> (FileTable.files t) /\
    FileTable.descs t' = <[p := FileTable.mkDesc n flags file 1]> (FileTable.descs t).
Proof.
  intros Hok Hf Hr p. destruct (FileTable.ok_refs t Hok _ _ Hf) as [_ Hpos].
  pose proof (FileTable.vfsFileCopy_eq t file v Hf ltac:(lia)) as E1.
  destruct (FileTable.ok_table t Hok q) as (vs & Hrep & Hasc).
  destruct (FileTable.skip_used_spec (FileTable.descs t) 0 (FileTable.table t q) vs Hrep Hasc)
    as (la & lb & va & vb & n & E & Et & -> & Ha & Hb & _ & Hn & Hvb).
  { apply Forall_forall. intros d Hd. apply list_elem_of_In, list_elem_of_lookup in Hd as [i Hi].
    destruct (Forall2_lookup_r _ _ _ _ _ Hrep Hi) as (x & _ & Hx). by apply (FileTable.ok_desc t Hok x). }
  unfold FileTable.putNewFileDescriptor. rewrite (bind_some _ _ _ _ _ E1).
  unfold FileTable.whole, FileTable.lift, mbind, M_bind. cbn [Z.ltb Z.compare option_bind].
  unfold FileTable.table in E. cbn [FileTable.table FileTable.tables FileTable.descs]. unfold FileTable.table. cbn [FileTable.tables].
  rewrite E. cbn [option_bind mret M_ret].
  destruct Hb as [|x d lb vb Hx Hb].
  - cbn. eexists _, _. split; [reflexivity|done].
  - unfold FileTable.get_desc. cbn [FileTable.descs]. rewrite Hx. cbn [mbind option_bind].
    apply Forall_cons_1 in Hvb as [Hd _]. unfold massert. rewrite (proj2 (Z.ltb_lt _ _)) by done.
    cbn. eexists _, _. split; [reflexivity|done].
Qed.

Definition open_result (q : Z) (path : list Z) (flags mode_ : Z) (s : St) : option (result (opened * Z) * vfs) :=
  open_node (caller s q) path flags mode_ (fs s).

Lemma open_file_run q path flags mode_ (s : St) :
  open_file kalloc q path flags mode_ s =
    match open_result q path flags mode_ s with
    | Some (Good (o, node), v) =>
        let f := kalloc (dom (FileTable.files (tbl s))) in
        Some (Good f, set_data (<[f := mkData node (opened_path o) (opened_offset o)]> (data s))
          (set_tbl (FileTable.mkState (FileTable.descs (tbl s)) (<[f := FileTable.mkFile 1 0]> (FileTable.files (tbl s)))
             (FileTable.tables (tbl s))) (set_fs v s)))
    | Some (Bad k, v) => Some (Bad k, set_fs v s)
    | None => None
    end.
Proof.
  unfold open_file. rewrite (bind_some _ _ _ _ _ (process_run q s)). unfold open_result, on_fs.
  unfold mbind, M_bind. destruct (open_node _ _ _ _ (fs s)) as [[[[o node]|k] v]|]; done.
Qed.

(** A file that nobody but a caller holds does not change the table. *)
Lemma new_file_ok t f flags : FileTable.ok t -> f ∉ dom (FileTable.files t) ->
  FileTable.ok (FileTable.mkState (FileTable.descs t) (<[f := FileTable.mkFile 1 flags]> (FileTable.files t)) (FileTable.tables t)).
Proof.
  intros [O1 O2 O3 O4 O5] Hf. apply not_elem_of_dom in Hf. split; cbn; try done.
  - intros p d Hd. destruct (O4 p d Hd) as [v Hv]. exists v. rewrite lookup_insert_ne; [done|]. intros E. congruence.
  - intros g v Hg. apply lookup_insert_Some in Hg as [[<- <-]|[_ Hg]]; [|by apply O5]. cbn. split; [|lia].
    enough (FileTable.holders (FileTable.descs t) f = 0) by lia. unfold FileTable.holders.
    rewrite map_empty_filter_2; [done|]. intros p d Hd E. cbn in E. destruct (O4 p d Hd) as [w Hw]. congruence.
Qed.

Lemma held_insert t t' p d : held t -> FileTable.ok t' -> FileTable.descs t' = <[p := d]> (FileTable.descs t) -> p <> 0 ->
  FileTable.desc_refs d = 1 -> held t'.
Proof.
  intros [_ H1 H2] Hok Hd Hp Hr. split; [done|..]; rewrite Hd.
  - intros x [e He]. apply lookup_insert_Some in He as [[<- _]|[_ He]]; [done|]. apply H1. by eexists.
  - intros x e He. apply lookup_insert_Some in He as [[_ <-]|[_ He]]; [lia|by eapply H2].
Qed.

(** A file that was held by a caller and got a descriptor, when the caller lets
    it go. *)
Lemma closed_ok t t2 f fl p d : FileTable.ok t -> FileTable.ok t2 -> f ∉ dom (FileTable.files t) ->
  FileTable.files t2 = <[f := FileTable.mkFile 2 fl]> (FileTable.files t) ->
  FileTable.descs t2 = <[p := d]> (FileTable.descs t) -> FileTable.descs t !! p = None -> FileTable.desc_file d = f ->
  FileTable.ok (FileTable.mkState (FileTable.descs t2) (<[f := FileTable.mkFile 1 fl]> (FileTable.files t)) (FileTable.tables t2)).
Proof.
  intros Hok Hok2 Hf Ef Ed Hp Hd. apply not_elem_of_dom in Hf. destruct Hok2 as [O1 O2 O3 O4 O5]. split; try done; cbn.
  - intros x e He. destruct (O4 x e He) as [w Hw]. rewrite Ef in Hw. apply lookup_insert_is_Some.
    destruct (decide (f = FileTable.desc_file e)) as [E|Hne]; [by left|right].
    split; [done|]. rewrite lookup_insert_ne in Hw by done. by exists w.
  - intros g w Hg. apply lookup_insert_Some in Hg as [[<- <-]|[Hne Hg]].
    + cbn [FileTable.file_refs]. split; [|lia]. rewrite Ed, FileTable.holders_insert, Hd, decide_True by done.
      enough (FileTable.holders (FileTable.descs t) f = 0) by lia.
      unfold FileTable.holders. rewrite map_empty_filter_2; [done|]. intros x e He E. cbn in E.
      destruct (FileTable.ok_file _ Hok x e He) as [u Hu]. congruence.
    + apply O5. by rewrite Ef, lookup_insert_ne.
Qed.

Lemma set_flags_run {A} f v fl (k : M St A) s : FileTable.files (tbl s) !! f = Some v ->
  (v ← table_of (FileTable.get_file f);
   table_of (FileTable.set_file f (FileTable.mkFile (FileTable.file_refs v) fl));; k) s =
  k (set_tbl (FileTable.mkState (FileTable.descs (tbl s))
    (<[f := FileTable.mkFile (FileTable.file_refs v) fl]> (FileTable.files (tbl s))) (FileTable.tables (tbl s))) s).
Proof.
  intros Hf. assert (E : table_of (FileTable.get_file f) s = Some (v, s)).
  { unfold table_of, FileTable.get_file. rewrite Hf. cbn. by rewrite set_tbl_id. }
  by rewrite (bind_some _ _ _ _ _ E).
Qed.

(** What [open] is asked for, with the flags as the C library has them: reading,
    writing or both in the two lowest bits, and all others as they are. *)
Definition asked_access (arg : Z) : Z :=
  match arg mod 4 with
  | 0 => VFS_OPEN_READ
  | 1 => VFS_OPEN_WRITE
  | 2 => Z.lor VFS_OPEN_READ VFS_OPEN_WRITE
  | _ => 0
  end.
Definition asked_flags (arg : Z) : Z := Z.lor (Z.ldiff (u32 arg) 3) (asked_access arg).

Lemma convertOpenMode_asked arg : convertOpenMode arg = asked_flags arg.
Proof.
  unfold convertOpenMode, asked_flags, asked_access. change VFS_OPEN_ACCESS_MODE with (Z.ones 2). f_equal.
  rewrite Z.land_ones by lia. unfold wrap. change (2 ^ 2) with 4.
  rewrite Z.mod_mod_divide by (by exists (2 ^ 30)). rewrite <- Z.add_mod_idemp_l by lia.
  rewrite Z.mod_mod_divide by (by exists (2 ^ 30)).
  pose proof (Z.mod_pos_bound arg 4 ltac:(lia)). assert (E : arg mod 4 ∈ [0; 1; 2; 3]) by (rewrite !elem_of_cons; lia).
  rewrite !elem_of_cons, elem_of_nil in E. destruct E as [-> | [-> | [-> | [-> | []]]]]; reflexivity.
Qed.

Lemma asked_access_low arg : Z.land (asked_access arg) 3 = asked_access arg /\ 0 <= asked_access arg < 4.
Proof. unfold asked_access. destruct (arg mod 4) as [|[|[]|]|]; split; try reflexivity; vm_compute; split; congruence. Qed.

Lemma land_bit x k : 0 <= k -> Z.land x (2 ^ k) = if Z.testbit x k then 2 ^ k else 0.
Proof.
  intros Hk. apply Z.bits_inj'. intros n Hn. rewrite Z.land_spec, Z.pow2_bits_eqb by done.
  destruct (Z.eqb_spec k n) as [->|Hne].
  - destruct (Z.testbit x n); [by rewrite Z.pow2_bits_true|by rewrite Z.testbit_0_l].
  - rewrite andb_false_r. destruct (Z.testbit x k); [by rewrite Z.pow2_bits_false|by rewrite Z.testbit_0_l].
Qed.

Lemma asked_bit arg k : 2 <= k < 32 -> Z.testbit (asked_flags arg) k = Z.testbit arg k.
Proof.
  intros Hk. unfold asked_flags. rewrite Z.lor_spec, Z.ldiff_spec.
  rewrite (high_bits_zero 2 (asked_access arg) k), (high_bits_zero 2 3 k) by (try lia; apply asked_access_low).
  rewrite andb_true_r, orb_false_r. unfold wrap. by rewrite Z.mod_pow2_bits_low by lia.
Qed.

Lemma asked_has arg k : 2 <= k < 32 -> has (asked_flags arg) (2 ^ k) = Z.testbit arg k.
Proof.
  intros Hk. unfold has. rewrite land_bit, asked_bit by lia. destruct (Z.testbit arg k); [|done].
  apply negb_true_iff, Z.eqb_neq. pose proof (Z.pow_pos_nonneg 2 k). lia.
Qed.

Lemma asked_kept arg :
  Z.land (asked_flags arg) (Z.lor VFS_OPEN_ACCESS_MODE FileTable.VFS_FILE_NONBLOCK) =
  Z.lor (asked_access arg) (if Z.testbit arg 14 then FileTable.VFS_FILE_NONBLOCK else 0).
Proof.
  rewrite Z.land_lor_distr_r. f_equal.
  - unfold asked_flags. change VFS_OPEN_ACCESS_MODE with 3. rewrite Z.land_lor_distr_l, (proj1 (asked_access_low arg)).
    replace (Z.land (Z.ldiff (u32 arg) 3) 3) with 0; [done|]. symmetry. apply Z.bits_inj'. intros n _.
    rewrite Z.land_spec, Z.ldiff_spec, Z.testbit_0_l. destruct (Z.testbit 3 n); by rewrite ?andb_false_r.
  - change FileTable.VFS_FILE_NONBLOCK with (2 ^ 14). rewrite land_bit, asked_bit by lia. done.
Qed.

(** C16: When the path cannot be opened, [open] returns the error, and no
    descriptor and no file is left behind.  Otherwise it gives the lowest number
    that is free; behind it is a new file on the node that was opened, which
    only the new descriptor holds.  The file starts at its beginning, with
    O_APPEND at the end of the file or device, allows reading and writing as the
    two lowest bits of the flags say, does not block if they say O_NONBLOCK, and
    the descriptor is closed by [exec] if they say O_CLOEXEC.  Nothing else
    changes. *)
Theorem openSyscall_correct s q ptr flags_arg mode_ path r v :
  held (tbl s) -> copyStringFromSyscallArgs fuel kalloc_string q ptr s = Some (Some path, s) ->
  open_result q path (asked_flags flags_arg) (u16 mode_) s = Some (r, v) ->
  let cloexec := if Z.testbit flags_arg 18 then FileTable.VFS_DESC_CLOEXEC else 0 in
  let f := kalloc (dom (FileTable.files (tbl s))) in
  match r with
  | Bad k => openSyscall fuel kalloc_string kalloc q ptr flags_arg mode_ s = Some (- k, set_fs v s)
  | Good (o, node) => exists n s' v1 offset,
      openSyscall fuel kalloc_string kalloc q ptr flags_arg mode_ s = Some (n, s') /\
      0 <= n /\ FileTable.fds (tbl s) q !! n = None /\ (forall k, 0 <= k < n -> is_Some (FileTable.fds (tbl s) q !! k)) /\
      FileTable.fds (tbl s') q = <[n := (cloexec, f)]> (FileTable.fds (tbl s) q) /\
      (forall q', q' <> q -> FileTable.fds (tbl s') q' = FileTable.fds (tbl s) q') /\
      FileTable.files (tbl s') = <[f := FileTable.mkFile 1 (Z.lor (asked_access flags_arg)
        (if Z.testbit flags_arg 14 then FileTable.VFS_FILE_NONBLOCK else 0))]> (FileTable.files (tbl s)) /\
      vfsOpenAt (caller s q) None path (asked_flags flags_arg) (u16 mode_) (fs s) = Some (Good o, v1) /\
      starts_at (Z.testbit flags_arg 3) o v1 offset /\
      data s' = <[f := mkData node (opened_path o) offset]> (data s) /\
      fs s' = v /\ procs s' = procs s /\ user s' = user s /\ held (tbl s')
  end.
Proof.
  intros Hs Hpath Hopen cloexec f. unfold openSyscall, with_string. rewrite (bind_some _ _ _ _ _ Hpath).
  rewrite convertOpenMode_asked. cbv zeta. change FileTable.VFS_OPEN_CLOEXEC with (2 ^ 18). rewrite asked_has, asked_kept by lia. fold cloexec.
  pose proof (open_file_run q path (asked_flags flags_arg) (u16 mode_) s) as Ef. rewrite Hopen in Ef.
  destruct r as [[o node]|k]; [|by rewrite (bind_some _ _ _ _ _ Ef)].
  destruct (bind_good_inv _ _ _ _ _ Hopen) as (o1 & v1 & Eo & Eo1).
  assert (o1 = o) as ->. { apply bind_good_inv in Eo1 as (nd & v2 & _ & Eo1). by injection Eo1. }
  pose proof (vfsOpenAt_position _ _ _ _ _ _ _ _ Eo) as Hpos. change VFS_OPEN_APPEND with (2 ^ 3) in Hpos. rewrite asked_has in Hpos by lia.
  fold f in Ef. cbn zeta in Ef. rewrite (bind_some _ _ _ _ _ Ef). clear Ef.
  set (fl := Z.lor (asked_access flags_arg) (if Z.testbit flags_arg 14 then FileTable.VFS_FILE_NONBLOCK else 0)).
  set (nd := mkData node (opened_path o) (opened_offset o)).
  assert (Hf : f ∉ dom (FileTable.files (tbl s))) by apply kalloc_fresh.
  set (t1 := FileTable.mkState (FileTable.descs (tbl s)) (<[f := FileTable.mkFile 1 fl]> (FileTable.files (tbl s))) (FileTable.tables (tbl s))).
  assert (Hok1 : FileTable.ok t1) by (apply new_file_ok; [apply Hs|done]).
  assert (Hf1 : FileTable.files t1 !! f = Some (FileTable.mkFile 1 fl)) by apply lookup_insert_eq.
  set (s1 := set_data (<[f := nd]> (data s)) (set_tbl t1 (set_fs v s))).
  assert (Hp1 : FileTable.file_refs (FileTable.mkFile 1 fl) < 2 ^ 64 - 1) by (cbn; lia).
  destruct (put_lowest t1 q cloexec f _ Hok1 Hf1 Hp1) as (n & t2 & Eput & Hfiles2 & Hdescs2).
  destruct (FileTable.putNewFileDescriptor_ok kalloc kalloc_fresh t1 q (-1) cloexec f false _ Hok1 Hf1 Hp1)
    as (n' & t2' & Eput' & Hok2 & _ & Hlow & Hfds & Hpr & _). rewrite Eput in Eput'. injection Eput' as <- <-.
  destruct (Hlow ltac:(lia)) as (Hn & Hfree & Hbelow).
  assert (Hfds1 : forall q', FileTable.fds t1 q' = FileTable.fds (tbl s) q') by (intros; by apply FileTable.fds_frame).
  set (t3 := FileTable.mkState (FileTable.descs t2) (<[f := FileTable.mkFile 1 fl]> (FileTable.files (tbl s))) (FileTable.tables t2)).
  assert (Hf2 : FileTable.files t2 !! f = Some (FileTable.mkFile 2 fl)) by (rewrite Hfiles2; apply lookup_insert_eq).
  assert (Eclose : FileTable.vfsFileClose f t2 = Some (tt, t3)).
  { rewrite (FileTable.vfsFileClose_eq t2 f _ Hf2) by (cbn; lia). do 2 f_equal. unfold t3. f_equal.
    unfold FileTable.drop_file. rewrite Hfiles2. unfold t1. cbn. by rewrite !insert_insert_eq. }
  assert (Hp : FileTable.descs (tbl s) !! kalloc (dom (FileTable.descs t1)) = None) by apply not_elem_of_dom, kalloc_fresh.
  assert (Hok3 : FileTable.ok t3).
  { eapply (closed_ok (tbl s) t2 f fl); [apply Hs|done|done| |exact Hdescs2|exact Hp|done].
    rewrite Hfiles2. unfold t1. cbn. by rewrite insert_insert_eq. }
  exists n, (set_tbl t3 s1), v1, (opened_offset o). split.
  { rewrite (set_flags_run f (FileTable.mkFile 1 0)) by apply lookup_insert_eq.
    cbn [set_data set_tbl tbl FileTable.files FileTable.descs FileTable.tables FileTable.file_refs]. rewrite insert_insert_eq.
    fold fl cloexec t1 s1.
    assert (E2 : on_table (FileTable.putNewFileDescriptor kalloc q (-1) cloexec f false) s1 = Some (n, set_tbl t2 s1)).
    { apply on_table_same; [exact Eput|]. cbn [s1 set_data set_tbl tbl]. rewrite Hfiles2. set_solver. }
    rewrite (bind_some _ _ _ _ _ E2).
    assert (E3 : vfsFileClose f (set_tbl t2 s1) = Some (tt, set_tbl t3 s1)).
    { apply (on_table_same _ (set_tbl t2 s1) tt t3); [exact Eclose|]. cbn [set_tbl tbl t3 FileTable.files]. rewrite Hfiles2. unfold t1.
      cbn [FileTable.files]. set_solver. }
    by rewrite (bind_some _ _ _ _ _ E3). }
  assert (Hfds3 : forall q', FileTable.fds t3 q' = FileTable.fds t2 q') by (intros; by apply FileTable.fds_frame).
  change (tbl (set_tbl t3 s1)) with t3. rewrite <- !Hfds1. split_and!; try done.
  - intros q' Hq. rewrite Hfds3. rewrite <- Hfds1. by apply (FileTable.p_fds q).
  - eapply (held_insert (tbl s)); [done|done|exact Hdescs2|apply kalloc_null|done].
Qed.

End Open.

(** ** [select] *)

Section Select.
Context (s : St) (q : Z) (Hheld : held (tbl s)).
Context (Hdata : forall f, is_Some (FileTable.files (tbl s) !! f) -> is_Some (data s !! f)).

(** Whether a number is ready: [None] if it is not open for that. *)
Definition ready_of (fd : Z) (write : bool) : option bool :=
  f ← usable (tbl s) q fd (negb write) write;
  d ← data s !! f;
  Some (vfsNodeIsReady (store (fs s)) (f_node d) (caller s q) write).

Definition access_of (write : bool) : Z := if write then FileTable.VFS_FILE_WRITE else FileTable.VFS_FILE_READ.

Lemma select_test_run i write set :
  select_test q i (access_of write) write set s =
    match ready_of i write with
    | Some b => Some (Good (if b then set else Z.clearbit set i, b), s)
    | None => Some (Bad FileTable.EBADF, s)
    end.
Proof.
  pose proof (find_descriptor (tbl s) q i Hheld) as Hfind. unfold select_test, ready_of, usable.
  destruct (FileTable.fds (tbl s) q !! i) as [[fl f]|].
  2: { unfold table_of, mbind, M_bind. rewrite Hfind. cbn. by rewrite set_tbl_id. }
  destruct Hfind as (p & d & E & Hp & Hd & Hf & _).
  assert (E' : table_of (FileTable.getFileDescriptorUnsafe q i) s = Some (p, s)).
  { unfold table_of. rewrite E. cbn. by rewrite set_tbl_id. }
  rewrite (bind_some _ _ _ _ _ E'), (proj2 (Z.eqb_neq p 0)) by done.
  assert (Ed : table_of (FileTable.get_desc p) s = Some (d, s)).
  { unfold table_of, FileTable.get_desc. rewrite Hd. cbn. by rewrite set_tbl_id. }
  rewrite (bind_some _ _ _ _ _ Ed), Hf.
  destruct (FileTable.ok_file _ (held_ok _ Hheld) p d Hd) as [v Hv]. rewrite Hf in Hv.
  assert (Ev : table_of (FileTable.get_file f) s = Some (v, s)).
  { unfold table_of, FileTable.get_file. rewrite Hv. cbn. by rewrite set_tbl_id. }
  rewrite (bind_some _ _ _ _ _ Ev). cbn [mbind option_bind]. rewrite Hv. cbn [mbind option_bind].
  destruct (Hdata f ltac:(by eexists)) as [e He].
  assert (Er : vfsFileIsReady f q write s = Some (vfsNodeIsReady (store (fs s)) (f_node e) (caller s q) write, s)).
  { unfold vfsFileIsReady. by rewrite (bind_some _ _ _ _ _ (file_data_run f e s He)), (bind_some _ _ _ _ _ (process_run q s)). }
  unfold permits, access_of.
  destruct write; cbn [negb]; rewrite ?andb_false_r, ?andb_true_r; cbn [negb andb].
  - destruct (Z.land (FileTable.file_flags v) FileTable.VFS_FILE_WRITE =? 0); cbn [negb mbind option_bind]; [done|].
    rewrite He. cbn [mbind option_bind]. by rewrite (bind_some _ _ _ _ _ Er).
  - destruct (Z.land (FileTable.file_flags v) FileTable.VFS_FILE_READ =? 0); cbn [negb mbind option_bind]; [done|].
    rewrite He. cbn [mbind option_bind]. by rewrite (bind_some _ _ _ _ _ Er).
Qed.

(** One test, also of a number that is not in the set. *)
Lemma select_one i write set :
  (if Z.testbit set i then select_test q i (access_of write) write set else mret (Good (set, false))) s =
    if Z.testbit set i
    then match ready_of i write with
         | Some b => Some (Good (if b then set else Z.clearbit set i, b), s)
         | None => Some (Bad FileTable.EBADF, s)
         end
    else Some (Good (set, false), s).
Proof. destruct (Z.testbit set i); [apply select_test_run|done]. Qed.

(** A set after the test of the number [i]. *)
Definition tested (write : bool) (set i : Z) : Z :=
  if Z.testbit set i && bool_decide (ready_of i write = Some false) then Z.clearbit set i else set.
Definition is_bad (write : bool) (set i : Z) : bool := Z.testbit set i && bool_decide (ready_of i write = None).
Definition is_ready (write : bool) (set i : Z) : bool := Z.testbit set i && bool_decide (ready_of i write = Some true).

(** How many of the [n] numbers from [i] on are in the set and ready. *)
Fixpoint ready_count (write : bool) (set i : Z) (n : nat) : Z :=
  match n with
  | O => 0
  | Datatypes.S n => Z.b2z (is_ready write set i) + ready_count write set (i + 1) n
  end.

Lemma tested_bit write set i j : 0 <= i -> 0 <= j ->
  Z.testbit (tested write set i) j = Z.testbit set j && negb (bool_decide (j = i /\ ready_of i write = Some false)).
Proof.
  intros Hi Hj. unfold tested. destruct (Z.testbit set i) eqn:Eb; cbn [andb].
  - destruct (bool_decide_reflect (ready_of i write = Some false)) as [Er|Er].
    + rewrite Z.clearbit_eqb by done. destruct (Z.eqb_spec i j) as [->|Hne].
      * by rewrite bool_decide_true.
      * rewrite bool_decide_false by (intros []; congruence). by rewrite !andb_true_r.
    + rewrite bool_decide_false by (by intros []). by rewrite andb_true_r.
  - destruct (decide (j = i)) as [->|Hne]; [by rewrite Eb|].
    rewrite bool_decide_false by (by intros []). by rewrite andb_true_r.
Qed.

Lemma tested_above write set i j : 0 <= i < j -> Z.testbit (tested write set i) j = Z.testbit set j.
Proof. intros H1. rewrite tested_bit, bool_decide_false, andb_true_r by lia. done. Qed.

Lemma ready_count_ext write set set' n : forall i,
  (forall j, i <= j -> Z.testbit set' j = Z.testbit set j) -> ready_count write set' i n = ready_count write set i n.
Proof.
  induction n as [|n IH]; intros i Hs; cbn [ready_count]; [done|]. unfold is_ready at 1. rewrite Hs by lia. fold (is_ready write set i).
  by rewrite IH by (intros; apply Hs; lia).
Qed.

(** What [select_loop] returns for the [n] numbers from [i] on. *)
Definition exact (i : Z) (n : nat) (reads writes k : Z) (r : result (Z * Z * Z)) : Prop :=
  match r with
  | Bad e => e = FileTable.EBADF /\
      exists j, i <= j < i + Z.of_nat n /\ (is_bad false reads j = true \/ is_bad true writes j = true)
  | Good (reads', writes', k') =>
      (forall j, i <= j < i + Z.of_nat n -> is_bad false reads j = false /\ is_bad true writes j = false) /\
      (forall j, 0 <= j -> Z.testbit reads' j = if decide (i <= j < i + Z.of_nat n) then is_ready false reads j else Z.testbit reads j) /\
      (forall j, 0 <= j -> Z.testbit writes' j = if decide (i <= j < i + Z.of_nat n) then is_ready true writes j else Z.testbit writes j) /\
      k' = k + ready_count false reads i n + ready_count true writes i n
  end.

Lemma one_test i write set : (if Z.testbit set i then
      match ready_of i write with
      | Some b => Some (Good (if b : bool then set else Z.clearbit set i, b), s)
      | None => Some (Bad FileTable.EBADF, s)
      end
    else Some (Good (set, false), s)) =
  Some (if is_bad write set i then Bad FileTable.EBADF else Good (tested write set i, is_ready write set i), s).
Proof. unfold is_bad, tested, is_ready. by destruct (Z.testbit set i), (ready_of i write) as [[]|]. Qed.

Lemma tested_self write set i : 0 <= i -> is_bad write set i = false -> Z.testbit (tested write set i) i = is_ready write set i.
Proof.
  intros Hi Hb. rewrite tested_bit by done. unfold is_bad, is_ready in *.
  destruct (Z.testbit set i), (ready_of i write) as [[]|]; cbn in *; try done.
  - by rewrite bool_decide_false by (by intros []).
  - by rewrite bool_decide_true.
Qed.

Lemma exact_step i n reads writes k r : 0 <= i ->
  is_bad false reads i = false -> is_bad true writes i = false ->
  exact (i + 1) n (tested false reads i) (tested true writes i)
    (k + Z.b2z (is_ready false reads i) + Z.b2z (is_ready true writes i)) r ->
  exact i (Datatypes.S n) reads writes k r.
Proof.
  intros Hi Hr Hw. assert (Hab : forall write set j, i < j -> is_bad write (tested write set i) j = is_bad write set j /\
      is_ready write (tested write set i) j = is_ready write set j).
  { intros write set j Hj. unfold is_bad, is_ready. by rewrite tested_above by lia. }
  assert (Hbits : forall write set set', is_bad write set i = false ->
    (forall j, 0 <= j -> Z.testbit set' j = if decide (i + 1 <= j < i + 1 + Z.of_nat n) then is_ready write (tested write set i) j
                                            else Z.testbit (tested write set i) j) ->
    forall j, 0 <= j -> Z.testbit set' j = if decide (i <= j < i + Z.of_nat (Datatypes.S n)) then is_ready write set j else Z.testbit set j).
  { intros write set set' Hb Hs j Hj. rewrite Hs by done. destruct (decide (j = i)) as [->|Hne].
    - rewrite decide_False, decide_True by lia. by apply tested_self.
    - repeat case_decide; try lia; [apply Hab; lia|]. destruct (decide (i < j)); [by rewrite tested_above by lia|].
      rewrite tested_bit, bool_decide_false, andb_true_r by lia. done. }
  destruct r as [[[reads' writes'] k']|e]; cbn [exact].
  - intros (H1 & H2 & H3 & H4). split; [|split; [by apply (Hbits false)|split; [by apply (Hbits true)|]]].
    + intros j Hj. destruct (decide (j = i)) as [->|Hne]; [done|]. destruct (H1 j ltac:(lia)) as [A B].
      by rewrite (proj1 (Hab false reads j ltac:(lia))) in A; rewrite (proj1 (Hab true writes j ltac:(lia))) in B.
    + rewrite H4. cbn [ready_count].
      rewrite (ready_count_ext false reads (tested false reads i)), (ready_count_ext true writes (tested true writes i))
        by (intros; apply tested_above; lia). lia.
  - intros (-> & j & Hj & Hbad). split; [done|]. exists j. split; [lia|].
    by rewrite (proj1 (Hab false reads j ltac:(lia))), (proj1 (Hab true writes j ltac:(lia))) in Hbad.
Qed.

Lemma select_loop_exact n : forall i reads writes k, 0 <= i -> i + Z.of_nat n <= 31 ->
  exists r, select_loop n q i reads writes k s = Some (r, s) /\ exact i n reads writes k r.
Proof.
  induction n as [|n IH]; intros i reads writes k Hi Hn; cbn [select_loop].
  - exists (Good (reads, writes, k)). split; [done|]. cbn [exact ready_count Z.of_nat]. rewrite !Z.add_0_r.
    split; [lia|]. split; [|split; [|done]]; intros j Hj; by rewrite decide_False by lia.
  - rewrite bind_assert by (apply Z.ltb_lt; lia).
    pose proof (select_one i false reads) as E1. rewrite one_test in E1. rewrite (bind_some _ _ _ _ _ E1). clear E1.
    destruct (is_bad false reads i) eqn:B1.
    { exists (Bad FileTable.EBADF). split; [done|]. split; [done|]. exists i. split; [lia|by left]. }
    pose proof (select_one i true writes) as E2. rewrite one_test in E2. rewrite (bind_some _ _ _ _ _ E2). clear E2.
    destruct (is_bad true writes i) eqn:B2.
    { exists (Bad FileTable.EBADF). split; [done|]. split; [done|]. exists i. split; [lia|by right]. }
    destruct (IH (i + 1) (tested false reads i) (tested true writes i)
      (k + Z.b2z (is_ready false reads i) + Z.b2z (is_ready true writes i))) as (r & E & Hr); [lia|lia|].
    exists r. split; [exact E|]. by apply exact_step.
Qed.

(** [select] with at most 31 numbers looks at each number of the sets once: it
    fails with [EBADF] exactly when one is not open for what is waited for, and
    otherwise leaves in the sets exactly the numbers that are ready, and
    counts them. *)
Theorem select_finds_ready n reads writes : (n <= 31)%nat -> 0 <= reads < 2 ^ Z.of_nat n -> 0 <= writes < 2 ^ Z.of_nat n ->
  exists r, select_loop n q 0 reads writes 0 s = Some (r, s) /\
    match r with
    | Bad e => e = FileTable.EBADF /\ exists j, is_bad false reads j = true \/ is_bad true writes j = true
    | Good (reads', writes', k) =>
        (forall j, 0 <= j -> is_bad false reads j = false /\ is_bad true writes j = false) /\
        (forall j, 0 <= j -> Z.testbit reads' j = is_ready false reads j) /\
        (forall j, 0 <= j -> Z.testbit writes' j = is_ready true writes j) /\
        k = ready_count false reads 0 n + ready_count true writes 0 n
    end.
Proof.
  intros Hn Hr Hw. destruct (select_loop_exact n 0 reads writes 0 ltac:(lia) ltac:(lia)) as (r & E & Hx).
  exists r. split; [exact E|].
  assert (Hhigh : forall write set j, 0 <= set < 2 ^ Z.of_nat n -> ~ (0 <= j < 0 + Z.of_nat n) -> 0 <= j ->
    Z.testbit set j = false /\ is_bad write set j = false /\ is_ready write set j = false).
  { intros write set j Hs Hj Hp. unfold is_bad, is_ready. by rewrite (high_bits_zero (Z.of_nat n)) by lia. }
  destruct r as [[[reads' writes'] k]|e]; cbn [exact] in Hx.
  - destruct Hx as (H1 & H2 & H3 & ->). split; [|split; [|split; [|done]]].
    + intros j Hj. destruct (decide (0 <= j < 0 + Z.of_nat n)); [by apply H1|].
      split; [by apply (Hhigh false reads)|by apply (Hhigh true writes)].
    + intros j Hj. rewrite H2 by done. case_decide as Hd; [done|]. destruct (Hhigh false reads j Hr Hd Hj) as (-> & _ & ->). done.
    + intros j Hj. rewrite H3 by done. case_decide as Hd; [done|]. destruct (Hhigh true writes j Hw Hd Hj) as (-> & _ & ->). done.
  - destruct Hx as (-> & j & _ & Hj). split; [done|]. by exists j.
Qed.

End Select.

End Proofs.

(** ** Examples: a directory 1 with files *)

Section Runs.

Record disk := mkDisk { names : list (list Z * Z); bytes_of : gmap Z (list Z) }.

Definition disk_content (n : disk) (p : Z) : list Z := default [] (bytes_of n !! p).
Definition disk_put (p : Z) (l : list Z) (n : disk) : disk := mkDisk (names n) (<[p := l]> (bytes_of n)).
Definition disk_find (n : disk) (name : list Z) : result Z :=
  match List.find (fun e => bool_decide (fst e = name)) (names n) with Some e => Good (snd e) | None => Bad ENOENT end.

#[local] Instance disk_nodes : Nodes disk := {
  stat_of n p := if p =? 1 then mkStat (Z.lor (TYPE_MODE VFS_TYPE_DIR) 0x1ff) 1 0 0 0 0
                 else mkStat (Z.lor (TYPE_MODE VFS_TYPE_REG) 0x1b6) 1 0 0 0 (Z.of_nat (List.length (disk_content n p)));
  set_stat _ _ n := n;
  superblock _ _ := 1;
  root_node _ _ := 1;
  vfsNodeCopy _ := mret tt;
  vfsNodeClose _ := mret tt;
  vfsNodeLookup _ _ name := fun n => Some (disk_find n name, n);
  vfsNodeLink _ _ _ _ := bad ENOSPC;
  vfsNodeUnlink _ _ _ _ := bad EACCES;
  vfsNodeTrunc p _ len := fun n => Some (Good tt, disk_put p (take (Z.to_nat len) (disk_content n p)) n);
  vfsNodeReaddirAt _ _ _ _ := mret (0, None);
  vfsSuperNewNode _ := bad ENOSPC;
  vfsSuperClose _ := mret tt;
  getDeviceWithId _ := None }.

#[local] Instance disk_files : FileNodes disk := {
  file_node o := match o with RegularFile p _ _ => mret p | _ => bad EINVAL end;
  real_node _ p := p;
  stat_bytes _ _ := [];
  vfsNodeReadAt p _ offset len _ := fun n => Some (Good (take (Z.to_nat len) (drop (Z.to_nat offset) (disk_content n p))), n);
  vfsNodeWriteAt p _ offset l _ := fun n =>
    Some (Good (Z.of_nat (List.length l)), disk_put p (write_at offset l (disk_content n p)) n);
  vfsNodeReadEntries _ _ _ _ := bad ENOTDIR;
  vfsNodeIoctl _ _ _ _ := bad ENOTTY;
  vfsNodeIsReady n p _ write := write || bool_decide (disk_content n p <> []);
  vfsSuperWriteNode _ := mret tt;
  createPipeFile := bad ENOMEM;
  createPipeFileClone _ := bad ENOMEM;
  vfsCreateSuperblock _ _ _ _ := bad EINVAL;
  device_name _ := None }.

#[local] Instance disk_laws : FileLaws (N := disk).
Proof.
  refine {| regular := fun p => p <> 1; content := disk_content |}.
  - intros node p offset len block n _ _ _. by eexists _, n.
  - intros node p offset l block n _ _. eexists _, _. split; [done|]. split.
    + intros x _ Hx. unfold disk_content, disk_put. cbn. by rewrite lookup_insert_ne.
    + split; [lia|]. unfold disk_content at 1, disk_put. cbn. rewrite lookup_insert_eq. cbn.
      by rewrite take_ge by lia.
  - intros node n Hn. cbn. by rewrite (proj2 (Z.eqb_neq node 1)).
Defined.

Definition root_user : Process := mkProcess 0 0 0 (cstr "/").

(** Process 1 has [/f] open for both as 0 and 1, process 2 for reading as 0; the
    string "/f" is at 100 in the memory of process 1, "new" at 200. *)
Definition ex_table : FileTable.state :=
  FileTable.mkState (<[10 := FileTable.mkDesc 0 0 100 1]> (<[11 := FileTable.mkDesc 1 0 100 1]> {[ 12 := FileTable.mkDesc 0 0 200 1 ]}))
    (<[100 := FileTable.mkFile 2 3]> {[ 200 := FileTable.mkFile 1 1 ]}) (<[1 := [10; 11]]> {[ 2 := [12] ]}).
Definition ex_memory (q : Z) : Z -> Z :=
  put_bytes (put_bytes (fun _ => 0) 100 (cstr "/f")) 200 (cstr "new").
Definition ex_state : state (N := disk) :=
  mkState ex_table (<[100 := mkData 2 (Some (cstr "/f" ++ [0])) 0]> {[ 200 := mkData 2 (Some (cstr "/f" ++ [0])) 0 ]})
    (mkVfs (mkDisk [(cstr "f", 2)] {[ 2 := cstr "old text" ]}) ∅ (Some 1) [])
    {[ 1 := root_user; 2 := root_user ]} ex_memory.

Lemma ex_descriptors_ok : FileTable.ok ex_table.
Proof.
  assert (Ht : forall q, FileTable.table ex_table q = if decide (q = 1) then [10; 11] else if decide (q = 2) then [12] else []).
  { intros q. unfold FileTable.table, ex_table. cbn [FileTable.tables]. destruct (decide (q = 1)) as [->|]; [done|].
    rewrite lookup_insert_ne by done. destruct (decide (q = 2)) as [->|]; [done|]. by rewrite lookup_singleton_ne. }
  split.
  - intros q. rewrite Ht. repeat case_decide.
    + exists [FileTable.mkDesc 0 0 100 1; FileTable.mkDesc 1 0 100 1]. split; [by repeat constructor|].
      cbn. repeat constructor; cbn; lia.
    + exists [FileTable.mkDesc 0 0 200 1]. split; [by repeat constructor|]. by repeat constructor.
    + exists []. split; [constructor|done].
  - intros p d Hp. unfold ex_table in Hp. cbn [FileTable.descs] in Hp.
    repeat (apply lookup_insert_Some in Hp as [[_ <-]|[_ Hp]]; [split; cbn; lia|]).
    apply lookup_singleton_Some in Hp as [_ <-]. split; cbn; lia.
  - intros q q' p. rewrite !Ht. repeat case_decide; subst; rewrite ?elem_of_cons, ?elem_of_nil; try done; lia.
  - intros p d Hp. unfold ex_table in *. cbn [FileTable.descs FileTable.files] in *.
    repeat (apply lookup_insert_Some in Hp as [[_ <-]|[_ Hp]]; [by eexists|]).
    apply lookup_singleton_Some in Hp as [_ <-]. by eexists.
  - intros f v Hf. unfold ex_table in Hf. cbn [FileTable.files] in Hf.
    apply lookup_insert_Some in Hf as [[<- <-]|[_ Hf]]; [vm_compute; repeat split; congruence|].
    apply lookup_singleton_Some in Hf as [<- <-]. vm_compute; repeat split; congruence.
Qed.

Lemma ex_held : held ex_table.
Proof.
  split; [apply ex_descriptors_ok|..]; unfold ex_table; cbn [FileTable.descs].
  - intros p [d Hp]. repeat (apply lookup_insert_Some in Hp as [[<- _]|[_ Hp]]; [done|]). by apply lookup_singleton_Some in Hp as [<- _].
  - intros p d Hp. repeat (apply lookup_insert_Some in Hp as [[_ <-]|[_ Hp]]; [done|]). by apply lookup_singleton_Some in Hp as [_ <-].
Qed.

Lemma ex_files_ok : files_ok ex_state.
Proof.
  split; [apply ex_held|]. intros f [v Hf]. unfold ex_state, ex_table in *. cbn [tbl data FileTable.files] in *.
  apply lookup_insert_Some in Hf as [[<- _]|[_ Hf]]; [by eexists|]. apply lookup_singleton_Some in Hf as [<- _]. by eexists.
Qed.

(** "new" is written over the start of the file through one number, and read
    back through the other after a seek; the other process has a position of its
    own. *)
Definition ex_calls : list call :=
  [Write 1 0 200 3; Seek 1 1 0 VFS_SEEK_SET; Read 1 1 300 3; Read 2 0 300 100; Read 1 7 300 1; Write 2 0 200 3; Seek 1 0 2 VFS_SEEK_END].

Lemma file_calls_refine_witness :
  exists rs s', run_calls ex_calls ex_state = Some (rs, s') /\ tbl s' = tbl ex_state /\
    rs = [3; 0; 3; 8; - FileTable.EBADF; - FileTable.EBADF; 10] /\
    posix_calls (tbl ex_state) (node_of ex_state) ex_calls (abs ex_state) rs (abs s').
Proof.
  destruct (file_calls_refine ex_calls ex_state ex_files_ok) as (rs & s' & E & Hp & Ht & _).
  { repeat constructor; vm_compute; congruence. }
  exists rs, s'. split; [exact E|]. split; [exact Ht|]. split; [|exact Hp].
  assert (X : fst <$> run_calls ex_calls ex_state = Some [3; 0; 3; 8; - FileTable.EBADF; - FileTable.EBADF; 10]) by (vm_compute; reflexivity).
  rewrite E in X. by injection X.
Defined.

Lemma read_back :
  (fun x => bytes_at (user (snd x) 1) 300 3) <$> run_calls ex_calls ex_state = Some (cstr "new").
Proof. vm_compute. reflexivity. Qed.

Lemma next_address_null used : FileTable.next_address used <> 0.
Proof.
  unfold FileTable.next_address. enough (0 <= foldr Z.max 0 (elements used)) by lia.
  induction (elements used) as [|x l IH]; cbn; lia.
Qed.

Definition ex_opened := open_result 1 (cstr "/f") (asked_flags 0x40002) (u16 0) ex_state.

Lemma openSyscall_correct_witness :
  exists n s', openSyscall 10 (fun _ => true) FileTable.next_address 1 100 0x40002 0 ex_state = Some (n, s') /\
    n = 2 /\ FileTable.fds (tbl s') 1 = <[2 := (1, 201)]> (FileTable.fds ex_table 1) /\
    FileTable.files (tbl s') !! 201 = Some (FileTable.mkFile 1 3).
Proof.
  destruct ex_opened as [[[[o node]|k] v]|] eqn:Eo; [|by vm_compute in Eo|by vm_compute in Eo].
  destruct (openSyscall_correct 10 (fun _ => true) FileTable.next_address FileTable.next_address_fresh next_address_null
    ex_state 1 100 0x40002 0 (cstr "/f") (Good (o, node)) v) as (n & s' & v1 & off & E & _ & _ & _ & Hfds & _ & Hfiles & _).
  - apply ex_held.
  - reflexivity.
  - exact Eo.
  - exists n, s'. split; [exact E|].
    assert (X : fst <$> openSyscall 10 (fun _ => true) FileTable.next_address 1 100 0x40002 0 ex_state = Some 2) by (vm_compute; reflexivity).
    rewrite E in X. injection X as ->. split; [done|]. split; [exact Hfds|]. rewrite Hfiles. vm_compute. reflexivity.
Defined.

(** Both numbers of process 1 are ready for writing, and one is asked for
    reading. *)
Lemma select_finds_ready_witness :
  exists r, select_loop 2 1 0 1 3 0 ex_state = Some (r, ex_state) /\ r = Good (1, 3, 3).
Proof.
  destruct (select_finds_ready ex_state 1 ex_held) with (n := 2%nat) (reads := 1) (writes := 3) as (r & E & _); [..|exists r].
  - intros f [v Hf]. destruct (fo_data _ ex_files_ok f ltac:(by eexists)) as (d & Hd & _). by exists d.
  - lia.
  - cbn. lia.
  - cbn. lia.
  - split; [exact E|].
    assert (X : fst <$> select_loop 2 1 0 1 3 0 ex_state = Some (Good (1, 3, 3))) by (vm_compute; reflexivity).
    rewrite E in X. by injection X.
Defined.

(** [1 << i] in the test for writing is undefined from the 32nd number on. *)
Lemma select_of_32_numbers_undefined : select_loop 32 1 0 0 0 0 ex_state = None.
Proof. vm_compute. reflexivity. Qed.

(** [SEEK_CUR] with a negative offset goes below zero without an error. *)
Lemma seek_below_zero :
  fst <$> run_calls [Seek 1 0 (2 ^ 64 - 5) VFS_SEEK_CUR] ex_state = Some [2 ^ 64 - 5].
Proof. vm_compute. reflexivity. Qed.

End Runs.

End FileSyscall.
