(* ===== verification/Random.v ===== *)
(** * Random: [kernel/src/util/random.c]

    The random numbers of the kernel: entropy pools that are hashed with the
    compression function of SHA-256, and AES-256 in counter mode, in the manner of
    the Fortuna generator.  A word is a [Z] of 32 bits and an array a list; the
    lengths are part of the invariant below.  A shift of an [int] into its sign
    bit gives the pattern that the compiler of the kernel documents.  The clock is
    an argument, and the spin lock makes each operation one step. *)
From S2P Require Import Prelude Util.

Local Open Scope c_scope.

Module Random.

(** ** Definitions *)

(** A constant table of [n] entries of [w] bits, written as its hexadecimal digits. *)
Definition entries (w n digits : Z) : list Z :=
  (fun i => Z.land (Z.shiftr digits (w * (n - 1 - i))) (Z.ones w)) <$> seqZ 0 n.

Definition sbox : list Z := Eval vm_compute in entries 8 256
  0x637c777bf26b6fc53001672bfed7ab76ca82c97dfa5947f0add4a2af9ca472c0b7fd9326363ff7cc34a5e5f171d8311504c723c31896059a071280e2eb27b27509832c1a1b6e5aa0523bd6b329e32f8453d100ed20fcb15b6acbbe394a4c58cfd0efaafb434d338545f9027f503c9fa851a3408f929d38f5bcb6da2110fff3d2cd0c13ec5f974417c4a77e3d645d197360814fdc222a908846eeb814de5e0bdbe0323a0a4906245cc2d3ac629195e479e7c8376d8dd54ea96c56f4ea657aae08ba78252e1ca6b4c6e8dd741f4bbd8b8a703eb5664803f60e613557b986c11d9ee1f8981169d98e949b1e87e9ce5528df8ca1890dbfe6426841992d0fb054bb16.

Definition sha_constants : list Z := Eval vm_compute in entries 32 64
  0x428a2f9871374491b5c0fbcfe9b5dba53956c25b59f111f1923f82a4ab1c5ed5d807aa9812835b01243185be550c7dc372be5d7480deb1fe9bdc06a7c19bf174e49b69c1efbe47860fc19dc6240ca1cc2de92c6f4a7484aa5cb0a9dc76f988da983e5152a831c66db00327c8bf597fc7c6e00bf3d5a7914706ca63511429296727b70a852e1b21384d2c6dfc53380d13650a7354766a0abb81c2c92e92722c85a2bfe8a1a81a664bc24b8b70c76c51a3d192e819d6990624f40e3585106aa07019a4c1161e376c082748774c34b0bcb5391c0cb34ed8aa4a5b9cca4f682e6ff3748f82ee78a5636f84c878148cc7020890befffaa4506cebbef9a3f7c67178f2.

Definition gmul2 : list Z := Eval vm_compute in entries 8 256
  0x00020406080a0c0e10121416181a1c1e20222426282a2c2e30323436383a3c3e40424446484a4c4e50525456585a5c5e60626466686a6c6e70727476787a7c7e80828486888a8c8e90929496989a9c9ea0a2a4a6a8aaacaeb0b2b4b6b8babcbec0c2c4c6c8caccced0d2d4d6d8dadcdee0e2e4e6e8eaeceef0f2f4f6f8fafcfe1b191f1d131117150b090f0d030107053b393f3d333137352b292f2d232127255b595f5d535157554b494f4d434147457b797f7d737177756b696f6d636167659b999f9d939197958b898f8d83818785bbb9bfbdb3b1b7b5aba9afada3a1a7a5dbd9dfddd3d1d7d5cbc9cfcdc3c1c7c5fbf9fffdf3f1f7f5ebe9efede3e1e7e5.

Definition gmul3 : list Z := Eval vm_compute in entries 8 256
  0x000306050c0f0a09181b1e1d14171211303336353c3f3a39282b2e2d24272221606366656c6f6a69787b7e7d74777271505356555c5f5a59484b4e4d44474241c0c3c6c5cccfcac9d8dbdeddd4d7d2d1f0f3f6f5fcfffaf9e8ebeeede4e7e2e1a0a3a6a5acafaaa9b8bbbebdb4b7b2b1909396959c9f9a99888b8e8d848782819b989d9e97949192838085868f8c898aaba8adaea7a4a1a2b3b0b5b6bfbcb9bafbf8fdfef7f4f1f2e3e0e5e6efece9eacbc8cdcec7c4c1c2d3d0d5d6dfdcd9da5b585d5e57545152434045464f4c494a6b686d6e67646162737075767f7c797a3b383d3e37343132232025262f2c292a0b080d0e07040102131015161f1c191a.

(** [table[i]] *)
Definition at_index (table : list Z) (i : Z) : Z := table !!! Z.to_nat i.

Definition rotateRight (v r : Z) : Z := Z.lor (Z.shiftr v r) (u32 (Z.shiftl v (32 - r))).
Definition rotateLeft (v r : Z) : Z := Z.lor (u32 (Z.shiftl v r)) (Z.shiftr v (32 - r)).

(** [(v >> 8 * k) & 0xff] *)
Definition byte_of (k v : Z) : Z := Z.land (Z.shiftr v (8 * k)) 0xff.

(** [b0 | (b1 << 8) | (b2 << 16) | (b3 << 24)] *)
Definition word_of (b0 b1 b2 b3 : Z) : Z :=
  Z.lor (Z.lor (Z.lor b0 (Z.shiftl b1 8)) (Z.shiftl b2 16)) (u32 (Z.shiftl b3 24)).

Definition subWord (v : Z) : Z :=
  word_of (at_index sbox (byte_of 0 v)) (at_index sbox (byte_of 1 v))
          (at_index sbox (byte_of 2 v)) (at_index sbox (byte_of 3 v)).

(** *** SHA-256 *)

Definition sha256Init : list Z :=
  [0x6a09e667; 0xbb67ae85; 0x3c6ef372; 0xa54ff53a; 0x510e527f; 0x9b05688c; 0x1f83d9ab; 0x5be0cd19].

(** The schedule grows from the block by [n] words; its length is the [i] of the loop. *)
Fixpoint schedule_loop (n : nat) (schedule : list Z) : list Z :=
  match n with
  | O => schedule
  | S n =>
      let i := length schedule in
      let w k := schedule !!! (i - k)%nat in
      let s0 := Z.lxor (Z.lxor (rotateRight (w 15%nat) 7) (rotateRight (w 15%nat) 18)) (rotateRight (w 15%nat) 3) in
      let s1 := Z.lxor (Z.lxor (rotateRight (w 2%nat) 17) (rotateRight (w 2%nat) 19)) (rotateRight (w 2%nat) 10) in
      schedule_loop n (schedule ++ [u32 (w 16%nat + s0 + w 7%nat + s1)])
  end.

Record Bits256 := mkHash { ha : Z; hb : Z; hc : Z; hd : Z; he : Z; hf : Z; hg : Z; hh : Z }.

Definition round (x : Bits256) (constant word : Z) : Bits256 :=
  let '(mkHash a b c d e f g h) := x in
  let S1 := Z.lxor (Z.lxor (rotateRight e 6) (rotateRight e 11)) (rotateRight e 25) in
  let ch := Z.lxor (Z.land e f) (Z.land (u32 (Z.lnot e)) g) in
  let temp1 := u32 (h + S1 + ch + constant + word) in
  let S0 := Z.lxor (Z.lxor (rotateRight a 2) (rotateRight a 13)) (rotateRight a 22) in
  let maj := Z.lxor (Z.lxor (Z.land a b) (Z.land a c)) (Z.land b c) in
  let temp2 := u32 (S0 + maj) in
  mkHash (u32 (temp1 + temp2)) a b c (u32 (d + temp1)) e f g.

Fixpoint round_loop (constants schedule : list Z) (x : Bits256) : Bits256 :=
  match constants, schedule with
  | k :: constants, w :: schedule => round_loop constants schedule (round x k w)
  | _, _ => x
  end.

(** [memcpy(schedule, block, sizeof(Bits256))] copies eight words, so that the
    words 8 to 15 of [schedule] keep what was on the stack: [stack]. *)
Definition sha256Block (stack hash block : list Z) : list Z :=
  let schedule := schedule_loop 48 (take 8 block ++ stack) in
  match hash with
  | [a; b; c; d; e; f; g; h] =>
      let x := round_loop sha_constants schedule (mkHash a b c d e f g h) in
      [u32 (a + ha x); u32 (b + hb x); u32 (c + hc x); u32 (d + hd x);
       u32 (e + he x); u32 (f + hf x); u32 (g + hg x); u32 (h + hh x)]
  | _ => hash
  end.

(** *** AES-256 *)

Definition aes_constants : list Z := [0x8d; 0x01; 0x02; 0x04; 0x08; 0x10; 0x20; 0x40; 0x80; 0x1b; 0x36].

(** [flat_keys] grows from the key by [n] words; its length is the [i] of the loop. *)
Fixpoint expand_loop (n : nat) (flat_keys : list Z) : list Z :=
  match n with
  | O => flat_keys
  | S n =>
      let i := length flat_keys in
      let tmp := flat_keys !!! (i - 1)%nat in
      let tmp := if (i mod 8 =? 0)%nat then Z.lxor (subWord (rotateLeft tmp 8)) (aes_constants !!! (i / 8)%nat)
                 else if (i mod 8 =? 4)%nat then subWord tmp else tmp in
      expand_loop n (flat_keys ++ [Z.lxor (flat_keys !!! (i - 8)%nat) tmp])
  end.

Definition aesKeyExpansion (key : list Z) : list Z := expand_loop (4 * 15 - 8) (take 4 key ++ take 4 (drop 4 key)).

(** [round_keys[i]] *)
Definition round_key (flat_keys : list Z) (i : nat) : list Z := take 4 (drop (4 * i) flat_keys).

Definition aesAddRoundKey (block key : list Z) : list Z := zip_with Z.lxor block key.

Definition aesSubBytes (block : list Z) : list Z := subWord <$> block.

Definition merge (mask x y : Z) : Z := Z.lor (Z.land x (u32 (Z.lnot mask))) (Z.land y mask).

Definition shift_once (mask : Z) (block : list Z) : list Z :=
  let tmp := block !!! 0%nat in
  let block := foldl (fun block j => <[j := merge mask (block !!! j) (block !!! (j + 1)%nat)]> block) block (seq 0 3) in
  <[3%nat := merge mask (block !!! 3%nat) tmp]> block.

Definition aesShiftRows (block : list Z) : list Z :=
  foldl (fun block i => Nat.iter i (shift_once (u32 (Z.shiftl 0xff (Z.of_nat i * 8)))) block) block (seq 1 3).

(** [None] is the [panic]. *)
Definition mulBytes (a b : Z) : option Z :=
  if a =? 2 then Some (at_index gmul2 b) else if a =? 3 then Some (at_index gmul3 b) else None.

Definition mixColumn (v : Z) : option Z :=
  let a0 := byte_of 0 v in let a1 := byte_of 1 v in let a2 := byte_of 2 v in let a3 := byte_of 3 v in
  let row x y p q := x ← mulBytes 2 x; y ← mulBytes 3 y; Some (Z.lxor (Z.lxor (Z.lxor x y) p) q) in
  b0 ← row a0 a1 a2 a3; b1 ← row a1 a2 a0 a3; b2 ← row a2 a3 a0 a1; b3 ← row a3 a0 a1 a2;
  Some (word_of b0 b1 b2 b3).

Definition aesMixColumns (block : list Z) : option (list Z) := mapM mixColumn block.

Fixpoint rounds (flat_keys : list Z) (n : nat) (i : nat) (block : list Z) : option (list Z) :=
  match n with
  | O => Some block
  | S n =>
      block ← aesMixColumns (aesShiftRows (aesSubBytes block));
      rounds flat_keys n (i + 1) (aesAddRoundKey block (round_key flat_keys (i + 1)))
  end.

(** With the round keys, and as the code has it, with the key. *)
Definition aes_with (flat_keys block : list Z) : option (list Z) :=
  block ← rounds flat_keys 13 0 (aesAddRoundKey block (round_key flat_keys 0));
  Some (aesAddRoundKey (aesShiftRows (aesSubBytes block)) (round_key flat_keys 14)).

Definition aesBlock (key block : list Z) : option (list Z) := aes_with (aesKeyExpansion key) block.

(** *** The generator *)

Definition MIN_RESEED_SIZE : Z := 32.
Definition ENTROPY_POOLS : Z := 32.
Definition CLOCKS_PER_SEC : Z := 10000000.

(** The variables of the file, and the memory the numbers are written to. *)
Record state := mkState {
  pools : list (list Z);
  pools_size : Z;
  acc_count : Z;
  req_count : Z;
  key : list Z;
  counter : list Z;
  last_reseed : Z;
  memory : Z -> Z;
}.

Abbreviation G := (M state).

Definition set_entropy (p : list (list Z)) (size acc : Z) (s : state) : state :=
  mkState p size acc (req_count s) (key s) (counter s) (last_reseed s) (memory s).
Definition set_seed (size req : Z) (k : list Z) (at_ : Z) (s : state) : state :=
  mkState (pools s) size (acc_count s) req k (counter s) at_ (memory s).
Definition set_key (k : list Z) (s : state) : state :=
  mkState (pools s) (pools_size s) (acc_count s) (req_count s) k (counter s) (last_reseed s) (memory s).
Definition set_counter (c : list Z) (s : state) : state :=
  mkState (pools s) (pools_size s) (acc_count s) (req_count s) (key s) c (last_reseed s) (memory s).
Definition set_memory (m : Z -> Z) (s : state) : state :=
  mkState (pools s) (pools_size s) (acc_count s) (req_count s) (key s) (counter s) (last_reseed s) m.

Definition get : G state := fun s => Some (s, s).
Definition modify (f : state -> state) : G unit := fun s => Some (tt, f s).

(** The words of little-endian bytes, and the bytes of words. *)
Fixpoint words (l : list Z) : list Z :=
  match l with
  | a :: b :: c :: d :: l => word_of a b c d :: words l
  | _ => []
  end.
Definition bytes4 (v : Z) : list Z := [byte_of 0 v; byte_of 1 v; byte_of 2 v; byte_of 3 v].
Definition to_bytes (l : list Z) : list Z := concat (bytes4 <$> l).

(** [size] bytes of [data] are copied behind the first two words of [block]; the
    rest of [block] is what was on the stack. *)
Definition event_block (time : Z) (data garbage : list Z) : list Z :=
  u32 time :: Z.of_nat (length data) :: words (data ++ drop (length data) garbage).

(** [p[i]]; [None] is out of range. *)
Definition index (p : list (list Z)) (i : nat) : G (list Z) := fun s => pool ← p !! i; Some (pool, s).

Definition addRandomEvent (time : Z) (data garbage stack : list Z) : G unit :=
  massert (Z.of_nat (length data) <? 32 - 2 * 4);;
  s ← get;
  let '(p, size) := if acc_count s =? 0 then (replicate (Z.to_nat ENTROPY_POOLS) sha256Init, 0)
                    else (pools s, pools_size s) in
  let i := Z.to_nat (acc_count s mod ENTROPY_POOLS) in
  pool ← index p i;
  let p := <[i := sha256Block stack pool (event_block time data garbage)]> p in
  let acc := acc_count s +% 1 in
  modify (set_entropy p (if acc mod ENTROPY_POOLS =? 0 then size +% 1 else size) acc).

(** [1 << i] as an [int] that is converted to [size_t]. *)
Definition int_bit (i : Z) : Z := u64 (s32 (2 ^ i)).

(** [more] pools from [i] on; [stack i] is what [sha256Block] finds on the stack. *)
Fixpoint reseed_loop (more : nat) (stack : Z -> list Z) (pools : list (list Z)) (req i : Z) (key : list Z) : list Z :=
  match more with
  | O => key
  | S more =>
      if req mod int_bit i =? 0
      then reseed_loop more stack pools req (i + 1) (sha256Block (stack i) key (pools !!! Z.to_nat i))
      else key
  end.

Definition reseedRandom (time : Z) (stack : Z -> list Z) : G unit :=
  s ← get;
  let key := if last_reseed s =? 0 then sha256Init else key s in
  let key := reseed_loop (Z.to_nat ENTROPY_POOLS) stack (pools s) (req_count s) 0 key in
  modify (set_seed 0 (req_count s +% 1) key time).

(** [carry + counter[i]] is a sum of two [uint32_t]: it wraps around before it is
    widened to [uint64_t], and the next carry is always 0. *)
Fixpoint advance_loop (carry : Z) (counter : list Z) : list Z :=
  match counter with
  | [] => []
  | w :: rest =>
      if carry =? 0 then w :: rest
      else let next := u32 (carry + w) in u32 next :: advance_loop (u32 (Z.shiftr next 32)) rest
  end.

Definition advanceCounter : G unit := modify (fun s => set_counter (advance_loop 1 (counter s)) s).

Definition randomBlock : G (list Z) := fun s =>
  block ← aesBlock (key s) (counter s);
  '(_, s) ← advanceCounter s;
  Some (block, s).

(** [memcpyBetweenVirtPtr] to [addr]. *)
Definition write_out (addr : Z) (l : list Z) : G unit :=
  modify (fun s => set_memory (put_bytes (memory s) addr l) s).

Fixpoint block_loop (fuel : nat) (addr size : Z) : G Z :=
  match fuel with
  | O => fault
  | S fuel =>
      if size <=? 0 then mret addr
      else
        block ← randomBlock;
        let this := Util.umin size 16 in
        write_out addr (take (Z.to_nat this) (to_bytes block));;
        block_loop fuel (addr + this) (size - this)
  end.

Definition rekey : G unit :=
  low ← randomBlock;
  high ← randomBlock;
  modify (set_key (low ++ high)).

Fixpoint request_loop (fuel : nat) (addr size : Z) : G unit :=
  match fuel with
  | O => fault
  | S fuel =>
      if size <=? 0 then mret tt
      else
        let left := Util.umin size (2 ^ 20) in
        addr ← block_loop (S (Z.to_nat left)) addr left;
        rekey;;
        request_loop fuel addr (size - left)
  end.

Definition getRandom (now time : Z) (stack : Z -> list Z) (addr size : Z) : G unit :=
  s ← get;
  (if (last_reseed s =? 0) || ((last_reseed s +% CLOCKS_PER_SEC / 10 <? now) && (pools_size s >=? MIN_RESEED_SIZE))
   then reseedRandom time stack else mret tt);;
  request_loop (S (Z.to_nat size)) addr size.

(** ** Words and their bytes *)

(** Equalities of exclusive ors, bit by bit. *)
Ltac xor_bits :=
  apply Z.bits_inj'; intros i Hi; rewrite ?Z.lxor_spec, ?Z.bits_0;
  repeat match goal with |- context [Z.testbit ?x i] => destruct (Z.testbit x i) end; reflexivity.

(** Equalities of lists, entry by entry. *)
Ltac entries tac := repeat (apply (f_equal2 cons); [solve [tac]|]); reflexivity.

Definition is_word (v : Z) : Prop := 0 <= v < 2 ^ 32.
Definition is_byte (b : Z) : Prop := 0 <= b < 256.

(** A property of all bytes is decided by trying them. *)
Lemma all_bytes (P : Z -> bool) : forallb P (seqZ 0 256) = true -> forall b, is_byte b -> P b = true.
Proof.
  intros H b Hb. rewrite forallb_forall in H. apply H, list_elem_of_In, elem_of_seqZ. unfold is_byte in Hb. lia.
Qed.

Lemma byte_of_div k v : 0 <= k -> byte_of k v = v / 256 ^ k mod 256.
Proof.
  intros Hk. unfold byte_of. change 0xff with (Z.ones 8). rewrite Z.land_ones, Z.shiftr_div_pow2 by lia.
  rewrite Z.pow_mul_r by lia. done.
Qed.

Lemma byte_of_range k v : is_byte (byte_of k v).
Proof. unfold byte_of, is_byte. change 0xff with (Z.ones 8). rewrite Z.land_ones by lia. apply Z.mod_pos_bound. lia. Qed.

Lemma word_of_sum a b c d : is_byte a -> is_byte b -> is_byte c -> is_byte d ->
  word_of a b c d = a + 256 * b + 65536 * c + 16777216 * d.
Proof.
  unfold is_byte, word_of. intros. rewrite (wrap_small 32) by (rewrite Z.shiftl_mul_pow2; lia).
  rewrite (Z.lor_comm a), lor_shiftl_add, (Z.lor_comm _ (Z.shiftl c 16)), lor_shiftl_add,
    (Z.lor_comm _ (Z.shiftl d 24)), lor_shiftl_add by lia. lia.
Qed.

Lemma word_of_word a b c d : is_byte a -> is_byte b -> is_byte c -> is_byte d -> is_word (word_of a b c d).
Proof. intros. rewrite word_of_sum by done. unfold is_byte, is_word in *. lia. Qed.

Lemma bytes4_word a b c d : is_byte a -> is_byte b -> is_byte c -> is_byte d -> bytes4 (word_of a b c d) = [a; b; c; d].
Proof.
  intros. unfold bytes4. rewrite word_of_sum, !byte_of_div by done.
  change (256 ^ 0) with 1; change (256 ^ 1) with 256; change (256 ^ 2) with 65536; change (256 ^ 3) with 16777216.
  unfold is_byte in *. entries ltac:(Z.div_mod_to_equations; lia).
Qed.

Lemma word_bytes4 v : is_word v -> word_of (byte_of 0 v) (byte_of 1 v) (byte_of 2 v) (byte_of 3 v) = v.
Proof.
  intros Hv. rewrite word_of_sum by apply byte_of_range. rewrite !byte_of_div by done.
  change (256 ^ 0) with 1; change (256 ^ 1) with 256; change (256 ^ 2) with 65536; change (256 ^ 3) with 16777216.
  unfold is_word in *. Z.div_mod_to_equations. lia.
Qed.

Lemma byte_of_lxor k x y : byte_of k (Z.lxor x y) = Z.lxor (byte_of k x) (byte_of k y).
Proof.
  unfold byte_of. rewrite Z.shiftr_lxor. apply Z.bits_inj'. intros i Hi. rewrite !Z.lxor_spec, !Z.land_spec, Z.lxor_spec.
  by destruct (Z.testbit 0xff i); rewrite ?andb_true_r, ?andb_false_r.
Qed.

Lemma testbit_byte k v i : 0 <= k -> 0 <= i -> Z.testbit (byte_of k v) i = (i <? 8) && Z.testbit v (8 * k + i).
Proof.
  intros Hk Hi. unfold byte_of. change 0xff with (Z.ones 8). rewrite Z.land_spec, Z.testbit_ones_nonneg, Z.shiftr_spec by lia.
  rewrite andb_comm. by replace (i + 8 * k) with (8 * k + i) by lia.
Qed.

Lemma word_ext u v : is_word u -> is_word v -> bytes4 u = bytes4 v -> u = v.
Proof. intros Hu Hv [= H0 H1 H2 H3]. rewrite <- (word_bytes4 u), <- (word_bytes4 v) by done. congruence. Qed.

(** *** Bits *)

Lemma word_bits v : 0 <= v -> (forall i, 32 <= i -> Z.testbit v i = false) -> is_word v.
Proof.
  intros Hv H. split; [done|]. assert (E : Z.land v (Z.ones 32) = v).
  { apply Z.bits_inj'. intros i Hi. rewrite Z.land_spec, Z.testbit_ones_nonneg by lia.
    destruct (Z.ltb_spec i 32); [by rewrite andb_true_r|]. by rewrite H. }
  rewrite <- E, Z.land_ones by lia. by apply Z.mod_pos_bound.
Qed.

Lemma bits_word v i : is_word v -> 32 <= i -> Z.testbit v i = false.
Proof. intros Hv Hi. by apply (high_bits_zero 32). Qed.

Lemma u32_word v : is_word (u32 v).
Proof. apply wrap_range. lia. Qed.

Lemma lxor_word x y : is_word x -> is_word y -> is_word (Z.lxor x y).
Proof.
  intros Hx Hy. apply word_bits; [apply Z.lxor_nonneg; unfold is_word in *; lia|].
  intros i Hi. by rewrite Z.lxor_spec, !bits_word.
Qed.

Lemma lor_word x y : is_word x -> is_word y -> is_word (Z.lor x y).
Proof.
  intros Hx Hy. apply word_bits; [apply Z.lor_nonneg; unfold is_word in *; lia|].
  intros i Hi. by rewrite Z.lor_spec, !bits_word.
Qed.

Lemma land_word x y : is_word x -> 0 <= y -> is_word (Z.land x y).
Proof.
  intros Hx Hy. apply word_bits; [apply Z.land_nonneg; unfold is_word in *; lia|].
  intros i Hi. by rewrite Z.land_spec, bits_word.
Qed.

Lemma shiftr_word x r : is_word x -> 0 <= r -> is_word (Z.shiftr x r).
Proof.
  intros Hx Hr. apply word_bits; [apply Z.shiftr_nonneg; unfold is_word in *; lia|].
  intros i Hi. rewrite Z.shiftr_spec by lia. apply bits_word; [done|lia].
Qed.

Lemma rotateLeft_word v r : is_word v -> 0 <= r <= 32 -> is_word (rotateLeft v r).
Proof. intros. apply lor_word; [apply u32_word|apply shiftr_word; [done|lia]]. Qed.

Create HintDb words.
#[export] Hint Resolve byte_of_range u32_word lxor_word lor_word : words.

Lemma at_index_in (l : list Z) P i : Forall P l -> 0 <= i < Z.of_nat (length l) -> P (at_index l i).
Proof.
  intros Hl Hi. unfold at_index. destruct (lookup_lt_is_Some_2 l (Z.to_nat i) ltac:(lia)) as [x Hx].
  rewrite (list_lookup_total_correct _ _ _ Hx). by eapply Forall_lookup_1.
Qed.

Lemma table_byte (l : list Z) : forallb (fun b => (0 <=? b) && (b <? 256)) l = true -> length l = 256%nat ->
  forall b, is_byte b -> is_byte (at_index l b).
Proof.
  intros Hl Hn b Hb. apply at_index_in; [|rewrite Hn; exact Hb]. apply List.Forall_forall. intros x Hx.
  rewrite forallb_forall in Hl. specialize (Hl x Hx). unfold is_byte. lia.
Qed.

Lemma sbox_byte b : is_byte b -> is_byte (at_index sbox b).
Proof. by apply table_byte. Qed.
Lemma gmul2_byte b : is_byte b -> is_byte (at_index gmul2 b).
Proof. by apply table_byte. Qed.
Lemma gmul3_byte b : is_byte b -> is_byte (at_index gmul3 b).
Proof. by apply table_byte. Qed.
#[export] Hint Resolve sbox_byte gmul2_byte gmul3_byte : words.

Lemma byte_bits b : 0 <= b -> (forall i, 8 <= i -> Z.testbit b i = false) -> is_byte b.
Proof.
  intros Hv H. split; [done|]. assert (E : Z.land b (Z.ones 8) = b).
  { apply Z.bits_inj'. intros i Hi. rewrite Z.land_spec, Z.testbit_ones_nonneg by lia.
    destruct (Z.ltb_spec i 8); [by rewrite andb_true_r|]. by rewrite H. }
  rewrite <- E, Z.land_ones by lia. by apply Z.mod_pos_bound.
Qed.

Lemma lxor_byte x y : is_byte x -> is_byte y -> is_byte (Z.lxor x y).
Proof.
  intros Hx Hy. apply byte_bits; [apply Z.lxor_nonneg; unfold is_byte in *; lia|].
  intros i Hi. by rewrite Z.lxor_spec, !(high_bits_zero 8).
Qed.
#[export] Hint Resolve lxor_byte : words.

(** *** The steps on bytes *)

Lemma bytes4_subWord v : bytes4 (subWord v) = at_index sbox <$> bytes4 v.
Proof. unfold subWord. rewrite bytes4_word by auto with words. done. Qed.

Lemma subWord_word v : is_word (subWord v).
Proof. apply word_of_word; auto with words. Qed.

Lemma mixColumn_bytes v : exists w, mixColumn v = Some w /\ is_word w /\
  bytes4 w = let m2 b := at_index gmul2 b in let m3 b := at_index gmul3 b in
    match bytes4 v with
    | [a0; a1; a2; a3] => [Z.lxor (Z.lxor (Z.lxor (m2 a0) (m3 a1)) a2) a3; Z.lxor (Z.lxor (Z.lxor (m2 a1) (m3 a2)) a0) a3;
                           Z.lxor (Z.lxor (Z.lxor (m2 a2) (m3 a3)) a0) a1; Z.lxor (Z.lxor (Z.lxor (m2 a3) (m3 a0)) a1) a2]
    | _ => []
    end.
Proof. eexists. split; [reflexivity|]. rewrite bytes4_word; auto 10 with words. split; [apply word_of_word; auto 10 with words|done]. Qed.

Definition is_block (n : nat) (l : list Z) : Prop := length l = n /\ Forall is_word l.

Lemma block4 (l : list Z) : is_block 4 l -> exists a b c d, l = [a; b; c; d] /\ is_word a /\ is_word b /\ is_word c /\ is_word d.
Proof.
  intros [Hn Hl]. destruct l as [|a [|b [|c [|d [|? ?]]]]]; try done. rewrite !Forall_cons_iff in Hl. naive_solver.
Qed.

Lemma is_block4 a b c d : is_word a -> is_word b -> is_word c -> is_word d -> is_block 4 [a; b; c; d].
Proof. intros. split; [done|]. do 4 (constructor; [done|]). constructor. Qed.
#[export] Hint Resolve is_block4 subWord_word word_of_word land_word : words.

Lemma merge_byte k i x y : 0 <= k -> 0 <= i <= 3 -> k <= 3 ->
  byte_of k (merge (u32 (Z.shiftl 0xff (i * 8))) x y) = if k =? i then byte_of k y else byte_of k x.
Proof.
  intros Hk Hi Hk3. rewrite (wrap_small 32).
  2:{ rewrite Z.shiftl_mul_pow2 by lia. assert (2 ^ (i * 8) <= 2 ^ 24) by (apply Z.pow_le_mono_r; lia).
      assert (0 < 2 ^ (i * 8)) by (apply Z.pow_pos_nonneg; lia). lia. }
  change 0xff with (Z.ones 8). apply Z.bits_inj'. intros j Hj. unfold merge.
  rewrite testbit_byte by lia. assert (E : forall n, 0 <= n < 32 -> Z.testbit (u32 (Z.lnot (Z.shiftl (Z.ones 8) (i * 8)))) n = negb ((i * 8 <=? n) && (n <? i * 8 + 8))).
  { intros n Hn. unfold wrap. rewrite Z.mod_pow2_bits_low, Z.lnot_spec, testbit_mask by lia. done. }
  destruct (Z.ltb_spec j 8); cycle 1.
  { destruct (k =? i); rewrite testbit_byte by lia; destruct (Z.ltb_spec j 8); (done || lia). }
  rewrite Z.lor_spec, !Z.land_spec, E, testbit_mask by lia.
  destruct (Z.eqb_spec k i) as [->|Hne]; rewrite testbit_byte, (proj2 (Z.ltb_lt j 8)) by lia; cbn [andb].
  - rewrite (proj2 (Z.leb_le _ _)), (proj2 (Z.ltb_lt _ _)) by lia. cbn. by rewrite andb_false_r, andb_true_r.
  - replace ((i * 8 <=? 8 * k + j) && (8 * k + j <? i * 8 + 8)) with false by lia.
    cbn. by rewrite andb_false_r, andb_true_r, orb_false_r.
Qed.

Lemma merge_word mask x y : is_word x -> is_word y -> is_word mask -> is_word (merge mask x y).
Proof.
  intros Hx Hy [Hm _]. apply lor_word; apply land_word; try done. apply u32_word.
Qed.
#[export] Hint Resolve merge_word : words.

Lemma shift_once_block mask a b c d :
  shift_once mask [a; b; c; d] = [merge mask a b; merge mask b c; merge mask c d; merge mask d a].
Proof. done. Qed.

Lemma shift_rows_words a b c d : is_word a -> is_word b -> is_word c -> is_word d ->
  exists a' b' c' d', aesShiftRows [a; b; c; d] = [a'; b'; c'; d'] /\ is_block 4 [a'; b'; c'; d'] /\
    bytes4 a' = [byte_of 0 a; byte_of 1 b; byte_of 2 c; byte_of 3 d] /\
    bytes4 b' = [byte_of 0 b; byte_of 1 c; byte_of 2 d; byte_of 3 a] /\
    bytes4 c' = [byte_of 0 c; byte_of 1 d; byte_of 2 a; byte_of 3 b] /\
    bytes4 d' = [byte_of 0 d; byte_of 1 a; byte_of 2 b; byte_of 3 c].
Proof.
  intros. unfold aesShiftRows. cbn [seq foldl Nat.iter nat_rect Nat.iter]. rewrite !shift_once_block.
  do 4 eexists. split; [reflexivity|]. split; [apply is_block4; auto 12 with words|].
  unfold bytes4. cbn [Z.of_nat]. split; [|split; [|split]]; repeat rewrite merge_byte by lia; done.
Qed.

(** ** The cipher of FIPS 197, on lists of sixteen bytes *)

(** The field with 256 elements: multiplication by x, multiplication, inverse. *)
Definition xtime (b : Z) : Z := Z.lxor (Z.shiftl b 1) (if Z.testbit b 7 then 0x11b else 0).
Fixpoint gf_loop (n : nat) (a b : Z) : Z :=
  match n with
  | O => 0
  | S n => Z.lxor (if Z.testbit a 0 then b else 0) (gf_loop n (Z.shiftr a 1) (xtime b))
  end.
Definition gf_mul (a b : Z) : Z := gf_loop 8 a b.
Definition gf_inverse (b : Z) : Z := Nat.iter 253 (gf_mul b) b.

Definition of_bits (f : Z -> bool) : Z := foldr (fun i v => Z.b2z (f i) + 2 * v) 0 (seqZ 0 8).
Definition affine (b : Z) : Z :=
  of_bits (fun i => xorb (Z.testbit 0x63 i) (foldr xorb false ((fun j => Z.testbit b ((i + j) mod 8)) <$> [0; 4; 5; 6; 7]))).

Definition sub_byte (b : Z) : Z := affine (gf_inverse b).
Definition sub_bytes (s : list Z) : list Z := sub_byte <$> s.

(** The byte in row [r] and column [c] is the one at [r + 4 * c]. *)
Definition shift_rows (s : list Z) : list Z := (fun n => s !!! ((n + 4 * (n mod 4)) mod 16)%nat) <$> seq 0 16.

Definition mix_column (m col : list Z) : list Z :=
  (fun r => foldr Z.lxor 0 ((fun j => gf_mul (m !!! ((j + 4 - r) mod 4)%nat) (col !!! j)) <$> seq 0 4)) <$> seq 0 4.
Definition mix_columns (s : list Z) : list Z :=
  concat ((fun c => mix_column [2; 3; 1; 1] (take 4 (drop (4 * c) s))) <$> seq 0 4).

Definition add_round_key (s k : list Z) : list Z := zip_with Z.lxor s k.

Definition cipher_rounds (keys : nat -> list Z) (n : nat) (s : list Z) : list Z :=
  foldl (fun s i => add_round_key (mix_columns (shift_rows (sub_bytes s))) (keys i)) s (seq 1 n).
Definition cipher (keys : nat -> list Z) (s : list Z) : list Z :=
  add_round_key (shift_rows (sub_bytes (cipher_rounds keys 13 (add_round_key s (keys 0%nat))))) (keys 14%nat).

(** *** The tables of the code are the operations of the field. *)

Lemma sbox_sub_byte b : is_byte b -> at_index sbox b = sub_byte b.
Proof. intros Hb. apply Z.eqb_eq. revert b Hb. apply all_bytes. vm_compute. reflexivity. Qed.

Lemma gmul2_mul b : is_byte b -> at_index gmul2 b = gf_mul 2 b.
Proof. intros Hb. apply Z.eqb_eq. revert b Hb. apply all_bytes. vm_compute. reflexivity. Qed.

Lemma gmul3_mul b : is_byte b -> at_index gmul3 b = gf_mul 3 b.
Proof. intros Hb. apply Z.eqb_eq. revert b Hb. apply all_bytes. vm_compute. reflexivity. Qed.

Lemma gf_mul_1 b : is_byte b -> gf_mul 1 b = b.
Proof. intros Hb. apply Z.eqb_eq. revert b Hb. apply all_bytes. vm_compute. reflexivity. Qed.

(** *** One step *)

Lemma to_bytes4 a b c d : to_bytes [a; b; c; d] = bytes4 a ++ bytes4 b ++ bytes4 c ++ bytes4 d.
Proof. done. Qed.

Lemma sub_bytes_step l : to_bytes (aesSubBytes l) = sub_bytes (to_bytes l).
Proof.
  unfold to_bytes, aesSubBytes, sub_bytes. induction l as [|v l IH]; [done|].
  rewrite !fmap_cons. cbn [concat]. rewrite fmap_app, bytes4_subWord, IH. f_equal. unfold bytes4. cbn [fmap list_fmap].
  rewrite !sbox_sub_byte by apply byte_of_range. done.
Qed.

Lemma aesSubBytes_block n l : is_block n l -> is_block n (aesSubBytes l).
Proof. intros [Hn _]. split; [by unfold aesSubBytes; rewrite length_fmap|]. apply Forall_fmap, Forall_true. intros. apply subWord_word. Qed.

Lemma shift_rows_step l : is_block 4 l -> is_block 4 (aesShiftRows l) /\ to_bytes (aesShiftRows l) = shift_rows (to_bytes l).
Proof.
  intros (a & b & c & d & -> & ? & ? & ? & ?)%block4. destruct (shift_rows_words a b c d) as (a' & b' & c' & d' & -> & Hw & E1 & E2 & E3 & E4); try done.
  split; [done|]. rewrite !to_bytes4, E1, E2, E3, E4. done.
Qed.

Lemma mixColumn_mix v : exists w, mixColumn v = Some w /\ is_word w /\ bytes4 w = mix_column [2; 3; 1; 1] (bytes4 v).
Proof.
  destruct (mixColumn_bytes v) as (w & E & Hw & Hb). exists w. split; [done|split; [done|]]. rewrite Hb. cbv zeta.
  pose proof (byte_of_range 0 v). pose proof (byte_of_range 1 v). pose proof (byte_of_range 2 v). pose proof (byte_of_range 3 v).
  unfold bytes4. rewrite !gmul2_mul, !gmul3_mul by done.
  unfold mix_column. cbn -[gf_mul Z.lxor byte_of]. rewrite !gf_mul_1 by done.
  generalize (byte_of 0 v) (byte_of 1 v) (byte_of 2 v) (byte_of 3 v). intros a b c d.
  entries xor_bits.
Qed.

Lemma mix_columns_step l : is_block 4 l -> exists l', aesMixColumns l = Some l' /\ is_block 4 l' /\ to_bytes l' = mix_columns (to_bytes l).
Proof.
  intros (a & b & c & d & -> & _)%block4.
  destruct (mixColumn_mix a) as (a' & Ea & Ha & Ba), (mixColumn_mix b) as (b' & Eb & Hb & Bb),
    (mixColumn_mix c) as (c' & Ec & Hc & Bc), (mixColumn_mix d) as (d' & Ed & Hd & Bd).
  exists [a'; b'; c'; d']. split; [unfold aesMixColumns; cbn -[mixColumn]; by rewrite Ea, Eb, Ec, Ed|]. split; [by apply is_block4|].
  rewrite !to_bytes4, Ba, Bb, Bc, Bd. done.
Qed.

Lemma add_round_key_step l k : is_block 4 l -> is_block 4 k ->
  is_block 4 (aesAddRoundKey l k) /\ to_bytes (aesAddRoundKey l k) = add_round_key (to_bytes l) (to_bytes k).
Proof.
  intros (a & b & c & d & -> & ? & ? & ? & ?)%block4 (a' & b' & c' & d' & -> & ? & ? & ? & ?)%block4. split.
  - unfold aesAddRoundKey. cbn [zip_with]. auto with words.
  - unfold to_bytes, aesAddRoundKey, add_round_key. cbn -[Z.lxor byte_of]. by rewrite !byte_of_lxor.
Qed.

(** *** The key schedule is made of words *)

Lemma is_block_lookup n l i : is_block n l -> (i < n)%nat -> is_word (l !!! i).
Proof.
  intros [Hn Hl] Hi. destruct (lookup_lt_is_Some_2 l i ltac:(lia)) as [x Hx].
  rewrite (list_lookup_total_correct _ _ _ Hx). by eapply Forall_lookup_1.
Qed.

Lemma is_block_snoc n l x : is_block n l -> is_word x -> is_block (n + 1) (l ++ [x]).
Proof. intros [Hn Hl] Hx. split; [rewrite length_app; cbn; lia|]. apply Forall_app. split; [done|by constructor]. Qed.

Lemma is_block_app n m l k : is_block n l -> is_block m k -> is_block (n + m) (l ++ k).
Proof. intros [Hn Hl] [Hm Hk]. split; [rewrite length_app; lia|by apply Forall_app]. Qed.

Lemma is_block_sub i n m l : is_block m l -> (i + n <= m)%nat -> is_block n (take n (drop i l)).
Proof. intros [Hm Hl] Hi. split; [rewrite length_take, length_drop; lia|]. by apply Forall_take, Forall_drop. Qed.

(** Constant arrays of words are checked by computation. *)
Lemma is_block_check n l : (length l =? n)%nat && forallb (fun v => (0 <=? v) && (v <? 2 ^ 32)) l = true -> is_block n l.
Proof.
  rewrite andb_true_iff, Nat.eqb_eq, forallb_forall. intros [Hn Hl]. split; [done|]. apply List.Forall_forall.
  intros v Hv. specialize (Hl v Hv). unfold is_word. lia.
Qed.

Lemma aes_constants_words i : (i < 11)%nat -> is_word (aes_constants !!! i).
Proof. by apply is_block_lookup, is_block_check. Qed.

Lemma expand_loop_words n m l : is_block m l -> (8 <= m)%nat -> (m + n <= 60)%nat -> is_block (m + n) (expand_loop n l).
Proof.
  revert m l. induction n as [|n IH]; intros m l Hl Hm Hn; cbn [expand_loop]; [by rewrite Nat.add_0_r|].
  replace (m + S n)%nat with ((m + 1) + n)%nat by lia. apply IH; [|lia..]. apply is_block_snoc; [done|].
  destruct Hl as [Hlen Hl]. rewrite Hlen. assert (Hb : is_block m l) by done. apply lxor_word; [apply (is_block_lookup m); [done|lia]|].
  assert (m / 8 < 11)%nat by (apply Nat.Div0.div_lt_upper_bound; lia).
  destruct (_ =? 0)%nat; [apply lxor_word; [apply subWord_word|by apply aes_constants_words]|].
  destruct (_ =? 4)%nat; [apply subWord_word|apply (is_block_lookup m); [done|lia]].
Qed.

Lemma aesKeyExpansion_words key : is_block 8 key -> is_block 60 (aesKeyExpansion key).
Proof.
  intros Hk. unfold aesKeyExpansion. apply (expand_loop_words 52 8); [|lia..].
  apply (is_block_app 4 4); [apply (is_block_sub 0 4 8); [done|lia]|apply (is_block_sub 4 4 8); [done|lia]].
Qed.

Lemma round_key_words keys i : is_block 60 keys -> (i < 15)%nat -> is_block 4 (round_key keys i).
Proof. intros Hk Hi. apply (is_block_sub _ _ 60); [done|lia]. Qed.

Lemma rounds_run keys n i l : is_block 60 keys -> is_block 4 l -> (i + n < 15)%nat ->
  exists l', rounds keys n i l = Some l' /\ is_block 4 l' /\
    to_bytes l' = foldl (fun s i => add_round_key (mix_columns (shift_rows (sub_bytes s))) (to_bytes (round_key keys i))) (to_bytes l) (seq (i + 1) n).
Proof.
  intros Hk. revert i l. induction n as [|n IH]; intros i l Hl Hi; cbn [rounds seq foldl]; [by exists l|].
  destruct (shift_rows_step (aesSubBytes l)) as [Hs Es]; [by apply aesSubBytes_block|].
  destruct (mix_columns_step _ Hs) as (l1 & E1 & H1 & B1). rewrite E1. cbn [mbind option_bind].
  destruct (add_round_key_step l1 (round_key keys (i + 1))) as [H2 B2]; [done|apply round_key_words; [done|lia]|].
  destruct (IH (i + 1)%nat (aesAddRoundKey l1 (round_key keys (i + 1)))) as (l' & E & H' & B'); [done|lia|].
  exists l'. split; [exact E|split; [done|]]. rewrite B', B2, B1, Es, sub_bytes_step. by replace (S (i + 1)) with (i + 1 + 1)%nat by lia.
Qed.

Lemma aes_with_run keys l : is_block 60 keys -> is_block 4 l ->
  exists l', aes_with keys l = Some l' /\ is_block 4 l' /\ to_bytes l' = cipher (fun i => to_bytes (round_key keys i)) (to_bytes l).
Proof.
  intros Hk Hl. unfold aes_with.
  destruct (add_round_key_step l (round_key keys 0)) as [H0 B0]; [done|apply round_key_words; [done|lia]|].
  destruct (rounds_run keys 13 0 _ Hk H0 ltac:(lia)) as (l1 & E1 & H1 & B1). rewrite E1. cbn [mbind option_bind].
  destruct (shift_rows_step (aesSubBytes l1)) as [Hs Es]; [by apply aesSubBytes_block|].
  destruct (add_round_key_step (aesShiftRows (aesSubBytes l1)) (round_key keys 14)) as [H2 B2]; [done|apply round_key_words; [done|lia]|].
  eexists. split; [reflexivity|split; [done|]]. unfold cipher, cipher_rounds. by rewrite B2, Es, sub_bytes_step, B1, B0.
Qed.

(** C19: The block cipher of the code, with its words, masks and tables, never
    panics and is the cipher of FIPS 197 with 14 rounds on the round keys that
    the code derives: on the bytes, SubBytes by the inverse in the field, the
    rotation of the rows, and the multiplication of the columns by the matrix. *)
Theorem aesBlock_is_aes key block : is_block 8 key -> is_block 4 block ->
  exists out, aesBlock key block = Some out /\ is_block 4 out /\
    to_bytes out = cipher (fun i => to_bytes (round_key (aesKeyExpansion key) i)) (to_bytes block).
Proof. intros Hk Hl. by apply aes_with_run; [apply aesKeyExpansion_words|]. Qed.

Lemma aesBlock_is_aes_witness : exists out, aesBlock (words (seqZ 0 32)) (words (seqZ 7 16)) = Some out /\ is_block 4 out /\
  to_bytes out = cipher (fun i => to_bytes (round_key (aesKeyExpansion (words (seqZ 0 32))) i)) (to_bytes (words (seqZ 7 16))).
Proof. apply (aesBlock_is_aes (words (seqZ 0 32)) (words (seqZ 7 16))); apply is_block_check; vm_compute; reflexivity. Defined.

(** ** Decryption is possible: every step can be undone *)

Lemma sbox_inj x y : is_byte x -> is_byte y -> at_index sbox x = at_index sbox y -> x = y.
Proof.
  intros Hx Hy E. assert (Hn : NoDup sbox) by (apply (bool_decide_eq_true_1 _); vm_compute; reflexivity).
  assert (Hlen : length sbox = 256%nat) by done. unfold is_byte in *. unfold at_index in E.
  destruct (lookup_lt_is_Some_2 sbox (Z.to_nat x) ltac:(lia)) as [u Hu], (lookup_lt_is_Some_2 sbox (Z.to_nat y) ltac:(lia)) as [v Hv].
  rewrite (list_lookup_total_correct _ _ _ Hu), (list_lookup_total_correct _ _ _ Hv) in E. subst v.
  pose proof (NoDup_lookup _ _ _ _ Hn Hu Hv). lia.
Qed.

Lemma subWord_inj u v : is_word u -> is_word v -> subWord u = subWord v -> u = v.
Proof.
  intros Hu Hv E. apply word_ext; [done..|]. apply (f_equal bytes4) in E. rewrite !bytes4_subWord in E.
  injection E as E0 E1 E2 E3. unfold bytes4. entries ltac:(apply sbox_inj; auto with words).
Qed.

Lemma xtime_lxor x y : xtime (Z.lxor x y) = Z.lxor (xtime x) (xtime y).
Proof.
  unfold xtime. rewrite Z.shiftl_lxor, Z.lxor_spec.
  destruct (Z.testbit x 7), (Z.testbit y 7); cbn [xorb]; xor_bits.
Qed.

Lemma gf_loop_lxor n a x y : gf_loop n a (Z.lxor x y) = Z.lxor (gf_loop n a x) (gf_loop n a y).
Proof.
  revert a x y. induction n as [|n IH]; intros a x y; cbn [gf_loop]; [done|].
  rewrite xtime_lxor, IH. destruct (Z.testbit a 0); xor_bits.
Qed.

Lemma gf_mul_lxor a x y : gf_mul a (Z.lxor x y) = Z.lxor (gf_mul a x) (gf_mul a y).
Proof. apply gf_loop_lxor. Qed.

Definition xor4 (u v : list Z) : list Z := zip_with Z.lxor u v.

Lemma mix_column_linear m a b c d a' b' c' d' :
  mix_column m (xor4 [a; b; c; d] [a'; b'; c'; d']) = xor4 (mix_column m [a; b; c; d]) (mix_column m [a'; b'; c'; d']).
Proof.
  unfold mix_column, xor4. cbn -[gf_mul Z.lxor]. rewrite !gf_mul_lxor. entries xor_bits.
Qed.

Definition inverse_matrix : list Z := [14; 11; 13; 9].
Definition unmix (l : list Z) : list Z := mix_column inverse_matrix (mix_column [2; 3; 1; 1] l).

Lemma unmix_unit (f : Z -> list Z) : forallb (fun b => bool_decide (unmix (f b) = f b)) (seqZ 0 256) = true ->
  forall b, is_byte b -> unmix (f b) = f b.
Proof. intros H b Hb. exact (bool_decide_eq_true_1 _ (all_bytes (fun b => bool_decide (unmix (f b) = f b)) H b Hb)). Qed.

Lemma mix_column_four m l : exists a b c d, mix_column m l = [a; b; c; d].
Proof. unfold mix_column. cbn -[gf_mul]. eauto. Qed.

Lemma unmix_linear a b c d a' b' c' d' :
  unmix (xor4 [a; b; c; d] [a'; b'; c'; d']) = xor4 (unmix [a; b; c; d]) (unmix [a'; b'; c'; d']).
Proof.
  unfold unmix. rewrite mix_column_linear.
  destruct (mix_column_four [2; 3; 1; 1] [a; b; c; d]) as (? & ? & ? & ? & ->), (mix_column_four [2; 3; 1; 1] [a'; b'; c'; d']) as (? & ? & ? & ? & ->).
  apply mix_column_linear.
Qed.

Lemma unmix_id a b c d : is_byte a -> is_byte b -> is_byte c -> is_byte d -> unmix [a; b; c; d] = [a; b; c; d].
Proof.
  intros Ha Hb Hc Hd.
  assert (E : [a; b; c; d] = xor4 [a; 0; 0; 0] (xor4 [0; b; 0; 0] (xor4 [0; 0; c; 0] [0; 0; 0; d]))).
  { unfold xor4. cbn [zip_with]. entries xor_bits. }
  assert (L : unmix [a; b; c; d] = xor4 (unmix [a; 0; 0; 0]) (xor4 (unmix [0; b; 0; 0]) (xor4 (unmix [0; 0; c; 0]) (unmix [0; 0; 0; d])))).
  { rewrite E at 1. unfold xor4 at 2 3. cbn [zip_with]. rewrite unmix_linear. f_equal.
    rewrite <- unmix_linear. unfold xor4. cbn [zip_with]. rewrite <- unmix_linear. done. }
  rewrite L, E. f_equal; [|f_equal; [|f_equal]].
  - apply (unmix_unit (fun a => [a; 0; 0; 0])); [vm_compute; reflexivity|done].
  - apply (unmix_unit (fun b => [0; b; 0; 0])); [vm_compute; reflexivity|done].
  - apply (unmix_unit (fun c => [0; 0; c; 0])); [vm_compute; reflexivity|done].
  - apply (unmix_unit (fun d => [0; 0; 0; d])); [vm_compute; reflexivity|done].
Qed.

Lemma mixColumn_inj u v : is_word u -> is_word v -> mixColumn u = mixColumn v -> u = v.
Proof.
  intros Hu Hv E. destruct (mixColumn_mix u) as (x & Ex & _ & Bx), (mixColumn_mix v) as (y & Ey & _ & By).
  rewrite Ex, Ey in E. injection E as ->. rewrite Bx in By. apply (f_equal (mix_column inverse_matrix)) in By.
  unfold bytes4 in By. change (unmix (bytes4 u) = unmix (bytes4 v)) in By. unfold bytes4 in By.
  rewrite !unmix_id in By by apply byte_of_range. by apply word_ext.
Qed.

Lemma list_inj {A B} (D : A -> Prop) (f : A -> B) (l k : list A) :
  (forall x y, D x -> D y -> f x = f y -> x = y) -> Forall D l -> Forall D k -> f <$> l = f <$> k -> l = k.
Proof.
  intros Hf. revert k. induction l as [|x l IH]; intros [|y k] Hl Hk E; try done.
  apply Forall_cons_1 in Hl as [? ?]. apply Forall_cons_1 in Hk as [? ?]. rewrite !fmap_cons in E. injection E as E1 E2. f_equal; [by apply Hf|by apply IH].
Qed.

Lemma aesMixColumns_inj l k : is_block 4 l -> is_block 4 k -> aesMixColumns l = aesMixColumns k -> l = k.
Proof.
  intros [_ Hl] [_ Hk] E. apply (list_inj is_word mixColumn); [apply mixColumn_inj|done..|].
  assert (Hsome : forall l, Some <$> default [] (aesMixColumns l) = mixColumn <$> l).
  { clear. intros l. induction l as [|x l IH]; [done|]. unfold aesMixColumns in *. cbn [mapM]. destruct (mixColumn_mix x) as (w & Ew & _).
    rewrite fmap_cons, Ew, <- IH. cbn [mbind option_bind]. assert (exists k, mapM mixColumn l = Some k) as [k Hk].
    { clear. induction l as [|x l [k IH]]; [by exists []|]. destruct (mixColumn_mix x) as (w & Ew & _). exists (w :: k). cbn [mapM]. by rewrite Ew, IH. }
    rewrite Hk. done. }
  by rewrite <- !Hsome, E.
Qed.

Lemma aesSubBytes_inj l k : is_block 4 l -> is_block 4 k -> aesSubBytes l = aesSubBytes k -> l = k.
Proof. intros [_ Hl] [_ Hk]. apply (list_inj is_word); [apply subWord_inj|done..]. Qed.

Lemma aesShiftRows_inj l k : is_block 4 l -> is_block 4 k -> aesShiftRows l = aesShiftRows k -> l = k.
Proof.
  intros (a & b & c & d & -> & ? & ? & ? & ?)%block4 (e & f & g & h & -> & ? & ? & ? & ?)%block4 E.
  destruct (shift_rows_words a b c d) as (a' & b' & c' & d' & E' & _ & A & B & C & D); try done.
  destruct (shift_rows_words e f g h) as (e' & f' & g' & h' & E'' & _ & A' & B' & C' & D'); try done.
  rewrite E', E'' in E. injection E as -> -> -> ->. rewrite A in A'. rewrite B in B'. rewrite C in C'. rewrite D in D'.
  injection A' as ????. injection B' as ????. injection C' as ????. injection D' as ????.
  entries ltac:(apply word_ext; [done..|]; unfold bytes4; congruence).
Qed.

Lemma aesAddRoundKey_inj l m k : is_block 4 l -> is_block 4 m -> is_block 4 k -> aesAddRoundKey l k = aesAddRoundKey m k -> l = m.
Proof.
  intros (a & b & c & d & -> & _)%block4 (a' & b' & c' & d' & -> & _)%block4 (e & f & g & h & -> & _)%block4 E.
  injection E as E1 E2 E3 E4.
  assert (X : forall x y z, Z.lxor x z = Z.lxor y z -> x = y).
  { intros x y z H. rewrite <- (Z.lxor_0_r x), <- (Z.lxor_nilpotent z), <- Z.lxor_assoc, H, Z.lxor_assoc, Z.lxor_nilpotent, Z.lxor_0_r. done. }
  apply X in E1, E2, E3, E4. congruence.
Qed.

Lemma aesAddRoundKey_block l k : is_block 4 l -> is_block 4 k -> is_block 4 (aesAddRoundKey l k).
Proof. intros Hl Hk. exact (proj1 (add_round_key_step l k Hl Hk)). Qed.

Lemma aesShiftRows_block l : is_block 4 l -> is_block 4 (aesShiftRows l).
Proof. intros Hl. exact (proj1 (shift_rows_step l Hl)). Qed.

Lemma round_inj key l k l' k' : is_block 4 key -> is_block 4 l -> is_block 4 k ->
  aesMixColumns (aesShiftRows (aesSubBytes l)) = Some l' -> aesMixColumns (aesShiftRows (aesSubBytes k)) = Some k' ->
  is_block 4 l' -> is_block 4 k' -> aesAddRoundKey l' key = aesAddRoundKey k' key -> l = k.
Proof.
  intros Hkey Hl Hk El Ek Hl' Hk' E. pose proof (aesAddRoundKey_inj _ _ _ Hl' Hk' Hkey E) as ->.
  assert (Hm : aesMixColumns (aesShiftRows (aesSubBytes l)) = aesMixColumns (aesShiftRows (aesSubBytes k))) by congruence.
  pose proof (aesSubBytes_block 4 l Hl). pose proof (aesSubBytes_block 4 k Hk).
  apply aesSubBytes_inj; [done..|]. apply aesShiftRows_inj; [done..|]. apply aesMixColumns_inj; [by apply aesShiftRows_block..|done].
Qed.

Lemma rounds_step keys n i l l1 : aesMixColumns (aesShiftRows (aesSubBytes l)) = Some l1 ->
  rounds keys (S n) i l = rounds keys n (i + 1) (aesAddRoundKey l1 (round_key keys (i + 1))).
Proof. intros E. cbn [rounds]. rewrite E. reflexivity. Qed.

Lemma rounds_inj keys n i l k : is_block 60 keys -> is_block 4 l -> is_block 4 k -> (i + n < 15)%nat ->
  rounds keys n i l = rounds keys n i k -> l = k.
Proof.
  intros Hkeys. revert i l k. induction n as [|n IH]; intros i l k Hl Hk Hi E; [by injection E|].
  assert (Hr : is_block 4 (round_key keys (i + 1))) by (apply round_key_words; [done|lia]).
  destruct (mix_columns_step _ (aesShiftRows_block _ (aesSubBytes_block 4 l Hl))) as (l1 & El & H1 & _).
  destruct (mix_columns_step _ (aesShiftRows_block _ (aesSubBytes_block 4 k Hk))) as (k1 & Ek & H2 & _).
  rewrite (rounds_step _ _ _ _ _ El), (rounds_step _ _ _ _ _ Ek) in E.
  apply (round_inj (round_key keys (i + 1)) l k l1 k1); [done..|].
  apply (IH (i + 1)%nat); [by apply aesAddRoundKey_block..|lia|exact E].
Qed.

Lemma aes_with_inj keys l k : is_block 60 keys -> is_block 4 l -> is_block 4 k -> aes_with keys l = aes_with keys k -> l = k.
Proof.
  intros Hkeys Hl Hk. unfold aes_with.
  assert (Hr : forall i, (i < 15)%nat -> is_block 4 (round_key keys i)) by (intros; by apply round_key_words).
  assert (Hrun : forall l, is_block 4 l -> exists l', rounds keys 13 0 l = Some l' /\ is_block 4 l').
  { intros x Hx. destruct (rounds_run keys 13 0 x Hkeys Hx ltac:(lia)) as (l' & E & H & _). by exists l'. }
  pose proof (fun l k Hl Hk => rounds_inj keys 13 0 l k Hkeys Hl Hk ltac:(lia)) as Hinj.
  revert Hrun Hinj. generalize (rounds keys 13 0). intros R Hrun Hinj E.
  destruct (add_round_key_step l (round_key keys 0)) as [Hl0 _]; [done|apply Hr; lia|].
  destruct (add_round_key_step k (round_key keys 0)) as [Hk0 _]; [done|apply Hr; lia|].
  destruct (Hrun _ Hl0) as (l1 & El & H1), (Hrun _ Hk0) as (k1 & Ek & H2).
  rewrite El, Ek in E. cbn [mbind option_bind] in E. apply (inj Some) in E.
  apply aesAddRoundKey_inj in E; [|apply aesShiftRows_block; by apply aesSubBytes_block..|apply Hr; lia].
  apply aesShiftRows_inj in E; [|by apply aesSubBytes_block..]. apply aesSubBytes_inj in E; [|done..]. rewrite E, <- Ek in El.
  apply Hinj in El; [|done..]. apply aesAddRoundKey_inj in El; [done..|apply Hr; lia].
Qed.

(** ** The counter *)

Fixpoint value (l : list Z) : Z := match l with [] => 0 | w :: l => w + 2 ^ 32 * value l end.

Lemma counter_range n l : is_block n l -> 0 <= value l < 2 ^ (32 * Z.of_nat n).
Proof.
  revert l. induction n as [|n IH]; intros [|w l] [Hn Hl]; try done. cbn [value]. apply Forall_cons_1 in Hl as [Hw Hl].
  specialize (IH l ltac:(split; [by injection Hn|done])). unfold is_word in Hw.
  replace (32 * Z.of_nat (S n)) with (32 + 32 * Z.of_nat n) by lia. rewrite Z.pow_add_r by lia. nia.
Qed.

(** The counter [k] blocks later: only its lowest word counts. *)
Definition forward (c k : Z) : Z := 2 ^ 32 * (c / 2 ^ 32) + (c mod 2 ^ 32 + k) mod 2 ^ 32.

Lemma forward_0 c : forward c 0 = c.
Proof. unfold forward. rewrite Z.add_0_r, Z.mod_mod by lia. symmetry. apply Z.div_mod. lia. Qed.

Lemma forward_forward c i j : forward (forward c i) j = forward c (i + j).
Proof.
  unfold forward. pose proof (Z.mod_pos_bound (c mod 2 ^ 32 + i) (2 ^ 32) ltac:(lia)) as Hr.
  set (r := (c mod 2 ^ 32 + i) mod 2 ^ 32) in *.
  rewrite (Z.mul_comm (2 ^ 32) (c / 2 ^ 32)), Z.div_add_l, (Z.div_small r) by lia.
  rewrite (Z.add_comm (c / 2 ^ 32 * 2 ^ 32) r), Z.mod_add, (Z.mod_small r) by lia. unfold r.
  rewrite Z.add_mod_idemp_l by lia. rewrite Z.add_0_r. f_equal; [lia|]. f_equal. lia.
Qed.

Lemma forward_range c k : 0 <= c < 2 ^ 128 -> 0 <= forward c k < 2 ^ 128.
Proof.
  intros Hc. unfold forward. pose proof (Z.mod_pos_bound (c mod 2 ^ 32 + k) (2 ^ 32) ltac:(lia)).
  assert (0 <= c / 2 ^ 32 < 2 ^ 96) by (split; [apply Z.div_pos; lia|apply Z.div_lt_upper_bound; lia]). lia.
Qed.

Lemma forward_inj c i j : 0 <= i < 2 ^ 32 -> 0 <= j < 2 ^ 32 -> forward c i = forward c j -> i = j.
Proof.
  intros Hi Hj E. unfold forward in E. apply Z.add_cancel_l in E. pose proof (Z.mod_pos_bound c (2 ^ 32) ltac:(lia)).
  set (m := 2 ^ 32) in *. pose proof (Z.div_mod (c mod m + i) m ltac:(lia)). pose proof (Z.div_mod (c mod m + j) m ltac:(lia)).
  assert (0 <= (c mod m + i) / m <= 1) by (split; [apply Z.div_pos; lia|apply Z.lt_succ_r, Z.div_lt_upper_bound; lia]).
  assert (0 <= (c mod m + j) / m <= 1) by (split; [apply Z.div_pos; lia|apply Z.lt_succ_r, Z.div_lt_upper_bound; lia]). nia.
Qed.

Lemma advance_loop_value n l : is_block (S n) l ->
  is_block (S n) (advance_loop 1 l) /\ value (advance_loop 1 l) = forward (value l) 1.
Proof.
  intros [Hn Hl]. destruct l as [|w l]; [done|]. apply Forall_cons_1 in Hl as [Hw Hl]. unfold is_word in Hw.
  assert (E : advance_loop 1 (w :: l) = u32 (1 + w) :: l).
  { cbn [advance_loop Z.eqb]. cbv zeta. rewrite (wrap_small 32 (u32 _)) by apply u32_word.
    rewrite (Z.shiftr_div_pow2 (u32 _)), Z.div_small by (lia || apply u32_word). by destruct l. }
  rewrite E. split; [split; [done|constructor; [apply u32_word|done]]|]. cbn [value]. unfold forward, wrap.
  rewrite (Z.mul_comm (2 ^ 32) (value l)), Z.div_add, (Z.div_small w), Z.mod_add, (Z.mod_small w) by lia.
  rewrite (Z.add_comm 1 w). lia.
Qed.

Lemma value_inj n l k : is_block n l -> is_block n k -> value l = value k -> l = k.
Proof.
  revert l k. induction n as [|n IH]; intros [|w l] [|v k] [Hn Hl] [Hm Hk] E; try done.
  apply Forall_cons_1 in Hl as [Hw Hl]. apply Forall_cons_1 in Hk as [Hv Hk]. unfold is_word in *. cbn [value] in E.
  f_equal; [lia|]. apply IH; [split; [by injection Hn|done]|split; [by injection Hm|done]|lia].
Qed.

(** ** Blocks and streams

    [block_at key c] are the bytes of the cipher for the counter [c]. *)

Definition round_keys (key : list Z) (i : nat) : list Z := to_bytes (round_key (aesKeyExpansion key) i).

Fixpoint number_bytes (n : nat) (v : Z) : list Z :=
  match n with O => [] | S n => v mod 256 :: number_bytes n (v / 256) end.
Definition block_at (key : list Z) (c : Z) : list Z := cipher (round_keys key) (number_bytes 16 (c mod 2 ^ 128)).

Lemma number_bytes_word n w v : is_word w -> number_bytes (4 + n) (w + 2 ^ 32 * v) = bytes4 w ++ number_bytes n v.
Proof.
  intros Hw. unfold bytes4, is_word in *. cbn [number_bytes Nat.add app]. rewrite !byte_of_div by done.
  change (256 ^ 0) with 1. change (256 ^ 1) with 256. change (256 ^ 2) with 65536. change (256 ^ 3) with 16777216.
  rewrite !Z.div_div by lia. change (256 * (256 * (256 * 256))) with (2 ^ 32).
  assert (E : (w + 2 ^ 32 * v) / (256 * 256 * 256 * 256) = v).
  { change (256 * 256 * 256 * 256) with (2 ^ 32). rewrite Z.mul_comm, Z.div_add by lia. rewrite Z.div_small by lia. lia. }
  rewrite E. repeat (apply (f_equal2 cons); [Z.div_mod_to_equations; lia|]). reflexivity.
Qed.

Lemma value_bytes n l : is_block n l -> to_bytes l = number_bytes (4 * n) (value l).
Proof.
  revert l. induction n as [|n IH]; intros [|w l] [Hn Hl]; try done. apply Forall_cons_1 in Hl as [Hw Hl].
  replace (4 * S n)%nat with (4 + 4 * n)%nat by lia. cbn [value]. rewrite number_bytes_word by done.
  rewrite <- IH by (split; [by injection Hn|done]). done.
Qed.

Lemma aesBlock_with key l : aesBlock key l = aes_with (aesKeyExpansion key) l.
Proof. reflexivity. Qed.

Lemma aesBlock_run key c : is_block 8 key -> is_block 4 c -> exists l, aesBlock key c = Some l /\ is_block 4 l /\ to_bytes l = block_at key (value c).
Proof.
  intros Hk Hc. destruct (aes_with_run _ _ (aesKeyExpansion_words key Hk) Hc) as (l & E & Hl & B).
  exists l. rewrite aesBlock_with. split; [done|split; [done|]]. rewrite B, (value_bytes 4) by done.
  unfold block_at. rewrite Z.mod_small by (apply (counter_range 4); done). reflexivity.
Qed.

Lemma aesBlock_inj key c d : is_block 8 key -> is_block 4 c -> is_block 4 d -> aesBlock key c = aesBlock key d -> c = d.
Proof. intros Hk. rewrite !aesBlock_with. apply aes_with_inj. by apply aesKeyExpansion_words. Qed.

Lemma to_bytes_inj n l k : is_block n l -> is_block n k -> to_bytes l = to_bytes k -> l = k.
Proof.
  revert l k. induction n as [|n IH]; intros [|w l] [|v k] [Hn Hl] [Hm Hk] E; try done.
  apply Forall_cons_1 in Hl as [Hw Hl]. apply Forall_cons_1 in Hk as [Hv Hk].
  unfold to_bytes in E. rewrite !fmap_cons in E. cbn [concat] in E. apply app_inj_1 in E as [E1 E2]; [|done].
  f_equal; [by apply word_ext|]. apply IH; [split; [by injection Hn|done]|split; [by injection Hm|done]|done].
Qed.

(** The words of a number below [2 ^ 128]. *)
Definition counter_words (c : Z) : list Z := (fun i => c / 2 ^ (32 * i) mod 2 ^ 32) <$> [0; 1; 2; 3].

Lemma counter_words_spec c : 0 <= c < 2 ^ 128 -> is_block 4 (counter_words c) /\ value (counter_words c) = c.
Proof.
  intros Hc. assert (Hm : forall x, is_word (x mod 2 ^ 32)) by (intros; apply Z.mod_pos_bound; lia). split.
  { split; [done|]. unfold counter_words. apply Forall_fmap, Forall_true. intros. apply Hm. }
  unfold counter_words. cbn [fmap list_fmap value].
  change (32 * 0) with 0; change (32 * 1) with 32; change (32 * 2) with 64; change (32 * 3) with 96.
  change (2 ^ 0) with 1. rewrite Z.div_1_r.
  pose proof (Z.div_mod c (2 ^ 32) ltac:(lia)). pose proof (Z.div_mod (c / 2 ^ 32) (2 ^ 32) ltac:(lia)).
  pose proof (Z.div_mod (c / 2 ^ 64) (2 ^ 32) ltac:(lia)). pose proof (Z.div_mod (c / 2 ^ 96) (2 ^ 32) ltac:(lia)).
  assert (E1 : c / 2 ^ 64 = c / 2 ^ 32 / 2 ^ 32) by (rewrite Z.div_div by lia; done).
  assert (E2 : c / 2 ^ 96 = c / 2 ^ 64 / 2 ^ 32) by (rewrite Z.div_div by lia; done).
  assert (E3 : (c / 2 ^ 96) mod 2 ^ 32 = c / 2 ^ 96).
  { apply Z.mod_small. split; [apply Z.div_pos; lia|apply Z.div_lt_upper_bound; lia]. }
  rewrite <- E1 in *. rewrite <- E2 in *. lia.
Qed.

(** The cipher is a permutation. *)
Lemma block_at_inj key c d : is_block 8 key -> 0 <= c < 2 ^ 128 -> 0 <= d < 2 ^ 128 -> block_at key c = block_at key d -> c = d.
Proof.
  intros Hk Hc Hd E. destruct (counter_words_spec c Hc) as [Hbc Vc], (counter_words_spec d Hd) as [Hbd Vd].
  destruct (aesBlock_run key _ Hk Hbc) as (x & Ex & Hx & Bx), (aesBlock_run key _ Hk Hbd) as (y & Ey & Hy & By).
  rewrite Vc in Bx. rewrite Vd in By. assert (x = y) as <- by (apply (to_bytes_inj 4); [done..|congruence]).
  rewrite <- Vc, <- Vd. f_equal. apply (aesBlock_inj key); [done..|congruence].
Qed.

(** ** The state *)

Record ok (s : state) : Prop := {
  ok_pools : length (pools s) = 32%nat /\ Forall (is_block 8) (pools s);
  ok_key : is_block 8 (key s);
  ok_counter : is_block 4 (counter s);
  ok_sizes : 0 <= pools_size s < 2 ^ 64 /\ 0 <= acc_count s < 2 ^ 64 /\ 0 <= req_count s < 2 ^ 64;
}.

Lemma sha256Init_words : is_block 8 sha256Init.
Proof. by apply is_block_check. Qed.

Lemma sha256Block_words stack hash block : is_block 8 hash -> is_block 8 (sha256Block stack hash block).
Proof.
  intros [Hn Hl]. do 8 (destruct hash as [|? hash]; [done|]). destruct hash; [|done].
  unfold sha256Block. split; [done|]. repeat (constructor; [apply u32_word|]). constructor.
Qed.

Lemma addRandomEvent_ok time data garbage stack s : ok s -> (length data < 24)%nat ->
  exists s', addRandomEvent time data garbage stack s = Some (tt, s') /\ ok s' /\
    key s' = key s /\ counter s' = counter s /\ memory s' = memory s.
Proof.
  intros [[Hp Hpw] Hk Hc (H1 & H2 & H3)] Hd. unfold addRandomEvent. rewrite bind_assert by lia.
  assert (Hi : (Z.to_nat (acc_count s mod 32) < 32)%nat) by (pose proof (Z.mod_pos_bound (acc_count s) 32); lia).
  assert (Hstart : let '(p, size) := if acc_count s =? 0 then (replicate (Z.to_nat ENTROPY_POOLS) sha256Init, 0) else (pools s, pools_size s) in
    length p = 32%nat /\ Forall (is_block 8) p /\ 0 <= size < 2 ^ 64).
  { destruct (acc_count s =? 0); [|done]. split; [by rewrite length_replicate|]. split; [apply Forall_replicate, sha256Init_words|done]. }
  rewrite (bind_some get _ s s s eq_refl). destruct (if acc_count s =? 0 then _ else _) as [p size]. destruct Hstart as (Hlen & Hwords & Hsize).
  destruct (lookup_lt_is_Some_2 p (Z.to_nat (acc_count s mod ENTROPY_POOLS))) as [pool Hpool]; [unfold ENTROPY_POOLS; lia|].
  rewrite (bind_some _ _ s s pool) by (unfold index; by rewrite Hpool).
  eexists. split; [reflexivity|]. split; [|done].
  constructor; cbn [set_entropy pools key counter pools_size acc_count req_count]; [|done..|].
  - split; [by rewrite length_insert|]. apply Forall_insert; [done|]. apply sha256Block_words. by eapply Forall_lookup_1.
  - split; [case_match; [apply u64_range|done]|split; [apply u64_range|done]].
Qed.

(** ** Reseeding *)

Lemma int_bit_small i : 0 <= i < 31 -> int_bit i = 2 ^ i.
Proof.
  intros Hi. assert (0 < 2 ^ i <= 2 ^ 30) by (split; [apply Z.pow_pos_nonneg; lia|apply Z.pow_le_mono_r; lia]).
  unfold int_bit. rewrite s32_small by lia. apply wrap_small. lia.
Qed.

(** The test of a pool asks whether [2 ^ i] divides the number of the request. *)
Lemma int_bit_divides req i : 0 <= req < 2 ^ 31 -> 0 <= i < 32 -> (req mod int_bit i =? 0) = (req mod 2 ^ i =? 0).
Proof.
  intros Hr Hi. destruct (Z.eq_dec i 31) as [->|]; [|by rewrite int_bit_small by lia].
  change (int_bit 31) with (2 ^ 64 - 2 ^ 31). by rewrite !Z.mod_small by lia.
Qed.

Definition pool_used (req i : Z) : bool := req mod 2 ^ i =? 0.

Lemma pool_used_mono req i j : 0 <= i <= j -> pool_used req j = true -> pool_used req i = true.
Proof.
  unfold pool_used. rewrite !Z.eqb_eq. intros Hi Hj. apply Z.mod_divide in Hj; [|apply Z.pow_nonzero; lia].
  apply Z.mod_divide; [apply Z.pow_nonzero; lia|]. transitivity (2 ^ j); [|done]. exists (2 ^ (j - i)). rewrite <- Z.pow_add_r by lia. f_equal. lia.
Qed.

(** The key is hashed with the pools that are used, the first one first. *)
Definition seeded_key (stack : Z -> list Z) (pools : list (list Z)) (req : Z) (key : list Z) : list Z :=
  foldl (fun key i => sha256Block (stack i) key (pools !!! Z.to_nat i)) key (filter (fun i => pool_used req i = true) (seqZ 0 32)).

Lemma filter_none {A} (P : A -> Prop) `{forall x, Decision (P x)} (l : list A) : (forall x, x ∈ l -> ~ P x) -> filter P l = [].
Proof.
  induction l as [|x l IH]; intros Hl; [done|]. rewrite filter_cons, decide_False by (apply Hl; by left).
  apply IH. intros y Hy. apply Hl. by right.
Qed.

Lemma reseed_loop_pools more stack pools req i key : 0 <= req < 2 ^ 31 -> 0 <= i -> i + Z.of_nat more = 32 ->
  reseed_loop more stack pools req i key =
  foldl (fun key i => sha256Block (stack i) key (pools !!! Z.to_nat i)) key (filter (fun i => pool_used req i = true) (seqZ i (Z.of_nat more))).
Proof.
  intros Hr. revert i key. induction more as [|more IH]; intros i key Hi Hm; cbn [reseed_loop]; [done|].
  rewrite int_bit_divides by lia. fold (pool_used req i).
  rewrite seqZ_cons by lia. replace (Z.pred (Z.of_nat (S more))) with (Z.of_nat more) by lia. rewrite filter_cons.
  destruct (pool_used req i) eqn:E.
  - rewrite decide_True by done. cbn [foldl]. rewrite IH by lia. by replace (Z.succ i) with (i + 1) by lia.
  - rewrite decide_False, filter_none by done || (intros j Hj%elem_of_seqZ Hu; rewrite (pool_used_mono req i j) in E by (done || lia); done).
    done.
Qed.

Lemma reseed_loop_words more stack pools req i key : is_block 8 key -> is_block 8 (reseed_loop more stack pools req i key).
Proof.
  revert i key. induction more as [|more IH]; intros i key Hk; cbn [reseed_loop]; [done|].
  destruct (_ =? 0); [|done]. apply IH. by apply sha256Block_words.
Qed.

Lemma reseedRandom_run time stack s : ok s -> exists s', reseedRandom time stack s = Some (tt, s') /\ ok s' /\
  s' = set_seed 0 (req_count s +% 1) (reseed_loop 32 stack (pools s) (req_count s) 0 (if last_reseed s =? 0 then sha256Init else key s)) time s.
Proof.
  intros [Hp Hk Hc (H1 & H2 & H3)]. unfold reseedRandom, mbind, M_bind, get.
  eexists. split; [reflexivity|]. split; [|reflexivity]. constructor; cbn [set_seed pools key counter pools_size acc_count req_count]; try done.
  - apply reseed_loop_words. destruct (_ =? 0); [apply sha256Init_words|done].
  - split; [done|split; [done|apply u64_range]].
Qed.

(** ** The output

    The bytes for the counters from [c] on; a request is served in chunks of at
    most [2 ^ 20] bytes, each under a key of its own. *)
Fixpoint stream (key : list Z) (c : Z) (n : nat) : list Z :=
  match n with O => [] | S n => block_at key c ++ stream key (forward c 1) n end.

Definition blocks (size : Z) : Z := (size + 15) / 16.

Fixpoint generate (chunks : list Z) (key : list Z) (c : Z) : list Z * list Z * Z :=
  match chunks with
  | [] => ([], key, c)
  | n :: chunks =>
      let '(out, key', c') := generate chunks (words (stream key (forward c (blocks n)) 2)) (forward c (blocks n + 2)) in
      (take (Z.to_nat n) (stream key c (Z.to_nat (blocks n))) ++ out, key', c')
  end.

Definition chunks (size : Z) : list Z :=
  replicate (Z.to_nat (size / 2 ^ 20)) (2 ^ 20) ++ if size mod 2 ^ 20 =? 0 then [] else [size mod 2 ^ 20].

Lemma chunks_step size : 0 < size -> chunks size = Z.min size (2 ^ 20) :: chunks (size - Z.min size (2 ^ 20)).
Proof.
  intros Hs. unfold chunks. destruct (Z.lt_ge_cases size (2 ^ 20)).
  - rewrite Z.min_l, Z.sub_diag by lia. rewrite !Z.div_small, !Z.mod_small by lia. rewrite (proj2 (Z.eqb_neq size 0)) by lia. done.
  - rewrite Z.min_r by lia. set (m := 2 ^ 20) in *. assert (0 < m) by (unfold m; lia).
    replace (size / m) with (1 + (size - m) / m); cycle 1.
    { replace (size - m) with (size + (-1) * m) by lia. rewrite Z.div_add by lia. lia. }
    replace (size mod m) with ((size - m) mod m); cycle 1.
    { replace (size - m) with (size + (-1) * m) by lia. by rewrite Z.mod_add by lia. }
    assert (0 <= (size - m) / m) by (apply Z.div_pos; lia). rewrite Z2Nat.inj_add by lia. done.
Qed.

Lemma blocks_step size : 0 < size -> blocks size = 1 + blocks (size - Z.min size 16).
Proof.
  intros Hs. unfold blocks. destruct (Z.lt_ge_cases size 16).
  - rewrite Z.min_l by lia. Z.div_mod_to_equations. lia.
  - rewrite Z.min_r by lia. replace (size + 15) with (size - 16 + 15 + 1 * 16) by lia. rewrite Z.div_add by lia. lia.
Qed.

Lemma block_at_mod key c : block_at key (c mod 2 ^ 128) = block_at key c.
Proof. unfold block_at. by rewrite Z.mod_mod by lia. Qed.

#[local] Opaque block_at aesBlock.

Lemma words_to_bytes n l : is_block n l -> words (to_bytes l) = l.
Proof.
  revert l. induction n as [|n IH]; intros [|w l] [Hn Hl]; try done. apply Forall_cons_1 in Hl as [Hw Hl].
  change (word_of (byte_of 0 w) (byte_of 1 w) (byte_of 2 w) (byte_of 3 w) :: words (to_bytes l) = w :: l).
  rewrite word_bytes4 by done. f_equal. apply IH. split; [by injection Hn|done].
Qed.

Lemma to_bytes_app l k : to_bytes (l ++ k) = to_bytes l ++ to_bytes k.
Proof. unfold to_bytes. by rewrite fmap_app, concat_app. Qed.

Lemma to_bytes_length l : length (to_bytes l) = (4 * length l)%nat.
Proof. unfold to_bytes. induction l as [|w l IH]; [done|]. rewrite fmap_cons. cbn [concat]. rewrite length_app, IH. cbn. lia. Qed.

Lemma block_at_length key c : is_block 8 key -> length (block_at key c) = 16%nat.
Proof.
  intros Hk. rewrite <- block_at_mod. destruct (counter_words_spec (c mod 2 ^ 128)) as [Hc Vc]; [apply Z.mod_pos_bound; lia|].
  destruct (aesBlock_run key _ Hk Hc) as (l & _ & [Hn _] & B). rewrite Vc in B. by rewrite <- B, to_bytes_length, Hn.
Qed.

(** *** One block, and the loops *)

Lemma randomBlock_run s : is_block 8 (key s) -> is_block 4 (counter s) ->
  exists l c, randomBlock s = Some (l, set_counter c s) /\ is_block 4 l /\ to_bytes l = block_at (key s) (value (counter s)) /\
    is_block 4 c /\ value c = forward (value (counter s)) 1.
Proof.
  intros Hk Hc. destruct (aesBlock_run _ _ Hk Hc) as (l & E & Hl & B).
  destruct (advance_loop_value 3 (counter s) Hc) as [Hc' Vc'].
  exists l, (advance_loop 1 (counter s)). unfold randomBlock. rewrite E.
  exact (conj eq_refl (conj Hl (conj B (conj Hc' Vc')))).
Qed.

(** A number of blocks under one key. *)
Fixpoint randomBlocks (n : nat) : G (list (list Z)) :=
  match n with O => mret [] | S n => block ← randomBlock; rest ← randomBlocks n; mret (block :: rest) end.

Lemma randomBlocks_run n s : is_block 8 (key s) -> is_block 4 (counter s) ->
  exists l s', randomBlocks n s = Some (l, s') /\ Forall (is_block 4) l /\ length l = n /\
    forall i b, l !! i = Some b -> to_bytes b = block_at (key s) (forward (value (counter s)) (Z.of_nat i)).
Proof.
  revert s. induction n as [|n IH]; intros s Hk Hc; [by exists [], s|].
  destruct (randomBlock_run s Hk Hc) as (b & c & E & Hb & B & Hc' & Vc).
  destruct (IH (set_counter c s) Hk Hc') as (l & s' & E2 & Hl & Hn & H).
  exists (b :: l), s'. split; [|split; [by constructor|split; [cbn; lia|]]].
  - cbn [randomBlocks]. by rewrite (bind_some _ _ _ _ _ E), (bind_some _ _ _ _ _ E2).
  - intros [|i] x Hx; cbn in Hx.
    + injection Hx as <-. by rewrite forward_0.
    + rewrite (H i x Hx). cbn [set_counter key counter]. rewrite Vc, forward_forward.
      rewrite Nat2Z.inj_succ, <- Z.add_1_l. exact eq_refl.
Qed.

(** C20: Under one key no block is repeated: the blocks that the generator gives one
    after the other, up to [2 ^ 32] of them, are all different, because the counter
    advances with every block and the cipher is a permutation.  (No key is used for
    more than [2 ^ 16 + 2] blocks.) *)
Theorem counter_blocks_differ n s : is_block 8 (key s) -> is_block 4 (counter s) -> Z.of_nat n <= 2 ^ 32 ->
  exists l s', randomBlocks n s = Some (l, s') /\ length l = n /\ NoDup l.
Proof.
  intros Hk Hc Hn. destruct (randomBlocks_run n s Hk Hc) as (l & s' & E & _ & Hlen & H). exists l, s'. split; [done|split; [done|]].
  apply NoDup_alt. intros i j b Hi Hj. pose proof (lookup_lt_Some _ _ _ Hi). pose proof (lookup_lt_Some _ _ _ Hj).
  apply Nat2Z.inj, (forward_inj (value (counter s))); [lia..|].
  apply (block_at_inj (key s)); [done|apply forward_range, (counter_range 4); done..|]. by rewrite <- (H i b Hi), <- (H j b Hj).
Qed.

Lemma counter_blocks_differ_witness : exists l s',
  randomBlocks 3 (mkState [] 0 0 0 sha256Init (counter_words 7) 0 (fun _ => 0)) = Some (l, s') /\ length l = 3%nat /\ NoDup l.
Proof.
  apply (counter_blocks_differ 3 (mkState [] 0 0 0 sha256Init (counter_words 7) 0 (fun _ => 0)));
    [by apply is_block_check..|lia].
Defined.

(** The carry is lost: after the largest value of the lowest word comes 0, and the
    word above it stays as it is. *)
Example counter_loses_carry : advance_loop 1 [2 ^ 32 - 1; 5; 0; 0] = [0; 5; 0; 0].
Proof. reflexivity. Qed.

(** What an operation of the generator may change. *)
Definition ran (s : state) (m : Z -> Z) (c : list Z) : state := set_memory m (set_counter c s).

Lemma put_bytes_none f a x : put_bytes f a [] x = f x.
Proof.
  unfold put_bytes. change (Z.of_nat (length [])) with 0. rewrite Z.add_0_r.
  destruct (Z.leb_spec a x), (Z.ltb_spec x a); (done || lia).
Qed.

Lemma take_app_split {A} (n k : Z) (l rest : list A) : 0 < k <= n /\ k <= Z.of_nat (length l) /\ (k < n -> k = Z.of_nat (length l)) ->
  take (Z.to_nat n) (l ++ rest) = take (Z.to_nat k) l ++ take (Z.to_nat (n - k)) rest.
Proof.
  intros (H1 & H2 & H3). rewrite take_app. destruct (Z.eq_dec k n) as [->|].
  - replace (n - n) with 0 by lia. by replace (Z.to_nat n - length l)%nat with 0%nat by lia.
  - rewrite (take_ge l (Z.to_nat n)), (take_ge l (Z.to_nat k)) by lia. do 2 f_equal. lia.
Qed.

Lemma block_loop_run fuel addr size s : is_block 8 (key s) -> is_block 4 (counter s) -> 0 <= size < Z.of_nat fuel ->
  exists m c, block_loop fuel addr size s = Some (addr + size, ran s m c) /\ is_block 4 c /\
    value c = forward (value (counter s)) (blocks size) /\
    forall x, m x = put_bytes (memory s) addr (take (Z.to_nat size) (stream (key s) (value (counter s)) (Z.to_nat (blocks size)))) x.
Proof.
  revert addr size s. induction fuel as [|fuel IH]; intros addr size s Hk Hc Hs; [lia|]. cbn [block_loop].
  destruct (Z.leb_spec size 0).
  { assert (size = 0) as -> by lia. exists (memory s), (counter s). split; [rewrite Z.add_0_r; by destruct s|]. split; [done|].
    change (blocks 0) with 0. rewrite forward_0. split; [done|].
    intros x. symmetry. apply put_bytes_none. }
  destruct (randomBlock_run s Hk Hc) as (l & c & E & Hl & B & Hc' & Vc). rewrite (bind_some _ _ _ _ _ E). rewrite Util.umin_spec.
  set (this := Z.min size 16). assert (Hthis : 0 < this <= size /\ this <= 16 /\ (this < size -> this = 16)) by (unfold this; lia).
  cbn [mbind M_bind write_out modify].
  set (s1 := set_memory (put_bytes (memory s) addr (take (Z.to_nat this) (to_bytes l))) (set_counter c s)).
  destruct (IH (addr + this) (size - this) s1) as (m & c2 & E2 & Hc2 & Vc2 & M2); [done..|lia|].
  exists m, c2. split.
  { change (block_loop fuel (addr + this) (size - this) s1 = Some (addr + size, ran s m c2)). rewrite E2. do 2 f_equal; lia. }
  split; [done|]. rewrite (blocks_step size) by lia. fold this. cbn [s1 set_memory set_counter counter] in Vc2. split.
  { by rewrite Vc2, Vc, forward_forward. }
  assert (Hb : 0 <= blocks (size - this)) by (unfold blocks; apply Z.div_pos; lia).
  intros x. rewrite M2. cbn [s1 set_memory set_counter memory key counter].
  assert (Hlen : length (take (Z.to_nat this) (to_bytes l)) = Z.to_nat this).
  { destruct Hl as [Hl _]. rewrite length_take, to_bytes_length, Hl. lia. }
  assert (Ha : addr + this = addr + Z.of_nat (length (take (Z.to_nat this) (to_bytes l)))) by lia. rewrite Ha, put_bytes_app.
  replace (Z.to_nat (1 + blocks (size - this))) with (S (Z.to_nat (blocks (size - this)))) by lia.
  cbn [stream]. rewrite <- B, <- Vc.
  generalize (stream (key s) (value c) (Z.to_nat (blocks (size - this)))). intros rest.
  rewrite (take_app_split _ this); [reflexivity|]. destruct Hl as [Hl _]. rewrite to_bytes_length, Hl. lia.
Qed.

Lemma words_app_blocks l k : is_block 4 l -> is_block 4 k -> words (to_bytes l ++ to_bytes k) = l ++ k.
Proof. intros Hl Hk. rewrite <- to_bytes_app. apply (words_to_bytes 8). by apply (is_block_app 4 4). Qed.

Lemma rekey_run s : is_block 8 (key s) -> is_block 4 (counter s) ->
  exists k c, rekey s = Some (tt, set_key k (set_counter c s)) /\ is_block 8 k /\ is_block 4 c /\
    k = words (stream (key s) (value (counter s)) 2) /\ value c = forward (value (counter s)) 2.
Proof.
  intros Hk Hc. destruct (randomBlock_run s Hk Hc) as (l & c & E & Hl & B & Hc1 & V1).
  destruct (randomBlock_run (set_counter c s) Hk Hc1) as (l2 & c2 & E2 & Hl2 & B2 & Hc2 & V2).
  exists (l ++ l2), c2. unfold rekey. rewrite (bind_some _ _ _ _ _ E), (bind_some _ _ _ _ _ E2). split; [reflexivity|].
  split; [by apply (is_block_app 4 4)|]. split; [exact Hc2|]. cbn [set_counter counter key] in V2, B2. split.
  - cbn [stream]. rewrite app_nil_r, <- B, <- V1, <- B2. by rewrite words_app_blocks.
  - by rewrite V2, V1, forward_forward.
Qed.

Lemma put_bytes_ext f g a l x : f x = g x -> put_bytes f a l x = put_bytes g a l x.
Proof. intros E. unfold put_bytes. by destruct (_ && _). Qed.

Lemma blocks_length size key c : is_block 8 key -> 0 <= size -> size <= Z.of_nat (length (stream key c (Z.to_nat (blocks size)))).
Proof.
  intros Hk Hs. assert (Hlen : forall n c, length (stream key c n) = (16 * n)%nat).
  { induction n as [|n IH]; intros d; cbn [stream]; [done|]. rewrite length_app, block_at_length, IH by done. lia. }
  rewrite Hlen. unfold blocks. Z.div_mod_to_equations. lia.
Qed.

Lemma request_loop_run fuel addr size s : is_block 8 (key s) -> is_block 4 (counter s) -> 0 <= size < Z.of_nat fuel ->
  exists m k c, request_loop fuel addr size s = Some (tt, set_key k (ran s m c)) /\ is_block 8 k /\ is_block 4 c /\
    let '(out, k', c') := generate (chunks size) (key s) (value (counter s)) in
    k = k' /\ value c = c' /\ Z.of_nat (length out) = size /\ forall x, m x = put_bytes (memory s) addr out x.
Proof.
  revert addr size s. induction fuel as [|fuel IH]; intros addr size s Hk Hc Hs; [lia|]. cbn [request_loop].
  destruct (Z.leb_spec size 0).
  { assert (size = 0) as -> by lia. exists (memory s), (key s), (counter s). split; [by destruct s|]. split; [done|split; [done|]].
    cbn [chunks generate]. split; [done|split; [done|split; [done|]]]. intros x. symmetry. apply put_bytes_none. }
  rewrite Util.umin_spec. set (left := Z.min size (2 ^ 20)). assert (Hleft : 0 < left <= size) by (unfold left; lia).
  destruct (block_loop_run (S (Z.to_nat left)) addr left s Hk Hc ltac:(lia)) as (m1 & c1 & E1 & Hc1 & V1 & M1). rewrite (bind_some _ _ _ _ _ E1).
  destruct (rekey_run (ran s m1 c1) Hk Hc1) as (k2 & c2 & E2 & Hk2 & Hc2 & K2 & V2). rewrite (bind_some _ _ _ _ _ E2).
  destruct (IH (addr + left) (size - left) (set_key k2 (set_counter c2 (ran s m1 c1))) Hk2 Hc2 ltac:(lia)) as (m3 & k3 & c3 & E3 & Hk3 & Hc3 & G3).
  exists m3, k3, c3. split; [rewrite E3; reflexivity|]. split; [done|split; [done|]].
  cbn [set_key set_counter ran set_memory key counter memory] in K2, V2, G3.
  rewrite (chunks_step size) by lia. fold left. cbn [generate].
  rewrite <- V1, <- K2. replace (forward (value (counter s)) (blocks left + 2)) with (value c2) by (by rewrite V2, V1, forward_forward).
  destruct (generate _ k2 (value c2)) as [[out k'] c'] eqn:G. destruct G3 as (-> & -> & Hlen & M3).
  split; [done|split; [done|]]. set (first := take (Z.to_nat left) (stream (key s) (value (counter s)) (Z.to_nat (blocks left)))) in *.
  assert (Hf : Z.of_nat (length first) = left).
  { unfold first. rewrite length_take. pose proof (blocks_length left (key s) (value (counter s)) Hk ltac:(lia)). lia. }
  split; [rewrite length_app; lia|]. intros x. rewrite M3, <- Hf, <- put_bytes_app. by apply put_bytes_ext.
Qed.

(** *** Requests *)

Definition reseeds (now : Z) (s : state) : bool :=
  (last_reseed s =? 0) || ((last_reseed s +% CLOCKS_PER_SEC / 10 <? now) && (pools_size s >=? MIN_RESEED_SIZE)).

(** The key a request starts with. *)
Definition request_key (now : Z) (stack : Z -> list Z) (s : state) : list Z :=
  if reseeds now s then seeded_key stack (pools s) (req_count s) (if last_reseed s =? 0 then sha256Init else key s) else key s.

Lemma getRandom_run now time stack addr size s : ok s -> 0 <= size ->
  exists s1 m k c, (if reseeds now s then reseedRandom time stack else mret tt) s = Some (tt, s1) /\ ok s1 /\
    getRandom now time stack addr size s = Some (tt, set_key k (ran s1 m c)) /\ is_block 8 k /\ is_block 4 c /\
    let '(out, k', c') := generate (chunks size) (key s1) (value (counter s1)) in
    k = k' /\ value c = c' /\ Z.of_nat (length out) = size /\ forall x, m x = put_bytes (memory s1) addr out x.
Proof.
  intros Hs Hn.
  assert (H1 : exists s1, (if reseeds now s then reseedRandom time stack else mret tt) s = Some (tt, s1) /\ ok s1).
  { destruct (reseeds now s); [|by exists s]. destruct (reseedRandom_run time stack s Hs) as (s1 & E & H & _). by exists s1. }
  destruct H1 as (s1 & E1 & Hs1). destruct (request_loop_run (S (Z.to_nat size)) addr size s1) as (m & k & c & E2 & Hk & Hc & G);
    [apply Hs1..|lia|].
  exists s1, m, k, c. split; [done|split; [done|split; [|done]]]. unfold getRandom.
  change (mbind (M := M state) (fun _ => request_loop (S (Z.to_nat size)) addr size) (if reseeds now s then reseedRandom time stack else mret tt) s
          = Some (tt, set_key k (ran s1 m c))).
  by rewrite (bind_some _ _ _ _ _ E1).
Qed.

Lemma ran_ok s k c m : ok s -> is_block 8 k -> is_block 4 c -> ok (set_key k (ran s m c)).
Proof. intros [Hp _ _ Hz] Hk Hc. by constructor. Qed.

(** C18: A request gives exactly the bytes of the generator: the key is hashed with
    the pools whose power of two divides the number of the reseeding, when one is
    due; each chunk of at most [2 ^ 20] bytes is a prefix of the blocks of the
    following counters, and then the next two blocks become the key, so that what
    was given out cannot be computed from the state any more. *)
Theorem getRandom_generates now time stack addr size s : ok s -> req_count s < 2 ^ 31 -> 0 <= size ->
  exists s', getRandom now time stack addr size s = Some (tt, s') /\ ok s' /\
    (let '(out, k, c) := generate (chunks size) (request_key now stack s) (value (counter s)) in
     Z.of_nat (length out) = size /\ (forall x, memory s' x = put_bytes (memory s) addr out x) /\ key s' = k /\ value (counter s') = c) /\
    pools s' = pools s /\ acc_count s' = acc_count s /\
    if reseeds now s then pools_size s' = 0 /\ req_count s' = req_count s + 1 /\ last_reseed s' = time
    else pools_size s' = pools_size s /\ req_count s' = req_count s /\ last_reseed s' = last_reseed s.
Proof.
  intros Hs Hr Hn. destruct (getRandom_run now time stack addr size s Hs Hn) as (s1 & m & k & c & E1 & Hs1 & E & Hk & Hc & G).
  exists (set_key k (ran s1 m c)). split; [done|]. split; [by apply ran_ok|].
  assert (H1 : key s1 = request_key now stack s /\ counter s1 = counter s /\ memory s1 = memory s /\ pools s1 = pools s /\ acc_count s1 = acc_count s /\
    if reseeds now s then pools_size s1 = 0 /\ req_count s1 = req_count s + 1 /\ last_reseed s1 = time
    else pools_size s1 = pools_size s /\ req_count s1 = req_count s /\ last_reseed s1 = last_reseed s).
  { destruct (ok_sizes s Hs) as (_ & _ & Hreq). unfold request_key. destruct (reseeds now s).
    - destruct (reseedRandom_run time stack s Hs) as (s2 & E2 & _ & Es). rewrite E2 in E1. injection E1 as <-. rewrite Es. clear E2 Es.
      cbn [set_seed key counter memory pools acc_count pools_size req_count last_reseed]. rewrite (wrap_small 64) by lia.
      split; [|done]. rewrite reseed_loop_pools by lia. done.
    - injection E1 as <-. done. }
  destruct H1 as (Ek & Ec & Em & Ep & Ea & Eq). rewrite Ek, Ec, Em in G.
  split; [|done]. destruct (generate _ _ _) as [[out k'] c']. cbn [set_key ran set_memory set_counter memory key counter]. tauto.
Qed.

(** *** Any sequence of events and requests *)

Inductive op :=
  | Event (time : Z) (data garbage stack : list Z)
  | Request (now time : Z) (stack : Z -> list Z) (addr size : Z).

Definition run_op (o : op) : G unit :=
  match o with
  | Event time data garbage stack => addRandomEvent time data garbage stack
  | Request now time stack addr size => getRandom now time stack addr size
  end.

Definition run_ops (l : list op) : G unit := foldr (fun o k => run_op o;; k) (mret tt) l.

Definition op_ok (o : op) : Prop :=
  match o with Event _ data _ _ => (length data < 24)%nat | Request _ _ _ _ size => 0 <= size end.

(** The variables at the start of the kernel. *)
Definition initial (m : Z -> Z) : state := mkState (replicate 32 (replicate 8 0)) 0 0 0 (replicate 8 0) (replicate 4 0) 0 m.

Lemma zeros_block n : is_block n (replicate n 0).
Proof. split; [by rewrite length_replicate|]. by apply Forall_replicate. Qed.

Lemma initial_ok m : ok (initial m).
Proof.
  constructor; cbn [initial pools key counter pools_size acc_count req_count]; [|apply zeros_block..|lia].
  split; [by rewrite length_replicate|]. apply Forall_replicate, zeros_block.
Qed.

(** C21: From the start of the kernel on, any sequence of requests, and of events with
    less than 24 bytes of data as [addRandomEvent] asserts, with any times and
    whatever lies on the stack, runs without a panic or a pool out of range, and the pools, the key and the counter stay
    arrays of 32, 8 and 4 words of 32 bits. *)
Theorem random_state_typed m l : Forall op_ok l -> exists s, run_ops l (initial m) = Some (tt, s) /\ ok s.
Proof.
  intros Hl. pose proof (initial_ok m) as Hs. revert Hs. generalize (initial m). induction l as [|o l IH]; intros s Hs; [by exists s|].
  apply Forall_cons_1 in Hl as [Ho Hl]. assert (H1 : exists s1, run_op o s = Some (tt, s1) /\ ok s1).
  { destruct o; cbn [run_op op_ok] in *.
    - destruct (addRandomEvent_ok time data garbage stack s Hs Ho) as (s1 & E & H & _). by exists s1.
    - destruct (getRandom_run now time stack addr size s Hs Ho) as (s1 & m1 & k & c & _ & H1 & E & Hk & Hc & _).
      exists (set_key k (ran s1 m1 c)). split; [done|by apply ran_ok]. }
  destruct H1 as (s1 & E1 & H1). destruct (IH Hl s1 H1) as (s2 & E2 & H2). exists s2. split; [|done].
  cbn [run_ops foldr]. rewrite (bind_some _ _ _ _ _ E1). exact E2.
Qed.

Lemma getRandom_generates_witness : exists s', ok (initial (fun _ => 0)) /\
  getRandom 5 6 (fun _ => replicate 8 0) 100 20 (initial (fun _ => 0)) = Some (tt, s') /\ ok s' /\ req_count s' = 1.
Proof.
  destruct (getRandom_generates 5 6 (fun _ => replicate 8 0) 100 20 (initial (fun _ => 0)) (initial_ok _)) as (s' & E & Hs & _ & _ & _ & _ & Hr & _);
    [reflexivity|lia|].
  exists s'. split; [apply initial_ok|]. split; [exact E|]. split; [exact Hs|exact Hr].
Defined.

Lemma random_state_typed_witness : exists s,
  run_ops [Event 1 [7; 8] [] []; Request 5 6 (fun _ => []) 100 20; Event 9 [] [] [1; 2]] (initial (fun _ => 0)) = Some (tt, s) /\ ok s.
Proof.
  apply (random_state_typed (fun _ => 0) [Event 1 [7; 8] [] []; Request 5 6 (fun _ => []) 100 20; Event 9 [] [] [1; 2]]).
  repeat constructor; cbn; lia.
Defined.

(** ** Where the code is not the standard *)

(** The key schedule of FIPS 197 on little-endian words: [RotWord] moves the
    second byte to the front, which is a rotation to the right. *)
Fixpoint standard_keys (n : nat) (w : list Z) : list Z :=
  match n with
  | O => w
  | S n =>
      let i := length w in
      let last := w !!! (i - 1)%nat in
      let x := match (i mod 8)%nat with
               | O => Z.lxor (subWord (rotateRight last 8)) (aes_constants !!! (i / 8)%nat)
               | 4%nat => subWord last
               | _ => last
               end in
      standard_keys n (w ++ [Z.lxor (w !!! (i - 8)%nat) x])
  end.

(** The example of FIPS 197, appendix C.3: the rounds give its result under the
    standard key schedule; the key schedule of the code rotates to the left. *)
Example key_schedule_rotates_left :
  let key := words (seqZ 0 32) in let plain := words ((fun i => 17 * i) <$> seqZ 0 16) in
  let expected := entries 8 16 0x8ea2b7ca516745bfeafc49904b496089 in
  to_bytes <$> aes_with (standard_keys 52 key) plain = Some expected /\ to_bytes <$> aesBlock key plain <> Some expected.
Proof. cbv zeta. split; [vm_compute; reflexivity|]. vm_compute. discriminate. Qed.

(** The schedule of FIPS 180-4 shifts where the code rotates a third time. *)
Fixpoint standard_schedule (n : nat) (w : list Z) : list Z :=
  match n with
  | O => w
  | S n =>
      let x k := w !!! (length w - k)%nat in
      let sigma v p q r := Z.lxor (Z.lxor (rotateRight v p) (rotateRight v q)) (Z.shiftr v r) in
      standard_schedule n (w ++ [u32 (sigma (x 2%nat) 17 19 10 + x 7%nat + sigma (x 15%nat) 7 18 3 + x 16%nat)])
  end.

Definition standard_block (block : list Z) : list Z :=
  match round_loop sha_constants (standard_schedule 48 block)
          (mkHash 0x6a09e667 0xbb67ae85 0x3c6ef372 0xa54ff53a 0x510e527f 0x9b05688c 0x1f83d9ab 0x5be0cd19) with
  | mkHash a b c d e f g h => u32 <$> zip_with Z.add sha256Init [a; b; c; d; e; f; g; h]
  end.

(** The hash of "abc": the rounds of the code give it on the standard schedule, but
    not on the schedule of the code, even if the second half of the block is on
    the stack. *)
Example sha_schedule_rotates :
  let low := [0x61626380; 0; 0; 0; 0; 0; 0; 0] in let high := [0; 0; 0; 0; 0; 0; 0; 24] in
  let expected := entries 32 8 0xba7816bf8f01cfea414140de5dae2223b00361a396177a9cb410ff61f20015ad in
  standard_block (low ++ high) = expected /\ sha256Block high sha256Init low <> expected.
Proof. cbv zeta. split; [vm_compute; reflexivity|]. vm_compute. discriminate. Qed.

(** Half of the block that is hashed is whatever the stack holds. *)
Example sha_reads_the_stack :
  sha256Block (replicate 8 0) sha256Init sha256Init <> sha256Block (replicate 8 1) sha256Init sha256Init.
Proof. vm_compute. discriminate. Qed.

End Random.
