(* ===== verification/Elf.v ===== *)
(** * Elf: [kernel/src/loader/elf.c]

    Loading an executable into a new memory space: its header, its program
    headers, the pages of its segments and what they hold.  The state is the
    physical memory with the page tables of [PageTable].  Reading a file
    ([vfsFileReadAt]) is modelled elsewhere and a parameter here: [file] gives the
    bytes a read into kernel memory yields, [read_user] reads into the pages of
    the new space.  The buffer of the program headers is a list: its allocation is
    taken to succeed, which the code does not check. *)
From S2P Require Import Prelude Util Allocator PageAlloc PageTable PageRef MemSpace Errors.
Import PageAlloc PageTable Errors.

Local Open Scope c_scope.

Module Elf.

(** ** Definitions *)

Definition ENOEXEC : Z := 8.
Definition MAX_PHDRS : Z := 128.
Definition ELF_MAGIC : Z := 0x464c457f.
Definition ELF_TYPE_EXEC : Z := 2.
Definition ELF_MACHINE_RISCV : Z := 0xf3.
Definition ELF_PROG_READ : Z := 4.
Definition ELF_PROG_WRITE : Z := 2.
Definition ELF_PROG_EXEC : Z := 1.
Definition ELF_PROG_TYPE_LOAD : Z := 1.

Record ElfHeader := mkElfHeader {
  magic : Z; bitsize : Z; endian : Z; ident_iba_version : Z; target_platform : Z; abi_version : Z;
  obj_type : Z; machine : Z; version : Z; entry_addr : Z; phoff : Z; shoff : Z; elf_flags : Z;
  ehsize : Z; phentsize : Z; phnum : Z; shentsize : Z; shnum : Z; shstrndx : Z;
}.

Record ElfProgramHeader := mkProgramHeader {
  seg_type : Z; seg_flags : Z; off : Z; vaddr : Z; paddr : Z; filesz : Z; memsz : Z; align : Z;
}.

(** The field of [n] bytes at offset [o] of a structure, little-endian. *)
Definition field (l : list Z) (o n : nat) : Z := foldr (fun b v => b + 256 * v) 0 (take n (drop o l)).

Definition sizeof_ElfHeader : Z := 64.
Definition header_of (l : list Z) : ElfHeader :=
  mkElfHeader (field l 0 4) (field l 4 1) (field l 5 1) (field l 6 1) (field l 7 1) (field l 8 1)
    (field l 16 2) (field l 18 2) (field l 20 4) (field l 24 8) (field l 32 8) (field l 40 8) (field l 48 4)
    (field l 52 2) (field l 54 2) (field l 56 2) (field l 58 2) (field l 60 2) (field l 62 2).

Definition sizeof_ElfProgramHeader : Z := 56.
Definition program_header_of (l : list Z) : ElfProgramHeader :=
  mkProgramHeader (field l 0 4) (field l 4 4) (field l 8 8) (field l 16 8) (field l 24 8) (field l 32 8) (field l 40 8) (field l 48 8).

Definition program_headers_of (n : nat) (l : list Z) : list ElfProgramHeader :=
  (fun i => program_header_of (drop (i * 56) l)) <$> seq 0 n.

(** The [bits] of [allocatePages]. *)
Definition page_bits (flags : Z) : Z :=
  let bits := Z.lor PAGE_ENTRY_USER PAGE_ENTRY_AD in
  let bits := if negb (Z.land flags ELF_PROG_EXEC =? 0) then Z.lor bits PAGE_ENTRY_EXEC else bits in
  let bits := if negb (Z.land flags ELF_PROG_READ =? 0) then Z.lor bits PAGE_ENTRY_READ else bits in
  let bits := if negb (Z.land flags ELF_PROG_WRITE =? 0) then Z.lor bits PAGE_ENTRY_WRITE else bits in
  if Z.land bits 14 =? 0 then Z.lor bits PAGE_ENTRY_READ else bits.

(** [memset(page + from, 0, PAGE_SIZE - from)] on the words of the page: those
    behind [from] become zero, the one around it keeps its lower bytes. *)
Definition zero_word (page from i : Z) (m : mem) : mem :=
  if from <=? 8 * i then <[page + 8 * i := 0]> m
  else if from <? 8 * i + 8 then alter (fun w => Z.land w (Z.ones (8 * (from - 8 * i)))) (page + 8 * i) m
  else m.
Definition zero_tail (page from : Z) : M mem unit := fun m =>
  Some (tt, foldr (zero_word page from) m (seqZ 0 512)).

Section Code.
Context `{PageService} (zero_page : Z).

(** An iteration of the first loop; [false] is the return without memory. *)
Definition file_page (root bits addr filesz position : Z) : M mem bool :=
  entry ← virtToEntry root position;
  if negb (entry =? 0) then
    e ← load entry;
    store entry (MemSpace.or_bits e bits);;
    mret true
  else
    page ← alloc_page;
    if page =? 0 then mret false
    else
      mapPage root position page bits 0;;
      (if position +% PAGE_SIZE >? addr +% filesz then zero_tail page (filesz mod PAGE_SIZE) else mret tt);;
      mret true.

(** The position behind the loop, or [None] when there is no memory. *)
Fixpoint file_loop (fuel : nat) (root bits addr filesz position : Z) : M mem (option Z) :=
  match fuel with
  | O => fault
  | S fuel =>
      if position <? addr +% filesz then
        ok ← file_page root bits addr filesz position;
        if ok : bool then file_loop fuel root bits addr filesz (position +% PAGE_SIZE) else mret None
      else mret (Some position)
  end.

Definition zero_page_at (root bits position : Z) : M mem unit :=
  entry ← virtToEntry root position;
  if negb (entry =? 0) then
    e ← load entry;
    let e := MemSpace.or_bits e bits in
    store entry (if has_bits e PAGE_ENTRY_COPY then MemSpace.clear_bits e PAGE_ENTRY_WRITE else e)
  else
    (if negb (Z.land bits PAGE_ENTRY_WRITE =? 0)
     then mapPage root position zero_page (Z.lor (Z.ldiff bits PAGE_ENTRY_WRITE) PAGE_ENTRY_COPY) 0
     else mapPage root position zero_page bits 0);;
    mret tt.

Fixpoint zero_loop (fuel : nat) (root bits addr memsz position : Z) : M mem unit :=
  match fuel with
  | O => fault
  | S fuel =>
      if position <? addr +% memsz then
        zero_page_at root bits position;;
        zero_loop fuel root bits addr memsz (position +% PAGE_SIZE)
      else mret tt
  end.

(** At most this many pages. *)
Definition pages_fuel (size : Z) : nat := S (S (Z.to_nat (size / PAGE_SIZE))).

Definition allocatePages (root addr filesz memsz flags : Z) : M mem bool :=
  let bits := page_bits flags in
  let position := Z.land addr (u64 (- PAGE_SIZE)) in
  end_ ← file_loop (S (pages_fuel filesz)) root bits addr filesz position;
  match end_ with
  | None => mret false
  | Some position => zero_loop (S (pages_fuel memsz)) root bits addr memsz position;; mret true
  end.

Context (file : Z -> Z -> result (list Z)) (read_user : Z -> Z -> Z -> Z -> R mem Z).

Definition run {A} (c : M mem A) : R mem A := fun m => '(a, m) ← c m; Some (Good a, m).

Definition loadProgramSegment (root : Z) (header : ElfProgramHeader) : R mem unit :=
  if (seg_type header =? ELF_PROG_TYPE_LOAD) && negb (memsz header =? 0) then
    ok ← run (allocatePages root (vaddr header) (filesz header) (memsz header) (seg_flags header));
    if ok : bool then
      let size := Util.umin (memsz header) (filesz header) in
      read ← read_user root (vaddr header) (off header) size;
      if negb (read =? size) then bad EIO else mret tt
    else bad ENOMEM
  else mret tt.

Fixpoint segments_loop (root : Z) (headers : list ElfProgramHeader) : R mem unit :=
  match headers with
  | [] => mret tt
  | header :: headers => loadProgramSegment root header;; segments_loop root headers
  end.

Definition loadProgramFromElfFile (root : Z) : R mem Z :=
  bytes ← give (file 0 sizeof_ElfHeader);
  if negb (Z.of_nat (length bytes) =? sizeof_ElfHeader) then bad EIO
  else
    let header := header_of bytes in
    if negb (magic header =? ELF_MAGIC) || negb (machine header =? ELF_MACHINE_RISCV)
       || negb (obj_type header =? ELF_TYPE_EXEC) || (phnum header >? MAX_PHDRS)
       || negb (phentsize header =? sizeof_ElfProgramHeader)
    then bad ENOEXEC
    else
      bytes ← give (file (phoff header) (phnum header * sizeof_ElfProgramHeader));
      if negb (Z.of_nat (length bytes) =? sizeof_ElfProgramHeader * phnum header) then bad EIO
      else
        segments_loop root (program_headers_of (Z.to_nat (phnum header)) bytes);;
        mret (entry_addr header).

End Code.

(** ** Lemmas *)

Section Space.
Context `{S : PageService} `{!PageLaws S}.

(** What the allocator and the tables hold, and a page that is neither's. *)
Definition internal (T : gmap Z nat) (g : ghost) (x : Z) : Prop :=
  owned g x \/ exists t n, T !! t = Some n /\ page_of t x.

Definition outside (T : gmap Z nat) (g : ghost) (p : Z) : Prop := forall x, page_of p x -> ~ internal T g x.

(** A memory space of small pages, which are outside of its own tables. *)
Record space_ok (m : mem) (T : gmap Z nat) (g : ghost) (root : Z) : Prop := {
  so_tree : tree m T g;
  so_root : T !! root = Some 2%nat;
  so_leaf : forall va s l, lookup_pt m 2 root va = Some (s, l) ->
    l = 0%nat /\ exists e, m !! s = Some e /\ outside T g (entry_page e);
}.

(** Writing to the pages of a space keeps the space. *)
Lemma space_frame m m' T g root : space_ok m T g root -> (forall x, internal T g x -> m' !! x = m !! x) ->
  space_ok m' T g root /\ (forall va, lookup_pt m' 2 root va = lookup_pt m 2 root va) /\
  forall va s l, lookup_pt m 2 root va = Some (s, l) -> m' !! s = m !! s.
Proof.
  intros [Htr Hroot Hleaf] Hfr.
  destruct (tree_frame m m' T g g Htr) as (Htr' & Hl).
  { apply (page_inv_frame m); [apply Htr|]. intros x Hx. apply Hfr. by left. }
  { done. }
  { intros t n x Ht Hx. apply Hfr. right. by exists t, n. }
  assert (Hs : forall va s l, lookup_pt m 2 root va = Some (s, l) -> m' !! s = m !! s).
  { intros va s l Hlk. destruct (lookup_pt_leaf m T g 2 root va s l Htr Hroot Hlk) as (t & e & Ht & -> & _).
    apply Hfr. right. exists t, l. split; [done|]. by eapply table_slot, vpn_range. }
  split; [|split; [intros va; by apply Hl|done]]. constructor; [done..|]. intros va s l Hlk. rewrite Hl in Hlk by done.
  rewrite (Hs va s l Hlk). by apply (Hleaf va).
Qed.

Lemma lookup_leaf_entry m T g root va s l : tree m T g -> T !! root = Some 2%nat -> lookup_pt m 2 root va = Some (s, l) ->
  exists e, m !! s = Some e /\ entry_v e = true /\ has_bits e PAGE_ENTRY_RWX = true.
Proof.
  intros Htr. generalize 2%nat. intros n. revert root. induction n as [|n IH]; intros root Hroot Hl; cbn [lookup_pt] in Hl;
    (match type of Hl with context [vpn va ?i] =>
       destruct (tr_entry _ _ _ Htr root _ _ Hroot (vpn_range va i)) as (e & He & Hn) end);
    rewrite He in Hl; cbn [mbind option_bind] in Hl; (destruct (entry_v e) eqn:Hv; [|done]);
    (destruct (has_bits e PAGE_ENTRY_RWX) eqn:Hb; [injection Hl as <- <-; by exists e|]); [done|].
  destruct Hn as (n' & [= <-] & Hn'); [unfold branch; by rewrite Hv, Hb|]. by apply (IH _ Hn').
Qed.

(** In a space of small pages nothing is in the way of another one. *)
Lemma small_mappable m T g va n t : tree m T g -> T !! t = Some n ->
  (forall s l, lookup_pt m n t va = Some (s, l) -> l = 0%nat) -> mappable m n t va 0.
Proof.
  intros Htr. revert t. induction n as [|n IH]; intros t Ht Hsmall; cbn [mappable lookup_pt] in *;
    (match goal with |- context [vpn va ?i] =>
       destruct (tr_entry _ _ _ Htr t _ _ Ht (vpn_range va i)) as (e & He & Hn) end); rewrite He in *.
  - rewrite decide_True by done. destruct (branch e) eqn:Hb; [|done]. destruct (Hn eq_refl) as (n' & ? & _). done.
  - rewrite decide_False by done. intros Hv. cbn [mbind option_bind] in Hsmall. rewrite Hv in Hsmall.
    destruct (has_bits e PAGE_ENTRY_RWX) eqn:Hb; [by specialize (Hsmall _ _ eq_refl)|].
    assert (Hbr : branch e = true) by (unfold branch; by rewrite Hv, Hb). destruct (Hn Hbr) as (n' & [= <-] & Hn').
    split; [done|]. by apply IH.
Qed.

Lemma lookup_entry_zero m T g root va : tree m T g -> T !! root = Some 2%nat ->
  match lookup_pt m 2 root va with
  | Some (s, _) => lookup_entry m 2 root va = s /\ 0 < s
  | None => lookup_entry m 2 root va = 0
  end.
Proof.
  intros Htr Hroot. unfold lookup_entry. destruct (lookup_pt m 2 root va) as [[s l]|] eqn:E; [|done].
  split; [done|]. by eapply MemSpace.virt_entry_nonzero.
Qed.

(** *** Addresses *)

Lemma vpn_div va i : 0 <= i -> vpn va i = va / 2 ^ (12 + 9 * i) mod 512.
Proof. intros Hi. unfold vpn. change 0x1ff with (Z.ones 9). rewrite Z.land_ones, Z.shiftr_div_pow2 by lia. done. Qed.

Lemma same_page_iff va va' : 0 <= va < 2 ^ 39 -> 0 <= va' < 2 ^ 39 -> same_page 0 va va' <-> va / 4096 = va' / 4096.
Proof.
  intros Ha Hb. split.
  - intros H. pose proof (H 0%nat ltac:(lia)) as H0. pose proof (H 1%nat ltac:(lia)) as H1. pose proof (H 2%nat ltac:(lia)) as H2.
    rewrite !vpn_div in H0, H1, H2 by lia. cbn [Z.of_nat] in *.
    change (2 ^ (12 + 9 * 0)) with 4096 in H0. change (2 ^ (12 + 9 * Z.of_nat 1)) with (4096 * 512) in H1. change (2 ^ (12 + 9 * Z.of_nat 2)) with (4096 * 512 * 512) in H2.
    rewrite <- !Z.div_div in H1, H2 by lia. 
    assert (va / 4096 / 512 / 512 < 512) by (rewrite !Z.div_div by lia; apply Z.div_lt_upper_bound; lia).
    assert (va' / 4096 / 512 / 512 < 512) by (rewrite !Z.div_div by lia; apply Z.div_lt_upper_bound; lia).
    Z.div_mod_to_equations. lia.
  - intros E i Hi. rewrite !vpn_div by lia. f_equal. rewrite Z.pow_add_r by lia. change (2 ^ 12) with 4096.
    assert (0 < 2 ^ (9 * Z.of_nat i)) by (apply Z.pow_pos_nonneg; lia). rewrite <- !Z.div_div by lia. by rewrite E.
Qed.

Lemma same_page_forall k va va' :
  same_page k va va' <-> Forall (fun i => vpn va (Z.of_nat i) = vpn va' (Z.of_nat i)) (seq k (3 - k)).
Proof.
  unfold same_page. rewrite List.Forall_forall. setoid_rewrite in_seq. split; intros H i Hi; apply H; lia.
Qed.

#[export] Instance same_page_dec k va va' : Decision (same_page k va va').
Proof.
  refine (match decide (Forall (fun i => vpn va (Z.of_nat i) = vpn va' (Z.of_nat i)) (seq k (3 - k))) with
          | left H => left (proj2 (same_page_forall k va va') H)
          | right H => right (fun E => H (proj1 (same_page_forall k va va') E))
          end).
Defined.

(** *** One entry *)

(** The leaf entry of an address, and the permissions it gives: those of [bits],
    where a page that is copied on write counts as writable. *)
Definition entry_at (m : mem) (root va e : Z) : Prop := exists s, lookup_pt m 2 root va = Some (s, 0%nat) /\ m !! s = Some e.

Definition allows (bits e : Z) : Prop :=
  forall i, 0 <= i -> Z.testbit bits i = true -> Z.testbit (entry_bits e) i = true \/ i = 2 /\ Z.testbit (entry_bits e) 8 = true.

(** Addresses outside of the pages [P] are as before. *)
Definition keeps_others (m m' : mem) (root : Z) (P : Z -> Prop) : Prop :=
  forall va, 0 <= va < 2 ^ 39 -> ~ P (va / 4096) ->
    lookup_pt m' 2 root va = lookup_pt m 2 root va /\ forall s l, lookup_pt m 2 root va = Some (s, l) -> m' !! s = m !! s.

(** The slot of an address determines its page. *)
Lemma slot_same_page m T g root va va' s l : tree m T g -> T !! root = Some 2%nat -> lookup_pt m 2 root va = Some (s, 0%nat) ->
  lookup_pt m 2 root va' = Some (s, l) -> same_page 0 va va'.
Proof.
  intros Htr Hroot H H'. destruct (lookup_pt_leaf m T g 2 root va s 0 Htr Hroot H) as (t & e & Ht & Hs & _ & _ & Hat).
  destruct (lookup_pt_leaf m T g 2 root va' s l Htr Hroot H') as (t' & e' & Ht' & Hs' & _ & _ & Hat').
  rewrite Hs in Hs'. destruct (slot_eq m T g t 0 _ t' l _ Htr Ht Ht' (vpn_range _ _) (vpn_range _ _) Hs') as [<- _].
  assert (l = 0%nat) as -> by congruence. exact (proj2 (slot_at_inj m T g 2 root root va va' 0 s Htr Hroot Hroot Hat Hat')).
Qed.

Lemma set_entry m T g root va s e e' : space_ok m T g root -> lookup_pt m 2 root va = Some (s, 0%nat) -> m !! s = Some e ->
  entry_v e' = true -> has_bits e' PAGE_ENTRY_RWX = true -> entry_page e' = entry_page e ->
  let m' := <[s := e']> m in
  space_ok m' T g root /\ (forall va', same_page 0 va va' -> lookup_pt m' 2 root va' = Some (s, 0%nat)) /\
  (forall va', ~ same_page 0 va va' -> lookup_pt m' 2 root va' = lookup_pt m 2 root va' /\
     forall s' l, lookup_pt m 2 root va' = Some (s', l) -> m' !! s' = m !! s').
Proof.
  intros [Htr Hroot Hleaf] Hl He Hv Hb Hp m'.
  destruct (lookup_pt_leaf m T g 2 root va s 0 Htr Hroot Hl) as (t & e0 & Ht & Hs & He0 & _ & Hat).
  pose proof (vpn_range va (Z.of_nat 0)) as Hr. assert (Hbr : branch e = false).
  { destruct (branch e) eqn:E; [|done]. destruct (tr_entry _ _ _ Htr t 0%nat _ Ht Hr) as (e1 & He1 & Hn).
    rewrite <- Hs, He in He1. injection He1 as <-. by destruct (Hn E) as (? & ? & _). }
  assert (Htr' : tree m' T g) by (unfold m'; rewrite Hs in He |- *; by eapply leaf_tree).
  assert (Hlk : forall va', lookup_pt m' 2 root va' = if decide (slot_at m 2 root va' 0 = Some s) then Some (s, 0%nat) else lookup_pt m 2 root va').
  { intros va'. unfold m'. rewrite Hs in He |- *. by apply (leaf_lookup m T g t _ e' 0). }
  assert (Hsame : forall va', same_page 0 va va' -> slot_at m 2 root va' 0 = Some s).
  { intros va' H. rewrite (slot_at_same m 2 0 va va'); [done|exact H|lia]. }
  assert (Hne : forall va', ~ same_page 0 va va' -> slot_at m 2 root va' 0 <> Some s).
  { intros va' H E. apply H. exact (proj2 (slot_at_inj m T g 2 root root va va' 0 s Htr Hroot Hroot Hat E)). }
  assert (Hother : forall va', ~ same_page 0 va va' -> lookup_pt m' 2 root va' = lookup_pt m 2 root va' /\
     forall s' l, lookup_pt m 2 root va' = Some (s', l) -> m' !! s' = m !! s').
  { intros va' H. rewrite Hlk, decide_False by auto. split; [done|]. intros s' l Hl'. unfold m'.
    apply lookup_insert_ne. intros <-. apply H. by apply (slot_same_page m T g root va va' s l). }
  split; [|split; [|done]].
  - constructor; [done..|]. intros va' s' l Hl'. destruct (decide (slot_at m 2 root va' 0 = Some s)) as [E|E].
    + rewrite Hlk, decide_True in Hl' by done. injection Hl' as <- <-. split; [done|]. exists e'. split; [apply lookup_insert_eq|].
      destruct (Hleaf va s 0%nat Hl) as (_ & e1 & He1 & Ho). rewrite He in He1. injection He1 as <-. by rewrite Hp.
    + assert (Hn : ~ same_page 0 va va') by auto. destruct (Hother va' Hn) as [E1 E2]. rewrite E1 in Hl'.
      rewrite (E2 s' l Hl'). by apply (Hleaf va').
  - intros va' H. rewrite Hlk, decide_True by auto. done.
Qed.

Lemma map_new m T g root va p bits : space_ok m T g root -> lookup_pt m 2 root va = None ->
  0 <= p < 2 ^ 56 -> p mod 4096 = 0 -> outside T g p -> Z.land bits 0xe <> 0 -> (2 <= free_pages g)%nat ->
  exists ent e m' T' g', mapPage root va p bits 0 m = Some (ent, m') /\ space_ok m' T' g' root /\
    (forall x, internal T' g' x -> internal T g x) /\ (free_pages g <= free_pages g' + 2)%nat /\
    m' !! ent = Some (leaf_entry e p bits) /\ (forall va', same_page 0 va va' -> lookup_pt m' 2 root va' = Some (ent, 0%nat)) /\
    (forall va', ~ same_page 0 va va' -> lookup_pt m' 2 root va' = lookup_pt m 2 root va' /\
       forall s' l, lookup_pt m 2 root va' = Some (s', l) -> m' !! s' = m !! s').
Proof.
  intros [Htr Hroot Hleaf] Hl Hp Hpm Hout Hb Hfree.
  destruct (mapPage_lookup m T g root va p bits 0 Htr Hroot ltac:(lia) Hp Hb) as (ent & e & m' & T' & g' & E & Htr' & Hsub & _ & Hown & Hnew & Hcnt & He & Hin & Hother);
    [eapply small_mappable; [done..|]; intros s l; by rewrite Hl|lia|].
  assert (Hint : forall x, internal T' g' x -> internal T g x).
  { intros x [Hx|(t & n & Ht & Hx)]; [left; auto|]. destruct (Hnew t n x Ht Hx) as [H|H]; [right; by exists t, n|by left]. }
  exists ent, e, m', T', g'. split; [done|]. split; [|done]. constructor; [done|by eapply lookup_weaken|].
  intros va' s l Hl'. destruct (decide (same_page 0 va va')) as [Hs|Hs].
  - rewrite Hin in Hl' by done. injection Hl' as <- <-. split; [done|]. eexists. split; [done|].
    destruct (leaf_entry_spec e p bits Hp Hb) as (_ & _ & -> & _). rewrite align_down_id by (done || lia). intros x Hx Hi. by apply (Hout x Hx), Hint.
  - destruct (Hother va' Hs) as [E1 E2]. rewrite E1 in Hl'. rewrite (E2 s l Hl'). destruct (Hleaf va' s l Hl') as (-> & e1 & He1 & Ho).
    split; [done|]. exists e1. split; [done|]. intros x Hx Hi. by apply (Ho x Hx), Hint.
Qed.

(** *** Flags *)

Lemma or_bits_testbit e b i : 0 <= i ->
  Z.testbit (entry_bits (MemSpace.or_bits e b)) i = (i <? 10) && (Z.testbit (entry_bits e) i || Z.testbit b i).
Proof.
  intros Hi. unfold MemSpace.or_bits. rewrite MemSpace.entry_bits_set_bits, Z.land_spec, Z.lor_spec, Z.testbit_ones_nonneg by lia. apply andb_comm.
Qed.

Lemma clear_bits_testbit e b i : 0 <= i ->
  Z.testbit (entry_bits (MemSpace.clear_bits e b)) i = (i <? 10) && (Z.testbit (entry_bits e) i && negb (Z.testbit b i)).
Proof.
  intros Hi. unfold MemSpace.clear_bits. rewrite MemSpace.entry_bits_set_bits, Z.land_spec, Z.ldiff_spec, Z.testbit_ones_nonneg by lia. apply andb_comm.
Qed.

Lemma leaf_entry_testbit e p b i : 0 < i -> Z.testbit (entry_bits (leaf_entry e p b)) i = (i <? 10) && Z.testbit b i.
Proof.
  intros Hi. unfold leaf_entry, entry_bits, set_v, set_bits. rewrite testbit_get_field, !testbit_set_field by lia.
  rewrite (proj2 (Z.leb_le 0 (0 + i))) by lia. replace (0 + i <? 0 + 1) with false by lia. cbn [andb].
  replace (0 + i <? 0 + 10) with (i <? 10) by lia. destruct (i <? 10); cbn [andb]; [|done]. f_equal. lia.
Qed.

(** Permissions that can be mapped, and stay when the write bit is taken away. *)
Definition good_bits (b : Z) : Prop := 0 <= b < 2 ^ 10 /\ Z.land b 0xa <> 0 /\ Z.testbit b 0 = false.

Lemma bits_below b i : 0 <= b < 2 ^ 10 -> Z.testbit b i = true -> i < 10.
Proof. intros Hb Hi. destruct (Z.lt_ge_cases i 10); [done|]. by rewrite (high_bits_zero 10) in Hi. Qed.

Lemma read_or_exec b : Z.land b 0xa <> 0 <-> Z.testbit b 1 = true \/ Z.testbit b 3 = true.
Proof.
  split.
  - intros H. destruct (Z.testbit b 1) eqn:E1; [by left|]. destruct (Z.testbit b 3) eqn:E3; [by right|]. exfalso. apply H.
    apply Z.bits_inj'. intros i Hi. rewrite Z.land_spec, Z.bits_0. destruct (Z.eq_dec i 1) as [->|]; [by rewrite E1|].
    destruct (Z.eq_dec i 3) as [->|]; [by rewrite E3|]. apply andb_false_intro2.
    destruct (Z.lt_ge_cases i 4); [|by apply (high_bits_zero 4)]. assert (i = 0 \/ i = 2) as [->| ->] by lia; done.
  - intros H E. apply (f_equal (fun x => (Z.testbit x 1, Z.testbit x 3))) in E. rewrite !Z.land_spec in E.
    destruct H as [H|H]; rewrite H in E; by injection E.
Qed.

Lemma rwx_test e : has_bits e PAGE_ENTRY_RWX = Z.testbit (entry_bits e) 1 || Z.testbit (entry_bits e) 2 || Z.testbit (entry_bits e) 3.
Proof.
  unfold has_bits. change PAGE_ENTRY_RWX with 14. set (b := entry_bits e).
  destruct (Z.eqb_spec (Z.land b 14) 0) as [E|E]; cbn [negb].
  - assert (H : forall i, Z.testbit 14 i = true -> Z.testbit b i = false).
    { intros i Hi. apply (f_equal (fun x => Z.testbit x i)) in E. rewrite Z.land_spec, Hi, andb_true_r, Z.bits_0 in E. done. }
    by rewrite !H.
  - destruct (Z.testbit b 1) eqn:E1; [done|]. destruct (Z.testbit b 2) eqn:E2; [done|]. destruct (Z.testbit b 3) eqn:E3; [done|].
    exfalso. apply E. apply Z.bits_inj'. intros i Hi. rewrite Z.land_spec, Z.bits_0.
    destruct (Z.lt_ge_cases i 4); [|rewrite (high_bits_zero 4 14) by lia; apply andb_false_r].
    assert (i = 0 \/ i = 1 \/ i = 2 \/ i = 3) as [->|[->|[->| ->]]] by lia; rewrite ?E1, ?E2, ?E3; try done. apply andb_false_r.
Qed.

Lemma copy_test e : has_bits e PAGE_ENTRY_COPY = Z.testbit (entry_bits e) 8.
Proof.
  unfold has_bits. change PAGE_ENTRY_COPY with (2 ^ 8). destruct (Z.testbit (entry_bits e) 8) eqn:E.
  - apply negb_true_iff, Z.eqb_neq. intros H. apply (f_equal (fun x => Z.testbit x 8)) in H. rewrite Z.land_spec, E in H. done.
  - apply negb_false_iff, Z.eqb_eq, Z.bits_inj'. intros i Hi. rewrite Z.land_spec, Z.bits_0, Z.pow2_bits_eqb by lia.
    destruct (Z.eqb_spec 8 i) as [<-|]; [by rewrite E|apply andb_false_r].
Qed.

(** What the two loops make of an entry that is there. *)
Definition widened (bits : Z) (e e' : Z) : Prop :=
  entry_v e' = true /\ has_bits e' PAGE_ENTRY_RWX = true /\ entry_page e' = entry_page e /\ allows bits e' /\
  forall b, allows b e -> allows b e'.

Lemma or_widens bits e : good_bits bits -> entry_v e = true -> widened bits e (MemSpace.or_bits e bits).
Proof.
  intros (Hb & Hr & H0) Hv. rewrite read_or_exec in Hr.
  assert (Hin : forall i, 0 <= i -> Z.testbit (entry_bits e) i = true -> i < 10).
  { intros i Hi H. rewrite MemSpace.testbit_entry_bits in H by done. destruct (Z.ltb_spec i 10); done. }
  split; [|split; [|split; [apply MemSpace.entry_page_or_bits|split]]].
  - rewrite MemSpace.entry_v_bits in *. rewrite or_bits_testbit, Hv by lia. done.
  - rewrite rwx_test, !or_bits_testbit by lia. cbn [Z.ltb Z.compare andb Pos.compare Pos.compare_cont].
    destruct Hr as [-> | ->]; rewrite ?orb_true_r; done.
  - intros i Hi Ht. left. rewrite or_bits_testbit, Ht, orb_true_r by done. pose proof (bits_below bits i Hb Ht). lia.
  - intros b Hab i Hi Ht. rewrite !or_bits_testbit by lia. destruct (Hab i Hi Ht) as [H|[-> H]].
    + left. rewrite H. cbn [orb]. specialize (Hin i Hi H). lia.
    + right. split; [done|]. by rewrite H.
Qed.

Lemma clear_widens bits e : good_bits bits -> entry_v e = true -> has_bits (MemSpace.or_bits e bits) PAGE_ENTRY_COPY = true ->
  widened bits e (MemSpace.clear_bits (MemSpace.or_bits e bits) PAGE_ENTRY_WRITE).
Proof.
  intros Hg Hv Hc. destruct (or_widens bits e Hg Hv) as (Hv' & Hx & Hp & Ha & Hk). destruct Hg as (Hb & Hr & H0). rewrite read_or_exec in Hr.
  rewrite copy_test in Hc. set (e' := MemSpace.or_bits e bits) in *.
  assert (H8 : Z.testbit (entry_bits (MemSpace.clear_bits e' PAGE_ENTRY_WRITE)) 8 = true) by (by rewrite clear_bits_testbit, Hc by lia).
  assert (Hkeep : forall b, allows b e' -> allows b (MemSpace.clear_bits e' PAGE_ENTRY_WRITE)).
  { intros b Hab i Hi Ht. destruct (Z.eq_dec i 2) as [->|Hne]; [by right|]. destruct (Hab i Hi Ht) as [H|[? _]]; [|done]. left.
    rewrite clear_bits_testbit, H by done. assert (i < 10).
    { rewrite MemSpace.testbit_entry_bits in H by done. destruct (Z.ltb_spec i 10); done. }
    change PAGE_ENTRY_WRITE with (2 ^ 2). rewrite Z.pow2_bits_eqb by lia. rewrite (proj2 (Z.eqb_neq 2 i)) by lia. lia. }
  split; [|split; [|split; [by rewrite MemSpace.entry_page_clear_bits|split; [by apply Hkeep|auto]]]].
  - rewrite MemSpace.entry_v_bits in *. by rewrite clear_bits_testbit, Hv' by lia.
  - rewrite rwx_test, !clear_bits_testbit by lia. unfold e'. rewrite !or_bits_testbit by lia. destruct Hr as [-> | ->]; rewrite !orb_true_r; done.
Qed.

Lemma new_allows e p bits : good_bits bits -> allows bits (leaf_entry e p bits).
Proof.
  intros (Hb & _ & H0) i Hi Ht. left. destruct (Z.eq_dec i 0) as [->|]; [congruence|].
  rewrite leaf_entry_testbit, Ht by lia. pose proof (bits_below bits i Hb Ht). lia.
Qed.

Lemma zero_bits_good bits : good_bits bits -> good_bits (Z.lor (Z.ldiff bits PAGE_ENTRY_WRITE) PAGE_ENTRY_COPY).
Proof.
  intros (Hb & Hr & H0). rewrite read_or_exec in Hr. change PAGE_ENTRY_WRITE with (2 ^ 2). change PAGE_ENTRY_COPY with (2 ^ 8). split; [|split].
  - assert (0 <= Z.lor (Z.ldiff bits (2 ^ 2)) (2 ^ 8)) by (apply Z.lor_nonneg; split; [apply Z.ldiff_nonneg; lia|lia]). split; [done|].
    assert (E : Z.land (Z.lor (Z.ldiff bits (2 ^ 2)) (2 ^ 8)) (Z.ones 10) = Z.lor (Z.ldiff bits (2 ^ 2)) (2 ^ 8)).
    { apply Z.bits_inj'. intros i Hi. rewrite Z.land_spec, Z.testbit_ones_nonneg by lia. destruct (Z.ltb_spec i 10); [apply andb_true_r|].
      rewrite Z.lor_spec, Z.ldiff_spec, (high_bits_zero 10 bits), (high_bits_zero 10 (2 ^ 8)) by lia. done. }
    rewrite <- E, Z.land_ones by lia. by apply Z.mod_pos_bound.
  - rewrite read_or_exec, !Z.lor_spec, !Z.ldiff_spec. destruct Hr as [-> | ->]; [left|right]; done.
  - rewrite Z.lor_spec, Z.ldiff_spec, H0. done.
Qed.

Lemma zero_allows e p bits : good_bits bits -> allows bits (leaf_entry e p (Z.lor (Z.ldiff bits PAGE_ENTRY_WRITE) PAGE_ENTRY_COPY)).
Proof.
  intros (Hb & _ & H0) i Hi Ht. assert (i <> 0) by (intros ->; congruence). pose proof (bits_below bits i Hb Ht).
  rewrite !leaf_entry_testbit, !Z.lor_spec, !Z.ldiff_spec, Ht by lia.
  change PAGE_ENTRY_WRITE with (2 ^ 2). change PAGE_ENTRY_COPY with (2 ^ 8). rewrite !Z.pow2_bits_eqb by lia.
  destruct (Z.eqb_spec 2 i) as [<-|]; [right; split; [done|exact (orb_true_r _)]|left]. cbn [negb andb orb]. lia.
Qed.

Lemma good_rwx bits : good_bits bits -> Z.land bits 0xe <> 0.
Proof.
  intros (_ & Hr & _) E. apply Hr. apply Z.bits_inj'. intros i Hi. apply (f_equal (fun x => Z.testbit x i)) in E.
  rewrite Z.land_spec, Z.bits_0 in *. destruct (Z.testbit bits i); [|done]. cbn [andb] in *.
  destruct (Z.lt_ge_cases i 4); [|by apply (high_bits_zero 4)]. assert (i = 0 \/ i = 1 \/ i = 2 \/ i = 3) as [->|[->|[->| ->]]] by lia; done.
Qed.

(** Addresses of one page have the same entry. *)
Lemma lookup_same m T g n t va va' : tree m T g -> T !! t = Some n -> (n <= 2)%nat ->
  (forall i, (0 <= i <= n)%nat -> vpn va (Z.of_nat i) = vpn va' (Z.of_nat i)) -> lookup_pt m n t va' = lookup_pt m n t va.
Proof.
  intros Htr. revert t. induction n as [|n IH]; intros t Ht Hn Hs; cbn [lookup_pt]; rewrite <- Hs by lia; [done|].
  destruct (tr_entry _ _ _ Htr t _ (vpn va (Z.of_nat (Datatypes.S n))) Ht) as (e & He & Hc); [apply vpn_range|]. rewrite He. cbn [mbind option_bind].
  destruct (entry_v e) eqn:Hv; [|done]. destruct (has_bits e PAGE_ENTRY_RWX) eqn:Hb; [done|].
  destruct Hc as (n' & [= <-] & Hn'); [unfold branch; by rewrite Hv, Hb|]. apply IH; [done|lia|]. intros i Hi. apply Hs. lia.
Qed.

Lemma lookup_same_page m T g root va va' : tree m T g -> T !! root = Some 2%nat -> same_page 0 va va' ->
  lookup_pt m 2 root va' = lookup_pt m 2 root va.
Proof. intros Htr Hroot Hs. by eapply lookup_same. Qed.

(** *** What loading does to a space

    [Q va b] says that the address [va] was given the permissions [b].  Those of
    other addresses are as before, and no permission is taken away.  At most [n]
    pages of the allocator were used. *)
Record loaded (m m' : mem) (T T' : gmap Z nat) (g g' : ghost) (root : Z) (Q : Z -> Z -> Prop) (n : nat) : Prop := {
  ld_space : space_ok m' T' g' root;
  ld_internal : forall x, internal T' g' x -> internal T g x;
  ld_free : (free_pages g <= free_pages g' + n)%nat;
  ld_here : forall va b, Q va b -> exists e, entry_at m' root va e /\ allows b e;
  ld_keep : forall va e, entry_at m root va e -> exists e', entry_at m' root va e' /\ forall b, allows b e -> allows b e';
  ld_other : forall va, (forall b, ~ Q va b) -> lookup_pt m' 2 root va = lookup_pt m 2 root va /\
    forall s l, lookup_pt m 2 root va = Some (s, l) -> m' !! s = m !! s;
}.

Lemma loaded_refl m T g root : space_ok m T g root -> loaded m m T T g g root (fun _ _ => False) 0.
Proof. intros H. constructor; [done|done|lia|done| |done]. intros va e He. by exists e. Qed.

Lemma loaded_trans m1 m2 m3 T1 T2 T3 g1 g2 g3 root Q1 Q2 Q n1 n2 n :
  loaded m1 m2 T1 T2 g1 g2 root Q1 n1 -> loaded m2 m3 T2 T3 g2 g3 root Q2 n2 ->
  (forall va b, Q va b <-> Q1 va b \/ Q2 va b) -> (n1 + n2 <= n)%nat -> loaded m1 m3 T1 T3 g1 g3 root Q n.
Proof.
  intros [S1 I1 F1 H1 K1 O1] [S2 I2 F2 H2 K2 O2] HQ Hn. constructor; [done|auto|lia| | |].
  - intros va b [H|H]%HQ; [|auto]. destruct (H1 va b H) as (e & He & Ha). destruct (K2 va e He) as (e' & He' & Hk). exists e'. auto.
  - intros va e He. destruct (K1 va e He) as (e1 & He1 & Hk1). destruct (K2 va e1 He1) as (e2 & He2 & Hk2). exists e2. auto.
  - intros va Hv. destruct (O1 va) as [E1 M1]; [intros b Hb; apply (Hv b), HQ; by left|].
    destruct (O2 va) as [E2 M2]; [intros b Hb; apply (Hv b), HQ; by right|]. split; [by rewrite E2|].
    intros s l Hl. rewrite (M2 s l) by (by rewrite E1). by apply (M1 s l).
Qed.

Lemma loaded_weaken m m' T T' g g' root Q Q' n n' : loaded m m' T T' g g' root Q n ->
  (forall va b, Q va b <-> Q' va b) -> (n <= n')%nat -> loaded m m' T T' g g' root Q' n'.
Proof.
  intros [S1 I1 F1 H1 K1 O1] HQ Hn. constructor; [done|done|lia| |done|].
  - intros va b H. by apply H1, HQ.
  - intros va H. apply O1. intros b Hb. by apply (H b), HQ.
Qed.

(** Changing an entry that is there, and mapping a page. *)
Lemma loaded_entry m T g root va s e e' bits : space_ok m T g root -> lookup_pt m 2 root va = Some (s, 0%nat) ->
  m !! s = Some e -> widened bits e e' ->
  loaded m (<[s := e']> m) T T g g root (fun va' b => same_page 0 va va' /\ b = bits) 0.
Proof.
  intros Hs Hl He (Hv & Hb & Hp & Ha & Hk). destruct (set_entry m T g root va s e e' Hs Hl He Hv Hb Hp) as (Hs' & Hin & Hout).
  constructor; [done|done|lia| | |].
  - intros va' b [H ->]. exists e'. split; [|done]. exists s. split; [by apply Hin|apply lookup_insert_eq].
  - intros va' e1 (s1 & Hl1 & He1). destruct (decide (same_page 0 va va')) as [H|H].
    + exists e'. split; [exists s; split; [by apply Hin|apply lookup_insert_eq]|].
      destruct Hs as [Htr Hroot _]. rewrite (lookup_same_page m T g root va va'), Hl in Hl1 by done. injection Hl1 as <-. rewrite He in He1. injection He1 as <-. done.
    + destruct (Hout va' H) as [E1 E2]. exists e1. split; [|done]. exists s1. split; [by rewrite E1|by rewrite (E2 s1 0%nat)].
  - intros va' H. apply Hout. intros Hsm. by apply (H bits).
Qed.

Lemma loaded_new m T g root va p b bits : space_ok m T g root -> lookup_pt m 2 root va = None ->
  0 <= p < 2 ^ 56 -> p mod 4096 = 0 -> outside T g p -> good_bits b -> (forall e, allows bits (leaf_entry e p b)) -> (2 <= free_pages g)%nat ->
  exists ent m' T' g', mapPage root va p b 0 m = Some (ent, m') /\
    loaded m m' T T' g g' root (fun va' b => same_page 0 va va' /\ b = bits) 2.
Proof.
  intros Hs Hl Hp Hpm Hout Hb Ha Hfree.
  destruct (map_new m T g root va p b Hs Hl Hp Hpm Hout (good_rwx b Hb) Hfree) as (ent & e & m' & T' & g' & E & Hs' & Hint & Hcnt & He & Hin & Hother).
  exists ent, m', T', g'. split; [done|]. constructor; [done|done|done| | |].
  - intros va' b' [H ->]. eexists. split; [exists ent; split; [by apply Hin|exact He]|]. apply Ha.
  - intros va' e1 (s1 & Hl1 & He1). destruct (decide (same_page 0 va va')) as [H|H].
    + exfalso. destruct Hs as [Htr Hroot _]. by rewrite (lookup_same_page m T g root va va'), Hl in Hl1.
    + destruct (Hother va' H) as [E1 E2]. exists e1. split; [|done]. exists s1. split; [by rewrite E1|by rewrite (E2 s1 0%nat)].
  - intros va' H. apply Hother. intros Hsm. by apply (H bits).
Qed.

(** *** The two loops *)

Lemma virtToEntry_cases m T g root va : space_ok m T g root ->
  (virtToEntry root va m = Some (0, m) /\ lookup_pt m 2 root va = None) \/
  exists s e, virtToEntry root va m = Some (s, m) /\ 0 < s /\ lookup_pt m 2 root va = Some (s, 0%nat) /\ m !! s = Some e /\ entry_v e = true.
Proof.
  intros [Htr Hroot Hleaf]. rewrite (virtToEntry_spec m T g) by done. pose proof (lookup_entry_zero m T g root va Htr Hroot) as H.
  destruct (lookup_pt m 2 root va) as [[s l]|] eqn:E; [right|left; by rewrite H]. destruct H as [-> Hs].
  destruct (Hleaf va s l E) as (-> & e & He & _). destruct (lookup_leaf_entry m T g root va s 0 Htr Hroot E) as (e' & He' & Hv & _).
  rewrite He in He'. injection He' as <-. exists s, e. done.
Qed.

Definition page_at (p : Z) (bits : Z) (va b : Z) : Prop := same_page 0 p va /\ b = bits.

(** A page from the allocator. *)
Lemma fresh_space m m1 T g g1 root p : space_ok m T g root -> fresh_page p g g1 m m1 -> p <> 0 ->
  loaded m m1 T T g g1 root (fun _ _ => False) 1 /\ outside T g1 p /\ heap_page p /\ (forall x, page_of p x -> internal T g x).
Proof.
  intros [Htr Hroot Hleaf] Hfr Hp.
  destruct (tree_frame m m1 T g g1 Htr) as (Htr1 & Hl1); [apply Hfr|apply Hfr| |].
  { intros t n x Ht Hx. apply (fr_frame _ _ _ _ _ Hfr). by eapply tr_free. }
  assert (Hs : forall va s l, lookup_pt m 2 root va = Some (s, l) -> m1 !! s = m !! s).
  { intros va s l Hlk. destruct (lookup_pt_leaf m T g 2 root va s l Htr Hroot Hlk) as (t & e & Ht & -> & _).
    apply (fr_frame _ _ _ _ _ Hfr). eapply tr_free; [done..|]. by eapply table_slot, vpn_range. }
  assert (Hint : forall x, internal T g1 x -> internal T g x).
  { intros x [H|H]; [left; by apply (fr_shrink _ _ _ _ _ Hfr)|by right]. }
  assert (Hspace : space_ok m1 T g1 root).
  { constructor; [done..|]. intros va s l Hlk. rewrite Hl1 in Hlk by done. rewrite (Hs va s l Hlk).
    destruct (Hleaf va s l Hlk) as (-> & e & He & Ho). split; [done|]. exists e. split; [done|]. intros x Hx Hi. by apply (Ho x Hx), Hint. }
  pose proof (fr_count _ _ _ _ _ Hfr) as Hc. rewrite (proj2 (Z.eqb_neq p 0)) in Hc by done. split; [|split; [|split]].
  - constructor; [done..|lia|done| |].
    + intros va e (s & Hl & He). exists e. split; [|done]. exists s. rewrite Hl1 by done. split; [done|]. by rewrite (Hs va s 0%nat).
    + intros va _. rewrite Hl1 by done. split; [done|]. intros s l. apply Hs.
  - intros x Hx [H|(t & n & Ht & H)]; [by apply (fr_page _ _ _ _ _ Hfr Hp x Hx)|].
    apply (tr_free _ _ _ Htr t n x Ht H). by apply (fr_page _ _ _ _ _ Hfr Hp x Hx).
  - by apply Hfr.
  - intros x Hx. left. by apply (fr_page _ _ _ _ _ Hfr Hp x Hx).
Qed.

(** Writing to a page outside. *)
Lemma loaded_frame m m' T g root : space_ok m T g root -> (forall x, internal T g x -> m' !! x = m !! x) ->
  loaded m m' T T g g root (fun _ _ => False) 0.
Proof.
  intros Hs Hfr. destruct (space_frame m m' T g root Hs Hfr) as (Hs' & Hl & Hm). constructor; [done|done|lia|done| |].
  - intros va e (s & Hlk & He). exists e. split; [|done]. exists s. rewrite Hl. split; [done|]. by rewrite (Hm va s 0%nat).
  - intros va _. rewrite Hl. split; [done|]. apply Hm.
Qed.

Lemma zero_word_out page from i m x : x <> page + 8 * i -> zero_word page from i m !! x = m !! x.
Proof. intros H. unfold zero_word. destruct (from <=? 8 * i); [by rewrite lookup_insert_ne|]. destruct (from <? _); [by rewrite lookup_alter_ne|done]. Qed.

Lemma zero_tail_out page from m x : ~ page_of page x -> foldr (zero_word page from) m (seqZ 0 512) !! x = m !! x.
Proof.
  intros Hx. assert (H : forall l, Forall (fun i => 0 <= i < 512) l -> foldr (zero_word page from) m l !! x = m !! x).
  { induction l as [|i l IH]; intros Hl; [done|]. apply Forall_cons_1 in Hl as [Hi Hl]. cbn [foldr].
    rewrite zero_word_out; [by apply IH|]. intros ->. apply Hx. unfold page_of, PAGE_SIZE. lia. }
  apply H, List.Forall_forall. intros i Hi%list_elem_of_In%elem_of_seqZ. lia.
Qed.

Lemma file_page_run m T g root bits addr filesz position : space_ok m T g root -> good_bits bits -> (3 <= free_pages g)%nat ->
  exists m' T' g', file_page root bits addr filesz position m = Some (true, m') /\ loaded m m' T T' g g' root (page_at position bits) 3.
Proof.
  intros Hs Hb Hfree. unfold file_page.
  destruct (virtToEntry_cases m T g root position Hs) as [(E & Hl)|(s & e & E & Hpos & Hl & He & Hv)]; rewrite (bind_some _ _ _ _ _ E).
  - cbn [Z.eqb negb]. destruct (alloc_page_spec m g (tr_inv _ _ _ (so_tree _ _ _ _ Hs))) as (p & m1 & g1 & Ha & Hfr). rewrite (bind_some _ _ _ _ _ Ha).
    pose proof (fr_count _ _ _ _ _ Hfr) as Hc. destruct (Z.eqb_spec p 0) as [->|Hp]; [cbn in Hc; lia|].
    destruct (fresh_space m m1 T g g1 root p Hs Hfr Hp) as (L1 & Hout & Hheap & _).
    assert (Hl1 : lookup_pt m1 2 root position = None) by (by rewrite (proj1 (ld_other _ _ _ _ _ _ _ _ _ L1 position ltac:(auto)))).
    destruct (heap_page_range p Hheap) as (Hp1 & Hp2 & Hp3). unfold PAGE_SIZE in Hp2, Hp3.
    destruct (loaded_new m1 T g1 root position p bits bits (ld_space _ _ _ _ _ _ _ _ _ L1) Hl1 ltac:(lia) Hp3 Hout Hb) as (ent & m2 & T2 & g2 & E2 & L2);
      [intros; by apply new_allows|lia|].
    rewrite (bind_some _ _ _ _ _ E2).
    assert (L12 : loaded m m2 T T2 g g2 root (page_at position bits) 3).
    { eapply loaded_trans; [exact L1|exact L2| |lia]. intros. unfold page_at. tauto. }
    destruct (position +% PAGE_SIZE >? addr +% filesz); [|by exists m2, T2, g2].
    set (m3 := foldr (zero_word p (filesz mod PAGE_SIZE)) m2 (seqZ 0 512)). exists m3, T2, g2. split; [reflexivity|].
    eapply loaded_trans; [exact L12|apply (loaded_frame m2 m3 T2 g2 root); [apply L2|]| |lia].
    + intros x Hx. apply zero_tail_out. intros Hpx. apply (Hout x Hpx). by apply (ld_internal _ _ _ _ _ _ _ _ _ L2).
    + intros. tauto.
  - rewrite (proj2 (Z.eqb_neq s 0)) by lia. cbn [negb]. erewrite bind_load by exact He. rewrite bind_store.
    exists (<[s := MemSpace.or_bits e bits]> m), T, g. split; [reflexivity|].
    eapply loaded_weaken; [apply (loaded_entry m T g root position s e); [done..|by apply or_widens]|done|lia].
Qed.

Context (zero_page : Z).

(** The zero page is a page of its own. *)
Definition zero_ok (T : gmap Z nat) (g : ghost) : Prop :=
  0 <= zero_page < 2 ^ 56 /\ zero_page mod 4096 = 0 /\ outside T g zero_page.

Lemma zero_ok_loaded m m' T T' g g' root Q n : loaded m m' T T' g g' root Q n -> zero_ok T g -> zero_ok T' g'.
Proof. intros L (H1 & H2 & H3). split; [done|split; [done|]]. intros x Hx Hi. by apply (H3 x Hx), (ld_internal _ _ _ _ _ _ _ _ _ L). Qed.

Lemma zero_page_at_run m T g root bits position : space_ok m T g root -> good_bits bits -> zero_ok T g -> (3 <= free_pages g)%nat ->
  exists m' T' g', zero_page_at zero_page root bits position m = Some (tt, m') /\ loaded m m' T T' g g' root (page_at position bits) 3.
Proof.
  intros Hs Hb (Hz1 & Hz2 & Hz3) Hfree. unfold zero_page_at.
  destruct (virtToEntry_cases m T g root position Hs) as [(E & Hl)|(s & e & E & Hpos & Hl & He & Hv)]; rewrite (bind_some _ _ _ _ _ E).
  - cbn [Z.eqb negb]. destruct (negb (Z.land bits PAGE_ENTRY_WRITE =? 0)).
    + destruct (loaded_new m T g root position zero_page _ bits Hs Hl Hz1 Hz2 Hz3 (zero_bits_good bits Hb)) as (ent & m2 & T2 & g2 & E2 & L2);
        [intros; by apply zero_allows|lia|].
      rewrite (bind_some _ _ _ _ _ E2). exists m2, T2, g2. split; [reflexivity|]. eapply loaded_weaken; [exact L2|done|lia].
    + destruct (loaded_new m T g root position zero_page bits bits Hs Hl Hz1 Hz2 Hz3 Hb) as (ent & m2 & T2 & g2 & E2 & L2);
        [intros; by apply new_allows|lia|].
      rewrite (bind_some _ _ _ _ _ E2). exists m2, T2, g2. split; [reflexivity|]. eapply loaded_weaken; [exact L2|done|lia].
  - rewrite (proj2 (Z.eqb_neq s 0)) by lia. cbn [negb]. erewrite bind_load by exact He. cbv zeta.
    eexists _, T, g. split; [reflexivity|]. eapply loaded_weaken; [apply (loaded_entry m T g root position s e); [done..|]|done|lia].
    destruct (has_bits (MemSpace.or_bits e bits) PAGE_ENTRY_COPY) eqn:Hc; [by apply clear_widens|by apply or_widens].
Qed.

(** The pages from [lo] below [hi]. *)
Definition in_pages (lo hi bits va b : Z) : Prop := exists p, lo <= p < hi /\ p mod 4096 = 0 /\ page_at p bits va b.
Definition page_count (lo hi : Z) : nat := Z.to_nat ((hi - lo + 4095) / 4096).

Lemma page_count_step lo hi : lo < hi -> page_count lo hi = Datatypes.S (page_count (lo + 4096) hi).
Proof.
  intros H. unfold page_count. replace (hi - lo + 4095) with (hi - (lo + 4096) + 4095 + 1 * 4096) by lia.
  rewrite Z.div_add by lia. assert (0 <= (hi - (lo + 4096) + 4095) / 4096) by (apply Z.div_pos; lia). lia.
Qed.

Lemma page_count_none lo hi : hi <= lo -> page_count lo hi = 0%nat.
Proof. intros H. unfold page_count. assert ((hi - lo + 4095) / 4096 < 1) by (apply Z.div_lt_upper_bound; lia). lia. Qed.

Lemma in_pages_step lo hi bits va b : lo < hi -> lo mod 4096 = 0 ->
  in_pages lo hi bits va b <-> page_at lo bits va b \/ in_pages (lo + 4096) hi bits va b.
Proof.
  intros Hlt Hm. split.
  - intros (p & Hp & Hpm & H). destruct (Z.eq_dec p lo) as [->|]; [by left|]. right. exists p. split; [|done].
    split; [|lia]. Z.div_mod_to_equations. lia.
  - intros [H|(p & Hp & Hpm & H)]; [exists lo; split; [lia|done]|]. exists p. split; [lia|done].
Qed.

Lemma in_pages_none lo hi bits va b : hi <= lo -> in_pages lo hi bits va b <-> False.
Proof. intros H. split; [|done]. intros (p & Hp & _). lia. Qed.

(** The position behind the loop. *)
Definition page_end (lo hi : Z) : Z := Z.max lo (align_up 4096 hi).

Lemma file_loop_run fuel m T g root bits addr filesz position : space_ok m T g root -> good_bits bits ->
  0 <= addr -> 0 <= filesz -> addr + filesz < 2 ^ 40 -> 0 <= position < 2 ^ 41 -> position mod 4096 = 0 ->
  (page_count position (addr + filesz) < fuel)%nat -> (3 * page_count position (addr + filesz) <= free_pages g)%nat ->
  exists m' T' g', file_loop fuel root bits addr filesz position m = Some (Some (page_end position (addr + filesz)), m') /\
    loaded m m' T T' g g' root (in_pages position (addr + filesz) bits) (3 * page_count position (addr + filesz)).
Proof.
  revert m T g position. induction fuel as [|fuel IH]; intros m T g position Hs Hb Ha Hf He Hp Hm Hfuel Hfree; [lia|].
  cbn [file_loop]. rewrite (wrap_small 64) by lia. destruct (Z.ltb_spec position (addr + filesz)) as [Hlt|Hge].
  - rewrite page_count_step in * by done.
    destruct (file_page_run m T g root bits addr filesz position Hs Hb ltac:(lia)) as (m1 & T1 & g1 & E1 & L1). rewrite (bind_some _ _ _ _ _ E1).
    unfold PAGE_SIZE. rewrite (wrap_small 64) by lia. pose proof (ld_free _ _ _ _ _ _ _ _ _ L1).
    destruct (IH m1 T1 g1 (position + 4096) (ld_space _ _ _ _ _ _ _ _ _ L1) Hb Ha Hf He) as (m2 & T2 & g2 & E2 & L2);
      try lia; [Z.div_mod_to_equations; lia|].
    exists m2, T2, g2. split.
    + rewrite E2. do 2 f_equal. unfold page_end. pose proof (align_up_spec 4096 (addr + filesz) ltac:(lia)). pose proof (align_up_mod 4096 (addr + filesz) ltac:(lia)).
      f_equal. Z.div_mod_to_equations. lia.
    + eapply loaded_trans; [exact L1|exact L2| |lia]. intros va b. by apply in_pages_step.
  - rewrite page_count_none in * by done. exists m, T, g. split.
    + unfold page_end. pose proof (align_up_spec 4096 (addr + filesz) ltac:(lia)). pose proof (align_up_mod 4096 (addr + filesz) ltac:(lia)).
      assert (Z.max position (align_up 4096 (addr + filesz)) = position) as -> by (Z.div_mod_to_equations; lia). done.
    + eapply loaded_weaken; [by apply loaded_refl| |lia]. intros va b. symmetry. by apply in_pages_none.
Qed.

Lemma zero_loop_run fuel m T g root bits addr memsz position : space_ok m T g root -> good_bits bits -> zero_ok T g ->
  0 <= addr -> 0 <= memsz -> addr + memsz < 2 ^ 40 -> 0 <= position < 2 ^ 41 -> position mod 4096 = 0 ->
  (page_count position (addr + memsz) < fuel)%nat -> (3 * page_count position (addr + memsz) <= free_pages g)%nat ->
  exists m' T' g', zero_loop zero_page fuel root bits addr memsz position m = Some (tt, m') /\
    loaded m m' T T' g g' root (in_pages position (addr + memsz) bits) (3 * page_count position (addr + memsz)).
Proof.
  revert m T g position. induction fuel as [|fuel IH]; intros m T g position Hs Hb Hz Ha Hf He Hp Hm Hfuel Hfree; [lia|].
  cbn [zero_loop]. rewrite (wrap_small 64) by lia. destruct (Z.ltb_spec position (addr + memsz)) as [Hlt|Hge].
  - rewrite page_count_step in * by done.
    destruct (zero_page_at_run m T g root bits position Hs Hb Hz ltac:(lia)) as (m1 & T1 & g1 & E1 & L1). rewrite (bind_some _ _ _ _ _ E1).
    unfold PAGE_SIZE. rewrite (wrap_small 64) by lia. pose proof (ld_free _ _ _ _ _ _ _ _ _ L1).
    destruct (IH m1 T1 g1 (position + 4096) (ld_space _ _ _ _ _ _ _ _ _ L1) Hb) as (m2 & T2 & g2 & E2 & L2);
      try lia; [by eapply zero_ok_loaded|Z.div_mod_to_equations; lia|].
    exists m2, T2, g2. split; [exact E2|]. eapply loaded_trans; [exact L1|exact L2| |lia]. intros va b. by apply in_pages_step.
  - rewrite page_count_none in * by done. exists m, T, g. split; [done|].
    eapply loaded_weaken; [by apply loaded_refl| |lia]. intros va b. symmetry. by apply in_pages_none.
Qed.

(** *** [allocatePages] *)

Lemma page_bits_good flags : Z.land flags 7 <> 2 -> good_bits (page_bits flags).
Proof.
  intros H. unfold page_bits, ELF_PROG_EXEC, ELF_PROG_READ, ELF_PROG_WRITE.
  assert (Hbit : forall k, 0 <= k -> (Z.land flags (2 ^ k) =? 0) = negb (Z.testbit flags k)).
  { intros k Hk. destruct (Z.testbit flags k) eqn:E; cbn [negb].
    - apply Z.eqb_neq. intros H0. apply (f_equal (fun x => Z.testbit x k)) in H0. by rewrite Z.land_spec, E, Z.pow2_bits_true, Z.bits_0 in H0 by lia.
    - apply Z.eqb_eq, Z.bits_inj'. intros i Hi. rewrite Z.land_spec, Z.bits_0, Z.pow2_bits_eqb by lia.
      destruct (Z.eqb_spec k i) as [<-|]; [by rewrite E|apply andb_false_r]. }
  pose proof (Hbit 0 ltac:(lia)) as Hx. pose proof (Hbit 1 ltac:(lia)) as Hw. pose proof (Hbit 2 ltac:(lia)) as Hr.
  change (2 ^ 0) with 1 in Hx. change (2 ^ 1) with 2 in Hw. change (2 ^ 2) with 4 in Hr. rewrite Hx, Hr, Hw.
  destruct (Z.testbit flags 0) eqn:E0, (Z.testbit flags 2) eqn:E2, (Z.testbit flags 1) eqn:E1; try (vm_compute; repeat split; discriminate).
  exfalso. apply H. apply Z.bits_inj'. intros i Hi. rewrite Z.land_spec.
  destruct (Z.lt_ge_cases i 3); [|rewrite (high_bits_zero 3 7), (high_bits_zero 3 2) by lia; apply andb_false_r].
  assert (i = 0 \/ i = 1 \/ i = 2) as [->|[->| ->]] by lia; rewrite ?E0, ?E1, ?E2; done.
Qed.

Definition segment_pages (addr size : Z) : nat := page_count (align_down 4096 addr) (addr + size).

Lemma page_count_split lo a b : lo mod 4096 = 0 ->
  (page_count lo a + page_count (page_end lo a) b <= page_count lo (Z.max a b))%nat.
Proof.
  intros Hlo. pose proof (align_up_spec 4096 a ltac:(lia)) as HA. pose proof (align_up_mod 4096 a ltac:(lia)) as HAm.
  unfold page_end. destruct (Z.le_gt_cases (align_up 4096 a) lo) as [H|H].
  - rewrite Z.max_l by lia. rewrite (page_count_none lo a) by lia. cbn [Nat.add]. unfold page_count.
    assert ((b - lo + 4095) / 4096 <= (Z.max a b - lo + 4095) / 4096) by (apply Z.div_le_mono; lia). lia.
  - rewrite Z.max_r by lia. destruct (Z.le_gt_cases b (align_up 4096 a)) as [Hb|Hb].
    + rewrite (page_count_none (align_up 4096 a) b) by lia. unfold page_count.
      assert ((a - lo + 4095) / 4096 <= (Z.max a b - lo + 4095) / 4096) by (apply Z.div_le_mono; lia). lia.
    + rewrite Z.max_r by lia. unfold page_count. Z.div_mod_to_equations. lia.
Qed.

Lemma in_pages_split lo a b bits va p : lo mod 4096 = 0 ->
  in_pages lo (Z.max a b) bits va p <-> in_pages lo a bits va p \/ in_pages (page_end lo a) b bits va p.
Proof.
  intros Hlo. unfold page_end. pose proof (align_up_spec 4096 a ltac:(lia)). pose proof (align_up_mod 4096 a ltac:(lia)). split.
  - intros (q & Hq & Hm & H1). destruct (Z.lt_ge_cases q a); [left; exists q; split; [lia|done]|right]. exists q. split; [|done].
    split; [|lia]. Z.div_mod_to_equations. lia.
  - intros [(q & Hq & Hm & H1)|(q & Hq & Hm & H1)]; exists q; (split; [lia|done]).
Qed.

Lemma allocatePages_run m T g root addr filesz memsz flags : space_ok m T g root -> zero_ok T g -> Z.land flags 7 <> 2 ->
  0 <= addr -> 0 <= filesz -> 0 <= memsz -> addr + Z.max filesz memsz < 2 ^ 40 ->
  (3 * segment_pages addr (Z.max filesz memsz) <= free_pages g)%nat ->
  exists m' T' g', allocatePages zero_page root addr filesz memsz flags m = Some (true, m') /\
    loaded m m' T T' g g' root (in_pages (align_down 4096 addr) (addr + Z.max filesz memsz) (page_bits flags)) (3 * segment_pages addr (Z.max filesz memsz)).
Proof.
  intros Hs Hz Hfl Ha Hf Hm Hend Hfree. unfold allocatePages.
  assert (Hpos : Z.land addr (u64 (- PAGE_SIZE)) = align_down 4096 addr).
  { change (u64 (- PAGE_SIZE)) with (u64 (- 2 ^ 12)). rewrite land_mask64 by lia. done. }
  rewrite Hpos. set (lo := align_down 4096 addr) in *. pose proof (page_bits_good flags Hfl) as Hb.
  pose proof (align_down_le 4096 addr ltac:(lia)) as Hlo. pose proof (align_down_mod 4096 addr ltac:(lia)) as Hlom. fold lo in Hlo, Hlom.
  assert (Hlo0 : 0 <= lo) by (unfold lo, align_down; Z.div_mod_to_equations; lia).
  pose proof (page_count_split lo (addr + filesz) (addr + memsz) Hlom) as Hcount.
  unfold segment_pages in *. fold lo in Hfree |- *. replace (addr + Z.max filesz memsz) with (Z.max (addr + filesz) (addr + memsz)) in * by lia.
  assert (Hfuel : forall lo size, 0 <= size -> addr - 4096 < lo -> (page_count lo (addr + size) < Datatypes.S (pages_fuel size))%nat).
  { intros l size H1 H2. unfold page_count, pages_fuel, PAGE_SIZE. Z.div_mod_to_equations. lia. }
  destruct (file_loop_run (Datatypes.S (pages_fuel filesz)) m T g root (page_bits flags) addr filesz lo) as (m1 & T1 & g1 & E1 & L1); try done; try lia.
  { apply Hfuel; lia. }
  rewrite (bind_some _ _ _ _ _ E1). pose proof (ld_free _ _ _ _ _ _ _ _ _ L1).
  pose proof (align_up_spec 4096 (addr + filesz) ltac:(lia)). pose proof (align_up_mod 4096 (addr + filesz) ltac:(lia)).
  assert (Hpe : 0 <= page_end lo (addr + filesz) < 2 ^ 41 /\ page_end lo (addr + filesz) mod 4096 = 0 /\ addr - 4096 < page_end lo (addr + filesz)).
  { unfold page_end. destruct (Z.max_spec lo (align_up 4096 (addr + filesz))) as [[? ->]|[? ->]]; lia. }
  destruct (zero_loop_run (Datatypes.S (pages_fuel memsz)) m1 T1 g1 root (page_bits flags) addr memsz (page_end lo (addr + filesz))) as (m2 & T2 & g2 & E2 & L2);
    try done; try lia; [apply L1|by eapply zero_ok_loaded|apply Hfuel; lia|].
  rewrite (bind_some _ _ _ _ _ E2). exists m2, T2, g2. split; [reflexivity|].
  eapply loaded_trans; [exact L1|exact L2| |lia]. intros va b. by apply in_pages_split.
Qed.

Lemma loaded_narrow m m' T T' g g' root Q Q' n : loaded m m' T T' g g' root Q n ->
  (forall va b, Q' va b -> Q va b) -> (forall va b, Q va b -> exists b', Q' va b') -> loaded m m' T T' g g' root Q' n.
Proof.
  intros [S1 I1 F1 H1 K1 O1] HQ HQ'. constructor; [done|done|lia|auto|done|].
  intros va H. apply O1. intros b Hb. destruct (HQ' va b Hb) as [b' Hb']. by apply (H b').
Qed.

Lemma segment_pages_mono addr a b : a <= b -> (segment_pages addr a <= segment_pages addr b)%nat.
Proof.
  intros H. unfold segment_pages, page_count.
  assert ((addr + a - align_down 4096 addr + 4095) / 4096 <= (addr + b - align_down 4096 addr + 4095) / 4096) by (apply Z.div_le_mono; lia). lia.
Qed.

(** ** Segments

    What reading into a space does: it may give a page that is copied on write a
    page of its own, but takes no permission away and leaves every other page as
    it is. *)
Context (file : Z -> Z -> result (list Z)) (read_user : Z -> Z -> Z -> Z -> R mem Z).

Definition touched (m : mem) (root lo hi va b : Z) : Prop :=
  (exists p, lo <= p < hi /\ p mod 4096 = 0 /\ same_page 0 p va) /\ exists e, entry_at m root va e /\ allows b e.

Class ReadLaws : Prop := {
  read_ok : forall m T g root va o n, space_ok m T g root -> 0 <= n ->
    (forall x, va <= x < va + n -> exists e, entry_at m root x e) -> (segment_pages va n <= free_pages g)%nat ->
    exists r m' T' g', read_user root va o n m = Some (r, m') /\
      loaded m m' T T' g g' root (touched m root (align_down 4096 va) (va + n)) (segment_pages va n);
}.

Context `{!ReadLaws}.

Definition is_load (h : ElfProgramHeader) : bool := (seg_type h =? ELF_PROG_TYPE_LOAD) && negb (memsz h =? 0).

(** A segment that is not only writable and lies in the space. *)
Definition segment_fits (h : ElfProgramHeader) : Prop :=
  Z.land (seg_flags h) 7 <> 2 /\ 0 <= vaddr h /\ 0 <= filesz h /\ 0 <= memsz h /\ vaddr h + Z.max (filesz h) (memsz h) < 2 ^ 40.

Definition segment_size (h : ElfProgramHeader) : nat := segment_pages (vaddr h) (Z.max (filesz h) (memsz h)).

(** The pages of a segment and their permissions. *)
Definition segment_at (h : ElfProgramHeader) (va b : Z) : Prop :=
  is_load h = true /\ in_pages (align_down 4096 (vaddr h)) (vaddr h + Z.max (filesz h) (memsz h)) (page_bits (seg_flags h)) va b.

Lemma in_pages_of_address addr size bits va : 0 <= addr -> addr <= va < addr + size -> in_pages (align_down 4096 addr) (addr + size) bits va bits.
Proof.
  intros Ha Hv. exists (align_down 4096 va). pose proof (align_down_le 4096 va ltac:(lia)). pose proof (align_down_mod 4096 va ltac:(lia)).
  split; [unfold align_down in *; Z.div_mod_to_equations; lia|]. split; [done|]. split; [|done].
  intros i Hi. rewrite !vpn_div by lia. f_equal. rewrite Z.pow_add_r by lia. change (2 ^ 12) with 4096.
  assert (0 < 2 ^ (9 * Z.of_nat i)) by (apply Z.pow_pos_nonneg; lia). rewrite <- !Z.div_div by lia. f_equal. unfold align_down. Z.div_mod_to_equations. lia.
Qed.

(** How one segment ends.  It is mapped with its permissions, and none of before
    is lost; then its result is what the read says: all of the data, a part of
    it, or an error. *)
Definition mapped (m m1 : mem) (root : Z) (h : ElfProgramHeader) : Prop :=
  (forall va, vaddr h <= va < vaddr h + Z.max (filesz h) (memsz h) ->
     exists e, entry_at m1 root va e /\ allows (page_bits (seg_flags h)) e) /\
  (forall va e, entry_at m root va e -> exists e', entry_at m1 root va e' /\ forall b, allows b e -> allows b e').

Definition data_size (h : ElfProgramHeader) : Z := Z.min (memsz h) (filesz h).

Inductive segment_outcome (root : Z) (h : ElfProgramHeader) (m : mem) : result unit -> mem -> Prop :=
  | seg_none : is_load h = false -> segment_outcome root h m (Good tt) m
  | seg_read m1 m2 : is_load h = true -> mapped m m1 root h ->
      read_user root (vaddr h) (off h) (data_size h) m1 = Some (Good (data_size h), m2) ->
      segment_outcome root h m (Good tt) m2
  | seg_short m1 m2 n : is_load h = true -> mapped m m1 root h ->
      read_user root (vaddr h) (off h) (data_size h) m1 = Some (Good n, m2) -> n <> data_size h ->
      segment_outcome root h m (Bad EIO) m2
  | seg_fail m1 m2 k : is_load h = true -> mapped m m1 root h ->
      read_user root (vaddr h) (off h) (data_size h) m1 = Some (Bad k, m2) ->
      segment_outcome root h m (Bad k) m2.

(** All segments one after the other, up to the first that cannot be loaded. *)
Inductive loading (root : Z) : list ElfProgramHeader -> mem -> result unit -> mem -> Prop :=
  | loading_done m : loading root [] m (Good tt) m
  | loading_next h hs m m1 r m' : segment_outcome root h m (Good tt) m1 -> loading root hs m1 r m' -> loading root (h :: hs) m r m'
  | loading_stop h hs m m1 k : segment_outcome root h m (Bad k) m1 -> loading root (h :: hs) m (Bad k) m1.

Lemma loadProgramSegment_run m T g root h : space_ok m T g root -> zero_ok T g -> segment_fits h -> (4 * segment_size h <= free_pages g)%nat ->
  exists r m' T' g', loadProgramSegment zero_page read_user root h m = Some (r, m') /\
    loaded m m' T T' g g' root (segment_at h) (4 * segment_size h) /\ segment_outcome root h m r m'.
Proof.
  intros Hs Hz (Hfl & Hva & Hf & Hm & Hend) Hfree. unfold loadProgramSegment. fold (is_load h). destruct (is_load h) eqn:Hl; cycle 1.
  { exists (Good tt), m, T, g. split; [done|]. split; [|by constructor]. eapply loaded_weaken; [by apply loaded_refl| |lia].
    intros va b. unfold segment_at. rewrite Hl. split; [done|by intros [? _]]. }
  unfold segment_size in *.
  destruct (allocatePages_run m T g root (vaddr h) (filesz h) (memsz h) (seg_flags h) Hs Hz Hfl) as (m1 & T1 & g1 & E1 & L1); try done; try lia.
  pose proof (ld_free _ _ _ _ _ _ _ _ _ L1).
  assert (Erun : run (allocatePages zero_page root (vaddr h) (filesz h) (memsz h) (seg_flags h)) m = Some (Good true, m1)) by (unfold run; by rewrite E1).
  unfold mbind, R_bind. rewrite Erun. cbv beta iota zeta. rewrite Util.umin_spec. fold (data_size h).
  assert (Hsize : data_size h = Z.min (memsz h) (filesz h)) by done. set (size := data_size h) in *.
  assert (Hmap : mapped m m1 root h).
  { split; [|apply L1]. intros x Hx. apply (ld_here _ _ _ _ _ _ _ _ _ L1). apply in_pages_of_address; lia. }
  pose proof (segment_pages_mono (vaddr h) size (Z.max (filesz h) (memsz h)) ltac:(lia)) as Hmono.
  assert (Hmapped : forall x, vaddr h <= x < vaddr h + size -> exists e, entry_at m1 root x e).
  { intros x Hx. destruct (ld_here _ _ _ _ _ _ _ _ _ L1 x (page_bits (seg_flags h))) as (e & He & _); [apply in_pages_of_address; lia|by exists e]. }
  destruct (read_ok m1 T1 g1 root (vaddr h) (off h) size (ld_space _ _ _ _ _ _ _ _ _ L1) ltac:(lia) Hmapped ltac:(lia)) as (r & m2 & T2 & g2 & E2 & L2).
  rewrite E2. assert (L : loaded m m2 T T2 g g2 root (segment_at h) (4 * segment_pages (vaddr h) (Z.max (filesz h) (memsz h)))).
  { eapply loaded_narrow; [eapply (loaded_trans _ _ _ _ _ _ _ _ _ _ _ _ (fun va b => in_pages (align_down 4096 (vaddr h)) (vaddr h + (Z.max (filesz h) (memsz h))) (page_bits (seg_flags h)) va b
        \/ touched m1 root (align_down 4096 (vaddr h)) (vaddr h + size) va b)); [exact L1|exact L2|done|lia]| |].
    - intros va b [_ Hin]. by left.
    - intros va b [Hin|[(p & Hp & Hpm & Hpv) _]].
      + exists b. by split.
      + exists (page_bits (seg_flags h)). split; [done|]. exists p. split; [lia|]. split; [done|by split]. }
  destruct r as [read|k]; [|by exists (Bad k), m2, T2, g2; split_and!; [done|done|by eapply seg_fail]].
  destruct (Z.eqb_spec read size) as [->|Hne]; cbn [negb].
  - exists (Good tt), m2, T2, g2. split_and!; [done|done|by eapply seg_read].
  - exists (Bad EIO), m2, T2, g2. split_and!; [done|done|by eapply seg_short].
Qed.

Definition total_size (hs : list ElfProgramHeader) : nat := sum_list_with segment_size hs.

Lemma segments_loop_run m T g root hs : space_ok m T g root -> zero_ok T g -> Forall segment_fits hs -> (4 * total_size hs <= free_pages g)%nat ->
  exists r m' T' g' k, segments_loop zero_page read_user root hs m = Some (r, m') /\
    loaded m m' T T' g g' root (fun va b => exists h, h ∈ take k hs /\ segment_at h va b) (4 * total_size hs) /\ (r = Good tt -> k = length hs) /\
    loading root hs m r m'.
Proof.
  revert m T g. induction hs as [|h hs IH]; intros m T g Hs Hz Hfit Hfree; cbn [segments_loop].
  { exists (Good tt), m, T, g, 0%nat. split; [done|]. split; [|split; [done|constructor]]. eapply loaded_weaken; [by apply loaded_refl| |done].
    intros va b. split; [done|]. intros (h & Hh & _). cbn in Hh. by apply elem_of_nil in Hh. }
  apply Forall_cons_1 in Hfit as [Hh Hfit]. change (total_size (h :: hs)) with (segment_size h + total_size hs)%nat in *.
  destruct (loadProgramSegment_run m T g root h Hs Hz Hh ltac:(lia)) as (r & m1 & T1 & g1 & E1 & L1 & O1). pose proof (ld_free _ _ _ _ _ _ _ _ _ L1).
  unfold mbind, R_bind. rewrite E1. destruct r as [[]|k]; cycle 1.
  { exists (Bad k), m1, T1, g1, 1%nat. split; [done|]. split; [|split; [done|by apply loading_stop]]. eapply loaded_weaken; [exact L1| |lia].
    intros va b. change (take 1 (h :: hs)) with [h]. setoid_rewrite list_elem_of_singleton. naive_solver. }
  destruct (IH m1 T1 g1 (ld_space _ _ _ _ _ _ _ _ _ L1)) as (r & m2 & T2 & g2 & k & E2 & L2 & Hk & O2); [by eapply zero_ok_loaded|done|lia|].
  exists r, m2, T2, g2, (Datatypes.S k). split; [exact E2|]. split; [|split; [intros Hr; cbn; by rewrite (Hk Hr)|by eapply loading_next]].
  eapply loaded_trans; [exact L1|exact L2| |lia]. intros va b. cbn [take]. setoid_rewrite elem_of_cons. naive_solver.
Qed.

(** What the header has to say. *)
Definition executable (h : ElfHeader) : bool :=
  (magic h =? ELF_MAGIC) && (machine h =? ELF_MACHINE_RISCV) && (obj_type h =? ELF_TYPE_EXEC) && (phnum h <=? MAX_PHDRS)
  && (phentsize h =? sizeof_ElfProgramHeader).

(** C22: A file whose header or program headers cannot be read or do not fit is
    refused with the error of the read, with [EIO] or with [ENOEXEC], and nothing
    changes.  Otherwise, with enough memory for the pages and the tables and
    segments that lie in the space and are not only writable, loading returns
    without a failed assertion.  Its result is decided by the reads of the
    segments, in their order: a short one gives [EIO], an error is handed on, and
    when all are complete the result is the entry point.  What it leaves is a
    memory space, in which no permission that was there is lost.  On success every address of every segment is mapped with the permissions of its
    flags (those of a page that is copied on write included), and every address
    outside of the pages of the segments has its entry from before. *)
Theorem loadProgramFromElfFile_loads m T g root : space_ok m T g root -> zero_ok T g ->
  let load := loadProgramFromElfFile zero_page file read_user root m in
  match file 0 sizeof_ElfHeader with
  | Bad k => load = Some (Bad k, m)
  | Good bytes =>
      let h := header_of bytes in
      if negb (Z.of_nat (length bytes) =? 64) then load = Some (Bad EIO, m)
      else if negb (executable h) then load = Some (Bad ENOEXEC, m)
      else match file (phoff h) (phnum h * 56) with
           | Bad k => load = Some (Bad k, m)
           | Good bytes =>
               let hs := program_headers_of (Z.to_nat (phnum h)) bytes in
               if negb (Z.of_nat (length bytes) =? 56 * phnum h) then load = Some (Bad EIO, m)
               else Forall segment_fits hs -> (4 * total_size hs <= free_pages g)%nat ->
                 exists r m' T' g', load = Some (match r with Good _ => Good (entry_addr h) | Bad k => Bad k end, m') /\
                   loading root hs m r m' /\ space_ok m' T' g' root /\
                   (forall va e, entry_at m root va e -> exists e', entry_at m' root va e' /\ forall b, allows b e -> allows b e') /\
                   (r = Good tt ->
                     (forall s va, s ∈ hs -> is_load s = true -> vaddr s <= va < vaddr s + memsz s ->
                        exists e, entry_at m' root va e /\ allows (page_bits (seg_flags s)) e) /\
                     (forall va, (forall s b, s ∈ hs -> ~ segment_at s va b) ->
                        lookup_pt m' 2 root va = lookup_pt m 2 root va /\
                        forall x l, lookup_pt m 2 root va = Some (x, l) -> m' !! x = m !! x))
           end
  end.
Proof.
  intros Hs Hz load. unfold load, loadProgramFromElfFile, mbind, R_bind, give.
  destruct (file 0 sizeof_ElfHeader) as [bytes|k]; [|done]. cbv zeta.
  change sizeof_ElfHeader with 64. destruct (Z.of_nat (length bytes) =? 64); cbn [negb]; [|done].
  set (h := header_of bytes).
  assert (Hex : negb (magic h =? ELF_MAGIC) || negb (machine h =? ELF_MACHINE_RISCV) || negb (obj_type h =? ELF_TYPE_EXEC) || (phnum h >? MAX_PHDRS)
    || negb (phentsize h =? sizeof_ElfProgramHeader) = negb (executable h)).
  { unfold executable. rewrite !negb_andb. do 2 f_equal. rewrite Z.gtb_ltb. symmetry. apply Z.leb_antisym || (rewrite Z.leb_antisym; by rewrite negb_involutive). }
  rewrite Hex. destruct (executable h); cbn [negb]; [|done].
  change sizeof_ElfProgramHeader with 56. destruct (file (phoff h) (phnum h * 56)) as [l|k]; [|done].
  destruct (Z.of_nat (length l) =? 56 * phnum h); cbn [negb]; [|done]. intros Hfit Hfree.
  set (hs := program_headers_of (Z.to_nat (phnum h)) l) in *.
  destruct (segments_loop_run m T g root hs Hs Hz Hfit Hfree) as (r & m' & T' & g' & k & E & L & Hk & O). rewrite E.
  exists r, m', T', g'. split; [by destruct r|]. split; [exact O|]. split; [apply L|]. split; [apply L|].
  intros ->. rewrite (Hk eq_refl), firstn_all in L. split.
  - intros s va Hin Hl Hva. apply (ld_here _ _ _ _ _ _ _ _ _ L). exists s. split; [done|]. split; [done|].
    rewrite List.Forall_forall in Hfit. destruct (Hfit s (proj1 (list_elem_of_In _ _) Hin)) as (_ & ? & ? & ? & _). apply in_pages_of_address; lia.
  - intros va Hva. apply (ld_other _ _ _ _ _ _ _ _ _ L). intros b (s & Hin & Hb). by apply (Hva s b).
Qed.
End Space.

(** ** Examples *)

Section Runs.

Definition demo_zero : Z := 0x80000.

(** The heap of [PageTable], with what earlier pages left in the memory. *)
Definition dirty_heap : mem := foldr (fun i m => <[0x11000 + 8 * i := 7]> m) (<[demo_zero := 0]> demo_heap) (seqZ 2 2558).

Definition load_of (l : list (Z * Z * Z * Z)) (va : Z) : option (Z * Z * Z) :=
  let c :=
    root ← @createPageTable demo_service;
    foldr (fun '(a, fs, ms, fl) k => @allocatePages demo_service demo_zero root a fs ms fl;; k)
      (entry ← virtToEntry root va; e ← load entry; p ← unsafeVirtToPhys root va; w ← load p; mret (entry_page e, entry_bits e, w)) l in
  fst <$> c dirty_heap.

(** The bytes behind the end of the file data stay what they were when the segment
    does not begin at a page: the offset of the rest in its page is taken from
    the size alone. *)
Example bss_not_cleared : load_of [(0x10800, 0x900, 0x1000, 6)] 0x11200 = Some (0x14000, 0xd7, 7).
Proof. vm_compute. reflexivity. Qed.

(** Nor are the bytes in front of the segment in its first page. *)
Example start_not_cleared : load_of [(0x10800, 0x900, 0x1000, 6)] 0x10010 = Some (0x11000, 0xd7, 7).
Proof. vm_compute. reflexivity. Qed.

(** File data in a page that an earlier segment left to the zero page makes the
    zero page writable. *)
Example zero_page_writable : load_of [(0x10000, 0, 0x1000, 4); (0x10000, 0x10, 0x10, 6)] 0x10000 = Some (demo_zero, 0xd7, 0).
Proof. vm_compute. reflexivity. Qed.

(** A segment that is only writable has no permission left in its zero pages: an
    assertion fails. *)
Example write_only_panics : load_of [(0x10000, 0, 0x1000, 2)] 0x10000 = None.
Proof. vm_compute. reflexivity. Qed.

(** An executable with one segment. *)
Fixpoint le_number (n : nat) (v : Z) : list Z := match n with O => [] | S n => v mod 256 :: le_number n (v / 256) end.

Definition demo_elf : list Z :=
  le_number 4 ELF_MAGIC ++ replicate 12 0 ++ le_number 2 2 ++ le_number 2 0xf3 ++ le_number 4 1 ++ le_number 8 0x10800 ++ le_number 8 64 ++ replicate 14 0 ++ le_number 2 56 ++ le_number 2 1 ++ replicate 6 0
  ++ le_number 4 1 ++ le_number 4 6 ++ le_number 8 0x78 ++ le_number 8 0x10800 ++ le_number 8 0 ++ le_number 8 0x900 ++ le_number 8 0x1000 ++ le_number 8 0.

Definition demo_file (o n : Z) : result (list Z) := Good (take (Z.to_nat n) (drop (Z.to_nat o) demo_elf)).

(** A file of holes, on pages that are zero. *)
Definition demo_read (root va o n : Z) : R mem Z := fun m => Some (Good n, m).

#[local] Instance demo_read_laws : @ReadLaws demo_service demo_read.
Proof.
  constructor. intros m T g root va o n Hs Hn Hm Hf. exists (Good n), m, T, g. split; [done|]. constructor; [done|done|lia| | |].
  - intros x b [_ H]. exact H.
  - intros x e He. by exists e.
  - done.
Qed.

Lemma demo_space_ok : exists m g, @space_ok demo_service m {[ 0x10000 := 2%nat ]} g 0x10000 /\
  @zero_ok demo_service demo_zero {[ 0x10000 := 2%nat ]} g /\ (60 <= @free_pages demo_service g)%nat.
Proof.
  destruct demo_root as (m & g & _ & Htr & Hfree & H0). exists m, g. split; [|split; [|lia]].
  - constructor; [done|apply lookup_singleton_eq|]. intros va s l Hl. rewrite (lookup_zero m 2 0x10000 va) in Hl; [done|]. apply H0, vpn_range.
  - split; [unfold demo_zero; lia|split; [done|]]. intros x Hx. unfold page_of, demo_zero, PAGE_SIZE in Hx.
    intros [Ho|(t & n & [<- <-]%lookup_singleton_Some & Hp)]; [|unfold page_of, PAGE_SIZE in Hp; lia].
    pose proof (@tr_inv demo_service m _ g Htr) as [_ Hin]. destruct Ho as [->|Hc]; [lia|]. specialize (Hin x Hc). lia.
Qed.

Lemma loadProgramFromElfFile_loads_witness : exists m g m' T' g',
  @space_ok demo_service m {[ 0x10000 := 2%nat ]} g 0x10000 /\ @zero_ok demo_service demo_zero {[ 0x10000 := 2%nat ]} g /\
  @loadProgramFromElfFile demo_service demo_zero demo_file demo_read 0x10000 m = Some (Good 0x10800, m') /\ @space_ok demo_service m' T' g' 0x10000.
Proof.
  destruct demo_space_ok as (m & g & Hs & Hz & Hfree).
  pose proof (@loadProgramFromElfFile_loads demo_service demo_laws demo_zero demo_file demo_read demo_read_laws m {[ 0x10000 := 2%nat ]} g 0x10000 Hs Hz) as H.
  cbv zeta in H.
  assert (E1 : demo_file 0 sizeof_ElfHeader = Good (take 64 demo_elf)) by reflexivity. rewrite E1 in H.
  assert (E2 : (Z.of_nat (length (take 64 demo_elf)) =? 64) = true) by reflexivity. rewrite E2 in H. cbn [negb] in H.
  assert (E3 : executable (header_of (take 64 demo_elf)) = true) by (vm_compute; reflexivity). rewrite E3 in H. cbn [negb] in H.
  assert (E4 : demo_file (phoff (header_of (take 64 demo_elf))) (phnum (header_of (take 64 demo_elf)) * 56) = Good (drop 64 demo_elf)) by (vm_compute; reflexivity).
  rewrite E4 in H. assert (E5 : (Z.of_nat (length (drop 64 demo_elf)) =? 56 * phnum (header_of (take 64 demo_elf))) = true) by (vm_compute; reflexivity).
  rewrite E5 in H. cbn [negb] in H.
  assert (E6 : program_headers_of (Z.to_nat (phnum (header_of (take 64 demo_elf)))) (drop 64 demo_elf) = [mkProgramHeader 1 6 0x78 0x10800 0 0x900 0x1000 0]) by (vm_compute; reflexivity).
  rewrite E6 in H. destruct H as (r & m' & T' & g' & E & Hload & Hs' & _).
  - constructor; [|constructor]. unfold segment_fits. cbn [seg_flags vaddr filesz memsz]. split; [discriminate|]. lia.
  - assert (Et : total_size [mkProgramHeader 1 6 0x78 0x10800 0 0x900 0x1000 0] = 2%nat) by (vm_compute; reflexivity). rewrite Et. lia.
  - exists m, g, m', T', g'. split; [done|split; [done|split; [|done]]]. rewrite E.
    assert (Hr : r = Good tt); [|rewrite Hr; vm_compute; reflexivity].
    inversion_clear Hload as [|h hs m0 m1 r0 m2 _ Hrest|h hs m0 m1 k Hstop]; [by inversion_clear Hrest|].
    inversion_clear Hstop as [| |ma mb n _ _ Hread Hn|ma mb k0 _ _ Hread].
    + unfold demo_read in Hread. injection Hread as En. by destruct Hn.
    + discriminate Hread.
Defined.

End Runs.

End Elf.
