(* ===== verification/Loader.v ===== *)
(** * Loader: [kernel/src/loader/loader.c]

    The strings of the arguments and the environment, and how they get onto the
    stack of a new program.

    A memory space is its bytes and its pages, as the functions of [VirtPtr] see
    them: an access to a page that is not mapped has no effect, and one that copies
    a page may miss its place.  The program that calls these is in [Exec]. *)
From S2P Require Import Prelude Util Errors Elf.
Import Errors.

Local Open Scope c_scope.

Module Loader.

(** ** Definitions *)

Definition USER_STACK_TOP : Z := 2 ^ 38.
Definition USER_STACK_SIZE : Z := 2 ^ 19.

Record VirtPtr := virtPtrFor { address : Z; table : Z }.

(** A page of a memory space.  [Copy] is a page that is copied on the first write;
    memory for the copy is taken to be there. *)
Inductive page : Type := Unmapped | ReadOnly | Writable | Copy.

(** The bytes of a space by address, its pages by number. *)
Record space := mkSpace { content : Z -> Z; status : Z -> page }.

Abbreviation memory := (Z -> space).
Abbreviation U := (M memory).

Definition page_of (a : Z) : Z := a / 4096.
Definition readable (s : space) (q : Z) : bool := match status s q with Unmapped => false | _ => true end.
Definition writable (s : space) (q : Z) : bool := match status s q with Writable | Copy => true | _ => false end.
Definition update (m : memory) (t : Z) (s : space) : memory := fun t' => if t' =? t then s else m t'.

(** The pages from [lo] to [hi] are copied. *)
Definition resolve (s : space) (lo hi : Z) : Z -> page := fun q =>
  if (lo <=? q) && (q <=? hi) then match status s q with Copy => Writable | st => st end else status s q.

(** The pages of the [n] bytes at [a]. *)
Definition pages (a n : Z) : list Z := if n <=? 0 then [] else seqZ (page_of a) (page_of (a + n - 1) - page_of a + 1).

Fixpoint le_bytes (n : nat) (v : Z) : list Z :=
  match n with O => [] | S n => v mod 256 :: le_bytes n (v / 256) end.
Fixpoint le_value (l : list Z) : Z := match l with [] => 0 | b :: l => b + 256 * le_value l end.

(** An integer across the end of a page is outside of the model: the code goes on
    in the physical page behind. *)
Definition in_page (a n : Z) : bool := page_of a =? page_of (a + n - 1).

Definition readInt (p : VirtPtr) (size : Z) : U Z := fun m =>
  let s := m (table p) in
  if readable s (page_of (address p)) then
    if in_page (address p) (size / 8) then Some (le_value (bytes_at (content s) (address p) (size / 8)), m) else None
  else Some (0, m).

Definition readIntAt (p : VirtPtr) (i size : Z) : U Z := readInt (virtPtrFor (address p +% i *% (size / 8)) (table p)) size.

(** The first write to a page goes to its start: [virtToPhys] drops the offset when
    it copies the page. *)
Definition writeInt (p : VirtPtr) (size v : Z) : U unit := fun m =>
  let s := m (table p) in
  let q := page_of (address p) in
  let l := le_bytes (Z.to_nat (size / 8)) v in
  match status s q with
  | Unmapped | ReadOnly => Some (tt, m)
  | Writable => if in_page (address p) (size / 8) then Some (tt, update m (table p) (mkSpace (put_bytes (content s) (address p) l) (status s))) else None
  | Copy => Some (tt, update m (table p) (mkSpace (put_bytes (content s) (4096 * q) l) (resolve s q q)))
  end.

(** A copy that reaches a page without the permission is outside of the model.  The
    pages that are written are copied before the first byte is moved, and the one
    behind the last. *)
Definition read (p : VirtPtr) (n : Z) : U (list Z) := fun m =>
  if forallb (readable (m (table p))) (pages (address p) n) then Some (bytes_at (content (m (table p))) (address p) n, m) else None.
Definition write (p : VirtPtr) (n : Z) (l : list Z) : U unit := fun m =>
  let s := m (table p) in
  if forallb (writable s) (pages (address p) n) then
    Some (tt, if n <=? 0 then m else update m (table p)
      (mkSpace (put_bytes (content s) (address p) l) (resolve s (page_of (address p)) (page_of (address p + n - 1) + 1))))
  else None.
Definition memcpyBetweenVirtPtr (dest src : VirtPtr) (n : Z) : U unit := l ← read src n; write dest n l.

Section Strings.
(** More iterations than any loop over user memory has. *)
Context (fuel : nat).

Fixpoint strlen_loop (fuel : nat) (str : VirtPtr) (length : Z) : U Z :=
  match fuel with
  | O => fault
  | S fuel =>
      c ← readInt str 8;
      if c =? 0 then mret length else strlen_loop fuel (virtPtrFor (address str +% 1) (table str)) (length +% 1)
  end.
Definition strlenVirtPtr (str : VirtPtr) : U Z := strlen_loop fuel str 0.

Fixpoint array_loop (fuel : nat) (addr : VirtPtr) (length : Z) : U Z :=
  match fuel with
  | O => fault
  | S fuel =>
      v ← readInt addr 64;
      if v =? 0 then mret length else array_loop fuel (virtPtrFor (address addr +% 8) (table addr)) (length +% 1)
  end.

Definition stringArrayLength (addr : VirtPtr) : U Z :=
  if address addr =? 0 then mret 0 else array_loop fuel addr 0.

Definition pushString (stack_pointer string : VirtPtr) : U Z :=
  length ← strlenVirtPtr string;
  let sp := virtPtrFor (address stack_pointer -% (length +% 1)) (table stack_pointer) in
  memcpyBetweenVirtPtr sp string (length +% 1);;
  mret (address sp).

(** The loop from [i] down; the addresses of the strings [i] and up are
    [strings]. *)
Fixpoint strings_loop (i : nat) (sp : VirtPtr) (array : VirtPtr) (strings : list Z) : U (VirtPtr * list Z) :=
  match i with
  | O => mret (sp, strings)
  | S i =>
      p ← readIntAt array (Z.of_nat i) 64;
      a ← pushString sp (virtPtrFor p (table array));
      strings_loop i (virtPtrFor a (table sp)) array (a :: strings)
  end.

(** [strings] in reverse, from the last on. *)
Fixpoint pointers_loop (sp : VirtPtr) (strings : list Z) : U VirtPtr :=
  match strings with
  | [] => mret sp
  | a :: strings =>
      let sp := virtPtrFor (address sp -% 8) (table sp) in
      writeInt sp 64 a;; pointers_loop sp strings
  end.

(** The stack pointer, and [*size]. *)
Definition pushStringArray (stack_pointer array : VirtPtr) : U (Z * Z) :=
  length ← stringArrayLength array;
  '(sp, strings) ← strings_loop (Z.to_nat length) stack_pointer array [];
  let sp := virtPtrFor (address sp -% 8) (table sp) in
  writeInt sp 64 0;;
  sp ← pointers_loop sp (reverse strings);
  mret (address sp, length).

End Strings.

(** ** Bytes in a memory *)

Definition holds (f : Z -> Z) (a : Z) (l : list Z) : Prop := forall i x, l !! i = Some x -> f (a + Z.of_nat i) = x.

Lemma holds_bytes f a l : holds f a l <-> bytes_at f a (Z.of_nat (length l)) = l.
Proof.
  split.
  - intros H. apply list_eq. intros i. rewrite bytes_at_tab, tab_lookup, Nat2Z.id. destruct (decide _) as [Hi|Hi].
    + destruct (lookup_lt_is_Some_2 l i Hi) as [x Hx]. rewrite Hx. f_equal. by apply H.
    + symmetry. apply lookup_ge_None_2. lia.
  - intros E i x Hx. pose proof (lookup_lt_Some _ _ _ Hx). rewrite <- E, bytes_at_tab, tab_lookup, Nat2Z.id, decide_True in Hx by lia. by injection Hx.
Qed.

Lemma holds_app f a l k : holds f a (l ++ k) <-> holds f a l /\ holds f (a + Z.of_nat (length l)) k.
Proof.
  split.
  - intros H. split; intros i x Hx.
    + apply H. by apply lookup_app_l_Some.
    + replace (a + Z.of_nat (length l) + Z.of_nat i) with (a + Z.of_nat (length l + i)) by lia. apply H.
      rewrite lookup_app_r by lia. by replace (length l + i - length l)%nat with i by lia.
  - intros [Hl Hk] i x Hx. apply lookup_app_Some in Hx as [Hx|[Hi Hx]]; [by apply Hl|].
    replace (a + Z.of_nat i) with (a + Z.of_nat (length l) + Z.of_nat (i - length l)) by lia. by apply Hk.
Qed.

Lemma holds_put_bytes f a l : holds (put_bytes f a l) a l.
Proof. apply holds_bytes, bytes_at_put. Qed.

Lemma put_bytes_outside f a l x : x < a \/ a + Z.of_nat (length l) <= x -> put_bytes f a l x = f x.
Proof. intros H. unfold put_bytes. destruct (Z.leb_spec a x), (Z.ltb_spec x (a + Z.of_nat (length l))); cbn [andb]; try done. lia. Qed.

Lemma holds_bytes_ext f g a l : (forall x, a <= x < a + Z.of_nat (length l) -> g x = f x) -> holds f a l -> holds g a l.
Proof. intros E H i x Hx. pose proof (lookup_lt_Some _ _ _ Hx). rewrite E by lia. by apply H. Qed.

Lemma le_bytes_number_length n v : length (le_bytes n v) = n.
Proof. revert v. induction n as [|n IH]; intros v; cbn; [done|by rewrite IH]. Qed.

Lemma le_value_bytes n v : 0 <= v < 256 ^ Z.of_nat n -> le_value (le_bytes n v) = v.
Proof.
  revert v. induction n as [|n IH]; intros v Hv; cbn [le_bytes le_value]; [change (256 ^ Z.of_nat 0) with 1 in Hv; lia|].
  rewrite Nat2Z.inj_succ, Z.pow_succ_r in Hv by lia. rewrite IH; [pose proof (Z.div_mod v 256 ltac:(lia)); lia|].
  split; [apply Z.div_pos; lia|apply Z.div_lt_upper_bound; lia].
Qed.

(** *** What is in the memory

    A string with its NUL, and an array of pointers to strings. *)
Definition string_at (s : space) (a : Z) (l : list Z) : Prop :=
  Forall (fun c => 0 < c < 256) l /\ holds (content s) a (l ++ [0]) /\
  (forall x, a <= x <= a + Z.of_nat (length l) -> readable s (page_of x) = true) /\ 0 < a /\ a + Z.of_nat (length l) + 1 <= 2 ^ 64.

(** Words that a program can read: each in one page. *)
Definition words_at (s : space) (a : Z) (l : list Z) : Prop :=
  holds (content s) a (concat (le_bytes 8 <$> l)) /\
  forall i, 0 <= i < Z.of_nat (length l) -> readable s (page_of (a + 8 * i)) = true /\ in_page (a + 8 * i) 8 = true.

Definition array_at (s : space) (a : Z) (ptrs : list Z) (l : list (list Z)) : Prop :=
  Forall2 (string_at s) ptrs l /\ words_at s a (ptrs ++ [0]) /\ 0 < a /\ a + 8 * (Z.of_nat (length l) + 1) <= 2 ^ 64.

(** An array of the arguments, or [NULL]. *)
Definition strings_at (s : space) (a : Z) (l : list (list Z)) : Prop :=
  a = 0 /\ l = [] \/ exists ptrs, array_at s a ptrs l.

(** What can be read in [s] from [lo] up to [hi] can be read in [s']. *)
Definition same_range (s s' : space) (lo hi : Z) : Prop :=
  forall x, lo <= x < hi -> content s' x = content s x /\ (readable s (page_of x) = true -> readable s' (page_of x) = true).

Lemma string_at_ext s s' a l : same_range s s' a (a + Z.of_nat (length l) + 1) -> string_at s a l -> string_at s' a l.
Proof.
  intros E (H1 & H2 & H3 & H4). split; [done|]. split; [|split; [|done]].
  - eapply holds_bytes_ext; [|exact H2]. intros x Hx. apply E. rewrite length_app in Hx. cbn in Hx. lia.
  - intros x Hx. apply E; [lia|]. by apply H3.
Qed.

Lemma words_length l : length (concat (le_bytes 8 <$> l)) = (8 * length l)%nat.
Proof. induction l as [|v l IH]; [done|]. rewrite fmap_cons. cbn [concat]. rewrite length_app, le_bytes_number_length, IH. cbn. lia. Qed.

Lemma words_at_ext s s' a l : same_range s s' a (a + 8 * Z.of_nat (length l)) -> words_at s a l -> words_at s' a l.
Proof.
  intros E [H1 H2]. split.
  - eapply holds_bytes_ext; [|exact H1]. intros x Hx. apply E. rewrite words_length in Hx. lia.
  - intros i Hi. destruct (H2 i Hi) as [H3 H4]. split; [|done]. apply E; [lia|done].
Qed.

Lemma array_at_ext s s' a qs l hi : same_range s s' a hi -> a + 8 * (Z.of_nat (length l) + 1) <= hi ->
  Forall2 (fun q (t : list Z) => a <= q /\ q + Z.of_nat (length t) + 1 <= hi) qs l -> array_at s a qs l -> array_at s' a qs l.
Proof.
  intros E Hhi Hq (Hp & Hw & H). pose proof (Forall2_length Hp) as Hlen. split; [|split; [|done]].
  - clear Hw H Hlen. induction Hp as [|q t qs l Hs _ IH]; [constructor|]. inversion_clear Hq as [|? ? ? ? [H1 H2] Hq']. constructor.
    + eapply string_at_ext; [|exact Hs]. intros y Hy. apply E. lia.
    + apply IH; [|done]. cbn [length] in Hhi. lia.
  - eapply words_at_ext; [|exact Hw]. intros y Hy. apply E. rewrite length_app in Hy. cbn in Hy. lia.
Qed.

Lemma words_at_cons s a v l : words_at s a (v :: l) <->
  (holds (content s) a (le_bytes 8 v) /\ readable s (page_of a) = true /\ in_page a 8 = true) /\ words_at s (a + 8) l.
Proof.
  unfold words_at. rewrite fmap_cons. cbn [concat length]. rewrite holds_app, le_bytes_number_length. change (Z.of_nat 8) with 8. split.
  - intros [[H1 H2] H3]. split; [split; [done|]|split; [done|]].
    + destruct (H3 0 ltac:(lia)) as [H4 H5]. by rewrite Z.mul_0_r, Z.add_0_r in H4, H5.
    + intros i Hi. replace (a + 8 + 8 * i) with (a + 8 * (i + 1)) by lia. apply H3. lia.
  - intros [(H1 & H2 & H3) [H4 H5]]. split; [done|]. intros i Hi. destruct (Z.eq_dec i 0) as [->|Hne]; [by rewrite Z.mul_0_r, Z.add_0_r|].
    replace (a + 8 * i) with (a + 8 + 8 * (i - 1)) by lia. apply H5. lia.
Qed.

Lemma words_at_lookup s a l i v : words_at s a l -> l !! i = Some v -> words_at s (a + 8 * Z.of_nat i) [v].
Proof.
  revert a i. induction l as [|w l IH]; intros a i Hl Hi; [done|]. apply words_at_cons in Hl as [Hw Hl].
  destruct i as [|i]; cbn in Hi.
  - injection Hi as ->. replace (a + 8 * Z.of_nat 0) with a by lia. apply words_at_cons. split; [done|]. split; [by intros ? ? ?|]. cbn. lia.
  - replace (a + 8 * Z.of_nat (S i)) with (a + 8 + 8 * Z.of_nat i) by lia. by apply IH.
Qed.

(** *** Reading *)

Lemma in_page_one a : in_page a 1 = true.
Proof. unfold in_page. replace (a + 1 - 1) with a by lia. apply Z.eqb_refl. Qed.

Lemma readInt_byte m p : readable (m (table p)) (page_of (address p)) = true -> readInt p 8 m = Some (content (m (table p)) (address p), m).
Proof.
  intros Hr. unfold readInt. change (8 / 8) with 1. rewrite Hr, in_page_one. cbv beta iota zeta.
  change (Some (content (m (table p)) (address p + 0) + 256 * 0, m) = Some (content (m (table p)) (address p), m)). by rewrite Z.mul_0_r, !Z.add_0_r.
Qed.

Lemma readInt_word m p v : 0 <= v < 2 ^ 64 -> words_at (m (table p)) (address p) [v] -> readInt p 64 m = Some (v, m).
Proof.
  intros Hv Hw. apply words_at_cons in Hw as [(Hh & Hr & Hi) _]. unfold readInt. change (64 / 8) with 8. rewrite Hr, Hi. change 8 with (Z.of_nat (length (le_bytes 8 v))).
  rewrite (proj1 (holds_bytes _ _ _) Hh). by rewrite le_value_bytes.
Qed.

Section Strings.
Context (fuel : nat).

Lemma string_lookup s i c : Forall (fun c => 0 < c < 256) s -> (s ++ [0]) !! i = Some c -> (c =? 0) = negb (bool_decide (i < length s)%nat).
Proof.
  intros Hs Hi. apply lookup_app_Some in Hi as [Hi|[Hi Hx]].
  - pose proof (lookup_lt_Some _ _ _ Hi). rewrite bool_decide_true by done. apply Z.eqb_neq.
    pose proof (Forall_lookup_1 _ _ _ _ Hs Hi) as H0. cbv beta in H0. lia.
  - rewrite bool_decide_false by lia. destruct (i - length s)%nat; [|done]. by injection Hx as <-.
Qed.

Lemma strlen_loop_run n str i s m : string_at (m (table str)) (address str - Z.of_nat i) s -> (i <= length s)%nat -> (length s - i < n)%nat ->
  strlen_loop n str (Z.of_nat i) m = Some (Z.of_nat (length s), m).
Proof.
  revert str i. induction n as [|n IH]; intros str i Hs Hi Hn; [lia|]. cbn [strlen_loop].
  destruct Hs as (Hc & Hh & Hr & Ha & Hend). rewrite (bind_some _ _ _ _ _ (readInt_byte m str ltac:(apply Hr; lia))).
  destruct (lookup_lt_is_Some_2 (s ++ [0]) i) as [c E]; [rewrite length_app; cbn; lia|]. pose proof (Hh i c E) as Hv.
  replace (address str - Z.of_nat i + Z.of_nat i) with (address str) in Hv by lia. rewrite Hv, (string_lookup s i c Hc E).
  destruct (decide (i < length s)%nat) as [Hlt|Hge].
  - rewrite bool_decide_true by done. cbn [negb]. rewrite !(wrap_small 64) by lia. replace (Z.of_nat i + 1) with (Z.of_nat (S i)) by lia.
    rewrite (IH _ (S i)); [done| |lia..]. cbn [address table]. replace (address str + 1 - Z.of_nat (S i)) with (address str - Z.of_nat i) by lia. done.
  - rewrite bool_decide_false by done. cbn [negb]. by replace i with (length s) by lia.
Qed.

Lemma strlenVirtPtr_run str s m : string_at (m (table str)) (address str) s -> (length s < fuel)%nat ->
  strlenVirtPtr fuel str m = Some (Z.of_nat (length s), m).
Proof. intros Hs Hf. apply (strlen_loop_run fuel str 0 s m); [by rewrite Z.sub_0_r|lia..]. Qed.

Lemma array_loop_run n a i ptrs m : words_at (m (table a)) (address a) (drop i ptrs ++ [0]) -> Forall (fun q => 0 < q < 2 ^ 64) ptrs ->
  (i <= length ptrs)%nat -> (length ptrs - i < n)%nat -> 0 < address a -> address a + 8 * Z.of_nat (length ptrs - i) + 8 <= 2 ^ 64 ->
  Z.of_nat (length ptrs) < 2 ^ 64 -> array_loop n a (Z.of_nat i) m = Some (Z.of_nat (length ptrs), m).
Proof.
  revert a i. induction n as [|n IH]; intros a i Hw Hp Hi Hn Ha Hend Hlen; [lia|]. cbn [array_loop].
  destruct (drop i ptrs) as [|v rest] eqn:E.
  - assert (length (drop i ptrs) = 0%nat) as Hl by (by rewrite E). rewrite length_drop in Hl.
    cbn [app] in Hw. rewrite (bind_some _ _ _ _ _ (readInt_word m a 0 ltac:(lia) Hw)). cbn [Z.eqb]. by replace i with (length ptrs) by lia.
  - cbn [app] in Hw. assert (Hv : words_at (m (table a)) (address a) [v]).
    { replace (address a) with (address a + 8 * Z.of_nat 0) by lia. by eapply words_at_lookup. }
    apply words_at_cons in Hw as [_ Hw].
    assert (Hi2 : ptrs !! i = Some v) by (rewrite <- (Nat.add_0_r i), <- lookup_drop, E; done).
    pose proof (Forall_lookup_1 _ _ _ _ Hp Hi2) as Hrange. cbv beta in Hrange.
    pose proof (lookup_lt_Some _ _ _ Hi2).
    rewrite (bind_some _ _ _ _ _ (readInt_word m a v ltac:(lia) Hv)). rewrite (proj2 (Z.eqb_neq v 0)) by lia. rewrite !(wrap_small 64) by lia.
    replace (Z.of_nat i + 1) with (Z.of_nat (S i)) by lia. apply IH; cbn [address table]; try lia; [|done].
    assert (Er : drop (S i) ptrs = rest) by (replace (S i) with (i + 1)%nat by lia; rewrite <- drop_drop, E; done). by rewrite Er.
Qed.

Lemma string_range f q s : string_at f q s -> 0 < q < 2 ^ 64.
Proof. intros (_ & _ & _ & H1 & H2). lia. Qed.

Lemma array_pointers f ptrs l : Forall2 (string_at f) ptrs l -> Forall (fun q => 0 < q < 2 ^ 64) ptrs.
Proof. intros H. induction H as [|q s ptrs l Hq _ IH]; constructor; [by eapply string_range|done]. Qed.

Lemma stringArrayLength_run a l m : strings_at (m (table a)) (address a) l -> (length l < fuel)%nat ->
  stringArrayLength fuel a m = Some (Z.of_nat (length l), m).
Proof.
  intros [[Ha ->]|(ptrs & Hp & Hw & Ha & Hend)] Hf; unfold stringArrayLength; [by rewrite Ha|].
  rewrite (proj2 (Z.eqb_neq _ 0)) by lia. pose proof (Forall2_length Hp) as Hlen. rewrite <- Hlen in *.
  apply (array_loop_run fuel a 0 ptrs m); try done; try lia. by eapply array_pointers.
Qed.

(** *** Pushing *)

(** The memory below [lo] and from [hi] on is as before, and the other spaces; pages
    may have been copied. *)
Definition only_between (m m' : memory) (t lo hi : Z) : Prop :=
  (forall t', t' <> t -> m' t' = m t') /\ (forall x, x < lo \/ hi <= x -> content (m' t) x = content (m t) x) /\
  forall q, status (m' t) q = status (m t) q \/ status (m t) q = Copy /\ status (m' t) q = Writable.

Lemma only_between_refl m t lo hi : only_between m m t lo hi.
Proof. split; [done|split; [done|by left]]. Qed.

Lemma only_between_trans m1 m2 m3 t lo lo' hi : lo <= lo' -> only_between m1 m2 t lo' hi -> only_between m2 m3 t lo hi -> only_between m1 m3 t lo hi.
Proof.
  intros Hlo (H1 & H2 & H3) (H4 & H5 & H6). split; [intros t' Ht; by rewrite H4, H1|]. split; [intros x Hx; rewrite H5, H2 by lia; done|].
  intros q. destruct (H3 q) as [E|[E1 E2]], (H6 q) as [E3|[E3 E4]]; rewrite ?E3, ?E; [by left|right; by rewrite <- E|by right|congruence].
Qed.

Lemma only_between_weaken m m' t lo lo' hi hi' : only_between m m' t lo hi -> lo' <= lo -> hi <= hi' -> only_between m m' t lo' hi'.
Proof. intros (H1 & H2 & H3) Hl Hh. split; [done|]. split; [|done]. intros x Hx. apply H2. lia. Qed.

Lemma only_between_range m m' t lo hi lo' hi' : only_between m m' t lo hi -> hi' <= lo \/ hi <= lo' -> same_range (m t) (m' t) lo' hi'.
Proof.
  intros (_ & H2 & H3) H x Hx. split; [apply H2; lia|]. unfold readable. destruct (H3 (page_of x)) as [->|[_ ->]]; done.
Qed.

Lemma pages_one a n pg : 4096 * pg <= a -> 0 < n -> a + n <= 4096 * (pg + 1) -> pages a n = [pg].
Proof.
  intros H1 H2 H3. unfold pages, page_of. rewrite (proj2 (Z.leb_gt n 0)) by lia.
  replace (a / 4096) with pg by (Z.div_mod_to_equations; lia). replace ((a + n - 1) / 4096) with pg by (Z.div_mod_to_equations; lia).
  by replace (pg - pg + 1) with 1 by lia.
Qed.

Lemma pages_all f a n : (forall x, a <= x < a + n -> f (page_of x) = true) -> forallb f (pages a n) = true.
Proof.
  intros H. apply List.forallb_forall. intros q Hq%list_elem_of_In. unfold pages, page_of in *. destruct (Z.leb_spec n 0); [by apply elem_of_nil in Hq|].
  apply elem_of_seqZ in Hq. rewrite <- (H (Z.max a (4096 * q))) by (Z.div_mod_to_equations; lia). f_equal. Z.div_mod_to_equations. lia.
Qed.

(** A page of the stack: it can be written, and is empty before the first write. *)
Definition stack_page (s : space) (pg : Z) : Prop :=
  status s pg = Writable \/ status s pg = Copy /\ forall x, page_of x = pg -> content s x = 0.

Lemma stack_writable s pg : stack_page s pg -> writable s pg = true.
Proof. unfold writable. by intros [-> |[-> _]]. Qed.

Lemma update_same m t s : update m t s t = s.
Proof. unfold update. by rewrite Z.eqb_refl. Qed.
Lemma update_other m t s t' : t' <> t -> update m t s t' = m t'.
Proof. intros H. unfold update. by rewrite (proj2 (Z.eqb_neq _ _)). Qed.

Lemma resolve_cases s lo hi q : resolve s lo hi q = status s q \/ status s q = Copy /\ resolve s lo hi q = Writable.
Proof. unfold resolve. destruct (_ && _); [|by left]. destruct (status s q); tauto. Qed.

Lemma resolve_in s lo hi q : lo <= q <= hi -> writable s q = true -> resolve s lo hi q = Writable.
Proof. intros H. unfold resolve, writable. rewrite (proj2 (Z.leb_le lo q)), (proj2 (Z.leb_le q hi)) by lia. by destruct (status s q). Qed.

Lemma write_run p l m pg : 0 < Z.of_nat (length l) -> 4096 * pg <= address p -> address p + Z.of_nat (length l) <= 4096 * (pg + 1) ->
  writable (m (table p)) pg = true ->
  exists m', write p (Z.of_nat (length l)) l m = Some (tt, m') /\ holds (content (m' (table p))) (address p) l /\ status (m' (table p)) pg = Writable /\
    only_between m m' (table p) (address p) (address p + Z.of_nat (length l)).
Proof.
  intros Hl H1 H2 Hw. unfold write. rewrite (pages_one _ _ pg) by lia. cbn [forallb]. rewrite Hw. cbn [andb].
  rewrite (proj2 (Z.leb_gt _ 0)) by lia. eexists. split; [reflexivity|]. rewrite update_same. cbn [content status]. split; [apply holds_put_bytes|]. split.
  { apply resolve_in; [|done]. unfold page_of. Z.div_mod_to_equations. lia. }
  split; [intros t' Ht; by rewrite update_other|]. rewrite update_same. cbn [content status]. split; [intros x Hx; by apply put_bytes_outside|]. apply resolve_cases.
Qed.

Lemma writeInt_run p v m pg : 4096 * pg <= address p -> address p + 8 <= 4096 * (pg + 1) -> 
  stack_page (m (table p)) pg -> status (m (table p)) pg = Writable \/ v = 0 ->
  exists m', writeInt p 64 v m = Some (tt, m') /\ words_at (m' (table p)) (address p) [v] /\ status (m' (table p)) pg = Writable /\
    only_between m m' (table p) (address p) (address p + 8).
Proof.
  intros H1 H2 Hs Hv. unfold writeInt. change (Z.to_nat (64 / 8)) with 8%nat. change (64 / 8) with 8.
  assert (Hq : page_of (address p) = pg) by (unfold page_of; Z.div_mod_to_equations; lia). rewrite Hq.
  assert (Hin : in_page (address p) 8 = true) by (apply Z.eqb_eq; unfold page_of; Z.div_mod_to_equations; lia). rewrite Hin.
  assert (Hl : Z.of_nat (length (le_bytes 8 v)) = 8) by by rewrite le_bytes_number_length.
  destruct Hs as [Es|[Es Hz]]; rewrite Es.
  - eexists. split; [reflexivity|]. unfold only_between. rewrite update_same. cbn [content status]. split; [|split; [done|split; [intros t' Ht; by rewrite update_other|]]].
    + apply words_at_cons. cbn [content]. unfold readable. cbn [status]. rewrite Hq, Es. split; [split; [apply holds_put_bytes|done]|]. split; [by intros ? ? ?|]. cbn. lia.
    + split; [intros x Hx; apply put_bytes_outside; by rewrite Hl|by left].
  - destruct Hv as [Hv| ->]; [congruence|].
    assert (Hsame : forall x, put_bytes (content (m (table p))) (4096 * pg) (le_bytes 8 0) x = content (m (table p)) x).
    { intros x. destruct (Z.le_gt_cases (4096 * pg) x), (Z.lt_ge_cases x (4096 * pg + 8)); try (apply put_bytes_outside; rewrite Hl; lia).
      rewrite (Hz x) by (unfold page_of; Z.div_mod_to_equations; lia).
      replace x with (4096 * pg + Z.of_nat (Z.to_nat (x - 4096 * pg))) by lia. apply (holds_put_bytes _ _ (le_bytes 8 0)).
      assert (Hx : (Z.to_nat (x - 4096 * pg) < 8)%nat) by lia. revert Hx. generalize (Z.to_nat (x - 4096 * pg)). intros n Hx. do 8 (destruct n as [|n]; [done|]). lia. }
    eexists. split; [reflexivity|]. unfold only_between. rewrite update_same. cbn [content status].
    assert (Hr : resolve (m (table p)) pg pg pg = Writable) by (apply resolve_in; [lia|unfold writable; by rewrite Es]).
    split; [|split; [done|split; [intros t' Ht; by rewrite update_other|]]].
    + apply words_at_cons. cbn [content]. unfold readable. cbn [status]. rewrite Hq, Hr. split; [split; [|done]|split; [by intros ? ? ?|cbn; lia]].
      intros i x Hx. rewrite Hsame, (Hz _).
      * clear -Hx. do 8 (destruct i as [|i]; [by injection Hx|]). done.
      * pose proof (lookup_lt_Some _ _ _ Hx). unfold page_of. Z.div_mod_to_equations. lia.
    + split; [intros x _; apply Hsame|apply resolve_cases].
Qed.

Lemma pushString_run sp str s m pg : string_at (m (table str)) (address str) s -> (length s < fuel)%nat -> 
  let a := address sp - (Z.of_nat (length s) + 1) in 0 < a -> address sp < 2 ^ 64 ->
  4096 * pg <= a -> address sp <= 4096 * (pg + 1) -> writable (m (table sp)) pg = true ->
  exists m', pushString fuel sp str m = Some (a, m') /\ string_at (m' (table sp)) a s /\ status (m' (table sp)) pg = Writable /\
    only_between m m' (table sp) a (address sp).
Proof.
  intros Hs Hf a Ha0 Hsp H1 H2 Hw. unfold pushString. rewrite (bind_some _ _ _ _ _ (strlenVirtPtr_run str s m Hs Hf)). destruct Hs as (Hc & Hh & Hr & Ha & Hend).
  rewrite (wrap_small 64 (_ + 1)), (wrap_small 64) by lia. fold a.
  assert (Hn : Z.of_nat (length (s ++ [0])) = Z.of_nat (length s) + 1) by (rewrite length_app; cbn; lia).
  assert (Hl : bytes_at (content (m (table str))) (address str) (Z.of_nat (length s) + 1) = s ++ [0]) by (rewrite <- Hn; by apply holds_bytes).
  destruct (write_run (virtPtrFor a (table sp)) (s ++ [0]) m pg) as (m' & E & Hwr & Hst & Ho); cbn [table address] in *; try done; try lia.
  rewrite Hn in E, Ho. exists m'. split; [|split; [|split; [done|]]].
  - unfold memcpyBetweenVirtPtr, read, mbind, M_bind. rewrite pages_all by (intros x Hx; apply Hr; lia). cbv beta iota. by rewrite Hl, E.
  - split; [done|split; [done|split; [|lia]]]. intros x Hx. unfold readable. replace (page_of x) with pg; [by rewrite Hst|].
    unfold page_of. Z.div_mod_to_equations. lia.
  - eapply only_between_weaken; [exact Ho|lia|lia].
Qed.

(** The strings [l] at the addresses [qs], from [lo] up to [hi]. *)
Definition placed (s : space) (lo hi : Z) (qs : list Z) (l : list (list Z)) : Prop :=
  Forall2 (fun q t => string_at s q t /\ lo <= q /\ q + Z.of_nat (length t) + 1 <= hi) qs l.

Lemma placed_only_between m m' t lo lo' hi qs l : placed (m t) lo hi qs l -> only_between m m' t lo' lo -> lo' <= lo -> placed (m' t) lo' hi qs l.
Proof.
  intros H Ho Hl. eapply Forall2_impl; [|exact H]. cbn. intros q s (Hs & H1 & H2). split; [|lia].
  eapply string_at_ext; [|exact Hs]. eapply only_between_range; [exact Ho|]. by right.
Qed.

Definition strings_size (l : list (list Z)) : Z := foldr (fun s n => Z.of_nat (length s) + 1 + n) 0 l.

Lemma strings_size_nonneg l : 0 <= strings_size l.
Proof. unfold strings_size. induction l as [|s l IH]; cbn [foldr]; lia. Qed.

Lemma strings_size_app l k : strings_size (l ++ k) = strings_size l + strings_size k.
Proof. unfold strings_size. induction l as [|s l IH]; cbn [app foldr]; lia. Qed.

Lemma strings_loop_run i sp array strings ptrs l hi m pg : (i <= length l)%nat -> array_at (m (table array)) (address array) ptrs l -> table array <> table sp ->
  Forall (fun s => (length s < fuel)%nat) l -> placed (m (table sp)) (address sp) hi strings (drop i l) -> stack_page (m (table sp)) pg ->
  4096 * pg <= address sp - strings_size (take i l) -> 0 < address sp - strings_size (take i l) -> address sp <= hi <= 4096 * (pg + 1) -> hi < 2 ^ 64 ->
  exists sp' qs m', strings_loop fuel i sp array strings m = Some ((sp', qs), m') /\ table sp' = table sp /\
    address sp' = address sp - strings_size (take i l) /\ placed (m' (table sp)) (address sp') hi qs l /\ stack_page (m' (table sp)) pg /\
    only_between m m' (table sp) (address sp') (address sp).
Proof.
  revert sp strings m. induction i as [|i IH]; intros sp strings m Hi Ha Ht Hf Hpl Hst Hpg Hsz Hsp Hhi; cbn [strings_loop].
  { exists sp, strings, m. change (strings_size (take 0 l)) with 0. rewrite Z.sub_0_r. split; [done|split; [done|split; [done|split; [done|split; [done|apply only_between_refl]]]]]. }
  destruct (lookup_lt_is_Some_2 l i ltac:(lia)) as [s Es]. pose proof Ha as (Hp & Hw & Ha0 & Haend).
  destruct (Forall2_lookup_r _ _ _ _ _ Hp Es) as (q & Eq & Hq). pose proof (string_range _ _ _ Hq) as Hqr.
  pose proof (Forall2_length Hp) as Hlen.
  assert (Eq' : (ptrs ++ [0]) !! i = Some q) by by apply lookup_app_l_Some. pose proof (words_at_lookup _ _ _ _ _ Hw Eq') as Hword.
  unfold readIntAt. change (64 / 8) with 8. rewrite (wrap_small 64 (Z.of_nat i * 8)), (wrap_small 64) by lia.
  replace (Z.of_nat i * 8) with (8 * Z.of_nat i) by lia.
  rewrite (bind_some _ _ _ _ _ (readInt_word m (virtPtrFor (address array + 8 * Z.of_nat i) (table array)) q ltac:(lia) Hword)).
  assert (Etake : take (S i) l = take i l ++ [s]) by by apply take_S_r. rewrite Etake, strings_size_app in *. change (strings_size [s]) with (Z.of_nat (length s) + 1 + 0) in *.
  pose proof (strings_size_nonneg (take i l)). pose proof (Forall_lookup_1 _ _ _ _ Hf Es) as Hfs. cbv beta in Hfs.
  destruct (pushString_run sp (virtPtrFor q (table array)) s m pg Hq Hfs ltac:(lia) ltac:(lia) ltac:(lia) ltac:(lia) (stack_writable _ _ Hst)) as (m1 & E1 & Hs1 & Hw1 & Ho1).
  rewrite (bind_some _ _ _ _ _ E1). set (a := address sp - (Z.of_nat (length s) + 1)) in *.
  destruct (IH (virtPtrFor a (table sp)) (a :: strings) m1) as (sp' & qs & m' & E & Htb & Haddr & Hpl' & Hst' & Ho); cbn [table address] in *; try done; try lia.
  - rewrite (proj1 Ho1) by done. done.
  - rewrite (drop_S l s i Es). constructor; [split; [done|lia]|]. eapply placed_only_between; [exact Hpl|exact Ho1|lia].
  - by left.
  - exists sp', qs, m'. split; [exact E|split; [done|split; [lia|split; [done|split; [done|]]]]].
    eapply only_between_trans; [|exact Ho1|eapply only_between_weaken; [exact Ho|lia|lia]]. lia.
Qed.

Lemma pointers_loop_run rest sp l m pg : words_at (m (table sp)) (address sp) l -> status (m (table sp)) pg = Writable ->
  4096 * pg <= address sp - 8 * Z.of_nat (length rest) -> 0 < address sp - 8 * Z.of_nat (length rest) -> address sp <= 4096 * (pg + 1) -> address sp < 2 ^ 64 ->
  exists sp' m', pointers_loop sp rest m = Some (sp', m') /\ table sp' = table sp /\ address sp' = address sp - 8 * Z.of_nat (length rest) /\
    words_at (m' (table sp)) (address sp') (reverse rest ++ l) /\ status (m' (table sp)) pg = Writable /\
    only_between m m' (table sp) (address sp') (address sp).
Proof.
  revert sp l m. induction rest as [|v rest IH]; intros sp l m Hw Hst Hpg Hsz Hsp Hend; cbn [pointers_loop].
  { exists sp, m. cbn [length]. rewrite Z.sub_0_r. split; [done|split; [done|split; [done|split; [done|split; [done|apply only_between_refl]]]]]. }
  cbn [length] in *. rewrite (wrap_small 64) by lia.
  destruct (writeInt_run (virtPtrFor (address sp - 8) (table sp)) v m pg) as (m1 & E1 & Hh & Hst1 & Ho); cbn [table address] in *; try lia; [by left|by left|].
  rewrite (bind_some _ _ _ _ _ E1).
  destruct (IH (virtPtrFor (address sp - 8) (table sp)) (v :: l) m1) as (sp' & m' & E & Ht & Ha & Hw' & Hst' & Ho'); cbn [table address] in *; try done; try lia.
  - apply words_at_cons in Hh as [Hh _]. apply words_at_cons. split; [done|]. replace (address sp - 8 + 8) with (address sp) by lia. eapply words_at_ext; [|exact Hw].
    eapply only_between_range; [exact Ho|]. right. lia.
  - exists sp', m'. split; [exact E|split; [done|split; [lia|split; [|split; [done|]]]]].
    + rewrite reverse_cons, <- app_assoc. exact Hw'.
    + apply (only_between_trans m m1 m' _ _ (address sp - 8)); [lia|eapply only_between_weaken; [exact Ho|lia..]|eapply only_between_weaken; [exact Ho'|lia..]].
Qed.

(** The size of an array on the stack. *)
Definition array_size (l : list (list Z)) : Z := strings_size l + 8 * (Z.of_nat (length l) + 1).

(** What is pushed to one page, and everything else. *)
Lemma pushStringArray_run sp array l m pg : strings_at (m (table array)) (address array) l -> table array <> table sp ->
  (length l < fuel)%nat -> Forall (fun s => (length s < fuel)%nat) l -> stack_page (m (table sp)) pg ->
  4096 * pg <= address sp - array_size l -> 0 < address sp - array_size l -> address sp <= 4096 * (pg + 1) -> address sp < 2 ^ 64 ->
  exists a qs m', pushStringArray fuel sp array m = Some ((a, Z.of_nat (length l)), m') /\ a = address sp - array_size l /\
    array_at (m' (table sp)) a qs l /\ Forall2 (fun q (t : list Z) => a <= q /\ q + Z.of_nat (length t) + 1 <= address sp) qs l /\
    status (m' (table sp)) pg = Writable /\ only_between m m' (table sp) a (address sp).
Proof.
  unfold array_size. intros Hs Ht Hf Hfs Hst Hpg Hsz Hsp Hend. unfold pushStringArray. rewrite (bind_some _ _ _ _ _ (stringArrayLength_run array l m Hs Hf)). rewrite Nat2Z.id.
  pose proof (strings_size_nonneg l) as Hpos.
  assert (H1 : exists sp' qs m1, strings_loop fuel (length l) sp array [] m = Some ((sp', qs), m1) /\ table sp' = table sp /\
    address sp' = address sp - strings_size l /\ placed (m1 (table sp)) (address sp') (address sp) qs l /\ stack_page (m1 (table sp)) pg /\
    only_between m m1 (table sp) (address sp') (address sp)).
  { destruct Hs as [[_ ->]|(ptrs & Ha)].
    { exists sp, [], m. cbn [strings_size foldr]. rewrite Z.sub_0_r. split; [done|split; [done|split; [done|split; [constructor|split; [done|apply only_between_refl]]]]]. }
    destruct (strings_loop_run (length l) sp array [] ptrs l (address sp) m pg) as (sp' & qs & m1 & E & H2 & H3 & H4 & H5 & H6); try done; rewrite ?firstn_all in *; try done; try lia.
    - rewrite drop_all. constructor.
    - by exists sp', qs, m1. }
  destruct H1 as (sp1 & qs & m1 & E1 & Htb & Ha1 & Hpl & Hst1 & Ho1). rewrite (bind_some _ _ _ _ _ E1). rewrite (wrap_small 64) by lia.
  pose proof (Forall2_length Hpl) as Hlen.
  destruct (writeInt_run (virtPtrFor (address sp1 - 8) (table sp1)) 0 m1 pg) as (m2 & E2 & Hh & Hst2 & Ho2); cbn [table address] in *; rewrite ?Htb in *; try done; try lia; try (by right).
  rewrite (bind_some _ _ _ _ _ E2).
  destruct (pointers_loop_run (reverse qs) (virtPtrFor (address sp1 - 8) (table sp)) [0] m2 pg) as (sp3 & m3 & E3 & Htb3 & Ha3 & Hw3 & Hst3 & Ho3);
    cbn [table address]; rewrite ?length_reverse; try done; try lia.
  rewrite (bind_some _ _ _ _ _ E3). cbn [table address] in Htb3, Ha3, Hw3, Hst3, Ho3. rewrite length_reverse in Ha3. rewrite reverse_involutive in Hw3.
  assert (Hpl3 : placed (m3 (table sp)) (address sp3) (address sp) qs l).
  { eapply placed_only_between; [|exact Ho3|lia]. eapply (placed_only_between m1 m2 (table sp) (address sp1)); [exact Hpl| |lia].
    eapply only_between_weaken; [exact Ho2|lia|lia]. }
  exists (address sp3), qs, m3. split; [done|split; [lia|split; [|split; [|split; [done|]]]]].
  - split; [|split; [exact Hw3|lia]]. eapply Forall2_impl; [|exact Hpl3]. cbn. tauto.
  - eapply Forall2_impl; [|exact Hpl3]. cbn. tauto.
  - apply (only_between_trans m m1 m3 _ _ (address sp1)); [lia|eapply only_between_weaken; [exact Ho1|lia|lia]|].
    apply (only_between_trans m1 m2 m3 _ _ (address sp1 - 8)); [lia|..]; (eapply only_between_weaken; [first [exact Ho2|exact Ho3]|lia..]).
Qed.

(** C23: Strings that fit into the page below the stack pointer: those that an array
    of pointers holds in the memory of the caller are found by the new program at
    the address that [pushStringArray] returns, in the same order and number, as an
    array of pointers that ends with [NULL], each to a copy of its string, all of it
    between the new and the old stack pointer.  The rest of the new memory and the
    other spaces are as before. *)
Theorem pushStringArray_copies sp array l m pg : strings_at (m (table array)) (address array) l -> table array <> table sp ->
  (length l < fuel)%nat -> Forall (fun s => (length s < fuel)%nat) l -> stack_page (m (table sp)) pg ->
  4096 * pg <= address sp - array_size l -> 0 < address sp - array_size l -> address sp <= 4096 * (pg + 1) -> address sp < 2 ^ 64 ->
  exists a m', pushStringArray fuel sp array m = Some ((a, Z.of_nat (length l)), m') /\ a = address sp - array_size l /\
    (exists qs, array_at (m' (table sp)) a qs l /\ Forall2 (fun q (t : list Z) => a <= q /\ q + Z.of_nat (length t) + 1 <= address sp) qs l) /\
    only_between m m' (table sp) a (address sp).
Proof.
  intros H1 H2 H3 H4 H5 H6 H7 H8 H9. destruct (pushStringArray_run sp array l m pg H1 H2 H3 H4 H5 H6 H7 H8 H9) as (a & qs & m' & E & Ha & Hq & Hb & _ & Ho).
  exists a, m'. split; [done|split; [done|split; [by exists qs|done]]].
Qed.
End Strings.

(** ** Concrete runs

    The array of the strings "hi" and "ok" of space 1 goes to space 2. *)
Definition empty : space := mkSpace (fun _ => 0) (fun _ => Copy).
Definition ex_space : space :=
  mkSpace (put_bytes (put_bytes (fun _ => 0) 104 (concat (le_bytes 8 <$> [200; 204; 0]))) 200 [104; 105; 0; 0; 111; 107; 0]) (fun _ => ReadOnly).
Definition ex_memory : memory := fun t => if t =? 1 then ex_space else empty.
Definition ex_strings : list (list Z) := [[104; 105]; [111; 107]].

Lemma ex_strings_at : strings_at (ex_memory 1) 104 ex_strings.
Proof.
  right. exists [200; 204]. split_and!; [| |done..].
  - constructor; [|constructor; [|constructor]].
    + split; [repeat constructor; lia|]. split; [apply holds_bytes; by vm_compute|]. done.
    + split; [repeat constructor; lia|]. split; [apply holds_bytes; by vm_compute|]. done.
  - split; [apply holds_bytes; by vm_compute|]. intros i Hi. split; [done|]. cbn in Hi.
    assert (i = 0 \/ i = 1 \/ i = 2) as [->|[->| ->]] by lia; done.
Qed.

Lemma pushStringArray_copies_witness :
  exists a m', pushStringArray 10 (virtPtrFor 8192 2) (virtPtrFor 104 1) ex_memory = Some ((a, 2), m') /\ a = 8192 - 6 - 24 /\
    exists qs, array_at (m' 2) a qs ex_strings.
Proof.
  destruct (pushStringArray_copies 10 (virtPtrFor 8192 2) (virtPtrFor 104 1) ex_strings ex_memory 1) as (a & m' & E & Ha & (qs & Hq & _) & _).
  - exact ex_strings_at.
  - done.
  - cbn. lia.
  - repeat constructor; cbn; lia.
  - right. done.
  - done.
  - done.
  - done.
  - done.
  - exists a, m'. split; [exact E|split; [exact Ha|by exists qs]].
Defined.

(** When the strings fill their page, so that the pointers reach the one below, the
    first pointer there is written to the start of the page: the program finds
    [NULL] at the address of its arguments. *)
Definition long_strings : list (list Z) := [replicate 8 65; replicate 4070 66].
Definition long_space : space :=
  mkSpace (put_bytes (put_bytes (fun _ => 0) 104 (concat (le_bytes 8 <$> [200; 209; 0]))) 200 (concat ((fun s => s ++ [0]) <$> long_strings))) (fun _ => ReadOnly).

Example pointer_misplaced :
  (r ← pushStringArray 5000 (virtPtrFor 8192 2) (virtPtrFor 104 1) (fun t => if t =? 1 then long_space else empty);
   v ← readInt (virtPtrFor (fst (fst r)) 2) 64 (snd r);
   w ← readInt (virtPtrFor 0 2) 64 (snd r);
   Some (fst r, fst v, fst w)) = Some ((4088, 2), 0, 4112).
Proof. vm_compute. reflexivity. Qed.

End Loader.
