(* ===== verification/Exec.v ===== *)
(** * Exec: [loadProgramInto] and [execveSyscall] of [kernel/src/loader/loader.c]

    A process gets a new program.  The process, its tasks and its pending signals
    are those of [Process]; its [W] is the saved frames of the tasks and [V], the
    files and memory spaces.  The operations on [V] are modelled in [FileSyscall],
    [MemSpace], [Elf] and [FileTable], and parameters here, with what they do to
    the spaces and open files stated by [KernelLaws]; the strings are pushed by
    [Loader].  Allocating a memory space and a process is taken to succeed, which
    the code does not check. *)
From S2P Require Import Prelude Util Errors Schedule Signals Process Elf Loader.
Import Errors Process Loader.

Local Open Scope c_scope.

Module Exec.

(** ** Definitions *)

Definition VFS_OPEN_EXECUTE : Z := 0x100000.
Definition VFS_OPEN_REGULAR : Z := 0x400000.
Definition VFS_MODE_SETUID : Z := Z.shiftl 1 10.
Definition VFS_MODE_SETGID : Z := Z.shiftl 1 11.
Definition PAGE_SIZE : Z := 2 ^ 12.
Definition REG_GLOBAL_POINTER : nat := 2.

(** The fields of [VfsStat] that are read. *)
Record VfsStat := mkStat { st_mode : Z; st_uid : Z; st_gid : Z }.

Record TrapFrame := mkFrame { hart : Z; regs : list Z; fregs : list Z; pc : Z; satp : Z }.

Definition set_reg (r : nat) (v : Z) (f : TrapFrame) : TrapFrame := mkFrame (hart f) (<[r := v]> (regs f)) (fregs f) (pc f) (satp f).

Definition satpForMemory (asid page_table : Z) : Z :=
  if page_table =? 0 then 0
  else Z.lor (Z.lor (u64 (Z.shiftl 8 60)) (u64 (Z.shiftl (u16 asid) 44))) (Z.shiftr page_table 12).

Definition initTrapFrame (f : TrapFrame) (sp gp pc asid table : Z) : TrapFrame :=
  let f := mkFrame 0 (regs f) (fregs f) (Exec.pc f) (satp f) in
  let f := set_reg Signals.REG_RETURN_ADDRESS 0 f in
  let f := set_reg Signals.REG_STACK_POINTER sp f in
  let f := set_reg REG_GLOBAL_POINTER gp f in
  mkFrame (hart f) (regs f) (fregs f) pc (satpForMemory asid table).

(** What the new program needs. *)
Record prepared := mkPrepared {
  p_stat : VfsStat; p_memory : Z; p_entry : Z; p_start_brk : Z; p_envs : Z; p_args : Z; p_argc : Z;
}.

Definition allPagesBrkCallback (vaddr last_page : Z) : Z := if vaddr >? last_page then vaddr else last_page.

Section Kernel.
(** Files and memory spaces.  [vfsOpenAt] sees the user and the working directory
    of the process, if there is one; [leaf_pages] are the addresses that
    [allPagesDo] calls back with. *)
Context {V : Type}.
Context (vfsOpenAt : option Process.Process -> list Z -> Z -> R V Z) (vfsFileStat : option Process.Process -> Z -> R V VfsStat)
  (vfsFileClose : Z -> M V unit).
Context (createMemorySpace : M V Z) (deallocMemorySpace : Z -> M V unit) (leaf_pages : Z -> V -> list Z).
Context (loadProgramFromElfFile : Z -> Z -> R V Z) (allocatePages : Z -> Z -> Z -> Z -> Z -> M V bool).
Context (user : V -> memory) (with_user : memory -> V -> V) (fuel : nat).

Definition act {A St : Type} (c : M St A) : R St A := fun s => '(a, s) ← c s; Some (Good a, s).
Definition on_user {A : Type} (c : M memory A) : M V A := fun v => '(a, m) ← c (user v); Some (a, with_user m v).

(** [CHECKED(c, clean)] *)
Definition checked {A : Type} (c : R V A) (clean : M V unit) : R V A :=
  r ← attempt c;
  match r with Good a => mret a | Bad k => act clean;; bad k end.

Definition findStartBrk (mem : Z) : M V Z := fun v => Some (foldl (fun last vaddr => allPagesBrkCallback vaddr last) 0 (leaf_pages mem v) +% PAGE_SIZE, v).

(** [loadProgramInto] up to where the process changes. *)
Definition prepare (x : option Process.Process) (path : list Z) (args envs : VirtPtr) : R V prepared :=
  file ← vfsOpenAt x path (Z.lor VFS_OPEN_EXECUTE VFS_OPEN_REGULAR);
  stat ← checked (vfsFileStat x file) (vfsFileClose file);
  memory ← act createMemorySpace;
  entry ← checked (loadProgramFromElfFile memory file) (deallocMemorySpace memory;; vfsFileClose file);
  act (vfsFileClose file);;
  start_brk ← act (findStartBrk memory);
  ok ← act (allocatePages memory (USER_STACK_TOP -% USER_STACK_SIZE) 0 USER_STACK_SIZE (Z.lor Elf.ELF_PROG_READ Elf.ELF_PROG_WRITE));
  if negb ok then act (deallocMemorySpace memory);; bad ENOMEM
  else
    envs ← act (on_user (pushStringArray fuel (virtPtrFor USER_STACK_TOP memory) envs));
    args ← act (on_user (pushStringArray fuel (virtPtrFor (fst envs) memory) args));
    mret (mkPrepared stat memory entry start_brk (fst envs) (fst args) (snd args)).

Record kstate := mkKState { frames : gmap Z TrapFrame; kernel : V }.
Abbreviation st := (@Process.state kstate).

Definition on_kernel {A : Type} (c : M V A) : M kstate A := fun w => '(a, v) ← c (kernel w); Some (a, mkKState (frames w) v).
Definition get_frame (t : Z) : M kstate TrapFrame := fun w => f ← frames w !! t; Some (f, w).
Definition put_frame (t : Z) (f : TrapFrame) : M kstate unit := fun w => Some (tt, mkKState (<[t := f]> (frames w)) (kernel w)).
Definition modify_frame (t : Z) (g : TrapFrame -> TrapFrame) : M kstate unit := f ← get_frame t; put_frame t (g f).

Context (zalloc_process : gmap Z Process.Process -> Z) (cloneMemorySpace : Z -> M kstate Z) (forkFileDescriptors : Z -> Z -> M kstate unit).
Context (closeExecProcessFiles : Z -> M V unit).

Definition set_user (g : ProcessUser -> ProcessUser) (x : Process.Process) : Process.Process :=
  mkProcess (pid x) (sid x) (pgid x) (Process.status x) (tasks x) (times x) (g (Process.user x)) (tree x) (Process.memory x) (umask x) (cwd x) (psignals x).
Definition set_memory (m : ProcessMemory) (x : Process.Process) : Process.Process :=
  mkProcess (pid x) (sid x) (pgid x) (Process.status x) (tasks x) (times x) (Process.user x) (tree x) m (umask x) (cwd x) (psignals x).
Definition set_uid (uid : Z) (u : ProcessUser) : ProcessUser := mkUser (ruid u) (rgid u) uid (sgid u) uid (egid u).
Definition set_gid (gid : Z) (u : ProcessUser) : ProcessUser := mkUser (ruid u) (rgid u) (suid u) gid (euid u) gid.

Definition process_of (t : Z) : M st Z := y ← get_sched_task t; mret (Schedule.process y).

(** The rest of [loadProgramInto]. *)
Definition replace_process (t : Z) (r : prepared) : M st unit :=
  p ← process_of t;
  (if p =? 0 then
     q ← createUserProcess zalloc_process (on_kernel createMemorySpace) cloneMemorySpace forkFileDescriptors 0;
     addTaskToProcess q t
   else terminateAllProcessTasksBut p t);;
  p ← process_of t;
  x ← get_proc p;
  on_world (on_kernel (deallocMemorySpace (mem_space (Process.memory x))));;
  when (negb (Z.land (st_mode (p_stat r)) VFS_MODE_SETUID =? 0)) (Process.modify p (set_user (set_uid (st_uid (p_stat r)))));;
  when (negb (Z.land (st_mode (p_stat r)) VFS_MODE_SETGID =? 0)) (Process.modify p (set_user (set_gid (st_gid (p_stat r)))));;
  Process.modify p (set_memory (mkMemory (p_memory r) (p_start_brk r) (p_start_brk r)));;
  x ← get_proc p;
  on_world (modify_frame t (fun f => initTrapFrame f (p_args r) 0 (p_entry r) (pid x) (p_memory r)));;
  on_world (modify_frame t (set_reg Signals.REG_ARGUMENT_0 (p_argc r)));;
  on_world (modify_frame t (set_reg Signals.REG_ARGUMENT_1 (p_args r)));;
  on_world (modify_frame t (set_reg Signals.REG_ARGUMENT_2 (p_envs r)));;
  on_world (on_kernel (closeExecProcessFiles p));;
  on_signals p Signals.clearSignals.

Definition with_world (s : st) (w : kstate) : st :=
  mkState (procs s) (proc_tasks s) (global_first s) (next_pid s) (finalizers s) (sched s) w.

Definition loadProgramInto (t : Z) (path : list Z) (args envs : VirtPtr) : R st unit := fun s =>
  '(p, s) ← process_of t s;
  '(x, s) ← (if p =? 0 then mret None else x ← get_proc p; mret (Some x)) s;
  '(r, v) ← prepare x path args envs (kernel (world s));
  let s := with_world s (mkKState (frames (world s)) v) in
  match r with Good r => act (replace_process t r) s | Bad k => Some (Bad k, s) end.
(** *** The system call *)

Context (kernel_page_table : Z) (kalloc : Z -> bool).

Definition virtPtrForTask (addr t : Z) : M st VirtPtr :=
  p ← process_of t;
  if p =? 0 then mret (virtPtrFor addr kernel_page_table)
  else x ← get_proc p; mret (virtPtrFor addr (mem_space (Process.memory x))).

(** [None] is [NULL], when there is no memory. *)
Definition copyStringFromSyscallArgs (t ptr : Z) : M st (option (list Z)) :=
  str ← virtPtrForTask ptr t;
  length ← on_world (on_kernel (on_user (strlenVirtPtr fuel str)));
  if kalloc (length +% 1) then
    l ← on_world (on_kernel (on_user (read str length)));
    mret (Some l)
  else mret None.

Definition syscall_arg (t : Z) (i : nat) : M st Z := fun s =>
  f ← frames (world s) !! t; v ← regs f !! (Signals.REG_ARGUMENT_1 + i)%nat; Some (v, s).

Definition SYSCALL_RETURN (t v : Z) : M st unit := on_world (modify_frame t (set_reg Signals.REG_ARGUMENT_0 (u64 v))).

Definition execveSyscall (t : Z) : M st unit :=
  f ← on_world (get_frame t);
  massert (negb (hart f =? 0));;
  a ← syscall_arg t 0;
  string ← copyStringFromSyscallArgs t a;
  match string with
  | Some string =>
      a ← syscall_arg t 1; args ← virtPtrForTask a t;
      b ← syscall_arg t 2; envs ← virtPtrForTask b t;
      e ← loadProgramInto t string args envs;
      match e with
      | Bad k => SYSCALL_RETURN t (- k)
      | Good _ => mret tt
      end
  | None => SYSCALL_RETURN t (- EINVAL)
  end.

(** ** Lemmas *)

(** *** Ending the other tasks *)

Fixpoint task_list (m : gmap Z ProcTask) (c : Z) (l : list Z) : Prop :=
  match l with
  | [] => c = 0
  | t :: l => c = t /\ t <> 0 /\ exists x, m !! t = Some x /\ task_list m (proc_next x) l
  end.

(** The states of the tasks in [l] but [keep] are [TERMINATED], the others as
    before; of the tasks only the state and the link of the waiting list change. *)
Definition only_terminated (l : list Z) (keep : Z) (q q' : Schedule.sched) : Prop :=
  Schedule.harts q' = Schedule.harts q /\ Schedule.current_hart q' = Schedule.current_hart q /\
  forall u U, Schedule.tasks q !! u = Some U -> exists U', Schedule.tasks q' !! u = Some U' /\
    Schedule.state U' = (if decide (u ∈ l /\ u <> keep) then Schedule.TERMINATED else Schedule.state U) /\
    Schedule.set_next (Schedule.set_state U' Schedule.UNKNOWN) 0 = Schedule.set_next (Schedule.set_state U Schedule.UNKNOWN) 0.

Definition with_sched (s : st) (q : Schedule.sched) : st :=
  mkState (procs s) (proc_tasks s) (global_first s) (next_pid s) (finalizers s) q (world s).

Lemma move_terminated old : Schedule.move_state old Schedule.TERMINATED = Schedule.TERMINATED.
Proof. by destruct old. Qed.

Lemma move_loop_ok keep l : forall fuel (s : st) c wl, task_list (proc_tasks s) c l -> NoDup l -> (length l < fuel)%nat ->
  Schedule.waits (sched s) wl ->
  Forall (fun t => exists T, Schedule.tasks (sched s) !! t = Some T /\ (Schedule.state T = Schedule.WAITING -> t ∈ wl)) l ->
  exists q wl', move_loop fuel Schedule.TERMINATED keep c s = Some (tt, with_sched s q) /\ Schedule.waits q wl' /\
    only_terminated l keep (sched s) q.
Proof.
  induction l as [|t l IH]; intros n s c wl Hl Hnd Hn Hw Hall; (destruct n as [|n]; [cbn in Hn; lia|]); cbn [move_loop].
  { cbn in Hl. subst c. exists (sched s), wl. split; [by destruct s|split; [done|split; [done|split; [done|]]]].
    intros u U HU. exists U. rewrite decide_False by (intros [H _]; by apply elem_of_nil in H). done. }
  destruct Hl as (-> & Ht & x & Hx & Hl). apply list.NoDup_cons in Hnd as [Htl Hnd]. apply Forall_cons_1 in Hall as [(T & HT & Hwait) Hall].
  rewrite (proj2 (Z.eqb_neq t 0)) by done.
  destruct (decide (t = keep)) as [->|Hk].
  - rewrite Z.eqb_refl. cbn [negb when]. rewrite bind_ret. erewrite bind_some by (unfold get_task; rewrite Hx; reflexivity).
    destruct (IH n s _ wl Hl Hnd ltac:(cbn in Hn; lia) Hw Hall) as (q & wl' & E & Hw' & H1 & H2 & H3).
    exists q, wl'. split; [done|split; [done|split; [done|split; [done|]]]]. intros u U HU.
    destruct (H3 u U HU) as (U' & HU' & Hst & He). exists U'. split; [done|split; [|done]]. rewrite Hst.
    apply decide_ext. rewrite elem_of_cons. naive_solver.
  - rewrite (proj2 (Z.eqb_neq t keep)) by done. cbn [negb when].
    destruct (Schedule.moveTaskToState_ok (sched s) wl t T Schedule.TERMINATED Hw Ht HT) as (q1 & T1 & E1 & Ho1 & HT1 & Hst1 & Hw1); [intros H; split; [by apply Hwait|by left]|].
    rewrite move_terminated in Hst1. destruct Ho1 as (Hh & Hc & Ho1).
    erewrite bind_some by (unfold on_sched; rewrite E1; reflexivity). erewrite bind_some by (unfold get_task; cbn [proc_tasks]; rewrite Hx; reflexivity).
    destruct (IH n (with_sched s q1) _ _ Hl Hnd ltac:(cbn in Hn; lia) Hw1) as (q & wl' & E & Hw' & H1 & H2 & H3).
    { apply list.Forall_forall. intros u Hu. pose proof Hu as HU. rewrite list.Forall_forall in Hall. destruct (Hall u Hu) as (U & HUe & Hwu).
      destruct (Ho1 u U HUe) as (U1 & HU1 & Hsame & _). exists U1. split; [done|]. assert (u <> t) by (intros ->; done). rewrite Hsame by done. intros Hwt.
      specialize (Hwu Hwt). case_decide; [|done]. unfold Schedule.without. by apply list_elem_of_filter. }
    exists q, wl'. split; [done|split; [done|split; [by rewrite H1|split; [by rewrite H2|]]]]. intros u U HU.
    destruct (Ho1 u U HU) as (U1 & HU1 & Hsame & He1). destruct (H3 u U1 HU1) as (U' & HU' & Hst & He). exists U'. split; [done|split; [|by rewrite He]].
    rewrite Hst. destruct (decide (u = t)) as [->|Hne].
    + rewrite decide_False by tauto. rewrite decide_True by (split; [by left|done]). rewrite HT1 in HU1. by injection HU1 as <-.
    + rewrite (Hsame Hne). apply decide_ext. rewrite elem_of_cons. naive_solver.
Qed.

Lemma terminate_ok (s : st) p x keep l wl : procs s !! p = Some x -> task_list (proc_tasks s) (tasks x) l -> NoDup l ->
  Schedule.waits (sched s) wl ->
  Forall (fun t => exists T, Schedule.tasks (sched s) !! t = Some T /\ (Schedule.state T = Schedule.WAITING -> t ∈ wl)) l ->
  exists q, terminateAllProcessTasksBut p keep s = Some (tt, with_sched s q) /\ only_terminated l keep (sched s) q.
Proof.
  intros Hx Hl Hnd Hw Hall. assert (Hsz : (length l <= size (proc_tasks s))%nat).
  { rewrite <- (size_list_to_set (C := gset Z)), <- size_dom by done. apply subseteq_size. intros t Ht%elem_of_list_to_set.
    apply elem_of_dom. clear -Hl Ht. revert Hl. generalize (tasks x). induction l as [|u l IH]; intros c Hl; [by apply elem_of_nil in Ht|].
    destruct Hl as (_ & _ & y & Hy & Hl). apply elem_of_cons in Ht as [->|Ht]; [by exists y|by apply (IH Ht _ Hl)]. }
  destruct (move_loop_ok keep l (Datatypes.S (size (proc_tasks s))) s (tasks x) wl) as (q & wl' & E & _ & Ho); try done; [lia|].
  exists q. split; [|done]. unfold terminateAllProcessTasksBut, moveAllProcessTasksToStateBut.
  erewrite bind_some by (unfold get_proc; rewrite Hx; reflexivity). exact E.
Qed.

(** *** Clearing the signals *)

Definition cleared (s : Signals.ProcessSignals) : Signals.ProcessSignals :=
  Signals.mkSignals 0 0 (Signals.clear_handler <$> Signals.handlers s) 0 0 (Signals.alarm_at s) 0 (Signals.mask s).

(** The pending signals [l] are gone, and the other fields are as given. *)
Lemma clear_loop_ok l : forall fuel p, Signals.pending p l -> (length l < fuel)%nat ->
  exists es g, Signals.clear_loop fuel p = Some (tt, Signals.mkProc es g (Signals.frame p) (Signals.stack p)) /\ cleared g = cleared (Signals.sigs p) /\ Signals.signals g = 0.
Proof.
  induction l as [|[e [sg ch]] l IH]; intros n p [Hl Hnd] Hn; (destruct n as [|n]; [cbn in Hn; lia|]); cbn [Signals.clear_loop]; rewrite Signals.bind_get.
  - cbn in Hl. rewrite Hl. exists (Signals.entries p), (Signals.sigs p). by destruct p.
  - destruct Hl as (-> & He & n' & Hn' & Hl). rewrite fmap_cons in Hnd. apply list.NoDup_cons in Hnd as [Hin Hnd]. cbn [fst] in Hin.
    rewrite (proj2 (Z.eqb_neq _ _)) by done. rewrite (Signals.bind_get_entry _ _ _ _ Hn').
    erewrite bind_some by (unfold Signals.put; reflexivity). unfold Signals.free_entry at 1.
    erewrite bind_some by (cbn [Signals.entries]; rewrite Hn'; reflexivity). cbn [Signals.entries Signals.sigs Signals.frame Signals.stack].
    set (p1 := Signals.mkProc _ _ _ _). destruct (IH n p1) as (es & g & E & Hc & H0); [|cbn in Hn; lia|].
    + split; [|done]. by apply Signals.slist_delete.
    + exists es, g. split; [done|]. split; [by rewrite Hc|done].
Qed.

Lemma clearSignals_ok p l : Signals.pending p l -> exists es,
  Signals.clearSignals p = Some (tt, Signals.mkProc es (cleared (Signals.sigs p)) (Signals.frame p) (Signals.stack p)).
Proof.
  intros Hp. assert (Hsz : (length l <= size (Signals.entries p))%nat).
  { destruct Hp as [Hl Hnd]. rewrite <- (length_fmap fst), <- (size_list_to_set (C := gset Z)), <- size_dom by done.
    apply subseteq_size. intros e He%elem_of_list_to_set. apply elem_of_dom. by eapply Signals.slist_in. }
  destruct (clear_loop_ok l (Datatypes.S (size (Signals.entries p))) p Hp) as (es & g & E & Hc & H0); [lia|].
  exists es. unfold Signals.clearSignals, Signals.with_fuel. erewrite bind_some by exact E. rewrite Signals.bind_get.
  unfold Signals.put. cbn [Signals.sigs Signals.entries Signals.frame Signals.stack]. rewrite <- Hc. unfold cleared. by rewrite H0.
Qed.

(** *** What the operations on files and spaces do *)

(** The memory spaces that exist, and the files that calls hold open.  A program has
    no segment in the highest page of the stack. *)
Definition top_page : Z := USER_STACK_TOP / 4096 - 1.

Context (spaces opened : V -> gset Z).

(** Nothing changes but the memory of the spaces in [E]. *)
Definition keeps (E : gset Z) (v v' : V) : Prop :=
  spaces v' = spaces v /\ opened v' = opened v /\ forall t, t ∈ spaces v -> t ∉ E -> user v' t = user v t.

Class KernelLaws : Prop := {
  open_ok x path flags v : exists r v', vfsOpenAt x path flags v = Some (r, v') /\ spaces v' = spaces v /\
    (forall t, t ∈ spaces v -> user v' t = user v t) /\
    match r with Good f => f ∉ opened v /\ opened v' = {[f]} ∪ opened v | Bad _ => opened v' = opened v end;
  stat_ok x f v : f ∈ opened v -> exists r v', vfsFileStat x f v = Some (r, v') /\ keeps ∅ v v';
  close_ok f v : f ∈ opened v -> exists v', vfsFileClose f v = Some (tt, v') /\ spaces v' = spaces v /\
    (forall t, t ∈ spaces v -> user v' t = user v t) /\ opened v' = opened v ∖ {[f]};
  create_ok v : exists m v', createMemorySpace v = Some (m, v') /\ m ∉ spaces v /\ spaces v' = {[m]} ∪ spaces v /\
    opened v' = opened v /\ forall t, t ∈ spaces v -> user v' t = user v t;
  free_ok m v : m ∈ spaces v -> exists v', deallocMemorySpace m v = Some (tt, v') /\ spaces v' = spaces v ∖ {[m]} /\
    opened v' = opened v /\ forall t, t ∈ spaces v' -> user v' t = user v t;
  load_ok m f v : m ∈ spaces v -> f ∈ opened v -> exists r v', loadProgramFromElfFile m f v = Some (r, v') /\ keeps {[m]} v v' /\
    forall e, r = Good e -> status (user v' m) top_page = Unmapped;
  stack_ok m a ms v : m ∈ spaces v ->
    exists b v', allocatePages m a 0 ms (Z.lor Elf.ELF_PROG_READ Elf.ELF_PROG_WRITE) v = Some (b, v') /\ keeps {[m]} v v' /\
      (b = true -> forall q, page_of a <= q -> 4096 * q < a + ms -> status (user v m) q = Unmapped -> stack_page (user v' m) q);
  exec_ok p v : exists v', closeExecProcessFiles p v = Some (tt, v') /\ keeps ∅ v v';
  user_ok m v : user (with_user m v) = m /\ spaces (with_user m v) = spaces v /\ opened (with_user m v) = opened v;
  user_same v : with_user (user v) v = v;
}.

Lemma act_run {A St} (c : M St A) s s' a : c s = Some (a, s') -> act c s = Some (Good a, s').
Proof. intros H. unfold act. by rewrite H. Qed.

Lemma checked_good {A} (c : R V A) clean v v' a : c v = Some (Good a, v') -> checked c clean v = Some (Good a, v').
Proof. intros H. unfold checked, attempt, mbind, R_bind. by rewrite H. Qed.

Lemma checked_bad {A} (c : R V A) clean v v' v'' k : c v = Some (Bad k, v') -> clean v' = Some (tt, v'') -> checked c clean v = Some (Bad k, v'').
Proof. intros H H'. unfold checked, attempt, mbind, R_bind. rewrite H. cbn [mbind option_bind]. unfold act. by rewrite H'. Qed.

Context `{!KernelLaws}.

Lemma push_user_ok sp array l v pg : strings_at (user v (table array)) (address array) l -> table array <> table sp ->
  (length l < fuel)%nat -> Forall (fun s => (length s < fuel)%nat) l -> stack_page (user v (table sp)) pg ->
  4096 * pg <= address sp - array_size l -> 0 < address sp - array_size l -> address sp <= 4096 * (pg + 1) -> address sp < 2 ^ 64 ->
  exists a qs v', on_user (pushStringArray fuel sp array) v = Some ((a, Z.of_nat (length l)), v') /\ keeps {[table sp]} v v' /\
    a = address sp - array_size l /\ array_at (user v' (table sp)) a qs l /\
    Forall2 (fun q (t : list Z) => a <= q /\ q + Z.of_nat (length t) + 1 <= address sp) qs l /\
    stack_page (user v' (table sp)) pg /\ only_between (user v) (user v') (table sp) a (address sp).
Proof.
  intros H1 H2 H3 H4 H5 H6 H7 H8 H9. destruct (pushStringArray_run fuel sp array l (user v) pg H1 H2 H3 H4 H5 H6 H7 H8 H9) as (a & qs & m' & E & Ha & Hq & Hb & Hst & Ho).
  destruct (user_ok m' v) as (E1 & E2 & E3). exists a, qs, (with_user m' v). split; [unfold on_user; by rewrite E|]. rewrite E1.
  split; [split; [done|split; [done|]]; intros t _ Hin; rewrite E1; apply Ho; set_solver|]. split; [done|split; [done|split; [done|split; [by left|done]]]].
Qed.

(** The arguments and the environment fit into the highest page of the stack; see
    [Loader] for what happens otherwise. *)
Definition fits (la le : list (list Z)) : Prop :=
  (length la < fuel)%nat /\ (length le < fuel)%nat /\ Forall (fun s => (length s < fuel)%nat) la /\ Forall (fun s => (length s < fuel)%nat) le /\
  array_size la + array_size le <= 4096.

(** The new space, and what [prepare] leaves in it. *)
Definition ready (v v' : V) (la le : list (list Z)) (r : prepared) : Prop :=
  p_memory r ∉ spaces v /\ spaces v' = {[p_memory r]} ∪ spaces v /\ p_argc r = Z.of_nat (length la) /\
  USER_STACK_TOP - 4096 <= p_args r <= p_envs r /\
  exists qa qe, array_at (user v' (p_memory r)) (p_args r) qa la /\ array_at (user v' (p_memory r)) (p_envs r) qe le.

Lemma strings_pushed memory args envs la le v : memory <> table args -> memory <> table envs -> fits la le -> stack_page (user v memory) top_page ->
  strings_at (user v (table args)) (address args) la -> strings_at (user v (table envs)) (address envs) le -> table args ∈ spaces v ->
  exists ae aa v1 v2, on_user (pushStringArray fuel (virtPtrFor USER_STACK_TOP memory) envs) v = Some ((ae, Z.of_nat (length le)), v1) /\
    on_user (pushStringArray fuel (virtPtrFor ae memory) args) v1 = Some ((aa, Z.of_nat (length la)), v2) /\
    keeps {[memory]} v v2 /\ USER_STACK_TOP - 4096 <= aa <= ae /\
    exists qa qe, array_at (user v2 memory) aa qa la /\ array_at (user v2 memory) ae qe le.
Proof.
  intros Hm Hme (Hla & Hle & Hfa & Hfe & Hsz) Hst Ha He Hin. assert (H1 : 0 <= array_size la /\ 0 <= array_size le).
  { unfold array_size. pose proof (strings_size_nonneg la). pose proof (strings_size_nonneg le). lia. }
  assert (HT : USER_STACK_TOP = 274877906944) by done. assert (HP : top_page = 67108863) by done.
  destruct (push_user_ok (virtPtrFor USER_STACK_TOP memory) envs le v top_page) as (ae & qe & v1 & E1 & (K1 & K2 & K3) & Eae & Hqe & Hbe & Hst1 & Ho1);
    cbn [table address] in *; try done; try congruence; try lia.
  destruct (push_user_ok (virtPtrFor ae memory) args la v1 top_page) as (aa & qa & v2 & E2 & (K4 & K5 & K6) & Eaa & Hqa & Hba & Hst2 & Ho2);
    cbn [table address] in *; try done; try congruence; try lia; [rewrite K3; [done|done|set_solver]|].
  exists ae, aa, v1, v2. split; [done|split; [done|split; [|split; [lia|]]]].
  - split; [by rewrite K4|split; [by rewrite K5|]]. intros t Ht Hn. rewrite K6, K3; [done|done|done|by rewrite K1|done].
  - exists qa, qe. split; [done|]. eapply array_at_ext; [|  |exact Hbe|exact Hqe]; [eapply only_between_range; [exact Ho2|by right]|].
    unfold array_size in *. pose proof (strings_size_nonneg le). lia.
Qed.

Lemma close_new f v v0 : f ∉ opened v0 -> opened v = {[f]} ∪ opened v0 ->
  exists v', vfsFileClose f v = Some (tt, v') /\ spaces v' = spaces v /\ (forall t, t ∈ spaces v -> user v' t = user v t) /\ opened v' = opened v0.
Proof.
  intros Hf Ho. destruct (close_ok f v) as (v' & E & H1 & H2 & H3); [set_solver|]. exists v'. split; [done|split; [done|split; [done|]]].
  rewrite H3, Ho. set_solver.
Qed.

Lemma prepare_ok x path args envs v la le old : table args = old -> table envs = old -> old ∈ spaces v -> fits la le ->
  strings_at (user v old) (address args) la -> strings_at (user v old) (address envs) le ->
  exists r v', prepare x path args envs v = Some (r, v') /\ opened v' = opened v /\ (forall t, t ∈ spaces v -> user v' t = user v t) /\
    match r with Bad _ => spaces v' = spaces v | Good r => ready v v' la le r end.
Proof.
  intros Ta Te Hold Hfit Ha He. unfold prepare.
  destruct (open_ok x path (Z.lor VFS_OPEN_EXECUTE VFS_OPEN_REGULAR) v) as ([f|k] & v1 & E1 & S1 & U1 & O1); cycle 1.
  { exists (Bad k), v1. by rewrite (bind_bad _ _ _ _ _ E1). }
  destruct O1 as [Hf O1]. rewrite (bind_good _ _ _ _ _ E1).
  destruct (stat_ok x f v1) as ([sta|k] & v2 & E2 & S2 & O2 & U2); [set_solver| |].
  2:{ destruct (close_new f v2 v Hf) as (v3 & E3 & S3 & U3 & O3); [by rewrite O2|].
      exists (Bad k), v3. rewrite (bind_bad _ _ _ _ _ (checked_bad _ _ _ _ _ _ E2 E3)). split; [done|split; [done|]].
      split; [intros t Ht; rewrite U3, U2, U1; try done; set_solver|by rewrite S3, S2]. }
  rewrite (bind_good _ _ _ _ _ (checked_good _ _ _ _ _ E2)).
  destruct (create_ok v2) as (m & v3 & E3 & Hm & S3 & O3 & U3). rewrite (bind_good _ _ _ _ _ (act_run _ _ _ _ E3)).
  assert (Hold3 : forall t, t ∈ spaces v -> t ∈ spaces v3 /\ t <> m /\ user v3 t = user v t).
  { intros t Ht. assert (t ∈ spaces v2) by (by rewrite S2, S1). split; [set_solver|split; [set_solver|]]. rewrite U3, U2, U1; try done; set_solver. }
  destruct (load_ok m f v3) as ([ent|k] & v4 & E4 & (S4 & O4 & U4) & Htop); [set_solver|set_solver| |].
  2:{ destruct (free_ok m v4) as (v5 & E5 & S5 & O5 & U5); [set_solver|].
      destruct (close_new f v5 v Hf) as (v6 & E6 & S6 & U6 & O6); [by rewrite O5, O4, O3, O2|].
      exists (Bad k), v6. erewrite bind_bad; [|eapply checked_bad; [exact E4|erewrite bind_some by exact E5; exact E6]].
      split; [done|split; [done|]]. assert (Hs : spaces v5 = spaces v) by (rewrite S5, S4, S3, S2, S1 in *; set_solver).
      split; [|by rewrite S6]. intros t Ht. destruct (Hold3 t Ht) as (H1 & H2 & H3). rewrite U6, U5, U4 by set_solver. done. }
  rewrite (bind_good _ _ _ _ _ (checked_good _ _ _ _ _ E4)).
  destruct (close_new f v4 v Hf) as (v5 & E5 & S5 & U5 & O5); [by rewrite O4, O3, O2|]. rewrite (bind_good _ _ _ _ _ (act_run _ _ _ _ E5)).
  unfold findStartBrk at 1. erewrite bind_good by (unfold act; reflexivity). set (start_brk := _ +% PAGE_SIZE).
  destruct (stack_ok m (USER_STACK_TOP -% USER_STACK_SIZE) USER_STACK_SIZE v5) as (ok & v6 & E6 & (S6 & O6 & U6) & Hst); [set_solver|].
  rewrite (bind_good _ _ _ _ _ (act_run _ _ _ _ E6)).
  assert (Hold6 : forall t, t ∈ spaces v -> t ∈ spaces v6 /\ t <> m /\ user v6 t = user v t).
  { intros t Ht. destruct (Hold3 t Ht) as (H1 & H2 & H3). split; [by rewrite S6, S5, S4|split; [done|]]. rewrite U6, U5, U4 by set_solver. done. }
  assert (Hs6 : spaces v6 = {[m]} ∪ spaces v) by (by rewrite S6, S5, S4, S3, S2, S1).
  assert (Hmv : m ∉ spaces v) by (by rewrite <- S1, <- S2).
  destruct ok; cbn [negb]; cycle 1.
  { destruct (free_ok m v6) as (v7 & E7 & S7 & O7 & U7); [set_solver|]. exists (Bad ENOMEM), v7.
    rewrite (bind_good _ _ _ _ _ (act_run _ _ _ _ E7)). split; [done|]. split; [by rewrite O7, O6, O5|].
    assert (Hs : spaces v7 = spaces v) by (rewrite S7, Hs6; set_solver). split; [|done]. intros t Ht. rewrite U7 by (by rewrite Hs). by apply Hold6. }
  destruct (Hold6 old Hold) as (Hin & Hne & Hu).
  assert (Htop6 : stack_page (user v6 m) top_page).
  { apply Hst; [done|by vm_compute|done|]. rewrite U5 by set_solver. by apply (Htop ent). }
  destruct (strings_pushed m args envs la le v6) as (ae & aa & v7 & v8 & E7 & E8 & (S8 & O8 & U8) & Hlo & qa & qe & Hqa & Hqe);
    rewrite ?Ta, ?Te, ?Hu; try done.
  rewrite (bind_good _ _ _ _ _ (act_run _ _ _ _ E7)). cbn [fst]. rewrite (bind_good _ _ _ _ _ (act_run _ _ _ _ E8)). cbn [fst snd].
  exists (Good (mkPrepared sta m ent start_brk ae aa (Z.of_nat (length la)))), v8. split; [done|]. split; [by rewrite O8, O6, O5|]. split.
  - intros t Ht. destruct (Hold6 t Ht) as (H1 & H2 & H3). rewrite U8; [done|done|set_solver].
  - split; [done|split; [by rewrite S8|split; [done|split; [done|]]]]. by exists qa, qe.
Qed.

Lemma findStartBrk_above m v : Forall (fun a => 0 <= a < 2 ^ 64 - PAGE_SIZE) (leaf_pages m v) ->
  exists brk, findStartBrk m v = Some (brk, v) /\ Forall (fun a => a + PAGE_SIZE <= brk) (leaf_pages m v).
Proof.
  intros Hl. eexists. split; [reflexivity|]. set (f := fun last a => allPagesBrkCallback a last).
  assert (Hmax : forall l b, Forall (fun a => 0 <= a < 2 ^ 64 - PAGE_SIZE) l -> 0 <= b < 2 ^ 64 - PAGE_SIZE ->
    b <= foldl f b l < 2 ^ 64 - PAGE_SIZE /\ Forall (fun a => a <= foldl f b l) l).
  { clear Hl. intros l. induction l as [|a l IH]; intros b Hl Hb; cbn [foldl]; [split; [lia|constructor]|]. apply Forall_cons_1 in Hl as [Ha Hl].
    assert (Hf : f b a = Z.max a b) by (unfold f, allPagesBrkCallback; rewrite Z.gtb_ltb; destruct (Z.ltb_spec b a); lia).
    destruct (IH (f b a) Hl ltac:(lia)) as [H1 H2]. split; [lia|]. constructor; [lia|done]. }
  destruct (Hmax (leaf_pages m v) 0 Hl) as [H1 H2]; [unfold PAGE_SIZE in *; lia|]. rewrite (wrap_small 64) by (unfold PAGE_SIZE in *; lia).
  eapply list.Forall_impl; [exact H2|]. cbn. lia.
Qed.

(** *** The new process *)

Definition new_user (r : prepared) (u : ProcessUser) : ProcessUser :=
  let sta := p_stat r in
  let u := if negb (Z.land (st_mode sta) VFS_MODE_SETUID =? 0) then set_uid (st_uid sta) u else u in
  if negb (Z.land (st_mode sta) VFS_MODE_SETGID =? 0) then set_gid (st_gid sta) u else u.

(** The process with the pending signals [ps]. *)
Definition new_process (r : prepared) (x : Process.Process) (ps : Signals.proc) : Process.Process :=
  mkProcess (pid x) (sid x) (pgid x) (Process.status x) (tasks x) (times x) (new_user r (Process.user x)) (tree x)
    (mkMemory (p_memory r) (p_start_brk r) (p_start_brk r)) (umask x) (cwd x) ps.

Definition new_frame (r : prepared) (x : Process.Process) (f : TrapFrame) : TrapFrame :=
  mkFrame 0 (<[11%nat := p_envs r]> (<[10%nat := p_args r]> (<[9%nat := p_argc r]> (<[2%nat := 0]> (<[1%nat := p_args r]> (<[0%nat := 0]> (regs f)))))))
    (fregs f) (p_entry r) (satpForMemory (pid x) (p_memory r)).

(** The state a process is in that calls [execve]: its task, its other tasks and
    its signals. *)
Record caller (s : st) (t p : Z) (x : Process.Process) (f : TrapFrame) (l : list Z) : Prop := {
  c_process : p <> 0 /\ procs s !! p = Some x;
  c_task : exists y, Schedule.tasks (sched s) !! t = Some y /\ Schedule.process y = p;
  c_frame : frames (world s) !! t = Some f;
  c_space : mem_space (Process.memory x) ∈ spaces (kernel (world s));
  c_list : task_list (proc_tasks s) (tasks x) l /\ NoDup l;
  c_waits : exists wl, Schedule.waits (sched s) wl /\
    Forall (fun t => exists T, Schedule.tasks (sched s) !! t = Some T /\ (Schedule.state T = Schedule.WAITING -> t ∈ wl)) l;
  c_signals : exists q, Signals.pending (psignals x) q;
}.

Lemma process_of_run (s : st) t y : Schedule.tasks (sched s) !! t = Some y -> process_of t s = Some (Schedule.process y, s).
Proof.
  intros E. unfold process_of, get_sched_task. erewrite bind_some; [reflexivity|]. unfold on_sched, Schedule.get_task. rewrite E. by destruct s.
Qed.

Lemma modify_run (s : st) p x g : procs s !! p = Some x -> Process.modify p g s = Some (tt, with_procs s (<[p := g x]> (procs s))).
Proof. intros E. unfold Process.modify. erewrite bind_some by (unfold get_proc; rewrite E; reflexivity). done. Qed.

Lemma modify_frame_run t g w f : frames w !! t = Some f -> modify_frame t g w = Some (tt, mkKState (<[t := g f]> (frames w)) (kernel w)).
Proof. intros E. unfold modify_frame. erewrite bind_some by (unfold get_frame; rewrite E; reflexivity). done. Qed.

Lemma on_world_run {A} (c : M kstate A) (s : st) a w : c (world s) = Some (a, w) -> on_world c s = Some (a, with_world s w).
Proof. intros E. unfold on_world. by rewrite E. Qed.

Lemma on_kernel_run {A} (c : M V A) w a v : c (kernel w) = Some (a, v) -> on_kernel c w = Some (a, mkKState (frames w) v).
Proof. intros E. unfold on_kernel. by rewrite E. Qed.

Lemma on_signals_run {A} q (c : M Signals.proc A) (s : st) x a ps : procs s !! q = Some x -> c (psignals x) = Some (a, ps) ->
  on_signals q c s = Some (a, with_procs s (<[q := set_psignals x ps]> (procs s))).
Proof. intros E1 E2. unfold on_signals. rewrite E1. cbn [mbind option_bind]. by rewrite E2. Qed.

Lemma when_modify (b : bool) (s : st) p x g : procs s !! p = Some x ->
  when b (Process.modify p g) s = Some (tt, with_procs s (<[p := if b then g x else x]> (procs s))).
Proof. intros E. destruct b; cbn [when]; [by apply modify_run|]. rewrite insert_id by done. by destruct s. Qed.

Lemma process_kept l keep q q' t y : only_terminated l keep q q' -> Schedule.tasks q !! t = Some y ->
  exists y', Schedule.tasks q' !! t = Some y' /\ Schedule.process y' = Schedule.process y.
Proof.
  intros (_ & _ & Hk) Hy. destruct (Hk t y Hy) as (y' & Hy' & _ & E). exists y'. split; [done|].
  by apply (f_equal Schedule.process) in E.
Qed.

Lemma replace_ok (s : st) t p x f l r : caller s t p x f l -> let v := kernel (world s) in
  exists s' ps es, replace_process t r s = Some (tt, s') /\
    procs s' = <[p := new_process r x ps]> (procs s) /\ ps = Signals.mkProc es (cleared (Signals.sigs (psignals x))) (Signals.frame (psignals x)) (Signals.stack (psignals x)) /\
    frames (world s') = <[t := new_frame r x f]> (frames (world s)) /\ only_terminated l t (sched s) (sched s') /\
    (proc_tasks s', global_first s', next_pid s', finalizers s') = (proc_tasks s, global_first s, next_pid s, finalizers s) /\
    spaces (kernel (world s')) = spaces v ∖ {[mem_space (Process.memory x)]} /\ opened (kernel (world s')) = opened v /\
    forall t, t ∈ spaces (kernel (world s')) -> user (kernel (world s')) t = user v t.
Proof.
  intros [[Hp Hx] (y & Hy & Hyp) Hf Hsp [Hl Hnd] (wl & Hw & Hall) (q & Hq)] v. unfold replace_process.
  rewrite (bind_some _ _ _ _ _ (process_of_run s t y Hy)), Hyp, (proj2 (Z.eqb_neq p 0)) by done.
  destruct (terminate_ok s p x t l wl Hx Hl Hnd Hw Hall) as (q1 & E1 & Ho1). rewrite (bind_some _ _ _ _ _ E1). set (s1 := with_sched s q1).
  destruct (process_kept _ _ _ _ _ _ Ho1 Hy) as (y1 & Hy1 & Hyp1).
  rewrite (bind_some _ _ _ _ _ (process_of_run s1 t y1 Hy1)), Hyp1, Hyp.
  erewrite bind_some by (unfold get_proc; cbn [s1 with_sched procs]; rewrite Hx; reflexivity).
  destruct (free_ok _ _ Hsp) as (v2 & E2 & S2 & O2 & U2).
  rewrite (bind_some _ _ _ _ _ (on_world_run _ s1 _ _ (on_kernel_run _ (world s) _ _ E2))). set (s2 := with_world s1 _).
  rewrite (bind_some _ _ _ _ _ (when_modify _ s2 p x _ Hx)). set (x3 := if negb _ then _ else _). set (s3 := with_procs s2 _).
  erewrite (bind_some _ _ s3) by (apply when_modify; unfold s3; cbn [procs with_procs]; apply lookup_insert_eq).
  set (x4 := if negb _ then _ else _). set (s4 := with_procs s3 _).
  erewrite (bind_some _ _ s4) by (apply modify_run; unfold s4; cbn [procs with_procs]; apply lookup_insert_eq).
  set (x5 := set_memory _ _). set (s5 := with_procs s4 _).
  erewrite (bind_some _ _ s5) by (unfold get_proc, s5; cbn [procs with_procs]; rewrite lookup_insert_eq; reflexivity).
  erewrite (bind_some _ _ s5) by (apply on_world_run, modify_frame_run; exact Hf). set (s6 := with_world s5 _).
  erewrite (bind_some _ _ s6) by (apply on_world_run, modify_frame_run; unfold s6; cbn [world with_world frames]; apply lookup_insert_eq). set (s7 := with_world s6 _).
  erewrite (bind_some _ _ s7) by (apply on_world_run, modify_frame_run; unfold s7; cbn [world with_world frames]; apply lookup_insert_eq). set (s8 := with_world s7 _).
  erewrite (bind_some _ _ s8) by (apply on_world_run, modify_frame_run; unfold s8; cbn [world with_world frames]; apply lookup_insert_eq). set (s9 := with_world s8 _).
  destruct (exec_ok p v2) as (v3 & E3 & S3 & O3 & U3).
  erewrite (bind_some _ _ s9) by (apply on_world_run, on_kernel_run; exact E3). set (s10 := with_world s9 _).
  destruct (clearSignals_ok (psignals x) q Hq) as (es & E4). set (ps := Signals.mkProc _ _ _ _) in E4.
  assert (Hx5 : procs s10 !! p = Some x5) by (unfold s10, s9, s8, s7, s6, s5; cbn [procs with_procs with_world]; apply lookup_insert_eq).
  assert (Eps : psignals x5 = psignals x) by (unfold x5; by repeat (destruct (negb _))).
  rewrite <- Eps in E4. rewrite (on_signals_run _ _ _ _ _ _ Hx5 E4).
  eexists _, ps, es. split; [reflexivity|split_and!; try done].
  - cbn [procs with_procs]. change (procs s10) with (<[p := x5]> (procs s4)). change (procs s4) with (<[p := x4]> (procs s3)).
    change (procs s3) with (<[p := x3]> (procs s)). rewrite !insert_insert_eq. f_equal.
    unfold x5, x4, x3, new_process, new_user. by repeat (destruct (negb _)).
  - change (frames (world (with_procs s10 _))) with (frames (world s9)). unfold s9, s8, s7, s6. cbn [with_world world frames].
    rewrite !insert_insert_eq. f_equal. unfold new_frame. replace (pid x5) with (pid x) by (unfold x5, x4, x3; by repeat (destruct (negb _))). done.
  - unfold s10. cbn [with_procs with_world world kernel]. by rewrite S3, S2.
  - unfold s10. cbn [with_procs with_world world kernel]. by rewrite O3, O2.
  - intros u. unfold s10. cbn [with_procs with_world world kernel]. rewrite S3. intros Hu. rewrite U3; [by apply U2|done|set_solver].
Qed.
(** *** The call *)

Lemma on_user_read {A} (c : M memory A) v a : c (user v) = Some (a, user v) -> on_user c v = Some (a, v).
Proof. intros E. unfold on_user. rewrite E. cbn [mbind option_bind]. by rewrite user_same. Qed.

Lemma with_world_same (s : st) : with_world s (mkKState (frames (world s)) (kernel (world s))) = s.
Proof. destruct s as [? ? ? ? ? ? w]. by destruct w. Qed.

Lemma virtPtrForTask_run (s : st) t p x f l a : caller s t p x f l -> virtPtrForTask a t s = Some (virtPtrFor a (mem_space (Process.memory x)), s).
Proof.
  intros [[Hp Hx] (y & Hy & Hyp) _ _ _ _ _]. unfold virtPtrForTask. rewrite (bind_some _ _ _ _ _ (process_of_run s t y Hy)), Hyp.
  rewrite (proj2 (Z.eqb_neq p 0)) by done. by erewrite bind_some by (unfold get_proc; rewrite Hx; reflexivity).
Qed.

Lemma copyString_run (s : st) t p x f l a path : caller s t p x f l ->
  string_at (user (kernel (world s)) (mem_space (Process.memory x))) a path -> (length path < fuel)%nat ->
  copyStringFromSyscallArgs t a s = Some (if kalloc (Z.of_nat (length path) + 1) then Some path else None, s).
Proof.
  intros Hc Hs Hf. unfold copyStringFromSyscallArgs. rewrite (bind_some _ _ _ _ _ (virtPtrForTask_run s t p x f l a Hc)).
  set (str := virtPtrFor a _). set (v := kernel (world s)) in *.
  assert (E : forall A (c : M memory A) r, c (user v) = Some (r, user v) -> on_world (on_kernel (on_user c)) s = Some (r, s)).
  { intros A c r E. erewrite on_world_run by (apply on_kernel_run, on_user_read, E). by rewrite with_world_same. }
  rewrite (bind_some _ _ _ _ _ (E _ _ _ (strlenVirtPtr_run fuel str path (user v) Hs Hf))).
  destruct Hs as (_ & Hh & Hr & Ha & Hend). rewrite (wrap_small 64) by lia. destruct (kalloc _); [|done].
  erewrite bind_some; [reflexivity|]. apply E. unfold read. apply holds_app in Hh as [Hh _]. subst str. cbn [table address].
  rewrite pages_all by (intros y Hy; apply Hr; lia). by rewrite (proj1 (holds_bytes _ _ _) Hh).
Qed.

(** A call that fails: only the result is written, and what was made for the
    new program is given back. *)
Definition failed (s : st) (t k : Z) (f : TrapFrame) (s' : st) : Prop := exists v',
  s' = with_world s (mkKState (<[t := set_reg Signals.REG_ARGUMENT_0 (u64 (- k)) f]> (frames (world s))) v') /\
  keeps ∅ (kernel (world s)) v'.

(** A call that gives the process [p] the program [r]. *)
Record replaced (s : st) (t p : Z) (x : Process.Process) (f : TrapFrame) (l : list Z) (la le : list (list Z)) (r : prepared) (s' : st) : Prop := {
  r_process : exists es, procs s' = <[p := new_process r x
    (Signals.mkProc es (cleared (Signals.sigs (psignals x))) (Signals.frame (psignals x)) (Signals.stack (psignals x)))]> (procs s);
  r_frame : frames (world s') = <[t := new_frame r x f]> (frames (world s));
  r_tasks : only_terminated l t (sched s) (sched s');
  r_others : (proc_tasks s', global_first s', next_pid s', finalizers s') = (proc_tasks s, global_first s, next_pid s, finalizers s);
  r_fresh : p_memory r ∉ spaces (kernel (world s));
  r_spaces : spaces (kernel (world s')) = {[p_memory r]} ∪ spaces (kernel (world s)) ∖ {[mem_space (Process.memory x)]};
  r_files : opened (kernel (world s')) = opened (kernel (world s));
  r_memory : forall m, m ∈ spaces (kernel (world s')) -> m <> p_memory r -> user (kernel (world s')) m = user (kernel (world s)) m;
  r_argc : p_argc r = Z.of_nat (length la);
  r_stack : USER_STACK_TOP - 4096 <= p_args r <= p_envs r;
  r_strings : exists qa qe, array_at (user (kernel (world s')) (p_memory r)) (p_args r) qa la /\
    array_at (user (kernel (world s')) (p_memory r)) (p_envs r) qe le;
}.

Lemma loadProgramInto_ok (s : st) t p x f l path a b la le : caller s t p x f l -> let old := mem_space (Process.memory x) in
  let v := kernel (world s) in fits la le -> strings_at (user v old) a la -> strings_at (user v old) b le ->
  exists r s', loadProgramInto t path (virtPtrFor a old) (virtPtrFor b old) s = Some (r, s') /\
    match prepare (Some x) path (virtPtrFor a old) (virtPtrFor b old) v with
    | Some (Good pr, _) => r = Good tt /\ replaced s t p x f l la le pr s'
    | Some (Bad k, v') => r = Bad k /\ s' = with_world s (mkKState (frames (world s)) v') /\ keeps ∅ v v'
    | None => False
    end.
Proof.
  intros Hc old v Hfit Ha Hb. pose proof Hc as [[Hp Hx] (y & Hy & Hyp) Hf Hsp Hl Hw Hq].
  destruct (prepare_ok (Some x) path (virtPtrFor a old) (virtPtrFor b old) v la le old) as (r & v' & E & Ho & Hu & Hr); try done.
  unfold loadProgramInto. rewrite (process_of_run s t y Hy), Hyp. cbn [mbind option_bind]. rewrite (proj2 (Z.eqb_neq p 0)) by done.
  erewrite (bind_some (get_proc p)) by (unfold get_proc; rewrite Hx; reflexivity). cbn [mret M_ret mbind option_bind]. fold v. rewrite E. cbn [mbind option_bind].
  destruct r as [pr|k]; cycle 1.
  { exists (Bad k). eexists. split; [reflexivity|]. split; [done|split; [done|]]. split; [done|split; [done|]]. intros m Hm _. by apply Hu. }
  destruct Hr as (Hnew & Hs & Hargc & Hst & qa & qe & Hqa & Hqe). set (s1 := with_world s _).
  assert (Hne : p_memory pr <> old) by (intros Heq; apply Hnew; by rewrite Heq).
  assert (Hc1 : caller s1 t p x f l) by (constructor; try done; [by exists y|]; cbn [s1 with_world world kernel]; rewrite Hs; set_solver).
  destruct (replace_ok s1 t p x f l pr Hc1) as (s' & ps & es & E1 & R1 & -> & R2 & R3 & R4 & R5 & R6 & R7). cbn [s1 with_world world kernel] in R5, R6, R7. fold old in R5.
  exists (Good tt), s'. split; [by rewrite (act_run _ _ _ _ E1)|]. split; [done|]. constructor; try done.
  - by exists es.
  - rewrite R5, Hs. fold old. set_solver.
  - by rewrite R6, Ho.
  - intros m Hm Hmn. rewrite R7 by done. apply Hu. rewrite R5, Hs in Hm. fold v. set_solver.
  - exists qa, qe. rewrite R7; [done|]. rewrite R5, Hs. set_solver.
Qed.

(** C24: [execve] by a task of a process, with strings that fit into the highest page of
    the new stack, when the new memory space can be created and no segment of the
    program lies in its stack, returns without a failed assertion.  When the program cannot be loaded, the call returns the error and
    changes nothing else: the process, its tasks and signals are as before, and the
    new memory space and the file are given back.  Otherwise the new space takes the
    place of the old one, which is freed; the other tasks of the process are ended,
    its signals cleared and its user set by the file; the task starts at the entry
    point with the number of arguments, their array and that of the environment in
    its registers, and both arrays hold the strings of the caller. *)
Theorem execveSyscall_replaces (s : st) t p x f l a0 a1 a2 path la le : caller s t p x f l -> hart f <> 0 ->
  regs f !! 10%nat = Some a0 -> regs f !! 11%nat = Some a1 -> regs f !! 12%nat = Some a2 ->
  let old := mem_space (Process.memory x) in let v := kernel (world s) in
  string_at (user v old) a0 path -> (length path < fuel)%nat -> strings_at (user v old) a1 la -> strings_at (user v old) a2 le -> fits la le ->
  exists s', execveSyscall t s = Some (tt, s') /\
    if kalloc (Z.of_nat (length path) + 1) then
      match prepare (Some x) path (virtPtrFor a1 old) (virtPtrFor a2 old) v with
      | Some (Good r, _) => replaced s t p x f l la le r s'
      | Some (Bad k, _) => failed s t k f s'
      | None => False
      end
    else failed s t EINVAL f s'.
Proof.
  intros Hc Hh H0 H1 H2 old v Hpath Hfuel Ha Hb Hfit. pose proof (c_frame _ _ _ _ _ _ Hc) as Hf.
  assert (Harg : forall i a, regs f !! (10 + i)%nat = Some a -> syscall_arg t i s = Some (a, s)).
  { intros i a Hi. unfold syscall_arg. rewrite Hf. cbn [mbind option_bind]. change (Signals.REG_ARGUMENT_1 + i)%nat with (10 + i)%nat. by rewrite Hi. }
  unfold execveSyscall. erewrite bind_some by (apply on_world_run; unfold get_frame; rewrite Hf; reflexivity).
  replace (with_world s (world s)) with s by by destruct s. rewrite bind_assert by (by apply negb_true_iff, Z.eqb_neq).
  rewrite (bind_some _ _ _ _ _ (Harg 0%nat a0 H0)), (bind_some _ _ _ _ _ (copyString_run s t p x f l a0 path Hc Hpath Hfuel)).
  destruct (kalloc _); cycle 1.
  { eexists. split; [unfold SYSCALL_RETURN; apply on_world_run, modify_frame_run; exact Hf|]. by eexists. }
  rewrite (bind_some _ _ _ _ _ (Harg 1%nat a1 H1)), (bind_some _ _ _ _ _ (virtPtrForTask_run s t p x f l a1 Hc)).
  rewrite (bind_some _ _ _ _ _ (Harg 2%nat a2 H2)), (bind_some _ _ _ _ _ (virtPtrForTask_run s t p x f l a2 Hc)).
  destruct (loadProgramInto_ok s t p x f l path a1 a2 la le Hc Hfit Ha Hb) as (r & s' & E & Hr). fold old in E, Hr. fold v in Hr.
  rewrite (bind_some _ _ _ _ _ E). destruct (prepare _ _ _ _ _) as [[[pr|k] v']|]; [| |done].
  - destruct Hr as [-> Hr]. by exists s'.
  - destruct Hr as (-> & -> & Hk). eexists. split; [unfold SYSCALL_RETURN; apply on_world_run, modify_frame_run; exact Hf|].
    exists v'. by split.
Qed.

End Kernel.

(** ** A concrete run

    One process with a task that waits for its call; every operation succeeds. *)
Section Example.

Record demo := mkDemo { d_spaces : gset Z; d_opened : gset Z; d_user : Loader.memory }.

Definition demo_open (x : option Process.Process) (path : list Z) (flags : Z) : R demo Z := fun v =>
  let f := fresh (d_opened v) in Some (Good f, mkDemo (d_spaces v) ({[f]} ∪ d_opened v) (d_user v)).
Definition demo_stat (x : option Process.Process) (f : Z) : R demo VfsStat := fun v => Some (Good (mkStat VFS_MODE_SETUID 7 8), v).
Definition demo_close (f : Z) : M demo unit := fun v => Some (tt, mkDemo (d_spaces v) (d_opened v ∖ {[f]}) (d_user v)).
Definition demo_create : M demo Z := fun v =>
  let m := fresh (d_spaces v) in Some (m, mkDemo ({[m]} ∪ d_spaces v) (d_opened v) (d_user v)).
Definition demo_free (m : Z) : M demo unit := fun v => Some (tt, mkDemo (d_spaces v ∖ {[m]}) (d_opened v) (d_user v)).
Definition demo_load (m f : Z) : R demo Z := fun v =>
  Some (Good 0x10000, mkDemo (d_spaces v) (d_opened v) (update (d_user v) m (mkSpace (fun _ => 0) (fun _ => Unmapped)))).
Definition demo_stack (m a fs ms fl : Z) : M demo bool := fun v =>
  Some (true, mkDemo (d_spaces v) (d_opened v) (update (d_user v) m empty)).
Definition demo_with (m : Loader.memory) (v : demo) : demo := mkDemo (d_spaces v) (d_opened v) m.
Definition demo_exec (p : Z) : M demo unit := fun v => Some (tt, v).

#[local] Instance demo_laws : KernelLaws demo_open demo_stat demo_close demo_create demo_free demo_load demo_stack d_user demo_with demo_exec d_spaces d_opened.
Proof.
  constructor; intros.
  - do 2 eexists. split; [reflexivity|]. split; [done|]. split; [done|]. split; [apply is_fresh|done].
  - do 2 eexists. split; [reflexivity|]. done.
  - eexists. split; [reflexivity|]. done.
  - do 2 eexists. split; [reflexivity|]. split; [apply is_fresh|done].
  - eexists. split; [reflexivity|]. done.
  - do 2 eexists. split; [reflexivity|]. split; [|intros e _; cbn [d_user]; by rewrite update_same].
    split; [done|split; [done|]]. intros t _ Ht. cbn [d_user]. apply update_other. set_solver.
  - do 2 eexists. split; [reflexivity|]. split.
    + split; [done|split; [done|]]. intros t _ Ht. cbn [d_user]. apply update_other. set_solver.
    + intros _ q H1 H2 _. cbn [d_user]. rewrite update_same. by right.
  - eexists. split; [reflexivity|]. done.
  - done.
  - by destruct v.
Qed.

Definition demo_process : Process.Process :=
  mkProcess 5 5 5 0 0x100 zero_times (mkUser 3 3 3 3 3 3) (mkTree 0 0 0 0 0 0) (mkMemory 1 0 0) 0 [47] (psignals zero_process).
Definition demo_frame : TrapFrame := mkFrame 1 (<[10%nat := 200]> (<[11%nat := 104]> (replicate 31 0))) [] 0 0.
Definition demo_sched : Schedule.sched :=
  Schedule.mkSched {[0x100 := Schedule.mkTask 1 1 20 20 0 Schedule.WAITING 0 0 0 0]} ∅ 0x100 0.
Definition demo_state : @Process.state (@kstate demo) :=
  mkState {[1 := demo_process]} {[0x100 := mkProcTask 0 zero_times]} 1 6 [] demo_sched
    (mkKState {[0x100 := demo_frame]} (mkDemo {[1]} ∅ ex_memory)).

Lemma demo_caller : caller d_spaces demo_state 0x100 1 demo_process demo_frame [0x100].
Proof.
  constructor.
  - done.
  - by eexists.
  - done.
  - cbn. set_solver.
  - split; [|apply list.NoDup_singleton]. split; [done|]. split; [done|]. by eexists.
  - exists [0x100]. split.
    + split; [|apply list.NoDup_singleton]. cbn. split; [done|]. split; [done|]. by eexists.
    + constructor; [|constructor]. eexists. split; [reflexivity|]. intros _. by left.
  - exists []. split; [done|]. apply base.NoDup_nil_2.
Qed.

Lemma execveSyscall_replaces_witness : exists s' r,
  execveSyscall demo_open demo_stat demo_close demo_create demo_free (fun _ _ => [0x10000]) demo_load demo_stack d_user demo_with 10
    (fun _ => 0) (fun _ => mret 0) (fun _ _ => mret tt) demo_exec 0 (fun _ => true) 0x100 demo_state = Some (tt, s') /\
  replaced d_user d_spaces d_opened demo_state 0x100 1 demo_process demo_frame [0x100] ex_strings [] r s' /\ p_start_brk r = 0x11000.
Proof.
  destruct (execveSyscall_replaces demo_open demo_stat demo_close demo_create demo_free (fun _ _ => [0x10000]) demo_load demo_stack d_user demo_with 10
    (fun _ => 0) (fun _ => mret 0) (fun _ _ => mret tt) demo_exec 0 (fun _ => true) d_spaces d_opened
    demo_state 0x100 1 demo_process demo_frame [0x100] 200 104 0 [104; 105] ex_strings []) as (s' & E & H).
  - exact demo_caller.
  - done.
  - reflexivity.
  - reflexivity.
  - reflexivity.
  - split; [repeat constructor; lia|]. split; [apply holds_bytes; by vm_compute|done].
  - cbn. lia.
  - exact ex_strings_at.
  - by left.
  - split; [cbn; lia|]. split; [cbn; lia|]. split; [repeat constructor; cbn; lia|]. split; [constructor|done].
  - cbv beta iota in H. match type of H with match ?p with _ => _ end =>
      assert (Eb : match p with Some (Good r, _) => p_start_brk r =? 0x11000 | _ => false end = true) by (vm_compute; reflexivity);
      destruct p as [[[r|k] v']|] end; [|done..].
    exists s', r. split; [exact E|]. split; [exact H|]. by apply Z.eqb_eq.
Defined.

End Example.

End Exec.
