(* ===== verification/Sort.v ===== *)
(** * Sort: the program [sort], [userspace/src/sort/sort.c]

    A string is the list of its characters without the NUL; a pointer into one
    is the rest of it, and what lies behind the NUL cannot be read.  [qsort] and
    [atof] belong to the C library and are parameters, as is the table of random
    numbers.  A file is the list of its bytes.  What the options say has been
    parsed into [Arguments]; the messages on errors are left out. *)
From stdpp Require Import sorting.
From S2P Require Import Prelude CString.
Import Str.

Module Sort.

(** ** Definitions *)

Abbreviation str := (list Z).

Record Arguments := mkArguments {
  ignore_blanks : bool; dictionary : bool; ignore_case : bool; general_numeric : bool;
  ignore_nonprint : bool; human_numeric : bool; numeric : bool; random : bool; reverse : bool;
  zero : bool; unique : bool; key : option str }.

(** A call that may end the program: [inr code] is [exit(code)], [None] is
    undefined behaviour or a loop that does not end. *)
Definition C (A : Type) : Type := option (A + Z).

#[global] Instance C_ret : MRet C := fun A a => Some (inl a).

#[global] Instance C_bind : MBind C := fun A B k c =>
  match c with
  | Some (inl a) => k a
  | Some (inr code) => Some (inr code)
  | None => None
  end.

Definition lift {A} (o : option A) : C A := a ← o; Some (inl a).
Definition exit {A} (code : Z) : C A := Some (inr code).

(** *** Reading lines *)

Record FILE := mkFile { rest : str; eof : bool }.

(** [fgets]: at most [n] characters and not beyond a newline; the last part of
    the result is whether the end of the file was met. *)
Fixpoint take_line (n : nat) (s : str) : str * str * bool :=
  match n, s with
  | O, _ => ([], s, false)
  | _, [] => ([], [], true)
  | S n, c :: s =>
      if c =? 10 then ([c], s, false)
      else let '(l, s, e) := take_line n s in (c :: l, s, e)
  end.

(** [NULL], which is [None], when nothing is left. *)
Definition fgets (n : nat) (f : FILE) : option str * FILE :=
  let '(l, s, e) := take_line (n - 1) (rest f) in
  (match l with [] => None | _ => Some l end, mkFile s (eof f || e)).

(** The string in a buffer that holds [l] and a NUL. *)
Fixpoint c_string (l : str) : str :=
  match l with
  | [] => []
  | c :: l => if c =? 0 then [] else c :: c_string l
  end.

(** The loop of [readLineFromFile].  [length] stays 0, so that every round
    reads to the start of the buffer. *)
Fixpoint line_loop (fuel : nat) (f : FILE) (buffer : option str) : option (option str * FILE) :=
  match fuel with
  | O => None
  | S fuel =>
      if eof f then Some (buffer, f)
      else
        let '(l, f) := fgets 1024 f in
        let buffer := match l with Some l => c_string l | None => [] end in
        match List.rev buffer with
        | c :: before => if c =? 10 then Some (Some (List.rev before), f) else line_loop fuel f (Some buffer)
        | [] => line_loop fuel f (Some buffer)
        end
  end.

Definition readLineFromFile (f : FILE) : option (option str * FILE) :=
  '(buffer, f) ← line_loop (S (S (length (rest f)))) f None;
  Some (if eof f then None else buffer, f).

Fixpoint file_loop (fuel : nat) (f : FILE) (lines : list str) : option (list str) :=
  match fuel with
  | O => None
  | S fuel =>
      if eof f then Some lines
      else
        '(line, f) ← readLineFromFile f;
        file_loop fuel f (lines ++ match line with Some line => [line] | None => [] end)
  end.

(** [readFile] on an open file. *)
Definition readFile (content : str) (lines : list str) : option (list str) :=
  file_loop (S (S (length content))) (mkFile content false) lines.

(** *** Comparing strings *)

Definition isblank (c : Z) : bool := (c =? 32) || (c =? 9).
Definition isdigit (c : Z) : bool := (48 <=? c) && (c <=? 57).
Definition isalnum (c : Z) : bool := isdigit c || ((65 <=? c) && (c <=? 90)) || ((97 <=? c) && (c <=? 122)).
Definition isprint (c : Z) : bool := (32 <=? c) && (c <=? 126).
Definition isspace (c : Z) : bool := (c =? 32) || ((9 <=? c) && (c <=? 13)).

(** The character a pointer points to. *)
Definition at_ (s : str) : Z := default 0 (head s).

(** [while (p( *s)) s++] for a [p] that does not hold for NUL. *)
Fixpoint skip_while (p : Z -> bool) (s : str) : str :=
  match s with
  | c :: s' => if p c then skip_while p s' else s
  | [] => []
  end.

(** The loop of [readHuman] over digits; it never moves on. *)
Fixpoint human_digits (fuel : nat) (s : str) (val : Z) : option Z :=
  match fuel with
  | O => None
  | S fuel => if isdigit (at_ s) then human_digits fuel s (val * 10 + (at_ s - 48)) else Some val
  end.

Definition human_factor (s : str) : Z :=
  let c := at_ s in
  let decimal := at_ (tail s) =? 66 in
  let power n := if decimal then 1000 ^ n else 1024 ^ n in
  if c =? 98 then 512
  else if (c =? 107) && decimal then 1000
  else if c =? 75 then 1024
  else if c =? 77 then power 2
  else if c =? 71 then power 3
  else if c =? 84 then power 4
  else if c =? 80 then power 5
  else if c =? 69 then power 6
  else if c =? 90 then power 7
  else if c =? 89 then power 7
  else 1.

(** The products with an [unsigned long] wrap around, the others cannot
    overflow: [val] is 0 when the loop ends. *)
Definition readHuman (s : str) : option Z :=
  val ← human_digits (S (length s)) s 0;
  Some (s64 (val * u64 (human_factor s))).

(** [atoll]: blanks, a sign, digits; undefined when the number does not fit. *)
Fixpoint digits_value (s : str) (val : Z) : Z :=
  match s with
  | c :: s => if isdigit c then digits_value s (val * 10 + (c - 48)) else val
  | [] => val
  end.

Definition atoll (s : str) : option Z :=
  let s := skip_while isspace s in
  let v :=
    if at_ s =? 45 then - digits_value (tail s) 0
    else if at_ s =? 43 then digits_value (tail s) 0
    else digits_value s 0 in
  if decide (- 2 ^ 63 <= v < 2 ^ 63) then Some v else None.

Definition nondictionary (args : Arguments) (c : Z) : bool := dictionary args && negb (isblank c) && negb (isalnum c).
Definition nonprinting (args : Arguments) (c : Z) : bool := ignore_nonprint args && negb (isprint c).

(** What the loop over characters leaves out at its start. *)
Definition skip (args : Arguments) (s : str) : str := skip_while (nonprinting args) (skip_while (nondictionary args) s).

Definition upper (args : Arguments) (c : Z) : Z :=
  if ignore_case args && (97 <=? c) && (c <=? 122) then c + (65 - 97) else c.

(** The loop of [compareStrings] over characters. *)
Fixpoint text_loop (fuel : nat) (args : Arguments) (a b : str) : option Z :=
  match fuel with
  | O => None
  | S fuel =>
      match a, b with
      | [], [] => Some 0
      | _, _ =>
          let a := skip args a in
          let b := skip args b in
          let ca := upper args (at_ a) in
          let cb := upper args (at_ b) in
          if ca <? cb then Some (-1)
          else if cb <? ca then Some 1
          else
            match a, b with
            | _ :: a, _ :: b => text_loop fuel args a b
            | _, _ => None
            end
      end
  end.

(** [if (a < b) return -1; else if (a > b) return 1;] and 0 for going on. *)
Definition three_way {A} (lt : A -> A -> bool) (a b : A) : Z :=
  if lt a b then -1 else if lt b a then 1 else 0.

(** One of the comparisons in front of the loop, on if [on]; with [stop], equal
    strings are not compared any further. *)
Definition stage (on : bool) (c : option Z) (stop : bool) (k : option Z) : option Z :=
  if on then r ← c; if negb (r =? 0) then Some r else if stop then Some 0 else k else k.

Section Program.
Context (randoms : Z -> Z) {F : Type} (atof : str -> F) (flt : F -> F -> bool).
Context (qsort : (str -> str -> C Z) -> list str -> C (list str)).

Definition hashString (s : str) : Z := foldl (fun val c => Z.lxor val (randoms c)) 0 s.

Definition compareStrings (a b : str) (args : Arguments) (unique : bool) : option Z :=
  let '(a, b) := if reverse args then (b, a) else (a, b) in
  stage (random args) (Some (three_way Z.ltb (hashString a) (hashString b))) false
    (let a := if ignore_blanks args then skip_while isblank a else a in
     let b := if ignore_blanks args then skip_while isblank b else b in
     stage (human_numeric args)
       (lla ← readHuman a; llb ← readHuman b; Some (three_way Z.ltb lla llb)) unique
     (stage (general_numeric args) (Some (three_way flt (atof a) (atof b))) unique
     (stage (numeric args) (lla ← atoll a; llb ← atoll b; Some (three_way Z.ltb lla llb)) unique
     (text_loop (S (length a + length b)) args a b)))).

(** *** Comparing lines by keys *)

(** [strchr(s, ',')] and the strings before and behind it. *)
Fixpoint split_comma (s : str) : str * option str :=
  match s with
  | [] => ([], None)
  | c :: s => if c =? 44 then ([], Some s) else let '(k, r) := split_comma s in (c :: k, r)
  end.

Definition readKeyFrom (ptr : option str) : option str * option str :=
  match ptr with
  | Some s => let '(k, r) := split_comma s in (Some k, r)
  | None => (None, None)
  end.

(** The first loop of [readLineField]. *)
Fixpoint field_loop (line : str) (field : Z) : str :=
  match line with
  | [] => []
  | c :: line' =>
      if 1 <? field
      then field_loop line' (if isblank (at_ line') && negb (isblank c) then field - 1 else field)
      else line
  end.

Fixpoint take_while (p : Z -> bool) (s : str) : str :=
  match s with
  | c :: s => if p c then c :: take_while p s else []
  | [] => []
  end.

Definition readLineField (line : str) (field : Z) : str :=
  if field =? 0 then line
  else
    let line := field_loop line field in
    take_while isblank line ++ take_while (fun c => negb (isblank c)) (skip_while isblank line).

Definition no_flags (args : Arguments) : Arguments :=
  mkArguments false false false false false false false false false (zero args) (unique args) (key args).

(** The digits of a key, as an [int]: undefined when they do not fit. *)
Fixpoint key_field (s : str) (field : Z) : option (Z * str) :=
  match s with
  | c :: s' =>
      if isdigit c
      then let field := field * 10 + (c - 48) in if field <? 2 ^ 31 then key_field s' field else None
      else Some (field, s)
  | [] => Some (field, [])
  end.

Definition key_flag (l : Arguments) (c : Z) : option Arguments :=
  let '(mkArguments b d f g i h n R r z u k) := l in
  if c =? 98 then Some (mkArguments true d f g i h n R r z u k)
  else if c =? 100 then Some (mkArguments b true f g i h n R r z u k)
  else if c =? 102 then Some (mkArguments b d true g i h n R r z u k)
  else if c =? 103 then Some (mkArguments b d f true i h n R r z u k)
  else if c =? 105 then Some (mkArguments b d f g true h n R r z u k)
  else if c =? 104 then Some (mkArguments b d f g i true n R r z u k)
  else if c =? 110 then Some (mkArguments b d f g i h true R r z u k)
  else if c =? 82 then Some (mkArguments b d f g i h n true r z u k)
  else if c =? 114 then Some (mkArguments b d f g i h n R true z u k)
  else None.

Fixpoint key_flags (s : str) (l : Arguments) : C Arguments :=
  match s with
  | [] => mret l
  | c :: s => match key_flag l c with Some l => key_flags s l | None => exit 1 end
  end.

Definition parse_key (args : Arguments) (k : str) : C (Z * Arguments) :=
  '(field, s) ← lift (key_field k 0);
  match s with
  | [] => mret (field, args)
  | _ => l ← key_flags s (no_flags args); mret (field, l)
  end.

(** The loop of [compareLines] over the keys that are left. *)
Fixpoint keys_loop (fuel : nat) (args : Arguments) (keys : option str) (a b : str) (unique : bool) : C Z :=
  match fuel with
  | O => None
  | S fuel =>
      match readKeyFrom keys with
      | (Some k, keys) =>
          '(field, l) ← parse_key args k;
          cmp ← lift (compareStrings (readLineField a field) (readLineField b field) l true);
          if negb (cmp =? 0) then mret cmp else keys_loop fuel args keys a b unique
      | (None, _) => if unique then mret 0 else lift (compareStrings a b args unique)
      end
  end.

Definition compareLines (args : Arguments) (a b : str) (unique : bool) : C Z :=
  match key args with
  | Some keys => keys_loop (S (S (length keys))) args (Some keys) a b unique
  | None => lift (compareStrings a b args unique)
  end.

Definition compareLinesSort (args : Arguments) (a b : str) : C Z := compareLines args a b false.

(** *** The program *)

(** The files in order, [None] for one that cannot be opened: the lines, and
    whether there was an error. *)
Fixpoint read_files (files : list (option str)) (lines : list str) (error : bool) : option (list str * bool) :=
  match files with
  | [] => Some (lines, error)
  | None :: files => read_files files lines true
  | Some content :: files => lines ← readFile content lines; read_files files lines error
  end.

(** The last loop of [main].  [args.key] has been freed before it. *)
Fixpoint output_loop (args : Arguments) (last_line : option str) (lines : list str) : C str :=
  match lines with
  | [] => mret []
  | line :: lines =>
      skip ← match last_line with
             | Some last_line =>
                 if unique args
                 then match key args with
                      | Some _ => None
                      | None => cmp ← compareLines args last_line line true; mret (cmp =? 0)
                      end
                 else mret false
             | None => mret false
             end;
      out ← output_loop args (Some line) lines;
      mret (if skip : bool then out else line ++ (if zero args then [0] else [10]) ++ out)
  end.

(** [opens] is whether the output can be opened: the exit code and what is
    written. *)
Definition main (args : Arguments) (files : list (option str)) (opens : bool) : C (Z * str) :=
  '(lines, error) ← lift (read_files files [] false);
  lines ← qsort (compareLinesSort args) lines;
  if negb opens then mret (1, [])
  else
    out ← output_loop args None lines;
    mret (if error : bool then 1 else 0, out).

End Program.

(** ** Orders

    [lt] is a strict weak order on the elements of [D]: not comparable is an
    equivalence. *)

Class StrictWeak {A} (D : A -> Prop) (lt : A -> A -> bool) : Prop := {
  sw_asym : forall x y, D x -> D y -> lt x y = true -> lt y x = false;
  sw_split : forall x y z, D x -> D y -> D z -> lt x z = true -> lt x y = true \/ lt y z = true }.

(** First by [lt1], then by [lt2]. *)
Definition lex {A} (lt1 lt2 : A -> A -> bool) (x y : A) : bool := lt1 x y || (negb (lt1 y x) && lt2 x y).
Definition on {A B} (f : A -> B) (lt : B -> B -> bool) (x y : A) : bool := lt (f x) (f y).
Definition equal {A} (x y : A) : bool := false.

#[global] Typeclasses Opaque lex on equal flip.

#[global] Instance equal_order {A} (D : A -> Prop) : StrictWeak D equal.
Proof. by split. Qed.

#[global] Instance Z_order (D : Z -> Prop) : StrictWeak D Z.ltb.
Proof.
  split; intros *; rewrite ?Z.ltb_lt, ?Z.ltb_ge; [lia|]. intros. destruct (Z.lt_ge_cases x y); [by left|right; lia].
Qed.

#[global] Instance on_order {A B} (f : A -> B) (D : B -> Prop) lt :
  StrictWeak D lt -> StrictWeak (fun x => D (f x)) (on f lt).
Proof. intros [H1 H2]. split; unfold on; eauto. Qed.

#[global] Instance on_order_all {A B} (f : A -> B) (D : A -> Prop) lt :
  StrictWeak (fun _ => True) lt -> StrictWeak D (on f lt).
Proof. intros [H1 H2]. split; unfold on; eauto. Qed.

Lemma weaken_order {A} (D D' : A -> Prop) lt : (forall x, D' x -> D x) -> StrictWeak D lt -> StrictWeak D' lt.
Proof. intros HD [H1 H2]. split; auto. Qed.

#[global] Instance flip_order {A} (D : A -> Prop) lt : StrictWeak D lt -> StrictWeak D (flip lt).
Proof.
  intros [H1 H2]. split; unfold flip; [auto|]. intros x y z Hx Hy Hz H.
  destruct (H2 z y x Hz Hy Hx H); [by right|by left].
Qed.

Section Orders.
Context {A : Type} (D : A -> Prop) (lt : A -> A -> bool) `{!StrictWeak D lt}.

Lemma sw_trans x y z : D x -> D y -> D z -> lt x y = true -> lt y z = true -> lt x z = true.
Proof.
  intros Hx Hy Hz H1 H2. destruct (sw_split x z y Hx Hz Hy H1) as [H|H]; [done|].
  apply (sw_asym z y Hz Hy) in H. congruence.
Qed.

Lemma sw_irrefl x : D x -> lt x x = false.
Proof. intros Hx. destruct (lt x x) eqn:E; [|done]. pose proof (sw_asym x x Hx Hx E). congruence. Qed.

(** What is not above is transitive. *)
Lemma sw_le_trans x y z : D x -> D y -> D z -> lt y x = false -> lt z y = false -> lt z x = false.
Proof.
  intros Hx Hy Hz H1 H2. destruct (lt z x) eqn:E; [|done].
  destruct (sw_split z y x Hz Hy Hx E); congruence.
Qed.

End Orders.

#[global] Instance lex_order {A} (D : A -> Prop) lt1 lt2 :
  StrictWeak D lt1 -> StrictWeak D lt2 -> StrictWeak D (lex lt1 lt2).
Proof.
  intros H1 H2. split; unfold lex.
  - intros x y Hx Hy. destruct (lt1 x y) eqn:E; cbn [orb negb andb].
    { intros _. by rewrite (sw_asym x y Hx Hy E). }
    intros [E' E2]%andb_true_iff. apply negb_true_iff in E'. rewrite E'. cbn [orb]. by apply sw_asym.
  - intros x y z Hx Hy Hz [E|[E E2]%andb_true_iff]%orb_true_iff.
    + destruct (sw_split x y z Hx Hy Hz E) as [H|H]; rewrite H; [by left|by right].
    + apply negb_true_iff in E.
      destruct (lt1 x y) eqn:Exy; [by left|]. destruct (lt1 y z) eqn:Eyz; [by right|]. cbn [orb].
      assert (Eyx : lt1 y x = false).
      { destruct (lt1 y x) eqn:Eyx; [|done]. destruct (sw_split y z x Hy Hz Hx Eyx); congruence. }
      assert (Ezy : lt1 z y = false).
      { destruct (lt1 z y) eqn:Ezy; [|done]. destruct (sw_split z x y Hz Hx Hy Ezy); congruence. }
      rewrite Eyx, Ezy. cbn [negb andb]. by apply sw_split.
Qed.

#[global] Instance lex_lt_order (D : str -> Prop) : StrictWeak D lex_lt.
Proof.
  apply (weaken_order (fun _ => True)); [done|]. split.
  - intros x y _ _. revert y. induction x as [|c x IH]; intros [|d y]; cbn; try done.
    intros [H%Z.ltb_lt|[E%Z.eqb_eq H]%andb_true_iff]%orb_true_iff.
    + rewrite (proj2 (Z.ltb_ge _ _)), (proj2 (Z.eqb_neq _ _)) by lia. done.
    + subst d. by rewrite Z.ltb_irrefl, Z.eqb_refl, (IH y H).
  - intros x y z _ _ _. revert y z. induction x as [|c x IH]; intros [|d y] [|e z]; cbn; try done; try (by left); try (by right).
    rewrite !orb_true_iff, !andb_true_iff, !Z.ltb_lt, !Z.eqb_eq. intros [H|[-> H]].
    + destruct (Z.lt_trichotomy c d) as [|[->|]]; [by left; left|by right; left|right; left; lia].
    + destruct (Z.lt_trichotomy e d) as [|[->|]]; [by left; left| |by right; left].
      destruct (IH y z H); [by left; right|by right; right].
Qed.

Lemma three_way_flip {A} (lt : A -> A -> bool) x y : three_way lt y x = three_way (flip lt) x y.
Proof. done. Qed.

(** The order in which [stage] goes on. *)
Definition stage_lt {A} (on stop : bool) (lt1 lt2 : A -> A -> bool) : A -> A -> bool :=
  if on then if stop then lt1 else lex lt1 lt2 else lt2.

#[global] Instance stage_order {A} (D : A -> Prop) on stop lt1 lt2 :
  (on = true -> StrictWeak D lt1) -> (on && stop = false -> StrictWeak D lt2) -> StrictWeak D (stage_lt on stop lt1 lt2).
Proof. destruct on, stop; cbn; intros; eauto with typeclass_instances. Qed.

Lemma stage_ok {A} (on stop : bool) (lt1 lt2 : A -> A -> bool) a b c k :
  (on = true -> c = Some (three_way lt1 a b)) -> (on && stop = false -> k = Some (three_way lt2 a b)) ->
  stage on c stop k = Some (three_way (stage_lt on stop lt1 lt2) a b).
Proof.
  intros Hc Hk. unfold stage, stage_lt. destruct on; [|by apply Hk]. rewrite Hc by done. cbn [mbind option_bind].
  unfold three_way. destruct (lt1 a b) eqn:E1; cbn [Z.eqb negb].
  { destruct stop; [by rewrite E1|]. unfold lex. by rewrite E1. }
  destruct (lt1 b a) eqn:E2; cbn [Z.eqb negb].
  { destruct stop; [by rewrite E1, E2|]. unfold lex. by rewrite E1, E2. }
  destruct stop; [by rewrite E1, E2|]. rewrite Hk by done. unfold three_way, lex. by rewrite E1, E2.
Qed.

(** ** What the loop over characters compares

    [text_key] is what is left of a string; [dangling] holds when something at
    the end of it is left out. *)

Fixpoint text_key (args : Arguments) (second : bool) (s : str) : str :=
  match s with
  | [] => []
  | c :: s =>
      if negb second && nondictionary args c then text_key args false s
      else if nonprinting args c then text_key args true s
      else upper args c :: text_key args false s
  end.

Fixpoint dangling (args : Arguments) (second pending : bool) (s : str) : bool :=
  match s with
  | [] => pending
  | c :: s =>
      if negb second && nondictionary args c then dangling args false true s
      else if nonprinting args c then dangling args true true s
      else dangling args false false s
  end.

Lemma second_spec args s p :
  match skip_while (nonprinting args) s with
  | [] => text_key args true s = [] /\ dangling args true p s = p || bool_decide (s <> [])
  | c :: s' => text_key args true s = upper args c :: text_key args false s' /\
      (length s' < length s)%nat /\ dangling args true p s = dangling args false false s'
  end.
Proof.
  revert p. induction s as [|c s IH]; intros p; cbn.
  { split; [done|]. by rewrite orb_false_r. }
  destruct (nonprinting args c) eqn:E; [|cbn; split; [done|split; [lia|done]]].
  specialize (IH true). destruct (skip_while (nonprinting args) s) as [|d s'].
  - destruct IH as [-> ->]. split; [done|]. by rewrite orb_true_r.
  - destruct IH as (-> & ? & ->). split; [done|split; [lia|done]].
Qed.

Lemma skip_spec args s p :
  match skip args s with
  | [] => text_key args false s = [] /\ dangling args false p s = p || bool_decide (s <> [])
  | c :: s' => text_key args false s = upper args c :: text_key args false s' /\
      (length s' < length s)%nat /\ dangling args false p s = dangling args false false s'
  end.
Proof.
  unfold skip. revert p. induction s as [|c s IH]; intros p; cbn.
  { split; [done|]. by rewrite orb_false_r. }
  destruct (nondictionary args c) eqn:E.
  - specialize (IH true). destruct (skip_while (nonprinting args) (skip_while (nondictionary args) s)) as [|d s'].
    + destruct IH as [-> ->]. split; [done|]. by rewrite orb_true_r.
    + destruct IH as (-> & ? & ->). split; [done|split; [lia|done]].
  - pose proof (second_spec args (c :: s) p) as H. cbn in H |- *. by destruct (nonprinting args c).
Qed.

Lemma skip_chars args s : is_cstr s -> is_cstr (skip args s).
Proof.
  assert (H : forall p l, is_cstr l -> is_cstr (skip_while p l)).
  { intros p l. unfold is_cstr. induction l as [|c l IH]; cbn; [done|]. intros Hl. rewrite Forall_cons_iff in Hl. destruct Hl.
    destruct (p c); [auto|by rewrite Forall_cons_iff]. }
  intros. by apply H, H.
Qed.

Lemma upper_pos args c : 0 < c -> 0 < upper args c.
Proof. intros. unfold upper. destruct (ignore_case args), (Z.leb_spec 97 c), (c <=? 122); cbn [andb]; lia. Qed.

Lemma upper_0 args : upper args 0 = 0.
Proof. unfold upper. by destruct (ignore_case args). Qed.

Lemma text_loop_spec args fuel : forall a b, is_cstr a -> is_cstr b -> (length a + length b < fuel)%nat ->
  text_loop fuel args a b =
    if three_way lex_lt (text_key args false a) (text_key args false b) =? 0
    then if dangling args false false a || dangling args false false b then None else Some 0
    else Some (three_way lex_lt (text_key args false a) (text_key args false b)).
Proof.
  induction fuel as [|fuel IH]; intros a b Ha Hb Hf; [lia|]. cbn [text_loop].
  destruct (decide (a = [] /\ b = [])) as [[-> ->]|Hne]; [done|].
  pose proof (skip_spec args a false) as Sa. pose proof (skip_spec args b false) as Sb.
  pose proof (skip_chars args a Ha) as Ca. pose proof (skip_chars args b Hb) as Cb.
  assert (E : forall X (u v : X), match a, b with [], [] => u | _, _ => v end = v).
  { intros. destruct a, b; try done. by destruct Hne. }
  rewrite E. clear E. cbn zeta.
  destruct (skip args a) as [|c a'], (skip args b) as [|d b']; cbn [at_ head from_option id].
  - destruct Sa as [-> ->], Sb as [-> ->]. cbn [orb]. rewrite upper_0. cbn.
    destruct (decide (a = [])) as [->|Ha'].
    { rewrite (bool_decide_true (b <> [])) by (intros ->; by destruct Hne). by rewrite orb_true_r. }
    by rewrite (bool_decide_true (a <> [])).
  - destruct Sa as [-> _], Sb as (-> & _). unfold is_cstr in Cb. rewrite Forall_cons_iff in Cb. destruct Cb as [Hd _].
    rewrite upper_0. pose proof (upper_pos args d ltac:(lia)).
    by rewrite (proj2 (Z.ltb_lt 0 (upper args d))) by lia.
  - destruct Sa as (-> & _), Sb as [-> _]. unfold is_cstr in Ca. rewrite Forall_cons_iff in Ca. destruct Ca as [Hd _].
    rewrite upper_0. pose proof (upper_pos args c ltac:(lia)).
    rewrite (proj2 (Z.ltb_ge (upper args c) 0)) by lia. by rewrite (proj2 (Z.ltb_lt 0 (upper args c))) by lia.
  - destruct Sa as (-> & La & ->), Sb as (-> & Lb & ->). unfold is_cstr in Ca, Cb.
    rewrite Forall_cons_iff in Ca, Cb. destruct Ca as [_ Ca], Cb as [_ Cb].
    unfold three_way. cbn [lex_lt].
    destruct (Z.ltb_spec (upper args c) (upper args d)) as [L|L]; cbn [orb]; [done|].
    destruct (Z.ltb_spec (upper args d) (upper args c)) as [L'|L']; cbn [orb].
    { by rewrite (proj2 (Z.eqb_neq (upper args c) _)) by lia. }
    rewrite (proj2 (Z.eqb_eq (upper args c) _)), (proj2 (Z.eqb_eq (upper args d) _)) by lia. cbn [andb].
    apply IH; [done|done|lia].
Qed.

(** ** Lines of a file *)

Definition short (l : str) : Prop := Forall (fun c => 0 < c < 256 /\ c <> 10) l /\ (length l < 1023)%nat.
Definition text (ls : list str) : str := concat ((fun l => l ++ [10]) <$> ls).

Lemma take_line_short l r : forall n, Forall (fun c => 0 < c < 256 /\ c <> 10) l -> (length l < n)%nat ->
  take_line n (l ++ 10 :: r) = (l ++ [10], r, false).
Proof.
  induction l as [|c l IH]; intros [|n] Hl Hn; cbn in Hn; try lia; cbn; [done|].
  rewrite Forall_cons_iff in Hl. destruct Hl as [[_ Hc] Hl]. rewrite (proj2 (Z.eqb_neq _ _)) by done.
  by rewrite IH by (done || lia).
Qed.

Lemma c_string_id l : Forall (fun c => 0 < c) l -> c_string l = l.
Proof.
  induction l as [|c l IH]; cbn; [done|]. intros Hl. rewrite Forall_cons_iff in Hl. destruct Hl as [Hc Hl].
  rewrite (proj2 (Z.eqb_neq _ _)) by lia. by rewrite IH.
Qed.

Lemma readLine_next l r : short l ->
  readLineFromFile (mkFile (l ++ 10 :: r) false) = Some (Some l, mkFile r false).
Proof.
  intros [Hl Hn]. unfold readLineFromFile. remember (S (length _)) as n. cbn [line_loop eof]. unfold fgets.
  cbn [rest]. rewrite take_line_short by (done || lia). cbn [eof orb].
  destruct (l ++ [10]) as [|c l'] eqn:E; [by destruct l|]. rewrite <- E.
  rewrite c_string_id.
  2: { apply Forall_app. split; [|by repeat constructor]. eapply Forall_impl; [|exact Hl]. cbn. lia. }
  rewrite rev_app_distr. cbn [List.rev app]. rewrite Z.eqb_refl, rev_involutive. done.
Qed.

Lemma readLine_end : readLineFromFile (mkFile [] false) = Some (None, mkFile [] true).
Proof. done. Qed.

Lemma file_loop_text ls : forall fuel lines, Forall short ls -> (length ls + 1 < fuel)%nat ->
  file_loop fuel (mkFile (text ls) false) lines = Some (lines ++ ls).
Proof.
  induction ls as [|l ls IH]; intros [|fuel] lines Hs Hf; try lia; cbn [file_loop eof].
  - change (text []) with (@nil Z). rewrite readLine_end. cbn [mbind option_bind].
    destruct fuel; [cbn in Hf; lia|]. cbn [file_loop eof]. by rewrite !app_nil_r.
  - rewrite Forall_cons_iff in Hs. destruct Hs as [Hl Hs].
    change (text (l :: ls)) with ((l ++ [10]) ++ text ls). rewrite <- app_assoc. cbn [app].
    rewrite readLine_next by done. cbn [mbind option_bind]. rewrite IH by (done || (cbn in Hf; lia)).
    by rewrite <- app_assoc.
Qed.

Lemma text_length ls : (length ls <= length (text ls))%nat.
Proof.
  induction ls as [|l ls IH]; [done|]. change (text (l :: ls)) with ((l ++ [10]) ++ text ls).
  rewrite !length_app. cbn. lia.
Qed.

(** A file of short lines is read as these lines. *)
Lemma readFile_text ls lines : Forall short ls -> readFile (text ls) lines = Some (lines ++ ls).
Proof. intros Hs. apply file_loop_text; [done|]. pose proof (text_length ls). lia. Qed.

(** The lines of the files that can be opened. *)
Definition all_lines (files : list (option (list str))) : list str := concat (omap id files).

Lemma read_files_text files : forall lines error, Forall (fun f => Forall short (default [] f)) files ->
  read_files (option_map text <$> files) lines error = Some (lines ++ all_lines files, error || bool_decide (None ∈ files)).
Proof.
  induction files as [|[ls|] files IH]; intros lines error Hf; cbn [read_files fmap list_fmap option_map].
  - unfold all_lines. cbn. by rewrite app_nil_r, orb_false_r.
  - rewrite Forall_cons_iff in Hf. destruct Hf as [Hl Hf]. cbn in Hl. rewrite readFile_text by done. cbn [mbind option_bind].
    rewrite IH by done. unfold all_lines. cbn. rewrite app_assoc. do 3 f_equal. apply bool_decide_ext.
    rewrite elem_of_cons. split; [by right|by intros [?|?]].
  - rewrite Forall_cons_iff in Hf. destruct Hf as [_ Hf]. rewrite IH by done. unfold all_lines. cbn.
    rewrite (bool_decide_true (None ∈ None :: _)) by by left. by rewrite orb_true_r.
Qed.

(** ** What the program compares *)

Definition blank_off (args : Arguments) (s : str) : str := if ignore_blanks args then skip_while isblank s else s.

Lemma skip_while_chars p s : is_cstr s -> is_cstr (skip_while p s).
Proof.
  unfold is_cstr. induction s as [|c s IH]; cbn; [done|]. intros Hs. pose proof Hs as Hs'. rewrite Forall_cons_iff in Hs.
  destruct Hs. destruct (p c); auto.
Qed.

Lemma readHuman_letters s : isdigit (at_ s) = false -> readHuman s = Some 0.
Proof. intros H. unfold readHuman. cbn [human_digits]. rewrite H. cbn [mbind option_bind]. by rewrite Z.mul_0_l. Qed.

Section Order.
Context (randoms : Z -> Z) {F : Type} (atof : str -> F) (flt : F -> F -> bool).
Context (number : F -> Prop) `{!StrictWeak number flt}.

(** The stages behind the random one, for the strings without leading blanks. *)
Definition content_lt (args : Arguments) (unique : bool) : str -> str -> bool :=
  stage_lt (human_numeric args) unique equal
    (stage_lt (general_numeric args) unique (on atof flt)
       (stage_lt (numeric args) unique (on (fun s => default 0 (atoll s)) Z.ltb) (on (text_key args false) lex_lt))).

Definition forward_lt (args : Arguments) (unique : bool) : str -> str -> bool :=
  stage_lt (random args) false (on (hashString randoms) Z.ltb) (on (blank_off args) (content_lt args unique)).

(** The order of strings that the options ask for. *)
Definition string_lt (args : Arguments) (unique : bool) : str -> str -> bool :=
  if reverse args then flip (forward_lt args unique) else forward_lt args unique.

(** A string the comparison can handle: each stage that it reaches must be able
    to. *)
Definition content_ok (args : Arguments) (unique : bool) (s : str) : Prop :=
  (human_numeric args = true -> isdigit (at_ s) = false) /\
  (human_numeric args && unique = false ->
     (general_numeric args = true -> number (atof s)) /\
     (general_numeric args && unique = false ->
        (numeric args = true -> is_Some (atoll s)) /\
        (numeric args && unique = false -> dangling args false false s = false))).

Definition comparable (args : Arguments) (unique : bool) (s : str) : Prop :=
  is_cstr s /\ content_ok args unique (blank_off args s).

Lemma string_lt_order args unique : StrictWeak (comparable args unique) (string_lt args unique).
Proof.
  assert (Hn : StrictWeak (fun s => general_numeric args = true -> number (atof s))
                 (stage_lt (general_numeric args) unique (on atof flt)
                   (stage_lt (numeric args) unique (on (fun s => default 0 (atoll s)) Z.ltb) (on (text_key args false) lex_lt)))).
  { apply stage_order; intros E.
    - apply (weaken_order (fun s => number (atof s))); [auto|]. by apply on_order.
    - apply stage_order; intros _; apply _. }
  assert (Hf : StrictWeak (comparable args unique) (forward_lt args unique)).
  { apply stage_order; intros _.
    - apply _.
    - apply (weaken_order (fun s => content_ok args unique (blank_off args s))); [by intros x []|].
      apply (on_order (blank_off args) (content_ok args unique)). apply stage_order; intros E; [apply _|].
      eapply weaken_order; [|exact Hn]. intros x [_ H] Hg. by apply H. }
  unfold string_lt. destruct (reverse args); [by apply flip_order|done].
Qed.

Lemma content_compare args unique a b : is_cstr a -> is_cstr b -> content_ok args unique a -> content_ok args unique b ->
  stage (human_numeric args) (lla ← readHuman a; llb ← readHuman b; Some (three_way Z.ltb lla llb)) unique
    (stage (general_numeric args) (Some (three_way flt (atof a) (atof b))) unique
      (stage (numeric args) (lla ← atoll a; llb ← atoll b; Some (three_way Z.ltb lla llb)) unique
        (text_loop (S (length a + length b)) args a b))) = Some (three_way (content_lt args unique) a b).
Proof.
  intros Ca Cb [Ha Ha'] [Hb Hb']. apply stage_ok; intros E1.
  { by rewrite !readHuman_letters by auto. }
  destruct (Ha' E1) as [Ga Ga'], (Hb' E1) as [Gb Gb']. apply stage_ok; intros E2; [done|].
  destruct (Ga' E2) as [Na Na'], (Gb' E2) as [Nb Nb']. apply stage_ok; intros E3.
  { destruct (Na E3) as [x Hx], (Nb E3) as [y Hy]. unfold three_way, on. by rewrite Hx, Hy. }
  rewrite text_loop_spec by (done || lia). rewrite Na', Nb' by done. cbn [orb].
  change (three_way (on ?f ?lt) a b) with (three_way lt (f a) (f b)).
  by destruct (Z.eqb_spec (three_way lex_lt (text_key args false a) (text_key args false b)) 0) as [->|].
Qed.

Lemma compareStrings_ok args unique a b : comparable args unique a -> comparable args unique b ->
  compareStrings randoms atof flt a b args unique = Some (three_way (string_lt args unique) a b).
Proof.
  assert (H : forall a b, comparable args unique a -> comparable args unique b ->
    stage (random args) (Some (three_way Z.ltb (hashString randoms a) (hashString randoms b))) false
      (let a := blank_off args a in let b := blank_off args b in
       stage (human_numeric args) (lla ← readHuman a; llb ← readHuman b; Some (three_way Z.ltb lla llb)) unique
       (stage (general_numeric args) (Some (three_way flt (atof a) (atof b))) unique
       (stage (numeric args) (lla ← atoll a; llb ← atoll b; Some (three_way Z.ltb lla llb)) unique
       (text_loop (S (length a + length b)) args a b)))) = Some (three_way (forward_lt args unique) a b)).
  { clear a b. intros a b [Ca Ha] [Cb Hb]. apply stage_ok; intros _; [done|]. cbn zeta. rewrite content_compare; try done;
        unfold blank_off; destruct (ignore_blanks args); try done; by apply skip_while_chars. }
  intros Ha Hb. unfold compareStrings, string_lt. destruct (reverse args); [|by apply H].
  rewrite <- three_way_flip. by apply H.
Qed.

(** *** Keys *)

(** The keys of the options, which must all be valid. *)
Fixpoint parse_keys (fuel : nat) (args : Arguments) (keys : option str) : option (list (Z * Arguments)) :=
  match fuel with
  | O => None
  | S fuel =>
      match readKeyFrom keys with
      | (Some k, keys) =>
          match parse_key args k with
          | Some (inl spec) => specs ← parse_keys fuel args keys; Some (spec :: specs)
          | _ => None
          end
      | (None, _) => Some []
      end
  end.

Definition key_specs (args : Arguments) : option (list (Z * Arguments)) :=
  match key args with
  | Some keys => parse_keys (S (S (length keys))) args (Some keys)
  | None => Some []
  end.

(** By each key in turn, and then by the whole line. *)
Definition keys_lt (args : Arguments) (specs : list (Z * Arguments)) : str -> str -> bool :=
  foldr (fun spec lt => lex (on (fun s => readLineField s (fst spec)) (string_lt (snd spec) true)) lt)
    (string_lt args false) specs.

Definition line_ok (args : Arguments) (specs : list (Z * Arguments)) (s : str) : Prop :=
  Forall (fun spec => comparable (snd spec) true (readLineField s (fst spec))) specs /\ comparable args false s.

Lemma keys_lt_order args specs : StrictWeak (line_ok args specs) (keys_lt args specs).
Proof.
  unfold keys_lt. induction specs as [|spec specs IH]; cbn [foldr].
  - apply (weaken_order (comparable args false)); [by intros s []|apply string_lt_order].
  - apply lex_order.
    + apply (weaken_order (fun s => comparable (snd spec) true (readLineField s (fst spec)))).
      { intros s [H _]. rewrite Forall_cons_iff in H. apply H. }
      apply (on_order (fun s => readLineField s (fst spec))), string_lt_order.
    + eapply weaken_order; [|exact IH]. intros s [H ?]. rewrite Forall_cons_iff in H. split; [apply H|done].
Qed.

Lemma keys_loop_ok args specs a b : forall fuel keys, parse_keys fuel args keys = Some specs ->
  line_ok args specs a -> line_ok args specs b ->
  keys_loop randoms atof flt fuel args keys a b false = Some (inl (three_way (keys_lt args specs) a b)).
Proof.
  induction specs as [|[field l] specs IH]; intros [|fuel] keys Hp Ha Hb; try done; cbn [keys_loop parse_keys] in *;
    destruct (readKeyFrom keys) as [[k|] keys'].
  - destruct (parse_key args k) as [[?|?]|]; try done. by destruct (parse_keys fuel args keys').
  - cbn [keys_lt foldr]. unfold lift. rewrite compareStrings_ok by (apply Ha || apply Hb). done.
  - destruct (parse_key args k) as [[spec|?]|]; try done.
    destruct (parse_keys fuel args keys') as [specs'|] eqn:E; [|done]. cbn [mbind option_bind] in Hp. injection Hp as -> ->.
    destruct Ha as [Ha1 Ha2], Hb as [Hb1 Hb2]. rewrite Forall_cons_iff in Ha1, Hb1. destruct Ha1 as [Ha Ha1], Hb1 as [Hb Hb1].
    cbn [fst snd] in Ha, Hb. cbn [mbind C_bind]. unfold lift. rewrite compareStrings_ok by done. cbn [mbind option_bind C_bind].
    rewrite (IH fuel keys' E) by done. unfold keys_lt. cbn [foldr fst snd]. fold (keys_lt args specs).
    unfold three_way, lex, on.
    destruct (string_lt l true (readLineField a field) (readLineField b field)) eqn:E1; [done|].
    by destruct (string_lt l true (readLineField b field) (readLineField a field)) eqn:E2.
  - done.
Qed.

Lemma compareLines_ok args specs a b : key_specs args = Some specs ->
  line_ok args specs a -> line_ok args specs b ->
  compareLinesSort randoms atof flt args a b = Some (inl (three_way (keys_lt args specs) a b)).
Proof.
  intros Hs Ha Hb. unfold compareLinesSort, compareLines, key_specs in *. destruct (key args) as [keys|].
  - by apply keys_loop_ok.
  - injection Hs as <-. unfold lift. rewrite compareStrings_ok by (apply Ha || apply Hb). done.
Qed.

(** With [-u] the strings are compared by less, in the same order. *)
Lemma comparable_unique args s : comparable args false s -> comparable args true s.
Proof.
  assert (E : forall b, b && false = false) by (intros []; done).
  intros [H (H1 & H2)]. split; [done|]. split; [done|].
  intros _. destruct (H2 (E _)) as [H3 H4]. split; [done|].
  intros _. destruct (H4 (E _)) as [H5 H6]. split; [done|]. intros _. by apply H6.
Qed.

Lemma string_lt_coarser args a b : string_lt args true a b = true -> string_lt args false a b = true.
Proof.
  assert (H : forall on (lt1 lt2 lt3 : str -> str -> bool) stop a b,
    (forall a b, lt2 a b = true -> lt3 a b = true) ->
    stage_lt on stop lt1 lt2 a b = true -> stage_lt on false lt1 lt3 a b = true).
  { intros o lt1 lt2 lt3 stop x y H. unfold stage_lt, lex. destruct o, stop; auto.
    - by intros ->.
    - rewrite !orb_true_iff, !andb_true_iff. intros [?|[? ?]]; auto. }
  assert (Hf : forall a b, forward_lt args true a b = true -> forward_lt args false a b = true).
  { intros x y. apply H. intros u v. unfold on, content_lt. apply H. intros ? ?. apply H. intros ? ?. by apply H. }
  unfold string_lt, flip. destruct (reverse args); auto.
Qed.

(** *** What is written *)

Definition same {A} (lt : A -> A -> bool) (a b : A) : bool := negb (lt a b) && negb (lt b a).

(** The first line of each run of lines that are the same as the one before. *)
Fixpoint runs (lt : str -> str -> bool) (last_line : option str) (lines : list str) : list str :=
  match lines with
  | [] => []
  | line :: lines =>
      if match last_line with Some l => same lt l line | None => false end
      then runs lt (Some line) lines else line :: runs lt (Some line) lines
  end.

Definition written (args : Arguments) (lines : list str) : str :=
  concat ((fun l => l ++ (if zero args then [0] else [10])) <$> lines).

Lemma output_loop_ok args lines : forall last_line,
  Forall (comparable args true) lines -> (forall l, last_line = Some l -> comparable args true l) ->
  (unique args = true -> key args = None) ->
  output_loop randoms atof flt args last_line lines =
    Some (inl (written args (if unique args then runs (string_lt args true) last_line lines else lines))).
Proof.
  induction lines as [|line lines IH]; intros last_line Hl Hlast Hk; cbn [output_loop].
  { by destruct (unique args). }
  rewrite Forall_cons_iff in Hl. destruct Hl as [Hc Hl].
  assert (Hnext : forall l, Some line = Some l -> comparable args true l) by by intros ? [= <-].
  specialize (IH (Some line) Hl Hnext Hk). unfold written in *.
  destruct (unique args) eqn:Eu; [|destruct last_line; cbn [mbind C_bind mret C_ret]; rewrite IH; cbn; by rewrite <- app_assoc].
  rewrite (Hk eq_refl). destruct last_line as [l|]; cbn [runs].
  - unfold compareLines. rewrite (Hk eq_refl). unfold lift. rewrite compareStrings_ok by auto.
    cbn [mbind option_bind C_bind mret C_ret]. rewrite IH. unfold same, three_way.
    destruct (string_lt args true l line), (string_lt args true line l); cbn; try done; by rewrite <- app_assoc.
  - cbn [mbind C_bind mret C_ret]. rewrite IH. cbn. by rewrite <- app_assoc.
Qed.

Lemma runs_spec (D : str -> Prop) lt `{!StrictWeak D lt} lines : forall l,
  Forall D (l :: lines) -> StronglySorted (fun a b => lt b a = false) (l :: lines) ->
  StronglySorted (fun a b => lt a b = true) (l :: runs lt (Some l) lines) /\
  runs lt (Some l) lines ⊆ lines /\
  forall x, x ∈ lines -> exists k, k ∈ l :: runs lt (Some l) lines /\ same lt x k = true.
Proof.
  induction lines as [|line lines IH]; intros l HD Hs; cbn [runs].
  { repeat split; [by repeat constructor|done|]. intros x Hx. by apply elem_of_nil in Hx. }
  apply StronglySorted_inv in Hs as [Hs Hl]. pose proof HD as HD'. rewrite Forall_cons_iff in HD. destruct HD as [Dl HD].
  destruct (IH line HD Hs) as (Hr & Hsub & Hex). clear IH. rewrite Forall_cons_iff in Hl. destruct Hl as [Hl Hls].
  apply StronglySorted_inv in Hr as [Hr Hhd]. pose proof HD as HDr. rewrite Forall_cons_iff in HDr. destruct HDr as [Dline HDr].
  assert (Drun : forall k, k ∈ runs lt (Some line) lines -> D k).
  { intros k Hk. rewrite List.Forall_forall in HDr. by apply HDr, list_elem_of_In, Hsub. }
  assert (Habove : forall k, k ∈ runs lt (Some line) lines -> lt l k = true).
  { intros k Hk. assert (Hlk : lt line k = true) by (rewrite List.Forall_forall in Hhd; by apply Hhd, list_elem_of_In).
    destruct (sw_split line l k Dline Dl (Drun k Hk) Hlk) as [H|H]; [congruence|done]. }
  assert (Hlk : Forall (fun k => lt l k = true) (runs lt (Some line) lines)).
  { rewrite List.Forall_forall. intros k Hk. by apply Habove, list_elem_of_In. }
  assert (Es : same lt l line = negb (lt l line)) by (unfold same; by rewrite Hl, andb_true_r).
  rewrite Es. destruct (lt l line) eqn:E; cbn [negb].
  - split; [|split].
    + constructor; [by constructor|by constructor].
    + intros x [->|Hx]%elem_of_cons; [by left|right; by apply Hsub].
    + intros x [->|Hx]%elem_of_cons; [|destruct (Hex x Hx) as (k & Hk & ?); exists k; split; [by right|done]].
      exists line. split; [right; by left|]. unfold same. by rewrite (sw_irrefl D lt).
  - split; [|split].
    + by constructor.
    + intros x Hx. right. by apply Hsub.
    + assert (Hline : exists k, k ∈ l :: runs lt (Some line) lines /\ same lt line k = true).
      { exists l. split; [by left|]. unfold same. by rewrite E, Hl. }
      intros x [->|Hx]%elem_of_cons; [done|]. destruct (Hex x Hx) as (k & [->|Hk]%elem_of_cons & Hsame).
      * exists l. split; [by left|]. unfold same in *. apply andb_true_iff in Hsame as [H1%negb_true_iff H2%negb_true_iff].
        assert (Dx : D x) by (rewrite List.Forall_forall in HDr; by apply HDr, list_elem_of_In).
        by rewrite (sw_le_trans D lt l line x), (sw_le_trans D lt x line l).
      * exists k. split; [by right|done].
Qed.

(** What [qsort] promises for a comparison that is an order on the elements. *)
Class Qsort (qsort : (str -> str -> C Z) -> list str -> C (list str)) : Prop := {
  qsort_sorts : forall (D : str -> Prop) lt cmp l, StrictWeak D lt -> Forall D l ->
    (forall a b, a ∈ l -> b ∈ l -> cmp a b = Some (inl (three_way lt a b))) ->
    exists l', qsort cmp l = Some (inl l') /\ l' ≡ₚ l /\ StronglySorted (fun a b => lt b a = false) l' }.

Context (qsort : (str -> str -> C Z) -> list str -> C (list str)) `{!Qsort qsort}.

Lemma sorted_impl {A} (R R' : A -> A -> Prop) l : (forall a b, R a b -> R' a b) -> StronglySorted R l -> StronglySorted R' l.
Proof. intros H. induction 1; constructor; [done|]. eapply Forall_impl; [|done]. auto. Qed.

Lemma runs_first lt line lines : runs lt None (line :: lines) = line :: runs lt (Some line) lines.
Proof. done. Qed.

(** C17: Over files of lines that the options can compare ([line_ok]), each with less
    than 1023 characters and a newline at its end, and without [-u] together with
    a key, [sort] ends and writes these lines in an order in which no line is before a smaller one, by the keys
    in turn and then by the whole line, and with [-u] one line of each class of
    equal ones in increasing order.  It exits with 1 exactly when a file or the
    output could not be opened. *)
Theorem main_sorts args specs files opens :
  Forall (fun f => Forall short (default [] f)) files -> key_specs args = Some specs ->
  Forall (line_ok args specs) (all_lines files) -> (unique args = true -> key args = None) ->
  exists out, main randoms atof flt qsort args (option_map text <$> files) opens =
      Some (inl (if opens then (if bool_decide (None ∈ files) then 1 else 0, written args out) else (1, []))) /\
    if unique args
    then out ⊆ all_lines files /\ StronglySorted (fun a b => string_lt args true a b = true) out /\
         forall x, x ∈ all_lines files -> exists y, y ∈ out /\ same (string_lt args true) x y = true
    else out ≡ₚ all_lines files /\ StronglySorted (fun a b => keys_lt args specs b a = false) out.
Proof.
  intros Hf Hk Hok Hu. unfold main. rewrite read_files_text by done. cbn [mbind C_bind lift option_bind app orb].
  destruct (qsort_sorts (line_ok args specs) (keys_lt args specs) (compareLinesSort randoms atof flt args) (all_lines files))
    as (l & Hq & Hp & Hs); [apply keys_lt_order|done| |].
  { intros a b Ha Hb. rewrite List.Forall_forall in Hok. apply compareLines_ok; [done|..]; apply Hok; by apply list_elem_of_In. }
  rewrite Hq. cbn [mbind C_bind].
  assert (Hc : Forall (comparable args true) l).
  { rewrite Hp. eapply Forall_impl; [|exact Hok]. intros x [_ H]. by apply comparable_unique. }
  exists (if unique args then runs (string_lt args true) None l else l). split.
  { destruct opens; [|done]. cbn [negb]. by rewrite output_loop_ok. }
  destruct (unique args); [|done]. unfold key_specs in Hk. rewrite Hu in Hk by done. injection Hk as <-.
  destruct l as [|line l].
  { cbn [runs]. split; [by intros x Hx%elem_of_nil|split; [by constructor|]].
    intros x Hx. rewrite <- Hp in Hx. by apply elem_of_nil in Hx. }
  rewrite runs_first. pose proof (string_lt_order args true) as Ho. destruct (runs_spec (comparable args true) (string_lt args true) l line) as (H1 & H2 & H3).
  { done. }
  { eapply sorted_impl; [|exact Hs]. cbn. intros a b Hab. destruct (string_lt args true b a) eqn:E; [|done].
    by rewrite (string_lt_coarser _ _ _ E) in Hab. }
  split; [|split; [exact H1|]].
  - intros x [->|Hx]%elem_of_cons; rewrite <- Hp; [by left|right; by apply H2].
  - intros x Hx. rewrite <- Hp in Hx. apply elem_of_cons in Hx as [->|Hx]; [|by apply H3].
    exists line. split; [by left|]. unfold same. rewrite Forall_cons_iff in Hc. destruct Hc as [Hline _].
    by rewrite (sw_irrefl (comparable args true)).
Qed.

End Order.

(** ** Examples *)

Section Runs.

(** A [qsort] by insertion. *)
Fixpoint insert (cmp : str -> str -> C Z) (x : str) (l : list str) : C (list str) :=
  match l with
  | [] => mret [x]
  | y :: l' => r ← cmp x y; if r <=? 0 then mret (x :: l) else l'' ← insert cmp x l'; mret (y :: l'')
  end.

Fixpoint insertion_sort (cmp : str -> str -> C Z) (l : list str) : C (list str) :=
  match l with
  | [] => mret []
  | x :: l => l ← insertion_sort cmp l; insert cmp x l
  end.

Lemma insert_sorts (D : str -> Prop) lt cmp x l : StrictWeak D lt -> D x -> Forall D l ->
  (forall y, y ∈ l -> cmp x y = Some (inl (three_way lt x y))) -> StronglySorted (fun a b => lt b a = false) l ->
  exists l', insert cmp x l = Some (inl l') /\ l' ≡ₚ x :: l /\ StronglySorted (fun a b => lt b a = false) l'.
Proof.
  intros Ho Hx Hl Hcmp Hs. induction l as [|y l IH]; cbn [insert].
  { exists [x]. by repeat constructor. }
  pose proof Hl as Hl'. rewrite Forall_cons_iff in Hl. destruct Hl as [Hy Hl]. pose proof Hs as Hs'. apply StronglySorted_inv in Hs as [Hs Hhd].
  rewrite Hcmp by by left. cbn [mbind C_bind]. unfold three_way.
  assert (Hle : lt y x = false -> StronglySorted (fun a b => lt b a = false) (x :: y :: l)).
  { intros E. constructor; [done|]. rewrite Forall_cons_iff. split; [done|]. rewrite List.Forall_forall in Hhd, Hl |- *.
    intros z Hz. by apply (sw_le_trans D lt x y z); auto. }
  destruct (lt x y) eqn:E1; [exists (x :: y :: l); split; [done|split; [done|]]; by apply Hle, (sw_asym x y)|].
  destruct (lt y x) eqn:E2; [|exists (x :: y :: l); split; [done|split; [done|]]; by apply Hle].
  destruct IH as (l' & -> & Hp & Hs2); [done|intros; apply Hcmp; by right|done|]. cbn.
  exists (y :: l'). split; [done|]. split; [by rewrite Hp, Permutation_swap|]. constructor; [done|].
  rewrite Hp, Forall_cons_iff. split; [by apply (sw_asym y x)|done].
Qed.

#[local] Instance insertion_sort_sorts : Qsort insertion_sort.
Proof.
  split. intros D lt cmp l Ho. induction l as [|x l IH]; intros Hl Hcmp; cbn [insertion_sort].
  { exists []. by repeat constructor. }
  rewrite Forall_cons_iff in Hl. destruct Hl as [Hx Hl].
  destruct IH as (l' & -> & Hp & Hs); [done|intros; apply Hcmp; by right|]. cbn [mbind C_bind].
  destruct (insert_sorts D lt cmp x l') as (l2 & H2 & Hp2 & Hs2); [done|done|by rewrite Hp| |done|].
  { intros y Hy. apply Hcmp; [by left|right; by rewrite <- Hp]. }
  exists l2. split; [done|]. split; [by rewrite Hp2, Hp|done].
Qed.

Definition plain : Arguments :=
  mkArguments false false false false false false false false false false false None.
Definition no_randoms (c : Z) : Z := 0.
Definition integer (s : str) : Z := digits_value s 0.

Definition demo_main := main no_randoms integer Z.ltb insertion_sort.

(** [sort -k 2n,1 fruit missing] *)
Definition by_number : Arguments :=
  mkArguments false false false false false false false false false false false (Some (cstr "2n,1")).
Definition fruit : list str := cstr <$> ["pear 10"; "apple 9"; "fig 10"]%string.

Lemma main_sorts_witness :
  exists out, demo_main by_number [Some (text fruit); None] true = Some (inl (1, written by_number out)) /\
    out ≡ₚ fruit /\
    written by_number out = written by_number (cstr <$> ["apple 9"; "fig 10"; "pear 10"]%string).
Proof.
  destruct (main_sorts no_randoms integer Z.ltb (fun _ => True) insertion_sort by_number
    [(2, mkArguments false false false false false false true false false false false (Some (cstr "2n,1"))); (1, by_number)]
    [Some fruit; None] true) as (out & E & Hp & _).
  - repeat constructor; vm_compute; done.
  - vm_compute. reflexivity.
  - repeat constructor; vm_compute; eauto.
  - done.
  - exists out. split; [exact E|]. split; [exact Hp|]. vm_compute in E. injection E as E.
    vm_compute. by rewrite <- E.
Defined.

(** [sort -u] on the same. *)
Lemma sort_unique :
  demo_main (mkArguments false false false false false false false false false false true None)
    [Some (text (cstr <$> ["b"; "a"; "b"]%string))] true = Some (inl (0, text (cstr <$> ["a"; "b"]%string))).
Proof. vm_compute. reflexivity. Qed.

(** With a key, [-u] compares by the string of the key after it is freed. *)
Lemma unique_uses_freed_key :
  demo_main (mkArguments false false false false false false false false false false true (Some (cstr "1")))
    [Some (text (cstr <$> ["a"; "b"]%string))] true = None.
Proof. vm_compute. reflexivity. Qed.

(** The last line is lost when no newline is behind it. *)
Lemma last_line_is_lost : readFile (cstr "a" ++ [10] ++ cstr "b") [] = Some [cstr "a"].
Proof. vm_compute. reflexivity. Qed.

(** Only the end of a line of 1023 characters or more is kept. *)
Lemma start_of_long_line_is_lost : readFile (repeat 97 1023 ++ cstr "bc" ++ [10]) [] = Some [cstr "bc"].
Proof. vm_compute. reflexivity. Qed.

(** [sort -h] never ends on a string that starts with a digit. *)
Lemma human_never_ends s : isdigit (at_ s) = true -> forall fuel val, human_digits fuel s val = None.
Proof. intros H fuel. induction fuel as [|fuel IH]; intros val; cbn; [done|]. by rewrite H. Qed.

(** [sort -d] reads behind the end of strings that differ in what it leaves
    out at their ends. *)
Lemma dictionary_reads_behind_end :
  compareStrings no_randoms integer Z.ltb (cstr "a.") (cstr "a")
    (mkArguments false true false false false false false false false false false None) false = None.
Proof. vm_compute. reflexivity. Qed.

End Runs.

End Sort.
